(* ===== verification/_CoqProject ===== *)
-Q . S2P
Prelude.v
Int128.v
WideInt.v
Decimal.v
Status.v
Session.v
SessionPool.v
SessionSystem.v
SessionTheorems.v
Float32.v
Float64.v
Endpoints.v
EndpointPool.v
DeferredAck.v
WriteTypes.v
WriteSession.v
WriteSessionInv.v
WriteRequests.v
WriteSessionCalls.v
WriteSessionSystem.v
WriteSessionTheorems.v
Retry.v
ValueProto.v
TypeParser.v
MessagePath.v
TypeBuilder.v
ValueParser.v
ValueBuilder.v
ValueTyped.v
ValueReader.v
ValueWriter.v
ValueRoundTrip.v
IntervalTree.v
ReadCommit.v
ReadTypes.v
ReadSession.v
ReadSystem.v
ReadInv.v
ReadHeap.v
ReadProof.v
ReadActions.v
ReadQueue.v
ReadSteps.v
ReadMessages.v
ReadHandlers.v
ReadTheorems.v
KafkaWire.v
KafkaFormat.v
KafkaRecords.v
KafkaBatches.v
KafkaTheorems.v
KafkaLegacy.v
