(* ===== verification/Prelude.v ===== *)
(** * Verification of the YDB C++ SDK client core (ydb-cpp-sdk)

    The SDK talks to a YDB cluster over gRPC.  A driver finds the nodes of the database
    (discovery) and elects one per request; the query and table clients keep sessions on
    the nodes in a pool; failed operations are retried; values and types travel as
    protobuf messages that users read and build through cursors; topics are written
    through sessions that batch, compress, send and resend messages until they are
    acknowledged, and read through sessions that bound the memory of what the server
    sends, decompress it in parallel and give it to the user in order.  This library
    models these parts as executable functions on explicit states and proves that they do
    what they promise.

    ** Conventions

    Code that changes state is a function [M S A := S -> outcome (A * S)] (this file).
    [Y_ABORT_UNLESS] is [Fail (Abort _)], an exception [Fail (Throw _)], an access
    outside of an object or to a freed one [Fail (Undefined _)]: "the operation returns"
    therefore excludes all of them.  [wp] is total correctness; [wpE E] allows the
    failures in [E].  Concurrent code is cut where it releases the lock of its object, and a
    step relation interleaves the pieces in any order: the activities of the session pool,
    the two sections of the discovery handler, [pending_action] and [Resume] of the write
    session, [continuation] and [RunCall] of the read session.  What a section does besides
    under a lock of another object that it takes inside (the events queue of a read session)
    or right after it (events pushed and promises set by a write session, the steps of
    [UseDescription], the promise that the discovery handler swaps out and sets), and
    updates of atomics, are joined to that section.
    Machine integers are [Z] with their wrap-around written out ([wrapU], [wrapS]).  Where
    signed arithmetic overflows, the code is undefined and so is the model: [half_result] of
    the 128-bit integers, [i64_add] of offsets, [check_i64] of the counters of a read
    session, whose atomic counters, which would wrap, stop there too.  Counters that only
    step by one (generations, ids, tasks in flight) and ghost counters are unbounded.
    [float] and [double] are IEEE values of the Standard Library's [SpecFloat].  What the code takes from elsewhere (the clock, random
    numbers, the retry policy of a user, codecs, [std::sort] on equal keys, the answers
    of the server) is an argument or a choice of the environment.

    ** Files, and the code they model (paths under src/src)

    - Prelude.v: the monad, machine integers, [std::multimap], shared lemmas and tactics.
    - Int128.v, WideInt.v, Decimal.v: library/decimal.  [Int128] is the interface of the
      128-bit integers; [TWide] (yql_wide_int.h) implements it by halves; yql_decimal.cpp
      parses, prints and classifies decimals over the interface.
    - Status.v: the status codes and their classes (types/status).
    - Session.v, SessionPool.v, SessionSystem.v, SessionTheorems.v: client/impl/session
      with the parts of client/query and client/table that drive it.  A heap of sessions,
      the pool's map and waiters, and the activities in flight between two critical
      sections.
    - Float32.v, Endpoints.v, EndpointPool.v: client/impl/endpoints, and
      client/impl/internal/db_driver_state/endpoint_pool.cpp with the balancing policies.
    - Float64.v, Retry.v: client/impl/internal/retry, both execution modes.
    - DeferredAck.v: client/topic/impl/deferred_publication_ack_tracker.cpp.
    - WriteTypes.v, WriteSession.v, WriteSessionInv.v, WriteRequests.v,
      WriteSessionCalls.v, WriteSessionSystem.v, WriteSessionTheorems.v:
      client/topic/impl/write_session_impl.cpp and the request sizes of
      client/topic/impl/common.h.
    - ValueProto.v, TypeParser.v, MessagePath.v, TypeBuilder.v, ValueParser.v,
      ValueBuilder.v, ValueTyped.v, ValueReader.v, ValueWriter.v, ValueRoundTrip.v:
      client/value/value.cpp with TypesEqual (client/impl/internal/value_helpers) and
      IsTypeComplete (client/params).  Messages are trees; a pointer into a message that
      is being built is the path to its node (class [Tree] of MessagePath.v).
    - IntervalTree.v: library/cpp/containers/disjoint_interval_tree (under src/).
    - ReadCommit.v, ReadTypes.v, ReadSession.v, ReadSystem.v: client/topic/impl/
      read_session_impl.h, read_session_impl.ipp and read_session.cpp: the offsets of a
      partition session, decompression infos and event queues, the session with its
      connection, budget and close, and its runs.  Partition streams and infos are objects
      of a heap; what the code posts to executors or defers until a lock is released is a
      list of actions, and what is left of a call between its critical sections a list of
      continuations, that run in any order; an info is destroyed by an event once nobody
      refers to it.
    - ReadInv.v, ReadHeap.v, ReadProof.v, ReadActions.v, ReadQueue.v, ReadSteps.v,
      ReadMessages.v, ReadHandlers.v: the invariant of the read session, from the heap of
      infos up to every event.  ReadTheorems.v: what follows.

    - KafkaWire.v, KafkaRecords.v: library/kafka, and the Kafka part of
      client/topic/codecs: a reader and a writer of bytes with their bounds checks, record
      batches of format 2 and of the legacy formats, the codec.  KafkaFormat.v and
      KafkaBatches.v: the format as plain functions, with what is written, measured and
      read.  KafkaTheorems.v, KafkaLegacy.v: what follows.

    ** What is shown

    - Decimals: [FromString] rounds half to even and saturates; [ToString] stays in its
      buffer; the two are inverse; the emulated 128-bit integers compute
      modulo 2^128 or exactly, and it is told where their signed sums are undefined.
    - Sessions: in every reachable state, under any interleaving, no check aborts, no
      freed session is touched, every session has one owner, every request for a session
      is answered exactly once or pending, the counter of active sessions is exact, the
      limit of the query client holds.  A request can be left waiting by the two critical
      sections of [DeleteSession].
    - Endpoints: every history of updates, pessimizations and links runs without an abort;
      the election, which can return a node that has left; one discovery at a time, every
      promise set once.
    - Retries: both modes end, and give the same result after the same calls where no delay
      is undefined; the number of calls; when the backoff is defined, and its bounds in
      double arithmetic.
    - Topic writer: a write session refines a FIFO queue; every message is acknowledged
      in order and once; every call that keeps to [call_ok] returns, and calls that do not
      and abort are computed; requests fit the limit in wire format; the
      memory accounting is exact; tokens.
    - Topic reader: from every reachable state an operation returns or stops in a way that
      is listed with its cause, among them the three assertions that can fail; memory
      counters and read budget are exact; data is given in order without a hole; a session
      without data has asked for more; commits are sent exactly once and without a hole,
      over an interval tree that implements a set.  Runs in which budget or memory is
      lost and in which Close does not do what it documents are computed.
    - Kafka batches: the messages of a block survive the codec up to the number of records
      the reader accepts; header and batch agree for
      any bytes; no bytes make a reader leave its buffer (the header of a legacy batch
      apart, for which a counterexample is computed); legacy entries are read as written;
      sizes are exact; the checksum by table is the remainder that CRC-32C is.
    - Values: printing, reading and building by the cursors compute what recursion on the
      type defines; the builder never leaves its message; a typed builder keeps its type;
      a value survives the round trip through builder and parser.

    ** Bounds and fuel

    [Read] and [FormatTypeInternal] take fuel because the code recurses along the cursor;
    [fuel_for] and [type_size] are computed from the message and the type, and the
    theorems are stated with them, so that running out of fuel is excluded.  The loops of
    the retry contexts are bounded by MaxRetries, those of the write session and the pool
    are structural on their queues.  The loops of the reader's queues ([SignalLoop],
    [GetEventImpl], [GetEventsLoop]) take the number of events as fuel and fail when it
    is used up, which the safety theorem excludes.  [type_size t < 2^32] in the round trip
    keeps the nesting counter of optionals, a [ui32], from wrapping.  The loops of Kafka's
    varints take the bits of their type as fuel, those over legacy entries the bytes that
    are left.

    ** Not modelled

    gRPC and the connections under it, protobuf's parsing and arenas, generated code,
    log output, metrics and tracing; the RPC wrappers of the table, query, scheme,
    coordination, export and other clients, which convert settings and responses field by
    field; credentials; of the topic reader the direct reads, the migration protocol and
    the transactions; the producer and the federated and legacy topic clients; the types of
    Kafka fields that record batches do not have; the util, library/cpp and contrib trees
    the SDK is built on, of which only the functions named in the files are used. *)

From Stdlib Require Export ZArith Lia.
From stdpp Require Export base numbers list gmap strings option sorting.

Declare Scope ydb_scope.
Delimit Scope ydb_scope with ydb.
Open Scope Z_scope.

(** ** Effects

    [Y_ABORT_UNLESS(c)] kills the process, [ythrow] raises an exception, and an
    access outside of an object has no defined behaviour; all are values here, so
    that a theorem that an operation returns also says that it does none of them. *)

Inductive failure :=
  | Abort (msg : string)
  | Throw (msg : string)
  | Undefined (what : string).

Inductive outcome (A : Type) :=
  | Ok (a : A)
  | Fail (f : failure).
Arguments Ok {A} a.
Arguments Fail {A} f.

#[export] Instance outcome_ret : MRet outcome := fun A a => Ok a.
#[export] Instance outcome_bind : MBind outcome := fun A B f m =>
  match m with Ok a => f a | Fail e => Fail e end.

(** Stateful code: explicit state passing through an object or a heap. *)
Definition M (S A : Type) : Type := S -> outcome (A * S).

#[export] Instance M_ret {S} : MRet (M S) := fun A a s => Ok (a, s).
#[export] Instance M_bind {S} : MBind (M S) := fun A B f m s =>
  match m s with Ok (a, s') => f a s' | Fail e => Fail e end.

Definition get_st {S} : M S S := fun s => Ok (s, s).
Definition gets {S A} (f : S -> A) : M S A := fun s => Ok (f s, s).
Definition modify {S} (f : S -> S) : M S unit := fun s => Ok (tt, f s).
Definition throw {S A} (msg : string) : M S A := fun _ => Fail (Throw msg).
Definition abort {S A} (msg : string) : M S A := fun _ => Fail (Abort msg).
Definition undefined {S A} (what : string) : M S A := fun _ => Fail (Undefined what).
Definition abort_unless {S} (b : bool) (msg : string) : M S unit :=
  if b then mret tt else abort msg.
Definition when {S} (b : bool) (m : M S unit) : M S unit :=
  if b then m else mret tt.

(** [for (x : l) f(x)] over an effectful body. *)
Fixpoint for_each {S A} (f : A -> M S unit) (l : list A) : M S unit :=
  match l with
  | [] => mret tt
  | x :: l => f x ;; for_each f l
  end.

(** Total correctness: [m] returns from [s], and its result and final state
    satisfy [Q]. *)
Definition wp {S A} (m : M S A) (Q : A -> S -> Prop) (s : S) : Prop :=
  match m s with Ok (a, s') => Q a s' | Fail _ => False end.

(** The same with a set [E] of failures that are allowed: any other one is excluded. *)
Definition wpE {S A} (E : failure -> Prop) (m : M S A) (Q : A -> S -> Prop) (s : S) : Prop :=
  match m s with Ok (a, s') => Q a s' | Fail f => E f end.

(** ** Machine integers, kept at their width *)

Definition wrapU (w z : Z) : Z := z mod 2 ^ w.
Definition wrapS (w z : Z) : Z :=
  let m := z mod 2 ^ w in if m <? 2 ^ (w - 1) then m else m - 2 ^ w.
Definition inU (w z : Z) : Prop := 0 <= z < 2 ^ w.
Definition inS (w z : Z) : Prop := - 2 ^ (w - 1) <= z < 2 ^ (w - 1).

Abbreviation u8 := (wrapU 8).
Abbreviation u16 := (wrapU 16).
Abbreviation u32 := (wrapU 32).
Abbreviation u64 := (wrapU 64).

(** ** [std::multimap] with an integer key

    Kept as the sequence its iterators walk: keys in order, equal keys in the
    order they were inserted (insertion goes to the upper bound of the key). *)

Fixpoint mm_insert {A} (k : Z) (v : A) (l : list (Z * A)) : list (Z * A) :=
  match l with
  | [] => [(k, v)]
  | (k', v') :: l' =>
      if k <? k' then (k, v) :: l else (k', v') :: mm_insert k v l'
  end.

Definition mm_sorted {A} (l : list (Z * A)) : Prop :=
  StronglySorted (fun x y => x.1 <= y.1) l.

(** ** Tactics and hint databases of the development *)

Create HintDb ydb.

(** Case analysis on the scrutinee of a [match] or [if] of the goal. *)
Ltac case_goal :=
  match goal with
  | |- context [ match ?x with _ => _ end ] =>
      lazymatch x with
      | context [ match _ with _ => _ end ] => fail
      | _ => destruct x eqn:?
      end
  end.

(** The same in a hypothesis. *)
Ltac case_hyp H :=
  match type of H with
  | context [ match ?x with _ => _ end ] =>
      lazymatch x with
      | context [ match _ with _ => _ end ] => fail
      | _ => destruct x eqn:?
      end
  end.

(** Boolean comparisons of the code, as propositions. *)
Ltac bool_to_prop :=
  repeat match goal with
  | H : (_ && _)%bool = true |- _ => apply andb_true_iff in H as [? ?]
  | H : (_ || _)%bool = false |- _ => apply orb_false_iff in H as [? ?]
  | H : negb _ = true |- _ => apply negb_true_iff in H
  | H : negb _ = false |- _ => apply negb_false_iff in H
  | H : bool_decide _ = true |- _ => apply bool_decide_eq_true in H
  | H : bool_decide _ = false |- _ => apply bool_decide_eq_false in H
  | H : (_ =? _) = true |- _ => apply Z.eqb_eq in H
  | H : (_ =? _) = false |- _ => apply Z.eqb_neq in H
  | H : (_ <? _) = true |- _ => apply Z.ltb_lt in H
  | H : (_ <? _) = false |- _ => apply Z.ltb_ge in H
  | H : (_ <=? _) = true |- _ => apply Z.leb_le in H
  | H : (_ <=? _) = false |- _ => apply Z.leb_gt in H
  | H : (_ >? _) = true |- _ => rewrite Z.gtb_ltb in H
  | H : (_ >? _) = false |- _ => rewrite Z.gtb_ltb in H
  | H : (_ >=? _) = true |- _ => rewrite Z.geb_leb in H
  | H : (_ >=? _) = false |- _ => rewrite Z.geb_leb in H
  end.

(** ** Generic lemmas *)

Lemma wp_ret {S A} (a : A) (Q : A -> S -> Prop) s : Q a s -> wp (mret a) Q s.
Proof. done. Qed.

Lemma wp_bind {S A B} (m : M S A) (f : A -> M S B) Q s :
  wp m (fun a s' => wp (f a) Q s') s -> wp (m ≫= f) Q s.
Proof. unfold wp, mbind, M_bind. by destruct (m s) as [[? ?]|]. Qed.

Lemma wp_mono {S A} (m : M S A) (P Q : A -> S -> Prop) s :
  wp m P s -> (forall a s', P a s' -> Q a s') -> wp m Q s.
Proof. unfold wp. destruct (m s) as [[? ?]|]; auto. Qed.

Lemma wp_run {S A} (m : M S A) Q s :
  wp m Q s <-> exists a s', m s = Ok (a, s') /\ Q a s'.
Proof.
  unfold wp. split.
  - destruct (m s) as [[a s']|]; [eauto | done].
  - intros (a & s' & -> & H). exact H.
Qed.

Lemma wp_gets {S A} (f : S -> A) Q s : Q (f s) s -> wp (gets f) Q s.
Proof. done. Qed.

Lemma wp_get_st {S} (Q : S -> S -> Prop) s : Q s s -> wp get_st Q s.
Proof. done. Qed.

Lemma wp_modify {S} (f : S -> S) Q s : Q tt (f s) -> wp (modify f) Q s.
Proof. done. Qed.

Lemma wp_abort_unless {S} b msg (Q : unit -> S -> Prop) s :
  b = true -> Q tt s -> wp (abort_unless b msg) Q s.
Proof. by intros ->. Qed.

Lemma wp_when {S} b (m : M S unit) Q s :
  (b = true -> wp m Q s) -> (b = false -> Q tt s) -> wp (when b m) Q s.
Proof. intros H1 H2. destruct b; [by apply H1 | by apply H2]. Qed.

(** A loop whose every body returns and preserves [I]. *)
Lemma wp_for_each {S A} (f : A -> M S unit) (I : S -> Prop) l s :
  I s -> (forall x s', x ∈ l -> I s' -> wp (f x) (fun _ => I) s') ->
  wp (for_each f l) (fun _ => I) s.
Proof.
  revert s. induction l as [|x l IH]; intros s Hs Hf; simpl; [done|].
  apply wp_bind. eapply wp_mono; [apply Hf; [left|done]|].
  intros u s' Hs'. apply IH; [done|]. intros y s'' Hy. apply Hf. by right.
Qed.

#[export] Hint Resolve wp_ret wp_gets wp_get_st wp_modify : ydb.

(** One step of a weakest-precondition computation. *)
Ltac wp_step :=
  match goal with
  | |- wp (_ ≫= _) _ _ => apply wp_bind
  | |- wp (mret _) _ _ => apply wp_ret
  | |- wp (gets _) _ _ => apply wp_gets
  | |- wp get_st _ _ => apply wp_get_st
  | |- wp (modify _) _ _ => apply wp_modify
  | |- wp (abort_unless _ _) _ _ => apply wp_abort_unless
  | |- wp (when _ _) _ _ => apply wp_when; intros ?
  end.
Ltac wp_steps := repeat (wp_step; cbn beta iota).

Lemma wpE_ret {S A} E (a : A) (Q : A -> S -> Prop) s : Q a s -> wpE E (mret a) Q s.
Proof. done. Qed.

Lemma wpE_bind {S A B} E (m : M S A) (f : A -> M S B) Q s :
  wpE E m (fun a s' => wpE E (f a) Q s') s -> wpE E (m ≫= f) Q s.
Proof. unfold wpE, mbind, M_bind. by destruct (m s) as [[? ?]|]. Qed.

Lemma wpE_unbind {S A B} E (m : M S A) (f : A -> M S B) Q s :
  wpE E (m ≫= f) Q s -> wpE E m (fun a s' => wpE E (f a) Q s') s.
Proof. unfold wpE, mbind, M_bind. by destruct (m s) as [[? ?]|]. Qed.

Lemma wpE_mono {S A} E (m : M S A) (P Q : A -> S -> Prop) s :
  wpE E m P s -> (forall a s', P a s' -> Q a s') -> wpE E m Q s.
Proof. unfold wpE. destruct (m s) as [[? ?]|]; auto. Qed.

Lemma wpE_get_st {S} E (Q : S -> S -> Prop) s : Q s s -> wpE E get_st Q s.
Proof. done. Qed.

Lemma wpE_gets {S A} E (f : S -> A) Q (s : S) : Q (f s) s -> wpE E (gets f) Q s.
Proof. done. Qed.

Lemma wpE_modify {S} E (f : S -> S) Q s : Q tt (f s) -> wpE E (modify f) Q s.
Proof. done. Qed.

Lemma wpE_abort_unless {S} E b msg (Q : unit -> S -> Prop) s :
  b = true -> Q tt s -> wpE E (abort_unless b msg) Q s.
Proof. by intros ->. Qed.

Lemma wpE_when {S} E b (m : M S unit) Q s :
  (b = true -> wpE E m Q s) -> (b = false -> Q tt s) -> wpE E (when b m) Q s.
Proof. intros H1 H2. destruct b; [by apply H1 | by apply H2]. Qed.

Lemma wpE_for_each {S A} E (f : A -> M S unit) (I : S -> Prop) l s :
  I s -> (forall x s', x ∈ l -> I s' -> wpE E (f x) (fun _ => I) s') ->
  wpE E (for_each f l) (fun _ => I) s.
Proof.
  revert s. induction l as [|x l IH]; intros s Hs Hf; simpl; [done|].
  apply wpE_bind. eapply wpE_mono; [apply Hf; [left|done]|].
  intros u s' Hs'. apply IH; [done|]. intros y s'' Hy. apply Hf. by right.
Qed.

Ltac wpE_step :=
  match goal with
  | |- wpE _ (_ ≫= _) _ _ => apply wpE_bind
  | |- wpE _ (mret _) _ _ => apply wpE_ret
  | |- wpE _ get_st _ _ => apply wpE_get_st
  | |- wpE _ (modify _) _ _ => apply wpE_modify
  | |- wpE _ (abort_unless _ _) _ _ => apply wpE_abort_unless
  | |- wpE _ (when _ _) _ _ => apply wpE_when; intros ?
  end.
Ltac wpE_steps := repeat (wpE_step; cbn beta iota).

(** Before the specification of a call. *)
Ltac wpE_call :=
  wpE_steps;
  lazymatch goal with |- wpE _ (_ ≫= _) _ _ => apply wpE_bind | _ => idtac end;
  eapply wpE_mono.

Lemma wpE_weaken {S A} (E E' : failure -> Prop) (m : M S A) Q s : (forall f, E f -> E' f) ->
  wpE E m Q s -> wpE E' m Q s.
Proof. unfold wpE. destruct (m s) as [[? ?]|]; auto. Qed.

(** Partial correctness: any failure is allowed. *)
Abbreviation wpP := (wpE (fun _ => True)).

Lemma wpP_abort_unless {S} b msg (Q : unit -> S -> Prop) s :
  (b = true -> Q tt s) -> wpP (abort_unless b msg) Q s.
Proof. destruct b; [intros H; by apply H|done]. Qed.

Ltac wpP_steps :=
  repeat (cbn beta iota; match goal with
    | |- wpE _ (abort_unless _ _) _ _ => apply wpP_abort_unless; intros ?
    | |- wpE _ (abort _) _ _ => exact I
    | |- wpE _ (throw _) _ _ => exact I
    | |- wpE _ (undefined _) _ _ => exact I
    | |- _ => wpE_step
    end).

Lemma wrapU_small w z : inU w z -> wrapU w z = z.
Proof. unfold inU, wrapU. intros. by apply Z.mod_small. Qed.

Lemma wrapU_range w z : 0 <= w -> inU w (wrapU w z).
Proof. unfold inU, wrapU. intros. apply Z.mod_pos_bound. lia. Qed.

Lemma wrapS_small w z : 1 <= w -> inS w z -> wrapS w z = z.
Proof.
  unfold inS, wrapS. intros Hw Hz.
  assert (2 ^ w = 2 * 2 ^ (w - 1)) as E.
  { rewrite <- Z.pow_succ_r by lia. f_equal. lia. }
  destruct (decide (0 <= z)).
  - rewrite Z.mod_small by lia. rewrite (proj2 (Z.ltb_lt _ _)); lia.
  - rewrite <- (Z.mod_add z 1) by lia. rewrite Z.mod_small by lia.
    rewrite (proj2 (Z.ltb_ge _ _)); lia.
Qed.

Lemma wrapS_range w z : 1 <= w -> inS w (wrapS w z).
Proof.
  intros Hw. unfold inS, wrapS.
  assert (2 ^ w = 2 * 2 ^ (w - 1)) as E.
  { rewrite <- Z.pow_succ_r by lia. f_equal. lia. }
  pose proof (Z.mod_pos_bound z (2 ^ w)).
  destruct (z mod 2 ^ w <? 2 ^ (w - 1)) eqn:Hb; bool_to_prop; lia.
Qed.

Lemma wrapS_cong w z : 1 <= w -> exists k, wrapS w z = z + k * 2 ^ w.
Proof.
  intros Hw. unfold wrapS. pose proof (Z.div_mod z (2 ^ w)) as D.
  destruct (z mod 2 ^ w <? 2 ^ (w - 1)).
  - exists (- (z / 2 ^ w)). lia.
  - exists (- (z / 2 ^ w) - 1). lia.
Qed.

(** Disjoint bit fields combine by addition. *)
Lemma lor_disjoint a b s : 0 <= s -> 0 <= b < 2 ^ s ->
  Z.lor (a * 2 ^ s) b = a * 2 ^ s + b.
Proof.
  intros Hs Hb. symmetry. apply Z.add_nocarry_lor. apply Z.bits_inj'.
  intros i Hi. rewrite Z.land_spec, Z.bits_0.
  destruct (decide (i < s)).
  - rewrite Z.mul_pow2_bits_low by lia. done.
  - rewrite <- (Z.mod_small b (2 ^ s)) by done.
    rewrite Z.mod_pow2_bits_high by lia. apply andb_false_r.
Qed.

(** [x & (1 << i)] is non-zero exactly when bit [i] of [x] is set. *)
Lemma land_bit x i : 0 <= i -> negb (Z.land x (Z.shiftl 1 i) =? 0) = Z.testbit x i.
Proof.
  intros Hi. rewrite Z.shiftl_1_l.
  replace (Z.land x (2 ^ i)) with (if Z.testbit x i then 2 ^ i else 0).
  - destruct (Z.testbit x i); [|done].
    rewrite (proj2 (Z.eqb_neq _ _)); [done|]. pose proof (Z.pow_pos_nonneg 2 i). lia.
  - apply Z.bits_inj'. intros j Hj. rewrite Z.land_spec.
    destruct (decide (i = j)) as [->|Hne].
    + rewrite Z.pow2_bits_true, andb_true_r by lia.
      destruct (Z.testbit x j) eqn:E; [by apply Z.pow2_bits_true | apply Z.bits_0].
    + rewrite (Z.pow2_bits_false i j), andb_false_r by done.
      destruct (Z.testbit x i); [by apply Z.pow2_bits_false | apply Z.bits_0].
Qed.

Lemma mm_insert_perm {A} k (v : A) l : mm_insert k v l ≡ₚ (k, v) :: l.
Proof.
  induction l as [|[k' v'] l IH]; simpl; [done|].
  destruct (k <? k'); [done|]. rewrite IH. apply Permutation_swap.
Qed.

Lemma mm_insert_length {A} k (v : A) l :
  length (mm_insert k v l) = S (length l).
Proof. by rewrite mm_insert_perm. Qed.

Lemma mm_insert_sorted {A} k (v : A) l :
  mm_sorted l -> mm_sorted (mm_insert k v l).
Proof.
  unfold mm_sorted.
  induction l as [|[k' v'] l IH]; simpl; intros H; [by repeat constructor|].
  inversion H as [|? ? Hl Hk]; subst.
  destruct (k <? k') eqn:E; bool_to_prop.
  - constructor; [done|]. constructor; simpl; [lia|].
    eapply Forall_impl; [exact Hk|]. intros [] ?; simpl in *; lia.
  - constructor; [auto|]. rewrite mm_insert_perm. constructor; simpl; [lia|done].
Qed.

Lemma mm_sorted_tail {A} (x : Z * A) l : mm_sorted (x :: l) -> mm_sorted l.
Proof. by inversion 1. Qed.

Lemma mm_sorted_head {A} (x : Z * A) l :
  mm_sorted (x :: l) -> Forall (fun y => x.1 <= y.1) l.
Proof. by inversion 1. Qed.

Lemma StronglySorted_filter_sub {A} (R : A -> A -> Prop) (l l' : list A) :
  sublist l' l -> StronglySorted R l -> StronglySorted R l'.
Proof.
  induction 1 as [|x l1 l2 Hs IH|x l1 l2 Hs IH]; intros H; [done| |].
  - inversion H as [|? ? Hl Hx]; subst. constructor; [auto|].
    apply Forall_forall. intros y Hy. rewrite Forall_forall in Hx.
    apply Hx. by eapply elem_of_sublist.
  - inversion H; auto.
Qed.

#[export] Hint Resolve mm_insert_sorted mm_sorted_tail wrapU_range : ydb.
