(* ===== verification/Int128.v ===== *)
(** * 128-bit integers: the interface the decimal code is written against

    [src/src/library/decimal/yql_decimal.h] names two types, [TInt128] and
    [TUint128], and picks one of two implementations for them at compile time:
    the compiler's [__int128], or the template [TWide] (file WideInt.v).  The
    decimal code only uses the operations below.  [Int128] lists them,
    [Int128Laws] says what they compute on integers, and the theorems of
    Decimal.v are proved against these laws for either implementation. *)

From S2P Require Import Prelude.

(** The operations of [TUint128] ([U]) and [TInt128] ([I]). *)
Class Int128 (I U : Type) := {
  u_lit : Z -> U;            (* construction from a non-negative literal *)
  u_mul : U -> U -> U;
  u_add : U -> U -> U;
  u_div : U -> U -> U;
  u_mod : U -> U -> U;
  u_inc : U -> U;            (* ++v *)
  u_neg : U -> U;
  u_ge : U -> U -> bool;
  u_gt : U -> U -> bool;
  u_bool : U -> bool;        (* contextual conversion to bool *)
  u_low : U -> Z;            (* integral cast to at most 64 bits *)
  i_lit : Z -> I;
  i_mul : I -> I -> I;
  i_add : I -> I -> I;
  i_neg : I -> I;
  i_lt : I -> I -> bool;
  i_eq : I -> I -> bool;
  i_of_u : U -> I;           (* implicit conversions between the two *)
  u_of_i : I -> U
}.

(** What they compute: unsigned arithmetic is modulo [2^128]; signed
    arithmetic is exact where it is defined: a product or a negation where the
    result fits, a sum of two non-negative numbers where it fits (the sum of
    the upper halves of [TWide] may overflow before the carry for others). *)
Class Int128Laws (I U : Type) `{Int128 I U} := {
  uval : U -> Z;
  ival : I -> Z;
  uwf : U -> Prop;
  iwf : I -> Prop;
  uval_range u : uwf u -> inU 128 (uval u);
  ival_range i : iwf i -> inS 128 (ival i);
  u_lit_ok z : inU 64 z -> uwf (u_lit z) /\ uval (u_lit z) = z;
  u_mul_ok a b : uwf a -> uwf b ->
    uwf (u_mul a b) /\ uval (u_mul a b) = wrapU 128 (uval a * uval b);
  u_add_ok a b : uwf a -> uwf b ->
    uwf (u_add a b) /\ uval (u_add a b) = wrapU 128 (uval a + uval b);
  u_div_ok a b : uwf a -> uwf b -> uval b <> 0 ->
    uwf (u_div a b) /\ uval (u_div a b) = uval a / uval b;
  u_mod_ok a b : uwf a -> uwf b -> uval b <> 0 ->
    uwf (u_mod a b) /\ uval (u_mod a b) = uval a mod uval b;
  u_inc_ok a : uwf a -> uwf (u_inc a) /\ uval (u_inc a) = wrapU 128 (uval a + 1);
  u_neg_ok a : uwf a -> uwf (u_neg a) /\ uval (u_neg a) = wrapU 128 (- uval a);
  u_ge_ok a b : uwf a -> uwf b -> u_ge a b = (uval b <=? uval a);
  u_gt_ok a b : uwf a -> uwf b -> u_gt a b = (uval b <? uval a);
  u_bool_ok a : uwf a -> u_bool a = negb (uval a =? 0);
  u_low_ok a : uwf a -> u_low a = wrapU 64 (uval a);
  i_lit_ok z : inU 63 z -> iwf (i_lit z) /\ ival (i_lit z) = z;
  i_mul_ok a b : iwf a -> iwf b -> inS 128 (ival a * ival b) ->
    iwf (i_mul a b) /\ ival (i_mul a b) = ival a * ival b;
  i_add_ok a b : iwf a -> iwf b -> 0 <= ival a -> 0 <= ival b -> inS 128 (ival a + ival b) ->
    iwf (i_add a b) /\ ival (i_add a b) = ival a + ival b;
  i_neg_ok a : iwf a -> inS 128 (- ival a) ->
    iwf (i_neg a) /\ ival (i_neg a) = - ival a;
  i_lt_ok a b : iwf a -> iwf b -> i_lt a b = (ival a <? ival b);
  i_eq_ok a b : iwf a -> iwf b -> i_eq a b = (ival a =? ival b);
  i_of_u_ok a : uwf a -> iwf (i_of_u a) /\ ival (i_of_u a) = wrapS 128 (uval a);
  u_of_i_ok a : iwf a -> uwf (u_of_i a) /\ uval (u_of_i a) = wrapU 128 (ival a)
}.

(** ** The compiler's [__int128]

    A signed result that does not fit is undefined in C++; the laws leave it open. *)

#[export] Instance native_int128 : Int128 Z Z := {|
  u_lit z := z;
  u_mul a b := wrapU 128 (a * b);
  u_add a b := wrapU 128 (a + b);
  u_div a b := a / b;
  u_mod a b := a mod b;
  u_inc a := wrapU 128 (a + 1);
  u_neg a := wrapU 128 (- a);
  u_ge a b := b <=? a;
  u_gt a b := b <? a;
  u_bool a := negb (a =? 0);
  u_low a := wrapU 64 a;
  i_lit z := z;
  i_mul a b := wrapS 128 (a * b);
  i_add a b := wrapS 128 (a + b);
  i_neg a := wrapS 128 (- a);
  i_lt a b := a <? b;
  i_eq a b := a =? b;
  i_of_u a := wrapS 128 a;
  u_of_i a := wrapU 128 a
|}.

Lemma inU_mono w w' z : 0 <= w <= w' -> inU w z -> inU w' z.
Proof.
  unfold inU. intros Hw Hz. pose proof (Z.pow_le_mono_r 2 w w'). lia.
Qed.

Lemma inU_inS w z : 1 <= w -> inU (w - 1) z -> inS w z.
Proof. unfold inU, inS. intros. pose proof (Z.pow_pos_nonneg 2 (w - 1)). lia. Qed.

#[export] Instance native_int128_laws : Int128Laws Z Z.
Proof.
  refine {| uval := fun z => z; ival := fun z => z;
            uwf := inU 128; iwf := inS 128 |}; simpl; try done.
  all: try (intros; split; [apply wrapU_range; lia | done]).
  - intros z Hz. split; [|done]. by apply (inU_mono 64); [lia|].
  - intros a b Ha Hb Hn. split; [|done]. unfold inU in *.
    pose proof (Z.div_le_upper_bound a b a). pose proof (Z.div_pos a b). nia.
  - intros a b Ha Hb Hn. split; [|done]. unfold inU in *.
    pose proof (Z.mod_pos_bound a b). lia.
  - intros z Hz. split; [|done]. apply inU_inS; [lia|].
    by apply (inU_mono 63); [lia|].
  - intros a b ? ? ?. rewrite wrapS_small by (lia || done). done.
  - intros a b ? ? ? ? ?. rewrite wrapS_small by (lia || done). done.
  - intros a ? ?. rewrite wrapS_small by (lia || done). done.
  - intros. split; [apply wrapS_range; lia | done].
Defined.
