(* ===== verification/WideInt.v ===== *)
(** * The double-width integer template [TWide]

    Models [TWide<TOneHalf>] of [src/src/library/decimal/yql_wide_int.h] at the
    two instances the decimal code uses, [TWide<uint64_t>] and
    [TWide<int64_t>]: two 64-bit halves, [Lo] always unsigned ([TPart]) and
    [Hi] of the half type ([THalf]).  The flag [sgn] is [TIsSigned].  [++], [--],
    [+=] and [-=] on a signed [Hi] are undefined when they leave the 64 bits;
    conversions to a half wrap around.

    Shown: every operation computes the intended 128-bit result (schoolbook
    multiplication by 32-bit quarters, the shift-and-subtract division, shifts,
    carries and borrows), and which signed sums and differences are undefined;
    division terminates with the truncated quotient and remainder, and the two
    instances implement the interface of Int128.v. *)

From S2P Require Import Prelude Int128.

Definition PartBitSize : Z := 64.
Definition FullBitSize : Z := 128.
Definition QuarterBitSize : Z := 32.

Record TWide := mkWide { Lo : Z; Hi : Z }.

(** Conversion of a half to [THalf]. *)
Definition half (sgn : bool) (z : Z) : Z :=
  if sgn then wrapS PartBitSize z else wrapU PartBitSize z.

(** The result of an arithmetic operator on [THalf]. *)
Definition half_overflow : failure := Undefined "signed overflow of Hi".

Definition half_result (sgn : bool) (z : Z) : outcome Z :=
  if (sgn && negb ((- 2 ^ 63 <=? z) && (z <? 2 ^ 63)))%bool then Fail half_overflow
  else Ok (half sgn z).

Definition GetUpperQuarter (h : Z) : Z := Z.shiftr h QuarterBitSize.

Definition GetLowerQuarter (h : Z) : Z :=
  let mask := Z.shiftr (wrapU PartBitSize (Z.lnot 0)) QuarterBitSize in
  Z.land h mask.

(** [for (up; up; up >>= 1) ++out], with the at most 64 rounds as fuel. *)
Fixpoint count_bits (fuel : nat) (up out : Z) : Z :=
  match fuel with
  | O => out
  | S fuel => if up =? 0 then out else count_bits fuel (Z.shiftr up 1) (out + 1)
  end.

Definition GetBits (x : TWide) : Z :=
  let out := if negb (Hi x =? 0) then PartBitSize else 0 in
  count_bits 64 (wrapU PartBitSize (if negb (out =? 0) then Hi x else Lo x)) out.

(** ** Constructors and conversions *)

(** [TWide(upper, lower)] *)
Definition wide_pair (sgn : bool) (upper lower : Z) : TWide :=
  mkWide (wrapU 64 lower) (half sgn upper).

(** [TWide(const TSibling&)] *)
Definition wide_sibling (sgn : bool) (x : TWide) : TWide :=
  mkWide (Lo x) (half sgn (Hi x)).

(** [TWide(const T rhs)] for an integral [T] of at most 64 bits; [signed] is
    [std::is_signed<T>]. *)
Definition wide_of_int (sgn signed : bool) (rhs : Z) : TWide :=
  mkWide (wrapU 64 rhs)
         (half sgn (if (signed && (rhs <? 0))%bool then Z.lnot 0 else 0)).

Definition wide_bool (x : TWide) : bool :=
  (negb (Hi x =? 0) || negb (Lo x =? 0))%bool.

(** [CastImpl] to an integral type of at most 64 bits: [static_cast<T>(Lo)]. *)
Definition CastImpl (w : Z) (x : TWide) : Z := wrapU w (Lo x).

(** ** Arithmetic *)

Definition wide_not (sgn : bool) (x : TWide) : TWide :=
  wide_pair sgn (Z.lnot (Hi x)) (Z.lnot (Lo x)).

(** [if (!++Lo) ++Hi] *)
Definition wide_inc (sgn : bool) (x : TWide) : outcome TWide :=
  let lo := wrapU 64 (Lo x + 1) in
  hi ← (if lo =? 0 then half_result sgn (Hi x + 1) else Ok (Hi x));
  Ok (mkWide lo hi).

(** [if (!Lo--) --Hi] *)
Definition wide_dec (sgn : bool) (x : TWide) : outcome TWide :=
  hi ← (if Lo x =? 0 then half_result sgn (Hi x - 1) else Ok (Hi x));
  Ok (mkWide (wrapU 64 (Lo x - 1)) hi).

Definition wide_neg (sgn : bool) (x : TWide) : outcome TWide :=
  let sign := half sgn (Z.shiftl 1 (PartBitSize - 1)) in
  if (sgn && (Lo x =? 0) && (Hi x =? sign))%bool then Ok x
  else wide_inc sgn (wide_not sgn x).

Definition wide_and (sgn : bool) (x y : TWide) : TWide :=
  mkWide (wrapU 64 (Z.land (Lo x) (Lo y))) (half sgn (Z.land (Hi x) (Hi y))).
Definition wide_or (sgn : bool) (x y : TWide) : TWide :=
  mkWide (wrapU 64 (Z.lor (Lo x) (Lo y))) (half sgn (Z.lor (Hi x) (Hi y))).
Definition wide_xor (sgn : bool) (x y : TWide) : TWide :=
  mkWide (wrapU 64 (Z.lxor (Lo x) (Lo y))) (half sgn (Z.lxor (Hi x) (Hi y))).

(** [operator+=]: [Lo += rhs.Lo; Hi += rhs.Hi; if (l > Lo) ++Hi] *)
Definition wide_add (sgn : bool) (x y : TWide) : outcome TWide :=
  let l := Lo x in
  let lo := wrapU 64 (Lo x + Lo y) in
  hi ← half_result sgn (Hi x + Hi y);
  hi ← (if lo <? l then half_result sgn (hi + 1) else Ok hi);
  Ok (mkWide lo hi).

Definition wide_sub (sgn : bool) (x y : TWide) : outcome TWide :=
  let l := Lo x in
  let lo := wrapU 64 (Lo x - Lo y) in
  hi ← half_result sgn (Hi x - Hi y);
  hi ← (if l <? lo then half_result sgn (hi - 1) else Ok hi);
  Ok (mkWide lo hi).

Definition wide_shl (sgn : bool) (x rhs : TWide) : TWide :=
  let shift := Lo rhs mod FullBitSize in
  if shift =? 0 then x
  else if shift <? PartBitSize then
    let hi := half sgn (wrapU 64 (Z.shiftl (wrapU 64 (Hi x)) shift)) in
    mkWide (wrapU 64 (Z.shiftl (Lo x) shift))
           (half sgn (Z.lor hi (Z.shiftr (Lo x) (PartBitSize - shift))))
  else mkWide 0 (half sgn (wrapU 64 (Z.shiftl (Lo x) (shift - PartBitSize)))).

Definition wide_shr (sgn : bool) (x rhs : TWide) : TWide :=
  let shift := Lo rhs mod FullBitSize in
  if shift =? 0 then x
  else if shift <? PartBitSize then
    mkWide (Z.lor (Z.shiftr (Lo x) shift)
                  (wrapU 64 (Z.shiftl (wrapU 64 (Hi x)) (PartBitSize - shift))))
           (half sgn (Z.shiftr (Hi x) shift))
  else mkWide (wrapU 64 (Z.shiftr (Hi x) (shift - PartBitSize)))
              (half sgn (if (sgn && (Hi x <? 0))%bool then Z.lnot 0 else 0)).

(** Schoolbook multiplication on 32-bit quarters, modulo [2^128]. *)
Definition Mul (sgn : bool) (lhs rhs : TWide) : TWide :=
  let part z := wrapU 64 z in
  let lhi := part (Hi lhs) in
  let rhi := part (Hi rhs) in
  let lq0 := GetLowerQuarter (Lo lhs) in let lq1 := GetUpperQuarter (Lo lhs) in
  let lq2 := GetLowerQuarter lhi in let lq3 := GetUpperQuarter lhi in
  let rq0 := GetLowerQuarter (Lo rhs) in let rq1 := GetUpperQuarter (Lo rhs) in
  let rq2 := GetLowerQuarter rhi in let rq3 := GetUpperQuarter rhi in
  let prod0_0 := part (lq0 * rq0) in
  let prod1_0 := part (lq0 * rq1) in let prod1_1 := part (lq1 * rq0) in
  let prod2_0 := part (lq0 * rq2) in let prod2_1 := part (lq1 * rq1) in
  let prod2_2 := part (lq2 * rq0) in
  let prod3_0 := part (lq0 * rq3) in let prod3_1 := part (lq1 * rq2) in
  let prod3_2 := part (lq2 * rq1) in let prod3_3 := part (lq3 * rq0) in
  let fourthQ := GetLowerQuarter prod0_0 in
  let thirdQ := part (GetUpperQuarter prod0_0
    + GetLowerQuarter prod1_0 + GetLowerQuarter prod1_1) in
  let secondQ := part (GetUpperQuarter thirdQ
    + GetUpperQuarter prod1_0 + GetUpperQuarter prod1_1
    + GetLowerQuarter prod2_0 + GetLowerQuarter prod2_1 + GetLowerQuarter prod2_2) in
  let firstQ := part (GetUpperQuarter secondQ
    + GetUpperQuarter prod2_0 + GetUpperQuarter prod2_1 + GetUpperQuarter prod2_2
    + GetLowerQuarter prod3_0 + GetLowerQuarter prod3_1 + GetLowerQuarter prod3_2
    + GetLowerQuarter prod3_3) in
  wide_pair sgn
    (Z.lor (part (Z.shiftl firstQ QuarterBitSize)) (GetLowerQuarter secondQ))
    (Z.lor (part (Z.shiftl thirdQ QuarterBitSize)) fourthQ).

(** [std::tie(Hi, Lo) op std::tie(rhs.Hi, rhs.Lo)] *)
Definition wide_eqb (x y : TWide) : bool := ((Hi x =? Hi y) && (Lo x =? Lo y))%bool.
Definition wide_ltb (x y : TWide) : bool :=
  ((Hi x <? Hi y) || ((Hi x =? Hi y) && (Lo x <? Lo y)))%bool.
Definition wide_geb (x y : TWide) : bool := negb (wide_ltb x y).
Definition wide_gtb (x y : TWide) : bool := wide_ltb y x.

(** The body of [DivMod]'s loop for bit [x] of the dividend. *)
Definition divmod_step (l r : TWide) (x : Z) (dm : TWide * TWide) : outcome (TWide * TWide) :=
  let one := wide_of_int false true 1 in
  let mod_ := wide_shl false dm.2 one in
  let div := wide_shl false dm.1 one in
  let bit := if x <? PartBitSize then Z.land (Lo l) (Z.shiftl 1 x)
             else Z.land (Hi l) (Z.shiftl 1 (x - PartBitSize)) in
  mod_ ← (if negb (bit =? 0) then wide_inc false mod_ else Ok mod_);
  if wide_geb mod_ r then
    mod_ ← wide_sub false mod_ r;
    div ← wide_inc false div;
    Ok (div, mod_)
  else Ok (div, mod_).

(** [for (auto x = l.GetBits(); x;) { ... --x ... }] *)
Fixpoint divmod_loop (l r : TWide) (x : nat) (dm : TWide * TWide) : outcome (TWide * TWide) :=
  match x with
  | O => Ok dm
  | S x => dm ← divmod_step l r (Z.of_nat x) dm; divmod_loop l r x dm
  end.

(** [b ? -x : x] *)
Definition wide_neg_if (sgn b : bool) (x : TWide) : outcome TWide :=
  if b then wide_neg sgn x else Ok x.

Definition DivMod (sgn : bool) (lhs rhs : TWide) : outcome (TWide * TWide) :=
  let nl := (sgn && (Hi lhs <? 0))%bool in
  let nr := (sgn && (Hi rhs <? 0))%bool in
  l ← wide_neg_if sgn nl lhs;
  r ← wide_neg_if sgn nr rhs;
  let l := wide_sibling false l in
  let r := wide_sibling false r in
  let zero := wide_of_int false true 0 in
  dm ← divmod_loop l r (Z.to_nat (GetBits l)) (zero, zero);
  mod_ ← wide_neg_if false nl dm.2;
  div ← wide_neg_if false (xorb nr nl) dm.1;
  Ok (wide_sibling sgn div, wide_sibling sgn mod_).

(** ** What a wide integer denotes *)

Definition wval (x : TWide) : Z := Hi x * 2 ^ 64 + Lo x.

(** The representation invariant: each half at its width. *)
Definition half_ok (sgn : bool) (h : Z) : Prop :=
  if sgn then inS 64 h else inU 64 h.
Definition wide_wf (sgn : bool) (x : TWide) : Prop :=
  inU 64 (Lo x) /\ half_ok sgn (Hi x).

(** Conversion of an integer to the width and signedness of the instance. *)
Definition wrap128 (sgn : bool) (z : Z) : Z :=
  if sgn then wrapS 128 z else wrapU 128 z.

Definition in128 (sgn : bool) (z : Z) : Prop :=
  if sgn then inS 128 z else inU 128 z.

(** ** Halves and values *)

Lemma half_spec sgn z :
  exists k, half sgn z = z + k * 2 ^ 64 /\ half_ok sgn (half sgn z).
Proof.
  destruct sgn; unfold half, half_ok, PartBitSize.
  - destruct (wrapS_cong 64 z) as [k E]; [lia|]. exists k.
    split; [done|]. apply wrapS_range; lia.
  - exists (- (z / 2 ^ 64)). split; [|apply wrapU_range; lia].
    unfold wrapU. pose proof (Z.div_mod z (2 ^ 64)). lia.
Qed.

Lemma part_spec z : exists k, wrapU 64 z = z + k * 2 ^ 64 /\ inU 64 (wrapU 64 z).
Proof. apply (half_spec false). Qed.

Lemma wval_range sgn x : wide_wf sgn x -> in128 sgn (wval x).
Proof.
  destruct sgn; unfold wide_wf, half_ok, in128, inS, inU, wval; simpl; lia.
Qed.

Lemma wrap128_small sgn z : in128 sgn z -> wrap128 sgn z = z.
Proof.
  destruct sgn; unfold in128, wrap128; intros;
    [apply wrapS_small | apply wrapU_small]; done || lia.
Qed.

Lemma wrap128_add sgn z k : wrap128 sgn (z + k * 2 ^ 128) = wrap128 sgn z.
Proof.
  destruct sgn; unfold wrap128, wrapS, wrapU; by rewrite Z.mod_add by lia.
Qed.

(** A well-formed result congruent to [z] modulo [2^128] is [z] wrapped. *)
Lemma wide_intro sgn x z k :
  wide_wf sgn x -> wval x = z + k * 2 ^ 128 -> wval x = wrap128 sgn z.
Proof.
  intros Hwf E. rewrite <- (wrap128_small sgn (wval x)) by by apply wval_range.
  by rewrite E, wrap128_add.
Qed.

(** Name the conversion [half s z] or [wrapU 64 z] by its congruence. *)
Ltac name_half s z :=
  let k := fresh "k" in let E := fresh "E" in let R := fresh "R" in
  destruct (half_spec s z) as (k & E & R).
Ltac name_part z :=
  let k := fresh "k" in let E := fresh "E" in let R := fresh "R" in
  destruct (part_spec z) as (k & E & R).

(** An operation that is defined exactly where [P] holds and gives [z] then. *)
Definition gives (sgn : bool) (P : Prop) (o : outcome TWide) (z : Z) : Prop :=
  (P -> exists y, o = Ok y /\ wide_wf sgn y /\ wval y = wrap128 sgn z) /\
  (~ P -> o = Fail half_overflow).

Lemma gives_ok sgn P o z : gives sgn P o z -> P ->
  exists y, o = Ok y /\ wide_wf sgn y /\ wval y = wrap128 sgn z.
Proof. intros [H _] HP. exact (H HP). Qed.

Lemma gives_intro sgn (P : Prop) y z k :
  wide_wf sgn y -> wval y = z + k * 2 ^ 128 -> P -> gives sgn P (Ok y) z.
Proof.
  intros Hy E HP. split; [|done]. intros _. exists y. split_and!; try done.
  by apply (wide_intro _ _ _ k).
Qed.

Lemma gives_undefined sgn (P : Prop) z : ~ P -> gives sgn P (Fail half_overflow) z.
Proof. by split. Qed.

(** [half_result] wraps the unsigned half and refuses what the signed one cannot hold. *)
Lemma half_result_spec sgn z :
  match half_result sgn z with
  | Ok h => half_ok sgn h /\ (exists k, h = z + k * 2 ^ 64) /\ (sgn = true -> h = z)
  | Fail f => f = half_overflow /\ sgn = true /\ ~ inS 64 z
  end.
Proof.
  unfold half_result. destruct (half_spec sgn z) as (k & E & R).
  destruct sgn; cbn [andb]; [|split_and!; [done|by exists k|done]].
  destruct (_ && _)%bool eqn:Hc; cbn [negb]; bool_to_prop.
  - assert (inS 64 z) as Hz by (unfold inS; change (64 - 1) with 63; lia).
    split; [done|]. split; [by exists k|]. intros _. by apply wrapS_small.
  - split_and!; try done. unfold inS. change (64 - 1) with 63. intros Hz.
    apply andb_false_iff in Hc as [Hc|Hc]; bool_to_prop; lia.
Qed.

Ltac name_result s z :=
  let k := fresh "k" in let E := fresh "E" in let R := fresh "R" in let S := fresh "S" in
  let f := fresh "f" in
  pose proof (half_result_spec s z) as R; destruct (half_result s z) as [?hi|f];
  [destruct R as (R & (k & E) & S) | destruct R as (-> & S & R)].

(** Where the signed operators are defined. *)
Definition inc_defined (sgn : bool) (x : TWide) : Prop := sgn = true -> inS 128 (wval x + 1).
Definition dec_defined (sgn : bool) (x : TWide) : Prop := sgn = true -> inS 128 (wval x - 1).
Definition add_defined (sgn : bool) (x y : TWide) : Prop :=
  sgn = true -> inS 64 (Hi x + Hi y) /\ inS 128 (wval x + wval y).
Definition sub_defined (sgn : bool) (x y : TWide) : Prop :=
  sgn = true -> inS 64 (Hi x - Hi y) /\ inS 128 (wval x - wval y).

Ltac unfold_ranges := unfold half_ok, inS, inU, wval in *; change (64 - 1) with 63 in *;
  change (128 - 1) with 127 in *.

Lemma wide_inc_ok sgn x : wide_wf sgn x ->
  gives sgn (inc_defined sgn x) (wide_inc sgn x) (wval x + 1).
Proof.
  intros [Hlo Hhi]. unfold wide_inc, inc_defined. name_part (Lo x + 1).
  destruct (wrapU 64 (Lo x + 1) =? 0) eqn:Hz; bool_to_prop; cbv [mbind outcome_bind].
  - name_result sgn (Hi x + 1).
    + apply (gives_intro _ _ _ _ k0); [done| |]; unfold_ranges; cbn [Lo Hi]; [lia|].
      intros Hs. specialize (S Hs). subst. lia.
    + apply gives_undefined. intros Hd. specialize (Hd S). unfold_ranges. lia.
  - apply (gives_intro _ _ _ _ 0); [done| |]; unfold_ranges; cbn [Lo Hi]; [lia|].
    intros ->. lia.
Qed.

Lemma wide_dec_ok sgn x : wide_wf sgn x ->
  gives sgn (dec_defined sgn x) (wide_dec sgn x) (wval x - 1).
Proof.
  intros [Hlo Hhi]. unfold wide_dec, dec_defined. name_part (Lo x - 1).
  destruct (Lo x =? 0) eqn:Hz; bool_to_prop; cbv [mbind outcome_bind].
  - name_result sgn (Hi x - 1).
    + apply (gives_intro _ _ _ _ k0); [done| |]; unfold_ranges; cbn [Lo Hi]; [lia|].
      intros Hs. specialize (S Hs). subst. lia.
    + apply gives_undefined. intros Hd. specialize (Hd S). unfold_ranges. lia.
  - apply (gives_intro _ _ _ _ 0); [done| |]; unfold_ranges; cbn [Lo Hi]; [lia|].
    intros ->. lia.
Qed.

Lemma wide_not_ok sgn x :
  wide_wf sgn x ->
  wide_wf sgn (wide_not sgn x) /\
  exists k, wval (wide_not sgn x) = - wval x - 1 + k * 2 ^ 128.
Proof.
  intros [Hlo Hhi]. unfold wide_not, wide_pair, wval; simpl.
  name_part (Z.lnot (Lo x)). name_half sgn (Z.lnot (Hi x)).
  split; [done|]. unfold inU in *. rewrite !Z.lnot_eq_pred_opp in *.
  exists k0. rewrite E0. lia.
Qed.

(** Negation is defined for every operand. *)
Lemma wide_neg_ok sgn x : wide_wf sgn x ->
  exists y, wide_neg sgn x = Ok y /\ wide_wf sgn y /\ wval y = wrap128 sgn (- wval x).
Proof.
  intros Hwf. unfold wide_neg.
  destruct (sgn && (Lo x =? 0) && (Hi x =? _))%bool eqn:Hc; bool_to_prop; subst.
  - exists x. split_and!; try done. apply (wide_intro _ _ _ (-1)); [done|].
    change (half true _) with (- 2 ^ 63) in *. unfold wval. rewrite H0, H1. done.
  - destruct (wide_not_ok sgn x Hwf) as [Hn [k E]].
    destruct (gives_ok _ _ _ _ (wide_inc_ok sgn _ Hn)) as (y & Ey & Hy & Ev).
    { intros ->. cbn [andb] in Hc. change (half true _) with (- 2 ^ 63) in Hc.
      pose proof (wval_range true _ Hn) as Rn. pose proof (wval_range true _ Hwf) as Rx.
      destruct Hwf as [Hlo Hhi]. rewrite E. unfold in128 in *. rewrite E in Rn. unfold_ranges.
      assert (Lo x <> 0 \/ Hi x <> - 2 ^ 63) as Hne
        by (apply andb_false_iff in Hc as [Hc|Hc]; bool_to_prop; tauto). lia. }
    exists y. split_and!; try done.
    rewrite Ev, E, <- (wrap128_add sgn (- wval x) k). f_equal. lia.
Qed.

Lemma wide_add_ok sgn x y : wide_wf sgn x -> wide_wf sgn y ->
  gives sgn (add_defined sgn x y) (wide_add sgn x y) (wval x + wval y).
Proof.
  intros [Hlx Hhx] [Hly Hhy]. unfold wide_add, add_defined.
  name_part (Lo x + Lo y). name_result sgn (Hi x + Hi y); cbv [mbind outcome_bind].
  2: { apply gives_undefined. intros Hd. by destruct (Hd S). }
  destruct (wrapU 64 (Lo x + Lo y) <? Lo x) eqn:Hc; bool_to_prop.
  - name_result sgn (hi + 1).
    + apply (gives_intro _ _ _ _ (k0 + k1)); [done| |]; unfold_ranges; cbn [Lo Hi]; [lia|].
      intros Hs. specialize (S Hs). specialize (S0 Hs). subst. lia.
    + apply gives_undefined. intros Hd. destruct (Hd S0) as [_ Hd'].
      specialize (S S0). subst. unfold_ranges. lia.
  - apply (gives_intro _ _ _ _ k0); [done| |]; unfold_ranges; cbn [Lo Hi]; [lia|].
    intros ->. specialize (S eq_refl). subst. lia.
Qed.

Lemma wide_sub_ok sgn x y : wide_wf sgn x -> wide_wf sgn y ->
  gives sgn (sub_defined sgn x y) (wide_sub sgn x y) (wval x - wval y).
Proof.
  intros [Hlx Hhx] [Hly Hhy]. unfold wide_sub, sub_defined.
  name_part (Lo x - Lo y). name_result sgn (Hi x - Hi y); cbv [mbind outcome_bind].
  2: { apply gives_undefined. intros Hd. by destruct (Hd S). }
  destruct (Lo x <? wrapU 64 (Lo x - Lo y)) eqn:Hc; bool_to_prop.
  - name_result sgn (hi - 1).
    + apply (gives_intro _ _ _ _ (k0 + k1)); [done| |]; unfold_ranges; cbn [Lo Hi]; [lia|].
      intros Hs. specialize (S Hs). specialize (S0 Hs). subst. lia.
    + apply gives_undefined. intros Hd. destruct (Hd S0) as [_ Hd'].
      specialize (S S0). subst. unfold_ranges. lia.
  - apply (gives_intro _ _ _ _ k0); [done| |]; unfold_ranges; cbn [Lo Hi]; [lia|].
    intros ->. specialize (S eq_refl). subst. lia.
Qed.

(** ** Comparisons *)

Lemma wide_ltb_ok sgn x y :
  wide_wf sgn x -> wide_wf sgn y -> wide_ltb x y = (wval x <? wval y).
Proof.
  intros [Hlx _] [Hly _]. unfold wide_ltb, wval, inU in *.
  destruct (Hi x <? Hi y) eqn:E1, (Hi x =? Hi y) eqn:E2,
    (Lo x <? Lo y) eqn:E3; bool_to_prop; simpl; symmetry;
    try (apply Z.ltb_lt; lia); apply Z.ltb_ge; lia.
Qed.

Lemma wide_eqb_ok sgn x y :
  wide_wf sgn x -> wide_wf sgn y -> wide_eqb x y = (wval x =? wval y).
Proof.
  intros [Hlx _] [Hly _]. unfold wide_eqb, wval, inU in *.
  destruct (Hi x =? Hi y) eqn:E2, (Lo x =? Lo y) eqn:E3; bool_to_prop;
    simpl; symmetry; try (apply Z.eqb_eq; lia); apply Z.eqb_neq; lia.
Qed.

Lemma wide_geb_ok sgn x y :
  wide_wf sgn x -> wide_wf sgn y -> wide_geb x y = (wval y <=? wval x).
Proof.
  intros. unfold wide_geb. by rewrite (wide_ltb_ok sgn), Z.leb_antisym.
Qed.

Lemma wide_bool_ok sgn x : wide_wf sgn x -> wide_bool x = negb (wval x =? 0).
Proof.
  intros [Hlx _]. unfold wide_bool, wval, inU in *.
  destruct (Hi x =? 0) eqn:E2, (Lo x =? 0) eqn:E3; bool_to_prop;
    simpl; symmetry; rewrite ?negb_true_iff, ?negb_false_iff;
    try (apply Z.eqb_eq; lia); apply Z.eqb_neq; lia.
Qed.

(** ** Shifts *)

(** [half] and [wrapU 64] keep multiples of [2^s], [s <= 64]. *)
Lemma half_mul sgn a s : 0 <= s <= 64 ->
  exists b, half sgn (wrapU 64 (a * 2 ^ s)) = b * 2 ^ s /\
  exists k, b * 2 ^ s = a * 2 ^ s + k * 2 ^ 64.
Proof.
  intros Hs. name_part (a * 2 ^ s). name_half sgn (wrapU 64 (a * 2 ^ s)).
  replace (2 ^ 64) with (2 ^ (64 - s) * 2 ^ s) in *
    by (rewrite <- Z.pow_add_r by lia; f_equal; lia).
  exists (a + (k + k0) * 2 ^ (64 - s)). rewrite E0, E.
  split; [ring|]. exists (k + k0). ring.
Qed.

Lemma shl_part lo s : inU 64 lo -> 0 <= s <= 64 ->
  wrapU 64 (Z.shiftl lo s) = lo * 2 ^ s - 2 ^ 64 * (lo / 2 ^ (64 - s)) /\
  0 <= lo / 2 ^ (64 - s) < 2 ^ s.
Proof.
  intros Hlo Hs. unfold inU, wrapU in *. rewrite Z.shiftl_mul_pow2 by lia.
  assert (2 ^ 64 = 2 ^ (64 - s) * 2 ^ s) as E
    by (rewrite <- Z.pow_add_r by lia; f_equal; lia).
  assert (0 < 2 ^ (64 - s)) by (apply Z.pow_pos_nonneg; lia).
  assert (0 < 2 ^ s) by (apply Z.pow_pos_nonneg; lia). split.
  - rewrite Z.mod_eq by lia. rewrite E at 2.
    by rewrite Z.div_mul_cancel_r by lia.
  - split; [apply Z.div_pos; lia|]. apply Z.div_lt_upper_bound; lia.
Qed.

Lemma wide_shl_ok sgn x rhs :
  wide_wf sgn x ->
  wide_wf sgn (wide_shl sgn x rhs) /\
  wval (wide_shl sgn x rhs) = wrap128 sgn (wval x * 2 ^ (Lo rhs mod 128)).
Proof.
  intros Hwf. pose proof Hwf as [Hlo Hhi]. unfold wide_shl, FullBitSize, PartBitSize.
  pose proof (Z.mod_pos_bound (Lo rhs) 128 eq_refl) as Hs.
  set (s := Lo rhs mod 128) in *. clearbody s.
  destruct (s =? 0) eqn:H0; [|destruct (s <? 64) eqn:H1]; bool_to_prop.
  - subst. rewrite Z.mul_1_r. split; [done|].
    symmetry. by apply wrap128_small, wval_range.
  - destruct (shl_part (Lo x) s Hlo ltac:(lia)) as [El Rl].
    rewrite (Z.shiftl_mul_pow2 (wrapU 64 (Hi x))), Z.shiftr_div_pow2 by lia.
    destruct (half_mul sgn (wrapU 64 (Hi x)) s ltac:(lia)) as (b & -> & k & Eb).
    name_part (Hi x).
    rewrite lor_disjoint by lia. name_half sgn (b * 2 ^ s + Lo x / 2 ^ (64 - s)).
    match goal with |- wide_wf _ ?y /\ _ => assert (wide_wf sgn y) as Hr end.
    { split; simpl; [apply wrapU_range; lia | done]. }
    split; [done|]. apply (wide_intro _ _ _ (k + k1 + k0 * 2 ^ s)); [done|].
    unfold wval; simpl. rewrite El, E0, Eb, E. ring.
  - assert (exists t, s = 64 + t /\ 0 <= t) as (t & -> & Ht) by (exists (s - 64); lia).
    replace (64 + t - 64) with t by lia. rewrite Z.shiftl_mul_pow2 by lia.
    destruct (half_mul sgn (Lo x * 2 ^ t) 0 ltac:(lia)) as (b & Eb & k & Ek).
    rewrite !Z.mul_1_r in *. rewrite Eb.
    match goal with |- wide_wf _ ?y /\ _ => assert (wide_wf sgn y) as Hr end.
    { split; simpl; [unfold inU; lia |]. rewrite <- Eb. by edestruct half_spec as (? & _ & ?). }
    split; [done|]. apply (wide_intro _ _ _ (k - Hi x * 2 ^ t)); [done|].
    unfold wval; simpl. rewrite Ek, Z.pow_add_r by lia. ring.
Qed.

Lemma half_id sgn z : half_ok sgn z -> half sgn z = z.
Proof.
  destruct sgn; unfold half, half_ok, PartBitSize; intros;
    [apply wrapS_small; done || lia | by apply wrapU_small].
Qed.

Lemma half_ok_shiftr sgn h s : half_ok sgn h -> 0 <= s -> half_ok sgn (h / 2 ^ s).
Proof.
  intros Hh Hs. assert (0 < 2 ^ s) by (apply Z.pow_pos_nonneg; lia).
  pose proof (Z.div_mod h (2 ^ s)). pose proof (Z.mod_pos_bound h (2 ^ s)).
  destruct sgn; unfold half_ok, inS, inU in *; nia.
Qed.

(** The bits of the high half that a right shift moves into the low half. *)
Lemma shr_part h s : 0 <= s <= 64 ->
  wrapU 64 (Z.shiftl (wrapU 64 h) (64 - s)) = (h mod 2 ^ s) * 2 ^ (64 - s).
Proof.
  intros Hs. destruct (shl_part (wrapU 64 h) (64 - s)) as [-> _];
    [apply wrapU_range; lia | lia |].
  replace (64 - (64 - s)) with s by lia.
  assert (2 ^ 64 = 2 ^ s * 2 ^ (64 - s)) as E
    by (rewrite <- Z.pow_add_r by lia; f_equal; lia).
  assert (0 < 2 ^ s) by (apply Z.pow_pos_nonneg; lia).
  replace (h mod 2 ^ s) with (wrapU 64 h mod 2 ^ s).
  - rewrite (Z.mod_eq _ (2 ^ s)) by lia. rewrite E. ring.
  - name_part h. rewrite E0, E, Z.mul_assoc, (Z.mul_comm _ (2 ^ (64 - s))).
    rewrite Z.mul_assoc. by rewrite Z.mod_add by lia.
Qed.

Lemma wide_shr_ok sgn x rhs :
  wide_wf sgn x ->
  wide_wf sgn (wide_shr sgn x rhs) /\
  wval (wide_shr sgn x rhs) = wval x / 2 ^ (Lo rhs mod 128).
Proof.
  intros Hwf. pose proof Hwf as [Hlo Hhi]. unfold wide_shr, FullBitSize, PartBitSize.
  pose proof (Z.mod_pos_bound (Lo rhs) 128 eq_refl) as Hs.
  set (s := Lo rhs mod 128) in *. clearbody s.
  assert (0 < 2 ^ s) as Hp by (apply Z.pow_pos_nonneg; lia).
  destruct (s =? 0) eqn:H0; [|destruct (s <? 64) eqn:H1]; bool_to_prop.
  - subst. by rewrite Z.div_1_r.
  - assert (2 ^ 64 = 2 ^ s * 2 ^ (64 - s)) as E
      by (rewrite <- Z.pow_add_r by lia; f_equal; lia).
    assert (0 < 2 ^ (64 - s)) by (apply Z.pow_pos_nonneg; lia).
    unfold inU in Hlo.
    assert (0 <= Lo x / 2 ^ s < 2 ^ (64 - s)) as Hd
      by (split; [apply Z.div_pos | apply Z.div_lt_upper_bound]; lia).
    pose proof (Z.mod_pos_bound (Hi x) (2 ^ s) Hp) as Hm.
    pose proof (Z.div_mod (Hi x) (2 ^ s) ltac:(lia)) as Hq.
    rewrite shr_part, !Z.shiftr_div_pow2, Z.lor_comm, lor_disjoint,
      half_id by (lia || apply half_ok_shiftr; done || lia).
    split.
    + split; simpl; [unfold inU; nia | apply half_ok_shiftr; done || lia].
    + unfold wval; simpl. rewrite E. rewrite Hq at 3.
      replace ((2 ^ s * (Hi x / 2 ^ s) + Hi x mod 2 ^ s) * (2 ^ s * 2 ^ (64 - s)) + Lo x)
        with (((Hi x / 2 ^ s) * 2 ^ s * 2 ^ (64 - s) +
               (Hi x mod 2 ^ s) * 2 ^ (64 - s)) * 2 ^ s + Lo x) by ring.
      rewrite Z.div_add_l by lia. ring.
  - assert (exists t, s = 64 + t /\ 0 <= t) as (t & -> & Ht) by (exists (s - 64); lia).
    replace (64 + t - 64) with t by lia. rewrite Z.shiftr_div_pow2 by lia.
    assert (0 < 2 ^ t) by (apply Z.pow_pos_nonneg; lia). unfold inU in Hlo.
    assert (wval x / 2 ^ (64 + t) = Hi x / 2 ^ t) as Ev.
    { rewrite Z.pow_add_r, <- Z.div_div by lia. unfold wval.
      by rewrite Z.div_add_l, (Z.div_small (Lo x)), Z.add_0_r by lia. }
    pose proof (half_ok_shiftr sgn (Hi x) t Hhi Ht) as Hr.
    rewrite Ev. unfold wval, wide_wf; simpl. name_part (Hi x / 2 ^ t).
    pose proof (Z.div_mod (Hi x) (2 ^ t)). pose proof (Z.mod_pos_bound (Hi x) (2 ^ t)).
    destruct sgn; simpl in *; unfold half, half_ok, inU, inS, PartBitSize in *.
    + destruct (Hi x <? 0) eqn:Hn; bool_to_prop; [change (wrapS 64 _) with (-1) | change (wrapS 64 _) with 0].
      * assert (Hi x / 2 ^ t < 0) by nia. split; [lia|]. lia.
      * assert (0 <= Hi x / 2 ^ t) by nia. split; [lia|]. lia.
    + change (wrapU 64 0) with 0. split; [lia|]. lia.
Qed.

(** ** Multiplication *)

Lemma GetUpperQuarter_div h : GetUpperQuarter h = h / 2 ^ 32.
Proof. unfold GetUpperQuarter, QuarterBitSize. by rewrite Z.shiftr_div_pow2. Qed.

Lemma GetLowerQuarter_mod h : GetLowerQuarter h = h mod 2 ^ 32.
Proof.
  unfold GetLowerQuarter, PartBitSize, QuarterBitSize.
  change (Z.shiftr _ _) with (Z.ones 32). by rewrite Z.land_ones.
Qed.

Lemma quarters h : exists q0 q1,
  GetLowerQuarter h = q0 /\ GetUpperQuarter h = q1 /\
  h = q1 * 2 ^ 32 + q0 /\ 0 <= q0 < 2 ^ 32.
Proof.
  exists (h mod 2 ^ 32), (h / 2 ^ 32).
  rewrite GetUpperQuarter_div, GetLowerQuarter_mod.
  pose proof (Z.div_mod h (2 ^ 32)). pose proof (Z.mod_pos_bound h (2 ^ 32)).
  repeat split; lia.
Qed.

(** Two quarters packed into a part: the upper one is shifted, its carry lost. *)
Lemma pack_quarters u l : 0 <= u -> 0 <= l < 2 ^ 32 -> exists k,
  Z.lor (wrapU 64 (Z.shiftl u QuarterBitSize)) l = (u + k * 2 ^ 32) * 2 ^ 32 + l /\
  inU 64 (Z.lor (wrapU 64 (Z.shiftl u QuarterBitSize)) l).
Proof.
  intros Hu Hl. unfold QuarterBitSize.
  assert (wrapU 64 (Z.shiftl u 32) = (u mod 2 ^ 32) * 2 ^ 32) as ->.
  { rewrite Z.shiftl_mul_pow2 by lia. unfold wrapU.
    change (2 ^ 64) with (2 ^ 32 * 2 ^ 32). by rewrite Z.mul_mod_distr_r by lia. }
  pose proof (Z.div_mod u (2 ^ 32)). pose proof (Z.mod_pos_bound u (2 ^ 32)).
  exists (- (u / 2 ^ 32)). rewrite lor_disjoint by lia. unfold inU. lia.
Qed.

(** A product of two quarters fits a part; its own quarters are bounded. *)
Lemma quarter_prod a b : 0 <= a < 2 ^ 32 -> 0 <= b < 2 ^ 32 ->
  exists l u, GetLowerQuarter (wrapU 64 (a * b)) = l /\
    GetUpperQuarter (wrapU 64 (a * b)) = u /\
    a * b = u * 2 ^ 32 + l /\ 0 <= l < 2 ^ 32 /\ 0 <= u < 2 ^ 32.
Proof.
  intros Ha Hb. rewrite wrapU_small by (unfold inU; nia).
  destruct (quarters (a * b)) as (l & u & El & Eu & E & R).
  exists l, u. repeat split; try done; try lia. all: nia.
Qed.

Lemma Mul_ok sgn x y :
  wide_wf sgn x -> wide_wf sgn y ->
  wide_wf sgn (Mul sgn x y) /\
  wval (Mul sgn x y) = wrap128 sgn (wval x * wval y).
Proof.
  intros [Hlx Hhx] [Hly Hhy]. unfold Mul.
  name_part (Hi x). name_part (Hi y).
  destruct (quarters (Lo x)) as (a0 & a1 & -> & -> & Ea & Ra).
  destruct (quarters (wrapU 64 (Hi x))) as (a2 & a3 & -> & -> & Ea' & Ra').
  destruct (quarters (Lo y)) as (b0 & b1 & -> & -> & Eb & Rb).
  destruct (quarters (wrapU 64 (Hi y))) as (b2 & b3 & -> & -> & Eb' & Rb').
  unfold inU in *.
  destruct (quarter_prod a0 b0) as (l00 & u00 & -> & -> & E00 & ? & ?); [lia..|].
  destruct (quarter_prod a0 b1) as (l01 & u01 & -> & -> & E01 & ? & ?); [lia..|].
  destruct (quarter_prod a1 b0) as (l10 & u10 & -> & -> & E10 & ? & ?); [lia..|].
  destruct (quarter_prod a0 b2) as (l02 & u02 & -> & -> & E02 & ? & ?); [lia..|].
  destruct (quarter_prod a1 b1) as (l11 & u11 & -> & -> & E11 & ? & ?); [lia..|].
  destruct (quarter_prod a2 b0) as (l20 & u20 & -> & -> & E20 & ? & ?); [lia..|].
  destruct (quarter_prod a0 b3) as (l03 & u03 & -> & _ & E03 & ? & ?); [lia..|].
  destruct (quarter_prod a1 b2) as (l12 & u12 & -> & _ & E12 & ? & ?); [lia..|].
  destruct (quarter_prod a2 b1) as (l21 & u21 & -> & _ & E21 & ? & ?); [lia..|].
  destruct (quarter_prod a3 b0) as (l30 & u30 & -> & _ & E30 & ? & ?); [lia..|].
  rewrite (wrapU_small 64 (u00 + l01 + l10)) by (unfold inU; lia).
  destruct (quarters (u00 + l01 + l10)) as (t & tq & _ & -> & Et & Rt).
  rewrite (wrapU_small 64 (tq + _ + _ + _ + _ + _)) by (unfold inU; lia).
  destruct (quarters (tq + u01 + u10 + l02 + l11 + l20)) as (s & sq & -> & -> & Es & Rs).
  rewrite (wrapU_small 64 (sq + _ + _ + _ + _ + _ + _ + _)) by (unfold inU; lia).
  set (f := sq + u02 + u11 + u20 + l03 + l12 + l21 + l30).
  destruct (pack_quarters f s) as (kf & Ef & Rf); [subst f; lia | done |].
  destruct (pack_quarters (u00 + l01 + l10) l00) as (kt & Ett & Rtt); [lia | done |].
  unfold wide_pair. rewrite (wrapU_small 64 (Z.lor _ l00)) by done.
  name_half sgn (Z.lor (wrapU 64 (Z.shiftl f QuarterBitSize)) s).
  match goal with |- wide_wf _ ?y /\ _ => assert (wide_wf sgn y) as Hr by done end.
  split; [done|].
  assert (wval x * wval y = (Hi x * 2 ^ 64 + Lo x) * (Hi y * 2 ^ 64 + Lo y)) as -> by done.
  replace (Hi x) with (a3 * 2 ^ 32 + a2 - k * 2 ^ 64) by lia.
  replace (Hi y) with (b3 * 2 ^ 32 + b2 - k0 * 2 ^ 64) by lia.
  rewrite Ea, Eb.
  assert (kt = - tq) as -> by (unfold inU in Rtt; lia).
  apply (wide_intro _ _ _ (kf + k1 - (u03 + u12 + u21 + u30)
    - (a1 * b3 + a2 * b2 + a3 * b1 + (a2 * b3 + a3 * b2) * 2 ^ 32 + a3 * b3 * 2 ^ 64)
    + k * (b3 * 2 ^ 96 + b2 * 2 ^ 64 + b1 * 2 ^ 32 + b0)
    + k0 * (a3 * 2 ^ 96 + a2 * 2 ^ 64 + a1 * 2 ^ 32 + a0)
    - k * k0 * 2 ^ 128) Hr).
  unfold wval; simpl Lo; simpl Hi. rewrite E1, Ef, Ett. subst f.
  assert (a0 * b0 + (a0 * b1 + a1 * b0) * 2 ^ 32
    + (a0 * b2 + a1 * b1 + a2 * b0) * 2 ^ 64
    + (a0 * b3 + a1 * b2 + a2 * b1 + a3 * b0) * 2 ^ 96
    = l00 + (u00 + l01 + l10) * 2 ^ 32 + (u01 + u10 + l02 + l11 + l20) * 2 ^ 64
      + (u02 + u11 + u20 + l03 + l12 + l21 + l30) * 2 ^ 96
      + (u03 + u12 + u21 + u30) * 2 ^ 128) as L
    by (rewrite E00, E01, E10, E02, E11, E20, E03, E12, E21, E30; ring).
  clear - L Et Es. lia.
Qed.

(** ** Division *)

Lemma count_bits_ok fuel up out :
  0 <= up < 2 ^ Z.of_nat fuel ->
  out <= count_bits fuel up out <= out + Z.of_nat fuel /\
  up < 2 ^ (count_bits fuel up out - out).
Proof.
  revert up out. induction fuel as [|fuel IH]; intros up out Hup; cbn [count_bits].
  - simpl in Hup. replace (out - out) with 0 by lia. lia.
  - rewrite Nat2Z.inj_succ, Z.pow_succ_r in Hup by lia.
    destruct (up =? 0) eqn:E; bool_to_prop.
    + subst. replace (out - out) with 0 by lia. simpl. lia.
    + rewrite Z.shiftr_div_pow2 by lia. change (2 ^ 1) with 2.
      destruct (IH (up / 2) (out + 1)) as [Hc Hb].
      { split; [apply Z.div_pos; lia | apply Z.div_lt_upper_bound; lia]. }
      split; [lia|]. set (c := count_bits fuel (up / 2) (out + 1)) in *.
      replace (c - out) with (Z.succ (c - (out + 1))) by lia.
      rewrite Z.pow_succ_r by lia. pose proof (Z.div_mod up 2).
      pose proof (Z.mod_pos_bound up 2). lia.
Qed.

Lemma GetBits_ok x : wide_wf false x ->
  0 <= GetBits x <= 128 /\ wval x < 2 ^ GetBits x.
Proof.
  intros [Hlo Hhi]. unfold GetBits, PartBitSize, wval, half_ok in *.
  destruct (Hi x =? 0) eqn:E; cbn [negb]; bool_to_prop.
  - rewrite E. change (negb (0 =? 0)) with false. cbv iota.
    rewrite wrapU_small by done.
    destruct (count_bits_ok 64 (Lo x) 0) as [Hc Hb]; [done|].
    rewrite Z.sub_0_r in Hb. lia.
  - change (negb (64 =? 0)) with true. cbv iota. rewrite wrapU_small by done.
    destruct (count_bits_ok 64 (Hi x) 64) as [Hc Hb]; [done|].
    set (c := count_bits 64 (Hi x) 64) in *. split; [lia|].
    replace c with (64 + (c - 64)) by lia. rewrite Z.pow_add_r by lia.
    unfold inU in *. nia.
Qed.

(** The bit the loop reads is bit [x] of the dividend. *)
Lemma divmod_bit l x : wide_wf false l -> 0 <= x < 128 ->
  negb ((if x <? PartBitSize then Z.land (Lo l) (Z.shiftl 1 x)
         else Z.land (Hi l) (Z.shiftl 1 (x - PartBitSize))) =? 0)
  = Z.testbit (wval l) x.
Proof.
  intros [Hlo Hhi] Hx. unfold PartBitSize, wval.
  rewrite (Z.add_comm (Hi l * 2 ^ 64)). unfold inU in Hlo.
  destruct (x <? 64) eqn:E; bool_to_prop; rewrite land_bit by lia.
  - rewrite <- (Z.mod_pow2_bits_low (Lo l + _) 64 x) by lia.
    by rewrite Z.mod_add, Z.mod_small by lia.
  - replace x with ((x - 64) + 64) at 2 by lia.
    rewrite <- Z.shiftr_spec, Z.shiftr_div_pow2 by lia.
    by rewrite Z.div_add, (Z.div_small (Lo l)) by lia.
Qed.

(** Division of a prefix: one more bit of the dividend. *)
Lemma prefix_step v x : 0 <= x ->
  v / 2 ^ x = 2 * (v / 2 ^ (x + 1)) + Z.b2z (Z.testbit v x).
Proof.
  intros Hx. rewrite Z.testbit_spec' by lia.
  assert (0 < 2 ^ x) by (apply Z.pow_pos_nonneg; lia).
  rewrite Z.pow_add_r, <- Z.div_div by lia. change (2 ^ 1) with 2.
  pose proof (Z.div_mod (v / 2 ^ x) 2 ltac:(lia)). lia.
Qed.

(** What the loop has computed once bits [x] and above are consumed. *)
Definition divmod_inv (l r : TWide) (x : Z) (dm : TWide * TWide) : Prop :=
  wide_wf false dm.1 /\ wide_wf false dm.2 /\
  wval dm.1 * wval r + wval dm.2 = wval l / 2 ^ x /\ wval dm.2 < wval r.

Lemma divmod_step_ok l r x dm :
  wide_wf false l -> wide_wf false r -> 0 < wval r -> 0 <= x < 128 ->
  divmod_inv l r (x + 1) dm -> exists dm', divmod_step l r x dm = Ok dm' /\ divmod_inv l r x dm'.
Proof.
  intros Hl Hr Hr0 Hx (Hd & Hm & E & Hlt). unfold divmod_step.
  rewrite divmod_bit by done.
  pose proof (prefix_step (wval l) x ltac:(lia)) as Hp.
  pose proof (wval_range false l Hl) as Rl. pose proof (wval_range false _ Hd) as Rd.
  pose proof (wval_range false _ Hm) as Rm. pose proof (wval_range false r Hr) as Rr.
  simpl in Rl, Rd, Rm, Rr. unfold inU in *.
  assert (0 <= wval l / 2 ^ x < 2 ^ 128) as Hq.
  { assert (0 < 2 ^ x) by (apply Z.pow_pos_nonneg; lia).
    split; [apply Z.div_pos; lia|]. apply Z.div_lt_upper_bound; [lia|].
    assert (1 <= 2 ^ x) by lia. nia. }
  destruct (wide_shl_ok false dm.2 (wide_of_int false true 1) Hm) as [Hm1 Em1].
  destruct (wide_shl_ok false dm.1 (wide_of_int false true 1) Hd) as [Hd1 Ed1].
  change (2 ^ (Lo (wide_of_int false true 1) mod 128)) with 2 in *.
  rewrite wrap128_small in Em1 by (simpl; unfold inU; destruct (Z.testbit (wval l) x); simpl in Hp; nia).
  rewrite wrap128_small in Ed1 by (simpl; unfold inU; destruct (Z.testbit (wval l) x); simpl in Hp; nia).
  set (m1 := wide_shl false dm.2 _) in *. set (d1 := wide_shl false dm.1 _) in *.
  assert (exists m2, (if Z.testbit (wval l) x then wide_inc false m1 else Ok m1) = Ok m2 /\
    wide_wf false m2 /\ wval m2 = 2 * wval dm.2 + Z.b2z (Z.testbit (wval l) x)) as (m2 & -> & Hm2 & Em2).
  { destruct (Z.testbit (wval l) x); simpl in *; [|exists m1; split_and!; try done; lia].
    destruct (gives_ok _ _ _ _ (wide_inc_ok false m1 Hm1) ltac:(done)) as (y & -> & Hy & Ey).
    exists y. split_and!; try done. rewrite Ey, wrap128_small; [lia|]. simpl. unfold inU. nia. }
  clearbody m1 d1. cbv [mbind outcome_bind]. rewrite (wide_geb_ok false) by done.
  destruct (wval r <=? wval m2) eqn:Hge; bool_to_prop; unfold divmod_inv.
  - destruct (gives_ok _ _ _ _ (wide_sub_ok false m2 r Hm2 Hr) ltac:(done)) as (m3 & -> & Hs & Es).
    destruct (gives_ok _ _ _ _ (wide_inc_ok false d1 Hd1) ltac:(done)) as (d2 & -> & Hi & Ei).
    rewrite wrap128_small in Es by (simpl; unfold inU; destruct (Z.testbit (wval l) x); simpl in *; lia).
    rewrite wrap128_small in Ei by (simpl; unfold inU; destruct (Z.testbit (wval l) x); simpl in *; nia).
    eexists. split; [done|]. cbn [fst snd].
    split_and!; try done; destruct (Z.testbit (wval l) x); simpl in *; lia.
  - eexists. split; [done|]. cbn [fst snd]. split_and!; try done; lia.
Qed.

Lemma divmod_loop_ok l r n dm :
  wide_wf false l -> wide_wf false r -> 0 < wval r -> (n <= 128)%nat ->
  divmod_inv l r (Z.of_nat n) dm ->
  exists dm', divmod_loop l r n dm = Ok dm' /\ divmod_inv l r 0 dm'.
Proof.
  intros Hl Hr H0. revert dm. induction n as [|n IH]; intros dm Hn Hi; [by exists dm|].
  cbn [divmod_loop]. destruct (divmod_step_ok l r (Z.of_nat n) dm) as (dm' & -> & Hi'); try done; [lia| |].
  - by replace (Z.of_nat n + 1) with (Z.of_nat (S n)) by lia.
  - cbv [mbind outcome_bind]. apply IH; [lia|done].
Qed.

Lemma udivmod_ok l r :
  wide_wf false l -> wide_wf false r -> 0 < wval r -> exists dm,
  divmod_loop l r (Z.to_nat (GetBits l)) (wide_of_int false true 0, wide_of_int false true 0) = Ok dm /\
  wide_wf false dm.1 /\ wide_wf false dm.2 /\
  wval dm.1 = wval l / wval r /\ wval dm.2 = wval l mod wval r.
Proof.
  intros Hl Hr H0. destruct (GetBits_ok l Hl) as [Hb Hlt].
  pose proof (wval_range false l Hl) as Rl. simpl in Rl. unfold inU in Rl.
  destruct (divmod_loop_ok l r (Z.to_nat (GetBits l))
    (wide_of_int false true 0, wide_of_int false true 0)) as (dm & -> & H1 & H2 & E & Hm);
    try done; [lia| |].
  { rewrite Z2Nat.id by lia. unfold divmod_inv. cbn [fst snd].
    rewrite Z.div_small by lia. by split_and!. }
  exists dm. rewrite Z.div_1_r in E.
  pose proof (wval_range false _ H2) as R2. simpl in R2. unfold inU in R2.
  split_and!; try done.
  - apply (Z.div_unique_pos _ _ _ (wval dm.2)); lia.
  - apply (Z.mod_unique_pos _ _ (wval dm.1)); lia.
Qed.

Lemma wrap128_cong sgn z : exists k, wrap128 sgn z = z + k * 2 ^ 128.
Proof.
  destruct sgn; unfold wrap128; [apply wrapS_cong; lia|].
  exists (- (z / 2 ^ 128)). unfold wrapU. pose proof (Z.div_mod z (2 ^ 128)). lia.
Qed.

Lemma wrap128_wrap128 sgn sgn' z : wrap128 sgn (wrap128 sgn' z) = wrap128 sgn z.
Proof. destruct (wrap128_cong sgn' z) as [k ->]. apply wrap128_add. Qed.

Lemma wide_sibling_ok sgn sgn' x :
  wide_wf sgn' x ->
  wide_wf sgn (wide_sibling sgn x) /\ wval (wide_sibling sgn x) = wrap128 sgn (wval x).
Proof.
  intros [Hlo Hhi]. name_half sgn (Hi x).
  assert (wide_wf sgn (wide_sibling sgn x)) as Hr by done.
  split; [done|]. apply (wide_intro _ _ _ k Hr).
  unfold wval, wide_sibling; simpl Lo; simpl Hi. rewrite E. lia.
Qed.

Lemma wide_neg_if_ok sgn (b : bool) x : wide_wf sgn x ->
  exists y, wide_neg_if sgn b x = Ok y /\ wide_wf sgn y /\
    wval y = wrap128 sgn (if b then - wval x else wval x).
Proof.
  intros Hwf. destruct b; simpl; [by apply wide_neg_ok|].
  exists x. split_and!; try done. symmetry. by apply wrap128_small, wval_range.
Qed.

(** The operand made non-negative, as an unsigned wide integer. *)
Lemma divmod_abs sgn x :
  wide_wf sgn x -> exists y,
  wide_neg_if sgn (sgn && (Hi x <? 0))%bool x = Ok y /\
  wide_wf false (wide_sibling false y) /\ wval (wide_sibling false y) = Z.abs (wval x) /\
  (sgn && (Hi x <? 0))%bool = (wval x <? 0).
Proof.
  intros Hwf. pose proof (wval_range sgn x Hwf) as R. pose proof Hwf as [Hlo Hhi].
  assert ((sgn && (Hi x <? 0))%bool = (wval x <? 0)) as Hn.
  { unfold wval, half_ok, inU, inS in *.
    destruct sgn; simpl; symmetry; [|apply Z.ltb_ge; lia].
    destruct (Hi x <? 0) eqn:E; bool_to_prop; [apply Z.ltb_lt | apply Z.ltb_ge]; lia. }
  rewrite Hn. destruct (wide_neg_if_ok sgn (wval x <? 0) x Hwf) as (y & -> & Hy & Ey).
  exists y. destruct (wide_sibling_ok false sgn _ Hy) as [H2 E2]. split_and!; try done.
  rewrite E2, Ey, wrap128_wrap128.
  destruct (wval x <? 0) eqn:E; bool_to_prop; rewrite wrap128_small; try lia;
    destruct sgn; simpl in *; unfold inS, inU in *; lia.
Qed.

Lemma DivMod_ok sgn x y :
  wide_wf sgn x -> wide_wf sgn y -> wval y <> 0 -> exists dm, DivMod sgn x y = Ok dm /\
  wide_wf sgn dm.1 /\ wide_wf sgn dm.2 /\
  wval dm.1 = wrap128 sgn (Z.quot (wval x) (wval y)) /\
  wval dm.2 = Z.rem (wval x) (wval y).
Proof.
  intros Hx Hy Hy0. unfold DivMod.
  destruct (divmod_abs sgn x Hx) as (x' & -> & Hl & El & Nx).
  destruct (divmod_abs sgn y Hy) as (y' & -> & Hr & Er & Ny).
  rewrite Nx, Ny. cbv [mbind outcome_bind].
  set (l := wide_sibling false x') in *. set (r := wide_sibling false y') in *.
  destruct (udivmod_ok l r Hl Hr ltac:(lia)) as (dm & -> & H1 & H2 & E1 & E2).
  clearbody l r.
  destruct (wide_neg_if_ok false (wval x <? 0) dm.2 H2) as (m & -> & H4 & E4).
  destruct (wide_neg_if_ok false (xorb (wval y <? 0) (wval x <? 0)) dm.1 H1) as (d & -> & H3 & E3).
  destruct (wide_sibling_ok sgn false _ H3) as [H5 E5].
  destruct (wide_sibling_ok sgn false _ H4) as [H6 E6].
  pose proof (wval_range sgn x Hx) as Rx. pose proof (wval_range sgn y Hy) as Ry.
  eexists. split; [done|]. cbn [fst snd]. split_and!; [done | done | |].
  - rewrite E5, E3, wrap128_wrap128, Z.quot_div, E1, El, Er by done. f_equal.
    destruct (wval y <? 0) eqn:Ey, (wval x <? 0) eqn:Ex; bool_to_prop; simpl.
    all: destruct (decide (wval x = 0)) as [->|]; [simpl; rewrite ?Z.div_0_l by lia; lia|].
    all: rewrite ?(Z.sgn_neg (wval x)), ?(Z.sgn_neg (wval y)),
      ?(Z.sgn_pos (wval x)), ?(Z.sgn_pos (wval y)) by lia; lia.
  - rewrite E6, E4, wrap128_wrap128, Z.rem_mod, E2, El, Er by done.
    pose proof (Z.mod_pos_bound (Z.abs (wval x)) (Z.abs (wval y)) ltac:(lia)).
    rewrite wrap128_small.
    + destruct (wval x <? 0) eqn:Ex; bool_to_prop; [rewrite Z.sgn_neg by lia; lia|].
      destruct (decide (wval x = 0)) as [->|]; [by rewrite Z.mod_0_l by lia|].
      rewrite Z.sgn_pos by lia. lia.
    + destruct sgn; simpl in *; unfold inS, inU in *;
        destruct (wval x <? 0) eqn:Ex; bool_to_prop; lia.
Qed.

(** ** Bitwise operations *)

Lemma wide_testbit h l i : inU 64 l -> 0 <= i ->
  Z.testbit (h * 2 ^ 64 + l) i = if i <? 64 then Z.testbit l i else Z.testbit h (i - 64).
Proof.
  intros Hl Hi. rewrite Z.add_comm. unfold inU in Hl.
  destruct (i <? 64) eqn:E; bool_to_prop.
  - rewrite <- (Z.mod_pow2_bits_low (l + _) 64 i) by lia.
    by rewrite Z.mod_add, Z.mod_small by lia.
  - replace i with ((i - 64) + 64) at 1 by lia.
    rewrite <- Z.shiftr_spec, Z.shiftr_div_pow2 by lia.
    by rewrite Z.div_add, (Z.div_small l) by lia.
Qed.

(** A bitwise operation acts on the two halves separately. *)
Lemma wide_bitwise (op : Z -> Z -> Z) (f : bool -> bool -> bool) x y :
  (forall a b i, 0 <= i -> Z.testbit (op a b) i = f (Z.testbit a i) (Z.testbit b i)) ->
  inU 64 (Lo x) -> inU 64 (Lo y) -> inU 64 (op (Lo x) (Lo y)) ->
  op (Hi x) (Hi y) * 2 ^ 64 + op (Lo x) (Lo y) = op (wval x) (wval y).
Proof.
  intros Hop Hx Hy Ho. apply Z.bits_inj'. intros i Hi. unfold wval.
  rewrite Hop, !wide_testbit by done.
  by destruct (i <? 64) eqn:E; bool_to_prop; rewrite Hop by lia.
Qed.

Lemma bitop_inU (op : Z -> Z -> Z) (f : bool -> bool -> bool) a b :
  (forall a b i, 0 <= i -> Z.testbit (op a b) i = f (Z.testbit a i) (Z.testbit b i)) ->
  f false false = false -> inU 64 a -> inU 64 b -> inU 64 (op a b).
Proof.
  intros Hop Hf Ha Hb. unfold inU in *.
  replace (op a b) with (op a b mod 2 ^ 64); [apply Z.mod_pos_bound; lia|].
  apply Z.bits_inj'. intros i Hi. destruct (decide (i < 64)).
  - by rewrite Z.mod_pow2_bits_low by lia.
  - rewrite Z.mod_pow2_bits_high, Hop by lia.
    rewrite <- (Z.mod_small a (2 ^ 64)), <- (Z.mod_small b (2 ^ 64)) by lia.
    by rewrite !Z.mod_pow2_bits_high by lia.
Qed.

Lemma wide_bitop_ok sgn (op : Z -> Z -> Z) (f : bool -> bool -> bool) x y :
  (forall a b i, 0 <= i -> Z.testbit (op a b) i = f (Z.testbit a i) (Z.testbit b i)) ->
  f false false = false -> wide_wf sgn x -> wide_wf sgn y ->
  wval (mkWide (wrapU 64 (op (Lo x) (Lo y))) (half sgn (op (Hi x) (Hi y))))
  = wrap128 sgn (op (wval x) (wval y)).
Proof.
  intros Hop Hf [Hlx Hhx] [Hly Hhy].
  pose proof (bitop_inU op f _ _ Hop Hf Hlx Hly) as Ho.
  rewrite <- (wide_bitwise op f) by done. rewrite wrapU_small by done.
  name_half sgn (op (Hi x) (Hi y)).
  apply (wide_intro _ _ _ k); [done|]. unfold wval; cbn [Lo Hi]. rewrite E. lia.
Qed.

(** ** [TWide] implements the interface of Int128.v *)

(** The result where an operation is defined, which is where the laws speak of it. *)
Definition result_or (x : TWide) (o : outcome TWide) : TWide :=
  match o with Ok y => y | Fail _ => x end.
Definition DivMod_or (sgn : bool) (x y : TWide) : TWide * TWide :=
  match DivMod sgn x y with Ok dm => dm | Fail _ => (x, x) end.

Lemma result_or_ok sgn x P o z : gives sgn P o z -> P ->
  wide_wf sgn (result_or x o) /\ wval (result_or x o) = wrap128 sgn z.
Proof. intros [H _] HP. by destruct (H HP) as (y & -> & ? & ?). Qed.

Lemma neg_or_ok sgn x : wide_wf sgn x ->
  wide_wf sgn (result_or x (wide_neg sgn x)) /\ wval (result_or x (wide_neg sgn x)) = wrap128 sgn (- wval x).
Proof. intros Hx. by destruct (wide_neg_ok sgn x Hx) as (y & -> & ? & ?). Qed.

#[export] Instance wide_int128 : Int128 TWide TWide := {|
  u_lit z := wide_of_int false false z;
  u_mul := Mul false;
  u_add a b := result_or a (wide_add false a b);
  u_div a b := (DivMod_or false a b).1;
  u_mod a b := (DivMod_or false a b).2;
  u_inc a := result_or a (wide_inc false a);
  u_neg a := result_or a (wide_neg false a);
  u_ge := wide_geb;
  u_gt := wide_gtb;
  u_bool := wide_bool;
  u_low := CastImpl 64;
  i_lit z := wide_of_int true false z;
  i_mul := Mul true;
  i_add a b := result_or a (wide_add true a b);
  i_neg a := result_or a (wide_neg true a);
  i_lt := wide_ltb;
  i_eq := wide_eqb;
  i_of_u := wide_sibling true;
  u_of_i := wide_sibling false
|}.

Lemma wide_lit_ok sgn z : inU 64 z -> in128 sgn z ->
  wide_wf sgn (wide_of_int sgn false z) /\ wval (wide_of_int sgn false z) = z.
Proof.
  intros Hz _. unfold wide_of_int. cbn [andb].
  assert (half sgn 0 = 0) as -> by by destruct sgn.
  rewrite wrapU_small by done. unfold wide_wf, wval; cbn [Lo Hi].
  split; [split; [done|] | lia]. destruct sgn; unfold half_ok, inS, inU; lia.
Qed.

#[export] Instance wide_int128_laws : Int128Laws TWide TWide.
Proof.
  refine {| uval := wval; ival := wval; uwf := wide_wf false; iwf := wide_wf true |}.
  - exact (wval_range false).
  - exact (wval_range true).
  - intros z Hz. apply wide_lit_ok; [done|]. by apply (inU_mono 64); [lia|].
  - intros. by apply (Mul_ok false).
  - intros a b Ha Hb. by apply (result_or_ok false a _ _ _ (wide_add_ok false a b Ha Hb)).
  - intros a b Ha Hb Hn. destruct (DivMod_ok false a b Ha Hb Hn) as (dm & Ed & ? & _ & E & _).
    pose proof (wval_range false a Ha) as Ra. pose proof (wval_range false b Hb) as Rb.
    cbn [u_div u_mod wide_int128]. unfold DivMod_or. rewrite Ed.
    split; [done|]. simpl in *. rewrite E. unfold inU in *.
    rewrite Z.quot_div_nonneg by lia. apply wrapU_small. unfold inU.
    split; [apply Z.div_pos; lia | apply Z.div_lt_upper_bound; nia].
  - intros a b Ha Hb Hn. destruct (DivMod_ok false a b Ha Hb Hn) as (dm & Ed & _ & ? & _ & E).
    pose proof (wval_range false a Ha) as Ra. pose proof (wval_range false b Hb) as Rb.
    cbn [u_div u_mod wide_int128]. unfold DivMod_or. rewrite Ed.
    split; [done|]. simpl in *. rewrite E. unfold inU in *.
    by rewrite Z.rem_mod_nonneg by lia.
  - intros a Ha. by apply (result_or_ok false a _ _ _ (wide_inc_ok false a Ha)).
  - intros. by apply neg_or_ok.
  - exact (wide_geb_ok false).
  - intros. by apply (wide_ltb_ok false).
  - exact (wide_bool_ok false).
  - intros a [Ha _]. simpl. unfold CastImpl, wval, wrapU.
    by rewrite Z.add_comm, Z.mod_add by lia.
  - intros z Hz. apply wide_lit_ok; [by apply (inU_mono 63); [lia|]|].
    apply inU_inS; [lia|]. by apply (inU_mono 63); [lia|].
  - intros a b Ha Hb R. destruct (Mul_ok true a b Ha Hb) as [? E].
    split; [done|]. simpl. by rewrite E, (wrap128_small true).
  - intros a b Ha Hb Pa Pb R.
    destruct (result_or_ok true a _ _ _ (wide_add_ok true a b Ha Hb)) as [? E].
    { intros _. split; [|done]. destruct Ha, Hb. unfold_ranges. lia. }
    split; [done|]. simpl. by rewrite E, (wrap128_small true).
  - intros a Ha R. destruct (neg_or_ok true a Ha) as [? E].
    split; [done|]. simpl. by rewrite E, (wrap128_small true).
  - exact (wide_ltb_ok true).
  - exact (wide_eqb_ok true).
  - intros. by apply (wide_sibling_ok true false).
  - intros. by apply (wide_sibling_ok false true).
Defined.

Definition TWide_computes (sgn : bool) (x y : TWide) : Prop :=
  gives sgn (add_defined sgn x y) (wide_add sgn x y) (wval x + wval y) /\
  gives sgn (sub_defined sgn x y) (wide_sub sgn x y) (wval x - wval y) /\
  gives sgn (inc_defined sgn x) (wide_inc sgn x) (wval x + 1) /\
  gives sgn (dec_defined sgn x) (wide_dec sgn x) (wval x - 1) /\
  gives sgn True (wide_neg sgn x) (- wval x) /\
  wval (Mul sgn x y) = wrap128 sgn (wval x * wval y) /\
  wval (wide_shl sgn x y) = wrap128 sgn (wval x * 2 ^ (Lo y mod 128)) /\
  wval (wide_shr sgn x y) = wval x / 2 ^ (Lo y mod 128) /\
  wval (wide_and sgn x y) = wrap128 sgn (Z.land (wval x) (wval y)) /\
  wval (wide_or sgn x y) = wrap128 sgn (Z.lor (wval x) (wval y)) /\
  wval (wide_xor sgn x y) = wrap128 sgn (Z.lxor (wval x) (wval y)) /\
  wide_ltb x y = (wval x <? wval y) /\ wide_eqb x y = (wval x =? wval y).

(** C37: On well-formed pairs of halves the quarter-by-quarter multiplication, negation,
    shifts and the bitwise operations give the integer result wrapped to 128 bits, signed or
    unsigned, and the comparisons compare the integers.  Unsigned addition, subtraction,
    increment and decrement wrap too.  The signed ones are exact where they are defined, and
    they are defined exactly when the result fits and, for [+] and [-], the sum or the
    difference of the upper halves fits a half as well; everywhere else they are undefined. *)
Theorem TWide_arithmetic (sgn : bool) (x y : TWide) :
  wide_wf sgn x -> wide_wf sgn y -> TWide_computes sgn x y.
Proof.
  intros Hx Hy. split_and!.
  - by apply wide_add_ok.
  - by apply wide_sub_ok.
  - by apply wide_inc_ok.
  - by apply wide_dec_ok.
  - split; [intros _; by apply wide_neg_ok|done].
  - by apply Mul_ok.
  - by apply wide_shl_ok.
  - by apply wide_shr_ok.
  - apply (wide_bitop_ok sgn Z.land andb); auto using Z.land_spec.
  - apply (wide_bitop_ok sgn Z.lor orb); auto using Z.lor_spec.
  - apply (wide_bitop_ok sgn Z.lxor xorb); auto using Z.lxor_spec.
  - by apply (wide_ltb_ok sgn).
  - by apply (wide_eqb_ok sgn).
Qed.

Lemma TWide_arithmetic_witness :
  TWide_computes true (wide_of_int true true (-7)) (wide_of_int true true 3).
Proof.
  apply TWide_arithmetic; vm_compute; intuition discriminate.
Defined.

(** The sum of -1 and -2^127 + 1 is the least number of 128 bits, but [Hi += rhs.Hi] leaves
    the 64 bits before the carry is added: the addition is undefined. *)
Theorem signed_sum_undefined :
  let x := wide_of_int true true (-1) in
  let y := mkWide 1 (- 2 ^ 63) in
  wide_wf true x /\ wide_wf true y /\ wval x = -1 /\ wval y = - 2 ^ 127 + 1 /\
  inS 128 (wval x + wval y) /\ wide_add true x y = Fail half_overflow.
Proof. vm_compute. intuition discriminate. Qed.

(** C38: The shift-and-subtract division of [TWide] is C++ division: for a
    nonzero divisor every operation of it is defined and the loop ends with the
    quotient truncated towards zero (wrapped in the one case where it does not fit) and
    the remainder with the dividend's sign, for both signednesses. *)
Theorem TWide_division (sgn : bool) (x y : TWide) :
  wide_wf sgn x -> wide_wf sgn y -> wval y <> 0 -> exists dm, DivMod sgn x y = Ok dm /\
  wide_wf sgn dm.1 /\ wide_wf sgn dm.2 /\
  wval dm.1 = wrap128 sgn (Z.quot (wval x) (wval y)) /\
  wval dm.2 = Z.rem (wval x) (wval y).
Proof. apply DivMod_ok. Qed.

Lemma TWide_division_witness : exists dm,
  DivMod true (wide_of_int true true (-7)) (wide_of_int true true 3) = Ok dm /\
  wide_wf true dm.1 /\ wide_wf true dm.2 /\
  wval dm.1 = wrap128 true (Z.quot (wval (wide_of_int true true (-7)))
    (wval (wide_of_int true true 3))) /\
  wval dm.2 = Z.rem (wval (wide_of_int true true (-7))) (wval (wide_of_int true true 3)).
Proof.
  apply TWide_division; vm_compute; intuition discriminate.
Defined.
