(* ===== verification/Decimal.v ===== *)
(** * Decimal values: parsing, printing and special values

    Models [src/src/library/decimal/yql_decimal.cpp] and the constants of
    [yql_decimal.h].  A decimal with [precision] digits of which [scale] are
    fractional is a 128-bit integer; [Inf], [Nan] and [Err] are integers above
    the largest value.  The code is generic in the 128-bit implementation, so
    everything here is over the interface of Int128.v.

    A [const char*] result is the list of characters before the terminating
    zero, [None] for [nullptr]; [precision] and [scale] ([ui8]) are naturals.

    Shown: [FromString] rounds half to even at the last digit and saturates to
    infinity, for every string [IsValid] accepts; it never yields an integer
    outside the representable range; [ToString] stays in its 40-byte buffer and
    [FromString] reads its output back. *)

From Stdlib Require Import Ascii.
From S2P Require Import Prelude Int128 WideInt.

Definition is_digit (c : ascii) : bool :=
  let n := Z.of_N (N_of_ascii c) in ((48 <=? n) && (n <=? 57))%bool.

Definition char_ge (c d : ascii) : bool := (N_of_ascii d <=? N_of_ascii c)%N.

Definition digit_val (c : ascii) : Z := Z.of_N (N_of_ascii c) - 48.

Definition ascii_is (c d : ascii) : bool := Ascii.eqb c d.

(** The two anonymous-namespace overloads of [IsNan] and [IsInf] on a C string. *)
Definition str_IsNan (s : list ascii) : bool :=
  match s with
  | c0 :: c1 :: c2 :: _ =>
      ((ascii_is c0 "N" || ascii_is c0 "n") && (ascii_is c1 "A" || ascii_is c1 "a")
       && (ascii_is c2 "N" || ascii_is c2 "n"))%bool
  | _ => false
  end.

Definition str_IsInf (s : list ascii) : bool :=
  match s with
  | c0 :: c1 :: c2 :: _ =>
      ((ascii_is c0 "I" || ascii_is c0 "i") && (ascii_is c1 "N" || ascii_is c1 "n")
       && (ascii_is c2 "F" || ascii_is c2 "f"))%bool
  | _ => false
  end.

(** The optional sign in front of a number. *)
Definition split_sign (str : list ascii) : bool * list ascii :=
  match str with
  | [] => (false, [])
  | c :: rest =>
      let neg := ascii_is c "-" in
      (neg, if (neg || ascii_is c "+")%bool then rest else str)
  end.

(** The digit loop of [IsValid]. *)
Fixpoint valid_loop (s : list ascii) (dot : bool) : bool :=
  match s with
  | [] => true
  | c :: s' =>
      if ascii_is c "." then (if dot then false else valid_loop s' true)
      else if negb (is_digit c) then false
      else valid_loop s' dot
  end.

Definition IsValid (str : list ascii) : bool :=
  match str with
  | [] => false
  | _ =>
      let s := (split_sign str).2 in
      if ((length s =? 3)%nat && (str_IsInf s || str_IsNan s))%bool then true
      else valid_loop s false
  end.

(** The second rounding loop: [for (plus = v & 1; !plus && l > 0; --l)]. *)
Fixpoint half_loop (s : list ascii) (plus : bool) : option (bool * list ascii) :=
  if plus then Some (true, s)
  else match s with
       | [] => Some (false, [])
       | c :: s' =>
           if negb (is_digit c) then None
           else half_loop s' (negb (ascii_is c "0"))
       end.

(** The last loop over the dropped digits, which only validates them. *)
Fixpoint all_digits (s : list ascii) : bool :=
  match s with
  | [] => true
  | c :: s' => if negb (is_digit c) then false else all_digits s'
  end.

Section Decimal.
Context {I U : Type} `{Int128 I U}.

Definition Ten : U := u_lit 10.

Fixpoint divider_loop (scale : nat) (d : U) : U :=
  match scale with
  | O => d
  | S scale => divider_loop scale (u_mul d Ten)
  end.

Definition GetDivider (scale : nat) : U := divider_loop scale (u_lit 1).

Definition MaxPrecision : nat := 35.

Definition Inf : I := i_mul (i_lit 100000000000000000) (i_lit 1000000000000000000).
Definition Nan : I := i_add Inf (i_lit 1).
Definition Err : I := i_add Nan (i_lit 1).

Definition IsError (v : I) : bool := (i_lt Nan v || i_lt v (i_neg Inf))%bool.
Definition IsNan (v : I) : bool := i_eq v Nan.
Definition IsInf (v : I) : bool := (i_eq v Inf || i_eq v (i_neg Inf))%bool.
Definition IsNormal (v : I) : bool := (i_lt v Inf && i_lt (i_neg Inf) v)%bool.

(** ** Printing *)

Definition digit_char (d : Z) : ascii := ascii_of_N (Z.to_N (48 + d)).

(** The [do ... while (v /= Ten)] loop of [ToString]: [inl] is the early
    [return ""], [inr] the state the loop leaves. *)
Fixpoint digits_loop (precision : nat) (v : U) (scale : nat) (s : list ascii)
  : list ascii + (nat * nat * list ascii) :=
  match precision with
  | O => inl []
  | S precision =>
      let digit := wrapU 8 (u_low (u_mod v Ten)) in
      let s := if (negb (digit =? 0) || (scale =? 0)%nat || negb (length s =? 0)%nat)%bool
               then digit_char digit :: s else s in
      let scale' := pred scale in
      let s := if (negb (scale =? 0)%nat && (scale' =? 0)%nat && negb (length s =? 0)%nat)%bool
               then "."%char :: s else s in
      let v := u_div v Ten in
      if u_bool v then digits_loop precision v scale' s
      else inr (precision, scale', s)
  end.

(** [do { if (precision == 0) return nullptr; ... } while (--scale)] *)
Fixpoint pad_loop (precision scale : nat) (s : list ascii) {struct scale} : option (list ascii) :=
  match scale with
  | O => Some s
  | S scale =>
      match precision with
      | O => None
      | S precision => pad_loop precision scale ("0"%char :: s)
      end
  end.

(** The code after the digit loop: zero padding, the point, a leading zero and
    the sign. *)
Definition finish_number (neg : bool) (precision scale : nat) (s : list ascii)
  : option (list ascii) :=
  match (if (scale =? 0)%nat then Some s
         else match pad_loop precision scale s with
              | None => None
              | Some s => Some ("."%char :: s)
              end) with
  | None => None
  | Some s =>
      let s := match s with
               | c :: _ => if ascii_is c "." then "0"%char :: s else s
               | [] => s
               end in
      Some (if neg then "-"%char :: s else s)
  end.

Definition ToString (val : I) (precision scale : nat) : option (list ascii) :=
  if ((precision =? 0)%nat || (MaxPrecision <? precision)%nat || (precision <? scale)%nat)%bool
  then Some []
  else if i_eq val Inf then Some (String.list_ascii_of_string "inf")
  else if i_eq val (i_neg Inf) then Some (String.list_ascii_of_string "-inf")
  else if i_eq val Nan then Some (String.list_ascii_of_string "nan")
  else if negb (IsNormal val) then None
  else if i_eq val (i_lit 0) then Some (String.list_ascii_of_string "0")
  else
    let neg := i_lt val (i_lit 0) in
    let v := u_of_i (if neg then i_neg val else val) in
    match digits_loop precision v scale [] with
    | inl r => Some r
    | inr (precision, scale, s) => finish_number neg precision scale s
    end.

(** ** Parsing *)

(** How the scanning loop of [FromString] ends: an early [return Err()], an
    early return of infinity, or the loop's exit with the characters left, the
    remaining [scale] and [v]. *)
Inductive scan_result :=
  | ScanErr
  | ScanInf
  | ScanStop (rest : list ascii) (scale : nat) (v : U).

Fixpoint scan_loop (s : list ascii) (dot : bool) (scale integral : nat) (v : U)
  : scan_result :=
  match s with
  | [] => ScanStop [] scale v
  | c :: s' =>
      if ascii_is c "." then
        (if dot then ScanErr else scan_loop s' true scale integral v)
      else if (dot && (scale =? 0)%nat)%bool then ScanStop s scale v
      else
        let scale := if dot then pred scale else scale in
        if negb (is_digit c) then ScanErr
        else
          let v := u_add (u_mul v Ten) (u_lit (digit_val c)) in
          if (negb dot && u_gt v (u_lit 0))%bool then
            match integral with
            | O => ScanInf
            | S integral => scan_loop s' dot scale integral v
            end
          else scan_loop s' dot scale integral v
  end.

(** The rounding of the digits beyond [scale]: [None] is [return Err()]. *)
Definition round_rest (rest : list ascii) (precision : nat) (v : U) : option U :=
  match rest with
  | [] => Some v
  | c :: s =>
      if negb (is_digit c) then None
      else
        let plus := negb (char_ge "5" c) in
        match (if (negb plus && ascii_is c "5")%bool
               then half_loop s (negb (Z.land (u_low v) 1 =? 0)) else Some (plus, s)) with
        | None => None
        | Some (plus, s) =>
            if negb (all_digits s) then None
            else if plus then
              let v := u_inc v in
              Some (if u_ge v (GetDivider precision) then u_of_i Inf else v)
            else Some v
        end
  end.

Definition FromString (str : list ascii) (precision scale : nat) : I :=
  if (precision <? scale)%nat then Err
  else match str with
  | [] => Err
  | _ =>
      let '(neg, s) := split_sign str in
      if ((length s =? 3)%nat && str_IsInf s)%bool then (if neg then i_neg Inf else Inf)
      else if ((length s =? 3)%nat && str_IsNan s)%bool then Nan
      else
        match scan_loop s false scale (precision - scale) (u_lit 0) with
        | ScanErr => Err
        | ScanInf => if neg then i_neg Inf else Inf
        | ScanStop rest scale v =>
            match round_rest rest precision v with
            | None => Err
            | Some v =>
                let v := divider_loop scale v in
                i_of_u (if neg then u_neg v else v)
            end
        end
  end.

(** [memcpy] of two little-endian halves into a 128-bit integer. *)
Definition FromHalfs (lo hi : Z) : Z := wrapS 128 (wrapU 64 hi * 2 ^ 64 + lo).

End Decimal.

(** ** What a numeral denotes *)

(** The value of a digit string, the most significant digit first. *)
Definition digits_from (x : Z) (l : list ascii) : Z :=
  foldl (fun a c => a * 10 + digit_val c) x l.

Definition is_digits (l : list ascii) : Prop := Forall (fun c => is_digit c = true) l.

(** An optional sign ([Some true] is minus), the integral digits, and the
    fractional digits when there is a point. *)
Definition numeral (sg : option bool) (ip : list ascii) (fp : option (list ascii))
  : list ascii :=
  match sg with None => [] | Some true => ["-"%char] | Some false => ["+"%char] end ++
  ip ++ match fp with None => [] | Some f => "."%char :: f end.

Definition frac (fp : option (list ascii)) : list ascii := default [] fp.

Definition apply_sign (sg : option bool) (z : Z) : Z :=
  if decide (sg = Some true) then - z else z.

(** The integer nearest to [n / d], the even one of two. *)
Definition round_half_even (n d : Z) : Z :=
  let q := n / d in
  let r := n mod d in
  if 2 * r <? d then q
  else if d <? 2 * r then q + 1
  else if Z.even q then q else q + 1.

Definition saturate (precision : nat) (z : Z) : Z :=
  if z <? 10 ^ Z.of_nat precision then z else 10 ^ 35.

(** The integer that stands for a numeral at a precision and scale. *)
Definition decimal_of (sg : option bool) (ip f : list ascii) (precision scale : nat) : Z :=
  apply_sign sg (saturate precision
    (round_half_even (digits_from 0 (ip ++ f) * 10 ^ Z.of_nat scale)
       (10 ^ Z.of_nat (length f)))).

(** ** Digits *)

Lemma is_digit_val c : is_digit c = true -> 0 <= digit_val c <= 9.
Proof. unfold is_digit, digit_val. intros Hc. bool_to_prop. lia. Qed.

Lemma is_digit_not c d :
  is_digit c = true -> is_digit d = false -> ascii_is c d = false.
Proof.
  intros Hc Hd. unfold ascii_is. destruct (Ascii.eqb_spec c d); congruence.
Qed.

Lemma pow10_pos (n : nat) : 0 < 10 ^ Z.of_nat n.
Proof. apply Z.pow_pos_nonneg; lia. Qed.

Lemma pow10_S (n : nat) : 10 ^ Z.of_nat (S n) = 10 * 10 ^ Z.of_nat n.
Proof. rewrite Nat2Z.inj_succ. apply Z.pow_succ_r. lia. Qed.

Lemma pow10_add (n m : nat) : 10 ^ Z.of_nat (n + m) = 10 ^ Z.of_nat n * 10 ^ Z.of_nat m.
Proof. rewrite Nat2Z.inj_add. apply Z.pow_add_r; lia. Qed.

Lemma pow10_le (n m : nat) : (n <= m)%nat -> 10 ^ Z.of_nat n <= 10 ^ Z.of_nat m.
Proof. intros. apply Z.pow_le_mono_r; lia. Qed.

Lemma pow10_lt128 (n : nat) : (n <= 38)%nat -> 10 ^ Z.of_nat n < 2 ^ 128.
Proof.
  intros Hn. apply (Z.le_lt_trans _ (10 ^ Z.of_nat 38)); [by apply pow10_le | reflexivity].
Qed.

#[export] Hint Resolve pow10_pos : ydb.

Lemma digits_from_app x l k : digits_from x (l ++ k) = digits_from (digits_from x l) k.
Proof. apply foldl_app. Qed.

Lemma digits_from_cons x c l :
  digits_from x (c :: l) = digits_from (x * 10 + digit_val c) l.
Proof. reflexivity. Qed.

Lemma digits_from_shift x l :
  digits_from x l = x * 10 ^ Z.of_nat (length l) + digits_from 0 l.
Proof.
  revert x. induction l as [|c l IH]; intros x; [cbn; lia|].
  rewrite !digits_from_cons, (IH (x * 10 + _)), (IH (0 * 10 + _)).
  cbn [length]. rewrite pow10_S. lia.
Qed.

Lemma digits_from_bound l :
  is_digits l -> 0 <= digits_from 0 l < 10 ^ Z.of_nat (length l).
Proof.
  induction 1 as [|c l Hc _ IH]; [cbn; lia|].
  rewrite digits_from_cons, digits_from_shift. cbn [length]. rewrite pow10_S.
  apply is_digit_val in Hc. nia.
Qed.

Lemma digits_from_ge x l : 0 <= x -> is_digits l -> x <= digits_from x l.
Proof.
  intros Hx Hl. rewrite digits_from_shift. pose proof (digits_from_bound l Hl).
  pose proof (pow10_pos (length l)). nia.
Qed.

(** ** Rounding *)

Lemma round_half_even_spec n d q r :
  0 < d -> n = q * d + r -> 0 <= r < d ->
  round_half_even n d =
    if 2 * r <? d then q else if d <? 2 * r then q + 1
    else if Z.even q then q else q + 1.
Proof.
  intros Hd -> Hr. unfold round_half_even.
  rewrite Z.div_add_l, (Z.div_small r), Z.add_0_r by lia.
  rewrite (Z.add_comm (q * d)), Z.mod_add, (Z.mod_small r) by lia. done.
Qed.

Lemma round_half_even_exact q d : 0 < d -> round_half_even (q * d) d = q.
Proof.
  intros Hd. rewrite (round_half_even_spec _ d q 0) by lia.
  destruct (2 * 0 <? d) eqn:E; bool_to_prop; lia.
Qed.

Lemma round_half_even_scale n d c :
  0 < d -> 0 < c -> round_half_even (n * c) (d * c) = round_half_even n d.
Proof.
  intros Hd Hc. pose proof (Z.div_mod n d ltac:(lia)) as E.
  pose proof (Z.mod_pos_bound n d Hd) as B.
  rewrite (round_half_even_spec n d (n / d) (n mod d)) by lia.
  rewrite (round_half_even_spec (n * c) (d * c) (n / d) (n mod d * c)) by nia.
  replace (2 * (n mod d * c) <? d * c) with (2 * (n mod d) <? d)
    by (apply eq_true_iff_eq; rewrite !Z.ltb_lt; nia).
  replace (d * c <? 2 * (n mod d * c)) with (d <? 2 * (n mod d))
    by (apply eq_true_iff_eq; rewrite !Z.ltb_lt; nia).
  done.
Qed.

Lemma all_digits_ok l : is_digits l -> all_digits l = true.
Proof. induction 1 as [|c l Hc _ IH]; cbn; [done|]. by rewrite Hc. Qed.

Lemma half_loop_ok l plus :
  is_digits l ->
  exists l', half_loop l plus = Some ((plus || (0 <? digits_from 0 l))%bool, l')
    /\ is_digits l'.
Proof.
  intros Hl. revert plus. induction Hl as [|c l Hc Hl IH]; intros [|]; cbn [half_loop].
  - eexists. split; [done|constructor].
  - eexists. split; [done|constructor].
  - eexists. split; [done|by constructor].
  - rewrite Hc. cbn [negb orb]. destruct (IH (negb (ascii_is c "0"))) as (l' & -> & Hl').
    exists l'. split; [|done]. do 2 f_equal.
    rewrite digits_from_cons, (digits_from_shift (0 * 10 + _)).
    pose proof (is_digit_val c Hc). pose proof (digits_from_bound l Hl).
    pose proof (pow10_pos (length l)).
    unfold ascii_is. destruct (Ascii.eqb_spec c "0") as [->|Hne]; cbn [negb orb].
    + f_equal; try (change (digit_val "0") with 0; lia).
    + assert (digit_val c <> 0).
      { intros E. apply Hne. rewrite <- (ascii_N_embedding c). unfold digit_val in E.
        replace (N_of_ascii c) with 48%N by lia. done. }
      pose proof (Z.mul_pos_pos (digit_val c) (10 ^ Z.of_nat (length l))).
      symmetry. apply Z.ltb_lt. lia.
Qed.

Section Correct.
Context {I U : Type} `{Int128Laws I U}.

Lemma Ten_ok : uwf (Ten : U) /\ uval (Ten : U) = 10.
Proof. apply u_lit_ok. unfold inU. lia. Qed.

Lemma shift_digit v d :
  uwf v -> 0 <= d <= 9 -> uval v * 10 + d < 2 ^ 128 ->
  uwf (u_add (u_mul v Ten) (u_lit d)) /\
  uval (u_add (u_mul v Ten) (u_lit d)) = uval v * 10 + d.
Proof.
  intros Hv Hd Hb. pose proof (uval_range v Hv) as R. unfold inU in R.
  destruct Ten_ok as [Ht Et]. destruct (u_lit_ok d) as [Hl El]; [unfold inU; lia|].
  destruct (u_mul_ok v Ten Hv Ht) as [Hm Em].
  destruct (u_add_ok _ _ Hm Hl) as [Ha Ea]. split; [done|].
  rewrite Ea, Em, El, Et, (wrapU_small _ (uval v * 10)) by (unfold inU; lia).
  apply wrapU_small. unfold inU. lia.
Qed.

Lemma divider_loop_ok n v :
  uwf v -> uval v * 10 ^ Z.of_nat n < 2 ^ 128 ->
  uwf (divider_loop n v) /\ uval (divider_loop n v) = uval v * 10 ^ Z.of_nat n.
Proof.
  revert v. induction n as [|n IH]; intros v Hv Hb; cbn [divider_loop].
  - split; [done | lia].
  - rewrite pow10_S in *. pose proof (uval_range v Hv) as R. unfold inU in R.
    pose proof (pow10_pos n). destruct Ten_ok as [Ht Et].
    destruct (u_mul_ok v Ten Hv Ht) as [Hm Em].
    rewrite Et, wrapU_small in Em by (unfold inU; nia).
    destruct (IH _ Hm) as [Hw Ew]; rewrite Em in *; [nia|]. split; [done|]. lia.
Qed.

Lemma GetDivider_ok n :
  (n <= 38)%nat -> uwf (GetDivider n : U) /\ uval (GetDivider n : U) = 10 ^ Z.of_nat n.
Proof.
  intros Hn. unfold GetDivider. destruct (u_lit_ok 1) as [H1 E1]; [unfold inU; lia|].
  pose proof (pow10_lt128 n Hn).
  destruct (divider_loop_ok n (u_lit 1) H1) as [Hd Ed]; rewrite E1 in *; [lia|].
  split; [done | lia].
Qed.

Lemma Inf_ok : iwf (Inf : I) /\ ival (Inf : I) = 10 ^ 35.
Proof.
  unfold Inf. destruct (i_lit_ok 100000000000000000) as [H1 E1]; [unfold inU; lia|].
  destruct (i_lit_ok 1000000000000000000) as [H2 E2]; [unfold inU; lia|].
  destruct (i_mul_ok _ _ H1 H2) as [Hm Em]; rewrite E1, E2 in *; [unfold inS; lia|].
  split; [done|]. by rewrite Em.
Qed.

Lemma Nan_ok : iwf (Nan : I) /\ ival (Nan : I) = 10 ^ 35 + 1.
Proof.
  unfold Nan. destruct Inf_ok as [H1 E1].
  destruct (i_lit_ok 1) as [H2 E2]; [unfold inU; lia|].
  destruct (i_add_ok _ _ H1 H2) as [Hm Em]; [lia|lia|unfold inS; lia|]. rewrite E1, E2 in *.
  by split.
Qed.

Lemma Err_ok : iwf (Err : I) /\ ival (Err : I) = 10 ^ 35 + 2.
Proof.
  unfold Err. destruct Nan_ok as [H1 E1].
  destruct (i_lit_ok 1) as [H2 E2]; [unfold inU; lia|].
  destruct (i_add_ok _ _ H1 H2) as [Hm Em]; [lia|lia|unfold inS; lia|]. rewrite E1, E2 in *.
  split; [done|]. rewrite Em. lia.
Qed.

Lemma neg_Inf_ok : iwf (i_neg Inf : I) /\ ival (i_neg Inf : I) = - 10 ^ 35.
Proof.
  destruct Inf_ok as [H1 E1].
  destruct (i_neg_ok _ H1) as [Hm Em]; rewrite E1 in *; [unfold inS; lia|]. by split.
Qed.

(** ** The scanning loop *)

Definition is_stop (r : @scan_result U) (rest : list ascii) (scale : nat) (x : Z) : Prop :=
  exists v, r = ScanStop rest scale v /\ uwf v /\ uval v = x.

(** Fractional digits: at most [scale] of them are read. *)
Lemma scan_frac f sc k v m :
  is_digits f -> uwf v -> uval v < 10 ^ Z.of_nat m -> (m + sc <= 38)%nat ->
  is_stop (scan_loop f true sc k v) (drop sc f) (sc - length f)
    (digits_from (uval v) (take sc f)).
Proof.
  intros Hf. revert sc v m. induction Hf as [|c f Hc Hf IH]; intros sc v m Hv Hb Hm.
  - cbn. rewrite drop_nil, take_nil, Nat.sub_0_r. by exists v.
  - cbn [scan_loop]. rewrite (is_digit_not c "."), Hc by done. cbn [andb negb].
    destruct sc as [|sc]; cbn [Nat.eqb pred].
    + by exists v.
    + pose proof (is_digit_val c Hc). pose proof (uval_range v Hv) as R. unfold inU in R.
      pose proof (pow10_lt128 (S m) ltac:(lia)) as Hl. rewrite pow10_S in Hl.
      destruct (shift_digit v (digit_val c)) as [Hw Ew]; [done|done|lia|].
      cbn [take drop length Nat.sub]. rewrite digits_from_cons, <- Ew.
      apply (IH _ _ (S m)); [done| |lia]. rewrite Ew, pow10_S. lia.
Qed.

(** Integral digits: [m] of them have been counted since the first nonzero
    one, and [k] more are allowed. *)
Lemma scan_int ip rest sc m k v :
  is_digits ip -> uwf v -> (m + k <= 35)%nat ->
  (uval v = 0 /\ m = 0%nat \/ 10 ^ Z.of_nat m <= uval v * 10 < 10 ^ Z.of_nat (S m)) ->
  let x := digits_from (uval v) ip in
  if x <? 10 ^ Z.of_nat (m + k) then
    exists k' v', scan_loop (ip ++ rest) false sc k v = scan_loop rest false sc k' v'
      /\ uwf v' /\ uval v' = x
  else scan_loop (ip ++ rest) false sc k v = ScanInf.
Proof.
  intros Hip. revert m k v. induction Hip as [|c ip Hc Hip IH]; intros m k v Hv Hm Hx x.
  - subst x. cbn [digits_from foldl app]. rewrite (proj2 (Z.ltb_lt _ _)); [by exists k, v|].
    rewrite pow10_add. rewrite pow10_S in Hx.
    pose proof (pow10_pos k). pose proof (pow10_pos m).
    pose proof (Z.le_mul_diag_r (10 ^ Z.of_nat m) (10 ^ Z.of_nat k)).
    destruct Hx as [[-> ->]|Hx]; lia.
  - cbn [app scan_loop]. rewrite (is_digit_not c "."), Hc by done. cbn [andb negb].
    pose proof (is_digit_val c Hc) as Hd. pose proof (uval_range v Hv) as R. unfold inU in R.
    pose proof (pow10_lt128 (S (S m)) ltac:(lia)) as Hl.
    rewrite !(pow10_S (S m)), !(pow10_S m) in *. pose proof (pow10_pos m) as Hp.
    destruct (shift_digit v (digit_val c)) as [Hw Ew]; [done|done|lia|].
    destruct (u_lit_ok 0) as [Hz E0]; [unfold inU; lia|].
    rewrite (u_gt_ok _ _ Hw Hz), E0. subst x. rewrite digits_from_cons, <- Ew.
    set (v1 := u_add _ _) in *. destruct (0 <? uval v1) eqn:E; bool_to_prop.
    + destruct k as [|k].
      * rewrite (proj2 (Z.ltb_ge _ _)); [done|]. rewrite Nat.add_0_r.
        assert (uval v1 <= digits_from (uval v1) ip) by (apply digits_from_ge; [lia|done]).
        destruct Hx as [[_ ->]|Hx]; change (10 ^ Z.of_nat 0) with 1 in *; lia.
      * replace (m + S k)%nat with (S m + k)%nat by lia.
        apply IH; [done|lia|right]. rewrite !pow10_S.
        destruct Hx as [[Hv0 ->]|Hx]; change (10 ^ Z.of_nat 0) with 1 in *; lia.
    + apply IH; [done|done|left]. destruct Hx as [[_ ->]|Hx]; [split; [lia|done] | lia].
Qed.

(** ** Rounding the digits beyond the scale *)

Lemma u_odd v : uwf v -> negb (Z.land (u_low v) 1 =? 0) = Z.odd (uval v).
Proof.
  intros Hv. rewrite (u_low_ok v Hv). change 1 with (Z.ones 1).
  rewrite Z.land_ones by lia. unfold wrapU.
  replace ((uval v mod 2 ^ 64) mod 2 ^ 1) with (uval v mod 2); [|].
  - rewrite Zmod_odd. by destruct (Z.odd (uval v)).
  - change (2 ^ 64) with (2 * 2 ^ 63). rewrite Z.rem_mul_r by lia.
    rewrite (Z.mul_comm 2), Z.mod_add, Z.mod_mod by lia. done.
Qed.

Lemma digit_is_5 c : is_digit c = true -> ascii_is c "5" = (digit_val c =? 5).
Proof.
  intros _. apply eq_true_iff_eq. unfold ascii_is. rewrite Ascii.eqb_eq, Z.eqb_eq.
  split; [by intros ->|]. unfold digit_val. intros E.
  rewrite <- (ascii_N_embedding c). by replace (N_of_ascii c) with 53%N by lia.
Qed.

Lemma digit_gt_5 c : negb (char_ge "5" c) = (5 <? digit_val c).
Proof.
  unfold char_ge, digit_val. apply eq_true_iff_eq.
  rewrite negb_true_iff, N.leb_gt, Z.ltb_lt. change (N_of_ascii "5") with 53%N. lia.
Qed.

(** The decision of [round_rest] is the rounding decision on the digits. *)
Lemma round_decision q d t w :
  0 < w -> 0 <= d <= 9 -> 0 <= t < w ->
  round_half_even (q * (10 * w) + (d * w + t)) (10 * w) =
  q + Z.b2z (if ((d =? 5) && negb (5 <? d))%bool then (Z.odd q || (0 <? t))%bool else 5 <? d).
Proof.
  intros Hw Hd Ht. rewrite (round_half_even_spec _ (10 * w) q (d * w + t)) by nia.
  rewrite <- Z.negb_odd.
  destruct (Z.eqb_spec d 5) as [->|Hne]; cbn [andb negb Z.ltb].
  - rewrite (proj2 (Z.ltb_ge (2 * _) _)) by lia.
    destruct (0 <? t) eqn:E; bool_to_prop.
    + rewrite (proj2 (Z.ltb_lt _ _)) by lia. by destruct (Z.odd q).
    + rewrite (proj2 (Z.ltb_ge _ _)) by lia. destruct (Z.odd q); cbn; lia.
  - destruct (5 <? d) eqn:E; bool_to_prop; cbn [Z.b2z].
    + rewrite (proj2 (Z.ltb_ge _ _)), (proj2 (Z.ltb_lt _ _)) by nia. done.
    + rewrite (proj2 (Z.ltb_lt _ _)) by nia. lia.
Qed.

Lemma round_rest_ok rest p v :
  is_digits rest -> uwf v -> (p <= 35)%nat -> uval v < 10 ^ Z.of_nat p ->
  let w := 10 ^ Z.of_nat (length rest) in
  exists v', round_rest rest p v = Some v' /\ uwf v' /\
    uval v' = saturate p (round_half_even (uval v * w + digits_from 0 rest) w).
Proof.
  intros Hr Hv Hp Hq w. destruct Hr as [|c s Hc Hs]; unfold saturate.
  - subst w. exists v. cbn [digits_from foldl length]. change (10 ^ Z.of_nat 0) with 1.
    rewrite Z.add_0_r, round_half_even_exact, (proj2 (Z.ltb_lt _ _)) by lia. done.
  - subst w. cbn [length]. rewrite digits_from_cons, digits_from_shift, pow10_S.
    pose proof (is_digit_val c Hc). pose proof (pow10_pos (length s)).
    replace (0 * 10 + digit_val c) with (digit_val c) by lia.
    rewrite round_decision by (auto using digits_from_bound).
    unfold round_rest. rewrite Hc, digit_gt_5, (digit_is_5 c Hc), u_odd by done.
    cbn [negb]. rewrite (andb_comm (negb _)). set (b := (_ && _)%bool).
    assert (exists s' plus, (if b then half_loop s (Z.odd (uval v))
        else Some (5 <? digit_val c, s)) = Some (plus, s') /\ is_digits s' /\
      plus = if b then (Z.odd (uval v) || (0 <? digits_from 0 s))%bool else 5 <? digit_val c)
      as (s' & plus & -> & Hs' & <-).
    { destruct b; [|by eauto]. destruct (half_loop_ok s (Z.odd (uval v)) Hs) as (l & -> & Hl).
      eauto. }
    rewrite (all_digits_ok s' Hs'). cbn [negb]. pose proof (uval_range v Hv) as R.
    destruct plus; cbn [Z.b2z].
    + destruct (u_inc_ok v Hv) as [Hi Ei]. pose proof (pow10_lt128 p ltac:(lia)).
      rewrite wrapU_small in Ei by (unfold inU in *; lia).
      destruct (GetDivider_ok p ltac:(lia)) as [Hg Eg].
      destruct Inf_ok as [Hn En]. destruct (u_of_i_ok _ Hn) as [Hu Eu].
      eexists. split; [done|]. rewrite (u_ge_ok _ _ Hi Hg), Eg, Ei.
      destruct (uval v + 1 <? _) eqn:E; bool_to_prop.
      * by rewrite (proj2 (Z.leb_gt _ _)).
      * rewrite (proj2 (Z.leb_le _ _)) by done. split; [done|]. rewrite Eu, En. done.
    + exists v. by rewrite Z.add_0_r, (proj2 (Z.ltb_lt _ _)).
Qed.

(** ** [FromString] on numerals *)

Definition body (ip : list ascii) (fp : option (list ascii)) : list ascii :=
  ip ++ match fp with None => [] | Some f => "."%char :: f end.

Lemma body_head ip fp c s :
  is_digits ip -> body ip fp = c :: s -> is_digit c = true \/ c = "."%char.
Proof.
  intros Hip E. destruct Hip as [|d ip Hd _]; cbn in E.
  - destruct fp; simplify_eq. by right.
  - simplify_eq. by left.
Qed.

Lemma special_head (ip : list ascii) fp :
  is_digits ip -> str_IsInf (body ip fp) = false /\ str_IsNan (body ip fp) = false.
Proof.
  intros Hip. destruct (body ip fp) as [|c s] eqn:E; [done|].
  destruct s as [|c1 [|c2 s]]; [done|done|]. unfold str_IsInf, str_IsNan.
  destruct (body_head ip fp c _ Hip E) as [Hc| ->]; [|done].
  by rewrite !(is_digit_not c).
Qed.

Lemma split_sign_numeral sg ip fp :
  is_digits ip -> numeral sg ip fp <> [] ->
  split_sign (numeral sg ip fp) = (bool_decide (sg = Some true), body ip fp).
Proof.
  intros Hip Hne. destruct sg as [[|]|]; [done|done|]. cbn [bool_decide].
  change (numeral None ip fp) with (body ip fp) in *.
  destruct (body ip fp) as [|c s] eqn:E; [done|]. cbn [split_sign].
  destruct (body_head ip fp c s Hip E) as [Hc| ->]; [|done].
  by rewrite !(is_digit_not c).
Qed.

Lemma scan_numeral ip fp p sc :
  is_digits ip -> is_digits (frac fp) -> (sc <= p <= 35)%nat ->
  let x := digits_from 0 ip in
  let r := scan_loop (body ip fp) false sc (p - sc) (u_lit 0 : U) in
  if x <? 10 ^ Z.of_nat (p - sc) then
    is_stop r (drop sc (frac fp)) (sc - length (frac fp))
      (digits_from x (take sc (frac fp)))
  else r = ScanInf.
Proof.
  intros Hip Hf Hp x r. destruct (u_lit_ok 0) as [Hz Ez]; [unfold inU; lia|].
  pose proof (scan_int ip match fp with None => [] | Some f => "."%char :: f end
    sc 0 (p - sc) (u_lit 0) Hip Hz ltac:(lia) (or_introl (conj Ez eq_refl))) as Hs.
  cbv zeta in Hs. rewrite Ez in Hs. fold x in Hs. cbn [Nat.add] in Hs.
  destruct (x <? _) eqn:E; [|done].
  destruct Hs as (k & v & Es & Hv & Ev). subst r. unfold body. rewrite Es, <- Ev.
  destruct fp as [f|]; cbn [frac default from_option].
  - bool_to_prop. apply (scan_frac f sc k v (p - sc)); [done|done| |lia].
    rewrite Ev. done.
  - rewrite drop_nil, take_nil, Nat.sub_0_r. exists v. done.
Qed.

Lemma round_half_even_ge n d : 0 < d -> n / d <= round_half_even n d.
Proof. intros. unfold round_half_even. repeat case_goal; lia. Qed.

(** The arithmetic of [FromString]: rounding after [scale] digits and padding
    is rounding of the numeral's value times [10 ^ scale]. *)
Lemma decimal_arith ip f p sc :
  is_digits ip -> is_digits f -> (sc <= p)%nat ->
  let x := digits_from 0 ip in
  let w := 10 ^ Z.of_nat (length (drop sc f)) in
  let q := digits_from x (take sc f) in
  let r := round_half_even (digits_from 0 (ip ++ f) * 10 ^ Z.of_nat sc)
             (10 ^ Z.of_nat (length f)) in
  if x <? 10 ^ Z.of_nat (p - sc) then
    q < 10 ^ Z.of_nat p /\
    saturate p (round_half_even (q * w + digits_from 0 (drop sc f)) w)
      * 10 ^ Z.of_nat (sc - length f) = saturate p r
  else 10 ^ Z.of_nat p <= r.
Proof.
  intros Hip Hf Hp x w q r.
  pose proof (digits_from_bound ip Hip) as Bx. fold x in Bx.
  assert (10 ^ Z.of_nat p = 10 ^ Z.of_nat (p - sc) * 10 ^ Z.of_nat sc) as Ep.
  { rewrite <- pow10_add. do 2 f_equal. lia. }
  pose proof (pow10_pos sc) as Psc. pose proof (pow10_pos (length f)) as Pf.
  pose proof (digits_from_bound f Hf) as Bf.
  assert (digits_from 0 (ip ++ f) = x * 10 ^ Z.of_nat (length f) + digits_from 0 f) as Ea.
  { rewrite digits_from_app. apply digits_from_shift. }
  destruct (x <? _) eqn:E; bool_to_prop.
  - destruct (decide (length f <= sc)%nat) as [Hl|Hl].
    + subst w q. rewrite take_ge, drop_ge by done. cbn [length digits_from foldl].
      change (10 ^ Z.of_nat 0) with 1. rewrite Z.add_0_r, round_half_even_exact by lia.
      assert (10 ^ Z.of_nat sc = 10 ^ Z.of_nat (sc - length f) * 10 ^ Z.of_nat (length f))
        as Es by (rewrite <- pow10_add; do 2 f_equal; lia).
      subst r. rewrite Es, Z.mul_assoc, round_half_even_exact by done.
      rewrite digits_from_app. fold x. rewrite digits_from_shift.
      pose proof (pow10_pos (sc - length f)) as Pd. rewrite Es in Ep.
      set (d := 10 ^ Z.of_nat (sc - length f)) in *.
      set (F := 10 ^ Z.of_nat (length f)) in *.
      assert ((x * F + digits_from 0 f) * d < 10 ^ Z.of_nat p).
      { rewrite Ep. rewrite (Z.mul_comm d), Z.mul_assoc. apply Z.mul_lt_mono_pos_r; nia. }
      assert (x * F + digits_from 0 f < 10 ^ Z.of_nat p) by nia.
      unfold saturate. rewrite !(proj2 (Z.ltb_lt _ _)) by done. done.
    + rewrite (proj2 (Nat.sub_0_le _ _)), Z.mul_1_r by lia.
      assert (digits_from 0 (ip ++ f) = q * w + digits_from 0 (drop sc f)) as Eq.
      { rewrite <- (take_drop sc f) at 1. rewrite app_assoc, digits_from_app.
        unfold q, w, x. rewrite digits_from_app. apply digits_from_shift. }
      assert (10 ^ Z.of_nat (length f) = w * 10 ^ Z.of_nat sc) as El.
      { unfold w. rewrite length_drop, <- pow10_add. do 2 f_equal. lia. }
      subst r. rewrite Eq, El, round_half_even_scale by (try apply pow10_pos; done).
      split; [|done]. subst q. rewrite digits_from_shift, length_take, Nat.min_l by lia.
      pose proof (digits_from_bound (take sc f) ltac:(by apply Forall_take)) as Bt.
      rewrite length_take, Nat.min_l in Bt by lia. rewrite Ep. nia.
  - etransitivity; [|by apply round_half_even_ge].
    apply Z.div_le_lower_bound; [done|]. rewrite Ea, Ep. nia.
Qed.

Lemma saturate_range p z : (p <= 35)%nat -> 0 <= z -> 0 <= saturate p z <= 10 ^ 35.
Proof.
  intros Hp Hz. unfold saturate. pose proof (pow10_le p 35 Hp) as Hl.
  change (10 ^ Z.of_nat 35) with (10 ^ 35) in Hl. case_goal; bool_to_prop; lia.
Qed.

Lemma round_half_even_nonneg n d : 0 <= n -> 0 < d -> 0 <= round_half_even n d.
Proof.
  intros Hn Hd. etransitivity; [|by apply round_half_even_ge]. by apply Z.div_pos.
Qed.

Lemma decimal_range ip f p sc :
  is_digits ip -> is_digits f -> (p <= 35)%nat ->
  0 <= saturate p (round_half_even (digits_from 0 (ip ++ f) * 10 ^ Z.of_nat sc)
       (10 ^ Z.of_nat (length f))) <= 10 ^ 35.
Proof.
  intros Hip Hf Hp. apply saturate_range; [done|].
  pose proof (digits_from_bound (ip ++ f) ltac:(by apply Forall_app_2)).
  pose proof (pow10_pos sc).
  apply round_half_even_nonneg; [nia | apply pow10_pos].
Qed.

Lemma signed_result (neg : bool) v :
  uwf v -> uval v <= 10 ^ 35 ->
  iwf (i_of_u (if neg then u_neg v else v)) /\
  ival (i_of_u (if neg then u_neg v else v)) = if neg then - uval v else uval v.
Proof.
  intros Hv Hb. pose proof (uval_range v Hv) as R. unfold inU in R.
  destruct neg.
  - destruct (u_neg_ok v Hv) as [Hn En]. destruct (i_of_u_ok _ Hn) as [Hi Ei].
    split; [done|]. rewrite Ei, En.
    destruct (wrapS_cong 128 (wrapU 128 (- uval v))) as [k Ek]; [lia|].
    pose proof (wrapS_range 128 (wrapU 128 (- uval v))) as W. unfold inS in W.
    pose proof (Z.div_mod (- uval v) (2 ^ 128)) as D. unfold wrapU in *. lia.
  - destruct (i_of_u_ok v Hv) as [Hi Ei]. split; [done|]. rewrite Ei.
    apply wrapS_small; [lia|]. unfold inS. lia.
Qed.

Lemma FromString_numeral sg ip fp p sc :
  is_digits ip -> is_digits (frac fp) -> (sc <= p <= 35)%nat -> numeral sg ip fp <> [] ->
  iwf (FromString (numeral sg ip fp) p sc : I) /\
  ival (FromString (numeral sg ip fp) p sc : I) = decimal_of sg ip (frac fp) p sc.
Proof.
  intros Hip Hf Hp Hne. unfold FromString.
  rewrite (proj2 (Nat.ltb_ge _ _)) by lia.
  rewrite (split_sign_numeral sg ip fp Hip Hne).
  destruct (numeral sg ip fp) as [|c0 s0] eqn:En; [done|].
  destruct (special_head ip fp Hip) as [-> ->]. rewrite !andb_false_r.
  pose proof (scan_numeral ip fp p sc Hip Hf Hp) as Hs. cbv zeta in Hs.
  pose proof (decimal_arith ip (frac fp) p sc Hip Hf ltac:(lia)) as Ha. cbv zeta in Ha.
  unfold decimal_of, apply_sign.
  pose proof (decimal_range ip (frac fp) p sc Hip Hf ltac:(lia)) as Hr.
  set (r := round_half_even (digits_from 0 (ip ++ _) * _) _) in *.
  destruct (digits_from 0 ip <? _).
  - destruct Hs as (v & -> & Hv & Ev). destruct Ha as [Hq Ha].
    destruct (round_rest_ok (drop sc (frac fp)) p v) as (v1 & -> & Hv1 & Ev1);
      [by apply Forall_drop | done | lia | by rewrite Ev |].
    rewrite Ev in Ev1. rewrite <- Ev1 in Ha.
    assert (10 ^ 35 < 2 ^ 128) by done.
    destruct (divider_loop_ok (sc - length (frac fp)) v1) as [Hd Ed]; [done | lia |].
    destruct (signed_result (bool_decide (sg = Some true)) _ Hd) as [Hi Ei]; [lia|].
    split; [done|]. rewrite Ei, Ed, Ha. by destruct sg as [[|]|].
  - rewrite Hs. unfold saturate. rewrite (proj2 (Z.ltb_ge _ _)) by done.
    destruct Inf_ok, neg_Inf_ok. by destruct sg as [[|]|].
Qed.

(** ** What [IsValid] accepts *)

Definition is_special (s : list ascii) : Prop :=
  length s = 3%nat /\ (str_IsInf s = true \/ str_IsNan s = true).

Lemma valid_loop_frac s : valid_loop s true = true <-> is_digits s.
Proof.
  split.
  - induction s as [|c s IH]; [constructor|]. cbn.
    destruct (ascii_is c "."); [done|]. destruct (is_digit c) eqn:E; [|done].
    intros Hv. constructor; [done | by apply IH].
  - induction 1 as [|c s Hc _ IH]; [done|]. cbn. by rewrite (is_digit_not c), Hc.
Qed.

Lemma valid_loop_body s :
  valid_loop s false = true <->
  exists ip fp, s = body ip fp /\ is_digits ip /\ is_digits (frac fp).
Proof.
  split.
  - induction s as [|c s IH]; cbn [valid_loop].
    + intros _. exists [], None. split_and!; [done|constructor|constructor].
    + unfold ascii_is. destruct (Ascii.eqb_spec c ".") as [->|_].
      * intros Hv%valid_loop_frac. exists [], (Some s). split_and!; [done|constructor|done].
      * destruct (is_digit c) eqn:E; [|done]. cbn.
        intros (ip & fp & -> & Hip & Hf)%IH. exists (c :: ip), fp.
        split_and!; [done|by constructor|done].
  - intros (ip & fp & -> & Hip & Hf). unfold body.
    induction Hip as [|c ip Hc _ IH].
    + destruct fp; [|done]. cbn. by apply valid_loop_frac.
    + cbn. by rewrite (is_digit_not c), Hc.
Qed.

Lemma split_sign_inv str :
  exists sg : option bool, (split_sign str).1 = bool_decide (sg = Some true) /\
    str = match sg with None => [] | Some true => ["-"%char] | Some false => ["+"%char] end
          ++ (split_sign str).2.
Proof.
  destruct str as [|c s]; [by exists None|]. cbn [split_sign fst snd]. unfold ascii_is.
  destruct (Ascii.eqb_spec c "-") as [->|Hm]; [by exists (Some true)|].
  destruct (Ascii.eqb_spec c "+") as [->|Hp]; [by exists (Some false)|]. by exists None.
Qed.

Lemma match_nonempty {A B} (l : list A) (x y : B) :
  l <> [] -> match l with [] => x | _ => y end = y.
Proof. by destruct l. Qed.

Lemma IsValid_iff str :
  IsValid str = true <->
  str <> [] /\ (is_special (split_sign str).2 \/
    exists sg ip fp, str = numeral sg ip fp /\ is_digits ip /\ is_digits (frac fp)).
Proof.
  unfold IsValid, is_special. destruct (decide (str = [])) as [->|Hne]; [by split; [|intros []]|].
  rewrite (match_nonempty str) by done.
  destruct (split_sign_inv str) as (sg & _ & Hsg). split.
  - intros Hv. split; [done|]. destruct (_ && _)%bool eqn:Hb.
    + left. apply andb_true_iff in Hb as [Hl Hb]. apply Nat.eqb_eq in Hl.
      split; [done|]. by apply orb_true_iff.
    + right. apply valid_loop_body in Hv as (ip & fp & Eb & Hip & Hf).
      exists sg, ip, fp. split_and!; [|done|done]. rewrite Hsg, Eb. done.
  - intros (_ & [[Hl Hsp]|(sg' & ip & fp & E & Hip & Hf)]).
    + rewrite Hl, Nat.eqb_refl. apply orb_true_iff in Hsp. by rewrite Hsp.
    + rewrite E in *. rewrite (split_sign_numeral sg' ip fp Hip Hne). cbn [snd].
      destruct (_ && _)%bool; [done|]. apply valid_loop_body. eauto.
Qed.

(** ** Printing *)

Definition point (f : list ascii) : list ascii :=
  match f with [] => [] | _ => "."%char :: f end.

Lemma digit_char_ok d :
  0 <= d <= 9 -> is_digit (digit_char d) = true /\ digit_val (digit_char d) = d.
Proof.
  intros Hd. unfold digit_char, is_digit, digit_val.
  rewrite N_ascii_embedding by lia. rewrite Z2N.id by lia.
  split; [|lia]. apply andb_true_iff. rewrite !Z.leb_le. lia.
Qed.

Lemma next_digit v :
  uwf v -> wrapU 8 (u_low (u_mod v Ten)) = uval v mod 10 /\
  uwf (u_div v Ten) /\ uval (u_div v Ten) = uval v / 10.
Proof.
  intros Hv. destruct Ten_ok as [Ht Et].
  destruct (u_mod_ok v Ten Hv Ht) as [Hm Em]; [lia|].
  destruct (u_div_ok v Ten Hv Ht) as [Hd Ed]; [lia|]. rewrite Et in *.
  split; [|done]. rewrite (u_low_ok _ Hm), Em.
  pose proof (Z.mod_pos_bound (uval v) 10 ltac:(lia)).
  rewrite (wrapU_small 64) by (unfold inU; lia). apply wrapU_small. unfold inU. lia.
Qed.

(** The loop once the point has been passed. *)
Lemma digits_loop_int p v s :
  uwf v -> 0 < uval v < 10 ^ Z.of_nat p ->
  exists p' ds, digits_loop p v 0 s = inr (p', 0%nat, ds ++ s) /\ is_digits ds /\
    ds <> [] /\ (length ds <= p)%nat /\ digits_from 0 ds = uval v.
Proof.
  revert v s. induction p as [|p IH]; intros v s Hv Hb; [cbn in Hb; lia|].
  destruct (next_digit v Hv) as (Ed & Hw & Ew). cbn [digits_loop].
  rewrite Ed, orb_true_r. cbn [Nat.eqb negb andb orb pred].
  rewrite pow10_S in Hb.
  pose proof (Z.div_mod (uval v) 10 ltac:(lia)).
  pose proof (Z.mod_pos_bound (uval v) 10 ltac:(lia)).
  destruct (digit_char_ok (uval v mod 10)) as [Hc Ec]; [lia|].
  rewrite (u_bool_ok _ Hw), Ew. set (c := digit_char _) in *.
  destruct (uval v / 10 =? 0) eqn:E; bool_to_prop; cbn [negb].
  - exists p, [c]. split_and!; [done|by repeat constructor|done|cbn; lia|].
    cbn. lia.
  - destruct (IH (u_div v Ten) (c :: s)) as (p' & ds & -> & Hds & Hne & Hl & Eds); [done|lia|].
    exists p', (ds ++ [c]). rewrite <- app_assoc. split_and!; [done| | | |].
    + apply Forall_app_2; [done|by repeat constructor].
    + by destruct ds.
    + rewrite length_app. cbn. lia.
    + rewrite digits_from_app, Eds, Ew. cbn. lia.
Qed.

Lemma pad_loop_ok p sc s :
  (sc <= p)%nat -> pad_loop p sc s = Some (replicate sc "0"%char ++ s).
Proof.
  revert p s. induction sc as [|sc IH]; intros p s Hp; cbn [pad_loop]; [done|].
  destruct p as [|p]; [lia|]. rewrite IH by lia. f_equal.
  change (replicate (S sc) "0"%char) with ("0"%char :: replicate sc "0"%char).
  rewrite replicate_cons_app, <- app_assoc. done.
Qed.

Lemma digits_zeros n l : digits_from 0 (replicate n "0"%char ++ l) = digits_from 0 l.
Proof.
  induction n as [|n IH]; [done|]. cbn [replicate app]. rewrite digits_from_cons.
  change (0 * 10 + digit_val "0") with 0. done.
Qed.

(** The printed digits denote the number. *)
Definition prints (p sc : nat) (v : U) (s ip f : list ascii) : Prop :=
  is_digits ip /\ is_digits f /\ ip <> [] /\ (length f <= sc + length s)%nat /\
  (length ip + length f <= p + length s + 1)%nat /\
  digits_from 0 (ip ++ f) * 10 ^ Z.of_nat (sc + length s - length f) =
  uval v * 10 ^ Z.of_nat (length s) + digits_from 0 s.

Definition printed (neg : bool) (r : list ascii + nat * nat * list ascii)
  : option (list ascii) :=
  match r with
  | inl r => Some r
  | inr (p, sc, s) => finish_number neg p sc s
  end.

Lemma finish_int neg p s ip f :
  is_digits ip -> ip <> [] -> s = ip ++ point f ->
  finish_number neg p 0 s = Some ((if neg then ["-"%char] else []) ++ ip ++ point f).
Proof.
  intros Hip Hne ->. unfold finish_number. cbn [Nat.eqb].
  destruct Hip as [|c ip Hc _]; [done|]. cbn [app].
  rewrite (is_digit_not c) by done. by destruct neg.
Qed.

Lemma finish_frac neg p sc s :
  (sc <= p)%nat -> s <> [] ->
  finish_number neg p sc (if (sc =? 0)%nat then "."%char :: s else s) =
  Some ((if neg then ["-"%char] else []) ++ ["0"%char] ++ point (replicate sc "0"%char ++ s)).
Proof.
  intros Hp Hne. unfold finish_number. destruct sc as [|sc]; cbn [Nat.eqb].
  - destruct s; [done|]. by destruct neg.
  - rewrite pad_loop_ok by lia. cbn. by destruct neg.
Qed.

(** One more fractional digit in front of [s], or a trailing zero dropped. *)
Lemma prints_step p sc v v1 s s1 c ip f :
  uval v = uval v1 * 10 + digit_val c ->
  s1 = c :: s \/ s1 = [] /\ s = [] /\ digit_val c = 0 ->
  prints p sc v1 s1 ip f -> prints (S p) (S sc) v s ip f.
Proof.
  unfold prints. intros Ev Hs (Hip & Hf & Hne & Hl & Hb & E). split_and!; try done.
  - destruct Hs as [->|(-> & -> & _)]; cbn in *; lia.
  - destruct Hs as [->|(-> & -> & _)]; cbn in *; lia.
  - destruct Hs as [->|(-> & -> & Ez)].
    + cbn [length] in *. rewrite Nat.add_succ_l, <- Nat.add_succ_r, E, Ev.
      rewrite digits_from_cons, digits_from_shift, pow10_S. lia.
    + cbn [length digits_from foldl] in *. rewrite Nat.add_0_r in *.
      replace (S sc - length f)%nat with (S (sc - length f)) by lia.
      rewrite pow10_S. lia.
Qed.

Lemma prints_int p v s ip :
  is_digits s -> is_digits ip -> ip <> [] -> (length ip <= p)%nat ->
  digits_from 0 ip = uval v -> prints p 0 v s ip s.
Proof.
  intros Hs Hip Hne Hl E. split_and!; try done; [lia..|].
  rewrite digits_from_app, E, Nat.sub_diag, digits_from_shift. lia.
Qed.

Lemma prints_last p sc v s c :
  is_digits (c :: s) -> uval v = digit_val c -> (sc <= p)%nat ->
  prints (S p) (S sc) v s ["0"%char] (replicate sc "0"%char ++ c :: s).
Proof.
  intros Hs E Hp. assert (is_digits (replicate sc "0"%char)) by (by apply Forall_replicate).
  split_and!; [by repeat constructor|by apply Forall_app_2|done|..].
  1,2: cbn [length]; rewrite length_app, length_replicate; cbn; lia.
  rewrite length_app, length_replicate. cbn [length].
  replace (S sc + length s - (sc + S (length s)))%nat with 0%nat by lia.
  change ([ "0"%char ] ++ ?l) with (replicate 1 "0"%char ++ l).
  rewrite !digits_zeros, digits_from_cons, digits_from_shift. lia.
Qed.

Lemma digits_loop_frac neg p v sc s :
  uwf v -> 0 < uval v < 10 ^ Z.of_nat p -> (sc < p)%nat -> is_digits s ->
  exists ip f, printed neg (digits_loop p v (S sc) s) =
      Some ((if neg then ["-"%char] else []) ++ ip ++ point f)
    /\ prints p (S sc) v s ip f.
Proof.
  revert v sc s. induction p as [|p IH]; intros v sc s Hv Hb Hp Hs; [lia|].
  destruct (next_digit v Hv) as (Ed & Hw & Ew). cbn [digits_loop].
  rewrite Ed, orb_false_r. cbn [Nat.eqb negb andb pred]. rewrite pow10_S in Hb.
  pose proof (Z.div_mod (uval v) 10 ltac:(lia)) as D.
  pose proof (Z.mod_pos_bound (uval v) 10 ltac:(lia)) as B.
  destruct (digit_char_ok (uval v mod 10)) as [Hc Ec]; [lia|].
  set (c := digit_char _) in *. set (s1 := if (_ || _)%bool then c :: s else s).
  assert (s1 = c :: s \/ s1 = [] /\ s = [] /\ digit_val c = 0) as Hs1.
  { subst s1. rewrite Ec. destruct (uval v mod 10 =? 0) eqn:E; [|by left].
    destruct s; [right; bool_to_prop; done|by left]. }
  assert (is_digits s1) as Hd1 by (destruct Hs1 as [->|(-> & _)]; by constructor).
  assert (uval v = uval (u_div v Ten) * 10 + digit_val c) as Ev by lia.
  clearbody s1. rewrite (u_bool_ok _ Hw). destruct (_ =? 0) eqn:E; bool_to_prop; cbn [negb].
  - destruct Hs1 as [->|(_ & _ & Hz)]; [|lia]. cbn [length Nat.eqb negb]. rewrite andb_true_r.
    exists ["0"%char], (replicate sc "0"%char ++ c :: s).
    split; [by apply finish_frac; [lia|] | apply prints_last; [by constructor|lia|lia]].
  - destruct sc as [|sc]; cbn [Nat.eqb negb andb].
    + set (s2 := if (_ : bool) then _ else s1).
      assert (s2 = point s1) as -> by (by destruct s1).
      destruct (digits_loop_int p (u_div v Ten) (point s1)) as (p' & ip & -> & Hip & Hne & Hl & Ei);
        [done|lia|].
      exists ip, s1. split; [by apply finish_int|].
      apply (prints_step p 0 v (u_div v Ten) s s1 c); [done|done|by apply prints_int].
    + destruct (IH (u_div v Ten) sc s1) as (ip & f & -> & Hpr); [done|lia|lia|done|].
      exists ip, f. split; [done|]. by apply (prints_step p (S sc) v (u_div v Ten) s s1 c).
Qed.

Lemma digits_loop_printed neg p v sc :
  uwf v -> 0 < uval v < 10 ^ Z.of_nat p -> (sc <= p)%nat ->
  exists ip f, printed neg (digits_loop p v sc []) =
      Some ((if neg then ["-"%char] else []) ++ ip ++ point f)
    /\ prints p sc v [] ip f.
Proof.
  intros Hv Hb Hp. destruct sc as [|sc]; [|by apply digits_loop_frac; [..|constructor]].
  destruct (digits_loop_int p v [] Hv Hb) as (p' & ip & -> & Hip & Hne & Hl & Ei).
  exists ip, []. split; [by apply finish_int | by apply prints_int; [constructor|..]].
Qed.

(** More digits than the precision: the empty string. *)
Lemma digits_loop_over p v sc s :
  uwf v -> 10 ^ Z.of_nat p <= uval v -> digits_loop p v sc s = inl [].
Proof.
  revert v sc s. induction p as [|p IH]; intros v sc s Hv Hb; [done|].
  destruct (next_digit v Hv) as (_ & Hw & Ew). cbn [digits_loop].
  rewrite (u_bool_ok _ Hw), Ew. rewrite pow10_S in Hb.
  assert (10 ^ Z.of_nat p <= uval v / 10) by (apply Z.div_le_lower_bound; lia).
  pose proof (pow10_pos p). destruct (_ =? 0) eqn:E; bool_to_prop; [lia|].
  apply IH; [done|lia].
Qed.

Definition fp_of (f : list ascii) : option (list ascii) :=
  match f with [] => None | _ => Some f end.

Definition sg_of (neg : bool) : option bool := if neg then Some true else None.

Lemma numeral_of (neg : bool) ip f :
  (if neg then ["-"%char] else []) ++ ip ++ point f = numeral (sg_of neg) ip (fp_of f).
Proof. by destruct neg, f. Qed.

Lemma frac_fp_of (f : list ascii) : frac (fp_of f) = f.
Proof. by destruct f. Qed.

Lemma i_tests (v : I) :
  iwf v ->
  i_eq v Inf = (ival v =? 10 ^ 35) /\ i_eq v (i_neg Inf) = (ival v =? - 10 ^ 35) /\
  i_eq v Nan = (ival v =? 10 ^ 35 + 1) /\
  IsNormal v = ((ival v <? 10 ^ 35) && (- 10 ^ 35 <? ival v))%bool /\
  i_eq v (i_lit 0) = (ival v =? 0) /\ i_lt v (i_lit 0) = (ival v <? 0).
Proof.
  intros Hv. destruct Inf_ok as [Hi Ei], neg_Inf_ok as [Hn En], Nan_ok as [Ha Ea].
  destruct (i_lit_ok 0) as [Hz Ez]; [unfold inU; lia|]. unfold IsNormal.
  rewrite !i_eq_ok, !i_lt_ok, Ei, En, Ea, Ez by done. done.
Qed.

Lemma abs_ok (v : I) :
  iwf v -> - 10 ^ 35 < ival v < 10 ^ 35 ->
  let neg := i_lt v (i_lit 0) in
  let u := u_of_i (if neg then i_neg v else v) in
  uwf u /\ uval u = Z.abs (ival v).
Proof.
  intros Hv Hb neg u. subst u.
  assert (neg = (ival v <? 0)) as -> by (by apply i_tests).
  destruct (ival v <? 0) eqn:E; bool_to_prop.
  - destruct (i_neg_ok v Hv) as [Hn En]; [unfold inS; lia|].
    destruct (u_of_i_ok _ Hn) as [Hu ->]. split; [done|].
    rewrite En, wrapU_small by (unfold inU; lia). lia.
  - destruct (u_of_i_ok v Hv) as [Hu ->]. split; [done|].
    rewrite wrapU_small by (unfold inU; lia). lia.
Qed.

(** What [ToString] prints, by the value. *)
Lemma ToString_normal (v : I) p sc :
  iwf v -> (1 <= p <= 35)%nat -> (sc <= p)%nat -> 0 < Z.abs (ival v) < 10 ^ 35 ->
  let neg := ival v <? 0 in
  if Z.abs (ival v) <? 10 ^ Z.of_nat p then
    exists ip f, ToString v p sc = Some (numeral (sg_of neg) ip (fp_of f)) /\
      is_digits ip /\ is_digits f /\ ip <> [] /\ (length f <= sc)%nat /\
      (length ip + length f <= p + 1)%nat /\
      digits_from 0 (ip ++ f) * 10 ^ Z.of_nat (sc - length f) = Z.abs (ival v)
  else ToString v p sc = Some [].
Proof.
  intros Hv Hp Hsc Hb neg.
  destruct (abs_ok v Hv) as [Hu Eu]; [lia|].
  destruct (i_tests v Hv) as (E1 & E2 & E3 & E4 & E5 & E6).
  unfold ToString, MaxPrecision. rewrite E6 in Hu, Eu. rewrite E1, E2, E3, E4, E5, E6.
  rewrite (proj2 (Nat.eqb_neq p 0)), !(proj2 (Nat.ltb_ge _ _)) by lia.
  rewrite (proj2 (Z.ltb_lt (ival v) _)), (proj2 (Z.ltb_lt (- _) _)) by lia.
  rewrite !(proj2 (Z.eqb_neq _ _)) by lia. cbn [negb andb orb]. fold neg in Hu, Eu |- *.
  set (u := u_of_i _) in *. clearbody u. rewrite <- Eu.
  destruct (uval u <? _) eqn:E; bool_to_prop.
  - destruct (digits_loop_printed neg p u sc) as (ip & f & Ep & Hip & Hf & Hne & Hl & Hlen & E');
      [done|lia|done|].
    exists ip, f. unfold printed in Ep. rewrite Ep, numeral_of.
    cbn [length digits_from foldl] in *. rewrite Nat.add_0_r in *.
    split_and!; try done. rewrite E'. change (10 ^ Z.of_nat 0) with 1. lia.
  - by rewrite (digits_loop_over p u sc [] Hu).
Qed.

Lemma numeral_reads sg ip f p sc x :
  is_digits ip -> is_digits f -> ip <> [] -> (sc <= p <= 35)%nat ->
  (length f <= sc)%nat -> x < 10 ^ Z.of_nat p ->
  digits_from 0 (ip ++ f) * 10 ^ Z.of_nat (sc - length f) = x ->
  iwf (FromString (numeral sg ip (fp_of f)) p sc : I) /\
  ival (FromString (numeral sg ip (fp_of f)) p sc : I) = apply_sign sg x.
Proof.
  intros Hip Hf Hne Hp Hl Hx E.
  destruct (FromString_numeral sg ip (fp_of f) p sc) as [Hw Ev];
    [done|by rewrite frac_fp_of|done| |].
  { unfold numeral. destruct sg as [[|]|], ip; done. }
  split; [done|]. rewrite Ev, frac_fp_of. unfold decimal_of. f_equal.
  replace (digits_from 0 (ip ++ f) * 10 ^ Z.of_nat sc) with (x * 10 ^ Z.of_nat (length f)).
  - rewrite round_half_even_exact by apply pow10_pos. unfold saturate.
    by rewrite (proj2 (Z.ltb_lt _ _)).
  - rewrite <- E, <- Z.mul_assoc, <- pow10_add. do 3 f_equal. lia.
Qed.

(** ** The range of [FromString] *)

Lemma scan_bound s dot sc m k v p :
  uwf v -> (p <= 35)%nat -> (m + sc <= p)%nat -> uval v < 10 ^ Z.of_nat m ->
  (dot = false -> (m + k + sc <= p)%nat) ->
  match scan_loop s dot sc k v with
  | ScanStop rest sc' v' =>
      uwf v' /\ uval v' * 10 ^ Z.of_nat sc' < 10 ^ Z.of_nat p /\ (rest <> [] -> sc' = 0%nat)
  | _ => True
  end.
Proof.
  intros Hv Hp. revert dot sc m k v Hv.
  assert (forall sc m (v : U), (m + sc <= p)%nat -> uval v < 10 ^ Z.of_nat m ->
    uval v * 10 ^ Z.of_nat sc < 10 ^ Z.of_nat p) as Hstop.
  { intros sc m v Hm Hb. apply (Z.lt_le_trans _ (10 ^ Z.of_nat m * 10 ^ Z.of_nat sc)).
    - apply Z.mul_lt_mono_pos_r; [apply pow10_pos|done].
    - rewrite <- pow10_add. by apply pow10_le. }
  induction s as [|c s IH]; intros dot sc m k v Hv Hm Hb Hk; cbn [scan_loop].
  { split_and!; [done|by eapply Hstop|done]. }
  destruct (ascii_is c "."); [destruct dot; [done|by apply (IH true sc m k)]|].
  destruct (dot && _)%bool eqn:Ed.
  { apply andb_true_iff in Ed as [_ ->%Nat.eqb_eq]. split_and!; [done|by eapply Hstop|done]. }
  destruct (is_digit c) eqn:Hc; [cbn [negb]|done].
  apply is_digit_val in Hc. pose proof (uval_range v Hv) as R. unfold inU in R.
  pose proof (pow10_lt128 (S m) ltac:(lia)) as Hl. rewrite pow10_S in Hl.
  destruct (shift_digit v (digit_val c)) as [Hw Ew]; [done|done|lia|].
  destruct (u_lit_ok 0) as [H1 E0]; [unfold inU; lia|].
  rewrite (u_gt_ok _ _ Hw H1), E0. set (v1 := u_add _ _) in *. clearbody v1.
  destruct dot; cbn [negb andb] in *.
  - destruct sc as [|sc]; [done|].
    apply (IH true sc (S m)); [done|lia|rewrite pow10_S; lia|done].
  - destruct (0 <? uval v1) eqn:E; bool_to_prop.
    + destruct k as [|k]; [done|].
      apply (IH false sc (S m)); [done|lia|rewrite pow10_S; lia|lia].
    + apply (IH false sc m); [done|lia| |done]. pose proof (pow10_pos m). lia.
Qed.

(** The values a decimal of precision [p] can take. *)
Definition representable (p : nat) (z : Z) : Prop :=
  z = 10 ^ 35 + 2 \/ z = 10 ^ 35 + 1 \/ Z.abs z = 10 ^ 35 \/ Z.abs z < 10 ^ Z.of_nat p.

Lemma round_rest_range rest p v v' :
  uwf v -> (p <= 35)%nat -> uval v < 10 ^ Z.of_nat p ->
  round_rest rest p v = Some v' ->
  uwf v' /\ (uval v' = 10 ^ 35 \/ uval v' < 10 ^ Z.of_nat p).
Proof.
  intros Hv Hp Hb E. pose proof (uval_range v Hv) as R. unfold inU in R.
  pose proof (pow10_lt128 p ltac:(lia)).
  destruct (u_inc_ok v Hv) as [Hi Ei]. rewrite wrapU_small in Ei by (unfold inU; lia).
  destruct (GetDivider_ok p ltac:(lia)) as [Hg Eg].
  destruct Inf_ok as [Hn En]. destruct (u_of_i_ok _ Hn) as [Hu Eu].
  unfold round_rest in E. destruct rest as [|c s]; [simplify_eq; auto|].
  destruct (negb _); [done|]. destruct (if (_ && _)%bool then _ else _) as [[plus s']|]; [|done].
  destruct (negb _); [done|]. destruct plus; simplify_eq; [|auto].
  rewrite (u_ge_ok _ _ Hi Hg), Eg, Ei. destruct (_ <=? _) eqn:E1; bool_to_prop.
  - split; [done|left]. by rewrite Eu, En.
  - split; [done|right]. lia.
Qed.

Lemma FromString_representable str p sc :
  (p <= 35)%nat ->
  iwf (FromString str p sc : I) /\ representable p (ival (FromString str p sc : I)).
Proof.
  intros Hp. destruct Err_ok as [He Ee], Inf_ok as [Hi Ei], neg_Inf_ok as [Hn En],
    Nan_ok as [Ha Ea]. unfold FromString, representable.
  destruct (_ <? _)%nat eqn:Hsc; [by auto|]. destruct str as [|c0 s0] eqn:Es; [by auto|].
  destruct (split_sign _) as [neg s]. apply Nat.ltb_ge in Hsc.
  destruct (_ && _)%bool; [destruct neg; rewrite ?En, ?Ei; auto|].
  destruct (_ && _)%bool; [by auto|].
  destruct (u_lit_ok 0) as [Hz Ez]; [unfold inU; lia|].
  pose proof (scan_bound s false sc 0 (p - sc) (u_lit 0) p Hz Hp ltac:(lia)) as Hs.
  rewrite Ez in Hs. specialize (Hs ltac:(done) ltac:(lia)).
  destruct (scan_loop _ _ _ _ _) as [| |rest sc' v]; [by auto| |].
  { destruct neg; rewrite ?En, ?Ei; auto. }
  destruct Hs as (Hv & Hb & Hr). pose proof (uval_range v Hv) as R. unfold inU in R.
  pose proof (pow10_pos sc').
  destruct (round_rest rest p v) as [v'|] eqn:Er; [|by auto].
  assert (uwf v' /\ (uval v' * 10 ^ Z.of_nat sc' = 10 ^ 35
    \/ uval v' * 10 ^ Z.of_nat sc' < 10 ^ Z.of_nat p)) as [Hv' Hb'].
  { destruct rest as [|c rest]; [cbn in Er; simplify_eq; auto|].
    rewrite Hr in * by done. rewrite Z.mul_1_r in *. by eapply round_rest_range. }
  pose proof (pow10_le p 35 Hp) as Hp35. change (10 ^ Z.of_nat 35) with (10 ^ 35) in Hp35.
  destruct (divider_loop_ok sc' v' Hv') as [Hd Ed]; [lia|].
  destruct (signed_result neg _ Hd) as [Hw Ew]; [lia|]. split; [done|].
  pose proof (uval_range _ Hd) as R'. unfold inU in R'.
  rewrite Ew, Ed in *. destruct neg; lia.
Qed.

Lemma ToString_special (v : I) p sc :
  iwf v -> (1 <= p <= 35)%nat -> (sc <= p)%nat ->
  (ival v = 10 ^ 35 -> ToString v p sc = Some (String.list_ascii_of_string "inf")) /\
  (ival v = - 10 ^ 35 -> ToString v p sc = Some (String.list_ascii_of_string "-inf")) /\
  (ival v = 10 ^ 35 + 1 -> ToString v p sc = Some (String.list_ascii_of_string "nan")) /\
  (10 ^ 35 + 1 < ival v \/ ival v < - 10 ^ 35 -> ToString v p sc = None) /\
  (ival v = 0 -> ToString v p sc = Some (String.list_ascii_of_string "0")).
Proof.
  intros Hv Hp Hsc. destruct (i_tests v Hv) as (E1 & E2 & E3 & E4 & E5 & E6).
  unfold ToString, MaxPrecision.
  rewrite (proj2 (Nat.eqb_neq p 0)), !(proj2 (Nat.ltb_ge _ _)) by lia. cbn [orb].
  rewrite E1, E2, E3, E4, E5. split_and!; intros E; try (by rewrite E).
  rewrite !(proj2 (Z.eqb_neq _ _)) by lia.
  destruct E; [rewrite (proj2 (Z.ltb_ge _ _)) by lia; done|].
  rewrite (proj2 (Z.ltb_ge (- _) _)) by lia. by rewrite andb_false_r.
Qed.

(** The strings of the special values read back as those values. *)
Lemma FromString_specials p sc :
  (sc <= p)%nat ->
  FromString (String.list_ascii_of_string "inf") p sc = (Inf : I) /\
  FromString (String.list_ascii_of_string "-inf") p sc = (i_neg Inf : I) /\
  FromString (String.list_ascii_of_string "nan") p sc = (Nan : I).
Proof.
  intros Hp. unfold FromString. by rewrite !(proj2 (Nat.ltb_ge _ _)) by lia.
Qed.

Lemma FromString_zero p sc :
  (sc <= p <= 35)%nat ->
  iwf (FromString (String.list_ascii_of_string "0") p sc : I) /\
  ival (FromString (String.list_ascii_of_string "0") p sc : I) = 0.
Proof.
  intros Hp. pose proof (pow10_pos p).
  apply (numeral_reads None ["0"%char] [] p sc 0); cbn [length]; try done; try lia;
    repeat constructor.
Qed.

Lemma FromString_ToString_normal (v : I) (p sc : nat) :
  iwf v -> (1 <= p <= 35)%nat -> (sc <= p)%nat -> Z.abs (ival v) < 10 ^ Z.of_nat p ->
  exists s, ToString v p sc = Some s /\ IsValid s = true /\
    iwf (FromString s p sc : I) /\ ival (FromString s p sc : I) = ival v.
Proof.
  intros Hv Hp Hsc Hb. pose proof (pow10_le p 35 ltac:(lia)) as Hp35.
  change (10 ^ Z.of_nat 35) with (10 ^ 35) in Hp35.
  destruct (decide (ival v = 0)) as [E|Hnz].
  - exists (String.list_ascii_of_string "0"). rewrite E.
    split_and!; [by apply ToString_special|done|by apply FromString_zero; lia..].
  - pose proof (ToString_normal v p sc Hv Hp Hsc ltac:(lia)) as Hn. cbv zeta in Hn.
    rewrite (proj2 (Z.ltb_lt (Z.abs _) _)) in Hn by done.
    destruct Hn as (ip & f & -> & Hip & Hf & Hne & Hl & _ & E).
    eexists. split; [done|].
    destruct (numeral_reads (sg_of (ival v <? 0)) ip f p sc _ Hip Hf Hne ltac:(lia) Hl Hb E)
      as [Hw ->].
    split_and!; [|done|].
    + apply IsValid_iff. split; [by destruct (ival v <? 0), ip|]. right.
      exists (sg_of (ival v <? 0)), ip, (fp_of f). by rewrite frac_fp_of.
    + unfold apply_sign, sg_of. destruct (ival v <? 0) eqn:Es; bool_to_prop;
        case_decide; simplify_eq; lia.
Qed.

(** C26: Reading back what [ToString] prints gives the value again: for every
    precision and scale the type admits, [ToString] of a value below the
    precision, of an infinity or of NaN succeeds with a string [IsValid]
    accepts, and [FromString] of it is that value. *)
Theorem FromString_ToString (v : I) (p sc : nat) :
  iwf v -> (1 <= p <= 35)%nat -> (sc <= p)%nat ->
  Z.abs (ival v) < 10 ^ Z.of_nat p \/ Z.abs (ival v) = 10 ^ 35 \/ ival v = 10 ^ 35 + 1 ->
  exists s, ToString v p sc = Some s /\ IsValid s = true /\
    iwf (FromString s p sc : I) /\ ival (FromString s p sc : I) = ival v.
Proof.
  intros Hv Hp Hsc Hr. destruct (ToString_special v p sc Hv Hp Hsc) as (Ei & En & Ea & _).
  destruct (FromString_specials p sc Hsc) as (Ri & Rn & Ra).
  destruct Inf_ok, neg_Inf_ok, Nan_ok.
  destruct Hr as [Hr|[Hr|Hr]]; [by apply FromString_ToString_normal| |].
  - destruct (Z.abs_eq_or_opp (ival v)) as [E|E]; rewrite E in Hr;
      eexists; (split; [first [apply Ei; lia | apply En; lia]|]);
      rewrite ?Ri, ?Rn; split_and!; try done; lia.
  - eexists. split; [by apply Ea|]. rewrite Ra. split_and!; try done; lia.
Qed.

(** C14: [FromString] of a string [IsValid] accepts is never [Err]: the special
    names give the infinities and NaN, and a numeral gives its value times
    [10 ^ scale] rounded half to even, or infinity of its sign when that has
    more than [precision] digits. *)
Theorem FromString_correct (str : list ascii) (p sc : nat) :
  IsValid str = true -> (sc <= p <= 35)%nat ->
  let neg := (split_sign str).1 in
  let s := (split_sign str).2 in
  (length s = 3%nat /\ str_IsInf s = true /\
     FromString str p sc = (if neg then i_neg Inf else Inf : I)) \/
  (length s = 3%nat /\ str_IsNan s = true /\ FromString str p sc = (Nan : I)) \/
  (exists sg ip fp, str = numeral sg ip fp /\ is_digits ip /\ is_digits (frac fp) /\
     ival (FromString str p sc : I) = decimal_of sg ip (frac fp) p sc).
Proof.
  intros Hv Hp. cbv zeta.
  apply IsValid_iff in Hv as (Hne & [[Hl Hs]|(sg & ip & fp & -> & Hip & Hf)]).
  - unfold FromString. rewrite (proj2 (Nat.ltb_ge _ _)) by lia.
    rewrite (match_nonempty str) by done. destruct (split_sign str) as [neg s]. cbn in *.
    rewrite Hl. cbn [Nat.eqb andb]. destruct (str_IsInf s) eqn:E; [by left|].
    destruct Hs as [?|Hs]; [done|]. right; left. by rewrite Hs.
  - right; right. exists sg, ip, fp. split_and!; try done. by apply FromString_numeral.
Qed.

(** Whatever the string, [FromString] returns one of the values of the
    type: the error, NaN or infinity marker, or an integer below
    [10 ^ precision] in magnitude; the 128-bit arithmetic of the scan never
    wraps. *)
Theorem FromString_in_range (str : list ascii) (p sc : nat) :
  (p <= 35)%nat ->
  iwf (FromString str p sc : I) /\ representable p (ival (FromString str p sc : I)).
Proof. apply FromString_representable. Qed.

Lemma IsError_ok (v : I) :
  iwf v -> IsError v = ((10 ^ 35 + 1 <? ival v) || (ival v <? - 10 ^ 35))%bool.
Proof.
  intros Hv. unfold IsError. destruct neg_Inf_ok as [Hn En], Nan_ok as [Ha Ea].
  by rewrite !i_lt_ok, En, Ea.
Qed.

Lemma ToString_length (v : I) p sc s :
  iwf v -> (1 <= p <= 35)%nat -> (sc <= p)%nat -> 0 < Z.abs (ival v) < 10 ^ 35 ->
  ToString v p sc = Some s -> (length s <= 38)%nat.
Proof.
  intros Hv Hp Hsc Hb Es. pose proof (ToString_normal v p sc Hv Hp Hsc Hb) as Hn.
  cbv zeta in Hn. rewrite Es in Hn. destruct (_ <? _); [|simplify_eq; cbn; lia].
  destruct Hn as (ip & f & E & _ & _ & _ & _ & Hl & _). simplify_eq.
  unfold numeral, sg_of, fp_of. rewrite !length_app.
  destruct (ival v <? 0), f; cbn [length] in *; lia.
Qed.

(** [ToString] writes at most 39 characters before the terminating zero, so
    it stays inside its 40-byte buffer for every value, precision and scale;
    with a precision and scale it accepts, it returns [nullptr] exactly on the
    values [IsError] names. *)
Theorem ToString_fits_buffer (v : I) (p sc : nat) :
  iwf v ->
  match ToString v p sc with
  | Some s => (length s <= 39)%nat /\
      ((1 <= p <= 35)%nat -> (sc <= p)%nat -> IsError v = false)
  | None => (1 <= p <= 35)%nat /\ (sc <= p)%nat /\ IsError v = true
  end.
Proof.
  intros Hv. rewrite (IsError_ok v Hv).
  destruct (decide ((1 <= p <= 35)%nat /\ (sc <= p)%nat)) as [[Hp Hsc]|Hn].
  - destruct (ToString_special v p sc Hv Hp Hsc) as (Ei & En & Ea & Eo & Ez).
    destruct (_ || _)%bool eqn:Hb.
    { rewrite Eo; [done|]. by rewrite orb_true_iff, !Z.ltb_lt in Hb. }
    bool_to_prop. destruct (decide (0 < Z.abs (ival v) < 10 ^ 35)) as [Hr|Hr].
    + pose proof (ToString_normal v p sc Hv Hp Hsc Hr) as Hn. cbv zeta in Hn.
      destruct (ToString v p sc) as [s|] eqn:Es.
      * pose proof (ToString_length v p sc s Hv Hp Hsc Hr Es). split; [lia|done].
      * destruct (_ <? _); [by destruct Hn as (? & ? & ? & _)|done].
    + assert (ival v = 10 ^ 35 \/ ival v = - 10 ^ 35 \/ ival v = 10 ^ 35 + 1 \/ ival v = 0)
        as [E|[E|[E|E]]] by lia;
        rewrite ?(Ei E), ?(En E), ?(Ea E), ?(Ez E); (split; [cbn; lia | done]).
  - unfold ToString, MaxPrecision. destruct (_ || _)%bool eqn:Hb; [cbn; split; lia|].
    bool_to_prop. exfalso. apply Hn.
    repeat match goal with
    | E : (_ =? _)%nat = false |- _ => apply Nat.eqb_neq in E
    | E : (_ <? _)%nat = false |- _ => apply Nat.ltb_ge in E
    end. lia.
Qed.

End Correct.

(** ** The theorems at concrete inputs *)

Lemma FromString_ToString_witness :
  let v := wide_of_int true true (-1205) in
  exists s, ToString v 5 2 = Some s /\ IsValid s = true /\
    iwf (FromString s 5 2 : TWide) /\ ival (FromString s 5 2 : TWide) = ival v.
Proof.
  apply (FromString_ToString (wide_of_int true true (-1205)) 5 2).
  - vm_compute; intuition discriminate.
  - lia.
  - lia.
  - left. reflexivity.
Defined.

Lemma FromString_correct_witness :
  exists sg ip fp, String.list_ascii_of_string "-12.345" = numeral sg ip fp /\
    is_digits ip /\ is_digits (frac fp) /\
    ival (FromString (String.list_ascii_of_string "-12.345") 5 2 : Z)
      = decimal_of sg ip (frac fp) 5 2.
Proof.
  destruct (FromString_correct (I := Z) (String.list_ascii_of_string "-12.345") 5 2)
    as [(E & _)|[(E & _)|E]]; [reflexivity|lia|discriminate E|discriminate E|exact E].
Defined.

Lemma FromString_in_range_witness :
  representable 3 (ival (FromString (String.list_ascii_of_string "99.996") 3 1 : Z)).
Proof.
  apply (FromString_in_range (I := Z) (String.list_ascii_of_string "99.996") 3 1). lia.
Defined.

Lemma ToString_fits_buffer_witness :
  match ToString (1 - 10 ^ 35 : Z) 35 35 with
  | Some s => (length s <= 39)%nat /\
      ((1 <= 35 <= 35)%nat -> (35 <= 35)%nat -> IsError (1 - 10 ^ 35 : Z) = false)
  | None => (1 <= 35 <= 35)%nat /\ (35 <= 35)%nat /\ IsError (1 - 10 ^ 35 : Z) = true
  end.
Proof.
  apply (ToString_fits_buffer (1 - 10 ^ 35 : Z) 35 35).
  vm_compute; intuition discriminate.
Defined.
