(* ===== verification/Status.v ===== *)
(** * Status codes

    [EStatus] of [src/include/ydb-cpp-sdk/client/types/status_codes.h] and the
    classification of [TStatus] in [src/src/client/types/status/status.cpp]. *)

From S2P Require Import Prelude.

Inductive EStatus :=
  | STATUS_UNDEFINED | SUCCESS | BAD_REQUEST | UNAUTHORIZED | INTERNAL_ERROR | ABORTED
  | UNAVAILABLE | OVERLOADED | SCHEME_ERROR | GENERIC_ERROR | TIMEOUT | BAD_SESSION
  | PRECONDITION_FAILED | ALREADY_EXISTS | NOT_FOUND | SESSION_EXPIRED | CANCELLED
  | UNDETERMINED | UNSUPPORTED | SESSION_BUSY | EXTERNAL_ERROR
  | TRANSPORT_UNAVAILABLE | CLIENT_RESOURCE_EXHAUSTED | CLIENT_DEADLINE_EXCEEDED
  | CLIENT_INTERNAL_ERROR | CLIENT_CANCELLED | CLIENT_UNAUTHENTICATED
  | CLIENT_CALL_UNIMPLEMENTED | CLIENT_OUT_OF_RANGE
  | CLIENT_DISCOVERY_FAILED | CLIENT_LIMITS_REACHED.

#[export] Instance EStatus_eq_dec : EqDecision EStatus.
Proof. solve_decision. Defined.

Definition TRANSPORT_STATUSES_FIRST : Z := 401000.
Definition TRANSPORT_STATUSES_LAST : Z := 401999.
Definition INTERNAL_CLIENT_FIRST : Z := 402000.

Definition status_code (s : EStatus) : Z :=
  match s with
  | STATUS_UNDEFINED => 0
  | SUCCESS => 400000
  | BAD_REQUEST => 400010
  | UNAUTHORIZED => 400020
  | INTERNAL_ERROR => 400030
  | ABORTED => 400040
  | UNAVAILABLE => 400050
  | OVERLOADED => 400060
  | SCHEME_ERROR => 400070
  | GENERIC_ERROR => 400080
  | TIMEOUT => 400090
  | BAD_SESSION => 400100
  | PRECONDITION_FAILED => 400120
  | ALREADY_EXISTS => 400130
  | NOT_FOUND => 400140
  | SESSION_EXPIRED => 400150
  | CANCELLED => 400160
  | UNDETERMINED => 400170
  | UNSUPPORTED => 400180
  | SESSION_BUSY => 400190
  | EXTERNAL_ERROR => 400200
  | TRANSPORT_UNAVAILABLE => TRANSPORT_STATUSES_FIRST + 10
  | CLIENT_RESOURCE_EXHAUSTED => TRANSPORT_STATUSES_FIRST + 20
  | CLIENT_DEADLINE_EXCEEDED => TRANSPORT_STATUSES_FIRST + 30
  | CLIENT_INTERNAL_ERROR => TRANSPORT_STATUSES_FIRST + 50
  | CLIENT_CANCELLED => TRANSPORT_STATUSES_FIRST + 60
  | CLIENT_UNAUTHENTICATED => TRANSPORT_STATUSES_FIRST + 70
  | CLIENT_CALL_UNIMPLEMENTED => TRANSPORT_STATUSES_FIRST + 80
  | CLIENT_OUT_OF_RANGE => TRANSPORT_STATUSES_FIRST + 90
  | CLIENT_DISCOVERY_FAILED => INTERNAL_CLIENT_FIRST + 10
  | CLIENT_LIMITS_REACHED => INTERNAL_CLIENT_FIRST + 20
  end.

(** [TStatus]: the code, and the response metadata multimap in iteration
    order. *)
Record TStatus := mkStatus {
  st_status : EStatus;
  st_metadata : list (string * string)
}.

Definition IsSuccess (s : TStatus) : bool := bool_decide (st_status s = SUCCESS).

Definition IsTransportError (s : TStatus) : bool :=
  ((TRANSPORT_STATUSES_FIRST <=? status_code (st_status s)) &&
   (status_code (st_status s) <=? TRANSPORT_STATUSES_LAST))%bool.
