(* ===== verification/Session.v ===== *)
(** * A session object and the ways it is closed

    Models [TKqpSessionCommon] of
    [src/src/client/impl/session/kqp_session_common.cpp] (the state under its
    lock; every operation below is one critical section of [Lock_], or one
    atomic access) and the close commands and status interception of
    [src/src/client/impl/session/session_pool.cpp] and [session_pool.h].

    Shown: over any sequence of operations a session is reported closed at most
    once, a closed session is never again eligible for the pool, and which
    statuses close a session. *)

From S2P Require Import Prelude Status.

Inductive EState := S_STANDALONE | S_IDLE | S_BROKEN | S_ACTIVE | S_CLOSING.

#[export] Instance EState_eq_dec : EqDecision EState.
Proof. solve_decision. Defined.

(** [CloseHandler_] is only ever the pool or null. *)
Record session := mkSession {
  SessionId_ : string;
  IsOwnedBySessionPool_ : bool;
  State_ : EState;
  CloseRequested_ : bool;
  TimeToTouch_ : Z;
  TimeInPast_ : Z;
  CloseHandler_ : bool;
  NeedUpdateActiveCounter_ : bool;
  PropagatedDeadline_ : option Z
}.

Definition set_state (x : EState) (s : session) : session :=
  mkSession (SessionId_ s) (IsOwnedBySessionPool_ s) x (CloseRequested_ s)
    (TimeToTouch_ s) (TimeInPast_ s) (CloseHandler_ s) (NeedUpdateActiveCounter_ s)
    (PropagatedDeadline_ s).
Definition set_close_requested (x : bool) (s : session) : session :=
  mkSession (SessionId_ s) (IsOwnedBySessionPool_ s) (State_ s) x
    (TimeToTouch_ s) (TimeInPast_ s) (CloseHandler_ s) (NeedUpdateActiveCounter_ s)
    (PropagatedDeadline_ s).
Definition SetNeedUpdateActiveCounter (x : bool) (s : session) : session :=
  mkSession (SessionId_ s) (IsOwnedBySessionPool_ s) (State_ s) (CloseRequested_ s)
    (TimeToTouch_ s) (TimeInPast_ s) (CloseHandler_ s) x (PropagatedDeadline_ s).
Definition UpdateServerCloseHandler (x : bool) (s : session) : session :=
  mkSession (SessionId_ s) (IsOwnedBySessionPool_ s) (State_ s) (CloseRequested_ s)
    (TimeToTouch_ s) (TimeInPast_ s) x (NeedUpdateActiveCounter_ s) (PropagatedDeadline_ s).
Definition set_times (touch past : Z) (s : session) : session :=
  mkSession (SessionId_ s) (IsOwnedBySessionPool_ s) (State_ s) (CloseRequested_ s)
    touch past (CloseHandler_ s) (NeedUpdateActiveCounter_ s) (PropagatedDeadline_ s).
Definition set_deadline (x : option Z) (s : session) : session :=
  mkSession (SessionId_ s) (IsOwnedBySessionPool_ s) (State_ s) (CloseRequested_ s)
    (TimeToTouch_ s) (TimeInPast_ s) (CloseHandler_ s) (NeedUpdateActiveCounter_ s) x.

(** The constructor; the two calls of [TInstant::Now] may differ. *)
Definition TKqpSessionCommon (sessionId : string) (isOwned : bool) (now1 now2 : Z) : session :=
  mkSession sessionId isOwned S_STANDALONE false now1 now2 false false None.

Definition MarkBroken (s : session) : bool * session :=
  let firstTerminal := (negb (CloseRequested_ s) && bool_decide (State_ s <> S_BROKEN))%bool in
  let s := if bool_decide (State_ s = S_ACTIVE) then SetNeedUpdateActiveCounter true s else s in
  (firstTerminal, set_state S_BROKEN s).

Definition MarkAsClosing (s : session) : bool * session :=
  if (CloseRequested_ s || bool_decide (State_ s = S_BROKEN))%bool then (false, s)
  else
    let s := set_close_requested true s in
    if bool_decide (State_ s = S_IDLE) then (true, s)
    else
      let s := if bool_decide (State_ s = S_ACTIVE)
               then SetNeedUpdateActiveCounter true s else s in
      (true, set_state S_CLOSING s).

Definition MarkActive (s : session) : bool * session :=
  if (bool_decide (State_ s = S_BROKEN) || bool_decide (State_ s = S_CLOSING))%bool
  then (false, s)
  else (true, SetNeedUpdateActiveCounter false (set_state S_ACTIVE s)).

Definition MarkIdle (s : session) : bool * session :=
  if (CloseRequested_ s || bool_decide (State_ s = S_BROKEN))%bool then (false, s)
  else (true, SetNeedUpdateActiveCounter false (set_state S_IDLE s)).

Definition CanReturnToPool (s : session) : bool :=
  (bool_decide (State_ s = S_IDLE) && negb (CloseRequested_ s))%bool.

Definition ScheduleTimeToTouch (now interval : Z) (updateTimeInPast : bool) (s : session)
  : session :=
  set_times (now + interval) (if updateTimeInPast then now else TimeInPast_ s) s.

(** ** Close commands *)

Inductive transition := TrMarkBroken | TrMarkAsClosing.

Definition run_transition (t : transition) (s : session) : bool * session :=
  match t with TrMarkBroken => MarkBroken s | TrMarkAsClosing => MarkAsClosing s end.

Record TSessionCloseCommand := mkClose { Reason : string; Transition : transition }.

Definition PoolIdleTimeout := mkClose "pool_idle_timeout" TrMarkBroken.
Definition PoolGracefulShutdown := mkClose "pool_graceful_shutdown" TrMarkBroken.
Definition ClientTimeout := mkClose "client_timeout" TrMarkBroken.
Definition ClientCancelled := mkClose "client_cancelled" TrMarkBroken.
Definition AttachClosed := mkClose "attach_closed" TrMarkBroken.
Definition TransportError := mkClose "transport_error" TrMarkBroken.
Definition NodeShutdown := mkClose "node_shutdown" TrMarkAsClosing.
Definition SessionShutdown := mkClose "session_shutdown" TrMarkAsClosing.
Definition BadSession := mkClose "bad_session" TrMarkBroken.
Definition SessionBusy := mkClose "session_busy" TrMarkBroken.

(** [TSessionCloseCommand::Execute]: the session, and the reason recorded with
    the client, if one is. *)
Definition Execute (c : TSessionCloseCommand) (client : bool) (s : session)
  : option string * session :=
  let '(first, s') := run_transition (Transition c) s in
  (if (first && client && IsOwnedBySessionPool_ s')%bool then Some (Reason c) else None, s').

Definition YDB_SERVER_HINTS : string := "x-ydb-server-hints".
Definition YDB_SESSION_CLOSE : string := "session-close".

Definition IsSessionCloseRequested (st : TStatus) : bool :=
  existsb (fun kv => bool_decide (kv.1 = YDB_SERVER_HINTS) &&
                     bool_decide (kv.2 = YDB_SESSION_CLOSE))%bool (st_metadata st).

Definition HasStatus (c : EStatus) (st : TStatus) : bool := bool_decide (st_status st = c).

Definition IsBreakingTransport (st : TStatus) : bool :=
  (IsTransportError st && bool_decide (st_status st <> CLIENT_RESOURCE_EXHAUSTED)
   && bool_decide (st_status st <> CLIENT_OUT_OF_RANGE))%bool.

(** The table [Commands] of [FromStatus]; the first match wins. *)
Definition Commands : list ((TStatus -> bool) * TSessionCloseCommand) :=
  [ (HasStatus CLIENT_DEADLINE_EXCEEDED, ClientTimeout);
    (HasStatus CLIENT_CANCELLED, ClientCancelled);
    (IsBreakingTransport, TransportError);
    (HasStatus SESSION_BUSY, SessionBusy);
    (HasStatus BAD_SESSION, BadSession);
    (IsSessionCloseRequested, SessionShutdown) ].

Definition FromStatus (st : TStatus) : option TSessionCloseCommand :=
  snd <$> List.find (fun e => e.1 st) Commands.

Definition KEEP_ALIVE_RANDOM_FRACTION : Z := 4.

(** [RandomizeThreshold]; [random n] is [RandomNumber<ui64>(n)]. *)
Definition RandomizeThreshold (random : Z -> Z) (duration : Z) : Z :=
  let randomLimit := duration / KEEP_ALIVE_RANDOM_FRACTION in
  if randomLimit <? 2 then duration else u64 (duration + random randomLimit).

(** The subscriber of [InjectSessionStatusInterception]: what a response (or
    [None], an exception) does to the session; [Some] reason when the close is
    recorded. *)
Definition InterceptResponse (client : bool) (updateTimeout : bool) (now timeout : Z)
  (random : Z -> Z) (response : option TStatus) (s : session) : option string * session :=
  match response with
  | None => Execute TransportError client s
  | Some st =>
      match FromStatus st with
      | Some command => Execute command client s
      | None =>
          if (updateTimeout && bool_decide (st_status st <> CLIENT_RESOURCE_EXHAUSTED))%bool
          then (None, ScheduleTimeToTouch now (RandomizeThreshold random timeout)
                        (bool_decide (State_ s = S_ACTIVE)) s)
          else (None, s)
      end
  end.

(** ** Operation sequences *)

(** Every operation of the class, with its arguments. *)
Inductive session_op :=
  | OpMarkBroken
  | OpMarkAsClosing
  | OpMarkActive
  | OpMarkIdle
  | OpSetNeed (b : bool)
  | OpSchedule (now interval : Z) (upd : bool)
  | OpSetHandler (b : bool).

(** The result says whether the operation reported the session's end. *)
Definition run_op (o : session_op) (s : session) : bool * session :=
  match o with
  | OpMarkBroken => MarkBroken s
  | OpMarkAsClosing => MarkAsClosing s
  | OpMarkActive => (false, (MarkActive s).2)
  | OpMarkIdle => (false, (MarkIdle s).2)
  | OpSetNeed b => (false, SetNeedUpdateActiveCounter b s)
  | OpSchedule now i u => (false, ScheduleTimeToTouch now i u s)
  | OpSetHandler b => (false, UpdateServerCloseHandler b s)
  end.

Fixpoint run_ops (os : list session_op) (s : session) : nat * session :=
  match os with
  | [] => (0%nat, s)
  | o :: os =>
      let '(b, s) := run_op o s in
      let '(n, s) := run_ops os s in
      ((if b then 1 else 0) + n, s)%nat
  end.

(** The session has reached its end: shut down by the server or broken. *)
Definition terminal (s : session) : bool :=
  (CloseRequested_ s || bool_decide (State_ s = S_BROKEN))%bool.

(** A session closing for the server has its request recorded. *)
Definition session_ok (s : session) : Prop :=
  State_ s = S_CLOSING -> CloseRequested_ s = true.

Ltac session_cases :=
  repeat match goal with
  | |- context [bool_decide ?P] => destruct (bool_decide_reflect P)
  | |- context [CloseRequested_ ?s] => destruct (CloseRequested_ s) eqn:?
  end.

Lemma run_op_terminal o s :
  session_ok s ->
  session_ok (run_op o s).2 /\
  (terminal s = true -> terminal (run_op o s).2 = true /\ (run_op o s).1 = false) /\
  ((run_op o s).1 = true -> terminal (run_op o s).2 = true).
Proof.
  intros Hok. destruct o; cbn [run_op fst snd]; unfold terminal, session_ok in *.
  1: unfold MarkBroken. 2: unfold MarkAsClosing. 3: unfold MarkActive. 4: unfold MarkIdle.
  all: destruct s as [id own [] [] t p h n d]; cbn in *; split_and!; auto; naive_solver.
Qed.

Lemma run_ops_terminal os s :
  session_ok s ->
  let r := run_ops os s in
  session_ok r.2 /\ (r.1 + (if terminal s then 1 else 0) <= (if terminal r.2 then 1 else 0))%nat.
Proof.
  revert s. induction os as [|o os IH]; intros s Hok; cbn [run_ops fst snd].
  - split; [done|]. cbn. lia.
  - destruct (run_op o s) as [b s1] eqn:E1.
    destruct (run_op_terminal o s Hok) as (Hok1 & Ht & Hb). rewrite E1 in *. cbn in *.
    specialize (IH s1 Hok1). destruct (run_ops os s1) as [n s2]. cbn in *.
    destruct IH as [Hok2 Hn]. split; [done|].
    destruct b, (terminal s); intuition; repeat case_match; try done; lia.
Qed.

(** Over any sequence of the operations of a session, started from a fresh
    one, [MarkBroken] and [MarkAsClosing] together report its end at most
    once, so a close reason is recorded at most once; and once they have, the
    session never again passes [CanReturnToPool]. *)
Theorem closed_once id owned t1 t2 os :
  let r := run_ops os (TKqpSessionCommon id owned t1 t2) in
  (r.1 <= 1)%nat /\ (r.1 = 1%nat -> CanReturnToPool r.2 = false /\
    forall os', CanReturnToPool (run_ops os' r.2).2 = false).
Proof.
  destruct (run_ops_terminal os (TKqpSessionCommon id owned t1 t2)) as [Hok Hn];
    [by intros ?|]. cbv zeta. cbn [terminal TKqpSessionCommon] in Hn.
  set (r := run_ops os _) in *. clearbody r.
  assert (forall s, terminal s = true -> CanReturnToPool s = false) as Hc.
  { intros s. unfold terminal, CanReturnToPool. destruct s as [? ? [] [] ? ? ? ? ?]; done. }
  split; [destruct (terminal r.2); lia|]. intros E.
  assert (terminal r.2 = true) as Ht by (destruct (terminal r.2); [done|lia]).
  split; [by apply Hc|]. intros os'. apply Hc.
  destruct (run_ops_terminal os' r.2 Hok) as [_ Hn']. rewrite Ht in Hn'.
  destruct (terminal (run_ops os' r.2).2); [done|lia].
Qed.

(** The statuses that leave a session as it is. *)
Definition keeps_session (st : TStatus) : Prop :=
  IsSessionCloseRequested st = false /\
  (st_status st <> SESSION_BUSY /\ st_status st <> BAD_SESSION) /\
  (IsTransportError st = false \/
     st_status st = CLIENT_RESOURCE_EXHAUSTED \/ st_status st = CLIENT_OUT_OF_RANGE).

Lemma FromStatus_none st : FromStatus st = None <-> keeps_session st.
Proof.
  unfold FromStatus, keeps_session, HasStatus, IsBreakingTransport, IsTransportError.
  destruct st as [c m]. cbn [List.find Commands fst snd st_status].
  unfold HasStatus, IsBreakingTransport, IsTransportError. cbn [st_status].
  destruct (IsSessionCloseRequested _); destruct c; vm_compute; intuition congruence.
Qed.

Lemma Execute_terminal c client s : terminal (Execute c client s).2 = true.
Proof.
  unfold Execute, run_transition. destruct (Transition c).
  - unfold MarkBroken, terminal. cbn. apply orb_true_r.
  - unfold MarkAsClosing, terminal.
    destruct s as [? ? [] [] ? ? ? ? ?]; done.
Qed.

(** Which responses end a session: a live session stays so exactly when the
    call did not throw and its status is neither a busy or bad session nor a
    transport error other than the exhaustion of client resources and the end
    of a stream, and carries no session-close hint.  Every other response makes
    the session terminal. *)
Theorem InterceptResponse_closes client upd now timeout random r s :
  terminal s = false ->
  terminal (InterceptResponse client upd now timeout random r s).2 = false <->
  exists st, r = Some st /\ keeps_session st.
Proof.
  intros Ht. unfold InterceptResponse. destruct r as [st|].
  - destruct (FromStatus st) as [c|] eqn:E.
    + rewrite Execute_terminal. split; [done|]. intros (st' & [= <-] & Hk).
      apply FromStatus_none in Hk. congruence.
    + apply FromStatus_none in E. split; [by eauto|]. intros _.
      by case_goal.
  - rewrite Execute_terminal. split; [done|]. by intros (? & ? & _).
Qed.

Lemma InterceptResponse_closes_witness :
  terminal (InterceptResponse true true 0 1000 (fun _ => 0)
    (Some (mkStatus ABORTED [])) (set_state S_ACTIVE (TKqpSessionCommon "s" true 0 0))).2 = false.
Proof.
  apply InterceptResponse_closes; [reflexivity|].
  exists (mkStatus ABORTED []). split; [reflexivity|]. apply FromStatus_none. reflexivity.
Defined.
