(* ===== verification/SessionPool.v ===== *)
(** * The session pool

    Models [TSessionPool] of [src/src/client/impl/session/session_pool.cpp] and
    the two session clients that drive it: [DeleteSession] and [ReturnSession]
    of [src/src/client/query/client.cpp] and
    [src/src/client/table/impl/table_client.cpp], with the smart deleter of
    [kqp_session_common.cpp].

    Sessions live in a heap shared by the pool, the users and the server's
    callbacks: the [unique_ptr]s of [Sessions_] are addresses, a lookup of a
    freed address is a failure of the model, so every theorem that an operation
    returns excludes use after free.  Each operation is split where the code
    releases [Mtx_]; the whole operation is the composition, and the pieces are
    the atomic steps of SessionSystem.v. *)

From S2P Require Import Prelude Status Session.

Abbreviation ptr := positive.

(** [IGetSessionCtx]: a request for a session, with its deadline. *)
Record ctx := mkCtx { ctx_id : positive; ctx_deadline : Z }.

#[export] Instance ctx_eq_dec : EqDecision ctx.
Proof. solve_decision. Defined.

(** [TSessionCounter] of [stats.h]: the gauge it reports to, if any. *)
Record counter := mkCounter { gauge : option Z; oldValue : Z }.

Definition Apply (newValue : Z) (c : counter) : counter :=
  match gauge c with
  | Some g => mkCounter (Some (g + (newValue - oldValue c))) newValue
  | None => c
  end.

Record pool := mkPool {
  Closed_ : bool;
  Sessions_ : list (Z * ptr);
  Waiters_ : list (Z * ctx);
  MaxQueueSize_ : Z;
  ActiveSessions_ : Z;
  MaxActiveSessions_ : Z;
  MinPoolSize_ : Z;
  ActiveSessionsCounter_ : counter;
  InPoolSessionsCounter_ : counter;
  SessionWaiterCounter_ : counter;
  ConnectionCount_ : Z * Z
}.

(** The constructor: the queue holds ten requests per allowed session, at the
    width of [std::uint32_t]. *)
Definition TSessionPool (maxActiveSessions minPoolSize : Z) : pool :=
  mkPool false [] [] (u32 (maxActiveSessions * 10)) 0 maxActiveSessions minPoolSize
    (mkCounter None 0) (mkCounter None 0) (mkCounter None 0) (0, 0).

Definition set_closed (b : bool) (p : pool) : pool :=
  mkPool b (Sessions_ p) (Waiters_ p) (MaxQueueSize_ p) (ActiveSessions_ p)
    (MaxActiveSessions_ p) (MinPoolSize_ p) (ActiveSessionsCounter_ p)
    (InPoolSessionsCounter_ p) (SessionWaiterCounter_ p) (ConnectionCount_ p).
Definition set_sessions (l : list (Z * ptr)) (p : pool) : pool :=
  mkPool (Closed_ p) l (Waiters_ p) (MaxQueueSize_ p) (ActiveSessions_ p)
    (MaxActiveSessions_ p) (MinPoolSize_ p) (ActiveSessionsCounter_ p)
    (InPoolSessionsCounter_ p) (SessionWaiterCounter_ p) (ConnectionCount_ p).
Definition set_waiters (l : list (Z * ctx)) (p : pool) : pool :=
  mkPool (Closed_ p) (Sessions_ p) l (MaxQueueSize_ p) (ActiveSessions_ p)
    (MaxActiveSessions_ p) (MinPoolSize_ p) (ActiveSessionsCounter_ p)
    (InPoolSessionsCounter_ p) (SessionWaiterCounter_ p) (ConnectionCount_ p).
Definition set_active (n : Z) (p : pool) : pool :=
  mkPool (Closed_ p) (Sessions_ p) (Waiters_ p) (MaxQueueSize_ p) n
    (MaxActiveSessions_ p) (MinPoolSize_ p) (ActiveSessionsCounter_ p)
    (InPoolSessionsCounter_ p) (SessionWaiterCounter_ p) (ConnectionCount_ p).

(** [TWaitersQueue::Size] returns a [std::uint32_t]. *)
Definition Size (p : pool) : Z := u32 (Z.of_nat (length (Waiters_ p))).

Definition UpdateStats (p : pool) : pool :=
  let n := Z.of_nat (length (Sessions_ p)) in
  mkPool (Closed_ p) (Sessions_ p) (Waiters_ p) (MaxQueueSize_ p) (ActiveSessions_ p)
    (MaxActiveSessions_ p) (MinPoolSize_ p)
    (Apply (ActiveSessions_ p) (ActiveSessionsCounter_ p))
    (Apply n (InPoolSessionsCounter_ p)) (Apply (Size p) (SessionWaiterCounter_ p))
    (n, ActiveSessions_ p).

Definition IncrementActiveCounterUnsafe (p : pool) : pool :=
  UpdateStats (set_active (ActiveSessions_ p + 1) p).

(** ** The queue of waiters *)

(** [TryPush]: [None] when the queue is full. *)
Definition TryPush (c : ctx) (p : pool) : option pool :=
  if Z.of_nat (length (Waiters_ p)) <? MaxQueueSize_ p
  then Some (set_waiters (mm_insert (ctx_deadline c) c (Waiters_ p)) p)
  else None.

Definition TryGet (p : pool) : option (ctx * pool) :=
  match Waiters_ p with
  | [] => None
  | (_, c) :: l => Some (c, set_waiters l p)
  end.

(** [GetOld]: the waiters up to the deadline, in order. *)
Fixpoint split_old (deadline : Z) (l : list (Z * ctx)) : list ctx * list (Z * ctx) :=
  match l with
  | [] => ([], [])
  | (d, c) :: l' =>
      if deadline <? d then ([], l)
      else let '(old, rest) := split_old deadline l' in (c :: old, rest)
  end.

Definition GetOld (deadline : Z) (p : pool) : list ctx * pool :=
  let '(old, rest) := split_old deadline (Waiters_ p) in (old, set_waiters rest p).

(** ** The shared world *)

(** Calls out of the pool and the clients. *)
Inductive event :=
  | EvReplySession (c : ctx) (s : ptr)
  | EvReplyNew (c : ctx)
  | EvReplyError (c : ctx)
  | EvScheduleCleanup (c : ctx)
  | EvIncPending
  | EvIncFake
  | EvIncTimeouts
  | EvSessionClosed (reason : string)
  | EvCloseInternal (id : string)
  | EvCreated (c : ctx) (s : ptr)
  | EvFreed (s : ptr).

Record world := mkWorld {
  heap : gmap ptr session;
  pl : pool;
  log : list event
}.

Definition with_heap (h : gmap ptr session) (w : world) : world := mkWorld h (pl w) (log w).
Definition with_pool (p : pool) (w : world) : world := mkWorld (heap w) p (log w).

Definition emit (e : event) : M world unit :=
  modify (fun w => mkWorld (heap w) (pl w) (log w ++ [e])).
Definition upd_pool (f : pool -> pool) : M world unit :=
  modify (fun w => with_pool (f (pl w)) w).

(** Access through a session pointer. *)
Definition get_session (s : ptr) : M world session := fun w =>
  match heap w !! s with
  | Some x => Ok (x, w)
  | None => Fail (Abort "use after free")
  end.
Definition put_session (s : ptr) (x : session) : M world unit :=
  modify (fun w => with_heap (<[s := x]> (heap w)) w).
Definition upd_session (s : ptr) (f : session -> session) : M world unit :=
  x ← get_session s; put_session s (f x).
Definition call_session (s : ptr) (f : session -> bool * session) : M world bool :=
  x ← get_session s; put_session s (f x).2 ;; mret (f x).1.
Definition free_session (s : ptr) : M world unit :=
  get_session s ;;
  modify (fun w => with_heap (delete s (heap w)) w) ;; emit (EvFreed s).

(** ** Operations of the pool *)

(** [ReplySessionToUser], by its accesses to the session; the session's owner is
    then the request's. *)
Definition Reply_check (s : ptr) : M world unit :=
  x ← get_session s;
  abort_unless (bool_decide (State_ x = S_IDLE)) "session->GetState() == S_IDLE".
Definition Reply_activate (s : ptr) : M world unit :=
  ok ← call_session s MarkActive;
  abort_unless ok "session->MarkActive()".
Definition Reply_hand (s : ptr) (c : ctx) : M world unit :=
  upd_session s (SetNeedUpdateActiveCounter true) ;;
  emit (EvReplySession c s).

Definition ReplySessionToUser (s : ptr) (c : ctx) : M world unit :=
  Reply_check s ;; Reply_activate s ;; Reply_hand s c.

Inductive TSessionSource := SrcPool | SrcWaiter | SrcError.

(** The last element of the multimap: [std::prev(Sessions_.end())]. *)
Definition pop_last (l : list (Z * ptr)) : option (ptr * list (Z * ptr)) :=
  match reverse l with
  | [] => None
  | (_, s) :: r => Some (s, reverse r)
  end.

(** [GetSession] under the lock. *)
Definition GetSession_locked (c : ctx) : M world (TSessionSource * option ptr) :=
  p ← gets pl;
  src ← (if ((MaxActiveSessions_ p =? 0) || (ActiveSessions_ p <? MaxActiveSessions_ p))%bool
         then upd_pool IncrementActiveCounterUnsafe ;; mret SrcPool
         else match TryPush c p with
              | Some p' =>
                  upd_pool (fun _ => p') ;; emit (EvScheduleCleanup c) ;; emit EvIncPending ;;
                  mret SrcWaiter
              | None => mret SrcError
              end);
  p ← gets pl;
  impl ← (match pop_last (Sessions_ p) with
          | Some (s, rest) =>
              upd_session s (UpdateServerCloseHandler false) ;;
              upd_pool (set_sessions rest) ;; mret (Some s)
          | None => mret None
          end);
  upd_pool UpdateStats ;;
  mret (src, impl).

(** The rest of [GetSession]; a session still owned by the local [unique_ptr]
    is destroyed at its end. *)
Definition GetSession_reply (c : ctx) (r : TSessionSource * option ptr) : M world unit :=
  match r with
  | (SrcWaiter, impl) => match impl with Some s => free_session s | None => mret tt end
  | (SrcError, impl) =>
      emit EvIncFake ;; emit (EvReplyError c) ;;
      match impl with Some s => free_session s | None => mret tt end
  | (SrcPool, Some s) => ReplySessionToUser s c
  | (SrcPool, None) => emit (EvReplyNew c)
  end.

Definition GetSession (c : ctx) : M world unit :=
  r ← GetSession_locked c; GetSession_reply c r.

(** [CheckAndFeedWaiterNewSession]: the request fed, if any. *)
Definition CheckAndFeed_locked : M world (option ctx) :=
  p ← gets pl;
  if Closed_ p then mret None
  else match TryGet p with
       | Some (c, p') => upd_pool (fun _ => p') ;; mret (Some c)
       | None => mret None
       end.

Definition CheckAndFeed_reply (active : bool) (r : option ctx) : M world bool :=
  match r with
  | None => mret false
  | Some c => (if negb active then emit (EvReplyError c) else emit (EvReplyNew c)) ;; mret true
  end.

Definition CheckAndFeedWaiterNewSession (active : bool) : M world bool :=
  r ← CheckAndFeed_locked; CheckAndFeed_reply active r.

Definition ClearOldWaiters (now : Z) : M world unit :=
  p ← gets pl;
  let '(old, p') := GetOld now p in
  upd_pool (fun _ => p') ;;
  for_each (fun c => emit EvIncFake ;; emit EvIncTimeouts ;; emit (EvReplyError c)) old ;;
  when (negb (bool_decide (old = []))) (upd_pool UpdateStats).

(** [ReturnSession] under the lock: whether the session was accepted, and the
    request it is to be handed to. *)
Definition ReturnSession_locked (s : ptr) (active : bool) : M world (bool * option ctx) :=
  p ← gets pl;
  if Closed_ p then mret (false, None)
  else
    upd_session s (UpdateServerCloseHandler true) ;;
    x ← get_session s;
    if negb (CanReturnToPool x) then
      upd_session s (UpdateServerCloseHandler false) ;; mret (false, None)
    else
      p ← gets pl;
      c ← (match TryGet p with
           | Some (c, p') =>
               upd_session s (UpdateServerCloseHandler false) ;;
               upd_pool (fun _ => p') ;;
               when (negb active) (upd_pool IncrementActiveCounterUnsafe) ;;
               mret (Some c)
           | None =>
               x ← get_session s;
               upd_pool (fun p => set_sessions (mm_insert (TimeToTouch_ x) s (Sessions_ p)) p) ;;
               when active (
                 p ← gets pl;
                 abort_unless (negb (ActiveSessions_ p =? 0)) "ActiveSessions_" ;;
                 upd_pool (fun p => set_active (ActiveSessions_ p - 1) p) ;;
                 upd_session s (SetNeedUpdateActiveCounter false)) ;;
               mret None
           end);
      upd_pool UpdateStats ;;
      mret (true, c).

Definition PoolReturnSession (s : ptr) (active : bool) : M world bool :=
  r ← ReturnSession_locked s active;
  match r.2 with
  | Some c => ReplySessionToUser s c ;; mret r.1
  | None => mret r.1
  end.

Definition DecrementActiveCounter : M world unit :=
  p ← gets pl;
  abort_unless (negb (ActiveSessions_ p =? 0)) "ActiveSessions_" ;;
  upd_pool (fun p => set_active (ActiveSessions_ p - 1) p) ;;
  upd_pool UpdateStats.

(** ** The two session clients *)

Inductive client_kind := QueryClient | TableClient.

#[export] Instance client_kind_eq_dec : EqDecision client_kind.
Proof. solve_decision. Defined.

(** [ReturnSession] of the clients up to the call of the pool, by its accesses
    to the session.  [migrate] is the answer of the table client's request
    migrator; only the query client looks at the answer of [MarkIdle]. *)
Definition Return_check (k : client_kind) (migrate : bool) (s : ptr) : M world bool :=
  x ← get_session s;
  let live := (bool_decide (State_ x = S_ACTIVE) || bool_decide (State_ x = S_IDLE))%bool in
  match k with
  | QueryClient => mret live
  | TableClient =>
      abort_unless live "GetState() == S_ACTIVE || GetState() == S_IDLE" ;;
      mret (negb migrate)
  end.
Definition Return_need (s : ptr) : M world bool :=
  x ← get_session s; mret (NeedUpdateActiveCounter_ x).
Definition Return_idle (k : client_kind) (s : ptr) : M world bool :=
  ok ← call_session s MarkIdle;
  mret (match k with QueryClient => ok | TableClient => true end).

(** [None]: refused; [Some need]: the pool is called with [need]. *)
Definition Return_prepare (k : client_kind) (migrate : bool) (s : ptr)
  : M world (option bool) :=
  live ← Return_check k migrate s;
  if negb live then mret None
  else
    need ← Return_need s;
    ok ← Return_idle k s;
    if negb ok then mret None else mret (Some need).

(** What follows a refusal by the pool. *)
Definition Return_refused (s : ptr) (need : bool) : M world unit :=
  upd_session s (SetNeedUpdateActiveCounter need).

Definition ReturnSession (k : client_kind) (migrate : bool) (s : ptr) : M world bool :=
  r ← Return_prepare k migrate s;
  match r with
  | None => mret false
  | Some need =>
      ok ← PoolReturnSession s need;
      if negb ok then Return_refused s need ;; mret false else mret true
  end.

(** [DeleteSession]: feeding a waiter, then the counter, then the object. *)
Definition Delete_feed (s : ptr) : M world (bool * option ctx) :=
  x ← get_session s;
  if IsOwnedBySessionPool_ x
  then r ← CheckAndFeed_locked; mret (NeedUpdateActiveCounter_ x, r)
  else mret (false, None).

Definition Delete_fed (s : ptr) (r : bool * option ctx) : M world unit :=
  fed ← CheckAndFeed_reply r.1 r.2;
  when fed (upd_session s (SetNeedUpdateActiveCounter false)).

Definition Delete_finish (k : client_kind) (s : ptr) : M world unit :=
  x ← get_session s;
  when (NeedUpdateActiveCounter_ x) DecrementActiveCounter ;;
  when (bool_decide (k = TableClient) && negb (bool_decide (SessionId_ x = "")))
    (emit (EvCloseInternal (SessionId_ x))) ;;
  free_session s.

Definition DeleteSession (k : client_kind) (s : ptr) : M world unit :=
  r ← Delete_feed s; Delete_fed s r ;; Delete_finish k s.

(** [GetSmartDeleter]: whether the session goes to [ReturnSession] first. *)
Definition Deleter_choose (s : ptr) : M world bool :=
  upd_session s (set_deadline None) ;;
  x ← get_session s;
  match State_ x with
  | S_STANDALONE | S_BROKEN | S_CLOSING => mret false
  | S_IDLE | S_ACTIVE => mret true
  end.

Definition SmartDeleter (k : client_kind) (migrate : bool) (s : ptr) : M world unit :=
  b ← Deleter_choose s;
  ok ← (if (b : bool) then ReturnSession k migrate s else mret false);
  if negb ok then DeleteSession k s else mret tt.

Definition CloseAndDeleteSession (k : client_kind) (migrate : bool) (s : ptr) : M world unit :=
  call_session s MarkBroken ;; SmartDeleter k migrate s.

(** ** New sessions *)

(** The session a creation ends with: [TSession::TImpl]'s constructor in the
    query client (without a stream processor on failure), the extractor of
    [CreateSession] and the session inspector in the table client. *)
Definition NewSession (ok : bool) (id : string) (now1 now2 : Z) : session :=
  let x := TKqpSessionCommon id true now1 now2 in
  SetNeedUpdateActiveCounter true (if ok then (MarkActive x).2 else (MarkBroken x).2).

(** A failed attempt of the table client that is retried: the session it made is
    dropped without the inspector having touched it. *)
Definition RetriedSession (id : string) (now1 now2 : Z) : session :=
  (MarkBroken (TKqpSessionCommon id true now1 now2)).2.

Definition alloc_session (s : ptr) (x : session) : M world unit :=
  modify (fun w => with_heap (<[s := x]> (heap w)) w).

(** ** Closing by the server, the periodic task and draining *)

(** The scan of [OnCloseSession] over the sessions with the same key. *)
Fixpoint find_session (h : gmap ptr session) (key : Z) (id : string) (l : list (Z * ptr))
  : option ptr * list (Z * ptr) :=
  match l with
  | [] => (None, [])
  | (k, s) :: l' =>
      if ((k =? key) && bool_decide (SessionId_ <$> h !! s = Some id))%bool then (Some s, l')
      else let '(r, l'') := find_session h key id l' in (r, (k, s) :: l'')
  end.

Definition OnClose_locked (s : ptr) : M world (option ptr) :=
  x ← get_session s;
  w ← get_st;
  let '(r, rest) := find_session (heap w) (TimeToTouch_ x) (SessionId_ x) (Sessions_ (pl w)) in
  upd_pool (set_sessions rest) ;;
  mret r.

(** The first part of closing a session taken out of the pool. *)
Definition OnClose_mark (s : ptr) (reason : string) : M world unit :=
  x ← get_session s;
  abort_unless (bool_decide (State_ x = S_IDLE)) "session->GetState() == S_IDLE" ;;
  first ← call_session s MarkBroken;
  when first (emit (EvSessionClosed reason)).

Definition OnCloseSession (k : client_kind) (migrate : bool) (s : ptr) (reason : string)
  : M world unit :=
  r ← OnClose_locked s;
  match r with
  | Some s' => OnClose_mark s' reason ;; CloseAndDeleteSession k migrate s'
  | None => mret tt
  end.

Definition CloseFromServer (k : client_kind) (migrate : bool) (s : ptr) (reason : string)
  : M world unit :=
  x ← get_session s;
  if CloseHandler_ x then OnCloseSession k migrate s reason else mret tt.

(** [HandleAttachSessionState] on a shutdown message, with a live client. *)
Definition HandleShutdown (k : client_kind) (migrate : bool) (s : ptr)
  (command : TSessionCloseCommand) : M world unit :=
  x ← get_session s;
  let '(rec, x') := Execute command true x in
  put_session s x' ;;
  match rec with Some reason => emit (EvSessionClosed reason) | None => mret tt end ;;
  CloseFromServer k migrate s (Reason command).

(** The loop of the periodic task over [Sessions_]: the sessions to touch, those
    to delete and the ones left; [kept] sessions precede the iterator.  [None]
    when a session is freed memory. *)
Fixpoint periodic_scan (fuel : nat) (now : Z) (pred : session -> nat -> bool) (cmd : bool)
  (h : gmap ptr session) (l : list (Z * ptr)) (kept : nat)
  : option (list ptr * list ptr * list (Z * ptr)) :=
  match fuel, l with
  | S fuel, (k, s) :: l' =>
      x ← h !! s;
      if now <? TimeToTouch_ x then Some ([], [], l)
      else if pred x (kept + length l)%nat then
        '(t, d, r) ← periodic_scan fuel now pred cmd h l' kept; Some (t, s :: d, r)
      else if cmd then
        '(t, d, r) ← periodic_scan fuel now pred cmd h l' kept; Some (s :: t, d, r)
      else
        '(t, d, r) ← periodic_scan fuel now pred cmd h l' (S kept); Some (t, d, (k, s) :: r)
  | _, _ => Some ([], [], l)
  end.

Definition PERIODIC_ACTION_BATCH_SIZE : nat := 10.

Definition Periodic_locked (now nowUtil : Z) (pred : session -> nat -> bool) (cmd : bool)
  : M world (list ptr * list ptr * list ctx) :=
  w ← get_st;
  '(touch, del, rest) ← (match periodic_scan PERIODIC_ACTION_BATCH_SIZE nowUtil pred cmd
      (heap w) (Sessions_ (pl w)) 0 with
    | Some r => mret r
    | None => abort "use after free"
    end);
  for_each (fun s => upd_session s (UpdateServerCloseHandler false)) (touch ++ del) ;;
  upd_pool (set_sessions rest) ;;
  p ← gets pl;
  let '(old, p') := GetOld now p in
  upd_pool (fun _ => p') ;;
  upd_pool UpdateStats ;;
  mret (touch, del, old).

(** One session of [sessionsToDelete] up to its smart deleter. *)
Definition Periodic_mark (s : ptr) : M world unit :=
  x ← get_session s;
  abort_unless (bool_decide (State_ x = S_IDLE)) "sessionImpl->GetState() == S_IDLE" ;;
  let '(rec, x') := Execute PoolIdleTimeout true x in
  put_session s x' ;;
  match rec with Some reason => emit (EvSessionClosed reason) | None => mret tt end ;;
  call_session s MarkBroken ;; mret tt.

(** One session of [sessionsToTouch], with what the table client's command asserts. *)
Definition Periodic_touch (s : ptr) : M world unit :=
  x ← get_session s;
  abort_unless (bool_decide (State_ x = S_IDLE)) "sessionImpl->GetState() == S_IDLE" ;;
  abort_unless (negb (bool_decide (SessionId_ x = ""))) "!session.GetId().empty()".

Definition reply_timeouts (old : list ctx) : M world unit :=
  for_each (fun c => emit EvIncFake ;; emit EvIncTimeouts ;; emit (EvReplyError c)) old.

(** [Drain] with the table client's drainer, which takes every session. *)
Definition Drain_locked (close : bool) : M world (list ptr * list ctx) :=
  p ← gets pl;
  upd_pool (set_closed close) ;;
  for_each (fun e => upd_session e.2 (UpdateServerCloseHandler false)) (Sessions_ p) ;;
  upd_pool (set_sessions []) ;;
  (if close then upd_pool (set_waiters []) else mret tt) ;;
  upd_pool UpdateStats ;;
  mret (snd <$> Sessions_ p, if close then snd <$> Waiters_ p else []).

Definition Drain_reply (r : list ptr * list ctx) : M world unit :=
  for_each (fun c => emit EvIncFake ;; emit (EvReplyError c)) r.2.

(** The table client's [Drain]: the drained sessions are closed and destroyed. *)
Definition Drain_close (s : ptr) : M world unit :=
  x ← get_session s;
  when (negb (bool_decide (SessionId_ x = ""))) (emit (EvCloseInternal (SessionId_ x))) ;;
  free_session s.

Definition Drain : M world unit :=
  r ← Drain_locked true; Drain_reply r ;; for_each Drain_close r.1.

(** ** Reasoning about sessions in the heap *)

Section Rules.
Context (w : world) (s : ptr) (x : session) (Hx : heap w !! s = Some x).

Lemma wp_get_session Q : Q x w -> wp (get_session s) Q w.
Proof. unfold wp, get_session. by rewrite Hx. Qed.

Lemma wp_upd_session f Q :
  Q tt (with_heap (<[s := f x]> (heap w)) w) -> wp (upd_session s f) Q w.
Proof. intros HQ. apply wp_bind, wp_get_session. done. Qed.

Lemma wp_call_session f Q :
  Q (f x).1 (with_heap (<[s := (f x).2]> (heap w)) w) -> wp (call_session s f) Q w.
Proof. intros HQ. apply wp_bind, wp_get_session, wp_bind. done. Qed.

Lemma wp_free_session Q :
  Q tt (mkWorld (delete s (heap w)) (pl w) (log w ++ [EvFreed s])) ->
  wp (free_session s) Q w.
Proof. intros HQ. apply wp_bind, wp_get_session, wp_bind. done. Qed.

End Rules.

Lemma wp_emit e Q w :
  Q tt (mkWorld (heap w) (pl w) (log w ++ [e])) -> wp (emit e) Q w.
Proof. done. Qed.

Lemma wp_upd_pool f Q w : Q tt (with_pool (f (pl w)) w) -> wp (upd_pool f) Q w.
Proof. done. Qed.

Lemma wp_put_session s x Q w :
  Q tt (with_heap (<[s := x]> (heap w)) w) -> wp (put_session s x) Q w.
Proof. done. Qed.

(** One step of a computation on the world; the sessions accessed are looked up
    in the context. *)
Ltac world_step :=
  match goal with
  | |- wp (_ ≫= _) _ _ => apply wp_bind
  | |- wp (mret _) _ _ => apply wp_ret
  | |- wp (gets _) _ _ => apply wp_gets
  | |- wp get_st _ _ => apply wp_get_st
  | |- wp (get_session _) _ _ => eapply wp_get_session; [eassumption|]
  | |- wp (upd_session _ _) _ _ => eapply wp_upd_session; [eassumption|]
  | |- wp (call_session _ _) _ _ => eapply wp_call_session; [eassumption|]
  | |- wp (put_session _ _) _ _ => apply wp_put_session
  | |- wp (free_session _) _ _ => eapply wp_free_session; [eassumption|]
  | |- wp (emit _) _ _ => apply wp_emit
  | |- wp (upd_pool _) _ _ => apply wp_upd_pool
  end; cbn beta iota; cbn [heap pl log with_heap with_pool].
Ltac world_steps := repeat world_step.
