(* ===== verification/SessionSystem.v ===== *)
(** * The session pool under concurrency

    The pool, its clients, the users of sessions and the server's shutdown
    messages run on different threads.  A state of the system is the shared
    world of SessionPool.v together with the list of the activities in flight,
    each stopped between two critical sections of the code; a step runs one of
    them up to its next release of a lock, in any order.  The environment
    (users asking for and dropping sessions, responses, creations ending, the
    server closing sessions, timers) steps as it likes.

    Shown, in every reachable state of the query and of the table client: no
    [Y_ABORT_UNLESS] fires and no freed session is touched; every session has
    exactly one owner; the counter of active sessions counts exactly the
    creations in flight and the sessions handed out; every request is answered
    exactly once or still pending; a pooled session whose shutdown was
    announced is about to be removed.  For the query client the sessions in
    existence never exceed the limit. *)

From S2P Require Import Prelude Status Session SessionPool.

(** ** Activities *)

Inductive task :=
  | Pooled (key : Z) (s : ptr)                    (* an entry of [Sessions_] *)
  | TGet (c : ctx)                                (* [GetSession] called *)
  | TGot (c : ctx) (r : TSessionSource * option ptr) (* ... past its lock *)
  | TReply1 (s : ptr) (c : ctx)                   (* [ReplySessionToUser] *)
  | TReply2 (s : ptr) (c : ctx)                   (* ... state checked *)
  | TReply3 (s : ptr) (c : ctx)                   (* ... marked active *)
  | Creating (c : ctx)                            (* a session is being created *)
  | Held (s : ptr)                                (* owned by a user or an RPC *)
  | TDeleter (s : ptr)                            (* the smart deleter runs *)
  | TReturn1 (s : ptr)                            (* [ReturnSession] of the client *)
  | TReturn2 (s : ptr)                            (* ... state checked *)
  | TReturn3 (s : ptr) (need : bool)              (* ... flag read *)
  | TReturn4 (s : ptr) (need : bool)              (* ... marked idle *)
  | TRefused (s : ptr) (need : bool)              (* the pool refused *)
  | TDelete1 (s : ptr)                            (* [DeleteSession] *)
  | TDelete2 (s : ptr) (r : bool * option ctx)    (* ... waiter taken *)
  | TDelete3 (s : ptr)                            (* ... waiter fed *)
  | TClose (s : ptr) (reason : string)            (* [OnCloseSession] took it *)
  | TBreak (s : ptr)                              (* [CloseAndDeleteSession] *)
  | TTouch (s : ptr)                              (* to be kept alive *)
  | TIdle (s : ptr)                               (* idle for too long *)
  | TDrain (s : ptr)                              (* drained *)
  | TErr (c : ctx)                                (* to be answered an error *)
  | TSrv1 (s : ptr) (reason : string)             (* [CloseFromServer] *)
  | TSrv2 (s : ptr) (reason : string).            (* [OnCloseSession] *)

#[export] Instance TSessionSource_eq_dec : EqDecision TSessionSource.
Proof. solve_decision. Defined.

#[export] Instance task_eq_dec : EqDecision task.
Proof. solve_decision. Defined.

(** The session an activity owns. *)
Definition t_ptr (t : task) : option ptr :=
  match t with
  | Pooled _ s | TReply1 s _ | TReply2 s _ | TReply3 s _ | Held s | TDeleter s
  | TReturn1 s | TReturn2 s | TReturn3 s _ | TReturn4 s _ | TRefused s _
  | TDelete1 s | TDelete2 s _ | TDelete3 s | TClose s _ | TBreak s | TTouch s
  | TIdle s | TDrain s => Some s
  | TGot _ (_, o) => o
  | TGet _ | Creating _ | TErr _ | TSrv1 _ _ | TSrv2 _ _ => None
  end.

(** The session a server callback refers to without owning it. *)
Definition t_srv (t : task) : option ptr :=
  match t with TSrv1 s _ | TSrv2 s _ => Some s | _ => None end.

(** The request an activity still has to answer. *)
Definition t_ctx (t : task) : list ctx :=
  match t with
  | TGet c | TReply1 _ c | TReply2 _ c | TReply3 _ c | Creating c | TErr c => [c]
  | TGot c (src, _) => match src with SrcWaiter => [] | _ => [c] end
  | TDelete2 _ (_, Some c) => [c]
  | _ => []
  end.

(** One critical section of an activity; [b] is the migrator's answer. *)
Definition run_task (k : client_kind) (b : bool) (t : task) : M world (list task) :=
  match t with
  | Pooled _ _ | Creating _ | Held _ => mret [t]
  | TGet c => r ← GetSession_locked c; mret [TGot c r]
  | TGot c (SrcPool, Some s) => mret [TReply1 s c]
  | TGot c r =>
      GetSession_reply c r ;;
      mret (match r.1 with SrcPool => [Creating c] | _ => [] end)
  | TReply1 s c => Reply_check s ;; mret [TReply2 s c]
  | TReply2 s c => Reply_activate s ;; mret [TReply3 s c]
  | TReply3 s c => Reply_hand s c ;; mret [Held s]
  | TDeleter s => b ← Deleter_choose s; mret [if (b : bool) then TReturn1 s else TDelete1 s]
  | TReturn1 s => live ← Return_check k b s;
      mret [if (live : bool) then TReturn2 s else TDelete1 s]
  | TReturn2 s => need ← Return_need s; mret [TReturn3 s need]
  | TReturn3 s need => ok ← Return_idle k s;
      mret [if (ok : bool) then TReturn4 s need else TDelete1 s]
  | TReturn4 s need =>
      r ← ReturnSession_locked s need;
      mret (match r with
            | (false, _) => [TRefused s need]
            | (true, Some c) => [TReply1 s c]
            | (true, None) => []
            end)
  | TRefused s need => Return_refused s need ;; mret [TDelete1 s]
  | TDelete1 s => r ← Delete_feed s; mret [TDelete2 s r]
  | TDelete2 s r =>
      Delete_fed s r ;;
      mret (TDelete3 s :: match r with (true, Some c) => [Creating c] | _ => [] end)
  | TDelete3 s => Delete_finish k s ;; mret []
  | TClose s reason => OnClose_mark s reason ;; mret [TBreak s]
  | TBreak s => call_session s MarkBroken ;; mret [TDeleter s]
  | TTouch s => Periodic_touch s ;; mret [Held s]
  | TIdle s => Periodic_mark s ;; mret [TDeleter s]
  | TDrain s => Drain_close s ;; mret []
  | TErr c => emit EvIncFake ;; emit (EvReplyError c) ;; mret []
  | TSrv1 s reason => x ← get_session s;
      mret (if CloseHandler_ x then [TSrv2 s reason] else [])
  | TSrv2 s reason => r ← OnClose_locked s;
      mret (match r with Some s' => [TClose s' reason] | None => [] end)
  end.

(** The session an activity is about to destroy.  The destructor waits for the
    server's callback on that session to be over ([WaitAndLock]). *)
Definition frees (t : task) : option ptr :=
  match t with
  | TDelete3 s | TDrain s => Some s
  | TGot _ (SrcWaiter, o) | TGot _ (SrcError, o) => o
  | _ => None
  end.

Definition enabled (t : task) (rest : list task) : Prop :=
  match frees t with
  | Some s => Forall (fun t' => t_srv t' <> Some s) rest
  | None => True
  end.

(** ** The environment *)

(** A shutdown message on the attach stream marks the session first. *)
Definition Server_mark (s : ptr) (command : TSessionCloseCommand) : M world unit :=
  x ← get_session s;
  let '(rec, x') := Execute command true x in
  put_session s x' ;;
  match rec with Some reason => emit (EvSessionClosed reason) | None => mret tt end.

(** A response to a request made with a session. *)
Definition User_response (s : ptr) (upd : bool) (now timeout : Z) (random : Z -> Z)
  (r : option TStatus) : M world unit :=
  x ← get_session s;
  let '(rec, x') := InterceptResponse true upd now timeout random r x in
  put_session s x' ;;
  match rec with Some reason => emit (EvSessionClosed reason) | None => mret tt end.

Record sys := mkSys { sw : world; st : list task; reqs : list ctx }.

(** Session ids are unique while the sessions exist, and not empty. *)
Definition fresh_id (h : gmap ptr session) (id : string) : Prop :=
  id <> "" /\ forall s x, h !! s = Some x -> SessionId_ x <> id.

Inductive step (k : client_kind) : sys -> sys -> Prop :=
  | step_task w ts rs t rest b new w' :
      ts ≡ₚ t :: rest -> enabled t rest -> run_task k b t w = Ok (new, w') ->
      step k (mkSys w ts rs) (mkSys w' (new ++ rest) rs)
  | step_call w ts rs c :
      step k (mkSys w ts rs) (mkSys w (TGet c :: ts) (c :: rs))
  | step_response w ts rs s upd now timeout random r w' :
      Held s ∈ ts -> User_response s upd now timeout random r w = Ok (tt, w') ->
      step k (mkSys w ts rs) (mkSys w' ts rs)
  | step_drop w ts rs s rest :
      ts ≡ₚ Held s :: rest ->
      step k (mkSys w ts rs) (mkSys w (TDeleter s :: rest) rs)
  | step_created w ts rs c rest s (ok : bool) id t1 t2 w' :
      ts ≡ₚ Creating c :: rest -> heap w !! s = None ->
      (if ok then fresh_id (heap w) id else id = "") ->
      (alloc_session s (NewSession ok id t1 t2) ;; emit (EvCreated c s)) w = Ok (tt, w') ->
      step k (mkSys w ts rs) (mkSys w' (Held s :: rest) rs)
  | step_retried w ts rs c s t1 t2 w' :
      k = TableClient -> Creating c ∈ ts -> heap w !! s = None ->
      alloc_session s (RetriedSession "" t1 t2) w = Ok (tt, w') ->
      step k (mkSys w ts rs) (mkSys w' (TDeleter s :: ts) rs)
  | step_shutdown w ts rs s command w' :
      k = QueryClient -> command ∈ [NodeShutdown; SessionShutdown] ->
      Server_mark s command w = Ok (tt, w') ->
      step k (mkSys w ts rs) (mkSys w' (TSrv1 s (Reason command) :: ts) rs)
  | step_detached w ts rs s reason :
      k = QueryClient -> is_Some (heap w !! s) ->
      step k (mkSys w ts rs) (mkSys w (TSrv1 s reason :: ts) rs)
  | step_clear w ts rs now w' :
      ClearOldWaiters now w = Ok (tt, w') ->
      step k (mkSys w ts rs) (mkSys w' ts rs)
  | step_periodic w ts rs now nowUtil pred touch del old w' :
      Periodic_locked now nowUtil pred (bool_decide (k = TableClient)) w
        = Ok ((touch, del, old), w') ->
      step k (mkSys w ts rs)
        (mkSys w' ((TTouch <$> touch) ++ (TIdle <$> del) ++ (TErr <$> old) ++ ts) rs)
  | step_drain w ts rs ss cs w' :
      k = TableClient -> Drain_locked true w = Ok ((ss, cs), w') ->
      step k (mkSys w ts rs) (mkSys w' ((TDrain <$> ss) ++ (TErr <$> cs) ++ ts) rs).

Definition init (max min : Z) : sys := mkSys (mkWorld ∅ (TSessionPool max min) []) [] [].

Inductive reachable (k : client_kind) (max min : Z) : sys -> Prop :=
  | reach_init : reachable k max min (init max min)
  | reach_step s s' : reachable k max min s -> step k s s' -> reachable k max min s'.

(** ** What each activity knows of its session *)

(** Common to all sessions of the pool's clients. *)
Definition gpred (x : session) : Prop :=
  session_ok x /\ IsOwnedBySessionPool_ x = true /\ (SessionId_ x = "" -> State_ x = S_BROKEN).

(** An active session is counted. *)
Definition counted (x : session) : Prop :=
  State_ x = S_ACTIVE -> NeedUpdateActiveCounter_ x = true.

(** No shutdown message can count it any more. *)
Definition doomed (k : client_kind) (x : session) : Prop :=
  k = QueryClient -> State_ x = S_ACTIVE -> CloseRequested_ x = true.

Definition at_rest (x : session) : Prop :=
  State_ x = S_IDLE /\ NeedUpdateActiveCounter_ x = false.

Definition t_pred (k : client_kind) (t : task) (x : session) : Prop :=
  match t with
  | Pooled key _ => at_rest x /\ CloseHandler_ x = true /\ TimeToTouch_ x = key
  | TGot _ _ | TClose _ _ | TIdle _ => at_rest x
  | TTouch _ | TDrain _ => at_rest x /\ k = TableClient
  | TReply1 _ _ | TReply2 _ _ => State_ x = S_IDLE
  | Held _ | TReturn2 _ =>
      counted x /\ (k = QueryClient -> NeedUpdateActiveCounter_ x = true)
  | TReturn1 _ =>
      counted x /\ (k = QueryClient -> NeedUpdateActiveCounter_ x = true) /\
      (k = TableClient -> State_ x = S_ACTIVE \/ State_ x = S_IDLE)
  | TDeleter _ =>
      counted x /\ (k = QueryClient -> NeedUpdateActiveCounter_ x = true \/ State_ x = S_BROKEN)
  | TReturn3 _ need =>
      counted x /\ need = NeedUpdateActiveCounter_ x /\ (k = QueryClient -> need = true)
  | TReturn4 _ need =>
      doomed k x /\ (CanReturnToPool x = true -> NeedUpdateActiveCounter_ x = false) /\
      (k = QueryClient -> need = true)
  | TRefused _ _ | TDelete1 _ | TDelete3 _ => doomed k x
  | TDelete2 _ r => doomed k x /\ r.1 = NeedUpdateActiveCounter_ x
  | TBreak _ => State_ x = S_BROKEN /\ NeedUpdateActiveCounter_ x = false
  | TGet _ | TReply3 _ _ | Creating _ | TErr _ | TSrv1 _ _ | TSrv2 _ _ => True
  end.

(** Its share of the counter of active sessions. *)
Definition t_weight (t : task) (x : option session) : Z :=
  let flag := match x with Some x => Z.b2z (NeedUpdateActiveCounter_ x) | None => 0 end in
  match t with
  | Creating _ | TReply1 _ _ | TReply2 _ _ | TReply3 _ _ | TGot _ (SrcPool, _) => 1
  | TReturn4 _ need | TRefused _ need => Z.b2z need
  | Held _ | TDeleter _ | TReturn1 _ | TReturn2 _ | TReturn3 _ _
  | TDelete1 _ | TDelete2 _ _ | TDelete3 _ => flag
  | _ => 0
  end.

Definition t_look (h : gmap ptr session) (t : task) : option session :=
  s ← t_ptr t; h !! s.

Definition tok (k : client_kind) (h : gmap ptr session) (t : task) : Prop :=
  match t_ptr t with
  | Some s => exists x, h !! s = Some x /\ t_pred k t x
  | None => True
  end.

Fixpoint weight (h : gmap ptr session) (l : list task) : Z :=
  match l with
  | [] => 0
  | t :: l => t_weight t (t_look h t) + weight h l
  end.

Definition pooled (w : world) : list task := (fun e => Pooled e.1 e.2) <$> Sessions_ (pl w).

(** One owner for each session, and a session for each owner. *)
Record owned (k : client_kind) (h : gmap ptr session) (l : list task) : Prop := {
  own_nodup : NoDup (omap t_ptr l);
  own_dom s : is_Some (h !! s) <-> s ∈ omap t_ptr l;
  own_ok : Forall (tok k h) l
}.

(** Requests answered by a call out of the pool. *)
Definition answered (l : list event) : list ctx :=
  flat_map (fun e => match e with
    | EvReplySession c _ | EvReplyError c | EvCreated c _ => [c]
    | _ => []
    end) l.

Definition pending (ts : list task) : list ctx := flat_map t_ctx ts.

(** The invariant, of the heap, the counter, the queue, the calls made and all
    the activities, the entries of the pool among them. *)
Record invariant (k : client_kind) (h : gmap ptr session) (active : Z)
  (waiters : list (Z * ctx)) (lg : list event) (l : list task) (rs : list ctx) : Prop := {
  inv_own : owned k h l;
  inv_sess s x : h !! s = Some x -> gpred x;
  inv_ids s1 s2 x1 x2 : h !! s1 = Some x1 -> h !! s2 = Some x2 ->
    SessionId_ x1 = SessionId_ x2 -> SessionId_ x1 <> "" -> s1 = s2;
  inv_active : active = weight h l;
  inv_srv t s : t ∈ l -> t_srv t = Some s -> is_Some (h !! s);
  inv_shutdown key s x : Pooled key s ∈ l -> h !! s = Some x ->
    CloseRequested_ x = true -> exists t, t ∈ l /\ t_srv t = Some s;
  inv_reqs : rs ≡ₚ pending l ++ (snd <$> waiters) ++ answered lg
}.

Definition Inv (k : client_kind) (w : world) (ts : list task) (rs : list ctx) : Prop :=
  invariant k (heap w) (ActiveSessions_ (pl w)) (Waiters_ (pl w)) (log w) (ts ++ pooled w) rs.

(** ** Ownership *)

Lemma omap_perm {A B} (f : A -> option B) l1 l2 : l1 ≡ₚ l2 -> omap f l1 ≡ₚ omap f l2.
Proof. intros ->. done. Qed.

#[export] Instance weight_perm h : Proper ((≡ₚ) ==> (=)) (weight h).
Proof. intros l1 l2 Hp. induction Hp; cbn; lia. Qed.

#[export] Instance owned_perm k h : Proper ((≡ₚ) ==> iff) (owned k h).
Proof.
  assert (forall l1 l2, l1 ≡ₚ l2 -> owned k h l1 -> owned k h l2) as Hp.
  { intros l1 l2 Hp [H1 H2 H3]. split.
    - by rewrite <- Hp.
    - intros s. by rewrite <- Hp.
    - by rewrite <- Hp. }
  intros l1 l2 E. split; apply Hp; [done | by symmetry].
Qed.

Lemma weight_app h l1 l2 : weight h (l1 ++ l2) = weight h l1 + weight h l2.
Proof. induction l1; cbn; lia. Qed.

(** Other activities do not see a change of a session they do not own. *)
Lemma look_frame h h' (l : list task) :
  (forall s, s ∈ omap t_ptr l -> h' !! s = h !! s) ->
  forall t, t ∈ l -> t_look h' t = t_look h t.
Proof.
  intros Hh t Ht. unfold t_look. destruct (t_ptr t) as [s|] eqn:E; [|done]. cbn.
  apply Hh. apply list_elem_of_omap. eauto.
Qed.

Lemma weight_frame h h' l :
  (forall s, s ∈ omap t_ptr l -> h' !! s = h !! s) -> weight h' l = weight h l.
Proof.
  intros Hh. pose proof (look_frame h h' l Hh) as Hl. clear Hh.
  induction l as [|t l IH]; cbn; [done|].
  rewrite (Hl t) by left. rewrite IH; [done|]. intros t' Ht'. apply Hl. by right.
Qed.

Lemma tok_frame k h h' l :
  (forall s, s ∈ omap t_ptr l -> h' !! s = h !! s) ->
  Forall (tok k h) l -> Forall (tok k h') l.
Proof.
  intros Hh. rewrite !Forall_forall. intros Ht t Hin. specialize (Ht t Hin).
  unfold tok in *. destruct (t_ptr t) as [s|] eqn:E; [|done].
  rewrite Hh; [done|]. apply list_elem_of_omap. eauto.
Qed.

Section Owned.
Context (k : client_kind) (h : gmap ptr session).

Lemma owned_look t l s :
  owned k h (t :: l) -> t_ptr t = Some s -> exists x, h !! s = Some x /\ t_pred k t x.
Proof.
  intros [_ _ Hok] Et. apply Forall_inv in Hok. unfold tok in Hok. by rewrite Et in Hok.
Qed.

Lemma owned_fresh t l s :
  owned k h (t :: l) -> t_ptr t = Some s -> s ∉ omap t_ptr l.
Proof. intros [Hn _ _] Et. cbn in Hn. rewrite Et in Hn. by apply NoDup_cons in Hn as [? _]. Qed.

Lemma frame_insert (l : list task) s x' :
  s ∉ omap t_ptr l -> forall s', s' ∈ omap t_ptr l -> <[s := x']> h !! s' = h !! s'.
Proof. intros Hs s' Hs'. apply lookup_insert_ne. by intros ->. Qed.

Lemma frame_delete (l : list task) s :
  s ∉ omap t_ptr l -> forall s', s' ∈ omap t_ptr l -> delete s h !! s' = h !! s'.
Proof. intros Hs s' Hs'. apply lookup_delete_ne. by intros ->. Qed.

Lemma owned_update t t' l s x' :
  owned k h (t :: l) -> t_ptr t = Some s -> t_ptr t' = Some s -> t_pred k t' x' ->
  owned k (<[s := x']> h) (t' :: l).
Proof.
  intros Ho Et Et' Hp. pose proof (owned_fresh t l s Ho Et) as Hs.
  destruct Ho as [Hn Hd Hok]. cbn in Hn, Hd. rewrite Et in Hn, Hd. split.
  - cbn. by rewrite Et'.
  - intros s'. cbn. rewrite Et'. rewrite <- Hd. destruct (decide (s = s')) as [<-|Hne].
    + rewrite lookup_insert_eq. split; [|by eauto]. intros _. apply Hd. left.
    + by rewrite lookup_insert_ne.
  - apply Forall_cons in Hok as [_ Hok]. apply Forall_cons. split.
    + unfold tok. rewrite Et'. exists x'. by rewrite lookup_insert_eq.
    + apply (tok_frame k h); [|done]. by apply frame_insert.
Qed.

Lemma weight_update t t' l s x' :
  owned k h (t :: l) -> t_ptr t = Some s -> t_ptr t' = Some s ->
  weight (<[s := x']> h) (t' :: l) = t_weight t' (Some x') + weight h l.
Proof.
  intros Ho Et Et'. cbn. unfold t_look. rewrite Et'. cbn. rewrite lookup_insert_eq.
  f_equal. apply weight_frame, frame_insert. by apply (owned_fresh t).
Qed.

Lemma weight_head t l s x :
  t_ptr t = Some s -> h !! s = Some x -> weight h (t :: l) = t_weight t (Some x) + weight h l.
Proof. intros Et Hx. cbn. unfold t_look. rewrite Et. cbn. by rewrite Hx. Qed.

Lemma owned_free t l s :
  owned k h (t :: l) -> t_ptr t = Some s ->
  owned k (delete s h) l /\ weight (delete s h) l = weight h l.
Proof.
  intros Ho Et. pose proof (owned_fresh t l s Ho Et) as Hs.
  destruct Ho as [Hn Hd Hok]. cbn in Hn, Hd. rewrite Et in Hn, Hd.
  split; [split|].
  - by apply NoDup_cons in Hn as [_ ?].
  - intros s'. destruct (decide (s = s')) as [<-|Hne].
    + rewrite lookup_delete_eq. split; [by intros [? ?]|done].
    + rewrite lookup_delete_ne by done. rewrite Hd, elem_of_cons.
      split; [intros [->|?]; done|by right].
  - apply Forall_cons in Hok as [_ Hok]. apply (tok_frame k h); [|done]. by apply frame_delete.
  - apply weight_frame. by apply frame_delete.
Qed.

Lemma owned_alloc t l s x :
  owned k h l -> h !! s = None -> t_ptr t = Some s -> t_pred k t x ->
  owned k (<[s := x]> h) (t :: l) /\
  weight (<[s := x]> h) (t :: l) = t_weight t (Some x) + weight h l.
Proof.
  intros [Hn Hd Hok] Hs Et Hp.
  assert (s ∉ omap t_ptr l) as Hfr by (rewrite <- Hd, Hs; by intros [? ?]).
  split; [split|].
  - cbn. rewrite Et. by apply NoDup_cons.
  - intros s'. cbn. rewrite Et, elem_of_cons, <- Hd. destruct (decide (s' = s)) as [->|Hne].
    + rewrite lookup_insert_eq. split; [by left|by eauto].
    + rewrite lookup_insert_ne by done. split; [by right|intros [->|?]; done].
  - apply Forall_cons. split.
    + unfold tok. rewrite Et. exists x. by rewrite lookup_insert_eq.
    + apply (tok_frame k h); [|done]. by apply frame_insert.
  - cbn. unfold t_look. rewrite Et. cbn. rewrite lookup_insert_eq. f_equal.
    apply weight_frame. by apply frame_insert.
Qed.

Lemma owned_none t l :
  t_ptr t = None -> owned k h (t :: l) <-> owned k h l.
Proof.
  intros Et. split; intros [Hn Hd Hok].
  - cbn in Hn, Hd. rewrite Et in Hn, Hd. split; [done|done|by apply Forall_inv_tail in Hok].
  - split; [cbn; by rewrite Et|intros s; cbn; by rewrite Et|].
    apply Forall_cons. split; [|done]. unfold tok. by rewrite Et.
Qed.

Lemma owned_same t t' l s x :
  owned k h (t :: l) -> t_ptr t = Some s -> t_ptr t' = Some s -> h !! s = Some x ->
  t_pred k t' x -> owned k h (t' :: l).
Proof.
  intros Ho Et Et' Hx Hp. rewrite <- (insert_id h s x) by done. by apply (owned_update t).
Qed.

Lemma owned_nones l l' :
  Forall (fun t => t_ptr t = None) l' -> owned k h (l' ++ l) <-> owned k h l.
Proof.
  induction 1 as [|t l' Et _ IH]; [done|]. cbn [app]. by rewrite owned_none.
Qed.

End Owned.

(** ** Steps of the invariant *)

Lemma answered_app l1 l2 : answered (l1 ++ l2) = answered l1 ++ answered l2.
Proof. apply flat_map_app. Qed.

Lemma pending_app l1 l2 : pending (l1 ++ l2) = pending l1 ++ pending l2.
Proof. apply flat_map_app. Qed.

(** Activities that neither own nor refer to a session. *)
Definition loose (t : task) : Prop := t_ptr t = None /\ t_srv t = None.

Lemma weight_loose h h' l : Forall loose l -> weight h l = weight h' l.
Proof.
  induction 1 as [|t l (Et & _) _ IH]; cbn; [done|]. unfold t_look. by rewrite Et, IH.
Qed.

Lemma loose_ptrs l : Forall loose l -> Forall (fun t => t_ptr t = None) l.
Proof. intros Hl. eapply Forall_impl; [exact Hl|]. by intros t (? & _). Qed.

Lemma loose_srv l t s : Forall loose l -> t ∈ l -> t_srv t <> Some s.
Proof. rewrite Forall_forall. intros Hl Ht. destruct (Hl t Ht) as [_ ->]. done. Qed.

Lemma loose_pooled l key s : Forall loose l -> Pooled key s ∉ l.
Proof. rewrite Forall_forall. intros Hl Ht. by destruct (Hl _ Ht) as [? _]. Qed.

Section Invariant.
Context (k : client_kind) (h : gmap ptr session) (active : Z) (ws : list (Z * ctx))
  (lg : list event) (rs : list ctx).

Abbreviation inv l := (invariant k h active ws lg l rs).

Lemma inv_perm l l' : l ≡ₚ l' -> inv l -> inv l'.
Proof.
  intros Hp [H1 H2 H3 H4 H5 H6 H7]. split; try done.
  - by rewrite <- Hp.
  - by rewrite <- Hp.
  - intros t s. rewrite <- Hp. apply H5.
  - intros key s x. rewrite <- Hp. intros Hk Hx Hc.
    destruct (H6 key s x Hk Hx Hc) as (t & Ht & E). exists t. by rewrite <- Hp.
  - rewrite H7. unfold pending. by rewrite Hp.
Qed.

#[export] Instance inv_proper : Proper ((≡ₚ) ==> iff) (fun l => inv l).
Proof. intros l l' Hp. split; apply inv_perm; [done|by symmetry]. Qed.

Lemma inv_look t l s :
  inv (t :: l) -> t_ptr t = Some s -> exists x, h !! s = Some x /\ t_pred k t x /\ gpred x.
Proof.
  intros HI Et. destruct (owned_look _ _ _ _ s (inv_own _ _ _ _ _ _ _ HI) Et) as (x & Hx & Hp).
  exists x. split_and!; try done. by apply (inv_sess _ _ _ _ _ _ _ HI s).
Qed.

(** A change of a session that keeps its id keeps the ids distinct. *)
Lemma ids_insert s x x' :
  (forall s1 s2 x1 x2, h !! s1 = Some x1 -> h !! s2 = Some x2 ->
    SessionId_ x1 = SessionId_ x2 -> SessionId_ x1 <> "" -> s1 = s2) ->
  h !! s = Some x -> SessionId_ x' = SessionId_ x ->
  forall s1 s2 x1 x2, <[s := x']> h !! s1 = Some x1 -> <[s := x']> h !! s2 = Some x2 ->
    SessionId_ x1 = SessionId_ x2 -> SessionId_ x1 <> "" -> s1 = s2.
Proof.
  intros Hid Hx Eid s1 s2 x1 x2. rewrite !lookup_insert_Some.
  intros [[<- <-]|[Hn1 H1]] [[<- <-]|[Hn2 H2]] E Hne; [done|..].
  - rewrite Eid in *. by apply (Hid _ _ x x2).
  - rewrite Eid in E. by apply (Hid _ _ x1 x).
  - by apply (Hid _ _ x1 x2).
Qed.

Lemma insert_is_Some s x' s0 : is_Some (h !! s0) -> is_Some (<[s := x']> h !! s0).
Proof.
  intros [y Hy]. destruct (decide (s = s0)) as [<-|Hne];
    [rewrite lookup_insert_eq|rewrite lookup_insert_ne by done]; by eauto.
Qed.

Lemma gpred_insert s x' :
  (forall s x, h !! s = Some x -> gpred x) -> gpred x' ->
  forall s0 x0, <[s := x']> h !! s0 = Some x0 -> gpred x0.
Proof.
  intros Hg Hx' s0 x0. rewrite lookup_insert_Some. intros [[<- <-]|[_ Hy]]; [done|by eapply Hg].
Qed.

(** The owner of a session changes it and goes on; activities that own none end
    and start. *)
Lemma inv_update_drop t t' dropped extra l s x x' active' ws' evs :
  inv (t :: dropped ++ l) -> t_ptr t = Some s -> t_ptr t' = Some s -> h !! s = Some x ->
  t_srv t = None -> t_srv t' = None -> Forall loose dropped -> Forall loose extra ->
  gpred x' -> SessionId_ x' = SessionId_ x -> t_pred k t' x' ->
  active' = active + (t_weight t' (Some x') + weight ∅ extra
                      - t_weight t (Some x) - weight ∅ dropped) ->
  t_ctx t ++ pending dropped ++ (snd <$> ws) ≡ₚ
    t_ctx t' ++ pending extra ++ (snd <$> ws') ++ answered evs ->
  (forall key, t' = Pooled key s -> CloseRequested_ x' = false) ->
  invariant k (<[s := x']> h) active' ws' (lg ++ evs) (t' :: extra ++ l) rs.
Proof.
  intros [Ho Hg Hid Ha Hsrv Hsh Hr] Et Et' Hx Es Es' Hdr Hex Hg' Eid Hp' -> Ec Hpool.
  rewrite Permutation_middle, (owned_nones k h _ dropped) in Ho by by apply loose_ptrs.
  pose proof (owned_fresh _ _ _ _ _ Ho Et) as Hfr.
  rewrite Permutation_middle, weight_app in Ha. split.
  - rewrite Permutation_middle. apply owned_nones; [by apply loose_ptrs|].
    by apply (owned_update _ _ t).
  - by apply gpred_insert.
  - by apply (ids_insert s x).
  - rewrite Permutation_middle, weight_app, (weight_update k h t t' _ s x') by done.
    rewrite Ha, (weight_head _ t _ s x), (weight_loose (<[s := x']> h) ∅ extra Hex) by done.
    rewrite (weight_loose h ∅ dropped Hdr). lia.
  - intros t0 s0. rewrite elem_of_cons, elem_of_app. intros Hin E0. apply insert_is_Some.
    destruct Hin as [->|[Hin|Hin]]; [congruence|by apply (loose_srv extra) in E0|].
    apply (Hsrv t0); [|done]. rewrite elem_of_cons, elem_of_app. auto.
  - intros key s0 y Hk. rewrite elem_of_cons, elem_of_app in Hk.
    rewrite lookup_insert_Some. intros [[<- <-]|[Hne Hy]] Hc.
    + destruct Hk as [<-|[Hk|Hk]]; [by rewrite (Hpool key) in Hc|by apply loose_pooled in Hk|].
      exfalso. apply Hfr. apply list_elem_of_omap. by exists (Pooled key s).
    + destruct Hk as [<-|[Hk|Hk]]; [cbn in Et'; congruence|by apply loose_pooled in Hk|].
      destruct (Hsh key s0 y) as (t0 & Hin & E0); [|done|done|].
      { rewrite elem_of_cons, elem_of_app. auto. }
      rewrite elem_of_cons, elem_of_app in Hin.
      destruct Hin as [->|[Hin|Hin]]; [congruence|by apply (loose_srv dropped) in E0|].
      exists t0. split; [|done]. rewrite elem_of_cons, elem_of_app. auto.
  - rewrite Hr, answered_app.
    change (pending (t :: dropped ++ l)) with (t_ctx t ++ pending (dropped ++ l)).
    change (pending (t' :: extra ++ l)) with (t_ctx t' ++ pending (extra ++ l)).
    rewrite !pending_app.
    trans (pending l ++ (t_ctx t ++ pending dropped ++ (snd <$> ws)) ++ answered lg);
      [solve_Permutation|]. rewrite Ec. solve_Permutation.
Qed.

Lemma inv_update t t' extra l s x x' active' ws' evs :
  inv (t :: l) -> t_ptr t = Some s -> t_ptr t' = Some s -> h !! s = Some x ->
  t_srv t = None -> t_srv t' = None -> Forall loose extra ->
  gpred x' -> SessionId_ x' = SessionId_ x -> t_pred k t' x' ->
  active' = active + (t_weight t' (Some x') + weight ∅ extra - t_weight t (Some x)) ->
  t_ctx t ++ (snd <$> ws) ≡ₚ t_ctx t' ++ pending extra ++ (snd <$> ws') ++ answered evs ->
  (forall key, t' = Pooled key s -> CloseRequested_ x' = false) ->
  invariant k (<[s := x']> h) active' ws' (lg ++ evs) (t' :: extra ++ l) rs.
Proof.
  intros. eapply (inv_update_drop t t' [] extra l s x x'); try done. cbn [weight]. lia.
Qed.

(** The owner of a session destroys it. *)
Lemma inv_free t l s x active' evs :
  inv (t :: l) -> t_ptr t = Some s -> h !! s = Some x -> t_srv t = None ->
  Forall (fun t0 => t_srv t0 <> Some s) l ->
  active' = active - t_weight t (Some x) -> t_ctx t ≡ₚ answered evs ->
  invariant k (delete s h) active' ws (lg ++ evs) l rs.
Proof.
  intros [Ho Hg Hid Ha Hsrv Hsh Hr] Et Hx Es Hfree -> Ec.
  destruct (owned_free _ _ _ _ s Ho Et) as [Ho' Ew]. rewrite Forall_forall in Hfree. split.
  - done.
  - intros s0 x0 [_ Hx0]%lookup_delete_Some. by eapply Hg.
  - intros s1 s2 x1 x2 [_ H1]%lookup_delete_Some [_ H2]%lookup_delete_Some. by apply Hid.
  - rewrite Ha, Ew, (weight_head _ t _ s x) by done. lia.
  - intros t0 s0 Hin E0. destruct (Hsrv t0 s0) as [y Hy]; [by right|done|].
    exists y. apply lookup_delete_Some. split; [|done]. intros <-. by apply (Hfree t0).
  - intros key s0 y Hk [Hne Hy]%lookup_delete_Some Hc.
    destruct (Hsh key s0 y) as (t0 & [->|Hin]%elem_of_cons & E0);
      [by right|done|done|congruence|by eauto].
  - rewrite Hr, answered_app. change (pending (t :: l)) with (t_ctx t ++ pending l).
    rewrite Ec. solve_Permutation.
Qed.

(** An activity without a session goes on. *)
Lemma inv_loose t extra l active' ws' evs :
  inv (t :: l) -> loose t -> Forall loose extra ->
  active' = active + (weight ∅ extra - t_weight t None) ->
  t_ctx t ++ (snd <$> ws) ≡ₚ pending extra ++ (snd <$> ws') ++ answered evs ->
  invariant k h active' ws' (lg ++ evs) (extra ++ l) rs.
Proof.
  intros [Ho Hg Hid Ha Hsrv Hsh Hr] [Et Es] Hex -> Ec. split.
  - apply owned_nones; [by apply loose_ptrs|]. by apply (owned_none k h t).
  - done.
  - done.
  - rewrite weight_app, (weight_loose h ∅ extra Hex), Ha. cbn. unfold t_look. rewrite Et. cbn. lia.
  - intros t0 s0. rewrite elem_of_app. intros [Hin|Hin] E0; [by apply (loose_srv extra) in E0|].
    apply (Hsrv t0); [by right|done].
  - intros key s0 y [Hk|Hk]%elem_of_app Hy Hc; [by apply loose_pooled in Hk|].
    destruct (Hsh key s0 y) as (t0 & [->|Hin]%elem_of_cons & E0); [by right|done|done|congruence|].
    exists t0. split; [|done]. rewrite elem_of_app. auto.
  - rewrite Hr, answered_app, pending_app. change (pending (t :: l)) with (t_ctx t ++ pending l).
    trans (pending l ++ (t_ctx t ++ (snd <$> ws)) ++ answered lg); [solve_Permutation|].
    rewrite Ec. solve_Permutation.
Qed.

(** Requests leave the queue. *)
Lemma inv_queue extra l ws' evs :
  inv l -> Forall loose extra -> weight ∅ extra = 0 ->
  snd <$> ws ≡ₚ pending extra ++ (snd <$> ws') ++ answered evs ->
  invariant k h active ws' (lg ++ evs) (extra ++ l) rs.
Proof.
  intros [Ho Hg Hid Ha Hsrv Hsh Hr] Hex Ew Ec. split; try done.
  - by apply owned_nones; [apply loose_ptrs|].
  - rewrite weight_app, (weight_loose h ∅ extra Hex). lia.
  - intros t0 s0 [Hin|Hin]%elem_of_app E0; [by apply (loose_srv extra) in E0|by apply (Hsrv t0)].
  - intros key s0 y [Hk|Hk]%elem_of_app Hy Hc; [by apply loose_pooled in Hk|].
    destruct (Hsh key s0 y Hk Hy Hc) as (t0 & Hin & E0).
    exists t0. split; [|done]. rewrite elem_of_app. auto.
  - rewrite Hr, answered_app, pending_app, Ec. solve_Permutation.
Qed.

(** A server callback is over: its session is not in the pool. *)
Lemma inv_unsrv t l s :
  inv (t :: l) -> t_ptr t = None -> t_srv t = Some s -> t_ctx t = [] ->
  t_weight t None = 0 -> (forall key, Pooled key s ∉ l) -> inv l.
Proof.
  intros [Ho Hg Hid Ha Hsrv Hsh Hr] Et Es Ec Ew Hnp. rewrite owned_none in Ho by done.
  split; try done.
  - rewrite Ha. cbn. unfold t_look. rewrite Et. cbn. lia.
  - intros t0 s0 Hin. apply Hsrv. by right.
  - intros key s0 y Hk Hy Hc. destruct (Hsh key s0 y) as (t0 & Hin & E0); [by right|done|done|].
    apply elem_of_cons in Hin as [->|Hin]; [|by eauto].
    assert (s0 = s) as -> by congruence. by destruct (Hnp key).
  - rewrite Hr. cbn [pending flat_map]. by rewrite Ec.
Qed.

(** A new session with its owner. *)
Lemma inv_alloc t l s x evs active' :
  inv l -> h !! s = None -> t_ptr t = Some s -> t_srv t = None -> t_ctx t = [] ->
  (forall key, t <> Pooled key s) -> t_pred k t x -> gpred x ->
  (SessionId_ x = "" \/ fresh_id h (SessionId_ x)) -> answered evs = [] ->
  active' = active + t_weight t (Some x) ->
  invariant k (<[s := x]> h) active' ws (lg ++ evs) (t :: l) rs.
Proof.
  intros [Ho Hg Hid Ha Hsrv Hsh Hr] Hs Et Es Ec Hnp Hp Hgx Hfr Ee ->.
  destruct (owned_alloc _ _ t _ s x Ho Hs Et Hp) as [Ho' Ew]. split.
  - done.
  - by apply gpred_insert.
  - intros s1 s2 x1 x2. rewrite !lookup_insert_Some.
    intros [[<- <-]|[Hn1 H1]] [[<- <-]|[Hn2 H2]] E Hne; [done|..];
      try (destruct Hfr as [?|[_ Hfr]]; [congruence|exfalso; eapply Hfr; eauto]).
    by apply (Hid _ _ x1 x2).
  - rewrite Ew. lia.
  - intros t0 s0 [->|Hin]%elem_of_cons E0; [congruence|]. apply insert_is_Some. by apply (Hsrv t0).
  - intros key s0 y [<-|Hk]%elem_of_cons; [by cbn in Et; simplify_eq; destruct (Hnp key)|].
    rewrite lookup_insert_Some. intros [[<- <-]|[Hne Hy]] Hc.
    + exfalso. assert (is_Some (h !! s)) as [? ?]; [|congruence].
      apply (own_dom _ _ _ Ho), list_elem_of_omap. by exists (Pooled key s).
    + destruct (Hsh key s0 y Hk Hy Hc) as (t0 & Hin & E0). exists t0. split; [by right|done].
  - rewrite Hr, answered_app, Ee, app_nil_r. cbn [pending flat_map]. by rewrite Ec.
Qed.

(** A server callback on a session of unknown owner. *)
Lemma inv_callback l s x x' reason evs :
  inv l -> h !! s = Some x -> SessionId_ x' = SessionId_ x -> gpred x' ->
  (forall t, t_ptr t = Some s -> t_pred k t x ->
     t_pred k t x' /\ t_weight t (Some x') = t_weight t (Some x)) ->
  answered evs = [] ->
  invariant k (<[s := x']> h) active ws (lg ++ evs) (TSrv1 s reason :: l) rs.
Proof.
  intros [Ho Hg Hid Ha Hsrv Hsh Hr] Hx Eid Hg' Hst Ee.
  assert (exists t r, l ≡ₚ t :: r /\ t_ptr t = Some s) as (t & r & Hl & Et).
  { assert (is_Some (h !! s)) as (t & Ht & Et)%(own_dom _ _ _ Ho)%list_elem_of_omap by eauto.
    apply list_elem_of_split in Ht as (l1 & l2 & ->). exists t, (l1 ++ l2).
    split; [by rewrite Permutation_middle|done]. }
  rewrite Hl in Ho. destruct (owned_look _ _ _ _ s Ho Et) as (y & Hy & Hp).
  assert (y = x) as -> by congruence. destruct (Hst t Et Hp) as [Hp' Ew]. split.
  - apply owned_none; [done|]. rewrite Hl. by apply (owned_update _ _ t).
  - by apply gpred_insert.
  - by apply (ids_insert s x).
  - change (weight ?h' (TSrv1 s reason :: l)) with (weight h' l). rewrite Ha, !Hl.
    rewrite (weight_update k h t t _ s x') by done. by rewrite (weight_head _ t _ s x), Ew.
  - intros t0 s0 [->|Hin]%elem_of_cons E0; apply insert_is_Some;
      [cbn in E0; simplify_eq; eauto | by apply (Hsrv t0)].
  - intros key s0 y [?|Hk]%elem_of_cons; [done|]. rewrite lookup_insert_Some.
    intros [[<- <-]|[Hne Hy']] Hc.
    + exists (TSrv1 s reason). split; [left|done].
    + destruct (Hsh key s0 y Hk Hy' Hc) as (t0 & Hin & E0). exists t0. split; [by right|done].
  - by rewrite Hr, answered_app, Ee, app_nil_r.
Qed.

End Invariant.

(** ** Activities that concern one session *)

Definition not_pooled (t : task) : bool := match t with Pooled _ _ => false | _ => true end.

Lemma Inv_update k w t t' extra rest rs s x x' p' evs :
  Inv k w (t :: rest) rs -> t_ptr t = Some s -> t_ptr t' = Some s -> heap w !! s = Some x ->
  t_srv t = None -> t_srv t' = None -> not_pooled t' = true -> Forall loose extra ->
  gpred x' -> SessionId_ x' = SessionId_ x -> t_pred k t' x' ->
  Sessions_ p' = Sessions_ (pl w) ->
  ActiveSessions_ p' =
    ActiveSessions_ (pl w) + (t_weight t' (Some x') + weight ∅ extra - t_weight t (Some x)) ->
  t_ctx t ++ (snd <$> Waiters_ (pl w)) ≡ₚ
    t_ctx t' ++ pending extra ++ (snd <$> Waiters_ p') ++ answered evs ->
  Inv k (mkWorld (<[s := x']> (heap w)) p' (log w ++ evs)) (t' :: extra ++ rest) rs.
Proof.
  intros HI Et Et' Hx Es Es' Hnp Hex Hg Eid Hp Hs Ha Hc. unfold Inv, pooled. cbn [heap pl log].
  rewrite Hs. cbn [app]. rewrite <- app_assoc. eapply (inv_update k _ _ _ _ _ t); try done.
  by intros key ->.
Qed.

Lemma Inv_local k w t t' rest rs s x x' evs :
  Inv k w (t :: rest) rs -> t_ptr t = Some s -> t_ptr t' = Some s -> heap w !! s = Some x ->
  t_srv t = None -> t_srv t' = None -> not_pooled t' = true ->
  gpred x' -> SessionId_ x' = SessionId_ x -> t_pred k t' x' ->
  t_weight t' (Some x') = t_weight t (Some x) -> t_ctx t ≡ₚ t_ctx t' ++ answered evs ->
  Inv k (mkWorld (<[s := x']> (heap w)) (pl w) (log w ++ evs)) (t' :: rest) rs.
Proof.
  intros. eapply (Inv_update k w t t' []); try done; [cbn; lia|].
  cbn. etransitivity; [apply Permutation_app; [eassumption|done]|]. solve_Permutation.
Qed.

Lemma Inv_local0 k w t t' rest rs s x x' :
  Inv k w (t :: rest) rs -> t_ptr t = Some s -> t_ptr t' = Some s -> heap w !! s = Some x ->
  t_srv t = None -> t_srv t' = None -> not_pooled t' = true ->
  gpred x' -> SessionId_ x' = SessionId_ x -> t_pred k t' x' ->
  t_weight t' (Some x') = t_weight t (Some x) -> t_ctx t = t_ctx t' ->
  Inv k (with_heap (<[s := x']> (heap w)) w) (t' :: rest) rs.
Proof.
  intros ??????????? Ec. unfold with_heap. rewrite <- (app_nil_r (log w)).
  eapply Inv_local; try done. cbn. by rewrite app_nil_r, Ec.
Qed.

Lemma Inv_same k w t t' rest rs s x :
  Inv k w (t :: rest) rs -> t_ptr t = Some s -> t_ptr t' = Some s -> heap w !! s = Some x ->
  t_srv t = None -> t_srv t' = None -> not_pooled t' = true ->
  t_pred k t' x -> t_weight t' (Some x) = t_weight t (Some x) -> t_ctx t = t_ctx t' ->
  Inv k w (t' :: rest) rs.
Proof.
  intros HI Et Et' Hx Es Es' Hnp Hp Ew Ec. pose proof (inv_sess _ _ _ _ _ _ _ HI s x Hx) as Hg.
  pose proof (Inv_local0 k w t t' rest rs s x x HI Et Et' Hx Es Es' Hnp Hg eq_refl Hp Ew Ec) as HI'.
  rewrite insert_id in HI' by done. by destruct w.
Qed.

Lemma Inv_look k w t rest rs s :
  Inv k w (t :: rest) rs -> t_ptr t = Some s ->
  exists x, heap w !! s = Some x /\ t_pred k t x /\ gpred x.
Proof. apply inv_look. Qed.

(** The session-level side conditions, by cases on the session. *)
Ltac by_session x :=
  destruct x as [? ? [] [] ? ? ? [] ?]; cbn in *;
  unfold gpred, session_ok, counted, doomed, at_rest, CanReturnToPool in *; cbn in *;
  intuition (try congruence; try discriminate; eauto).

Section Steps.
Context (k : client_kind) (b : bool) (w : world) (rest : list task) (rs : list ctx).

Abbreviation goes t := (Inv k w (t :: rest) rs ->
  wp (run_task k b t) (fun new w' => Inv k w' (new ++ rest) rs) w).

Lemma goes_Reply1 s c : goes (TReply1 s c).
Proof.
  intros HI. destruct (Inv_look _ _ _ _ _ s HI eq_refl) as (x & Hx & Hp & Hg). cbn in Hp.
  cbn [run_task]. unfold Reply_check. world_steps.
  apply wp_abort_unless; [by apply bool_decide_eq_true|]. world_steps.
  by eapply (Inv_same k w (TReply1 s c) (TReply2 s c)).
Qed.

Lemma goes_Reply2 s c : goes (TReply2 s c).
Proof.
  intros HI. destruct (Inv_look _ _ _ _ _ s HI eq_refl) as (x & Hx & Hp & Hg). cbn in Hp.
  cbn [run_task]. unfold Reply_activate. world_steps.
  apply wp_abort_unless; [unfold MarkActive; by rewrite Hp|]. world_steps.
  eapply (Inv_local0 k w (TReply2 s c) (TReply3 s c)); try done.
  all: unfold MarkActive; rewrite Hp; by_session x.
Qed.

Lemma goes_Reply3 s c : goes (TReply3 s c).
Proof.
  intros HI. destruct (Inv_look _ _ _ _ _ s HI eq_refl) as (x & Hx & Hp & Hg).
  cbn [run_task]. unfold Reply_hand. world_steps.
  eapply (Inv_local k w (TReply3 s c) (Held s)); try done.
  all: by_session x.
Qed.

Lemma goes_Deleter s : goes (TDeleter s).
Proof.
  intros HI. destruct (Inv_look _ _ _ _ _ s HI eq_refl) as (x & Hx & Hp & Hg).
  cbn [run_task]. unfold Deleter_choose. world_steps.
  eapply wp_get_session; [apply lookup_insert_eq|]. cbn [State_ set_deadline].
  destruct (State_ x) eqn:E; world_steps;
    (eapply (Inv_local0 k w (TDeleter s)); try done);
    by_session x.
Qed.

Lemma goes_Return1 s : goes (TReturn1 s).
Proof.
  intros HI. destruct (Inv_look _ _ _ _ _ s HI eq_refl) as (x & Hx & Hp & Hg).
  cbn [run_task]. unfold Return_check. world_steps. destruct Hp as (Hc & Hq & Ht).
  set (live := (_ || _)%bool). destruct k eqn:Ek; world_steps.
  - destruct live eqn:El; eapply (Inv_same _ w (TReturn1 s)); try done.
    unfold live in El. by_session x.
  - apply wp_abort_unless; [destruct (Ht eq_refl) as [E|E]; unfold live; by rewrite E|].
    world_steps. destruct b; eapply (Inv_same _ w (TReturn1 s)); try done; by_session x.
Qed.

Lemma goes_Return2 s : goes (TReturn2 s).
Proof.
  intros HI. destruct (Inv_look _ _ _ _ _ s HI eq_refl) as (x & Hx & [Hc Hq] & Hg).
  cbn [run_task]. unfold Return_need. world_steps.
  by eapply (Inv_same _ w (TReturn2 s)).
Qed.

Lemma with_heap_id s x : heap w !! s = Some x -> with_heap (<[s := x]> (heap w)) w = w.
Proof. intros Hx. unfold with_heap. rewrite insert_id by done. by destruct w. Qed.

Lemma goes_Return3 s need : goes (TReturn3 s need).
Proof.
  intros HI. destruct (Inv_look _ _ _ _ _ s HI eq_refl) as (x & Hx & (Hc & -> & Hq) & Hg).
  cbn [run_task]. unfold Return_idle. world_steps.
  assert (MarkIdle x = (false, x) /\ (CloseRequested_ x = true \/ State_ x = S_BROKEN) \/
    MarkIdle x = (true, SetNeedUpdateActiveCounter false (set_state S_IDLE x)) /\
    CloseRequested_ x = false /\ State_ x <> S_BROKEN)
    as [[-> Hm]|[-> Hm]] by (unfold MarkIdle; by_session x); cbn [fst snd].
  - rewrite with_heap_id by done.
    destruct k; eapply (Inv_same _ w (TReturn3 s _)); try done; by_session x.
  - destruct k; (eapply (Inv_local0 _ w (TReturn3 s _) (TReturn4 s _)); try done); by_session x.
Qed.

Lemma goes_Refused s need : goes (TRefused s need).
Proof.
  intros HI. destruct (Inv_look _ _ _ _ _ s HI eq_refl) as (x & Hx & Hp & Hg). cbn in Hp.
  cbn [run_task]. unfold Return_refused. world_steps.
  eapply (Inv_local0 _ w (TRefused s need) (TDelete1 s)); try done; by_session x.
Qed.

Lemma goes_Delete2 s r : goes (TDelete2 s r).
Proof.
  intros HI. destruct (Inv_look _ _ _ _ _ s HI eq_refl) as (x & Hx & [Hc Hr] & Hg).
  cbn [run_task]. unfold Delete_fed, CheckAndFeed_reply. destruct r as [n o]. cbn [fst snd] in *.
  destruct o as [c|]; cbn iota; world_steps.
  - destruct n; cbn [negb]; world_steps; cbn [when]; world_steps.
    + eapply (Inv_update _ w (TDelete2 s _) (TDelete3 s) [Creating c]); try done;
        [by repeat constructor|by_session x..|]; cbn; by rewrite ?app_nil_r; try lia.
    + eapply (Inv_local _ w (TDelete2 s _) (TDelete3 s)); try done; by_session x.
  - cbn [when]. world_steps. destruct n; by eapply (Inv_same _ w (TDelete2 s _) (TDelete3 s)).
Qed.

Lemma goes_Close s reason : goes (TClose s reason).
Proof.
  intros HI. destruct (Inv_look _ _ _ _ _ s HI eq_refl) as (x & Hx & [Hi Hn] & Hg).
  cbn [run_task]. unfold OnClose_mark. world_steps.
  apply wp_abort_unless; [by apply bool_decide_eq_true|]. world_steps.
  destruct (MarkBroken x).1; cbn [when]; world_steps.
  - eapply (Inv_local _ w (TClose s reason) (TBreak s)); try done; by_session x.
  - eapply (Inv_local0 _ w (TClose s reason) (TBreak s)); try done; by_session x.
Qed.

Lemma goes_Break s : goes (TBreak s).
Proof.
  intros HI. destruct (Inv_look _ _ _ _ _ s HI eq_refl) as (x & Hx & [Hi Hn] & Hg).
  cbn [run_task]. world_steps.
  eapply (Inv_local0 _ w (TBreak s) (TDeleter s)); try done; by_session x.
Qed.

Lemma goes_Touch s : goes (TTouch s).
Proof.
  intros HI. destruct (Inv_look _ _ _ _ _ s HI eq_refl) as (x & Hx & [[Hi Hn] Hk] & Hg).
  cbn [run_task]. unfold Periodic_touch. world_steps.
  apply wp_abort_unless; [by apply bool_decide_eq_true|]. world_steps.
  apply wp_abort_unless; [apply negb_true_iff, bool_decide_eq_false; intros E; destruct Hg as (_ & _ & Hg); by rewrite Hg in Hi|]. world_steps.
  eapply (Inv_same _ w (TTouch s) (Held s)); try done; by_session x.
Qed.

Lemma goes_Idle s : goes (TIdle s).
Proof.
  intros HI. destruct (Inv_look _ _ _ _ _ s HI eq_refl) as (x & Hx & [Hi Hn] & Hg).
  cbn [run_task]. unfold Periodic_mark. world_steps.
  apply wp_abort_unless; [by apply bool_decide_eq_true|]. world_steps.
  unfold Execute, run_transition. cbn [Transition PoolIdleTimeout].
  assert (forall evs, answered evs = [] ->
    Inv k (mkWorld (<[s := (MarkBroken (MarkBroken x).2).2]> (heap w)) (pl w) (log w ++ evs))
      (TDeleter s :: rest) rs) as Hfin.
  { intros evs Ee. eapply (Inv_local _ w (TIdle s) (TDeleter s)); try done;
      rewrite ?Ee; by_session x. }
  destruct (MarkBroken x) as [first x'] eqn:E. cbn [snd] in Hfin.
  destruct (first && _ && _)%bool; world_steps;
    (eapply wp_call_session; [apply lookup_insert_eq|]); world_steps;
    unfold with_heap; cbn [heap pl log]; rewrite insert_insert_eq.
  - by apply Hfin.
  - rewrite <- (app_nil_r (log w)). by apply Hfin.
Qed.

(** ** Activities that end *)

Lemma Inv_free t s x p' evs :
  Inv k w (t :: rest) rs -> t_ptr t = Some s -> heap w !! s = Some x -> t_srv t = None ->
  Forall (fun t0 => t_srv t0 <> Some s) rest ->
  Sessions_ p' = Sessions_ (pl w) -> Waiters_ p' = Waiters_ (pl w) ->
  ActiveSessions_ p' = ActiveSessions_ (pl w) - t_weight t (Some x) ->
  t_ctx t ≡ₚ answered evs ->
  Inv k (mkWorld (delete s (heap w)) p' (log w ++ evs)) rest rs.
Proof.
  intros HI Et Hx Es Hfr Hs Hw Ha Ec. unfold Inv, pooled. cbn [heap pl log].
  rewrite Hs, Hw. eapply (inv_free k _ _ _ _ _ t); try done.
  apply Forall_app. split; [done|]. apply Forall_fmap, Forall_true. done.
Qed.

Lemma Inv_loose t extra evs :
  Inv k w (t :: rest) rs -> loose t -> Forall loose extra ->
  weight ∅ extra = t_weight t None -> t_ctx t ≡ₚ pending extra ++ answered evs ->
  Inv k (mkWorld (heap w) (pl w) (log w ++ evs)) (extra ++ rest) rs.
Proof.
  intros HI Ht Hex Ew Ec. unfold Inv. cbn [heap pl log].
  rewrite <- app_assoc. eapply (inv_loose k _ _ _ _ _ t); try done; [lia|].
  rewrite Ec. solve_Permutation.
Qed.

Lemma Inv_log_nil ts : Inv k (mkWorld (heap w) (pl w) (log w ++ [])) ts rs -> Inv k w ts rs.
Proof. rewrite app_nil_r. by destruct w. Qed.

Lemma goes_Got c r : enabled (TGot c r) rest -> goes (TGot c r).
Proof.
  intros Hen HI. destruct r as [src [s|]].
  - destruct (Inv_look _ _ _ _ _ s HI eq_refl) as (x & Hx & [Hi Hn] & Hg).
    destruct src; cbn [run_task GetSession_reply fst]; world_steps.
    + eapply (Inv_same _ w (TGot c (SrcPool, Some s)) (TReply1 s c)); done.
    + eapply (Inv_free (TGot c (SrcWaiter, Some s)) s x); try done. cbn. lia.
    + rewrite <- !app_assoc. cbn [app].
      eapply (Inv_free (TGot c (SrcError, Some s)) s x); try done. cbn. lia.
  - destruct src; cbn [run_task GetSession_reply fst]; world_steps.
    + apply (Inv_loose (TGot c (SrcPool, None)) [Creating c]); try done; by repeat constructor.
    + apply Inv_log_nil. by apply (Inv_loose (TGot c (SrcWaiter, None)) []).
    + rewrite <- !app_assoc. cbn [app]. by apply (Inv_loose (TGot c (SrcError, None)) []).
Qed.

Lemma goes_Err c : goes (TErr c).
Proof.
  intros HI. cbn [run_task]. world_steps. rewrite <- !app_assoc. cbn [app].
  by apply (Inv_loose (TErr c) []).
Qed.

Lemma t_weight_nonneg t x : 0 <= t_weight t x.
Proof.
  assert (forall c : bool, 0 <= Z.b2z c) as Hb by (by intros []).
  destruct t; cbn; try lia; try apply Hb; try (destruct x; [apply Hb | lia]).
  destruct r as [[] ?]; lia.
Qed.

Lemma weight_nonneg h l : 0 <= weight h l.
Proof. induction l as [|t l IH]; cbn; [lia|]. pose proof (t_weight_nonneg t (t_look h t)). lia. Qed.

Lemma goes_Delete3 s : enabled (TDelete3 s) rest -> goes (TDelete3 s).
Proof.
  intros Hen HI. destruct (Inv_look _ _ _ _ _ s HI eq_refl) as (x & Hx & Hp & Hg).
  cbn [run_task]. unfold Delete_finish. world_steps.
  pose proof (inv_active _ _ _ _ _ _ _ HI) as Ha. cbn [app] in Ha.
  rewrite (weight_head _ (TDelete3 s) _ s x) in Ha by done. cbn [t_weight] in Ha.
  pose proof (weight_nonneg (heap w) (rest ++ pooled w)).
  set (p' := if NeedUpdateActiveCounter_ x
             then UpdateStats (set_active (ActiveSessions_ (pl w) - 1) (pl w)) else pl w).
  assert (forall Q, Q tt (mkWorld (heap w) p' (log w)) ->
    wp (when (NeedUpdateActiveCounter_ x) DecrementActiveCounter) Q w) as Hdec.
  { intros Q HQ. unfold p' in HQ. destruct (NeedUpdateActiveCounter_ x); cbn [when] in *.
    - unfold DecrementActiveCounter. world_steps.
      apply wp_abort_unless; [apply negb_true_iff, Z.eqb_neq; cbn in Ha; lia|]. world_steps. done.
    - apply wp_ret. by destruct w. }
  apply Hdec. world_steps.
  assert (forall evs, answered evs = [] ->
    Inv k (mkWorld (delete s (heap w)) p' (log w ++ evs)) rest rs) as Hfin.
  { intros evs Ee. eapply (Inv_free (TDelete3 s) s x); try done; unfold p';
      destruct (NeedUpdateActiveCounter_ x) eqn:En; cbn; rewrite ?En, ?Ee; try done; cbn; lia. }
  destruct (_ && _)%bool; cbn [when]; world_steps; cbn [app]; rewrite <- ?app_assoc; by apply Hfin.
Qed.

Lemma goes_Drain s : enabled (TDrain s) rest -> goes (TDrain s).
Proof.
  intros Hen HI. destruct (Inv_look _ _ _ _ _ s HI eq_refl) as (x & Hx & [[Hi Hn] Hk] & Hg).
  cbn [run_task]. unfold Drain_close. world_steps.
  destruct (negb _); cbn [when]; world_steps; cbn [app]; rewrite <- ?app_assoc;
    (eapply (Inv_free (TDrain s) s x); try done; cbn; lia).
Qed.

(** ** Activities that take the pool's lock *)

Lemma goes_Delete1 s : goes (TDelete1 s).
Proof.
  intros HI. destruct (Inv_look _ _ _ _ _ s HI eq_refl) as (x & Hx & Hp & Hg). cbn in Hp.
  cbn [run_task]. unfold Delete_feed, CheckAndFeed_locked. world_steps.
  destruct Hg as (Hok & Hown & Hid). rewrite Hown. world_steps.
  destruct (Closed_ (pl w)); world_steps.
  { by eapply (Inv_same _ w (TDelete1 s) (TDelete2 s _)). }
  unfold TryGet. destruct (Waiters_ (pl w)) as [|[d c] l] eqn:Ew; world_steps.
  { by eapply (Inv_same _ w (TDelete1 s) (TDelete2 s _)). }
  unfold with_pool. rewrite <- (insert_id (heap w) s x), <- (app_nil_r (log w)) by done.
  eapply (Inv_update _ w (TDelete1 s) (TDelete2 s _) []); try done; cbn; [lia|].
  by rewrite Ew, app_nil_r.
Qed.

(** What [GetSession] takes from the pool. *)
Lemma pop_last_spec l :
  match pop_last l with
  | Some (s, rest) => exists key, l = rest ++ [(key, s)]
  | None => l = []
  end.
Proof.
  unfold pop_last. destruct (reverse l) as [|[key s] r] eqn:E.
  - rewrite <- (reverse_involutive l), E. done.
  - exists key. rewrite <- (reverse_involutive l), E. apply reverse_cons.
Qed.

Lemma mm_insert_snd (d : Z) (c : ctx) l : snd <$> mm_insert d c l ≡ₚ c :: (snd <$> l).
Proof. by rewrite mm_insert_perm. Qed.

(** The state of the pool after the first branch of [GetSession]: the share of
    the new activity, and where the request is. *)
Lemma GetSession_source c p :
  exists src p',
    (if ((MaxActiveSessions_ p =? 0) || (ActiveSessions_ p <? MaxActiveSessions_ p))%bool
     then src = SrcPool /\ p' = IncrementActiveCounterUnsafe p
     else match TryPush c p with
          | Some q => src = SrcWaiter /\ p' = q
          | None => src = SrcError /\ p' = p
          end) /\
    Sessions_ p' = Sessions_ p /\
    ActiveSessions_ p' = ActiveSessions_ p + t_weight (TGot c (src, None)) None /\
    c :: (snd <$> Waiters_ p) ≡ₚ t_ctx (TGot c (src, None)) ++ (snd <$> Waiters_ p').
Proof.
  destruct (_ || _)%bool; [|unfold TryPush; destruct (_ <? _)].
  - exists SrcPool, (IncrementActiveCounterUnsafe p). done.
  - exists SrcWaiter. eexists. split; [by split|]. cbn. rewrite mm_insert_snd.
    split_and!; [done|lia|done].
  - exists SrcError, p. cbn. split_and!; try done. lia.
Qed.

Lemma goes_Get c : goes (TGet c).
Proof.
  intros HI. cbn [run_task]. unfold GetSession_locked. world_steps.
  destruct (GetSession_source c (pl w)) as (src & p1 & Hsrc & Hs1 & Ha1 & Hc1).
  apply wp_mono with (P := fun r w' => r = src /\
    exists evs, w' = mkWorld (heap w) p1 (log w ++ evs) /\ answered evs = []).
  { destruct (_ || _)%bool; [|destruct (TryPush c (pl w))]; destruct Hsrc as [-> ->]; world_steps.
    - split; [done|]. exists []. by rewrite app_nil_r.
    - split; [done|]. exists [EvScheduleCleanup c; EvIncPending]. by rewrite <- app_assoc.
    - split; [done|]. exists []. rewrite app_nil_r. by destruct w. }
  intros r w1 [-> (evs & -> & Ee)]. world_steps. rewrite Hs1.
  pose proof (pop_last_spec (Sessions_ (pl w))) as Hpop.
  destruct (pop_last (Sessions_ (pl w))) as [[s rest']|]; world_steps.
  - destruct Hpop as [key El].
    unfold Inv, pooled in HI. rewrite El, fmap_app in HI.
    apply (inv_perm _ _ _ _ _ _ _ (Pooled key s :: [TGet c] ++ rest ++
      ((fun e => Pooled e.1 e.2) <$> rest'))) in HI; [|cbn; solve_Permutation].
    destruct (inv_look _ _ _ _ _ _ _ _ s HI eq_refl) as (x & Hx & (Hr & _) & Hg).
    world_steps. unfold Inv, pooled. cbn [heap pl log with_pool UpdateStats set_sessions
      Sessions_ Waiters_ ActiveSessions_ app].
    eapply (inv_update_drop k _ _ _ _ _ (Pooled key s) _ [TGet c] []); try done.
    + by repeat constructor.
    + rewrite Ha1. by destruct src; cbn; lia.
    + cbn. rewrite Hc1, Ee, app_nil_r. by destruct src.
  - unfold Inv, pooled. cbn [heap pl log with_pool UpdateStats Sessions_ Waiters_ ActiveSessions_].
    rewrite Hs1. eapply (inv_loose k _ _ _ _ _ (TGet c) [_]); try done.
    + by repeat constructor; destruct src.
    + rewrite Ha1. cbn. destruct src; cbn; lia.
    + cbn. rewrite Ee, !app_nil_r. by destruct src.
Qed.

(** A waiter takes a returned session. *)
Lemma Return4_fed s need x d c l :
  Inv k w (TReturn4 s need :: rest) rs -> heap w !! s = Some x -> gpred x ->
  CanReturnToPool x = true -> Waiters_ (pl w) = (d, c) :: l ->
  let p := if need then set_waiters l (pl w)
           else IncrementActiveCounterUnsafe (set_waiters l (pl w)) in
  Inv k (mkWorld (<[s := UpdateServerCloseHandler false x]> (heap w)) (UpdateStats p) (log w))
    (TReply1 s c :: rest) rs.
Proof.
  intros HI Hx Hg Hc Ew p. rewrite <- (app_nil_r (log w)).
  eapply (Inv_update _ w (TReturn4 s need) (TReply1 s c) []); try done.
  - by_session x.
  - by destruct need.
  - destruct need; cbn; lia.
  - destruct need; cbn; by rewrite Ew, app_nil_r.
Qed.

(** A returned session goes to the pool. *)
Lemma Return4_pooled s need x :
  Inv k w (TReturn4 s need :: rest) rs -> heap w !! s = Some x -> gpred x ->
  CanReturnToPool x = true -> NeedUpdateActiveCounter_ x = false ->
  let x' := UpdateServerCloseHandler true x in
  let p := set_sessions (mm_insert (TimeToTouch_ x) s (Sessions_ (pl w))) (pl w) in
  let p := if need then set_active (ActiveSessions_ p - 1) p else p in
  Inv k (mkWorld (<[s := x']> (heap w)) (UpdateStats p) (log w)) rest rs.
Proof.
  intros HI Hx Hg Hc Hn x' p p0. unfold Inv, pooled.
  assert (Sessions_ (UpdateStats p0) = mm_insert (TimeToTouch_ x) s (Sessions_ (pl w))) as Es
    by (by destruct need).
  cbn [heap pl log]. rewrite Es.
  apply (inv_perm _ _ _ _ _ _ (Pooled (TimeToTouch_ x) s :: [] ++ rest ++ pooled w)).
  { cbn [app]. rewrite mm_insert_perm. cbn. unfold pooled. solve_Permutation. }
  rewrite <- (app_nil_r (log w)).
  eapply (inv_update k _ _ _ _ _ (TReturn4 s need)); try done.
  - by_session x.
  - destruct need; cbn; lia.
  - destruct need; cbn; by rewrite app_nil_r.
  - intros key _. by_session x.
Qed.

Lemma goes_Return4 s need : goes (TReturn4 s need).
Proof.
  intros HI. destruct (Inv_look _ _ _ _ _ s HI eq_refl) as (x & Hx & (Hd & Hc & Hq) & Hg).
  cbn [run_task]. unfold ReturnSession_locked. world_steps.
  destruct (Closed_ (pl w)); world_steps.
  { by eapply (Inv_same _ w (TReturn4 s need) (TRefused s need)). }
  eapply wp_get_session; [apply lookup_insert_eq|].
  change (CanReturnToPool (UpdateServerCloseHandler true x)) with (CanReturnToPool x).
  destruct (CanReturnToPool x) eqn:Ec; cbn [negb]; world_steps.
  2: { eapply wp_upd_session; [apply lookup_insert_eq|]. world_steps.
    unfold with_heap; cbn [heap pl log]. rewrite insert_insert_eq.
    eapply (Inv_local0 _ w (TReturn4 s need) (TRefused s need)); try done; by_session x. }
  unfold TryGet. destruct (Waiters_ (pl w)) as [|[d c] l] eqn:Ew; world_steps.
  - eapply wp_get_session; [apply lookup_insert_eq|]. world_steps.
    pose proof (Return4_pooled s need x HI Hx Hg Ec (Hc eq_refl)) as HI'.
    pose proof (inv_active _ _ _ _ _ _ _ HI) as Ha. cbn [app] in Ha.
    rewrite (weight_head _ (TReturn4 s need) _ s x) in Ha by done. cbn [t_weight] in Ha.
    pose proof (weight_nonneg (heap w) (rest ++ pooled w)).
    destruct need; cbn [when]; world_steps; [|done].
    apply wp_abort_unless; [apply negb_true_iff, Z.eqb_neq; cbn in *; lia|]. world_steps.
    eapply wp_upd_session; [apply lookup_insert_eq|]. world_steps.
    unfold with_heap; cbn [heap pl log]. rewrite insert_insert_eq.
    assert (SetNeedUpdateActiveCounter false (UpdateServerCloseHandler true x) =
      UpdateServerCloseHandler true x) as ->; [|done].
    specialize (Hc eq_refl). destruct x; cbn in *. by rewrite Hc.
  - eapply wp_upd_session; [apply lookup_insert_eq|]. world_steps.
    pose proof (Return4_fed s need x d c l HI Hx Hg Ec Ew) as HI'.
    unfold with_heap; cbn [heap pl log]. rewrite insert_insert_eq.
    by destruct need; cbn [when negb]; world_steps.
Qed.

(** ** Server callbacks *)

Lemma goes_Srv1 s reason : goes (TSrv1 s reason).
Proof.
  intros HI. destruct (inv_srv _ _ _ _ _ _ _ HI (TSrv1 s reason) s) as [x Hx]; [left|done|].
  cbn [run_task]. world_steps.
  destruct HI as [Ho Hg Hid Ha Hsrv Hsh Hr]. cbn [app] in *.
  rewrite owned_none in Ho by done. destruct (CloseHandler_ x) eqn:Eh; split; try done.
  - by apply owned_none.
  - intros t0 s0 [->|Hin]%elem_of_cons E0; [cbn in E0; simplify_eq; eauto|].
    apply (Hsrv t0); [by right|done].
  - intros key s0 y [?|Hk]%elem_of_cons Hy Hc; [done|].
    destruct (Hsh key s0 y) as (t0 & [->|Hin]%elem_of_cons & E0); [by right|done|done|..].
    + cbn in E0. assert (s0 = s) as -> by congruence. exists (TSrv2 s reason). split; [left|done].
    + exists t0. split; [by right|done].
  - intros t0 s0 Hin E0. apply (Hsrv t0); [by right|done].
  - intros key s0 y Hk Hy Hc.
    destruct (Hsh key s0 y) as (t0 & [->|Hin]%elem_of_cons & E0); [by right|done|done|..|by eauto].
    cbn in E0. assert (s0 = s) as -> by congruence. assert (y = x) as -> by congruence.
    pose proof (own_ok _ _ _ Ho) as Hok. rewrite Forall_forall in Hok.
    destruct (Hok _ Hk) as (y & Hy' & _ & Hh & _). congruence.
Qed.

Lemma find_session_spec h key id l :
  match find_session h key id l with
  | (Some s, rest') =>
      l ≡ₚ (key, s) :: rest' /\ SessionId_ <$> h !! s = Some id
  | (None, rest') => rest' = l /\ forall s, (key, s) ∈ l -> SessionId_ <$> h !! s <> Some id
  end.
Proof.
  induction l as [|[key' s] l IH]; cbn [find_session].
  { split; [done|]. intros s Hs. by apply elem_of_nil in Hs. }
  destruct (_ && _)%bool eqn:E.
  - apply andb_true_iff in E as [->%Z.eqb_eq E%bool_decide_eq_true]. done.
  - destruct (find_session h key id l) as [[s'|] rest'].
    + destruct IH as [-> Hid]. split; [constructor|done].
    + destruct IH as [-> Hn]. split; [done|].
      intros s0 [Heq|Hin]%elem_of_cons; [|by apply Hn]. simplify_eq.
      intros Hs. rewrite Z.eqb_refl, bool_decide_eq_true_2 in E by done. done.
Qed.

Lemma pooled_perm l1 l2 : l1 ≡ₚ l2 ->
  (fun e : Z * ptr => Pooled e.1 e.2) <$> l1 ≡ₚ ((fun e => Pooled e.1 e.2) <$> l2).
Proof. by intros ->. Qed.

(** The session found under the key and id of the callback's is that session. *)
Lemma Srv2_found s s' x x' reason rest' :
  Inv k w (TSrv2 s reason :: rest) rs -> heap w !! s = Some x -> heap w !! s' = Some x' ->
  SessionId_ x' = SessionId_ x -> Sessions_ (pl w) ≡ₚ (TimeToTouch_ x, s') :: rest' ->
  Inv k (with_pool (set_sessions rest' (pl w)) w) (TClose s' reason :: rest) rs.
Proof.
  intros HI Hx Hx' Eid Hl.
  unfold Inv, pooled in HI |- *. cbn [heap pl log with_pool set_sessions Sessions_ Waiters_
    ActiveSessions_ app].
  apply (inv_perm _ _ _ _ _ _ _ (Pooled (TimeToTouch_ x) s' :: TSrv2 s reason ::
    rest ++ ((fun e => Pooled e.1 e.2) <$> rest'))) in HI.
  2: { rewrite (pooled_perm _ _ Hl). cbn. solve_Permutation. }
  destruct (inv_look _ _ _ _ _ _ _ _ s' HI eq_refl) as (y & Hy & (Hr & _) & Hg).
  assert (y = x') as -> by congruence.
  assert (s' = s) as ->.
  { eapply (inv_ids _ _ _ _ _ _ _ HI); [done|done|done|]. destruct Hg as (_ & _ & Hg).
    intros He. destruct Hr as [Hi _]. rewrite (Hg He) in Hi. done. }
  assert (x' = x) as -> by congruence.
  rewrite <- (insert_id (heap w) s x), <- (app_nil_r (log w)) by done.
  apply (inv_unsrv _ _ _ _ _ _ (TSrv2 s reason) _ s); try done.
  - eapply (inv_perm _ _ _ _ _ _ (TClose s reason :: [] ++ TSrv2 s reason :: _));
      [cbn; apply perm_swap|].
    eapply (inv_update k _ _ _ _ _ (Pooled (TimeToTouch_ x) s)); try done.
    + cbn. lia.
    + cbn. by rewrite app_nil_r.
  - intros key Hk. apply elem_of_cons in Hk as [?|Hk]; [done|].
    pose proof (owned_fresh _ _ _ _ _ (inv_own _ _ _ _ _ _ _ HI) eq_refl) as Hfr.
    apply Hfr, list_elem_of_omap. exists (Pooled key s). split; [by right|done].
Qed.

(** A session not found is not in the pool. *)
Lemma Srv2_missing s x reason :
  Inv k w (TSrv2 s reason :: rest) rs -> Forall (fun t => not_pooled t = true) rest ->
  heap w !! s = Some x ->
  (forall s', (TimeToTouch_ x, s') ∈ Sessions_ (pl w) ->
     SessionId_ <$> heap w !! s' <> Some (SessionId_ x)) ->
  Inv k w rest rs.
Proof.
  intros HI Hnp Hx Hn. apply (inv_unsrv _ _ _ _ _ _ (TSrv2 s reason) _ s); try done.
  intros key Hk.
  pose proof (own_ok _ _ _ (inv_own _ _ _ _ _ _ _ HI)) as Hok. rewrite Forall_forall in Hok.
  destruct (Hok (Pooled key s)) as (y & Hy & _ & _ & Ht); [by right|].
  cbn in Hy. assert (y = x) as -> by congruence. subst key.
  apply elem_of_app in Hk as [Hk|Hk].
  - rewrite Forall_forall in Hnp. by apply Hnp in Hk.
  - apply list_elem_of_fmap in Hk as ([key' s'] & E & Hk). cbn in E. simplify_eq.
    eapply Hn; [done|]. by rewrite Hx.
Qed.

Lemma goes_Srv2 s reason :
  Forall (fun t => not_pooled t = true) rest -> goes (TSrv2 s reason).
Proof.
  intros Hnp HI.
  destruct (inv_srv _ _ _ _ _ _ _ HI (TSrv2 s reason) s) as [x Hx]; [left|done|].
  cbn [run_task]. unfold OnClose_locked. world_steps.
  pose proof (find_session_spec (heap w) (TimeToTouch_ x) (SessionId_ x) (Sessions_ (pl w))) as Hf.
  destruct (find_session _ _ _ _) as [[s'|] rest']; world_steps.
  - destruct Hf as [Hl Hid']. destruct (heap w !! s') as [x'|] eqn:Hx'; [|done].
    cbn in Hid'. apply (Srv2_found s s' x x'); try done. congruence.
  - destruct Hf as [-> Hn].
    assert (with_pool (set_sessions (Sessions_ (pl w)) (pl w)) w = w) as ->
      by (by destruct w as [? [] ?]).
    by apply (Srv2_missing s x reason).
Qed.

(** Every activity, run up to its next release of a lock. *)
Lemma goes_task t :
  Forall (fun t => not_pooled t = true) rest -> enabled t rest -> goes t.
Proof.
  intros Hnp Hen. destruct t; try (intros HI; exact HI);
    eauto using goes_Get, goes_Got, goes_Reply1, goes_Reply2, goes_Reply3, goes_Deleter,
      goes_Return1, goes_Return2, goes_Return3, goes_Return4, goes_Refused, goes_Delete1,
      goes_Delete2, goes_Delete3, goes_Close, goes_Break, goes_Touch, goes_Idle, goes_Drain,
      goes_Err, goes_Srv1, goes_Srv2.
Qed.

End Steps.

(** ** The environment's steps *)

Section Environment.
Context (k : client_kind) (w : world) (ts : list task) (rs : list ctx).

Lemma InterceptResponse_ok upd now timeout random r x :
  gpred x -> t_pred k (Held 1) x ->
  let x' := (InterceptResponse true upd now timeout random r x).2 in
  gpred x' /\ SessionId_ x' = SessionId_ x /\ t_pred k (Held 1) x' /\
  NeedUpdateActiveCounter_ x' = NeedUpdateActiveCounter_ x.
Proof.
  intros Hg Hp. unfold InterceptResponse, Execute, run_transition.
  assert (let x' := (MarkBroken x).2 in gpred x' /\ SessionId_ x' = SessionId_ x /\
    t_pred k (Held 1) x' /\ NeedUpdateActiveCounter_ x' = NeedUpdateActiveCounter_ x) as Hb
    by (by_session x).
  assert (let x' := (MarkAsClosing x).2 in gpred x' /\ SessionId_ x' = SessionId_ x /\
    t_pred k (Held 1) x' /\ NeedUpdateActiveCounter_ x' = NeedUpdateActiveCounter_ x) as Hc
    by (by_session x).
  destruct r as [st|]; [destruct (FromStatus st) as [c|]; [destruct (Transition c)|]|].
  - by destruct (MarkBroken x).
  - by destruct (MarkAsClosing x).
  - destruct (_ && _)%bool; done.
  - cbn [Transition TransportError]. by destruct (MarkBroken x).
Qed.

Lemma env_response s upd now timeout random r :
  Inv k w ts rs -> Held s ∈ ts ->
  wp (User_response s upd now timeout random r) (fun _ w' => Inv k w' ts rs) w.
Proof.
  intros HI (l1 & l2 & ->)%list_elem_of_split.
  assert (forall w', Inv k w' (Held s :: l1 ++ l2) rs <-> Inv k w' (l1 ++ Held s :: l2) rs) as Hp.
  { intros w'. split; apply inv_perm; [|symmetry]; by rewrite Permutation_middle. }
  apply Hp in HI. destruct (Inv_look _ _ _ _ _ s HI eq_refl) as (x & Hx & Hpr & Hg).
  unfold User_response. world_steps.
  pose proof (InterceptResponse_ok upd now timeout random r x Hg Hpr) as Hx'.
  destruct (InterceptResponse true upd now timeout random r x) as [[reason|] x']; cbn [snd] in Hx';
    destruct Hx' as (Hg' & Eid & Hp' & En); world_steps; apply Hp.
  - eapply (Inv_local _ w (Held s) (Held s)); try done. cbn. by rewrite En.
  - eapply (Inv_local0 _ w (Held s) (Held s)); try done. cbn. by rewrite En.
Qed.

Lemma env_drop s rest : Inv k w (Held s :: rest) rs -> Inv k w (TDeleter s :: rest) rs.
Proof.
  intros HI. destruct (Inv_look _ _ _ _ _ s HI eq_refl) as (x & Hx & Hpr & Hg).
  eapply (Inv_same _ w (Held s) (TDeleter s)); try done. destruct Hpr as [? Hq].
  split; [done|]. intros Hk. left. by apply Hq.
Qed.

Lemma env_created c rest s (ok : bool) id t1 t2 :
  Inv k w (Creating c :: rest) rs -> heap w !! s = None ->
  (if ok then fresh_id (heap w) id else id = "") ->
  wp (alloc_session s (NewSession ok id t1 t2) ;; emit (EvCreated c s))
    (fun _ w' => Inv k w' (Held s :: rest) rs) w.
Proof.
  intros HI Hs Hid. apply wp_bind, wp_modify. world_steps. unfold Inv. cbn [heap pl log with_heap].
  rewrite <- (app_nil_l ((Held s :: rest) ++ _)).
  eapply (inv_loose k _ (ActiveSessions_ (pl w) + 1) (Waiters_ (pl w)) _ _ (Creating c) []);
    try done; [|cbn; lia|cbn; solve_Permutation].
  apply (inv_perm _ _ _ _ _ _ (Held s :: (Creating c :: rest) ++ pooled w)); [apply perm_swap|].
  rewrite <- (app_nil_r (log w)).
  eapply (inv_alloc k); try done.
  - destruct ok; cbn; split_and!; try done; by destruct Hid.
  - destruct ok; [right|left]; done.
Qed.

Lemma env_retried s t1 t2 :
  Inv k w ts rs -> k = TableClient -> heap w !! s = None ->
  wp (alloc_session s (RetriedSession "" t1 t2))
    (fun _ w' => Inv k w' (TDeleter s :: ts) rs) w.
Proof.
  intros HI Hk Hs. apply wp_modify. unfold Inv. cbn [heap pl log with_heap app].
  rewrite <- (app_nil_r (log w)).
  eapply (inv_alloc k); try done.
  - split; [done|by right].
  - by left.
  - symmetry. apply Z.add_0_r.
Qed.

(** A shutdown message changes neither what an owner knows of its session nor
    its share of the counter. *)
Lemma MarkAsClosing_stable t x :
  gpred x -> t_pred QueryClient t x ->
  t_pred QueryClient t (MarkAsClosing x).2 /\
  t_weight t (Some (MarkAsClosing x).2) = t_weight t (Some x).
Proof.
  intros Hg Hp. destruct t; try done; try (destruct r); by_session x.
Qed.

Lemma env_shutdown s x command :
  Inv k w ts rs -> k = QueryClient -> heap w !! s = Some x ->
  command ∈ [NodeShutdown; SessionShutdown] ->
  wp (Server_mark s command)
    (fun _ w' => Inv k w' (TSrv1 s (Reason command) :: ts) rs) w.
Proof.
  intros HI Hk Hx Hc. pose proof (inv_sess _ _ _ _ _ _ _ HI s x Hx) as Hg.
  unfold Server_mark. world_steps. unfold Execute.
  assert (run_transition (Transition command) x = MarkAsClosing x) as ->.
  { rewrite !elem_of_cons, elem_of_nil in Hc. by destruct Hc as [->|[->|[]]]. }
  assert (forall evs, answered evs = [] -> Inv k
    (mkWorld (<[s := (MarkAsClosing x).2]> (heap w)) (pl w) (log w ++ evs))
    (TSrv1 s (Reason command) :: ts) rs) as Hfin.
  { intros evs Ee. eapply (inv_callback k); try done; [by_session x|by_session x|].
    rewrite Hk. intros t _. by apply MarkAsClosing_stable. }
  destruct (MarkAsClosing x) as [first x']. cbn [snd] in Hfin. world_steps.
  destruct (_ && _ && _)%bool; world_steps; [by apply Hfin|].
  unfold with_heap. rewrite <- (app_nil_r (log w)). by apply Hfin.
Qed.

Lemma env_detached s reason :
  Inv k w ts rs -> is_Some (heap w !! s) -> Inv k w (TSrv1 s reason :: ts) rs.
Proof.
  intros HI [x Hx]. pose proof (inv_sess _ _ _ _ _ _ _ HI s x Hx) as Hg. unfold Inv.
  rewrite <- (insert_id (heap w) s x), <- (app_nil_r (log w)) by done.
  eapply (inv_callback k); try done.
Qed.

Lemma split_old_spec now l :
  let r := split_old now l in
  snd <$> l ≡ₚ r.1 ++ (snd <$> r.2).
Proof.
  induction l as [|[d c] l IH]; cbn; [done|]. destruct (now <? d); [done|].
  destruct (split_old now l) as [old rest]. cbn in *. by constructor.
Qed.

Lemma reply_all_spec (evs : ctx -> list event) (body : ctx -> M world unit) cs h p lg :
  (forall c lg', body c (mkWorld h p lg') = Ok (tt, mkWorld h p (lg' ++ evs c))) ->
  for_each body cs (mkWorld h p lg) = Ok (tt, mkWorld h p (lg ++ flat_map evs cs)).
Proof.
  intros Hb. revert lg. induction cs as [|c cs IH]; intros lg; cbn.
  - by rewrite app_nil_r.
  - unfold mbind, M_bind. by rewrite Hb, IH, app_assoc.
Qed.

Lemma env_clear now :
  Inv k w ts rs -> wp (ClearOldWaiters now) (fun _ w' => Inv k w' ts rs) w.
Proof.
  intros HI. unfold ClearOldWaiters, GetOld. world_steps.
  pose proof (split_old_spec now (Waiters_ (pl w))) as Ho. cbv zeta in Ho.
  destruct (split_old now (Waiters_ (pl w))) as [old rest']. cbn [fst snd] in Ho. world_steps.
  set (evs := flat_map (fun c => [EvIncFake; EvIncTimeouts; EvReplyError c]) old).
  assert (answered evs = old) as Ee.
  { unfold evs. clear. induction old as [|c old IH]; cbn; [done|]. by rewrite <- IH at 2. }
  apply wp_mono with (P := fun _ w' =>
    w' = mkWorld (heap w) (set_waiters rest' (pl w)) (log w ++ evs)).
  - unfold wp, with_pool. cbn [heap pl log].
    rewrite (reply_all_spec (fun c => [EvIncFake; EvIncTimeouts; EvReplyError c])); [done|].
    intros c lg'. unfold mbind, M_bind, emit, modify. cbn [heap pl log].
    by rewrite <- !app_assoc.
  - intros _ w' ->.
    assert (forall q, Sessions_ q = Sessions_ (pl w) -> Waiters_ q = rest' ->
      ActiveSessions_ q = ActiveSessions_ (pl w) ->
      Inv k (mkWorld (heap w) q (log w ++ evs)) ts rs) as Hfin.
    { intros q Hs Hw Ha. unfold Inv, pooled. cbn [heap pl log]. rewrite Hs, Hw, Ha.
      apply (inv_queue k _ _ _ _ _ []  _ _ _ HI); [constructor|done|]. cbn. rewrite Ee, Ho.
      solve_Permutation. }
    destruct (negb _); cbn [when]; world_steps; by apply Hfin.
Qed.

(** Entries taken out of the pool for activities [F]. *)
Lemma release_spec (F : ptr -> task) (es : list (Z * ptr)) l h p lg :
  (forall s, s ∈ snd <$> es -> t_ptr (F s) = Some s /\ t_srv (F s) = None /\ t_ctx (F s) = [] /\
     not_pooled (F s) = true /\ forall x, at_rest x -> t_pred k (F s) x /\ t_weight (F s) (Some x) = 0) ->
  invariant k h (ActiveSessions_ p) (Waiters_ p) lg (((fun e => Pooled e.1 e.2) <$> es) ++ l) rs ->
  wp (for_each (fun s => upd_session s (UpdateServerCloseHandler false)) (snd <$> es))
    (fun _ w' => pl w' = p /\ log w' = lg /\
       invariant k (heap w') (ActiveSessions_ p) (Waiters_ p) lg ((F <$> (snd <$> es)) ++ l) rs)
    (mkWorld h p lg).
Proof.
  revert h l. induction es as [|[key s] es IH]; intros h l HF HI; [done|].
  destruct (HF s) as (Hp & Hs & Hc & Hn & Hr); [left|]. cbn [fmap list_fmap snd fst app] in HI |- *.
  destruct (inv_look _ _ _ _ _ _ _ _ s HI eq_refl) as (x & Hx & (Hrest & _) & Hg).
  destruct (Hr (UpdateServerCloseHandler false x) Hrest) as [Hpr Hw].
  cbn [for_each]. apply wp_bind. eapply wp_upd_session; [exact Hx|]. cbn [with_heap heap pl log].
  eapply wp_mono; [apply (IH (<[s := UpdateServerCloseHandler false x]> h) (F s :: l))|].
  - intros s' Hs'. apply HF. by right.
  - eapply inv_perm; [apply Permutation_middle|].
    rewrite <- (app_nil_r lg).
    eapply (inv_update k _ _ _ _ _ (Pooled key s) (F s) [] _ s x); try done.
    + rewrite Hw. cbn. lia.
    + rewrite Hc. cbn. by rewrite app_nil_r.
    + intros key' Hk. by rewrite Hk in Hn.
  - intros _ w' (-> & -> & HI'). split_and!; [done|done|]. eapply inv_perm; [|exact HI'].
    symmetry. apply Permutation_middle.
Qed.

Lemma for_each_app {S A} (f : A -> M S unit) l1 l2 Q s :
  wp (for_each f l1) (fun _ => wp (for_each f l2) Q) s -> wp (for_each f (l1 ++ l2)) Q s.
Proof.
  revert s. induction l1 as [|x l1 IH]; intros s; cbn; [done|].
  intros Hw. apply wp_bind. unfold wp, mbind, M_bind in Hw |- *.
  destruct (f x s) as [[[] s']|]; [|done]. by apply IH.
Qed.

Lemma periodic_scan_spec fuel now pred cmd h l kept :
  (forall e, e ∈ l -> is_Some (h !! e.2)) ->
  exists et ed r, periodic_scan fuel now pred cmd h l kept = Some (snd <$> et, snd <$> ed, r)
    /\ l ≡ₚ et ++ ed ++ r /\ (cmd = false -> et = []).
Proof.
  revert l kept. induction fuel as [|fuel IH]; intros l kept Hl; [by exists [], [], l|].
  destruct l as [|[key s] l]; [by exists [], [], []|]. cbn [periodic_scan].
  destruct (Hl (key, s)) as [x Hx]; [left|]. cbn in Hx. rewrite Hx. cbn [mbind option_bind].
  destruct (now <? TimeToTouch_ x); [by exists [], [], ((key, s) :: l)|].
  assert (forall e, e ∈ l -> is_Some (h !! e.2)) as Hl' by (intros e He; apply Hl; by right).
  destruct (pred x _); [|destruct cmd].
  - destruct (IH l kept Hl') as (et & ed & r & -> & Hp & Hc). cbn.
    exists et, ((key, s) :: ed), r. split_and!; [done| |done]. rewrite Hp. solve_Permutation.
  - destruct (IH l kept Hl') as (et & ed & r & -> & Hp & Hc). cbn.
    exists ((key, s) :: et), ed, r. split_and!; [done| |done]. by rewrite Hp.
  - destruct (IH l (S kept) Hl') as (et & ed & r & -> & Hp & Hc). cbn.
    exists et, ed, ((key, s) :: r). split_and!; [done| |done]. rewrite Hp. solve_Permutation.
Qed.

Lemma pooled_live e : Inv k w ts rs -> e ∈ Sessions_ (pl w) -> is_Some (heap w !! e.2).
Proof.
  intros HI He. apply (own_dom _ _ _ (inv_own _ _ _ _ _ _ _ HI)), list_elem_of_omap.
  exists (Pooled e.1 e.2). split; [|done]. apply elem_of_app. right.
  apply list_elem_of_fmap. by exists e.
Qed.

Lemma fmap_TErr_loose cs : Forall loose (TErr <$> cs) /\ weight ∅ (TErr <$> cs) = 0
  /\ pending (TErr <$> cs) = cs.
Proof.
  induction cs as [|c cs (H1 & H2 & H3)]; cbn; [done|].
  split_and!; [by constructor|done|by rewrite <- H3 at 2].
Qed.

Lemma TTouch_moves (et : list (Z * ptr)) :
  (bool_decide (k = TableClient) = false -> et = []) ->
  forall s, s ∈ snd <$> et -> t_ptr (TTouch s) = Some s /\ t_srv (TTouch s) = None /\
    t_ctx (TTouch s) = [] /\ not_pooled (TTouch s) = true /\
    forall x, at_rest x -> t_pred k (TTouch s) x /\ t_weight (TTouch s) (Some x) = 0.
Proof.
  intros Hc s Hs. split_and!; try done. intros x Hx. split; [|done]. split; [done|].
  destruct (decide (k = TableClient)) as [?|Hk]; [done|].
  rewrite Hc in Hs by (by apply bool_decide_eq_false). by apply elem_of_nil in Hs.
Qed.

Lemma env_periodic now nowUtil pred :
  Inv k w ts rs ->
  wp (Periodic_locked now nowUtil pred (bool_decide (k = TableClient)))
    (fun r w' => let '(touch, del, old) := r in
       Inv k w' ((TTouch <$> touch) ++ (TIdle <$> del) ++ (TErr <$> old) ++ ts) rs) w.
Proof.
  intros HI. unfold Periodic_locked. world_steps.
  destruct (periodic_scan_spec PERIODIC_ACTION_BATCH_SIZE nowUtil pred
    (bool_decide (k = TableClient)) (heap w) (Sessions_ (pl w)) 0) as (et & ed & r & -> & Hp & Hc).
  { intros e He. by apply pooled_live. }
  world_steps. apply for_each_app.
  set (P := fun e : Z * ptr => Pooled e.1 e.2). unfold Inv, pooled in HI. fold P in HI.
  assert (invariant k (heap w) (ActiveSessions_ (pl w)) (Waiters_ (pl w)) (log w)
    ((P <$> et) ++ (P <$> ed) ++ (P <$> r) ++ ts) rs) as HI1.
  { eapply inv_perm; [|exact HI].
    assert (P <$> Sessions_ (pl w) ≡ₚ (P <$> (et ++ ed ++ r))) as -> by (by apply pooled_perm).
    rewrite !fmap_app. solve_Permutation. }
  assert (w = mkWorld (heap w) (pl w) (log w)) as Ew by (by destruct w).
  rewrite Ew at 1. eapply wp_mono; [apply (release_spec TTouch _ _ _ _ _ (TTouch_moves et Hc) HI1)|].
  intros _ w1 (Hp1 & Hl1 & HI2). destruct w1 as [h1 p1 lg1]. cbn in Hp1, Hl1, HI2. subst p1 lg1.
  eapply wp_mono.
  { apply (release_spec TIdle ed ((TTouch <$> (snd <$> et)) ++ (P <$> r) ++ ts)).
    - by intros s _.
    - eapply inv_perm; [|exact HI2]. fold P. solve_Permutation. }
  intros _ w2 (Hp2 & Hl2 & HI3). destruct w2 as [h2 p2 lg2]. cbn in Hp2, Hl2, HI3. subst p2 lg2.
  world_steps. unfold GetOld. cbn [Waiters_ set_sessions].
  pose proof (split_old_spec now (Waiters_ (pl w))) as Ho. cbv zeta in Ho.
  destruct (split_old now (Waiters_ (pl w))) as [old rest']. cbn [fst snd] in Ho. world_steps.
  destruct (fmap_TErr_loose old) as (Hlo & Hwo & Hpo).
  unfold Inv, pooled. cbn [heap pl log with_pool UpdateStats set_waiters set_sessions Sessions_
    Waiters_ ActiveSessions_]. fold P.
  apply (inv_perm _ _ _ _ _ _ ((TErr <$> old) ++ (TIdle <$> (snd <$> ed)) ++
    (TTouch <$> (snd <$> et)) ++ (P <$> r) ++ ts)); [solve_Permutation|].
  rewrite <- (app_nil_r (log w)).
  apply (inv_queue k _ _ _ _ _ _ _ _ _ HI3); [done|done|].
  rewrite Hpo, Ho. cbn. by rewrite app_nil_r.
Qed.

Lemma env_drain :
  Inv k w ts rs -> k = TableClient ->
  wp (Drain_locked true)
    (fun r w' => Inv k w' ((TDrain <$> r.1) ++ (TErr <$> r.2) ++ ts) rs) w.
Proof.
  intros HI Hk. unfold Drain_locked. world_steps.
  set (P := fun e : Z * ptr => Pooled e.1 e.2). unfold Inv, pooled in HI. fold P in HI.
  apply (inv_perm _ _ _ _ _ _ _ ((P <$> Sessions_ (pl w)) ++ ts)) in HI;
    [|apply Permutation_app_comm].
  assert (forall (f : ptr -> M world unit) (l : list (Z * ptr)) Q w0,
    wp (for_each f (snd <$> l)) Q w0 -> wp (for_each (fun e => f e.2) l) Q w0) as Hmap.
  { intros f l Q. induction l as [|e l IH]; intros w0 Hw; [done|]. cbn in *.
    apply wp_bind. unfold wp, mbind, M_bind in Hw |- *.
    destruct (f e.2 w0) as [[[] w1]|]; [|done]. by apply IH. }
  apply (Hmap (fun s => upd_session s (UpdateServerCloseHandler false))).
  eapply wp_mono.
  { unfold with_pool. apply (release_spec TDrain (Sessions_ (pl w)) ts); [|exact HI].
    intros s _. split_and!; try done. }
  intros _ w1 (Hp1 & Hl1 & HI1). destruct w1 as [h1 p1 lg1]. cbn in Hp1, Hl1, HI1. subst p1 lg1.
  world_steps. destruct (fmap_TErr_loose (snd <$> Waiters_ (pl w))) as (Hlo & Hwo & Hpo).
  unfold Inv, pooled. cbn [heap pl log with_pool UpdateStats set_waiters set_sessions set_closed
    Sessions_ Waiters_ ActiveSessions_ fst snd fmap list_fmap]. rewrite app_nil_r.
  apply (inv_perm _ _ _ _ _ _ ((TErr <$> (snd <$> Waiters_ (pl w))) ++
    (TDrain <$> (snd <$> Sessions_ (pl w))) ++ ts)); [solve_Permutation|].
  rewrite <- (app_nil_r (log w)).
  apply (inv_queue k _ _ _ _ _ _ _ _ _ HI1); [done|done|].
  rewrite Hpo. cbn. by rewrite app_nil_r.
Qed.

End Environment.
