(* ===== verification/SessionTheorems.v ===== *)
(** * What holds of the session pool in every reachable state

    The invariant of SessionSystem.v over whole executions, and the properties
    it gives: no abort and no use after free, an exact counter, single
    ownership, every request answered once, no shutdown missed; for the query
    client, the limit on sessions. *)

From S2P Require Import Prelude Status Session SessionPool SessionSystem.

Definition SysInv (k : client_kind) (s : sys) : Prop :=
  Inv k (sw s) (st s) (reqs s) /\ Forall (fun t => not_pooled t = true) (st s).

(** An activity never becomes an entry of the pool. *)
Lemma run_task_not_pooled k b t w new w' :
  run_task k b t w = Ok (new, w') -> not_pooled t = true ->
  Forall (fun t => not_pooled t = true) new.
Proof.
  assert (forall A (m : M world A) (f : A -> list task) w new w',
    (forall a, Forall (fun t => not_pooled t = true) (f a)) ->
    (a ← m; mret (f a)) w = Ok (new, w') -> Forall (fun t => not_pooled t = true) new) as Hb.
  { intros A m f w0 new0 w0' Hf. unfold mbind, M_bind. destruct (m w0) as [[a w1]|]; [|done].
    intros E. cbv in E. injection E as <- <-. apply Hf. }
  intros E Hnp. destruct t;
    try match goal with r : (TSessionSource * option ptr)%type |- _ => destruct r as [[] [?|]] end;
    cbn [run_task] in E; try done;
    try (injection E as <- <-; by repeat constructor);
    (eapply Hb; [|exact E]; intros; cbn; repeat case_match; by repeat constructor).
Qed.

Lemma wp_result {S A} (m : M S A) Q s a s' : wp m Q s -> m s = Ok (a, s') -> Q a s'.
Proof. intros Hw E. unfold wp in Hw. by rewrite E in Hw. Qed.

Lemma SysInv_init k max min : SysInv k (init max min).
Proof.
  split; [|constructor]. split; try done.
  - split; cbn; [constructor| |constructor].
    intros s. rewrite lookup_empty. split; [by intros [? ?]|]. by intros ?%elem_of_nil.
  - intros t s Hin. by apply elem_of_nil in Hin.
Qed.

Lemma np_perm ts t rest : ts ≡ₚ t :: rest -> Forall (fun t => not_pooled t = true) ts ->
  not_pooled t = true /\ Forall (fun t => not_pooled t = true) rest.
Proof. intros Hp. rewrite Hp. by intros [? ?]%Forall_cons. Qed.

Lemma np_fmap {A} (f : A -> task) l :
  (forall a, not_pooled (f a) = true) -> Forall (fun t => not_pooled t = true) (f <$> l).
Proof. intros Hf. apply Forall_fmap, Forall_true. intros. apply Hf. Qed.

Lemma Inv_of_perm k w ts ts' rs : ts ≡ₚ ts' -> Inv k w ts rs -> Inv k w ts' rs.
Proof. intros Hp. apply inv_perm. by rewrite Hp. Qed.

Lemma SysInv_step k s s' : SysInv k s -> step k s s' -> SysInv k s'.
Proof.
  intros [HI Hnp] Hs. destruct Hs as
    [w ts rs t rest b new w' Hp Hen E | w ts rs c | w ts rs s upd now timeout random r w' Hin E
    | w ts rs s rest Hp | w ts rs c rest s ok id t1 t2 w' Hp Hfr Hid E
    | w ts rs c s t1 t2 w' Hk Hin Hfr E | w ts rs s command w' Hk Hc E
    | w ts rs s reason Hk Hl | w ts rs now w' E | w ts rs now nowUtil pred touch del old w' E
    | w ts rs ss cs w' Hk E]; unfold SysInv; cbn [sw st reqs] in *.
  - destruct (np_perm _ t rest Hp Hnp) as [Ht Hr].
    split; [|apply Forall_app; split; [by eapply run_task_not_pooled|done]].
    apply (Inv_of_perm _ _ _ _ _ Hp) in HI.
    exact (wp_result _ _ _ _ _ (goes_task k b w rest rs t Hr Hen HI) E).
  - split; [|by constructor]. destruct HI as [H1 H2 H3 H4 H5 H6 H7]. split; try done.
    + by apply owned_none.
    + intros t0 s0 [->|Hin]%elem_of_cons; [done|by apply H5].
    + intros key s0 x [?|Hin]%elem_of_cons Hx Hc; [done|].
      destruct (H6 key s0 x Hin Hx Hc) as (t0 & ? & ?). exists t0. split; [by right|done].
    + cbn [app pending flat_map]. by rewrite H7.
  - split; [|done]. exact (wp_result _ _ _ _ _ (env_response k w ts rs s upd now timeout random r HI Hin) E).
  - destruct (np_perm _ _ rest Hp Hnp) as [_ Hr]. split; [|by constructor].
    apply (Inv_of_perm _ _ _ _ _ Hp) in HI. by apply env_drop.
  - destruct (np_perm _ _ rest Hp Hnp) as [_ Hr]. split; [|by constructor].
    apply (Inv_of_perm _ _ _ _ _ Hp) in HI.
    exact (wp_result _ _ _ _ _ (env_created k w rs c rest s ok id t1 t2 HI Hfr Hid) E).
  - split; [|by constructor].
    exact (wp_result _ _ _ _ _ (env_retried k w ts rs s t1 t2 HI Hk Hfr) E).
  - split; [|by constructor]. destruct (heap w !! s) as [x|] eqn:Hx.
    + exact (wp_result _ _ _ _ _ (env_shutdown k w ts rs s x command HI Hk Hx Hc) E).
    + unfold Server_mark, mbind, M_bind, get_session in E. by rewrite Hx in E.
  - split; [by apply env_detached|by constructor].
  - split; [|done]. exact (wp_result _ _ _ _ _ (env_clear k w ts rs now HI) E).
  - split; [exact (wp_result _ _ _ _ _ (env_periodic k w ts rs now nowUtil pred HI) E)|].
    rewrite !Forall_app. split_and!; by try apply np_fmap.
  - split; [exact (wp_result _ _ _ _ _ (env_drain k w ts rs HI Hk) E)|].
    rewrite !Forall_app. split_and!; by try apply np_fmap.
Qed.

Lemma reachable_inv k max min s : reachable k max min s -> SysInv k s.
Proof. induction 1; [apply SysInv_init | by eapply SysInv_step]. Qed.

(** C3: No process abort: in every reachable state, under any interleaving of
    users, server shutdowns and timers, each activity that may run returns,
    so none of the [Y_ABORT_UNLESS] of the pool and its clients fires and no
    session is used after it was destroyed; the same holds of the timers. *)
Theorem session_pool_never_aborts k max min s :
  reachable k max min s ->
  (forall t rest b, st s ≡ₚ t :: rest -> enabled t rest ->
     exists new w', run_task k b t (sw s) = Ok (new, w')) /\
  (forall now, exists w', ClearOldWaiters now (sw s) = Ok (tt, w')) /\
  (forall now nowUtil pred, exists r w',
     Periodic_locked now nowUtil pred (bool_decide (k = TableClient)) (sw s) = Ok (r, w')) /\
  (k = TableClient -> exists r w', Drain_locked true (sw s) = Ok (r, w')).
Proof.
  intros [HI Hnp]%reachable_inv. split_and!.
  - intros t rest b Hp Hen. destruct (np_perm _ t rest Hp Hnp) as [Ht Hr].
    apply (Inv_of_perm _ _ _ _ _ Hp) in HI.
    destruct (proj1 (wp_run _ _ _) (goes_task k b _ rest _ t Hr Hen HI)) as (new & w' & E & _).
    eauto.
  - intros now.
    destruct (proj1 (wp_run _ _ _) (env_clear k _ _ _ now HI)) as ([] & w' & E & _). eauto.
  - intros now nowUtil pred.
    destruct (proj1 (wp_run _ _ _) (env_periodic k _ _ _ now nowUtil pred HI)) as (r & w' & E & _).
    eauto.
  - intros Hk. destruct (proj1 (wp_run _ _ _) (env_drain k _ _ _ HI Hk)) as (r & w' & E & _). eauto.
Qed.

Lemma session_pool_never_aborts_witness :
  exists new w', run_task QueryClient false (TGet (mkCtx 1 5)) (sw (init 1 0)) = Ok (new, w').
Proof.
  apply (session_pool_never_aborts QueryClient 1 0
    (mkSys (sw (init 1 0)) [TGet (mkCtx 1 5)] [mkCtx 1 5])) with (rest := []).
  - eapply reach_step; [apply reach_init | apply step_call].
  - reflexivity.
  - exact I.
Defined.

(** C22: The counter [ActiveSessions_] is exact in every reachable state: it is
    the sum, over all activities, of one for each creation in flight, each
    session on its way to a request and each session marked as counted that a
    user or a deleter owns; entries of the pool count for nothing.  So it is
    never negative, and when nothing but creations and sessions in users' hands
    remains, the query client's counter is their number. *)
Theorem session_pool_counter k max min s :
  reachable k max min s ->
  ActiveSessions_ (pl (sw s)) = weight (heap (sw s)) (st s) /\
  0 <= ActiveSessions_ (pl (sw s)) /\
  (k = QueryClient ->
   Forall (fun t => match t with Held _ | Creating _ => True | _ => False end) (st s) ->
   ActiveSessions_ (pl (sw s)) = Z.of_nat (length (st s))).
Proof.
  intros [HI _]%reachable_inv.
  assert (ActiveSessions_ (pl (sw s)) = weight (heap (sw s)) (st s)) as Ha.
  { rewrite (inv_active _ _ _ _ _ _ _ HI), weight_app.
    assert (weight (heap (sw s)) (pooled (sw s)) = 0) as ->; [|lia].
    unfold pooled. induction (Sessions_ _) as [|e l IH]; cbn; [done|]. lia. }
  split_and!; [done|rewrite Ha; apply weight_nonneg|]. intros Hk Hq. rewrite Ha. subst k.
  pose proof (own_ok _ _ _ (inv_own _ _ _ _ _ _ _ HI)) as Hok.
  apply Forall_app in Hok as [Hok _]. clear HI Ha.
  induction (st s) as [|t l IH]; [done|]. apply Forall_cons in Hq as [Ht Hq].
  apply Forall_cons in Hok as [Htok Hok]. cbn [weight length]. rewrite IH by done.
  destruct t; try done; cbn; [lia|]. destruct Htok as (x & Hx & _ & Hn). cbn in Hx.
  unfold t_look. cbn. rewrite Hx, Hn by done. cbn. lia.
Qed.

(** C36: Every session has exactly one owner: in every reachable state no two of
    the pool's entries, the users and the activities in flight own the same
    session, and each session that exists is owned, so none leaks. *)
Theorem session_single_owner k max min s :
  reachable k max min s ->
  NoDup (omap t_ptr (st s ++ pooled (sw s))) /\
  forall p, is_Some (heap (sw s) !! p) <-> p ∈ omap t_ptr (st s ++ pooled (sw s)).
Proof.
  intros [HI _]%reachable_inv. destruct (inv_own _ _ _ _ _ _ _ HI) as [H1 H2 _]. done.
Qed.

(** C8: No request for a session is lost or answered twice: in every reachable
    state the requests made are, each exactly once, those still carried by an
    activity, those in the queue of waiters and those answered with a session,
    a created session or an error.  When no activity carries one and the queue
    is empty, all are answered. *)
Theorem requests_answered_once k max min s :
  reachable k max min s ->
  reqs s ≡ₚ pending (st s) ++ (snd <$> Waiters_ (pl (sw s))) ++ answered (log (sw s)) /\
  (pending (st s) = [] -> Waiters_ (pl (sw s)) = [] -> reqs s ≡ₚ answered (log (sw s))).
Proof.
  intros [HI _]%reachable_inv. pose proof (inv_reqs _ _ _ _ _ _ _ HI) as Hr.
  assert (pending (st s ++ pooled (sw s)) = pending (st s)) as Ep.
  { rewrite pending_app. unfold pooled. rewrite <- (app_nil_r (pending (st s))) at 2. f_equal.
    induction (Sessions_ _); done. }
  rewrite Ep in Hr. split; [done|]. intros E1 E2. by rewrite Hr, E1, E2.
Qed.

Lemma requests_answered_once_witness :
  [mkCtx 1 5] ≡ₚ pending [TGet (mkCtx 1 5)] ++ [] ++ [].
Proof.
  apply (requests_answered_once QueryClient 1 0
    (mkSys (sw (init 1 0)) [TGet (mkCtx 1 5)] [mkCtx 1 5])).
  eapply reach_step; [apply reach_init | apply step_call].
Defined.

(** No shutdown is missed: if a session in the pool has been told to close
    by the server, the callback that will take it out of the pool is still in
    flight, in every reachable state, whatever the interleaving of the callback
    with the session's return to the pool.  So once the callback is over the
    session is not in the pool. *)
Theorem shutdown_not_missed k max min s key p x :
  reachable k max min s ->
  (key, p) ∈ Sessions_ (pl (sw s)) -> heap (sw s) !! p = Some x -> CloseRequested_ x = true ->
  exists t, t ∈ st s /\ t_srv t = Some p.
Proof.
  intros [HI _]%reachable_inv Hin Hx Hc.
  destruct (inv_shutdown _ _ _ _ _ _ _ HI key p x) as (t & Ht & E); [|done|done|].
  - apply elem_of_app. right. apply list_elem_of_fmap. by exists (key, p).
  - exists t. split; [|done]. apply elem_of_app in Ht as [Ht|Ht]; [done|].
    apply list_elem_of_fmap in Ht as (e & -> & _). done.
Qed.

(** ** Executing a schedule *)

(** The steps of the system, chosen explicitly. *)
Inductive action :=
  | ARun (n : nat) (b : bool)           (* the [n]th activity *)
  | ACall (c : ctx)
  | AResponse (n : nat) (r : option TStatus)
  | ADrop (n : nat)
  | ACreated (n : nat) (s : ptr) (id : string) (now : Z)
  | AShutdown (s : ptr)
  | APeriodic (now : Z).

Definition remove_nth (n : nat) (ts : list task) : list task := take n ts ++ drop (S n) ts.

Definition enabledb (t : task) (rest : list task) : bool :=
  match frees t with
  | Some s => forallb (fun t' => bool_decide (t_srv t' <> Some s)) rest
  | None => true
  end.

Definition fresh_idb (h : gmap ptr session) (id : string) : bool :=
  (negb (bool_decide (id = "")) &&
   forallb (fun e => negb (bool_decide (SessionId_ e.2 = id))) (map_to_list h))%bool.

Definition result {A} (o : outcome A) : option A :=
  match o with Ok a => Some a | Fail _ => None end.

Definition act (k : client_kind) (a : action) (s : sys) : option sys :=
  let '(mkSys w ts rs) := s in
  match a with
  | ARun n b =>
      t ← ts !! n;
      let rest := remove_nth n ts in
      if enabledb t rest then
        '(new, w') ← result (run_task k b t w); Some (mkSys w' (new ++ rest) rs)
      else None
  | ACall c => Some (mkSys w (TGet c :: ts) (c :: rs))
  | AResponse n r =>
      match ts !! n with
      | Some (Held s) =>
          '(_, w') ← result (User_response s true 0 0 (fun _ => 0) r w); Some (mkSys w' ts rs)
      | _ => None
      end
  | ADrop n =>
      match ts !! n with
      | Some (Held s) => Some (mkSys w (TDeleter s :: remove_nth n ts) rs)
      | _ => None
      end
  | ACreated n s id now =>
      match ts !! n, heap w !! s with
      | Some (Creating c), None =>
          if fresh_idb (heap w) id then
            '(_, w') ← result ((alloc_session s (NewSession true id now now) ;;
                                emit (EvCreated c s)) w);
            Some (mkSys w' (Held s :: remove_nth n ts) rs)
          else None
      | _, _ => None
      end
  | AShutdown s =>
      if bool_decide (k = QueryClient) then
        '(_, w') ← result (Server_mark s SessionShutdown w);
        Some (mkSys w' (TSrv1 s (Reason SessionShutdown) :: ts) rs)
      else None
  | APeriodic now =>
      '(touch, del, old, w') ←
        result (Periodic_locked now now (fun _ _ => false) (bool_decide (k = TableClient)) w);
      Some (mkSys w' ((TTouch <$> touch) ++ (TIdle <$> del) ++ (TErr <$> old) ++ ts) rs)
  end.

Fixpoint exec (k : client_kind) (l : list action) (s : sys) : option sys :=
  match l with
  | [] => Some s
  | a :: l => s ← act k a s; exec k l s
  end.

Lemma remove_nth_perm n ts t : ts !! n = Some t -> ts ≡ₚ t :: remove_nth n ts.
Proof.
  intros Hn. unfold remove_nth. rewrite <- (take_drop_middle ts n t Hn) at 1.
  by rewrite Permutation_middle.
Qed.

Lemma enabledb_ok t rest : enabledb t rest = true -> enabled t rest.
Proof.
  unfold enabledb, enabled. destruct (frees t); [|done]. intros Hf.
  apply List.Forall_forall. rewrite List.forallb_forall in Hf. intros t' Hin.
  apply Hf in Hin. by apply bool_decide_eq_true in Hin.
Qed.

Lemma fresh_idb_ok h id : fresh_idb h id = true -> fresh_id h id.
Proof.
  unfold fresh_idb. intros [Hne Hf]%andb_true_iff. split.
  - by apply negb_true_iff, bool_decide_eq_false in Hne.
  - intros s x Hx. rewrite List.forallb_forall in Hf.
    assert (List.In (s, x) (map_to_list h)) as Hin.
    { apply list_elem_of_In. by apply elem_of_map_to_list. }
    apply Hf in Hin. cbn in Hin. by apply negb_true_iff, bool_decide_eq_false in Hin.
Qed.

Lemma result_Some {A} (o : outcome A) a : result o = Some a -> o = Ok a.
Proof. by destruct o; intros [= ->]. Qed.

Lemma act_step k a s s' : act k a s = Some s' -> step k s s'.
Proof.
  destruct s as [w ts rs]. destruct a; cbn [act].
  - destruct (ts !! n) as [t|] eqn:Et; [|done]. cbn [mbind option_bind].
    destruct (enabledb _ _) eqn:He; [|done]. destruct (result _) as [[new w']|] eqn:Er; [|done].
    cbn. intros [= <-]. eapply step_task; [by apply remove_nth_perm|by apply enabledb_ok|].
    by apply result_Some.
  - intros [= <-]. apply step_call.
  - destruct (ts !! n) as [[]|] eqn:Et; try done. destruct (result _) as [[[] w']|] eqn:Er; [|done].
    cbn. intros [= <-]. eapply step_response; [by eapply list_elem_of_lookup_2|].
    by apply result_Some.
  - destruct (ts !! n) as [[]|] eqn:Et; try done. intros [= <-]. apply step_drop.
    by apply remove_nth_perm.
  - destruct (ts !! n) as [[]|] eqn:Et; try done. destruct (heap w !! s) eqn:Hs; [done|].
    destruct (fresh_idb _ _) eqn:Hf; [|done]. destruct (result _) as [[[] w']|] eqn:Er; [|done].
    cbn. intros [= <-]. eapply (step_created _ _ _ _ _ _ _ true);
      [by apply remove_nth_perm|done|by apply fresh_idb_ok|by apply result_Some].
  - destruct (bool_decide_reflect (k = QueryClient)); [|done].
    destruct (result _) as [[[] w']|] eqn:Er; [|done]. cbn. intros [= <-].
    apply (step_shutdown _ _ _ _ s SessionShutdown); [done| |by apply result_Some]. right. left.
  - destruct (result _) as [[[[touch del] old] w']|] eqn:Er; [|done]. cbn. intros [= <-].
    eapply step_periodic. by apply result_Some.
Qed.

Lemma exec_reachable k max min l s s' :
  reachable k max min s -> exec k l s = Some s' -> reachable k max min s'.
Proof.
  revert s. induction l as [|a l IH]; intros s Hr; cbn; [by intros [= <-]|].
  destruct (act k a s) as [s1|] eqn:Ea; [|done]. apply IH.
  eapply reach_step; [done|]. by eapply act_step.
Qed.

(** A session is created for a request, used, returned to the pool and then shut
    down by the server. *)
Definition pooled_then_shutdown : list action :=
  [ACall (mkCtx 1 5); ARun 0 false; ARun 0 false; ACreated 0 1 "a" 7; ADrop 0;
   ARun 0 false; ARun 0 false; ARun 0 false; ARun 0 false; ARun 0 false; AShutdown 1].

Lemma shutdown_not_missed_witness :
  match exec QueryClient pooled_then_shutdown (init 1 0) with
  | Some s => exists t, t ∈ st s /\ t_srv t = Some 1%positive
  | None => False
  end.
Proof.
  destruct (exec QueryClient pooled_then_shutdown (init 1 0)) as [s|] eqn:E;
    [|vm_compute in E; discriminate E].
  assert (reachable QueryClient 1 0 s) as Hr by (eapply exec_reachable; [apply reach_init|exact E]).
  vm_compute in E. injection E as <-.
  refine (shutdown_not_missed QueryClient 1 0 _ 7 1 _ Hr _ _ _).
  - left.
  - reflexivity.
  - reflexivity.
Defined.

(** Two users, one with a session and one whose session is being created. *)
Definition two_users : list action :=
  [ACall (mkCtx 1 5); ARun 0 false; ARun 0 false; ACreated 0 1 "a" 7;
   ACall (mkCtx 2 6); ARun 0 false; ARun 0 false].

Lemma session_pool_counter_witness :
  match exec QueryClient two_users (init 10 0) with
  | Some s => length (st s) = 2%nat /\ ActiveSessions_ (pl (sw s)) = Z.of_nat (length (st s))
  | None => False
  end.
Proof.
  destruct (exec QueryClient two_users (init 10 0)) as [s|] eqn:E; [|vm_compute in E; discriminate E].
  assert (reachable QueryClient 10 0 s) as Hr by (eapply exec_reachable; [apply reach_init|exact E]).
  vm_compute in E. injection E as <-. split; [reflexivity|].
  apply (session_pool_counter QueryClient 10 0 _ Hr); [reflexivity|]. by repeat constructor.
Defined.

(** One session in the pool and one in the hands of a user. *)
Definition pooled_and_held : list action :=
  two_users ++ [ACreated 0 2 "b" 8; ADrop 1; ARun 0 false; ARun 0 false; ARun 0 false; ARun 0 false; ARun 0 false].

Lemma session_single_owner_witness :
  match exec QueryClient pooled_and_held (init 10 0) with
  | Some s => omap t_ptr (st s ++ pooled (sw s)) = [2%positive; 1%positive] /\
      NoDup (omap t_ptr (st s ++ pooled (sw s)))
  | None => False
  end.
Proof.
  destruct (exec QueryClient pooled_and_held (init 10 0)) as [s|] eqn:E; [|vm_compute in E; discriminate E].
  assert (reachable QueryClient 10 0 s) as Hr by (eapply exec_reachable; [apply reach_init|exact E]).
  vm_compute in E. injection E as <-. split; [reflexivity|].
  apply (session_single_owner QueryClient 10 0 _ Hr).
Defined.

(** ** The limit of the query client *)

(** Computations that leave the pool alone. *)
Definition quiet {A} (m : M world A) : Prop := forall w a w', m w = Ok (a, w') -> pl w' = pl w.

Lemma quiet_bind {A B} (m : M world A) (f : A -> M world B) :
  quiet m -> (forall a, quiet (f a)) -> quiet (m ≫= f).
Proof.
  intros Hm Hf w b w'. unfold mbind, M_bind. destruct (m w) as [[a w1]|] eqn:E; [|done].
  intros E'. apply Hm in E. apply Hf in E'. congruence.
Qed.

Lemma quiet_ret {A} (a : A) : quiet (mret a).
Proof. by intros w a' w' [= <- <-]. Qed.
Lemma quiet_get s : quiet (get_session s).
Proof. intros w x w'. unfold get_session. destruct (heap w !! s); [|done]. by intros [= <- <-]. Qed.
Lemma quiet_put s x : quiet (put_session s x).
Proof. by intros w a w' [= <- <-]. Qed.
Lemma quiet_emit e : quiet (emit e).
Proof. by intros w a w' [= <- <-]. Qed.
Lemma quiet_abort_unless b msg : quiet (abort_unless b msg).
Proof. destruct b; [apply quiet_ret | by intros w a w']. Qed.
Lemma quiet_when b m : quiet m -> quiet (when b m).
Proof. destruct b; [done | intros _; apply quiet_ret]. Qed.
Lemma quiet_free s : quiet (free_session s).
Proof.
  apply quiet_bind; [apply quiet_get|]. intros _. apply quiet_bind; [by intros w a w' [= <- <-]|].
  intros _. apply quiet_emit.
Qed.

Create HintDb quiet.
#[export] Hint Resolve quiet_bind quiet_ret quiet_get quiet_put quiet_emit quiet_abort_unless
  quiet_when quiet_free : quiet.

Ltac solve_quiet :=
  repeat first
    [ apply quiet_ret | apply quiet_get | apply quiet_put | apply quiet_emit | apply quiet_free
    | apply quiet_abort_unless | apply quiet_when | apply quiet_bind; [|intros ?]
    | progress unfold upd_session, call_session | case_goal ].

(** The activities that take the pool's lock. *)
Definition locks (t : task) : bool :=
  match t with
  | TGet _ | TReturn4 _ _ | TDelete1 _ | TDelete3 _ | TSrv2 _ _ => true
  | _ => false
  end.

Lemma run_task_quiet k b t : locks t = false -> quiet (run_task k b t).
Proof.
  intros Hl. destruct t; try done;
    try match goal with r : (TSessionSource * option ptr)%type |- _ => destruct r as [[] [?|]] end;
    cbn [run_task];
    unfold GetSession_reply, Reply_check, Reply_activate, Reply_hand, Deleter_choose, Return_check,
      Return_need, Return_idle, Return_refused, Delete_fed, CheckAndFeed_reply, OnClose_mark,
      Periodic_touch, Periodic_mark, Drain_close; solve_quiet.
Qed.

(** Sessions in the pool and counted sessions together stay within the limit. *)
Definition within_limit (p : pool) : Prop :=
  0 < MaxActiveSessions_ p ->
  Z.of_nat (length (Sessions_ p)) + ActiveSessions_ p <= MaxActiveSessions_ p.

Definition keeps_limit (w : world) (w' : world) : Prop :=
  MaxActiveSessions_ (pl w') = MaxActiveSessions_ (pl w) /\
  (within_limit (pl w) -> within_limit (pl w')).

Lemma keeps_same w w' : pl w' = pl w -> keeps_limit w w'.
Proof. unfold keeps_limit. by intros ->. Qed.

Lemma keeps_pool (w w' : world) p :
  pl w' = p -> MaxActiveSessions_ p = MaxActiveSessions_ (pl w) ->
  Z.of_nat (length (Sessions_ p)) + ActiveSessions_ p <=
    Z.of_nat (length (Sessions_ (pl w))) + ActiveSessions_ (pl w) -> keeps_limit w w'.
Proof. unfold keeps_limit, within_limit. intros -> E Hl. split; [done|]. lia. Qed.

(** No session is taken out of the pool for a request that does not get it. *)
Definition no_drop (t : task) : Prop :=
  match t with TGot _ (SrcWaiter, Some _) | TGot _ (SrcError, Some _) => False | _ => True end.

Definition limit_post (w : world) (new : list task) (w' : world) : Prop :=
  keeps_limit w w' /\
  (0 < MaxActiveSessions_ (pl w) -> within_limit (pl w) -> Forall no_drop new).

Section Limit.
Context (w : world) (rest : list task) (rs : list ctx).

Lemma limit_Get k b c :
  Inv k w (TGet c :: rest) rs -> wp (run_task k b (TGet c)) (limit_post w) w.
Proof.
  intros HI. cbn [run_task]. unfold GetSession_locked. world_steps.
  set (room := ((MaxActiveSessions_ (pl w) =? 0) || _)%bool).
  apply wp_mono with (P := fun src w1 => heap w1 = heap w /\
    Sessions_ (pl w1) = Sessions_ (pl w) /\
    MaxActiveSessions_ (pl w1) = MaxActiveSessions_ (pl w) /\
    ActiveSessions_ (pl w1) = ActiveSessions_ (pl w) + Z.b2z room /\ (room = true <-> src = SrcPool)).
  { destruct room; [|unfold TryPush; destruct (_ <? _)]; world_steps; split_and!;
      cbn; try done; lia. }
  intros src w1 (Hh & Hs & Hm & Ha & Hr). world_steps. rewrite Hs.
  assert (0 < MaxActiveSessions_ (pl w) -> room = negb (MaxActiveSessions_ (pl w) <=? ActiveSessions_ (pl w)))
    as Hroom.
  { intros Hp. unfold room. rewrite (proj2 (Z.eqb_neq _ 0)), Z.ltb_antisym by lia. done. }
  pose proof (pop_last_spec (Sessions_ (pl w))) as Hpop.
  destruct (pop_last (Sessions_ (pl w))) as [[s rest']|]; world_steps.
  - destruct Hpop as [key El].
    assert (is_Some (heap w !! s)) as [x Hx].
    { apply (pooled_live k w (TGet c :: rest) rs (key, s)); [done|]. rewrite El.
      apply elem_of_app. right. left. }
    eapply wp_upd_session; [by rewrite Hh|]. world_steps.
    assert (length (Sessions_ (pl w)) = S (length rest')) as Hlen
      by (rewrite El, length_app; cbn; lia).
    split.
    + apply (keeps_pool w _ _ eq_refl); cbn; [done|]. destruct room; cbn in Ha; lia.
    + intros Hpos Hlim. unfold within_limit in Hlim. specialize (Hlim Hpos).
      constructor; [|constructor]. destruct src; cbn; try done; exfalso;
        (assert (room = false) as Hf by (destruct room; [by destruct Hr as [Hr _]; discriminate Hr|done]));
        rewrite Hroom in Hf by done; bool_to_prop; lia.
  - split.
    + unfold keeps_limit, within_limit. cbn. split; [done|]. rewrite Hs, Hm, Ha, Hpop. cbn.
      intros Hlim Hpos. rewrite Hroom in * by done. specialize (Hlim Hpos).
      destruct (_ <=? _) eqn:E; bool_to_prop; cbn; lia.
    + intros _ _. constructor; [|constructor]. by destruct src.
Qed.

Lemma limit_Return4 b s need :
  Inv QueryClient w (TReturn4 s need :: rest) rs ->
  wp (run_task QueryClient b (TReturn4 s need)) (limit_post w) w.
Proof.
  intros HI. destruct (Inv_look _ _ _ _ _ s HI eq_refl) as (x & Hx & (Hd & Hc & Hq) & Hg).
  specialize (Hq eq_refl). subst need. cbn [run_task]. unfold ReturnSession_locked. world_steps.
  destruct (Closed_ (pl w)); world_steps.
  { split; [by apply keeps_same|]. intros _ _. by repeat constructor. }
  eapply wp_get_session; [apply lookup_insert_eq|].
  destruct (CanReturnToPool _); cbn [negb]; world_steps.
  2: { eapply wp_upd_session; [apply lookup_insert_eq|]. world_steps.
    split; [by apply keeps_same|]. intros _ _. by repeat constructor. }
  unfold TryGet. destruct (Waiters_ (pl w)) as [|[d c] l] eqn:Ew; world_steps.
  - eapply wp_get_session; [apply lookup_insert_eq|]. world_steps.
    pose proof (inv_active _ _ _ _ _ _ _ HI) as Ha. cbn [app] in Ha.
    rewrite (weight_head _ (TReturn4 s true) _ s x) in Ha by done. cbn [t_weight] in Ha.
    pose proof (weight_nonneg (heap w) (rest ++ pooled w)).
    cbn [when]. world_steps.
    apply wp_abort_unless; [apply negb_true_iff, Z.eqb_neq; cbn in *; lia|]. world_steps.
    eapply wp_upd_session; [apply lookup_insert_eq|]. world_steps.
    split; [|by intros _ _; constructor]. eapply keeps_pool; [done|done|]. cbn.
    rewrite mm_insert_length. lia.
  - eapply wp_upd_session; [apply lookup_insert_eq|]. world_steps. cbn [when negb]. world_steps.
    split; [|intros _ _; by repeat constructor]. by eapply keeps_pool.
Qed.

Lemma limit_Delete1 k b s :
  Inv k w (TDelete1 s :: rest) rs -> wp (run_task k b (TDelete1 s)) (limit_post w) w.
Proof.
  intros HI. destruct (Inv_look _ _ _ _ _ s HI eq_refl) as (x & Hx & _ & _).
  cbn [run_task]. unfold Delete_feed, CheckAndFeed_locked. world_steps.
  destruct (IsOwnedBySessionPool_ x); world_steps; [destruct (Closed_ (pl w)); world_steps|].
  - split; [by apply keeps_same|]. intros _ _. by repeat constructor.
  - unfold TryGet. destruct (Waiters_ (pl w)) as [|[d c] l]; world_steps;
      (split; [by eapply keeps_pool|intros _ _; by repeat constructor]).
  - split; [by apply keeps_same|]. intros _ _. by repeat constructor.
Qed.

Lemma limit_Srv2 k b s reason :
  Inv k w (TSrv2 s reason :: rest) rs -> wp (run_task k b (TSrv2 s reason)) (limit_post w) w.
Proof.
  intros HI. destruct (inv_srv _ _ _ _ _ _ _ HI (TSrv2 s reason) s) as [x Hx]; [left|done|].
  cbn [run_task]. unfold OnClose_locked. world_steps.
  pose proof (find_session_spec (heap w) (TimeToTouch_ x) (SessionId_ x) (Sessions_ (pl w))) as Hf.
  destruct (find_session _ _ _ _) as [[s'|] rest']; world_steps.
  - destruct Hf as [Hl _]. apply Permutation_length in Hl. cbn in Hl.
    split; [|intros _ _; by repeat constructor]. eapply keeps_pool; [done|done|]. cbn. lia.
  - destruct Hf as [-> _]. split; [|intros _ _; constructor]. by eapply keeps_pool.
Qed.

Lemma limit_Delete3 k b s :
  Inv k w (TDelete3 s :: rest) rs -> wp (run_task k b (TDelete3 s)) (limit_post w) w.
Proof.
  intros HI. destruct (Inv_look _ _ _ _ _ s HI eq_refl) as (x & Hx & _ & _).
  pose proof (inv_active _ _ _ _ _ _ _ HI) as Ha. cbn [app] in Ha.
  rewrite (weight_head _ (TDelete3 s) _ s x) in Ha by done. cbn [t_weight] in Ha.
  pose proof (weight_nonneg (heap w) (rest ++ pooled w)).
  cbn [run_task]. unfold Delete_finish. world_steps.
  destruct (NeedUpdateActiveCounter_ x); cbn [when Z.b2z] in *; unfold DecrementActiveCounter;
    world_steps.
  - apply wp_abort_unless; [apply negb_true_iff, Z.eqb_neq; lia|]. world_steps.
    destruct (_ && _)%bool; cbn [when]; world_steps;
      (split; [eapply keeps_pool; [done|done|cbn; lia]|intros _ _; constructor]).
  - destruct (_ && _)%bool; cbn [when]; world_steps;
      (split; [by apply keeps_same|intros _ _; constructor]).
Qed.

(** The other activities neither lock the pool nor start a drop. *)
Lemma limit_quiet k b t new w' :
  locks t = false -> no_drop t -> run_task k b t w = Ok (new, w') -> limit_post w new w'.
Proof.
  intros Hl Hnd E. split; [apply keeps_same; by eapply run_task_quiet|]. intros _ _.
  assert (forall A (m : M world A) (f : A -> list task),
    (forall a, Forall no_drop (f a)) ->
    (a ← m; mret (f a)) w = Ok (new, w') -> Forall no_drop new) as Hb.
  { intros A m f Hf. unfold mbind, M_bind. destruct (m w) as [[a w1]|]; [|done].
    intros E'. cbv in E'. injection E' as <- <-. apply Hf. }
  destruct t; try done;
    try match goal with r : (TSessionSource * option ptr)%type |- _ => destruct r as [[] [?|]] end;
    cbn [run_task] in E; try done; try (injection E as <- <-; by repeat constructor);
    (eapply Hb; [|exact E]; intros; cbn; repeat case_match; by repeat constructor).
Qed.

Lemma limit_task b t new w' :
  Inv QueryClient w (t :: rest) rs -> no_drop t ->
  run_task QueryClient b t w = Ok (new, w') -> limit_post w new w'.
Proof.
  intros HI Hnd E. destruct (locks t) eqn:Hl; [|by eapply limit_quiet].
  destruct t; try done; refine (wp_result _ _ _ _ _ _ E).
  - by apply limit_Get.
  - by apply limit_Return4.
  - by apply limit_Delete1.
  - by apply limit_Delete3.
  - by apply limit_Srv2.
Qed.

End Limit.

Lemma keeps_quiet {A} (m : M world A) w a w' : quiet m -> m w = Ok (a, w') -> keeps_limit w w'.
Proof. intros Hq E. apply keeps_same. by eapply Hq. Qed.

Lemma clear_keeps now w w' : ClearOldWaiters now w = Ok (tt, w') -> keeps_limit w w'.
Proof.
  unfold ClearOldWaiters, GetOld. intros E. refine (wp_result _ (fun _ => keeps_limit w) _ _ _ _ E).
  world_steps. destruct (split_old now (Waiters_ (pl w))) as [old rest']. world_steps.
  apply wp_mono with (P := fun _ w1 => pl w1 = set_waiters rest' (pl w)).
  - apply wp_for_each; [done|]. intros c w1 _ Hw1. world_steps. done.
  - intros _ w1 Hw1. destruct (negb _); cbn [when]; world_steps.
    + apply (keeps_pool w _ (UpdateStats (set_waiters rest' (pl w)))); [unfold with_pool; cbn [pl]; by rewrite Hw1|done..].
    + by eapply keeps_pool.
Qed.

Lemma quiet_for_each {A} (f : A -> M world unit) l :
  (forall a, quiet (f a)) -> quiet (for_each f l).
Proof. intros Hf. induction l; cbn; [apply quiet_ret | by apply quiet_bind]. Qed.

Lemma periodic_keeps k w ts rs now nowUtil pred r w' :
  Inv k w ts rs ->
  Periodic_locked now nowUtil pred (bool_decide (k = TableClient)) w = Ok (r, w') ->
  keeps_limit w w'.
Proof.
  intros HI. unfold Periodic_locked, mbind, M_bind. cbn [get_st].
  destruct (periodic_scan_spec PERIODIC_ACTION_BATCH_SIZE nowUtil pred
    (bool_decide (k = TableClient)) (heap w) (Sessions_ (pl w)) 0) as (et & ed & r' & -> & Hp & _).
  { intros e He. by eapply pooled_live. }
  apply Permutation_length in Hp. rewrite !length_app in Hp. cbn [mret M_ret].
  destruct (for_each _ _ w) as [[[] w1]|] eqn:E; [|done].
  assert (pl w1 = pl w) as Hw1.
  { eapply (quiet_for_each _ _); [|exact E]. intros s. unfold upd_session.
    apply quiet_bind; [apply quiet_get|intros x; apply quiet_put]. }
  unfold upd_pool, modify, gets, GetOld, with_pool. cbn [heap pl log]. rewrite Hw1.
  destruct (split_old _ _) as [old rest']. intros [= <- <-].
  eapply keeps_pool; [done|done|]. cbn. lia.
Qed.

Lemma keeps_trans w1 w2 w3 : keeps_limit w1 w2 -> keeps_limit w2 w3 -> keeps_limit w1 w3.
Proof. unfold keeps_limit. intros [E1 H1] [E2 H2]. split; [congruence|auto]. Qed.

Lemma quiet_response s upd now timeout random r : quiet (User_response s upd now timeout random r).
Proof. unfold User_response. solve_quiet. Qed.

Lemma quiet_mark s command : quiet (Server_mark s command).
Proof. unfold Server_mark. solve_quiet. Qed.

Lemma limit_step s s' :
  SysInv QueryClient s -> step QueryClient s s' ->
  Forall no_drop (st s) ->
  keeps_limit (sw s) (sw s') /\
  (0 < MaxActiveSessions_ (pl (sw s)) -> within_limit (pl (sw s)) -> Forall no_drop (st s')).
Proof.
  intros [HI Hnp] Hs Hnd. destruct Hs as
    [w ts rs t rest b new w' Hp Hen E | w ts rs c | w ts rs s upd now timeout random r w' Hin E
    | w ts rs s rest Hp | w ts rs c rest s ok id t1 t2 w' Hp Hfr Hid E
    | w ts rs c s t1 t2 w' Hk Hin Hfr E | w ts rs s command w' Hk Hc E
    | w ts rs s reason Hk Hl | w ts rs now w' E | w ts rs now nowUtil pred touch del old w' E
    | w ts rs ss cs w' Hk E]; cbn [sw st] in *; try done.
  - apply (Inv_of_perm _ _ _ _ _ Hp) in HI. rewrite Hp in Hnd. apply Forall_cons in Hnd as [Ht Hr].
    destruct (limit_task w rest rs b t new w' HI Ht E) as [Hk Hn]. split; [done|].
    intros Hpos Hlim. apply Forall_app. auto.
  - split; [by apply keeps_same|]. intros _ _. by constructor.
  - split; [by eapply keeps_quiet; [apply quiet_response|]|done].
  - rewrite Hp in Hnd. apply Forall_cons in Hnd as [_ Hr].
    split; [by apply keeps_same|]. intros _ _. by constructor.
  - rewrite Hp in Hnd. apply Forall_cons in Hnd as [_ Hr]. split; [|intros _ _; by constructor].
    apply keeps_same. unfold mbind, M_bind, alloc_session, modify, emit in E. cbn in E.
    by injection E as <-.
  - split; [by eapply keeps_quiet; [apply quiet_mark|]|]. intros _ _. by constructor.
  - split; [by apply keeps_same|]. intros _ _. by constructor.
  - split; [by eapply clear_keeps|done].
  - split; [by eapply periodic_keeps|]. intros _ _. rewrite !Forall_app.
    split_and!; try done; apply Forall_fmap, Forall_true; done.
Qed.

Lemma limit_reachable max min s :
  reachable QueryClient max min s -> 0 < max ->
  MaxActiveSessions_ (pl (sw s)) = max /\ within_limit (pl (sw s)) /\ Forall no_drop (st s).
Proof.
  intros Hr Hpos. induction Hr as [|s s' Hr (Hm & Hl & Hn) Hs].
  - split_and!; [done| |constructor]. unfold within_limit. cbn. lia.
  - destruct (limit_step s s' (reachable_inv _ _ _ _ Hr) Hs Hn) as [[Em Hk] Hd].
    split_and!; [congruence|auto|apply Hd; [lia|done]].
Qed.

(** The sessions in users' hands. *)
Definition held (t : task) : bool := match t with Held _ => true | _ => false end.

Lemma held_weight h l :
  Forall (tok QueryClient h) l -> Z.of_nat (length (List.filter held l)) <= weight h l.
Proof.
  induction 1 as [|t l Ht _ IH]; [done|]. cbn [List.filter weight].
  pose proof (t_weight_nonneg t (t_look h t)).
  destruct t; cbn [held length]; try lia. destruct Ht as (x & Hx & _ & Hn). cbn in Hx.
  unfold t_look. cbn [t_ptr]. cbn. rewrite Hx, Hn by done. cbn. lia.
Qed.

(** C29: The limit of the query client: with [MaxActiveSessions_] positive, in
    every reachable state the sessions in the pool and the counted ones
    together do not exceed it, so users never hold more sessions than the
    limit; and [GetSession] never takes a session out of the pool for a request
    it then queues or refuses. *)
Theorem query_session_limit max min s :
  reachable QueryClient max min s -> 0 < max ->
  Z.of_nat (length (Sessions_ (pl (sw s)))) + ActiveSessions_ (pl (sw s)) <= max /\
  Z.of_nat (length (List.filter held (st s))) <= max /\
  Forall no_drop (st s).
Proof.
  intros Hr Hpos. destruct (limit_reachable max min s Hr Hpos) as (Hm & Hl & Hn).
  unfold within_limit in Hl. rewrite Hm in Hl. specialize (Hl Hpos).
  destruct (reachable_inv _ _ _ _ Hr) as [HI _].
  pose proof (own_ok _ _ _ (inv_own _ _ _ _ _ _ _ HI)) as Hok.
  pose proof (held_weight _ _ Hok) as Hw. rewrite <- (inv_active _ _ _ _ _ _ _ HI) in Hw.
  rewrite List.filter_app, length_app in Hw. split_and!; [done|lia|done].
Qed.

Lemma query_session_limit_witness :
  match exec QueryClient pooled_then_shutdown (init 1 0) with
  | Some s => Z.of_nat (length (Sessions_ (pl (sw s)))) + ActiveSessions_ (pl (sw s)) <= 1
  | None => False
  end.
Proof.
  destruct (exec QueryClient pooled_then_shutdown (init 1 0)) as [s|] eqn:E;
    [|vm_compute in E; discriminate E].
  apply (query_session_limit 1 0 s); [|lia].
  eapply exec_reachable; [apply reach_init|exact E].
Defined.

(** ** A request left waiting *)

(** With a limit of one: the only session breaks and is being deleted; its
    deleter finds no waiter; a second request is queued because the counter is
    still at the limit; then the deleter lowers the counter. *)
Definition wakeup_schedule : list action :=
  [ACall (mkCtx 1 5); ARun 0 false; ARun 0 false; ACreated 0 1 "a" 7; AResponse 0 None; ADrop 0;
   ARun 0 false; ARun 0 false; ACall (mkCtx 2 9); ARun 0 false; ARun 0 false;
   ARun 0 false; ARun 0 false].

(** [DeleteSession] looks for a waiter and lowers the counter in two critical
    sections, and a request between them is queued for nothing: a state is
    reachable in which a request waits although no session is counted, none is
    in the pool and nothing is in flight that would serve it.  It is left to
    its deadline, or to a later session. *)
Theorem request_left_waiting :
  exists s, reachable QueryClient 1 0 s /\ st s = [] /\
    snd <$> Waiters_ (pl (sw s)) = [mkCtx 2 9] /\
    Sessions_ (pl (sw s)) = [] /\ ActiveSessions_ (pl (sw s)) = 0 /\
    MaxActiveSessions_ (pl (sw s)) = 1.
Proof.
  destruct (exec QueryClient wakeup_schedule (init 1 0)) as [s|] eqn:E;
    [|vm_compute in E; discriminate E].
  exists s. split; [by eapply exec_reachable; [apply reach_init|]|].
  vm_compute in E. injection E as <-. done.
Qed.
