(* ===== verification/Float32.v ===== *)
(** * Single-precision arithmetic

    The [float] operations the endpoint pool applies to a load factor:
    [std::min], [std::max], one multiplication and [static_cast<std::int32_t>],
    on IEEE binary32 values (the Standard Library's [SpecFloat] with 24 bits of
    precision).  The file bounds the integer they produce. *)

From Stdlib Require Import SpecFloat.
From S2P Require Import Prelude.

Abbreviation f32 := spec_float.

Definition f32_mul : f32 -> f32 -> f32 := SFmul 24 128.
Definition f32_lt : f32 -> f32 -> bool := SFltb.
Definition f32_valid : f32 -> bool := valid_binary 24 128.

(** [std::max(a, b)] is [(a < b) ? b : a], [std::min(a, b)] is [(b < a) ? b : a]. *)
Definition std_max (a b : f32) : f32 := if f32_lt a b then b else a.
Definition std_min (a b : f32) : f32 := if f32_lt b a then b else a.

(** [static_cast<std::int32_t>]: truncation towards zero ([None]: undefined). *)
Definition f32_to_int (x : f32) : option Z :=
  match x with
  | S754_zero _ => Some 0
  | S754_finite s m e =>
      let v := if 0 <=? e then Z.pos m * 2 ^ e else Z.pos m / 2 ^ (- e) in
      let v := if s then - v else v in
      if ((- 2 ^ 31 <=? v) && (v <? 2 ^ 31))%bool then Some v else None
  | _ => None
  end.

Definition f32_100 : f32 := S754_finite false 13107200 (-17).
Definition f32_m100 : f32 := S754_finite true 13107200 (-17).
Definition f32_10 : f32 := S754_finite false 10485760 (-20).

(** ** Bounds

    Exponents are shifted by 400 to stay non-negative: [scaled m e] is
    [m * 2^e] in units of 2^-400. *)

Definition scaled (m e : Z) : Z := m * 2 ^ (e + 400).

Lemma digits2_pos_bound m :
  2 ^ (Z.pos (digits2_pos m) - 1) <= Z.pos m < 2 ^ Z.pos (digits2_pos m).
Proof.
  induction m as [m IH|m IH|]; cbn [digits2_pos]; [| |by cbn].
  all: rewrite Pos2Z.inj_succ;
    replace (Z.succ (Z.pos (digits2_pos m)) - 1) with (Z.succ (Z.pos (digits2_pos m) - 1)) by lia;
    rewrite !Z.pow_succ_r by lia; lia.
Qed.

Lemma shr_1_m r : 0 <= shr_m r -> shr_m (shr_1 r) = shr_m r / 2.
Proof.
  destruct r as [[|[p|p|]|p] a b]; cbn; intros; try done; try lia.
  - change (Z.pos p~1) with (2 * Z.pos p + 1). rewrite Z.mul_comm, Z.div_add_l by lia.
    change (1 / 2) with 0. lia.
  - change (Z.pos p~0) with (2 * Z.pos p). by rewrite Z.mul_comm, Z.div_mul by lia.
Qed.

Lemma iter_shr_m p : forall r, 0 <= shr_m r ->
  shr_m (SpecFloat.iter_pos shr_1 p r) = shr_m r / 2 ^ Z.pos p.
Proof.
  assert (forall r q, 0 <= shr_m r -> 0 <= shr_m r / 2 ^ Z.pos q) as Hpos.
  { intros r q Hr. apply Z.div_pos; [done|]. pose proof (Z.pow_pos_nonneg 2 (Z.pos q)). lia. }
  induction p as [p IH|p IH|]; intros r Hr; cbn [SpecFloat.iter_pos].
  - assert (0 <= shr_m (shr_1 r)) as H1 by (rewrite shr_1_m by done; apply Z.div_pos; lia).
    rewrite (IH (SpecFloat.iter_pos _ _ _)), (IH (shr_1 r)) by (rewrite ?IH; auto).
    rewrite shr_1_m by done. rewrite !Z.div_div by (apply Z.pow_pos_nonneg || lia; lia).
    f_equal. rewrite Pos2Z.inj_xI, Z.pow_add_r, Z.pow_twice_r by lia. ring.
  - rewrite (IH (SpecFloat.iter_pos _ _ _)), (IH r) by (rewrite ?IH; auto).
    rewrite Z.div_div by (try apply Z.pow_nonzero; try apply Z.pow_pos_nonneg; lia).
    rewrite <- Z.pow_add_r by lia. do 2 f_equal. lia.
  - rewrite shr_1_m by done. done.
Qed.

(** Shifting a mantissa right only loses value. *)
Lemma shr_scaled r e n : 0 <= shr_m r -> -400 <= e ->
  let '(r', e') := shr r e n in
  e' = e + Z.max n 0 /\ 0 <= shr_m r' /\ scaled (shr_m r') e' <= scaled (shr_m r) e.
Proof.
  intros Hr He. unfold scaled. destruct n as [|p|p]; cbn [shr].
  1,3: split_and!; [lia|done|done].
  rewrite iter_shr_m by done. split_and!; [lia|apply Z.div_pos; lia|].
  replace (e + Z.pos p + 400) with (Z.pos p + (e + 400)) by lia.
  rewrite Z.pow_add_r, Z.mul_assoc by lia. apply Z.mul_le_mono_nonneg_r; [lia|].
  rewrite Z.mul_comm. apply Z.mul_div_le. lia.
Qed.

Lemma shr_exact m e n : n <= 0 -> shr (Build_shr_record m false false) e n =
  (Build_shr_record m false false, e).
Proof. by destruct n. Qed.

Lemma round_nearest_even_le m l : m <= round_nearest_even m l <= m + 1.
Proof. destruct l as [|[]]; cbn; try lia. destruct (Z.even m); lia. Qed.

(** The unit in the last place of the rounded mantissa is small. *)
Lemma rounding_unit m e : -300 <= e ->
  let e1 := fexp 24 128 (Z.pos (digits2_pos m) + e) in
  scaled (Z.pos m) e <= 1000 * 2 ^ 400 -> e < e1 -> 2 ^ (e1 + 400) < 2 ^ 400.
Proof.
  intros He e1 Hm Hlt. apply Z.pow_lt_mono_r; [lia|lia|].
  enough (e1 < 0) by lia. unfold e1, fexp, emin in *.
  enough (Z.pos (digits2_pos m) + e < 24) by lia.
  destruct (digits2_pos_bound m) as [Hd _]. unfold scaled in Hm.
  apply Z.nle_gt. intros H24.
  assert (2 ^ 23 * 2 ^ 400 <= Z.pos m * 2 ^ (e + 400)); [|lia].
  etrans; [|apply Z.mul_le_mono_nonneg_r; [apply Z.pow_nonneg; lia|exact Hd]].
  rewrite <- !Z.pow_add_r by lia. apply Z.pow_le_mono_r; lia.
Qed.

(** The result of rounding a value of magnitude at most 1000. *)
Lemma round_bound sx m e : -300 <= e -> scaled (Z.pos m) e <= 1000 * 2 ^ 400 ->
  match binary_round_aux 24 128 sx (Z.pos m) e loc_Exact with
  | S754_zero s => s = sx
  | S754_finite s m' e' => s = sx /\ -300 <= e' /\ scaled (Z.pos m') e' < 1001 * 2 ^ 400
  | _ => False
  end.
Proof.
  intros He Hm. unfold binary_round_aux, shr_fexp. cbn [shr_record_of_loc Zdigits2].
  set (e1 := fexp 24 128 (Z.pos (digits2_pos m) + e)).
  pose proof (shr_scaled (Build_shr_record (Z.pos m) false false) e (e1 - e)
    ltac:(cbn; lia) ltac:(lia)) as S1.
  pose proof (shr_exact (Z.pos m) e (e1 - e)) as X1.
  pose proof (rounding_unit m e He) as HU. cbn zeta in HU. fold e1 in HU. specialize (HU Hm).
  destruct (shr _ e (e1 - e)) as [r1 e1'] eqn:Es. destruct S1 as (E1 & Hr1 & Hs1).
  cbn [shr_m] in Hs1.
  set (m1 := round_nearest_even (shr_m r1) (loc_of_shr_record r1)).
  assert (0 <= m1 /\ scaled m1 e1' < 1001 * 2 ^ 400) as [Hm1 Hs2].
  { pose proof (round_nearest_even_le (shr_m r1) (loc_of_shr_record r1)) as Hre. fold m1 in Hre.
    split; [lia|]. destruct (Z.le_gt_cases (e1 - e) 0) as [Hn|Hn].
    - specialize (X1 Hn). injection X1 as -> ->. cbn in m1. unfold m1. lia.
    - specialize (HU ltac:(lia)). replace e1' with e1 in * by lia.
      assert (scaled m1 e1 <= scaled (shr_m r1) e1 + 2 ^ (e1 + 400)); [|lia].
      unfold scaled. rewrite <- Z.mul_succ_l. apply Z.mul_le_mono_nonneg_r; [|lia].
      apply Z.pow_nonneg. lia. }
  set (n2 := fexp 24 128 (Zdigits2 m1 + e1') - e1').
  pose proof (shr_scaled (Build_shr_record m1 false false) e1' n2 Hm1 ltac:(lia)) as S2.
  destruct (shr _ e1' n2) as [r2 e2]. destruct S2 as (E2 & Hr2 & Hs3). cbn [shr_m] in Hs3.
  destruct (shr_m r2) as [|m2|m2]; [done| |lia].
  destruct (e2 <=? 128 - 24) eqn:Eb; bool_to_prop; [split_and!; [done|lia|lia]|].
  unfold scaled in *.
  assert (2 ^ (24 + 400) <= Z.pos m2 * 2 ^ (e2 + 400)); [|lia].
  rewrite <- (Z.mul_1_l (2 ^ (24 + 400))). apply Z.mul_le_mono_nonneg; [lia|lia|lia|].
  apply Z.pow_le_mono_r; lia.
Qed.

Lemma to_int_bound s m e : -300 <= e -> scaled (Z.pos m) e < 1001 * 2 ^ 400 ->
  exists v, f32_to_int (S754_finite s m e) = Some v /\ Z.abs v <= 1000 /\
            (s = false -> 0 <= v).
Proof.
  intros He Hm. cbn [f32_to_int].
  set (a := if 0 <=? e then Z.pos m * 2 ^ e else Z.pos m / 2 ^ (- e)).
  assert (0 <= a <= 1000) as Ha.
  { unfold a, scaled in *. destruct (0 <=? e) eqn:E; bool_to_prop.
    - split; [apply Z.mul_nonneg_nonneg; lia|]. rewrite Z.pow_add_r, Z.mul_assoc in Hm by lia.
      apply Z.mul_lt_mono_pos_r in Hm; lia.
    - assert (0 < 2 ^ (- e)) by (apply Z.pow_pos_nonneg; lia).
      split; [apply Z.div_pos; lia|]. apply Z.lt_succ_r. apply Z.div_lt_upper_bound; [done|].
      assert (2 ^ 400 = 2 ^ (- e) * 2 ^ (e + 400)) as E4
        by (rewrite <- Z.pow_add_r by lia; f_equal; lia).
      rewrite E4, Z.mul_assoc in Hm.
      apply Z.mul_lt_mono_pos_r in Hm; [lia|]. apply Z.pow_pos_nonneg; lia. }
  clearbody a. exists (if s then - a else a).
  assert ((- 2 ^ 31 <=? (if s then - a else a)) && ((if s then - a else a) <? 2 ^ 31) = true)%bool
    as ->; [|split_and!; [done|destruct s; lia|intros ->; lia]].
  apply andb_true_iff. split; [apply Z.leb_le|apply Z.ltb_lt]; destruct s; lia.
Qed.

(** The order of positive floats, on their representation. *)
Lemma SFltb_pos M E m e :
  SFltb (S754_finite false M E) (S754_finite false m e) = true <->
  E < e \/ (E = e /\ (M < m)%positive).
Proof.
  unfold SFltb, SFcompare. change (Pos.compare_cont Eq M m) with (M ?= m)%positive.
  destruct (Z.compare_spec E e) as [->|H|H].
  - destruct (Pos.compare_spec M m); split; try done; intros; (right + lia); lia.
  - split; [by left|done].
  - split; [done|lia].
Qed.

Lemma SFltb_neg M E m e :
  SFltb (S754_finite true M E) (S754_finite true m e) =
  SFltb (S754_finite false m e) (S754_finite false M E).
Proof.
  unfold SFltb, SFcompare.
  change (Pos.compare_cont Eq M m) with (M ?= m)%positive.
  change (Pos.compare_cont Eq m M) with (m ?= M)%positive.
  rewrite (Z.compare_antisym E e), (Pos.compare_antisym M m).
  destruct (E ?= e); [|done|done]. by destruct (M ?= m)%positive.
Qed.

(** A mantissa and exponent below those of 100.0. *)
Lemma lt_100_scaled m e : canonical_mantissa 24 128 m e = true ->
  SFltb (S754_finite false m e) f32_100 = true ->
  -149 <= e /\ scaled (Z.pos m) e <= 100 * 2 ^ 400.
Proof.
  unfold canonical_mantissa, fexp, emin, f32_100. intros Hc%Z.eqb_eq Hle%SFltb_pos.
  unfold scaled. destruct (digits2_pos_bound m) as [_ Hd].
  assert (-149 <= e) as He by (clear -Hc; lia). split; [done|].
  destruct Hle as [Hlt|[-> Hm]].
  - assert (Z.pos m < 2 ^ 24) as H24.
    { eapply Z.lt_le_trans; [exact Hd|]. apply Z.pow_le_mono_r; clear -Hc; lia. }
    etrans; [apply Z.mul_le_mono_nonneg_r; [apply Z.pow_nonneg; lia|apply Z.lt_le_incl, H24]|].
    rewrite <- Z.pow_add_r by lia. etrans; [apply (Z.pow_le_mono_r 2 _ 406); lia|].
    vm_compute. discriminate.
  - assert (100 * 2 ^ 400 = 13107200 * 2 ^ (-17 + 400)) as -> by (by vm_compute).
    apply Z.mul_le_mono_nonneg_r; [vm_compute; discriminate|].
    by apply Z.lt_le_incl, Pos2Z.pos_lt_pos.
Qed.

(** A value of magnitude at most 100. *)
Definition small_f32 (y : f32) : Prop :=
  match y with
  | S754_zero _ => True
  | S754_finite _ m e => -149 <= e /\ scaled (Z.pos m) e <= 100 * 2 ^ 400
  | _ => False
  end.

Lemma clamp_small x : f32_valid x = true ->
  small_f32 (std_min f32_100 (std_max f32_m100 x)).
Proof.
  assert (small_f32 f32_100 /\ small_f32 f32_m100) as [H100 Hm100].
  { split; (split; [cbn; lia|vm_compute; discriminate]). }
  assert (std_min f32_100 f32_m100 = f32_m100) as Em by (by vm_compute).
  intros Hx. destruct x as [s|s| |s m e].
  - by destruct s; vm_compute.
  - destruct s; [exact Hm100 | exact H100].
  - exact Hm100.
  - unfold f32_valid, valid_binary, bounded in Hx. apply andb_true_iff in Hx as [Hc _].
    unfold std_max, f32_lt. destruct s.
    + destruct (SFltb f32_m100 (S754_finite true m e)) eqn:E; [|by rewrite Em].
      change (std_min f32_100 (S754_finite true m e)) with (S754_finite true m e).
      unfold f32_m100 in E. rewrite SFltb_neg in E. by apply lt_100_scaled.
    + change (SFltb f32_m100 (S754_finite false m e)) with true. cbn [std_min].
      unfold std_min, f32_lt. destruct (SFltb (S754_finite false m e) f32_100) eqn:E; [|done].
      by apply lt_100_scaled.
Qed.

(** The load factor of the discovery response, clamped and scaled, converts to
    an integer between -1000 and 1000. *)
Lemma load_factor_bound x : f32_valid x = true ->
  exists v, f32_to_int (f32_mul f32_10 (std_min f32_100 (std_max f32_m100 x))) = Some v /\
    Z.abs v <= 1000.
Proof.
  intros Hx%clamp_small. destruct (std_min _ _) as [s|s| |s m e]; [by exists 0|done|done|].
  destruct Hx as [He Hm].
  change (f32_mul f32_10 (S754_finite s m e)) with
    (binary_round_aux 24 128 s (Z.pos (10485760 * m)) (-20 + e) loc_Exact).
  pose proof (round_bound s (10485760 * m) (-20 + e) ltac:(lia)) as R.
  assert (scaled (Z.pos (10485760 * m)) (-20 + e) <= 1000 * 2 ^ 400) as Hs.
  { unfold scaled in *. rewrite Pos2Z.inj_mul.
    replace (e + 400) with (20 + (-20 + e + 400)) in Hm by lia.
    rewrite Z.pow_add_r in Hm by lia. lia. }
  specialize (R Hs). destruct (binary_round_aux _ _ _ _ _ _) as [s'|s'| |s' m' e'];
    [by exists 0|done|done|].
  destruct R as (-> & He' & Hm').
  destruct (to_int_bound s m' e' He' Hm') as (v & -> & Hv & _). by exists v.
Qed.
