(* ===== verification/Float64.v ===== *)
(** * Double-precision arithmetic

    The [double] operations of the retry backoff: sums, products, [std::clamp] and
    the conversion to an integer, on IEEE binary64 values (the Standard Library's
    [SpecFloat] with 53 bits of precision).  [below V] bounds a value by 2^V; the
    operations are shown to keep such bounds, so that what is clamped is a
    number. *)

From Stdlib Require Import SpecFloat.
From S2P Require Import Prelude Float32.

Abbreviation f64 := spec_float.

Definition f64_mul : f64 -> f64 -> f64 := SFmul 53 1024.
Definition f64_add : f64 -> f64 -> f64 := SFadd 53 1024.
Definition f64_sub : f64 -> f64 -> f64 := SFsub 53 1024.
Definition f64_of_Z (n : Z) : f64 := binary_normalize 53 1024 n 0 false.
Definition f64_valid : f64 -> bool := valid_binary 53 1024.

(** [std::clamp(v, lo, hi)]. *)
Definition f64_clamp (v lo hi : f64) : f64 :=
  if SFltb v lo then lo else if SFltb hi v then hi else v.

(** [static_cast<std::int64_t>]: truncation towards zero ([None]: undefined). *)
Definition f64_to_int (x : f64) : option Z :=
  match x with
  | S754_zero _ => Some 0
  | S754_finite s m e =>
      let v := if 0 <=? e then Z.pos m * 2 ^ e else Z.pos m / 2 ^ (- e) in
      let v := if s then - v else v in
      if ((- 2 ^ 63 <=? v) && (v <? 2 ^ 63))%bool then Some v else None
  | _ => None
  end.

Definition f64_0 : f64 := S754_zero false.
Definition f64_1 : f64 := S754_finite false 4503599627370496 (-52).

(** A number of magnitude under 2^V. *)
Definition below (V : Z) (x : f64) : Prop :=
  match x with
  | S754_zero _ => True
  | S754_finite _ m e => Z.pos m < 2 ^ (V - e) /\ Z.pos m < 2 ^ 53
  | _ => False
  end.

Lemma pow_pos_exp a b : 0 < a -> a < 2 ^ b -> 0 <= b.
Proof. intros Ha Hb. apply Z.nlt_ge. intros H. rewrite Z.pow_neg_r in Hb by done. lia. Qed.

Lemma below_mono V V' x : V <= V' -> below V x -> below V' x.
Proof.
  intros HV. destruct x as [| | |s m e]; cbn; try done. intros [H1 H2]. split; [|done].
  eapply Z.lt_le_trans; [exact H1|]. apply Z.pow_le_mono_r; lia.
Qed.

Lemma Zdigits2_bound m : 0 <= m -> m < 2 ^ Zdigits2 m /\ 0 <= Zdigits2 m /\
  (0 < m -> 2 ^ (Zdigits2 m - 1) <= m).
Proof.
  destruct m as [|p|p]; [done| |lia]. intros _. destruct (digits2_pos_bound p) as [H1 H2].
  cbn [Zdigits2]. split_and!; [lia|lia|intros _; exact H1].
Qed.

(** One shift of the rounding. *)
Lemma shr_below m e V : 0 <= m < 2 ^ (V - e) -> 0 <= V ->
  let '(r, e') := shr_fexp 53 1024 m e loc_Exact in
  0 <= shr_m r < 2 ^ (V - e') /\ e' <= V /\ shr_m r < 2 ^ 53.
Proof.
  intros [Hm Hlt] HV. unfold shr_fexp. cbn [shr_record_of_loc].
  destruct (Zdigits2_bound m Hm) as (D1 & D2 & D3). set (d := Zdigits2 m) in *.
  assert (e <= V) as He.
  { apply Z.nlt_ge. intros H. rewrite Z.pow_neg_r in Hlt by lia. lia. }
  assert (d + e <= V) as Hd.
  { destruct (Z.eq_dec m 0) as [->|Hn]; [cbn in d; subst d; lia|].
    specialize (D3 ltac:(lia)). assert (d - 1 < V - e); [|lia].
    apply (Z.pow_lt_mono_r_iff 2); lia. }
  unfold fexp, emin. set (k := Z.max (d + e - 53) (3 - 1024 - 53) - e).
  assert (d - 53 <= k) as Hk by (unfold k; lia). assert (e + k <= V) as Hek by (unfold k; lia).
  destruct k as [|p|p] eqn:Ek; cbn [shr shr_m].
  1,3: split_and!; [done|done|done|]; eapply Z.lt_le_trans; [exact D1|];
    apply Z.pow_le_mono_r; lia.
  rewrite iter_shr_m by done. cbn [shr_m].
  assert (0 < 2 ^ Z.pos p) by (apply Z.pow_pos_nonneg; lia).
  split_and!; [by apply Z.div_pos| |done|].
  - apply Z.div_lt_upper_bound; [done|]. rewrite <- Z.pow_add_r by lia.
    by replace (Z.pos p + (V - (e + Z.pos p))) with (V - e) by lia.
  - apply Z.div_lt_upper_bound; [done|]. rewrite <- Z.pow_add_r by lia.
    eapply Z.lt_le_trans; [exact D1|]. apply Z.pow_le_mono_r; lia.
Qed.

Lemma round_below sx m e V : 0 <= m < 2 ^ (V - e) -> 0 <= V <= 900 ->
  below (V + 1) (binary_round_aux 53 1024 sx m e loc_Exact).
Proof.
  intros Hm HV. unfold binary_round_aux. pose proof (shr_below m e V Hm ltac:(lia)) as S1.
  destruct (shr_fexp 53 1024 m e loc_Exact) as [r1 e1]. destruct S1 as ([H1 H2] & He1 & _).
  set (m1 := round_nearest_even _ _).
  pose proof (round_nearest_even_le (shr_m r1) (loc_of_shr_record r1)) as Hr. fold m1 in Hr.
  assert (0 <= m1 < 2 ^ (V + 1 - e1)) as Hm1.
  { split; [lia|]. replace (V + 1 - e1) with (Z.succ (V - e1)) by lia. rewrite Z.pow_succ_r; lia. }
  pose proof (shr_below m1 e1 (V + 1) Hm1 ltac:(lia)) as S2.
  destruct (shr_fexp 53 1024 m1 e1 loc_Exact) as [r2 e2]. destruct S2 as (H3 & He2 & H4).
  destruct (shr_m r2) as [|p|p]; [done| |lia].
  rewrite (proj2 (Z.leb_le _ _)) by lia. destruct H3. by split.
Qed.

Lemma f64_mul_below V V' x y : below V x -> below V' y -> 0 <= V + V' <= 900 ->
  below (V + V' + 1) (f64_mul x y).
Proof.
  intros Hx Hy HV. destruct x as [sx| | |sx mx ex], y as [sy| | |sy my ey]; try done.
  destruct Hx as [Hx Hx'], Hy as [Hy Hy']. apply round_below; [|done].
  pose proof (pow_pos_exp _ _ (Pos2Z.is_pos mx) Hx). pose proof (pow_pos_exp _ _ (Pos2Z.is_pos my) Hy).
  split; [lia|]. rewrite Pos2Z.inj_mul.
  replace (V + V' - (ex + ey)) with ((V - ex) + (V' - ey)) by lia. rewrite Z.pow_add_r by lia.
  apply Z.mul_lt_mono_nonneg; lia.
Qed.

Lemma iter_xO p m : Z.pos (Pos.iter xO m p) = Z.pos m * 2 ^ Z.pos p.
Proof.
  induction p as [|p IH] using Pos.peano_ind; [cbn; lia|]. rewrite Pos.iter_succ.
  rewrite (Pos2Z.inj_xO (Pos.iter _ _ _)), IH, Pos2Z.inj_succ, Z.pow_succ_r by lia. ring.
Qed.

(** Aligning a mantissa to a smaller exponent keeps the value. *)
Lemma shl_align_below m e e' V : Z.pos m < 2 ^ (V - e) ->
  let '(m', e1) := shl_align m e e' in Z.pos m' < 2 ^ (V - e1) /\ (e' <= e -> e1 = e').
Proof.
  intros Hm. pose proof (pow_pos_exp _ _ (Pos2Z.is_pos m) Hm). unfold shl_align.
  destruct (e' - e) as [|p|p] eqn:Ee; [split; [done|lia]|split; [done|lia]|].
  split; [|done]. rewrite iter_xO.
  replace (V - e') with ((V - e) + Z.pos p) by lia. rewrite Z.pow_add_r by lia.
  apply Z.mul_lt_mono_pos_r; [apply Z.pow_pos_nonneg; lia|done].
Qed.

Lemma normalize_below n e V : Z.abs n < 2 ^ (V - e) -> 0 <= V <= 900 ->
  below (V + 1) (binary_normalize 53 1024 n e false).
Proof.
  intros Hn HV. unfold binary_normalize, binary_round.
  destruct n as [|m|m]; [done| |]; cbn [Z.abs] in Hn;
    pose proof (shl_align_below m e (fexp 53 1024 (Z.pos (digits2_pos m) + e)) V Hn) as Hs;
    destruct (shl_align m e _) as [m' e1]; destruct Hs as [Hs _]; by apply round_below.
Qed.

Lemma sum_below V x y (op : Z -> Z -> Z) : (forall a b, Z.abs (op a b) <= Z.abs a + Z.abs b) ->
  match x, y with
  | S754_finite sx mx ex, S754_finite sy my ey =>
      below V x -> below V y -> 0 <= V <= 899 ->
      let ez := Z.min ex ey in
      below (V + 2) (binary_normalize 53 1024
        (op (cond_Zopp sx (Z.pos (fst (shl_align mx ex ez))))
            (cond_Zopp sy (Z.pos (fst (shl_align my ey ez))))) ez false)
  | _, _ => True
  end.
Proof.
  intros Hop. destruct x as [| | |sx mx ex], y as [| | |sy my ey]; try done.
  intros [Hx _] [Hy _] HV ez. replace (V + 2) with (V + 1 + 1) by lia.
  apply normalize_below; [|lia].
  pose proof (shl_align_below mx ex ez V Hx) as Sx. pose proof (shl_align_below my ey ez V Hy) as Sy.
  destruct (shl_align mx ex ez) as [m1 e1], (shl_align my ey ez) as [m2 e2].
  destruct Sx as [Sx Ex], Sy as [Sy Ey]. rewrite Ex in Sx by lia. rewrite Ey in Sy by lia. cbn [fst].
  eapply Z.le_lt_trans; [apply Hop|].
  assert (Z.abs (cond_Zopp sx (Z.pos m1)) = Z.pos m1) as -> by (by destruct sx).
  assert (Z.abs (cond_Zopp sy (Z.pos m2)) = Z.pos m2) as -> by (by destruct sy).
  pose proof (pow_pos_exp _ _ (Pos2Z.is_pos m1) Sx).
  replace (V + 1 - ez) with (Z.succ (V - ez)) by lia. rewrite Z.pow_succ_r; lia.
Qed.

Lemma f64_add_below V x y : below V x -> below V y -> 0 <= V <= 899 -> below (V + 2) (f64_add x y).
Proof.
  intros Hx Hy HV. pose proof (sum_below V x y Z.add ltac:(lia)) as S.
  destruct x as [sx| | |sx mx ex], y as [sy| | |sy my ey]; try done; cbn in *.
  - by destruct sx, sy.
  - apply (below_mono V (V + 2) (S754_finite sy my ey)); [lia|done].
  - apply (below_mono V (V + 2) (S754_finite sx mx ex)); [lia|done].
  - by apply S.
Qed.

Lemma f64_sub_below V x y : below V x -> below V y -> 0 <= V <= 899 -> below (V + 2) (f64_sub x y).
Proof.
  intros Hx Hy HV. pose proof (sum_below V x y Z.sub ltac:(lia)) as S.
  destruct x as [sx| | |sx mx ex], y as [sy| | |sy my ey]; try done; cbn in *.
  - by destruct sx, sy.
  - apply (below_mono V (V + 2) (S754_finite (negb sy) my ey)); [lia|done].
  - apply (below_mono V (V + 2) (S754_finite sx mx ex)); [lia|done].
  - by apply S.
Qed.

Lemma f64_of_Z_below n V : 0 <= n < 2 ^ V -> 0 <= V <= 900 -> below (V + 1) (f64_of_Z n).
Proof. intros Hn HV. apply normalize_below; [|done]. rewrite Z.sub_0_r. lia. Qed.

(** ** Clamping *)

(** A valid number that is not above another one of full precision. *)
Lemma not_above M E m e : 2 ^ 52 <= Z.pos M -> Z.pos m < 2 ^ 53 ->
  SFltb (S754_finite false M E) (S754_finite false m e) = false ->
  e < E \/ (e = E /\ Z.pos m <= Z.pos M).
Proof.
  intros HM Hm H. apply not_true_iff_false in H. rewrite SFltb_pos in H. lia.
Qed.

Lemma clamp_unit x : f64_valid x = true -> x <> S754_nan -> below 1 (f64_clamp x f64_0 f64_1).
Proof.
  intros Hv Hn. unfold f64_clamp. destruct (SFltb x f64_0) eqn:E0; [done|].
  destruct (SFltb f64_1 x) eqn:E1; [by vm_compute|].
  destruct x as [s|s| |s m e]; [done|by destruct s|done|]. destruct s; [done|].
  assert (Z.pos m < 2 ^ 53) as Hm.
  { cbn in Hv. apply andb_true_iff in Hv as [Hc _]. unfold canonical_mantissa, fexp in Hc.
    apply Z.eqb_eq in Hc. destruct (digits2_pos_bound m) as [_ Hd].
    eapply Z.lt_le_trans; [exact Hd|]. apply Z.pow_le_mono_r; lia. }
  split; [|done]. destruct (not_above 4503599627370496 (-52) m e ltac:(lia) Hm E1) as [He|[-> Hle]].
  - eapply Z.lt_le_trans; [exact Hm|]. apply Z.pow_le_mono_r; lia.
  - eapply Z.le_lt_trans; [exact Hle|]. lia.
Qed.
