(* ===== verification/Endpoints.v ===== *)
(** * Endpoint election

    [TEndpointElectorSafe], its object registries and [TEndpointObj] of
    [src/src/client/impl/endpoints/endpoints.cpp] and [endpoints.h].

    The elector, the registries its maps share with the linked objects and the
    objects' own registry pointers live in one state, [elector]; the mutexes of
    the code make each method one atomic step of it.  [Sort] is any sorting
    function for the order of [operator<] on records (class [SortLaws]), since
    [std::sort] leaves the order of equal priorities open. *)

From S2P Require Import Prelude.

Record TEndpointRecord := mkRecord {
  Endpoint : string;
  Priority : Z;                      (* std::int32_t *)
  SslTargetNameOverride : string;
  NodeId : Z;                        (* std::uint64_t *)
  Location : string
}.

#[export] Instance TEndpointRecord_eq_dec : EqDecision TEndpointRecord.
Proof. solve_decision. Defined.

Definition TEndpointRecord_default : TEndpointRecord := mkRecord "" 0 "" 0 "".

(** [explicit operator bool]. *)
Definition record_valid (r : TEndpointRecord) : bool :=
  negb (String.eqb (Endpoint r) "").

(** [operator<]. *)
Definition record_lt (a b : TEndpointRecord) : bool := Priority a <? Priority b.

Record TEndpointKey := mkKey { key_Endpoint : string; key_NodeId : Z }.

Definition TEndpointKey_default : TEndpointKey := mkKey "" 0.
Definition TEndpointKey_of_node (nodeId : Z) : TEndpointKey := mkKey "" nodeId.

(** Objects, tags and registries are addresses. *)
Abbreviation obj := positive.
Abbreviation tag := positive.
Abbreviation reg := positive.

Record TObjRegistry := mkRegistry { Objs : gset obj; registry_NodeId : Z }.

Record TKnownEndpoint := mkKnown {
  known_Record : TEndpointRecord;
  TaggedObjs : gmap tag reg
}.

Record elector := mkElector {
  Records : list TEndpointRecord;
  KnownEndpoints : gmap string TEndpointRecord;
  KnownEndpointsByNodeId : gmap Z TKnownEndpoint;
  BestK : Z;
  PessimizationRatio : Z;
  (* gauges: [None] until SetStatCollector installs them *)
  EndpointCountGauge : option Z;
  PessimizationRatioGauge : option Z;
  EndpointActiveGauge : option Z;
  (* the registries alive, the ObjRegistry_ of each object, and the calls of
     OnEndpointRemoved made so far *)
  registries : gmap reg TObjRegistry;
  ObjRegistry : gmap obj reg;
  notified : list obj
}.

Definition elector0 : elector := mkElector [] ∅ ∅ (-1) 0 None None None ∅ ∅ [].

(** Assignments to the members. *)
Definition set_Records (v : list TEndpointRecord) (e : elector) : elector :=
  mkElector v (KnownEndpoints e) (KnownEndpointsByNodeId e) (BestK e) (PessimizationRatio e)
    (EndpointCountGauge e) (PessimizationRatioGauge e) (EndpointActiveGauge e)
    (registries e) (ObjRegistry e) (notified e).
Definition set_Known (v : gmap string TEndpointRecord) (w : gmap Z TKnownEndpoint)
    (e : elector) : elector :=
  mkElector (Records e) v w (BestK e) (PessimizationRatio e)
    (EndpointCountGauge e) (PessimizationRatioGauge e) (EndpointActiveGauge e)
    (registries e) (ObjRegistry e) (notified e).
Definition set_BestK (v : Z) (e : elector) : elector :=
  mkElector (Records e) (KnownEndpoints e) (KnownEndpointsByNodeId e) v (PessimizationRatio e)
    (EndpointCountGauge e) (PessimizationRatioGauge e) (EndpointActiveGauge e)
    (registries e) (ObjRegistry e) (notified e).
Definition set_ratio (v : Z) (count ratio active : option Z) (e : elector) : elector :=
  mkElector (Records e) (KnownEndpoints e) (KnownEndpointsByNodeId e) (BestK e) v
    count ratio active (registries e) (ObjRegistry e) (notified e).
Definition set_objs (v : gmap reg TObjRegistry) (w : gmap obj reg) (e : elector) : elector :=
  mkElector (Records e) (KnownEndpoints e) (KnownEndpointsByNodeId e) (BestK e)
    (PessimizationRatio e) (EndpointCountGauge e) (PessimizationRatioGauge e)
    (EndpointActiveGauge e) v w (notified e).
Definition set_notified (v : list obj) (e : elector) : elector :=
  mkElector (Records e) (KnownEndpoints e) (KnownEndpointsByNodeId e) (BestK e)
    (PessimizationRatio e) (EndpointCountGauge e) (PessimizationRatioGauge e)
    (EndpointActiveGauge e) (registries e) (ObjRegistry e) v.

(** [Sort(begin, end)]: [std::sort] with [operator<]. *)
Class Sorter := Sort : list TEndpointRecord -> list TEndpointRecord.

Definition by_priority (a b : TEndpointRecord) : Prop := record_lt b a = false.

Class SortLaws `{Sorter} : Prop := {
  sort_perm : forall l, Sort l ≡ₚ l;
  sort_sorted : forall l, StronglySorted by_priority (Sort l)
}.

(** A stable insertion sort is one such function. *)
Fixpoint insert_record (r : TEndpointRecord) (l : list TEndpointRecord) :=
  match l with
  | [] => [r]
  | x :: l' => if record_lt r x then r :: l else x :: insert_record r l'
  end.

#[export] Instance insertion_sorter : Sorter := foldr insert_record [].

Definition PessimizedPriority : Z := 2 ^ 31 - 1.

Fixpoint best_pos (bestPriority : Z) (pos : Z) (rest : list TEndpointRecord) : Z :=
  match rest with
  | [] => pos
  | r :: rest =>
      if negb (Priority r =? bestPriority) then pos
      else best_pos bestPriority (pos + 1) rest
  end.

Definition GetBestK (records : list TEndpointRecord) : Z :=
  match records with
  | [] => -1
  | r :: rest => wrapS 32 (best_pos (Priority r) 1 rest - 1)
  end.

(** ** Object registries and the objects linked to them *)

Definition get_registry (g : reg) : M elector TObjRegistry :=
  e ← get_st;
  match registries e !! g with
  | Some R => mret R
  | None => abort "dangling registry"
  end.

Definition put_registry (g : reg) (R : TObjRegistry) : M elector unit :=
  modify (fun e => set_objs (<[g := R]> (registries e)) (ObjRegistry e) e).

(** [TObjRegistry::Add]: was the object inserted? *)
Definition registry_Add (g : reg) (o : obj) : M elector bool :=
  R ← get_registry g;
  put_registry g (mkRegistry ({[o]} ∪ Objs R) (registry_NodeId R)) ;;
  mret (negb (bool_decide (o ∈ Objs R))).

Definition registry_Remove (g : reg) (o : obj) : M elector unit :=
  R ← get_registry g;
  abort_unless (bool_decide (o ∈ Objs R)) "Objs_.find(obj) != Objs_.end()" ;;
  put_registry g (mkRegistry (Objs R ∖ {[o]}) (registry_NodeId R)).

(** [obj->OnEndpointRemoved()]. *)
Definition OnEndpointRemoved (o : obj) : M elector unit :=
  modify (fun e => set_notified (notified e ++ [o]) e).

Definition NotifyEndpointRemoved (g : reg) : M elector unit :=
  R ← get_registry g;
  for_each OnEndpointRemoved (elements (Objs R)).

Definition registry_Size (R : TObjRegistry) : Z := Z.of_nat (size (Objs R)).

Definition Link (o : obj) (g : reg) : M elector bool :=
  added ← registry_Add g o;
  if (added : bool) then
    e ← get_st;
    match ObjRegistry e !! o with
    | Some g' => registry_Remove g' o
    | None => mret tt
    end ;;
    modify (fun e => set_objs (registries e) (<[o := g]> (ObjRegistry e)) e) ;;
    mret true
  else mret false.

Definition Unlink (o : obj) : M elector unit :=
  e ← get_st;
  match ObjRegistry e !! o with
  | Some g => registry_Remove g o
  | None => mret tt
  end ;;
  modify (fun e => set_objs (registries e) (delete o (ObjRegistry e)) e).

(** [ObjectCount] dereferences the registry; [ObjectRegistred] tests it. *)
Definition ObjectCount (e : elector) (o : obj) : option Z :=
  g ← ObjRegistry e !! o; R ← registries e !! g; mret (registry_Size R).

Definition ObjectRegistred (e : elector) (o : obj) : bool :=
  bool_decide (is_Some (ObjRegistry e !! o)).

(** ** The elector *)

(** The first loop of [SetNewState]: keep the first record of each endpoint;
    [index] is the set of endpoints seen. *)
Fixpoint uniq_records (index : gset string) (records : list TEndpointRecord)
    : gset string * list TEndpointRecord :=
  match records with
  | [] => (index, [])
  | r :: rest =>
      if decide (Endpoint r ∈ index) then uniq_records index rest
      else
        let '(index', uniqRec) := uniq_records ({[Endpoint r]} ∪ index) rest in
        (index', r :: uniqRec)
  end.

(** The loop over [Records_] that drops the endpoints not in [index]. *)
Fixpoint remove_missing (index : gset string) (records : list TEndpointRecord)
    (removed : list string) (notifyRemoved : list reg)
    : M elector (list string * list reg) :=
  match records with
  | [] => mret (removed, notifyRemoved)
  | r :: rest =>
      if decide (Endpoint r ∈ index) then remove_missing index rest removed notifyRemoved
      else
        e ← get_st;
        abort_unless (bool_decide (is_Some (KnownEndpoints e !! Endpoint r)))
          "it != KnownEndpoints_.end()" ;;
        modify (fun e =>
          set_Known (delete (Endpoint r) (KnownEndpoints e)) (KnownEndpointsByNodeId e) e) ;;
        match KnownEndpointsByNodeId e !! NodeId r with
        | Some k =>
            modify (fun e =>
              set_Known (KnownEndpoints e) (delete (NodeId r) (KnownEndpointsByNodeId e)) e) ;;
            remove_missing index rest (removed ++ [Endpoint r])
              (notifyRemoved ++ (map_to_list (TaggedObjs k)).*2)
        | None => remove_missing index rest (removed ++ [Endpoint r]) notifyRemoved
        end
  end.

(** [KnownEndpoints_[...] = record; KnownEndpointsByNodeId_[...].Record = record]. *)
Definition add_record (e : elector) (r : TEndpointRecord) : elector :=
  set_Known (<[Endpoint r := r]> (KnownEndpoints e))
    (<[NodeId r := mkKnown r
         (from_option TaggedObjs ∅ (KnownEndpointsByNodeId e !! NodeId r))]>
       (KnownEndpointsByNodeId e)) e.

Section elector.
Context `{Sorter}.

Definition SetNewState (records : list TEndpointRecord) : M elector (list string) :=
  let '(index, uniqRec) := uniq_records ∅ records in
  let uniqRec := Sort uniqRec in
  let bestK := GetBestK uniqRec in
  e ← get_st;
  p ← remove_missing index (Records e) [] [];
  modify (set_Records uniqRec) ;;
  modify (fun e => fold_left add_record uniqRec e) ;;
  e ← get_st;
  abort_unless (bool_decide (length (Records e) = size (KnownEndpoints e)))
    "Records_.size() == KnownEndpoints_.size()" ;;
  let n := Z.of_nat (length (Records e)) in
  modify (set_BestK bestK) ;;
  modify (fun e => set_ratio 0 (const n <$> EndpointCountGauge e)
                     (const 0 <$> PessimizationRatioGauge e)
                     (const n <$> EndpointActiveGauge e) e) ;;
  for_each NotifyEndpointRemoved (snd p) ;;
  mret (fst p).

(** [Records_[idx]] is [None] outside the vector. *)
Definition GetEndpoint (RandomNumber : Z -> Z) (e : elector) (preferredEndpoint : TEndpointKey)
    (onlyPreferred : bool) : option TEndpointRecord :=
  let by_node :=
    if negb (key_NodeId preferredEndpoint =? 0)
    then KnownEndpointsByNodeId e !! key_NodeId preferredEndpoint else None in
  let by_endpoint :=
    if negb (String.eqb (key_Endpoint preferredEndpoint) "")
    then KnownEndpoints e !! key_Endpoint preferredEndpoint else None in
  match by_node, by_endpoint with
  | Some k, _ => Some (known_Record k)
  | None, Some r => Some r
  | None, None =>
      if onlyPreferred then Some TEndpointRecord_default
      else if BestK e =? -1 then Some TEndpointRecord_default
      else Records e !! Z.to_nat (RandomNumber (BestK e + 1))
  end.

Definition pessimize (r : TEndpointRecord) : TEndpointRecord :=
  mkRecord (Endpoint r) PessimizedPriority (SslTargetNameOverride r) (NodeId r) (Location r).

(** [find_if] of [PessimizeEndpointUnlocked]. *)
Definition pessimizable (endpoint : string) (r : TEndpointRecord) : bool :=
  (String.eqb (Endpoint r) endpoint && negb (Priority r =? PessimizedPriority))%bool.

Fixpoint find_record (p : TEndpointRecord -> bool) (i : nat) (l : list TEndpointRecord)
    : option (nat * TEndpointRecord) :=
  match l with
  | [] => None
  | r :: l => if p r then Some (i, r) else find_record p (S i) l
  end.

Definition new_ratio (ratio n : Z) : Z := wrapS 32 (u64 (u64 (ratio * n) + 100) / n).

Definition PessimizeEndpointUnlocked (endpoint : string) : M elector bool :=
  e ← get_st;
  match find_record (pessimizable endpoint) 0 (Records e) with
  | None => mret false
  | Some (i, r) =>
      let nodeId := NodeId r in
      modify (set_Records (<[i := pessimize r]> (Records e))) ;;
      modify (fun e => set_Known (alter pessimize endpoint (KnownEndpoints e))
                         (KnownEndpointsByNodeId e) e) ;;
      modify (fun e => set_Known (KnownEndpoints e)
        (alter (fun k => if String.eqb (Endpoint (known_Record k)) endpoint
                         then mkKnown (pessimize (known_Record k)) (TaggedObjs k) else k)
               nodeId (KnownEndpointsByNodeId e)) e) ;;
      modify (fun e =>
        let newRatio := new_ratio (PessimizationRatio e) (Z.of_nat (length (Records e))) in
        set_ratio newRatio (EndpointCountGauge e)
          (const newRatio <$> PessimizationRatioGauge e)
          ((fun v => v - 1) <$> EndpointActiveGauge e) e) ;;
      mret true
  end.

(** [Sort(Records_...); BestK_ = GetBestK(Records_)]. *)
Definition resort : M elector unit :=
  modify (fun e => set_Records (Sort (Records e)) e) ;;
  modify (fun e => set_BestK (GetBestK (Records e)) e).

Definition PessimizeEndpoint (endpoint : string) : M elector unit :=
  changed ← PessimizeEndpointUnlocked endpoint;
  when changed resort.

(** The lazy view of [PessimizeNode]: the filter is evaluated on the current
    contents of [Records_[i]] when the iteration reaches it. *)
Fixpoint pessimize_node_loop (nodeId : Z) (i todo : nat) (changed : bool) : M elector bool :=
  match todo with
  | O => mret changed
  | S todo =>
      e ← get_st;
      match Records e !! i with
      | Some r =>
          if ((NodeId r =? nodeId) && negb (Priority r =? PessimizedPriority))%bool then
            c ← PessimizeEndpointUnlocked (Endpoint r);
            pessimize_node_loop nodeId (S i) todo (changed || c)
          else pessimize_node_loop nodeId (S i) todo changed
      | None => mret changed
      end
  end.

Definition PessimizeNode (nodeId : Z) : M elector unit :=
  if nodeId =? 0 then mret tt
  else
    e ← get_st;
    changed ← pessimize_node_loop nodeId 0 (length (Records e)) false;
    when changed resort.

Definition GetPessimizationRatio (e : elector) : Z := PessimizationRatio e.

Definition SetStatCollector (count ratio active : Z) (e : elector) : elector :=
  set_ratio (PessimizationRatio e) (Some count) (Some ratio) (Some active) e.

Definition LinkObjToEndpoint (endpoint : TEndpointKey) (o : obj) (t : tag) : M elector bool :=
  e ← get_st;
  match KnownEndpointsByNodeId e !! key_NodeId endpoint with
  | None => mret false
  | Some k =>
      match TaggedObjs k !! t with
      | Some g => Link o g
      | None =>
          let g := fresh (dom (registries e)) in
          put_registry g (mkRegistry ∅ (key_NodeId endpoint)) ;;
          modify (fun e => set_Known (KnownEndpoints e)
            (<[key_NodeId endpoint := mkKnown (known_Record k) (<[t := g]> (TaggedObjs k))]>
              (KnownEndpointsByNodeId e)) e) ;;
          Link o g
      end
  end.

(** [std::lower_bound] on the sorted records: the first one not below. *)
Fixpoint lower_bound (minPriority : Z) (l : list TEndpointRecord) : list TEndpointRecord :=
  match l with
  | [] => []
  | r :: l' => if Priority r <? minPriority then lower_bound minPriority l' else l
  end.

(** [ForEachEndpoint], as the callbacks it makes: node and handle size.
    [KnownEndpointsByNodeId_.at] throws on an unknown node. *)
Fixpoint foreach_loop (e : elector) (maxPriority : Z) (t : tag) (it : list TEndpointRecord)
    : outcome (list (Z * Z)) :=
  match it with
  | [] => Ok []
  | r :: rest =>
      if Priority r >? maxPriority then Ok []
      else
        match KnownEndpointsByNodeId e !! NodeId r with
        | None => Fail (Throw "std::out_of_range")
        | Some k =>
            let n := match TaggedObjs k !! t ≫= (fun g => registries e !! g) with
                     | Some R => registry_Size R
                     | None => 0
                     end in
            calls ← foreach_loop e maxPriority t rest;
            Ok ((NodeId r, n) :: calls)
        end
  end.

Definition ForEachEndpoint (e : elector) (minPriority maxPriority : Z) (t : tag)
    : outcome (list (Z * Z)) :=
  foreach_loop e maxPriority t (lower_bound minPriority (Records e)).

(** ** Histories *)

Inductive op :=
  | OpSetNewState (records : list TEndpointRecord)
  | OpPessimizeEndpoint (endpoint : string)
  | OpPessimizeNode (nodeId : Z)
  | OpSetStatCollector (count ratio active : Z)
  | OpLink (endpoint : TEndpointKey) (o : obj) (t : tag)
  | OpUnlink (o : obj).

Definition run_op (a : op) : M elector unit :=
  match a with
  | OpSetNewState records => SetNewState records ;; mret tt
  | OpPessimizeEndpoint endpoint => PessimizeEndpoint endpoint
  | OpPessimizeNode nodeId => PessimizeNode nodeId
  | OpSetStatCollector c r a => modify (SetStatCollector c r a)
  | OpLink k o t => LinkObjToEndpoint k o t ;; mret tt
  | OpUnlink o => Unlink o
  end.

(** A discovery response: fewer than 2^31 records (a protobuf message is
    smaller), none with the priority reserved for pessimized ones. *)
Definition valid_records (l : list TEndpointRecord) : Prop :=
  Z.of_nat (length l) < 2 ^ 31 /\ Forall (fun r => Priority r < PessimizedPriority) l.

Definition valid_op (a : op) : Prop :=
  match a with OpSetNewState l => valid_records l | _ => True end.

Definition reachable_elector (e : elector) : Prop :=
  exists ops, Forall valid_op ops /\ for_each run_op ops elector0 = Ok (tt, e).
End elector.

(** ** The invariant *)

Definition pess_count (l : list TEndpointRecord) : Z :=
  Z.of_nat (length (filter (fun r => Priority r = PessimizedPriority) l)).

(** The endpoint index is exactly the records.  The node index has an entry of a
    current record for the node of every record; it may also have entries of nodes
    that no record names any more, which [SetNewState] leaves behind. *)
Record elector_core (e : elector) : Prop := {
  core_nodup : NoDup (Endpoint <$> Records e);
  core_length : Z.of_nat (length (Records e)) < 2 ^ 31;
  core_priority : Forall (fun r => Priority r <= PessimizedPriority) (Records e);
  core_known : forall ep r,
    KnownEndpoints e !! ep = Some r <-> r ∈ Records e /\ Endpoint r = ep;
  core_node : forall r, r ∈ Records e ->
    exists k, KnownEndpointsByNodeId e !! NodeId r = Some k /\ known_Record k ∈ Records e;
  core_node_id : forall n k,
    KnownEndpointsByNodeId e !! n = Some k -> NodeId (known_Record k) = n;
  core_tagged : forall n k t g,
    KnownEndpointsByNodeId e !! n = Some k -> TaggedObjs k !! t = Some g ->
    exists R, registries e !! g = Some R /\ registry_NodeId R = n;
  core_links : forall o g,
    ObjRegistry e !! o = Some g <-> exists R, registries e !! g = Some R /\ o ∈ Objs R;
  core_ratio : PessimizationRatio e =
    pess_count (Records e) * (100 / Z.of_nat (length (Records e)))
}.

Record elector_inv (e : elector) : Prop := {
  inv_core : elector_core e;
  inv_sorted : StronglySorted by_priority (Records e);
  inv_best : BestK e = GetBestK (Records e)
}.

(** ** Sorting, searching and counting *)

Lemma fmap_NoDup_inj {A B} (f : A -> B) (l : list A) x y :
  NoDup (f <$> l) -> x ∈ l -> y ∈ l -> f x = f y -> x = y.
Proof.
  intros Hn [i Hi]%list_elem_of_lookup [j Hj]%list_elem_of_lookup E.
  assert (i = j) as ->; [|congruence].
  apply (NoDup_lookup _ i j (f x) Hn); rewrite list_lookup_fmap; [by rewrite Hi|].
  rewrite Hj. simpl. by rewrite E.
Qed.

Lemma by_priority_le a b : by_priority a b <-> Priority a <= Priority b.
Proof. unfold by_priority, record_lt. rewrite Z.ltb_ge. done. Qed.

Lemma insert_record_perm r l : insert_record r l ≡ₚ r :: l.
Proof.
  induction l as [|x l IH]; simpl; [done|]. case_goal; [done|].
  rewrite IH. apply Permutation_swap.
Qed.

Lemma insert_record_sorted r l :
  StronglySorted by_priority l -> StronglySorted by_priority (insert_record r l).
Proof.
  induction 1 as [|x l Hl IH Hx]; simpl; [by repeat constructor|].
  destruct (record_lt r x) eqn:E.
  - constructor; [by constructor|]. unfold record_lt in E. bool_to_prop.
    constructor; [apply by_priority_le; lia|].
    eapply Forall_impl; [exact Hx|]. intros y. rewrite !by_priority_le. lia.
  - constructor; [done|]. rewrite insert_record_perm. by constructor.
Qed.

#[export] Instance insertion_sort_laws : SortLaws.
Proof.
  split; intros l; unfold Sort, insertion_sorter.
  - induction l as [|r l IH]; simpl; [done|]. by rewrite insert_record_perm, IH.
  - induction l as [|r l IH]; simpl; [constructor|]. by apply insert_record_sorted.
Qed.

Lemma sorted_lookup {A} (R : A -> A -> Prop) l i j a b :
  StronglySorted R l -> l !! i = Some a -> l !! j = Some b -> (i < j)%nat -> R a b.
Proof.
  intros Hs. revert i j. induction Hs as [|x l Hs IH Hx]; intros i j Hi Hj Hij; [done|].
  destruct j as [|j]; [lia|]. simpl in Hj. destruct i as [|i].
  - injection Hi as ->. rewrite Forall_forall in Hx. by eapply Hx, list_elem_of_lookup_2.
  - apply (IH i j); [done|done|lia].
Qed.

Lemma best_pos_spec b pos l :
  exists k, best_pos b pos l = pos + Z.of_nat k /\ (k <= length l)%nat /\
    (forall i r, (i < k)%nat -> l !! i = Some r -> Priority r = b) /\
    (forall r, l !! k = Some r -> Priority r <> b).
Proof.
  revert pos. induction l as [|x l IH]; intros pos; simpl.
  - exists O. repeat split; [lia|lia|intros; lia|done].
  - destruct (Priority x =? b) eqn:E; simpl; bool_to_prop.
    + destruct (IH (pos + 1)) as (k & -> & Hk & Ht & Hd). exists (S k).
      repeat split; [lia|lia| |done].
      intros [|i] r Hi Hl; [by injection Hl as <-|]. apply (Ht i); [lia|done].
    + exists O. repeat split; [lia|lia|intros; lia|]. by intros ? [= <-].
Qed.

(** In a sorted vector the records as good as the first are the best ones. *)
Lemma best_iff x l r :
  StronglySorted by_priority (x :: l) -> r ∈ x :: l ->
  (Forall (by_priority r) (x :: l) <-> Priority r = Priority x).
Proof.
  intros Hs Hr. inversion Hs as [|? ? _ Hx]; subst. split.
  - intros HF. inversion HF as [|? ? H1 _]; subst. apply by_priority_le in H1.
    apply elem_of_cons in Hr as [->|Hr]; [done|]. rewrite Forall_forall in Hx.
    specialize (Hx r Hr). apply by_priority_le in Hx. lia.
  - intros E. constructor; [apply by_priority_le; lia|].
    eapply Forall_impl; [exact Hx|]. intros y. rewrite !by_priority_le. lia.
Qed.

(** [GetBestK] of a sorted vector delimits the records of best priority. *)
Lemma GetBestK_spec l :
  Z.of_nat (length l) < 2 ^ 31 -> StronglySorted by_priority l -> l <> [] ->
  0 <= GetBestK l < Z.of_nat (length l) /\
  forall i r, l !! i = Some r ->
    (Z.of_nat i <= GetBestK l <-> Forall (by_priority r) l).
Proof.
  intros Hlen Hs Hne. destruct l as [|x l]; [done|]. cbn [GetBestK length] in *.
  destruct (best_pos_spec (Priority x) 1 l) as (k & -> & Hk & Ht & Hd).
  rewrite wrapS_small; [|lia|unfold inS; lia].
  replace (1 + Z.of_nat k - 1) with (Z.of_nat k) by lia. split; [lia|].
  intros i r Hi. rewrite best_iff by (done || by eapply list_elem_of_lookup_2).
  destruct i as [|i]; [injection Hi as ->; split; [done|lia]|].
  split; [intros; apply (Ht i); [lia|done]|].
  intros E. destruct (decide (i < k)%nat); [lia|]. exfalso.
  destruct (l !! k) as [y|] eqn:Ey;
    [|apply lookup_ge_None in Ey; apply lookup_lt_Some in Hi; simpl in Hi; lia].
  apply (Hd y eq_refl). destruct (decide (i = k)) as [->|]; [simpl in Hi; congruence|].
  pose proof (sorted_lookup _ _ 0 (S k) x y Hs eq_refl Ey ltac:(lia)) as H1.
  pose proof (sorted_lookup _ _ (S k) (S i) y r Hs Ey Hi ltac:(lia)) as H2.
  apply by_priority_le in H1, H2. lia.
Qed.

(** ** Pessimization *)

(** The records after [PessimizeEndpointUnlocked(endpoint)]. *)
Definition pess_ep (endpoint : string) (r : TEndpointRecord) : TEndpointRecord :=
  if String.eqb (Endpoint r) endpoint then pessimize r else r.

Lemma pessimize_id r : Priority r = PessimizedPriority -> pessimize r = r.
Proof. destruct r; cbn. by intros ->. Qed.

Lemma pess_ep_other ep r : Endpoint r <> ep -> pess_ep ep r = r.
Proof. intros H. unfold pess_ep. by rewrite (proj2 (String.eqb_neq _ _) H). Qed.

Lemma pess_ep_same ep r : Endpoint r = ep -> pess_ep ep r = pessimize r.
Proof. intros <-. unfold pess_ep. by rewrite String.eqb_refl. Qed.

Lemma pess_ep_Endpoint ep r : Endpoint (pess_ep ep r) = Endpoint r.
Proof. unfold pess_ep. by destruct (String.eqb _ _). Qed.

Lemma pess_ep_NodeId ep r : NodeId (pess_ep ep r) = NodeId r.
Proof. unfold pess_ep. by destruct (String.eqb _ _). Qed.

Lemma pess_ep_Priority ep r :
  Priority r <= PessimizedPriority -> Priority (pess_ep ep r) <= PessimizedPriority.
Proof. unfold pess_ep. destruct (String.eqb _ _); cbn; [lia|done]. Qed.

Lemma pessimizable_spec ep r :
  pessimizable ep r = true <-> Endpoint r = ep /\ Priority r <> PessimizedPriority.
Proof.
  unfold pessimizable. rewrite andb_true_iff, String.eqb_eq, negb_true_iff, Z.eqb_neq. done.
Qed.

Lemma find_record_Some p i l j r :
  find_record p i l = Some (j, r) ->
  p r = true /\ exists l1 l2, l = l1 ++ r :: l2 /\ j = (i + length l1)%nat.
Proof.
  revert i. induction l as [|x l IH]; intros i; simpl; [done|].
  destruct (p x) eqn:E.
  - intros [= <- <-]. split; [done|]. exists [], l. split; [done|]. simpl. lia.
  - intros (Hp & l1 & l2 & -> & ->)%IH. split; [done|]. exists (x :: l1), l2.
    split; [done|]. simpl. lia.
Qed.

Lemma find_record_None p i l :
  find_record p i l = None -> Forall (fun r => p r = false) l.
Proof.
  revert i. induction l as [|x l IH]; intros i; simpl; [constructor|].
  destruct (p x) eqn:E; [done|]. intros. constructor; [done|]. by eapply IH.
Qed.

(** With unique endpoints, at most one record changes. *)
Lemma pess_ep_split ep l1 r l2 :
  NoDup (Endpoint <$> l1 ++ r :: l2) -> Endpoint r = ep ->
  pess_ep ep <$> l1 ++ r :: l2 = l1 ++ pessimize r :: l2.
Proof.
  intros Hn Hr. rewrite fmap_app, fmap_cons, pess_ep_same by done.
  rewrite fmap_app, fmap_cons in Hn. apply NoDup_app in Hn as (_ & H12 & H2).
  apply NoDup_cons in H2 as [Hr2 _].
  assert (forall l : list TEndpointRecord, Endpoint r ∉ Endpoint <$> l -> pess_ep ep <$> l = l) as Hid.
  { intros l Hl. rewrite <- (list_fmap_id l) at 2. apply list_fmap_ext.
    intros i x Hx. apply pess_ep_other. intros E. apply Hl. rewrite Hr, <- E.
    by eapply list_elem_of_fmap_2, list_elem_of_lookup_2. }
  rewrite !Hid; [done|done|]. intros H. apply (H12 _ H). left.
Qed.

Lemma pess_ep_none ep l :
  Forall (fun r => pessimizable ep r = false) l -> pess_ep ep <$> l = l.
Proof.
  intros HF. rewrite <- (list_fmap_id l) at 2. apply list_fmap_ext.
  intros i x Hx. rewrite Forall_forall in HF.
  specialize (HF x (list_elem_of_lookup_2 _ _ _ Hx)).
  destruct (String.eqb (Endpoint x) ep) eqn:E.
  - apply String.eqb_eq in E. rewrite pess_ep_same by done. apply pessimize_id.
    destruct (Z.eq_dec (Priority x) PessimizedPriority); [done|].
    by rewrite (proj2 (pessimizable_spec ep x)) in HF.
  - apply String.eqb_neq in E. by apply pess_ep_other.
Qed.

Lemma pess_count_split l1 r l2 : Priority r <> PessimizedPriority ->
  pess_count (l1 ++ pessimize r :: l2) = pess_count (l1 ++ r :: l2) + 1 /\
  pess_count (l1 ++ r :: l2) + 1 <= Z.of_nat (length (l1 ++ r :: l2)).
Proof.
  intros Hr. unfold pess_count. rewrite !filter_app, filter_cons_True by done.
  rewrite (filter_cons_False _ r) by done. rewrite !length_app. cbn [length].
  pose proof (length_filter (fun r => Priority r = PessimizedPriority) l1).
  pose proof (length_filter (fun r => Priority r = PessimizedPriority) l2). lia.
Qed.

Lemma new_ratio_exact c n : 0 <= c < n -> n < 2 ^ 31 ->
  new_ratio (c * (100 / n)) n = (c + 1) * (100 / n).
Proof.
  intros Hc Hn. unfold new_ratio.
  pose proof (Z.mul_div_le 100 n ltac:(lia)) as H1.
  pose proof (Z.div_pos 100 n ltac:(lia) ltac:(lia)) as H2.
  remember (100 / n) as q eqn:Hq.
  assert (0 <= c * q * n <= c * 100).
  { replace (c * q * n) with (c * (n * q)) by ring.
    split; [apply Z.mul_nonneg_nonneg; [lia|apply Z.mul_nonneg_nonneg; lia]|].
    apply Z.mul_le_mono_nonneg_l; lia. }
  pose proof (Z.mul_le_mono_nonneg_r (c + 1) n q).
  pose proof (Z.mul_nonneg_nonneg (c + 1) q).
  rewrite (wrapU_small 64 (c * _ * _)) by (unfold inU; lia).
  rewrite wrapU_small by (unfold inU; lia).
  rewrite Z.add_comm, Z.div_add by lia. rewrite <- Hq.
  replace (q + c * q) with ((c + 1) * q) by lia.
  apply wrapS_small; [lia|unfold inS; lia].
Qed.

#[export] Instance pess_count_proper : Proper ((≡ₚ) ==> (=)) pess_count.
Proof. intros l l' E. unfold pess_count. by rewrite E. Qed.

Lemma pess_count_zero l :
  Forall (fun r => Priority r < PessimizedPriority) l -> pess_count l = 0.
Proof.
  unfold pess_count. induction 1 as [|r l Hr _ IH]; [done|].
  rewrite filter_cons_False by lia. done.
Qed.

(** The invariant's core does not depend on the order of the records. *)
Lemma core_reorder e l b :
  elector_core e -> l ≡ₚ Records e -> elector_core (set_BestK b (set_Records l e)).
Proof.
  intros C E. split; cbn; try apply C.
  - rewrite E. apply C.
  - rewrite E. apply C.
  - rewrite E. apply C.
  - intros ep r. rewrite E. apply C.
  - intros r. rewrite E. intros Hr. destruct (core_node _ C r Hr) as (k & Hk & Hin).
    exists k. by rewrite E.
  - rewrite E. apply C.
Qed.

Lemma pess_known ep e :
  elector_core e -> forall ep' r',
  alter pessimize ep (KnownEndpoints e) !! ep' = Some r' <->
  r' ∈ pess_ep ep <$> Records e /\ Endpoint r' = ep'.
Proof.
  intros C ep' r'. rewrite list_elem_of_fmap. destruct (decide (ep = ep')) as [<-|Hne].
  - rewrite lookup_alter_eq, fmap_Some. split.
    + intros (r & [Hin Hr]%(core_known _ C) & ->). split; [|done].
      exists r. by rewrite pess_ep_same.
    + intros [(r & -> & Hin) Hr]. rewrite pess_ep_Endpoint in Hr.
      exists r. rewrite (core_known _ C), pess_ep_same by done. done.
  - rewrite lookup_alter_ne, (core_known _ C) by done. split.
    + intros [Hin Hr]. split; [|done]. exists r'. by rewrite pess_ep_other by congruence.
    + intros [(r & -> & Hin) Hr]. rewrite pess_ep_Endpoint in Hr.
      by rewrite pess_ep_other by congruence.
Qed.

(** The entry of a node after the pessimization of record [r]. *)
Definition pess_node (ep : string) (k : TKnownEndpoint) : TKnownEndpoint :=
  if String.eqb (Endpoint (known_Record k)) ep
  then mkKnown (pessimize (known_Record k)) (TaggedObjs k) else k.

Lemma pess_node_Record ep k : known_Record (pess_node ep k) = pess_ep ep (known_Record k).
Proof. unfold pess_node, pess_ep. by destruct (String.eqb _ _). Qed.

Lemma pess_node_tags ep k : TaggedObjs (pess_node ep k) = TaggedObjs k.
Proof. unfold pess_node. by destruct (String.eqb _ _). Qed.

Lemma pess_by_node ep (m : gmap Z TKnownEndpoint) n0 n k' :
  alter (pess_node ep) n0 m !! n = Some k' ->
  exists k, m !! n = Some k /\ TaggedObjs k' = TaggedObjs k /\
    (k' = k \/ known_Record k' = pess_ep ep (known_Record k)).
Proof.
  destruct (decide (n0 = n)) as [<-|Hne].
  - rewrite lookup_alter_eq, fmap_Some. intros (k & Hk & ->). exists k.
    rewrite pess_node_tags, pess_node_Record. auto.
  - rewrite lookup_alter_ne by done. intros Hk. exists k'. auto.
Qed.

(** A node of a current record stays known, by a current record. *)
Lemma pess_node_current ep e r : elector_core e -> r ∈ Records e -> Endpoint r = ep ->
  forall r', r' ∈ pess_ep ep <$> Records e ->
  exists k, alter (pess_node ep) (NodeId r) (KnownEndpointsByNodeId e) !! NodeId r' = Some k
            /\ known_Record k ∈ pess_ep ep <$> Records e.
Proof.
  intros C Hr Hep r' (r1 & -> & Hin)%list_elem_of_fmap. rewrite pess_ep_NodeId.
  destruct (core_node _ C r1 Hin) as (k & Hk & Hkin).
  destruct (decide (NodeId r = NodeId r1)) as [E|E].
  - exists (pess_node ep k). rewrite E, lookup_alter_eq, Hk. split; [done|].
    rewrite pess_node_Record. by apply list_elem_of_fmap_2.
  - exists k. rewrite lookup_alter_ne by done. split; [done|].
    rewrite <- (pess_ep_other ep (known_Record k)); [by apply list_elem_of_fmap_2|].
    intros E'. apply E. rewrite <- (core_node_id _ C _ _ Hk). f_equal.
    apply (fmap_NoDup_inj Endpoint _ _ _ (core_nodup _ C)); congruence.
Qed.

(** [PessimizeEndpointUnlocked] pessimizes the record of the endpoint, says
    whether there was one to pessimize, and keeps the invariant's core. *)
Lemma PessimizeEndpointUnlocked_spec ep e :
  elector_core e ->
  wp (PessimizeEndpointUnlocked ep) (fun changed e' =>
    elector_core e' /\ Records e' = pess_ep ep <$> Records e /\
    (changed = false -> e' = e)) e.
Proof.
  intros C. unfold PessimizeEndpointUnlocked. wp_steps.
  destruct (find_record _ _ _) as [[i r]|] eqn:Ef.
  2:{ apply find_record_None in Ef. wp_steps. by rewrite pess_ep_none. }
  apply find_record_Some in Ef as ([Hr Hp]%pessimizable_spec & l1 & l2 & El & ->).
  pose proof (core_nodup _ C) as Hn. rewrite El in Hn.
  pose proof (pess_ep_split ep l1 r l2 Hn Hr) as Es.
  assert (r ∈ Records e) as Hin by (rewrite El; set_solver).
  assert (<[(0 + length l1)%nat := pessimize r]> (Records e) = pess_ep ep <$> Records e) as Ei.
  { rewrite El, Es, (insert_app_r_alt l1) by lia.
    by rewrite Nat.add_0_l, Nat.sub_diag. }
  wp_steps. rewrite Ei. split; [|done].
  destruct (pess_count_split l1 r l2 Hp) as [E1 E2]. rewrite <- Es, <- El in *.
  split; cbn.
  - rewrite <- list_fmap_compose. erewrite list_fmap_ext; [exact (core_nodup _ C)|].
    intros. apply pess_ep_Endpoint.
  - rewrite length_fmap. apply C.
  - rewrite Forall_fmap. eapply Forall_impl; [exact (core_priority _ C)|].
    intros. by apply pess_ep_Priority.
  - by apply pess_known.
  - by apply pess_node_current.
  - intros n k' (k & Hk & _ & [-> | ->])%pess_by_node; rewrite ?pess_ep_NodeId;
      by apply (core_node_id _ C).
  - intros n k' t g (k & Hk & -> & _)%pess_by_node. by apply (core_tagged _ C).
  - apply C.
  - rewrite length_fmap, E1, (core_ratio _ C). pose proof (core_length _ C).
    apply new_ratio_exact; unfold pess_count in *; lia.
Qed.

Definition pess_nd (nodeId : Z) (r : TEndpointRecord) : TEndpointRecord :=
  if NodeId r =? nodeId then pessimize r else r.

Lemma pessimize_node_loop_spec n l2 : forall l1 changed e,
  elector_core e -> Records e = l1 ++ l2 ->
  wp (pessimize_node_loop n (length l1) (length l2) changed) (fun b e' =>
    elector_core e' /\ Records e' = l1 ++ (pess_nd n <$> l2) /\
    (b = false -> changed = false /\ e' = e)) e.
Proof.
  induction l2 as [|r l2 IH]; intros l1 changed e C El; cbn [pessimize_node_loop length].
  { wp_steps. auto. }
  wp_steps. rewrite El, lookup_app_r, Nat.sub_diag by lia. cbn [lookup list_lookup].
  assert (S (length l1) = length (l1 ++ [pess_nd n r])) as Hlen
    by (rewrite length_app; simpl; lia).
  assert (l1 ++ (pess_nd n <$> r :: l2) = (l1 ++ [pess_nd n r]) ++ (pess_nd n <$> l2)) as Ea
    by (by rewrite <- app_assoc).
  rewrite Ea. unfold pess_nd in Hlen, Ea |- * at 1.
  destruct (NodeId r =? n) eqn:En, (Priority r =? PessimizedPriority) eqn:Ep;
    cbn [negb andb]; bool_to_prop.
  1,3,4: rewrite Hlen; rewrite ?(pessimize_id r) by done;
    apply IH; [done|]; by rewrite <- app_assoc.
  wp_steps. eapply wp_mono; [by apply PessimizeEndpointUnlocked_spec|].
  intros c e1 (C1 & E1 & Hc). cbn beta in *.
  rewrite El, (pess_ep_split (Endpoint r)) in E1; [|rewrite <- El; apply C|done].
  rewrite Hlen. eapply wp_mono; [apply (IH _ _ e1); [done|by rewrite <- app_assoc]|].
  intros b e' (C' & E' & Hb). split_and!; [done|done|].
  intros [Hb1 ->]%Hb. apply orb_false_iff in Hb1 as [-> Hc1]. auto.
Qed.

(** [Sort] and [GetBestK] restore the invariant. *)
Lemma resort_spec `{SortLaws} e : elector_core e ->
  wp resort (fun _ e' => elector_inv e' /\ Records e' ≡ₚ Records e) e.
Proof.
  intros C. unfold resort. wp_steps. split; [|apply sort_perm].
  split; [|apply sort_sorted|done].
  apply (core_reorder e _ (GetBestK (Sort (Records e)))); [done|apply sort_perm].
Qed.

Lemma resort_when `{SortLaws} changed e0 e :
  elector_inv e0 -> elector_core e -> (changed = false -> e = e0) ->
  wp (when changed resort) (fun _ e' => elector_inv e' /\ Records e' ≡ₚ Records e) e.
Proof.
  intros I C Hc. wp_steps; [by apply resort_spec|]. by rewrite Hc.
Qed.

Lemma PessimizeEndpoint_spec `{SortLaws} ep e : elector_inv e ->
  wp (PessimizeEndpoint ep) (fun _ e' =>
    elector_inv e' /\ Records e' ≡ₚ pess_ep ep <$> Records e) e.
Proof.
  intros I. unfold PessimizeEndpoint. wp_steps.
  eapply wp_mono; [apply PessimizeEndpointUnlocked_spec, I|].
  intros c e1 (C1 & E1 & Hc). rewrite <- E1. by eapply resort_when.
Qed.

Lemma PessimizeNode_spec `{SortLaws} n e : elector_inv e ->
  wp (PessimizeNode n) (fun _ e' => elector_inv e' /\
    Records e' ≡ₚ (if n =? 0 then id else pess_nd n) <$> Records e) e.
Proof.
  intros I. unfold PessimizeNode. destruct (n =? 0); wp_steps; [by rewrite list_fmap_id|].
  eapply wp_mono; [by apply (pessimize_node_loop_spec n (Records e) [] false e (inv_core _ I))|].
  intros c e1 (C1 & E1 & Hc). simpl in E1. rewrite <- E1.
  eapply resort_when; [done|done|]. intros Hf. by apply Hc.
Qed.

(** ** Linked objects *)

(** Nothing of the core but the links depends on the objects. *)
Lemma core_set_objs e m w :
  elector_core e ->
  (forall n k t g, KnownEndpointsByNodeId e !! n = Some k -> TaggedObjs k !! t = Some g ->
     exists R, m !! g = Some R /\ registry_NodeId R = n) ->
  (forall o g, w !! o = Some g <-> exists R, m !! g = Some R /\ o ∈ Objs R) ->
  elector_core (set_objs m w e).
Proof. intros C H1 H2. split; cbn; try apply C; assumption. Qed.

Lemma inv_core_same e e' :
  elector_inv e -> elector_core e' -> Records e' = Records e -> BestK e' = BestK e ->
  elector_inv e'.
Proof. intros [C S B] C' ER EB. split; [done|by rewrite ER|by rewrite ER, EB]. Qed.

Lemma wp_get_registry g R Q e :
  registries e !! g = Some R -> Q R e -> wp (get_registry g) Q e.
Proof. intros E HQ. unfold get_registry. wp_steps. by rewrite E. Qed.

(** A registry keeps its node whatever objects it holds. *)
Lemma tagged_update e g R objs :
  elector_core e -> registries e !! g = Some R ->
  forall n k t g', KnownEndpointsByNodeId e !! n = Some k -> TaggedObjs k !! t = Some g' ->
  exists R', <[g := mkRegistry objs (registry_NodeId R)]> (registries e) !! g' = Some R'
             /\ registry_NodeId R' = n.
Proof.
  intros C Hg n k t g' Hn Ht. destruct (core_tagged _ C _ _ _ _ Hn Ht) as (R' & HR' & Hid).
  destruct (decide (g = g')) as [<-|Hne].
  - rewrite lookup_insert_eq. eexists. split; [done|]. cbn. congruence.
  - rewrite lookup_insert_ne by done. eauto.
Qed.

(** The objects' pointers and the registries' sets agree. *)
Definition links (m : gmap reg TObjRegistry) (w : gmap obj reg) : Prop :=
  forall o g, w !! o = Some g <-> exists R, m !! g = Some R /\ o ∈ Objs R.

Lemma links_remove m w o g R n :
  links m w -> w !! o = Some g -> m !! g = Some R ->
  links (<[g := mkRegistry (Objs R ∖ {[o]}) n]> m) (delete o w).
Proof.
  intros L Ho HR o' g'. destruct (decide (o' = o)) as [->|Hne].
  - rewrite lookup_delete_eq. split; [done|]. intros (R' & HR' & Hin). exfalso.
    destruct (decide (g' = g)) as [->|Hg].
    + rewrite lookup_insert_eq in HR'. injection HR' as <-. cbn in Hin.
      by rewrite elem_of_difference, elem_of_singleton in Hin; destruct Hin.
    + rewrite lookup_insert_ne in HR' by done.
      assert (w !! o = Some g') by (apply L; eauto). congruence.
  - rewrite lookup_delete_ne, (L o' g') by done. destruct (decide (g' = g)) as [->|Hg].
    + rewrite lookup_insert_eq, HR. split; intros (R' & [= <-] & Hin); eexists;
        (split; [done|]); cbn in *;
        rewrite ?elem_of_difference, ?elem_of_union, ?elem_of_singleton in *; tauto.
    + by rewrite lookup_insert_ne by done.
Qed.

Lemma links_add m w o g R n :
  links m w -> w !! o = None -> m !! g = Some R ->
  links (<[g := mkRegistry ({[o]} ∪ Objs R) n]> m) (<[o := g]> w).
Proof.
  intros L Ho HR o' g'. destruct (decide (o' = o)) as [->|Hne].
  - rewrite lookup_insert_eq. split.
    + intros [= <-]. rewrite lookup_insert_eq. eexists. split; [done|]. cbn. set_solver.
    + intros (R' & HR' & Hin). destruct (decide (g' = g)) as [->|Hg]; [done|].
      rewrite lookup_insert_ne in HR' by done.
      assert (w !! o = Some g') by (apply L; eauto). congruence.
  - rewrite lookup_insert_ne, (L o' g') by done. destruct (decide (g' = g)) as [->|Hg].
    + rewrite lookup_insert_eq, HR. split; intros (R' & [= <-] & Hin); eexists;
        (split; [done|]); cbn in *;
        rewrite ?elem_of_difference, ?elem_of_union, ?elem_of_singleton in *; tauto.
    + by rewrite lookup_insert_ne by done.
Qed.

Lemma links_same m w o g R n :
  links m w -> m !! g = Some R -> o ∈ Objs R ->
  links (<[g := mkRegistry ({[o]} ∪ Objs R) n]> m) w.
Proof.
  intros L HR Ho o' g'. rewrite (L o' g'). destruct (decide (g' = g)) as [->|Hg].
  - rewrite lookup_insert_eq, HR. split; intros (R' & [= <-] & Hin); eexists;
      (split; [done|]); cbn in *;
        rewrite ?elem_of_difference, ?elem_of_union, ?elem_of_singleton in *;
        [tauto | by destruct Hin as [->|?]].
  - by rewrite lookup_insert_ne by done.
Qed.

Lemma Unlink_spec e o : elector_core e ->
  wp (Unlink o) (fun _ e' => elector_core e' /\ Records e' = Records e /\
    BestK e' = BestK e /\ ObjRegistry e' = delete o (ObjRegistry e)) e.
Proof.
  intros C. unfold Unlink. wp_steps. destruct (ObjRegistry e !! o) as [g|] eqn:Eo.
  - destruct (proj1 (core_links _ C o g) Eo) as (R & HR & Hin).
    unfold registry_Remove. wp_steps. eapply wp_get_registry; [done|]. wp_steps.
    { by apply bool_decide_eq_true. }
    unfold put_registry. wp_steps. split; [|done].
    refine (core_set_objs e _ _ C (tagged_update e g R _ C HR) _).
    by apply links_remove; [exact (core_links _ C)| |].
  - wp_steps. split; [|done]. refine (core_set_objs e _ _ C (core_tagged _ C) _).
    rewrite delete_id by done. apply C.
Qed.

(** [Link] moves the object to the registry, leaving the one it was in. *)
Lemma Link_spec e o g R : elector_core e -> registries e !! g = Some R ->
  wp (Link o g) (fun added e' => elector_core e' /\ Records e' = Records e /\
    BestK e' = BestK e /\ KnownEndpointsByNodeId e' = KnownEndpointsByNodeId e /\
    ObjRegistry e' = <[o := g]> (ObjRegistry e) /\
    (added = false <-> ObjRegistry e !! o = Some g)) e.
Proof.
  intros C HR. unfold Link, registry_Add. wp_steps.
  eapply wp_get_registry; [done|]. unfold put_registry. wp_steps.
  assert (o ∈ Objs R <-> ObjRegistry e !! o = Some g) as Ho.
  { rewrite (core_links _ C o g). split; [eauto|]. intros (R' & HR' & ?). congruence. }
  destruct (decide (o ∈ Objs R)) as [Hin|Hin];
    [rewrite bool_decide_eq_true_2 by done | rewrite bool_decide_eq_false_2 by done]; cbn.
  { wp_steps. split_and!; [|done|done|done|cbn; by rewrite insert_id by (by apply Ho)|].
    - refine (core_set_objs e _ _ C (tagged_update e g R _ C HR) _).
      apply links_same; [exact (core_links _ C)|done|done].
    - split; [|done]. intros _. by apply Ho. }
  wp_steps. cbn. destruct (ObjRegistry e !! o) as [g'|] eqn:Eo.
  2:{ wp_steps. split_and!; [|done|done|done|done|split; [done|congruence]].
      refine (core_set_objs e _ _ C (tagged_update e g R _ C HR) _).
      by apply links_add; [exact (core_links _ C)| |]. }
  destruct (proj1 (core_links _ C o g') Eo) as (R' & HR' & Hin').
  assert (g <> g') as Hne by congruence.
  unfold registry_Remove. wp_steps.
  eapply (wp_get_registry g' R'); [cbn; by rewrite lookup_insert_ne|]. wp_steps.
  { by apply bool_decide_eq_true. }
  unfold put_registry. wp_steps. split_and!; [|done|done|done|done|].
  2:{ split; [done|]. intros [= ->]. congruence. }
  assert (elector_core (set_objs (<[g':=mkRegistry (Objs R' ∖ {[o]}) (registry_NodeId R')]>
            (registries e)) (delete o (ObjRegistry e)) e)) as C1.
  { apply core_set_objs; [done|by apply tagged_update|].
    by apply links_remove; [exact (core_links _ C)| |]. }
  cbn. rewrite insert_insert_ne by done. rewrite <- (insert_delete_eq (ObjRegistry e)).
  refine (core_set_objs _ _ _ C1 (tagged_update _ g R _ C1 _) _);
    [cbn; by rewrite lookup_insert_ne|].
  apply links_add; [exact (core_links _ C1)|by rewrite lookup_delete_eq|].
  cbn. by rewrite lookup_insert_ne.
Qed.

(** The object is in the registry of node [n] and tag [t]. *)
Definition linked (e : elector) (o : obj) (n : Z) (t : tag) : Prop :=
  exists k g, KnownEndpointsByNodeId e !! n = Some k /\ TaggedObjs k !! t = Some g /\
    ObjRegistry e !! o = Some g.

(** The state of [LinkObjToEndpoint] with the registry of a new tag emplaced. *)
Definition emplace_registry (n : Z) (k : TKnownEndpoint) (t : tag) (g : reg) (e : elector) :=
  set_Known (KnownEndpoints e)
    (<[n := mkKnown (known_Record k) (<[t := g]> (TaggedObjs k))]> (KnownEndpointsByNodeId e))
    (set_objs (<[g := mkRegistry ∅ n]> (registries e)) (ObjRegistry e) e).

Lemma emplace_registry_core n k t g e :
  elector_core e -> KnownEndpointsByNodeId e !! n = Some k -> registries e !! g = None ->
  elector_core (emplace_registry n k t g e).
Proof.
  intros C Hk Hg. split; cbn; try apply C.
  - intros r Hr. destruct (core_node _ C r Hr) as (k' & Hk' & Hin).
    destruct (decide (n = NodeId r)) as [->|Hne].
    + rewrite lookup_insert_eq. eexists. split; [done|]. cbn. congruence.
    + rewrite lookup_insert_ne by done. eauto.
  - intros n' k' Hk'. destruct (decide (n = n')) as [<-|Hne].
    + rewrite lookup_insert_eq in Hk'. injection Hk' as <-. cbn. by apply (core_node_id _ C).
    + rewrite lookup_insert_ne in Hk' by done. by apply (core_node_id _ C).
  - intros n' k' t' g' Hk' Ht'.
    assert ((n' = n /\ g' = g) \/ exists k'' t'',
      KnownEndpointsByNodeId e !! n' = Some k'' /\ TaggedObjs k'' !! t'' = Some g')
      as [[-> ->] | (k'' & t'' & Hk'' & Ht'')].
    { destruct (decide (n = n')) as [<-|Hne].
      - rewrite lookup_insert_eq in Hk'. injection Hk' as <-. cbn in Ht'.
        destruct (decide (t = t')) as [<-|Hnt].
        + rewrite lookup_insert_eq in Ht'. injection Ht' as <-. auto.
        + rewrite lookup_insert_ne in Ht' by done. eauto.
      - rewrite lookup_insert_ne in Hk' by done. eauto. }
    + rewrite lookup_insert_eq. eauto.
    + destruct (core_tagged _ C _ _ _ _ Hk'' Ht'') as (R & HR & Hid).
      rewrite lookup_insert_ne by congruence. eauto.
  - intros o' g'. rewrite (core_links _ C o' g').
    destruct (decide (g = g')) as [<-|Hne]; [|by rewrite lookup_insert_ne].
    rewrite lookup_insert_eq, Hg. split; intros (R & HR & Hin); [done|].
    injection HR as <-. by apply elem_of_empty in Hin.
Qed.

Lemma LinkObjToEndpoint_spec e key o t : elector_core e ->
  wp (LinkObjToEndpoint key o t) (fun b e' => elector_core e' /\
    Records e' = Records e /\ BestK e' = BestK e /\
    (b = false <-> KnownEndpointsByNodeId e !! key_NodeId key = None \/
                   linked e o (key_NodeId key) t) /\
    (is_Some (KnownEndpointsByNodeId e !! key_NodeId key) -> linked e' o (key_NodeId key) t) /\
    (forall o', o' <> o -> ObjRegistry e' !! o' = ObjRegistry e !! o')) e.
Proof.
  intros C. unfold LinkObjToEndpoint, linked. wp_steps.
  destruct (KnownEndpointsByNodeId e !! key_NodeId key) as [k|] eqn:Ek.
  2:{ wp_steps. split_and!; [done|done|done|tauto|by intros [? ?]|done]. }
  destruct (TaggedObjs k !! t) as [g|] eqn:Et.
  - destruct (core_tagged _ C _ _ _ _ Ek Et) as (R & HR & _).
    eapply wp_mono; [by apply (Link_spec e o g R)|].
    intros b e' (C' & -> & -> & EN & EO & Hb). split_and!; [done|done|done| | |].
    + rewrite Hb. split; [eauto 10|]. intros [?|(k' & g' & ? & ? & ?)]; congruence.
    + intros _. exists k, g. by rewrite EN, EO, lookup_insert_eq.
    + intros o' Ho. by rewrite EO, lookup_insert_ne.
  - pose proof (is_fresh (dom (registries e))) as Hf. apply not_elem_of_dom in Hf.
    set (g := fresh (dom (registries e))) in *.
    unfold put_registry. wp_steps.
    eapply wp_mono; [apply (Link_spec (emplace_registry (key_NodeId key) k t g e) o g
                              (mkRegistry ∅ (key_NodeId key)))|].
    { by apply emplace_registry_core. }
    { cbn. by rewrite lookup_insert_eq. }
    intros b e' (C' & -> & -> & EN & EO & Hb). cbn in EN, EO, Hb.
    split_and!; [done|done|done| | |].
    + rewrite Hb, (core_links _ C o g). split.
      * intros (R & HR & _). congruence.
      * intros [?|(k' & g' & ? & ? & ?)]; congruence.
    + intros _. do 2 eexists. rewrite EN, EO, !lookup_insert_eq. split; [done|].
      cbn. by rewrite lookup_insert_eq.
    + intros o' Ho. by rewrite EO, lookup_insert_ne.
Qed.

(** ** New discovery state *)

(** The endpoints of a list of records, as the code's [index]. *)
Definition endpoints_of (l : list TEndpointRecord) : gset string :=
  list_to_set (Endpoint <$> l).

(** [r] is the first record of its endpoint. *)
Definition first_record (l : list TEndpointRecord) (r : TEndpointRecord) : Prop :=
  exists l1 l2, l = l1 ++ r :: l2 /\ Endpoint r ∉ endpoints_of l1.

Lemma elem_of_endpoints l ep :
  ep ∈ endpoints_of l <-> exists r, r ∈ l /\ Endpoint r = ep.
Proof.
  unfold endpoints_of. rewrite elem_of_list_to_set, list_elem_of_fmap.
  split; intros (r & ? & ?); exists r; subst; auto.
Qed.

Lemma first_record_cons x l r :
  first_record (x :: l) r <-> r = x \/ (Endpoint r <> Endpoint x /\ first_record l r).
Proof.
  split.
  - intros ([|y l1] & l2 & E & Hn); injection E as <- ->; [by left|right].
    unfold endpoints_of in Hn. cbn in Hn. split; [set_solver|]. exists l1, l2.
    split; [done|]. unfold endpoints_of. set_solver.
  - intros [->|[Hne (l1 & l2 & -> & Hn)]].
    + exists [], l. split; [done|]. unfold endpoints_of. set_solver.
    + exists (x :: l1), l2. split; [done|]. unfold endpoints_of in *. cbn. set_solver.
Qed.

Lemma uniq_records_spec index l :
  let '(index', u) := uniq_records index l in
  index' = endpoints_of l ∪ index /\ index' = endpoints_of u ∪ index /\
  NoDup (Endpoint <$> u) /\ sublist u l /\
  forall r, r ∈ u <-> first_record l r /\ Endpoint r ∉ index.
Proof.
  revert index. induction l as [|x l IH]; intros index; cbn [uniq_records].
  - split_and!; [unfold endpoints_of; set_solver +|unfold endpoints_of; set_solver +|constructor|done|].
    intros r. split; [by intros ?%elem_of_nil|]. intros [(l1 & l2 & E & _) _].
    by destruct l1.
  - destruct (decide (Endpoint x ∈ index)) as [Hx|Hx].
    + specialize (IH index). destruct (uniq_records index l) as [index' u].
      destruct IH as (E1 & E2 & Hn & Hs & Hu). split_and!; [|done|done|by constructor|].
      * rewrite E1. unfold endpoints_of. cbn. set_solver + Hx.
      * intros r. rewrite Hu, first_record_cons. split; intros [H1 H2].
        -- split; [|done]. right. split; [|done]. congruence.
        -- split; [|done]. destruct H1 as [->|[_ H1]]; done.
    + specialize (IH ({[Endpoint x]} ∪ index)).
      destruct (uniq_records ({[Endpoint x]} ∪ index) l) as [index' u].
      destruct IH as (E1 & E2 & Hn & Hs & Hu). split_and!; [| |cbn| by constructor|].
      * rewrite E1. unfold endpoints_of. cbn. set_solver +.
      * rewrite E2. unfold endpoints_of. cbn. set_solver +.
      * apply NoDup_cons. split; [|done]. rewrite list_elem_of_fmap.
        intros (r & E & [_ Hr]%Hu). set_solver.
      * intros r. rewrite elem_of_cons, Hu, first_record_cons, not_elem_of_union,
          not_elem_of_singleton. split; [|tauto]. intros [->|?]; tauto.
Qed.

(** [remove_missing] over [l]: which endpoints, nodes and registries go. *)
Definition gone (index : gset string) (l : list TEndpointRecord) (r : TEndpointRecord) : Prop :=
  r ∈ l /\ Endpoint r ∉ index.

Lemma gone_cons index x l r :
  gone index (x :: l) r <-> (r = x /\ Endpoint x ∉ index) \/ gone index l r.
Proof.
  unfold gone. rewrite elem_of_cons. split; [|intros [[-> ?]|[? ?]]; tauto].
  intros [[->|?] ?]; tauto.
Qed.

Record removed_state (index : gset string) (l : list TEndpointRecord) (e e' : elector) : Prop := {
  rs_known : forall ep r, KnownEndpoints e' !! ep = Some r <->
    KnownEndpoints e !! ep = Some r /\ forall x, gone index l x -> Endpoint x <> ep;
  rs_node : forall n k, KnownEndpointsByNodeId e' !! n = Some k <->
    KnownEndpointsByNodeId e !! n = Some k /\ forall x, gone index l x -> NodeId x <> n;
  rs_rest : e' = set_Known (KnownEndpoints e') (KnownEndpointsByNodeId e') e
}.

Lemma delete_iff {K A} `{Countable K} (m : gmap K A) i j x :
  delete i m !! j = Some x <-> m !! j = Some x /\ i <> j.
Proof. rewrite lookup_delete_Some. tauto. Qed.

Lemma elem_of_map_values {K A} `{Countable K} (m : gmap K A) x :
  x ∈ (map_to_list m).*2 <-> exists k, m !! k = Some x.
Proof.
  rewrite list_elem_of_fmap. split.
  - intros ([k y] & -> & Hk%elem_of_map_to_list). eauto.
  - intros [k Hk]. exists (k, x). split; [done|]. by apply elem_of_map_to_list.
Qed.

Lemma removed_state_nil index e : removed_state index [] e e.
Proof.
  split; [| |by destruct e]; intros ? ?; (split; [|tauto]);
    (intros ?; split; [done|]); by intros x [?%elem_of_nil _].
Qed.

Lemma removed_state_cons index x l e e' :
  Endpoint x ∉ index ->
  removed_state index l
    (set_Known (delete (Endpoint x) (KnownEndpoints e))
       (delete (NodeId x) (KnownEndpointsByNodeId e)) e) e' ->
  removed_state index (x :: l) e e'.
Proof.
  intros Hx [H1 H2 H3]. split; [| |by rewrite H3].
  - intros ep r. rewrite H1. cbn. rewrite delete_iff. setoid_rewrite gone_cons.
    split; [|intros [? Hg]; split; [split|]; auto].
    intros [[Hk He] Hg]. split; [done|]. intros y [[-> _]|Hy]; auto.
  - intros n k. rewrite H2. cbn. rewrite delete_iff. setoid_rewrite gone_cons.
    split; [|intros [? Hg]; split; [split|]; auto].
    intros [[Hk He] Hg]. split; [done|]. intros y [[-> _]|Hy]; auto.
Qed.

(** The registries of the nodes that go. *)
Definition gone_registry (index : gset string) (l : list TEndpointRecord) (e : elector) (g : reg) :=
  exists r k t, gone index l r /\ KnownEndpointsByNodeId e !! NodeId r = Some k /\
    TaggedObjs k !! t = Some g.

Lemma gone_registry_cons index x l e g :
  Endpoint x ∉ index ->
  gone_registry index (x :: l) e g <->
  (exists k t, KnownEndpointsByNodeId e !! NodeId x = Some k /\ TaggedObjs k !! t = Some g) \/
  gone_registry index l
    (set_Known (delete (Endpoint x) (KnownEndpoints e))
       (delete (NodeId x) (KnownEndpointsByNodeId e)) e) g.
Proof.
  intros Hx. unfold gone_registry. cbn. split.
  - intros (r & k & t & Hr & Hk & Ht). apply gone_cons in Hr as [[-> _]|Hr]; [by eauto|].
    destruct (decide (NodeId x = NodeId r)) as [E|E]; [left; rewrite E; by eauto|].
    right. exists r, k, t. by rewrite lookup_delete_ne.
  - intros [(k & t & Hk & Ht)|(r & k & t & Hr & Hk & Ht)].
    + exists x, k, t. rewrite gone_cons. auto.
    + apply delete_iff in Hk as [Hk _]. exists r, k, t. rewrite gone_cons. auto.
Qed.

Lemma remove_missing_spec index l : forall removed nt e,
  NoDup (Endpoint <$> l) ->
  (forall r, gone index l r -> is_Some (KnownEndpoints e !! Endpoint r)) ->
  wp (remove_missing index l removed nt) (fun p e' =>
    p.1 = removed ++ (Endpoint <$> filter (fun r => Endpoint r ∉ index) l) /\
    (forall g, g ∈ p.2 <-> g ∈ nt \/ gone_registry index l e g) /\
    removed_state index l e e') e.
Proof.
  induction l as [|x l IH]; intros removed nt e Hn Hk; cbn [remove_missing].
  { wp_steps. cbn. rewrite app_nil_r. split_and!; [done| |by apply removed_state_nil].
    intros g. split; [by left|]. intros [?|(r & _ & _ & [Hr _] & _)]; [done|].
    by apply elem_of_nil in Hr. }
  cbn in Hn. apply NoDup_cons in Hn as [Hxn Hn].
  assert (forall r, gone index l r -> Endpoint x <> Endpoint r) as Hxr.
  { intros r [Hr _] E. apply Hxn. rewrite E. by apply list_elem_of_fmap_2. }
  destruct (decide (Endpoint x ∈ index)) as [Hx|Hx].
  { rewrite filter_cons_False by tauto.
    assert (forall r, gone index (x :: l) r <-> gone index l r) as Hg
      by (intros r; rewrite gone_cons; tauto).
    eapply wp_mono; [apply IH; [done|]; intros r Hr; by apply Hk, Hg|].
    intros p e' (E1 & E2 & [H1 H2 H3]). split_and!; [done| |].
    - intros g. rewrite E2. unfold gone_registry. by setoid_rewrite Hg.
    - split; [| |done]; intros ? ?; [rewrite H1|rewrite H2]; by setoid_rewrite Hg. }
  rewrite filter_cons_True by done. cbn [fmap list_fmap].
  set (e1 := set_Known (delete (Endpoint x) (KnownEndpoints e))
               (delete (NodeId x) (KnownEndpointsByNodeId e)) e).
  assert (forall nt', wp (remove_missing index l (removed ++ [Endpoint x]) nt') (fun p e' =>
    p.1 = removed ++ Endpoint x :: (Endpoint <$> filter (fun r => Endpoint r ∉ index) l) /\
    (forall g, g ∈ p.2 <-> g ∈ nt' \/ gone_registry index l e1 g) /\
    removed_state index (x :: l) e e') e1) as Hrec.
  { intros nt'. eapply wp_mono; [apply IH; [done|]|].
    - intros r Hr. cbn. rewrite lookup_delete_ne by auto. apply Hk. rewrite gone_cons. auto.
    - intros p e' (E1 & E2 & E3). rewrite <- app_assoc in E1.
      split_and!; [done|done|by apply removed_state_cons]. }
  wp_steps. { apply bool_decide_eq_true, Hk. rewrite gone_cons. auto. }
  destruct (KnownEndpointsByNodeId e !! NodeId x) as [k|] eqn:Ek; wp_steps.
  - eapply wp_mono; [apply Hrec|]. intros p e' (E1 & E2 & E3). split_and!; [done| |done].
    intros g. rewrite E2, (gone_registry_cons index x l e g Hx), elem_of_app.
    rewrite elem_of_map_values, Ek. split; [intros [[?|[t ?]]|?]; eauto 10|].
    intros [?|[(k0 & t & [= <-] & ?)|?]]; eauto.
  - assert (set_Known (delete (Endpoint x) (KnownEndpoints e)) (KnownEndpointsByNodeId e) e = e1)
      as -> by (unfold e1; by rewrite (delete_id (KnownEndpointsByNodeId e))).
    eapply wp_mono; [apply Hrec|]. intros p e' (E1 & E2 & E3). split_and!; [done| |done].
    intros g. rewrite E2, (gone_registry_cons index x l e g Hx). fold e1.
    split; [tauto|]. intros [?|[(k & t & ? & _)|?]]; [tauto|congruence|tauto].
Qed.

(** The loop that adds the new records. *)
Lemma add_records_spec l : forall e,
  NoDup (Endpoint <$> l) ->
  let e' := fold_left add_record l e in
  e' = set_Known (KnownEndpoints e') (KnownEndpointsByNodeId e') e /\
  (forall ep r, KnownEndpoints e' !! ep = Some r <->
     (r ∈ l /\ Endpoint r = ep) \/ ((ep ∉ endpoints_of l) /\ KnownEndpoints e !! ep = Some r)) /\
  (forall n k, KnownEndpointsByNodeId e' !! n = Some k ->
     (known_Record k ∈ l /\ NodeId (known_Record k) = n /\
      TaggedObjs k = from_option TaggedObjs ∅ (KnownEndpointsByNodeId e !! n)) \/
     ((forall r, r ∈ l -> NodeId r <> n) /\ KnownEndpointsByNodeId e !! n = Some k)) /\
  (forall r, r ∈ l -> is_Some (KnownEndpointsByNodeId e' !! NodeId r)) /\
  (forall n, is_Some (KnownEndpointsByNodeId e !! n) ->
     is_Some (KnownEndpointsByNodeId e' !! n)).
Proof.
  induction l as [|x l IH]; intros e Hn; cbn [fold_left].
  { split_and!; [by destruct e| | |by intros r ?%elem_of_nil|done].
    - intros ep r. unfold endpoints_of. cbn. set_solver.
    - intros n k Hk. right. split; [by intros r ?%elem_of_nil|done]. }
  cbn in Hn. apply NoDup_cons in Hn as [Hx Hn].
  destruct (IH (add_record e x) Hn) as (E & HK & HN & HR & HM). split_and!.
  - rewrite E at 1. done.
  - intros ep r. rewrite HK. cbn. rewrite elem_of_cons, lookup_insert_Some.
    unfold endpoints_of in *. cbn. rewrite not_elem_of_union, not_elem_of_singleton.
    split.
    + intros [?|[Hep [[<- <-]|[? ?]]]]; [tauto|tauto|].
      right. split_and!; [congruence|done|done].
    + intros [[[->|?] <-]|[[? ?] ?]]; [|tauto|].
      * right. split; [|tauto]. by rewrite elem_of_list_to_set.
      * right. split; [done|]. right. split; [congruence|done].
  - intros n k Hk. destruct (HN n k Hk) as [(Hin & Hid & Ht)|[Hno Hk']].
    + left. split_and!; [by right|done|]. rewrite Ht. cbn.
      destruct (decide (NodeId x = n)) as [->|Hne];
        [by rewrite lookup_insert_eq|by rewrite lookup_insert_ne].
    + cbn in Hk'. apply lookup_insert_Some in Hk' as [[<- <-]|[Hne Hk']].
      * left. split_and!; [by left|done|done].
      * right. split; [|done]. intros r [->|Hr]%elem_of_cons; auto.
  - intros r [->|Hr]%elem_of_cons; [|by apply HR]. apply HM. cbn.
    rewrite lookup_insert_eq. by eexists.
  - intros n [k Hk]. apply HM. cbn. destruct (decide (NodeId x = n)) as [->|Hne];
      [rewrite lookup_insert_eq | rewrite lookup_insert_ne by done]; by eexists.
Qed.

Lemma known_size l (m : gmap string TEndpointRecord) :
  NoDup (Endpoint <$> l) ->
  (forall ep r, m !! ep = Some r <-> r ∈ l /\ Endpoint r = ep) ->
  length l = size m.
Proof.
  intros Hn Hm. rewrite <- size_dom.
  assert (dom m = endpoints_of l) as ->.
  { apply set_eq. intros ep. rewrite elem_of_dom, elem_of_endpoints. split.
    - intros [r Hr%Hm]. eauto.
    - intros [r Hr%Hm]. by eexists. }
  unfold endpoints_of. by rewrite size_list_to_set, length_fmap.
Qed.

Lemma notify_objs_spec l : forall e,
  for_each OnEndpointRemoved l e =
  Ok (tt, set_notified (notified e ++ l) e).
Proof.
  induction l as [|o l IH]; intros e.
  - cbn. rewrite app_nil_r. by destruct e.
  - change (for_each OnEndpointRemoved l (set_notified (notified e ++ [o]) e) =
            Ok (tt, set_notified (notified e ++ o :: l) e)).
    rewrite IH. cbn. by rewrite <- app_assoc.
Qed.

Lemma notify_spec l : forall e,
  (forall g, g ∈ l -> is_Some (registries e !! g)) ->
  wp (for_each NotifyEndpointRemoved l) (fun _ e' =>
    e' = set_notified (notified e') e /\
    forall o, o ∈ notified e' <-> o ∈ notified e \/
      exists g R, g ∈ l /\ registries e !! g = Some R /\ o ∈ Objs R) e.
Proof.
  induction l as [|g l IH]; intros e Hg; cbn [for_each].
  { wp_steps. split; [by destruct e|]. intros o. split; [by left|].
    intros [?|(g & R & ?%elem_of_nil & _)]; done. }
  wp_steps. unfold NotifyEndpointRemoved. wp_steps.
  destruct (Hg g ltac:(left)) as [R HR]. eapply wp_get_registry; [done|].
  unfold wp at 1. rewrite notify_objs_spec.
  eapply wp_mono; [apply IH; intros g' ?; cbn; apply Hg; by right|].
  cbn. intros _ e' [E Ho]. split; [by rewrite E|]. intros o.
  rewrite Ho, elem_of_app, elem_of_elements. setoid_rewrite elem_of_cons. split.
  - intros [[?|?]|(g' & R' & ? & ? & ?)]; eauto 10.
  - intros [?|(g' & R' & [->|?] & ? & ?)]; [tauto| |eauto 10]. left. right. congruence.
Qed.

(** The state between the removal of the dropped endpoints and the loop that
    adds the new ones, and the one after it. *)
Section new_state.
Context (e e1 : elector) (index : gset string) (l : list TEndpointRecord).
Hypothesis C : elector_core e.
Hypothesis RS : removed_state index (Records e) e e1.
Hypothesis Hindex : index = endpoints_of l.
Hypothesis Hnodup : NoDup (Endpoint <$> l).
Hypothesis Hvalid : valid_records l.

Let e2 : elector := fold_left add_record l (set_Records l e1).

Lemma new_state_rest :
  e2 = set_Known (KnownEndpoints e2) (KnownEndpointsByNodeId e2) (set_Records l e).
Proof.
  destruct (add_records_spec l (set_Records l e1) Hnodup) as (E & _). fold e2 in E.
  rewrite E at 1. by rewrite (rs_rest _ _ _ _ RS).
Qed.

Lemma new_state_known ep r :
  KnownEndpoints e2 !! ep = Some r <-> r ∈ l /\ Endpoint r = ep.
Proof.
  destruct (add_records_spec l (set_Records l e1) Hnodup) as (_ & HK & _).
  fold e2 in HK. rewrite HK. cbn. rewrite (rs_known _ _ _ _ RS), (core_known _ C). split; [|tauto].
  intros [?|(Hep & [Hr <-] & Hg)]; [done|]. exfalso.
  apply (Hg r); [|done]. split; [done|]. by rewrite Hindex.
Qed.

Lemma new_state_node_old n k :
  KnownEndpointsByNodeId e1 !! n = Some k -> KnownEndpointsByNodeId e !! n = Some k.
Proof. by intros [? _]%(rs_node _ _ _ _ RS). Qed.

Lemma new_state_core : elector_core (set_ratio 0 (EndpointCountGauge e2)
  (PessimizationRatioGauge e2) (EndpointActiveGauge e2) e2).
Proof.
  destruct Hvalid as [Hlen Hprio]. pose proof new_state_rest as E.
  destruct (add_records_spec l (set_Records l e1) Hnodup) as (_ & _ & HN & HR & HM).
  fold e2 in HN, HR, HM. cbn in HN.
  assert (Records e2 = l) as ERec by (by rewrite E).
  assert (registries e2 = registries e) as EReg by (by rewrite E).
  assert (ObjRegistry e2 = ObjRegistry e) as EObj by (by rewrite E).
  split; cbn; rewrite ?ERec, ?EReg, ?EObj; try done.
  - eapply Forall_impl; [exact Hprio|]. intros; cbn in *; lia.
  - apply new_state_known.
  - intros r Hr. destruct (HR r Hr) as [k Hk]. exists k. split; [done|].
    destruct (HN _ _ Hk) as [(? & _)|[Hno _]]; [done|]. by destruct (Hno r Hr).
  - intros n k Hk. destruct (HN _ _ Hk) as [(_ & ? & _)|[_ Hk1]]; [done|].
    by apply (core_node_id _ C), new_state_node_old.
  - intros n k t g Hk Ht.
    assert (exists k', KnownEndpointsByNodeId e !! n = Some k' /\ TaggedObjs k' !! t = Some g)
      as (k' & Hk' & Ht').
    { destruct (HN _ _ Hk) as [(_ & _ & Et)|[_ Hk1]].
      - rewrite Et in Ht. destruct (KnownEndpointsByNodeId e1 !! n) as [k'|] eqn:Ek'; [|done].
        exists k'. split; [by apply new_state_node_old|done].
      - exists k. split; [by apply new_state_node_old|done]. }
    by apply (core_tagged _ C n k' t g).
  - exact (core_links _ C).
  - by rewrite pess_count_zero.
Qed.
End new_state.

(** Gauges, notifications and [BestK_] are not part of the core. *)
Lemma core_fields e e' :
  elector_core e -> Records e' = Records e -> KnownEndpoints e' = KnownEndpoints e ->
  KnownEndpointsByNodeId e' = KnownEndpointsByNodeId e ->
  PessimizationRatio e' = PessimizationRatio e ->
  registries e' = registries e -> ObjRegistry e' = ObjRegistry e -> elector_core e'.
Proof.
  intros [] E1 E2 E3 E4 E5 E6. split; rewrite ?E1, ?E2, ?E3, ?E4, ?E5, ?E6; assumption.
Qed.

Lemma SetNewState_wp `{SortLaws} rs e : elector_inv e -> valid_records rs ->
  wp (SetNewState rs) (fun removed e' => elector_inv e' /\
    removed = Endpoint <$> filter (fun r => Endpoint r ∉ endpoints_of rs) (Records e) /\
    (forall r, r ∈ Records e' <-> first_record rs r) /\
    PessimizationRatio e' = 0 /\
    registries e' = registries e /\ ObjRegistry e' = ObjRegistry e /\
    forall o, o ∈ notified e' <-> o ∈ notified e \/
      exists g, ObjRegistry e !! o = Some g /\
                gone_registry (endpoints_of rs) (Records e) e g) e.
Proof.
  intros I V. unfold SetNewState. pose proof (uniq_records_spec ∅ rs) as U.
  destruct (uniq_records ∅ rs) as [index u]. destruct U as (Ei & Eu & Hn & Hs & Hu).
  rewrite union_empty_r_L in Ei, Eu. pose proof (inv_core _ I) as C.
  pose proof (sort_perm u) as Hp. set (l := Sort u) in *.
  assert (valid_records l) as V'.
  { destruct V as [V1 V2]. split; rewrite Hp.
    - pose proof (sublist_length _ _ Hs). lia.
    - rewrite Forall_forall in V2 |- *. intros r Hr. by eapply V2, elem_of_sublist. }
  assert (index = endpoints_of l) as El by (unfold endpoints_of in *; by rewrite Hp).
  assert (NoDup (Endpoint <$> l)) as Hn' by (by rewrite Hp).
  wp_steps. eapply wp_mono; [apply remove_missing_spec; [apply C|]|].
  { intros r [Hr _]. exists r. by apply (core_known _ C). }
  intros [removed nt] e1 (E1 & E2 & RS). cbn in E1, E2 |- *.
  pose proof (new_state_core e e1 index l C RS El Hn' V') as C2.
  pose proof (new_state_rest e e1 index l RS Hn') as Er.
  wp_steps.
  { apply bool_decide_eq_true. rewrite Er at 1. cbn. apply known_size; [done|].
    exact (new_state_known e e1 index l C RS El Hn'). }
  eapply wp_mono; [apply notify_spec|].
  { intros g [?%elem_of_nil|(r & k & t & _ & Hk & Ht)]%E2; [done|].
    destruct (core_tagged _ C _ _ _ _ Hk Ht) as (R & HR & _). exists R.
    cbn. rewrite Er. done. }
  set (e2 := fold_left add_record l (set_Records l e1)) in *.
  intros _ e' [E Ho]. cbn in Ho. wp_steps.
  assert (Records e' = l /\ registries e' = registries e /\ ObjRegistry e' = ObjRegistry e)
    as (R1 & R2 & R3) by (rewrite E, Er; done).
  rewrite <- Ei. split_and!; [split| |intros r; rewrite R1, Hp, Hu| | | |];
    [|rewrite R1; apply sort_sorted|by rewrite R1, E|done
     |split; [tauto|]; intros ?; split; [done|apply not_elem_of_empty]
     |by rewrite E|done|done|].
  - eapply core_fields; [exact C2|..]; by rewrite E.
  - intros o. rewrite Ho, Er. cbn. apply or_iff_compat_l. split.
    + intros (g & R & [?%elem_of_nil|Hg]%E2 & HR & Hin); [done|].
      exists g. split; [|done]. apply (core_links _ C). eauto.
    + intros (g & (R & HR & Hin)%(core_links _ C) & Hg). exists g, R.
      split; [|done]. apply E2. by right.
Qed.

(** ** Histories keep the invariant *)

Lemma elector0_inv : elector_inv elector0.
Proof.
  split; [split; cbn|constructor|done].
  - constructor.
  - lia.
  - constructor.
  - intros ep r. rewrite lookup_empty. split; [done|]. by intros [?%elem_of_nil _].
  - by intros r ?%elem_of_nil.
  - intros n k. by rewrite lookup_empty.
  - intros n k t g. by rewrite lookup_empty.
  - intros o g. rewrite lookup_empty. split; [done|]. intros (R & HR & _).
    by rewrite lookup_empty in HR.
  - done.
Qed.

Lemma run_op_inv `{SortLaws} a e :
  valid_op a -> elector_inv e -> wp (run_op a) (fun _ => elector_inv) e.
Proof.
  intros V I. destruct a as [rs|ep|n|c r a|key o t|o]; cbn [run_op].
  - wp_steps. eapply wp_mono; [by apply SetNewState_wp|]. cbn. by intros ? ? [? _].
  - eapply wp_mono; [by apply PessimizeEndpoint_spec|]. by intros ? ? [? _].
  - eapply wp_mono; [by apply PessimizeNode_spec|]. by intros ? ? [? _].
  - wp_steps. destruct I as [C S B]. split; [|done|done]. by apply (core_fields e).
  - wp_steps. eapply wp_mono; [apply LinkObjToEndpoint_spec, I|].
    intros ? ? (C' & E1 & E2 & _). wp_steps. by apply (inv_core_same e).
  - eapply wp_mono; [apply Unlink_spec, I|].
    intros ? ? (C' & E1 & E2 & _). by apply (inv_core_same e).
Qed.

Lemma run_ops_inv `{SortLaws} ops e : Forall valid_op ops -> elector_inv e ->
  wp (for_each run_op ops) (fun _ => elector_inv) e.
Proof.
  intros V I. apply wp_for_each; [done|]. intros a e' Ha. apply run_op_inv.
  rewrite Forall_forall in V. by apply V.
Qed.

Lemma reachable_elector_inv `{SortLaws} e : reachable_elector e -> elector_inv e.
Proof.
  intros (ops & V & E). pose proof (run_ops_inv ops elector0 V elector0_inv) as W.
  apply wp_run in W as (u & e' & E' & I). rewrite E in E'. by injection E' as _ <-.
Qed.

#[export] Hint Resolve reachable_elector_inv elector0_inv : ydb.

(** [BestK_] bounds exactly the positions of the records of best priority. *)
Lemma BestK_spec e : elector_inv e -> Records e <> [] ->
  0 <= BestK e < Z.of_nat (length (Records e)) /\
  forall i r, Records e !! i = Some r ->
    (Z.of_nat i <= BestK e <-> Forall (by_priority r) (Records e)).
Proof.
  intros [C S B] Hne. rewrite B. apply GetBestK_spec; [apply C|done|done].
Qed.

Lemma BestK_none e : elector_inv e -> (BestK e = -1 <-> Records e = []).
Proof.
  intros I. destruct (Records e) as [|r l] eqn:E.
  - rewrite (inv_best _ I), E. done.
  - destruct (BestK_spec e I) as [? _]; [by rewrite E|]. split; [lia|done].
Qed.

(** What an unpinned [GetEndpoint] draws. *)
Lemma GetEndpoint_best `{Sorter} rnd e : elector_inv e ->
  (forall n, 0 < n -> 0 <= rnd n < n) -> Records e <> [] ->
  exists r, Records e !! Z.to_nat (rnd (BestK e + 1)) = Some r /\ r ∈ Records e /\
            Forall (by_priority r) (Records e).
Proof.
  intros I Hr Hne. destruct (BestK_spec e I Hne) as [Hb Hbest].
  specialize (Hr (BestK e + 1) ltac:(lia)).
  destruct (Records e !! Z.to_nat (rnd (BestK e + 1))) as [r|] eqn:E.
  - exists r. split_and!; [done|by eapply list_elem_of_lookup_2|].
    apply (Hbest _ _ E). lia.
  - apply lookup_ge_None in E. lia.
Qed.

Lemma best_drawn e : elector_inv e -> forall x, x ∈ Records e ->
  Forall (by_priority x) (Records e) ->
  exists i, 0 <= i < BestK e + 1 /\ Records e !! Z.to_nat i = Some x.
Proof.
  intros I x [i Hi]%list_elem_of_lookup Hb.
  destruct (BestK_spec e I) as [_ Hbest]; [intros E; by rewrite E in Hi|].
  exists (Z.of_nat i). rewrite Nat2Z.id. split; [|done].
  apply (Hbest _ _ Hi) in Hb. lia.
Qed.

(** The two lookups of [GetEndpoint], against the records. *)
Lemma node_current e : elector_inv e -> forall n k,
  KnownEndpointsByNodeId e !! n = Some k -> n ∈ NodeId <$> Records e ->
  known_Record k ∈ Records e /\ NodeId (known_Record k) = n.
Proof.
  intros [C _ _] n k Hk (x & -> & Hx)%list_elem_of_fmap.
  destruct (core_node _ C x Hx) as (k' & Hk' & Hin).
  split; [congruence|]. by apply (core_node_id _ C).
Qed.

Lemma preferred_node_Some e n k :
  (if negb (n =? 0) then KnownEndpointsByNodeId e !! n else None) = Some k ->
  n <> 0 /\ KnownEndpointsByNodeId e !! n = Some k.
Proof. destruct (n =? 0) eqn:E; cbn; [done|]. by bool_to_prop. Qed.

Lemma preferred_node_None e n : elector_inv e ->
  (if negb (n =? 0) then KnownEndpointsByNodeId e !! n else None) = None ->
  n <> 0 -> n ∈ NodeId <$> Records e -> False.
Proof.
  intros [C _ _] E Hn (x & -> & Hx)%list_elem_of_fmap.
  destruct (core_node _ C x Hx) as (k & Hk & _). rewrite Hk in E.
  apply Z.eqb_neq in Hn. by rewrite Hn in E.
Qed.

Lemma preferred_endpoint_Some e ep r : elector_inv e ->
  (if negb (String.eqb ep "") then KnownEndpoints e !! ep else None) = Some r ->
  ep <> "" /\ r ∈ Records e /\ Endpoint r = ep.
Proof.
  intros [C _ _]. destruct (String.eqb ep "") eqn:E; cbn; [done|].
  apply String.eqb_neq in E. intros ?%(core_known _ C). done.
Qed.

Lemma preferred_endpoint_None e ep : elector_inv e ->
  (if negb (String.eqb ep "") then KnownEndpoints e !! ep else None) = None ->
  ep <> "" -> ep ∈ Endpoint <$> Records e -> False.
Proof.
  intros [C _ _] E Hn (x & -> & Hx)%list_elem_of_fmap.
  apply String.eqb_neq in Hn. rewrite Hn in E. cbn in E.
  assert (KnownEndpoints e !! Endpoint x = Some x) by (by apply (core_known _ C)). congruence.
Qed.

(** ** [ForEachEndpoint] *)

Definition in_range (lo hi : Z) (r : TEndpointRecord) : Prop := lo <= Priority r <= hi.
#[export] Instance in_range_dec lo hi r : Decision (in_range lo hi r).
Proof. unfold in_range. apply _. Defined.

(** The size of the handle passed for a node. *)
Definition handle_size (e : elector) (t : tag) (n : Z) : Z :=
  match (KnownEndpointsByNodeId e !! n ≫= (fun k => TaggedObjs k !! t))
        ≫= (fun g => registries e !! g) with
  | Some R => registry_Size R
  | None => 0
  end.

Lemma lower_bound_filter lo hi l : StronglySorted by_priority l ->
  filter (in_range lo hi) (lower_bound lo l) = filter (in_range lo hi) l /\
  Forall (fun r => lo <= Priority r) (lower_bound lo l) /\
  StronglySorted by_priority (lower_bound lo l) /\
  forall r, r ∈ lower_bound lo l -> r ∈ l.
Proof.
  induction 1 as [|x l Hs IH Hx]; cbn [lower_bound]; [by repeat constructor|].
  destruct (Priority x <? lo) eqn:E; bool_to_prop.
  - destruct IH as (H1 & H2 & H3 & H4).
    rewrite (filter_cons_False _ x) by (unfold in_range; lia).
    split_and!; [done|done|done|]. intros r Hr. right. auto.
  - split_and!; [done| |by constructor|done]. constructor; [lia|].
    eapply Forall_impl; [exact Hx|]. intros y. rewrite by_priority_le. lia.
Qed.

Lemma foreach_loop_spec e lo hi t l :
  (forall r, r ∈ l -> is_Some (KnownEndpointsByNodeId e !! NodeId r)) ->
  Forall (fun r => lo <= Priority r) l -> StronglySorted by_priority l ->
  foreach_loop e hi t l =
  Ok ((fun r => (NodeId r, handle_size e t (NodeId r))) <$> filter (in_range lo hi) l).
Proof.
  induction l as [|x l IH]; intros Hk Hlo Hs; cbn [foreach_loop]; [done|].
  inversion Hlo as [|? ? Hx Hl]; subst. inversion Hs as [|? ? Hs' Hle]; subst.
  destruct (Priority x >? hi) eqn:E; bool_to_prop.
  - assert (filter (in_range lo hi) (x :: l) = []) as ->; [|done].
    rewrite filter_cons_False by (unfold in_range; lia).
    destruct (filter (in_range lo hi) l) as [|y ys] eqn:Ey; [done|].
    assert (y ∈ filter (in_range lo hi) l) as Hy by (rewrite Ey; left).
    apply list_elem_of_filter in Hy as [[_ Hhi] Hin]. rewrite Forall_forall in Hle.
    specialize (Hle y Hin). apply by_priority_le in Hle. lia.
  - rewrite filter_cons_True by (unfold in_range; lia).
    destruct (Hk x ltac:(left)) as [k Ek]. rewrite Ek, IH; [|by intros; apply Hk; right|done|done].
    cbn. unfold handle_size at 2. by rewrite Ek.
Qed.

Lemma handle_size_linked e t n : elector_core e ->
  exists objs : gset obj, handle_size e t n = Z.of_nat (size objs) /\
    forall o, o ∈ objs <-> linked e o n t.
Proof.
  intros C. unfold handle_size, linked.
  destruct (KnownEndpointsByNodeId e !! n) as [k|] eqn:Ek; cbn.
  2:{ exists ∅. split; [done|]. intros o. split; [by intros ?%elem_of_empty|].
      by intros (k & g & ? & _). }
  destruct (TaggedObjs k !! t) as [g|] eqn:Et; cbn.
  2:{ exists ∅. split; [done|]. intros o. split; [by intros ?%elem_of_empty|].
      intros (k' & g & ? & ? & _). congruence. }
  destruct (core_tagged _ C _ _ _ _ Ek Et) as (R & HR & _). rewrite HR. exists (Objs R).
  split; [done|]. intros o. split.
  - intros Ho. exists k, g. split_and!; [done|done|]. apply (core_links _ C). eauto.
  - intros (k' & g' & [= <-] & Et' & (R' & HR' & Ho)%(core_links _ C)). congruence.
Qed.


(** C39: [GetEndpoint] returns the record of the preferred node if the node index
    has an entry for it: a current record when a record names the node, and a
    record that is not current any more when none does, the entry having been left
    behind.  If there is no such entry it returns the current record of the preferred
    endpoint; failing that, an empty record if only the preferred one is wanted or
    nothing is known, and otherwise a current record whose priority no other record
    beats.  Every such record can be drawn. *)
Theorem GetEndpoint_elects `{SortLaws} (rnd : Z -> Z) (e : elector) (key : TEndpointKey)
    (only : bool) :
  reachable_elector e -> (forall n, 0 < n -> 0 <= rnd n < n) ->
  exists r, GetEndpoint rnd e key only = Some r /\
    (key_NodeId key <> 0 -> key_NodeId key ∈ NodeId <$> Records e ->
       r ∈ Records e /\ NodeId r = key_NodeId key) /\
    (forall k, key_NodeId key <> 0 -> KnownEndpointsByNodeId e !! key_NodeId key = Some k ->
       r = known_Record k /\ NodeId r = key_NodeId key /\
       (key_NodeId key ∉ NodeId <$> Records e -> r ∉ Records e)) /\
    (key_NodeId key = 0 \/ KnownEndpointsByNodeId e !! key_NodeId key = None ->
     (key_Endpoint key <> "" -> key_Endpoint key ∈ Endpoint <$> Records e ->
        r ∈ Records e /\ Endpoint r = key_Endpoint key) /\
     (key_Endpoint key = "" \/ key_Endpoint key ∉ Endpoint <$> Records e ->
        (only = true \/ Records e = [] -> r = TEndpointRecord_default) /\
        (only = false -> Records e <> [] ->
           r ∈ Records e /\ Forall (by_priority r) (Records e)))) /\
    (forall x, x ∈ Records e -> Forall (by_priority x) (Records e) ->
       exists i, 0 <= i < BestK e + 1 /\ Records e !! Z.to_nat i = Some x).
Proof.
  intros I%reachable_elector_inv Hr. unfold GetEndpoint.
  set (bn := if negb (key_NodeId key =? 0) then _ else None).
  set (be := if negb (String.eqb _ _) then _ else None).
  assert (forall x, x ∈ Records e -> Forall (by_priority x) (Records e) ->
    exists i, 0 <= i < BestK e + 1 /\ Records e !! Z.to_nat i = Some x) as Hdraw
    by (by apply best_drawn).
  assert (bn = None -> key_NodeId key <> 0 -> KnownEndpointsByNodeId e !! key_NodeId key = None) as Hnone
    by (unfold bn; intros Hb Hn%Z.eqb_neq; by rewrite Hn in Hb).
  destruct bn as [k|] eqn:Ebn.
  - apply preferred_node_Some in Ebn as [Hn0 Hk]. exists (known_Record k).
    split_and!; [done| | |intros [?|?]; congruence|done].
    + intros _ Hin. by apply (node_current e I).
    + intros k' _ Hk'. assert (k' = k) as -> by congruence.
      pose proof (core_node_id _ (inv_core _ I) _ _ Hk) as Hid. split_and!; [done|done|].
      intros Hout Hin. apply Hout. rewrite <- Hid. by apply list_elem_of_fmap_2.
  - pose proof (preferred_node_None _ _ I Ebn) as Hno. specialize (Hnone eq_refl).
    assert (forall r, (forall k, key_NodeId key <> 0 -> KnownEndpointsByNodeId e !! key_NodeId key = Some k ->
       r = known_Record k /\ NodeId r = key_NodeId key /\
       (key_NodeId key ∉ NodeId <$> Records e -> r ∉ Records e))) as Hstale
      by (intros r k Hn Hk; rewrite (Hnone Hn) in Hk; done).
    destruct be as [r|] eqn:Ebe.
    + apply preferred_endpoint_Some in Ebe as (He0 & Hin & Hep); [|done]. exists r.
      split_and!; [done|by intros ? ?%Hno|apply Hstale| |done]. intros _. split; [done|].
      intros [?|Hout]; [done|]. destruct Hout. rewrite <- Hep. by apply list_elem_of_fmap_2.
    + pose proof (preferred_endpoint_None _ _ I Ebe) as Heo.
      destruct only; [|destruct (BestK e =? -1) eqn:Eb; bool_to_prop;
        rewrite BestK_none in Eb by done].
      * eexists. split_and!; [done|by intros ? ?%Hno|apply Hstale| |done]. intros _.
        split; [by intros ? ?%Heo|done].
      * eexists. split_and!; [done|by intros ? ?%Hno|apply Hstale| |done]. intros _.
        split; [by intros ? ?%Heo|done].
      * destruct (GetEndpoint_best rnd e I Hr Eb) as (r & -> & Hin & Hbest).
        exists r. split_and!; [done|by intros ? ?%Hno|apply Hstale| |done]. intros _.
        split; [by intros ? ?%Heo|]. intros _. split; [|done]. by intros [?|?].
Qed.

(** [SetNewState] returns exactly the current endpoints that the new list
    does not name, in order; the new records are the first ones given for each
    endpoint; the pessimization ratio restarts from 0; and the objects notified
    are exactly those linked to a node of a dropped endpoint. *)
Theorem SetNewState_correct `{SortLaws} (e : elector) (rs : list TEndpointRecord) :
  reachable_elector e -> valid_records rs ->
  exists removed e', SetNewState rs e = Ok (removed, e') /\
    removed = Endpoint <$> filter (fun r => Endpoint r ∉ endpoints_of rs) (Records e) /\
    (forall r, r ∈ Records e' <-> first_record rs r) /\
    GetPessimizationRatio e' = 0 /\
    (forall o, o ∈ notified e' <-> o ∈ notified e \/
       exists r t, r ∈ Records e /\ (Endpoint r ∉ endpoints_of rs) /\ linked e o (NodeId r) t).
Proof.
  intros I%reachable_elector_inv V.
  pose proof (SetNewState_wp rs e I V) as W.
  apply wp_run in W as (removed & e' & E & _ & Hr & Hrec & Hz & _ & _ & Ho).
  exists removed, e'. split_and!; [done|done|done|done|]. intros o. rewrite Ho.
  apply or_iff_compat_l. unfold gone_registry, gone, linked. split.
  - intros (g & Hg & r & k & t & [? ?] & ? & ?). exists r, t. eauto 10.
  - intros (r & t & ? & ? & k & g & ? & ? & ?). exists g. eauto 12.
Qed.

(** Pessimizing an endpoint makes its record the worst and changes no
    other; afterwards an unpinned [GetEndpoint] does not return that endpoint
    unless every record is pessimized. *)
Theorem PessimizeEndpoint_avoids `{SortLaws} (rnd : Z -> Z) (e : elector) (ep : string) :
  reachable_elector e -> (forall n, 0 < n -> 0 <= rnd n < n) -> Records e <> [] ->
  exists e' r, PessimizeEndpoint ep e = Ok (tt, e') /\
    Records e' ≡ₚ pess_ep ep <$> Records e /\
    GetEndpoint rnd e' TEndpointKey_default false = Some r /\
    (Endpoint r = ep -> Forall (fun x => Priority x = PessimizedPriority) (Records e')).
Proof.
  intros I%reachable_elector_inv Hr Hne. pose proof (PessimizeEndpoint_spec ep e I) as W.
  apply wp_run in W as ([] & e' & E & I' & Hp).
  assert (Records e' <> []) as Hne'.
  { intros En. rewrite En in Hp. apply Permutation_nil_l in Hp.
    by destruct (Records e). }
  destruct (GetEndpoint_best rnd e' I' Hr Hne') as (r & Er & Hin & Hb).
  exists e', r. split_and!; [done|done| |].
  - unfold GetEndpoint. cbn. destruct (BestK e' =? -1) eqn:Eb; [|done].
    bool_to_prop. by apply BestK_none in Eb.
  - intros Ep. rewrite Hp in Hin. apply list_elem_of_fmap in Hin as (x & -> & _).
    rewrite pess_ep_Endpoint in Ep. rewrite (pess_ep_same ep x Ep) in Hb.
    pose proof (core_priority _ (inv_core _ I')) as Hmax. rewrite Forall_forall in Hb, Hmax |- *.
    intros y Hy. specialize (Hb y Hy). specialize (Hmax y Hy).
    apply by_priority_le in Hb. cbn in Hb, Hmax. lia.
Qed.

(** The pessimization ratio is the number of pessimized records times the
    truncated share [100 / n] of one record; so with more than a hundred
    endpoints it is 0 however many of them are pessimized. *)
Theorem pessimization_ratio_exact `{SortLaws} (e : elector) :
  reachable_elector e ->
  GetPessimizationRatio e =
    pess_count (Records e) * (100 / Z.of_nat (length (Records e))) /\
  0 <= GetPessimizationRatio e <= 100 /\
  (100 < Z.of_nat (length (Records e)) -> GetPessimizationRatio e = 0).
Proof.
  intros I%reachable_elector_inv. unfold GetPessimizationRatio.
  rewrite (core_ratio _ (inv_core _ I)).
  pose proof (length_filter (fun r => Priority r = PessimizedPriority) (Records e)).
  assert (0 <= pess_count (Records e) <= Z.of_nat (length (Records e))) as Hc
    by (unfold pess_count; lia).
  set (n := Z.of_nat (length (Records e))) in *. set (c := pess_count (Records e)) in *.
  split_and!; [done| | |].
  - apply Z.mul_nonneg_nonneg; [lia|]. destruct (Z.eq_dec n 0) as [->|]; [done|].
    apply Z.div_pos; lia.
  - destruct (Z.eq_dec n 0) as [E|]; [rewrite E, Z.div_0_r; lia|].
    pose proof (Z.mul_div_le 100 n ltac:(lia)). pose proof (Z.div_pos 100 n ltac:(lia) ltac:(lia)).
    etrans; [apply (Z.mul_le_mono_nonneg_r c n); lia|done].
  - intros Hn. rewrite Z.div_small by lia. lia.
Qed.

(** [ForEachEndpoint] calls back once for each record whose priority is in
    the range, in the order of the records, with a handle that counts the
    objects linked to the record's node under the tag. *)
Theorem ForEachEndpoint_visits `{SortLaws} (e : elector) (lo hi : Z) (t : tag) :
  reachable_elector e ->
  exists calls, ForEachEndpoint e lo hi t = Ok calls /\
    calls.*1 = NodeId <$> filter (in_range lo hi) (Records e) /\
    Forall (fun '(n, c) => exists objs : gset obj, c = Z.of_nat (size objs) /\
              forall o, o ∈ objs <-> linked e o n t) calls.
Proof.
  intros I%reachable_elector_inv. destruct I as [C S _].
  destruct (lower_bound_filter lo hi _ S) as (H1 & H2 & H3 & H4).
  eexists. split.
  { unfold ForEachEndpoint. apply (foreach_loop_spec e lo hi t); [|done|done].
    intros r Hr%H4. destruct (core_node _ C r Hr) as (k & Hk & _). by exists k. }
  rewrite H1. split; [by rewrite <- list_fmap_compose|].
  rewrite Forall_fmap. apply Forall_forall. intros r _. cbn. by apply handle_size_linked.
Qed.

(** The node index is not purged when discovery moves an endpoint to
    another node: the old node keeps resolving to the endpoint, even after the
    endpoint itself has been dropped. *)
Theorem stale_node_entry (rnd : Z -> Z) :
  exists e, for_each run_op
      [OpSetNewState [mkRecord "a" 0 "" 1 ""]; OpSetNewState [mkRecord "a" 0 "" 2 ""];
       OpSetNewState [mkRecord "b" 0 "" 3 ""]] elector0 = Ok (tt, e) /\
    Records e = [mkRecord "b" 0 "" 3 ""] /\
    GetEndpoint rnd e (TEndpointKey_of_node 1) true = Some (mkRecord "a" 0 "" 1 "").
Proof. eexists. split; [vm_compute; reflexivity|]. split; reflexivity. Qed.

(** Decides a closed proposition by evaluation. *)
Ltac by_decide := eapply bool_decide_unpack; vm_compute; exact I.

(** Witnesses: two nodes, one endpoint pessimized, one object linked. *)
Definition sample_ops : list op :=
  [OpSetNewState [mkRecord "a" 5 "" 1 "x"; mkRecord "b" 3 "" 2 "x"; mkRecord "a" 1 "" 1 "y"];
   OpLink (TEndpointKey_of_node 2) 7%positive 1%positive; OpPessimizeEndpoint "b"].

Definition sample_elector : elector :=
  match for_each run_op sample_ops elector0 with Ok (_, e) => e | Fail _ => elector0 end.

Definition first_index (n : Z) : Z := 0.

Lemma sample_ops_valid : Forall valid_op sample_ops.
Proof. repeat constructor. Qed.

Lemma sample_reachable : reachable_elector sample_elector.
Proof. exists sample_ops. split; [apply sample_ops_valid|]. vm_compute. reflexivity. Qed.

Lemma first_index_range n : 0 < n -> 0 <= first_index n < n.
Proof. unfold first_index. lia. Qed.


(** A state with an entry left behind, and the record it gives. *)
Definition moved_ops : list op :=
  [OpSetNewState [mkRecord "a" 0 "" 1 ""]; OpSetNewState [mkRecord "a" 0 "" 2 ""]].

Definition moved_elector : elector :=
  match for_each run_op moved_ops elector0 with Ok (_, e) => e | Fail _ => elector0 end.

Lemma moved_reachable : reachable_elector moved_elector.
Proof. exists moved_ops. split; [by repeat constructor|]. vm_compute. reflexivity. Qed.

Lemma GetEndpoint_elects_witness :
  (exists r, GetEndpoint first_index sample_elector (mkKey "b" 0) false = Some r /\
            Endpoint r = "b") /\
  (exists r, GetEndpoint first_index moved_elector (mkKey "" 1) false = Some r /\
            NodeId r = 1 /\ r ∉ Records moved_elector).
Proof.
  split.
  - destruct (GetEndpoint_elects first_index sample_elector (mkKey "b" 0) false
                sample_reachable first_index_range) as (r & E & _ & _ & H & _).
    exists r. split; [exact E|]. apply H; [by left|done|]. by_decide.
  - destruct (GetEndpoint_elects first_index moved_elector (mkKey "" 1) false
                moved_reachable first_index_range) as (r & E & _ & H & _).
    exists r. split; [exact E|]. destruct (H (mkKnown (mkRecord "a" 0 "" 1 "") ∅)) as (_ & Hn & Ho);
      [done|vm_compute; reflexivity|]. split; [exact Hn|]. apply Ho. by_decide.
Defined.

Lemma SetNewState_correct_witness :
  exists removed e', SetNewState [mkRecord "c" 0 "" 3 ""] sample_elector = Ok (removed, e') /\
    length removed = 2%nat /\ 7%positive ∈ notified e'.
Proof.
  destruct (SetNewState_correct sample_elector [mkRecord "c" 0 "" 3 ""] sample_reachable)
    as (removed & e' & E & Hr & _ & _ & Ho); [repeat constructor|].
  exists removed, e'. split_and!; [exact E|rewrite Hr; vm_compute; reflexivity|].
  apply Ho. right. exists (mkRecord "b" PessimizedPriority "" 2 "x"), 1%positive.
  split_and!; [by_decide|by_decide|].
  do 2 eexists. split_and!; vm_compute; reflexivity.
Defined.

Lemma PessimizeEndpoint_avoids_witness :
  exists e' r, PessimizeEndpoint "a" sample_elector = Ok (tt, e') /\
    Records e' ≡ₚ pess_ep "a" <$> Records sample_elector /\
    GetEndpoint first_index e' TEndpointKey_default false = Some r /\
    (Endpoint r = "a" -> Forall (fun x => Priority x = PessimizedPriority) (Records e')).
Proof.
  apply (PessimizeEndpoint_avoids first_index sample_elector "a" sample_reachable
           first_index_range). vm_compute. discriminate.
Defined.

Lemma pessimization_ratio_exact_witness :
  GetPessimizationRatio sample_elector =
  pess_count (Records sample_elector) * (100 / Z.of_nat (length (Records sample_elector))).
Proof. apply (pessimization_ratio_exact sample_elector sample_reachable). Defined.

Lemma ForEachEndpoint_visits_witness :
  exists calls, ForEachEndpoint sample_elector 0 PessimizedPriority 1%positive = Ok calls /\
    calls.*1 = [1; 2].
Proof.
  destruct (ForEachEndpoint_visits sample_elector 0 PessimizedPriority 1%positive
              sample_reachable) as (calls & E & Hc & _).
  exists calls. split; [exact E|]. rewrite Hc. vm_compute. reflexivity.
Defined.
