(* ===== verification/EndpointPool.v ===== *)
(** * Endpoint discovery

    [TEndpointPool] of [src/src/client/impl/internal/db_driver_state/endpoint_pool.cpp],
    the balancing policies it applies
    ([src/src/client/impl/internal/common/balancing_policies.h]) and the periodic
    discovery task of [db_driver_state/state.cpp].

    A discovery is asynchronous: [UpdateAsync] starts it and [handler] runs when
    the response is there.  Between the two the pool goes on serving, and so it
    does between the two parts of the handler, which updates the elector and then
    takes the promise out under the pool's mutex and sets it; the step relation
    [pool_step] interleaves them with everything else. *)

From stdpp Require Import pretty.
From Stdlib Require Import SpecFloat.
From S2P Require Import Prelude Status Float32 Endpoints.

Inductive EPileState :=
  | PILE_UNSPECIFIED | PILE_PRIMARY | PILE_PROMOTED | PILE_SYNCHRONIZED
  | PILE_NOT_SYNCHRONIZED | PILE_SUSPENDED | PILE_DISCONNECTED | PILE_INACTIVE.

#[export] Instance EPileState_eq_dec : EqDecision EPileState.
Proof. solve_decision. Defined.

(** [Ydb::Bridge::PileState::State] as its wire number; protobuf keeps unknown
    numbers, for which the switch of the code has no case ([None]). *)
Definition GetPileState (state : Z) : option EPileState :=
  match state with
  | 0 => Some PILE_UNSPECIFIED
  | 1 => Some PILE_PRIMARY
  | 2 => Some PILE_PROMOTED
  | 3 => Some PILE_SYNCHRONIZED
  | 4 => Some PILE_NOT_SYNCHRONIZED
  | 5 => Some PILE_SUSPENDED
  | 6 => Some PILE_DISCONNECTED
  | 7 => Some PILE_INACTIVE
  | _ => None
  end.

Inductive EPolicyType := UseAllNodes | UsePreferableLocation | UsePreferablePileState.

Record TBalancingPolicy := mkPolicy {
  PolicyType : EPolicyType;
  policy_Location : option string;
  policy_PileState : EPileState
}.

Definition Policy_UseAllNodes : TBalancingPolicy := mkPolicy UseAllNodes None PILE_UNSPECIFIED.
Definition Policy_UsePreferableLocation (location : option string) : TBalancingPolicy :=
  mkPolicy UsePreferableLocation location PILE_UNSPECIFIED.
Definition Policy_UsePreferablePileState (pileState : EPileState) : TBalancingPolicy :=
  mkPolicy UsePreferablePileState None pileState.

(** The fields of [Ydb::Discovery::EndpointInfo] the pool reads. *)
Record EndpointInfo := mkInfo {
  address : string;
  port : N;
  load_factor : f32;
  ssl : bool;
  location : string;
  node_id : Z;
  ip_v4 : list string;
  ip_v6 : list string;
  ssl_target_name_override : string;
  bridge_pile_name : string
}.

Record ListEndpointsResult := mkListResult {
  endpoints : list EndpointInfo;
  self_location : string;
  pile_states : list (string * Z)
}.

(** [pileStates[pile.pile_name()] = pile] over the list: the last one wins. *)
Definition pile_map (l : list (string * Z)) : gmap string Z :=
  fold_left (fun m p => <[p.1 := p.2]> m) l ∅.

(** The switch of [GetPileState] falls off its end on an unknown number; the
    comparison then has no defined result. *)
Definition IsPreferredEndpoint (policy : TBalancingPolicy) (endpoint : EndpointInfo)
    (selfLocation : string) (pileStates : gmap string Z) : option bool :=
  match PolicyType policy with
  | UseAllNodes => Some true
  | UsePreferableLocation =>
      Some (String.eqb (location endpoint) (default selfLocation (policy_Location policy)))
  | UsePreferablePileState =>
      match pileStates !! bridge_pile_name endpoint with
      | Some state =>
          s ← GetPileState state; Some (bool_decide (s = policy_PileState policy))
      | None => Some true
      end
  end.

Definition LoadMax : f32 := f32_100.
Definition LoadMin : f32 := f32_m100.
Definition Multiplicator : f32 := f32_10.

Definition GetLocalityShift : Z := default 0 (f32_to_int (f32_mul LoadMax Multiplicator)).

(** [static_cast<std::int32_t>(multiplicator * min(LoadMax, max(LoadMin, f)))]. *)
Definition load_of (f : f32) : option Z :=
  f32_to_int (f32_mul Multiplicator (std_min LoadMax (std_max LoadMin f))).

(** [addr[0] != '['] and [addr[addr.size() - 1] != ']'] of a non-empty address. *)
Definition first_char (s : string) : option Ascii.ascii := String.get 0 s.
Definition last_char (s : string) : option Ascii.ascii := String.get (String.length s - 1) s.

Definition ipv6_endpoint (addr : string) (p : N) : string :=
  "ipv6:" +:+
  (if bool_decide (first_char addr = Some (Ascii.ascii_of_nat 91)) then "" else "[") +:+ addr +:+
  (if bool_decide (last_char addr = Some (Ascii.ascii_of_nat 93)) then "" else "]") +:+ ":" +:+ pretty p.

Definition ipv4_endpoint (addr : string) (p : N) : string :=
  "ipv4:" +:+ addr +:+ ":" +:+ pretty p.

Definition default_endpoint (addr : string) (p : N) : string := addr +:+ ":" +:+ pretty p.

(** [getIpSslTargetNameOverride]. *)
Definition ip_ssl_override (endpoint : EndpointInfo) : string :=
  if negb (String.eqb (ssl_target_name_override endpoint) "")
  then ssl_target_name_override endpoint
  else if ssl endpoint then address endpoint else "".

Definition nonempty (l : list string) : list string :=
  filter (fun a => a <> "") l.

(** The records of one endpoint of the response. *)
Definition endpoint_records (policy : TBalancingPolicy) (selfLocation : string)
    (pileStates : gmap string Z) (endpoint : EndpointInfo) : option (list TEndpointRecord) :=
  loadFactor ← load_of (load_factor endpoint);
  preferred ← IsPreferredEndpoint policy endpoint selfLocation pileStates;
  let loadFactor :=
    if (preferred : bool) then loadFactor else wrapS 32 (loadFactor + GetLocalityShift) in
  let mk e ssl := mkRecord e loadFactor ssl (node_id endpoint) (location endpoint) in
  let ips :=
    ((fun a => mk (ipv6_endpoint a (port endpoint)) (ip_ssl_override endpoint))
       <$> nonempty (ip_v6 endpoint)) ++
    ((fun a => mk (ipv4_endpoint a (port endpoint)) (ip_ssl_override endpoint))
       <$> nonempty (ip_v4 endpoint)) in
  match ips with
  | [] => Some [mk (default_endpoint (address endpoint) (port endpoint))
                  (ssl_target_name_override endpoint)]
  | _ => Some ips
  end.

Fixpoint discovery_records (policy : TBalancingPolicy) (selfLocation : string)
    (pileStates : gmap string Z) (l : list EndpointInfo) : option (list TEndpointRecord) :=
  match l with
  | [] => Some []
  | endpoint :: rest =>
      rs ← endpoint_records policy selfLocation pileStates endpoint;
      rest ← discovery_records policy selfLocation pileStates rest;
      Some (rs ++ rest)
  end.

(** ** The pool *)

Abbreviation promise := nat.

Record TEndpointUpdateResult := mkUpdate { Removed : list string; DiscoveryStatus : EStatus }.

Record pool := mkPool {
  Elector : elector;
  DiscoveryPromise : option promise;       (* None: not initialized *)
  LastUpdateTime : Z;
  BalancingPolicy : TBalancingPolicy;
  (* promises made so far, values set, and discoveries waiting for a response *)
  promises : promise;
  values : list (promise * TEndpointUpdateResult);
  running : nat;
  handled : option TEndpointUpdateResult;  (* what a handler that runs will answer *)
  (* the driver state around the pool: promises its periodic task subscribed
     to, channels deleted, last status (in Sync mode), statistics *)
  subscribed : list promise;
  DeletedChannels : list string;
  SyncMode : bool;
  LastDiscoveryStatus : EStatus;
  DiscoveryDuePessimization : Z;
  DiscoveryDueExpiration : Z
}.

Definition pool0 (policy : TBalancingPolicy) (sync : bool) : pool :=
  mkPool elector0 None 0 policy 0 [] 0 None [] [] sync STATUS_UNDEFINED 0 0.

Definition set_Elector (v : elector) (p : pool) : pool :=
  mkPool v (DiscoveryPromise p) (LastUpdateTime p) (BalancingPolicy p) (promises p) (values p)
    (running p) (handled p) (subscribed p) (DeletedChannels p) (SyncMode p) (LastDiscoveryStatus p)
    (DiscoveryDuePessimization p) (DiscoveryDueExpiration p).
Definition set_LastUpdateTime (v : Z) (p : pool) : pool :=
  mkPool (Elector p) (DiscoveryPromise p) v (BalancingPolicy p) (promises p) (values p)
    (running p) (handled p) (subscribed p) (DeletedChannels p) (SyncMode p) (LastDiscoveryStatus p)
    (DiscoveryDuePessimization p) (DiscoveryDueExpiration p).
Definition set_promises (d : option promise) (n : promise) (vs : list (promise * TEndpointUpdateResult))
    (r : nat) (p : pool) : pool :=
  mkPool (Elector p) d (LastUpdateTime p) (BalancingPolicy p) n vs r (handled p) (subscribed p)
    (DeletedChannels p) (SyncMode p) (LastDiscoveryStatus p)
    (DiscoveryDuePessimization p) (DiscoveryDueExpiration p).
Definition set_driver (subs : list promise) (del : list string) (st : EStatus) (pess exp : Z)
    (p : pool) : pool :=
  mkPool (Elector p) (DiscoveryPromise p) (LastUpdateTime p) (BalancingPolicy p) (promises p)
    (values p) (running p) (handled p) subs del (SyncMode p) st pess exp.
Definition set_handled (v : option TEndpointUpdateResult) (p : pool) : pool :=
  mkPool (Elector p) (DiscoveryPromise p) (LastUpdateTime p) (BalancingPolicy p) (promises p)
    (values p) (running p) v (subscribed p) (DeletedChannels p) (SyncMode p)
    (LastDiscoveryStatus p) (DiscoveryDuePessimization p) (DiscoveryDueExpiration p).

(** An operation of the elector, on the pool's elector. *)
Definition on_elector {A} (m : M elector A) : M pool A :=
  fun p => match m (Elector p) with
           | Ok (a, e) => Ok (a, set_Elector e p)
           | Fail f => Fail f
           end.

Definition UpdateAsync : M pool (promise * bool) :=
  p ← get_st;
  match DiscoveryPromise p with
  | Some future => mret (future, false)
  | None =>
      let future := promises p in
      modify (set_promises (Some future) (S future) (values p) (S (running p))) ;;
      mret (future, true)
  end.

(** [TPromise::SetValue] throws on an uninitialized or already set promise; the
    subscribed callback of the periodic task runs in it. *)
Definition SetValue (promise : option promise) (v : TEndpointUpdateResult) : M pool unit :=
  match promise with
  | None => throw "promise is not initialized"
  | Some i =>
      p ← get_st;
      if decide (i ∈ (values p).*1) then throw "value already set"
      else
        modify (set_promises (DiscoveryPromise p) (promises p) (values p ++ [(i, v)]) (running p)) ;;
        when (bool_decide (i ∈ subscribed p))
          (modify (fun p => set_driver (subscribed p) (DeletedChannels p ++ Removed v)
             (if SyncMode p then DiscoveryStatus v else LastDiscoveryStatus p)
             (DiscoveryDuePessimization p) (DiscoveryDueExpiration p) p))
  end.

Section handler.
Context `{Sorter}.

(** The lambda subscribed to the provider's future, up to the update of the elector. *)
Definition handler_update (now : Z) (result : ListEndpointsResult) (status : EStatus)
    : M pool unit :=
  p ← get_st;
  removed ←
    (if bool_decide (status = SUCCESS) then
       match discovery_records (BalancingPolicy p) (self_location result)
               (pile_map (pile_states result)) (endpoints result) with
       | None => abort "undefined behaviour"
       | Some records =>
           modify (set_LastUpdateTime now) ;;
           on_elector (SetNewState records)
       end
     else mret []);
  modify (set_handled (Some (mkUpdate removed status))).

(** Its end: the promise is swapped out and set; nothing else refers to it then. *)
Definition handler_answer : M pool unit :=
  p ← get_st;
  match handled p with
  | None => mret tt
  | Some u =>
      modify (set_handled None) ;;
      modify (set_promises None (promises p) (values p) (pred (running p))) ;;
      SetValue (DiscoveryPromise p) u
  end.

(** The lambda when nothing comes between. *)
Definition handler (now : Z) (result : ListEndpointsResult) (status : EStatus) : M pool unit :=
  handler_update now result status ;; handler_answer.

Definition TimeSinceLastUpdate (now : Z) (p : pool) : Z := u64 (now - LastUpdateTime p).

Definition BanEndpoint (endpoint : string) : M pool unit := on_elector (PessimizeEndpoint endpoint).
Definition BanNodeId (nodeId : Z) : M pool unit := on_elector (PessimizeNode nodeId).

Definition pool_GetPessimizationRatio (p : pool) : Z := GetPessimizationRatio (Elector p).

Definition pool_GetEndpoint (rnd : Z -> Z) (p : pool) (k : TEndpointKey) (only : bool) :=
  GetEndpoint rnd (Elector p) k only.

Definition pool_LinkObjToEndpoint (k : TEndpointKey) (o : positive) (t : positive) : M pool bool :=
  on_elector (LinkObjToEndpoint k o t).

Definition pool_ForEachEndpoint (p : pool) (t : positive) :=
  Endpoints.ForEachEndpoint (Elector p) 0 (2 ^ 31 - 1) t.
Definition ForEachLocalEndpoint (p : pool) (t : positive) :=
  Endpoints.ForEachEndpoint (Elector p) 0 (GetLocalityShift - 1) t.
Definition ForEachForeignEndpoint (p : pool) (t : positive) :=
  Endpoints.ForEachEndpoint (Elector p) GetLocalityShift (2 ^ 31 - 1 - 1) t.

Definition PESSIMIZATION_DISCOVERY_THRESHOLD : Z := 50.
Definition ENDPOINT_UPDATE_PERIOD : Z := 60 * 1000 * 1000.

(** The callback of [CreatePeriodicDiscoveryTask] on a live driver state. *)
Definition PeriodicDiscovery (status : EStatus) (now : Z) : M pool bool :=
  if negb (bool_decide (status = SUCCESS)) then mret false
  else
    p ← get_st;
    let pessThreshold := pool_GetPessimizationRatio p >? PESSIMIZATION_DISCOVERY_THRESHOLD in
    let expiration := TimeSinceLastUpdate now p >? ENDPOINT_UPDATE_PERIOD in
    modify (fun p => set_driver (subscribed p) (DeletedChannels p) (LastDiscoveryStatus p)
      (DiscoveryDuePessimization p + (if pessThreshold then 1 else 0))
      (DiscoveryDueExpiration p + (if expiration then 1 else 0)) p) ;;
    (if (pessThreshold || expiration)%bool then
       r ← UpdateAsync;
       when (snd r)
         (modify (fun p => set_driver (subscribed p ++ [fst r]) (DeletedChannels p)
            (LastDiscoveryStatus p) (DiscoveryDuePessimization p) (DiscoveryDueExpiration p) p))
     else mret tt) ;;
    mret true.

(** A response: its numbers are of the wire's types, its pile states known, and
    its addresses fewer than 2^31. *)
Definition valid_response (policy : TBalancingPolicy) (r : ListEndpointsResult) : Prop :=
  Forall (fun e => f32_valid (load_factor e) = true) (endpoints r) /\
  Forall (fun p => 0 <= p.2 <= 7) (pile_states r) /\
  Z.of_nat (length (endpoints r) + length (concat (ip_v4 <$> endpoints r)) +
            length (concat (ip_v6 <$> endpoints r))) < 2 ^ 31.

Inductive pool_action :=
  | PoolUpdate
  | PoolResponse (now : Z) (result : ListEndpointsResult) (status : EStatus)
  | PoolAnswer
  | PoolPeriodic (status : EStatus) (now : Z)
  | PoolBanEndpoint (endpoint : string)
  | PoolBanNode (nodeId : Z)
  | PoolLink (k : TEndpointKey) (o t : positive).

Definition run_pool (a : pool_action) : M pool unit :=
  match a with
  | PoolUpdate => UpdateAsync ;; mret tt
  | PoolResponse now result status => handler_update now result status
  | PoolAnswer => handler_answer
  | PoolPeriodic status now => PeriodicDiscovery status now ;; mret tt
  | PoolBanEndpoint e => BanEndpoint e
  | PoolBanNode n => BanNodeId n
  | PoolLink k o t => pool_LinkObjToEndpoint k o t ;; mret tt
  end.

(** A response arrives for a discovery that is waiting for one; its handler goes on once it
    has updated the elector. *)
Definition pool_enabled (p : pool) (a : pool_action) : Prop :=
  match a with
  | PoolResponse _ result _ =>
      running p <> O /\ handled p = None /\ valid_response (BalancingPolicy p) result
  | PoolAnswer => handled p <> None
  | _ => True
  end.

Inductive pool_step (p p' : pool) : Prop :=
  | pool_step_run a : pool_enabled p a -> run_pool a p = Ok (tt, p') -> pool_step p p'.

Definition pool_reachable (policy : TBalancingPolicy) (sync : bool) (p : pool) : Prop :=
  rtc pool_step (pool0 policy sync) p.
End handler.

(** ** The records of a response *)

Lemma GetLocalityShift_1000 : GetLocalityShift = 1000.
Proof. by vm_compute. Qed.

Lemma load_of_bound f : f32_valid f = true -> exists v, load_of f = Some v /\ Z.abs v <= 1000.
Proof. apply load_factor_bound. Qed.

Lemma fold_pile_map l : forall m k v,
  fold_left (fun (m : gmap string Z) p => <[p.1 := p.2]> m) l m !! k = Some v ->
  m !! k = Some v \/ (k, v) ∈ l.
Proof.
  induction l as [|[a b] l IH]; intros m k v; cbn; [by left|].
  intros [Hm|Hin]%IH; [|right; by right].
  apply lookup_insert_Some in Hm as [[<- <-]|[_ Hm]]; [right; left|by left].
Qed.

Lemma pile_map_Some l k v : pile_map l !! k = Some v -> (k, v) ∈ l.
Proof. intros [Hm|?]%fold_pile_map; [by rewrite lookup_empty in Hm|done]. Qed.

Lemma GetPileState_known z : 0 <= z <= 7 -> is_Some (GetPileState z).
Proof.
  intros H. assert (z = 0 \/ z = 1 \/ z = 2 \/ z = 3 \/ z = 4 \/ z = 5 \/ z = 6 \/ z = 7) by lia.
  destruct_or!; subst; by eexists.
Qed.

Lemma IsPreferred_known policy e self l :
  Forall (fun p : string * Z => 0 <= p.2 <= 7) l ->
  is_Some (IsPreferredEndpoint policy e self (pile_map l)).
Proof.
  intros Hl. unfold IsPreferredEndpoint. destruct (PolicyType policy); [by eexists|by eexists|].
  destruct (pile_map l !! bridge_pile_name e) as [st|] eqn:E; [|by eexists].
  apply pile_map_Some in E. rewrite Forall_forall in Hl. specialize (Hl _ E).
  destruct (GetPileState_known st Hl) as [s ->]. by eexists.
Qed.

(** What the records of an endpoint have in common. *)
Definition record_of (e : EndpointInfo) (priority : Z) (r : TEndpointRecord) : Prop :=
  NodeId r = node_id e /\ Location r = location e /\ Priority r = priority.

Lemma nonempty_length l : (length (nonempty l) <= length l)%nat.
Proof. apply length_filter. Qed.

Lemma endpoint_records_spec policy self piles e preferred :
  f32_valid (load_factor e) = true ->
  IsPreferredEndpoint policy e self piles = Some preferred ->
  exists rs load, load_of (load_factor e) = Some load /\ Z.abs load <= 1000 /\
    endpoint_records policy self piles e = Some rs /\ rs <> [] /\
    (length rs <= 1 + length (ip_v4 e) + length (ip_v6 e))%nat /\
    Forall (record_of e (if preferred then load else load + 1000)) rs.
Proof.
  intros Hf Hp. destruct (load_of_bound _ Hf) as (load & Hl & Hb).
  unfold endpoint_records. rewrite Hl, Hp. cbn [mbind option_bind].
  rewrite GetLocalityShift_1000, (wrapS_small 32 (load + 1000)) by (lia || unfold inS; lia).
  set (prio := if preferred then load else load + 1000).
  set (ips := _ ++ _).
  assert (Forall (record_of e prio) ips) as Hips.
  { apply Forall_app. split; apply Forall_fmap, Forall_true; done. }
  assert (length ips <= length (ip_v4 e) + length (ip_v6 e))%nat as Hlen.
  { unfold ips. rewrite length_app, !length_fmap.
    pose proof (nonempty_length (ip_v4 e)). pose proof (nonempty_length (ip_v6 e)). lia. }
  destruct ips as [|r rs]; do 2 eexists.
  - split_and!; [done|done|done|done|cbn; lia|]. by repeat constructor.
  - split_and!; [done|done|done|done|cbn in *; lia|done].
Qed.

Lemma discovery_records_spec policy self piles l :
  Forall (fun p : string * Z => 0 <= p.2 <= 7) piles ->
  Forall (fun e => f32_valid (load_factor e) = true) l ->
  exists rs, discovery_records policy self (pile_map piles) l = Some rs /\
    (length rs <= length l + length (concat (ip_v4 <$> l)) + length (concat (ip_v6 <$> l)))%nat /\
    (forall r, r ∈ rs -> exists e priority, e ∈ l /\ record_of e priority r /\
       -1000 <= priority <= 2000) /\
    (forall e, e ∈ l -> exists load preferred r,
       load_of (load_factor e) = Some load /\
       IsPreferredEndpoint policy e self (pile_map piles) = Some preferred /\
       r ∈ rs /\ record_of e (if preferred : bool then load else load + 1000) r).
Proof.
  intros Hp. induction 1 as [|e l He _ IH]; cbn [discovery_records].
  { exists []. split_and!; [done|done|by intros ? ?%elem_of_nil|by intros ? ?%elem_of_nil]. }
  destruct IH as (rest & -> & Hlen & Hall & Hex).
  destruct (IsPreferred_known policy e self piles Hp) as [preferred Hpref].
  destruct (endpoint_records_spec policy self (pile_map piles) e preferred He Hpref)
    as (rs & load & Hl & Hb & -> & Hne & Hlen' & Hrs).
  exists (rs ++ rest). cbn [mbind option_bind]. rewrite Forall_forall in Hrs. split_and!.
  - done.
  - cbn. rewrite !length_app. lia.
  - intros r [Hr|Hr]%elem_of_app.
    + exists e, (if preferred then load else load + 1000).
      split_and!; [left|by apply Hrs| |]; destruct preferred; lia.
    + destruct (Hall r Hr) as (e' & pr & ? & ? & ?). exists e', pr. split_and!; [by right|done|lia|lia].
  - intros e' [->|Hin]%elem_of_cons.
    + destruct rs as [|r rs]; [done|]. exists load, preferred, r.
      split_and!; [done|done|by left|apply Hrs; left].
    + destruct (Hex e' Hin) as (ld & pf & r & ? & ? & ? & ?). exists ld, pf, r.
      split_and!; [done|done|apply elem_of_app; by right|done].
Qed.

Lemma valid_response_records policy r : valid_response policy r ->
  exists rs, discovery_records policy (self_location r) (pile_map (pile_states r)) (endpoints r)
             = Some rs /\ valid_records rs.
Proof.
  intros (Hf & Hp & Hn).
  destruct (discovery_records_spec policy (self_location r) (pile_states r) (endpoints r) Hp Hf)
    as (rs & E & Hlen & Hall & _).
  exists rs. split; [done|]. split; [lia|]. apply Forall_forall. intros x Hx.
  destruct (Hall x Hx) as (e & pr & _ & (_ & _ & ->) & ?). unfold PessimizedPriority. lia.
Qed.

(** ** The invariant of the pool *)

Lemma wp_on_elector {A} (m : M elector A) Q p :
  wp m (fun a e => Q a (set_Elector e p)) (Elector p) -> wp (on_elector m) Q p.
Proof. unfold wp, on_elector. by destruct (m (Elector p)) as [[a e]|]. Qed.

Lemma reachable_elector_step `{Sorter} a e e' :
  reachable_elector e -> valid_op a -> run_op a e = Ok (tt, e') -> reachable_elector e'.
Proof.
  intros (ops & V & E) Va Ea. exists (ops ++ [a]). split; [by apply Forall_app; auto|].
  clear V. revert E. generalize elector0. induction ops as [|b ops IH]; intros e0.
  - intros [= ->]. unfold for_each, mbind, M_bind. cbn. by rewrite Ea.
  - cbn. unfold mbind, M_bind. destruct (run_op b e0) as [[u e1]|]; [apply IH|done].
Qed.

Record pool_inv `{Sorter} (p : pool) : Prop := {
  pi_elector : reachable_elector (Elector p);
  pi_running : running p = match DiscoveryPromise p with Some _ => 1%nat | None => O end;
  pi_once : NoDup (values p).*1;
  pi_made : forall i, (i < promises p)%nat <->
    i ∈ (values p).*1 \/ DiscoveryPromise p = Some i;
  pi_unset : forall i, DiscoveryPromise p = Some i -> i ∉ (values p).*1;
  pi_handled : handled p <> None -> DiscoveryPromise p <> None
}.

(** An elector operation of the pool is one of the elector's histories. *)
Lemma pool_inv_elector `{Sorter} p e : pool_inv p -> reachable_elector e ->
  pool_inv (set_Elector e p).
Proof. intros [] He. by split. Qed.

Lemma on_elector_op `{SortLaws} {A} (m : M elector A) a p :
  valid_op a -> (forall e, run_op a e = (m ;; mret tt) e) -> pool_inv p ->
  wp (on_elector m) (fun r p' => pool_inv p' /\
     exists e', m (Elector p) = Ok (r, e') /\ p' = set_Elector e' p) p.
Proof.
  intros V E I. apply wp_on_elector.
  pose proof (run_op_inv a (Elector p) V (reachable_elector_inv _ (pi_elector _ I))) as W.
  unfold wp in W. pose proof (reachable_elector_step a (Elector p)) as Hs.
  rewrite E in W. setoid_rewrite E in Hs. unfold wp, mbind, M_bind in *.
  destruct (m (Elector p)) as [[r e']|f]; [|done]. cbn. split; [|eauto].
  apply pool_inv_elector; [done|]. apply Hs; [apply I|done|done].
Qed.

Lemma UpdateAsync_spec `{Sorter} p : pool_inv p ->
  wp UpdateAsync (fun r p' => pool_inv p' /\ Elector p' = Elector p /\
    DiscoveryPromise p' = Some (fst r) /\ LastUpdateTime p' = LastUpdateTime p /\
    (snd r = true <-> DiscoveryPromise p = None)) p.
Proof.
  intros I. destruct I as [I1 I2 I3 I4 I5 I6]. unfold UpdateAsync. wp_steps.
  destruct (DiscoveryPromise p) as [i|] eqn:Ed; wp_steps.
  - split_and!; [|done|done|done|done]. split; rewrite ?Ed; done.
  - split_and!; [|done|done|done|done]. split; cbn; [done|by rewrite I2|done| | |done].
    + intros i. split.
      * intros Hi. destruct (decide (i = promises p)) as [->|]; [by right|].
        left. destruct (proj1 (I4 i)) as [?|?]; [lia|done|done].
      * intros [Hi|[= <-]]; [|lia]. assert (i < promises p)%nat by (apply I4; auto). lia.
    + intros i [= <-] Hin. assert (promises p < promises p)%nat by (apply I4; auto). lia.
Qed.

Lemma pool_inv_time `{Sorter} p v : pool_inv p -> pool_inv (set_LastUpdateTime v p).
Proof. intros []. by split. Qed.

Lemma pool_inv_driver `{Sorter} p a b c d e : pool_inv p -> pool_inv (set_driver a b c d e p).
Proof. intros []. by split. Qed.

Lemma pool_inv_handled `{Sorter} p u : pool_inv p ->
  (u <> None -> DiscoveryPromise p <> None) -> pool_inv (set_handled u p).
Proof. intros []. by split. Qed.

(** Setting the promise of the discovery that was running. *)
Lemma SetValue_spec `{Sorter} p i v : pool_inv p -> handled p = None ->
  DiscoveryPromise p = Some i ->
  wp (SetValue (Some i) v) (fun _ p' => pool_inv p' /\ DiscoveryPromise p' = None /\
    values p' = values p ++ [(i, v)] /\ Elector p' = Elector p /\
    LastUpdateTime p' = LastUpdateTime p /\
    DeletedChannels p' = DeletedChannels p ++
      (if bool_decide (i ∈ subscribed p) then Removed v else []))
    (set_promises None (promises p) (values p) (pred (running p)) p).
Proof.
  intros [I1 I2 I3 I4 I5 I6] Hh Ed. specialize (I5 i Ed). rewrite Ed in I2, I4.
  assert (pool_inv (set_promises None (promises p) (values p ++ [(i, v)]) (pred (running p)) p))
    as I'.
  { split; cbn; [done|by rewrite I2| | |done|by rewrite Hh].
    - rewrite fmap_app. apply NoDup_app. split_and!; [done| |apply NoDup_singleton].
      intros x Hx [->|?%elem_of_nil]%elem_of_cons; done.
    - intros j. rewrite fmap_app, elem_of_app. cbn. rewrite list_elem_of_singleton, I4.
      split; [intros [?|[= ->]]; auto|intros [[?| ->]|?]; [auto|auto|done]]. }
  unfold SetValue. wp_steps. cbn. rewrite decide_False by done. wp_steps; cbn in *.
  - split_and!; try done; [by apply pool_inv_driver|]. by rewrite H0.
  - split_and!; try done. by rewrite H0, app_nil_r.
Qed.

Lemma handler_update_spec `{SortLaws} now res status p :
  pool_inv p -> running p <> O -> valid_response (BalancingPolicy p) res ->
  exists removed,
  wp (handler_update now res status) (fun _ p' => pool_inv p' /\
    handled p' = Some (mkUpdate removed status) /\
    DiscoveryPromise p' = DiscoveryPromise p /\ values p' = values p /\
    DeletedChannels p' = DeletedChannels p /\ subscribed p' = subscribed p /\
    (status = SUCCESS -> LastUpdateTime p' = now /\ exists rs,
       discovery_records (BalancingPolicy p) (self_location res) (pile_map (pile_states res))
         (endpoints res) = Some rs /\ valid_records rs /\
       SetNewState rs (Elector p) = Ok (removed, Elector p')) /\
    (status <> SUCCESS -> removed = [] /\ Elector p' = Elector p /\
       LastUpdateTime p' = LastUpdateTime p)) p.
Proof.
  intros I Hr V. pose proof (pi_running _ I) as Hrun.
  assert (DiscoveryPromise p <> None) as Hd by (by destruct (DiscoveryPromise p)).
  unfold handler_update. destruct (decide (status = SUCCESS)) as [Es|Es].
  - rewrite bool_decide_eq_true_2 by done.
    destruct (valid_response_records _ _ V) as (rs & Ers & Vrs).
    pose proof (on_elector_op (SetNewState rs) (OpSetNewState rs) (set_LastUpdateTime now p)
      Vrs (fun _ => eq_refl) (pool_inv_time p now I)) as W.
    apply wp_run in W as (removed & p1 & E1 & I1 & e' & E2 & ->). cbn in E2.
    exists removed. wp_steps. rewrite Ers. wp_steps. unfold wp at 1. rewrite E1. wp_steps.
    split_and!; try done; [by apply pool_inv_handled|]. intros _. split; [done|]. by exists rs.
  - rewrite bool_decide_eq_false_2 by done. exists []. wp_steps.
    split_and!; try done. by apply pool_inv_handled.
Qed.

Lemma handler_answer_spec `{Sorter} p u : pool_inv p -> handled p = Some u ->
  exists i, DiscoveryPromise p = Some i /\
  wp handler_answer (fun _ p' => pool_inv p' /\ DiscoveryPromise p' = None /\
    values p' = values p ++ [(i, u)] /\ Elector p' = Elector p /\
    LastUpdateTime p' = LastUpdateTime p /\
    DeletedChannels p' = DeletedChannels p ++
      (if bool_decide (i ∈ subscribed p) then Removed u else [])) p.
Proof.
  intros I Hu. pose proof (pi_handled _ I ltac:(by rewrite Hu)) as Hd.
  destruct (DiscoveryPromise p) as [i|] eqn:Ed; [|done]. exists i. split; [done|].
  unfold handler_answer. wp_steps. rewrite Hu. wp_steps. rewrite Ed.
  by apply (SetValue_spec (set_handled None p) i u); [apply pool_inv_handled|..].
Qed.

Lemma handler_spec `{SortLaws} now res status p :
  pool_inv p -> running p <> O -> valid_response (BalancingPolicy p) res ->
  exists i removed, DiscoveryPromise p = Some i /\
  wp (handler now res status) (fun _ p' => pool_inv p' /\ DiscoveryPromise p' = None /\
    values p' = values p ++ [(i, mkUpdate removed status)] /\
    DeletedChannels p' = DeletedChannels p ++
      (if bool_decide (i ∈ subscribed p) then removed else []) /\
    (status = SUCCESS -> LastUpdateTime p' = now /\ exists rs,
       discovery_records (BalancingPolicy p) (self_location res) (pile_map (pile_states res))
         (endpoints res) = Some rs /\ valid_records rs /\
       SetNewState rs (Elector p) = Ok (removed, Elector p')) /\
    (status <> SUCCESS -> removed = [] /\ Elector p' = Elector p /\
       LastUpdateTime p' = LastUpdateTime p)) p.
Proof.
  intros I Hr V. pose proof (pi_running _ I) as Hrun.
  destruct (DiscoveryPromise p) as [i|] eqn:Ed; [|done].
  destruct (handler_update_spec now res status p I Hr V) as (removed & W).
  exists i, removed. split; [done|]. unfold handler. wp_steps. eapply wp_mono; [exact W|].
  intros _ p1 (I1 & Hu & E1 & E2 & E3 & E4 & Hs & Hf).
  destruct (handler_answer_spec p1 _ I1 Hu) as (j & Ej & W2).
  eapply wp_mono; [exact W2|]. cbn beta.
  intros _ p' (I' & F1 & F2 & F3 & F4 & F5). assert (j = i) as -> by congruence.
  rewrite F2, F3, F4, F5, E2, E3, E4. by split_and!.
Qed.

Lemma PeriodicDiscovery_spec `{Sorter} status now p : pool_inv p ->
  wp (PeriodicDiscovery status now) (fun b p' => pool_inv p' /\ Elector p' = Elector p /\
    LastUpdateTime p' = LastUpdateTime p /\ (b = true <-> status = SUCCESS) /\
    (DiscoveryPromise p' = None <-> DiscoveryPromise p = None /\
       (status = SUCCESS -> pool_GetPessimizationRatio p <= PESSIMIZATION_DISCOVERY_THRESHOLD /\
                            TimeSinceLastUpdate now p <= ENDPOINT_UPDATE_PERIOD))) p.
Proof.
  intros I. unfold PeriodicDiscovery. destruct (decide (status = SUCCESS)) as [Es|Es].
  2:{ rewrite bool_decide_eq_false_2 by done. cbn. wp_steps. split_and!; [done|done|done|done|].
      split; [by intros ->|by intros [? _]]. }
  rewrite bool_decide_eq_true_2 by done. cbn [negb]. wp_steps.
  set (a := pool_GetPessimizationRatio p >? _). set (b := TimeSinceLastUpdate now p >? _).
  assert ((a || b)%bool = false <->
    pool_GetPessimizationRatio p <= PESSIMIZATION_DISCOVERY_THRESHOLD /\
    TimeSinceLastUpdate now p <= ENDPOINT_UPDATE_PERIOD) as Hab.
  { unfold a, b. rewrite orb_false_iff, !Z.gtb_ltb, !Z.ltb_ge. done. }
  set (p1 := set_driver _ _ _ _ _ p).
  assert (pool_inv p1) as I1 by (by apply pool_inv_driver).
  destruct (a || b)%bool eqn:E; wp_steps.
  - eapply wp_mono; [by apply UpdateAsync_spec|].
    intros r p' (I' & E1 & E2 & E3 & _). cbn in E1, E3.
    assert (DiscoveryPromise p' = None <-> DiscoveryPromise p = None /\
      (status = SUCCESS -> pool_GetPessimizationRatio p <= PESSIMIZATION_DISCOVERY_THRESHOLD /\
                           TimeSinceLastUpdate now p <= ENDPOINT_UPDATE_PERIOD)) as HN.
    { rewrite E2. split; [done|]. intros [_ H1]. apply Hab in H1; [done|done]. }
    wp_steps; split_and!; try done. by apply pool_inv_driver.
  - split_and!; [done|done|done|done|]. cbn. split; [|by intros [? _]].
    intros ->. split; [done|]. intros _. by apply Hab.
Qed.

Lemma run_pool_inv `{SortLaws} a p : pool_enabled p a -> pool_inv p ->
  wp (run_pool a) (fun _ => pool_inv) p.
Proof.
  intros En I. destruct a as [|now res status| |status now|e|n|k o t]; cbn [run_pool].
  - wp_steps. eapply wp_mono; [by apply UpdateAsync_spec|]. by intros ? ? [? _].
  - destruct En as (Hr & _ & V). destruct (handler_update_spec now res status p I Hr V) as (r & W).
    eapply wp_mono; [exact W|]. by intros ? ? [? _].
  - cbn in En. destruct (handled p) as [u|] eqn:Hu; [|done].
    destruct (handler_answer_spec p u I Hu) as (i & _ & W).
    eapply wp_mono; [exact W|]. by intros ? ? [? _].
  - wp_steps. eapply wp_mono; [by apply PeriodicDiscovery_spec|]. by intros ? ? [? _].
  - eapply wp_mono; [apply (on_elector_op _ (OpPessimizeEndpoint e)); [done| |done]|].
    + intros e'. cbn. unfold mbind, M_bind. by destruct (PessimizeEndpoint e e') as [[[] ?]|].
    + by intros ? ? [? _].
  - eapply wp_mono; [apply (on_elector_op _ (OpPessimizeNode n)); [done| |done]|].
    + intros e'. cbn. unfold mbind, M_bind. by destruct (PessimizeNode n e') as [[[] ?]|].
    + by intros ? ? [? _].
  - wp_steps. eapply wp_mono; [by apply (on_elector_op _ (OpLink k o t))|]. by intros ? ? [? _].
Qed.

Lemma pool_reachable_inv `{SortLaws} policy sync p : pool_reachable policy sync p -> pool_inv p.
Proof.
  intros Hr. refine (rtc_ind_r pool_inv (pool0 policy sync) _ _ p Hr).
  - split; cbn; [by exists []|done|constructor| |done|done].
    intros i. split; [lia|]. intros [?%elem_of_nil|?]; done.
  - intros p1 p2 _ [a En E] I. pose proof (run_pool_inv a p1 En I) as W.
    unfold wp in W. by rewrite E in W.
Qed.


(** When the response of a discovery arrives it answers the promise that
    started it.  A successful one makes the first record built for each address
    the current state and reports the endpoints that went; a failed one reports
    its status and leaves the endpoints and the update time alone. *)
Theorem discovery_answers `{SortLaws} (policy : TBalancingPolicy) (sync : bool) (p : pool)
    (now : Z) (res : ListEndpointsResult) (status : EStatus) :
  pool_reachable policy sync p -> running p <> O -> valid_response (BalancingPolicy p) res ->
  exists i u p', DiscoveryPromise p = Some i /\ handler now res status p = Ok (tt, p') /\
    values p' = values p ++ [(i, u)] /\ DiscoveryStatus u = status /\
    DiscoveryPromise p' = None /\
    (status = SUCCESS -> LastUpdateTime p' = now /\ exists rs,
       discovery_records (BalancingPolicy p) (self_location res) (pile_map (pile_states res))
         (endpoints res) = Some rs /\
       (forall r, r ∈ Records (Elector p') <-> first_record rs r) /\
       Removed u =
         Endpoint <$> filter (fun r => Endpoint r ∉ endpoints_of rs) (Records (Elector p))) /\
    (status <> SUCCESS -> Removed u = [] /\ Elector p' = Elector p /\
       LastUpdateTime p' = LastUpdateTime p).
Proof.
  intros I%pool_reachable_inv Hr V.
  destruct (handler_spec now res status p I Hr V) as (i & removed & Ed & W).
  apply wp_run in W as ([] & p' & E & _ & En & Ev & _ & Hs & Hf).
  exists i, (mkUpdate removed status), p'. split_and!; [done|done|done|done|done| |done].
  intros Es. destruct (Hs Es) as (Et & rs & Ers & Vrs & Eset). split; [done|].
  exists rs. split; [done|].
  pose proof (SetNewState_wp rs (Elector p) (reachable_elector_inv _ (pi_elector _ I)) Vrs) as W.
  unfold wp in W. rewrite Eset in W. destruct W as (_ & Hrem & Hrec & _). by split.
Qed.

(** Every endpoint of a response gets a record, every record belongs to an
    endpoint of the response (its node and location), and the priority is the
    scaled load factor, in -1000..1000, shifted up by 1000 for the endpoints the
    balancing policy does not prefer; so no addition overflows. *)
Theorem discovery_priorities (policy : TBalancingPolicy) (res : ListEndpointsResult) :
  valid_response policy res ->
  exists rs,
    discovery_records policy (self_location res) (pile_map (pile_states res)) (endpoints res)
      = Some rs /\
    (forall r, r ∈ rs -> exists e priority, e ∈ endpoints res /\ record_of e priority r /\
       -1000 <= priority <= 2000) /\
    (forall e, e ∈ endpoints res -> exists load preferred r,
       load_of (load_factor e) = Some load /\ Z.abs load <= 1000 /\
       IsPreferredEndpoint policy e (self_location res) (pile_map (pile_states res))
         = Some preferred /\
       r ∈ rs /\ record_of e (if preferred : bool then load else load + 1000) r).
Proof.
  intros (Hf & Hp & _).
  destruct (discovery_records_spec policy (self_location res) (pile_states res) (endpoints res)
              Hp Hf) as (rs & E & _ & Hall & Hex).
  exists rs. split_and!; [done|done|]. intros e He.
  destruct (Hex e He) as (load & pf & r & Hl & H1 & H2 & H3). exists load, pf, r.
  split_and!; [done| |done|done|done]. rewrite Forall_forall in Hf.
  destruct (load_of_bound _ (Hf e He)) as (v & Hv & Hb). congruence.
Qed.

(** The periodic task starts a discovery exactly when none is running and
    more than half of the endpoints are (by the ratio) pessimized or the last
    update is more than a minute old; it goes on unless the status it is called
    with is a failure. *)
Theorem rediscovery_triggers `{SortLaws} (policy : TBalancingPolicy) (sync : bool) (p : pool)
    (status : EStatus) (now : Z) :
  pool_reachable policy sync p ->
  exists b p', PeriodicDiscovery status now p = Ok (b, p') /\ (b = true <-> status = SUCCESS) /\
    Elector p' = Elector p /\
    (DiscoveryPromise p' = None <-> DiscoveryPromise p = None /\
       (status = SUCCESS -> pool_GetPessimizationRatio p <= 50 /\
                            TimeSinceLastUpdate now p <= 60000000)).
Proof.
  intros I%pool_reachable_inv. pose proof (PeriodicDiscovery_spec status now p I) as W.
  apply wp_run in W as (b & p' & E & _ & Ee & _ & Hb & Hd). by exists b, p'.
Qed.

(** Witnesses: two nodes, one in the preferred location. *)
Definition sample_policy : TBalancingPolicy := Policy_UsePreferableLocation (Some "VLA").
Definition sample_response : ListEndpointsResult :=
  mkListResult
    [mkInfo "n1.ydb" 2135 f32_10 true "VLA" 1 ["10.0.0.1"; ""] ["::1"] "" "";
     mkInfo "n2.ydb" 2135 f32_100 false "MAN" 2 [] [] "" ""] "MAN" [("p", 1)].

Definition run_pool_all (l : list pool_action) (p : pool) : pool :=
  match for_each run_pool l p with Ok (_, p') => p' | Fail _ => p end.

Definition waiting_pool : pool := run_pool_all [PoolUpdate] (pool0 sample_policy true).
Definition sample_pool : pool := run_pool_all [PoolResponse 5 sample_response SUCCESS; PoolAnswer] waiting_pool.

Lemma sample_response_valid : valid_response sample_policy sample_response.
Proof. split_and!; [repeat constructor|repeat constructor; cbn; lia|vm_compute; reflexivity]. Qed.

Lemma waiting_pool_reachable : pool_reachable sample_policy true waiting_pool.
Proof. eapply rtc_once, (pool_step_run _ _ PoolUpdate); [done|]. vm_compute. reflexivity. Qed.

Lemma sample_pool_reachable : pool_reachable sample_policy true sample_pool.
Proof.
  eapply rtc_r; [eapply rtc_r; [exact waiting_pool_reachable|]|].
  - eapply (pool_step_run _ _ (PoolResponse 5 sample_response SUCCESS)).
    + split; [discriminate|]. split; [reflexivity|exact sample_response_valid].
    + vm_compute. reflexivity.
  - apply (pool_step_run _ _ PoolAnswer); [discriminate|]. vm_compute. reflexivity.
Qed.


Lemma discovery_answers_witness :
  exists i u p', DiscoveryPromise waiting_pool = Some i /\
    handler 5 sample_response SUCCESS waiting_pool = Ok (tt, p') /\
    values p' = values waiting_pool ++ [(i, u)].
Proof.
  destruct (discovery_answers sample_policy true waiting_pool 5 sample_response SUCCESS
    waiting_pool_reachable ltac:(discriminate) sample_response_valid)
    as (i & u & p' & H1 & H2 & H3 & _).
  exists i, u, p'. exact (conj H1 (conj H2 H3)).
Defined.

Lemma discovery_priorities_witness :
  exists rs, discovery_records sample_policy "MAN" (pile_map [("p", 1)])
               (endpoints sample_response) = Some rs.
Proof.
  destruct (discovery_priorities sample_policy sample_response sample_response_valid)
    as (rs & E & _). exists rs. exact E.
Defined.

Lemma rediscovery_triggers_witness :
  exists b p', PeriodicDiscovery SUCCESS 70000000 sample_pool = Ok (b, p').
Proof.
  destruct (rediscovery_triggers sample_policy true sample_pool SUCCESS 70000000
              sample_pool_reachable) as (b & p' & E & _).
  exists b, p'. exact E.
Defined.
