(* ===== verification/DeferredAck.v ===== *)
(** * Acknowledgement state of a deferred publication

    [TDeferredPublicationAckState] of
    [src/src/client/topic/impl/deferred_publication_ack_tracker.cpp]: counts the
    writes made through a publication handle and their acknowledgements, and
    lets Publish and Cancel wait until the two agree.

    The state is shared by the copies of a handle and by every write session
    they are used in.  [usage] is what those sessions have in flight; the step
    relation [ack_step] interleaves them with the waits, and [ack_run] is a run with
    the events that led to a state. *)

From S2P Require Import Prelude Status.

Abbreviation promise := positive.

Record tracker := mkTracker {
  WriteCount : Z;
  AckCount : Z;
  WaitCalled : bool;
  Sealed : bool;
  AllAcksReceived : option promise;    (* None: not initialized *)
  (* the promises of the waits: how many were made, and the values set *)
  next_promise : promise;
  completed : gmap promise EStatus
}.

Definition tracker0 : tracker := mkTracker 0 0 false false None 1 ∅.

Definition set_counts (w a : Z) (t : tracker) : tracker :=
  mkTracker w a (WaitCalled t) (Sealed t) (AllAcksReceived t) (next_promise t) (completed t).
Definition set_wait (w s : bool) (p : option promise) (n : promise) (t : tracker) : tracker :=
  mkTracker (WriteCount t) (AckCount t) w s p n (completed t).
Definition set_completed (c : gmap promise EStatus) (t : tracker) : tracker :=
  mkTracker (WriteCount t) (AckCount t) (WaitCalled t) (Sealed t) (AllAcksReceived t)
    (next_promise t) c.

(** [promise.TrySetValue(status)] keeps a value that is already there. *)
Definition TrySetValue (p : option promise) (status : EStatus) : M tracker unit :=
  match p with
  | None => throw "promise is not initialized"
  | Some p =>
      modify (fun t => match completed t !! p with
                       | Some _ => t
                       | None => set_completed (<[p := status]> (completed t)) t
                       end)
  end.

Definition TryOnWrite : M tracker bool :=
  t ← get_st;
  if Sealed t then mret false
  else modify (set_counts (u64 (WriteCount t + 1)) (AckCount t)) ;; mret true.

Definition OnAck : M tracker (Z * Z) :=
  modify (fun t => set_counts (WriteCount t) (u64 (AckCount t + 1)) t) ;;
  t ← get_st;
  abort_unless (AckCount t <=? WriteCount t) "AckCount_ <= WriteCount_" ;;
  when ((WriteCount t =? AckCount t) && WaitCalled t)%bool
    (TrySetValue (AllAcksReceived t) SUCCESS) ;;
  mret (WriteCount t, AckCount t).

Definition OnUnackedAbort (unackedCount : Z) : M tracker unit :=
  if unackedCount =? 0 then mret tt
  else
    t ← get_st;
    abort_unless (u64 (AckCount t + unackedCount) <=? WriteCount t)
      "WriteCount_ >= AckCount_ + unackedCount" ;;
    when (WaitCalled t)
      (modify (fun t => set_wait false false (AllAcksReceived t) (next_promise t) t)) ;;
    modify (fun t => set_counts (u64 (WriteCount t - unackedCount)) (AckCount t) t) ;;
    when (WaitCalled t) (TrySetValue (AllAcksReceived t) SESSION_EXPIRED).

(** [WaitAllAcks] returns a future: a ready success, or the one of a promise. *)
Inductive wait_future := Ready | Pending (p : promise).

Definition WaitAllAcks : M tracker wait_future :=
  t ← get_st;
  if WriteCount t =? 0 then mret Ready
  else
    let existing :=
      if WaitCalled t then
        match AllAcksReceived t with
        | Some p => if decide (is_Some (completed t !! p)) then None else Some p
        | None => None
        end
      else None in
    match existing with
    | Some p => mret (Pending p)
    | None =>
        let p := next_promise t in
        modify (set_wait true true (Some p) (Pos.succ p)) ;;
        when (WriteCount t =? AckCount t) (TrySetValue (Some p) SUCCESS) ;;
        mret (Pending p)
    end.

Definition IsSealed (t : tracker) : bool := Sealed t.

(** ** Use by write sessions and waiters *)

(** What the sessions have written through the handle and not had acknowledged. *)
Record usage := mkUsage { ack : tracker; outstanding : Z }.

Inductive ack_event :=
  | EvWrite            (* a write that was accepted *)
  | EvRefused          (* a write that was refused *)
  | EvAck
  | EvAbort (k : Z)    (* a session is aborted with [k] writes not acknowledged *)
  | EvWait.

Inductive ack_step : ack_event -> usage -> usage -> Prop :=
  | step_write t t' n :
      TryOnWrite t = Ok (true, t') -> WriteCount t + 1 < 2 ^ 64 ->
      ack_step EvWrite (mkUsage t n) (mkUsage t' (n + 1))
  | step_refused t t' n :
      TryOnWrite t = Ok (false, t') -> ack_step EvRefused (mkUsage t n) (mkUsage t' n)
  | step_ack t t' r n :
      0 < n -> OnAck t = Ok (r, t') -> ack_step EvAck (mkUsage t n) (mkUsage t' (n - 1))
  | step_abort t t' k n :
      0 <= k <= n -> OnUnackedAbort k t = Ok (tt, t') ->
      ack_step (EvAbort k) (mkUsage t n) (mkUsage t' (n - k))
  | step_wait t t' r n :
      WaitAllAcks t = Ok (r, t') -> ack_step EvWait (mkUsage t n) (mkUsage t' n).

Inductive ack_run : list ack_event -> usage -> Prop :=
  | run_start : ack_run [] (mkUsage tracker0 0)
  | run_step evs s ev s' : ack_run evs s -> ack_step ev s s' -> ack_run (evs ++ [ev]) s'.

(** The writes accepted in a run, those acknowledged, and those dropped with their session. *)
Definition count_events (f : ack_event -> Z) (evs : list ack_event) : Z :=
  foldr (fun e n => f e + n) 0 evs.
Definition writes_accepted : list ack_event -> Z :=
  count_events (fun e => match e with EvWrite => 1 | _ => 0 end).
Definition writes_acknowledged : list ack_event -> Z :=
  count_events (fun e => match e with EvAck => 1 | _ => 0 end).
Definition writes_dropped : list ack_event -> Z :=
  count_events (fun e => match e with EvAbort k => k | _ => 0 end).

Definition ack_reachable (s : usage) : Prop := exists evs, ack_run evs s.

(** Every write is acknowledged, dropped with its session, or outstanding; a
    sealed state has a wait, which is complete exactly when nothing is
    outstanding. *)
Record ack_inv (s : usage) : Prop := {
  ai_balance : WriteCount (ack s) = AckCount (ack s) + outstanding s;
  ai_range : 0 <= AckCount (ack s) /\ 0 <= outstanding s /\ WriteCount (ack s) < 2 ^ 64;
  ai_sealed : Sealed (ack s) = WaitCalled (ack s);
  ai_wait : WaitCalled (ack s) = true -> exists p, AllAcksReceived (ack s) = Some p /\
    (p < next_promise (ack s))%positive /\
    (outstanding s = 0 -> completed (ack s) !! p = Some SUCCESS) /\
    (outstanding s <> 0 -> completed (ack s) !! p = None);
  ai_fresh : forall p, (next_promise (ack s) <= p)%positive -> completed (ack s) !! p = None
}.

Lemma TryOnWrite_spec s : ack_inv s -> WriteCount (ack s) + 1 < 2 ^ 64 ->
  wp TryOnWrite (fun b t' =>
    ack_inv (mkUsage t' (outstanding s + if b then 1 else 0)) /\
    (b = false <-> Sealed (ack s) = true) /\
    completed t' = completed (ack s)) (ack s).
Proof.
  intros [B R S W F] Hw. unfold TryOnWrite. wp_steps.
  destruct (Sealed (ack s)) eqn:Es; wp_steps; (split; [|done]).
  - destruct s as [t n]. cbn in *. rewrite Z.add_0_r. split; cbn; [done|done|congruence|done|done].
  - rewrite wrapU_small by (unfold inU; cbn in *; lia).
    split; cbn; [lia|lia|congruence|congruence|done].
Qed.

Lemma OnAck_spec s : ack_inv s -> 0 < outstanding s ->
  wp OnAck (fun r t' => ack_inv (mkUsage t' (outstanding s - 1)) /\
    r = (WriteCount (ack s), AckCount (ack s) + 1)) (ack s).
Proof.
  intros [B R S W F] Hn. unfold OnAck. destruct s as [t n]. cbn in *. wp_steps; cbn in *.
  all: rewrite wrapU_small in * by (unfold inU; lia).
  - apply Z.leb_le. lia.
  - bool_to_prop. destruct (W ltac:(done)) as (p & Ep & Hlt & _ & H1).
    rewrite Ep. cbn. wp_steps. cbn. rewrite (H1 ltac:(lia)). cbn. split; [|done].
    split; cbn; [lia|lia|done| |].
    + intros _. exists p. split_and!; [done|done|by rewrite lookup_insert_eq|lia].
    + intros q Hq. rewrite lookup_insert_ne by lia. by apply F.
  - split; [|done]. split; cbn; [lia|lia|done| |done].
    intros Hw. destruct (W Hw) as (p & Ep & Hlt & _ & H1). exists p.
    split_and!; [done|done| |intros _; apply H1; lia].
    intros Hz. apply andb_false_iff in H as [H|H]; [apply Z.eqb_neq in H; lia|congruence].
Qed.

Lemma OnUnackedAbort_spec s k : ack_inv s -> 0 <= k <= outstanding s ->
  wp (OnUnackedAbort k) (fun _ t' => ack_inv (mkUsage t' (outstanding s - k)) /\
    (k <> 0 -> Sealed t' = false) /\
    (k <> 0 -> WaitCalled (ack s) = true -> exists p, AllAcksReceived (ack s) = Some p /\
       completed t' !! p = Some SESSION_EXPIRED)) (ack s).
Proof.
  intros [B R S W F] Hk. unfold OnUnackedAbort. destruct s as [t n]. cbn in *.
  destruct (k =? 0) eqn:E; bool_to_prop.
  { wp_steps. subst k. rewrite Z.sub_0_r. split; [by split|done]. }
  wp_steps; cbn in *.
  { apply Z.leb_le. rewrite wrapU_small by (unfold inU; lia). lia. }
  - rewrite wrapU_small by (unfold inU; lia).
    destruct (W ltac:(done)) as (p & Ep & Hlt & _ & H1). rewrite Ep. cbn. wp_steps.
    rewrite (H1 ltac:(lia)). cbn. split_and!; [|done|].
    + split; cbn; [lia|lia|done|done|]. intros q Hq. rewrite lookup_insert_ne by lia. by apply F.
    + intros _ _. exists p. by rewrite lookup_insert_eq.
  - congruence.
  - congruence.
  - rewrite wrapU_small by (unfold inU; lia). split_and!; [|congruence|congruence].
    split; cbn; [lia|lia|done|congruence|done].
Qed.

Lemma WaitAllAcks_spec s : ack_inv s ->
  wp WaitAllAcks (fun r t' => ack_inv (mkUsage t' (outstanding s)) /\
    match r with
    | Ready => WriteCount (ack s) = 0 /\ t' = ack s
    | Pending p => AllAcksReceived t' = Some p /\ Sealed t' = true /\ WaitCalled t' = true
    end) (ack s).
Proof.
  intros [B R S W F]. unfold WaitAllAcks. destruct s as [t n]. cbn in *. wp_steps.
  destruct (WriteCount t =? 0) eqn:E0; bool_to_prop; [by wp_steps|].
  set (existing := if WaitCalled t then _ else None).
  assert (forall p, existing = Some p ->
    WaitCalled t = true /\ AllAcksReceived t = Some p) as He.
  { unfold existing. intros p. destruct (WaitCalled t); [|done].
    destruct (AllAcksReceived t) as [q|]; [|done]. case_decide; [done|]. by intros [= ->]. }
  assert (existing = None -> WaitCalled t = false \/ outstanding (mkUsage t n) = 0) as Hn.
  { unfold existing. destruct (WaitCalled t); [|by left]. right. cbn.
    destruct (W eq_refl) as (p & Ep & _ & _ & H1). rewrite Ep in H.
    destruct (Z.eq_dec n 0) as [|Hne]; [done|]. rewrite (H1 Hne) in H.
    by rewrite decide_False in H by (by intros []). }
  destruct existing as [p|]; wp_steps; cbn in *.
  - destruct (He p eq_refl) as [Hw Hp]. split; [by split|]. split_and!; congruence.
  - destruct (completed t !! next_promise t) eqn:Ec; [by rewrite F in Ec by lia|].
    cbn. bool_to_prop. split; [|done]. split; cbn; [lia|lia|done| |].
    + intros _. exists (next_promise t). rewrite lookup_insert_eq. split_and!; [done|lia|done|lia].
    + intros q Hq. rewrite lookup_insert_ne by lia. apply F. lia.
  - bool_to_prop. split; [|done]. split; cbn; [lia|lia|done| |intros q Hq; apply F; lia].
    intros _. exists (next_promise t). split_and!; [done|lia|lia|intros _; apply F; lia].
Qed.

Lemma count_snoc f evs ev : count_events f (evs ++ [ev]) = count_events f evs + f ev.
Proof. unfold count_events. induction evs as [|e evs IH]; cbn in *; lia. Qed.

Lemma OnAck_counts t r t' : OnAck t = Ok (r, t') ->
  WriteCount t' = WriteCount t /\ AckCount t' = u64 (AckCount t + 1).
Proof.
  unfold OnAck, TrySetValue, abort_unless, abort, throw, when, modify, mbind, M_bind, get_st.
  cbn. repeat (case_goal; cbn; try done); intros [= _ <-]; done.
Qed.

Lemma OnUnackedAbort_counts k t t' : OnUnackedAbort k t = Ok (tt, t') -> AckCount t' = AckCount t.
Proof.
  unfold OnUnackedAbort, TrySetValue, abort_unless, abort, throw, when, modify, mbind, M_bind, get_st.
  cbn. repeat (case_goal; cbn; try done); intros [= <-]; done.
Qed.

Lemma WaitAllAcks_counts t r t' : WaitAllAcks t = Ok (r, t') -> AckCount t' = AckCount t.
Proof.
  unfold WaitAllAcks, TrySetValue, throw, when, modify, mbind, M_bind, get_st.
  cbn. repeat (case_goal; cbn; try done); intros [= _ <-]; done.
Qed.

(** A state agrees with the events that led to it. *)
Record run_inv (evs : list ack_event) (s : usage) : Prop := {
  ri_inv : ack_inv s;
  ri_acks : AckCount (ack s) = writes_acknowledged evs;
  ri_out : outstanding s = writes_accepted evs - writes_acknowledged evs - writes_dropped evs
}.

Ltac counts :=
  unfold writes_accepted, writes_acknowledged, writes_dropped in *; rewrite ?count_snoc; cbn.

Lemma ack_step_inv evs ev s s' : run_inv evs s -> ack_step ev s s' -> run_inv (evs ++ [ev]) s'.
Proof.
  intros [I A O] St.
  pose proof (ai_range _ I) as R. pose proof (ai_balance _ I) as B.
  destruct St as [t t' n E Hw|t t' n E|t t' r n Hn E|t t' k n Hk E|t t' r n E]; cbn in *.
  - pose proof (TryOnWrite_spec _ I Hw) as X. unfold wp in X. cbn in X. rewrite E in X.
    split; [apply X| |]; counts; [|lia].
    unfold TryOnWrite, mbind, M_bind, get_st, modify in E. destruct (Sealed t); [done|]. injection E as <-. cbn. lia.
  - assert (t' = t) as ->.
    { unfold TryOnWrite, mbind, M_bind, get_st, modify in E. destruct (Sealed t); [|done]. by injection E. }
    split; [done| |]; counts; lia.
  - pose proof (OnAck_spec _ I Hn) as X. unfold wp in X. cbn in X. rewrite E in X.
    destruct (OnAck_counts _ _ _ E) as [_ EA]. rewrite wrapU_small in EA by (unfold inU; lia).
    split; [apply X| |]; counts; lia.
  - pose proof (OnUnackedAbort_spec _ k I Hk) as X. unfold wp in X. cbn in X. rewrite E in X.
    pose proof (OnUnackedAbort_counts _ _ _ E). split; [apply X| |]; counts; lia.
  - pose proof (WaitAllAcks_spec _ I) as X. unfold wp in X. cbn in X. rewrite E in X.
    pose proof (WaitAllAcks_counts _ _ _ E). split; [apply X| |]; counts; lia.
Qed.

Lemma ack_run_inv evs s : ack_run evs s -> run_inv evs s.
Proof.
  induction 1; [|by eapply ack_step_inv]. split; [|done|done].
  split; cbn; [done|lia|done|done|]. intros. apply lookup_empty.
Qed.

Lemma ack_reachable_inv s : ack_reachable s -> ack_inv s.
Proof. intros [evs R%ack_run_inv]. apply R. Qed.

(** [n] acknowledgements in a row. *)
Fixpoint acks (n : nat) : M tracker unit :=
  match n with O => mret tt | S n => OnAck ;; acks n end.

Lemma acks_complete n : forall s p, ack_inv s -> outstanding s = Z.of_nat n ->
  WaitCalled (ack s) = true -> AllAcksReceived (ack s) = Some p ->
  wp (acks n) (fun _ t' => completed t' !! p = Some SUCCESS) (ack s).
Proof.
  induction n as [|n IH]; intros s p I Hn Hw Hp; cbn [acks].
  - wp_steps. destruct (ai_wait _ I Hw) as (q & Hq & _ & H0 & _).
    rewrite Hp in Hq. injection Hq as <-. apply H0. done.
  - pose proof (OnAck_spec _ I ltac:(lia)) as X. wp_steps.
    assert (wp OnAck (fun _ t' => WaitCalled t' = WaitCalled (ack s) /\
                        AllAcksReceived t' = AllAcksReceived (ack s)) (ack s)) as Y.
    { apply wp_run in X as (r & t' & E & _). unfold wp. rewrite E. revert E.
      unfold OnAck, TrySetValue, abort_unless, abort, throw, when, modify, mbind, M_bind, get_st.
      cbn. repeat (case_goal; cbn; try done); intros [= _ <-]; done. }
    unfold wp in X, Y |- *. destruct (OnAck (ack s)) as [[r t']|]; [|done].
    destruct X as [I' _], Y as [Y1 Y2].
    apply (IH (mkUsage t' (outstanding s - 1)) p I'); cbn; [lia|congruence|congruence].
Qed.

(** C31: over any interleaving of writes, acknowledgements, aborted sessions and waits on a
    deferred publication no count check aborts, as long as a session drops no more writes
    than are in flight.  What is in flight is what was accepted and neither acknowledged nor
    dropped with an aborted session.  The future of [WaitAllAcks] is complete with success
    exactly when nothing is in flight: every write accepted so far was acknowledged, or was
    dropped by an abort before this wait.  From then on writes are refused.  An abort that
    drops writes while a wait is pending makes that wait fail and lets writes in again. *)
Theorem deferred_wait_sound (evs : list ack_event) (s : usage) :
  ack_run evs s ->
  WriteCount (ack s) = AckCount (ack s) + outstanding s /\
  AckCount (ack s) = writes_acknowledged evs /\
  outstanding s = writes_accepted evs - writes_acknowledged evs - writes_dropped evs /\
  (0 < outstanding s -> exists r t', OnAck (ack s) = Ok (r, t')) /\
  (forall k, 0 <= k <= outstanding s -> exists t', OnUnackedAbort k (ack s) = Ok (tt, t') /\
     (k <> 0 -> IsSealed t' = false /\ (WaitCalled (ack s) = true -> exists p,
        AllAcksReceived (ack s) = Some p /\ completed t' !! p = Some SESSION_EXPIRED))) /\
  (exists r t', WaitAllAcks (ack s) = Ok (r, t') /\
     match r with
     | Ready => writes_accepted evs = writes_dropped evs /\ writes_acknowledged evs = 0
     | Pending p => IsSealed t' = true /\ TryOnWrite t' = Ok (false, t') /\
         completed t' !! p =
           if writes_accepted evs =? writes_acknowledged evs + writes_dropped evs then Some SUCCESS else None
     end).
Proof.
  intros [I A O]%ack_run_inv. pose proof (ai_balance _ I) as B. pose proof (ai_range _ I) as R.
  split_and!; [done|done|done| | |].
  - intros Hn. pose proof (OnAck_spec _ I Hn) as X. apply wp_run in X as (r & t' & E & _). eauto.
  - intros k Hk. pose proof (OnUnackedAbort_spec _ k I Hk) as X.
    apply wp_run in X as ([] & t' & E & _ & H1 & H2). exists t'. split; [done|]. auto.
  - pose proof (WaitAllAcks_spec _ I) as X. apply wp_run in X as (r & t' & E & I' & Hr).
    exists r, t'. split; [done|]. destruct r as [|p]; [destruct Hr; lia|].
    destruct Hr as (Hp & Hs & Hw). split_and!; [done| |].
    + unfold TryOnWrite, mbind, M_bind, get_st. by rewrite Hs.
    + destruct (ai_wait _ I' Hw) as (q & Hq & _ & H0 & H1). cbn in *.
      rewrite Hp in Hq. injection Hq as <-.
      destruct (writes_accepted evs =? writes_acknowledged evs + writes_dropped evs) eqn:Ez; bool_to_prop; [apply H0|apply H1]; lia.
Qed.

(** A wait is not lost: once every write in flight is acknowledged, the
    future of a wait that was pending has completed with success. *)
Theorem deferred_wait_completes (s : usage) (p : promise) :
  ack_reachable s -> WaitCalled (ack s) = true -> AllAcksReceived (ack s) = Some p ->
  exists t', acks (Z.to_nat (outstanding s)) (ack s) = Ok (tt, t') /\
    completed t' !! p = Some SUCCESS.
Proof.
  intros I%ack_reachable_inv Hw Hp. destruct (ai_range _ I) as (_ & Hn & _).
  pose proof (acks_complete (Z.to_nat (outstanding s)) s p I ltac:(lia) Hw Hp) as X.
  apply wp_run in X as ([] & t' & E & H). eauto.
Qed.

(** Witnesses: two writes, a wait, one acknowledgement. *)
Definition after {A} (m : M tracker A) (t : tracker) : tracker :=
  match m t with Ok (_, t') => t' | Fail _ => t end.

Definition sample_written : tracker := after TryOnWrite (after TryOnWrite tracker0).
Definition sample_waiting : tracker := after WaitAllAcks sample_written.
Definition sample_tracker : tracker := after OnAck sample_waiting.

Definition sample_events : list ack_event := [EvWrite; EvWrite; EvWait; EvAck].

Lemma sample_tracker_run : ack_run sample_events (mkUsage sample_tracker 1).
Proof.
  apply (run_step [EvWrite; EvWrite; EvWait] (mkUsage sample_waiting 2)).
  2: { apply (step_ack _ _ (2, 1) 2); [lia|vm_compute; reflexivity]. }
  apply (run_step [EvWrite; EvWrite] (mkUsage sample_written 2)).
  2: { apply (step_wait _ _ (Pending 1%positive)); vm_compute; reflexivity. }
  apply (run_step [EvWrite] (mkUsage (after TryOnWrite tracker0) 1)).
  2: { apply (step_write _ _ 1); vm_compute; reflexivity. }
  apply (run_step [] (mkUsage tracker0 0)); [constructor|].
  apply (step_write _ _ 0); vm_compute; reflexivity.
Qed.

Lemma sample_tracker_reachable : ack_reachable (mkUsage sample_tracker 1).
Proof. exists sample_events. exact sample_tracker_run. Qed.

Lemma deferred_wait_sound_witness :
  WriteCount sample_tracker = AckCount sample_tracker + 1 /\ AckCount sample_tracker = 1.
Proof.
  destruct (deferred_wait_sound sample_events _ sample_tracker_run) as (H1 & H2 & _).
  split; [exact H1|exact H2].
Defined.

Lemma deferred_wait_completes_witness :
  exists t', acks 1 sample_tracker = Ok (tt, t') /\ completed t' !! 1%positive = Some SUCCESS.
Proof.
  exact (deferred_wait_completes (mkUsage sample_tracker 1) 1%positive sample_tracker_reachable
           eq_refl eq_refl).
Defined.
