(* ===== verification/WriteTypes.v ===== *)
(** * Topic writer: data and request sizes

    The messages, blocks and batches of
    [src/src/client/topic/impl/write_session_impl.h], the write request they are
    put into, and the size estimation of
    [src/src/client/topic/impl/common.h] (namespace [NWriteSessionGrpc]) that
    keeps a request within the driver's limit.

    Payloads are lists of bytes; a [std::string_view] is the bytes it shows.
    Instants are microseconds since the epoch.  [varint_size] and the functions
    on it are protobuf's wire format. *)

From S2P Require Import Prelude.

Abbreviation bytes := (list Byte.byte).

Definition bsize (b : bytes) : Z := Z.of_nat (length b).

Inductive ECodec := RAW | GZIP | LZOP | ZSTD | KAFKA_BATCH | CUSTOM (id : Z).

#[export] Instance ECodec_eq_dec : EqDecision ECodec.
Proof. solve_decision. Defined.

(** [static_cast<ui32>(codec)]. *)
Definition codec_id (c : ECodec) : Z :=
  match c with RAW => 1 | GZIP => 2 | LZOP => 3 | ZSTD => 4 | KAFKA_BATCH => 5 | CUSTOM z => z end.

Record TTransactionId := mkTx { SessionId : string; TxId : string }.

#[export] Instance TTransactionId_eq_dec : EqDecision TTransactionId.
Proof. solve_decision. Defined.
#[export] Instance TTransactionId_countable : Countable TTransactionId.
Proof.
  refine (inj_countable (fun t => (SessionId t, TxId t))
            (fun p => Some (mkTx p.1 p.2)) _). by intros [].
Defined.

(** A publication handle: its identity and the ack state it shares with its
    copies ([operator==] compares the identity only). *)
Record TDeferredPublication := mkDeferred {
  IntPublicationId : Z;
  ExtPublicationId : option string;
  AckState : positive
}.

Definition deferred_eq (a b : TDeferredPublication) : bool :=
  ((IntPublicationId a =? IntPublicationId b) &&
   bool_decide (ExtPublicationId a = ExtPublicationId b))%bool.

(** [std::variant<std::monostate, TTransactionId, TDeferredPublication>]. *)
Inductive TWriteContext :=
  | NoContext
  | InTx (tx : TTransactionId)
  | InDeferred (d : TDeferredPublication).

Definition context_eq (a b : TWriteContext) : bool :=
  match a, b with
  | NoContext, NoContext => true
  | InTx s, InTx t => bool_decide (s = t)
  | InDeferred d, InDeferred f => deferred_eq d f
  | _, _ => false
  end.

Abbreviation meta := (list (string * string)).

Record TMessage := mkMessage {
  msg_Id : Z;
  msg_CreatedAt : Z;
  DataRef : bytes;
  msg_Codec : option ECodec;
  msg_OriginalSize : Z;
  msg_Meta : meta;
  msg_Context : TWriteContext
}.

Record TMessageBatch := mkBatch {
  batch_Data : bytes;
  Messages : list TMessage;
  CurrentSize : Z;
  StartedAt : Z;
  Acquired : bool;
  FlushRequested : bool
}.

Definition batch0 : TMessageBatch := mkBatch [] [] 0 0 false false.

Definition batch_Add (now : Z) (m : TMessage) (b : TMessageBatch) : TMessageBatch :=
  mkBatch (batch_Data b) (Messages b ++ [m])
    (CurrentSize b +
     (if decide (is_Some (msg_Codec m)) then msg_OriginalSize m else bsize (DataRef m)))
    (if StartedAt b =? 0 then now else StartedAt b) false (FlushRequested b).

Definition HasCodec (b : TMessageBatch) : bool :=
  match Messages b with [] => false | m :: _ => bool_decide (is_Some (msg_Codec m)) end.

(** [Acquire] copies the last payload into the batch's buffer. *)
Definition Acquire (b : TMessageBatch) : bool * TMessageBatch :=
  if Acquired b then (false, b)
  else
    match last (Messages b) with
    | None => (false, b)
    | Some m =>
        (true, mkBatch (batch_Data b ++ DataRef m) (Messages b) (CurrentSize b) (StartedAt b)
                 true (FlushRequested b))
    end.

Definition batch_Empty (b : TMessageBatch) : bool :=
  ((CurrentSize b =? 0) && bool_decide (Messages b = []))%bool.

Definition batch_Reset : TMessageBatch := batch0.

Record TBlock := mkBlock {
  Offset : Z;
  MessageCount : Z;
  block_OriginalSize : Z;
  OriginalMemoryUsage : Z;
  CodecID : Z;
  OriginalDataRefs : list bytes;
  block_CreatedAt : list Z;
  MessageKeys : list (option string);
  block_Data : bytes;
  Compressed : bool
}.

(** [TOriginalMessage]; [FlushPromise] names the promise of a pending [Flush]. *)
Record TOriginalMessage := mkOriginal {
  Id : Z;
  CreatedAt : Z;
  orig_Size : Z;
  MessageMeta : meta;
  WriteContext : TWriteContext;
  FlushPromise : option positive
}.

(** [StreamWriteMessage.WriteRequest]. *)
Record MessageData := mkData {
  seq_no : Z;
  created_at : Z;             (* milliseconds *)
  data : bytes;
  uncompressed_size : Z;
  metadata_items : meta
}.

Record WriteRequest := mkRequest {
  codec : Z;
  tx : option TTransactionId;
  deferred_publish : option (Z * option string);
  messages : list MessageData
}.

Definition request0 : WriteRequest := mkRequest 0 None None [].

Definition SetWriteContext (ctx : TWriteContext) (r : WriteRequest) : WriteRequest :=
  match ctx with
  | InDeferred d =>
      mkRequest (codec r) None (Some (IntPublicationId d, ExtPublicationId d)) (messages r)
  | InTx t => mkRequest (codec r) (Some t) None (messages r)
  | NoContext => r
  end.

Definition GetMessageKey (m : meta) : option string :=
  snd <$> list_find (fun kv => kv.1 = "__key") m ≫= (fun p => Some p.2).

Definition GetTransactionId (ctx : TWriteContext) : option TTransactionId :=
  match ctx with InTx t => Some t | _ => None end.

Definition DeferredPublishIdentityChanged (r : WriteRequest) (ctx : TWriteContext) : bool :=
  let messageDeferred := match ctx with InDeferred d => Some d | _ => None end in
  match deferred_publish r, messageDeferred with
  | None, d => bool_decide (is_Some d)
  | Some _, None => true
  | Some (int_id, ext_id), Some d =>
      if negb (int_id =? IntPublicationId d) then true
      else negb (bool_decide (ext_id = ExtPublicationId d))
  end.

(** ** Sizes on the wire *)

Definition varint_size (v : Z) : Z := if v <=? 0 then 1 else Z.log2 v / 7 + 1.

Definition TagSize (fieldNumber : Z) : Z := varint_size (fieldNumber * 8).
Definition Int64Size (v : Z) : Z := varint_size (u64 v).
Definition Int32Size (v : Z) : Z := if v <? 0 then 10 else varint_size v.
Definition LengthDelimitedSize (n : Z) : Z := varint_size n + n.

Definition ProtoInt32FieldSize (fieldNumber value : Z) : Z :=
  if value =? 0 then 0 else TagSize fieldNumber + Int32Size value.
Definition ProtoInt64FieldSize (fieldNumber value : Z) : Z :=
  if value =? 0 then 0 else TagSize fieldNumber + Int64Size value.
Definition ProtoUInt64FieldSize (fieldNumber value : Z) : Z :=
  if value =? 0 then 0 else TagSize fieldNumber + varint_size value.
Definition ProtoInt64FieldSizeUpperBound (fieldNumber : Z) : Z := TagSize fieldNumber + 10.
Definition ProtoBytesFieldSize (fieldNumber n : Z) : Z :=
  if n =? 0 then 0 else TagSize fieldNumber + LengthDelimitedSize n.
Definition ProtoStringFieldSize (fieldNumber n : Z) : Z :=
  if n =? 0 then 0 else TagSize fieldNumber + LengthDelimitedSize n.
Definition ProtoMessageFieldSize (fieldNumber n : Z) : Z :=
  TagSize fieldNumber + LengthDelimitedSize n.

Definition strlen (s : string) : Z := Z.of_nat (String.length s).

(** [TRequestSizeLimiter(envelopeFieldNumber, maxSize)], as its [BodySize]. *)
Definition limiter_Empty (bodySize : Z) : bool := bodySize =? 0.
Definition CanAdd (envelope maxSize bodySize delta : Z) : bool :=
  (limiter_Empty bodySize || (ProtoMessageFieldSize envelope (bodySize + delta) <=? maxSize))%bool.

(** An instant of [us] microseconds, as milliseconds. *)
Definition MilliSeconds (us : Z) : Z := us / 1000.

Definition ProtoTimestampFieldSize (fieldNumber us : Z) : Z :=
  let ms := MilliSeconds us in
  ProtoMessageFieldSize fieldNumber
    (ProtoInt64FieldSize 1 (ms / 1000) + ProtoInt32FieldSize 2 (ms mod 1000 * 1000000)).

Definition ProtoMetadataItemFieldSize (fieldNumber : Z) (item : string * string) : Z :=
  ProtoMessageFieldSize fieldNumber
    (ProtoStringFieldSize 1 (strlen item.1) + ProtoBytesFieldSize 2 (strlen item.2)).

Definition ProtoTransactionIdentityFieldSize (fieldNumber : Z) (t : TTransactionId) : Z :=
  ProtoMessageFieldSize fieldNumber
    (ProtoStringFieldSize 1 (strlen (TxId t)) + ProtoStringFieldSize 2 (strlen (SessionId t))).

Definition ProtoDeferredPublishIdentityFieldSize (fieldNumber : Z) (d : TDeferredPublication) : Z :=
  ProtoMessageFieldSize fieldNumber
    (ProtoUInt64FieldSize 1 (IntPublicationId d) +
     match ExtPublicationId d with Some e => ProtoStringFieldSize 2 (strlen e) | None => 0 end).

Definition ProtoWriteRequestContextFieldSize (ctx : TWriteContext) : Z :=
  match ctx with
  | InTx t => ProtoTransactionIdentityFieldSize 3 t
  | InDeferred d => ProtoDeferredPublishIdentityFieldSize 9 d
  | NoContext => 0
  end.

Definition ProtoTopicMessageDataFieldSize (createdAt dataSize uncompressedSize metadataSize : Z) : Z :=
  ProtoMessageFieldSize 1
    (ProtoInt64FieldSizeUpperBound 1 + ProtoTimestampFieldSize 2 createdAt +
     ProtoBytesFieldSize 3 dataSize + ProtoInt64FieldSize 4 uncompressedSize + metadataSize).

Definition sumZ {A} (f : A -> Z) (l : list A) : Z := foldr (fun x n => f x + n) 0 l.

Definition PARTITION_KEY_META_KEY : string := "__partition_key".

Definition metadata_size (m : meta) : Z := sumZ (ProtoMetadataItemFieldSize 7) m.

(** The metadata of the messages of a batch after the first one. *)
Definition partition_keys (m : meta) : meta :=
  filter (fun kv => kv.1 = PARTITION_KEY_META_KEY) m.

(** [Y_ABORT_UNLESS] on a missing original message is [None]. *)
Definition EstimateTopicWriteRequestBlockSize (block : TBlock) (originalMessages : list TOriginalMessage)
    (includeRequestFields : bool) : option Z :=
  match originalMessages with
  | [] => None
  | message :: rest =>
      let size0 :=
        if includeRequestFields
        then ProtoInt32FieldSize 2 (wrapS 32 (CodecID block)) +
             ProtoWriteRequestContextFieldSize (WriteContext message)
        else 0 in
      if MessageCount block >? 1 then
        let others := take (Z.to_nat (MessageCount block - 1)) rest in
        if Z.of_nat (length others) <? MessageCount block - 1 then None
        else
          let metadataSize := metadata_size (MessageMeta message) +
            sumZ (fun m => metadata_size (partition_keys (MessageMeta m))) others in
          Some (size0 + ProtoTopicMessageDataFieldSize (CreatedAt message) (bsize (block_Data block))
                          (block_OriginalSize block) metadataSize)
      else
        let metadataSize := metadata_size (MessageMeta message) in
        if Compressed block then
          Some (size0 + ProtoTopicMessageDataFieldSize (CreatedAt message) (bsize (block_Data block))
                          (block_OriginalSize block) metadataSize)
        else
          Some (size0 + sumZ (fun buffer =>
                  ProtoTopicMessageDataFieldSize (CreatedAt message) (bsize buffer)
                    (block_OriginalSize block) metadataSize) (OriginalDataRefs block))
  end.

(** ** Sums *)

Lemma sumZ_cons {A} (f : A -> Z) x l : sumZ f (x :: l) = f x + sumZ f l.
Proof. done. Qed.

Lemma sumZ_app {A} (f : A -> Z) l l' : sumZ f (l ++ l') = sumZ f l + sumZ f l'.
Proof. induction l as [|x l IH]; [done|]. rewrite <- app_comm_cons, !sumZ_cons, IH. lia. Qed.

Lemma sumZ_perm {A} (f : A -> Z) l l' : l ≡ₚ l' -> sumZ f l = sumZ f l'.
Proof. induction 1; rewrite ?sumZ_cons; [done|lia|lia|congruence]. Qed.

Lemma sumZ_nonneg {A} (f : A -> Z) l : Forall (fun x => 0 <= f x) l -> 0 <= sumZ f l.
Proof. induction 1; [done|]. rewrite sumZ_cons. lia. Qed.

Lemma sumZ_concat {A} (l : list (list A)) :
  sumZ (fun x => Z.of_nat (length x)) l = Z.of_nat (length (concat l)).
Proof.
  induction l as [|x l IH]; [done|]. rewrite sumZ_cons, IH. cbn. rewrite length_app. lia.
Qed.
