(* ===== verification/WriteSession.v ===== *)
(** * Topic write session

    [TWriteSessionImpl] of [src/src/client/topic/impl/write_session_impl.cpp] and
    [write_session_impl.h]: from the user's Write to the acknowledgement of the
    server, over batching, compression, requests, reconnects and the abort of
    the session.

    [ws] is the session object together with what it shares or has posted: the
    transaction infos, the ack states of deferred publications, the compression
    tasks, the write callbacks to come.  Each definition is one function of the
    code under the session's lock; a callback that takes the lock more than once is
    cut where it releases it, and [Pending] holds what it still has to do.  What is
    done after the lock without taking it again stays with the section before it:
    pushing events to the user's queue, which has a lock of its own, and setting
    promises.  The clock, the decision of the retry policy, the codecs and
    protobuf's memory use are arguments, being code of others. *)

From S2P Require Import Prelude Status DeferredAck WriteTypes.

Record settings := mkSettings {
  Codec_ : ECodec;
  BatchInnerCodec_ : option ECodec;
  MaxMemoryUsage_ : Z;
  BatchFlushInterval_ : Z;
  BatchFlushSizeBytes_ : option Z;
  BatchFlushMessageCount_ : Z;
  DeduplicationEnabled_ : option bool;
  ValidateSeqNo_ : bool;
  DirectWriteToPartition_ : bool;
  PartitionId_ : option Z;
  Path_ : string;
  Database : string;
  Meta_ : meta;
  ProducerId_ : string;
  MessageGroupId_ : string;
  ExecutorIsAsync : bool;
  MaxOutboundMessageSize : Z
}.

Record counters := mkCounters {
  Errors : Z; BytesWritten : Z; MessagesWritten : Z; BytesWrittenCompressed : Z;
  BytesInflightUncompressed : Z; BytesInflightCompressed : Z; MessagesInflight : Z
}.

Definition counters0 : counters := mkCounters 0 0 0 0 0 0 0.

Definition add_inflight (uncompressed compressed msgs : Z) (c : counters) : counters :=
  mkCounters (Errors c) (BytesWritten c) (MessagesWritten c) (BytesWrittenCompressed c)
    (BytesInflightUncompressed c + uncompressed) (BytesInflightCompressed c + compressed)
    (MessagesInflight c + msgs).

(** [AllAcksReceived]: not initialized, pending, or a value. *)
Inductive commit_promise := PromiseNone | PromisePending | PromiseSet (status : EStatus).

Record TTransactionInfo := mkTxInfo {
  IsActive : bool;
  Subscribed : bool;
  tx_AllAcksReceived : commit_promise;
  CommitCalled : bool;
  tx_WriteCount : Z;
  tx_AckCount : Z
}.

Definition txinfo0 : TTransactionInfo := mkTxInfo false false PromiseNone false 0 0.

Record TDeferredInFlightWrite := mkInFlight {
  if_AckState : option positive;
  if_IntPublicationId : Z;
  if_ExtPublicationId : option string;
  UnackedCount : Z
}.

Inductive auth_info := NoProvider | AuthPending | AuthReady (token : string) | AuthFailed.

Inductive ack_state := EES_WRITTEN | EES_ALREADY_WRITTEN | EES_DISCARDED | EES_WRITTEN_IN_TX.

(** [TWriteAck]: sequence number, state, offset and partition. *)
Record TWriteAck := mkAck { ack_SeqNo : Z; ack_State : ack_state; ack_Offset : Z; ack_Partition : Z }.

(** [StreamWriteMessage.FromClient]. *)
Inductive partitioning_case :=
  | ByPartitionWithGeneration (partition_id generation : Z)
  | ByPartitionId (partition_id : Z)
  | ByMessageGroup (message_group_id : string).

Inductive client_message :=
  | InitRequest (path producer_id : string) (partitioning : partitioning_case)
      (write_session_meta : meta)
  | WriteMessages (r : WriteRequest)
  | UpdateTokenRequest (token : string).

Inductive event := ReadyToAcceptEvent | AcksEvent (acks : list TWriteAck).

Record THandleResult := mkResult {
  DoRestart : bool;
  StartDelay : Z;
  DoStop : bool;
  DoSetSeqNo : bool
}.

Definition result0 : THandleResult := mkResult false 0 false false.

(** A status with whether one of its issues is WRITE_ERROR_PARTITION_INACTIVE. *)
Record TPlainStatus := mkStatus { st_Status : EStatus; partition_inactive : bool }.

(** [DescribePartitionResult]: partition, and node and generation of its location. *)
Record partition_info := mkPartition {
  partition_id : Z;
  partition_location : option (Z * Z)
}.

(** What a callback still has to do after it has released the session's lock: it takes
    the lock again for each of these. *)
Inductive pending_action :=
  | ToRead
  | ToHandle (result : THandleResult)
  | ToConnect (delay : Z)
  | ToUseDescription (status : TPlainStatus) (partition : partition_info)
  | ToFinishRead (doRead : bool) (errorStatus : option TPlainStatus) (result : THandleResult)
      (initSeqNo : option Z) (needSetValue : bool).

Record ws := mkWs {
  Settings : settings;
  MemoryUsage : Z;   (* bytes of payloads and queued requests *)
  FirstTokenSent : bool;
  ContinuationTokenIssued : bool;
  CurrentBatch : TMessageBatch;
  OriginalMessagesToSend : list TOriginalMessage;
  PackedMessagesToSend : list TBlock;   (* in the order the priority queue pops *)
  SentOriginalMessages : list TOriginalMessage;
  SentPackedMessage : list TBlock;
  SendImplScheduled : bool;
  Aborting : bool;
  SessionEstablished : bool;
  BatchingSupported : bool;
  PartitionId : Z;
  DirectWriteToPartitionId : option Z;
  Started : bool;
  ConnectionGeneration : Z;
  ConnectionAttemptsDone : Z;
  DescribePartitionContext : option Z;
  ConnectContext : option Z;
  ConnectTimeoutContext : option Z;
  ConnectDelayContext : option Z;
  next_context : Z;   (* names of contexts are numbers *)
  PreferredPartitionLocation : Z * Z;   (* node and generation *)
  ServerSessionId : string;
  NextId : Z;
  InitSeqNo : option Z;
  AutoSeqNoMode : option bool;
  InitSeqNoSetDone : bool;
  InitSeqNoPromise : option (option Z);   (* value, or exception *)
  UpdateTokenInProgress : bool;
  PrevToken : string;
  LastTokenUpdate : Z;
  MessagesAcquired : Z;
  Counters : counters;
  Txs : gmap TTransactionId positive;
  TxInfos : gmap positive TTransactionInfo;   (* the shared transaction infos *)
  WrittenInTx : gmap Z TTransactionId;
  WrittenInDeferred : gmap Z TDeferredInFlightWrite;
  Trackers : gmap positive tracker;   (* the shared ack states of publications *)
  Auth : auth_info;   (* what the credentials provider gives now *)
  Compressing : list TBlock;   (* posted compression tasks, as the blocks they give *)
  Requests : list Z;   (* memory of requests whose write callback is to come *)
  ScheduledTokens : nat;   (* posted ReadyToAccept events *)
  CloseEvent : option EStatus;
  Events : list event;   (* delivered to the user *)
  FlushResults : gmap positive bool;   (* completed flush promises *)
  next_flush : positive;
  Reads : list Z;   (* generations of the reads posted *)
  Wire : list client_message;   (* messages written to the processor *)
  Pending : list pending_action   (* the rest of callbacks that have begun *)
}.

(** Assignments to the members. *)
Definition set_Settings (v : settings) (s : ws) : ws :=
  mkWs v (MemoryUsage s) (FirstTokenSent s) (ContinuationTokenIssued s) (CurrentBatch s)
    (OriginalMessagesToSend s) (PackedMessagesToSend s) (SentOriginalMessages s)
    (SentPackedMessage s) (SendImplScheduled s) (Aborting s) (SessionEstablished s)
    (BatchingSupported s) (PartitionId s) (DirectWriteToPartitionId s) (Started s)
    (ConnectionGeneration s) (ConnectionAttemptsDone s) (DescribePartitionContext s)
    (ConnectContext s) (ConnectTimeoutContext s) (ConnectDelayContext s) (next_context s)
    (PreferredPartitionLocation s) (ServerSessionId s) (NextId s) (InitSeqNo s)
    (AutoSeqNoMode s) (InitSeqNoSetDone s) (InitSeqNoPromise s) (UpdateTokenInProgress s)
    (PrevToken s) (LastTokenUpdate s) (MessagesAcquired s) (Counters s) (Txs s) (TxInfos s)
    (WrittenInTx s) (WrittenInDeferred s) (Trackers s) (Auth s) (Compressing s) (Requests s)
    (ScheduledTokens s) (CloseEvent s) (Events s) (FlushResults s) (next_flush s) (Reads s)
    (Wire s) (Pending s).
Definition set_MemoryUsage (v : Z) (s : ws) : ws :=
  mkWs (Settings s) v (FirstTokenSent s) (ContinuationTokenIssued s) (CurrentBatch s)
    (OriginalMessagesToSend s) (PackedMessagesToSend s) (SentOriginalMessages s)
    (SentPackedMessage s) (SendImplScheduled s) (Aborting s) (SessionEstablished s)
    (BatchingSupported s) (PartitionId s) (DirectWriteToPartitionId s) (Started s)
    (ConnectionGeneration s) (ConnectionAttemptsDone s) (DescribePartitionContext s)
    (ConnectContext s) (ConnectTimeoutContext s) (ConnectDelayContext s) (next_context s)
    (PreferredPartitionLocation s) (ServerSessionId s) (NextId s) (InitSeqNo s)
    (AutoSeqNoMode s) (InitSeqNoSetDone s) (InitSeqNoPromise s) (UpdateTokenInProgress s)
    (PrevToken s) (LastTokenUpdate s) (MessagesAcquired s) (Counters s) (Txs s) (TxInfos s)
    (WrittenInTx s) (WrittenInDeferred s) (Trackers s) (Auth s) (Compressing s) (Requests s)
    (ScheduledTokens s) (CloseEvent s) (Events s) (FlushResults s) (next_flush s) (Reads s)
    (Wire s) (Pending s).
Definition set_FirstTokenSent (v : bool) (s : ws) : ws :=
  mkWs (Settings s) (MemoryUsage s) v (ContinuationTokenIssued s) (CurrentBatch s)
    (OriginalMessagesToSend s) (PackedMessagesToSend s) (SentOriginalMessages s)
    (SentPackedMessage s) (SendImplScheduled s) (Aborting s) (SessionEstablished s)
    (BatchingSupported s) (PartitionId s) (DirectWriteToPartitionId s) (Started s)
    (ConnectionGeneration s) (ConnectionAttemptsDone s) (DescribePartitionContext s)
    (ConnectContext s) (ConnectTimeoutContext s) (ConnectDelayContext s) (next_context s)
    (PreferredPartitionLocation s) (ServerSessionId s) (NextId s) (InitSeqNo s)
    (AutoSeqNoMode s) (InitSeqNoSetDone s) (InitSeqNoPromise s) (UpdateTokenInProgress s)
    (PrevToken s) (LastTokenUpdate s) (MessagesAcquired s) (Counters s) (Txs s) (TxInfos s)
    (WrittenInTx s) (WrittenInDeferred s) (Trackers s) (Auth s) (Compressing s) (Requests s)
    (ScheduledTokens s) (CloseEvent s) (Events s) (FlushResults s) (next_flush s) (Reads s)
    (Wire s) (Pending s).
Definition set_ContinuationTokenIssued (v : bool) (s : ws) : ws :=
  mkWs (Settings s) (MemoryUsage s) (FirstTokenSent s) v (CurrentBatch s)
    (OriginalMessagesToSend s) (PackedMessagesToSend s) (SentOriginalMessages s)
    (SentPackedMessage s) (SendImplScheduled s) (Aborting s) (SessionEstablished s)
    (BatchingSupported s) (PartitionId s) (DirectWriteToPartitionId s) (Started s)
    (ConnectionGeneration s) (ConnectionAttemptsDone s) (DescribePartitionContext s)
    (ConnectContext s) (ConnectTimeoutContext s) (ConnectDelayContext s) (next_context s)
    (PreferredPartitionLocation s) (ServerSessionId s) (NextId s) (InitSeqNo s)
    (AutoSeqNoMode s) (InitSeqNoSetDone s) (InitSeqNoPromise s) (UpdateTokenInProgress s)
    (PrevToken s) (LastTokenUpdate s) (MessagesAcquired s) (Counters s) (Txs s) (TxInfos s)
    (WrittenInTx s) (WrittenInDeferred s) (Trackers s) (Auth s) (Compressing s) (Requests s)
    (ScheduledTokens s) (CloseEvent s) (Events s) (FlushResults s) (next_flush s) (Reads s)
    (Wire s) (Pending s).
Definition set_CurrentBatch (v : TMessageBatch) (s : ws) : ws :=
  mkWs (Settings s) (MemoryUsage s) (FirstTokenSent s) (ContinuationTokenIssued s) v
    (OriginalMessagesToSend s) (PackedMessagesToSend s) (SentOriginalMessages s)
    (SentPackedMessage s) (SendImplScheduled s) (Aborting s) (SessionEstablished s)
    (BatchingSupported s) (PartitionId s) (DirectWriteToPartitionId s) (Started s)
    (ConnectionGeneration s) (ConnectionAttemptsDone s) (DescribePartitionContext s)
    (ConnectContext s) (ConnectTimeoutContext s) (ConnectDelayContext s) (next_context s)
    (PreferredPartitionLocation s) (ServerSessionId s) (NextId s) (InitSeqNo s)
    (AutoSeqNoMode s) (InitSeqNoSetDone s) (InitSeqNoPromise s) (UpdateTokenInProgress s)
    (PrevToken s) (LastTokenUpdate s) (MessagesAcquired s) (Counters s) (Txs s) (TxInfos s)
    (WrittenInTx s) (WrittenInDeferred s) (Trackers s) (Auth s) (Compressing s) (Requests s)
    (ScheduledTokens s) (CloseEvent s) (Events s) (FlushResults s) (next_flush s) (Reads s)
    (Wire s) (Pending s).
Definition set_OriginalMessagesToSend (v : list TOriginalMessage) (s : ws) : ws :=
  mkWs (Settings s) (MemoryUsage s) (FirstTokenSent s) (ContinuationTokenIssued s)
    (CurrentBatch s) v (PackedMessagesToSend s) (SentOriginalMessages s) (SentPackedMessage s)
    (SendImplScheduled s) (Aborting s) (SessionEstablished s) (BatchingSupported s)
    (PartitionId s) (DirectWriteToPartitionId s) (Started s) (ConnectionGeneration s)
    (ConnectionAttemptsDone s) (DescribePartitionContext s) (ConnectContext s)
    (ConnectTimeoutContext s) (ConnectDelayContext s) (next_context s)
    (PreferredPartitionLocation s) (ServerSessionId s) (NextId s) (InitSeqNo s)
    (AutoSeqNoMode s) (InitSeqNoSetDone s) (InitSeqNoPromise s) (UpdateTokenInProgress s)
    (PrevToken s) (LastTokenUpdate s) (MessagesAcquired s) (Counters s) (Txs s) (TxInfos s)
    (WrittenInTx s) (WrittenInDeferred s) (Trackers s) (Auth s) (Compressing s) (Requests s)
    (ScheduledTokens s) (CloseEvent s) (Events s) (FlushResults s) (next_flush s) (Reads s)
    (Wire s) (Pending s).
Definition set_PackedMessagesToSend (v : list TBlock) (s : ws) : ws :=
  mkWs (Settings s) (MemoryUsage s) (FirstTokenSent s) (ContinuationTokenIssued s)
    (CurrentBatch s) (OriginalMessagesToSend s) v (SentOriginalMessages s) (SentPackedMessage s)
    (SendImplScheduled s) (Aborting s) (SessionEstablished s) (BatchingSupported s)
    (PartitionId s) (DirectWriteToPartitionId s) (Started s) (ConnectionGeneration s)
    (ConnectionAttemptsDone s) (DescribePartitionContext s) (ConnectContext s)
    (ConnectTimeoutContext s) (ConnectDelayContext s) (next_context s)
    (PreferredPartitionLocation s) (ServerSessionId s) (NextId s) (InitSeqNo s)
    (AutoSeqNoMode s) (InitSeqNoSetDone s) (InitSeqNoPromise s) (UpdateTokenInProgress s)
    (PrevToken s) (LastTokenUpdate s) (MessagesAcquired s) (Counters s) (Txs s) (TxInfos s)
    (WrittenInTx s) (WrittenInDeferred s) (Trackers s) (Auth s) (Compressing s) (Requests s)
    (ScheduledTokens s) (CloseEvent s) (Events s) (FlushResults s) (next_flush s) (Reads s)
    (Wire s) (Pending s).
Definition set_SentOriginalMessages (v : list TOriginalMessage) (s : ws) : ws :=
  mkWs (Settings s) (MemoryUsage s) (FirstTokenSent s) (ContinuationTokenIssued s)
    (CurrentBatch s) (OriginalMessagesToSend s) (PackedMessagesToSend s) v (SentPackedMessage s)
    (SendImplScheduled s) (Aborting s) (SessionEstablished s) (BatchingSupported s)
    (PartitionId s) (DirectWriteToPartitionId s) (Started s) (ConnectionGeneration s)
    (ConnectionAttemptsDone s) (DescribePartitionContext s) (ConnectContext s)
    (ConnectTimeoutContext s) (ConnectDelayContext s) (next_context s)
    (PreferredPartitionLocation s) (ServerSessionId s) (NextId s) (InitSeqNo s)
    (AutoSeqNoMode s) (InitSeqNoSetDone s) (InitSeqNoPromise s) (UpdateTokenInProgress s)
    (PrevToken s) (LastTokenUpdate s) (MessagesAcquired s) (Counters s) (Txs s) (TxInfos s)
    (WrittenInTx s) (WrittenInDeferred s) (Trackers s) (Auth s) (Compressing s) (Requests s)
    (ScheduledTokens s) (CloseEvent s) (Events s) (FlushResults s) (next_flush s) (Reads s)
    (Wire s) (Pending s).
Definition set_SentPackedMessage (v : list TBlock) (s : ws) : ws :=
  mkWs (Settings s) (MemoryUsage s) (FirstTokenSent s) (ContinuationTokenIssued s)
    (CurrentBatch s) (OriginalMessagesToSend s) (PackedMessagesToSend s)
    (SentOriginalMessages s) v (SendImplScheduled s) (Aborting s) (SessionEstablished s)
    (BatchingSupported s) (PartitionId s) (DirectWriteToPartitionId s) (Started s)
    (ConnectionGeneration s) (ConnectionAttemptsDone s) (DescribePartitionContext s)
    (ConnectContext s) (ConnectTimeoutContext s) (ConnectDelayContext s) (next_context s)
    (PreferredPartitionLocation s) (ServerSessionId s) (NextId s) (InitSeqNo s)
    (AutoSeqNoMode s) (InitSeqNoSetDone s) (InitSeqNoPromise s) (UpdateTokenInProgress s)
    (PrevToken s) (LastTokenUpdate s) (MessagesAcquired s) (Counters s) (Txs s) (TxInfos s)
    (WrittenInTx s) (WrittenInDeferred s) (Trackers s) (Auth s) (Compressing s) (Requests s)
    (ScheduledTokens s) (CloseEvent s) (Events s) (FlushResults s) (next_flush s) (Reads s)
    (Wire s) (Pending s).
Definition set_SendImplScheduled (v : bool) (s : ws) : ws :=
  mkWs (Settings s) (MemoryUsage s) (FirstTokenSent s) (ContinuationTokenIssued s)
    (CurrentBatch s) (OriginalMessagesToSend s) (PackedMessagesToSend s)
    (SentOriginalMessages s) (SentPackedMessage s) v (Aborting s) (SessionEstablished s)
    (BatchingSupported s) (PartitionId s) (DirectWriteToPartitionId s) (Started s)
    (ConnectionGeneration s) (ConnectionAttemptsDone s) (DescribePartitionContext s)
    (ConnectContext s) (ConnectTimeoutContext s) (ConnectDelayContext s) (next_context s)
    (PreferredPartitionLocation s) (ServerSessionId s) (NextId s) (InitSeqNo s)
    (AutoSeqNoMode s) (InitSeqNoSetDone s) (InitSeqNoPromise s) (UpdateTokenInProgress s)
    (PrevToken s) (LastTokenUpdate s) (MessagesAcquired s) (Counters s) (Txs s) (TxInfos s)
    (WrittenInTx s) (WrittenInDeferred s) (Trackers s) (Auth s) (Compressing s) (Requests s)
    (ScheduledTokens s) (CloseEvent s) (Events s) (FlushResults s) (next_flush s) (Reads s)
    (Wire s) (Pending s).
Definition set_Aborting (v : bool) (s : ws) : ws :=
  mkWs (Settings s) (MemoryUsage s) (FirstTokenSent s) (ContinuationTokenIssued s)
    (CurrentBatch s) (OriginalMessagesToSend s) (PackedMessagesToSend s)
    (SentOriginalMessages s) (SentPackedMessage s) (SendImplScheduled s) v
    (SessionEstablished s) (BatchingSupported s) (PartitionId s) (DirectWriteToPartitionId s)
    (Started s) (ConnectionGeneration s) (ConnectionAttemptsDone s) (DescribePartitionContext s)
    (ConnectContext s) (ConnectTimeoutContext s) (ConnectDelayContext s) (next_context s)
    (PreferredPartitionLocation s) (ServerSessionId s) (NextId s) (InitSeqNo s)
    (AutoSeqNoMode s) (InitSeqNoSetDone s) (InitSeqNoPromise s) (UpdateTokenInProgress s)
    (PrevToken s) (LastTokenUpdate s) (MessagesAcquired s) (Counters s) (Txs s) (TxInfos s)
    (WrittenInTx s) (WrittenInDeferred s) (Trackers s) (Auth s) (Compressing s) (Requests s)
    (ScheduledTokens s) (CloseEvent s) (Events s) (FlushResults s) (next_flush s) (Reads s)
    (Wire s) (Pending s).
Definition set_SessionEstablished (v : bool) (s : ws) : ws :=
  mkWs (Settings s) (MemoryUsage s) (FirstTokenSent s) (ContinuationTokenIssued s)
    (CurrentBatch s) (OriginalMessagesToSend s) (PackedMessagesToSend s)
    (SentOriginalMessages s) (SentPackedMessage s) (SendImplScheduled s) (Aborting s) v
    (BatchingSupported s) (PartitionId s) (DirectWriteToPartitionId s) (Started s)
    (ConnectionGeneration s) (ConnectionAttemptsDone s) (DescribePartitionContext s)
    (ConnectContext s) (ConnectTimeoutContext s) (ConnectDelayContext s) (next_context s)
    (PreferredPartitionLocation s) (ServerSessionId s) (NextId s) (InitSeqNo s)
    (AutoSeqNoMode s) (InitSeqNoSetDone s) (InitSeqNoPromise s) (UpdateTokenInProgress s)
    (PrevToken s) (LastTokenUpdate s) (MessagesAcquired s) (Counters s) (Txs s) (TxInfos s)
    (WrittenInTx s) (WrittenInDeferred s) (Trackers s) (Auth s) (Compressing s) (Requests s)
    (ScheduledTokens s) (CloseEvent s) (Events s) (FlushResults s) (next_flush s) (Reads s)
    (Wire s) (Pending s).
Definition set_BatchingSupported (v : bool) (s : ws) : ws :=
  mkWs (Settings s) (MemoryUsage s) (FirstTokenSent s) (ContinuationTokenIssued s)
    (CurrentBatch s) (OriginalMessagesToSend s) (PackedMessagesToSend s)
    (SentOriginalMessages s) (SentPackedMessage s) (SendImplScheduled s) (Aborting s)
    (SessionEstablished s) v (PartitionId s) (DirectWriteToPartitionId s) (Started s)
    (ConnectionGeneration s) (ConnectionAttemptsDone s) (DescribePartitionContext s)
    (ConnectContext s) (ConnectTimeoutContext s) (ConnectDelayContext s) (next_context s)
    (PreferredPartitionLocation s) (ServerSessionId s) (NextId s) (InitSeqNo s)
    (AutoSeqNoMode s) (InitSeqNoSetDone s) (InitSeqNoPromise s) (UpdateTokenInProgress s)
    (PrevToken s) (LastTokenUpdate s) (MessagesAcquired s) (Counters s) (Txs s) (TxInfos s)
    (WrittenInTx s) (WrittenInDeferred s) (Trackers s) (Auth s) (Compressing s) (Requests s)
    (ScheduledTokens s) (CloseEvent s) (Events s) (FlushResults s) (next_flush s) (Reads s)
    (Wire s) (Pending s).
Definition set_PartitionId (v : Z) (s : ws) : ws :=
  mkWs (Settings s) (MemoryUsage s) (FirstTokenSent s) (ContinuationTokenIssued s)
    (CurrentBatch s) (OriginalMessagesToSend s) (PackedMessagesToSend s)
    (SentOriginalMessages s) (SentPackedMessage s) (SendImplScheduled s) (Aborting s)
    (SessionEstablished s) (BatchingSupported s) v (DirectWriteToPartitionId s) (Started s)
    (ConnectionGeneration s) (ConnectionAttemptsDone s) (DescribePartitionContext s)
    (ConnectContext s) (ConnectTimeoutContext s) (ConnectDelayContext s) (next_context s)
    (PreferredPartitionLocation s) (ServerSessionId s) (NextId s) (InitSeqNo s)
    (AutoSeqNoMode s) (InitSeqNoSetDone s) (InitSeqNoPromise s) (UpdateTokenInProgress s)
    (PrevToken s) (LastTokenUpdate s) (MessagesAcquired s) (Counters s) (Txs s) (TxInfos s)
    (WrittenInTx s) (WrittenInDeferred s) (Trackers s) (Auth s) (Compressing s) (Requests s)
    (ScheduledTokens s) (CloseEvent s) (Events s) (FlushResults s) (next_flush s) (Reads s)
    (Wire s) (Pending s).
Definition set_DirectWriteToPartitionId (v : option Z) (s : ws) : ws :=
  mkWs (Settings s) (MemoryUsage s) (FirstTokenSent s) (ContinuationTokenIssued s)
    (CurrentBatch s) (OriginalMessagesToSend s) (PackedMessagesToSend s)
    (SentOriginalMessages s) (SentPackedMessage s) (SendImplScheduled s) (Aborting s)
    (SessionEstablished s) (BatchingSupported s) (PartitionId s) v (Started s)
    (ConnectionGeneration s) (ConnectionAttemptsDone s) (DescribePartitionContext s)
    (ConnectContext s) (ConnectTimeoutContext s) (ConnectDelayContext s) (next_context s)
    (PreferredPartitionLocation s) (ServerSessionId s) (NextId s) (InitSeqNo s)
    (AutoSeqNoMode s) (InitSeqNoSetDone s) (InitSeqNoPromise s) (UpdateTokenInProgress s)
    (PrevToken s) (LastTokenUpdate s) (MessagesAcquired s) (Counters s) (Txs s) (TxInfos s)
    (WrittenInTx s) (WrittenInDeferred s) (Trackers s) (Auth s) (Compressing s) (Requests s)
    (ScheduledTokens s) (CloseEvent s) (Events s) (FlushResults s) (next_flush s) (Reads s)
    (Wire s) (Pending s).
Definition set_Started (v : bool) (s : ws) : ws :=
  mkWs (Settings s) (MemoryUsage s) (FirstTokenSent s) (ContinuationTokenIssued s)
    (CurrentBatch s) (OriginalMessagesToSend s) (PackedMessagesToSend s)
    (SentOriginalMessages s) (SentPackedMessage s) (SendImplScheduled s) (Aborting s)
    (SessionEstablished s) (BatchingSupported s) (PartitionId s) (DirectWriteToPartitionId s) v
    (ConnectionGeneration s) (ConnectionAttemptsDone s) (DescribePartitionContext s)
    (ConnectContext s) (ConnectTimeoutContext s) (ConnectDelayContext s) (next_context s)
    (PreferredPartitionLocation s) (ServerSessionId s) (NextId s) (InitSeqNo s)
    (AutoSeqNoMode s) (InitSeqNoSetDone s) (InitSeqNoPromise s) (UpdateTokenInProgress s)
    (PrevToken s) (LastTokenUpdate s) (MessagesAcquired s) (Counters s) (Txs s) (TxInfos s)
    (WrittenInTx s) (WrittenInDeferred s) (Trackers s) (Auth s) (Compressing s) (Requests s)
    (ScheduledTokens s) (CloseEvent s) (Events s) (FlushResults s) (next_flush s) (Reads s)
    (Wire s) (Pending s).
Definition set_ConnectionGeneration (v : Z) (s : ws) : ws :=
  mkWs (Settings s) (MemoryUsage s) (FirstTokenSent s) (ContinuationTokenIssued s)
    (CurrentBatch s) (OriginalMessagesToSend s) (PackedMessagesToSend s)
    (SentOriginalMessages s) (SentPackedMessage s) (SendImplScheduled s) (Aborting s)
    (SessionEstablished s) (BatchingSupported s) (PartitionId s) (DirectWriteToPartitionId s)
    (Started s) v (ConnectionAttemptsDone s) (DescribePartitionContext s) (ConnectContext s)
    (ConnectTimeoutContext s) (ConnectDelayContext s) (next_context s)
    (PreferredPartitionLocation s) (ServerSessionId s) (NextId s) (InitSeqNo s)
    (AutoSeqNoMode s) (InitSeqNoSetDone s) (InitSeqNoPromise s) (UpdateTokenInProgress s)
    (PrevToken s) (LastTokenUpdate s) (MessagesAcquired s) (Counters s) (Txs s) (TxInfos s)
    (WrittenInTx s) (WrittenInDeferred s) (Trackers s) (Auth s) (Compressing s) (Requests s)
    (ScheduledTokens s) (CloseEvent s) (Events s) (FlushResults s) (next_flush s) (Reads s)
    (Wire s) (Pending s).
Definition set_ConnectionAttemptsDone (v : Z) (s : ws) : ws :=
  mkWs (Settings s) (MemoryUsage s) (FirstTokenSent s) (ContinuationTokenIssued s)
    (CurrentBatch s) (OriginalMessagesToSend s) (PackedMessagesToSend s)
    (SentOriginalMessages s) (SentPackedMessage s) (SendImplScheduled s) (Aborting s)
    (SessionEstablished s) (BatchingSupported s) (PartitionId s) (DirectWriteToPartitionId s)
    (Started s) (ConnectionGeneration s) v (DescribePartitionContext s) (ConnectContext s)
    (ConnectTimeoutContext s) (ConnectDelayContext s) (next_context s)
    (PreferredPartitionLocation s) (ServerSessionId s) (NextId s) (InitSeqNo s)
    (AutoSeqNoMode s) (InitSeqNoSetDone s) (InitSeqNoPromise s) (UpdateTokenInProgress s)
    (PrevToken s) (LastTokenUpdate s) (MessagesAcquired s) (Counters s) (Txs s) (TxInfos s)
    (WrittenInTx s) (WrittenInDeferred s) (Trackers s) (Auth s) (Compressing s) (Requests s)
    (ScheduledTokens s) (CloseEvent s) (Events s) (FlushResults s) (next_flush s) (Reads s)
    (Wire s) (Pending s).
Definition set_DescribePartitionContext (v : option Z) (s : ws) : ws :=
  mkWs (Settings s) (MemoryUsage s) (FirstTokenSent s) (ContinuationTokenIssued s)
    (CurrentBatch s) (OriginalMessagesToSend s) (PackedMessagesToSend s)
    (SentOriginalMessages s) (SentPackedMessage s) (SendImplScheduled s) (Aborting s)
    (SessionEstablished s) (BatchingSupported s) (PartitionId s) (DirectWriteToPartitionId s)
    (Started s) (ConnectionGeneration s) (ConnectionAttemptsDone s) v (ConnectContext s)
    (ConnectTimeoutContext s) (ConnectDelayContext s) (next_context s)
    (PreferredPartitionLocation s) (ServerSessionId s) (NextId s) (InitSeqNo s)
    (AutoSeqNoMode s) (InitSeqNoSetDone s) (InitSeqNoPromise s) (UpdateTokenInProgress s)
    (PrevToken s) (LastTokenUpdate s) (MessagesAcquired s) (Counters s) (Txs s) (TxInfos s)
    (WrittenInTx s) (WrittenInDeferred s) (Trackers s) (Auth s) (Compressing s) (Requests s)
    (ScheduledTokens s) (CloseEvent s) (Events s) (FlushResults s) (next_flush s) (Reads s)
    (Wire s) (Pending s).
Definition set_ConnectContext (v : option Z) (s : ws) : ws :=
  mkWs (Settings s) (MemoryUsage s) (FirstTokenSent s) (ContinuationTokenIssued s)
    (CurrentBatch s) (OriginalMessagesToSend s) (PackedMessagesToSend s)
    (SentOriginalMessages s) (SentPackedMessage s) (SendImplScheduled s) (Aborting s)
    (SessionEstablished s) (BatchingSupported s) (PartitionId s) (DirectWriteToPartitionId s)
    (Started s) (ConnectionGeneration s) (ConnectionAttemptsDone s)
    (DescribePartitionContext s) v (ConnectTimeoutContext s) (ConnectDelayContext s)
    (next_context s) (PreferredPartitionLocation s) (ServerSessionId s) (NextId s) (InitSeqNo s)
    (AutoSeqNoMode s) (InitSeqNoSetDone s) (InitSeqNoPromise s) (UpdateTokenInProgress s)
    (PrevToken s) (LastTokenUpdate s) (MessagesAcquired s) (Counters s) (Txs s) (TxInfos s)
    (WrittenInTx s) (WrittenInDeferred s) (Trackers s) (Auth s) (Compressing s) (Requests s)
    (ScheduledTokens s) (CloseEvent s) (Events s) (FlushResults s) (next_flush s) (Reads s)
    (Wire s) (Pending s).
Definition set_ConnectTimeoutContext (v : option Z) (s : ws) : ws :=
  mkWs (Settings s) (MemoryUsage s) (FirstTokenSent s) (ContinuationTokenIssued s)
    (CurrentBatch s) (OriginalMessagesToSend s) (PackedMessagesToSend s)
    (SentOriginalMessages s) (SentPackedMessage s) (SendImplScheduled s) (Aborting s)
    (SessionEstablished s) (BatchingSupported s) (PartitionId s) (DirectWriteToPartitionId s)
    (Started s) (ConnectionGeneration s) (ConnectionAttemptsDone s) (DescribePartitionContext s)
    (ConnectContext s) v (ConnectDelayContext s) (next_context s) (PreferredPartitionLocation s)
    (ServerSessionId s) (NextId s) (InitSeqNo s) (AutoSeqNoMode s) (InitSeqNoSetDone s)
    (InitSeqNoPromise s) (UpdateTokenInProgress s) (PrevToken s) (LastTokenUpdate s)
    (MessagesAcquired s) (Counters s) (Txs s) (TxInfos s) (WrittenInTx s) (WrittenInDeferred s)
    (Trackers s) (Auth s) (Compressing s) (Requests s) (ScheduledTokens s) (CloseEvent s)
    (Events s) (FlushResults s) (next_flush s) (Reads s) (Wire s) (Pending s).
Definition set_ConnectDelayContext (v : option Z) (s : ws) : ws :=
  mkWs (Settings s) (MemoryUsage s) (FirstTokenSent s) (ContinuationTokenIssued s)
    (CurrentBatch s) (OriginalMessagesToSend s) (PackedMessagesToSend s)
    (SentOriginalMessages s) (SentPackedMessage s) (SendImplScheduled s) (Aborting s)
    (SessionEstablished s) (BatchingSupported s) (PartitionId s) (DirectWriteToPartitionId s)
    (Started s) (ConnectionGeneration s) (ConnectionAttemptsDone s) (DescribePartitionContext s)
    (ConnectContext s) (ConnectTimeoutContext s) v (next_context s)
    (PreferredPartitionLocation s) (ServerSessionId s) (NextId s) (InitSeqNo s)
    (AutoSeqNoMode s) (InitSeqNoSetDone s) (InitSeqNoPromise s) (UpdateTokenInProgress s)
    (PrevToken s) (LastTokenUpdate s) (MessagesAcquired s) (Counters s) (Txs s) (TxInfos s)
    (WrittenInTx s) (WrittenInDeferred s) (Trackers s) (Auth s) (Compressing s) (Requests s)
    (ScheduledTokens s) (CloseEvent s) (Events s) (FlushResults s) (next_flush s) (Reads s)
    (Wire s) (Pending s).
Definition set_next_context (v : Z) (s : ws) : ws :=
  mkWs (Settings s) (MemoryUsage s) (FirstTokenSent s) (ContinuationTokenIssued s)
    (CurrentBatch s) (OriginalMessagesToSend s) (PackedMessagesToSend s)
    (SentOriginalMessages s) (SentPackedMessage s) (SendImplScheduled s) (Aborting s)
    (SessionEstablished s) (BatchingSupported s) (PartitionId s) (DirectWriteToPartitionId s)
    (Started s) (ConnectionGeneration s) (ConnectionAttemptsDone s) (DescribePartitionContext s)
    (ConnectContext s) (ConnectTimeoutContext s) (ConnectDelayContext s) v
    (PreferredPartitionLocation s) (ServerSessionId s) (NextId s) (InitSeqNo s)
    (AutoSeqNoMode s) (InitSeqNoSetDone s) (InitSeqNoPromise s) (UpdateTokenInProgress s)
    (PrevToken s) (LastTokenUpdate s) (MessagesAcquired s) (Counters s) (Txs s) (TxInfos s)
    (WrittenInTx s) (WrittenInDeferred s) (Trackers s) (Auth s) (Compressing s) (Requests s)
    (ScheduledTokens s) (CloseEvent s) (Events s) (FlushResults s) (next_flush s) (Reads s)
    (Wire s) (Pending s).
Definition set_PreferredPartitionLocation (v : Z * Z) (s : ws) : ws :=
  mkWs (Settings s) (MemoryUsage s) (FirstTokenSent s) (ContinuationTokenIssued s)
    (CurrentBatch s) (OriginalMessagesToSend s) (PackedMessagesToSend s)
    (SentOriginalMessages s) (SentPackedMessage s) (SendImplScheduled s) (Aborting s)
    (SessionEstablished s) (BatchingSupported s) (PartitionId s) (DirectWriteToPartitionId s)
    (Started s) (ConnectionGeneration s) (ConnectionAttemptsDone s) (DescribePartitionContext s)
    (ConnectContext s) (ConnectTimeoutContext s) (ConnectDelayContext s) (next_context s) v
    (ServerSessionId s) (NextId s) (InitSeqNo s) (AutoSeqNoMode s) (InitSeqNoSetDone s)
    (InitSeqNoPromise s) (UpdateTokenInProgress s) (PrevToken s) (LastTokenUpdate s)
    (MessagesAcquired s) (Counters s) (Txs s) (TxInfos s) (WrittenInTx s) (WrittenInDeferred s)
    (Trackers s) (Auth s) (Compressing s) (Requests s) (ScheduledTokens s) (CloseEvent s)
    (Events s) (FlushResults s) (next_flush s) (Reads s) (Wire s) (Pending s).
Definition set_ServerSessionId (v : string) (s : ws) : ws :=
  mkWs (Settings s) (MemoryUsage s) (FirstTokenSent s) (ContinuationTokenIssued s)
    (CurrentBatch s) (OriginalMessagesToSend s) (PackedMessagesToSend s)
    (SentOriginalMessages s) (SentPackedMessage s) (SendImplScheduled s) (Aborting s)
    (SessionEstablished s) (BatchingSupported s) (PartitionId s) (DirectWriteToPartitionId s)
    (Started s) (ConnectionGeneration s) (ConnectionAttemptsDone s) (DescribePartitionContext s)
    (ConnectContext s) (ConnectTimeoutContext s) (ConnectDelayContext s) (next_context s)
    (PreferredPartitionLocation s) v (NextId s) (InitSeqNo s) (AutoSeqNoMode s)
    (InitSeqNoSetDone s) (InitSeqNoPromise s) (UpdateTokenInProgress s) (PrevToken s)
    (LastTokenUpdate s) (MessagesAcquired s) (Counters s) (Txs s) (TxInfos s) (WrittenInTx s)
    (WrittenInDeferred s) (Trackers s) (Auth s) (Compressing s) (Requests s) (ScheduledTokens s)
    (CloseEvent s) (Events s) (FlushResults s) (next_flush s) (Reads s) (Wire s) (Pending s).
Definition set_NextId (v : Z) (s : ws) : ws :=
  mkWs (Settings s) (MemoryUsage s) (FirstTokenSent s) (ContinuationTokenIssued s)
    (CurrentBatch s) (OriginalMessagesToSend s) (PackedMessagesToSend s)
    (SentOriginalMessages s) (SentPackedMessage s) (SendImplScheduled s) (Aborting s)
    (SessionEstablished s) (BatchingSupported s) (PartitionId s) (DirectWriteToPartitionId s)
    (Started s) (ConnectionGeneration s) (ConnectionAttemptsDone s) (DescribePartitionContext s)
    (ConnectContext s) (ConnectTimeoutContext s) (ConnectDelayContext s) (next_context s)
    (PreferredPartitionLocation s) (ServerSessionId s) v (InitSeqNo s) (AutoSeqNoMode s)
    (InitSeqNoSetDone s) (InitSeqNoPromise s) (UpdateTokenInProgress s) (PrevToken s)
    (LastTokenUpdate s) (MessagesAcquired s) (Counters s) (Txs s) (TxInfos s) (WrittenInTx s)
    (WrittenInDeferred s) (Trackers s) (Auth s) (Compressing s) (Requests s) (ScheduledTokens s)
    (CloseEvent s) (Events s) (FlushResults s) (next_flush s) (Reads s) (Wire s) (Pending s).
Definition set_InitSeqNo (v : option Z) (s : ws) : ws :=
  mkWs (Settings s) (MemoryUsage s) (FirstTokenSent s) (ContinuationTokenIssued s)
    (CurrentBatch s) (OriginalMessagesToSend s) (PackedMessagesToSend s)
    (SentOriginalMessages s) (SentPackedMessage s) (SendImplScheduled s) (Aborting s)
    (SessionEstablished s) (BatchingSupported s) (PartitionId s) (DirectWriteToPartitionId s)
    (Started s) (ConnectionGeneration s) (ConnectionAttemptsDone s) (DescribePartitionContext s)
    (ConnectContext s) (ConnectTimeoutContext s) (ConnectDelayContext s) (next_context s)
    (PreferredPartitionLocation s) (ServerSessionId s) (NextId s) v (AutoSeqNoMode s)
    (InitSeqNoSetDone s) (InitSeqNoPromise s) (UpdateTokenInProgress s) (PrevToken s)
    (LastTokenUpdate s) (MessagesAcquired s) (Counters s) (Txs s) (TxInfos s) (WrittenInTx s)
    (WrittenInDeferred s) (Trackers s) (Auth s) (Compressing s) (Requests s) (ScheduledTokens s)
    (CloseEvent s) (Events s) (FlushResults s) (next_flush s) (Reads s) (Wire s) (Pending s).
Definition set_AutoSeqNoMode (v : option bool) (s : ws) : ws :=
  mkWs (Settings s) (MemoryUsage s) (FirstTokenSent s) (ContinuationTokenIssued s)
    (CurrentBatch s) (OriginalMessagesToSend s) (PackedMessagesToSend s)
    (SentOriginalMessages s) (SentPackedMessage s) (SendImplScheduled s) (Aborting s)
    (SessionEstablished s) (BatchingSupported s) (PartitionId s) (DirectWriteToPartitionId s)
    (Started s) (ConnectionGeneration s) (ConnectionAttemptsDone s) (DescribePartitionContext s)
    (ConnectContext s) (ConnectTimeoutContext s) (ConnectDelayContext s) (next_context s)
    (PreferredPartitionLocation s) (ServerSessionId s) (NextId s) (InitSeqNo s) v
    (InitSeqNoSetDone s) (InitSeqNoPromise s) (UpdateTokenInProgress s) (PrevToken s)
    (LastTokenUpdate s) (MessagesAcquired s) (Counters s) (Txs s) (TxInfos s) (WrittenInTx s)
    (WrittenInDeferred s) (Trackers s) (Auth s) (Compressing s) (Requests s) (ScheduledTokens s)
    (CloseEvent s) (Events s) (FlushResults s) (next_flush s) (Reads s) (Wire s) (Pending s).
Definition set_InitSeqNoSetDone (v : bool) (s : ws) : ws :=
  mkWs (Settings s) (MemoryUsage s) (FirstTokenSent s) (ContinuationTokenIssued s)
    (CurrentBatch s) (OriginalMessagesToSend s) (PackedMessagesToSend s)
    (SentOriginalMessages s) (SentPackedMessage s) (SendImplScheduled s) (Aborting s)
    (SessionEstablished s) (BatchingSupported s) (PartitionId s) (DirectWriteToPartitionId s)
    (Started s) (ConnectionGeneration s) (ConnectionAttemptsDone s) (DescribePartitionContext s)
    (ConnectContext s) (ConnectTimeoutContext s) (ConnectDelayContext s) (next_context s)
    (PreferredPartitionLocation s) (ServerSessionId s) (NextId s) (InitSeqNo s)
    (AutoSeqNoMode s) v (InitSeqNoPromise s) (UpdateTokenInProgress s) (PrevToken s)
    (LastTokenUpdate s) (MessagesAcquired s) (Counters s) (Txs s) (TxInfos s) (WrittenInTx s)
    (WrittenInDeferred s) (Trackers s) (Auth s) (Compressing s) (Requests s) (ScheduledTokens s)
    (CloseEvent s) (Events s) (FlushResults s) (next_flush s) (Reads s) (Wire s) (Pending s).
Definition set_InitSeqNoPromise (v : option (option Z)) (s : ws) : ws :=
  mkWs (Settings s) (MemoryUsage s) (FirstTokenSent s) (ContinuationTokenIssued s)
    (CurrentBatch s) (OriginalMessagesToSend s) (PackedMessagesToSend s)
    (SentOriginalMessages s) (SentPackedMessage s) (SendImplScheduled s) (Aborting s)
    (SessionEstablished s) (BatchingSupported s) (PartitionId s) (DirectWriteToPartitionId s)
    (Started s) (ConnectionGeneration s) (ConnectionAttemptsDone s) (DescribePartitionContext s)
    (ConnectContext s) (ConnectTimeoutContext s) (ConnectDelayContext s) (next_context s)
    (PreferredPartitionLocation s) (ServerSessionId s) (NextId s) (InitSeqNo s)
    (AutoSeqNoMode s) (InitSeqNoSetDone s) v (UpdateTokenInProgress s) (PrevToken s)
    (LastTokenUpdate s) (MessagesAcquired s) (Counters s) (Txs s) (TxInfos s) (WrittenInTx s)
    (WrittenInDeferred s) (Trackers s) (Auth s) (Compressing s) (Requests s) (ScheduledTokens s)
    (CloseEvent s) (Events s) (FlushResults s) (next_flush s) (Reads s) (Wire s) (Pending s).
Definition set_UpdateTokenInProgress (v : bool) (s : ws) : ws :=
  mkWs (Settings s) (MemoryUsage s) (FirstTokenSent s) (ContinuationTokenIssued s)
    (CurrentBatch s) (OriginalMessagesToSend s) (PackedMessagesToSend s)
    (SentOriginalMessages s) (SentPackedMessage s) (SendImplScheduled s) (Aborting s)
    (SessionEstablished s) (BatchingSupported s) (PartitionId s) (DirectWriteToPartitionId s)
    (Started s) (ConnectionGeneration s) (ConnectionAttemptsDone s) (DescribePartitionContext s)
    (ConnectContext s) (ConnectTimeoutContext s) (ConnectDelayContext s) (next_context s)
    (PreferredPartitionLocation s) (ServerSessionId s) (NextId s) (InitSeqNo s)
    (AutoSeqNoMode s) (InitSeqNoSetDone s) (InitSeqNoPromise s) v (PrevToken s)
    (LastTokenUpdate s) (MessagesAcquired s) (Counters s) (Txs s) (TxInfos s) (WrittenInTx s)
    (WrittenInDeferred s) (Trackers s) (Auth s) (Compressing s) (Requests s) (ScheduledTokens s)
    (CloseEvent s) (Events s) (FlushResults s) (next_flush s) (Reads s) (Wire s) (Pending s).
Definition set_PrevToken (v : string) (s : ws) : ws :=
  mkWs (Settings s) (MemoryUsage s) (FirstTokenSent s) (ContinuationTokenIssued s)
    (CurrentBatch s) (OriginalMessagesToSend s) (PackedMessagesToSend s)
    (SentOriginalMessages s) (SentPackedMessage s) (SendImplScheduled s) (Aborting s)
    (SessionEstablished s) (BatchingSupported s) (PartitionId s) (DirectWriteToPartitionId s)
    (Started s) (ConnectionGeneration s) (ConnectionAttemptsDone s) (DescribePartitionContext s)
    (ConnectContext s) (ConnectTimeoutContext s) (ConnectDelayContext s) (next_context s)
    (PreferredPartitionLocation s) (ServerSessionId s) (NextId s) (InitSeqNo s)
    (AutoSeqNoMode s) (InitSeqNoSetDone s) (InitSeqNoPromise s) (UpdateTokenInProgress s) v
    (LastTokenUpdate s) (MessagesAcquired s) (Counters s) (Txs s) (TxInfos s) (WrittenInTx s)
    (WrittenInDeferred s) (Trackers s) (Auth s) (Compressing s) (Requests s) (ScheduledTokens s)
    (CloseEvent s) (Events s) (FlushResults s) (next_flush s) (Reads s) (Wire s) (Pending s).
Definition set_LastTokenUpdate (v : Z) (s : ws) : ws :=
  mkWs (Settings s) (MemoryUsage s) (FirstTokenSent s) (ContinuationTokenIssued s)
    (CurrentBatch s) (OriginalMessagesToSend s) (PackedMessagesToSend s)
    (SentOriginalMessages s) (SentPackedMessage s) (SendImplScheduled s) (Aborting s)
    (SessionEstablished s) (BatchingSupported s) (PartitionId s) (DirectWriteToPartitionId s)
    (Started s) (ConnectionGeneration s) (ConnectionAttemptsDone s) (DescribePartitionContext s)
    (ConnectContext s) (ConnectTimeoutContext s) (ConnectDelayContext s) (next_context s)
    (PreferredPartitionLocation s) (ServerSessionId s) (NextId s) (InitSeqNo s)
    (AutoSeqNoMode s) (InitSeqNoSetDone s) (InitSeqNoPromise s) (UpdateTokenInProgress s)
    (PrevToken s) v (MessagesAcquired s) (Counters s) (Txs s) (TxInfos s) (WrittenInTx s)
    (WrittenInDeferred s) (Trackers s) (Auth s) (Compressing s) (Requests s) (ScheduledTokens s)
    (CloseEvent s) (Events s) (FlushResults s) (next_flush s) (Reads s) (Wire s) (Pending s).
Definition set_MessagesAcquired (v : Z) (s : ws) : ws :=
  mkWs (Settings s) (MemoryUsage s) (FirstTokenSent s) (ContinuationTokenIssued s)
    (CurrentBatch s) (OriginalMessagesToSend s) (PackedMessagesToSend s)
    (SentOriginalMessages s) (SentPackedMessage s) (SendImplScheduled s) (Aborting s)
    (SessionEstablished s) (BatchingSupported s) (PartitionId s) (DirectWriteToPartitionId s)
    (Started s) (ConnectionGeneration s) (ConnectionAttemptsDone s) (DescribePartitionContext s)
    (ConnectContext s) (ConnectTimeoutContext s) (ConnectDelayContext s) (next_context s)
    (PreferredPartitionLocation s) (ServerSessionId s) (NextId s) (InitSeqNo s)
    (AutoSeqNoMode s) (InitSeqNoSetDone s) (InitSeqNoPromise s) (UpdateTokenInProgress s)
    (PrevToken s) (LastTokenUpdate s) v (Counters s) (Txs s) (TxInfos s) (WrittenInTx s)
    (WrittenInDeferred s) (Trackers s) (Auth s) (Compressing s) (Requests s) (ScheduledTokens s)
    (CloseEvent s) (Events s) (FlushResults s) (next_flush s) (Reads s) (Wire s) (Pending s).
Definition set_Counters (v : counters) (s : ws) : ws :=
  mkWs (Settings s) (MemoryUsage s) (FirstTokenSent s) (ContinuationTokenIssued s)
    (CurrentBatch s) (OriginalMessagesToSend s) (PackedMessagesToSend s)
    (SentOriginalMessages s) (SentPackedMessage s) (SendImplScheduled s) (Aborting s)
    (SessionEstablished s) (BatchingSupported s) (PartitionId s) (DirectWriteToPartitionId s)
    (Started s) (ConnectionGeneration s) (ConnectionAttemptsDone s) (DescribePartitionContext s)
    (ConnectContext s) (ConnectTimeoutContext s) (ConnectDelayContext s) (next_context s)
    (PreferredPartitionLocation s) (ServerSessionId s) (NextId s) (InitSeqNo s)
    (AutoSeqNoMode s) (InitSeqNoSetDone s) (InitSeqNoPromise s) (UpdateTokenInProgress s)
    (PrevToken s) (LastTokenUpdate s) (MessagesAcquired s) v (Txs s) (TxInfos s) (WrittenInTx s)
    (WrittenInDeferred s) (Trackers s) (Auth s) (Compressing s) (Requests s) (ScheduledTokens s)
    (CloseEvent s) (Events s) (FlushResults s) (next_flush s) (Reads s) (Wire s) (Pending s).
Definition set_Txs (v : gmap TTransactionId positive) (s : ws) : ws :=
  mkWs (Settings s) (MemoryUsage s) (FirstTokenSent s) (ContinuationTokenIssued s)
    (CurrentBatch s) (OriginalMessagesToSend s) (PackedMessagesToSend s)
    (SentOriginalMessages s) (SentPackedMessage s) (SendImplScheduled s) (Aborting s)
    (SessionEstablished s) (BatchingSupported s) (PartitionId s) (DirectWriteToPartitionId s)
    (Started s) (ConnectionGeneration s) (ConnectionAttemptsDone s) (DescribePartitionContext s)
    (ConnectContext s) (ConnectTimeoutContext s) (ConnectDelayContext s) (next_context s)
    (PreferredPartitionLocation s) (ServerSessionId s) (NextId s) (InitSeqNo s)
    (AutoSeqNoMode s) (InitSeqNoSetDone s) (InitSeqNoPromise s) (UpdateTokenInProgress s)
    (PrevToken s) (LastTokenUpdate s) (MessagesAcquired s) (Counters s) v (TxInfos s)
    (WrittenInTx s) (WrittenInDeferred s) (Trackers s) (Auth s) (Compressing s) (Requests s)
    (ScheduledTokens s) (CloseEvent s) (Events s) (FlushResults s) (next_flush s) (Reads s)
    (Wire s) (Pending s).
Definition set_TxInfos (v : gmap positive TTransactionInfo) (s : ws) : ws :=
  mkWs (Settings s) (MemoryUsage s) (FirstTokenSent s) (ContinuationTokenIssued s)
    (CurrentBatch s) (OriginalMessagesToSend s) (PackedMessagesToSend s)
    (SentOriginalMessages s) (SentPackedMessage s) (SendImplScheduled s) (Aborting s)
    (SessionEstablished s) (BatchingSupported s) (PartitionId s) (DirectWriteToPartitionId s)
    (Started s) (ConnectionGeneration s) (ConnectionAttemptsDone s) (DescribePartitionContext s)
    (ConnectContext s) (ConnectTimeoutContext s) (ConnectDelayContext s) (next_context s)
    (PreferredPartitionLocation s) (ServerSessionId s) (NextId s) (InitSeqNo s)
    (AutoSeqNoMode s) (InitSeqNoSetDone s) (InitSeqNoPromise s) (UpdateTokenInProgress s)
    (PrevToken s) (LastTokenUpdate s) (MessagesAcquired s) (Counters s) (Txs s) v
    (WrittenInTx s) (WrittenInDeferred s) (Trackers s) (Auth s) (Compressing s) (Requests s)
    (ScheduledTokens s) (CloseEvent s) (Events s) (FlushResults s) (next_flush s) (Reads s)
    (Wire s) (Pending s).
Definition set_WrittenInTx (v : gmap Z TTransactionId) (s : ws) : ws :=
  mkWs (Settings s) (MemoryUsage s) (FirstTokenSent s) (ContinuationTokenIssued s)
    (CurrentBatch s) (OriginalMessagesToSend s) (PackedMessagesToSend s)
    (SentOriginalMessages s) (SentPackedMessage s) (SendImplScheduled s) (Aborting s)
    (SessionEstablished s) (BatchingSupported s) (PartitionId s) (DirectWriteToPartitionId s)
    (Started s) (ConnectionGeneration s) (ConnectionAttemptsDone s) (DescribePartitionContext s)
    (ConnectContext s) (ConnectTimeoutContext s) (ConnectDelayContext s) (next_context s)
    (PreferredPartitionLocation s) (ServerSessionId s) (NextId s) (InitSeqNo s)
    (AutoSeqNoMode s) (InitSeqNoSetDone s) (InitSeqNoPromise s) (UpdateTokenInProgress s)
    (PrevToken s) (LastTokenUpdate s) (MessagesAcquired s) (Counters s) (Txs s) (TxInfos s) v
    (WrittenInDeferred s) (Trackers s) (Auth s) (Compressing s) (Requests s) (ScheduledTokens s)
    (CloseEvent s) (Events s) (FlushResults s) (next_flush s) (Reads s) (Wire s) (Pending s).
Definition set_WrittenInDeferred (v : gmap Z TDeferredInFlightWrite) (s : ws) : ws :=
  mkWs (Settings s) (MemoryUsage s) (FirstTokenSent s) (ContinuationTokenIssued s)
    (CurrentBatch s) (OriginalMessagesToSend s) (PackedMessagesToSend s)
    (SentOriginalMessages s) (SentPackedMessage s) (SendImplScheduled s) (Aborting s)
    (SessionEstablished s) (BatchingSupported s) (PartitionId s) (DirectWriteToPartitionId s)
    (Started s) (ConnectionGeneration s) (ConnectionAttemptsDone s) (DescribePartitionContext s)
    (ConnectContext s) (ConnectTimeoutContext s) (ConnectDelayContext s) (next_context s)
    (PreferredPartitionLocation s) (ServerSessionId s) (NextId s) (InitSeqNo s)
    (AutoSeqNoMode s) (InitSeqNoSetDone s) (InitSeqNoPromise s) (UpdateTokenInProgress s)
    (PrevToken s) (LastTokenUpdate s) (MessagesAcquired s) (Counters s) (Txs s) (TxInfos s)
    (WrittenInTx s) v (Trackers s) (Auth s) (Compressing s) (Requests s) (ScheduledTokens s)
    (CloseEvent s) (Events s) (FlushResults s) (next_flush s) (Reads s) (Wire s) (Pending s).
Definition set_Trackers (v : gmap positive tracker) (s : ws) : ws :=
  mkWs (Settings s) (MemoryUsage s) (FirstTokenSent s) (ContinuationTokenIssued s)
    (CurrentBatch s) (OriginalMessagesToSend s) (PackedMessagesToSend s)
    (SentOriginalMessages s) (SentPackedMessage s) (SendImplScheduled s) (Aborting s)
    (SessionEstablished s) (BatchingSupported s) (PartitionId s) (DirectWriteToPartitionId s)
    (Started s) (ConnectionGeneration s) (ConnectionAttemptsDone s) (DescribePartitionContext s)
    (ConnectContext s) (ConnectTimeoutContext s) (ConnectDelayContext s) (next_context s)
    (PreferredPartitionLocation s) (ServerSessionId s) (NextId s) (InitSeqNo s)
    (AutoSeqNoMode s) (InitSeqNoSetDone s) (InitSeqNoPromise s) (UpdateTokenInProgress s)
    (PrevToken s) (LastTokenUpdate s) (MessagesAcquired s) (Counters s) (Txs s) (TxInfos s)
    (WrittenInTx s) (WrittenInDeferred s) v (Auth s) (Compressing s) (Requests s)
    (ScheduledTokens s) (CloseEvent s) (Events s) (FlushResults s) (next_flush s) (Reads s)
    (Wire s) (Pending s).
Definition set_Auth (v : auth_info) (s : ws) : ws :=
  mkWs (Settings s) (MemoryUsage s) (FirstTokenSent s) (ContinuationTokenIssued s)
    (CurrentBatch s) (OriginalMessagesToSend s) (PackedMessagesToSend s)
    (SentOriginalMessages s) (SentPackedMessage s) (SendImplScheduled s) (Aborting s)
    (SessionEstablished s) (BatchingSupported s) (PartitionId s) (DirectWriteToPartitionId s)
    (Started s) (ConnectionGeneration s) (ConnectionAttemptsDone s) (DescribePartitionContext s)
    (ConnectContext s) (ConnectTimeoutContext s) (ConnectDelayContext s) (next_context s)
    (PreferredPartitionLocation s) (ServerSessionId s) (NextId s) (InitSeqNo s)
    (AutoSeqNoMode s) (InitSeqNoSetDone s) (InitSeqNoPromise s) (UpdateTokenInProgress s)
    (PrevToken s) (LastTokenUpdate s) (MessagesAcquired s) (Counters s) (Txs s) (TxInfos s)
    (WrittenInTx s) (WrittenInDeferred s) (Trackers s) v (Compressing s) (Requests s)
    (ScheduledTokens s) (CloseEvent s) (Events s) (FlushResults s) (next_flush s) (Reads s)
    (Wire s) (Pending s).
Definition set_Compressing (v : list TBlock) (s : ws) : ws :=
  mkWs (Settings s) (MemoryUsage s) (FirstTokenSent s) (ContinuationTokenIssued s)
    (CurrentBatch s) (OriginalMessagesToSend s) (PackedMessagesToSend s)
    (SentOriginalMessages s) (SentPackedMessage s) (SendImplScheduled s) (Aborting s)
    (SessionEstablished s) (BatchingSupported s) (PartitionId s) (DirectWriteToPartitionId s)
    (Started s) (ConnectionGeneration s) (ConnectionAttemptsDone s) (DescribePartitionContext s)
    (ConnectContext s) (ConnectTimeoutContext s) (ConnectDelayContext s) (next_context s)
    (PreferredPartitionLocation s) (ServerSessionId s) (NextId s) (InitSeqNo s)
    (AutoSeqNoMode s) (InitSeqNoSetDone s) (InitSeqNoPromise s) (UpdateTokenInProgress s)
    (PrevToken s) (LastTokenUpdate s) (MessagesAcquired s) (Counters s) (Txs s) (TxInfos s)
    (WrittenInTx s) (WrittenInDeferred s) (Trackers s) (Auth s) v (Requests s)
    (ScheduledTokens s) (CloseEvent s) (Events s) (FlushResults s) (next_flush s) (Reads s)
    (Wire s) (Pending s).
Definition set_Requests (v : list Z) (s : ws) : ws :=
  mkWs (Settings s) (MemoryUsage s) (FirstTokenSent s) (ContinuationTokenIssued s)
    (CurrentBatch s) (OriginalMessagesToSend s) (PackedMessagesToSend s)
    (SentOriginalMessages s) (SentPackedMessage s) (SendImplScheduled s) (Aborting s)
    (SessionEstablished s) (BatchingSupported s) (PartitionId s) (DirectWriteToPartitionId s)
    (Started s) (ConnectionGeneration s) (ConnectionAttemptsDone s) (DescribePartitionContext s)
    (ConnectContext s) (ConnectTimeoutContext s) (ConnectDelayContext s) (next_context s)
    (PreferredPartitionLocation s) (ServerSessionId s) (NextId s) (InitSeqNo s)
    (AutoSeqNoMode s) (InitSeqNoSetDone s) (InitSeqNoPromise s) (UpdateTokenInProgress s)
    (PrevToken s) (LastTokenUpdate s) (MessagesAcquired s) (Counters s) (Txs s) (TxInfos s)
    (WrittenInTx s) (WrittenInDeferred s) (Trackers s) (Auth s) (Compressing s) v
    (ScheduledTokens s) (CloseEvent s) (Events s) (FlushResults s) (next_flush s) (Reads s)
    (Wire s) (Pending s).
Definition set_ScheduledTokens (v : nat) (s : ws) : ws :=
  mkWs (Settings s) (MemoryUsage s) (FirstTokenSent s) (ContinuationTokenIssued s)
    (CurrentBatch s) (OriginalMessagesToSend s) (PackedMessagesToSend s)
    (SentOriginalMessages s) (SentPackedMessage s) (SendImplScheduled s) (Aborting s)
    (SessionEstablished s) (BatchingSupported s) (PartitionId s) (DirectWriteToPartitionId s)
    (Started s) (ConnectionGeneration s) (ConnectionAttemptsDone s) (DescribePartitionContext s)
    (ConnectContext s) (ConnectTimeoutContext s) (ConnectDelayContext s) (next_context s)
    (PreferredPartitionLocation s) (ServerSessionId s) (NextId s) (InitSeqNo s)
    (AutoSeqNoMode s) (InitSeqNoSetDone s) (InitSeqNoPromise s) (UpdateTokenInProgress s)
    (PrevToken s) (LastTokenUpdate s) (MessagesAcquired s) (Counters s) (Txs s) (TxInfos s)
    (WrittenInTx s) (WrittenInDeferred s) (Trackers s) (Auth s) (Compressing s) (Requests s) v
    (CloseEvent s) (Events s) (FlushResults s) (next_flush s) (Reads s) (Wire s) (Pending s).
Definition set_CloseEvent (v : option EStatus) (s : ws) : ws :=
  mkWs (Settings s) (MemoryUsage s) (FirstTokenSent s) (ContinuationTokenIssued s)
    (CurrentBatch s) (OriginalMessagesToSend s) (PackedMessagesToSend s)
    (SentOriginalMessages s) (SentPackedMessage s) (SendImplScheduled s) (Aborting s)
    (SessionEstablished s) (BatchingSupported s) (PartitionId s) (DirectWriteToPartitionId s)
    (Started s) (ConnectionGeneration s) (ConnectionAttemptsDone s) (DescribePartitionContext s)
    (ConnectContext s) (ConnectTimeoutContext s) (ConnectDelayContext s) (next_context s)
    (PreferredPartitionLocation s) (ServerSessionId s) (NextId s) (InitSeqNo s)
    (AutoSeqNoMode s) (InitSeqNoSetDone s) (InitSeqNoPromise s) (UpdateTokenInProgress s)
    (PrevToken s) (LastTokenUpdate s) (MessagesAcquired s) (Counters s) (Txs s) (TxInfos s)
    (WrittenInTx s) (WrittenInDeferred s) (Trackers s) (Auth s) (Compressing s) (Requests s)
    (ScheduledTokens s) v (Events s) (FlushResults s) (next_flush s) (Reads s) (Wire s) (Pending s).
Definition set_Events (v : list event) (s : ws) : ws :=
  mkWs (Settings s) (MemoryUsage s) (FirstTokenSent s) (ContinuationTokenIssued s)
    (CurrentBatch s) (OriginalMessagesToSend s) (PackedMessagesToSend s)
    (SentOriginalMessages s) (SentPackedMessage s) (SendImplScheduled s) (Aborting s)
    (SessionEstablished s) (BatchingSupported s) (PartitionId s) (DirectWriteToPartitionId s)
    (Started s) (ConnectionGeneration s) (ConnectionAttemptsDone s) (DescribePartitionContext s)
    (ConnectContext s) (ConnectTimeoutContext s) (ConnectDelayContext s) (next_context s)
    (PreferredPartitionLocation s) (ServerSessionId s) (NextId s) (InitSeqNo s)
    (AutoSeqNoMode s) (InitSeqNoSetDone s) (InitSeqNoPromise s) (UpdateTokenInProgress s)
    (PrevToken s) (LastTokenUpdate s) (MessagesAcquired s) (Counters s) (Txs s) (TxInfos s)
    (WrittenInTx s) (WrittenInDeferred s) (Trackers s) (Auth s) (Compressing s) (Requests s)
    (ScheduledTokens s) (CloseEvent s) v (FlushResults s) (next_flush s) (Reads s) (Wire s)
    (Pending s).
Definition set_FlushResults (v : gmap positive bool) (s : ws) : ws :=
  mkWs (Settings s) (MemoryUsage s) (FirstTokenSent s) (ContinuationTokenIssued s)
    (CurrentBatch s) (OriginalMessagesToSend s) (PackedMessagesToSend s)
    (SentOriginalMessages s) (SentPackedMessage s) (SendImplScheduled s) (Aborting s)
    (SessionEstablished s) (BatchingSupported s) (PartitionId s) (DirectWriteToPartitionId s)
    (Started s) (ConnectionGeneration s) (ConnectionAttemptsDone s) (DescribePartitionContext s)
    (ConnectContext s) (ConnectTimeoutContext s) (ConnectDelayContext s) (next_context s)
    (PreferredPartitionLocation s) (ServerSessionId s) (NextId s) (InitSeqNo s)
    (AutoSeqNoMode s) (InitSeqNoSetDone s) (InitSeqNoPromise s) (UpdateTokenInProgress s)
    (PrevToken s) (LastTokenUpdate s) (MessagesAcquired s) (Counters s) (Txs s) (TxInfos s)
    (WrittenInTx s) (WrittenInDeferred s) (Trackers s) (Auth s) (Compressing s) (Requests s)
    (ScheduledTokens s) (CloseEvent s) (Events s) v (next_flush s) (Reads s) (Wire s) (Pending s).
Definition set_next_flush (v : positive) (s : ws) : ws :=
  mkWs (Settings s) (MemoryUsage s) (FirstTokenSent s) (ContinuationTokenIssued s)
    (CurrentBatch s) (OriginalMessagesToSend s) (PackedMessagesToSend s)
    (SentOriginalMessages s) (SentPackedMessage s) (SendImplScheduled s) (Aborting s)
    (SessionEstablished s) (BatchingSupported s) (PartitionId s) (DirectWriteToPartitionId s)
    (Started s) (ConnectionGeneration s) (ConnectionAttemptsDone s) (DescribePartitionContext s)
    (ConnectContext s) (ConnectTimeoutContext s) (ConnectDelayContext s) (next_context s)
    (PreferredPartitionLocation s) (ServerSessionId s) (NextId s) (InitSeqNo s)
    (AutoSeqNoMode s) (InitSeqNoSetDone s) (InitSeqNoPromise s) (UpdateTokenInProgress s)
    (PrevToken s) (LastTokenUpdate s) (MessagesAcquired s) (Counters s) (Txs s) (TxInfos s)
    (WrittenInTx s) (WrittenInDeferred s) (Trackers s) (Auth s) (Compressing s) (Requests s)
    (ScheduledTokens s) (CloseEvent s) (Events s) (FlushResults s) v (Reads s) (Wire s) (Pending s).
Definition set_Reads (v : list Z) (s : ws) : ws :=
  mkWs (Settings s) (MemoryUsage s) (FirstTokenSent s) (ContinuationTokenIssued s)
    (CurrentBatch s) (OriginalMessagesToSend s) (PackedMessagesToSend s)
    (SentOriginalMessages s) (SentPackedMessage s) (SendImplScheduled s) (Aborting s)
    (SessionEstablished s) (BatchingSupported s) (PartitionId s) (DirectWriteToPartitionId s)
    (Started s) (ConnectionGeneration s) (ConnectionAttemptsDone s) (DescribePartitionContext s)
    (ConnectContext s) (ConnectTimeoutContext s) (ConnectDelayContext s) (next_context s)
    (PreferredPartitionLocation s) (ServerSessionId s) (NextId s) (InitSeqNo s)
    (AutoSeqNoMode s) (InitSeqNoSetDone s) (InitSeqNoPromise s) (UpdateTokenInProgress s)
    (PrevToken s) (LastTokenUpdate s) (MessagesAcquired s) (Counters s) (Txs s) (TxInfos s)
    (WrittenInTx s) (WrittenInDeferred s) (Trackers s) (Auth s) (Compressing s) (Requests s)
    (ScheduledTokens s) (CloseEvent s) (Events s) (FlushResults s) (next_flush s) v (Wire s)
    (Pending s).
Definition set_Wire (v : list client_message) (s : ws) : ws :=
  mkWs (Settings s) (MemoryUsage s) (FirstTokenSent s) (ContinuationTokenIssued s)
    (CurrentBatch s) (OriginalMessagesToSend s) (PackedMessagesToSend s)
    (SentOriginalMessages s) (SentPackedMessage s) (SendImplScheduled s) (Aborting s)
    (SessionEstablished s) (BatchingSupported s) (PartitionId s) (DirectWriteToPartitionId s)
    (Started s) (ConnectionGeneration s) (ConnectionAttemptsDone s) (DescribePartitionContext s)
    (ConnectContext s) (ConnectTimeoutContext s) (ConnectDelayContext s) (next_context s)
    (PreferredPartitionLocation s) (ServerSessionId s) (NextId s) (InitSeqNo s)
    (AutoSeqNoMode s) (InitSeqNoSetDone s) (InitSeqNoPromise s) (UpdateTokenInProgress s)
    (PrevToken s) (LastTokenUpdate s) (MessagesAcquired s) (Counters s) (Txs s) (TxInfos s)
    (WrittenInTx s) (WrittenInDeferred s) (Trackers s) (Auth s) (Compressing s) (Requests s)
    (ScheduledTokens s) (CloseEvent s) (Events s) (FlushResults s) (next_flush s) (Reads s) v
    (Pending s).
Definition set_Pending (v : list pending_action) (s : ws) : ws :=
  mkWs (Settings s) (MemoryUsage s) (FirstTokenSent s) (ContinuationTokenIssued s)
    (CurrentBatch s) (OriginalMessagesToSend s) (PackedMessagesToSend s)
    (SentOriginalMessages s) (SentPackedMessage s) (SendImplScheduled s) (Aborting s)
    (SessionEstablished s) (BatchingSupported s) (PartitionId s) (DirectWriteToPartitionId s)
    (Started s) (ConnectionGeneration s) (ConnectionAttemptsDone s) (DescribePartitionContext s)
    (ConnectContext s) (ConnectTimeoutContext s) (ConnectDelayContext s) (next_context s)
    (PreferredPartitionLocation s) (ServerSessionId s) (NextId s) (InitSeqNo s)
    (AutoSeqNoMode s) (InitSeqNoSetDone s) (InitSeqNoPromise s) (UpdateTokenInProgress s)
    (PrevToken s) (LastTokenUpdate s) (MessagesAcquired s) (Counters s) (Txs s) (TxInfos s)
    (WrittenInTx s) (WrittenInDeferred s) (Trackers s) (Auth s) (Compressing s) (Requests s)
    (ScheduledTokens s) (CloseEvent s) (Events s) (FlushResults s) (next_flush s) (Reads s) (Wire s)
    v.

Definition ws0 (cfg : settings) (trackers : gmap positive tracker) (auth : auth_info) : ws :=
  mkWs cfg 0 false false batch0 [] [] [] [] false false false false 0 None false 0 0 None None
    None None 0 (0, 0) "" 0 None None false None false "" 0 0 counters0 ∅ ∅ ∅ ∅ trackers auth []
    [] 0 None [] ∅ 1 [] [] [].

Definition MaxBlockSize : Z := 2 ^ 64 - 1.
Definition MaxBlockMessageCount (s : ws) : Z := BatchFlushMessageCount_ (Settings s).

Definition ValidateWriteSessionSettings (cfg : settings) : bool :=
  match BatchInnerCodec_ cfg with
  | None => true
  | Some inner =>
      if negb (bool_decide (Codec_ cfg = KAFKA_BATCH)) then false
      else if (negb (bool_decide (inner = GZIP)) && negb (bool_decide (inner = ZSTD)))%bool
           then false else true
  end.

(** [PriorityQueue::emplace]: the block with the smallest offset is on top. *)
Fixpoint pq_push (b : TBlock) (q : list TBlock) : list TBlock :=
  match q with
  | [] => [b]
  | x :: q' => if Offset b <? Offset x then b :: q else x :: pq_push b q'
  end.

(** [EventsQueue->PushEvent]: dropped once the queue is closed. *)
Definition PushEvent (ev : event) : M ws unit :=
  s ← get_st;
  when (bool_decide (CloseEvent s = None)) (modify (set_Events (Events s ++ [ev]))).

(** ** Sequence numbers *)

Definition GetIdImpl (seqNo : Z) : M ws Z :=
  s ← get_st;
  match AutoSeqNoMode s with
  | None => abort "AutoSeqNoMode.has_value()"
  | Some false => mret seqNo
  | Some true =>
      match InitSeqNo s with
      | Some init =>
          if init <? seqNo then mret (seqNo - init) else abort "seqNo > *InitSeqNo"
      | None => abort "InitSeqNo.has_value()"
      end
  end.

Definition GetSeqNoImpl (id : Z) : M ws Z :=
  s ← get_st;
  match AutoSeqNoMode s, InitSeqNo s with
  | None, _ => abort "AutoSeqNoMode.has_value()"
  | _, None => abort "InitSeqNo.has_value()"
  | Some true, Some init => mret (u64 (id + init))
  | Some false, Some _ => mret id
  end.

(** [ThrowFatalError] leaves the state as it is: the exception is the result. *)
Definition GetNextIdImpl (seqNo : option Z) : M ws (string + Z) :=
  s ← get_st;
  let id := u64 (NextId s + 1) in
  modify (set_NextId id) ;;
  let mode := default (bool_decide (seqNo = None)) (AutoSeqNoMode s) in
  modify (set_AutoSeqNoMode (Some mode)) ;;
  match seqNo with
  | Some n =>
      if negb (default true (DeduplicationEnabled_ (Settings s))) then
        mret (inl "Cannot provide SeqNo on Write() when deduplication is disabled")
      else if mode then
        mret (inl "Cannot call write() with defined SeqNo on WriteSession running in auto-seqNo mode")
      else mret (inr n)
  | None =>
      if mode then mret (inr id)
      else mret (inl "Cannot call write() without defined SeqNo on WriteSession running in manual-seqNo mode")
  end.

Definition GetInitSeqNo : M ws (string + unit) :=
  s ← get_st;
  if negb (default true (DeduplicationEnabled_ (Settings s))) then
    mret (inl "Cannot call GetInitSeqNo when deduplication is disabled")
  else if ValidateSeqNo_ (Settings s) then
    match AutoSeqNoMode s with
    | Some true => mret (inl "Cannot call GetInitSeqNo in Auto SeqNo mode")
    | _ => modify (set_AutoSeqNoMode (Some false)) ;; mret (inr tt)
    end
  else mret (inr tt).

(** ** Transactions and deferred publications *)

Definition get_txinfo (g : positive) : M ws TTransactionInfo :=
  s ← get_st;
  match TxInfos s !! g with Some i => mret i | None => abort "dangling transaction info" end.

Definition put_txinfo (g : positive) (i : TTransactionInfo) : M ws unit :=
  modify (fun s => set_TxInfos (<[g := i]> (TxInfos s)) s).

Definition on_tracker {A} (a : positive) (m : M tracker A) : M ws A :=
  s ← get_st;
  match Trackers s !! a with
  | None => abort "dangling ack state"
  | Some t =>
      match m t with
      | Ok (r, t') => modify (fun s => set_Trackers (<[a := t']> (Trackers s)) s) ;; mret r
      | Fail f => fun _ => Fail f
      end
  end.

Definition GetOrCreateTxInfo (txId : TTransactionId) : M ws positive :=
  s ← get_st;
  match Txs s !! txId with
  | Some g => mret g
  | None =>
      let g := fresh (dom (TxInfos s)) in
      put_txinfo g txinfo0 ;;
      modify (fun s => set_Txs (<[txId := g]> (Txs s)) s) ;;
      mret g
  end.

(** [AllAcksReceived.SetValue]. *)
Definition SetCommitValue (g : positive) (status : EStatus) : M ws unit :=
  i ← get_txinfo g;
  match tx_AllAcksReceived i with
  | PromisePending =>
      put_txinfo g (mkTxInfo (IsActive i) (Subscribed i) (PromiseSet status) (CommitCalled i)
                      (tx_WriteCount i) (tx_AckCount i))
  | PromiseNone => throw "promise is not initialized"
  | PromiseSet _ => throw "value already set"
  end.

Definition TrySubscribeOnTransactionCommit (t : option TTransactionId) : M ws unit :=
  match t with
  | None => mret tt
  | Some txId =>
      g ← GetOrCreateTxInfo txId;
      i ← get_txinfo g;
      if Subscribed i then mret tt
      else put_txinfo g (mkTxInfo true true PromisePending (CommitCalled i)
                           (tx_WriteCount i) (tx_AckCount i))
  end.

(** The precommit callback: the future it returns is the promise of [g] or a
    ready error. *)
Definition CommitCallback (txId : TTransactionId) (g : positive) : M ws (unit + EStatus) :=
  i ← get_txinfo g;
  abort_unless (negb (CommitCalled i)) "!txInfo->CommitCalled" ;;
  put_txinfo g (mkTxInfo (IsActive i) (Subscribed i) (tx_AllAcksReceived i) true
                  (tx_WriteCount i) (tx_AckCount i)) ;;
  if tx_WriteCount i =? tx_AckCount i then
    SetCommitValue g SUCCESS ;;
    modify (fun s => set_Txs (delete txId (Txs s)) s) ;;
    mret (inl tt)
  else if IsActive i then mret (inl tt)
  else mret (inr SESSION_EXPIRED).

Definition TrySignalAllAcksReceived (seqNo : Z) : M ws unit :=
  s ← get_st;
  match WrittenInDeferred s !! seqNo with
  | Some d =>
      match if_AckState d with
      | Some a => on_tracker a OnAck ;; mret tt
      | None => mret tt
      end ;;
      abort_unless (0 <? UnackedCount d) "deferred.UnackedCount > 0" ;;
      modify (fun s => set_WrittenInDeferred
        (if UnackedCount d - 1 =? 0 then delete seqNo (WrittenInDeferred s)
         else <[seqNo := mkInFlight (if_AckState d) (if_IntPublicationId d)
                           (if_ExtPublicationId d) (UnackedCount d - 1)]> (WrittenInDeferred s)) s)
  | None =>
      match WrittenInTx s !! seqNo with
      | None => mret tt
      | Some txId =>
          g ← GetOrCreateTxInfo txId;
          i ← get_txinfo g;
          let acks := u64 (tx_AckCount i + 1) in
          put_txinfo g (mkTxInfo (IsActive i) (Subscribed i) (tx_AllAcksReceived i)
                          (CommitCalled i) (tx_WriteCount i) acks) ;;
          when (CommitCalled i && (tx_WriteCount i =? acks))%bool
            (SetCommitValue g SUCCESS ;;
             modify (fun s => set_Txs (delete txId (Txs s)) s))
      end
  end.

Definition cancel_tx (e : TTransactionId * positive) : M ws unit :=
  let g := snd e in
  i ← get_txinfo g;
  put_txinfo g (mkTxInfo false (Subscribed i) (tx_AllAcksReceived i) (CommitCalled i)
                  (tx_WriteCount i) (tx_AckCount i)) ;;
  when (negb (tx_WriteCount i =? tx_AckCount i)) (SetCommitValue g SESSION_EXPIRED).

Definition CancelTransactions : M ws unit :=
  s ← get_st;
  for_each cancel_tx (map_to_list (Txs s)) ;;
  modify (set_Txs ∅).

(** [unackedByState]. *)
Definition unacked_by_state (l : list (Z * TDeferredInFlightWrite)) : gmap positive Z :=
  foldr (fun e m => match if_AckState (snd e) with
                    | Some a => <[a := default 0 (m !! a) + UnackedCount (snd e)]> m
                    | None => m
                    end) ∅ l.

Definition CancelDeferredPublications : M ws unit :=
  s ← get_st;
  let unackedByState := unacked_by_state (map_to_list (WrittenInDeferred s)) in
  modify (set_WrittenInDeferred ∅) ;;
  for_each (fun e => on_tracker (fst e) (OnUnackedAbort (snd e))) (map_to_list unackedByState).

Definition CancelPendingWriteAcks : M ws unit :=
  CancelTransactions ;; CancelDeferredPublications.

(** ** Closing *)

(** [CompleteFlush(value)] of a message, and the message without its promise. *)
Definition complete_flush (value : bool) (m : TOriginalMessage) (r : gmap positive bool)
    : gmap positive bool :=
  match FlushPromise m with
  | None => r
  | Some p => match r !! p with Some _ => r | None => <[p := value]> r end
  end.

Definition without_promise (m : TOriginalMessage) : TOriginalMessage :=
  mkOriginal (Id m) (CreatedAt m) (orig_Size m) (MessageMeta m) (WriteContext m) None.

Definition AbortFlushPromisesImpl : M ws unit :=
  modify (fun s =>
    let r := foldl (fun r m => complete_flush false m r) (FlushResults s)
               (OriginalMessagesToSend s ++ SentOriginalMessages s) in
    set_FlushResults r
      (set_OriginalMessagesToSend (without_promise <$> OriginalMessagesToSend s)
        (set_SentOriginalMessages (without_promise <$> SentOriginalMessages s) s))).

Definition clear_connect : M ws unit :=
  modify (fun s => set_ConnectContext None (set_ConnectTimeoutContext None
                     (set_ConnectDelayContext None s))).

Definition AbortImpl : M ws unit :=
  s ← get_st;
  if Aborting s then mret tt
  else
    modify (set_Aborting true) ;;
    modify (set_DescribePartitionContext None) ;;
    clear_connect ;;
    CancelPendingWriteAcks ;;
    AbortFlushPromisesImpl.

Definition CloseImpl (status : EStatus) : M ws unit :=
  modify (set_CloseEvent (Some status)) ;; AbortImpl.

(** ** Memory, tokens and the processor *)

(** Code the session calls: the codec of a block ([CompressWriteBlock], which
    gives the block's new data, codec and compressed flag) and protobuf's memory
    estimate of a message. *)
Class WriteLibraries := {
  CompressWriteBlock : settings -> Z -> TBlock -> bytes * Z * bool;
  SpaceUsedLong : client_message -> Z
}.

(** What a call finds outside of the session: the clock, the retry policy's
    decision, whether the driver still creates contexts, whether the endpoint
    pool knows the node asked for. *)
Record env := mkEnv {
  now : Z;
  next_delay : option Z;
  alive : bool;
  alive_child : bool;
  known_node : bool
}.

(** [MemoryUsage] counts the bytes of buffers the process holds at once, so the
    [size_t] it is kept in does not wrap. *)
Definition OnMemoryUsageChangedImpl (diff : Z) : M ws (bool * bool) :=
  s ← get_st;
  let wasOk := MemoryUsage s <=? MaxMemoryUsage_ (Settings s) in
  (if 0 <=? diff then modify (fun s => set_MemoryUsage (MemoryUsage s + diff) s)
   else
     let dec := - diff in
     abort_unless (dec <=? MemoryUsage s) "MemoryUsage >= dec" ;;
     modify (fun s => set_MemoryUsage (MemoryUsage s - dec) s)) ;;
  s ← get_st;
  mret (wasOk, MemoryUsage s <=? MaxMemoryUsage_ (Settings s)).

Definition TryIssueContinuationTokenImpl : M ws bool :=
  s ← get_st;
  if (Aborting s || ContinuationTokenIssued s ||
      (MaxMemoryUsage_ (Settings s) <? MemoryUsage s))%bool then mret false
  else modify (set_ContinuationTokenIssued true) ;; mret true.

(** A request with memory to release is remembered until its write callback. *)
Definition WriteToProcessorImpl (req : client_message) (requestMemoryUsage : Z) : M ws unit :=
  s ← get_st;
  if Aborting s then mret tt
  else
    OnMemoryUsageChangedImpl requestMemoryUsage ;;
    modify (fun s => set_Wire (Wire s ++ [req]) s) ;;
    when (negb (requestMemoryUsage =? 0))
      (modify (fun s => set_Requests (Requests s ++ [requestMemoryUsage]) s)).

Definition ReadFromProcessor : M ws unit :=
  s ← get_st;
  if Aborting s then mret tt
  else modify (set_Reads (Reads s ++ [ConnectionGeneration s])).

Definition OnWriteRequestDone (requestMemoryUsage : Z) : M ws unit :=
  OnMemoryUsageChangedImpl (- requestMemoryUsage) ;;
  readyToAccept ← TryIssueContinuationTokenImpl;
  when readyToAccept (PushEvent ReadyToAcceptEvent).

(** ** Token refresh *)

(** [future.GetValue()]: a token, or an exception. *)
Definition UpdateTokenImpl (future : option string) : M ws unit :=
  modify (set_UpdateTokenInProgress false) ;;
  s ← get_st;
  if (negb (SessionEstablished s) || Aborting s)%bool then mret tt
  else
    match future with
    | None => CloseImpl CLIENT_UNAUTHENTICATED
    | Some token =>
        if bool_decide (token = PrevToken s) then mret tt
        else
          modify (set_UpdateTokenInProgress true) ;;
          modify (set_PrevToken token) ;;
          modify (fun s => set_Wire (Wire s ++ [UpdateTokenRequest token]) s)
    end.

Definition UpdateTokenIfNeededImpl : M ws unit :=
  s ← get_st;
  if (match Auth s with NoProvider => true | _ => false end || UpdateTokenInProgress s ||
      negb (SessionEstablished s) || Aborting s)%bool then mret tt
  else
    match Auth s with
    | AuthReady token => UpdateTokenImpl (Some token)
    | AuthFailed => UpdateTokenImpl None
    | _ => modify (set_UpdateTokenInProgress true)
    end.

(** ** Sending *)

Definition IsReadyToSendNextImpl : M ws bool :=
  s ← get_st;
  if negb (SessionEstablished s) then mret false
  else if Aborting s then mret false
  else
    match PackedMessagesToSend s with
    | [] => mret false
    | top :: _ =>
        match OriginalMessagesToSend s with
        | [] => abort "There are packed messages but no original messages"
        | front :: _ =>
            abort_unless (Id front <=? Offset top) "Lost original message(s)" ;;
            mret (Offset top =? Id front)
        end
    end.

Definition TxIsChanged (r : WriteRequest) : M ws bool :=
  s ← get_st;
  if bool_decide (messages r = []) then mret false
  else
    match OriginalMessagesToSend s with
    | [] => abort "!OriginalMessagesToSend.empty()"
    | front :: _ => mret (negb (bool_decide (tx r = GetTransactionId (WriteContext front))))
    end.

Definition DeferredPublishIsChanged (r : WriteRequest) : M ws bool :=
  s ← get_st;
  if bool_decide (messages r = []) then mret false
  else
    match OriginalMessagesToSend s with
    | [] => abort "!OriginalMessagesToSend.empty()"
    | front :: _ => mret (DeferredPublishIdentityChanged r (WriteContext front))
    end.

Definition set_codec (c : Z) (r : WriteRequest) : WriteRequest :=
  mkRequest c (tx r) (deferred_publish r) (messages r).

Definition add_message (d : MessageData) (r : WriteRequest) : WriteRequest :=
  mkRequest (codec r) (tx r) (deferred_publish r) (messages r ++ [d]).

Definition first_context (m : TOriginalMessage) (r : WriteRequest) : WriteRequest :=
  if bool_decide (messages r = []) then SetWriteContext (WriteContext m) r else r.

Definition SendBatchBlock (block : TBlock) (r : WriteRequest) : M ws WriteRequest :=
  abort_unless (1 <? MessageCount block) "block.MessageCount > 1" ;;
  s ← get_st;
  if negb (BatchingSupported s) then throw "Server does not support messages batching"
  else
    let n := Z.to_nat (MessageCount block) in
    match take n (OriginalMessagesToSend s) with
    | [] => abort "!OriginalMessagesToSend.empty()"
    | firstMessage :: others =>
        let batchMessages := firstMessage :: others in
        abort_unless (Z.of_nat (length batchMessages) =? MessageCount block)
          "!OriginalMessagesToSend.empty()" ;;
        modify (set_OriginalMessagesToSend (drop n (OriginalMessagesToSend s))) ;;
        let r := first_context firstMessage r in
        seqNo ← GetSeqNoImpl (Id (default firstMessage (last batchMessages)));
        let meta := MessageMeta firstMessage ++
                    concat (map (fun m => partition_keys (MessageMeta m)) others) in
        let d := mkData (wrapS 64 seqNo) (MilliSeconds (CreatedAt firstMessage))
                   (block_Data block) (wrapS 64 (block_OriginalSize block)) meta in
        modify (fun s => set_SentOriginalMessages (SentOriginalMessages s ++ batchMessages) s) ;;
        mret (add_message d r)
    end.

Definition SendStandardBlock (block : TBlock) (r : WriteRequest) : M ws WriteRequest :=
  abort_unless (MessageCount block =? 1) "block.MessageCount == 1" ;;
  s ← get_st;
  match OriginalMessagesToSend s with
  | [] => abort "!OriginalMessagesToSend.empty()"
  | message :: rest =>
      let r := first_context message r in
      seqNo ← GetSeqNoImpl (Id message);
      modify (fun s => set_SentOriginalMessages (SentOriginalMessages s ++ [message])
                         (set_OriginalMessagesToSend rest s)) ;;
      let payload := if Compressed block then block_Data block
                     else default [] (last (OriginalDataRefs block)) in
      mret (add_message (mkData (wrapS 64 seqNo) (MilliSeconds (CreatedAt message)) payload
                           (wrapS 64 (block_OriginalSize block)) (MessageMeta message)) r)
  end.

(** The inner loop: blocks into one request.  [bodySize] is the limiter's. *)
Fixpoint send_blocks (fuel : nat) (prevCodec bodySize : Z) (r : WriteRequest)
    : M ws WriteRequest :=
  match fuel with
  | O => abort "out of fuel"
  | S fuel =>
      ready ← IsReadyToSendNextImpl;
      s ← get_st;
      match ready, PackedMessagesToSend s with
      | true, block :: _ =>
          if (negb (bool_decide (messages r = [])) && negb (prevCodec =? CodecID block))%bool
          then mret r
          else
            txChanged ← TxIsChanged r;
            if txChanged : bool then mret r
            else
              deferredChanged ← DeferredPublishIsChanged r;
              if deferredChanged : bool then mret r
              else
                match EstimateTopicWriteRequestBlockSize block (OriginalMessagesToSend s)
                        (limiter_Empty bodySize) with
                | None => abort "!originalMessages.empty()"
                | Some blockSize =>
                    if negb (CanAdd 2 (MaxOutboundMessageSize (Settings s)) bodySize blockSize)
                    then mret r
                    else
                      let r := set_codec (wrapS 32 (CodecID block)) r in
                      r ← (if 1 <? MessageCount block then SendBatchBlock block r
                           else SendStandardBlock block r);
                      modify (fun s => set_SentPackedMessage (SentPackedMessage s ++ [block])
                                (set_PackedMessagesToSend (tail (PackedMessagesToSend s)) s)) ;;
                      send_blocks fuel (CodecID block) (bodySize + blockSize) r
                end
      | _, _ => mret r
      end
  end.

(** The outer loop: requests. *)
Fixpoint send_requests `{WriteLibraries} (fuel : nat) : M ws unit :=
  match fuel with
  | O => abort "out of fuel"
  | S fuel =>
      ready ← IsReadyToSendNextImpl;
      if negb ready then mret tt
      else
        s ← get_st;
        r ← send_blocks (S (length (PackedMessagesToSend s))) 0 0 request0;
        UpdateTokenIfNeededImpl ;;
        WriteToProcessorImpl (WriteMessages r) (SpaceUsedLong (WriteMessages r)) ;;
        send_requests fuel
  end.

Definition SendImpl `{WriteLibraries} : M ws unit :=
  s ← get_st;
  send_requests (S (length (PackedMessagesToSend s))).

(** ** Batching and compression *)

Definition update_counters (f : counters -> counters) : M ws unit :=
  modify (fun s => set_Counters (f (Counters s)) s).

Definition OnCompressedImpl `{WriteLibraries} (block : TBlock) : M ws unit :=
  when (Compressed block)
    (OnMemoryUsageChangedImpl (bsize (block_Data block) - OriginalMemoryUsage block) ;;
     update_counters (add_inflight (- block_OriginalSize block) (bsize (block_Data block)) 0)) ;;
  modify (fun s => set_PackedMessagesToSend (pq_push block (PackedMessagesToSend s)) s) ;;
  s ← get_st;
  if negb (ExecutorIsAsync (Settings s)) then SendImpl
  else modify (set_SendImplScheduled true).

(** The task [OnCompressedImpl] posts. *)
Definition SendTask `{WriteLibraries} : M ws unit :=
  modify (set_SendImplScheduled false) ;; SendImpl.

Definition OnCompressed `{WriteLibraries} (block : TBlock) (isSyncCompression : bool) : M ws unit :=
  OnCompressedImpl block ;;
  readyToAccept ← TryIssueContinuationTokenImpl;
  when readyToAccept
    (if isSyncCompression
     then modify (fun s => set_ScheduledTokens (S (ScheduledTokens s)) s)
     else PushEvent ReadyToAcceptEvent).

(** [codecImpl->CompressWriteBlock(compression)] on a block. *)
Definition compressed_block `{WriteLibraries} (cfg : settings) (baseSequence : Z) (b : TBlock)
    : TBlock :=
  let '(Data, CodecID, Compressed) := CompressWriteBlock cfg baseSequence b in
  mkBlock (Offset b) (MessageCount b) (block_OriginalSize b) (OriginalMemoryUsage b) CodecID
    (OriginalDataRefs b) (block_CreatedAt b) (MessageKeys b) Data Compressed.

(** The compression task with its block: run in place by a synchronous executor,
    posted to an asynchronous one. *)
Definition CompressImpl `{WriteLibraries} (block : TBlock) : M ws unit :=
  s ← get_st;
  if Aborting s then mret tt
  else
    baseSequence ← GetSeqNoImpl (Offset block);
    abort_unless (negb (Compressed block)) "!blockPtr->Compressed" ;;
    let block' := compressed_block (Settings s) (wrapS 64 baseSequence) block in
    if ExecutorIsAsync (Settings s)
    then modify (fun s => set_Compressing (Compressing s ++ [block']) s)
    else OnCompressed block' true.

(** A posted compression task ends; tasks of a thread pool end in any order. *)
Definition CompressionDone `{WriteLibraries} (i : nat) : M ws unit :=
  s ← get_st;
  match Compressing s !! i with
  | None => mret tt
  | Some block' =>
      modify (set_Compressing (delete i (Compressing s))) ;;
      OnCompressed block' false
  end.

(** Re-basing the views of the messages onto the batch's buffer. *)
Fixpoint rebase (Data : bytes) (dataOffset : Z) (l : list TMessage) : M ws (list TMessage) :=
  match l with
  | [] => mret []
  | m :: l =>
      abort_unless (dataOffset + bsize (DataRef m) <=? bsize Data)
        "dataOffset + message.DataRef.size() <= CurrentBatch.Data.size()" ;;
      let ref := take (length (DataRef m)) (drop (Z.to_nat dataOffset) Data) in
      let m' := mkMessage (msg_Id m) (msg_CreatedAt m) ref (msg_Codec m) (msg_OriginalSize m)
                  (msg_Meta m) (msg_Context m) in
      l' ← rebase Data (dataOffset + bsize (DataRef m)) l;
      mret (m' :: l')
  end.

Definition block0 : TBlock := mkBlock 0 0 0 0 (codec_id RAW) [] [] [] [] false.

Definition add_to_block (m : TMessage) (b : TBlock) : TBlock :=
  let offset := if MessageCount b =? 0 then msg_Id m else Offset b in
  let size := block_OriginalSize b + bsize (DataRef m) in
  let b' := mkBlock offset (MessageCount b + 1) size (OriginalMemoryUsage b + bsize (DataRef m))
              (CodecID b) (OriginalDataRefs b ++ [DataRef m])
              (block_CreatedAt b ++ [msg_CreatedAt m])
              (MessageKeys b ++ [GetMessageKey (msg_Meta m)]) (block_Data b) (Compressed b) in
  match msg_Codec m with
  | None => b'
  | Some c =>
      mkBlock offset (MessageCount b') (msg_OriginalSize m) (OriginalMemoryUsage b') (codec_id c)
        (OriginalDataRefs b') (block_CreatedAt b') (MessageKeys b') (block_Data b') true
  end.

Definition original_of (m : TMessage) : TOriginalMessage :=
  mkOriginal (msg_Id m) (msg_CreatedAt m) (bsize (DataRef m)) (msg_Meta m) (msg_Context m) None.

(** One block, and the messages left when it is full. *)
Fixpoint fill_block (count : nat) (b : TBlock) (l : list TMessage)
    : M ws (TBlock * list TMessage) :=
  match l with
  | [] => mret (b, [])
  | m :: l' =>
      if negb (block_OriginalSize b <? MaxBlockSize) then mret (b, l)
      else
        abort_unless (bool_decide (msg_Codec m = None) || (count =? 1)%nat)%bool
          "CurrentBatch.Messages.size() == 1" ;;
        let b := add_to_block m b in
        update_counters (if Compressed b then add_inflight 0 (bsize (DataRef m)) 1
                         else add_inflight (bsize (DataRef m)) 0 1) ;;
        modify (fun s => set_OriginalMessagesToSend
                           (OriginalMessagesToSend s ++ [original_of m]) s) ;;
        fill_block count b l'
  end.

Definition with_data (Data : bytes) (b : TBlock) : TBlock :=
  mkBlock (Offset b) (MessageCount b) (block_OriginalSize b) (OriginalMemoryUsage b) (CodecID b)
    (OriginalDataRefs b) (block_CreatedAt b) (MessageKeys b) Data (Compressed b).

(** The loop over blocks; the buffer is moved into the first one. *)
Fixpoint fill_blocks `{WriteLibraries} (fuel count : nat) (skipCompression : bool) (Data : bytes)
    (l : list TMessage) : M ws unit :=
  match l, fuel with
  | [], _ => mret tt
  | _, O => abort "out of fuel"
  | _, S fuel =>
      '(b, rest) ← fill_block count block0 l;
      let b := with_data Data b in
      (if skipCompression
       then modify (fun s => set_PackedMessagesToSend (pq_push b (PackedMessagesToSend s)) s)
       else CompressImpl b) ;;
      fill_blocks fuel count skipCompression [] rest
  end.

Definition WriteBatchImpl `{WriteLibraries} : M ws Z :=
  s ← get_st;
  abort_unless (Z.of_nat (length (Messages (CurrentBatch s))) <=? MaxBlockMessageCount s)
    "CurrentBatch.Messages.size() <= MaxBlockMessageCount" ;;
  let batch := snd (Acquire (CurrentBatch s)) in
  msgs ← rebase (batch_Data batch) 0 (Messages batch);
  let skipCompression := (bool_decide (Codec_ (Settings s) = RAW) || HasCodec batch)%bool in
  let batch' := if (negb skipCompression && ExecutorIsAsync (Settings s))%bool
                then Acquire batch else (false, batch) in
  modify (fun s => set_MessagesAcquired
            (u64 (MessagesAcquired s + if fst batch' then 1 else 0)) s) ;;
  fill_blocks (length msgs) (length msgs) skipCompression (batch_Data (snd batch')) msgs ;;
  modify (set_CurrentBatch batch_Reset) ;;
  when skipCompression SendImpl ;;
  mret (sumZ (fun m => bsize (DataRef m)) msgs).

Definition FlushWriteIfRequiredImpl `{WriteLibraries} (now : Z) : M ws unit :=
  s ← get_st;
  if (batch_Empty (CurrentBatch s) || FlushRequested (CurrentBatch s))%bool then mret tt
  else
    let '(acquired, batch) := Acquire (CurrentBatch s) in
    modify (fun s => set_CurrentBatch batch (set_MessagesAcquired
              (u64 (MessagesAcquired s + if acquired then 1 else 0)) s)) ;;
    let cfg := Settings s in
    let bySize := match BatchFlushSizeBytes_ cfg with
                  | None => false
                  | Some n => ((n =? 0) || (n <=? CurrentSize batch))%bool
                  end in
    when ((BatchFlushInterval_ cfg <=? Z.max 0 (now - StartedAt batch)) || bySize ||
          (MaxBlockSize <=? CurrentSize batch) ||
          (MaxBlockMessageCount s <=? Z.of_nat (length (Messages batch))) ||
          HasCodec batch)%bool
      (WriteBatchImpl ;; mret tt).

(** ** The user's Write and Flush *)

(** [TWriteMessage]; the transaction is the one [GetTxPtr] gives. *)
Record TWriteMessage := mkWrite {
  Data : bytes;
  wm_Codec : option ECodec;
  wm_OriginalSize : Z;
  SeqNo_ : option Z;
  CreateTimestamp_ : option Z;
  MessageMeta_ : meta;
  GetTxPtr : option TTransactionId;
  DeferredPublication_ : option TDeferredPublication
}.

Definition MaxExtPublicationIdLength : Z := 2048.

(** The issues found: none when the message is valid. *)
Definition ValidateDeferredPublicationMessage (m : TWriteMessage) : list string :=
  match DeferredPublication_ m with
  | None => []
  | Some d =>
      (if bool_decide (is_Some (GetTxPtr m))
       then ["deferred_publish is incompatible with transaction"] else []) ++
      (if IntPublicationId d =? 0
       then ["int_publication_id must be greater than zero"] else []) ++
      match ExtPublicationId d with
      | Some e => if MaxExtPublicationIdLength <? strlen e
                  then ["ext_publication_id is too long"] else []
      | None => []
      end
  end.

Definition message_context (m : TWriteMessage) : TWriteContext :=
  match DeferredPublication_ m, GetTxPtr m with
  | Some d, _ => InDeferred d
  | None, Some t => InTx t
  | None, None => NoContext
  end.

(** Bookkeeping of a write by its context; false when the write is refused. *)
Definition track_write (seqNo : Z) (ctx : TWriteContext) : M ws bool :=
  match ctx with
  | NoContext => mret true
  | InTx t =>
      g ← GetOrCreateTxInfo t;
      i ← get_txinfo g;
      put_txinfo g (mkTxInfo (IsActive i) (Subscribed i) (tx_AllAcksReceived i) (CommitCalled i)
                      (u64 (tx_WriteCount i + 1)) (tx_AckCount i)) ;;
      modify (fun s => set_WrittenInTx (<[seqNo := t]> (WrittenInTx s)) s) ;;
      mret true
  | InDeferred d =>
      ok ← on_tracker (AckState d) TryOnWrite;
      if negb ok then CloseImpl BAD_REQUEST ;; mret false
      else
        modify (fun s =>
          let f := default (mkInFlight None 0 None 0) (WrittenInDeferred s !! seqNo) in
          let f := match if_AckState f with
                   | Some _ => f
                   | None => mkInFlight (Some (AckState d)) (IntPublicationId d)
                               (ExtPublicationId d) (UnackedCount f)
                   end in
          set_WrittenInDeferred
            (<[seqNo := mkInFlight (if_AckState f) (if_IntPublicationId f) (if_ExtPublicationId f)
                          (u64 (UnackedCount f + 1))]> (WrittenInDeferred s)) s) ;;
        mret true
  end.

(** [Some e]: the exception [e] left the call. *)
Definition WriteInternal `{WriteLibraries} (now : Z) (message : TWriteMessage)
    : M ws (option string) :=
  if bool_decide (ValidateDeferredPublicationMessage message = []) then
    let writeContext := message_context message in
    s ← get_st;
    (if batch_Empty (CurrentBatch s) then mret tt
     else match Messages (CurrentBatch s) with
          | [] => abort "front of an empty vector"
          | front :: _ =>
              when (negb (context_eq (msg_Context front) writeContext)) (WriteBatchImpl ;; mret tt)
          end) ;;
    TrySubscribeOnTransactionCommit (GetTxPtr message) ;;
    id ← GetNextIdImpl (SeqNo_ message);
    match id with
    | inl e => mret (Some e)
    | inr seqNo =>
        accepted ← track_write seqNo writeContext;
        if negb accepted then mret None
        else
          modify (fun s => set_CurrentBatch
            (batch_Add now (mkMessage seqNo (default now (CreateTimestamp_ message))
                              (Data message) (wm_Codec message) (wm_OriginalSize message)
                              (MessageMeta_ message) writeContext) (CurrentBatch s)) s) ;;
          modify (set_ContinuationTokenIssued false) ;;
          OnMemoryUsageChangedImpl (bsize (Data message)) ;;
          readyToAccept ← TryIssueContinuationTokenImpl;
          FlushWriteIfRequiredImpl now ;;
          when readyToAccept (PushEvent ReadyToAcceptEvent) ;;
          mret None
    end
  else CloseImpl BAD_REQUEST ;; mret None.

Definition with_promise (p : positive) (m : TOriginalMessage) : TOriginalMessage :=
  mkOriginal (Id m) (CreatedAt m) (orig_Size m) (MessageMeta m) (WriteContext m) (Some p).

(** [messages.back().InitFlushPromise()] unless it has one; the promise. *)
Definition back_promise (next : positive) (l : list TOriginalMessage)
    : option (positive * list TOriginalMessage) :=
  match last l with
  | None => None
  | Some m =>
      match FlushPromise m with
      | Some p => Some (p, l)
      | None => Some (next, take (length l - 1) l ++ [with_promise next m])
      end
  end.

(** The future of [Flush]: ready, or that of a promise. *)
Inductive flush_future := FlushReady (value : bool) | FlushPending (p : positive).

Definition Flush `{WriteLibraries} : M ws flush_future :=
  s ← get_st;
  if Aborting s then mret (FlushReady false)
  else
    when (negb (batch_Empty (CurrentBatch s))) (WriteBatchImpl ;; mret tt) ;;
    s ← get_st;
    let next := next_flush s in
    match back_promise next (OriginalMessagesToSend s),
          back_promise next (SentOriginalMessages s) with
    | Some (p, l), _ =>
        modify (fun s => set_next_flush (if bool_decide (p = next) then Pos.succ next else next)
                           (set_OriginalMessagesToSend l s)) ;;
        mret (FlushPending p)
    | None, Some (p, l) =>
        modify (fun s => set_next_flush (if bool_decide (p = next) then Pos.succ next else next)
                           (set_SentOriginalMessages l s)) ;;
        mret (FlushPending p)
    | None, None => mret (FlushReady true)
    end.

(** ** Acknowledgements *)

Definition pop_sent : M ws unit :=
  modify (fun s =>
    match SentOriginalMessages s with
    | [] => s
    | m :: rest =>
        set_FlushResults (complete_flush true m (FlushResults s))
          (set_SentOriginalMessages rest
            (set_WrittenInTx (delete (Id m) (WrittenInTx s)) s))
    end).

(** The loop over the messages of a packed block. *)
Fixpoint pop_block (n : nat) (id : Z) : M ws unit :=
  match n with
  | O => mret tt
  | S n =>
      s ← get_st;
      match SentOriginalMessages s with
      | [] => abort "!SentOriginalMessages.empty()"
      | m :: _ =>
          abort_unless (Id m =? id) "SentOriginalMessages.front().Id == id + i" ;;
          pop_sent ;;
          pop_block n (u64 (id + 1))
      end
  end.

Definition count_written (bytes compressed uncompressed msgs : Z) (c : counters) : counters :=
  mkCounters (Errors c) (BytesWritten c + bytes) (MessagesWritten c + msgs)
    (BytesWrittenCompressed c + compressed) (BytesInflightUncompressed c - uncompressed)
    (BytesInflightCompressed c - compressed) (MessagesInflight c - msgs).

(** Memory a block holds. *)
Definition memoryToRelease (b : TBlock) : Z :=
  if Compressed b then bsize (block_Data b) else OriginalMemoryUsage b.

Definition CleanupOnAcknowledgedImpl (id : Z) : M ws bool :=
  s ← get_st;
  match SentOriginalMessages s with
  | [] => abort "front of an empty queue"
  | sentFront :: _ =>
      let packed := match SentPackedMessage s with
                    | b :: _ => if Offset b =? id then Some b else None
                    | [] => None
                    end in
      result ← match packed with
               | Some front =>
                   OnMemoryUsageChangedImpl (- memoryToRelease front) ;;
                   r ← TryIssueContinuationTokenImpl;
                   update_counters
                     (count_written (block_OriginalSize front)
                        (if Compressed front then bsize (block_Data front) else 0)
                        (if Compressed front then 0 else block_OriginalSize front)
                        (MessageCount front)) ;;
                   modify (fun s => set_SentPackedMessage (tail (SentPackedMessage s)) s) ;;
                   mret r
               | None =>
                   update_counters (count_written (orig_Size sentFront) 0 (orig_Size sentFront) 1) ;;
                   mret false
               end;
      s ← get_st;
      abort_unless (0 <=? BytesInflightCompressed (Counters s)) "BytesInflightCompressed >= 0" ;;
      abort_unless (0 <=? BytesInflightUncompressed (Counters s)) "BytesInflightUncompressed >= 0" ;;
      let packedMessageCount := match packed with Some b => MessageCount b | None => 1 end in
      (if 1 <? packedMessageCount then pop_block (Z.to_nat packedMessageCount) id
       else
         abort_unless (Id sentFront =? id) "sentFront.Id == id" ;;
         pop_sent) ;;
      mret result
  end.

(** ** Reconnects *)

Definition CheckHandleResultImpl (r : THandleResult) : M ws THandleResult :=
  s ← get_st;
  if (DoStop r && negb (InitSeqNoSetDone s))%bool then
    modify (set_InitSeqNoSetDone true) ;;
    mret (mkResult (DoRestart r) (StartDelay r) (DoStop r) true)
  else mret (mkResult (DoRestart r) (StartDelay r) (DoStop r) false).

Definition ResetForRetryImpl : M ws unit :=
  modify (set_SessionEstablished false) ;;
  s ← get_st;
  let packed := foldl (fun q b => pq_push b q) (PackedMessagesToSend s) (SentPackedMessage s) in
  let originals := SentOriginalMessages s ++ OriginalMessagesToSend s in
  modify (set_PackedMessagesToSend packed) ;;
  modify (set_SentPackedMessage []) ;;
  modify (set_OriginalMessagesToSend originals) ;;
  modify (set_SentOriginalMessages []) ;;
  abort_unless (length packed =? length (PackedMessagesToSend s) + length (SentPackedMessage s))%nat
    "PackedMessagesToSend.size() == totalPackedMessages" ;;
  abort_unless (length originals =?
                length (OriginalMessagesToSend s) + length (SentOriginalMessages s))%nat
    "OriginalMessagesToSend.size() == totalOriginalMessages".


Definition NeedToSwitchPartition (st : TPlainStatus) : bool :=
  match st_Status st with
  | OVERLOADED => partition_inactive st
  | UNAUTHORIZED | SUCCESS | UNAVAILABLE | SESSION_EXPIRED | CANCELLED | UNDETERMINED
  | SESSION_BUSY | TIMEOUT | TRANSPORT_UNAVAILABLE | CLIENT_RESOURCE_EXHAUSTED
  | CLIENT_DEADLINE_EXCEEDED | CLIENT_INTERNAL_ERROR | CLIENT_OUT_OF_RANGE
  | CLIENT_LIMITS_REACHED | CLIENT_DISCOVERY_FAILED => false
  | _ => true
  end.

Definition RestartImpl (e : env) (status : TPlainStatus) : M ws THandleResult :=
  s ← get_st;
  if Aborting s then mret result0
  else
    modify (set_SessionEstablished false) ;;
    when (bool_decide (is_Some (DirectWriteToPartitionId s)) && NeedToSwitchPartition status)%bool
      (modify (fun s => set_PreferredPartitionLocation (0, 0) (set_DirectWriteToPartitionId None s))) ;;
    match next_delay e with
    | Some delay => ResetForRetryImpl ;; mret (mkResult true delay false false)
    | None => CheckHandleResultImpl (mkResult false 0 true false)
    end.

Definition OnErrorImpl (e : env) (status : TPlainStatus) : M ws THandleResult :=
  update_counters (fun c => mkCounters (Errors c + 1) (BytesWritten c) (MessagesWritten c)
    (BytesWrittenCompressed c) (BytesInflightUncompressed c) (BytesInflightCompressed c)
    (MessagesInflight c)) ;;
  result ← RestartImpl e status;
  when (DoStop result) (CloseImpl (st_Status status)) ;;
  mret result.

(** [InitSeqNoPromise]: a value or an exception, once. *)
Definition SetInitSeqNoPromise (v : option Z) : M ws unit :=
  s ← get_st;
  match InitSeqNoPromise s with
  | None => modify (set_InitSeqNoPromise (Some v))
  | Some _ => throw "value already set"
  end.

Definition new_context : M ws Z :=
  s ← get_st;
  modify (set_next_context (next_context s + 1)) ;; mret (next_context s).

Definition Connect (e : env) (delay : Z) : M ws unit :=
  s ← get_st;
  if Aborting s then mret tt
  else
    modify (fun s => set_ConnectionGeneration (u64 (ConnectionGeneration s + 1)) s) ;;
    if negb (alive e) then AbortImpl
    else if negb (alive_child e) then AbortImpl
    else
      connectContext ← new_context;
      connectDelayContext ← new_context;
      connectTimeoutContext ← new_context;
      modify (set_ConnectContext (Some connectContext)) ;;
      modify (set_ConnectTimeoutContext (Some connectTimeoutContext)) ;;
      modify (set_ConnectDelayContext
                (if 0 <? delay then Some connectDelayContext else None)).

Definition FullTopicPath (dbPath topic : string) : string :=
  if String.prefix dbPath topic then topic
  else
    let full := match last (String.list_ascii_of_string dbPath) with
                | Some c => if Ascii.eqb c (Ascii.ascii_of_nat 47) then dbPath
                            else String.append dbPath "/"
                | None => "/"
                end in
    let topic := match topic with
                 | String c rest => if Ascii.eqb c (Ascii.ascii_of_nat 47) then rest else topic
                 | EmptyString => topic
                 end in
    String.append full topic.

(** [settings.PartitionId_] or the partition chosen by the server. *)
Definition direct_partition (s : ws) : option Z :=
  match PartitionId_ (Settings s) with Some p => Some p | None => DirectWriteToPartitionId s end.

(** The DescribePartition request sent: path, partition and context. *)
Definition ConnectToPreferredPartitionLocation (e : env)
    : M ws (option (string * Z * Z)) :=
  s ← get_st;
  abort_unless (DirectWriteToPartition_ (Settings s) && bool_decide (is_Some (direct_partition s)))%bool
    "Settings.DirectWriteToPartition_" ;;
  if Aborting s then mret None
  else if negb (alive e) then AbortImpl ;; mret None
  else
    describePartitionContext ← new_context;
    modify (fun s => set_ConnectionGeneration (u64 (ConnectionGeneration s + 1))
                       (set_DescribePartitionContext (Some describePartitionContext) s)) ;;
    mret (Some (FullTopicPath (Database (Settings s)) (Path_ (Settings s)),
                default 0 (direct_partition s), describePartitionContext)).

Definition InitImpl : M ws unit :=
  s ← get_st;
  let cfg := Settings s in
  let partitioning :=
    match direct_partition s, PartitionId_ cfg with
    | Some p, _ => if DirectWriteToPartition_ cfg
                   then ByPartitionWithGeneration p (snd (PreferredPartitionLocation s))
                   else match PartitionId_ cfg with
                        | Some p => ByPartitionId p
                        | None => ByMessageGroup (MessageGroupId_ cfg)
                        end
    | None, Some p => ByPartitionId p
    | None, None => ByMessageGroup (MessageGroupId_ cfg)
    end in
  WriteToProcessorImpl (InitRequest (Path_ cfg) (ProducerId_ cfg) partitioning (Meta_ cfg)) 0.

(** ** Start and the connection callbacks *)

Definition set_identity (dedup : option bool) (producer group : string) (c : settings) : settings :=
  mkSettings (Codec_ c) (BatchInnerCodec_ c) (MaxMemoryUsage_ c) (BatchFlushInterval_ c)
    (BatchFlushSizeBytes_ c) (BatchFlushMessageCount_ c) dedup (ValidateSeqNo_ c)
    (DirectWriteToPartition_ c) (PartitionId_ c) (Path_ c) (Database c) (Meta_ c) producer group
    (ExecutorIsAsync c) (MaxOutboundMessageSize c).

Definition is_empty (s : string) : bool := bool_decide (s = "").

(** The settings after [InitWriter], or the exception it throws.  [guid] is the
    identifier [GenerateProducerId] makes. *)
Definition InitWriter (guid : string) (c : settings) : string + settings :=
  let p := ProducerId_ c in
  let g := MessageGroupId_ c in
  let c' :=
    match DeduplicationEnabled_ c with
    | None => inr (set_identity (Some (negb (is_empty p) || negb (is_empty g))%bool) p g c)
    | Some true =>
        if is_empty p then
          let g := if is_empty g then guid else g in inr (set_identity (Some true) g g c)
        else if is_empty g then inr (set_identity (Some true) p p c) else inr c
    | Some false =>
        if (negb (is_empty p) || negb (is_empty g))%bool
        then inl "Explicitly disabled deduplication conflicts with non-empty ProducerId or MessageGroupId"
        else inr c
    end in
  match c' with
  | inl e => inl e
  | inr c =>
      if (negb (is_empty (ProducerId_ c)) && negb (is_empty (MessageGroupId_ c)) &&
          negb (bool_decide (ProducerId_ c = MessageGroupId_ c)))%bool
      then inl "ProducerId != MessageGroupId scenario is currently not supported"
      else inr c
  end.

Definition UPDATE_TOKEN_PERIOD : Z := 3600000000.

Definition HandleWakeUpImpl `{WriteLibraries} (now : Z) : M ws unit :=
  FlushWriteIfRequiredImpl now ;;
  s ← get_st;
  when (negb (Aborting s) && (UPDATE_TOKEN_PERIOD <? Z.max 0 (now - LastTokenUpdate s)))%bool
    (modify (set_LastTokenUpdate now) ;; UpdateTokenIfNeededImpl).

(** The rest of a callback, to run after others may have taken the lock. *)
Definition post (a : pending_action) : M ws unit :=
  modify (fun s => set_Pending (Pending s ++ [a]) s).

(** The last section of [Start]; [Connect] follows without the lock. *)
Definition start_connection (e : env) (delay : Z) : M ws unit :=
  modify (fun s => set_Started true
    (set_ConnectionAttemptsDone (u64 (ConnectionAttemptsDone s + 1)) s)) ;;
  s ← get_st;
  if (DirectWriteToPartition_ (Settings s) && bool_decide (is_Some (direct_partition s)))%bool then
    modify (set_PreferredPartitionLocation (0, 0)) ;;
    ConnectToPreferredPartitionLocation e ;; mret tt
  else post (ToConnect delay).

(** [Some exception] when [InitWriter] throws. *)
Definition Start `{WriteLibraries} (e : env) (guid : string) (delay : Z) : M ws (option string) :=
  s ← get_st;
  if Started s then start_connection e delay ;; mret None
  else if negb (ValidateWriteSessionSettings (Settings s)) then
    CloseImpl BAD_REQUEST ;; mret None
  else
    HandleWakeUpImpl (now e) ;;
    match InitWriter guid (Settings s) with
    | inl exn => mret (Some exn)
    | inr cfg =>
        modify (set_Settings cfg) ;;
        start_connection e delay ;; mret None
    end.

(** A restart finds the session started: [Start] is then its last part. *)
Definition ProcessHandleResult (e : env) (result : THandleResult) : M ws unit :=
  if DoRestart result then start_connection e (StartDelay result)
  else when (DoSetSeqNo result) (SetInitSeqNoPromise None).

Definition OnWriteDone (e : env) (status : option TPlainStatus) (connectionGeneration : Z)
    : M ws unit :=
  s ← get_st;
  if negb (connectionGeneration =? ConnectionGeneration s) then mret tt
  else if Aborting s then mret tt
  else
    handleResult ← match status with
                   | Some st => OnErrorImpl e st
                   | None => mret result0
                   end;
    post (ToHandle handleResult).

Definition OnConnectTimeout (e : env) (connectTimeoutContext : Z) : M ws unit :=
  s ← get_st;
  if bool_decide (ConnectTimeoutContext s = Some connectTimeoutContext) then
    clear_connect ;;
    handleResult ← RestartImpl e (mkStatus TIMEOUT false);
    when (DoStop handleResult) (CloseImpl TIMEOUT) ;;
    post (ToHandle handleResult)
  else mret tt.

(** [None]: connected. *)
Definition OnConnect (e : env) (st : option TPlainStatus) (connectContext : Z) : M ws unit :=
  s ← get_st;
  if bool_decide (ConnectContext s = Some connectContext) then
    clear_connect ;;
    match st with
    | None => InitImpl ;; post ToRead
    | Some status =>
        handleResult ← RestartImpl e status;
        when (DoStop handleResult) (CloseImpl (st_Status status)) ;;
        post (ToHandle handleResult)
    end
  else mret tt.

Definition set_DirectWrite (v : bool) (c : settings) : settings :=
  mkSettings (Codec_ c) (BatchInnerCodec_ c) (MaxMemoryUsage_ c) (BatchFlushInterval_ c)
    (BatchFlushSizeBytes_ c) (BatchFlushMessageCount_ c) (DeduplicationEnabled_ c)
    (ValidateSeqNo_ c) v (PartitionId_ c) (Path_ c) (Database c) (Meta_ c) (ProducerId_ c)
    (MessageGroupId_ c) (ExecutorIsAsync c) (MaxOutboundMessageSize c).

(** Its first section. *)
Definition OnDescribePartition (status : TPlainStatus) (partition : partition_info)
    (describePartitionContext : Z) : M ws unit :=
  s ← get_st;
  if negb (bool_decide (DescribePartitionContext s = Some describePartitionContext)) then mret tt
  else
    modify (set_DescribePartitionContext None) ;;
    post (ToUseDescription status partition).

(** The rest: an error is handled, or the location is kept and [Connect] follows. *)
Definition UseDescription (e : env) (status : TPlainStatus) (partition : partition_info)
    : M ws unit :=
  s ← get_st;
  if negb (bool_decide (st_Status status = SUCCESS)) then
    handleResult ←
      (if bool_decide (st_Status status = CLIENT_CALL_UNIMPLEMENTED) then
         modify (fun s => set_Settings (set_DirectWrite false (Settings s)) s) ;;
         OnErrorImpl e (mkStatus UNAVAILABLE (partition_inactive status))
       else OnErrorImpl e status);
    post (ToHandle handleResult)
  else
    let wrong_partition := match PartitionId_ (Settings s) with
                           | Some p => negb (partition_id partition =? p)
                           | None => false
                           end in
    match partition_location partition, wrong_partition with
    | Some (node, generation), false =>
        if ((node =? 0) || (generation =? 0))%bool then
          handleResult ← OnErrorImpl e (mkStatus INTERNAL_ERROR false);
          post (ToHandle handleResult)
        else if negb (known_node e) then
          handleResult ← OnErrorImpl e (mkStatus UNAVAILABLE false);
          post (ToHandle handleResult)
        else
          modify (set_PreferredPartitionLocation (node, generation)) ;;
          post (ToConnect 0)
    | _, _ =>
        handleResult ← OnErrorImpl e (mkStatus INTERNAL_ERROR false);
        post (ToHandle handleResult)
    end.

(** ** Messages of the server *)

Inductive ack_kind := Written (offset : Z) | Skipped (already_written : bool) | WrittenInTxKind | NoKind.

Record WriteAck := mkWriteAck { srv_seq_no : Z; kind : ack_kind }.

Inductive server_message :=
  | ServerMessageNotSet
  | InitResponse (last_seq_no : Z) (session_id : string) (srv_partition_id : Z) (is_batching_supported : bool)
  | WriteResponse (acks : list WriteAck)
  | UpdateTokenResponse.

Record TProcessSrvMessageResult := mkProcess {
  HandleResult : THandleResult;
  res_InitSeqNo : option Z;
  res_Events : list event;
  res_Ok : bool
}.

Definition ack_state_of (k : ack_kind) : option ack_state :=
  match k with
  | WrittenInTxKind => Some EES_WRITTEN_IN_TX
  | Written _ => Some EES_WRITTEN
  | Skipped true => Some EES_ALREADY_WRITTEN
  | Skipped false => Some EES_DISCARDED
  | NoKind => None
  end.

(** The acknowledgements of the messages of one packed block. *)
Fixpoint ack_block (n : nat) (msgId offset : Z) (st : ack_state) : M ws (list TWriteAck) :=
  match n with
  | O => mret []
  | S n =>
      TrySignalAllAcksReceived msgId ;;
      s ← get_st;
      rest ← ack_block n (u64 (msgId + 1)) (u64 (offset + 1)) st;
      mret (mkAck msgId st offset (PartitionId s) :: rest)
  end.

(** The acknowledgements, and the ready events the cleanup gives rise to. *)
Fixpoint process_acks (acks : list WriteAck) : M ws (list TWriteAck * list event) :=
  match acks with
  | [] => mret ([], [])
  | a :: acks =>
      firstMsgId ← GetIdImpl (u64 (srv_seq_no a));
      s ← get_st;
      let ackCount := match SentPackedMessage s with
                      | b :: _ => if Offset b =? firstMsgId then MessageCount b else 1
                      | [] => 1
                      end in
      match ack_state_of (kind a) with
      | None => abort "ack.has_written() || ack.has_skipped() || ack.has_written_in_tx()"
      | Some msgWriteStatus =>
          let baseOffset := match kind a with Written o => u64 o | _ => 0 end in
          block_acks ← ack_block (Z.to_nat ackCount) firstMsgId baseOffset msgWriteStatus;
          ready ← CleanupOnAcknowledgedImpl firstMsgId;
          rest ← process_acks acks;
          mret (block_acks ++ fst rest, (if ready : bool then [ReadyToAcceptEvent] else []) ++ snd rest)
      end
  end.

(** The members an init response sets before the session is established. *)
Definition adopt_init (newLastSeqNo : Z) (session_id : string) (part : Z) (batching : bool) (s : ws)
    : ws :=
  let s1 := set_PartitionId (u32 part)
              (set_ServerSessionId session_id (set_BatchingSupported batching s)) in
  let s2 := if (DirectWriteToPartition_ (Settings s) &&
                bool_decide (PartitionId_ (Settings s) = None))%bool
            then set_DirectWriteToPartitionId (Some (u64 part)) s1 else s1 in
  match InitSeqNo s with
  | None => set_InitSeqNo (Some newLastSeqNo) s2
  | Some _ => s2
  end.

Definition ProcessServerMessageImpl `{WriteLibraries} (e : env) (status : EStatus)
    (msg : server_message) : M ws TProcessSrvMessageResult :=
  match msg with
  | ServerMessageNotSet =>
      modify (set_SessionEstablished false) ;;
      r ← OnErrorImpl e (mkStatus status false);
      mret (mkProcess r None [] false)
  | InitResponse last_seq_no session_id part batching =>
      s ← get_st;
      let cfg := Settings s in
      let newLastSeqNo := if default true (DeduplicationEnabled_ cfg) then u64 last_seq_no else 0 in
      let prevDirectWriteToPartitionId := DirectWriteToPartitionId s in
      modify (adopt_init newLastSeqNo session_id part batching) ;;
      s ← get_st;
      if (DirectWriteToPartition_ cfg && bool_decide (is_Some (DirectWriteToPartitionId s)) &&
          bool_decide (prevDirectWriteToPartitionId = None))%bool
      then mret (mkProcess (mkResult true 0 false false) (Some newLastSeqNo) [] true)
      else
        modify (set_SessionEstablished true) ;;
        let first := negb (FirstTokenSent s) in
        when first (modify (fun s => set_FirstTokenSent true (set_ContinuationTokenIssued true s))) ;;
        SendImpl ;;
        mret (mkProcess result0 (Some newLastSeqNo) (if first then [ReadyToAcceptEvent] else []) true)
  | WriteResponse acks =>
      r ← process_acks acks;
      mret (mkProcess result0 None (snd r ++ [AcksEvent (fst r)]) true)
  | UpdateTokenResponse =>
      modify (set_UpdateTokenInProgress false) ;;
      UpdateTokenIfNeededImpl ;;
      mret (mkProcess result0 None [] true)
  end.

(** [IsErrorMessage]. *)
Definition IsErrorMessage (status : EStatus) : bool :=
  negb (bool_decide (status = SUCCESS)) && negb (bool_decide (status = STATUS_UNDEFINED)).

Fixpoint remove_first (x : Z) (l : list Z) : list Z :=
  match l with [] => [] | y :: l => if x =? y then l else y :: remove_first x l end.

(** Its first section, with the events pushed.  [grpcStatus] is the transport's error if
    there is one; otherwise [status] and [msg] are the server's message. *)
Definition OnReadDone `{WriteLibraries} (e : env) (grpcStatus : option TPlainStatus)
    (status : TPlainStatus) (msg : server_message) (connectionGeneration : Z) : M ws unit :=
  modify (fun s => set_Reads (remove_first connectionGeneration (Reads s)) s) ;;
  s ← get_st;
  if negb (connectionGeneration =? ConnectionGeneration s) then mret tt
  else
    let errorStatus := match grpcStatus with
                       | Some st => Some st
                       | None => if IsErrorMessage (st_Status status) then Some status else None
                       end in
    processResult ← match errorStatus with
                    | Some _ => mret (mkProcess result0 None [] true)
                    | None => ProcessServerMessageImpl e (st_Status status) msg
                    end;
    s ← get_st;
    let needSetValue := (negb (InitSeqNoSetDone s) &&
                         bool_decide (is_Some (res_InitSeqNo processResult)))%bool in
    when needSetValue (modify (set_InitSeqNoSetDone true)) ;;
    for_each PushEvent (res_Events processResult) ;;
    post (ToFinishRead (bool_decide (errorStatus = None) && res_Ok processResult)%bool errorStatus
            (HandleResult processResult) (res_InitSeqNo processResult) needSetValue).

(** Its second section, with the promise set after it. *)
Definition FinishRead (e : env) (errorStatus : option TPlainStatus) (result : THandleResult)
    (initSeqNo : option Z) (needSetValue : bool) : M ws unit :=
  handleResult ← match errorStatus with
                 | Some st => RestartImpl e st
                 | None => mret result
                 end;
  when (DoStop handleResult)
    (CloseImpl match errorStatus with Some st => st_Status st | None => SUCCESS end) ;;
  when needSetValue (SetInitSeqNoPromise initSeqNo) ;;
  post (ToHandle (if needSetValue then mkResult (DoRestart handleResult) (StartDelay handleResult)
                                         (DoStop handleResult) false
                  else handleResult)).

(** The next step of the callbacks: the [i]-th of those that have begun goes on. *)
Definition run_action (e : env) (a : pending_action) : M ws unit :=
  match a with
  | ToRead => ReadFromProcessor
  | ToHandle result => ProcessHandleResult e result
  | ToConnect delay => Connect e delay
  | ToUseDescription status partition => UseDescription e status partition
  | ToFinishRead true err result seqNo need =>
      ReadFromProcessor ;; post (ToFinishRead false err result seqNo need)
  | ToFinishRead false err result seqNo need => FinishRead e err result seqNo need
  end.

Definition Resume (e : env) (i : nat) : M ws unit :=
  s ← get_st;
  match Pending s !! i with
  | None => mret tt
  | Some a => modify (set_Pending (delete i (Pending s))) ;; run_action e a
  end.

(** ** Close *)

(** Its first section, which flushes the batch; the session then waits. *)
Definition CloseBegin `{WriteLibraries} : M ws unit :=
  s ← get_st;
  if Aborting s then mret tt
  else when (negb (batch_Empty (CurrentBatch s))) (WriteBatchImpl ;; mret tt).

Definition nothing_in_flight (s : ws) : bool :=
  (bool_decide (length (OriginalMessagesToSend s) = 0%nat) &&
   bool_decide (length (SentOriginalMessages s) = 0%nat))%bool.

(** Its last section: whether every write was confirmed. *)
Definition CloseEnd : M ws bool :=
  s ← get_st;
  let ready := (nothing_in_flight s && negb (Aborting s))%bool in
  CloseImpl SUCCESS ;;
  s ← get_st;
  let needSetSeqNoValue := negb (InitSeqNoSetDone s) in
  when needSetSeqNoValue
    (modify (set_InitSeqNoSetDone true) ;; SetInitSeqNoPromise None) ;;
  mret ready.

Definition Destroy : M ws unit :=
  s ← get_st;
  when (negb (Aborting s))
    (CloseImpl SUCCESS ;;
     s ← get_st;
     when (negb (InitSeqNoSetDone s))
       (modify (set_InitSeqNoSetDone true) ;; SetInitSeqNoPromise None)).
