(* ===== verification/WriteSessionInv.v ===== *)
(** * Write session: the invariant of the message pipeline

    The invariant of [WriteSession.ws] and the proof that the operations below
    the user's calls keep it: sending, compression, acknowledgement, reconnect
    and abort.  [wpE E m Q s] is total correctness up to the failures in [E];
    the pipeline is proved with [E] the failures of the transaction and
    publication bookkeeping, which it does not depend on. *)

From S2P Require Import Prelude Status DeferredAck WriteTypes WriteSession.

(** Failures of the bookkeeping of transactions and publications. *)
Definition tracking_failure (f : failure) : Prop :=
  match f with
  | Abort m => m ∈ ["dangling transaction info"; "dangling ack state"; "!txInfo->CommitCalled";
                    "deferred.UnackedCount > 0"; "AckCount_ <= WriteCount_";
                    "WriteCount_ >= AckCount_ + unackedCount"]
  | Throw m => m ∈ ["promise is not initialized"; "value already set"]
  | Undefined _ => False
  end.

Abbreviation wpT := (wpE tracking_failure).

(** ** Bookkeeping of transactions and publications *)

(** The state without it. *)
Definition untracked (s : ws) : ws :=
  set_Txs ∅ (set_TxInfos ∅ (set_WrittenInTx ∅ (set_WrittenInDeferred ∅ (set_Trackers ∅ s)))).

Definition same (s s' : ws) : Prop := untracked s = untracked s'.

(** [m] changes nothing else and fails only in its own ways. *)
Definition tracking {A} (m : M ws A) : Prop := forall s, wpT m (fun _ s' => same s s') s.

(** ** The pipeline *)

(** The identifiers of the messages of a block, and of a sequence of blocks. *)
Definition block_ids (b : TBlock) : list Z := seqZ (Offset b) (MessageCount b).
Definition blocks_ids (l : list TBlock) : list Z := concat (block_ids <$> l).

(** Messages out of the batch and not acknowledged, oldest first. *)
Definition pipeline0 (s : ws) : list Z :=
  (Id <$> SentOriginalMessages s) ++ (Id <$> OriginalMessagesToSend s).

Definition block_wf (cfg : settings) (b : TBlock) : Prop :=
  1 <= MessageCount b <= BatchFlushMessageCount_ cfg /\
  0 <= block_OriginalSize b /\ 0 <= OriginalMemoryUsage b /\
  OriginalDataRefs b <> [].

Definition uncompressed_bytes (b : TBlock) : Z :=
  if Compressed b then 0 else block_OriginalSize b.
Definition compressed_bytes (b : TBlock) : Z :=
  if Compressed b then bsize (block_Data b) else 0.

(** Memory of the blocks and requests, and [x] bytes of messages in no block. *)
Definition held_memory (x : Z) (s : ws) : Z :=
  x + sumZ memoryToRelease (SentPackedMessage s) + sumZ memoryToRelease (PackedMessagesToSend s)
    + sumZ OriginalMemoryUsage (Compressing s) + sumZ (fun n => n) (Requests s).

Definition offset_le (a b : TBlock) : Prop := Offset a <= Offset b.

(** The blocks to send cover the messages to send, in some order of blocks. *)
Definition todo_blocks (s : ws) : Prop := exists todo,
  todo ≡ₚ PackedMessagesToSend s ++ Compressing s /\
  blocks_ids todo = Id <$> OriginalMessagesToSend s.

Record inv0 (x : Z) (s : ws) : Prop := {
  i_x : 0 <= x;
  i_sent : blocks_ids (SentPackedMessage s) = Id <$> SentOriginalMessages s;
  i_todo : Aborting s = false -> todo_blocks s;
  i_sorted : StronglySorted offset_le (PackedMessagesToSend s);
  i_inc : StronglySorted Z.lt (pipeline0 s);
  i_range : Forall (inU 64) (pipeline0 s);
  i_wf : Forall (block_wf (Settings s))
           (SentPackedMessage s ++ PackedMessagesToSend s ++ Compressing s);
  i_ready : pipeline0 s <> [] -> is_Some (AutoSeqNoMode s) /\ is_Some (InitSeqNo s);
  i_batching : SessionEstablished s = true ->
    BatchFlushMessageCount_ (Settings s) <= 1 \/ BatchingSupported s = true;
  i_mem : held_memory x s <= MemoryUsage s;
  i_mem_eq : Aborting s = false -> MemoryUsage s = held_memory x s;
  i_unc : sumZ uncompressed_bytes (SentPackedMessage s ++ PackedMessagesToSend s) +
          sumZ block_OriginalSize (Compressing s) <= BytesInflightUncompressed (Counters s);
  i_com : sumZ compressed_bytes (SentPackedMessage s ++ PackedMessagesToSend s) <=
          BytesInflightCompressed (Counters s);
  i_req : Forall (Z.le 0) (Requests s);
  i_start : FirstTokenSent s = false ->
    pipeline0 s = [] /\ PackedMessagesToSend s = [] /\ Compressing s = [] /\ Requests s = [] /\
    ContinuationTokenIssued s = false /\ SessionEstablished s = false;
  i_init : FirstTokenSent s = true -> is_Some (InitSeqNo s)
}.

(** The part of the state the pipeline is about. *)
Definition view (s : ws) :=
  (Settings s, MemoryUsage s, FirstTokenSent s, ContinuationTokenIssued s, CurrentBatch s,
   Id <$> OriginalMessagesToSend s, PackedMessagesToSend s, Id <$> SentOriginalMessages s,
   SentPackedMessage s, SessionEstablished s, BatchingSupported s, NextId s, InitSeqNo s,
   AutoSeqNoMode s, Counters s, Compressing s, Requests s, ScheduledTokens s, Events s).

(** The session may have been aborted or closed on the way. *)
Definition closing (s s' : ws) : Prop :=
  (Aborting s = true -> Aborting s' = true) /\
  (CloseEvent s' = CloseEvent s \/ Aborting s' = true /\ is_Some (CloseEvent s')).

Definition quiet (s s' : ws) : Prop := view s = view s' /\ closing s s'.

(** What the events tell the user: acknowledged identifiers, and how many tokens. *)
Definition acked_of (evs : list event) : list Z :=
  concat ((fun ev => match ev with AcksEvent l => ack_SeqNo <$> l | _ => [] end) <$> evs).
Definition is_ready (ev : event) : bool := match ev with ReadyToAcceptEvent => true | _ => false end.
Definition ready_count (evs : list event) : nat := length (filter (fun ev => is_ready ev = true) evs).

(** [n] tokens were used up and [p] are about to be handed out: at most one more
    is out, and exactly when the session says so, until the events are closed. *)
Definition tokens (n p : nat) (s : ws) : Prop :=
  let out := (ready_count (Events s) + ScheduledTokens s + p)%nat in
  let due := (n + if ContinuationTokenIssued s then 1 else 0)%nat in
  (out <= due)%nat /\ (CloseEvent s = None -> out = due).

(** A token is out unless the memory limit is exceeded. *)
Definition awake (s : ws) : Prop :=
  FirstTokenSent s = true -> Aborting s = false ->
  ContinuationTokenIssued s = true \/ MaxMemoryUsage_ (Settings s) < MemoryUsage s.

Definition wakes (s s' : ws) : Prop :=
  (awake s -> awake s') /\ (ContinuationTokenIssued s = true -> ContinuationTokenIssued s' = true).

(** What sending and compressing leave alone. *)
Definition rest (s : ws) :=
  (Settings s, FirstTokenSent s, CurrentBatch s, acked_of (Events s), InitSeqNo s,
   AutoSeqNoMode s, NextId s, pipeline0 s).

Definition frame (s s' : ws) : Prop := rest s = rest s' /\ closing s s'.

Definition send_frame (s s' : ws) : Prop :=
  frame s s' /\ Events s' = Events s /\ ContinuationTokenIssued s' = ContinuationTokenIssued s /\
  ScheduledTokens s' = ScheduledTokens s /\ Compressing s' = Compressing s /\
  MemoryUsage s <= MemoryUsage s'.

(** ** Rules and tactics *)

(** The top of the queue against the messages to send. *)
Definition ready_block (s : ws) (top : TBlock) (rest : list TBlock) : Prop :=
  SessionEstablished s = true /\ Aborting s = false /\ PackedMessagesToSend s = top :: rest /\
  exists todo, todo ≡ₚ rest ++ Compressing s /\
    Id <$> OriginalMessagesToSend s = block_ids top ++ blocks_ids todo.

(** The state after the top block went into a request. *)
Definition sent_block (top : TBlock) (s : ws) : ws :=
  let n := Z.to_nat (MessageCount top) in
  set_SentOriginalMessages (SentOriginalMessages s ++ take n (OriginalMessagesToSend s))
    (set_OriginalMessagesToSend (drop n (OriginalMessagesToSend s)) s).

Definition moved_block (top : TBlock) (s : ws) : ws :=
  set_SentPackedMessage (SentPackedMessage s ++ [top])
    (set_PackedMessagesToSend (tail (PackedMessagesToSend s)) (sent_block top s)).

(** [SpaceUsedLong] is a size. *)
Class WriteLaws `{WriteLibraries} : Prop := { space_nonneg : forall m, 0 <= SpaceUsedLong m }.

(** What a loop of [SendImpl] started in [s] ensures. *)
Definition sends (x : Z) (s s' : ws) : Prop :=
  inv0 x s' /\ send_frame s s' /\
  (length (PackedMessagesToSend s') <= length (PackedMessagesToSend s))%nat.

(** The state with [b] being compressed. *)
Definition in_flight (b : TBlock) (s : ws) : ws := set_Compressing (b :: Compressing s) s.

(** A block leaves compression for the queue. *)
Definition queued (b : TBlock) (s : ws) : ws :=
  set_PackedMessagesToSend (pq_push b (PackedMessagesToSend s)) s.

Definition accounted (b : TBlock) (s : ws) : ws :=
  if Compressed b then
    set_Counters (add_inflight (- block_OriginalSize b) (bsize (block_Data b)) 0 (Counters s))
      (set_MemoryUsage (MemoryUsage s + (bsize (block_Data b) - OriginalMemoryUsage b)) s)
  else s.

(** What compressing ensures. *)
Definition compresses (x : Z) (n : nat) (s s' : ws) : Prop :=
  inv0 x s' /\ frame s s' /\ tokens n 0 s' /\ awake s' /\
  (ContinuationTokenIssued s = true -> ContinuationTokenIssued s' = true).

Definition batch_bytes (b : TMessageBatch) : Z := sumZ (fun m => bsize (DataRef m)) (Messages b).

Definition batch_ids (b : TMessageBatch) : list Z := msg_Id <$> Messages b.

(** Everything accepted and not acknowledged, oldest first. *)
Definition pipeline (s : ws) : list Z := pipeline0 s ++ batch_ids (CurrentBatch s).

Record flushable (s : ws) : Prop := {
  fl_ne : Messages (CurrentBatch s) <> [];
  fl_len : Z.of_nat (length (Messages (CurrentBatch s))) <= MaxBlockMessageCount s;
  fl_acq : Acquired (CurrentBatch s) = true;
  fl_data : batch_Data (CurrentBatch s) = concat (DataRef <$> Messages (CurrentBatch s));
  fl_codec : Forall (fun m => msg_Codec m = None) (Messages (CurrentBatch s)) \/
    exists m c, Messages (CurrentBatch s) = [m] /\ msg_Codec m = Some c /\ 0 <= msg_OriginalSize m;
  fl_ids : exists i, batch_ids (CurrentBatch s) =
                     seqZ i (Z.of_nat (length (Messages (CurrentBatch s))));
  fl_inc : StronglySorted Z.lt (pipeline s);
  fl_range : Forall (inU 64) (batch_ids (CurrentBatch s));
  fl_max : batch_bytes (CurrentBatch s) < MaxBlockSize;
  fl_mode : is_Some (AutoSeqNoMode s) /\ is_Some (InitSeqNo s);
  fl_first : FirstTokenSent s = true
}.

(** What the user's calls leave alone. *)
Definition outer (s : ws) :=
  (Settings s, FirstTokenSent s, acked_of (Events s), InitSeqNo s, AutoSeqNoMode s, NextId s,
   pipeline s).

Definition outer_frame (s s' : ws) : Prop := outer s = outer s' /\ closing s s'.

Definition filled (s : ws) : ws :=
  set_OriginalMessagesToSend
    (OriginalMessagesToSend s ++ (original_of <$> Messages (CurrentBatch s))) s.

(** [k] messages were taken from the front of the sent ones. *)
Definition popped (k : nat) (s s' : ws) : Prop := exists fr w,
  s' = set_FlushResults fr (set_SentOriginalMessages (drop k (SentOriginalMessages s))
         (set_WrittenInTx w s)).

(** The state after the first sent block was acknowledged. *)
Definition acked_block (b : TBlock) (bs : list TBlock) (issued : bool) (s : ws) : ws :=
  set_SentPackedMessage bs
    (set_Counters (count_written (block_OriginalSize b) (compressed_bytes b) (uncompressed_bytes b)
                     (MessageCount b) (Counters s))
      (set_ContinuationTokenIssued issued
        (set_MemoryUsage (MemoryUsage s - memoryToRelease b) s))).

(** ** Bookkeeping of transactions and publications *)

#[export] Instance same_equiv : Equivalence same.
Proof. unfold same. split; repeat intro; congruence. Qed.

Lemma tracking_ret {A} (a : A) : tracking (mret a).
Proof. done. Qed.

Lemma tracking_bind {A B} (m : M ws A) (f : A -> M ws B) :
  tracking m -> (forall a, tracking (f a)) -> tracking (m ≫= f).
Proof.
  intros Hm Hf s. apply wpE_bind. eapply wpE_mono; [apply Hm|]. cbn beta. intros a s' H.
  eapply wpE_mono; [apply Hf|]. cbn beta. intros _ s'' H'. by etrans; [exact H|].
Qed.

Lemma tracking_get {B} (f : ws -> M ws B) : (forall s, tracking (f s)) -> tracking (get_st ≫= f).
Proof. intros Hf. by apply tracking_bind. Qed.

Lemma tracking_modify f : (forall s, same s (f s)) -> tracking (modify f).
Proof. intros H s. apply wpE_modify, H. Qed.

Lemma tracking_when b m : tracking m -> tracking (when b m).
Proof. by destruct b. Qed.

Lemma tracking_abort {A} m : tracking_failure (Abort m) -> tracking (A:=A) (abort m).
Proof. by intros H s. Qed.

Lemma tracking_throw {A} m : tracking_failure (Throw m) -> tracking (A:=A) (throw m).
Proof. by intros H s. Qed.

Lemma tracking_abort_unless b m : tracking_failure (Abort m) -> tracking (abort_unless b m).
Proof. intros H. destruct b; [apply tracking_ret|by apply tracking_abort]. Qed.

Lemma tracking_for_each {A} (f : A -> M ws unit) l :
  (forall x, tracking (f x)) -> tracking (for_each f l).
Proof.
  intros H. induction l as [|x l IH]; [apply tracking_ret|]. cbn.
  apply tracking_bind; [apply H|done].
Qed.

Lemma tracking_on_tracker {A} a (m : M tracker A) :
  (forall t f, m t = Fail f -> tracking_failure f) -> tracking (on_tracker a m).
Proof.
  intros H. unfold on_tracker. apply tracking_get. intros s.
  destruct (Trackers s !! a) as [t|]; [|by apply tracking_abort; set_solver].
  destruct (m t) as [[r t']|f] eqn:E.
  - apply tracking_bind; [by apply tracking_modify|done].
  - intros s'. unfold wpE. by eapply H.
Qed.

#[export] Hint Extern 1 (tracking_failure _) => cbn; set_solver : ydb.
#[export] Hint Resolve tracking_ret tracking_abort tracking_throw tracking_abort_unless
  tracking_when tracking_for_each : ydb.

Ltac tracking :=
  repeat lazymatch goal with
  | |- forall _, _ => intros ?
  | |- tracking (get_st ≫= _) => apply tracking_get
  | |- tracking (_ ≫= _) => apply tracking_bind
  | |- tracking (modify _) => apply tracking_modify; intros ?; reflexivity
  | |- tracking (when _ _) => apply tracking_when
  | |- tracking (match _ with _ => _ end) => case_goal
  | |- _ => solve [eauto with ydb]
  end.

Lemma get_txinfo_tracking g : tracking (get_txinfo g).
Proof. unfold get_txinfo. tracking. Qed.
Lemma put_txinfo_tracking g i : tracking (put_txinfo g i).
Proof. unfold put_txinfo. tracking. Qed.
#[export] Hint Resolve get_txinfo_tracking put_txinfo_tracking : ydb.

Lemma GetOrCreateTxInfo_tracking t : tracking (GetOrCreateTxInfo t).
Proof. unfold GetOrCreateTxInfo. tracking. Qed.
Lemma SetCommitValue_tracking g st : tracking (SetCommitValue g st).
Proof. unfold SetCommitValue. tracking. Qed.
#[export] Hint Resolve GetOrCreateTxInfo_tracking SetCommitValue_tracking : ydb.

Lemma TrySetValue_failure p st t f : TrySetValue p st t = Fail f -> tracking_failure f.
Proof. unfold TrySetValue. destruct p; [done|]. intros [= <-]. cbn. set_solver. Qed.

Lemma OnAck_failure t f : OnAck t = Fail f -> tracking_failure f.
Proof.
  unfold OnAck. cbn. unfold mbind, M_bind, modify, abort_unless, when. cbn.
  destruct (_ <=? _); cbn; [|intros [= <-]; cbn; set_solver].
  destruct (_ && _)%bool; [|done].
  destruct (TrySetValue _ _ _) as [[]|] eqn:E; [done|]. intros [= <-].
  by eapply TrySetValue_failure.
Qed.

Lemma TryOnWrite_failure t f : TryOnWrite t = Fail f -> tracking_failure f.
Proof. unfold TryOnWrite. cbn. unfold mbind, M_bind. cbn. by destruct (Sealed t). Qed.

Lemma OnUnackedAbort_failure n t f : OnUnackedAbort n t = Fail f -> tracking_failure f.
Proof.
  unfold OnUnackedAbort. destruct (n =? 0); [done|].
  unfold mbind, M_bind, modify, abort_unless, when. cbn.
  destruct (_ <=? _); cbn; [|intros [= <-]; cbn; set_solver].
  destruct (WaitCalled t); cbn; [apply TrySetValue_failure|done].
Qed.

Lemma TrySignalAllAcksReceived_tracking n : tracking (TrySignalAllAcksReceived n).
Proof.
  unfold TrySignalAllAcksReceived. apply tracking_get. intros s.
  destruct (WrittenInDeferred s !! n) as [d|]; [|tracking].
  apply tracking_bind; [|tracking].
  destruct (if_AckState d) as [a|]; [|tracking].
  apply tracking_bind; [|tracking]. apply tracking_on_tracker, OnAck_failure.
Qed.

Lemma CancelPendingWriteAcks_tracking : tracking CancelPendingWriteAcks.
Proof.
  unfold CancelPendingWriteAcks, CancelTransactions, CancelDeferredPublications.
  apply tracking_bind; [|intros _].
  - apply tracking_get. intros s. apply tracking_bind; [|by intros _; apply tracking_modify].
    apply tracking_for_each. intros [t g]. unfold cancel_tx. tracking.
  - apply tracking_get. intros s. apply tracking_bind; [by apply tracking_modify|intros _].
    apply tracking_for_each. intros [a n]. apply tracking_on_tracker, OnUnackedAbort_failure.
Qed.

Lemma TrySubscribe_tracking t : tracking (TrySubscribeOnTransactionCommit t).
Proof. unfold TrySubscribeOnTransactionCommit. tracking. Qed.
#[export] Hint Resolve TrySignalAllAcksReceived_tracking TrySubscribe_tracking : ydb.

(** Projections of updated states. *)
Ltac ws_cbn :=
  cbn [ Settings MemoryUsage FirstTokenSent ContinuationTokenIssued CurrentBatch
    OriginalMessagesToSend PackedMessagesToSend SentOriginalMessages SentPackedMessage
    SendImplScheduled Aborting SessionEstablished BatchingSupported PartitionId
    DirectWriteToPartitionId Started ConnectionGeneration ConnectionAttemptsDone
    DescribePartitionContext ConnectContext ConnectTimeoutContext ConnectDelayContext
    next_context PreferredPartitionLocation ServerSessionId NextId InitSeqNo AutoSeqNoMode
    InitSeqNoSetDone InitSeqNoPromise UpdateTokenInProgress PrevToken LastTokenUpdate
    MessagesAcquired Counters Txs TxInfos WrittenInTx WrittenInDeferred Trackers Auth
    Compressing Requests ScheduledTokens CloseEvent Events FlushResults next_flush Reads Wire
    Pending set_Settings set_MemoryUsage set_FirstTokenSent set_ContinuationTokenIssued set_CurrentBatch
    set_OriginalMessagesToSend set_PackedMessagesToSend set_SentOriginalMessages
    set_SentPackedMessage set_SendImplScheduled set_Aborting set_SessionEstablished
    set_BatchingSupported set_PartitionId set_DirectWriteToPartitionId set_Started
    set_ConnectionGeneration set_ConnectionAttemptsDone set_DescribePartitionContext
    set_ConnectContext set_ConnectTimeoutContext set_ConnectDelayContext set_next_context
    set_PreferredPartitionLocation set_ServerSessionId set_NextId set_InitSeqNo
    set_AutoSeqNoMode set_InitSeqNoSetDone set_InitSeqNoPromise set_UpdateTokenInProgress
    set_PrevToken set_LastTokenUpdate set_MessagesAcquired set_Counters set_Txs set_TxInfos
    set_WrittenInTx set_WrittenInDeferred set_Trackers set_Auth set_Compressing set_Requests
    set_ScheduledTokens set_CloseEvent set_Events set_FlushResults set_next_flush set_Reads
    set_Wire set_Pending].
Ltac ws_cbn_in H :=
  cbn [ Settings MemoryUsage FirstTokenSent ContinuationTokenIssued CurrentBatch
    OriginalMessagesToSend PackedMessagesToSend SentOriginalMessages SentPackedMessage
    SendImplScheduled Aborting SessionEstablished BatchingSupported PartitionId
    DirectWriteToPartitionId Started ConnectionGeneration ConnectionAttemptsDone
    DescribePartitionContext ConnectContext ConnectTimeoutContext ConnectDelayContext
    next_context PreferredPartitionLocation ServerSessionId NextId InitSeqNo AutoSeqNoMode
    InitSeqNoSetDone InitSeqNoPromise UpdateTokenInProgress PrevToken LastTokenUpdate
    MessagesAcquired Counters Txs TxInfos WrittenInTx WrittenInDeferred Trackers Auth
    Compressing Requests ScheduledTokens CloseEvent Events FlushResults next_flush Reads Wire
    Pending set_Settings set_MemoryUsage set_FirstTokenSent set_ContinuationTokenIssued set_CurrentBatch
    set_OriginalMessagesToSend set_PackedMessagesToSend set_SentOriginalMessages
    set_SentPackedMessage set_SendImplScheduled set_Aborting set_SessionEstablished
    set_BatchingSupported set_PartitionId set_DirectWriteToPartitionId set_Started
    set_ConnectionGeneration set_ConnectionAttemptsDone set_DescribePartitionContext
    set_ConnectContext set_ConnectTimeoutContext set_ConnectDelayContext set_next_context
    set_PreferredPartitionLocation set_ServerSessionId set_NextId set_InitSeqNo
    set_AutoSeqNoMode set_InitSeqNoSetDone set_InitSeqNoPromise set_UpdateTokenInProgress
    set_PrevToken set_LastTokenUpdate set_MessagesAcquired set_Counters set_Txs set_TxInfos
    set_WrittenInTx set_WrittenInDeferred set_Trackers set_Auth set_Compressing set_Requests
    set_ScheduledTokens set_CloseEvent set_Events set_FlushResults set_next_flush set_Reads
    set_Wire set_Pending] in H.


(** ** Quiet operations *)

#[export] Instance closing_preorder : PreOrder closing.
Proof.
  split; [by intros s; split; auto|].
  intros s1 s2 s3 [A1 [C1|[D1 C1]]] [A2 [C2|[D2 C2]]]; (split; [auto|]).
  - left. congruence.
  - by right.
  - right. rewrite C2. auto.
  - by right.
Qed.

#[export] Instance wakes_preorder : PreOrder wakes.
Proof. split; [by intros s; split|]. intros s1 s2 s3 [A1 B1] [A2 B2]. split; auto. Qed.

#[export] Instance quiet_preorder : PreOrder quiet.
Proof.
  split; [by intros s; split|]. intros s1 s2 s3 [V1 C1] [V2 C2].
  split; [congruence|by etrans].
Qed.

#[export] Instance frame_preorder : PreOrder frame.
Proof.
  split; [by intros s; split|]. intros s1 s2 s3 [V1 C1] [V2 C2].
  split; [congruence|by etrans].
Qed.

#[export] Instance send_frame_preorder : PreOrder send_frame.
Proof.
  split; [by intros s; split_and!|]. intros s1 s2 s3 (F1 & A1 & B1 & C1 & D1 & E1) (F2 & A2 & B2 & C2 & D2 & E2).
  split_and!; [by etrans|congruence|congruence|congruence|congruence|lia].
Qed.

Lemma same_proj {A} (f : ws -> A) s s' :
  same s s' -> (forall s, f (untracked s) = f s) -> f s' = f s.
Proof. intros E Hf. rewrite <- (Hf s), <- (Hf s'). by rewrite E. Qed.

Lemma quiet_eq s s' : view s = view s' -> Aborting s' = Aborting s ->
  CloseEvent s' = CloseEvent s -> quiet s s'.
Proof. intros V A C. split; [done|]. split; [by rewrite A|by left]. Qed.

Lemma same_quiet s s' : same s s' -> quiet s s'.
Proof.
  intros E. split; [symmetry; by apply (same_proj view)|]. split.
  - rewrite (same_proj Aborting s s'); done.
  - left. by apply (same_proj CloseEvent).
Qed.

Lemma quiet_send s s' : quiet s s' -> send_frame s s'.
Proof.
  intros [V C]. unfold view in V. injection V as V1 V2 V3 V4 V5 V6 V7 V8 V9 V10 V11 V12 V13 V14 V15 V16 V17 V18 V19.
  split_and!; [split; [|done]|done|done|done|done|lia].
  unfold rest, pipeline0. congruence.
Qed.

Lemma inv0_view x s s' : view s = view s' -> (Aborting s' = false -> Aborting s = false) ->
  inv0 x s -> inv0 x s'.
Proof.
  intros V A []. unfold view in V.
  injection V as V1 V2 V3 V4 V5 V6 V7 V8 V9 V10 V11 V12 V13 V14 V15 V16 V17 V18 V19.
  unfold todo_blocks, pipeline0, held_memory in *.
  rewrite V1, V2, V3, V4, V6, V7, V8, V9, V10, V11, V13, V14, V15, V16, V17 in *.
  split; unfold todo_blocks, pipeline0, held_memory; auto.
Qed.

Lemma inv0_quiet x s s' : quiet s s' -> inv0 x s -> inv0 x s'.
Proof.
  intros [V [A _]]. apply inv0_view; [done|]. destruct (Aborting s); [|done]. by rewrite A.
Qed.

Lemma AbortImpl_quiet s : wpT AbortImpl (fun _ s' =>
  quiet s s' /\ Aborting s' = true /\ CloseEvent s' = CloseEvent s) s.
Proof.
  unfold AbortImpl. wpE_steps. destruct (Aborting s) eqn:Ea; wpE_steps; [done|].
  unfold clear_connect. wpE_steps. eapply wpE_mono; [apply CancelPendingWriteAcks_tracking|].
  cbn beta. intros _ s1 H. unfold AbortFlushPromisesImpl. wpE_steps. ws_cbn.
  assert (Aborting s1 = true) as A by (by rewrite (same_proj Aborting _ _ H)).
  assert (CloseEvent s1 = CloseEvent s) as C by (by rewrite (same_proj CloseEvent _ _ H)).
  apply same_quiet in H as [V _].
  assert (forall l : list TOriginalMessage, Id <$> (without_promise <$> l) = Id <$> l) as Hm.
  { intros l. by rewrite <- list_fmap_compose. }
  split_and!; [split; [|split]|done|done].
  - etrans; [|etrans; [exact V|]]; [done|]. unfold view. ws_cbn. by rewrite !Hm.
  - by ws_cbn.
  - ws_cbn. by left.
Qed.

Lemma CloseImpl_quiet st s : wpT (CloseImpl st) (fun _ s' =>
  quiet s s' /\ Aborting s' = true /\ CloseEvent s' = Some st) s.
Proof.
  unfold CloseImpl. wpE_steps. eapply wpE_mono; [apply AbortImpl_quiet|]. cbn beta.
  intros _ s' ([V [A _]] & A' & C). ws_cbn_in C. split_and!; [split; [exact V|split]|done|done].
  - done.
  - right. by rewrite C.
Qed.

Lemma UpdateTokenImpl_quiet f s : wpT (UpdateTokenImpl f) (fun _ s' => quiet s s') s.
Proof.
  unfold UpdateTokenImpl. wpE_steps. ws_cbn.
  destruct (_ || _)%bool; wpE_steps; [by apply quiet_eq|]. destruct f as [token|].
  - destruct (bool_decide _); wpE_steps; by apply quiet_eq.
  - eapply wpE_mono; [apply CloseImpl_quiet|]. cbn beta. by intros _ s' (H & _).
Qed.

Lemma UpdateTokenIfNeededImpl_quiet s : wpT UpdateTokenIfNeededImpl (fun _ s' => quiet s s') s.
Proof.
  unfold UpdateTokenIfNeededImpl. wpE_steps.
  destruct (_ || _)%bool; wpE_steps; [done|].
  destruct (Auth s); first [apply UpdateTokenImpl_quiet | wpE_steps; by apply quiet_eq].
Qed.

(** ** Blocks and identifiers *)

Lemma blocks_ids_cons b l : blocks_ids (b :: l) = block_ids b ++ blocks_ids l.
Proof. done. Qed.

Lemma blocks_ids_app l l' : blocks_ids (l ++ l') = blocks_ids l ++ blocks_ids l'.
Proof. unfold blocks_ids. by rewrite fmap_app, concat_app. Qed.

Lemma block_ids_head cfg b : block_wf cfg b ->
  block_ids b = Offset b :: seqZ (Offset b + 1) (MessageCount b - 1).
Proof.
  intros [[? _] _]. unfold block_ids. rewrite seqZ_cons by lia. do 2 f_equal; lia.
Qed.

Lemma block_ids_length b : length (block_ids b) = Z.to_nat (MessageCount b).
Proof. apply length_seqZ. Qed.

Lemma offset_in_ids cfg b l : Forall (block_wf cfg) l -> b ∈ l -> Offset b ∈ blocks_ids l.
Proof.
  intros Hl Hb. apply list_elem_of_split in Hb as (l1 & l2 & ->).
  rewrite Forall_app, Forall_cons in Hl. destruct Hl as (_ & Hb & _).
  rewrite blocks_ids_app, blocks_ids_cons, (block_ids_head _ _ Hb). set_solver.
Qed.

Lemma pq_push_perm b q : pq_push b q ≡ₚ b :: q.
Proof.
  induction q as [|x q IH]; cbn; [done|]. destruct (_ <? _); [done|].
  rewrite IH. apply Permutation_swap.
Qed.

Lemma pq_push_sorted b q : StronglySorted offset_le q -> StronglySorted offset_le (pq_push b q).
Proof.
  induction q as [|x q IH]; cbn; intros H; [by repeat constructor|].
  inversion H as [|? ? Hq Hx]; subst. destruct (_ <? _) eqn:E; bool_to_prop.
  - constructor; [done|]. constructor; [unfold offset_le; lia|].
    eapply Forall_impl; [exact Hx|]. unfold offset_le. intros; lia.
  - constructor; [auto|]. rewrite pq_push_perm. constructor; [unfold offset_le; lia|done].
Qed.

Lemma sorted_head_le x l y : StronglySorted Z.lt (x :: l) -> y ∈ l -> x < y.
Proof. inversion 1 as [|? ? _ H']; subst. rewrite Forall_forall in H'. auto. Qed.

Lemma sorted_app_r l l' : StronglySorted Z.lt (l ++ l') -> StronglySorted Z.lt l'.
Proof. induction l; [done|]. inversion 1; auto. Qed.

Lemma sorted_app_lt l l' x y : StronglySorted Z.lt (l ++ l') -> x ∈ l -> y ∈ l' -> x < y.
Proof.
  induction l as [|z l IH]; [set_solver|]. cbn. intros H Hx Hy.
  apply elem_of_cons in Hx as [->|Hx].
  - eapply sorted_head_le; [exact H|]. set_solver.
  - inversion H; auto.
Qed.

Lemma top_offset x s top rest : inv0 x s -> Aborting s = false ->
  PackedMessagesToSend s = top :: rest -> exists front l,
    OriginalMessagesToSend s = front :: l /\ Id front <= Offset top /\
    (Offset top = Id front -> exists todo, todo ≡ₚ rest ++ Compressing s /\
       Id <$> OriginalMessagesToSend s = block_ids top ++ blocks_ids todo).
Proof.
  intros I Ha Hp. destruct (i_todo _ _ I Ha) as (todo & Hperm & Hids). rewrite Hp in Hperm.
  assert (Forall (block_wf (Settings s)) todo) as Hwf.
  { rewrite Hperm, <- Hp. pose proof (i_wf _ _ I) as W. by apply Forall_app in W as [_ W]. }
  assert (top ∈ todo) as Ht by (rewrite Hperm; set_solver).
  pose proof (sorted_app_r _ _ (i_inc _ _ I)) as Hinc. rewrite <- Hids in Hinc.
  destruct todo as [|b0 todo0]; [set_solver|]. inversion Hwf as [|? ? Hb0 Hwf0]; subst.
  rewrite blocks_ids_cons, (block_ids_head _ _ Hb0) in Hids, Hinc. cbn in Hids, Hinc.
  destruct (OriginalMessagesToSend s) as [|front l] eqn:Eo; [done|].
  exists front, l. cbn in Hids. injection Hids as Hf Hl.
  assert (top = b0 \/ Offset b0 < Offset top) as [->|Hlt].
  { apply elem_of_cons in Ht as [->|Ht]; [by left|]. right.
    eapply sorted_head_le; [exact Hinc|]. apply elem_of_app. right. by eapply offset_in_ids. }
  - split_and!; [done|lia|]. intros _. exists todo0. split; [by eapply Permutation_cons_inv, Hperm|].
    cbn. rewrite (block_ids_head _ _ Hb0), <- Hf, <- Hl. done.
  - split_and!; [done|lia|]. intros; lia.
Qed.

Lemma IsReady_spec x s : inv0 x s -> wpT IsReadyToSendNextImpl (fun r s' => s' = s /\
  (r = true <-> exists top rest, ready_block s top rest)) s.
Proof.
  intros I. unfold IsReadyToSendNextImpl, ready_block. wpE_steps.
  destruct (SessionEstablished s) eqn:Es; cbn; wpE_steps; [|by split; [|split; [|naive_solver]]].
  destruct (Aborting s) eqn:Ea; wpE_steps; [by split; [|split; [|naive_solver]]|].
  destruct (PackedMessagesToSend s) as [|top rest] eqn:Ep; wpE_steps.
  { by split; [|split; [|naive_solver]]. }
  destruct (top_offset _ _ _ _ I Ea Ep) as (front & l & Eo & Hle & Hr). rewrite Eo in *.
  wpE_steps; [by apply Z.leb_le|]. split; [done|]. rewrite Z.eqb_eq. split.
  - intros He. destruct (Hr He) as (todo & ? & ?). exists top, rest. split_and!; [done..|].
    by exists todo.
  - intros (top' & rest' & _ & _ & [= <- <-] & todo & _ & E).
    pose proof (i_wf _ _ I) as W. rewrite Ep, Forall_app in W. destruct W as [_ W].
    inversion W as [|? ? Hw]; subst. rewrite (block_ids_head _ _ Hw) in E. cbn in E. congruence.
Qed.

(** ** Sending *)

Lemma GetSeqNoImpl_spec id s : is_Some (AutoSeqNoMode s) -> is_Some (InitSeqNo s) ->
  wpT (GetSeqNoImpl id) (fun _ s' => s' = s) s.
Proof.
  intros [[] Ha] [i Hi]; unfold GetSeqNoImpl; wpE_steps; rewrite Ha, Hi; done.
Qed.

Lemma ready_ids s top rest : ready_block s top rest ->
  Id <$> take (Z.to_nat (MessageCount top)) (OriginalMessagesToSend s) = block_ids top.
Proof.
  intros (_ & _ & _ & todo & _ & E). rewrite fmap_take, E, <- block_ids_length.
  apply take_app_length.
Qed.

Lemma ready_wf x s top rest : inv0 x s -> ready_block s top rest -> block_wf (Settings s) top.
Proof.
  intros I (_ & _ & Hp & _). pose proof (i_wf _ _ I) as W. rewrite Hp in W.
  rewrite Forall_app in W. destruct W as [_ W]. by inversion W.
Qed.

Lemma ready_length x s top rest : inv0 x s -> ready_block s top rest ->
  Z.of_nat (length (take (Z.to_nat (MessageCount top)) (OriginalMessagesToSend s))) =
  MessageCount top.
Proof.
  intros I R. destruct (ready_wf _ _ _ _ I R) as [[? _] _].
  rewrite <- (length_fmap Id), (ready_ids _ _ _ R), block_ids_length. lia.
Qed.

Lemma ready_nonempty x s top rest : inv0 x s -> ready_block s top rest -> pipeline0 s <> [].
Proof.
  intros I R. pose proof (ready_wf _ _ _ _ I R) as W. unfold pipeline0.
  destruct R as (_ & _ & _ & todo & _ & ->). rewrite (block_ids_head _ _ W).
  by destruct (Id <$> _).
Qed.

Lemma SendStandardBlock_spec x s top rest r : inv0 x s -> ready_block s top rest ->
  MessageCount top = 1 ->
  wpT (SendStandardBlock top r) (fun r' s' => messages r' <> [] /\ s' = sent_block top s) s.
Proof.
  intros I R Hc. pose proof (ready_length _ _ _ _ I R) as Hl.
  destruct (i_ready _ _ I (ready_nonempty _ _ _ _ I R)) as [Ha Hi].
  unfold SendStandardBlock. wpE_steps; [by apply Z.eqb_eq|].
  unfold sent_block. rewrite Hc in *. destruct (OriginalMessagesToSend s) as [|m l]; [done|].
  wpE_steps. eapply wpE_mono; [by apply GetSeqNoImpl_spec|]. cbn beta. intros seq s' ->.
  wpE_steps. split; [cbn; by destruct (messages _)|]. done.
Qed.

Lemma SendBatchBlock_spec x s top rest r : inv0 x s -> ready_block s top rest ->
  1 < MessageCount top ->
  wpT (SendBatchBlock top r) (fun r' s' => messages r' <> [] /\ s' = sent_block top s) s.
Proof.
  intros I R Hc. pose proof (ready_length _ _ _ _ I R) as Hl.
  destruct (ready_wf _ _ _ _ I R) as [[_ Hmax] _].
  destruct (i_ready _ _ I (ready_nonempty _ _ _ _ I R)) as [Ha Hi].
  unfold SendBatchBlock. wpE_steps; [by apply Z.ltb_lt|].
  destruct (i_batching _ _ I (proj1 R)) as [?|Hb]; [lia|]. rewrite Hb. cbn [negb].
  unfold sent_block.
  destruct (take _ (OriginalMessagesToSend s)) as [|m others] eqn:Et; [cbn in Hl; lia|].
  wpE_steps; [by apply Z.eqb_eq|].
  eapply wpE_mono; [by apply GetSeqNoImpl_spec|]. cbn beta. intros seq s' ->.
  wpE_steps. split; [cbn; by destruct (messages _)|]. done.
Qed.

Lemma Estimate_some x s top rest b : inv0 x s -> ready_block s top rest ->
  is_Some (EstimateTopicWriteRequestBlockSize top (OriginalMessagesToSend s) b).
Proof.
  intros I R. pose proof (ready_length _ _ _ _ I R) as Hl.
  destruct (ready_wf _ _ _ _ I R) as [[? _] _].
  unfold EstimateTopicWriteRequestBlockSize.
  destruct (OriginalMessagesToSend s) as [|m l]; [rewrite take_nil in Hl; cbn in Hl; lia|].
  destruct (_ >? 1) eqn:E; bool_to_prop; [|by destruct (Compressed top)].
  destruct (_ <? MessageCount top - 1) eqn:E'; bool_to_prop; [|done].
  rewrite !length_take in *. cbn in *. lia.
Qed.

Lemma moved_pipeline top s : pipeline0 (moved_block top s) = pipeline0 s.
Proof.
  unfold pipeline0, moved_block, sent_block. ws_cbn.
  by rewrite fmap_app, <- app_assoc, <- fmap_app, take_drop.
Qed.

Lemma moved_inv x s top rest : inv0 x s -> ready_block s top rest -> inv0 x (moved_block top s).
Proof.
  intros I R. pose proof (ready_ids _ _ _ R) as Hids. pose proof (moved_pipeline top s) as Hpipe.
  destruct R as (Hs & Ha & Hp & todo & Hperm & E). destruct I.
  split; rewrite ?Hpipe; unfold moved_block, sent_block, held_memory, todo_blocks in *; ws_cbn;
    rewrite ?Hp in *; try done; cbn [tail].
  - rewrite blocks_ids_app, fmap_app, i_sent0, Hids. unfold blocks_ids. cbn. by rewrite app_nil_r.
  - intros _. exists todo. split; [done|]. rewrite fmap_drop, E, <- block_ids_length.
    symmetry. apply drop_app_length.
  - by inversion i_sorted0.
  - by rewrite <- app_assoc.
  - rewrite !sumZ_app, ?sumZ_cons in *. cbn. lia.
  - intros _. rewrite !sumZ_app, ?sumZ_cons in *. cbn. specialize (i_mem_eq0 Ha). lia.
  - rewrite <- app_assoc. done.
  - rewrite <- app_assoc. done.
  - intros F. by destruct (i_start0 F) as (_ & ? & _).
Qed.

Lemma moved_frame s top : send_frame s (moved_block top s).
Proof.
  split_and!; [split; [|by split; [|left]]|done..]. unfold rest. by rewrite moved_pipeline.
Qed.

Lemma sends_trans x s1 s2 s3 : send_frame s1 s2 ->
  (length (PackedMessagesToSend s2) <= length (PackedMessagesToSend s1))%nat ->
  sends x s2 s3 -> sends x s1 s3.
Proof. intros F L (I & F' & L'). split_and!; [done|by etrans|lia]. Qed.

Lemma TxIsChanged_spec r s : OriginalMessagesToSend s <> [] ->
  wpT (TxIsChanged r) (fun b s' => s' = s /\ (messages r = [] -> b = false)) s.
Proof.
  intros H. unfold TxIsChanged. wpE_steps. destruct (bool_decide (messages r = [])) eqn:E;
    bool_to_prop; [by wpE_steps|]. by destruct (OriginalMessagesToSend s).
Qed.

Lemma DeferredPublishIsChanged_spec r s : OriginalMessagesToSend s <> [] ->
  wpT (DeferredPublishIsChanged r) (fun b s' => s' = s /\ (messages r = [] -> b = false)) s.
Proof.
  intros H. unfold DeferredPublishIsChanged. wpE_steps.
  destruct (bool_decide (messages r = [])) eqn:E; bool_to_prop; [by wpE_steps|].
  by destruct (OriginalMessagesToSend s).
Qed.

Lemma send_block_spec x s top rest r : inv0 x s -> ready_block s top rest ->
  wpT (if 1 <? MessageCount top then SendBatchBlock top r else SendStandardBlock top r)
    (fun r' s' => messages r' <> [] /\ s' = sent_block top s) s.
Proof.
  intros I R. destruct (ready_wf _ _ _ _ I R) as [[? _] _].
  destruct (1 <? MessageCount top) eqn:E; bool_to_prop.
  - by eapply SendBatchBlock_spec.
  - eapply SendStandardBlock_spec; [done|done|lia].
Qed.

(** The inner loop sends at least one block when it starts with an empty request. *)
Lemma send_blocks_spec x fuel : forall prev body r s, inv0 x s ->
  (length (PackedMessagesToSend s) < fuel)%nat ->
  wpT (send_blocks fuel prev body r) (fun r' s' => sends x s s' /\
    (messages r = [] -> body = 0 -> (exists top rest, ready_block s top rest) ->
     (length (PackedMessagesToSend s') < length (PackedMessagesToSend s))%nat)) s.
Proof.
  induction fuel as [|fuel IH]; intros prev body r s I Hf; [lia|].
  cbn [send_blocks]. apply wpE_bind. eapply wpE_mono; [by apply (IsReady_spec x)|]. cbn beta.
  intros ready s' [-> Hready]. wpE_steps.
  assert (sends x s s) as Hs by (by split_and!).
  destruct ready; [|wpE_steps; split; [done|]; intros _ _ H%Hready; done].
  destruct (proj1 Hready eq_refl) as (top & rest & R). pose proof R as (_ & _ & Ep & todo & _ & Eo).
  assert (OriginalMessagesToSend s <> []) as Ho.
  { intros E. rewrite E, (block_ids_head _ _ (ready_wf _ _ _ _ I R)) in Eo. done. }
  rewrite Ep at 1.
  destruct (_ && _)%bool eqn:Ec; wpE_steps.
  { split; [done|]. intros E. by rewrite E in Ec. }
  eapply wpE_mono; [by apply TxIsChanged_spec|]. cbn beta. intros c1 s' [-> H1].
  destruct c1; wpE_steps; [split; [done|]; intros E; by specialize (H1 E)|].
  eapply wpE_mono; [by apply DeferredPublishIsChanged_spec|]. cbn beta. intros c2 s' [-> H2].
  destruct c2; wpE_steps; [split; [done|]; intros E; by specialize (H2 E)|].
  destruct (Estimate_some _ _ _ _ (limiter_Empty body) I R) as [size ->].
  destruct (negb (CanAdd _ _ _ _)) eqn:Ecan; wpE_steps.
  { split; [done|]. intros _ -> _. done. }
  eapply wpE_mono; [by eapply send_block_spec|]. cbn beta. intros r' s' [Hr ->].
  wpE_steps.
  assert (length (PackedMessagesToSend (moved_block top s)) < length (PackedMessagesToSend s))%nat
    as Hlen by (unfold moved_block; ws_cbn; rewrite Ep; cbn; lia).
  eapply wpE_mono;
    [apply (IH _ _ r' (moved_block top s)); [by eapply moved_inv|lia]|].
  cbn beta. intros r'' s'' [Hsend _].
  split; [|intros _ _ _; destruct Hsend as (_ & _ & ?); lia].
  apply (sends_trans x s (moved_block top s)); [apply moved_frame|lia|exact Hsend].
Qed.

Lemma add_memory_inv x s n : 0 <= n -> inv0 x s -> FirstTokenSent s = true ->
  inv0 x (set_Requests (Requests s ++ [n]) (set_MemoryUsage (MemoryUsage s + n) s)).
Proof.
  intros Hn [] Hf. split; ws_cbn; try done.
  - unfold held_memory in *. ws_cbn. rewrite sumZ_app. cbn. lia.
  - intros Ha. unfold held_memory in *. ws_cbn. rewrite sumZ_app. cbn. rewrite (i_mem_eq0 Ha). lia.
  - rewrite Forall_app. by split; [|constructor].
  - congruence.
Qed.

Lemma WriteToProcessor_spec x s req n : 0 <= n -> inv0 x s -> FirstTokenSent s = true ->
  wpT (WriteToProcessorImpl req n) (fun _ s' => sends x s s') s.
Proof.
  intros Hn I Hf. unfold WriteToProcessorImpl, OnMemoryUsageChangedImpl. wpE_steps.
  destruct (Aborting s) eqn:Ea; wpE_steps; [by split_and!|].
  rewrite (proj2 (Z.leb_le _ _) Hn). wpE_steps.
  all: split_and!; [|split_and!; [split; [done|by split; [|left]]|done|done|done|done|ws_cbn; lia]|done].
  - eapply inv0_view; [| |by eapply (add_memory_inv x s n)]; done.
  - assert (n = 0) as -> by (bool_to_prop; done).
    eapply inv0_view; [| |exact I]; [|done]. unfold view. ws_cbn. by rewrite Z.add_0_r.
Qed.

Section Send.
Context `{WriteLaws}.

Lemma quiet_sends x s s' : quiet s s' -> inv0 x s -> sends x s s'.
Proof.
  intros Q I. split_and!; [by eapply inv0_quiet|by apply quiet_send|].
  destruct Q as [V _]. unfold view in V.
  injection V as V1 V2 V3 V4 V5 V6 V7 V8 V9 V10 V11 V12 V13 V14 V15 V16 V17 V18 V19. by rewrite V7.
Qed.

Lemma sends_first x s s' : sends x s s' -> FirstTokenSent s' = FirstTokenSent s.
Proof. intros (_ & ([R _] & _) & _). unfold rest in R. congruence. Qed.

Lemma send_requests_spec x fuel : forall s, inv0 x s -> FirstTokenSent s = true ->
  (length (PackedMessagesToSend s) < fuel)%nat ->
  wpT (send_requests fuel) (fun _ s' => sends x s s') s.
Proof.
  induction fuel as [|fuel IH]; intros s I Hf Hl; [lia|]. cbn [send_requests].
  wpE_call; [by apply (IsReady_spec x)|]. cbn beta.
  intros ready s' [-> Hready]. destruct ready; cbn [negb]; wpE_steps; [|by split_and!].
  wpE_call; [apply (send_blocks_spec x); [done|lia]|]. cbn beta.
  intros r s1 [S1 Hlt]. specialize (Hlt eq_refl eq_refl (proj1 Hready eq_refl)).
  pose proof S1 as (I1 & F1 & _).
  wpE_call; [apply UpdateTokenIfNeededImpl_quiet|]. cbn beta.
  intros _ s2 Q. apply (quiet_sends x) in Q; [|done]. pose proof Q as (I2 & F2 & L2).
  assert (FirstTokenSent s2 = true) as Hf2.
  { rewrite (sends_first x s1 s2 Q), (sends_first x s s1 S1). done. }
  wpE_call; [apply (WriteToProcessor_spec x); [apply space_nonneg|done|done]|]. cbn beta.
  intros _ s3 S3. pose proof S3 as (I3 & F3 & L3).
  wpE_call; [apply IH; [done| |lia]|].
  { by rewrite (sends_first x s2 s3 S3). }
  cbn beta. intros _ s4 S4.
  do 3 (eapply sends_trans; [eassumption|lia|]). done.
Qed.

Lemma SendImpl_spec x s : inv0 x s -> wpT SendImpl (fun _ s' => sends x s s') s.
Proof.
  intros I. unfold SendImpl. wpE_steps. destruct (FirstTokenSent s) eqn:Ef.
  - apply send_requests_spec; [done|done|lia].
  - cbn [send_requests]. apply wpE_bind. eapply wpE_mono; [by apply (IsReady_spec x)|]. cbn beta.
    intros ready s' [-> Hready]. destruct ready; [|by wpE_steps; split_and!].
    destruct (proj1 Hready eq_refl) as (top & rest & R & _).
    destruct (i_start _ _ I Ef) as (_ & _ & _ & _ & _ & ?). congruence.
Qed.

(** ** Tokens *)

Lemma send_tokens x n p s s' : sends x s s' -> tokens n p s -> tokens n p s'.
Proof.
  intros (_ & ([_ [_ C]] & E & I & S & _ & _) & _) [T1 T2]. split.
  - by rewrite E, I, S.
  - rewrite E, I, S. destruct C as [->|[_ [? C]]]; [done|congruence].
Qed.

Lemma send_awake x s s' : sends x s s' -> awake s -> awake s'.
Proof.
  intros (_ & ([R [A _]] & _ & I & _ & _ & M) & _) W. unfold rest in R.
  injection R as R1 R2 R3 R4 R5 R6 R7 R8. unfold awake. rewrite <- R1, <- R2, I.
  intros Hf Ha. destruct (W Hf) as [?|?]; [|by left|right; lia].
  destruct (Aborting s); [|done]. by rewrite A in Ha.
Qed.

Lemma send_wakes x s s' : sends x s s' -> wakes s s'.
Proof.
  intros S. split; [by eapply send_awake|]. destruct S as (_ & (_ & _ & -> & _) & _). done.
Qed.

(** [OnMemoryUsageChangedImpl], and [TryIssueContinuationTokenImpl] after it. *)
Lemma TryIssue_spec x n s : inv0 x s -> FirstTokenSent s = true -> tokens n 0 s ->
  wpT TryIssueContinuationTokenImpl (fun r s' => inv0 x s' /\ awake s' /\
    tokens n (if r : bool then 1 else 0) s' /\ s' = set_ContinuationTokenIssued
      (ContinuationTokenIssued s || r) s) s.
Proof.
  intros I Hf [T1 T2]. unfold TryIssueContinuationTokenImpl. wpE_steps.
  destruct (_ || _)%bool eqn:E; wpE_steps.
  - assert (s = set_ContinuationTokenIssued (ContinuationTokenIssued s || false) s) as Es.
    { rewrite orb_false_r. by destruct s. }
    split_and!; [done| |done|done]. intros _ Ha. rewrite Ha in E. cbn in E.
    apply orb_true_iff in E as [->|E]; [by left|]. right. by apply Z.ltb_lt.
  - bool_to_prop. assert (ContinuationTokenIssued s = false) as Hc by done. split_and!.
    + destruct I. split; ws_cbn; try done. congruence.
    + intros _ _. by left.
    + unfold tokens in *. ws_cbn. rewrite Hc in *. split; [lia|]. intros C. specialize (T2 C). lia.
    + by rewrite Hc.
Qed.

(** ** Compression *)

Lemma inv0_compressing x s l : l ≡ₚ Compressing s -> inv0 x s -> inv0 x (set_Compressing l s).
Proof.
  intros P []. split; unfold todo_blocks, held_memory in *; ws_cbn; try done.
  - intros Ha. destruct (i_todo0 Ha) as (todo & P' & E). exists todo. split; [|done]. by rewrite P.
  - by rewrite P.
  - by rewrite (sumZ_perm _ _ _ P).
  - by rewrite (sumZ_perm _ _ _ P).
  - by rewrite (sumZ_perm _ _ _ P).
  - intros F. destruct (i_start0 F) as (? & ? & E & ?). rewrite E in P.
    by apply Permutation_nil_r in P as ->.
Qed.

Lemma accounted_mem b s : MemoryUsage (accounted b s) =
  MemoryUsage s + memoryToRelease b - OriginalMemoryUsage b.
Proof. unfold accounted, memoryToRelease. destruct (Compressed b); ws_cbn; lia. Qed.

Lemma queued_inv x b s : inv0 x (in_flight b s) -> FirstTokenSent s = true ->
  inv0 x (queued b (accounted b s)).
Proof.
  intros [] Hf. assert (pq_push b (PackedMessagesToSend s) ≡ₚ b :: PackedMessagesToSend s) as P
    by apply pq_push_perm.
  assert (forall f, sumZ f (pq_push b (PackedMessagesToSend s)) =
                    f b + sumZ f (PackedMessagesToSend s)) as Hsum.
  { intros f. by rewrite (sumZ_perm _ _ _ P). }
  assert (PackedMessagesToSend (accounted b s) = PackedMessagesToSend s /\
    SentPackedMessage (accounted b s) = SentPackedMessage s /\
    Compressing (accounted b s) = Compressing s) as (E1 & E2 & E3)
    by (unfold accounted; by destruct (Compressed b)).
  pose proof (accounted_mem b s) as Hm.
  unfold in_flight, todo_blocks, held_memory, pipeline0 in *. ws_cbn_in i_sent0.
  rewrite ?sumZ_app, ?sumZ_cons in *.
  split; unfold todo_blocks, held_memory, queued, pipeline0 in *; ws_cbn;
    rewrite ?E1, ?E2, ?E3, ?sumZ_app, ?Hsum, ?Hm;
    try (unfold accounted; destruct (Compressed b) eqn:Ec; ws_cbn; done).
  - intros Ha. destruct i_todo0 as (todo & P' & E).
    { ws_cbn. revert Ha. unfold accounted. by destruct (Compressed b). }
    exists todo. ws_cbn_in P'. ws_cbn_in E. split.
    + rewrite P', P. by rewrite <- Permutation_middle.
    + unfold accounted. by destruct (Compressed b).
  - by apply pq_push_sorted.
  - replace (Settings (accounted b s)) with (Settings s)
      by (unfold accounted; by destruct (Compressed b)).
    rewrite P. ws_cbn_in i_wf0. rewrite !Forall_app, !Forall_cons in *. naive_solver.
  - ws_cbn_in i_mem0. rewrite ?sumZ_cons in i_mem0.
    replace (Requests (accounted b s)) with (Requests s)
      by (unfold accounted; by destruct (Compressed b)). lia.
  - intros Ha. replace (Requests (accounted b s)) with (Requests s)
      by (unfold accounted; by destruct (Compressed b)).
    assert (Aborting s = false) as Ha'.
    { revert Ha. unfold accounted. by destruct (Compressed b). }
    ws_cbn_in i_mem_eq0. specialize (i_mem_eq0 Ha'). rewrite ?sumZ_cons in i_mem_eq0. lia.
  - ws_cbn_in i_unc0. rewrite ?sumZ_app, ?sumZ_cons in i_unc0.
    unfold accounted, uncompressed_bytes at 2. destruct (Compressed b); ws_cbn; cbn; lia.
  - ws_cbn_in i_com0. rewrite ?sumZ_app in i_com0.
    unfold accounted, compressed_bytes at 2. destruct (Compressed b); ws_cbn; cbn; lia.
  - unfold accounted. destruct (Compressed b); ws_cbn; congruence.
Qed.

Lemma dropped_inv x b s : Aborting s = true -> inv0 x (in_flight b s) -> inv0 x s.
Proof.
  intros Ha []. unfold in_flight, held_memory, pipeline0, todo_blocks in *.
  assert (block_wf (Settings s) b) as (_ & ? & ? & _).
  { ws_cbn_in i_wf0. rewrite !Forall_app, Forall_cons in i_wf0. by destruct i_wf0 as (_ & _ & ? & _). }
  split; ws_cbn; try done; try congruence.
  - ws_cbn_in i_wf0. rewrite !Forall_app, Forall_cons in *. naive_solver.
  - ws_cbn_in i_mem0. unfold held_memory. rewrite ?sumZ_cons in i_mem0. lia.
  - ws_cbn_in i_unc0. rewrite ?sumZ_cons in i_unc0. lia.
  - intros F. ws_cbn_in i_start0. destruct (i_start0 F) as (_ & _ & ? & _). done.
Qed.

Lemma held_parts x s : inv0 x s -> 0 <= sumZ memoryToRelease (SentPackedMessage s) /\
  0 <= sumZ memoryToRelease (PackedMessagesToSend s) /\
  0 <= sumZ OriginalMemoryUsage (Compressing s) /\ 0 <= sumZ (fun n => n) (Requests s).
Proof.
  intros []. rewrite !Forall_app in i_wf0. destruct i_wf0 as (W1 & W2 & W3).
  assert (forall b, block_wf (Settings s) b -> 0 <= memoryToRelease b) as Hm.
  { intros b (_ & _ & ? & _). unfold memoryToRelease, bsize. destruct (Compressed b); lia. }
  split_and!; apply sumZ_nonneg; [eapply Forall_impl..|]; [exact W1|done|exact W2|done|exact W3|
    |exact i_req0]. by intros b (_ & _ & ? & _).
Qed.

Lemma OnCompressedImpl_spec x b s : inv0 x (in_flight b s) -> FirstTokenSent s = true ->
  wpT (OnCompressedImpl b) (fun _ s' => inv0 x s' /\ frame s s' /\ Events s' = Events s /\
    ContinuationTokenIssued s' = ContinuationTokenIssued s /\
    ScheduledTokens s' = ScheduledTokens s) s.
Proof.
  intros I Hf. unfold OnCompressedImpl. pose proof (queued_inv _ _ _ I Hf) as Iq.
  assert (wpT (s ← get_st; if negb (ExecutorIsAsync (Settings s)) then SendImpl
               else modify (set_SendImplScheduled true))
    (fun _ s' => inv0 x s' /\ frame s s' /\ Events s' = Events s /\
       ContinuationTokenIssued s' = ContinuationTokenIssued s /\
       ScheduledTokens s' = ScheduledTokens s) (queued b (accounted b s))) as Htail.
  { assert (frame s (queued b (accounted b s))) as F.
    { unfold queued, accounted. destruct (Compressed b); (split; [done|by split; [|left]]). }
    assert (forall s', send_frame (queued b (accounted b s)) s' -> frame s s' /\
      Events s' = Events s /\ ContinuationTokenIssued s' = ContinuationTokenIssued s /\
      ScheduledTokens s' = ScheduledTokens s) as Hfr.
    { intros s' (F' & E & T & S & _). split; [by etrans|]. rewrite E, T, S.
      unfold queued, accounted. by destruct (Compressed b). }
    wpE_steps. case_match; [|wpE_steps].
    - eapply wpE_mono; [by apply (SendImpl_spec x)|]. cbn beta. intros _ s' (I' & F' & _).
      split; [done|by apply Hfr].
    - split; [by eapply inv0_view; [| |exact Iq]|]. apply Hfr, quiet_send. by apply quiet_eq. }
  unfold queued, accounted in Htail. destruct (Compressed b) eqn:Ec; cbn [when]; wpE_steps; [|done].
  unfold OnMemoryUsageChangedImpl, update_counters. wpE_steps.
  destruct (0 <=? _) eqn:E; wpE_steps; [exact Htail| |].
  - apply Z.leb_le. bool_to_prop. destruct (held_parts _ _ I) as (? & ? & H3 & ?).
    pose proof (i_mem _ _ I) as Hm. pose proof (i_x _ _ I). unfold held_memory, in_flight in Hm, H3.
    ws_cbn_in Hm. ws_cbn_in H3. rewrite sumZ_cons in *.
    pose proof (i_wf _ _ I) as W. unfold in_flight in W. ws_cbn_in W.
    rewrite !Forall_app, Forall_cons in W. destruct W as (_ & _ & (_ & _ & ? & _) & W3).
    assert (0 <= sumZ OriginalMemoryUsage (Compressing s)).
    { apply sumZ_nonneg. eapply Forall_impl; [exact W3|]. by intros ? (_ & _ & ? & _). }
    unfold in_flight in *. cbn [Requests SentPackedMessage PackedMessagesToSend set_Compressing] in *.
    unfold bsize in *. lia.
  - replace (MemoryUsage s - - (bsize (block_Data b) - OriginalMemoryUsage b))
      with (MemoryUsage s + (bsize (block_Data b) - OriginalMemoryUsage b)) by lia. exact Htail.
Qed.

Lemma ready_count_app l ev :
  ready_count (l ++ [ev]) = (ready_count l + if is_ready ev then 1 else 0)%nat.
Proof. unfold ready_count. rewrite filter_app, length_app. by destruct ev. Qed.

Lemma PushEvent_spec x n ev s : inv0 x s -> tokens n (if is_ready ev then 1 else 0) s -> awake s ->
  wpT (PushEvent ev) (fun _ s' => inv0 x s' /\ tokens n 0 s' /\ awake s' /\
    (ContinuationTokenIssued s' = ContinuationTokenIssued s /\
     (is_ready ev = true -> frame s s'))) s.
Proof.
  intros I [T1 T2] A. unfold PushEvent. wpE_steps.
  - bool_to_prop. split_and!; [by destruct I|split|done|done|].
    + ws_cbn. rewrite ready_count_app. lia.
    + ws_cbn. intros C. specialize (T2 C). rewrite ready_count_app. lia.
    + intros Hr. split; [|by split; [|left]]. unfold rest. ws_cbn. unfold acked_of.
      rewrite fmap_app, concat_app. destruct ev; [|done]. cbn. by rewrite app_nil_r.
  - bool_to_prop. split_and!; [done|split; [|done]|done|done|done]. destruct (is_ready ev); lia.
Qed.

Lemma OnCompressed_spec x n b sync s : inv0 x (in_flight b s) -> FirstTokenSent s = true ->
  tokens n 0 s -> wpT (OnCompressed b sync) (fun _ s' => compresses x n s s') s.
Proof.
  intros I Hf T. unfold OnCompressed. wpE_call; [by apply (OnCompressedImpl_spec x)|]. cbn beta.
  intros _ s1 (I1 & F1 & E1 & C1 & S1).
  assert (FirstTokenSent s1 = true) as Hf1 by (destruct F1 as [R _]; unfold rest in R; congruence).
  assert (tokens n 0 s1) as T1.
  { destruct T as [T1 T2], F1 as [_ [_ C]]. split; rewrite E1, C1, S1; [done|].
    destruct C as [->|[_ [? C]]]; [done|congruence]. }
  wpE_call; [by apply (TryIssue_spec x n)|]. cbn beta. intros r s2 (I2 & A2 & T2 & E2).
  assert (frame s s2) as F2 by (rewrite E2; etrans; [exact F1|]; split; [done|by split; [|left]]).
  assert (ContinuationTokenIssued s = true -> ContinuationTokenIssued s2 = true) as W2.
  { intros W. rewrite E2. ws_cbn. by rewrite C1, W. }
  wpE_steps; [|subst r; done]. subst r. destruct sync.
  - wpE_steps. split_and!; [by destruct I2| | |done|done].
    + etrans; [exact F2|]. split; [done|by split; [|left]].
    + destruct T2 as [T2 T2']. split; ws_cbn; [lia|]. intros C. specialize (T2' C). lia.
  - eapply wpE_mono; [by apply (PushEvent_spec x n)|]. cbn beta. intros _ s3 (I3 & T3 & A3 & W3 & F3).
    split_and!; [done|etrans; [exact F2|by apply F3]|done|done|]. rewrite W3. done.
Qed.

Lemma in_flight_ext x b b' s : Offset b' = Offset b -> MessageCount b' = MessageCount b ->
  block_OriginalSize b' = block_OriginalSize b -> OriginalMemoryUsage b' = OriginalMemoryUsage b ->
  OriginalDataRefs b' = OriginalDataRefs b ->
  inv0 x (in_flight b s) -> inv0 x (in_flight b' s).
Proof.
  intros E1 E2 E3 E4 E5 []. unfold in_flight, todo_blocks, held_memory, pipeline0 in *.
  assert (block_ids b' = block_ids b) as Eb by (unfold block_ids; congruence).
  assert (block_wf (Settings s) b' <-> block_wf (Settings s) b) as Ew.
  { unfold block_wf. by rewrite E2, E3, E4, E5. }
  split; unfold todo_blocks, held_memory; ws_cbn; try done; rewrite ?sumZ_cons, ?E3, ?E4; try done.
  - intros Ha. destruct (i_todo0 Ha) as (todo & P & E). ws_cbn_in P. ws_cbn_in E.
    assert (b ∈ todo) as (l1 & l2 & ->)%list_elem_of_split by (rewrite P; set_solver).
    exists (l1 ++ b' :: l2). split.
    + rewrite <- Permutation_middle in P. rewrite <- !Permutation_middle. constructor.
      eapply Permutation_cons_inv. etrans; [exact P|]. by rewrite Permutation_middle.
    + rewrite <- E, !blocks_ids_app, !blocks_ids_cons, Eb. done.
  - ws_cbn_in i_wf0. rewrite !Forall_app, !Forall_cons in *. by rewrite Ew.
  - intros F. destruct (i_start0 F) as (_ & _ & ? & _). done.
Qed.

Lemma CompressImpl_spec x n b s : inv0 x (in_flight b s) -> FirstTokenSent s = true ->
  tokens n 0 s -> Compressed b = false -> is_Some (AutoSeqNoMode s) -> is_Some (InitSeqNo s) ->
  wpT (CompressImpl b) (fun _ s' => inv0 x s' /\ frame s s' /\ tokens n 0 s' /\
    wakes s s') s.
Proof.
  intros I Hf T Hc Ha Hi. unfold CompressImpl. wpE_steps.
  destruct (Aborting s) eqn:Ea; wpE_steps; [split_and!; [by eapply dropped_inv|done..]|].
  wpE_call; [by apply GetSeqNoImpl_spec|]. cbn beta. intros base s' ->.
  wpE_steps; [by rewrite Hc|].
  set (b' := compressed_block _ _ _).
  assert (inv0 x (in_flight b' s)) as I'.
  { eapply in_flight_ext; [..|exact I]; unfold b', compressed_block;
      by destruct (CompressWriteBlock _ _ _) as [[? ?] ?]. }
  destruct (ExecutorIsAsync (Settings s)).
  - wpE_steps. split_and!; [|split; [done|by split; [|left]]|done|done].
    apply (inv0_compressing _ _ (Compressing s ++ [b'])) in I'; [exact I'|].
    unfold in_flight. ws_cbn. by rewrite Permutation_app_comm.
  - eapply wpE_mono; [by apply (OnCompressed_spec x n)|]. cbn beta.
    intros _ s' (? & ? & ? & ? & ?). by split_and!.
Qed.

(** ** Batches *)

(** Re-basing finds every payload where it was. *)
Lemma rebase_spec Data off l tl s : drop (Z.to_nat off) Data = concat (DataRef <$> l) ++ tl ->
  0 <= off <= bsize Data -> wpT (rebase Data off l) (fun l' s' => l' = l /\ s' = s) s.
Proof.
  revert off. induction l as [|m l IH]; intros off Hd Ho; cbn [rebase]; [done|].
  cbn in Hd. rewrite <- app_assoc in Hd.
  assert (off + bsize (DataRef m) <= bsize Data) as Hle.
  { apply (f_equal length) in Hd. rewrite length_drop, length_app in Hd. unfold bsize in *. lia. }
  wpE_steps; [by apply Z.leb_le|].
  eapply wpE_mono.
  - apply IH; [|unfold bsize in *; lia].
    replace (Z.to_nat (off + bsize (DataRef m))) with (Z.to_nat off + length (DataRef m))%nat
      by (unfold bsize in *; lia).
    rewrite <- drop_drop, Hd. apply drop_app_length.
  - cbn beta. intros l' s' [-> ->]. wpE_steps. rewrite Hd, take_app_length. by destruct m.
Qed.

Lemma fill_plain count b l s : Forall (fun m => msg_Codec m = None) l -> Compressed b = false ->
  0 <= MessageCount b -> 0 <= block_OriginalSize b ->
  block_OriginalSize b + sumZ (fun m => bsize (DataRef m)) l < MaxBlockSize ->
  wpT (fill_block count b l) (fun r s' =>
    let n := sumZ (fun m => bsize (DataRef m)) l in
    snd r = [] /\ MessageCount (fst r) = MessageCount b + Z.of_nat (length l) /\
    block_OriginalSize (fst r) = block_OriginalSize b + n /\
    OriginalMemoryUsage (fst r) = OriginalMemoryUsage b + n /\ Compressed (fst r) = false /\
    OriginalDataRefs (fst r) = OriginalDataRefs b ++ (DataRef <$> l) /\
    Offset (fst r) = (if MessageCount b =? 0 then default (Offset b) (msg_Id <$> head l)
                      else Offset b) /\
    s' = set_Counters (add_inflight n 0 (Z.of_nat (length l)) (Counters s))
           (set_OriginalMessagesToSend (OriginalMessagesToSend s ++ (original_of <$> l)) s)) s.
Proof.
  revert b s. induction l as [|m l IH]; intros b s Hl Hc Hn Hz Hmax; cbn [fill_block].
  - wpE_steps. cbn. rewrite !Z.add_0_r, !app_nil_r. split_and!; [done..| |].
    + by destruct (_ =? 0).
    + destruct s as [? ? ? ? ? ? ? ? ? ? ? ? ? ? ? ? ? ? ? ? ? ? ? ? ? ? ? ? ? ? ? ? ? ? [] ]. cbn.
      unfold add_inflight. cbn. by rewrite !Z.add_0_r.
  - inversion Hl as [|? ? Hm Hl']; subst. rewrite sumZ_cons in *.
    assert (0 <= sumZ (fun m => bsize (DataRef m)) l).
    { apply sumZ_nonneg, Forall_true. unfold bsize. lia. }
    assert (0 <= bsize (DataRef m)) by (unfold bsize; lia).
    rewrite (proj2 (Z.ltb_lt _ _)) by lia. cbn [negb]. wpE_steps; [by rewrite bool_decide_true|].
    unfold update_counters. wpE_steps.
    eapply wpE_mono; [apply IH; [done|..]; unfold add_to_block; rewrite Hm; cbn; [done|lia..]|].
    unfold add_to_block. rewrite Hm. cbn. intros [b' r] s' (-> & Ec & Es & Eo & Ecc & Er & Eoff & ->).
    rewrite Hc. cbn in *. split_and!; [done|lia|lia|lia|done|by rewrite Er, <- app_assoc| |].
    + rewrite Eoff, (proj2 (Z.eqb_neq _ _)) by lia. done.
    + match goal with |- set_Counters ?c _ = set_Counters ?c' _ =>
        replace c with c' by (unfold add_inflight; cbn; f_equal; lia) end.
      by rewrite <- app_assoc.
Qed.

(** Messages leave the batch as a block. *)
Lemma new_block_inv x b l c s : inv0 (x + OriginalMemoryUsage b) s -> 0 <= x ->
  block_ids b = Id <$> l -> block_wf (Settings s) b -> FirstTokenSent s = true ->
  is_Some (AutoSeqNoMode s) /\ is_Some (InitSeqNo s) ->
  StronglySorted Z.lt (pipeline0 s ++ (Id <$> l)) -> Forall (inU 64) (Id <$> l) ->
  BytesInflightUncompressed (Counters s) + block_OriginalSize b <= BytesInflightUncompressed c ->
  BytesInflightCompressed (Counters s) <= BytesInflightCompressed c ->
  inv0 x (in_flight b (set_Counters c
            (set_OriginalMessagesToSend (OriginalMessagesToSend s ++ l) s))).
Proof.
  intros [] Hx Hb Hw Hf Hm Hinc Hr Hu Hc.
  unfold in_flight, todo_blocks, held_memory, pipeline0 in *.
  split; unfold todo_blocks, held_memory, pipeline0; ws_cbn; try done;
    rewrite ?fmap_app, ?app_assoc in *; try done.
  - intros Ha. destruct (i_todo0 Ha) as (todo & P & E). exists (todo ++ [b]). split.
    + rewrite P, <- (Permutation_middle (PackedMessagesToSend s)).
      by rewrite (Permutation_app_comm _ [b]).
    + rewrite blocks_ids_app, E. f_equal. unfold blocks_ids. cbn. by rewrite app_nil_r.
  - rewrite Forall_app. done.
  - rewrite !Forall_app, Forall_cons in *. naive_solver.
  - rewrite sumZ_cons. lia.
  - intros Ha. rewrite sumZ_cons. rewrite (i_mem_eq0 Ha). lia.
  - rewrite sumZ_cons. lia.
  - lia.
  - congruence.
Qed.

Lemma original_ids (l : list TMessage) : Id <$> (original_of <$> l) = msg_Id <$> l.
Proof. by rewrite <- list_fmap_compose. Qed.

Lemma batch_nonneg b : 0 <= batch_bytes b.
Proof. apply sumZ_nonneg, Forall_true. unfold bsize. lia. Qed.

(** The block of a batch of plain messages, being compressed. *)
Lemma plain_block_inv s count Data : flushable s -> inv0 (batch_bytes (CurrentBatch s)) s ->
  Forall (fun m => msg_Codec m = None) (Messages (CurrentBatch s)) ->
  wpT (fill_block count block0 (Messages (CurrentBatch s))) (fun r s' => snd r = [] /\
    Compressed (fst r) = false /\ inv0 0 (in_flight (with_data Data (fst r)) s') /\
    s' = set_Counters (Counters s') (set_OriginalMessagesToSend
      (OriginalMessagesToSend s ++ (original_of <$> Messages (CurrentBatch s))) s)) s.
Proof.
  intros F I Hp. pose proof (batch_nonneg (CurrentBatch s)). pose proof (fl_max _ F).
  unfold batch_bytes in *.
  eapply wpE_mono; [apply fill_plain; [done|done|cbn; lia..]|]. cbn beta zeta.
  intros [b r] s' (Hr & Hc & Hs & Hm & Hcomp & Href & Hoff & ->). cbn in *.
  split_and!; [done|done| |done].
  destruct (fl_ids _ F) as [i Hi]. pose proof (fl_ne _ F) as Hne. pose proof (fl_len _ F).
  assert (Offset b = i) as Eoff.
  { rewrite Hoff. unfold batch_ids in Hi. destruct (Messages (CurrentBatch s)) as [|m l]; [done|].
    cbn in *. rewrite seqZ_cons in Hi by lia. injection Hi as ? ?. done. }
  assert (1 <= Z.of_nat (length (Messages (CurrentBatch s)))).
  { destruct (Messages (CurrentBatch s)); [done|]. cbn. lia. }
  apply new_block_inv; cbn; rewrite ?original_ids; try done.
  - by rewrite Hm.
  - unfold block_ids. cbn. rewrite Hc, Eoff. done.
  - unfold block_wf, MaxBlockMessageCount in *. cbn. rewrite Hc, Hs, Hm.
    split_and!; [lia..|]. rewrite Href. cbn. by intros ?%fmap_nil_inv.
  - apply (fl_first _ F).
  - apply (fl_mode _ F).
  - apply (fl_inc _ F).
  - apply (fl_range _ F).
  - lia.
  - lia.
Qed.

(** The block of an encoded message. *)
Lemma coded_block_inv s m c : flushable s -> inv0 (batch_bytes (CurrentBatch s)) s ->
  Messages (CurrentBatch s) = [m] -> msg_Codec m = Some c -> 0 <= msg_OriginalSize m ->
  wpT (fill_block 1 block0 [m]) (fun r s' => snd r = [] /\
    inv0 0 (queued (with_data (DataRef m) (fst r)) s') /\
    s' = set_Counters (Counters s') (set_OriginalMessagesToSend
      (OriginalMessagesToSend s ++ [original_of m]) s)) s.
Proof.
  intros F I Em Ec Ho. cbn [fill_block]. unfold update_counters.
  rewrite (proj2 (Z.ltb_lt _ _)) by done. cbn [negb].
  wpE_steps; [by rewrite orb_true_r|]. split_and!; [done| |done]. cbn [fst].
  set (b := with_data _ _).
  assert (b = mkBlock (msg_Id m) 1 (msg_OriginalSize m) (bsize (DataRef m)) (codec_id c)
    [DataRef m] [msg_CreatedAt m] [GetMessageKey (msg_Meta m)] (DataRef m) true) as Eb.
  { unfold b, with_data, add_to_block. rewrite Ec. done. }
  pose proof (fl_len _ F) as Hl. rewrite Em in Hl. cbn in Hl.
  pose proof (fl_inc _ F) as Hinc. pose proof (fl_range _ F) as Hr.
  unfold pipeline, batch_ids, batch_bytes in *. rewrite Em in *. cbn in I, Hinc, Hr.
  set (c' := add_inflight (msg_OriginalSize m) 0 1 (Counters s)).
  assert (inv0 0 (in_flight b (set_Counters c' (set_OriginalMessagesToSend
    (OriginalMessagesToSend s ++ [original_of m]) s)))) as N.
  { rewrite Eb. apply new_block_inv; unfold block_wf, block_ids, MaxBlockMessageCount in *; cbn.
    - by rewrite Z.add_0_r in I.
    - done.
    - done.
    - unfold bsize. split_and!; [lia..|done].
    - apply (fl_first _ F).
    - apply (fl_mode _ F).
    - done.
    - done.
    - lia.
    - lia. }
  apply queued_inv in N; [|apply (fl_first _ F)].
  eapply inv0_view; [| |exact N]; rewrite Eb; [|done].
  unfold view, queued, accounted, add_to_block. rewrite Ec. cbn.
  rewrite Z.sub_diag, Z.add_0_r. do 5 f_equal.
  unfold c', add_inflight. cbn. f_equal; lia.
Qed.

#[export] Instance outer_frame_preorder : PreOrder outer_frame.
Proof.
  split; [by intros s; split|]. intros s1 s2 s3 [V1 C1] [V2 C2].
  split; [congruence|by etrans].
Qed.

Lemma frame_outer s s' : frame s s' -> outer_frame s s'.
Proof. intros [R C]. split; [|done]. unfold rest in R. unfold outer, pipeline. congruence. Qed.

Lemma Acquire_acquired b : Acquired b = true -> Acquire b = (false, b).
Proof. unfold Acquire. by intros ->. Qed.

Lemma inv0_batch x s b : inv0 x s -> inv0 x (set_CurrentBatch b s).
Proof. by intros []. Qed.

Lemma tokens_ext n p s s' : Events s' = Events s -> ScheduledTokens s' = ScheduledTokens s ->
  ContinuationTokenIssued s' = ContinuationTokenIssued s -> CloseEvent s' = CloseEvent s ->
  tokens n p s -> tokens n p s'.
Proof. unfold tokens. by intros -> -> -> ->. Qed.

Lemma fill_blocks_nil f c skip Data s : wpT (fill_blocks f c skip Data []) (fun _ s' => s' = s) s.
Proof. by destruct f. Qed.

Lemma fill_blocks_spec n skip s : flushable s -> inv0 (batch_bytes (CurrentBatch s)) s ->
  tokens n 0 s -> (HasCodec (CurrentBatch s) = true -> skip = true) ->
  let l := Messages (CurrentBatch s) in
  wpT (fill_blocks (length l) (length l) skip (batch_Data (CurrentBatch s)) l)
    (fun _ s' => inv0 0 s' /\ frame (filled s) s' /\ tokens n 0 s' /\ wakes s s') s.
Proof.
  intros F I T Hskip l. subst l. pose proof (fl_ne _ F) as Hne.
  destruct (fl_codec _ F) as [Hp|(m & c & Em & Ec & Ho)].
  - assert (exists k m l, length (Messages (CurrentBatch s)) = S k /\
      Messages (CurrentBatch s) = m :: l) as (k & m & l & Hk & Em).
    { destruct (Messages (CurrentBatch s)) as [|m l]; [done|]. by exists (length l), m, l. }
    rewrite Hk, Em. cbn [fill_blocks]. rewrite <- Em, <- Hk.
    wpE_call; [by apply plain_block_inv|]. cbn beta.
    intros [b r] s1 (Er & Hc & I1 & E1). cbn in Er, Hc, I1. subst r.
    assert (frame (filled s) s1) as F1 by (rewrite E1; split; [done|by split; [|left]]).
    assert (tokens n 0 s1) as T1 by (rewrite E1; done).
    assert (wakes s s1) as A1 by (rewrite E1; done).
    assert (FirstTokenSent s1 = true) as Hf by (rewrite E1; apply (fl_first _ F)).
    destruct skip; wpE_steps.
    + eapply wpE_mono; [apply fill_blocks_nil|]. cbn beta. intros _ s' ->.
      apply queued_inv in I1; [|done]. unfold accounted in I1. cbn [with_data Compressed] in I1.
      rewrite Hc in I1. split_and!; [exact I1| |done|done].
      etrans; [exact F1|]. split; [done|by split; [|left]].
    + wpE_call; [apply (CompressImpl_spec 0 n); try done; rewrite E1; apply (fl_mode _ F)|].
      cbn beta. intros _ s2 (I2 & F2 & T2 & A2).
      eapply wpE_mono; [apply fill_blocks_nil|]. cbn beta. intros _ s' ->.
      split_and!; [done|by etrans|done|by etrans].
  - rewrite Hskip by (unfold HasCodec; rewrite Em, Ec; done).
    rewrite (fl_data _ F), Em. cbn [length fill_blocks concat fmap list_fmap]. rewrite app_nil_r.
    wpE_call; [by apply (coded_block_inv s m c)|]. cbn beta.
    intros [b r] s1 (Er & I1 & E1). cbn in Er, I1. subst r. wpE_steps.
    split_and!; [exact I1| |by rewrite E1|by rewrite E1].
    rewrite E1. unfold filled. rewrite Em. split; [done|by split; [|left]].
Qed.

Lemma filled_outer s s' : frame (filled s) s' -> CurrentBatch s' = CurrentBatch s ->
  outer_frame s (set_CurrentBatch batch0 s').
Proof.
  intros [R C] Eb. split; [|by destruct C; split]. unfold rest, outer, pipeline, filled in *.
  injection R as R1 R2 R3 R4 R5 R6 R7 R8. ws_cbn_in R1. ws_cbn_in R2. ws_cbn_in R4. ws_cbn_in R5.
  ws_cbn_in R6. ws_cbn_in R7. ws_cbn. rewrite R1, R2, R4, R5, R6, R7. f_equal.
  change (pipeline0 (set_CurrentBatch batch0 s')) with (pipeline0 s'). rewrite <- R8.
  unfold pipeline0, batch_ids. ws_cbn. rewrite fmap_app, original_ids, app_nil_r, app_assoc. done.
Qed.

Lemma WriteBatchImpl_spec n s : flushable s -> inv0 (batch_bytes (CurrentBatch s)) s ->
  tokens n 0 s -> wpT WriteBatchImpl (fun _ s' => inv0 0 s' /\ outer_frame s s' /\
    CurrentBatch s' = batch0 /\ tokens n 0 s' /\ wakes s s') s.
Proof.
  intros F I T. unfold WriteBatchImpl. wpE_steps; [apply Z.leb_le, (fl_len _ F)|].
  rewrite (Acquire_acquired _ (fl_acq _ F)). cbn [snd].
  eapply wpE_mono.
  { apply (rebase_spec _ _ _ []); [|unfold bsize; lia]. cbn. by rewrite app_nil_r, (fl_data _ F). }
  cbn beta. intros msgs s1 [-> ->].
  set (skip := (_ || _)%bool).
  replace (if (negb skip && _)%bool then _ else _) with (false, CurrentBatch s)
    by (destruct (_ && _)%bool; [by rewrite Acquire_acquired by apply (fl_acq _ F)|done]).
  wpE_steps. cbn [fst snd].
  set (s1 := set_MessagesAcquired _ s).
  eapply wpE_mono.
  { apply (fill_blocks_spec n skip s1); [by destruct F|by destruct I|exact T|].
    intros Hc. unfold skip. change (CurrentBatch s1) with (CurrentBatch s) in Hc.
    by rewrite Hc, orb_true_r. }
  cbn beta. intros _ s2 (I2 & F2 & T2 & A2).
  assert (CurrentBatch s2 = CurrentBatch s) as Eb.
  { destruct F2 as [R _]. unfold rest in R. injection R as ? ? R ? ? ? ? ?. by rewrite <- R. }
  pose proof (filled_outer s s2) as Hout. specialize (Hout F2 Eb).
  assert (inv0 0 (set_CurrentBatch batch_Reset s2)) as I3 by (by apply inv0_batch).
  wpE_steps.
  - wpE_call; [by apply (SendImpl_spec 0)|]. cbn beta. intros _ s3 S3. wpE_steps.
    pose proof S3 as (I3' & (F3 & _) & _).
    split_and!; [done|etrans; [exact Hout|by apply frame_outer]| | |].
    + destruct F3 as [R _]. unfold rest in R. injection R as ? ? R ? ? ? ? ?. by rewrite <- R.
    + eapply send_tokens; [exact S3|]. exact T2.
    + etrans; [|by eapply send_wakes]. exact A2.
  - wpE_steps. by split_and!.
Qed.

(** ** Acknowledgements *)

Lemma TryIssue_raw n p s : FirstTokenSent s = true -> tokens n p s ->
  wpT TryIssueContinuationTokenImpl (fun r s' =>
    s' = set_ContinuationTokenIssued (ContinuationTokenIssued s || r) s /\ awake s' /\
    tokens n (p + if r : bool then 1 else 0) s') s.
Proof.
  intros Hf [T1 T2]. unfold TryIssueContinuationTokenImpl. wpE_steps.
  destruct (_ || _)%bool eqn:E; wpE_steps.
  - assert (s = set_ContinuationTokenIssued (ContinuationTokenIssued s || false) s) as Es.
    { rewrite orb_false_r. by destruct s. }
    split_and!; [done| |by rewrite Nat.add_0_r]. intros _ Ha. rewrite Ha in E. cbn in E.
    apply orb_true_iff in E as [->|E]; [by left|]. right. by apply Z.ltb_lt.
  - bool_to_prop. assert (ContinuationTokenIssued s = false) as Hc by done. split_and!.
    + by rewrite Hc.
    + intros _ _. by left.
    + unfold tokens in *. ws_cbn. rewrite Hc in *. split; [lia|]. intros C. specialize (T2 C). lia.
Qed.

Lemma pop_sent_spec m l s : SentOriginalMessages s = m :: l ->
  wpT pop_sent (fun _ s' => popped 1 s s') s.
Proof. intros E. unfold pop_sent. wpE_steps. rewrite E. unfold popped. rewrite E. cbn. eauto. Qed.

Lemma popped_trans k s1 s2 s3 : popped 1 s1 s2 -> popped k s2 s3 -> popped (S k) s1 s3.
Proof.
  intros (fr & w & ->) (fr' & w' & ->). exists fr', w'. ws_cbn. rewrite drop_drop.
  replace (1 + k)%nat with (S k) by lia. done.
Qed.

Lemma pop_block_spec k : forall id ids s, Id <$> SentOriginalMessages s = seqZ id (Z.of_nat k) ++ ids ->
  Forall (inU 64) (seqZ id (Z.of_nat k)) -> wpT (pop_block k id) (fun _ s' => popped k s s') s.
Proof.
  induction k as [|k IH]; intros id ids s E R; cbn [pop_block].
  - wpE_steps. exists (FlushResults s), (WrittenInTx s). by destruct s.
  - rewrite seqZ_cons in E, R by lia. inversion R as [|? ? R1 R2]; subst. clear R.
    destruct (SentOriginalMessages s) as [|m l] eqn:Es; [done|]. cbn in E. injection E as Em El.
    assert (seqZ (u64 (id + 1)) (Z.of_nat k) = seqZ (Z.succ id) (Z.pred (Z.of_nat (S k)))) as Eq.
    { replace (Z.pred (Z.of_nat (S k))) with (Z.of_nat k) in * by lia.
      destruct k as [|k']; [done|]. rewrite wrapU_small; [f_equal; lia|].
      rewrite seqZ_cons in R2 by lia. replace (id + 1) with (Z.succ id) by lia.
      by apply Forall_inv in R2. }
    wpE_steps. rewrite Es. wpE_steps; [by apply Z.eqb_eq|].
    wpE_call; [by apply (pop_sent_spec m l)|]. cbn beta. intros _ s1 P1.
    pose proof P1 as (fr & w & E1). wpE_call; [apply (IH _ ids); rewrite Eq|].
    + rewrite E1. ws_cbn. rewrite Es. by change (drop 1 (m :: l)) with l.
    + done.
    + cbn beta. intros _ s2 P2. by eapply popped_trans.
Qed.

Lemma acked_inv x b bs i s s' : inv0 x s -> SentPackedMessage s = b :: bs ->
  FirstTokenSent s = true -> popped (Z.to_nat (MessageCount b)) (acked_block b bs i s) s' ->
  inv0 x s' /\ pipeline0 s = block_ids b ++ pipeline0 s'.
Proof.
  intros I Eb Hf (fr & w & ->).
  assert (pipeline0 s = block_ids b ++ pipeline0 (set_FlushResults fr (set_SentOriginalMessages
    (drop (Z.to_nat (MessageCount b)) (SentOriginalMessages (acked_block b bs i s)))
    (set_WrittenInTx w (acked_block b bs i s))))) as Hp.
  { unfold pipeline0, acked_block. ws_cbn. rewrite fmap_drop, <- (i_sent _ _ I), Eb.
    rewrite blocks_ids_cons, <- block_ids_length, drop_app_length, app_assoc. done. }
  split; [|exact Hp].
  destruct I. rewrite Eb in *. rewrite Hp in *. unfold acked_block, held_memory, todo_blocks in *.
  split; unfold held_memory, todo_blocks; ws_cbn; try done; rewrite ?sumZ_cons, ?sumZ_app in *.
  - rewrite fmap_drop, <- i_sent0, blocks_ids_cons, <- block_ids_length, drop_app_length. done.
  - by apply sorted_app_r in i_inc0.
  - by apply Forall_app in i_range0 as [_ ?].
  - by inversion i_wf0.
  - intros Hn. apply i_ready0. by destruct (block_ids b).
  - rewrite Eb, sumZ_cons in i_mem0. lia.
  - intros Ha. specialize (i_mem_eq0 Ha). rewrite Eb, sumZ_cons in i_mem_eq0. lia.
  - cbn. rewrite sumZ_cons in i_unc0. lia.
  - cbn. rewrite sumZ_cons in i_com0. lia.
  - congruence.
Qed.
End Send.
