(* ===== verification/WriteRequests.v ===== *)
(** * Write requests: what is sent fits the driver's limit

    [NWriteSessionGrpc::TRequestSizeLimiter] and
    [EstimateTopicWriteRequestBlockSize] of
    [src/src/client/topic/impl/common.h] estimate the size of a request before it
    is serialized.  [request_wire_size] is its size in protobuf's wire format, with
    the fields of [src/src/api/protos/ydb_topic.proto]; the estimate is shown to be
    an upper bound of it, and the requests of [SendImpl] to fit the limit. *)

From S2P Require Import Prelude WriteTypes WriteSession WriteSessionInv.

(** ** The size of a request *)

Definition timestamp_wire_size (ms : Z) : Z :=
  ProtoInt64FieldSize 1 (ms / 1000) + ProtoInt32FieldSize 2 (ms mod 1000 * 1000000).

Definition data_wire_size (d : MessageData) : Z :=
  ProtoInt64FieldSize 1 (seq_no d) + ProtoMessageFieldSize 2 (timestamp_wire_size (created_at d)) +
  ProtoBytesFieldSize 3 (bsize (data d)) + ProtoInt64FieldSize 4 (uncompressed_size d) +
  metadata_size (metadata_items d).

(** [ext_publication_id] is an optional field: it takes space when empty, too. *)
Definition context_wire_size (r : WriteRequest) : Z :=
  match tx r with
  | Some t => ProtoTransactionIdentityFieldSize 3 t
  | None => 0
  end +
  match deferred_publish r with
  | Some (int_id, ext_id) =>
      ProtoMessageFieldSize 9
        (ProtoUInt64FieldSize 1 int_id +
         match ext_id with Some e => ProtoMessageFieldSize 2 (strlen e) | None => 0 end)
  | None => 0
  end.

Definition body_wire_size (r : WriteRequest) : Z :=
  ProtoInt32FieldSize 2 (codec r) + context_wire_size r +
  sumZ (fun d => ProtoMessageFieldSize 1 (data_wire_size d)) (messages r).

Definition request_wire_size (r : WriteRequest) : Z := ProtoMessageFieldSize 2 (body_wire_size r).

(** The publication has no empty external name. *)
Definition named (r : WriteRequest) : bool :=
  match deferred_publish r with Some (_, Some e) => negb (is_empty e) | _ => true end.

(** A request of one block may exceed the limit: a block is not divided. *)
Definition fits (max : Z) (r : WriteRequest) : Prop :=
  (length (messages r) <= 1)%nat \/ (named r = true -> request_wire_size r <= max).

Definition fits_message (max : Z) (m : client_message) : Prop :=
  match m with WriteMessages r => fits max r | _ => True end.

(** A request being filled, with the limiter's size. *)
Record filling (max prevCodec bodySize : Z) (r : WriteRequest) : Prop := {
  f_empty : messages r = [] -> bodySize = 0 /\ tx r = None /\ deferred_publish r = None;
  f_codec : messages r <> [] -> 0 < bodySize /\ codec r = wrapS 32 prevCodec;
  f_size : named r = true -> messages r <> [] -> body_wire_size r <= bodySize;
  f_limit : (length (messages r) <= 1)%nat \/ ProtoMessageFieldSize 2 bodySize <= max
}.

(** ** Sizes *)

(** The message of a block, as the two ways of sending make it. *)
Definition block_message (block : TBlock) (seqNo : Z) (m : TOriginalMessage)
    (others : list TOriginalMessage) : MessageData :=
  mkData (wrapS 64 seqNo) (MilliSeconds (CreatedAt m))
    (if (1 <? MessageCount block) || Compressed block then block_Data block
     else default [] (last (OriginalDataRefs block)))%bool
    (wrapS 64 (block_OriginalSize block))
    (MessageMeta m ++ concat (map (fun m => partition_keys (MessageMeta m)) others)).

(** What the loop reads besides the queue of messages. *)
Definition kept (s : ws) := (Settings s, PackedMessagesToSend s, Wire s).

(** One request was made. *)
Definition request_made (s : ws) (r : WriteRequest) (s' : ws) : Prop :=
  fits (MaxOutboundMessageSize (Settings s)) r /\ Settings s' = Settings s /\ Wire s' = Wire s /\
  exists n, PackedMessagesToSend s' = drop n (PackedMessagesToSend s).

(** The wire got messages within the limit. *)
Definition wire_grows (s s' : ws) : Prop :=
  Settings s' = Settings s /\
  (exists n, PackedMessagesToSend s' = drop n (PackedMessagesToSend s)) /\
  exists ms, Wire s' = Wire s ++ ms /\ Forall (fits_message (MaxOutboundMessageSize (Settings s))) ms.

Lemma varint_pos v : 1 <= varint_size v.
Proof.
  unfold varint_size. destruct (v <=? 0); [lia|]. pose proof (Z.log2_nonneg v).
  pose proof (Z.div_pos (Z.log2 v) 7). lia.
Qed.

Lemma varint_mono v w : v <= w -> varint_size v <= varint_size w.
Proof.
  intros Hl. unfold varint_size. destruct (v <=? 0) eqn:E; [apply (varint_pos w)|].
  apply Z.leb_gt in E. rewrite (proj2 (Z.leb_gt _ _)) by lia.
  pose proof (Z.div_le_mono _ _ 7 ltac:(lia) (Z.log2_le_mono _ _ Hl)). lia.
Qed.

Lemma Int64Size_max v : Int64Size v <= 10.
Proof.
  unfold Int64Size. pose proof (wrapU_range 64 v ltac:(lia)) as Hr. unfold inU in Hr.
  etrans; [apply (varint_mono _ (2 ^ 64 - 1)); lia|]. vm_compute. done.
Qed.

Lemma message_size_mono k v w : v <= w -> ProtoMessageFieldSize k v <= ProtoMessageFieldSize k w.
Proof.
  intros Hl. unfold ProtoMessageFieldSize, LengthDelimitedSize. pose proof (varint_mono _ _ Hl). lia.
Qed.

Lemma message_size_pos k v : 0 <= v -> 0 < ProtoMessageFieldSize k v.
Proof.
  unfold ProtoMessageFieldSize, LengthDelimitedSize, TagSize.
  pose proof (varint_pos v). pose proof (varint_pos (k * 8)). lia.
Qed.

Lemma int64_size_bounds k v : 0 <= ProtoInt64FieldSize k v <= ProtoInt64FieldSizeUpperBound k.
Proof.
  unfold ProtoInt64FieldSize, ProtoInt64FieldSizeUpperBound, TagSize.
  pose proof (varint_pos (k * 8)). pose proof (Int64Size_max v). pose proof (varint_pos (u64 v)).
  unfold Int64Size in *. destruct (v =? 0); lia.
Qed.

Lemma int32_size_nonneg k v : 0 <= ProtoInt32FieldSize k v.
Proof.
  unfold ProtoInt32FieldSize, TagSize, Int32Size. pose proof (varint_pos (k * 8)).
  pose proof (varint_pos v). destruct (v =? 0), (v <? 0); lia.
Qed.

Lemma bytes_size_nonneg k n : 0 <= n -> 0 <= ProtoBytesFieldSize k n.
Proof.
  intros Hn. unfold ProtoBytesFieldSize. destruct (n =? 0); [lia|].
  pose proof (message_size_pos k n Hn). unfold ProtoMessageFieldSize in *. lia.
Qed.

Lemma metadata_size_nonneg m : 0 <= metadata_size m.
Proof.
  apply sumZ_nonneg, Forall_true. intros x. unfold ProtoMetadataItemFieldSize, strlen. cbn.
  apply Z.lt_le_incl, message_size_pos.
  pose proof (bytes_size_nonneg 1 (Z.of_nat (String.length x.1)) ltac:(lia)).
  pose proof (bytes_size_nonneg 2 (Z.of_nat (String.length x.2)) ltac:(lia)).
  unfold ProtoStringFieldSize, ProtoBytesFieldSize in *. lia.
Qed.

Lemma metadata_size_app l l' : metadata_size (l ++ l') = metadata_size l + metadata_size l'.
Proof. apply sumZ_app. Qed.

Lemma metadata_size_concat (ls : list meta) : metadata_size (concat ls) = sumZ metadata_size ls.
Proof. induction ls as [|l ls IH]; [done|]. cbn. by rewrite metadata_size_app, IH. Qed.

Lemma metadata_size_map {A} (f : A -> meta) l :
  metadata_size (concat (map f l)) = sumZ (fun x => metadata_size (f x)) l.
Proof.
  rewrite metadata_size_concat. induction l as [|x l IH]; [done|].
  cbn [map]. by rewrite !sumZ_cons, IH.
Qed.

Lemma uncompressed_size_le k v : ProtoInt64FieldSize k (wrapS 64 v) <= ProtoInt64FieldSize k v.
Proof.
  pose proof (int64_size_bounds k v). unfold ProtoInt64FieldSize in *.
  destruct (wrapS 64 v =? 0) eqn:Ew; [lia|]. destruct (v =? 0) eqn:Ev.
  { apply Z.eqb_eq in Ev. by rewrite Ev in Ew. }
  destruct (wrapS_cong 64 v ltac:(lia)) as [q Hq]. unfold Int64Size. rewrite Hq.
  unfold u64, wrapU. rewrite Z.mod_add by lia. lia.
Qed.

(** The estimate of a message covers it. *)
Lemma data_estimate seqNo us payload size m :
  ProtoMessageFieldSize 1 (data_wire_size (mkData seqNo (MilliSeconds us) payload (wrapS 64 size) m))
    <= ProtoTopicMessageDataFieldSize us (bsize payload) size (metadata_size m).
Proof.
  apply message_size_mono. unfold data_wire_size.
  cbn [seq_no created_at data uncompressed_size metadata_items].
  pose proof (int64_size_bounds 1 seqNo). pose proof (uncompressed_size_le 4 size).
  unfold ProtoTimestampFieldSize, timestamp_wire_size. cbv zeta. lia.
Qed.

Lemma data_estimate_pos us n size k : 0 <= n -> 0 <= k ->
  0 < ProtoTopicMessageDataFieldSize us n size k.
Proof.
  intros Hn Hk. apply message_size_pos. pose proof (bytes_size_nonneg 3 n Hn).
  pose proof (int64_size_bounds 1 0). pose proof (int64_size_bounds 4 size).
  unfold ProtoTimestampFieldSize.
  pose proof (message_size_pos 2 (timestamp_wire_size (MilliSeconds us))) as Ht.
  unfold timestamp_wire_size in Ht.
  pose proof (int64_size_bounds 1 (MilliSeconds us / 1000)).
  pose proof (int32_size_nonneg 2 (MilliSeconds us mod 1000 * 1000000)). cbn zeta. lia.
Qed.

Lemma sumZ_last {A} (f : A -> Z) l d : (forall x, 0 <= f x) -> l <> [] ->
  f (default d (last l)) <= sumZ f l.
Proof.
  intros Hf Hl. destruct (last l) as [x|] eqn:E; [|by apply last_None in E].
  apply last_Some in E as [l' ->]. rewrite sumZ_app, sumZ_cons. cbn.
  pose proof (sumZ_nonneg f l' ltac:(by apply Forall_true)). lia.
Qed.

Lemma context_size_nonneg ctx : 0 <= ProtoWriteRequestContextFieldSize ctx.
Proof.
  assert (forall k s, 0 <= ProtoStringFieldSize k (strlen s)) as Hs.
  { intros. apply (bytes_size_nonneg k). unfold strlen. lia. }
  destruct ctx as [|t|d]; cbn; [done| |]; apply Z.lt_le_incl, message_size_pos.
  - apply Z.add_nonneg_nonneg; apply Hs.
  - apply Z.add_nonneg_nonneg; [|destruct (ExtPublicationId d); [apply Hs|done]].
    unfold ProtoUInt64FieldSize, TagSize. destruct (_ =? 0); [done|].
    pose proof (varint_pos (1 * 8)). pose proof (varint_pos (IntPublicationId d)). lia.
Qed.
Lemma bsize_nonneg b : 0 <= bsize b.
Proof. unfold bsize. lia. Qed.

#[local] Hint Resolve bsize_nonneg context_size_nonneg int32_size_nonneg metadata_size_nonneg : ydb.

Lemma context_estimate c m r : messages r = [] -> tx r = None -> deferred_publish r = None ->
  named (SetWriteContext (WriteContext m) (set_codec c r)) = true ->
  context_wire_size (SetWriteContext (WriteContext m) (set_codec c r)) =
  ProtoWriteRequestContextFieldSize (WriteContext m).
Proof.
  intros _ Ht Hd. unfold SetWriteContext, named, context_wire_size.
  destruct (WriteContext m) as [|t|d]; cbn; [by rewrite Ht, Hd|lia|].
  unfold ProtoDeferredPublishIdentityFieldSize. destruct (ExtPublicationId d) as [e|]; [|done].
  intros He. unfold ProtoStringFieldSize. destruct e as [|a e]; [done|].
  rewrite (proj2 (Z.eqb_neq _ _)); [done|]. unfold strlen. cbn. lia.
Qed.

Lemma estimate_cases block msgs fields size :
  EstimateTopicWriteRequestBlockSize block msgs fields = Some size ->
  OriginalDataRefs block <> [] -> exists m rest,
  msgs = m :: rest /\
  let others := if 1 <? MessageCount block then take (Z.to_nat (MessageCount block - 1)) rest
                else [] in
  (forall seqNo, (if fields then ProtoInt32FieldSize 2 (wrapS 32 (CodecID block)) +
                   ProtoWriteRequestContextFieldSize (WriteContext m) else 0) +
   ProtoMessageFieldSize 1 (data_wire_size (block_message block seqNo m others)) <= size) /\
  0 < size.
Proof.
  intros E Hr. destruct msgs as [|m rest]; [done|]. exists m, rest. split; [done|]. cbn zeta.
  cbn [EstimateTopicWriteRequestBlockSize] in E. set (c := if fields then _ else 0) in *.
  assert (0 <= c) as Hc by (subst c; destruct fields; [apply Z.add_nonneg_nonneg; auto with ydb|done]).
  assert (forall us n size k, 0 <= ProtoTopicMessageDataFieldSize us (bsize n) size (metadata_size k)) as Hp.
  { intros. apply Z.lt_le_incl, data_estimate_pos; [unfold bsize; lia|apply metadata_size_nonneg]. }
  unfold block_message. rewrite Z.gtb_ltb in E. destruct (1 <? MessageCount block) eqn:Em.
  - destruct (Z.of_nat _ <? _); [discriminate|]. injection E as <-. cbn [orb].
    rewrite <- metadata_size_map, <- metadata_size_app. split; [intros seqNo|].
    + apply Zplus_le_compat_l, data_estimate.
    + apply Z.add_nonneg_pos; [done|apply data_estimate_pos; auto with ydb].
  - cbn [orb map concat]. rewrite app_nil_r. destruct (Compressed block).
    + injection E as <-. split; [intros seqNo; apply Zplus_le_compat_l, data_estimate|].
      apply Z.add_nonneg_pos; [done|apply data_estimate_pos; auto with ydb].
    + injection E as <-. set (f := fun buffer : bytes => _) in *.
      assert (f (default [] (last (OriginalDataRefs block))) <= sumZ f (OriginalDataRefs block)) as Hl.
      { apply sumZ_last; [intros; apply Hp|done]. }
      split.
      * intros seqNo. apply Zplus_le_compat_l. etrans; [|exact Hl]. apply data_estimate.
      * apply Z.add_nonneg_pos; [done|]. eapply Z.lt_le_trans; [|exact Hl].
        apply data_estimate_pos; auto with ydb.
Qed.

(** ** The send loop *)

Lemma GetSeqNo_kept id s : wpP (GetSeqNoImpl id) (fun _ s' => s' = s) s.
Proof. unfold GetSeqNoImpl. wpP_steps. destruct (AutoSeqNoMode s) as [[]|], (InitSeqNo s); by wpP_steps. Qed.

Lemma send_block_message block r m rest s : OriginalMessagesToSend s = m :: rest ->
  wpP (if 1 <? MessageCount block then SendBatchBlock block r else SendStandardBlock block r)
    (fun r' s' => kept s' = kept s /\ exists seqNo,
      r' = add_message (block_message block seqNo m
             (if 1 <? MessageCount block then take (Z.to_nat (MessageCount block - 1)) rest else []))
             (first_context m r)) s.
Proof.
  intros Em. destruct (1 <? MessageCount block) eqn:Ec.
  - unfold SendBatchBlock. rewrite Ec. wpP_steps. destruct (negb _); [exact I|].
    apply Z.ltb_lt in Ec. rewrite Em.
    replace (Z.to_nat (MessageCount block)) with (S (Z.to_nat (MessageCount block - 1))) by lia.
    cbn [take]. wpP_steps. eapply wpE_mono; [apply GetSeqNo_kept|]. cbn beta. intros seqNo ? ->.
    wpP_steps. split; [done|]. exists seqNo. unfold block_message.
    by rewrite (proj2 (Z.ltb_lt _ _) Ec).
  - unfold SendStandardBlock. wpP_steps. rewrite Em. wpP_steps.
    eapply wpE_mono; [apply GetSeqNo_kept|]. cbn beta. intros seqNo ? ->.
    wpP_steps. split; [done|]. exists seqNo. unfold block_message.
    rewrite Ec. cbn [orb map concat]. by rewrite app_nil_r.
Qed.

Lemma filling_add max prevCodec bodySize blockSize r block m rest seqNo :
  let others := if 1 <? MessageCount block then take (Z.to_nat (MessageCount block - 1)) rest
                else [] in
  filling max prevCodec bodySize r -> (messages r <> [] -> prevCodec = CodecID block) ->
  OriginalDataRefs block <> [] ->
  EstimateTopicWriteRequestBlockSize block (m :: rest) (limiter_Empty bodySize) = Some blockSize ->
  CanAdd 2 max bodySize blockSize = true ->
  filling max (CodecID block) (bodySize + blockSize)
    (add_message (block_message block seqNo m others)
       (first_context m (set_codec (wrapS 32 (CodecID block)) r))).
Proof.
  intros others F Hp Hr He Hc. destruct (estimate_cases _ _ _ _ He Hr) as (m' & rest' & [= <- <-] & Hs & Hpos).
  specialize (Hs seqNo). fold others in Hs.
  destruct (decide (messages r = [])) as [E|E].
  - destruct (f_empty _ _ _ _ F E) as (-> & Ht & Hd). cbn [limiter_Empty Z.eqb] in *.
    unfold first_context. rewrite bool_decide_true by done.
    assert (messages (SetWriteContext (WriteContext m) (set_codec (wrapS 32 (CodecID block)) r)) = [] /\
      codec (SetWriteContext (WriteContext m) (set_codec (wrapS 32 (CodecID block)) r)) =
        wrapS 32 (CodecID block)) as [Em Ec] by (by destruct (WriteContext m)).
    split; cbn; rewrite ?Em, ?Ec; try done; try lia.
    + intros Hn _. unfold body_wire_size. cbn. rewrite Em, Ec. cbn.
      pose proof (context_estimate (wrapS 32 (CodecID block)) m r E Ht Hd Hn) as Hx.
      unfold context_wire_size in *. cbn in *. lia.
    + left. cbn. lia.
  - unfold first_context. rewrite bool_decide_false by done.
    destruct (f_codec _ _ _ _ F E) as (Hb & Ec). specialize (Hp E). subst prevCodec.
    unfold limiter_Empty in Hs, He. rewrite (proj2 (Z.eqb_neq _ _)) in Hs by lia.
    unfold CanAdd, limiter_Empty in Hc. rewrite (proj2 (Z.eqb_neq _ _)) in Hc by lia.
    apply Z.leb_le in Hc. split; cbn.
    + intros H. by apply app_eq_nil in H as [? _].
    + split; [lia|done].
    + intros Hn _. pose proof (f_size _ _ _ _ F Hn E) as Hf. unfold body_wire_size in *.
      unfold context_wire_size in *.
      cbn [messages add_message set_codec codec tx deferred_publish] in *.
      rewrite sumZ_app, sumZ_cons, <- Ec. change (sumZ _ []) with 0. lia.
    + by right.
Qed.

Lemma IsReady_same s : wpP IsReadyToSendNextImpl (fun r s' => s' = s /\
  (r = true -> exists m rest, OriginalMessagesToSend s = m :: rest)) s.
Proof.
  unfold IsReadyToSendNextImpl. wpP_steps.
  destruct (negb _); [by wpP_steps|]. destruct (Aborting s); [by wpP_steps|].
  destruct (PackedMessagesToSend s); [by wpP_steps|].
  destruct (OriginalMessagesToSend s) as [|m rest]; [exact I|]. wpP_steps. eauto.
Qed.

Lemma TxIsChanged_same r s : wpP (TxIsChanged r) (fun _ s' => s' = s) s.
Proof.
  unfold TxIsChanged. wpP_steps. destruct (bool_decide (messages r = [])); [done|].
  by destruct (OriginalMessagesToSend s).
Qed.

Lemma DeferredPublishIsChanged_same r s : wpP (DeferredPublishIsChanged r) (fun _ s' => s' = s) s.
Proof.
  unfold DeferredPublishIsChanged. wpP_steps. destruct (bool_decide (messages r = [])); [done|].
  by destruct (OriginalMessagesToSend s).
Qed.

Lemma filling_made pc bs r s : filling (MaxOutboundMessageSize (Settings s)) pc bs r ->
  request_made s r s.
Proof.
  intros F. split_and!; [|done..|by exists O].
  destruct (f_limit _ _ _ _ F) as [?|Hl]; [by left|].
  destruct (decide (messages r = [])) as [E|E]; [left; rewrite E; cbn; lia|right; intros Hn].
  etrans; [|exact Hl]. apply message_size_mono, (f_size _ _ _ _ F); done.
Qed.

Lemma send_blocks_fits fuel prevCodec bodySize r s :
  Forall (fun b => OriginalDataRefs b <> []) (PackedMessagesToSend s) ->
  filling (MaxOutboundMessageSize (Settings s)) prevCodec bodySize r ->
  wpP (send_blocks fuel prevCodec bodySize r) (request_made s) s.
Proof.
  revert prevCodec bodySize r s. induction fuel as [|fuel IH]; intros pc bs r s Hb F; [exact I|].
  pose proof (filling_made _ _ _ _ F) as Hstop.
  cbn [send_blocks]. apply wpE_bind. eapply wpE_mono; [apply IsReady_same|]. cbn beta.
  intros ready ? [-> Hready]. wpP_steps. destruct ready; [|exact Hstop].
  destruct (Hready eq_refl) as (m & rest & Em).
  destruct (PackedMessagesToSend s) as [|block bl] eqn:Ep; [exact Hstop|].
  destruct (_ && _)%bool eqn:Ec; [exact Hstop|].
  apply wpE_bind. eapply wpE_mono; [apply TxIsChanged_same|].
  cbn beta. intros b ? ->. destruct b; [exact Hstop|].
  apply wpE_bind. eapply wpE_mono; [apply DeferredPublishIsChanged_same|].
  cbn beta. intros b ? ->. destruct b; [exact Hstop|].
  destruct (EstimateTopicWriteRequestBlockSize _ _ _) as [size|] eqn:Ee; [|exact I].
  destruct (CanAdd _ _ _ _) eqn:Ea; [|exact Hstop]. cbn [negb].
  apply wpE_bind. eapply wpE_mono; [by apply send_block_message|]. cbn beta.
  intros r' s' (K & seqNo & ->). injection K as K1 K2 K3. wpP_steps.
  rewrite Em in Ee. apply Forall_cons in Hb as [Hb Hbs].
  eapply wpE_mono; [apply IH; ws_cbn|].
  - by rewrite K2, Ep.
  - rewrite K1. eapply filling_add; [exact F| |done|exact Ee|exact Ea].
    intros E. rewrite bool_decide_false in Ec by done. cbn in Ec.
    by apply negb_false_iff, Z.eqb_eq in Ec.
  - intros r'' s'' (Hf & E1 & E2 & n & E3). ws_cbn_in Hf. ws_cbn_in E1. ws_cbn_in E2. ws_cbn_in E3.
    split_and!; [congruence..|]. exists (S n). by rewrite E3, K2, Ep.
Qed.

#[export] Instance wire_grows_preorder : PreOrder wire_grows.
Proof.
  split; [intros s; split_and!; [done|by exists O|exists []; by rewrite app_nil_r]|].
  intros s1 s2 s3 (E1 & (n & P1) & ms & W1 & F1) (E2 & (k & P2) & ms' & W2 & F2).
  split_and!; [congruence|exists (n + k)%nat; by rewrite P2, P1, drop_drop|].
  exists (ms ++ ms'). rewrite W2, W1, app_assoc. split; [done|].
  apply Forall_app. split; [done|]. by rewrite <- E1.
Qed.

Lemma wire_grows_kept s s' : kept s' = kept s -> wire_grows s s'.
Proof.
  intros [= E1 E2 E3]. split_and!; [done|exists O; done|]. exists []. by rewrite E3, app_nil_r.
Qed.

Lemma AbortImpl_wire s : wpP AbortImpl (fun _ s' => kept s' = kept s) s.
Proof.
  unfold AbortImpl, clear_connect, AbortFlushPromisesImpl. wpP_steps.
  destruct (Aborting s); wpP_steps; [done|].
  eapply wpE_mono; [eapply wpE_weaken, CancelPendingWriteAcks_tracking; done|].
  cbn beta. intros _ s1 H. wpP_steps. by apply (same_proj kept) in H.
Qed.

Lemma UpdateToken_wire s : wpP UpdateTokenIfNeededImpl (fun _ s' => wire_grows s s') s.
Proof.
  assert (forall f, wpP (UpdateTokenImpl f) (fun _ s' => wire_grows s s') s) as Hu.
  { intros f. unfold UpdateTokenImpl. wpP_steps. destruct (_ || _)%bool; [by apply wire_grows_kept|].
    destruct f as [tok|].
    - destruct (bool_decide _); [by apply wire_grows_kept|]. wpP_steps.
      split_and!; [done|by exists O|]. exists [UpdateTokenRequest tok]. split; [done|]. by repeat constructor.
    - unfold CloseImpl. wpP_steps. eapply wpE_mono; [apply AbortImpl_wire|]. cbn beta.
      intros _ s' K. apply wire_grows_kept. exact K. }
  unfold UpdateTokenIfNeededImpl. wpP_steps. destruct (_ || _)%bool; [by apply wire_grows_kept|].
  destruct (Auth s); first [apply Hu|by apply wire_grows_kept].
Qed.

Lemma WriteToProcessor_wire m n s : fits_message (MaxOutboundMessageSize (Settings s)) m ->
  wpP (WriteToProcessorImpl m n) (fun _ s' => wire_grows s s') s.
Proof.
  intros Hm. unfold WriteToProcessorImpl, OnMemoryUsageChangedImpl. wpP_steps.
  destruct (Aborting s); [by apply wire_grows_kept|]. wpP_steps.
  destruct (0 <=? n); wpP_steps.
  all: split_and!; [done|by exists O|exists [m]; split; [done|by repeat constructor]].
Qed.

Lemma SendImpl_fits `{WriteLibraries} s :
  Forall (fun b => OriginalDataRefs b <> []) (PackedMessagesToSend s) ->
  wpP SendImpl (fun _ s' => wire_grows s s') s.
Proof.
  intros Hb. unfold SendImpl. wpP_steps. generalize (S (length (PackedMessagesToSend s))).
  intros fuel. revert s Hb. induction fuel as [|fuel IH]; intros s Hb; [exact I|]. cbn [send_requests].
  apply wpE_bind. eapply wpE_mono; [apply IsReady_same|]. cbn beta. intros ready ? [-> _].
  destruct ready; [|by apply wire_grows_kept]. cbn [negb]. wpP_steps.
  eapply wpE_mono; [apply send_blocks_fits; [done|]|].
  { split; try done. by left; cbn; lia. }
  intros r s1 (Hf & E1 & E2 & n & E3). wpP_steps.
  eapply wpE_mono; [apply UpdateToken_wire|]. cbn beta. intros _ s2 G2. wpP_steps.
  assert (wire_grows s s1) as G1.
  { split_and!; [done|by exists n|exists []; by rewrite app_nil_r]. }
  assert (wire_grows s s2) as G12 by (by etrans).
  eapply wpE_mono; [apply WriteToProcessor_wire; cbn; destruct G12 as [-> _]; exact Hf|].
  cbn beta. intros _ s3 G3. assert (wire_grows s s3) as G by (by etrans).
  eapply wpE_mono; [apply IH|cbn beta; intros _ s' G'; by etrans].
  destruct G as (_ & (k & ->) & _). by apply Forall_drop.
Qed.

(** C28: the requests [SendImpl] writes.  Whatever blocks are ready, the session
    writes them as requests that fit [MaxOutboundMessageSize] in protobuf's wire
    format, envelope included; only a request of a single block may be larger, and
    one of a publication with an empty external name, whose field the estimate
    leaves out. *)
Theorem write_requests_fit `{WriteLibraries} s s' :
  Forall (fun b => OriginalDataRefs b <> []) (PackedMessagesToSend s) ->
  SendImpl s = Ok (tt, s') ->
  exists ms, Wire s' = Wire s ++ ms /\
    Forall (fun m => match m with
                     | WriteMessages r => (length (messages r) <= 1)%nat \/
                         (named r = true -> request_wire_size r <= MaxOutboundMessageSize (Settings s))
                     | _ => True
                     end) ms.
Proof.
  intros Hb E. pose proof (SendImpl_fits s Hb) as W. unfold wpE in W. rewrite E in W.
  by destruct W as (_ & _ & ms & ? & ?); exists ms.
Qed.

(** Three ready blocks of two bytes, with room for two of them in a request. *)
Definition sample_block (i : Z) : TBlock :=
  mkBlock i 1 2 2 1 [[Byte.x61; Byte.x62]] [0] [None] [] false.
Definition sample_original (i : Z) : TOriginalMessage := mkOriginal i 0 2 [] NoContext None.
Definition sample_ready : ws :=
  let cfg := mkSettings RAW None 1000 0 None 1 None true false None "topic" "db" [] "" "" false 60 in
  set_SessionEstablished true (set_InitSeqNo (Some 0) (set_AutoSeqNoMode (Some true)
    (set_OriginalMessagesToSend (sample_original <$> [1; 2; 3])
      (set_PackedMessagesToSend (sample_block <$> [1; 2; 3]) (ws0 cfg ∅ NoProvider))))).
#[local] Instance sample_sizes : WriteLibraries :=
  {| CompressWriteBlock := fun _ _ b => (concat (OriginalDataRefs b), 1, false);
     SpaceUsedLong := fun _ => 10 |}.

Lemma write_requests_fit_witness : exists s' r1 r2,
  SendImpl sample_ready = Ok (tt, s') /\ Wire s' = [WriteMessages r1; WriteMessages r2] /\
  length (messages r1) = 2%nat /\
  exists ms, Wire s' = Wire sample_ready ++ ms /\
    Forall (fun m => match m with
                     | WriteMessages r => (length (messages r) <= 1)%nat \/
                         (named r = true -> request_wire_size r <= MaxOutboundMessageSize (Settings sample_ready))
                     | _ => True
                     end) ms.
Proof.
  do 3 eexists. split; [vm_compute; reflexivity|]. split; [vm_compute; reflexivity|].
  split; [reflexivity|].
  apply write_requests_fit; [by repeat constructor|vm_compute; reflexivity].
Defined.
