(* ===== verification/WriteSessionCalls.v ===== *)
(** * Write session: calls and callbacks

    The entry points of [WriteSession] keep the invariant of [WriteSessionInv]:
    the server's messages, the connection callbacks, the posted tasks and the
    user's Write, Flush and Close.  The last part is the session as a step system
    and the theorems on its runs. *)

From S2P Require Import Prelude Status DeferredAck WriteTypes WriteSession WriteSessionInv.

(** The identifier [GetIdImpl] gives for a sequence number of the server. *)
Definition server_id (s : ws) (seqNo : Z) : option Z :=
  match AutoSeqNoMode s, InitSeqNo s with
  | Some false, _ => Some seqNo
  | Some true, Some init => if init <? seqNo then Some (seqNo - init) else None
  | _, _ => None
  end.

(** What [ProcessServerMessageImpl] relies on: the server acknowledges the blocks sent, in
    order, each by its first message.  ydb_topic.proto has the acknowledgement carry the
    sequence number of the request, which for a block of several messages is the one of its
    last message: such an acknowledgement is not covered, and aborts the process. *)
Fixpoint acks_match (s : ws) (acks : list WriteAck) (blocks : list TBlock) : Prop :=
  match acks, blocks with
  | [], _ => True
  | a :: acks, b :: blocks =>
      server_id s (u64 (srv_seq_no a)) = Some (Offset b) /\ is_Some (ack_state_of (kind a)) /\
      acks_match s acks blocks
  | _, [] => False
  end.

(** What acknowledging leaves alone. *)
Definition ack_rest (s : ws) :=
  (Settings s, FirstTokenSent s, CurrentBatch s, Events s, InitSeqNo s, AutoSeqNoMode s, NextId s,
   Aborting s, CloseEvent s).

(** What reconnecting leaves alone. *)
Definition connect_rest (s : ws) :=
  (rest s, MemoryUsage s, ContinuationTokenIssued s, Events s, ScheduledTokens s).

Definition connects (x : Z) (s s' : ws) : Prop :=
  inv0 x s' /\ connect_rest s' = connect_rest s /\ Aborting s' = Aborting s /\
  CloseEvent s' = CloseEvent s.

(** A call that keeps the invariant and may close the session. *)
Definition keeps (x : Z) (s s' : ws) : Prop :=
  inv0 x s' /\ connect_rest s' = connect_rest s /\ closing s s'.

(** A batch at rest is empty or waits for more plain messages. *)
Definition batch_ok (s : ws) : Prop :=
  CurrentBatch s = batch0 \/
  flushable s /\ Z.of_nat (length (Messages (CurrentBatch s))) < MaxBlockMessageCount s /\
  Forall (fun m => msg_Codec m = None) (Messages (CurrentBatch s)) /\
  FlushRequested (CurrentBatch s) = false.

(** Identifiers the session gives are counted by [NextId]. *)
Definition ids_bound (s : ws) : Prop :=
  0 <= NextId s /\ (AutoSeqNoMode s = Some true -> Forall (fun i => i <= NextId s) (pipeline s)) /\
  (AutoSeqNoMode s = Some true -> Aborting s = false -> Messages (CurrentBatch s) <> [] ->
   last (batch_ids (CurrentBatch s)) = Some (NextId s)).

Record good (n : nat) (s : ws) : Prop := {
  g_inv : inv0 (batch_bytes (CurrentBatch s)) s;
  g_batch : batch_ok s;
  g_ids : ids_bound s;
  g_tokens : tokens n 0 s;
  g_awake : awake s;
  g_count : 1 <= BatchFlushMessageCount_ (Settings s)
}.

Definition limits (s : ws) : Z * Z :=
  (BatchFlushMessageCount_ (Settings s), MaxMemoryUsage_ (Settings s)).

(** A call that accepts and acknowledges nothing. *)
Definition calm (n : nat) (s s' : ws) : Prop :=
  good n s' /\ pipeline s' = pipeline s /\ acked_of (Events s') = acked_of (Events s) /\
  limits s' = limits s /\ closing s s'.

(** A posted ready event is delivered. *)
Definition DeliverToken : M ws unit :=
  s ← get_st;
  match ScheduledTokens s with
  | O => mret tt
  | S k => modify (set_ScheduledTokens k) ;; PushEvent ReadyToAcceptEvent
  end.

(** The write callback of the [i]-th request to come. *)
Definition RequestDone (i : nat) : M ws unit :=
  s ← get_st;
  match Requests s !! i with
  | None => mret tt
  | Some m => modify (set_Requests (delete i (Requests s))) ;; OnWriteRequestDone m
  end.

Section Acks.
Context `{WriteLaws}.

Lemma GetIdImpl_spec n id s : server_id s n = Some id ->
  wpT (GetIdImpl n) (fun r s' => r = id /\ s' = s) s.
Proof.
  unfold server_id, GetIdImpl. intros E. wpE_steps.
  destruct (AutoSeqNoMode s) as [[]|]; [|by injection E as <-|done].
  destruct (InitSeqNo s) as [i|]; [|done]. destruct (_ <? _); [|done]. by injection E as <-.
Qed.

Lemma ack_block_spec k : forall id off st s, Forall (inU 64) (seqZ id (Z.of_nat k)) ->
  wpT (ack_block k id off st) (fun l s' => same s s' /\ ack_SeqNo <$> l = seqZ id (Z.of_nat k)) s.
Proof.
  induction k as [|k IH]; intros id off st s R; cbn [ack_block]; [by wpE_steps|].
  rewrite seqZ_cons in R by lia. inversion R as [|? ? R1 R2]; subst.
  replace (Z.pred (Z.of_nat (S k))) with (Z.of_nat k) in * by lia.
  assert (seqZ (u64 (id + 1)) (Z.of_nat k) = seqZ (Z.succ id) (Z.of_nat k)) as Eq.
  { destruct k as [|k']; [done|]. rewrite wrapU_small; [f_equal; lia|].
    rewrite seqZ_cons in R2 by lia. replace (id + 1) with (Z.succ id) by lia.
    by apply Forall_inv in R2. }
  wpE_call; [apply TrySignalAllAcksReceived_tracking|]. cbn beta. intros _ s1 S1.
  wpE_call; [apply IH; by rewrite Eq|]. cbn beta. intros l s2 [S2 E2]. wpE_steps.
  split; [by etrans|]. rewrite fmap_cons, E2, Eq, (seqZ_cons id) by lia. cbn [ack_SeqNo].
  do 2 f_equal. lia.
Qed.

Lemma release_memory_spec d s : 0 <= d <= MemoryUsage s -> wpT (OnMemoryUsageChangedImpl (- d))
  (fun _ s' => s' = set_MemoryUsage (MemoryUsage s - d) s) s.
Proof.
  intros Hd. unfold OnMemoryUsageChangedImpl. wpE_steps. destruct (0 <=? - d) eqn:E; bool_to_prop.
  - wpE_steps. f_equal.
  - wpE_steps; [apply Z.leb_le; lia|]. f_equal. lia.
Qed.

Lemma pop_acked off count ids front l s : SentOriginalMessages s = front :: l -> 1 <= count ->
  Id <$> SentOriginalMessages s = seqZ off count ++ ids -> Forall (inU 64) (seqZ off count) ->
  wpT (if 1 <? count then pop_block (Z.to_nat count) off
       else abort_unless (Id front =? off) "sentFront.Id == id" ;; pop_sent)
    (fun _ s' => popped (Z.to_nat count) s s') s.
Proof.
  intros Es Hc E R. destruct (1 <? count) eqn:E1; bool_to_prop.
  - eapply pop_block_spec; by rewrite Z2Nat.id by lia.
  - assert (count = 1) as -> by lia. rewrite Es in E. cbn in E. injection E as Ei _.
    wpE_steps; [by apply Z.eqb_eq|]. by eapply pop_sent_spec.
Qed.

(** The first sent block. *)
Lemma first_block x b bs s : inv0 x s -> SentPackedMessage s = b :: bs ->
  exists front l, SentOriginalMessages s = front :: l /\ block_wf (Settings s) b /\
    Id <$> SentOriginalMessages s = block_ids b ++ blocks_ids bs /\
    Forall (inU 64) (block_ids b) /\ 0 <= memoryToRelease b <= MemoryUsage s /\
    compressed_bytes b <= BytesInflightCompressed (Counters s) /\
    uncompressed_bytes b <= BytesInflightUncompressed (Counters s).
Proof.
  intros I Eb. destruct (held_parts _ _ I) as (H1 & H2 & H3 & H4).
  pose proof (i_sent _ _ I) as Hsent. rewrite Eb, blocks_ids_cons in Hsent.
  pose proof (i_wf _ _ I) as W. rewrite Eb in W. cbn in W. rewrite Forall_cons, !Forall_app in W.
  destruct W as (Hb & W1 & W2 & W3).
  assert (forall f, (forall c, block_wf (Settings s) c -> 0 <= f c) -> 0 <= f b /\
    0 <= sumZ f bs /\ 0 <= sumZ f (PackedMessagesToSend s) /\ 0 <= sumZ f (Compressing s)) as Hn.
  { intros f Hf. split_and!; [by apply Hf|apply sumZ_nonneg; by eapply Forall_impl..]. }
  destruct (Hn memoryToRelease) as (M1 & M2 & M3 & M4).
  { intros c (_ & _ & ?). unfold memoryToRelease, bsize. destruct (Compressed c); lia. }
  destruct (Hn compressed_bytes) as (C1 & C2 & C3 & C4).
  { intros c _. unfold compressed_bytes, bsize. destruct (Compressed c); lia. }
  destruct (Hn uncompressed_bytes) as (U1 & U2 & U3 & _).
  { intros c (_ & ? & _). unfold uncompressed_bytes. destruct (Compressed c); lia. }
  destruct (Hn block_OriginalSize) as (_ & _ & _ & S4); [by intros c (_ & ? & _)|].
  pose proof (i_mem _ _ I) as Hm. pose proof (i_x _ _ I). pose proof (i_unc _ _ I) as Hu.
  pose proof (i_com _ _ I) as Hc. unfold held_memory in Hm.
  rewrite Eb, sumZ_cons in Hm. rewrite Eb, sumZ_app, sumZ_cons in Hu, Hc.
  destruct (SentOriginalMessages s) as [|front l] eqn:Es.
  { rewrite (block_ids_head _ _ Hb) in Hsent. done. }
  exists front, l. rewrite <- Hsent. split_and!; try done; try lia.
  pose proof (i_range _ _ I) as R. unfold pipeline0 in R. rewrite Es, <- Hsent in R.
  rewrite !Forall_app in R. by destruct R as [[? _] _].
Qed.

Lemma Cleanup_spec x n p b bs s : inv0 x s -> SentPackedMessage s = b :: bs ->
  FirstTokenSent s = true -> tokens n p s ->
  wpT (CleanupOnAcknowledgedImpl (Offset b)) (fun r s' => exists i,
    popped (Z.to_nat (MessageCount b)) (acked_block b bs i s) s' /\ awake s' /\
    tokens n (p + if r : bool then 1 else 0) s') s.
Proof.
  intros I Eb Hf T.
  destruct (first_block _ _ _ _ I Eb) as (front & l & Es & ((Hc1 & _) & _) & Hids & Hr & Hm & Hc & Hu).
  unfold CleanupOnAcknowledgedImpl. wpE_steps. rewrite Es, Eb, Z.eqb_refl.
  wpE_call; [by apply release_memory_spec|]. cbn beta. intros _ s1 ->.
  wpE_call; [by apply (TryIssue_raw n p)|]. cbn beta. intros r s2 (-> & A2 & T2).
  unfold update_counters. wpE_steps.
  - apply Z.leb_le. cbn. unfold compressed_bytes in Hc. lia.
  - apply Z.leb_le. cbn. unfold uncompressed_bytes in Hu. lia.
  - ws_cbn. rewrite Eb. cbn [tail].
    wpE_call; [by apply (pop_acked _ _ (blocks_ids bs) front l)|]. cbn beta. intros _ s3 P3.
    wpE_steps. exists (ContinuationTokenIssued s || r)%bool. split_and!; [exact P3| |].
    + destruct P3 as (fr & w & ->). exact A2.
    + destruct P3 as (fr & w & ->). exact T2.
Qed.

Lemma acks_match_ext s s' acks blocks : AutoSeqNoMode s' = AutoSeqNoMode s ->
  InitSeqNo s' = InitSeqNo s -> acks_match s acks blocks -> acks_match s' acks blocks.
Proof.
  intros E1 E2. revert blocks. induction acks as [|a acks IH]; intros [|b blocks]; cbn; try done.
  intros (H1 & H2 & H3). split_and!; [|done|by apply IH]. unfold server_id. by rewrite E1, E2.
Qed.

Lemma tokens_same n p s s' : same s s' -> tokens n p s -> tokens n p s'.
Proof. intros E. apply tokens_ext; by apply same_proj. Qed.

Lemma ready_count_split l l' : ready_count (l ++ l') = (ready_count l + ready_count l')%nat.
Proof. unfold ready_count. by rewrite filter_app, length_app. Qed.

Lemma process_acks_spec x acks : forall n p s, inv0 x s -> FirstTokenSent s = true ->
  tokens n p s -> awake s -> acks_match s acks (SentPackedMessage s) ->
  wpT (process_acks acks) (fun r s' => inv0 x s' /\ awake s' /\
    tokens n (p + ready_count (snd r)) s' /\ Forall (fun ev => is_ready ev = true) (snd r) /\
    pipeline0 s = (ack_SeqNo <$> fst r) ++ pipeline0 s' /\ ack_rest s' = ack_rest s) s.
Proof.
  induction acks as [|a acks IH]; intros n p s I Hf T A Hm; cbn [process_acks].
  { wpE_steps. cbn. rewrite Nat.add_0_r. by split_and!. }
  destruct (SentPackedMessage s) as [|b bs] eqn:Eb; [done|]. cbn in Hm.
  destruct Hm as (Hid & [st Hst] & Hm).
  destruct (first_block _ _ _ _ I Eb) as (front & l & _ & ((Hc & _) & _) & _ & Hr & _).
  wpE_call; [by apply GetIdImpl_spec|]. cbn beta. intros id s1 [-> ->].
  wpE_steps. rewrite Eb, Z.eqb_refl, Hst.
  wpE_call; [apply ack_block_spec; by rewrite Z2Nat.id by lia|]. cbn beta. intros acked s1 [S1 Ea].
  rewrite Z2Nat.id in Ea by lia. fold (block_ids b) in Ea.
  assert (SentPackedMessage s1 = b :: bs) as Eb1
    by (rewrite (same_proj SentPackedMessage _ _ S1); done).
  assert (FirstTokenSent s1 = true) as Hf1 by (by rewrite (same_proj FirstTokenSent _ _ S1)).
  assert (ack_rest s1 = ack_rest s) as Er1 by (by apply (same_proj ack_rest)).
  assert (pipeline0 s1 = pipeline0 s) as Ep1 by (by apply (same_proj pipeline0)).
  assert (inv0 x s1) as I1 by (eapply inv0_quiet; [by apply same_quiet|done]).
  wpE_call; [by apply (Cleanup_spec x n p b bs); [..|eapply tokens_same]|]. cbn beta.
  intros r s2 (i & P2 & A2 & T2).
  destruct (acked_inv _ _ _ _ _ _ I1 Eb1 Hf1 P2) as [I2 Ep2].
  assert (ack_rest s2 = ack_rest s1) as Er2 by (destruct P2 as (fr & w & ->); done).
  assert (SentPackedMessage s2 = bs) as Eb2 by (destruct P2 as (fr & w & ->); done).
  assert (ack_rest s2 = ack_rest s) as Er by congruence. unfold ack_rest in Er.
  injection Er as E1 E2 E3 E4 E5 E6 E7 E8 E9.
  wpE_call; [apply (IH n); [done|by rewrite E2|exact T2|done|rewrite Eb2; by eapply acks_match_ext]|].
  cbn beta. intros [la le] s3 (I3 & A3 & T3 & R3 & Ep3 & Er3). wpE_steps. cbn [fst snd] in *.
  split_and!; [done|done| | | |].
  - rewrite ready_count_split, Nat.add_assoc. by destruct r.
  - apply Forall_app. split; [|done]. destruct r; by repeat constructor.
  - rewrite <- Ep1, Ep2, Ep3, fmap_app, Ea, app_assoc. done.
  - congruence.
Qed.

(** ** Reconnecting *)

Lemma fold_push_perm l q : foldl (fun q b => pq_push b q) q l ≡ₚ l ++ q.
Proof.
  revert q. induction l as [|b l IH]; intros q; cbn; [done|]. rewrite IH, pq_push_perm.
  by rewrite Permutation_middle.
Qed.

Lemma fold_push_sorted l q : StronglySorted offset_le q ->
  StronglySorted offset_le (foldl (fun q b => pq_push b q) q l).
Proof.
  revert q. induction l as [|b l IH]; intros q Hq; cbn; [done|]. by apply IH, pq_push_sorted.
Qed.

Lemma ResetForRetry_spec x s : inv0 x s -> wpT ResetForRetryImpl (fun _ s' => connects x s s') s.
Proof.
  intros I. unfold ResetForRetryImpl. pose proof (fold_push_perm (SentPackedMessage s)
    (PackedMessagesToSend s)) as P.
  wpE_steps; ws_cbn.
  - rewrite P, length_app. apply Nat.eqb_eq. lia.
  - rewrite length_app. apply Nat.eqb_eq. lia.
  - assert (forall f, sumZ f (foldl (fun q b => pq_push b q) (PackedMessagesToSend s)
      (SentPackedMessage s)) = sumZ f (SentPackedMessage s) + sumZ f (PackedMessagesToSend s)) as Hs.
    { intros f. by rewrite (sumZ_perm _ _ _ P), sumZ_app. }
    split_and!; [|unfold connect_rest, rest, pipeline0; ws_cbn; by rewrite fmap_app|done|done].
    destruct I. unfold pipeline0, held_memory, todo_blocks in *.
    split; unfold pipeline0, held_memory, todo_blocks; ws_cbn; rewrite ?fmap_app, ?sumZ_app in *; try done.
    + intros Ha. destruct (i_todo Ha) as (todo & P' & E). exists (SentPackedMessage s ++ todo).
      split; [by rewrite P', P, app_assoc|]. by rewrite blocks_ids_app, i_sent, E.
    + by apply fold_push_sorted.
    + cbn. by rewrite P, <- app_assoc.
    + rewrite Hs. cbn. lia.
    + intros Ha. rewrite Hs. cbn. rewrite (i_mem_eq Ha). lia.
    + rewrite Hs. cbn. lia.
    + rewrite Hs. cbn. lia.
    + intros F. destruct (i_start F) as (E1 & E2 & E3 & E4 & E5 & E6).
      split_and!; try done. destruct (SentPackedMessage s) as [|b l]; [by rewrite E2|].
      apply Forall_inv in i_wf. apply app_nil in E1 as [E1 _].
      rewrite E1, blocks_ids_cons, (block_ids_head _ _ i_wf) in i_sent. done.
Qed.

Lemma connects_trans x s1 s2 s3 : connects x s1 s2 -> connects x s2 s3 -> connects x s1 s3.
Proof. intros (I1 & R1 & A1 & C1) (I2 & R2 & A2 & C2). split_and!; [done|congruence..]. Qed.

Lemma connects_refl x s : inv0 x s -> connects x s s.
Proof. intros I. by split_and!. Qed.

Lemma RestartImpl_spec x e st s : inv0 x s ->
  wpT (RestartImpl e st) (fun _ s' => connects x s s') s.
Proof.
  intros I.
  assert (forall s1, connects x s s1 -> wpT (match next_delay e with
    | Some delay => ResetForRetryImpl ;; mret (mkResult true delay false false)
    | None => CheckHandleResultImpl (mkResult false 0 true false) end)
    (fun _ => connects x s) s1) as Hend.
  { intros s1 C1. pose proof C1 as (I1 & _). destruct (next_delay e).
    - wpE_call; [by apply (ResetForRetry_spec x)|]. cbn beta. intros _ s2 C2.
      wpE_steps. by eapply connects_trans.
    - unfold CheckHandleResultImpl. wpE_steps. destruct (_ && _)%bool; wpE_steps; [|done].
      eapply connects_trans; [exact C1|]. split_and!; [by destruct I1|done..]. }
  assert (connects x s (set_SessionEstablished false s)) as C1.
  { split_and!; [|done..]. destruct I; split; try done.
    intros F; by destruct (i_start F) as (? & ? & ? & ? & ? & ?). }
  unfold RestartImpl. wpE_steps. destruct (Aborting s); [by apply connects_refl|].
  wpE_steps; apply Hend; [|done]. eapply connects_trans; [exact C1|].
  destruct C1 as [I1 _]. split_and!; [by destruct I1|done..].
Qed.

End Acks.

(** Connections start, fail and end. *)

Lemma connects_closing x s s' : connects x s s' -> closing s s'.
Proof. intros (_ & _ & A & C). split; [by rewrite A|by left]. Qed.

Lemma session_keeps_trans x s1 s2 s3 : keeps x s1 s2 -> keeps x s2 s3 -> keeps x s1 s3.
Proof. intros (I1 & R1 & C1) (I2 & R2 & C2). split_and!; [done|congruence|by etrans]. Qed.

Ltac keeps_tac :=
  match goal with
  | H1 : keeps ?x ?a ?b, H2 : keeps ?x ?b ?c |- keeps ?x ?a ?c => exact (session_keeps_trans x a b c H1 H2)
  end.

Section Calls.
Context `{WriteLaws}.

Lemma keeps_refl x s : inv0 x s -> keeps x s s.
Proof. intros I. by split_and!. Qed.

Lemma keeps_connects x s s' : connects x s s' -> keeps x s s'.
Proof. intros C. split_and!; [apply C|apply C|by eapply connects_closing]. Qed.

Lemma quiet_keeps x s s' : inv0 x s -> quiet s s' -> keeps x s s'.
Proof.
  intros I Q. split_and!; [by eapply inv0_quiet| |apply Q]. destruct Q as [V _].
  unfold view in V. injection V as V1 V2 V3 V4 V5 V6 V7 V8 V9 V10 V11 V12 V13 V14 V15 V16 V17 V18 V19.
  unfold connect_rest, rest, pipeline0. congruence.
Qed.

(** An assignment the invariant does not see. *)
Lemma keeps_eq x s s' : inv0 x s -> view s' = view s -> Aborting s' = Aborting s ->
  CloseEvent s' = CloseEvent s -> keeps x s s'.
Proof. intros I V A C. by apply quiet_keeps, quiet_eq. Qed.

Lemma CloseImpl_keeps x st s : inv0 x s -> wpT (CloseImpl st) (fun _ s' => keeps x s s') s.
Proof.
  intros I. eapply wpE_mono; [apply CloseImpl_quiet|]. cbn beta. intros _ s' [Q _].
  by apply quiet_keeps.
Qed.

Lemma AbortImpl_keeps x s : inv0 x s -> wpT AbortImpl (fun _ s' => keeps x s s') s.
Proof.
  intros I. eapply wpE_mono; [apply AbortImpl_quiet|]. cbn beta. intros _ s' [Q _].
  by apply quiet_keeps.
Qed.

(** ** The invariant between calls *)

Lemma flushable_rest s s' : rest s = rest s' -> flushable s -> flushable s'.
Proof.
  intros R []. unfold rest in R. injection R as R1 R2 R3 R4 R5 R6 R7 R8.
  unfold pipeline, MaxBlockMessageCount in *.
  split; unfold pipeline, MaxBlockMessageCount; rewrite <- ?R1, <- ?R2, <- ?R3, <- ?R5, <- ?R6,
    <- ?R8; done.
Qed.

Lemma keeps_calm n s s' : good n s -> keeps (batch_bytes (CurrentBatch s)) s s' -> calm n s s'.
Proof.
  intros [] (I & R & C). unfold connect_rest, rest in R.
  injection R as R1 R2 R3 R4 R5 R6 R7 R8 Rm Ri Re Rs.
  assert (pipeline s' = pipeline s) as Rp by (unfold pipeline; congruence).
  split_and!; [|done|congruence|unfold limits; congruence|done]. split.
  - by rewrite R3.
  - destruct g_batch0 as [B|(B1 & B2 & B3 & B4)]; [left; congruence|right].
    unfold MaxBlockMessageCount in *. rewrite R1, R3. split_and!; [|done..].
    eapply flushable_rest; [|exact B1]. unfold rest. congruence.
  - unfold ids_bound in *. rewrite R3, R6, R7, Rp. destruct g_ids0 as (? & ? & Hl), C as [C _].
    split_and!; [done|done|]. intros Hm Ha. apply Hl; [done|].
    destruct (Aborting s); [|done]. by rewrite C in Ha.
  - destruct g_tokens0 as [T1 T2], C as [_ C]. split; rewrite Re, Ri, Rs; [done|].
    destruct C as [->|[_ [? C]]]; [done|congruence].
  - unfold awake in *. rewrite R1, R2, Ri, Rm. destruct C as [C _].
    intros Hf Ha. apply g_awake0; [done|]. destruct (Aborting s); [|done]. by rewrite C in Ha.
  - by rewrite R1.
Qed.

Lemma calm_trans n s1 s2 s3 : calm n s1 s2 -> calm n s2 s3 -> calm n s1 s3.
Proof.
  intros (G1 & P1 & A1 & L1 & C1) (G2 & P2 & A2 & L2 & C2).
  split_and!; [done|congruence|congruence|congruence|by etrans].
Qed.

Lemma calm_refl n s : good n s -> calm n s s.
Proof. intros G. by split_and!. Qed.

(** A call with a specification in terms of [keeps]. *)
Lemma calm_call {A} (m : M ws A) n s : good n s ->
  (forall x, inv0 x s -> wpT m (fun _ s' => keeps x s s') s) -> wpT m (fun _ s' => calm n s s') s.
Proof.
  intros G Hm. eapply wpE_mono; [apply Hm, (g_inv _ _ G)|]. cbn beta. intros _ s'.
  by apply keeps_calm.
Qed.

(** ** Connection callbacks *)

Lemma OnErrorImpl_keeps x e st s : inv0 x s ->
  wpT (OnErrorImpl e st) (fun _ s' => keeps x s s') s.
Proof.
  intros I. unfold OnErrorImpl, update_counters. wpE_steps.
  set (s1 := set_Counters _ s).
  assert (keeps x s s1) as K1 by (split_and!; [by destruct I|done|by split; [|left]]).
  wpE_call; [apply (RestartImpl_spec x), K1|]. cbn beta. intros r s2 K2%keeps_connects.
  assert (keeps x s s2) as K by (keeps_tac). wpE_steps; [|done].
  wpE_call; [apply (CloseImpl_keeps x), K|]. cbn beta. intros _ s3 K3. wpE_steps.
  keeps_tac.
Qed.

Lemma new_context_keeps x s : inv0 x s -> wpT new_context (fun _ s' => keeps x s s') s.
Proof. intros I. unfold new_context. wpE_steps. by apply keeps_eq. Qed.

Lemma Connect_keeps x e d s : inv0 x s -> wpT (Connect e d) (fun _ s' => keeps x s s') s.
Proof.
  intros I. unfold Connect, new_context. wpE_steps. destruct (Aborting s); [by apply keeps_refl|].
  wpE_steps. set (s1 := set_ConnectionGeneration _ s).
  assert (keeps x s s1) as K1 by (by apply keeps_eq).
  assert (wpT AbortImpl (fun _ s' => keeps x s s') s1) as Ka.
  { eapply wpE_mono; [apply (AbortImpl_keeps x), K1|]. cbn beta. intros _ s2 K2. keeps_tac. }
  destruct (negb (alive e)); [exact Ka|]. destruct (negb (alive_child e)); [exact Ka|].
  wpE_steps. by apply keeps_eq.
Qed.

Lemma ConnectToPreferred_keeps x e s : inv0 x s ->
  DirectWriteToPartition_ (Settings s) = true -> is_Some (direct_partition s) ->
  wpT (ConnectToPreferredPartitionLocation e) (fun _ s' => keeps x s s') s.
Proof.
  intros I Hd Hp. unfold ConnectToPreferredPartitionLocation, new_context. wpE_steps.
  { by rewrite Hd, bool_decide_true. }
  destruct (Aborting s); [by apply keeps_refl|]. destruct (negb (alive e)).
  - wpE_call; [by apply (AbortImpl_keeps x)|]. cbn beta. intros _ s2 K. by wpE_steps.
  - wpE_steps. by apply keeps_eq.
Qed.

Lemma post_keeps x a s : inv0 x s -> wpT (post a) (fun _ s' => keeps x s s') s.
Proof. intros I. unfold post. wpE_steps. by apply keeps_eq. Qed.

Lemma start_connection_keeps x e d s : inv0 x s ->
  wpT (start_connection e d) (fun _ s' => keeps x s s') s.
Proof.
  intros I. unfold start_connection. wpE_steps. set (s1 := set_Started _ _).
  assert (keeps x s s1) as K1 by (by apply keeps_eq).
  destruct (_ && _)%bool eqn:E.
  - bool_to_prop. wpE_steps.
    set (s2 := set_PreferredPartitionLocation _ s1).
    assert (keeps x s s2) as K2 by (eapply session_keeps_trans; [exact K1|apply keeps_eq; [apply K1|done..]]).
    wpE_call; [by apply (ConnectToPreferred_keeps x); [apply K2|..]|]. cbn beta. intros _ s3 K3.
    wpE_steps. keeps_tac.
  - eapply wpE_mono; [apply (post_keeps x), K1|]. cbn beta. intros _ s2 K2. keeps_tac.
Qed.

Lemma ProcessHandleResult_keeps x e r s : inv0 x s ->
  wpT (ProcessHandleResult e r) (fun _ s' => keeps x s s') s.
Proof.
  intros I. unfold ProcessHandleResult. destruct (DoRestart r); [by apply start_connection_keeps|].
  wpE_steps; [|by apply keeps_refl]. unfold SetInitSeqNoPromise. wpE_steps.
  destruct (InitSeqNoPromise s); [unfold wpE; cbn; set_solver|]. wpE_steps. by apply keeps_eq.
Qed.

Lemma error_keeps x (m : M ws THandleResult) s : inv0 x s ->
  (forall s, inv0 x s -> wpT m (fun _ s' => keeps x s s') s) ->
  wpT (r ← m; post (ToHandle r)) (fun _ s' => keeps x s s') s.
Proof.
  intros I Hm. wpE_call; [by apply Hm|]. cbn beta. intros r s1 K1.
  eapply wpE_mono; [apply (post_keeps x), K1|]. cbn beta. intros _ s2.
  by apply session_keeps_trans.
Qed.

Lemma OnWriteDone_keeps x e st g s : inv0 x s ->
  wpT (OnWriteDone e st g) (fun _ s' => keeps x s s') s.
Proof.
  intros I. unfold OnWriteDone. wpE_steps. destruct (negb _); [by apply keeps_refl|].
  destruct (Aborting s); [by apply keeps_refl|]. apply error_keeps; [done|]. intros s1 I1.
  destruct st; [by apply OnErrorImpl_keeps|by apply keeps_refl].
Qed.

(** [RestartImpl] and then the close of the session when it will not restart. *)
Lemma restart_or_close x e st status s : inv0 x s ->
  wpT (r ← RestartImpl e st; when (DoStop r) (CloseImpl status) ;; post (ToHandle r))
    (fun _ s' => keeps x s s') s.
Proof.
  intros I. wpE_call; [by apply (RestartImpl_spec x)|]. cbn beta. intros r s1 K1%keeps_connects.
  apply wpE_bind, wpE_mono with (P := fun _ s2 => keeps x s s2); [|cbn beta; intros _ s2 K2].
  - apply wpE_when; intros _; [|exact K1].
    eapply wpE_mono; [apply (CloseImpl_keeps x), K1|]. cbn beta. intros _ s2 K2. keeps_tac.
  - eapply wpE_mono; [apply (post_keeps x), K2|]. cbn beta. intros _ s3 K3. keeps_tac.
Qed.

Lemma clear_connect_keeps x s : inv0 x s -> wpT clear_connect (fun _ s' => keeps x s s') s.
Proof. intros I. unfold clear_connect. wpE_steps. by apply keeps_eq. Qed.

Lemma OnConnectTimeout_keeps x e c s : inv0 x s ->
  wpT (OnConnectTimeout e c) (fun _ s' => keeps x s s') s.
Proof.
  intros I. unfold OnConnectTimeout. wpE_steps. destruct (bool_decide _); [|by apply keeps_refl].
  wpE_call; [by apply (clear_connect_keeps x)|]. cbn beta. intros _ s1 K1.
  eapply wpE_mono; [apply (restart_or_close x), K1|]. cbn beta. intros _ s2 K2. keeps_tac.
Qed.

Lemma ReadFromProcessor_keeps x s : inv0 x s -> wpT ReadFromProcessor (fun _ s' => keeps x s s') s.
Proof.
  intros I. unfold ReadFromProcessor. wpE_steps. destruct (Aborting s); wpE_steps.
  - by apply keeps_refl.
  - by apply keeps_eq.
Qed.

Lemma OnConnect_keeps x e st c s : inv0 x s ->
  wpT (OnConnect e st c) (fun _ s' => keeps x s s') s.
Proof.
  intros I. unfold OnConnect. wpE_steps. destruct (bool_decide _); [|by apply keeps_refl].
  wpE_call; [by apply (clear_connect_keeps x)|]. cbn beta. intros _ s1 K1.
  destruct st as [st|].
  - eapply wpE_mono; [apply (restart_or_close x), K1|]. cbn beta. intros _ s2 K2. keeps_tac.
  - assert (wpT InitImpl (fun _ s2 => keeps x s1 s2) s1) as Hi.
    { unfold InitImpl, WriteToProcessorImpl, OnMemoryUsageChangedImpl. wpE_steps.
      destruct (Aborting s1) eqn:Ea; [apply keeps_refl, K1|].
      change (0 <=? 0) with true. change (negb (0 =? 0)) with false. wpE_steps; [done|].
      apply keeps_eq; [apply K1| |done|done]. unfold view. ws_cbn. by rewrite Z.add_0_r. }
    wpE_call; [exact Hi|]. cbn beta. intros _ s2 K2.
    eapply wpE_mono; [apply (post_keeps x), K2|]. cbn beta. intros _ s3 K3.
    assert (keeps x s s2) by keeps_tac. keeps_tac.
Qed.

Lemma settings_calm n cfg s : good n s ->
  BatchFlushMessageCount_ cfg = BatchFlushMessageCount_ (Settings s) ->
  MaxMemoryUsage_ cfg = MaxMemoryUsage_ (Settings s) -> calm n s (set_Settings cfg s).
Proof.
  intros [] E1 E2. split_and!; [|done|done|unfold limits; ws_cbn; congruence|by split; [|left]].
  split; try done.
  - destruct g_inv0. split; ws_cbn; try done; unfold block_wf; by rewrite E1.
  - unfold batch_ok, MaxBlockMessageCount in *. ws_cbn. rewrite E1.
    destruct g_batch0 as [B|(B1 & B2)]; [by left|right]. split; [|done].
    destruct B1. split; try done. unfold MaxBlockMessageCount in *. ws_cbn. by rewrite E1.
  - unfold awake. ws_cbn. by rewrite E2.
  - ws_cbn. by rewrite E1.
Qed.

Lemma OnDescribePartition_keeps x st part c s : inv0 x s ->
  wpT (OnDescribePartition st part c) (fun _ s' => keeps x s s') s.
Proof.
  intros I. unfold OnDescribePartition, post. wpE_steps. destruct (negb _); [by apply keeps_refl|].
  wpE_steps. by apply keeps_eq.
Qed.

Lemma UseDescription_calm n e st part s : good n s ->
  wpT (UseDescription e st part) (fun _ s' => calm n s s') s.
Proof.
  intros G. unfold UseDescription. wpE_steps.
  assert (forall st, wpT (r ← OnErrorImpl e st; post (ToHandle r)) (fun _ s' => calm n s s') s) as He.
  { intros st'. apply calm_call; [done|]. intros x I. apply error_keeps; [done|].
    intros. by apply OnErrorImpl_keeps. }
  destruct (negb _).
  { destruct (bool_decide _); [|apply He]. wpE_steps. set (s2 := set_Settings _ s).
    assert (calm n s s2) as C2 by (by apply settings_calm).
    wpE_call; [apply (calm_call _ n); [apply C2|intros x I; by apply OnErrorImpl_keeps]|].
    cbn beta. intros r s3 C3.
    eapply wpE_mono; [apply (calm_call _ n); [apply C3|intros x I; by apply post_keeps]|].
    cbn beta. intros _ s4 C4. eapply calm_trans; [exact C2|]. by eapply calm_trans; [exact C3|]. }
  destruct (partition_location part) as [[node gen]|]; [|apply He].
  destruct (match PartitionId_ _ with Some _ => _ | None => _ end); [apply He|].
  destruct (_ || _)%bool; [apply He|]. destruct (negb (known_node e)); [apply He|].
  apply calm_call; [done|]. intros x I. unfold post. wpE_steps. by apply keeps_eq.
Qed.

(** ** Posted tasks *)

Lemma frame_batch s s' : frame s s' -> batch_ok s -> batch_ok s'.
Proof.
  intros [R _] B. pose proof R as R'. unfold rest in R'. injection R' as R1 R2 R3 R4 R5 R6 R7 R8.
  destruct B as [B|(B1 & B2 & B3 & B4)]; [left; congruence|right].
  unfold MaxBlockMessageCount in *. rewrite <- R1, <- R3. split_and!; [|done..].
  by eapply flushable_rest.
Qed.

Lemma frame_ids s s' : frame s s' -> ids_bound s -> ids_bound s'.
Proof.
  intros [R [C _]] (N1 & N2 & N3). unfold rest in R. injection R as R1 R2 R3 R4 R5 R6 R7 R8.
  unfold ids_bound, pipeline in *. rewrite <- R3, <- R6, <- R7, <- R8. split_and!; [done|done|].
  intros Hm Ha. apply N3; [done|]. destruct (Aborting s); [|done]. by rewrite C in Ha.
Qed.

Lemma frame_calm n s s' : good n s -> inv0 (batch_bytes (CurrentBatch s)) s' -> frame s s' ->
  tokens n 0 s' -> awake s' -> calm n s s'.
Proof.
  intros [] I F T A. pose proof (frame_batch _ _ F g_batch0). pose proof (frame_ids _ _ F g_ids0).
  destruct F as [R C]. unfold rest in R. injection R as R1 R2 R3 R4 R5 R6 R7 R8.
  split_and!; [|unfold pipeline; congruence|done|unfold limits; congruence|done].
  split; [by rewrite <- R3|done..|by rewrite <- R1].
Qed.

Lemma sends_calm n s s' : good n s -> sends (batch_bytes (CurrentBatch s)) s s' -> calm n s s'.
Proof.
  intros G S. pose proof S as (I & (F & _) & _). apply frame_calm; [done|done|done| |].
  - eapply send_tokens; [exact S|apply (g_tokens _ _ G)].
  - eapply send_awake; [exact S|apply (g_awake _ _ G)].
Qed.

Lemma SendTask_calm n s : good n s -> wpT SendTask (fun _ s' => calm n s s') s.
Proof.
  intros G. unfold SendTask. wpE_steps. set (s1 := set_SendImplScheduled false s).
  assert (calm n s s1) as C1 by (apply keeps_calm, keeps_eq; [done|apply g_inv with n|..]; done).
  eapply wpE_mono; [apply SendImpl_spec, (g_inv n), C1|]. cbn beta. intros _ s2 S2.
  eapply calm_trans; [exact C1|]. apply sends_calm; [apply C1|exact S2].
Qed.

Lemma DeliverToken_calm n s : good n s -> wpT DeliverToken (fun _ s' => calm n s s') s.
Proof.
  intros G. unfold DeliverToken. wpE_steps. destruct (ScheduledTokens s) as [|k] eqn:Ek.
  { by apply calm_refl. }
  wpE_steps. set (s1 := set_ScheduledTokens k s).
  eapply wpE_mono; [apply (PushEvent_spec (batch_bytes (CurrentBatch s)) n)|].
  - destruct (g_inv _ _ G). by split.
  - destruct (g_tokens _ _ G) as [T1 T2]. unfold s1, tokens. ws_cbn. rewrite Ek in *. cbn [is_ready].
    split; [lia|]. intros C. specialize (T2 C). lia.
  - exact (g_awake _ _ G).
  - cbn beta. intros _ s2 (I2 & T2 & A2 & _ & F2). specialize (F2 eq_refl).
    apply frame_calm; [done|done| |done|done]. destruct F2. by split.
Qed.

Lemma CompressionDone_calm n i s : good n s -> wpT (CompressionDone i) (fun _ s' => calm n s s') s.
Proof.
  intros G. unfold CompressionDone. wpE_steps. destruct (Compressing s !! i) as [b|] eqn:Eb.
  2: by apply calm_refl.
  wpE_steps. set (s1 := set_Compressing (delete i (Compressing s)) s).
  assert (FirstTokenSent s = true) as Hf.
  { destruct (FirstTokenSent s) eqn:Hf; [done|].
    destruct (i_start _ _ (g_inv _ _ G) Hf) as (_ & _ & E & _). by rewrite E in Eb. }
  eapply wpE_mono; [apply (OnCompressed_spec (batch_bytes (CurrentBatch s)) n)|].
  - unfold in_flight, s1. ws_cbn.
    eapply inv0_view; [| |apply (inv0_compressing _ s (b :: delete i (Compressing s)))];
      [done|done| |apply (g_inv _ _ G)].
    symmetry. by apply delete_Permutation.
  - done.
  - exact (g_tokens _ _ G).
  - cbn beta. intros _ s2 (I2 & F2 & T2 & A2 & _). by apply frame_calm.
Qed.

Lemma request_inv x i m s : inv0 x s -> Requests s !! i = Some m -> FirstTokenSent s = true ->
  0 <= m <= MemoryUsage s /\
  inv0 x (set_MemoryUsage (MemoryUsage s - m) (set_Requests (delete i (Requests s)) s)).
Proof.
  intros I Ei Hf. pose proof (delete_Permutation _ _ _ Ei) as P.
  destruct (held_parts _ _ I) as (H1 & H2 & H3 & H4). destruct I.
  assert (0 <= m) as Hm by (rewrite Forall_forall in i_req; eapply i_req, list_elem_of_lookup_2, Ei).
  assert (Forall (Z.le 0) (delete i (Requests s))) as Hr.
  { rewrite P in i_req. by inversion i_req. }
  assert (0 <= sumZ (fun n => n) (delete i (Requests s))) by (by apply sumZ_nonneg).
  unfold held_memory in *. rewrite (sumZ_perm _ _ _ P), sumZ_cons in *.
  split; [lia|]. split; unfold held_memory; ws_cbn; try done.
  - lia.
  - intros Ha. specialize (i_mem_eq Ha). rewrite ?sumZ_cons in i_mem_eq. lia.
  - congruence.
Qed.

Lemma RequestDone_calm n i s : good n s -> wpT (RequestDone i) (fun _ s' => calm n s s') s.
Proof.
  intros G. unfold RequestDone. wpE_steps. destruct (Requests s !! i) as [m|] eqn:Ei.
  2: by apply calm_refl.
  assert (FirstTokenSent s = true) as Hf.
  { destruct (FirstTokenSent s) eqn:Hf; [done|].
    destruct (i_start _ _ (g_inv _ _ G) Hf) as (_ & _ & _ & E & _). by rewrite E in Ei. }
  destruct (request_inv _ _ _ _ (g_inv _ _ G) Ei Hf) as [Hm I1].
  wpE_steps. unfold OnWriteRequestDone. wpE_call; [by apply release_memory_spec|]. cbn beta.
  intros _ s1 E1. ws_cbn_in E1. subst s1. set (s1 := set_MemoryUsage _ _).
  wpE_call; [apply (TryIssue_spec (batch_bytes (CurrentBatch s)) n)|];
    [exact I1|done|exact (g_tokens _ _ G)|].
  cbn beta. intros r s2 (I2 & A2 & T2 & E2).
  assert (frame s s2) as F2 by (rewrite E2; split; [done|by split; [|left]]).
  wpE_steps; subst r; [|by apply frame_calm].
  eapply wpE_mono; [by apply (PushEvent_spec (batch_bytes (CurrentBatch s)) n)|].
  cbn beta. intros _ s3 (I3 & T3 & A3 & _ & F3). apply frame_calm; [done|done| |done|done].
  etrans; [exact F2|by apply F3].
Qed.
End Calls.
