(* ===== verification/WriteSessionSystem.v ===== *)
(** * Write session: the user's calls and the session as a step system

    Write, Flush, the wake-up, Close and the server's messages keep the invariant
    of [WriteSessionCalls]; [ws_step] is one call or callback of the session with
    what the user and the server promise; the theorems are about every run. *)

From S2P Require Import Prelude Status DeferredAck WriteTypes WriteSession WriteSessionInv.
From S2P Require Import WriteSessionCalls.

Definition acq (s : ws) : ws := set_CurrentBatch (snd (Acquire (CurrentBatch s))) s.

(** What writing out a batch ensures. *)
Definition flushes (n : nat) (s s' : ws) : Prop :=
  inv0 (batch_bytes (CurrentBatch s')) s' /\ batch_ok s' /\ outer_frame s s' /\ tokens n 0 s' /\
  wakes s s' /\
  (CurrentBatch s' = batch0 \/ Messages (CurrentBatch s') = Messages (CurrentBatch s)).

(** The message joins the batch unless its context differs. *)
Definition stays (s : ws) (m : TWriteMessage) : bool :=
  match Messages (CurrentBatch s) with
  | [] => false
  | front :: _ => context_eq (msg_Context front) (message_context m)
  end.

Definition switch_context `{WriteLibraries} (m : TWriteMessage) : M ws unit :=
  s ← get_st;
  if batch_Empty (CurrentBatch s) then mret tt
  else match Messages (CurrentBatch s) with
       | [] => abort "front of an empty vector"
       | front :: _ =>
           when (negb (context_eq (msg_Context front) (message_context m))) (WriteBatchImpl ;; mret tt)
       end.

Definition write_id (s : ws) (m : TWriteMessage) : Z :=
  match SeqNo_ m with Some k => k | None => NextId s + 1 end.

(** What the user promises of a Write: a token, a sequence number in the mode of
    the session, above those in flight and consecutive within a batch, and an
    encoded message only into an empty batch. *)
Record write_ok (n : nat) (s : ws) (m : TWriteMessage) : Prop := {
  w_token : (n < ready_count (Events s))%nat;
  w_next : NextId s + 1 < 2 ^ 64;
  w_mode : match SeqNo_ m with
           | None => AutoSeqNoMode s <> Some false
           | Some k => AutoSeqNoMode s <> Some true /\
                       default true (DeduplicationEnabled_ (Settings s)) = true /\
                       inU 64 k /\ Forall (fun i => i < k) (pipeline s)
           end;
  w_consecutive : is_Some (SeqNo_ m) \/ Aborting s = true -> stays s m = true ->
    forall j, last (batch_ids (CurrentBatch s)) = Some j -> write_id s m = j + 1;
  w_size : batch_bytes (CurrentBatch s) + bsize (Data m) < MaxBlockSize;
  w_codec : wm_Codec m = None \/ stays s m = false /\ 0 <= wm_OriginalSize m
}.

(** A batch with a message more, its payload acquired. *)
Definition joined (now : Z) (m : TMessage) (s : ws) : ws :=
  set_CurrentBatch (batch_Add now m (CurrentBatch s)) s.

(** A Write ends with the message accepted, or refused and the session closed. *)
Definition written (n : nat) (s : ws) (m : TWriteMessage) (s' : ws) : Prop :=
  good (S n) s' /\ acked_of (Events s') = acked_of (Events s) /\ closing s s' /\
  (pipeline s' = pipeline s ++ [write_id s m] \/
   pipeline s' = pipeline s /\ Aborting s' = true /\ is_Some (CloseEvent s')).

(** Everything of [good] but the bound on identifiers. *)
Definition almost (n : nat) (s : ws) : Prop :=
  inv0 (batch_bytes (CurrentBatch s)) s /\ batch_ok s /\ tokens n 0 s /\ awake s /\
  1 <= BatchFlushMessageCount_ (Settings s).

(** The state once the identifier is given. *)
Definition numbered (s : ws) (m : TWriteMessage) (s1 : ws) : ws :=
  set_AutoSeqNoMode (Some (bool_decide (SeqNo_ m = None))) (set_NextId (NextId s + 1) s1).

Definition message_of (now id : Z) (m : TWriteMessage) : TMessage :=
  mkMessage id (default now (CreateTimestamp_ m)) (Data m) (wm_Codec m) (wm_OriginalSize m)
    (MessageMeta_ m) (message_context m).

(** What the server promises: batching where the session batches, and
    acknowledgements of what was sent, in order. *)
Definition read_ok (s : ws) (msg : server_message) : Prop :=
  match msg with
  | InitResponse _ _ _ batching => BatchFlushMessageCount_ (Settings s) <= 1 \/ batching = true
  | WriteResponse acks => acks_match s acks (SentPackedMessage s)
  | _ => True
  end.

(** After a message was processed, with the events still to be pushed. *)
Definition processed (n : nat) (s : ws) (evs : list event) (s' : ws) : Prop :=
  inv0 (batch_bytes (CurrentBatch s')) s' /\ batch_ok s' /\ ids_bound s' /\ awake s' /\
  1 <= BatchFlushMessageCount_ (Settings s') /\ tokens n (ready_count evs) s' /\
  acked_of (Events s') = acked_of (Events s) /\ closing s s' /\
  pipeline s = acked_of evs ++ pipeline s' /\ (acked_of evs <> [] -> CloseEvent s' = CloseEvent s).

(** A call that acknowledges a part of what was written. *)
Definition progress (n : nat) (s s' : ws) : Prop :=
  good n s' /\ closing s s' /\ exists acked, pipeline s = acked ++ pipeline s' /\
    acked_of (Events s') = acked_of (Events s) ++ (if CloseEvent s is Some _ then [] else acked).

(** A session is established. *)
Definition established (s : ws) : ws :=
  let s' := set_SessionEstablished true s in
  if FirstTokenSent s then s' else set_FirstTokenSent true (set_ContinuationTokenIssued true s').

Section System.
Context `{WriteLaws}.

Lemma Acquire_messages b : Messages (snd (Acquire b)) = Messages b.
Proof. unfold Acquire. destruct (Acquired b); [done|]. by destruct (last _). Qed.

Lemma Acquire_flush b : FlushRequested (snd (Acquire b)) = FlushRequested b.
Proof. unfold Acquire. destruct (Acquired b); [done|]. by destruct (last _). Qed.

Lemma set_batch_id s : set_CurrentBatch (CurrentBatch s) s = s.
Proof. by destruct s. Qed.

Lemma flushable_acq s : flushable s -> acq s = s.
Proof.
  intros F. unfold acq. rewrite (Acquire_acquired _ (fl_acq _ F)). apply set_batch_id.
Qed.

Lemma batch0_ok s : CurrentBatch s = batch0 -> batch_bytes (CurrentBatch s) = 0.
Proof. by intros ->. Qed.

Lemma WriteBatch_flushes n s : flushable s -> inv0 (batch_bytes (CurrentBatch s)) s ->
  tokens n 0 s -> wpT WriteBatchImpl (fun _ s' => flushes n s s' /\ CurrentBatch s' = batch0) s.
Proof.
  intros F I T. wpE_call; [by apply (WriteBatchImpl_spec n)|]. cbn beta.
  intros _ s' (I' & O & B & T' & A).
  split; [|done]. split_and!; [by rewrite (batch0_ok s')|by left|done|done|done|by left].
Qed.

Lemma acq_facts s : batch_bytes (CurrentBatch (acq s)) = batch_bytes (CurrentBatch s) /\
  Messages (CurrentBatch (acq s)) = Messages (CurrentBatch s) /\ pipeline (acq s) = pipeline s.
Proof.
  unfold acq, pipeline, batch_bytes, batch_ids. ws_cbn. by rewrite Acquire_messages.
Qed.

Lemma FlushWriteIfRequired_spec n now s : flushable (acq s) ->
  FlushRequested (CurrentBatch s) = false -> inv0 (batch_bytes (CurrentBatch s)) s ->
  tokens n 0 s -> wpT (FlushWriteIfRequiredImpl now) (fun _ s' => flushes n s s') s.
Proof.
  intros F Hfr I T. destruct (acq_facts s) as (Eb & Em & Ep).
  unfold FlushWriteIfRequiredImpl. wpE_steps.
  assert (batch_Empty (CurrentBatch s) = false) as ->.
  { unfold batch_Empty. pose proof (fl_ne _ F) as Hne. rewrite Em in Hne.
    rewrite bool_decide_false by done. apply andb_false_r. }
  rewrite Hfr. cbn [orb]. destruct (Acquire (CurrentBatch s)) as [acquired batch] eqn:Ea.
  wpE_steps; (set (s1 := set_CurrentBatch _ _);
    assert (view s1 = view (acq s)) as Ev by (unfold acq; rewrite Ea; done);
    assert (CurrentBatch s1 = batch) as Eb1 by done;
    assert (flushable s1) as F1 by (eapply flushable_rest; [|exact F];
      unfold rest, pipeline0, acq; rewrite Ea; done);
    assert (inv0 (batch_bytes (CurrentBatch s1)) s1) as I1 by
      (eapply inv0_batch in I; rewrite Eb1; replace (batch_bytes batch) with
         (batch_bytes (CurrentBatch s)) by (rewrite <- Eb; unfold acq; by rewrite Ea);
       eapply inv0_view; [| |exact I]; done);
    assert (outer_frame s s1) as O1 by (split; [unfold outer|by split; [|left]];
      replace (pipeline s1) with (pipeline s) by (rewrite <- Ep; unfold acq; by rewrite Ea); done)).
  - eapply wpE_mono; [by apply (WriteBatch_flushes n s1)|]. cbn beta.
    intros _ s2 [(I2 & B2 & O2 & T2 & A2 & _) Hb0]. wpE_steps.
    split_and!; [done|done|by etrans|done|by etrans; [|exact A2]|by left].
  - bool_to_prop. split_and!; [done| |done|done|done|].
    + right. rewrite Eb1. unfold MaxBlockMessageCount in *. split_and!; [done|done| |].
      * destruct (fl_codec _ F1) as [Hp|(m & c & E1 & E2 & _)]; [done|].
        rewrite Eb1 in E1. unfold HasCodec in *. rewrite E1, E2 in *. done.
      * pose proof (Acquire_flush (CurrentBatch s)) as Hq. rewrite Ea in Hq. cbn in Hq. congruence.
    + right. rewrite Eb1, <- Em. unfold acq. by rewrite Ea.
Qed.

Lemma flushes_ids n s s' : flushes n s s' -> ids_bound s -> ids_bound s'.
Proof.
  intros (_ & _ & [O [C _]] & _ & _ & Hb) (H1 & H2 & H3). unfold outer in O.
  injection O as O1 O2 O3 O4 O5 O6 O7. unfold ids_bound. rewrite <- O5, <- O6, <- O7.
  split_and!; [done|done|]. intros Hm Ha Hne. destruct Hb as [Hb|Hb]; [by rewrite Hb in Hne|].
  unfold batch_ids. rewrite Hb. apply H3; [done| |congruence].
  destruct (Aborting s); [|done]. by rewrite C in Ha.
Qed.

Lemma flushes_calm n s s' : good n s -> flushes n s s' -> calm n s s'.
Proof.
  intros G Fl. pose proof (flushes_ids _ _ _ Fl (g_ids _ _ G)) as Hids.
  destruct Fl as (I & B & [O C] & T & A & _). unfold outer in O.
  injection O as O1 O2 O3 O4 O5 O6 O7.
  split_and!; [split; try done|done|done|unfold limits; congruence|done].
  - apply A, (g_awake _ _ G).
  - rewrite <- O1. apply (g_count _ _ G).
Qed.

Lemma flush_at_rest n now s : good n s ->
  wpT (FlushWriteIfRequiredImpl now) (fun _ s' => calm n s s') s.
Proof.
  intros G. destruct (g_batch _ _ G) as [B|(F & _ & _ & Hf)].
  - unfold FlushWriteIfRequiredImpl. wpE_steps. rewrite B. cbn. by apply calm_refl.
  - eapply wpE_mono; [apply (FlushWriteIfRequired_spec n)|].
    + by rewrite flushable_acq.
    + done.
    + apply (g_inv _ _ G).
    + apply (g_tokens _ _ G).
    + cbn beta. intros _ s'. by apply flushes_calm.
Qed.

Lemma write_out_batch n s : good n s ->
  wpT (when (negb (batch_Empty (CurrentBatch s))) (WriteBatchImpl ;; mret tt))
    (fun _ s' => calm n s s' /\ CurrentBatch s' = batch0) s.
Proof.
  intros G. destruct (g_batch _ _ G) as [B|(F & _)].
  - rewrite B. cbn. by split; [apply calm_refl|].
  - apply wpE_when; intros E.
    + wpE_call; [apply (WriteBatch_flushes n); [done|apply G|apply G]|]. cbn beta.
      intros _ s' [Fl B]. wpE_steps. split; [by apply flushes_calm|done].
    + apply negb_false_iff in E. unfold batch_Empty in E. bool_to_prop.
      by destruct (fl_ne _ F).
Qed.

(** ** Flush, the wake-up, start and close *)

Lemma back_promise_ids next l p l' : back_promise next l = Some (p, l') -> Id <$> l' = Id <$> l.
Proof.
  unfold back_promise. destruct (last l) as [m|] eqn:El; [|done].
  apply last_Some in El as [l0 ->].
  destruct (FlushPromise m); intros [= <- <-]; [done|].
  rewrite length_app, take_app_length' by (cbn; lia). by rewrite !fmap_app.
Qed.

Lemma Flush_calm n s : good n s -> wpT Flush (fun _ s' => calm n s s') s.
Proof.
  intros G. unfold Flush. wpE_steps. destruct (Aborting s); [by apply calm_refl|].
  apply wpE_bind. eapply wpE_mono; [by apply (write_out_batch n)|]. cbn beta.
  intros _ s1 [C1 _]. wpE_steps.
  assert (forall s2, view s2 = view s1 -> Aborting s2 = Aborting s1 ->
    CloseEvent s2 = CloseEvent s1 -> calm n s s2) as Hc.
  { intros s2 V A C. eapply calm_trans; [exact C1|]. apply keeps_calm; [apply C1|].
    apply keeps_eq; [apply g_inv with n, C1|done..]. }
  destruct (back_promise _ (OriginalMessagesToSend s1)) as [[p l]|] eqn:E1; wpE_steps.
  - apply Hc; try done. apply back_promise_ids in E1. unfold view. ws_cbn. by rewrite E1.
  - destruct (back_promise _ (SentOriginalMessages s1)) as [[p l]|] eqn:E2; wpE_steps; [|done].
    apply Hc; try done. apply back_promise_ids in E2. unfold view. ws_cbn. by rewrite E2.
Qed.

Lemma UpdateToken_calm n (m : M ws unit) s : good n s -> (forall s, wpT m (fun _ s' => quiet s s') s) ->
  wpT m (fun _ s' => calm n s s') s.
Proof.
  intros G Hm. apply calm_call; [done|]. intros x I. eapply wpE_mono; [apply Hm|]. cbn beta.
  intros _ s' Q. by apply quiet_keeps.
Qed.

Lemma HandleWakeUp_calm n now s : good n s ->
  wpT (HandleWakeUpImpl now) (fun _ s' => calm n s s') s.
Proof.
  intros G. unfold HandleWakeUpImpl. wpE_call; [by apply (flush_at_rest n)|]. cbn beta.
  intros _ s1 C1. wpE_steps; [|done].
  set (s2 := set_LastTokenUpdate now s1).
  assert (calm n s1 s2) as C2 by (apply keeps_calm, keeps_eq; try done; [apply C1|apply g_inv with n, C1]).
  wpE_call; [apply (UpdateToken_calm n); [apply C2|apply UpdateTokenIfNeededImpl_quiet]|].
  cbn beta. intros _ s3 C3. eapply calm_trans; [exact C1|]. eapply calm_trans; [exact C2|exact C3].
Qed.

Lemma SetInitSeqNoPromise_keeps x v s : inv0 x s ->
  wpT (SetInitSeqNoPromise v) (fun _ s' => keeps x s s') s.
Proof.
  intros I. unfold SetInitSeqNoPromise. wpE_steps.
  destruct (InitSeqNoPromise s); [unfold wpE; cbn; set_solver|]. wpE_steps. by apply keeps_eq.
Qed.

Lemma CloseEnd_keeps x s : inv0 x s -> wpT CloseEnd (fun _ s' => keeps x s s') s.
Proof.
  intros I. unfold CloseEnd. wpE_call; [by apply (CloseImpl_keeps x)|]. cbn beta. intros _ s1 K1.
  wpE_steps; [|done]. set (s2 := set_InitSeqNoSetDone true s1).
  assert (keeps x s1 s2) as K2 by (apply keeps_eq; [apply K1|done..]).
  assert (keeps x s s2) as K by keeps_tac.
  wpE_call; [apply (SetInitSeqNoPromise_keeps x), K2|]. cbn beta. intros _ s3 K3. wpE_steps. keeps_tac.
Qed.

Lemma Destroy_keeps x s : inv0 x s -> wpT Destroy (fun _ s' => keeps x s s') s.
Proof.
  intros I. unfold Destroy. wpE_steps; [|by apply keeps_refl].
  wpE_call; [by apply (CloseImpl_keeps x)|]. cbn beta. intros _ s1 K1.
  wpE_steps; [|done]. set (s2 := set_InitSeqNoSetDone true s1).
  assert (keeps x s1 s2) as K2 by (apply keeps_eq; [apply K1|done..]).
  assert (keeps x s s2) as K by keeps_tac.
  wpE_call; [apply (SetInitSeqNoPromise_keeps x), K2|]. cbn beta. intros _ s3 K3. keeps_tac.
Qed.

Lemma CloseBegin_calm n s : good n s -> wpT CloseBegin (fun _ s' => calm n s s') s.
Proof.
  intros G. unfold CloseBegin. wpE_steps. destruct (Aborting s); [by apply calm_refl|].
  eapply wpE_mono; [by apply (write_out_batch n)|]. cbn beta. by intros _ s1 [C1 _].
Qed.

Lemma InitWriter_limits guid c c' : InitWriter guid c = inr c' ->
  BatchFlushMessageCount_ c' = BatchFlushMessageCount_ c /\ MaxMemoryUsage_ c' = MaxMemoryUsage_ c.
Proof.
  unfold InitWriter. intros E.
  repeat match type of E with
  | context [match ?x with _ => _ end] => destruct x eqn:?; try discriminate
  end; simplify_eq; cbn; try done;
  repeat match goal with
  | Hx : context [match ?x with _ => _ end] |- _ => destruct x eqn:?; try discriminate
  end; simplify_eq; done.
Qed.

Lemma Start_calm n e guid d s : good n s -> wpT (Start e guid d) (fun _ s' => calm n s s') s.
Proof.
  intros G. unfold Start. wpE_steps.
  assert (forall s1, calm n s s1 -> wpT (start_connection e d) (fun _ s' => calm n s s') s1) as Hs.
  { intros s1 C1. wpE_call; [apply (calm_call _ n); [apply C1|intros; by apply start_connection_keeps]|].
    cbn beta. intros _ s2 C2. eapply calm_trans; [exact C1|exact C2]. }
  destruct (Started s); [wpE_call; [by apply Hs, calm_refl|done]|].
  destruct (negb _).
  - wpE_call; [apply (calm_call _ n); [done|intros; by apply CloseImpl_keeps]|].
    cbn beta. intros _ s1 C1. by wpE_steps.
  - wpE_call; [by apply (HandleWakeUp_calm n)|]. cbn beta. intros _ s1 C1.
    destruct (InitWriter _ _) as [exn|cfg] eqn:Ei; wpE_steps; [done|].
    apply InitWriter_limits in Ei as [E1 E2]. pose proof C1 as (G1 & _ & _ & L1 & _).
    unfold limits in L1. injection L1 as L1 L2.
    eapply wpE_mono; [apply Hs|done].
    eapply calm_trans; [exact C1|]. apply settings_calm; [done|congruence..].
Qed.

(** ** Write *)

Lemma tokens_shift n s : tokens n 0 s <-> tokens (S n) 1 s.
Proof. unfold tokens. split; intros [T1 T2]; (split; [lia|intros C; specialize (T2 C); lia]). Qed.

Lemma inv0_add x d s : inv0 x s -> 0 <= d -> inv0 (x + d) (set_MemoryUsage (MemoryUsage s + d) s).
Proof.
  intros [] Hd. split; unfold held_memory in *; ws_cbn; try done; try lia.
  intros Ha. rewrite (i_mem_eq Ha). lia.
Qed.

Lemma flushes_refl n s : good n s -> flushes n s s.
Proof. intros []. split_and!; [done|done|done|done|done|by right]. Qed.

Lemma switch_context_spec n m s : good n s -> wpT (switch_context m) (fun _ s' =>
  flushes n s s' /\ if stays s m then s' = s else CurrentBatch s' = batch0) s.
Proof.
  intros G. unfold switch_context, stays. wpE_steps. destruct (g_batch _ _ G) as [B|(F & _)].
  - rewrite B. cbn. split; [by apply flushes_refl|done].
  - pose proof (fl_ne _ F) as Hne.
    assert (batch_Empty (CurrentBatch s) = false) as ->.
    { unfold batch_Empty. rewrite bool_decide_false by done. apply andb_false_r. }
    destruct (Messages (CurrentBatch s)) as [|front l] eqn:Em; [done|].
    destruct (context_eq _ _); cbn [negb when]; wpE_steps; [split; [by apply flushes_refl|done]|].
    eapply wpE_mono; [apply (WriteBatch_flushes n); [done|apply G|apply G]|]. cbn beta.
    intros _ s' Fl. by wpE_steps.
Qed.

Lemma track_write_spec id ctx s : wpT (track_write id ctx) (fun ok s' =>
  (ok = true /\ same s s') \/
  (ok = false /\ quiet s s' /\ Aborting s' = true /\ is_Some (CloseEvent s'))) s.
Proof.
  destruct ctx as [|t|d]; unfold track_write.
  - wpE_steps. by left.
  - assert (tracking (g ← GetOrCreateTxInfo t; i ← get_txinfo g;
      put_txinfo g (mkTxInfo (IsActive i) (Subscribed i) (tx_AllAcksReceived i) (CommitCalled i)
        (u64 (tx_WriteCount i + 1)) (tx_AckCount i)) ;;
      modify (fun s => set_WrittenInTx (<[id := t]> (WrittenInTx s)) s))) as Ht by tracking.
    specialize (Ht s). unfold wpE, mbind, M_bind in *.
    destruct (GetOrCreateTxInfo t s) as [[g s1]|]; [|done].
    destruct (get_txinfo g s1) as [[i s2]|]; [|done].
    destruct (put_txinfo g _ s2) as [[u s3]|]; [|done]. cbn in *. by left.
  - wpE_call; [apply tracking_on_tracker, TryOnWrite_failure|]. cbn beta. intros ok s1 S1.
    destruct ok; cbn [negb]; wpE_steps.
    + left. split; [done|]. etrans; [exact S1|]. done.
    + wpE_call; [apply CloseImpl_quiet|]. cbn beta. intros _ s2 (Q & A & C). wpE_steps.
      right. split_and!; [done| |done|by rewrite C]. etrans; [by apply same_quiet|done].
Qed.

Lemma GetNextId_spec n s m s1 : good n s -> write_ok n s m -> outer s1 = outer s ->
  wpT (GetNextIdImpl (SeqNo_ m)) (fun r s2 => r = inr (write_id s m) /\
    s2 = set_AutoSeqNoMode (Some (bool_decide (SeqNo_ m = None))) (set_NextId (NextId s + 1) s1)) s1.
Proof.
  intros G W O. unfold outer in O. injection O as O1 O2 O3 O4 O5 O6 O7.
  destruct (g_ids _ _ G) as [Hn _]. unfold GetNextIdImpl, write_id.
  pose proof (w_mode _ _ _ W) as Hm. pose proof (w_next _ _ _ W) as Hx.
  wpE_steps. rewrite O1, O5, O6, wrapU_small by (unfold inU; lia).
  destruct (SeqNo_ m) as [k|].
  - destruct Hm as (Ha & Hd & _). rewrite Hd. cbn [negb].
    destruct (AutoSeqNoMode s) as [[]|]; cbn; wpE_steps; done.
  - destruct (AutoSeqNoMode s) as [[]|]; cbn; wpE_steps; done.
Qed.

(** The identifier is new, and the next one of the batch it joins. *)
Lemma write_id_facts n s m : good n s -> write_ok n s m ->
  inU 64 (write_id s m) /\ Forall (fun i => i < write_id s m) (pipeline s) /\
  (stays s m = true -> forall j, last (batch_ids (CurrentBatch s)) = Some j -> write_id s m = j + 1).
Proof.
  intros G W. pose proof (w_mode _ _ _ W) as Hm. pose proof (w_next _ _ _ W) as Hx.
  pose proof (w_consecutive _ _ _ W) as Hc. destruct (g_ids _ _ G) as (Hn & Hb & Hl).
  unfold write_id in *. destruct (SeqNo_ m) as [k|].
  - destruct Hm as (_ & _ & ? & ?). split_and!; [done|done|]. apply Hc. by left.
  - assert (pipeline s <> [] -> AutoSeqNoMode s = Some true) as Ha.
    { intros Hne. assert (is_Some (AutoSeqNoMode s)) as [[] ?]; [|done|done].
      destruct (g_batch _ _ G) as [B|[F _]]; [|apply (fl_mode _ F)].
      apply (i_ready _ _ (g_inv _ _ G)). intros E. apply Hne. unfold pipeline. by rewrite E, B. }
    split_and!; [unfold inU; lia| |].
    + destruct (pipeline s) as [|i l] eqn:Ep; [done|]. rewrite <- Ep in *.
      eapply Forall_impl; [apply Hb, Ha; by rewrite Ep|]. cbn. intros; lia.
    + intros Hs j Hj. destruct (Aborting s) eqn:Eab; [apply Hc; [by right|done|done]|].
      assert (Messages (CurrentBatch s) <> []) as Hne.
      { unfold stays in Hs. by destruct (Messages (CurrentBatch s)). }
      rewrite Hl in Hj; [congruence| |done|done].
      apply Ha. unfold pipeline. intros E. apply app_nil in E as [_ E]. unfold batch_ids in E.
      by destruct (Messages (CurrentBatch s)).
Qed.

Lemma joined_bytes now m s : batch_bytes (CurrentBatch (joined now m s)) =
  batch_bytes (CurrentBatch s) + bsize (DataRef m).
Proof.
  unfold joined, batch_bytes. ws_cbn. cbn [batch_Add Messages]. rewrite sumZ_app. cbn. lia.
Qed.

Lemma joined_pipeline now m s : pipeline (joined now m s) = pipeline s ++ [msg_Id m].
Proof.
  unfold pipeline, batch_ids, joined. ws_cbn. cbn [batch_Add Messages].
  rewrite fmap_app. cbn. by rewrite app_assoc.
Qed.

Lemma joined_acq now m s : snd (Acquire (CurrentBatch (joined now m s))) =
  mkBatch (batch_Data (CurrentBatch s) ++ DataRef m) (Messages (CurrentBatch s) ++ [m])
    (CurrentSize (batch_Add now m (CurrentBatch s))) (StartedAt (batch_Add now m (CurrentBatch s)))
    true (FlushRequested (CurrentBatch s)).
Proof.
  unfold joined. ws_cbn. unfold Acquire. cbn [batch_Add Acquired Messages]. by rewrite last_snoc.
Qed.

Lemma sorted_snoc l x : StronglySorted Z.lt l -> Forall (fun i => i < x) l ->
  StronglySorted Z.lt (l ++ [x]).
Proof.
  induction 1 as [|y l Hs IH Hy]; intros Hf; [by repeat constructor|].
  inversion Hf; subst. cbn. constructor; [auto|]. apply Forall_app. by repeat constructor.
Qed.

Lemma joined_flushable now m s : inv0 (batch_bytes (CurrentBatch s)) s -> batch_ok s ->
  1 <= BatchFlushMessageCount_ (Settings s) -> FirstTokenSent s = true ->
  is_Some (AutoSeqNoMode s) -> inU 64 (msg_Id m) -> Forall (fun i => i < msg_Id m) (pipeline s) ->
  (forall j, last (batch_ids (CurrentBatch s)) = Some j -> msg_Id m = j + 1) ->
  batch_bytes (CurrentBatch s) + bsize (DataRef m) < MaxBlockSize ->
  (msg_Codec m = None \/ CurrentBatch s = batch0 /\ 0 <= msg_OriginalSize m) ->
  flushable (acq (joined now m s)).
Proof.
  intros I B Hcount Hf Ha Hid Hlt Hc Hsize Hcodec.
  assert (StronglySorted Z.lt (pipeline s)) as Hinc.
  { destruct B as [B|[F _]]; [|apply (fl_inc _ F)]. unfold pipeline. rewrite B. cbn.
    rewrite app_nil_r. apply (i_inc _ _ I). }
  assert (pipeline (acq (joined now m s)) = pipeline s ++ [msg_Id m]) as Hp.
  { rewrite (proj2 (proj2 (acq_facts _))). apply joined_pipeline. }
  assert (batch_bytes (CurrentBatch (acq (joined now m s))) =
    batch_bytes (CurrentBatch s) + bsize (DataRef m)) as Hbytes.
  { rewrite (proj1 (acq_facts _)). apply joined_bytes. }
  split; rewrite ?Hp, ?Hbytes; unfold acq; rewrite ?joined_acq; unfold batch_ids, MaxBlockMessageCount;
    ws_cbn; cbn [Messages Acquired batch_Data]; try done.
  - by destruct (Messages (CurrentBatch s)).
  - rewrite length_app. cbn. destruct B as [B|(_ & B & _)]; [rewrite B; cbn; lia|].
    unfold MaxBlockMessageCount in B. lia.
  - rewrite fmap_app, concat_app. cbn. rewrite app_nil_r. f_equal.
    destruct B as [B|[F _]]; [by rewrite B|apply (fl_data _ F)].
  - destruct (msg_Codec m) as [c|] eqn:Ec.
    + destruct Hcodec as [?|[B0 ?]]; [done|]. right. exists m, c. by rewrite B0.
    + left. apply Forall_app. split; [|by repeat constructor].
      destruct B as [B|(_ & _ & B & _)]; [by rewrite B|done].
  - rewrite fmap_app, length_app. cbn. destruct B as [B|[F _]].
    + exists (msg_Id m). by rewrite B.
    + destruct (fl_ids _ F) as [i Hi]. exists i. rewrite Nat2Z.inj_add. unfold batch_ids in Hi.
      rewrite Hi, seqZ_app by lia. f_equal. rewrite seqZ_cons by lia. cbn. f_equal.
      assert (1 <= Z.of_nat (length (Messages (CurrentBatch s)))).
      { pose proof (fl_ne _ F). destruct (Messages (CurrentBatch s)); [done|]. cbn. lia. }
      rewrite (Hc (i + Z.of_nat (length (Messages (CurrentBatch s))) - 1)); [lia|].
      unfold batch_ids. rewrite Hi, last_lookup, length_seqZ. apply lookup_seqZ. lia.
  - by apply sorted_snoc.
  - rewrite fmap_app. apply Forall_app. split; [|by apply Forall_singleton].
    destruct B as [B|[F _]]; [by rewrite B|apply (fl_range _ F)].
  - split; [done|]. by apply (i_init _ _ I).
Qed.

Lemma tokens_closed n s : tokens n 0 s -> is_Some (CloseEvent s) -> tokens (S n) 0 s.
Proof. intros [T1 T2] [c C]. split; [lia|congruence]. Qed.

Lemma token_held n s : good n s -> (n < ready_count (Events s))%nat ->
  ContinuationTokenIssued s = true /\ FirstTokenSent s = true.
Proof.
  intros G Hn. destruct (g_tokens _ _ G) as [T _].
  assert (ContinuationTokenIssued s = true) as Hi by (destruct (ContinuationTokenIssued s); [done|lia]).
  split; [done|]. destruct (FirstTokenSent s) eqn:Hf; [done|].
  destruct (i_start _ _ (g_inv _ _ G) Hf) as (_ & _ & _ & _ & ? & _). congruence.
Qed.

(** The refused write: the session closed. *)
Lemma refused_written n s m s' : good n s' -> pipeline s' = pipeline s ->
  acked_of (Events s') = acked_of (Events s) -> closing s s' -> Aborting s' = true ->
  is_Some (CloseEvent s') -> written n s m s'.
Proof.
  intros G P A C Ha Hc. split_and!; [|done|done|by right]. destruct G. split; try done.
  by apply tokens_closed.
Qed.

(** From the batch with the new message to the end of the call. *)
Lemma write_tail n now s : inv0 (batch_bytes (CurrentBatch s)) s -> flushable (acq s) ->
  FlushRequested (CurrentBatch s) = false -> tokens (S n) 0 s -> ids_bound s ->
  1 <= BatchFlushMessageCount_ (Settings s) -> FirstTokenSent s = true ->
  wpT (readyToAccept ← TryIssueContinuationTokenImpl;
       FlushWriteIfRequiredImpl now ;;
       when readyToAccept (PushEvent ReadyToAcceptEvent) ;;
       mret (None (A:=string)))
    (fun r s' => r = None /\ good (S n) s' /\ outer_frame s s') s.
Proof.
  intros I F Hfr T Hids Hcount Hf.
  wpE_call; [by apply (TryIssue_spec (batch_bytes (CurrentBatch s)) (S n))|]. cbn beta.
  intros r s1 (I1 & A1 & T1 & E1).
  assert (tokens (if r then n else S n) 0 s1) as T1'.
  { destruct r; [by apply tokens_shift|done]. }
  assert (outer_frame s s1) as O1 by (rewrite E1; split; [done|by split; [|left]]).
  wpE_call; [apply (FlushWriteIfRequired_spec (if r then n else S n))|].
  - rewrite E1. eapply flushable_rest; [|exact F]. done.
  - by rewrite E1.
  - rewrite E1. by rewrite E1 in I1.
  - done.
  - cbn beta. intros _ s2 Fl.
    assert (ids_bound s2) as Hids2.
    { eapply flushes_ids; [exact Fl|]. rewrite E1. exact Hids. }
    destruct Fl as (I2 & B2 & O2 & T2 & W2 & _).
    assert (outer_frame s s2) as O by (by etrans).
    assert (1 <= BatchFlushMessageCount_ (Settings s2)) as Hcount2.
    { destruct O as [O _]. unfold outer in O. injection O as O ? ? ? ? ? ?. by rewrite <- O. }
    assert (awake s2) as A2 by (by apply W2).
    destruct r; cbn [when]; wpE_steps; [|split_and!; [done|by split|done]].
    apply tokens_shift in T2.
    wpE_call; [by apply (PushEvent_spec (batch_bytes (CurrentBatch s2)) (S n))|]. cbn beta.
    intros _ s3 (I3 & T3 & A3 & _ & F3). specialize (F3 eq_refl). wpE_steps.
    assert (outer_frame s s3) as O3 by (etrans; [exact O|by apply frame_outer]).
    pose proof (frame_batch _ _ F3 B2). pose proof (frame_ids _ _ F3 Hids2).
    destruct F3 as [R _]. unfold rest in R. injection R as R1 R2 R3 R4 R5 R6 R7 R8.
    split_and!; [done|split; try done; [by rewrite <- R3|by rewrite <- R1]|done].
Qed.

Lemma almost_quiet n s s' : quiet s s' -> almost n s -> almost n s'.
Proof.
  intros Q (I & B & T & A & Hc). pose proof (quiet_sends _ _ _ Q I) as S.
  pose proof S as (I' & (F & _) & _). pose proof (frame_batch _ _ F B) as B'.
  pose proof F as [R _]. unfold rest in R. injection R as R1 R2 R3 R4 R5 R6 R7 R8.
  split_and!; [by rewrite <- R3|done|by eapply send_tokens|by eapply send_awake|by rewrite <- R1].
Qed.

Lemma numbered_almost n s m s1 : almost n s1 -> almost n (numbered s m s1).
Proof.
  intros (I & B & T & A & Hc). split_and!; [| |done|done|done].
  - destruct I. split; ws_cbn; try done. intros Hp. split; [done|]. by apply i_ready.
  - destruct B as [B|(B1 & B2)]; [by left|right]. split; [|done]. destruct B1.
    split; try done. ws_cbn. by destruct fl_mode.
Qed.

Lemma numbered_ids n s m s1 : good n s -> write_ok n s m -> pipeline s1 = pipeline s ->
  0 <= NextId (numbered s m s1) /\ (AutoSeqNoMode (numbered s m s1) = Some true ->
    write_id s m = NextId (numbered s m s1) /\
    Forall (fun i => i <= NextId (numbered s m s1)) (pipeline (numbered s m s1))).
Proof.
  intros G W P. destruct (write_id_facts _ _ _ G W) as (_ & Hlt & _).
  destruct (g_ids _ _ G) as [Hn _]. unfold numbered. ws_cbn. split; [lia|].
  change (pipeline (set_AutoSeqNoMode _ _)) with (pipeline s1). rewrite P.
  unfold write_id in *. destruct (SeqNo_ m); [done|]. intros _. split; [done|].
  eapply Forall_impl; [exact Hlt|]. cbn. intros; lia.
Qed.

(** An accepted message: into the batch, and out of it when it is due. *)
Lemma write_accepted n now id m s : almost n s -> FirstTokenSent s = true ->
  ContinuationTokenIssued s = true -> is_Some (AutoSeqNoMode s) -> inU 64 id ->
  Forall (fun i => i < id) (pipeline s) ->
  (forall j, last (batch_ids (CurrentBatch s)) = Some j -> id = j + 1) ->
  0 <= NextId s -> (AutoSeqNoMode s = Some true ->
    id = NextId s /\ Forall (fun i => i <= NextId s) (pipeline s)) ->
  batch_bytes (CurrentBatch s) + bsize (Data m) < MaxBlockSize ->
  (wm_Codec m = None \/ CurrentBatch s = batch0 /\ 0 <= wm_OriginalSize m) ->
  wpT (modify (fun s => joined now (message_of now id m) s) ;;
       modify (set_ContinuationTokenIssued false) ;;
       OnMemoryUsageChangedImpl (bsize (Data m)) ;;
       readyToAccept ← TryIssueContinuationTokenImpl;
       FlushWriteIfRequiredImpl now ;;
       when readyToAccept (PushEvent ReadyToAcceptEvent) ;;
       mret (None (A:=string)))
    (fun r s' => r = None /\ good (S n) s' /\ acked_of (Events s') = acked_of (Events s) /\
       closing s s' /\ pipeline s' = pipeline s ++ [id]) s.
Proof.
  intros (I & B & T & A & Hc) Hf Hi Ha Hid Hlt Hcons Hn Hauto Hsize Hcodec.
  assert (flushable (acq (joined now (message_of now id m) s))) as Hfl by (by apply joined_flushable).
  unfold OnMemoryUsageChangedImpl. wpE_steps.
  rewrite (proj2 (Z.leb_le _ _)) by (unfold bsize; lia). wpE_steps.
  set (s5 := set_MemoryUsage _ _).
  assert (pipeline s5 = pipeline s ++ [id]) as P5 by (apply (joined_pipeline now (message_of now id m))).
  apply wpE_unbind. eapply wpE_mono; [apply (write_tail n now s5)|].
  - replace (batch_bytes (CurrentBatch s5)) with (batch_bytes (CurrentBatch s) + bsize (Data m))
      by (symmetry; apply (joined_bytes now (message_of now id m))).
    apply (inv0_add _ (bsize (Data m))) in I; [|unfold bsize; lia].
    destruct I; split; try done. intros F. change (FirstTokenSent s = false) in F. congruence.
  - eapply flushable_rest; [|exact Hfl]. done.
  - unfold s5, joined. ws_cbn. cbn. destruct B as [B|(_ & _ & _ & B)]; [by rewrite B|done].
  - destruct T as [T1 T2]. rewrite Hi in *. unfold tokens, s5, joined. ws_cbn. split; [lia|].
    intros C. specialize (T2 C). lia.
  - unfold ids_bound. rewrite P5. split_and!; [done| |].
    + intros Hm. destruct (Hauto Hm) as [-> Hall]. apply Forall_app. split; [done|].
      by apply Forall_singleton.
    + intros Hm _ _. destruct (Hauto Hm) as [-> _]. unfold s5, joined, batch_ids. ws_cbn.
      cbn [batch_Add Messages]. rewrite fmap_app. apply last_snoc.
  - done.
  - done.
  - cbn beta. intros r s' (-> & G & [O C]). unfold outer in O. injection O as O1 O2 O3 O4 O5 O6 O7.
    split_and!; [done|done|done|exact C|]. by rewrite <- O7.
Qed.

Lemma WriteInternal_spec n now s m : good n s -> write_ok n s m ->
  wpT (WriteInternal now m) (fun r s' => r = None /\ written n s m s') s.
Proof.
  intros G W. destruct (token_held _ _ G (w_token _ _ _ W)) as [Hi Hf].
  destruct (write_id_facts _ _ _ G W) as (Hid & Hlt & Hcons).
  unfold WriteInternal. destruct (bool_decide _).
  2: { wpE_call; [apply CloseImpl_quiet|]. cbn beta. intros _ s1 (Q & A & C). wpE_steps.
       split; [done|]. apply quiet_keeps with (x := batch_bytes (CurrentBatch s)) in Q; [|apply G].
       apply (keeps_calm n) in Q as (G1 & P1 & E1 & _ & C1); [|done].
       apply refused_written; [done..|by rewrite C]. }
  wpE_steps. wpE_call; [exact (switch_context_spec n m s G)|]. cbn beta. intros _ s1 [Fl Hs].
  pose proof (flushes_calm _ _ _ G Fl) as (G1 & P1 & E1 & _ & C1).
  destruct Fl as (_ & _ & [O1 _] & _ & [_ W1] & _). specialize (W1 Hi).
  wpE_call; [apply TrySubscribe_tracking|]. cbn beta. intros _ s2 S2.
  assert (outer s2 = outer s) as O2 by (rewrite (same_proj outer _ _ S2); done).
  assert (pipeline s2 = pipeline s) as P2 by (unfold outer in O2; congruence).
  wpE_call; [by apply (GetNextId_spec n s m s2)|]. cbn beta. intros r s3 [-> E3].
  fold (numbered s m s2) in E3.
  assert (almost n s3) as A3.
  { rewrite E3. apply numbered_almost. apply same_quiet in S2. eapply almost_quiet; [exact S2|].
    by destruct G1. }
  destruct (numbered_ids _ _ _ _ G W P2) as [N1 N2]. rewrite <- E3 in N1, N2.
  assert (pipeline s3 = pipeline s /\ acked_of (Events s3) = acked_of (Events s) /\ closing s s3) as
    (P3 & K3 & C3).
  { apply same_quiet in S2 as [V2 C2]. unfold outer in O2. split_and!; [by rewrite E3|rewrite E3|].
    - change (acked_of (Events s2) = acked_of (Events s)). congruence.
    - etrans; [exact C1|]. etrans; [exact C2|]. rewrite E3. by split; [|left]. }
  wpE_call; [apply track_write_spec|]. cbn beta. intros ok s4 [[-> S4]|(-> & Q4 & A4 & C4)].
  2: { cbn [negb]. wpE_steps. split; [done|]. pose proof (almost_quiet _ _ _ Q4 A3) as (? & ? & ? & ? & ?).
       destruct (quiet_send _ _ Q4) as ([R4 K4] & _). unfold rest in R4.
       injection R4 as R1 R2 R3 R4 R5 R6 R7 R8.
       assert (pipeline s4 = pipeline s3) as P4 by (unfold pipeline; congruence).
       apply refused_written; [|congruence|congruence|by etrans|done|done]. split; try done.
       unfold ids_bound. rewrite <- R6, <- R7, P4. split_and!; [done| |congruence]. intros Hm. by apply N2. }
  cbn [negb].
  assert (outer s4 = outer s3) as O4 by (by apply (same_proj outer)).
  unfold outer in O4, O2. injection O4 as Q1 Q2 Q3 Q4 Q5 Q6 Q7.
  assert (CurrentBatch s4 = CurrentBatch s1) as Eb.
  { rewrite (same_proj CurrentBatch _ _ S4), E3 by done. exact (same_proj CurrentBatch _ _ S2 (fun _ => eq_refl)). }
  eapply wpE_mono; [apply (write_accepted n now (write_id s m) m s4)|].
  - eapply almost_quiet; [by apply same_quiet|done].
  - rewrite Q2, E3. unfold numbered. ws_cbn. congruence.
  - rewrite (same_proj ContinuationTokenIssued _ _ S4), E3 by done. unfold numbered. ws_cbn.
    by rewrite (same_proj ContinuationTokenIssued _ _ S2).
  - rewrite Q5, E3. done.
  - done.
  - by rewrite Q7, P3.
  - intros j Hj. rewrite Eb in Hj. destruct (stays s m) eqn:Es.
    + subst s1. by apply Hcons.
    + by rewrite Hs in Hj.
  - by rewrite Q6.
  - rewrite Q5, Q6, Q7. exact N2.
  - rewrite Eb. pose proof (w_size _ _ _ W). destruct (stays s m); [by subst s1|].
    rewrite Hs. pose proof (batch_nonneg (CurrentBatch s)). cbn. lia.
  - rewrite Eb. destruct (w_codec _ _ _ W) as [?|[Es ?]]; [by left|right]. rewrite Es in Hs. done.
  - cbn beta. intros r s5 (-> & G5 & A5 & C5 & P5). split; [done|].
    split_and!; [done|congruence| |left; congruence].
    etrans; [exact C3|]. etrans; [|exact C5]. by apply same_quiet.
Qed.

(** ** Messages of the server *)

Lemma calm_processed n s s' : calm n s s' -> processed n s [] s'.
Proof. intros ([] & P & A & _ & C). split_and!; done. Qed.

Lemma calm_progress n s s' : calm n s s' -> progress n s s'.
Proof.
  intros (G & P & A & _ & C). split_and!; [done|done|]. exists []. rewrite P, A.
  split; [done|]. destruct (CloseEvent s); by rewrite app_nil_r.
Qed.

Lemma progress_calm n s1 s2 s3 : progress n s1 s2 -> calm n s2 s3 -> progress n s1 s3.
Proof.
  intros (G & C & acked & P & A) (G' & P' & A' & _ & C'). split_and!; [done|by etrans|].
  exists acked. by rewrite P', A'.
Qed.

Lemma acked_of_app l l' : acked_of (l ++ l') = acked_of l ++ acked_of l'.
Proof. unfold acked_of. by rewrite fmap_app, concat_app. Qed.

Lemma push_event ev s : wpT (PushEvent ev) (fun _ s' =>
  s' = if CloseEvent s is Some _ then s else set_Events (Events s ++ [ev]) s) s.
Proof.
  unfold PushEvent. wpE_steps; bool_to_prop; by destruct (CloseEvent s).
Qed.

Lemma push_events evs s : wpT (for_each PushEvent evs) (fun _ s' =>
  s' = if CloseEvent s is Some _ then s else set_Events (Events s ++ evs) s) s.
Proof.
  revert s. induction evs as [|ev evs IH]; intros s; cbn [for_each].
  - wpE_steps. destruct (CloseEvent s); [done|]. rewrite app_nil_r. by destruct s.
  - wpE_call; [apply push_event|]. cbn beta. intros _ s1 E1.
    eapply wpE_mono; [apply IH|]. cbn beta. intros _ s2 ->.
    destruct (CloseEvent s) eqn:Ec; subst s1; [by rewrite Ec|]. ws_cbn. rewrite Ec.
    by rewrite <- app_assoc.
Qed.

Lemma push_processed n s evs s1 : processed n s evs s1 ->
  progress n s (if CloseEvent s1 is Some _ then s1 else set_Events (Events s1 ++ evs) s1).
Proof.
  intros (I & B & Hi & A & Hc & [T1 T2] & E & C & P & Hcl). destruct (CloseEvent s1) as [st|] eqn:Ecl.
  - split_and!; [split; try done; split; [lia|congruence]|done|]. exists (acked_of evs).
    split; [done|]. rewrite E. destruct (acked_of evs) as [|i l]; [by destruct (CloseEvent s); rewrite app_nil_r|].
    rewrite <- (Hcl ltac:(done)). by rewrite app_nil_r.
  - split_and!; [| |].
    + split; try done; [by destruct I|by destruct B as [B|[[] B]]; [left|right]|].
      split; ws_cbn; rewrite ready_count_split; [lia|]. intros _. specialize (T2 eq_refl). lia.
    + destruct C as [C1 C2]. split; ws_cbn; done.
    + exists (acked_of evs). split; [done|]. ws_cbn. rewrite acked_of_app, E.
      destruct C as [_ [C|[_ [? C]]]]; [|congruence]. by rewrite <- C, Ecl.
Qed.

Lemma established_parts n s : good n s -> is_Some (InitSeqNo s) ->
  (BatchFlushMessageCount_ (Settings s) <= 1 \/ BatchingSupported s = true) ->
  inv0 (batch_bytes (CurrentBatch s)) (established s) /\ batch_ok (established s) /\
  ids_bound (established s) /\ awake (established s) /\
  tokens n (if FirstTokenSent s then 0 else 1) (established s).
Proof.
  intros [] Hi Hb. unfold established. destruct (FirstTokenSent s) eqn:Hf.
  - split_and!; try done; [|by destruct g_batch as [B|[[] B]]; [left|right]].
    destruct g_inv; split; try done. ws_cbn. congruence.
  - destruct (i_start _ _ g_inv Hf) as (_ & _ & _ & _ & Hiss & _).
    assert (CurrentBatch s = batch0) as B.
    { destruct g_batch as [B|[F _]]; [done|]. pose proof (fl_first _ F). congruence. }
    split_and!; try done; [destruct g_inv; by split|by left|by left|].
    destruct g_tokens as [T1 T2]. rewrite Hiss in *. split; ws_cbn; [lia|].
    intros C. specialize (T2 C). lia.
Qed.

Lemma batching_calm n b s : good n s ->
  (BatchFlushMessageCount_ (Settings s) <= 1 \/ b = true) -> calm n s (set_BatchingSupported b s).
Proof.
  intros [] Hb. split_and!; [split; try done|done|done|done|by split; [|left]].
  - destruct g_inv; by split.
  - by destruct g_batch as [B|[[] B]]; [left|right].
Qed.

Lemma init_calm n v s : good n s -> InitSeqNo s = None -> calm n s (set_InitSeqNo (Some v) s).
Proof.
  intros [] Hn. split_and!; [split; try done|done|done|done|by split; [|left]].
  - destruct g_inv; split; try done. intros Hp. by destruct (i_ready Hp).
  - destruct g_batch as [B|[[] B]]; [by left|right]. split; [split; try done|done].
    by destruct fl_mode.
Qed.

Lemma established_send n s : good n s -> is_Some (InitSeqNo s) ->
  (BatchFlushMessageCount_ (Settings s) <= 1 \/ BatchingSupported s = true) ->
  wpT SendImpl (fun _ s' =>
    processed n s (if FirstTokenSent s then [] else [ReadyToAcceptEvent]) s') (established s).
Proof.
  intros G Hi Hb. destruct (established_parts _ _ G Hi Hb) as (I & B & Hid & A & T).
  eapply wpE_mono; [by apply SendImpl_spec|]. cbn beta. intros _ s' S.
  pose proof S as (I' & (F & _) & _). pose proof (frame_batch _ _ F B). pose proof (frame_ids _ _ F Hid).
  assert (pipeline (established s) = pipeline s /\ acked_of (Events (established s)) =
    acked_of (Events s) /\ CurrentBatch (established s) = CurrentBatch s /\
    Settings (established s) = Settings s /\ closing s (established s)) as (E1 & E2 & E3 & E4 & E5).
  { unfold established. destruct (FirstTokenSent s); split_and!; try done; by split; [|left]. }
  pose proof F as [R C]. unfold rest in R. injection R as R1 R2 R3 R4 R5 R6 R7 R8.
  split_and!; try done.
  - by rewrite <- R3, E3.
  - by eapply send_awake.
  - rewrite <- R1, E4. apply (g_count _ _ G).
  - eapply send_tokens; [exact S|]. destruct (FirstTokenSent s); exact T.
  - by rewrite <- R4.
  - by etrans.
  - replace (pipeline s') with (pipeline s) by (rewrite <- E1; unfold pipeline; congruence).
    by destruct (FirstTokenSent s).
  - by destruct (FirstTokenSent s).
Qed.

Lemma adopt_calm n seq sid part b s : good n s ->
  (BatchFlushMessageCount_ (Settings s) <= 1 \/ b = true) ->
  calm n s (adopt_init seq sid part b s) /\ is_Some (InitSeqNo (adopt_init seq sid part b s)) /\
  BatchingSupported (adopt_init seq sid part b s) = b.
Proof.
  intros G Hb. pose proof (batching_calm n b s G Hb) as C1. unfold adopt_init.
  set (s2 := if (_ && _)%bool then _ else _).
  assert (calm n s s2 /\ InitSeqNo s2 = InitSeqNo s /\ BatchingSupported s2 = b) as (C2 & E2 & B2).
  { split_and!; [|by unfold s2; destruct (_ && _)%bool..].
    eapply calm_trans; [exact C1|]. apply keeps_calm; [apply C1|].
    apply keeps_eq; [apply g_inv with n, C1|by unfold s2; destruct (_ && _)%bool..]. }
  destruct (InitSeqNo s) as [v|] eqn:Ei; [split; [done|]; split; [by rewrite E2|done]|].
  split; [|done]. eapply calm_trans; [exact C2|]. by apply init_calm; [apply C2|].
Qed.

Lemma process_init n e st seq sid part b s : good n s ->
  (BatchFlushMessageCount_ (Settings s) <= 1 \/ b = true) ->
  wpT (ProcessServerMessageImpl e st (InitResponse seq sid part b))
    (fun r s' => res_Ok r = true /\ processed n s (res_Events r) s') s.
Proof.
  intros G Hb. unfold ProcessServerMessageImpl. wpE_steps.
  set (v := if default true (DeduplicationEnabled_ (Settings s)) then u64 seq else 0).
  destruct (adopt_calm n v sid part b s G Hb) as (C1 & Hi & Hb1).
  set (s1 := adopt_init v sid part b s) in *. pose proof C1 as (G1 & P1 & A1 & L1 & K1).
  destruct (_ && _ && _)%bool; [wpE_steps; split; [done|by apply calm_processed]|].
  assert (BatchFlushMessageCount_ (Settings s1) <= 1 \/ BatchingSupported s1 = true) as Hb2.
  { unfold limits in L1. injection L1 as L1 _. rewrite L1, Hb1. done. }
  assert (forall s', processed n s1 (if FirstTokenSent s1 then [] else [ReadyToAcceptEvent]) s' ->
    processed n s (if negb (FirstTokenSent s1) then [ReadyToAcceptEvent] else []) s') as Hp.
  { intros s' (? & ? & ? & ? & ? & ? & ? & ? & ? & ?). destruct (FirstTokenSent s1); cbn [negb];
    (split_and!; try done; [congruence|by etrans|congruence]). }
  pose proof (established_send n s1 G1 Hi Hb2) as Hs. unfold established in Hs.
  destruct (FirstTokenSent s1) eqn:Ef; cbn [negb when] in *; wpE_steps;
    (wpE_call; [exact Hs|]; cbn beta; intros _ s' Pr; wpE_steps; cbn [res_Ok res_Events];
     split; [done|by apply Hp]).
Qed.

(** Acknowledging shortens the pipeline at its front. *)
Lemma ack_batch l s s' : ack_rest s' = ack_rest s -> pipeline0 s = l ++ pipeline0 s' ->
  batch_ok s -> ids_bound s ->
  batch_ok s' /\ ids_bound s' /\ pipeline s = l ++ pipeline s'.
Proof.
  intros Er P B (N1 & N2 & N3). unfold ack_rest in Er.
  injection Er as E1 E2 E3 E4 E5 E6 E7 E8 E9.
  assert (pipeline s = l ++ pipeline s') as Pp.
  { unfold pipeline. by rewrite P, E3, app_assoc. }
  split_and!; [| |done].
  - destruct B as [B|(F & B1 & B2 & B3)]; [left; congruence|right].
    unfold MaxBlockMessageCount in *. rewrite E1, E3. split_and!; try done. destruct F.
    split; unfold MaxBlockMessageCount in *; rewrite ?E1, ?E2, ?E3, ?E5, ?E6; try done.
    rewrite Pp in fl_inc. by apply sorted_app_r in fl_inc.
  - unfold ids_bound. rewrite E3, E6, E7, E8. split_and!; [done| |done].
    intros Hm. specialize (N2 Hm). rewrite Pp, Forall_app in N2. apply N2.
Qed.

Lemma process_message n e st msg s : good n s -> read_ok s msg ->
  wpT (ProcessServerMessageImpl e st msg) (fun r s' => processed n s (res_Events r) s') s.
Proof.
  intros G Hr. destruct msg as [|seq sid part b|acks|].
  - unfold ProcessServerMessageImpl. wpE_steps. set (s1 := set_SessionEstablished false s).
    assert (calm n s s1) as C1.
    { apply keeps_calm; [done|]. destruct G. split_and!; [|done|by split; [|left]].
      destruct g_inv; split; try done. intros F. by destruct (i_start F) as (? & ? & ? & ? & ? & ?). }
    wpE_call; [apply (calm_call _ n); [apply C1|intros; by apply OnErrorImpl_keeps]|].
    cbn beta. intros r s2 C2. wpE_steps. apply calm_processed. eapply calm_trans; [exact C1|exact C2].
  - eapply wpE_mono; [by apply (process_init n)|]. cbn beta. by intros r s' [_ ?].
  - unfold ProcessServerMessageImpl.
    destruct (FirstTokenSent s) eqn:Hf.
    2: { destruct (i_start _ _ (g_inv _ _ G) Hf) as (E & _).
         destruct acks as [|a acks]; [cbn; wpE_steps; cbn; split_and!; try done; apply G|].
         cbn in Hr. destruct (SentPackedMessage s) as [|b bs] eqn:Eb; [done|].
         destruct (first_block _ _ _ _ (g_inv _ _ G) Eb) as (front & l & Es & _).
         unfold pipeline0 in E. by rewrite Es in E. }
    wpE_call; [apply (process_acks_spec (batch_bytes (CurrentBatch s)) acks n 0); try done; apply G|].
    cbn beta. intros [la le] s1 (I1 & A1 & T1 & R1 & P1 & Er). wpE_steps. cbn [res_Events fst snd] in *.
    unfold ack_rest in Er. injection Er as E1 E2 E3 E4 E5 E6 E7 E8 E9.
    assert (acked_of le = []) as Hle.
    { clear -R1. induction R1 as [|ev l Hev Hl IH]; [done|]. by destruct ev. }
    assert (acked_of (le ++ [AcksEvent la]) = ack_SeqNo <$> la) as Hacked.
    { rewrite acked_of_app, Hle. cbn. by rewrite app_nil_r. }
    destruct (ack_batch _ s s1 ltac:(unfold ack_rest; congruence) P1 (g_batch _ _ G) (g_ids _ _ G))
      as (B & Hid & Pp).
    split_and!; try done.
    + by rewrite E3.
    + rewrite E1. apply (g_count _ _ G).
    + rewrite ready_count_app. cbn. rewrite Nat.add_0_r. exact T1.
    + by rewrite E4.
    + split; [by rewrite E8|by left].
    + by rewrite Hacked.
  - unfold ProcessServerMessageImpl. wpE_steps. set (s1 := set_UpdateTokenInProgress false s).
    assert (calm n s s1) as C1 by (apply keeps_calm, keeps_eq; try done; apply G).
    wpE_call; [apply (UpdateToken_calm n); [apply C1|apply UpdateTokenIfNeededImpl_quiet]|].
    cbn beta. intros _ s2 C2. wpE_steps. apply calm_processed. eapply calm_trans; [exact C1|exact C2].
Qed.

(** The second section of the read callback. *)
Lemma FinishRead_keeps x e err r v need s1 : inv0 x s1 ->
  wpT (FinishRead e err r v need) (fun _ s' => keeps x s1 s') s1.
Proof.
  intros I. unfold FinishRead.
  assert (forall m : M ws unit, (forall s, inv0 x s -> wpT m (fun _ s' => keeps x s s') s) ->
    forall b s, keeps x s1 s -> wpT (when b m) (fun _ s' => keeps x s1 s') s) as Hw.
  { intros m Hm b' s K. apply wpE_when; intros _; [|done].
    eapply wpE_mono; [apply Hm, K|]. cbn beta. intros _ s' K'. keeps_tac. }
  apply wpE_bind, wpE_mono with (P := fun _ s' => keeps x s1 s').
  { destruct err as [st|]; [|wpE_steps; by apply keeps_refl].
    eapply wpE_mono; [by apply (RestartImpl_spec x)|].
    cbn beta. intros _ s3 K3%keeps_connects. done. }
  cbn beta. intros r' s3 K3.
  apply wpE_bind; eapply wpE_mono; [by apply Hw; [intros; by apply CloseImpl_keeps|]|]. cbn beta. intros _ s4 K4.
  apply wpE_bind; eapply wpE_mono; [by apply Hw; [intros; by apply SetInitSeqNoPromise_keeps|]|]. cbn beta. intros _ s5 K5.
  eapply wpE_mono; [apply (post_keeps x), K5|]. cbn beta. intros _ s6 K6. keeps_tac.
Qed.

Lemma run_action_calm n e a s : good n s -> wpT (run_action e a) (fun _ s' => calm n s s') s.
Proof.
  intros G. destruct a as [|r|d|st part|doRead err r v need]; cbn [run_action].
  - apply calm_call; [done|]. intros. by apply ReadFromProcessor_keeps.
  - apply calm_call; [done|]. intros. by apply ProcessHandleResult_keeps.
  - apply calm_call; [done|]. intros. by apply Connect_keeps.
  - by apply UseDescription_calm.
  - apply calm_call; [done|]. intros x I. destruct doRead; [|by apply FinishRead_keeps].
    wpE_call; [by apply (ReadFromProcessor_keeps x)|]. cbn beta. intros _ s1 K1.
    eapply wpE_mono; [apply (post_keeps x), K1|]. cbn beta. intros _ s2 K2. keeps_tac.
Qed.

Lemma Resume_calm n e i s : good n s -> wpT (Resume e i) (fun _ s' => calm n s s') s.
Proof.
  intros G. unfold Resume. wpE_steps. destruct (Pending s !! i) as [a|]; [|by apply calm_refl].
  wpE_steps. set (s1 := set_Pending _ s).
  assert (calm n s s1) as C1 by (apply keeps_calm, keeps_eq; try done; apply G).
  eapply wpE_mono; [apply (run_action_calm n), C1|]. cbn beta. intros _ s2 C2.
  eapply calm_trans; [exact C1|exact C2].
Qed.

Lemma OnReadDone_spec n e grpc st msg gen s : good n s -> read_ok s msg ->
  wpT (OnReadDone e grpc st msg gen) (fun _ s' => progress n s s') s.
Proof.
  intros G Hr. unfold OnReadDone. wpE_steps. set (s0 := set_Reads _ s).
  assert (calm n s s0) as C0 by (apply keeps_calm, keeps_eq; try done; apply G).
  destruct (negb (gen =? _)); [by apply calm_progress|].
  apply wpE_bind, wpE_mono with (P := fun r s1 => processed n s (res_Events r) s1).
  { destruct (match grpc with Some _ => _ | None => _ end) as [err|].
    - wpE_steps. by apply calm_processed.
    - eapply wpE_mono; [apply (process_message n); [apply C0|]|];
        [destruct msg; try done; by apply (acks_match_ext s)|]. cbn beta.
      intros r s1 (? & ? & ? & ? & ? & ? & ? & ? & ? & ?). destruct C0 as (_ & ? & ? & ? & ?).
      split_and!; try done. }
  cbn beta. intros r s1 P1.
  assert (forall s', processed n s (res_Events r) s' ->
    wpT (for_each PushEvent (res_Events r)) (fun _ s2 => progress n s s2) s') as Hpush.
  { intros s' P'. eapply wpE_mono; [apply push_events|]. cbn beta. intros _ s2 ->.
    by apply push_processed. }
  wpE_steps; (eapply wpE_mono; [apply Hpush|]; [|cbn beta; intros _ s2 Pr;
    eapply wpE_mono; [apply (calm_call _ n s2); [apply Pr|intros; by apply post_keeps]|];
    cbn beta; intros _ s3; by apply progress_calm]); [|done].
  destruct P1 as (I & B & ? & ? & ? & ? & ? & C & ? & ?). split_and!; try done.
  - by destruct I.
  - by destruct B as [B|[[] B]]; [left|right].
Qed.

End System.
