(* ===== verification/WriteSessionTheorems.v ===== *)
(** The write session as a step system: the calls of the user and the
    callbacks of the library in any order, and what holds in every state such a
    sequence reaches. *)
From S2P Require Import Prelude Status DeferredAck WriteTypes WriteSession WriteSessionInv.
From S2P Require Import WriteRequests WriteSessionCalls WriteSessionSystem.

Section System.
Context `{WriteLaws}.

(** ** The session as a step system *)

(** The calls of the user and the callbacks of the library. *)
Inductive call :=
  | CStart (e : env) (guid : string) (delay : Z)
  | CWrite (now : Z) (m : TWriteMessage)
  | CFlush
  | CCloseBegin
  | CCloseEnd
  | CDestroy
  | CCommit (t : TTransactionId) (g : positive)
  | CWakeUp (now : Z)
  | CCompressed (i : nat)
  | CSendTask
  | CDeliverToken
  | CTokenReady (future : option string)
  | CRequestDone (i : nat)
  | CWriteDone (e : env) (st : option TPlainStatus) (generation : Z)
  | CConnected (e : env) (st : option TPlainStatus) (context : Z)
  | CConnectTimeout (e : env) (context : Z)
  | CDescribed (st : TPlainStatus) (part : partition_info) (context : Z)
  | CRead (e : env) (grpc : option TPlainStatus) (st : TPlainStatus) (msg : server_message)
      (generation : Z)
  | CResume (e : env) (i : nat).

Definition exec (k : call) : M ws unit :=
  match k with
  | CStart e guid d => Start e guid d ;; mret tt
  | CWrite now m => WriteInternal now m ;; mret tt
  | CFlush => Flush ;; mret tt
  | CCloseBegin => CloseBegin
  | CCloseEnd => CloseEnd ;; mret tt
  | CDestroy => Destroy
  | CCommit t g => CommitCallback t g ;; mret tt
  | CWakeUp now => HandleWakeUpImpl now
  | CCompressed i => CompressionDone i
  | CSendTask => SendTask
  | CDeliverToken => DeliverToken
  | CTokenReady f => UpdateTokenImpl f
  | CRequestDone i => RequestDone i
  | CWriteDone e st g => OnWriteDone e st g
  | CConnected e st c => OnConnect e st c
  | CConnectTimeout e c => OnConnectTimeout e c
  | CDescribed st p c => OnDescribePartition st p c
  | CRead e grpc st msg g => OnReadDone e grpc st msg g
  | CResume e i => Resume e i
  end.

(** The session, how many tokens the user has used, and what was accepted. *)
Record conf := mkConf { st : ws; used : nat; accepted : list Z }.

Definition call_ok (c : conf) (k : call) : Prop :=
  match k with
  | CWrite _ m => write_ok (used c) (st c) m
  | CRead _ _ _ msg _ => read_ok (st c) msg
  | _ => True
  end.

(** A write is accepted when its message is in the session's queues. *)
Definition after_call (c : conf) (k : call) (s' : ws) : conf :=
  match k with
  | CWrite _ m =>
      let id := write_id (st c) m in
      mkConf s' (S (used c)) (accepted c ++ if bool_decide (id ∈ pipeline s') then [id] else [])
  | _ => mkConf s' (used c) (accepted c)
  end.

Inductive ws_step (c : conf) : conf -> Prop :=
  | ws_step_call k s' : call_ok c k -> exec k (st c) = Ok (tt, s') -> ws_step c (after_call c k s').

Definition ws_reachable (cfg : settings) (trackers : gmap positive tracker) (auth : auth_info)
    (c : conf) : Prop :=
  rtc ws_step (mkConf (ws0 cfg trackers auth) 0 []) c.

(** Accepted messages are acknowledged to the user, acknowledged after the events
    were closed, or in the pipeline, in this order. *)
Definition fifo (c : conf) : Prop := exists unseen,
  accepted c = acked_of (Events (st c)) ++ unseen ++ pipeline (st c) /\
  (CloseEvent (st c) = None -> unseen = []).

Record sys_inv (c : conf) : Prop := {
  si_good : good (used c) (st c);
  si_fifo : fifo c
}.

Definition is_write (k : call) : bool := match k with CWrite _ _ => true | _ => false end.
Definition is_read (k : call) : bool := match k with CRead _ _ _ _ _ => true | _ => false end.

(** The queue a write session promises: messages enter at the back with growing
    identifiers and leave from the front when acknowledged. *)
Inductive queue_op := Enqueue (id : Z) | Dequeue (acked : list Z) | Skip.

Inductive queue_step : queue_op -> list Z -> list Z -> Prop :=
  | queue_enqueue id q : Forall (fun i => i < id) q -> queue_step (Enqueue id) q (q ++ [id])
  | queue_dequeue acked q : queue_step (Dequeue acked) (acked ++ q) q
  | queue_skip q : queue_step Skip q q.

(** What a call does to the queue, and the acknowledgements it emits: a write
    enqueues or closes the session, a read dequeues, other calls do neither. *)
Definition simulates (k : call) (s s' : ws) : Prop :=
  match k with
  | CWrite _ m =>
      acked_of (Events s') = acked_of (Events s) /\
      (queue_step (Enqueue (write_id s m)) (pipeline s) (pipeline s') \/
       queue_step Skip (pipeline s) (pipeline s') /\ Aborting s' = true)
  | CRead _ _ _ _ _ => exists acked, queue_step (Dequeue acked) (pipeline s) (pipeline s') /\
      acked_of (Events s') = acked_of (Events s) ++ acked
  | _ => queue_step Skip (pipeline s) (pipeline s') /\ acked_of (Events s') = acked_of (Events s)
  end.

Lemma CommitCallback_tracking t g : tracking (CommitCallback t g).
Proof. unfold CommitCallback. tracking. Qed.

Lemma exec_calm n k s : good n s -> is_write k = false -> is_read k = false ->
  wpT (exec k) (fun _ s' => calm n s s') s.
Proof.
  intros G Hw Hr.
  assert (forall A (m : M ws A), wpT m (fun _ s' => calm n s s') s ->
    wpT (m ;; mret tt) (fun _ s' => calm n s s') s) as Hc.
  { intros A m Hm. wpE_call; [exact Hm|]. cbn beta. intros _ s' C. by wpE_steps. }
  destruct k; try discriminate; cbn [exec].
  - by apply Hc, Start_calm.
  - by apply Hc, Flush_calm.
  - by apply CloseBegin_calm.
  - apply Hc, calm_call; [done|]. intros; by apply CloseEnd_keeps.
  - apply calm_call; [done|]. intros; by apply Destroy_keeps.
  - apply Hc, calm_call; [done|]. intros x I. eapply wpE_mono; [apply CommitCallback_tracking|].
    cbn beta. intros _ s' S. by apply quiet_keeps, same_quiet.
  - by apply HandleWakeUp_calm.
  - by apply CompressionDone_calm.
  - by apply SendTask_calm.
  - by apply DeliverToken_calm.
  - apply UpdateToken_calm; [done|]. intros; apply UpdateTokenImpl_quiet.
  - by apply RequestDone_calm.
  - apply calm_call; [done|]. intros; by apply OnWriteDone_keeps.
  - apply calm_call; [done|]. intros; by apply OnConnect_keeps.
  - apply calm_call; [done|]. intros; by apply OnConnectTimeout_keeps.
  - apply calm_call; [done|]. intros; by apply OnDescribePartition_keeps.
  - by apply Resume_calm.
Qed.

Lemma exec_progress c k : good (used c) (st c) -> call_ok c k -> is_write k = false ->
  wpT (exec k) (fun _ s' => progress (used c) (st c) s') (st c).
Proof.
  intros G Hok Hw. destruct (is_read k) eqn:Er.
  - destruct k; try discriminate. by apply OnReadDone_spec.
  - eapply wpE_mono; [by apply exec_calm|]. cbn beta. intros _ s'. apply calm_progress.
Qed.

Lemma fifo_progress n s acc s' : progress n s s' -> fifo (mkConf s n acc) -> fifo (mkConf s' n acc).
Proof.
  intros (G & [_ C] & acked & P & A) (unseen & E & Hu). cbn in *. rewrite P in E.
  destruct (CloseEvent s) as [e|] eqn:Ec.
  - exists (unseen ++ acked). cbn. rewrite A, E, app_nil_r, <- !app_assoc. split; [done|].
    destruct C as [->|[_ [? C]]]; congruence.
  - exists []. cbn. rewrite A, E, (Hu eq_refl). cbn. by rewrite app_assoc.
Qed.

Lemma write_fifo n s m s' acc : good n s -> write_ok n s m -> written n s m s' ->
  fifo (mkConf s n acc) ->
  fifo (mkConf s' (S n) (acc ++ if bool_decide (write_id s m ∈ pipeline s') then [write_id s m] else [])).
Proof.
  intros G W (G' & A & [_ C] & Hp) (unseen & E & Hu). cbn in *.
  assert (CloseEvent s' = None -> unseen = []) as Hu'.
  { intros Hc. apply Hu. destruct C as [<-|[_ [? C]]]; congruence. }
  exists unseen. cbn. rewrite A. split; [|done]. destruct Hp as [Hp|(Hp & _)]; rewrite Hp.
  - rewrite bool_decide_true by set_solver. by rewrite E, <- !app_assoc.
  - rewrite bool_decide_false; [by rewrite app_nil_r|]. intros Hin.
    destruct (write_id_facts _ _ _ G W) as (_ & Hlt & _). rewrite Forall_forall in Hlt.
    specialize (Hlt _ Hin). lia.
Qed.


Lemma exec_ok c k : sys_inv c -> call_ok c k -> wpT (exec k) (fun _ s' => sys_inv (after_call c k s')) (st c).
Proof.
  intros [G F] Hok. destruct (is_write k) eqn:Hw.
  - destruct k; try discriminate. destruct c as [s n acc]. cbn [exec call_ok st used] in *.
    wpE_call; [by apply WriteInternal_spec|]. cbn beta.
    intros r s' [_ W]. wpE_steps. split; [apply W|]. by apply write_fifo.
  - eapply wpE_mono; [by apply exec_progress|]. cbn beta. intros [] s' P. destruct c as [s n acc].
    replace (after_call (mkConf s n acc) k s') with (mkConf s' n acc) by (by destruct k).
    split; [apply P|]. by eapply fifo_progress.
Qed.

Lemma step_inv c c' : sys_inv c -> ws_step c c' -> sys_inv c'.
Proof.
  intros I [k s' Hok He]. pose proof (exec_ok c k I Hok) as W. unfold wpT, wpE in W.
  by rewrite He in W.
Qed.


Lemma exec_simulates c k s' : sys_inv c -> call_ok c k -> CloseEvent (st c) = None ->
  exec k (st c) = Ok (tt, s') -> simulates k (st c) s'.
Proof.
  intros [G _] Hok Hc He.
  assert (forall Q, wpT (exec k) Q (st c) -> Q tt s') as Hrun.
  { intros Q W. unfold wpT, wpE in W. by rewrite He in W. }
  destruct (is_write k) eqn:Hw; [|destruct (is_read k) eqn:Hr].
  - destruct k; try discriminate. cbn [call_ok exec] in *.
    assert (written (used c) (st c) m s') as (_ & A & _ & P).
    { apply (Hrun (fun _ s' => written (used c) (st c) m s')).
      wpE_call; [by apply WriteInternal_spec|]. cbn beta. intros r s1 [_ W]. by wpE_steps. }
    destruct (write_id_facts _ _ _ G Hok) as (_ & Hlt & _). split; [exact A|].
    destruct P as [->|(-> & ? & _)]; [left; by constructor|right; by repeat constructor].
  - pose proof (Hrun _ (exec_progress c k G Hok Hw)) as (_ & _ & acked & P & A). rewrite Hc in A.
    destruct k; try discriminate. exists acked. rewrite P. by split; [constructor|].
  - pose proof (Hrun _ (exec_calm _ k _ G Hw Hr)) as (_ & P & A & _).
    destruct k; try discriminate; cbn; rewrite P; by split; [constructor|].
Qed.

Lemma ws0_inv cfg trackers auth : 1 <= BatchFlushMessageCount_ cfg ->
  sys_inv (mkConf (ws0 cfg trackers auth) 0 []).
Proof.
  intros Hc. split.
  - cbn [st used]. split; try done.
    + split; try done; cbn; try lia; try constructor. by exists [].
    + by left.
  - exists []. by cbn.
Qed.

Lemma session_reachable_inv cfg trackers auth c : 1 <= BatchFlushMessageCount_ cfg ->
  ws_reachable cfg trackers auth c -> sys_inv c.
Proof.
  intros Hc R. pose proof (ws0_inv cfg trackers auth Hc) as I.
  induction R as [|c1 c2 c3 S _ IH]; [done|]. apply IH. by eapply step_inv.
Qed.

Lemma empty_pipeline n s : good n s -> pipeline s = [] -> Requests s = [] -> Aborting s = false ->
  MemoryUsage s = 0.
Proof.
  intros G P R Ha. destruct (g_inv _ _ G). unfold pipeline in P.
  apply app_eq_nil in P as [P0 Pb]. unfold pipeline0 in P0. apply app_eq_nil in P0 as [Ps Pt].
  destruct (i_todo Ha) as (todo & Hp & Ht). rewrite Pt in Ht.
  rewrite Ps in i_sent. rewrite !Forall_app in i_wf. destruct i_wf as (W1 & W2 & W3).
  assert (forall l, Forall (block_wf (Settings s)) l -> blocks_ids l = [] -> l = []) as Hnil.
  { intros [|b l] Hl He; [done|]. apply Forall_cons in Hl as [[Hb _] _]. exfalso.
    cbn in He. apply app_eq_nil in He as [He _]. apply (f_equal length) in He.
    unfold block_ids in He. rewrite length_seqZ in He. cbn in He. lia. }
  assert (todo = []) as -> by (apply Hnil; [rewrite Hp; by apply Forall_app|done]).
  apply Hnil in i_sent; [|done]. symmetry in Hp. apply Permutation_nil_r in Hp.
  apply app_eq_nil in Hp as [Hp Hc].
  rewrite (i_mem_eq Ha). unfold held_memory, batch_bytes. rewrite i_sent, Hp, Hc, R.
  apply fmap_nil_inv in Pb. by rewrite Pb.
Qed.
End System.

(** An acknowledgement that names another message than the front one aborts. *)
Lemma ack_wrong_front b bs front l s a acks id : SentPackedMessage s = b :: bs ->
  SentOriginalMessages s = front :: l -> server_id s (u64 (srv_seq_no a)) = Some id ->
  Offset b <> id -> Id front <> id -> exists f, process_acks (a :: acks) s = Fail f.
Proof.
  intros Hp Ho Hid Hb Hf.
  assert (wpP (process_acks (a :: acks)) (fun _ _ => False) s) as W.
  { cbn [process_acks]. apply wpE_bind.
    eapply wpE_mono; [eapply wpE_weaken, GetIdImpl_spec, Hid; done|]. cbn beta. intros ? ? [-> ->].
    wpE_steps. rewrite Hp, (proj2 (Z.eqb_neq _ _)) by done.
    destruct (ack_state_of (kind a)) as [st|]; [|exact I].
    change (Z.to_nat 1) with 1%nat. cbn [ack_block]. wpE_steps.
    eapply wpE_mono; [eapply wpE_weaken, TrySignalAllAcksReceived_tracking; done|].
    cbn beta. intros _ s1 S. wpE_steps. unfold CleanupOnAcknowledgedImpl. wpE_steps.
    rewrite <- (same_proj SentOriginalMessages _ _ S) in Ho by done.
    rewrite <- (same_proj SentPackedMessage _ _ S) in Hp by done.
    rewrite Ho, Hp, (proj2 (Z.eqb_neq _ _)) by done. cbn [Z.ltb Z.compare].
    unfold update_counters. wpP_steps. rewrite (proj2 (Z.eqb_neq _ _)) in * by done. done. }
  unfold wpE in W. destruct (process_acks _ s) as [[? ?]|f]; [done|eauto].
Qed.

Section Claims.
Context `{WriteLaws} (cfg : settings) (trackers : gmap positive tracker) (auth : auth_info).
Hypothesis Hcount : 1 <= BatchFlushMessageCount_ cfg.

(** C10: in every run of a write session the messages accepted from the user are,
    in the order of the writes, first those whose acknowledgement was pushed to the
    user, then those acknowledged after the event queue was closed, then those in
    the session's queues: sent, compressed or compressing, batched.  While the
    queue is open the middle part is empty, so reconnections, compression out of
    order and batching lose, duplicate and reorder nothing. *)
Theorem write_session_fifo c : ws_reachable cfg trackers auth c ->
  exists unseen, accepted c = acked_of (Events (st c)) ++ unseen ++ pipeline (st c) /\
    (CloseEvent (st c) = None -> unseen = []).
Proof. intros R. by destruct (session_reachable_inv _ _ _ _ Hcount R). Qed.

(** C1: a write session refines a queue.  In every reachable state of a session
    whose events are open, for calls that keep to [call_ok] (see [write_session_total]) and
    return, section by section, a write appends its message to the queue of messages
    accepted and not acknowledged, with an identifier above all of them, or closes
    the session; a message of the server removes from the front exactly the messages
    whose acknowledgements it hands to the user; every other call and callback,
    reconnections included, leaves the queue and the acknowledgements as they are. *)
Theorem write_session_refines_queue c k s' : ws_reachable cfg trackers auth c -> call_ok c k ->
  CloseEvent (st c) = None -> exec k (st c) = Ok (tt, s') -> simulates k (st c) s'.
Proof. intros R. apply exec_simulates. by eapply session_reachable_inv. Qed.


(** C25: continuation tokens.  The user never has more than one unused token; and a
    session that is open and started, whose messages are all acknowledged and
    requests written, has given out or scheduled one, so the writer is never stuck. *)
Theorem write_session_token c : ws_reachable cfg trackers auth c ->
  (ready_count (Events (st c)) + ScheduledTokens (st c) <= S (used c))%nat /\
  (0 <= MaxMemoryUsage_ (Settings (st c)) -> FirstTokenSent (st c) = true ->
   Aborting (st c) = false -> CloseEvent (st c) = None ->
   pipeline (st c) = [] -> Requests (st c) = [] ->
   (ready_count (Events (st c)) + ScheduledTokens (st c) = S (used c))%nat).
Proof.
  intros R. destruct (session_reachable_inv _ _ _ _ Hcount R) as [G _].
  destruct (g_tokens _ _ G) as [T1 T2]. split.
  { destruct (ContinuationTokenIssued _); lia. }
  intros Hm Hf Ha Hc Hp Hr. specialize (T2 Hc).
  destruct (g_awake _ _ G Hf Ha) as [E|E]; [rewrite E in T2; lia|].
  rewrite (empty_pipeline _ _ G Hp Hr Ha) in E. lia.
Qed.

(** Batches and their acknowledgements.  [SendBatchBlock] sends a batch with the
    sequence number of its last message, while an acknowledgement is taken for the
    first one: in every reachable state where the oldest message sent is a batch of
    several messages, an acknowledgement that carries the sequence number the batch
    was sent with is not processed, the session aborts the process. *)
Theorem batch_ack_as_sent_aborts c b bs a acks : ws_reachable cfg trackers auth c ->
  SentPackedMessage (st c) = b :: bs -> 1 < MessageCount b ->
  server_id (st c) (u64 (srv_seq_no a)) = last (block_ids b) ->
  exists f, process_acks (a :: acks) (st c) = Fail f.
Proof.
  intros R Hp Hn Hid. destruct (session_reachable_inv _ _ _ _ Hcount R) as [G _].
  pose proof (i_sent _ _ (g_inv _ _ G)) as E. rewrite Hp, blocks_ids_cons in E.
  assert (last (block_ids b) = Some (Offset b + MessageCount b - 1)) as El.
  { unfold block_ids. rewrite last_lookup, length_seqZ. apply lookup_seqZ. lia. }
  unfold block_ids in E. rewrite seqZ_cons in E by lia.
  destruct (SentOriginalMessages (st c)) as [|front l] eqn:Eo; [done|].
  injection E as Ei _. rewrite El in Hid.
  eapply ack_wrong_front; [exact Hp|exact Eo|exact Hid|lia..].
Qed.

(** C30: the memory a session that is not aborting accounts for is exactly the bytes
    of the batched messages, of the blocks sent and to send (uncompressed or
    compressed, as they are), of the blocks being compressed and of the requests the
    transport has not written: memory is released once, when its owner is. *)
Theorem write_session_memory c : ws_reachable cfg trackers auth c -> Aborting (st c) = false ->
  MemoryUsage (st c) = sumZ (fun m => bsize (DataRef m)) (Messages (CurrentBatch (st c)))
    + sumZ memoryToRelease (SentPackedMessage (st c))
    + sumZ memoryToRelease (PackedMessagesToSend (st c))
    + sumZ OriginalMemoryUsage (Compressing (st c)) + sumZ (fun n => n) (Requests (st c)).
Proof.
  intros R Ha. destruct (session_reachable_inv _ _ _ _ Hcount R) as [G _].
  exact (i_mem_eq _ _ (g_inv _ _ G) Ha).
Qed.
End Claims.

(** A run: the session starts, connects and is established, takes a message of
    three bytes, loses the connection, connects again and gets the
    acknowledgement. *)
Section Sample.

Definition sample_settings : settings :=
  mkSettings RAW None 1000 0 None 1 None true false None "topic" "db" [] "producer" "producer"
    false 1000000.
Definition sample_message : TWriteMessage :=
  mkWrite [Byte.x61; Byte.x62; Byte.x63] None 0 None (Some 5) [] None None.
#[local] Instance sample_libraries : WriteLibraries :=
  {| CompressWriteBlock := fun _ _ b => (concat (OriginalDataRefs b), 1, false);
     SpaceUsedLong := fun _ => 10 |}.
#[local] Instance sample_laws : WriteLaws.
Proof. split. cbn. lia. Qed.
Definition sample_env : env := mkEnv 100 (Some 7) true true true.
Definition ok_status : TPlainStatus := mkStatus SUCCESS false.
Definition lost_status : TPlainStatus := mkStatus UNAVAILABLE false.

Definition sample_conf0 : conf := mkConf (ws0 sample_settings ∅ NoProvider) 0 [].

Fixpoint run (ks : list call) (c : conf) : option conf :=
  match ks with
  | [] => Some c
  | k :: ks => match exec k (st c) with
               | Ok (_, s') => run ks (after_call c k s')
               | Fail _ => None
               end
  end.

(** The oldest callback goes on: its next section, or its next three. *)
Definition go_on : list call := [CResume sample_env 0].
Definition finish_read : list call := go_on ++ go_on ++ go_on.

(** A connected session. *)
Definition start_calls (batching : bool) : list call :=
  [CStart sample_env "guid" 0] ++ go_on ++ [CConnected sample_env None 0] ++ go_on ++
  [CRead sample_env None ok_status (InitResponse 41 "id" 0 batching) 1] ++ finish_read ++
  [CRequestDone 0].

(** Up to the loss of the connection, and from there on. *)
Definition calls1 : list call :=
  start_calls false ++
  [CWrite 200 sample_message; CWakeUp 300; CSendTask; CRequestDone 0;
   CRead sample_env (Some lost_status) ok_status ServerMessageNotSet 1] ++ finish_read.
Definition calls2 : list call :=
  [CConnected sample_env None 3] ++ go_on ++ [CRequestDone 0;
   CRead sample_env None ok_status (InitResponse 41 "id2" 0 false) 2] ++ finish_read ++
  [CSendTask; CRequestDone 0;
   CRead sample_env None ok_status (WriteResponse [mkWriteAck 42 (Written 7)]) 2] ++ finish_read.

Definition sample_conf1 : conf := Eval vm_compute in default sample_conf0 (run calls1 sample_conf0).
Definition sample_conf2 : conf := Eval vm_compute in default sample_conf0 (run calls2 sample_conf1).

Lemma run_step k c c' s' : call_ok c k -> exec k (st c) = Ok (tt, s') ->
  rtc ws_step (after_call c k s') c' -> rtc ws_step c c'.
Proof. intros. eapply rtc_l; [by eapply ws_step_call|done]. Qed.

(** One call of the run, checked and then computed. *)
Ltac run_call k :=
  eapply (run_step k); [|vm_compute; reflexivity|cbn [after_call st used accepted]].

Ltac run_resume := run_call (CResume sample_env 0); [done|].
Ltac run_finish := run_resume; run_resume; run_resume.

(** The calls of [start_calls]; the response says whether the server batches. *)
Ltac run_start batching :=
  run_call (CStart sample_env "guid" 0); [done|]; run_resume;
  run_call (CConnected sample_env None 0); [done|]; run_resume;
  run_call (CRead sample_env None ok_status (InitResponse 41 "id" 0 batching) 1);
    [first [by left | by right]|]; run_finish;
  run_call (CRequestDone 0); [done|].

Ltac run_end :=
  match goal with |- rtc _ ?c ?d => replace d with c by (vm_compute; reflexivity); apply rtc_refl end.

Lemma sample_reachable1 : ws_reachable sample_settings ∅ NoProvider sample_conf1.
Proof.
  unfold ws_reachable.
  run_start false.
  run_call (CWrite 200 sample_message).
  { split; cbn; try done; try lia. by left. }
  run_call (CWakeUp 300); [done|]. run_call CSendTask; [done|]. run_call (CRequestDone 0); [done|].
  run_call (CRead sample_env (Some lost_status) ok_status ServerMessageNotSet 1); [done|].
  run_finish. run_end.
Qed.

Lemma sample_reachable2 : ws_reachable sample_settings ∅ NoProvider sample_conf2.
Proof.
  unfold ws_reachable. etrans; [apply sample_reachable1|].
  run_call (CConnected sample_env None 3); [done|]. run_resume. run_call (CRequestDone 0); [done|].
  run_call (CRead sample_env None ok_status (InitResponse 41 "id2" 0 false) 2); [by left|].
  run_finish. run_call CSendTask; [done|]. run_call (CRequestDone 0); [done|].
  run_call (CRead sample_env None ok_status (WriteResponse [mkWriteAck 42 (Written 7)]) 2).
  { cbn. eauto 10. }
  run_finish. run_end.
Qed.

Lemma write_session_fifo_witness :
  accepted sample_conf1 = [1] /\ pipeline (st sample_conf1) = [1] /\
  exists unseen, accepted sample_conf2 = acked_of (Events (st sample_conf2)) ++ unseen ++
    pipeline (st sample_conf2) /\ (CloseEvent (st sample_conf2) = None -> unseen = []).
Proof.
  split; [reflexivity|]. split; [reflexivity|].
  apply (write_session_fifo sample_settings ∅ NoProvider); [cbn; lia|apply sample_reachable2].
Defined.

Lemma write_session_refines_queue_witness : exists k s',
  exec k (st sample_conf1) = Ok (tt, s') /\ pipeline (st sample_conf1) = [1] /\
  pipeline s' = [1; 2] /\ simulates k (st sample_conf1) s'.
Proof.
  exists (CWrite 400 sample_message). eexists. split; [vm_compute; reflexivity|].
  split; [reflexivity|]. split; [reflexivity|].
  apply (write_session_refines_queue sample_settings ∅ NoProvider);
    [cbn; lia|apply sample_reachable1| |reflexivity|vm_compute; reflexivity].
  split; cbn; try done; try lia. by left.
Defined.

Lemma write_session_token_witness :
  (ready_count (Events (st sample_conf2)) + ScheduledTokens (st sample_conf2))%nat
    = S (used sample_conf2).
Proof.
  apply (write_session_token sample_settings ∅ NoProvider);
    [cbn; lia|apply sample_reachable2|cbn; lia|reflexivity..].
Defined.

(** A session with batches of two: both messages are sent as one block. *)
Definition batch_settings : settings :=
  mkSettings RAW None 1000 1000 None 2 None true false None "topic" "db" [] "producer" "producer"
    false 1000000.
Definition batch_calls : list call :=
  start_calls true ++ [CWrite 200 sample_message; CWrite 300 sample_message].
Definition batch_conf0 : conf := mkConf (ws0 batch_settings ∅ NoProvider) 0 [].
Definition batch_conf : conf := Eval vm_compute in default batch_conf0 (run batch_calls batch_conf0).

Lemma batch_reachable : ws_reachable batch_settings ∅ NoProvider batch_conf.
Proof.
  unfold ws_reachable.
  run_start true.
  run_call (CWrite 200 sample_message).
  { split; cbn; try done; try lia. by left. }
  run_call (CWrite 300 sample_message).
  { split; cbn; try done; try lia; [|by intros _ _ j [= <-]|by left]. vm_compute. lia. }
  run_end.
Qed.

Lemma batch_ack_as_sent_aborts_witness :
  (exists r, WriteMessages r ∈ Wire (st batch_conf) /\ (seq_no <$> messages r) = [43]) /\
  exists f, process_acks [mkWriteAck 43 (Written 7)] (st batch_conf) = Fail f.
Proof.
  split.
  - eexists. split; [|shelve]. cbn [st batch_conf Wire]. right. left. Unshelve. reflexivity.
  - eapply (batch_ack_as_sent_aborts batch_settings ∅ NoProvider);
      [cbn; lia|apply batch_reachable|reflexivity|cbn; lia|vm_compute; reflexivity].
Defined.


(** An encoded message, and a message with a sequence number of the user. *)
Definition encoded_message : TWriteMessage :=
  mkWrite [Byte.x61] (Some GZIP) 5 None (Some 5) [] None None.
Definition numbered_message (k : Z) : TWriteMessage :=
  mkWrite [Byte.x61] None 0 (Some k) (Some 5) [] None None.

(** [WriteEncoded] does not write out a batch that is waiting: the message joins the one
    that was written before, and [WriteBatchImpl] aborts the process. *)
Theorem encoded_message_in_batch_aborts : exists c,
  run (start_calls true ++ [CWrite 200 sample_message]) batch_conf0 = Some c /\
  exec (CWrite 300 encoded_message) (st c) = Fail (Abort "CurrentBatch.Messages.size() == 1").
Proof. eexists. split; [vm_compute; reflexivity|]. vm_compute. reflexivity. Qed.

(** Sequence numbers 5 and 7 of the user are sent as one batch; whichever of them the
    server acknowledges, the process is aborted. *)
Theorem sequence_gap_in_batch_aborts : exists c,
  run (start_calls true ++ [CWrite 200 (numbered_message 5); CWrite 300 (numbered_message 7)])
    batch_conf0 = Some c /\
  Forall (fun k => exists why, exec (CRead sample_env None ok_status
      (WriteResponse [mkWriteAck k (Written 7)]) 1) (st c) = Fail (Abort why)) [5; 7].
Proof.
  eexists. split; [vm_compute; reflexivity|].
  repeat constructor; eexists; vm_compute; reflexivity.
Qed.

Lemma write_session_memory_witness : MemoryUsage (st sample_conf1) = 3.
Proof.
  refine (eq_trans (write_session_memory sample_settings ∅ NoProvider _ sample_conf1 _ _) _);
    [cbn; lia|apply sample_reachable1|reflexivity..].
Defined.

(** A session that is closed while the user holds a token. *)
Definition sample_tx : TTransactionId := mkTx "session" "tx".
Definition tx_message : TWriteMessage :=
  mkWrite [Byte.x61] None 0 None (Some 5) [] (Some sample_tx) None.
Definition closed_calls : list call :=
  start_calls false ++ [CCloseEnd; CWrite 200 tx_message].
Definition closed_conf : conf :=
  Eval vm_compute in default sample_conf0 (run closed_calls sample_conf0).

Lemma closed_reachable : ws_reachable sample_settings ∅ NoProvider closed_conf.
Proof.
  unfold ws_reachable.
  run_start false. run_call CCloseEnd; [done|].
  run_call (CWrite 200 tx_message).
  { split; cbn; try done; try lia. by left. }
  run_end.
Qed.

(** A transaction can wait for a write forever.  [WriteInternal] does not look at
    [Aborting]: with a token got before the session was closed, a write in a
    transaction is taken and counted, after [CancelTransactions] has run for the last
    time.  The precommit callback then returns the future of a promise that is still
    pending when the session is destroyed, so the commit never completes. *)
Theorem commit_after_close_hangs : exists c g s1 s2,
  ws_reachable sample_settings ∅ NoProvider c /\ Aborting (st c) = true /\
  Txs (st c) !! sample_tx = Some g /\
  CommitCallback sample_tx g (st c) = Ok (inl tt, s1) /\ exec CDestroy s1 = Ok (tt, s2) /\
  tx_AllAcksReceived <$> (TxInfos s2 !! g) = Some PromisePending.
Proof.
  exists closed_conf, 1%positive. do 2 eexists. split; [apply closed_reachable|].
  split; [reflexivity|]. split; [reflexivity|]. split; [vm_compute; reflexivity|].
  split; [vm_compute; reflexivity|reflexivity].
Qed.

End Sample.
