(* ===== verification/Retry.v ===== *)
(** * Retried operations

    [src/src/client/impl/internal/retry/]: the decision what to do after an
    attempt ([retry.cpp]), the retry context shared by the two execution modes
    ([retry.h]), the synchronous context, which loops in the caller's thread
    ([retry_sync.h]), the asynchronous one, which continues in callbacks of
    futures and of the timer ([retry_async.h]), and the settings of unary calls
    ([retry_settings.h]).

    What a run finds outside of the context (the stop token, the clock, the
    sessions and results it gets, random numbers) is a [world]: the answers to
    the successive questions, with a cursor per kind in the state.  Spans and
    log output are not modelled.  Durations are microseconds. *)

From Stdlib Require Import SpecFloat.
From S2P Require Import Prelude Status Float64.

(** ** Settings and decisions *)

Record TBackoffSettings := mkBackoff {
  SlotDuration_ : Z;
  Ceiling_ : Z;
  UncertainRatio_ : f64
}.

Record TRetryOperationSettings := mkRetrySettings {
  MaxRetries_ : Z;
  RetryNotFound_ : bool;
  GetSessionClientTimeout_ : Z;
  MaxTimeout_ : Z;
  FastBackoffSettings_ : TBackoffSettings;
  SlowBackoffSettings_ : TBackoffSettings;
  Idempotent_ : bool;
  IdempotentWasSet_ : bool;
  RetryUndefined_ : bool;
  StopToken_ : bool   (* whether there is one *)
}.

(** [TDuration::Max()]. *)
Definition duration_max : Z := 2 ^ 64 - 1.

(** [DiffWithSaturation]. *)
Definition sat_sub (a b : Z) : Z := if b <=? a then a - b else 0.

Inductive NextStep := RetryImmediately | RetryFastBackoff | RetrySlowBackoff | StepFinish.

#[export] Instance f64_eq_dec : EqDecision f64.
Proof. solve_decision. Defined.
#[export] Instance TBackoffSettings_eq_dec : EqDecision TBackoffSettings.
Proof. solve_decision. Defined.
#[export] Instance TRetryOperationSettings_eq_dec : EqDecision TRetryOperationSettings.
Proof. solve_decision. Defined.
#[export] Instance NextStep_eq_dec : EqDecision NextStep.
Proof. solve_decision. Defined.

Record TRetryDecision := mkDecision { Step : NextStep; ResetSession : bool }.

Definition GetRetryDecision (status : EStatus) (cfg : TRetryOperationSettings) : TRetryDecision :=
  match status with
  | SUCCESS | CLIENT_CANCELLED => mkDecision StepFinish false
  | ABORTED => mkDecision RetryImmediately false
  | OVERLOADED | CLIENT_RESOURCE_EXHAUSTED => mkDecision RetrySlowBackoff false
  | UNAVAILABLE => mkDecision RetryFastBackoff false
  | BAD_SESSION | SESSION_BUSY => mkDecision RetryImmediately true
  | NOT_FOUND => mkDecision (if RetryNotFound_ cfg then RetryImmediately else StepFinish) false
  | UNDETERMINED | TRANSPORT_UNAVAILABLE =>
      mkDecision (if Idempotent_ cfg then RetryFastBackoff else StepFinish)
        (Idempotent_ cfg && bool_decide (status = TRANSPORT_UNAVAILABLE))%bool
  | CLIENT_DEADLINE_EXCEEDED =>
      mkDecision (if RetryUndefined_ cfg then RetrySlowBackoff else StepFinish) true
  | _ => mkDecision (if RetryUndefined_ cfg then RetrySlowBackoff else StepFinish) false
  end.

Definition ShouldRetryStatus (status : EStatus) (cfg : TRetryOperationSettings) : bool :=
  negb (bool_decide (Step (GetRetryDecision status cfg) = StepFinish)).

(** [1 << n] in [int], as [std::uint32_t] ([None]: undefined). *)
Definition slots (n : Z) : option Z := if n <? 32 then Some (2 ^ n) else None.

Definition maxBackoff : f64 := f64_of_Z 3600000000.

(** [random] is the number [RandomNumber<double>()] gives. *)
Definition CalcBackoffTime (b : TBackoffSettings) (retryNumber : Z) (random : f64) : option Z :=
  slots ← slots (Z.min retryNumber (Ceiling_ b));
  let maxDuration := f64_of_Z (u64 (SlotDuration_ b * slots)) in
  let uncertainty := f64_clamp (UncertainRatio_ b) f64_0 f64_1 in
  let multiplier := f64_add (f64_sub (f64_mul random uncertainty) uncertainty) f64_1 in
  f64_to_int (f64_clamp (f64_mul maxDuration multiplier) f64_0 maxBackoff).

Definition GetRetryDelay (cfg : TRetryOperationSettings) (step : NextStep) (retryNumber : Z)
    (random : f64) : option Z :=
  match step with
  | RetryImmediately => Some 0
  | RetryFastBackoff => CalcBackoffTime (FastBackoffSettings_ cfg) retryNumber random
  | _ => CalcBackoffTime (SlowBackoffSettings_ cfg) retryNumber random
  end.

(** ** The context *)

(** A result with its status; results made from a status have no payload. *)
Record TResult := mkRes { res_status : EStatus; payload : option nat }.

(** [TYdbRangeErrorException], or another one. *)
Inductive exn := RangeError (status : EStatus) | OtherError (what : nat).

(** How a run ends: with a result, with an exception, or where the backoff of its next
    retry is undefined, which gives the rest of the program no meaning. *)
Inductive thrown := Thrown (e : exn) | UndefinedBackoff.

(** The answer of an asynchronous call: a value, or an exception, which the call
    throws itself ([true]) or leaves in the future it returns. *)
Inductive session_answer :=
  | GotSession (session : nat)
  | NoSession (status : EStatus)
  | SessionThrows (now : bool) (e : exn).
Inductive operation_answer :=
  | Returns (r : TResult)
  | Throws (now : bool) (e : exn).

Record world := mkWorld {
  w_stop : nat -> bool;
  w_now : nat -> Z;
  w_session : nat -> session_answer;
  w_operation : nat -> operation_answer;
  w_random : nat -> f64
}.

(** A call of the operation: the session it was given, the time left it was told
    (when it takes it), the client's flag it saw, its answer. *)
Record op_call := mkCall {
  call_session : option nat;
  call_remaining : option Z;
  call_flag : bool;
  call_answer : operation_answer
}.

(** [TRetryContextBase] with the session state and the client's flag; then the
    cursors, and what was done: calls of the operation, collected statistics and
    delays. *)
Record base := mkBase {
  RetryNumber_ : Z;
  RetryStartTime_ : Z;
  LastBackoffMs_ : Z;
  Finished_ : bool;
  Session : option nat;
  InRetryOperationContext : bool;
  c_stop : nat; c_now : nat; c_session : nat; c_operation : nat; c_random : nat;
  Calls : list op_call;
  Stats : list EStatus;
  Delays : list Z
}.

Definition base0 (flag : bool) : base := mkBase 0 0 0 false None flag 0 0 0 0 0 [] [] [].

Definition set_number (v : Z) (b : base) : base :=
  mkBase (v) (RetryStartTime_ b) (LastBackoffMs_ b) (Finished_ b) (Session b)
    (InRetryOperationContext b) (c_stop b) (c_now b) (c_session b) (c_operation b)
    (c_random b) (Calls b) (Stats b) (Delays b).
Definition set_start (v : Z) (b : base) : base :=
  mkBase (RetryNumber_ b) (v) (LastBackoffMs_ b) (Finished_ b) (Session b)
    (InRetryOperationContext b) (c_stop b) (c_now b) (c_session b) (c_operation b)
    (c_random b) (Calls b) (Stats b) (Delays b).
Definition set_finished (b : base) : base :=
  mkBase (RetryNumber_ b) (RetryStartTime_ b) (LastBackoffMs_ b) (true) (Session b)
    (InRetryOperationContext b) (c_stop b) (c_now b) (c_session b) (c_operation b)
    (c_random b) (Calls b) (Stats b) (Delays b).
Definition set_session (v : option nat) (b : base) : base :=
  mkBase (RetryNumber_ b) (RetryStartTime_ b) (LastBackoffMs_ b) (Finished_ b) (v)
    (InRetryOperationContext b) (c_stop b) (c_now b) (c_session b) (c_operation b)
    (c_random b) (Calls b) (Stats b) (Delays b).
Definition set_flag (v : bool) (b : base) : base :=
  mkBase (RetryNumber_ b) (RetryStartTime_ b) (LastBackoffMs_ b) (Finished_ b)
    (Session b) (v) (c_stop b) (c_now b) (c_session b) (c_operation b) (c_random b)
    (Calls b) (Stats b) (Delays b).
Definition next_stop (b : base) : base :=
  mkBase (RetryNumber_ b) (RetryStartTime_ b) (LastBackoffMs_ b) (Finished_ b)
    (Session b) (InRetryOperationContext b) (S (c_stop b)) (c_now b) (c_session b)
    (c_operation b) (c_random b) (Calls b) (Stats b) (Delays b).
Definition next_now (b : base) : base :=
  mkBase (RetryNumber_ b) (RetryStartTime_ b) (LastBackoffMs_ b) (Finished_ b)
    (Session b) (InRetryOperationContext b) (c_stop b) (S (c_now b)) (c_session b)
    (c_operation b) (c_random b) (Calls b) (Stats b) (Delays b).
Definition next_session (b : base) : base :=
  mkBase (RetryNumber_ b) (RetryStartTime_ b) (LastBackoffMs_ b) (Finished_ b)
    (Session b) (InRetryOperationContext b) (c_stop b) (c_now b) (S (c_session b))
    (c_operation b) (c_random b) (Calls b) (Stats b) (Delays b).
Definition next_random (b : base) : base :=
  mkBase (RetryNumber_ b) (RetryStartTime_ b) (LastBackoffMs_ b) (Finished_ b)
    (Session b) (InRetryOperationContext b) (c_stop b) (c_now b) (c_session b)
    (c_operation b) (S (c_random b)) (Calls b) (Stats b) (Delays b).
Definition add_call (c : op_call) (b : base) : base :=
  mkBase (RetryNumber_ b) (RetryStartTime_ b) (LastBackoffMs_ b) (Finished_ b)
    (Session b) (InRetryOperationContext b) (c_stop b) (c_now b) (c_session b)
    (S (c_operation b)) (c_random b) (Calls b ++ [c]) (Stats b) (Delays b).
Definition add_stat (st : EStatus) (b : base) : base :=
  mkBase (RetryNumber_ b) (RetryStartTime_ b) (LastBackoffMs_ b) (Finished_ b)
    (Session b) (InRetryOperationContext b) (c_stop b) (c_now b) (c_session b)
    (c_operation b) (c_random b) (Calls b) (Stats b ++ [st]) (Delays b).
Definition add_delay (d : Z) (b : base) : base :=
  mkBase (RetryNumber_ b) (RetryStartTime_ b) (d / 1000) (Finished_ b)
    (Session b) (InRetryOperationContext b) (c_stop b) (c_now b) (c_session b)
    (c_operation b) (c_random b) (Calls b) (Stats b) (Delays b ++ [d]).

(** The context of an execution mode has members [X] of its own. *)
Definition ctx (X : Type) : Type := base * X.
Definition on_base {X} (f : base -> base) (c : ctx X) : ctx X := (f (fst c), snd c).

(** A step that may throw. *)
Abbreviation may_throw X := (ctx X -> (unit + exn) * ctx X).

Section Context.
Context (W : world) (cfg : TRetryOperationSettings) {X : Type}.
(** Whether the context works on sessions, and the operation takes a timeout. *)
Context (WithSession timed : bool).

Definition StopRequested (c : ctx X) : bool * ctx X :=
  if StopToken_ cfg then (w_stop W (c_stop (fst c)), on_base next_stop c) else (false, c).

Definition Now (c : ctx X) : Z * ctx X := (w_now W (c_now (fst c)), on_base next_now c).

(** The child's hooks. *)
Context (OnReady : TResult + thrown -> ctx X -> ctx X) (OnAttemptReady : TResult -> ctx X -> ctx X).

Definition Finish (r : TResult + thrown) (c : ctx X) : ctx X :=
  if Finished_ (fst c) then c else OnReady r (on_base set_finished c).

Definition FinishIfStopped (c : ctx X) : bool * ctx X :=
  if Finished_ (fst c) then (true, c)
  else
    let '(stop, c) := StopRequested c in
    if stop then
      let c := Finish (inl (mkRes CLIENT_CANCELLED None)) c in (Finished_ (fst c), c)
    else (Finished_ (fst c), c).

Definition Guarded (fn : may_throw X) (c : ctx X) : ctx X :=
  match fn c with
  | (inl _, c) => c
  | (inr (RangeError st), c) => OnAttemptReady (mkRes st None) c
  | (inr (OtherError e), c) => Finish (inr (Thrown (OtherError e))) c
  end.

(** [retry_index] is the number [GetRetryDelay] of the child passes on.  Where the delay
    is undefined the run ends. *)
Definition DoNext (retry_index : Z -> Z) (WaitAndExecute : ctx X -> ctx X) (result : TResult)
    (c : ctx X) : ctx X :=
  if Finished_ (fst c) then c
  else
    let '(stopped, c) := FinishIfStopped c in
    if stopped then c
    else
      let status := res_status result in
      if bool_decide (status = SUCCESS) then Finish (inl result) c
      else if MaxRetries_ cfg <=? RetryNumber_ (fst c) then Finish (inl result) c
      else
        let '(now, c) := Now c in
        if MaxTimeout_ cfg <=? sat_sub now (RetryStartTime_ (fst c)) then Finish (inl result) c
        else
          let decision := GetRetryDecision status cfg in
          let c := if ResetSession decision then on_base (set_session None) c else c in
          match Step decision with
          | StepFinish => Finish (inl result) c
          | step =>
              let delay := GetRetryDelay cfg step (retry_index (RetryNumber_ (fst c)))
                             (w_random W (c_random (fst c))) in
              let c := if bool_decide (step = RetryImmediately) then c else on_base next_random c in
              match delay with
              | None => Finish (inr UndefinedBackoff) c
              | Some delay =>
                  let c := on_base (fun b => set_number (u32 (RetryNumber_ b + 1)) b) c in
                  let c := on_base (add_stat status) c in
                  let c := on_base (add_delay delay) c in
                  WaitAndExecute c
              end
          end.

(** The operation is called with the client's flag up; the guard restores it. *)
Definition InvokeOperation (c : ctx X) : operation_answer * ctx X :=
  let previous := InRetryOperationContext (fst c) in
  let c := on_base (set_flag true) c in
  let '(remaining, c) :=
    if timed then
      let '(now, c) := Now c in
      (Some (sat_sub (MaxTimeout_ cfg) (sat_sub now (RetryStartTime_ (fst c)))), c)
    else (None, c) in
  let answer := w_operation W (c_operation (fst c)) in
  let c := on_base (add_call (mkCall (if WithSession then Session (fst c) else None) remaining
                       (InRetryOperationContext (fst c)) answer)) c in
  (answer, on_base (set_flag previous) c).

Definition RunAttempt (ExecuteImpl : may_throw X) : ctx X -> ctx X :=
  Guarded (fun c =>
    let '(stopped, c) := FinishIfStopped c in
    if stopped then (inl tt, c) else ExecuteImpl c).

Definition StartWith (run : ctx X -> ctx X) : ctx X -> ctx X :=
  Guarded (fun c =>
    let '(now, c) := Now c in (inl tt, run (on_base (set_start now) c))).

(** The callback of [GetSession], with what is done on the session. *)
Definition OnSession (operation : may_throw X) (a : session_answer) : may_throw X := fun c =>
  match a with
  | SessionThrows _ e => (inr e, c)
  | NoSession st => (inl tt, OnAttemptReady (mkRes st None) c)
  | GotSession s =>
      let c := on_base (set_session (Some s)) c in
      let '(stopped, c) := FinishIfStopped c in
      if stopped then (inl tt, c) else operation c
  end.

End Context.

(** ** The synchronous context *)

Record sync := mkSync { Result_ : option TResult; Exception_ : option thrown }.

Section Sync.
Context (W : world) (cfg : TRetryOperationSettings) (WithSession timed : bool).

Definition s_OnAttemptReady (r : TResult) (c : ctx sync) : ctx sync :=
  (fst c, mkSync (Some r) (Exception_ (snd c))).
Definition s_OnReady (r : TResult + thrown) (c : ctx sync) : ctx sync :=
  match r with
  | inl r => s_OnAttemptReady r c
  | inr e => (fst c, mkSync (Result_ (snd c)) (Some e))
  end.

Definition s_Operation : may_throw sync := fun c =>
  match InvokeOperation W cfg WithSession timed c with
  | (Returns r, c) => (inl tt, s_OnAttemptReady r c)
  | (Throws _ e, c) => (inr e, c)
  end.

(** [Await] blocks: the callback runs at once. *)
Definition s_ExecuteImpl : may_throw sync := fun c =>
  if (WithSession && bool_decide (Session (fst c) = None))%bool then
    let a := w_session W (c_session (fst c)) in
    OnSession W cfg s_OnReady s_OnAttemptReady s_Operation a (on_base next_session c)
  else s_Operation c.

Definition s_RunAttempt : ctx sync -> ctx sync :=
  RunAttempt W cfg s_OnReady s_OnAttemptReady s_ExecuteImpl.

Definition s_DoNext : TResult -> ctx sync -> ctx sync :=
  DoNext W cfg s_OnReady (fun n => n) s_RunAttempt.

(** The loop of [Execute]; [None]: [*Result_] of an empty optional, or out of fuel. *)
Fixpoint s_loop (fuel : nat) (c : ctx sync) : option (ctx sync) :=
  if Finished_ (fst c) then Some c
  else
    match fuel, Result_ (snd c) with
    | S fuel, Some r =>
        s_loop fuel (Guarded s_OnReady s_OnAttemptReady (fun c => (inl tt, s_DoNext r c)) c)
    | _, _ => None
    end.

Definition s_Start : ctx sync -> ctx sync :=
  StartWith W s_OnReady s_OnAttemptReady s_RunAttempt.

(** What [Execute] returns or throws, with the state it leaves. *)
Definition s_Execute (fuel : nat) (flag : bool) : option ((TResult + thrown) * base) :=
  c ← s_loop fuel (s_Start (base0 flag, mkSync None None));
  match Exception_ (snd c), Result_ (snd c) with
  | Some e, _ => Some (inr e, fst c)
  | None, Some r => Some (inl r, fst c)
  | None, None => None
  end.

End Sync.

(** ** The asynchronous context *)

(** What the context waits for: a session, a result, or the timer. *)
Inductive pending := NotPending | OnSessionReady (a : session_answer)
  | OnResultReady (a : operation_answer) | OnTimer.

(** [Promise_]; a second value is an error of the promise, remembered in [SetTwice]. *)
Record async := mkAsync {
  Promise_ : option (TResult + thrown);
  Pending : pending;
  SetTwice : bool
}.

Section Async.
Context (W : world) (cfg : TRetryOperationSettings) (WithSession timed : bool).

Definition set_pending (p : pending) (c : ctx async) : ctx async :=
  (fst c, mkAsync (Promise_ (snd c)) p (SetTwice (snd c))).

Definition a_OnReady (r : TResult + thrown) (c : ctx async) : ctx async :=
  match Promise_ (snd c) with
  | None => (fst c, mkAsync (Some r) (Pending (snd c)) (SetTwice (snd c)))
  | Some _ => (fst c, mkAsync (Promise_ (snd c)) (Pending (snd c)) true)
  end.

Definition a_DoNext : TResult -> ctx async -> ctx async :=
  DoNext W cfg a_OnReady (fun n => u32 (n + 1)) (set_pending OnTimer).

Definition a_OnAttemptReady : TResult -> ctx async -> ctx async := a_DoNext.

Definition a_Operation : may_throw async := fun c =>
  match InvokeOperation W cfg WithSession timed c with
  | (Throws true e, c) => (inr e, c)
  | (a, c) => (inl tt, set_pending (OnResultReady a) c)
  end.

Definition a_ExecuteImpl : may_throw async := fun c =>
  if (WithSession && bool_decide (Session (fst c) = None))%bool then
    let a := w_session W (c_session (fst c)) in
    let c := on_base next_session c in
    match a with
    | SessionThrows true e => (inr e, c)
    | _ => (inl tt, set_pending (OnSessionReady a) c)
    end
  else a_Operation c.

Definition a_RunAttempt : ctx async -> ctx async :=
  RunAttempt W cfg a_OnReady a_OnAttemptReady a_ExecuteImpl.

(** A future or the timer calls back. *)
Definition a_resume (c : ctx async) : ctx async :=
  let p := Pending (snd c) in
  let c := set_pending NotPending c in
  match p with
  | NotPending => c
  | OnTimer => a_RunAttempt c
  | OnSessionReady a =>
      Guarded a_OnReady a_OnAttemptReady
        (OnSession W cfg a_OnReady a_OnAttemptReady a_Operation a) c
  | OnResultReady a =>
      Guarded a_OnReady a_OnAttemptReady
        (fun c => match a with
                  | Returns r => (inl tt, a_OnAttemptReady r c)
                  | Throws _ e => (inr e, c)
                  end) c
  end.

Definition a_Start : ctx async -> ctx async := StartWith W a_OnReady a_OnAttemptReady a_RunAttempt.

(** The context after [n] callbacks. *)
Definition a_Execute (n : nat) (flag : bool) : ctx async :=
  Nat.iter n a_resume (a_Start (base0 flag, mkAsync None NotPending false)).

End Async.

(** ** Unary calls *)

Definition set_MaxRetries (n : Z) (c : TRetryOperationSettings) : TRetryOperationSettings :=
  mkRetrySettings n (RetryNotFound_ c) (GetSessionClientTimeout_ c) (MaxTimeout_ c)
    (FastBackoffSettings_ c) (SlowBackoffSettings_ c) (Idempotent_ c) (IdempotentWasSet_ c)
    (RetryUndefined_ c) (StopToken_ c).
Definition set_MaxTimeout (n : Z) (c : TRetryOperationSettings) : TRetryOperationSettings :=
  mkRetrySettings (MaxRetries_ c) (RetryNotFound_ c) (GetSessionClientTimeout_ c) n
    (FastBackoffSettings_ c) (SlowBackoffSettings_ c) (Idempotent_ c) (IdempotentWasSet_ c)
    (RetryUndefined_ c) (StopToken_ c).
(** [Idempotent(value)]. *)
Definition set_Idempotent (v : bool) (c : TRetryOperationSettings) : TRetryOperationSettings :=
  mkRetrySettings (MaxRetries_ c) (RetryNotFound_ c) (GetSessionClientTimeout_ c) (MaxTimeout_ c)
    (FastBackoffSettings_ c) (SlowBackoffSettings_ c) v true (RetryUndefined_ c) (StopToken_ c).

Definition IsRetryEnabled (cfg : TRetryOperationSettings) : bool := 0 <? MaxRetries_ cfg.

Definition ResolveRetrySettings (clientDefault : TRetryOperationSettings)
    (operationOverride explicitOverride : option TRetryOperationSettings)
    (operationClientTimeout : Z) (idempotentDefault : bool) : TRetryOperationSettings :=
  let s := default (default clientDefault operationOverride) explicitOverride in
  let s :=
    if operationClientTimeout =? duration_max then s
    else if ((MaxTimeout_ s =? duration_max) || (operationClientTimeout <? MaxTimeout_ s))%bool
    then set_MaxTimeout operationClientTimeout s else s in
  if (bool_decide (explicitOverride = None) && bool_decide (operationOverride = None) &&
      idempotentDefault && negb (IdempotentWasSet_ clientDefault))%bool
  then set_Idempotent true s else s.

(** The request is made once, or the context runs it ([m] callbacks so far). *)
Inductive unary_run := RunOnce (c : op_call) | RunRetried (nested : bool) (c : ctx async).

(** What the operation of the context hands on to the request: the time left, or
    [TDuration::Max()] in a nested call. *)
Definition run_once (nested : bool) (c : op_call) : op_call :=
  mkCall (call_session c) (if nested then Some duration_max else call_remaining c) (call_flag c)
    (call_answer c).

(** [nested]: the client's flag, up inside of an operation that is retried itself. *)
Definition RunUnaryWithRetry (W : world) (cfg : TRetryOperationSettings) (nested : bool) (m : nat)
    : unary_run :=
  if (negb (StopToken_ cfg) && (nested || negb (IsRetryEnabled cfg)))%bool then
    RunOnce (mkCall None (Some (if nested then duration_max else MaxTimeout_ cfg)) nested
               (w_operation W 0))
  else
    RunRetried nested (a_Execute W (if nested then set_MaxRetries 0 cfg else cfg) false true m nested).

(** The requests made. *)
Definition unary_calls (u : unary_run) : list op_call :=
  match u with RunOnce c => [c] | RunRetried nested c => map (run_once nested) (Calls (fst c)) end.

(** ** Reference

    One attempt and one decision on the shared part of the state, and the loop
    of both; the two contexts are shown to compute it. *)

(** The attempt finished the operation, or its result is to be looked at. *)
Inductive attempt_end := Ended (out : TResult + thrown) | Ready (r : TResult).

Section Reference.
Context (W : world) (cfg : TRetryOperationSettings) (WithSession timed : bool).
Context (retry_index : Z -> Z).

Definition ref_stop (b : base) : bool * base :=
  if StopToken_ cfg then (w_stop W (c_stop b), next_stop b) else (false, b).

Definition cancelled : TResult + thrown := inl (mkRes CLIENT_CANCELLED None).

Definition ref_exn (e : exn) (b : base) : base * attempt_end :=
  match e with
  | RangeError st => (b, Ready (mkRes st None))
  | OtherError _ => (set_finished b, Ended (inr (Thrown e)))
  end.

Definition ref_operation (b : base) : base * attempt_end :=
  let '(a, (b, _)) := InvokeOperation W cfg WithSession timed (b, tt) in
  match a with
  | Returns r => (b, Ready r)
  | Throws _ e => ref_exn e b
  end.

Definition ref_session (a : session_answer) (b : base) : base * attempt_end :=
  match a with
  | SessionThrows _ e => ref_exn e b
  | NoSession st => (b, Ready (mkRes st None))
  | GotSession s =>
      let '(stop, b) := ref_stop (set_session (Some s) b) in
      if stop then (set_finished b, Ended cancelled) else ref_operation b
  end.

Definition ref_attempt (b : base) : base * attempt_end :=
  let '(stop, b) := ref_stop b in
  if stop then (set_finished b, Ended cancelled)
  else if (WithSession && bool_decide (Session b = None))%bool
  then ref_session (w_session W (c_session b)) (next_session b)
  else ref_operation b.

(** [Some out]: finished. *)
Definition ref_next (r : TResult) (b : base) : base * option (TResult + thrown) :=
  let '(stop, b) := ref_stop b in
  if stop then (set_finished b, Some cancelled)
  else
    let status := res_status r in
    if bool_decide (status = SUCCESS) then (set_finished b, Some (inl r))
    else if MaxRetries_ cfg <=? RetryNumber_ b then (set_finished b, Some (inl r))
    else
      let now := w_now W (c_now b) in
      let b := next_now b in
      if MaxTimeout_ cfg <=? sat_sub now (RetryStartTime_ b) then (set_finished b, Some (inl r))
      else
        let decision := GetRetryDecision status cfg in
        let b := if ResetSession decision then set_session None b else b in
        if bool_decide (Step decision = StepFinish) then (set_finished b, Some (inl r))
        else
          let delay := GetRetryDelay cfg (Step decision) (retry_index (RetryNumber_ b))
                         (w_random W (c_random b)) in
          let b := if bool_decide (Step decision = RetryImmediately) then b else next_random b in
          match delay with
          | None => (set_finished b, Some (inr UndefinedBackoff))
          | Some delay =>
              (add_delay delay (add_stat status (set_number (u32 (RetryNumber_ b + 1)) b)), None)
          end.

Fixpoint ref_loop (fuel : nat) (e : base * attempt_end) : option ((TResult + thrown) * base) :=
  match e, fuel with
  | (b, Ended out), _ => Some (out, b)
  | (b, Ready r), O => None
  | (b, Ready r), S fuel =>
      match ref_next r b with
      | (b, Some out) => Some (out, b)
      | (b, None) => ref_loop fuel (ref_attempt b)
      end
  end.

Definition ref_start (flag : bool) : base * attempt_end :=
  let b := base0 flag in ref_attempt (set_start (w_now W (c_now b)) (next_now b)).

End Reference.

(** The state without the delays, which the two modes compute differently. *)
Definition strip (b : base) : base :=
  mkBase (RetryNumber_ b) (RetryStartTime_ b) 0 (Finished_ b) (Session b)
    (InRetryOperationContext b) (c_stop b) (c_now b) (c_session b) (c_operation b) (c_random b)
    (Calls b) (Stats b) [].

(** ** The contexts compute the reference *)

Section Agree.
Context (W : world) (cfg : TRetryOperationSettings) (WithSession timed : bool).

Lemma invoke_base {X} (b : base) (x : X) :
  InvokeOperation W cfg WithSession timed (b, x) =
  (fst (InvokeOperation W cfg WithSession timed (b, tt)),
   (fst (snd (InvokeOperation W cfg WithSession timed (b, tt))), x)).
Proof. unfold InvokeOperation. by destruct timed. Qed.

Lemma invoke_finished b : Finished_ (fst (snd (InvokeOperation W cfg WithSession timed (b, tt)))) =
  Finished_ b.
Proof. unfold InvokeOperation. by destruct timed. Qed.

Lemma ref_stop_finished b : Finished_ (snd (ref_stop W cfg b)) = Finished_ b.
Proof. unfold ref_stop. by destruct (StopToken_ cfg). Qed.

(** How a mode's members take the end of an attempt. *)
Definition s_deliver (e : attempt_end) (x : sync) : sync :=
  match e with
  | Ready r | Ended (inl r) => mkSync (Some r) (Exception_ x)
  | Ended (inr e) => mkSync (Result_ x) (Some e)
  end.

Lemma FinishIfStopped_ref {X} (ready : TResult + thrown -> ctx X -> ctx X) b x :
  Finished_ b = false -> (forall r c, fst (ready r c) = fst c) ->
  FinishIfStopped W cfg ready (b, x) =
  let '(stop, b') := ref_stop W cfg b in
  if stop then (true, ready cancelled (set_finished b', x)) else (false, (b', x)).
Proof.
  intros Hf Hr. unfold FinishIfStopped, StopRequested, ref_stop, Finish, on_base. cbn. rewrite Hf.
  destruct (StopToken_ cfg); cbn; rewrite ?Hf; [|done].
  destruct (w_stop W (c_stop b)); cbn; rewrite ?Hf; [|done]. by rewrite Hr.
Qed.

Lemma s_OnReady_base r c : fst (s_OnReady r c) = fst c.
Proof. by destruct r. Qed.

Lemma s_RunAttempt_ref b x : Finished_ b = false ->
  s_RunAttempt W cfg WithSession timed (b, x) =
  let '(b', e) := ref_attempt W cfg WithSession timed b in (b', s_deliver e x).
Proof.
  intros Hf. unfold s_RunAttempt, RunAttempt, Guarded, ref_attempt.
  rewrite (FinishIfStopped_ref _ _ _ Hf s_OnReady_base).
  pose proof (ref_stop_finished b) as Hf1. destruct (ref_stop W cfg b) as [stop b1].
  destruct stop; [done|]. cbn [snd] in Hf1. rewrite Hf in Hf1. clear Hf b.
  assert (forall b, Finished_ b = false ->
    match s_Operation W cfg WithSession timed (b, x) with
    | (inl _, c) => c
    | (inr (RangeError st), c) => s_OnAttemptReady (mkRes st None) c
    | (inr (OtherError e), c) => Finish s_OnReady (inr (Thrown (OtherError e))) c
    end = let '(b', e) := ref_operation W cfg WithSession timed b in (b', s_deliver e x)) as Hop.
  { intros b Hf. unfold s_Operation, ref_operation. rewrite invoke_base.
    pose proof (invoke_finished b) as Hi.
    destruct (InvokeOperation W cfg WithSession timed (b, tt)) as [a [b' []]]. cbn in *.
    destruct a as [r|now [st|e]]; cbn; try done. unfold Finish. cbn. by rewrite Hi, Hf. }
  unfold s_ExecuteImpl. cbn [fst on_base snd]. destruct (_ && _)%bool; [|by apply Hop].
  unfold OnSession, ref_session. destruct (w_session W _) as [s|st|now [st|e]]; try done.
  - unfold on_base. cbn [fst snd].
    rewrite FinishIfStopped_ref by (done || apply s_OnReady_base).
    pose proof (ref_stop_finished (set_session (Some s) (next_session b1))) as Hf2.
    destruct (ref_stop W cfg (set_session _ _)) as [stop b2]. destruct stop; [done|].
    apply Hop. cbn [snd] in Hf2. by rewrite Hf2.
  - cbn. unfold Finish. cbn. by rewrite Hf1.
Qed.

Lemma DoNext_ref {X} (ready : TResult + thrown -> ctx X -> ctx X) index wait r b x :
  Finished_ b = false -> (forall r c, fst (ready r c) = fst c) ->
  DoNext W cfg ready index wait r (b, x) =
  match ref_next W cfg index r b with
  | (b', Some out) => ready out (b', x)
  | (b', None) => wait (b', x)
  end.
Proof.
  intros Hf Hr. unfold DoNext, ref_next. cbn [fst]. rewrite Hf.
  rewrite (FinishIfStopped_ref _ _ _ Hf Hr).
  pose proof (ref_stop_finished b) as Hf1. destruct (ref_stop W cfg b) as [stop b1].
  destruct stop; [done|]. cbn [snd] in Hf1. rewrite Hf in Hf1. clear Hf b.
  unfold Finish, Now, on_base. cbn [fst snd].
  destruct (bool_decide (res_status r = SUCCESS)); [by rewrite Hf1|].
  destruct (_ <=? RetryNumber_ b1); [by rewrite Hf1|]. cbn [fst snd].
  destruct (_ <=? sat_sub _ _); [cbn; by rewrite Hf1|].
  destruct (GetRetryDecision _ cfg) as [step reset]. cbn [ResetSession Step].
  destruct reset; cbn [fst snd]; destruct step; cbn -[CalcBackoffTime];
    try destruct (CalcBackoffTime _ _ _); cbn;
    rewrite ?Hf1; try done.
  all: rewrite !bool_decide_eq_false_2 by done; cbn; by rewrite Hf1.
Qed.

(** A reference run that is not finished leaves the flag down. *)
Lemma ref_next_finished index r b : Finished_ b = false ->
  Finished_ (fst (ref_next W cfg index r b)) = bool_decide (is_Some (snd (ref_next W cfg index r b))).
Proof.
  intros Hf. unfold ref_next. pose proof (ref_stop_finished b) as Hf1.
  destruct (ref_stop W cfg b) as [stop b1]. destruct stop; [done|]. cbn [snd] in Hf1.
  repeat case_match; cbn; try done; congruence.
Qed.

Lemma ref_attempt_finished b : Finished_ b = false ->
  Finished_ (fst (ref_attempt W cfg WithSession timed b)) =
  match snd (ref_attempt W cfg WithSession timed b) with Ended _ => true | Ready _ => false end.
Proof.
  intros Hf.
  assert (forall e b, Finished_ b = false -> Finished_ (fst (ref_exn e b)) =
    match snd (ref_exn e b) with Ended _ => true | Ready _ => false end) as He.
  { by intros []. }
  assert (forall b, Finished_ b = false ->
    Finished_ (fst (ref_operation W cfg WithSession timed b)) =
    match snd (ref_operation W cfg WithSession timed b) with Ended _ => true | Ready _ => false end)
    as Ho.
  { intros b1 H1. unfold ref_operation. pose proof (invoke_finished b1) as Hi.
    destruct (InvokeOperation _ _ _ _ _) as [[r|now e] [b2 []]]; cbn in *; [congruence|].
    apply He. congruence. }
  unfold ref_attempt. pose proof (ref_stop_finished b) as Hf1.
  destruct (ref_stop W cfg b) as [stop b1]. destruct stop; [done|]. cbn [snd] in Hf1.
  destruct (_ && _)%bool; [|apply Ho; congruence]. unfold ref_session.
  destruct (w_session _ _) as [s|st|now e]; [|cbn; congruence|apply He; cbn; congruence].
  pose proof (ref_stop_finished (set_session (Some s) (next_session b1))) as Hf2.
  destruct (ref_stop W cfg (set_session _ _)) as [stop b2]. destruct stop; [done|].
  apply Ho. cbn in Hf2. congruence.
Qed.

(** The synchronous loop. *)
Definition s_outcome (c : ctx sync) : option ((TResult + thrown) * base) :=
  match Exception_ (snd c), Result_ (snd c) with
  | Some e, _ => Some (inr e, fst c)
  | None, Some r => Some (inl r, fst c)
  | None, None => None
  end.

Lemma s_loop_ref fuel b e x : Exception_ x = None ->
  Finished_ b = match e with Ended _ => true | Ready _ => false end ->
  s_loop W cfg WithSession timed fuel (b, s_deliver e x) ≫= s_outcome =
  ref_loop W cfg WithSession timed (fun n => n) fuel (b, e).
Proof.
  revert b e x. induction fuel as [|fuel IH]; intros b e x Hx Hf.
  all: cbn [s_loop fst snd]; rewrite Hf; destruct e as [[r|e]|r]; [by cbn; rewrite Hx|done|].
  all: cbn [s_deliver Result_ ref_loop snd]. 1: done.
  unfold Guarded, s_DoNext. rewrite DoNext_ref by (done || apply s_OnReady_base).
  pose proof (ref_next_finished (fun n => n) r b Hf) as Hn.
  destruct (ref_next W cfg _ r b) as [b1 [out|]]; cbn [fst snd] in Hn.
  - destruct out as [r'|e]; destruct fuel; cbn; rewrite Hn; cbn; by rewrite ?Hx.
  - rewrite s_RunAttempt_ref by done. pose proof (ref_attempt_finished b1 Hn) as Ha.
    destruct (ref_attempt _ _ _ _ b1) as [b2 e]. by apply IH.
Qed.

Lemma s_Execute_ref fuel flag : s_Execute W cfg WithSession timed fuel flag =
  ref_loop W cfg WithSession timed (fun n => n) fuel (ref_start W cfg WithSession timed flag).
Proof.
  unfold s_Execute, ref_start, s_Start, StartWith, Guarded, Now, on_base. cbn [fst snd].
  rewrite s_RunAttempt_ref by done.
  pose proof (ref_attempt_finished (set_start (w_now W (c_now (base0 flag))) (next_now (base0 flag)))
    eq_refl) as Ha.
  destruct (ref_attempt _ _ _ _ _) as [b e]. by rewrite <- (s_loop_ref fuel b e (mkSync None None)).
Qed.

(** The asynchronous context. *)
Definition waiting : async := mkAsync None NotPending false.
Definition done_with (out : TResult + thrown) : async := mkAsync (Some out) NotPending false.

Lemma a_OnReady_base r c : fst (a_OnReady r c) = fst c.
Proof. unfold a_OnReady. by destruct (Promise_ (snd c)). Qed.

Definition a_next (r : TResult) (b : base) : ctx async :=
  match ref_next W cfg (fun n => u32 (n + 1)) r b with
  | (b', Some out) => (b', done_with out)
  | (b', None) => (b', mkAsync None OnTimer false)
  end.

Lemma a_DoNext_ref r b : Finished_ b = false -> a_DoNext W cfg r (b, waiting) = a_next r b.
Proof.
  intros Hf. unfold a_DoNext, a_next. rewrite DoNext_ref by (done || apply a_OnReady_base).
  by destruct (ref_next _ _ _ r b) as [? [?|]].
Qed.

(** An attempt is over after at most two callbacks. *)
Definition a_end (e : base * attempt_end) : ctx async :=
  match e with
  | (b, Ended out) => (b, done_with out)
  | (b, Ready r) => a_next r b
  end.

Abbreviation resume := (a_resume W cfg WithSession timed).

Lemma a_exn e b : Finished_ b = false ->
  match e with
  | RangeError st => a_OnAttemptReady W cfg (mkRes st None) (b, waiting)
  | OtherError w => Finish a_OnReady (inr (Thrown (OtherError w))) (b, waiting)
  end = a_end (ref_exn e b).
Proof.
  intros Hf. destruct e as [st|w]; cbn; [by apply a_DoNext_ref|]. unfold Finish. cbn. by rewrite Hf.
Qed.

Lemma a_operation b : Finished_ b = false -> exists n, (n <= 1)%nat /\
  Nat.iter n resume
    match a_Operation W cfg WithSession timed (b, waiting) with
    | (inl _, c) => c
    | (inr (RangeError st), c) => a_OnAttemptReady W cfg (mkRes st None) c
    | (inr (OtherError e), c) => Finish a_OnReady (inr (Thrown (OtherError e))) c
    end = a_end (ref_operation W cfg WithSession timed b).
Proof.
  intros Hf. unfold a_Operation, ref_operation. rewrite invoke_base.
  pose proof (invoke_finished b) as Hi.
  destruct (InvokeOperation _ _ _ _ (b, tt)) as [a [b' []]]. cbn [fst snd] in *. rewrite Hf in Hi.
  destruct a as [r|[] e].
  - exists 1%nat. split; [lia|]. cbn. by apply a_DoNext_ref.
  - exists 0%nat. split; [lia|]. cbn. rewrite <- a_exn by done. by destruct e.
  - exists 1%nat. split; [lia|]. cbn. rewrite <- a_exn by done. by destruct e.
Qed.

Lemma resume_session s b : resume (b, mkAsync None (OnSessionReady (GotSession s)) false) =
  match (let '(stopped, c) := FinishIfStopped W cfg a_OnReady (set_session (Some s) b, waiting) in
         if stopped then (inl tt, c) else a_Operation W cfg WithSession timed c) with
  | (inl _, c) => c
  | (inr (RangeError st), c) => a_OnAttemptReady W cfg (mkRes st None) c
  | (inr (OtherError e), c) => Finish a_OnReady (inr (Thrown (OtherError e))) c
  end.
Proof. done. Qed.

Lemma a_RunAttempt_ref b : Finished_ b = false -> exists n, (n <= 2)%nat /\
  Nat.iter n resume (a_RunAttempt W cfg WithSession timed (b, waiting)) =
  a_end (ref_attempt W cfg WithSession timed b).
Proof.
  intros Hf. unfold a_RunAttempt, RunAttempt, Guarded at 1, ref_attempt.
  rewrite (FinishIfStopped_ref _ _ _ Hf a_OnReady_base).
  pose proof (ref_stop_finished b) as Hf1. destruct (ref_stop W cfg b) as [stop b1].
  destruct stop; [by exists 0%nat; split; [lia|]|]. cbn [snd] in Hf1. rewrite Hf in Hf1. clear Hf b.
  unfold a_ExecuteImpl. cbn [fst]. destruct (_ && _)%bool.
  - unfold on_base. cbn [fst snd]. unfold ref_session. set (b2 := next_session b1).
    destruct (w_session W _) as [s|st|[] e].
    + set (b3 := set_session (Some s) b2).
      pose proof (ref_stop_finished b3) as Hf2.
      pose proof (FinishIfStopped_ref a_OnReady b3 waiting Hf1 a_OnReady_base) as Hs.
      destruct (ref_stop W cfg b3) as [stop b4]. cbn [snd] in Hf2. destruct stop.
      * exists 1%nat. split; [lia|]. cbn [Nat.iter nat_rect]. etrans; [apply (resume_session s b2)|]. fold b3. by rewrite Hs.
      * destruct (a_operation b4) as (n & Hn & E); [rewrite Hf2; done|].
        exists (n + 1)%nat. split; [lia|]. rewrite Nat.iter_add, <- E. f_equal.
        cbn [Nat.iter nat_rect]. etrans; [apply (resume_session s b2)|]. fold b3. by rewrite Hs.
    + exists 1%nat. split; [lia|]. cbn. by apply a_DoNext_ref.
    + exists 0%nat. split; [lia|]. cbn. rewrite <- a_exn by done. by destruct e.
    + exists 1%nat. split; [lia|]. cbn. rewrite <- a_exn by done. by destruct e.
  - destruct (a_operation b1 Hf1) as (n & Hn & E). exists n. split; [lia|exact E].
Qed.

(** Once it is done, the context stays as it is. *)
Lemma resume_done n b out : Nat.iter n resume (b, done_with out) = (b, done_with out).
Proof. induction n as [|n IH]; [done|]. rewrite Nat.iter_succ. by rewrite IH. Qed.

Lemma a_loop_ref fuel e out b : Finished_ (fst e) = match snd e with Ended _ => true | Ready _ => false end ->
  ref_loop W cfg WithSession timed (fun n => u32 (n + 1)) fuel e = Some (out, b) ->
  exists n, (n <= 3 * fuel)%nat /\ Nat.iter n resume (a_end e) = (b, done_with out).
Proof.
  revert e. induction fuel as [|fuel IH]; intros [b1 [out1|r]] Hf; cbn [ref_loop a_end fst snd] in *.
  1,3: by intros [= <- <-]; exists 0%nat; split; [lia|].
  1: done.
  unfold a_next. pose proof (ref_next_finished (fun n => u32 (n + 1)) r b1 Hf) as Hn.
  destruct (ref_next W cfg _ r b1) as [b2 [out2|]]; cbn [fst snd] in Hn.
  - intros [= <- <-]. exists 0%nat. by split; [lia|].
  - intros E. destruct (a_RunAttempt_ref b2 Hn) as (n & Hle & Ea).
    pose proof (ref_attempt_finished b2 Hn) as Ha.
    destruct (IH _ Ha E) as (k & Hk & Ek). exists (k + (n + 1))%nat. split; [lia|].
    rewrite !Nat.iter_add. change (Nat.iter 1 resume (b2, _)) with
      (a_RunAttempt W cfg WithSession timed (b2, waiting)). by rewrite Ea.
Qed.

Lemma a_Execute_ref fuel flag out b :
  ref_loop W cfg WithSession timed (fun n => u32 (n + 1)) fuel
    (ref_start W cfg WithSession timed flag) = Some (out, b) ->
  forall m, (3 * fuel + 2 <= m)%nat ->
  a_Execute W cfg WithSession timed m flag = (b, done_with out).
Proof.
  intros E m Hm. unfold a_Execute, a_Start, StartWith, Guarded, Now, on_base. cbn [fst snd].
  set (b0 := set_start _ _).
  destruct (a_RunAttempt_ref b0 eq_refl) as (n & Hn & Ea).
  destruct (a_loop_ref fuel _ out b (ref_attempt_finished b0 eq_refl) E) as (k & Hk & Ek).
  replace m with ((m - (k + n)) + (k + n))%nat by lia. rewrite !Nat.iter_add.
  etrans; [|apply (resume_done (m - (k + n)))]. f_equal. rewrite <- Ek. f_equal. exact Ea.
Qed.
End Agree.

(** ** Runs of the reference *)

(** The result an answer of the operation stands for. *)
Definition answer_result (a : operation_answer) : option TResult :=
  match a with
  | Returns r => Some r
  | Throws _ (RangeError st) => Some (mkRes st None)
  | Throws _ (OtherError _) => None
  end.

Section Runs.
Context (W : world) (cfg : TRetryOperationSettings) (WithSession timed : bool) (flag : bool).

Definition retryable (c : op_call) : Prop := exists r,
  answer_result (call_answer c) = Some r /\ ShouldRetryStatus (res_status r) cfg = true.

(** A call as the context makes it. *)
Definition proper_call (c : op_call) : Prop :=
  call_flag c = true /\ (WithSession = true -> is_Some (call_session c)).

(** The calls of a run: every one but that of the attempt in question was worth a
    retry. *)
Record calls_ok (b : base) (e : attempt_end) : Prop := {
  co_calls : exists prev cur, Calls b = prev ++ cur /\ Forall retryable prev /\
    Z.of_nat (length prev) <= RetryNumber_ b /\
    (cur = [] \/ exists c, cur = [c] /\ match e with
                                        | Ready r => answer_result (call_answer c) = Some r
                                        | Ended _ => True
                                        end);
  co_proper : Forall proper_call (Calls b);
  co_flag : InRetryOperationContext b = flag;
  co_number : 0 <= RetryNumber_ b <= MaxRetries_ cfg
}.

(** Between attempts. *)
Record rested (b : base) : Prop := {
  re_calls : Forall retryable (Calls b);
  re_length : Z.of_nat (length (Calls b)) <= RetryNumber_ b;
  re_proper : Forall proper_call (Calls b);
  re_flag : InRetryOperationContext b = flag;
  re_number : 0 <= RetryNumber_ b <= MaxRetries_ cfg
}.

Lemma rested_ended b out : rested b -> calls_ok (set_finished b) (Ended out).
Proof.
  intros []. split; try done. exists (Calls b), []. rewrite app_nil_r. split_and!; auto.
Qed.

Lemma rested_ready b r : rested b -> calls_ok b (Ready r).
Proof. intros []. split; try done. exists (Calls b), []. rewrite app_nil_r. split_and!; auto. Qed.

Lemma rested_stop b : rested b -> rested (snd (ref_stop W cfg b)).
Proof. intros []. unfold ref_stop. destruct (StopToken_ cfg); by split. Qed.

Lemma ref_exn_ok e b : rested b -> calls_ok (fst (ref_exn e b)) (snd (ref_exn e b)).
Proof. intros R. destruct e; cbn; [by apply rested_ready|by apply rested_ended]. Qed.

Lemma ref_operation_ok b : rested b -> (WithSession = true -> is_Some (Session b)) ->
  calls_ok (fst (ref_operation W cfg WithSession timed b))
           (snd (ref_operation W cfg WithSession timed b)).
Proof.
  intros [] Hs. unfold ref_operation, InvokeOperation, on_base, Now.
  assert (forall c b' e, Calls b' = Calls b ++ [c] -> proper_call c ->
    InRetryOperationContext b' = InRetryOperationContext b -> RetryNumber_ b' = RetryNumber_ b ->
    match e with Ready r => answer_result (call_answer c) = Some r | Ended _ => True end ->
    calls_ok b' e) as H.
  { intros c b' e Ec Hc Ef En He. split; [|by rewrite Ec; apply Forall_app; auto|congruence|by rewrite En].
    exists (Calls b), [c]. split_and!; [done|done|by rewrite En|eauto]. }
  destruct timed; cbn; destruct (w_operation W _) as [r|now [st|x]] eqn:Ea; cbn;
    (eapply H; [reflexivity| |reflexivity|reflexivity|by cbn; rewrite ?Ea]);
    (split; [done|]; cbn; by destruct WithSession; [apply Hs|]).
Qed.

Lemma ref_attempt_ok b : rested b ->
  calls_ok (fst (ref_attempt W cfg WithSession timed b)) (snd (ref_attempt W cfg WithSession timed b)).
Proof.
  intros R. unfold ref_attempt. pose proof (rested_stop b R) as R1.
  destruct (ref_stop W cfg b) as [stop b1]. cbn [snd] in R1. destruct stop; [by apply rested_ended|].
  destruct (_ && _)%bool eqn:Es.
  - assert (rested (next_session b1)) as R2 by (by destruct R1).
    unfold ref_session. destruct (w_session W _) as [s|st|now e];
      [|by apply rested_ready|by apply ref_exn_ok].
    assert (rested (set_session (Some s) (next_session b1))) as R3 by (by destruct R2).
    pose proof (rested_stop _ R3) as R4. destruct (ref_stop W cfg (set_session _ _)) as [stop b2] eqn:E2.
    destruct stop; [by apply rested_ended|]. apply ref_operation_ok; [done|].
    intros _. apply (f_equal snd) in E2. cbn in E2. subst b2. exists s. unfold ref_stop.
    by destruct (StopToken_ cfg).
  - apply ref_operation_ok; [done|]. intros ->. cbn in Es. apply bool_decide_eq_false in Es.
    by destruct (Session b1); [eexists|].
Qed.

Lemma ref_next_ok index r b : calls_ok b (Ready r) -> MaxRetries_ cfg < 2 ^ 32 ->
  match ref_next W cfg index r b with
  | (b', Some out) => calls_ok b' (Ended out)
  | (b', None) => rested b' /\ RetryNumber_ b' = RetryNumber_ b + 1
  end.
Proof.
  intros C Hmax.
  assert (forall b' out, Calls b' = Calls b -> InRetryOperationContext b' = InRetryOperationContext b ->
    RetryNumber_ b' = RetryNumber_ b -> calls_ok b' (Ended out)) as Hend.
  { intros b' out Ec Ef En. destruct C as [(prev & cur & E & Hp & Hl & Hc) ? ? ?].
    split; [|by rewrite Ec|congruence|by rewrite En]. exists prev, cur. rewrite Ec, En.
    split_and!; [done..|]. destruct Hc as [->|(c & -> & _)]; eauto. }
  unfold ref_next. destruct (ref_stop W cfg b) as [stop b1] eqn:E1.
  assert (Calls b1 = Calls b /\ InRetryOperationContext b1 = InRetryOperationContext b /\
    RetryNumber_ b1 = RetryNumber_ b) as (Ec & Ef & En).
  { apply (f_equal snd) in E1. cbn in E1. subst b1. unfold ref_stop. by destruct (StopToken_ cfg). }
  destruct stop; [by apply Hend|].
  destruct (bool_decide (res_status r = SUCCESS)); [by apply Hend|].
  destruct (Z.leb_spec (MaxRetries_ cfg) (RetryNumber_ b1)) as [Hge|Hlt]; [by apply Hend|].
  destruct (_ <=? sat_sub _ _); [by apply Hend|].
  destruct (bool_decide (Step (GetRetryDecision (res_status r) cfg) = StepFinish)) eqn:Es.
  { apply Hend; by destruct (ResetSession _). }
  destruct (GetRetryDelay _ _ _ _);
    [|apply Hend; by destruct (ResetSession _), (bool_decide (_ = RetryImmediately))].
  destruct C as [(prev & cur & E & Hp & Hl & Hc) Hpr Hfl Hnum]. rewrite En in Hlt.
  match goal with |- rested ?x /\ _ => assert (Calls x = Calls b /\ InRetryOperationContext x = flag /\
    RetryNumber_ x = RetryNumber_ b + 1) as (Xc & Xf & Xn) end.
  { assert (u32 (RetryNumber_ b + 1) = RetryNumber_ b + 1) as Hu
      by (apply wrapU_small; unfold inU; lia).
    destruct (ResetSession _), (bool_decide (_ = RetryImmediately)); cbn; rewrite En, Hu;
      split_and!; congruence. }
  split; [|done]. split.
  - rewrite Xc, E. apply Forall_app. split; [done|]. destruct Hc as [->|(c & -> & Hc)]; [done|].
    apply Forall_singleton. exists r. split; [done|]. unfold ShouldRetryStatus. by rewrite Es.
  - rewrite Xc, Xn, E, length_app. destruct Hc as [->|(c & -> & Hc)]; cbn; lia.
  - by rewrite Xc.
  - done.
  - lia.
Qed.

Lemma ref_loop_ok index fuel e : calls_ok (fst e) (snd e) -> MaxRetries_ cfg < 2 ^ 32 ->
  MaxRetries_ cfg - RetryNumber_ (fst e) < Z.of_nat fuel ->
  exists out b, ref_loop W cfg WithSession timed index fuel e = Some (out, b) /\
    calls_ok b (Ended out).
Proof.
  intros C Hmax. revert e C. induction fuel as [|fuel IH]; intros [b [out|r]] C Hfuel; cbn in *.
  1,3: by exists out, b.
  - destruct C as [_ _ _ ?]. lia.
  - pose proof (ref_next_ok index r b C Hmax) as Hn.
    destruct (ref_next W cfg index r b) as [b' [out|]]; [by exists out, b'|].
    destruct Hn as [R En]. apply IH; [by apply ref_attempt_ok|].
    assert (RetryNumber_ (fst (ref_attempt W cfg WithSession timed b')) = RetryNumber_ b') as ->; [|lia].
    clear. unfold ref_attempt, ref_session, ref_operation, ref_exn, ref_stop, InvokeOperation, on_base.
    repeat (case_match; simplify_eq/=; try done).
Qed.
End Runs.

(** ** The index of the backoff changes nothing but the delays *)

(** Every delay the settings can ask for is defined. *)
Definition backoff_defined (W : world) (cfg : TRetryOperationSettings) : Prop :=
  forall step n i, GetRetryDelay cfg step n (w_random W i) <> None.

Section Strip.
Context (W : world) (cfg : TRetryOperationSettings) (WithSession timed : bool).

Ltac strip_base b b' H :=
  destruct b as [? ? ? ? ? ? ? ? ? ? ? ? ? ?], b' as [? ? ? ? ? ? ? ? ? ? ? ? ? ?];
  unfold strip in H; cbn in H; simplify_eq H; intros; subst.

Lemma strip_attempt b b' : strip b = strip b' ->
  let '(b1, e1) := ref_attempt W cfg WithSession timed b in
  let '(b2, e2) := ref_attempt W cfg WithSession timed b' in
  strip b1 = strip b2 /\ e1 = e2.
Proof.
  intros H. strip_base b b' H.
  unfold ref_attempt, ref_session, ref_operation, ref_exn, ref_stop, InvokeOperation, on_base, Now.
  repeat (case_match; simplify_eq/=; try done).
Qed.

Lemma strip_next index index' r b b' : backoff_defined W cfg -> strip b = strip b' ->
  let '(b1, e1) := ref_next W cfg index r b in
  let '(b2, e2) := ref_next W cfg index' r b' in
  strip b1 = strip b2 /\ e1 = e2.
Proof.
  intros Hdef H. strip_base b b' H. unfold ref_next, ref_stop.
  repeat (case_match; simplify_eq/=; try done; try by (edestruct Hdef; eauto)).
Qed.

Lemma strip_loop index index' fuel b b' e : backoff_defined W cfg -> strip b = strip b' ->
  match ref_loop W cfg WithSession timed index fuel (b, e),
        ref_loop W cfg WithSession timed index' fuel (b', e) with
  | Some (out, b1), Some (out', b2) => out = out' /\ strip b1 = strip b2
  | None, None => True
  | _, _ => False
  end.
Proof.
  intros Hdef. revert b b' e.
  induction fuel as [|fuel IH]; intros b b' [out|r] H; cbn [ref_loop]; try done.
  pose proof (strip_next index index' r b b' Hdef H) as Hn.
  destruct (ref_next W cfg index r b) as [b1 e1], (ref_next W cfg index' r b') as [b2 e2].
  destruct Hn as [Hs ->]. destruct e2 as [out|]; [done|].
  pose proof (strip_attempt b1 b2 Hs) as Ha.
  destruct (ref_attempt _ _ _ _ b1) as [b3 e3], (ref_attempt _ _ _ _ b2) as [b4 e4].
  destruct Ha as [Ha ->]. by apply IH.
Qed.
End Strip.

Lemma ref_start_ok W cfg WithSession timed flag : 0 <= MaxRetries_ cfg ->
  calls_ok cfg WithSession flag (fst (ref_start W cfg WithSession timed flag))
    (snd (ref_start W cfg WithSession timed flag)).
Proof. intros H. apply ref_attempt_ok. split; cbn; try done; lia. Qed.

(** Why a result is final. *)
Definition final_result (W : world) (cfg : TRetryOperationSettings) (r : TResult) (b : base) : Prop :=
  (r = mkRes CLIENT_CANCELLED None /\ StopToken_ cfg = true /\
   exists k, (k < c_stop b)%nat /\ w_stop W k = true) \/
  res_status r = SUCCESS \/ MaxRetries_ cfg <= RetryNumber_ b \/
  (exists k, (k < c_now b)%nat /\ MaxTimeout_ cfg <= sat_sub (w_now W k) (RetryStartTime_ b)) \/
  ShouldRetryStatus (res_status r) cfg = false.

Lemma ref_stop_cancels W cfg b b1 : ref_stop W cfg b = (true, b1) ->
  final_result W cfg (mkRes CLIENT_CANCELLED None) (set_finished b1).
Proof.
  unfold ref_stop. destruct (StopToken_ cfg) eqn:Es; [|done]. intros [= Hw <-]. left.
  split_and!; [done|done|]. exists (c_stop b). cbn. split; [lia|done].
Qed.

Lemma ref_next_final W cfg index r b r' b' :
  ref_next W cfg index r b = (b', Some (inl r')) -> final_result W cfg r' b'.
Proof.
  unfold ref_next. destruct (ref_stop W cfg b) as [[] b1] eqn:E1.
  { intros [= <- <-]. by eapply ref_stop_cancels. }
  destruct (bool_decide_reflect (res_status r = SUCCESS)) as [Hs|_].
  { intros [= <- <-]. right. by left. }
  destruct (Z.leb_spec (MaxRetries_ cfg) (RetryNumber_ b1)).
  { intros [= <- <-]. right. right. by left. }
  destruct (Z.leb_spec (MaxTimeout_ cfg) (sat_sub (w_now W (c_now b1)) (RetryStartTime_ (next_now b1)))).
  { intros [= <- <-]. do 3 right. left. exists (c_now b1). cbn. split; [lia|done]. }
  destruct (bool_decide (Step (GetRetryDecision (res_status r) cfg) = StepFinish)) eqn:Es;
    [|by destruct (GetRetryDelay _ _ _ _)].
  intros [= <- <-]. do 4 right. unfold ShouldRetryStatus. by rewrite Es.
Qed.

Lemma ref_attempt_final W cfg WithSession timed b r b' :
  ref_attempt W cfg WithSession timed b = (b', Ended (inl r)) -> final_result W cfg r b'.
Proof.
  assert (forall e b1, ref_exn e b1 <> (b', Ended (inl r))) as He by (by intros []).
  assert (forall b1, ref_operation W cfg WithSession timed b1 <> (b', Ended (inl r))) as Ho.
  { intros b1. unfold ref_operation. destruct (InvokeOperation _ _ _ _ _) as [[] [? []]]; [done|].
    apply He. }
  unfold ref_attempt. destruct (ref_stop W cfg b) as [[] b1] eqn:E1.
  { intros [= <- <-]. by eapply ref_stop_cancels. }
  destruct (_ && _)%bool; [|by intros ?%Ho].
  unfold ref_session. destruct (w_session _ _) as [s|st|now e]; [|done|by intros ?%He].
  destruct (ref_stop W cfg (set_session _ _)) as [[] b2] eqn:E2; [|by intros ?%Ho].
  intros [= <- <-]. by eapply ref_stop_cancels.
Qed.

Lemma ref_loop_final W cfg WithSession timed index fuel b r b' :
  ref_loop W cfg WithSession timed index fuel (ref_attempt W cfg WithSession timed b) =
    Some (inl r, b') -> final_result W cfg r b'.
Proof.
  revert b. induction fuel as [|fuel IH]; intros b;
    destruct (ref_attempt W cfg WithSession timed b) as [b1 [out|r1]] eqn:Ea; cbn [ref_loop].
  1,3: intros [= -> ->]; by eapply ref_attempt_final.
  1: done.
  destruct (ref_next W cfg index r1 b1) as [b2 [out|]] eqn:En; [|apply IH].
  intros [= -> ->]. by eapply ref_next_final.
Qed.

(** C15: the two execution modes agree.  In the same environment (the same answers of
    the stop token, the clock, the client and the operation, in order) the loop of the
    synchronous context ends after at most [MaxRetries_] retries, and the asynchronous
    context completes its promise, once, after a bounded number of callbacks.  When the
    settings leave no delay undefined (see [backoff_defined_settings]) both give the
    same result or exception, after the same calls of the operation, on the same
    sessions, with the same statistics; only the backoff delays differ, as the
    asynchronous one counts retries from one. *)
Theorem retry_modes_agree W cfg WithSession timed flag : 0 <= MaxRetries_ cfg < 2 ^ 32 ->
  exists out out' bs ba,
    s_Execute W cfg WithSession timed (S (Z.to_nat (MaxRetries_ cfg))) flag = Some (out, bs) /\
    (forall m, (3 * Z.to_nat (MaxRetries_ cfg) + 5 <= m)%nat ->
       a_Execute W cfg WithSession timed m flag = (ba, mkAsync (Some out') NotPending false)) /\
    RetryNumber_ bs <= MaxRetries_ cfg /\ RetryNumber_ ba <= MaxRetries_ cfg /\
    (backoff_defined W cfg ->
       out = out' /\ Calls ba = Calls bs /\ Stats ba = Stats bs /\ Session ba = Session bs /\
       RetryNumber_ ba = RetryNumber_ bs).
Proof.
  intros Hmax. set (fuel := S (Z.to_nat (MaxRetries_ cfg))).
  set (e := ref_start W cfg WithSession timed flag).
  pose proof (ref_start_ok W cfg WithSession timed flag ltac:(lia)) as C. fold e in C.
  destruct (ref_loop_ok W cfg WithSession timed flag (fun n => n) fuel e C ltac:(lia))
    as (out & bs & Es & Cs); [unfold fuel; destruct C as [_ _ _ ?]; lia|].
  destruct (ref_loop_ok W cfg WithSession timed flag (fun n => u32 (n + 1)) fuel e C ltac:(lia))
    as (out' & ba & Ea & Ca); [unfold fuel; destruct C as [_ _ _ ?]; lia|].
  exists out, out', bs, ba. rewrite s_Execute_ref. fold e. split_and!; [done| | | |].
  - intros m Hm. eapply a_Execute_ref; [exact Ea|unfold fuel; lia].
  - by destruct Cs as [_ _ _ [_ ?]].
  - by destruct Ca as [_ _ _ [_ ?]].
  - intros Hdef. destruct e as [b0 e0] eqn:Ee.
    pose proof (strip_loop W cfg WithSession timed (fun n => n) (fun n => u32 (n + 1)) fuel b0 b0 e0
      Hdef eq_refl) as Hs. rewrite Es, Ea in Hs. destruct Hs as [-> Hs].
    split_and!; [done|by apply (f_equal Calls) in Hs|by apply (f_equal Stats) in Hs
      |by apply (f_equal Session) in Hs|by apply (f_equal RetryNumber_) in Hs].
Qed.

(** C21: what a retried operation is called for.  The operation is called at most
    [MaxRetries_] + 1 times; each call but the last ended in a status the settings
    retry, so an operation that is not idempotent is never repeated after a result
    that leaves its effect open; every call has a session, when it takes one, and sees
    the client's retry flag up, which is restored afterwards. *)
Theorem retry_calls W cfg WithSession timed flag fuel out b : 0 <= MaxRetries_ cfg < 2 ^ 32 ->
  s_Execute W cfg WithSession timed fuel flag = Some (out, b) ->
  (Z.to_nat (MaxRetries_ cfg) < fuel)%nat ->
  Z.of_nat (length (Calls b)) <= MaxRetries_ cfg + 1 /\
  (forall i c, Calls b !! i = Some c -> (S i < length (Calls b))%nat ->
     exists r, answer_result (call_answer c) = Some r /\ res_status r <> SUCCESS /\
       ShouldRetryStatus (res_status r) cfg = true) /\
  Forall (fun c => call_flag c = true /\ (WithSession = true -> is_Some (call_session c))) (Calls b) /\
  InRetryOperationContext b = flag.
Proof.
  intros Hmax E Hfuel. rewrite s_Execute_ref in E.
  pose proof (ref_start_ok W cfg WithSession timed flag ltac:(lia)) as C.
  destruct (ref_loop_ok W cfg WithSession timed flag (fun n => n) fuel _ C ltac:(lia))
    as (out' & bs & Es & Cs); [destruct C as [_ _ _ ?]; lia|].
  rewrite E in Es. injection Es as <- <-. destruct Cs as [(prev & cur & Ec & Hp & Hl & Hc) Hpr Hf Hn].
  assert (length cur <= 1)%nat as Hcur by (destruct Hc as [->|(? & -> & _)]; cbn; lia).
  rewrite Ec, length_app. split_and!; [lia| |by rewrite <- Ec|done].
  intros i c Hi Hlt. rewrite lookup_app_l in Hi by lia.
  rewrite Forall_forall in Hp. destruct (Hp c) as (r & Hr & Hs); [by eapply list_elem_of_lookup_2|].
  exists r. split_and!; [done| |done]. intros E'. by rewrite E' in Hs.
Qed.

(** When a retried operation gives up.  A result is returned only when it is a
    success, or the status is not one the settings retry, or the retries are used up,
    or the time limit has passed since the start, or the stop token asked to stop, and
    then it is CLIENT_CANCELLED. *)
Theorem retry_gives_up W cfg WithSession timed flag fuel r b :
  s_Execute W cfg WithSession timed fuel flag = Some (inl r, b) ->
  (r = mkRes CLIENT_CANCELLED None /\ StopToken_ cfg = true /\
   exists k, (k < c_stop b)%nat /\ w_stop W k = true) \/
  res_status r = SUCCESS \/ MaxRetries_ cfg <= RetryNumber_ b \/
  (exists k, (k < c_now b)%nat /\ MaxTimeout_ cfg <= sat_sub (w_now W k) (RetryStartTime_ b)) \/
  ShouldRetryStatus (res_status r) cfg = false.
Proof. rewrite s_Execute_ref. apply ref_loop_final. Qed.

(** ** Backoff *)

Lemma hour_clamp V x : below V x -> exists d,
  f64_to_int (f64_clamp x f64_0 maxBackoff) = Some d /\ 0 <= d <= 3600000000.
Proof.
  intros Hx. change maxBackoff with (S754_finite false 7549747200000000 (-21)).
  unfold f64_clamp. destruct (SFltb x f64_0) eqn:E0; [by exists 0|].
  destruct (SFltb _ x) eqn:E1; [by exists 3600000000|].
  destruct x as [s| | |s m e]; [by exists 0|done|done|]. destruct s; [done|]. destruct Hx as [_ Hm].
  pose proof (not_above 7549747200000000 (-21) m e ltac:(lia) Hm E1) as He.
  assert (e <= -21) as He' by lia. cbn [f64_to_int].
  assert ((0 <=? e) = false) as -> by (apply Z.leb_gt; lia).
  assert (0 <= Z.pos m / 2 ^ (- e) <= 3600000000) as Hd.
  { assert (0 < 2 ^ (- e)) by (apply Z.pow_pos_nonneg; lia).
    split; [apply Z.div_pos; lia|].
    destruct He as [He|[-> Hle]]; [|apply Z.div_le_upper_bound; lia].
    assert (2 ^ 22 <= 2 ^ (- e)) by (apply Z.pow_le_mono_r; lia).
    apply Z.div_le_upper_bound; [done|]. nia. }
  rewrite (proj2 (Z.leb_le _ _)), (proj2 (Z.ltb_lt _ _)) by lia. by eexists.
Qed.

(** A random number of the unit interval. *)
Definition unit_random (random : f64) : Prop :=
  f64_clamp random f64_0 f64_1 = random /\ f64_valid random = true /\ random <> S754_nan.

Lemma calc_backoff_range b n random : Z.min n (Ceiling_ b) < 32 ->
  f64_valid (UncertainRatio_ b) = true -> UncertainRatio_ b <> S754_nan -> unit_random random ->
  exists d, CalcBackoffTime b n random = Some d /\ 0 <= d <= 3600000000.
Proof.
  intros Hn Hv Hnan (Hr & Hrv & Hrn). unfold CalcBackoffTime, slots.
  rewrite (proj2 (Z.ltb_lt _ _)) by lia. cbn [mbind option_bind].
  pose proof (clamp_unit _ Hv Hnan) as Hu. pose proof (clamp_unit _ Hrv Hrn) as Hw. rewrite Hr in Hw.
  assert (below 1 f64_1) as H1 by (by vm_compute).
  pose proof (f64_mul_below 1 1 _ _ Hw Hu ltac:(lia)) as M1.
  pose proof (f64_sub_below 3 _ _ M1 (below_mono 1 3 _ ltac:(lia) Hu) ltac:(lia)) as M2.
  pose proof (f64_add_below 5 _ _ M2 (below_mono 1 5 _ ltac:(lia) H1) ltac:(lia)) as M3.
  pose proof (wrapU_range 64 (SlotDuration_ b * 2 ^ Z.min n (Ceiling_ b)) ltac:(lia)) as R.
  pose proof (f64_of_Z_below (u64 (SlotDuration_ b * 2 ^ Z.min n (Ceiling_ b))) 64 R ltac:(lia)) as D.
  eapply hour_clamp, (f64_mul_below 65 7); [exact D|exact M3|lia].
Qed.

Lemma backoff_defined_settings W cfg : (forall i, unit_random (w_random W i)) ->
  Forall (fun b => Ceiling_ b < 32 /\ f64_valid (UncertainRatio_ b) = true /\
                   UncertainRatio_ b <> S754_nan)
    [FastBackoffSettings_ cfg; SlowBackoffSettings_ cfg] ->
  backoff_defined W cfg.
Proof.
  intros Hw [(? & ? & ?) [(? & ? & ?) _]%Forall_cons]%Forall_cons step n i.
  destruct step; cbn [GetRetryDelay]; [done|..];
    edestruct calc_backoff_range as (d & -> & _); eauto; lia.
Qed.

(** C40: the backoff.  [CalcBackoffTime] takes the power of two of the retry number,
    cut at [Ceiling_]; both are 32-bit unsigned numbers, and nothing keeps [Ceiling_]
    small.  When the smaller of the two is below 32 and the uncertainty ratio is a
    number, the delay is between zero and one hour, for every slot duration and every
    random number in the unit interval: neither the wrapped product nor the roundings of
    the double arithmetic leave the range of the conversion to microseconds.  When it is
    32 or more the shift is undefined, and when the ratio is not a number the conversion
    is. *)
Theorem backoff_bounded b n random :
  f64_valid (UncertainRatio_ b) = true -> unit_random random ->
  (Z.min n (Ceiling_ b) < 32 -> UncertainRatio_ b <> S754_nan ->
   exists d, CalcBackoffTime b n random = Some d /\ 0 <= d <= 3600000000) /\
  (32 <= Z.min n (Ceiling_ b) \/ UncertainRatio_ b = S754_nan -> CalcBackoffTime b n random = None).
Proof.
  intros Hv Hr. split; [by intros; apply calc_backoff_range|].
  unfold CalcBackoffTime, slots. intros Hbad.
  destruct (Z.ltb_spec (Z.min n (Ceiling_ b)) 32); [|done]. destruct Hbad as [|E]; [lia|].
  rewrite E. cbn [mbind option_bind]. by destruct random, (f64_of_Z _).
Qed.

(** Retries do not multiply.  A unary call made inside of an operation that is
    retried itself reaches the server at most once, is told [TDuration::Max()], and is
    answered: without a stop token it is made directly, with one it runs in a context of
    its own that allows no retries. *)
Theorem nested_call_once W cfg m : 0 <= MaxRetries_ cfg < 2 ^ 32 -> (5 <= m)%nat ->
  (length (unary_calls (RunUnaryWithRetry W cfg true m)) <= 1)%nat /\
  Forall (fun c => call_remaining c = Some duration_max)
    (unary_calls (RunUnaryWithRetry W cfg true m)) /\
  match RunUnaryWithRetry W cfg true m with
  | RunOnce c => call_answer c = w_operation W 0
  | RunRetried _ (b, x) => Pending x = NotPending /\ is_Some (Promise_ x) /\ SetTwice x = false
  end.
Proof.
  intros Hmax Hm. unfold RunUnaryWithRetry. destruct (_ && _)%bool; [by repeat constructor|].
  set (cfg' := set_MaxRetries 0 cfg). set (e := ref_start W cfg' false true true).
  pose proof (ref_start_ok W cfg' false true true ltac:(cbn; lia)) as C. fold e in C.
  destruct (ref_loop_ok W cfg' false true true (fun n => u32 (n + 1)) 1 e C ltac:(cbn; lia))
    as (out & b & E & Cb); [destruct C as [_ _ _ ?]; cbn in *; lia|].
  rewrite (a_Execute_ref W cfg' false true 1 true out b E m ltac:(lia)). cbn [unary_calls fst].
  split_and!; [|apply Forall_map, Forall_true; done|done|by eexists|done].
  destruct Cb as [(prev & cur & -> & _ & Hl & Hc) _ _ Hn].
  cbn [MaxRetries_ cfg' set_MaxRetries] in Hn. rewrite length_map, length_app.
  destruct Hc as [->|(? & -> & _)]; cbn; lia.
Qed.

(** An operation that is overloaded twice, then succeeds; its session breaks once. *)
Definition sample_backoff : TBackoffSettings := mkBackoff 5000 10 (S754_finite false 4503599627370496 (-53)).
Definition sample_retry : TRetryOperationSettings :=
  mkRetrySettings 10 true 5000000 duration_max sample_backoff sample_backoff false false false true.
Definition sample_world : world :=
  mkWorld (fun _ => false) (fun k => 1000 * Z.of_nat k) (fun k => GotSession k)
    (fun k => match k with
              | O => Returns (mkRes OVERLOADED None)
              | 1%nat => Throws true (RangeError BAD_SESSION)
              | 2%nat => Returns (mkRes UNAVAILABLE None)
              | _ => Returns (mkRes SUCCESS (Some 7%nat))
              end)
    (fun _ => S754_finite false 4503599627370496 (-53)).

Lemma sample_backoff_defined : backoff_defined sample_world sample_retry.
Proof.
  apply backoff_defined_settings; [by intros; repeat split|].
  repeat constructor; by vm_compute.
Qed.

Lemma retry_modes_agree_witness : exists out bs ba,
    s_Execute sample_world sample_retry true true 11 false = Some (out, bs) /\
    (forall m, (35 <= m)%nat ->
       a_Execute sample_world sample_retry true true m false = (ba, mkAsync (Some out) NotPending false)) /\
    Calls ba = Calls bs /\ length (Calls bs) = 4%nat.
Proof.
  destruct (retry_modes_agree sample_world sample_retry true true false ltac:(cbn; lia))
    as (out & out' & bs & ba & Hs & Ha & _ & _ & H).
  destruct (H sample_backoff_defined) as (<- & Hc & _).
  exists out, bs, ba. split; [exact Hs|]. split; [exact Ha|]. split; [exact Hc|].
  vm_compute in Hs. injection Hs as _ <-. reflexivity.
Defined.

Lemma retry_calls_witness : exists out b,
  s_Execute sample_world sample_retry true true 11 false = Some (out, b) /\
  length (Calls b) = 4%nat /\ Z.of_nat (length (Calls b)) <= 11.
Proof.
  do 2 eexists. split; [vm_compute; reflexivity|]. split; [reflexivity|].
  eapply (retry_calls sample_world sample_retry true true false 11);
    [cbn; lia|vm_compute; reflexivity|cbn; lia].
Defined.

Lemma retry_gives_up_witness : exists b,
  s_Execute sample_world sample_retry true true 11 false = Some (inl (mkRes SUCCESS (Some 7%nat)), b) /\
  final_result sample_world sample_retry (mkRes SUCCESS (Some 7%nat)) b.
Proof.
  eexists. split; [vm_compute; reflexivity|].
  eapply (retry_gives_up sample_world sample_retry true true false 11); vm_compute; reflexivity.
Defined.

Lemma backoff_bounded_witness : exists d,
  CalcBackoffTime sample_backoff 3 (S754_finite false 4503599627370496 (-53)) = Some d /\
  d = 30000 /\ 0 <= d <= 3600000000.
Proof.
  pose proof (backoff_bounded sample_backoff 3 (S754_finite false 4503599627370496 (-53)) eq_refl
    ltac:(repeat split; discriminate)) as [H _].
  destruct H as (d & E & H); [cbn; lia|discriminate|].
  exists d. split; [exact E|]. split; [|exact H]. vm_compute in E. by injection E.
Defined.

Lemma nested_call_once_witness :
  (length (unary_calls (RunUnaryWithRetry sample_world sample_retry true 5)) <= 1)%nat.
Proof. apply (nested_call_once sample_world sample_retry 5); [cbn; lia|lia]. Defined.
