(* ===== verification/ValueProto.v ===== *)
(** * Types and values on the wire

    The messages of [src/api/protos/ydb_value.proto] that the value classes of the SDK
    read and build, with the functions on types that several components share:
    [GetKind] and [CheckKind] (value.cpp), [TypesEqual] (value_helpers/helpers.cpp) and
    [IsTypeComplete] (params.cpp).

    A message is the tree of its fields.  An absent submessage and an empty one are not
    told apart, as the code never asks for the presence of one.  The oneof of a
    [VariantType] is part of the type's constructor. *)

From Stdlib Require Import SpecFloat.
From S2P Require Import Prelude.

(** [EPrimitiveType]; the field of the message may carry any other number. *)
Inductive EPrimitiveType :=
  | Bool | Int8 | Uint8 | Int16 | Uint16 | Int32 | Uint32 | Int64 | Uint64
  | Float | Double | Date | Datetime | Timestamp | Interval
  | Date32 | Datetime64 | Timestamp64 | Interval64
  | TzDate | TzDatetime | TzTimestamp
  | Bytes | Text | Yson | Json | Uuid | JsonDocument | DyNumber
  | OtherPrimitive (id : Z).
#[export] Instance EPrimitiveType_eq_dec : EqDecision EPrimitiveType.
Proof. solve_decision. Defined.

Inductive ETypeKind :=
  | Primitive | Decimal | Optional | List | Tuple | Struct | Dict | Variant
  | Void | Null | EmptyList | EmptyDict | Tagged | Pg.
#[export] Instance ETypeKind_eq_dec : EqDecision ETypeKind.
Proof. solve_decision. Defined.

(** [Ydb.Type]. *)
Inductive Ydb_Type :=
  | TYPE_NOT_SET
  | kTypeId (type_id : EPrimitiveType)
  | kDecimalType (precision scale : Z)
  | kPgType (type_name type_modifier : string) (oid typlen typmod : Z)
  | kOptionalType (item : Ydb_Type)
  | kListType (item : Ydb_Type)
  | kTupleType (elements : list Ydb_Type)
  | kStructType (members : list (string * Ydb_Type))
  | kDictType (key payload : Ydb_Type)
  | kVariantType_NOT_SET
  | kVariantType_Tuple (tuple_items : list Ydb_Type)
  | kVariantType_Struct (struct_items : list (string * Ydb_Type))
  | kTaggedType (tag : string) (type : Ydb_Type)
  | kVoidType | kNullType | kEmptyListType | kEmptyDictType.

(** [Ydb.Value]: the oneof, and the fields beside it. *)
Inductive Ydb_Value :=
  | mkValue (value : value_oneof) (items : list Ydb_Value)
      (pairs : list (Ydb_Value * Ydb_Value)) (variant_index : Z) (high_128 : Z)
with value_oneof :=
  | VALUE_NOT_SET
  | kBoolValue (b : bool)
  | kInt32Value (n : Z) | kUint32Value (n : Z) | kInt64Value (n : Z) | kUint64Value (n : Z)
  | kFloatValue (f : spec_float) | kDoubleValue (f : spec_float)
  | kBytesValue (s : string) | kTextValue (s : string)
  | kNullFlagValue
  | kNestedValue (v : Ydb_Value)
  | kLow128 (n : Z).

Definition value_of (v : Ydb_Value) : value_oneof := let 'mkValue x _ _ _ _ := v in x.
Definition items (v : Ydb_Value) : list Ydb_Value := let 'mkValue _ l _ _ _ := v in l.
Definition pairs (v : Ydb_Value) : list (Ydb_Value * Ydb_Value) := let 'mkValue _ _ l _ _ := v in l.
Definition variant_index (v : Ydb_Value) : Z := let 'mkValue _ _ _ i _ := v in i.
Definition high_128 (v : Ydb_Value) : Z := let 'mkValue _ _ _ _ h := v in h.
Definition EmptyValue : Ydb_Value := mkValue VALUE_NOT_SET [] [] 0 0.

Definition set_value (x : value_oneof) (v : Ydb_Value) : Ydb_Value :=
  mkValue x (items v) (pairs v) (variant_index v) (high_128 v).
Definition set_items (l : list Ydb_Value) (v : Ydb_Value) : Ydb_Value :=
  mkValue (value_of v) l (pairs v) (variant_index v) (high_128 v).
Definition set_pairs (l : list (Ydb_Value * Ydb_Value)) (v : Ydb_Value) : Ydb_Value :=
  mkValue (value_of v) (items v) l (variant_index v) (high_128 v).
Definition set_high_128 (h : Z) (v : Ydb_Value) : Ydb_Value :=
  mkValue (value_of v) (items v) (pairs v) (variant_index v) h.

(** [value_case()]. *)
Inductive ValueCase :=
  | CaseNotSet | CaseBool | CaseInt32 | CaseUint32 | CaseInt64 | CaseUint64 | CaseFloat
  | CaseDouble | CaseBytes | CaseText | CaseNullFlag | CaseNested | CaseLow128.
#[export] Instance ValueCase_eq_dec : EqDecision ValueCase.
Proof. solve_decision. Defined.

Definition value_case (v : Ydb_Value) : ValueCase :=
  match value_of v with
  | VALUE_NOT_SET => CaseNotSet
  | kBoolValue _ => CaseBool
  | kInt32Value _ => CaseInt32
  | kUint32Value _ => CaseUint32
  | kInt64Value _ => CaseInt64
  | kUint64Value _ => CaseUint64
  | kFloatValue _ => CaseFloat
  | kDoubleValue _ => CaseDouble
  | kBytesValue _ => CaseBytes
  | kTextValue _ => CaseText
  | kNullFlagValue => CaseNullFlag
  | kNestedValue _ => CaseNested
  | kLow128 _ => CaseLow128
  end.

(** [NYdb::GetKind]. *)
Definition GetKind (type : Ydb_Type) : outcome ETypeKind :=
  match type with
  | kTypeId _ => Ok Primitive
  | kDecimalType _ _ => Ok Decimal
  | kPgType _ _ _ _ _ => Ok Pg
  | kOptionalType _ => Ok Optional
  | kListType _ => Ok List
  | kTupleType _ => Ok Tuple
  | kStructType _ => Ok Struct
  | kDictType _ _ => Ok Dict
  | kVariantType_NOT_SET | kVariantType_Tuple _ | kVariantType_Struct _ => Ok Variant
  | kVoidType => Ok Void
  | kNullType => Ok Null
  | kEmptyListType => Ok EmptyList
  | kEmptyDictType => Ok EmptyDict
  | kTaggedType _ _ => Ok Tagged
  | TYPE_NOT_SET => Fail (Throw "Unexpected proto type kind")
  end.

(** A function without state of its own, called from code that has some. *)
Definition lift {S A} (o : outcome A) : M S A := fun s =>
  match o with Ok a => Ok (a, s) | Fail e => Fail e end.

(** [NYdb::CheckKind]. *)
Definition CheckKind {S} (actual expected : ETypeKind) : M S unit :=
  if bool_decide (expected = actual) then mret tt
  else throw "invalid state, expected type".

(** The loops of [TypesEqual] leave at the first difference. *)
Definition all_equal {A} (eq : A -> A -> outcome bool) : list A -> list A -> outcome bool :=
  fix go l1 l2 :=
    match l1, l2 with
    | [], [] => Ok true
    | x :: l1, y :: l2 => b ← eq x y; if b : bool then go l1 l2 else Ok false
    | _, _ => Ok false
    end.

Fixpoint TypesEqual (t1 t2 : Ydb_Type) : outcome bool :=
  let elements l1 l2 :=
    if bool_decide (length l1 = length l2) then all_equal TypesEqual l1 l2 else Ok false in
  let members l1 l2 :=
    if bool_decide (length l1 = length l2) then
      all_equal (fun m1 m2 : string * Ydb_Type =>
        if bool_decide (m1.1 = m2.1) then TypesEqual m1.2 m2.2 else Ok false) l1 l2
    else Ok false in
  match t1, t2 with
  | TYPE_NOT_SET, TYPE_NOT_SET => Fail (Throw "Unexpected type case")
  | kTypeId p1, kTypeId p2 => Ok (bool_decide (p1 = p2))
  | kDecimalType p1 s1, kDecimalType p2 s2 => Ok ((p1 =? p2) && (s1 =? s2))%bool
  | kPgType n1 m1 _ _ _, kPgType n2 m2 _ _ _ =>
      Ok (bool_decide (n1 = n2) && bool_decide (m1 = m2))%bool
  | kOptionalType i1, kOptionalType i2 => TypesEqual i1 i2
  | kTaggedType g1 i1, kTaggedType g2 i2 =>
      if bool_decide (g1 = g2) then TypesEqual i1 i2 else Ok false
  | kListType i1, kListType i2 => TypesEqual i1 i2
  | kTupleType l1, kTupleType l2 => elements l1 l2
  | kStructType l1, kStructType l2 => members l1 l2
  | kDictType k1 p1, kDictType k2 p2 =>
      b ← TypesEqual k1 k2; if b : bool then TypesEqual p1 p2 else Ok false
  | kVariantType_NOT_SET, kVariantType_NOT_SET => Fail (Throw "Unexpected Variant type case")
  | kVariantType_Tuple l1, kVariantType_Tuple l2 => elements l1 l2
  | kVariantType_Struct l1, kVariantType_Struct l2 => members l1 l2
  | kVoidType, kVoidType | kNullType, kNullType
  | kEmptyListType, kEmptyListType | kEmptyDictType, kEmptyDictType => Ok true
  | _, _ => Ok false
  end.

Fixpoint IsTypeComplete (type : Ydb_Type) : bool :=
  match type with
  | TYPE_NOT_SET => false
  | kOptionalType item | kListType item => IsTypeComplete item
  | kTupleType l => forallb IsTypeComplete l
  | kStructType l => forallb (fun m => IsTypeComplete m.2) l
  | kDictType k p => (IsTypeComplete k && IsTypeComplete p)%bool
  | kVariantType_NOT_SET => false
  | kVariantType_Tuple l => forallb IsTypeComplete l
  | kVariantType_Struct l => forallb (fun m => IsTypeComplete m.2) l
  | kTaggedType _ t => IsTypeComplete t
  | kTypeId _ | kDecimalType _ _ | kVoidType | kNullType | kEmptyListType | kEmptyDictType
  | kPgType _ _ _ _ _ => true
  end.

(** The number of nodes: fuel for recursive walks of a type. *)
Fixpoint type_size (t : Ydb_Type) : nat :=
  match t with
  | kOptionalType i | kListType i | kTaggedType _ i => S (S (type_size i))
  | kTupleType l | kVariantType_Tuple l => S (S (sum_list_with (fun t => S (type_size t)) l))
  | kStructType l | kVariantType_Struct l =>
      S (S (sum_list_with (fun m => S (type_size m.2)) l))
  | kDictType k p => S (S (type_size k + type_size p))
  | _ => 1
  end.

(** ** Running code *)

Lemma bind_Ok {S A B} (m : M S A) (f : A -> M S B) s a s' : m s = Ok (a, s') -> (m ≫= f) s = f a s'.
Proof. unfold mbind, M_bind. by intros ->. Qed.

Lemma bind_Fail {S A B} (m : M S A) (f : A -> M S B) s e : m s = Fail e -> (m ≫= f) s = Fail e.
Proof. unfold mbind, M_bind. by intros ->. Qed.

(** Evaluates code on a state that is known. *)
Ltac run := cbn; unfold mbind, M_bind, mret, M_ret; cbn.

(** Runs the first call of a sequence, whose result is known. *)
Ltac step H := etransitivity; [apply (bind_Ok _ _ _ _ _ H)|]; cbv beta iota zeta.

(** ** Induction over types *)

Section TypeInd.
Context (P : Ydb_Type -> Prop).
Hypothesis (H0 : P TYPE_NOT_SET) (Hid : forall p, P (kTypeId p)) (Hdec : forall p s, P (kDecimalType p s)).
Hypothesis (Hpg : forall n m a b c, P (kPgType n m a b c)).
Hypothesis (Hopt : forall t, P t -> P (kOptionalType t)) (Hlist : forall t, P t -> P (kListType t)).
Hypothesis (Htup : forall l, Forall P l -> P (kTupleType l)).
Hypothesis (Hstr : forall l, Forall (fun m => P m.2) l -> P (kStructType l)).
Hypothesis (Hdict : forall k p, P k -> P p -> P (kDictType k p)).
Hypothesis (Hv0 : P kVariantType_NOT_SET) (Hvt : forall l, Forall P l -> P (kVariantType_Tuple l)).
Hypothesis (Hvs : forall l, Forall (fun m => P m.2) l -> P (kVariantType_Struct l)).
Hypothesis (Htag : forall g t, P t -> P (kTaggedType g t)).
Hypothesis (Hvoid : P kVoidType) (Hnull : P kNullType) (Hel : P kEmptyListType) (Hed : P kEmptyDictType).

Fixpoint Ydb_Type_nested_ind (t : Ydb_Type) : P t :=
  let all := fix all (l : list Ydb_Type) : Forall P l :=
    match l with
    | [] => Forall_nil_2 P
    | x :: l => Forall_cons_2 P x l (Ydb_Type_nested_ind x) (all l)
    end in
  let allm := fix allm (l : list (string * Ydb_Type)) : Forall (fun m => P m.2) l :=
    match l with
    | [] => Forall_nil_2 _
    | x :: l => Forall_cons_2 _ x l (Ydb_Type_nested_ind x.2) (allm l)
    end in
  match t with
  | TYPE_NOT_SET => H0
  | kTypeId p => Hid p
  | kDecimalType p s => Hdec p s
  | kPgType n m a b c => Hpg n m a b c
  | kOptionalType i => Hopt i (Ydb_Type_nested_ind i)
  | kListType i => Hlist i (Ydb_Type_nested_ind i)
  | kTupleType l => Htup l (all l)
  | kStructType l => Hstr l (allm l)
  | kDictType k p => Hdict k p (Ydb_Type_nested_ind k) (Ydb_Type_nested_ind p)
  | kVariantType_NOT_SET => Hv0
  | kVariantType_Tuple l => Hvt l (all l)
  | kVariantType_Struct l => Hvs l (allm l)
  | kTaggedType g i => Htag g i (Ydb_Type_nested_ind i)
  | kVoidType => Hvoid
  | kNullType => Hnull
  | kEmptyListType => Hel
  | kEmptyDictType => Hed
  end.
End TypeInd.
