(* ===== verification/TypeParser.v ===== *)
(** * Walking a type

    [TTypeParser] of value.cpp, a cursor over a [Ydb.Type] that the user opens, moves and
    closes, and [FormatType], which prints a type by driving it.

    The stack [Path_] is kept with its [back()] first.  A position holds the message its
    pointer refers to, as the type is never written to while a parser walks it; the null
    pointer that a walk past the end of an empty container leaves behind is [None], and
    reading through it, or outside of a repeated field, is [Undefined]. *)

From stdpp Require Import pretty.
From S2P Require Import Prelude ValueProto.

Record TTypePosition := mkTypePos { Ptr : option Ydb_Type; Idx : Z }.

(** [TTypeParser::TImpl]. *)
Record TTypeParser := mkTypeParser { TP_Type : Ydb_Type; TP_Path : list TTypePosition }.

Definition set_TP_Path (p : list TTypePosition) (s : TTypeParser) : TTypeParser :=
  mkTypeParser (TP_Type s) p.

Definition TP_Reset : M TTypeParser unit :=
  modify (fun s => set_TP_Path [mkTypePos (Some (TP_Type s)) (-1)] s).

(** The constructor. *)
Definition TTypeParser0 (type : Ydb_Type) : TTypeParser :=
  mkTypeParser type [mkTypePos (Some type) (-1)].

Definition TP_GetProto (offset : nat) : M TTypeParser Ydb_Type := fun s =>
  match TP_Path s !! offset with
  | Some (mkTypePos (Some t) _) => Ok (t, s)
  | _ => Fail (Undefined "Path_")
  end.

Definition TP_GetKind (offset : nat) : M TTypeParser ETypeKind :=
  t ← TP_GetProto offset; lift (GetKind t).

Definition TP_CheckKind (kind : ETypeKind) : M TTypeParser unit :=
  actual ← TP_GetKind 0; CheckKind actual kind.

Definition TP_CheckPreviousKind (kind : ETypeKind) : M TTypeParser unit :=
  s ← get_st;
  if (length (TP_Path s) <? 2)%nat then throw "Expected container type."
  else actual ← TP_GetKind 1; CheckKind actual kind.

Definition TP_BackwardStep : M TTypeParser unit := modify (fun s => set_TP_Path (tail (TP_Path s)) s).

(** [Path_.back().Idx = f(Path_.back().Idx)]. *)
Definition TP_set_Idx (f : Z -> Z) : M TTypeParser unit := fun s =>
  match TP_Path s with
  | mkTypePos p i :: rest => Ok (tt, set_TP_Path (mkTypePos p (f i) :: rest) s)
  | [] => Fail (Undefined "Path_.back()")
  end.

Definition TP_Idx (offset : nat) : M TTypeParser Z := fun s =>
  match TP_Path s !! offset with
  | Some p => Ok (Idx p, s)
  | None => Fail (Undefined "Path_")
  end.

Definition TP_push (next : option Ydb_Type) : M TTypeParser unit :=
  modify (fun s => set_TP_Path (mkTypePos next (-1) :: TP_Path s) s).

(** A member or element of a container, in [ForwardStep]: past the last one the index
    stays at the last one. *)
Definition TP_next_of (self : Ydb_Type) (l : list Ydb_Type) : M TTypeParser (option Ydb_Type * bool) :=
  idx ← TP_Idx 0;
  if 0 <=? idx then
    let size := Z.of_nat (length l) in
    let '(idx, hasIdx) := if size <=? idx then (size - 1, false) else (idx, true) in
    TP_set_Idx (fun _ => idx) ;;
    if 0 <=? idx then mret (l !! Z.to_nat idx, hasIdx) else mret (None, hasIdx)
  else mret (Some self, true).

Definition TP_ForwardStep : M TTypeParser bool :=
  kind ← TP_GetKind 0;
  self ← TP_GetProto 0;
  '(nextPtr, hasIdx) ←
    match self with
    | kOptionalType item => mret (Some item, true)
    | kListType item => mret (Some item, true)
    | kStructType members => TP_next_of self (snd <$> members)
    | kTupleType elements => TP_next_of self elements
    | kDictType key payload =>
        idx ← TP_Idx 0;
        mret (Some (if idx =? 0 then key else if idx =? 1 then payload else self), true)
    | kVariantType_Tuple elements => mret (Some (kTupleType elements), true)
    | kVariantType_Struct members => mret (Some (kStructType members), true)
    | kVariantType_NOT_SET => throw "Unexpected variant type kind"
    | kTaggedType _ type => mret (Some type, true)
    | _ => throw "Unexpected type kind"
    end : M TTypeParser (option Ydb_Type * bool);
  TP_push nextPtr ;;
  mret hasIdx.

(** [Open<kind>()]. *)
Definition TP_Open (kind : ETypeKind) : M TTypeParser unit :=
  TP_CheckKind kind ;; TP_ForwardStep ;; mret tt.

(** [OpenVariant(int index)]; [elements(index)] of a negative index is outside. *)
Definition TP_OpenVariant (index : Z) : M TTypeParser unit :=
  TP_CheckKind Variant ;;
  self ← TP_GetProto 0;
  let item (l : list Ydb_Type) : M TTypeParser Ydb_Type :=
    if Z.of_nat (length l) <=? index then throw "variant index is out of range"
    else if index <? 0 then undefined "RepeatedPtrField"
    else match l !! Z.to_nat index with Some t => mret t | None => undefined "RepeatedPtrField" end in
  next ← match self with
         | kVariantType_Tuple elements => item elements
         | kVariantType_Struct members => item (snd <$> members)
         | _ => throw "unknown variant type case"
         end;
  TP_push (Some next).

(** [Close<kind>()]. *)
Definition TP_Close (kind : ETypeKind) : M TTypeParser unit :=
  TP_CheckPreviousKind kind ;; TP_BackwardStep ;; TP_set_Idx (fun _ => -1).

(** [TryNext<kind>()]. *)
Definition TP_TryNext (kind : ETypeKind) : M TTypeParser bool :=
  TP_CheckPreviousKind kind ;;
  TP_BackwardStep ;;
  TP_set_Idx (fun i => i + 1) ;;
  TP_ForwardStep.

Definition TP_DictKey : M TTypeParser unit :=
  TP_CheckPreviousKind Dict ;; TP_BackwardStep ;; TP_set_Idx (fun _ => 0) ;;
  TP_ForwardStep ;; mret tt.

Definition TP_DictPayload : M TTypeParser unit :=
  TP_CheckPreviousKind Dict ;; TP_BackwardStep ;; TP_set_Idx (fun _ => 1) ;;
  TP_ForwardStep ;; mret tt.

Definition TP_GetMemberName : M TTypeParser string :=
  TP_CheckPreviousKind Struct ;;
  parent ← TP_GetProto 1;
  idx ← TP_Idx 1;
  match parent with
  | kStructType members =>
      if idx <? 0 then undefined "RepeatedPtrField"
      else match members !! Z.to_nat idx with
           | Some m => mret m.1
           | None => undefined "RepeatedPtrField"
           end
  | _ => undefined "struct_type()"
  end.

Definition TP_GetTag : M TTypeParser string :=
  TP_CheckPreviousKind Tagged ;;
  parent ← TP_GetProto 1;
  match parent with kTaggedType tag _ => mret tag | _ => mret "" end.

Definition TP_GetPrimitive : M TTypeParser EPrimitiveType :=
  TP_CheckKind Primitive ;;
  t ← TP_GetProto 0;
  match t with kTypeId p => mret p | _ => mret (OtherPrimitive 0) end.

(** [TDecimalType]: precision and scale are kept in a byte. *)
Record TDecimalType := mkDecimalType { Precision : Z; Scale : Z }.

Definition TP_GetDecimal : M TTypeParser TDecimalType :=
  TP_CheckKind Decimal ;;
  t ← TP_GetProto 0;
  match t with
  | kDecimalType p s => mret (mkDecimalType (u8 p) (u8 s))
  | _ => mret (mkDecimalType 0 0)
  end.

Record TPgType := mkPgType {
  TypeName : string; TypeModifier : string; Oid : Z; Typlen : Z; Typmod : Z
}.

Definition TP_GetPg : M TTypeParser TPgType :=
  TP_CheckKind Pg ;;
  t ← TP_GetProto 0;
  match t with
  | kPgType n m oid typlen typmod => mret (mkPgType n m oid (wrapS 16 typlen) typmod)
  | _ => mret (mkPgType "" "" 0 0 0)
  end.

(** ** Printing a type *)

Section Format.
(** [operator<<] of the enumeration is generated by the build. *)
Context (out_primitive : EPrimitiveType -> string).

Definition format_decimal (d : TDecimalType) : string :=
  "Decimal(" +:+ pretty (Precision d) +:+ "," +:+ pretty (Scale d) +:+ ")".

Definition format_pg (p : TPgType) : string :=
  "Pg('" +:+ TypeName p +:+ "','" +:+ TypeModifier p +:+ "'," +:+ pretty (Oid p) +:+ "," +:+
  pretty (Typlen p) +:+ "," +:+ pretty (Typmod p) +:+ ")".

(** [FormatTypeInternal] with the stream's contents; the two loops are the [while] loops
    over the elements of a tuple and the members of a struct. *)
Fixpoint FormatTypeInternal (fuel : nat) (out : string) : M TTypeParser string :=
  match fuel with
  | O => undefined "fuel"
  | S fuel =>
      kind ← TP_GetKind 0;
      match kind with
      | Primitive => p ← TP_GetPrimitive; mret (out +:+ out_primitive p)
      | Decimal => d ← TP_GetDecimal; mret (out +:+ format_decimal d)
      | Pg => p ← TP_GetPg; mret (out +:+ format_pg p)
      | Optional =>
          TP_Open Optional ;;
          out ← FormatTypeInternal fuel out;
          TP_Close Optional ;;
          mret (out +:+ "?")
      | Tagged =>
          TP_Open Tagged ;;
          out ← FormatTypeInternal fuel (out +:+ "Tagged<");
          tag ← TP_GetTag;
          TP_Close Tagged ;;
          mret (out +:+ ",'" +:+ tag +:+ "'>")
      | List =>
          TP_Open List ;;
          out ← FormatTypeInternal fuel (out +:+ "List<");
          TP_Close List ;;
          mret (out +:+ ">")
      | Tuple =>
          TP_Open Tuple ;;
          out ← format_elements fuel false (out +:+ "Tuple<");
          TP_Close Tuple ;;
          mret (out +:+ ">")
      | Struct =>
          TP_Open Struct ;;
          out ← format_members fuel false (out +:+ "Struct<");
          TP_Close Struct ;;
          mret (out +:+ ">")
      | Dict =>
          TP_Open Dict ;;
          TP_DictKey ;;
          out ← FormatTypeInternal fuel (out +:+ "Dict<");
          TP_DictPayload ;;
          out ← FormatTypeInternal fuel (out +:+ ",");
          TP_Close Dict ;;
          mret (out +:+ ">")
      | Variant => mret out
      | Void => mret (out +:+ "Void")
      | Null => mret (out +:+ "Null")
      | EmptyList => mret (out +:+ "EmptyList")
      | EmptyDict => mret (out +:+ "EmptyDict")
      end
  end
with format_elements (fuel : nat) (needsComma : bool) (out : string) : M TTypeParser string :=
  match fuel with
  | O => undefined "fuel"
  | S fuel =>
      more ← TP_TryNext Tuple;
      if more : bool then
        let out := if needsComma then out +:+ "," else out in
        out ← FormatTypeInternal fuel out;
        format_elements fuel true out
      else mret out
  end
with format_members (fuel : nat) (needsComma : bool) (out : string) : M TTypeParser string :=
  match fuel with
  | O => undefined "fuel"
  | S fuel =>
      more ← TP_TryNext Struct;
      if more : bool then
        let out := if needsComma then out +:+ "," else out in
        name ← TP_GetMemberName;
        out ← FormatTypeInternal fuel (out +:+ "'" +:+ name +:+ "':");
        format_members fuel true out
      else mret out
  end.

Definition FormatType (type : Ydb_Type) : outcome string :=
  '(out, _) ← FormatTypeInternal (type_size type) "" (TTypeParser0 type); Ok out.

End Format.

(** ** The printed text *)

#[local] Arguments Z.leb : simpl never.
#[local] Arguments Z.add : simpl never.
#[local] Arguments Z.sub : simpl never.

Section Text.
Context (out_primitive : EPrimitiveType -> string).

(** The text of a type by recursion on the type; [None] where a part of it is not set.
    A variant prints as nothing. *)
Fixpoint type_text (t : Ydb_Type) : option string :=
  match t with
  | TYPE_NOT_SET => None
  | kTypeId p => Some (out_primitive p)
  | kDecimalType p s => Some (format_decimal (mkDecimalType (u8 p) (u8 s)))
  | kPgType n m oid typlen typmod => Some (format_pg (mkPgType n m oid (wrapS 16 typlen) typmod))
  | kOptionalType i => x ← type_text i; Some (x +:+ "?")
  | kListType i => x ← type_text i; Some ("List<" +:+ x +:+ ">")
  | kTupleType l => xs ← mapM type_text l; Some ("Tuple<" +:+ String.concat "," xs +:+ ">")
  | kStructType l =>
      xs ← mapM (fun m => x ← type_text m.2; Some ("'" +:+ m.1 +:+ "':" +:+ x)) l;
      Some ("Struct<" +:+ String.concat "," xs +:+ ">")
  | kDictType k p =>
      x ← type_text k; y ← type_text p; Some ("Dict<" +:+ x +:+ "," +:+ y +:+ ">")
  | kVariantType_NOT_SET | kVariantType_Tuple _ | kVariantType_Struct _ => Some ""
  | kTaggedType g i => x ← type_text i; Some ("Tagged<" +:+ x +:+ ",'" +:+ g +:+ "'>")
  | kVoidType => Some "Void"
  | kNullType => Some "Null"
  | kEmptyListType => Some "EmptyList"
  | kEmptyDictType => Some "EmptyDict"
  end.

(** What a loop over the parts appends. *)
Fixpoint comma_list (needsComma : bool) (l : list string) : string :=
  match l with
  | [] => ""
  | x :: l => (if needsComma then "," else "") +:+ x +:+ comma_list true l
  end.

Lemma app_empty_r (s : string) : s +:+ "" = s.
Proof. induction s as [|c s IH]; [done|]. exact (f_equal (String c) IH). Qed.

Lemma comma_list_concat l : comma_list false l = String.concat "," l.
Proof.
  destruct l as [|x l]; [done|]. revert x. induction l as [|y l IH]; intros x.
  - apply (app_empty_r x).
  - cbn [comma_list String.concat] in *. by rewrite <- IH.
Qed.

(** A container whose parts [TryNext] walks. *)
Definition parts (t : Ydb_Type) : option (ETypeKind * list Ydb_Type) :=
  match t with
  | kTupleType l => Some (Tuple, l)
  | kStructType l => Some (Struct, snd <$> l)
  | _ => None
  end.

Lemma TP_next_of_spec T self l k rest : -1 <= k ->
  TP_next_of self l (mkTypeParser T (mkTypePos (Some self) (k + 1) :: rest)) =
    match l !! Z.to_nat (k + 1) with
    | Some e => Ok ((Some e, true), mkTypeParser T (mkTypePos (Some self) (k + 1) :: rest))
    | None => Ok ((last l, false),
        mkTypeParser T (mkTypePos (Some self) (Z.of_nat (length l) - 1) :: rest))
    end.
Proof.
  intros Hk. unfold TP_next_of. run. rewrite (proj2 (Z.leb_le 0 (k + 1))) by lia.
  destruct (l !! Z.to_nat (k + 1)) as [e|] eqn:El.
  - apply lookup_lt_Some in El as Hlt. rewrite (proj2 (Z.leb_gt _ _)) by lia. cbn.
    rewrite (proj2 (Z.leb_le 0 (k + 1))) by lia. by rewrite El.
  - apply lookup_ge_None in El. rewrite (proj2 (Z.leb_le _ _)) by lia. cbn.
    destruct l as [|e l _] using rev_ind; [done|]. rewrite length_app in *. cbn in *.
    rewrite (proj2 (Z.leb_le _ _)) by lia. rewrite last_snoc, lookup_app_r by lia.
    by replace (Z.to_nat _ - length l)%nat with O by lia.
Qed.

Ltac tp_run :=
  unfold TP_BackwardStep, TP_set_Idx, TP_push, TP_Idx, TP_GetKind, TP_GetProto, set_TP_Path, lift; run.

(** Checks that pass. *)
Lemma TP_CheckKind_ok T t k rest kind : GetKind t = Ok kind ->
  let s := mkTypeParser T (mkTypePos (Some t) k :: rest) in TP_CheckKind kind s = Ok (tt, s).
Proof.
  intros H s. unfold TP_CheckKind, TP_GetKind, lift. run. rewrite H. unfold CheckKind.
  by rewrite bool_decide_eq_true_2.
Qed.

Lemma TP_CheckPreviousKind_ok T x t k rest kind : GetKind t = Ok kind ->
  let s := mkTypeParser T (x :: mkTypePos (Some t) k :: rest) in
  TP_CheckPreviousKind kind s = Ok (tt, s).
Proof.
  intros H s. unfold TP_CheckPreviousKind, TP_GetKind, lift. run. rewrite H. unfold CheckKind.
  by rewrite bool_decide_eq_true_2.
Qed.

Lemma TP_Close_ok T x t k rest kind : GetKind t = Ok kind ->
  TP_Close kind (mkTypeParser T (x :: mkTypePos (Some t) k :: rest)) =
    Ok (tt, mkTypeParser T (mkTypePos (Some t) (-1) :: rest)).
Proof.
  intros H. unfold TP_Close. by erewrite bind_Ok by (by apply TP_CheckPreviousKind_ok).
Qed.

Lemma TP_Open_ok T t rest kind : GetKind t = Ok kind ->
  TP_Open kind (mkTypeParser T (mkTypePos (Some t) (-1) :: rest)) =
    (TP_ForwardStep ;; mret tt) (mkTypeParser T (mkTypePos (Some t) (-1) :: rest)).
Proof. intros H. unfold TP_Open. by erewrite bind_Ok by (by apply TP_CheckKind_ok). Qed.

(** [TryNext]: on the next part, or at the end. *)
Lemma TP_TryNext_parts T t kind l x j k rest : parts t = Some (kind, l) -> -1 <= k ->
  TP_TryNext kind (mkTypeParser T (mkTypePos x j :: mkTypePos (Some t) k :: rest)) =
    let s k x := mkTypeParser T (mkTypePos x (-1) :: mkTypePos (Some t) k :: rest) in
    match l !! Z.to_nat (k + 1) with
    | Some e => Ok (true, s (k + 1) (Some e))
    | None => Ok (false, s (Z.of_nat (length l) - 1) (last l))
    end.
Proof.
  intros Hp Hk. destruct t as [| | | | | |elements|members| | | | | | | | |]; try done;
    injection Hp as <- <-; unfold TP_TryNext;
    (erewrite bind_Ok by (by apply TP_CheckPreviousKind_ok)); unfold TP_ForwardStep; tp_run;
    rewrite TP_next_of_spec by done; by destruct (_ !! _).
Qed.

Lemma TP_TryNext_drop T t kind l x j k rest rem : parts t = Some (kind, l) -> -1 <= k ->
  drop (Z.to_nat (k + 1)) l = rem ->
  let s x j k := mkTypeParser T (mkTypePos x j :: mkTypePos (Some t) k :: rest) in
  match rem with
  | [] => exists x' k', TP_TryNext kind (s x j k) = Ok (false, s x' (-1) k')
  | e :: rem => TP_TryNext kind (s x j k) = Ok (true, s (Some e) (-1) (k + 1)) /\
      drop (Z.to_nat (k + 1 + 1)) l = rem
  end.
Proof.
  intros Hp Hk Hd s. unfold s. rewrite (TP_TryNext_parts T t kind l) by done. cbv zeta.
  assert (l !! Z.to_nat (k + 1) = head rem) as ->.
  { rewrite <- (Nat.add_0_r (Z.to_nat _)), <- lookup_drop, Hd. by destruct rem. }
  destruct rem as [|e rem]; cbn [head]; [by do 2 eexists|]. split; [done|].
  replace (Z.to_nat (k + 1 + 1)) with (Z.to_nat (k + 1) + 1)%nat by lia.
  by rewrite <- drop_drop, Hd.
Qed.

Definition unset : failure := Throw "Unexpected proto type kind".

(** [FormatTypeInternal] on a position appends the text of the type there and leaves the
    parser where it was. *)
Definition formats (t : Ydb_Type) : Prop := forall fuel out T rest, (type_size t <= fuel)%nat ->
  let s := mkTypeParser T (mkTypePos (Some t) (-1) :: rest) in
  FormatTypeInternal out_primitive fuel out s =
    match type_text t with Some x => Ok (out +:+ x, s) | None => Fail unset end.

Lemma app_string_assoc (a b c : string) : (a +:+ b) +:+ c = a +:+ (b +:+ c).
Proof. induction a as [|x a IH]; [done|]. exact (f_equal (String x) IH). Qed.

Lemma format_elements_spec l rem : Forall formats rem -> forall k fuel comma out T x j rest,
  -1 <= k -> drop (Z.to_nat (k + 1)) l = rem ->
  (sum_list_with (fun t => S (type_size t)) rem < fuel)%nat ->
  let s x j k := mkTypeParser T (mkTypePos x j :: mkTypePos (Some (kTupleType l)) k :: rest) in
  match mapM type_text rem with
  | Some xs => exists x' j' k', format_elements out_primitive fuel comma out (s x j k) =
      Ok (out +:+ comma_list comma xs, s x' j' k')
  | None => format_elements out_primitive fuel comma out (s x j k) = Fail unset
  end.
Proof.
  induction 1 as [|t rem Ht Hrem IH]; intros k fuel comma out T x j rest Hk Hd Hf s.
  all: destruct fuel as [|fuel]; [cbn in Hf; lia|]; cbn [format_elements].
  all: pose proof (TP_TryNext_drop T (kTupleType l) Tuple l x j k rest _ eq_refl Hk Hd) as Hn;
    cbv zeta in Hn; fold s in Hn.
  - destruct Hn as (x' & k' & Hn). cbn. rewrite (bind_Ok _ _ _ _ _ Hn), app_empty_r. by do 3 eexists.
  - destruct Hn as [Hn Hd']. rewrite (bind_Ok _ _ _ _ _ Hn). cbn [sum_list_with] in Hf. cbv iota zeta.
    set (out' := if comma then out +:+ "," else out).
    specialize (Ht fuel out' T (mkTypePos (Some (kTupleType l)) (k + 1) :: rest) ltac:(lia)).
    cbv zeta in Ht. change (mkTypeParser _ _) with (s (Some t) (-1) (k + 1)) in Ht.
    cbn [mapM]. destruct (type_text t) as [xt|]; cbn [mbind option_bind];
      [|by apply bind_Fail]. rewrite (bind_Ok _ _ _ _ _ Ht).
    specialize (IH (k + 1) fuel true (out' +:+ xt) T (Some t) (-1) rest ltac:(lia) Hd' ltac:(lia)).
    cbv zeta in IH. fold s in IH. destruct (mapM type_text rem) as [xs|]; [|done].
    destruct IH as (x' & j' & k' & IH). exists x', j', k'. rewrite IH. cbn [comma_list].
    unfold out'. destruct comma; by rewrite !app_string_assoc.
Qed.

Lemma TP_GetMemberName_ok T x j ms k rest m : 0 <= k -> ms !! Z.to_nat k = Some m ->
  let s := mkTypeParser T (mkTypePos x j :: mkTypePos (Some (kStructType ms)) k :: rest) in
  TP_GetMemberName s = Ok (m.1, s).
Proof.
  intros Hk Hm s. unfold TP_GetMemberName. erewrite bind_Ok by (by apply TP_CheckPreviousKind_ok).
  tp_run. rewrite (proj2 (Z.ltb_ge _ _)) by lia. by rewrite Hm.
Qed.

Definition member_text (m : string * Ydb_Type) : option string :=
  x ← type_text m.2; Some ("'" +:+ m.1 +:+ "':" +:+ x).

Lemma format_members_spec ms rem : Forall (fun m => formats m.2) rem ->
  forall k fuel comma out T x j rest, -1 <= k -> drop (Z.to_nat (k + 1)) ms = rem ->
  (sum_list_with (fun m => S (type_size m.2)) rem < fuel)%nat ->
  let s x j k := mkTypeParser T (mkTypePos x j :: mkTypePos (Some (kStructType ms)) k :: rest) in
  match mapM member_text rem with
  | Some xs => exists x' j' k', format_members out_primitive fuel comma out (s x j k) =
      Ok (out +:+ comma_list comma xs, s x' j' k')
  | None => format_members out_primitive fuel comma out (s x j k) = Fail unset
  end.
Proof.
  induction 1 as [|m rem Ht Hrem IH]; intros k fuel comma out T x j rest Hk Hd Hf s.
  all: destruct fuel as [|fuel]; [cbn in Hf; lia|]; cbn [format_members].
  all: pose proof (TP_TryNext_drop T (kStructType ms) Struct (snd <$> ms) x j k rest _ eq_refl Hk
    eq_refl) as Hn; rewrite <- fmap_drop, Hd in Hn; cbv zeta in Hn; fold s in Hn.
  - destruct Hn as (x' & k' & Hn). cbn. rewrite (bind_Ok _ _ _ _ _ Hn), app_empty_r. by do 3 eexists.
  - cbn [fmap list_fmap] in Hn. destruct Hn as [Hn _]. rewrite (bind_Ok _ _ _ _ _ Hn).
    cbn [sum_list_with] in Hf. cbv iota zeta. set (out' := if comma then out +:+ "," else out).
    assert (ms !! Z.to_nat (k + 1) = Some m) as Hm.
    { rewrite <- (Nat.add_0_r (Z.to_nat _)), <- lookup_drop, Hd. done. }
    assert (drop (Z.to_nat (k + 1 + 1)) ms = rem) as Hd'.
    { replace (Z.to_nat (k + 1 + 1)) with (Z.to_nat (k + 1) + 1)%nat by lia.
      by rewrite <- drop_drop, Hd. }
    pose proof (TP_GetMemberName_ok T (Some m.2) (-1) ms (k + 1) rest m ltac:(lia) Hm) as Hg.
    cbv zeta in Hg. change (mkTypeParser _ _) with (s (Some m.2) (-1) (k + 1)) in Hg.
    rewrite (bind_Ok _ _ _ _ _ Hg).
    specialize (Ht fuel (out' +:+ "'" +:+ m.1 +:+ "':") T (mkTypePos (Some (kStructType ms)) (k + 1) :: rest)
      ltac:(lia)). cbv zeta in Ht.
    change (mkTypeParser _ _) with (s (Some m.2) (-1) (k + 1)) in Ht.
    cbn [mapM]. change (member_text m) with (x ← type_text m.2; Some ("'" +:+ m.1 +:+ "':" +:+ x)).
    destruct (type_text m.2) as [xt|]; cbn [mbind option_bind];
      [|by apply bind_Fail]. rewrite (bind_Ok _ _ _ _ _ Ht).
    specialize (IH (k + 1) fuel true ((out' +:+ "'" +:+ m.1 +:+ "':") +:+ xt) T (Some m.2) (-1) rest
      ltac:(lia) Hd' ltac:(lia)). cbv zeta in IH. fold s in IH.
    destruct (mapM member_text rem) as [xs|]; [|done].
    destruct IH as (x' & j' & k' & IH). exists x', j', k'. rewrite IH. cbn [comma_list].
    unfold out'. destruct comma; by rewrite !app_string_assoc.
Qed.

Lemma formats_all t : formats t.
Proof.
  induction t as [|p|p sc|n m o1 o2 o3|t IH|t IH|l IH|l IH|k p IHk IHp| |l IH|l IH|g t IH| | | |]
    using Ydb_Type_nested_ind; intros fuel out T rest Hf s; cbn [type_size] in Hf;
    (destruct fuel as [|fuel]; [lia|]); cbn [FormatTypeInternal].
  all: try done.
  all: step (eq_refl (TP_GetKind 0 s)).
  all: try (cbn [type_text]; by rewrite app_empty_r).
  all: match goal with |- (TP_Open ?k ≫= _) _ = _ => step (eq_refl (TP_Open k s)) end; cbn [type_text].
  - pose proof (IH fuel out T (mkTypePos (Some (kOptionalType t)) (-1) :: rest) ltac:(lia)) as E.
    destruct (type_text t); [|by apply bind_Fail]. step E. cbn. by rewrite app_string_assoc.
  - pose proof (IH fuel (out +:+ "List<") T (mkTypePos (Some (kListType t)) (-1) :: rest) ltac:(lia)) as E.
    destruct (type_text t); [|by apply bind_Fail]. step E. cbn. by rewrite !app_string_assoc.
  - pose proof (format_elements_spec l l IH (-1) fuel false (out +:+ "Tuple<") T
      (Some (kTupleType l)) (-1) rest ltac:(lia) eq_refl ltac:(lia)) as E. cbv zeta in E.
    destruct (mapM type_text l) as [xs|]; [|by apply bind_Fail]. destruct E as (x' & j' & k' & E).
    step E. cbn [mbind option_bind]. rewrite comma_list_concat. cbn. by rewrite !app_string_assoc.
  - pose proof (format_members_spec l l IH (-1) fuel false (out +:+ "Struct<") T
      (Some (kStructType l)) (-1) rest ltac:(lia) eq_refl ltac:(lia)) as E. cbv zeta in E.
    change (mapM _ l) with (mapM member_text l).
    destruct (mapM member_text l) as [xs|]; [|by apply bind_Fail]. destruct E as (x' & j' & k' & E).
    step E. cbn [mbind option_bind]. rewrite comma_list_concat. cbn. by rewrite !app_string_assoc.
  - step (eq_refl (TP_DictKey (mkTypeParser T (mkTypePos (Some (kDictType k p)) (-1) ::
      mkTypePos (Some (kDictType k p)) (-1) :: rest)))).
    pose proof (IHk fuel (out +:+ "Dict<") T (mkTypePos (Some (kDictType k p)) 0 :: rest) ltac:(lia)) as E.
    destruct (type_text k) as [x|]; [|by apply bind_Fail]. step E.
    step (eq_refl (TP_DictPayload (mkTypeParser T (mkTypePos (Some k) (-1) ::
      mkTypePos (Some (kDictType k p)) 0 :: rest)))). clear E.
    pose proof (IHp fuel (((out +:+ "Dict<") +:+ x) +:+ ",") T (mkTypePos (Some (kDictType k p)) 1 :: rest)
      ltac:(lia)) as E. cbn [mbind option_bind].
    destruct (type_text p) as [y|]; [|by apply bind_Fail]. step E. cbn. by rewrite !app_string_assoc.
  - pose proof (IH fuel (out +:+ "Tagged<") T (mkTypePos (Some (kTaggedType g t)) (-1) :: rest)
      ltac:(lia)) as E.
    destruct (type_text t) as [x|]; [|by apply bind_Fail]. step E.
    transitivity (Ok (((out +:+ "Tagged<") +:+ x) +:+ ",'" +:+ g +:+ "'>", s)); [done|].
    by rewrite !app_string_assoc.
Qed.

(** C34: [FormatType] prints every type.  Driving the parser's cursor through opened,
    walked and closed containers, it terminates within the fuel [type_size] and prints
    exactly the text that recursion on the type defines, with all of the members and
    elements in order; it throws exactly when a part of the type it prints is not set,
    and never reads outside of the message. *)
Theorem FormatType_text t : FormatType out_primitive t =
  match type_text t with
  | Some x => Ok x
  | None => Fail (Throw "Unexpected proto type kind")
  end.
Proof.
  unfold FormatType, TTypeParser0. pose proof (formats_all t _ "" t [] (le_n _)) as E. cbv zeta in E.
  rewrite E. by destruct (type_text t).
Qed.

End Text.
