(* ===== verification/MessagePath.v ===== *)
(** * Pointers into a message

    The builders of types and values keep pointers into the message they build.  A
    pointer is the path from the root to the node it refers to: a write through one is
    then seen through all of the pointers to the nodes above.  The laws of paths hold for
    any kind of tree whose parts can be selected and replaced. *)

From S2P Require Import Prelude.

(** Nodes [N] with parts selected by [X]. *)
Class Tree (N X : Type) := {
  child : N -> X -> option N;
  set_child : X -> N -> N -> N
}.

Class TreeLaws (N X : Type) `{Tree N X} := {
  child_set_child t x c c' : child t x = Some c -> child (set_child x c' t) x = Some c';
  child_set_other t x y c c' : child t x = Some c -> x <> y ->
    child (set_child x c' t) y = child t y;
  set_child_set t x c c1 c2 : child t x = Some c ->
    set_child x c2 (set_child x c1 t) = set_child x c2 t;
  set_child_same t x c : child t x = Some c -> set_child x c t = t
}.

Section Paths.
Context {N X : Type} `{Tree N X, EqDecision X}.

Fixpoint get_at (p : list X) (t : N) : option N :=
  match p with
  | [] => Some t
  | x :: p => c ← child t x; get_at p c
  end.

Fixpoint set_at (p : list X) (v t : N) : N :=
  match p with
  | [] => v
  | x :: p =>
      match child t x with
      | Some c => set_child x (set_at p v c) t
      | None => t
      end
  end.

Lemma get_at_app p q t : get_at (p ++ q) t = c ← get_at p t; get_at q c.
Proof.
  revert t. induction p as [|x p IH]; intros t; [done|]. cbn.
  destruct (child t x) as [c|]; [apply IH|done].
Qed.

Lemma get_at_prefix p q t : p `prefix_of` q -> is_Some (get_at q t) -> is_Some (get_at p t).
Proof. intros [r ->]. rewrite get_at_app. destruct (get_at p t); [done|by intros [? ?]]. Qed.

Lemma get_at_snoc p x t n : get_at p t = Some n -> get_at (p ++ [x]) t = child n x.
Proof. intros E. rewrite get_at_app, E. cbn. by destruct (child n x). Qed.

Context `{!TreeLaws N X}.

Lemma get_set_at p v t : is_Some (get_at p t) -> get_at p (set_at p v t) = Some v.
Proof.
  revert t. induction p as [|x p IH]; intros t [w Hw]; [done|]. cbn in *.
  destruct (child t x) as [c|] eqn:E; [|done]. cbn in Hw.
  erewrite child_set_child by done. cbn. apply IH. by eexists.
Qed.

Lemma set_set_at p v w t : set_at p v (set_at p w t) = set_at p v t.
Proof.
  revert t. induction p as [|x p IH]; intros t; [done|]. cbn.
  destruct (child t x) as [c|] eqn:E; [|by rewrite E].
  erewrite child_set_child by done. rewrite IH. by eapply set_child_set.
Qed.

Lemma set_at_same p v t : get_at p t = Some v -> set_at p v t = t.
Proof.
  revert t. induction p as [|x p IH]; intros t Hv; [by injection Hv|]. cbn in *.
  destruct (child t x) as [c|] eqn:E; [|done]. rewrite IH by done. by apply set_child_same.
Qed.

Lemma set_at_app p q v t c : get_at p t = Some c -> set_at (p ++ q) v t = set_at p (set_at q v c) t.
Proof.
  revert t. induction p as [|x p IH]; intros t Hc; [by injection Hc as ->|]. cbn in *.
  destruct (child t x) as [d|]; [|done]. by rewrite IH.
Qed.

(** A node with one of its parts replaced. *)
Lemma set_at_snoc p x v t n c : get_at p t = Some n -> child n x = Some c ->
  set_at (p ++ [x]) v t = set_at p (set_child x v n) t.
Proof. intros Hn Hc. erewrite set_at_app by done. cbn. by rewrite Hc. Qed.

(** Writing inside of a node does not change the nodes it is not a part of. *)
Lemma get_set_disjoint p q v t : is_Some (get_at p t) -> ~ p `prefix_of` q -> ~ q `prefix_of` p ->
  get_at q (set_at p v t) = get_at q t.
Proof.
  revert q t. induction p as [|x p IH]; intros [|y q] t [w Hw] Hpq Hqp.
  - by destruct Hpq.
  - destruct Hpq. apply prefix_nil.
  - destruct Hqp. apply prefix_nil.
  - cbn in Hw |- *. destruct (child t x) as [c|] eqn:E; [|done]. cbn in Hw.
    destruct (decide (x = y)) as [->|Hne].
    + erewrite child_set_child, E by done. cbn. apply IH; [by eexists|..];
        intros Hx; [apply Hpq|apply Hqp]; by apply prefix_cons.
    + by erewrite child_set_other by done.
Qed.

Lemma get_set_prefix p q v t c : get_at q t = Some c -> get_at q (set_at (q ++ p) v t) = Some (set_at p v c).
Proof. intros Hc. erewrite set_at_app by done. apply get_set_at. by eexists. Qed.

End Paths.

(** ** Replacing in lists *)

Lemma list_alter_alter {A} (f g : A -> A) (i : nat) (l : list A) : alter f i (alter g i l) = alter (fun x => f (g x)) i l.
Proof.
  apply list_eq. intros j. destruct (decide (i = j)) as [->|].
  - rewrite !list_lookup_alter_eq. by destruct (l !! j).
  - by rewrite !list_lookup_alter_ne.
Qed.

Lemma list_alter_same {A} (f : A -> A) (i : nat) (l : list A) : (forall x, l !! i = Some x -> f x = x) -> alter f i l = l.
Proof.
  intros Hf. apply list_eq. intros j. destruct (decide (i = j)) as [->|].
  - rewrite list_lookup_alter_eq. destruct (l !! j) as [x|]; [|done]. cbn. by rewrite Hf.
  - by rewrite list_lookup_alter_ne.
Qed.
