(* ===== verification/TypeBuilder.v ===== *)
(** * Building a type

    [TTypeBuilder] of value.cpp.  The builder owns a [Ydb.Type] and a stack of pointers
    into it; a pointer is the path from the root to the node it refers to, so that a write
    through the pointer on top of the stack is seen through the pointers below it.
    [GetProto] of a pointer whose node is gone would be [Undefined], like the read below
    the bottom of the stack. *)

From S2P Require Import Prelude ValueProto MessagePath TypeParser.

(** A step from a type to a part of it: the item of an optional, list or tagged type,
    a member, an element, or the key or payload of a dict. *)
Inductive tsel := SItem | SMember (i : nat) | SElement (i : nat) | SKey | SPayload.
#[export] Instance tsel_eq_dec : EqDecision tsel.
Proof. solve_decision. Defined.
Abbreviation tpath := (list tsel).

#[export] Instance type_tree : Tree Ydb_Type tsel := {
  child t x :=
    match t, x with
    | kOptionalType i, SItem | kListType i, SItem | kTaggedType _ i, SItem => Some i
    | kStructType l, SMember i => snd <$> l !! i
    | kTupleType l, SElement i => l !! i
    | kDictType k _, SKey => Some k
    | kDictType _ p, SPayload => Some p
    | _, _ => None
    end;
  set_child x c t :=
    match t, x with
    | kOptionalType _, SItem => kOptionalType c
    | kListType _, SItem => kListType c
    | kTaggedType g _, SItem => kTaggedType g c
    | kStructType l, SMember i => kStructType (alter (fun m => (m.1, c)) i l)
    | kTupleType l, SElement i => kTupleType (<[i := c]> l)
    | kDictType _ p, SKey => kDictType c p
    | kDictType k _, SPayload => kDictType k c
    | _, _ => t
    end
}.

(** [TTypeBuilder::TImpl]: the type it builds, [ProtoType_] or the one it was given, and
    [Path_] with its [back()] first. *)
Record TTypeBuilder := mkTypeBuilder { TB_Root : Ydb_Type; TB_Path : list tpath }.

Definition TTypeBuilder0 (type : Ydb_Type) : TTypeBuilder := mkTypeBuilder type [[]].

Definition TB_GetProto (offset : nat) : M TTypeBuilder Ydb_Type := fun s =>
  match TB_Path s !! offset with
  | Some p => match get_at p (TB_Root s) with
              | Some t => Ok (t, s)
              | None => Fail (Undefined "dangling pointer")
              end
  | None => Fail (Undefined "Path_")
  end.

(** A write to [GetProto()]. *)
Definition TB_put (f : Ydb_Type -> Ydb_Type) : M TTypeBuilder unit :=
  t ← TB_GetProto 0;
  modify (fun s => mkTypeBuilder (set_at (default [] (head (TB_Path s))) (f t) (TB_Root s)) (TB_Path s)).

(** [AddPosition] of a part of [GetProto()], and of [GetProto()] itself. *)
Definition TB_AddPosition (x : tsel) : M TTypeBuilder unit :=
  modify (fun s => mkTypeBuilder (TB_Root s) ((default [] (head (TB_Path s)) ++ [x]) :: TB_Path s)).
Definition TB_AddSelf : M TTypeBuilder unit :=
  modify (fun s => mkTypeBuilder (TB_Root s) (default [] (head (TB_Path s)) :: TB_Path s)).
Definition TB_PopPosition : M TTypeBuilder unit :=
  modify (fun s => mkTypeBuilder (TB_Root s) (tail (TB_Path s))).

Definition TB_GetKind (offset : nat) : M TTypeBuilder ETypeKind :=
  t ← TB_GetProto offset; lift (GetKind t).
Definition TB_CheckPreviousKind (kind : ETypeKind) : M TTypeBuilder unit :=
  actual ← TB_GetKind 1; CheckKind actual kind.

Definition TB_CloseContainer (kind : ETypeKind) : M TTypeBuilder unit :=
  s ← get_st;
  if (length (TB_Path s) <? 2)%nat then throw "No opened container to close"
  else TB_CheckPreviousKind kind ;; TB_PopPosition.

Definition TB_Build : M TTypeBuilder Ydb_Type :=
  s ← get_st;
  if (1 <? length (TB_Path s))%nat then throw "Invalid Build() call, type is incomplete."
  else modify (fun s => mkTypeBuilder TYPE_NOT_SET (TB_Path s)) ;; mret (TB_Root s).

(** [mutable_x_type()] selects the case of the oneof, clearing another one. *)
Definition mutable_optional_type (t : Ydb_Type) : Ydb_Type :=
  match t with kOptionalType _ => t | _ => kOptionalType TYPE_NOT_SET end.
Definition mutable_list_type (t : Ydb_Type) : Ydb_Type :=
  match t with kListType _ => t | _ => kListType TYPE_NOT_SET end.
Definition mutable_struct_type (t : Ydb_Type) : Ydb_Type :=
  match t with kStructType _ => t | _ => kStructType [] end.
Definition mutable_tuple_type (t : Ydb_Type) : Ydb_Type :=
  match t with kTupleType _ => t | _ => kTupleType [] end.
Definition mutable_dict_type (t : Ydb_Type) : Ydb_Type :=
  match t with kDictType _ _ => t | _ => kDictType TYPE_NOT_SET TYPE_NOT_SET end.
Definition mutable_tagged_type (t : Ydb_Type) : Ydb_Type :=
  match t with kTaggedType _ _ => t | _ => kTaggedType "" TYPE_NOT_SET end.

Definition TB_Primitive (p : EPrimitiveType) : M TTypeBuilder unit := TB_put (fun _ => kTypeId p).
Definition TB_Decimal (d : TDecimalType) : M TTypeBuilder unit :=
  TB_put (fun _ => kDecimalType (Precision d) (Scale d)).
(** Only the name and the modifier are set. *)
Definition TB_Pg (p : TPgType) : M TTypeBuilder unit :=
  TB_put (fun t => match t with
                   | kPgType _ _ oid typlen typmod => kPgType (TypeName p) (TypeModifier p) oid typlen typmod
                   | _ => kPgType (TypeName p) (TypeModifier p) 0 0 0
                   end).

Definition TB_BeginOptional : M TTypeBuilder unit := TB_put mutable_optional_type ;; TB_AddPosition SItem.
Definition TB_EndOptional : M TTypeBuilder unit := TB_CloseContainer Optional.
Definition TB_Optional (itemType : Ydb_Type) : M TTypeBuilder unit := TB_put (fun _ => kOptionalType itemType).

Definition TB_BeginList : M TTypeBuilder unit := TB_put mutable_list_type ;; TB_AddPosition SItem.
Definition TB_EndList : M TTypeBuilder unit := TB_CloseContainer List.
Definition TB_List (itemType : Ydb_Type) : M TTypeBuilder unit := TB_put (fun _ => kListType itemType).

Definition TB_SetType (type : Ydb_Type) : M TTypeBuilder unit := TB_put (fun _ => type).

Definition TB_BeginStruct : M TTypeBuilder unit := TB_put mutable_struct_type ;; TB_AddSelf.
Definition TB_EndStruct : M TTypeBuilder unit := TB_CloseContainer Struct.
Definition TB_AddMember (memberName : string) : M TTypeBuilder unit :=
  TB_CheckPreviousKind Struct ;;
  TB_PopPosition ;;
  t ← TB_GetProto 0;
  match t with
  | kStructType l =>
      TB_put (fun _ => kStructType (l ++ [(memberName, TYPE_NOT_SET)])) ;;
      TB_AddPosition (SMember (length l))
  | _ => undefined "struct_type()"
  end.
Definition TB_AddMember_typed (memberName : string) (memberType : Ydb_Type) : M TTypeBuilder unit :=
  TB_AddMember memberName ;; TB_SetType memberType.
Definition TB_SelectMember (index : nat) : M TTypeBuilder unit :=
  TB_CheckPreviousKind Struct ;;
  TB_PopPosition ;;
  t ← TB_GetProto 0;
  match t with
  | kStructType l =>
      if (index <? length l)%nat then TB_AddPosition (SMember index) else undefined "RepeatedPtrField"
  | _ => undefined "struct_type()"
  end.

Definition TB_BeginTuple : M TTypeBuilder unit := TB_put mutable_tuple_type ;; TB_AddSelf.
Definition TB_EndTuple : M TTypeBuilder unit := TB_CloseContainer Tuple.
Definition TB_AddElement : M TTypeBuilder unit :=
  TB_CheckPreviousKind Tuple ;;
  TB_PopPosition ;;
  t ← TB_GetProto 0;
  match t with
  | kTupleType l =>
      TB_put (fun _ => kTupleType (l ++ [TYPE_NOT_SET])) ;; TB_AddPosition (SElement (length l))
  | _ => undefined "tuple_type()"
  end.
Definition TB_AddElement_typed (elementType : Ydb_Type) : M TTypeBuilder unit :=
  TB_AddElement ;; TB_SetType elementType.
Definition TB_SelectElement (index : nat) : M TTypeBuilder unit :=
  TB_CheckPreviousKind Tuple ;;
  TB_PopPosition ;;
  t ← TB_GetProto 0;
  match t with
  | kTupleType l =>
      if (index <? length l)%nat then TB_AddPosition (SElement index) else undefined "RepeatedPtrField"
  | _ => undefined "tuple_type()"
  end.

Definition TB_BeginDict : M TTypeBuilder unit := TB_put mutable_dict_type ;; TB_AddSelf.
Definition TB_EndDict : M TTypeBuilder unit := TB_CloseContainer Dict.
Definition TB_DictKey : M TTypeBuilder unit :=
  TB_CheckPreviousKind Dict ;; TB_PopPosition ;; TB_AddPosition SKey.
Definition TB_DictKey_typed (keyType : Ydb_Type) : M TTypeBuilder unit := TB_DictKey ;; TB_SetType keyType.
Definition TB_DictPayload : M TTypeBuilder unit :=
  TB_CheckPreviousKind Dict ;; TB_PopPosition ;; TB_AddPosition SPayload.
Definition TB_DictPayload_typed (payloadType : Ydb_Type) : M TTypeBuilder unit :=
  TB_DictPayload ;; TB_SetType payloadType.

Definition TB_BeginTagged (tag : string) : M TTypeBuilder unit :=
  TB_put (fun t => match mutable_tagged_type t with kTaggedType _ i => kTaggedType tag i | t => t end) ;;
  TB_AddPosition SItem.
Definition TB_EndTagged : M TTypeBuilder unit := TB_CloseContainer Tagged.
Definition TB_Tagged (tag : string) (itemType : Ydb_Type) : M TTypeBuilder unit :=
  TB_put (fun _ => kTaggedType tag itemType).

(** The public calls of [TTypeBuilder]. *)
Inductive tcall :=
  | CPrimitive (p : EPrimitiveType) | CDecimal (d : TDecimalType) | CPg (p : TPgType)
  | CBeginOptional | CEndOptional | COptional (t : Ydb_Type)
  | CBeginList | CEndList | CList (t : Ydb_Type)
  | CBeginStruct | CEndStruct | CAddMember (name : string) | CAddMember_typed (name : string) (t : Ydb_Type)
  | CBeginTuple | CEndTuple | CAddElement | CAddElement_typed (t : Ydb_Type)
  | CBeginDict | CEndDict | CDictKey | CDictKey_typed (t : Ydb_Type)
  | CDictPayload | CDictPayload_typed (t : Ydb_Type)
  | CBeginTagged (tag : string) | CEndTagged | CTagged (tag : string) (t : Ydb_Type).

Definition run_tcall (c : tcall) : M TTypeBuilder unit :=
  match c with
  | CPrimitive p => TB_Primitive p | CDecimal d => TB_Decimal d | CPg p => TB_Pg p
  | CBeginOptional => TB_BeginOptional | CEndOptional => TB_EndOptional | COptional t => TB_Optional t
  | CBeginList => TB_BeginList | CEndList => TB_EndList | CList t => TB_List t
  | CBeginStruct => TB_BeginStruct | CEndStruct => TB_EndStruct
  | CAddMember n => TB_AddMember n | CAddMember_typed n t => TB_AddMember_typed n t
  | CBeginTuple => TB_BeginTuple | CEndTuple => TB_EndTuple
  | CAddElement => TB_AddElement | CAddElement_typed t => TB_AddElement_typed t
  | CBeginDict => TB_BeginDict | CEndDict => TB_EndDict
  | CDictKey => TB_DictKey | CDictKey_typed t => TB_DictKey_typed t
  | CDictPayload => TB_DictPayload | CDictPayload_typed t => TB_DictPayload_typed t
  | CBeginTagged g => TB_BeginTagged g | CEndTagged => TB_EndTagged | CTagged g t => TB_Tagged g t
  end.

(** ** Pointers *)

#[export] Instance type_tree_laws : TreeLaws Ydb_Type tsel.
Proof.
  split.
  - intros t x c c'. destruct t, x; cbn; try done.
    + intros Hi. rewrite list_lookup_insert_eq; [done|]. by eapply lookup_lt_Some.
    + rewrite list_lookup_alter_eq. by destruct (_ !! i).
  - intros t x y c c'. destruct t, x; cbn; try done; destruct y; try done; intros Hi Hne.
    + by rewrite list_lookup_insert_ne by congruence.
    + by rewrite list_lookup_alter_ne by congruence.
  - intros t x c c1 c2. destruct t, x; cbn; try done; intros Hi.
    + by rewrite list_insert_insert_eq.
    + by rewrite list_alter_alter.
  - intros t x c. destruct t, x; cbn; try done; try congruence; intros Hi.
    + f_equal. by apply list_insert_id.
    + f_equal. apply list_alter_same. intros [n m] E. rewrite E in Hi. cbn in *. congruence.
Qed.

(** Every pointer of the stack is above the next one, and the top one refers to a node. *)
Definition TB_wf (s : TTypeBuilder) : Prop :=
  StronglySorted (fun p q => q `prefix_of` p) (TB_Path s) /\
  match TB_Path s with p :: _ => is_Some (get_at p (TB_Root s)) | [] => False end.

Lemma TB_put_spec f R p rest t : get_at p R = Some t ->
  TB_put f (mkTypeBuilder R (p :: rest)) = Ok (tt, mkTypeBuilder (set_at p (f t) R) (p :: rest)).
Proof. intros E. unfold TB_put, TB_GetProto. run. by rewrite E. Qed.

Lemma TB_wf_put R p rest t : TB_wf (mkTypeBuilder R (p :: rest)) ->
  TB_wf (mkTypeBuilder (set_at p t R) (p :: rest)).
Proof. intros [Hs Hp]. split; [done|]. cbn in *. rewrite get_set_at by done. by eexists. Qed.

Lemma TB_wf_push R p q rest : TB_wf (mkTypeBuilder R (p :: rest)) -> p `prefix_of` q ->
  is_Some (get_at q R) -> TB_wf (mkTypeBuilder R (q :: p :: rest)).
Proof.
  intros [Hs Hp] Hq Hn. split; [|done]. cbn in *. constructor; [done|].
  apply StronglySorted_inv in Hs as [_ Hs]. constructor; [done|].
  eapply Forall_impl; [exact Hs|]. cbn. intros r Hr. by etrans.
Qed.

Lemma TB_wf_pop R p q rest : TB_wf (mkTypeBuilder R (q :: p :: rest)) ->
  TB_wf (mkTypeBuilder R (p :: rest)).
Proof.
  intros [Hs Hq]. cbn in *. apply StronglySorted_inv in Hs as [Hs Hp]. split; [done|]. cbn.
  inversion Hp; subst. by eapply get_at_prefix.
Qed.

(** ** No call leaves the message *)

(** The calls that add a part to the open container. *)
Definition adds_part (c : tcall) : bool :=
  match c with
  | CAddMember _ | CAddMember_typed _ _ | CAddElement | CAddElement_typed _
  | CDictKey | CDictKey_typed _ | CDictPayload | CDictPayload_typed _ => true
  | _ => false
  end.

(** The kind of the node on top. *)
Definition top_kind (kind : ETypeKind) (b : TTypeBuilder) : Prop :=
  exists p rest t, TB_Path b = p :: rest /\ get_at p (TB_Root b) = Some t /\ GetKind t = Ok kind.

Section Safe.
Context (E : failure -> Prop) (Ethrow : forall m, E (Throw m)).

Lemma TB_put_safe f s : TB_wf s -> wpE E (TB_put f) (fun _ => TB_wf) s.
Proof.
  destruct s as [R [|p rest]]; intros W; [by destruct W|]. pose proof W as [Hs [t Ht]].
  unfold wpE. rewrite (TB_put_spec f R p rest t Ht). by apply TB_wf_put.
Qed.

Lemma TB_begin_safe f x s : (forall t, is_Some (child (f t) x)) -> TB_wf s ->
  wpE E (TB_put f ;; TB_AddPosition x) (fun _ => TB_wf) s.
Proof.
  intros Hf W. destruct s as [R [|p rest]]; [by destruct W|]. pose proof W as [Hs [t Ht]]. cbn in Ht.
  unfold wpE. erewrite bind_Ok by (by apply TB_put_spec). cbn. apply TB_wf_push; [by apply TB_wf_put|..].
  - by apply prefix_app_r.
  - erewrite get_at_snoc; [apply Hf|]. apply get_set_at. by eexists.
Qed.

Lemma TB_begin_self_safe f s : TB_wf s -> wpE E (TB_put f ;; TB_AddSelf) (fun _ => TB_wf) s.
Proof.
  intros W. destruct s as [R [|p rest]]; [by destruct W|]. pose proof W as [Hs [t Ht]]. cbn in Ht.
  unfold wpE. erewrite bind_Ok by (by apply TB_put_spec). cbn.
  apply TB_wf_push; [by apply TB_wf_put|done|]. rewrite get_set_at by (by eexists). by eexists.
Qed.

(** A check of the open container, with another position on top. *)
Lemma TB_GetProto_below R q p rest : TB_wf (mkTypeBuilder R (q :: p :: rest)) ->
  exists t, get_at p R = Some t /\
    TB_GetProto 1 (mkTypeBuilder R (q :: p :: rest)) = Ok (t, mkTypeBuilder R (q :: p :: rest)).
Proof.
  intros [_ [t Ht]]%TB_wf_pop. exists t. split; [done|]. unfold TB_GetProto. cbn in *. by rewrite Ht.
Qed.

Lemma CheckKind_safe {S} actual kind (s : S) :
  wpE E (CheckKind actual kind) (fun _ s' => s' = s /\ actual = kind) s.
Proof. unfold CheckKind. case_bool_decide; [by split|]. apply Ethrow. Qed.

Lemma TB_CheckPreviousKind_safe kind R q p rest : TB_wf (mkTypeBuilder R (q :: p :: rest)) ->
  wpE E (TB_CheckPreviousKind kind) (fun _ s' => s' = mkTypeBuilder R (q :: p :: rest) /\
    exists t, get_at p R = Some t /\ GetKind t = Ok kind) (mkTypeBuilder R (q :: p :: rest)).
Proof.
  intros W. destruct (TB_GetProto_below _ _ _ _ W) as (t & Ht & Et). unfold TB_CheckPreviousKind, TB_GetKind.
  apply wpE_bind, wpE_bind. unfold wpE at 1. rewrite Et. unfold wpE at 1, lift.
  destruct (GetKind t) as [actual|[m|m|m]] eqn:Ek; [|by destruct t|apply Ethrow|by destruct t].
  eapply wpE_mono; [apply CheckKind_safe|]. cbn beta. intros _ s' [-> ->]. split; [done|]. by eexists.
Qed.

Lemma TB_close_safe kind s : TB_wf s ->
  wpE E (TB_CloseContainer kind) (fun _ s' => TB_wf s' /\ TB_Root s' = TB_Root s /\ top_kind kind s') s.
Proof.
  intros W. destruct s as [R [|q [|p rest]]]; [by destruct W|apply Ethrow|].
  unfold TB_CloseContainer. wpE_steps. cbn. wpE_steps.
  eapply wpE_mono; [by apply TB_CheckPreviousKind_safe|]. cbn beta. intros _ s' (-> & t & Ht & Hk).
  split_and!; [by eapply TB_wf_pop|done|]. by exists p, rest, t.
Qed.

(** A call that replaces the position inside of the container; with a single position it
    reads below the bottom of the stack. *)
Lemma TB_inside_safe {A} kind (m : M TTypeBuilder A) Q s :
  TB_wf s -> (length (TB_Path s) = 1%nat -> E (Undefined "Path_")) ->
  (forall R p rest t, TB_wf (mkTypeBuilder R (p :: rest)) -> R = TB_Root s -> get_at p R = Some t ->
     GetKind t = Ok kind -> wpE E m Q (mkTypeBuilder R (p :: rest))) ->
  wpE E (TB_CheckPreviousKind kind ;; TB_PopPosition ;; m) Q s.
Proof.
  intros W He Hm. destruct s as [R [|q [|p rest]]]; [by destruct W|by apply He|].
  apply wpE_bind. eapply wpE_mono; [by apply TB_CheckPreviousKind_safe|]. cbn beta.
  intros _ s' (-> & t & Ht & Hk). wpE_steps. cbn. eapply Hm; [by eapply TB_wf_pop|done..].
Qed.

Lemma TB_select_safe kind x s : TB_wf s -> (length (TB_Path s) = 1%nat -> E (Undefined "Path_")) ->
  (forall t, GetKind t = Ok kind -> is_Some (child t x)) ->
  wpE E (TB_CheckPreviousKind kind ;; TB_PopPosition ;; TB_AddPosition x)
    (fun _ s' => TB_wf s' /\ TB_Root s' = TB_Root s) s.
Proof.
  intros W He Hx. apply TB_inside_safe; [done..|]. intros R p rest t W' -> Ht Hk. split; [|done].
  apply TB_wf_push; [done|by apply prefix_app_r|]. erewrite get_at_snoc by done. by apply Hx.
Qed.

(** A part appended to a container. *)
Lemma TB_append_safe R p rest t t' x : TB_wf (mkTypeBuilder R (p :: rest)) -> get_at p R = Some t ->
  is_Some (child t' x) ->
  wpE E (TB_put (fun _ => t') ;; TB_AddPosition x) (fun _ => TB_wf) (mkTypeBuilder R (p :: rest)).
Proof.
  intros W Ht Hx. unfold wpE. erewrite bind_Ok by (by apply TB_put_spec). cbn.
  apply TB_wf_push; [by apply TB_wf_put|by apply prefix_app_r|].
  by erewrite get_at_snoc by (apply get_set_at; by eexists).
Qed.

Context (s : TTypeBuilder) (W : TB_wf s) (He : length (TB_Path s) = 1%nat -> E (Undefined "Path_")).

Lemma TB_AddMember_safe n : wpE E (TB_AddMember n) (fun _ => TB_wf) s.
Proof using All.
  apply TB_inside_safe; [done..|]. intros R p rest t W' _ Ht Hk. apply wpE_bind.
  unfold wpE at 1, TB_GetProto. cbn. rewrite Ht. destruct t as [| | | | | | |l| | | | | | | | |]; try done.
  eapply TB_append_safe; [done..|]. cbn. rewrite lookup_app_r, Nat.sub_diag by done. by eexists.
Qed.

Lemma TB_AddElement_safe : wpE E TB_AddElement (fun _ => TB_wf) s.
Proof using All.
  apply TB_inside_safe; [done..|]. intros R p rest t W' _ Ht Hk. apply wpE_bind.
  unfold wpE at 1, TB_GetProto. cbn. rewrite Ht. destruct t as [| | | | | |l| | | | | | | | | |]; try done.
  eapply TB_append_safe; [done..|]. cbn. rewrite lookup_app_r, Nat.sub_diag by done. by eexists.
Qed.

End Safe.

Lemma run_tcall_safe (E : failure -> Prop) c s : (forall m, E (Throw m)) -> TB_wf s ->
  (adds_part c = true -> length (TB_Path s) = 1%nat -> E (Undefined "Path_")) ->
  wpE E (run_tcall c) (fun _ => TB_wf) s.
Proof.
  intros Et W He. destruct c; cbn [run_tcall adds_part] in *.
  all: try (by apply TB_put_safe).
  all: try (eapply wpE_mono; [by apply TB_close_safe|by intros ? ? []]).
  all: try (by apply TB_begin_self_safe).
  all: try (apply TB_begin_safe; [intros t; by destruct t; eexists|done]).
  all: unfold TB_AddMember_typed, TB_AddElement_typed, TB_DictKey_typed, TB_DictPayload_typed.
  all: try (apply wpE_bind, (wpE_mono _ _ (fun _ => TB_wf)); [|intros ? s' W'; by apply TB_put_safe]).
  all: try (eapply wpE_mono; [apply TB_select_safe; auto; intros []; try done; by eexists|by intros ? ? []]).
  all: first [apply TB_AddMember_safe|apply TB_AddElement_safe]; auto.
Qed.

(** C35: the type builder never leaves its message.  Whatever calls are made, in whatever
    order, every pointer it keeps refers to a node of the type that is being built: a
    call returns or throws, with one exception.  A call that adds a member, an element, a
    key or a payload while no container is open reads below the bottom of the stack of
    positions, as only the calls that close a container check that one is open. *)
Theorem type_builder_memory_safe t cs c s : for_each run_tcall cs (TTypeBuilder0 t) = Ok (tt, s) ->
  TB_wf s /\
  match run_tcall c s with
  | Ok (_, s') => TB_wf s'
  | Fail (Throw _) => True
  | Fail (Undefined _) => adds_part c = true /\ length (TB_Path s) = 1%nat
  | Fail (Abort _) => False
  end /\
  (adds_part c = true -> length (TB_Path s) = 1%nat -> run_tcall c s = Fail (Undefined "Path_")).
Proof.
  intros Hr. assert (TB_wf s) as W.
  { pose proof (wpE_for_each (fun _ => True) run_tcall TB_wf cs (TTypeBuilder0 t)) as H.
    unfold wpE at 2 in H. rewrite Hr in H. apply H.
    - split; [by repeat constructor|by eexists].
    - intros x s' _ W. by apply run_tcall_safe. }
  split; [done|]. split.
  - set (E f := match f with
                | Throw _ => True
                | Undefined _ => adds_part c = true /\ length (TB_Path s) = 1%nat
                | Abort _ => False end).
    assert (wpE E (run_tcall c) (fun _ => TB_wf) s) as H by (by apply run_tcall_safe).
    unfold wpE in H. by destruct (run_tcall c s) as [[? ?]|[]].
  - intros Ha Hl. destruct s as [R [|p []]]; try done. by destruct c.
Qed.

Lemma type_builder_memory_safe_witness :
  let s := mkTypeBuilder (kStructType [("a", TYPE_NOT_SET)]) [[SMember 0]; []] in
  TB_wf s /\
  match run_tcall (CPrimitive Text) s with
  | Ok (_, s') => TB_wf s'
  | Fail (Throw _) => True
  | Fail (Undefined _) => adds_part (CPrimitive Text) = true /\ length (TB_Path s) = 1%nat
  | Fail (Abort _) => False
  end /\
  (adds_part (CPrimitive Text) = true -> length (TB_Path s) = 1%nat ->
   run_tcall (CPrimitive Text) s = Fail (Undefined "Path_")).
Proof. apply (type_builder_memory_safe TYPE_NOT_SET [CBeginStruct; CAddMember "a"]). by vm_compute. Defined.
