(* ===== verification/ValueParser.v ===== *)
(** * Reading a value

    [TValueParser] of value.cpp: a cursor over a [Ydb.Value] that moves together with a
    [TTypeParser] over its type, and the getters of the primitive values.  The value may
    be anything a server sends.

    As in the type parser, [Path_] has its [back()] first and a position holds the message
    it points to, a value or a pair of a dict; reading a pair as a value, or outside of a
    repeated field, is [Undefined]. *)

From Stdlib Require Import SpecFloat.
From S2P Require Import Prelude ValueProto TypeParser.

(** The results of the getters, one case per method; times are microseconds since the
    epoch ([TInstant]), the wide types the count of their unit. *)
Inductive primitive :=
  | VBool (b : bool)
  | VInt8 (n : Z) | VUint8 (n : Z) | VInt16 (n : Z) | VUint16 (n : Z)
  | VInt32 (n : Z) | VUint32 (n : Z) | VInt64 (n : Z) | VUint64 (n : Z)
  | VFloat (f : spec_float) | VDouble (f : spec_float)
  | VDate (us : Z) | VDatetime (us : Z) | VTimestamp (us : Z) | VInterval (n : Z)
  | VDate32 (days : Z) | VDatetime64 (seconds : Z) | VTimestamp64 (us : Z) | VInterval64 (us : Z)
  | VTzDate (s : string) | VTzDatetime (s : string) | VTzTimestamp (s : string)
  | VBytes (s : string) | VText (s : string) | VYson (s : string) | VJson (s : string)
  | VUuid (low high : Z) | VJsonDocument (s : string) | VDyNumber (s : string).

(** [TPgValue]. *)
Inductive EPgValueKind := VK_NULL | VK_TEXT | VK_BINARY.
Record TPgValue := mkPgValue { PgType_ : TPgType; Kind_ : EPgValueKind; Content_ : string }.
(** [TDecimalValue]. *)
Record TDecimalValue := mkDecimalValue { DecimalType_ : TDecimalType; Low_ : Z; Hi_ : Z }.

(** ** Accessors of the message: the default value when the oneof has another case *)

Definition bool_value (v : Ydb_Value) : bool :=
  match value_of v with kBoolValue b => b | _ => false end.
Definition int32_value (v : Ydb_Value) : Z :=
  match value_of v with kInt32Value n => n | _ => 0 end.
Definition uint32_value (v : Ydb_Value) : Z :=
  match value_of v with kUint32Value n => n | _ => 0 end.
Definition int64_value (v : Ydb_Value) : Z :=
  match value_of v with kInt64Value n => n | _ => 0 end.
Definition uint64_value (v : Ydb_Value) : Z :=
  match value_of v with kUint64Value n => n | _ => 0 end.
Definition float_value (v : Ydb_Value) : spec_float :=
  match value_of v with kFloatValue f => f | _ => S754_zero false end.
Definition double_value (v : Ydb_Value) : spec_float :=
  match value_of v with kDoubleValue f => f | _ => S754_zero false end.
Definition bytes_value (v : Ydb_Value) : string :=
  match value_of v with kBytesValue s => s | _ => "" end.
Definition text_value (v : Ydb_Value) : string :=
  match value_of v with kTextValue s => s | _ => "" end.
Definition low_128 (v : Ydb_Value) : Z :=
  match value_of v with kLow128 n => n | _ => 0 end.

(** [NDateTimeHelpers::MulWithSaturation]. *)
Definition mul_saturated (b a : Z) : Z := Z.min (a * b) (2 ^ 64 - 1).
Definition instant_of_days (d : Z) : Z := mul_saturated (1000000 * 60 * 60 * 24) d.
Definition instant_of_seconds (s : Z) : Z := mul_saturated 1000000 s.

(** ** The parser *)

Inductive EParseKind := PK_Value | PK_Null | PK_Items | PK_Pairs | PK_Pair.
#[export] Instance EParseKind_eq_dec : EqDecision EParseKind.
Proof. solve_decision. Defined.

Inductive message := MValue (v : Ydb_Value) | MPair (key payload : Ydb_Value).

Record TValuePosition := mkValuePos { VKind : EParseKind; VPtr : message; VIdx : Z }.

(** [TValueParser::TImpl]. *)
Record TValueParser := mkValueParser { TypeParser_ : TTypeParser; VP_Path : list TValuePosition }.

(** The constructor from a value. *)
Definition TValueParser0 (type : Ydb_Type) (value : Ydb_Value) : TValueParser :=
  mkValueParser (TTypeParser0 type) [mkValuePos PK_Value (MValue value) (-1)].

(** A call of the type parser. *)
Definition on_type {A} (m : M TTypeParser A) : M TValueParser A := fun s =>
  match m (TypeParser_ s) with
  | Ok (a, t) => Ok (a, mkValueParser t (VP_Path s))
  | Fail e => Fail e
  end.

Definition set_VP_Path (p : list TValuePosition) : M TValueParser unit :=
  modify (fun s => mkValueParser (TypeParser_ s) p).

Definition VP_GetPathBack : M TValueParser TValuePosition := fun s =>
  match VP_Path s with
  | p :: _ => Ok (p, s)
  | [] => Fail (Throw "Bad parser state, no open value.")
  end.

Definition VP_PopPath : M TValueParser unit := fun s =>
  match VP_Path s with
  | _ :: rest => Ok (tt, mkValueParser (TypeParser_ s) rest)
  | [] => Fail (Throw "Bad parser state, no open value.")
  end.

Definition VP_AddPath (kind : EParseKind) (m : message) (idx : Z) : M TValueParser unit :=
  s ← get_st;
  let push := set_VP_Path (mkValuePos kind m idx :: VP_Path s) in
  match VP_Path s with
  | [] => push
  | back :: _ =>
      match VKind back with
      | PK_Null => throw "Can't parse inside NULL value"
      | PK_Value => push
      | PK_Pair =>
          if bool_decide (kind = PK_Value) then push
          else throw "Bad parser state, expected dict pair."
      | _ => throw "Bad parser state, no value to parse."
      end
  end.

(** [Reset(value)]: the type parser goes back to the root too. *)
Definition VP_Reset (value : Ydb_Value) : M TValueParser unit :=
  on_type TP_Reset ;; set_VP_Path [] ;; VP_AddPath PK_Value (MValue value) (-1).

Definition VP_GetProto : M TValueParser Ydb_Value :=
  p ← VP_GetPathBack;
  match VPtr p with MValue v => mret v | MPair _ _ => undefined "a pair read as a value" end.

Definition VP_GetProtoPair : M TValueParser (Ydb_Value * Ydb_Value) :=
  p ← VP_GetPathBack;
  if bool_decide (VKind p = PK_Pair) then
    match VPtr p with MPair k v => mret (k, v) | MValue _ => undefined "a value read as a pair" end
  else throw "Bad parser state, expected dict pair".

Definition VP_OpenItems (idx : Z) : M TValueParser unit :=
  v ← VP_GetProto;
  if idx <? 0 then VP_AddPath PK_Items (MValue v) idx
  else match items v !! Z.to_nat idx with
       | Some x => VP_AddPath PK_Value (MValue x) idx
       | None => undefined "items"
       end.

Definition VP_CloseItems : M TValueParser unit := VP_PopPath.

Definition VP_NextItems : M TValueParser bool :=
  back ← VP_GetPathBack;
  let idx := VIdx back + 1 in
  VP_PopPath ;;
  v ← VP_GetProto;
  let isEnd := idx =? Z.of_nat (length (items v)) in
  let idx := if isEnd then idx - 1 else idx in
  VP_OpenItems idx ;;
  mret (negb isEnd).

Definition VP_OpenPairs (idx : Z) : M TValueParser unit :=
  v ← VP_GetProto;
  if idx <? 0 then VP_AddPath PK_Pairs (MValue v) idx
  else match pairs v !! Z.to_nat idx with
       | Some (k, p) => VP_AddPath PK_Pair (MPair k p) idx
       | None => undefined "pairs"
       end.

(** Leaves the key or payload that may be open. *)
Definition VP_leave_pair : M TValueParser unit :=
  back ← VP_GetPathBack;
  match VKind back with PK_Pairs | PK_Pair => mret tt | _ => VP_PopPath end.

Definition VP_NextPairs : M TValueParser bool :=
  VP_leave_pair ;;
  back ← VP_GetPathBack;
  let idx := VIdx back + 1 in
  VP_PopPath ;;
  v ← VP_GetProto;
  let isEnd := idx =? Z.of_nat (length (pairs v)) in
  let idx := if isEnd then idx - 1 else idx in
  VP_OpenPairs idx ;;
  mret (negb isEnd).

Definition VP_ClosePairs : M TValueParser unit := VP_leave_pair ;; VP_PopPath.

(** ** Containers *)

Definition VP_OpenOptional : M TValueParser unit :=
  on_type (TP_Open Optional) ;;
  v ← VP_GetProto;
  match value_of v with
  | kNestedValue n => VP_AddPath PK_Value (MValue n) (-1)
  | kNullFlagValue => VP_AddPath PK_Null (MValue v) (-1)
  | _ => VP_AddPath PK_Value (MValue v) (-1)
  end.

Definition VP_IsNull : M TValueParser bool :=
  back ← VP_GetPathBack; mret (bool_decide (VKind back = PK_Null)).

Definition VP_CloseOptional : M TValueParser unit := VP_PopPath ;; on_type (TP_Close Optional).

Definition VP_OpenList : M TValueParser unit := on_type (TP_Open List) ;; VP_OpenItems (-1).
Definition VP_TryNextListItem : M TValueParser bool := VP_NextItems.
Definition VP_CloseList : M TValueParser unit := VP_CloseItems ;; on_type (TP_Close List).

(** [TryNextMember] and [TryNextElement]. *)
Definition VP_TryNext (kind : ETypeKind) : M TValueParser bool :=
  more ← on_type (TP_TryNext kind);
  if more : bool then
    next ← VP_NextItems;
    if next : bool then mret true else throw "Missing 'items' value at index"
  else mret false.

Definition VP_OpenStruct : M TValueParser unit := on_type (TP_Open Struct) ;; VP_OpenItems (-1).
Definition VP_TryNextMember : M TValueParser bool := VP_TryNext Struct.
Definition VP_GetMemberName : M TValueParser string := on_type TP_GetMemberName.
Definition VP_CloseStruct : M TValueParser unit := VP_CloseItems ;; on_type (TP_Close Struct).

Definition VP_OpenTuple : M TValueParser unit := on_type (TP_Open Tuple) ;; VP_OpenItems (-1).
Definition VP_TryNextElement : M TValueParser bool := VP_TryNext Tuple.
Definition VP_CloseTuple : M TValueParser unit := VP_CloseItems ;; on_type (TP_Close Tuple).

Definition VP_OpenDict : M TValueParser unit := on_type (TP_Open Dict) ;; VP_OpenPairs (-1).
Definition VP_TryNextDictItem : M TValueParser bool := VP_NextPairs.
Definition VP_leave_part : M TValueParser unit :=
  back ← VP_GetPathBack; if bool_decide (VKind back = PK_Pair) then mret tt else VP_PopPath.
Definition VP_DictKey : M TValueParser unit :=
  on_type TP_DictKey ;; VP_leave_part ;;
  '(k, _) ← VP_GetProtoPair; VP_AddPath PK_Value (MValue k) (-1).
Definition VP_DictPayload : M TValueParser unit :=
  on_type TP_DictPayload ;; VP_leave_part ;;
  '(_, p) ← VP_GetProtoPair; VP_AddPath PK_Value (MValue p) (-1).
Definition VP_CloseDict : M TValueParser unit := VP_ClosePairs ;; on_type (TP_Close Dict).

(** The [uint32] index of the message is passed on as an [int]. *)
Definition VP_OpenVariant : M TValueParser unit :=
  v ← VP_GetProto;
  on_type (TP_OpenVariant (wrapS 32 (variant_index v))) ;;
  v ← VP_GetProto;
  match value_of v with
  | kNestedValue n => VP_AddPath PK_Value (MValue n) (-1)
  | _ => throw "No nested value for variant type."
  end.
Definition VP_CheckKind (kind : ETypeKind) : M TValueParser unit :=
  actual ← on_type (TP_GetKind 0); CheckKind actual kind.
Definition VP_GetVariantIndex : M TValueParser Z :=
  VP_CheckKind Variant ;; v ← VP_GetProto; mret (variant_index v).
Definition VP_CloseVariant : M TValueParser unit := VP_PopPath ;; on_type (TP_Close Variant).

Definition VP_OpenTagged : M TValueParser unit := on_type (TP_Open Tagged).
Definition VP_GetTag : M TValueParser string := on_type TP_GetTag.
Definition VP_CloseTagged : M TValueParser unit := on_type (TP_Close Tagged).

(** ** Primitive values *)

Definition VP_CheckTransportKind (expectedCase : ValueCase) : M TValueParser unit :=
  v ← VP_GetProto;
  if bool_decide (expectedCase = value_case v) then mret tt
  else throw "Transport value case mismatch".

Definition GetPrimitiveValueCase (p : EPrimitiveType) : M TValueParser ValueCase :=
  match p with
  | Bool => mret CaseBool
  | Int8 => mret CaseInt32
  | Uint8 => mret CaseUint32
  | Int16 => mret CaseInt32
  | Uint16 => mret CaseUint32
  | Int32 => mret CaseInt32
  | Uint32 => mret CaseUint32
  | Int64 => mret CaseInt64
  | Uint64 => mret CaseUint64
  | Float => mret CaseFloat
  | Double => mret CaseDouble
  | Date | Datetime => mret CaseUint32
  | Date32 => mret CaseInt32
  | Timestamp => mret CaseUint64
  | Interval | Interval64 | Timestamp64 | Datetime64 => mret CaseInt64
  | TzDate | TzDatetime | TzTimestamp => mret CaseText
  | Bytes => mret CaseBytes
  | Text => mret CaseText
  | Yson => mret CaseBytes
  | Json | JsonDocument | DyNumber => mret CaseText
  | Uuid => mret CaseLow128
  | OtherPrimitive _ => throw "Unexpected primitive type"
  end.

Definition VP_CheckPrimitive (p : EPrimitiveType) : M TValueParser unit :=
  VP_CheckKind Primitive ;;
  actual ← on_type TP_GetPrimitive;
  (if bool_decide (p = actual) then mret tt else throw "Type mismatch") ;;
  case ← GetPrimitiveValueCase p;
  VP_CheckTransportKind case.

Definition VP_GetPrimitiveType : M TValueParser EPrimitiveType :=
  VP_CheckKind Primitive ;; on_type TP_GetPrimitive.

(** What the getter of a primitive type makes of the message; the narrow integers are
    converted from their 32-bit fields. *)
Definition decode_primitive (p : EPrimitiveType) (v : Ydb_Value) : option primitive :=
  match p with
  | Bool => Some (VBool (bool_value v))
  | Int8 => Some (VInt8 (wrapS 8 (int32_value v)))
  | Uint8 => Some (VUint8 (u8 (uint32_value v)))
  | Int16 => Some (VInt16 (wrapS 16 (int32_value v)))
  | Uint16 => Some (VUint16 (u16 (uint32_value v)))
  | Int32 => Some (VInt32 (int32_value v))
  | Uint32 => Some (VUint32 (uint32_value v))
  | Int64 => Some (VInt64 (int64_value v))
  | Uint64 => Some (VUint64 (uint64_value v))
  | Float => Some (VFloat (float_value v))
  | Double => Some (VDouble (double_value v))
  | Date => Some (VDate (instant_of_days (uint32_value v)))
  | Datetime => Some (VDatetime (instant_of_seconds (uint32_value v)))
  | Timestamp => Some (VTimestamp (uint64_value v))
  | Interval => Some (VInterval (int64_value v))
  | Date32 => Some (VDate32 (int32_value v))
  | Datetime64 => Some (VDatetime64 (int64_value v))
  | Timestamp64 => Some (VTimestamp64 (int64_value v))
  | Interval64 => Some (VInterval64 (int64_value v))
  | TzDate => Some (VTzDate (text_value v))
  | TzDatetime => Some (VTzDatetime (text_value v))
  | TzTimestamp => Some (VTzTimestamp (text_value v))
  | Bytes => Some (VBytes (bytes_value v))
  | Text => Some (VText (text_value v))
  | Yson => Some (VYson (bytes_value v))
  | Json => Some (VJson (text_value v))
  | Uuid => Some (VUuid (low_128 v) (high_128 v))
  | JsonDocument => Some (VJsonDocument (text_value v))
  | DyNumber => Some (VDyNumber (text_value v))
  | OtherPrimitive _ => None
  end.

(** [GetBool()] .. [GetDyNumber()]: the getter of the type [p]. *)
Definition VP_Get (p : EPrimitiveType) : M TValueParser primitive :=
  VP_CheckPrimitive p ;;
  v ← VP_GetProto;
  match decode_primitive p v with Some x => mret x | None => undefined "no such getter" end.

Definition VP_GetDecimal : M TValueParser TDecimalValue :=
  VP_CheckKind Decimal ;; VP_CheckTransportKind CaseLow128 ;;
  v ← VP_GetProto;
  d ← on_type TP_GetDecimal;
  mret (mkDecimalValue d (low_128 v) (wrapS 64 (high_128 v))).

Definition VP_GetPg : M TValueParser TPgValue :=
  VP_CheckKind Pg ;;
  v ← VP_GetProto;
  t ← on_type TP_GetPg;
  mret (match value_of v with
        | kTextValue s => mkPgValue t VK_TEXT s
        | kBytesValue s => mkPgValue t VK_BINARY s
        | _ => mkPgValue t VK_NULL ""
        end).

(** [GetOptionalBool()] .. [GetOptionalDyNumber()]: the macro [RET_OPT_VALUE]. *)
Definition VP_GetOptional (p : EPrimitiveType) : M TValueParser (option primitive) :=
  VP_OpenOptional ;;
  null ← VP_IsNull;
  value ← (if null : bool then mret None else x ← VP_Get p; mret (Some x));
  VP_CloseOptional ;;
  mret value.
