(* ===== verification/ValueBuilder.v ===== *)
(** * Building a value

    [TValueBuilderImpl] of value.cpp, behind [TValueBuilder] and [TParamValueBuilder].  It
    fills in a [Ydb.Value] and, at the same time, fills in or checks its [Ydb.Type] with a
    [TTypeBuilder].  As there, a pointer or reference into a message is the path from the
    root; the addresses of [StructsMap_] are paths too, as a struct type of the builder's
    type is never replaced before [BuildValue].

    A type mismatch is reported with both types printed; printing a type that is not
    complete throws itself, which is the same exception with another text. *)

From Stdlib Require Import SpecFloat.
From S2P Require Import Prelude ValueProto MessagePath TypeParser TypeBuilder ValueParser.

(** A step from a value to a part of it. *)
Inductive vsel := VItem (i : nat) | VKey (i : nat) | VPayload (i : nat) | VNested.
#[export] Instance vsel_eq_dec : EqDecision vsel.
Proof. solve_decision. Defined.
Abbreviation vpath := (list vsel).

#[export] Instance value_tree : Tree Ydb_Value vsel := {
  child v x :=
    match x with
    | VItem i => items v !! i
    | VKey i => fst <$> pairs v !! i
    | VPayload i => snd <$> pairs v !! i
    | VNested => match value_of v with kNestedValue n => Some n | _ => None end
    end;
  set_child x c v :=
    match x with
    | VItem i => set_items (<[i := c]> (items v)) v
    | VKey i => set_pairs (alter (fun p => (c, p.2)) i (pairs v)) v
    | VPayload i => set_pairs (alter (fun p => (p.1, c)) i (pairs v)) v
    | VNested => match value_of v with kNestedValue _ => set_value (kNestedValue c) v | _ => v end
    end
}.

Abbreviation TMembersMap := (gmap string nat).

Record TBuildPosition := mkBuildPos { BValue : vpath; BuildType : bool; OptLevel : Z }.
Record TStructPosition := mkStructPos { MembersMap : TMembersMap; FilledMembers : gset nat }.

(** [TValueBuilderImpl]; the stacks with their [back()] first. *)
Record TValueBuilder := mkValueBuilder {
  TypeBuilder_ : TTypeBuilder;
  ProtoValue_ : Ydb_Value;
  StructsMap_ : list (tpath * TMembersMap);
  VB_Path : list TBuildPosition;
  StructsPath_ : list TStructPosition
}.

(** The constructors: without a type, and with the type (and for a parameter the value)
    given. *)
Definition TValueBuilder0 (type : Ydb_Type) (value : Ydb_Value) : TValueBuilder :=
  mkValueBuilder (TTypeBuilder0 type) value [] [mkBuildPos [] false 0] [].

Definition set_VB_Path (p : list TBuildPosition) (s : TValueBuilder) : TValueBuilder :=
  mkValueBuilder (TypeBuilder_ s) (ProtoValue_ s) (StructsMap_ s) p (StructsPath_ s).
Definition set_ProtoValue (v : Ydb_Value) (s : TValueBuilder) : TValueBuilder :=
  mkValueBuilder (TypeBuilder_ s) v (StructsMap_ s) (VB_Path s) (StructsPath_ s).
Definition set_StructsMap (m : list (tpath * TMembersMap)) (s : TValueBuilder) : TValueBuilder :=
  mkValueBuilder (TypeBuilder_ s) (ProtoValue_ s) m (VB_Path s) (StructsPath_ s).
Definition set_StructsPath (p : list TStructPosition) (s : TValueBuilder) : TValueBuilder :=
  mkValueBuilder (TypeBuilder_ s) (ProtoValue_ s) (StructsMap_ s) (VB_Path s) p.

(** A call of the type builder. *)
Definition on_tb {A} (m : M TTypeBuilder A) : M TValueBuilder A := fun s =>
  match m (TypeBuilder_ s) with
  | Ok (a, t) => Ok (a, mkValueBuilder t (ProtoValue_ s) (StructsMap_ s) (VB_Path s) (StructsPath_ s))
  | Fail e => Fail e
  end.

(** ** Helpers *)

Definition VB_PathTop : M TValueBuilder TBuildPosition := fun s =>
  match VB_Path s with
  | p :: _ => Ok (p, s)
  | [] => Fail (Undefined "Path_.back()")
  end.
Definition VB_set_top (f : TBuildPosition -> TBuildPosition) : M TValueBuilder unit := fun s =>
  match VB_Path s with
  | p :: rest => Ok (tt, set_VB_Path (f p :: rest) s)
  | [] => Fail (Undefined "Path_.back()")
  end.

Definition VB_GetType (offset : nat) : M TValueBuilder Ydb_Type := on_tb (TB_GetProto offset).

Definition VB_GetValue : M TValueBuilder Ydb_Value := fun s =>
  match VB_Path s with
  | p :: _ => match get_at (BValue p) (ProtoValue_ s) with
              | Some v => Ok (v, s)
              | None => Fail (Undefined "dangling reference")
              end
  | [] => Fail (Undefined "Path_.back()")
  end.

(** A write to [GetValue()]. *)
Definition VB_put (f : Ydb_Value -> Ydb_Value) : M TValueBuilder unit :=
  v ← VB_GetValue;
  top ← VB_PathTop;
  modify (fun s => set_ProtoValue (set_at (BValue top) (f v) (ProtoValue_ s)) s).

(** [PushPath] of a part of [GetValue()], and of [GetValue()] itself. *)
Definition VB_PushPath (x : vsel) : M TValueBuilder unit :=
  top ← VB_PathTop;
  modify (fun s => set_VB_Path (mkBuildPos (BValue top ++ [x]) false 0 :: VB_Path s) s).
Definition VB_PushSelf : M TValueBuilder unit :=
  top ← VB_PathTop;
  modify (fun s => set_VB_Path (mkBuildPos (BValue top) false 0 :: VB_Path s) s).
Definition VB_PopPath : M TValueBuilder unit := modify (fun s => set_VB_Path (tail (VB_Path s)) s).

Definition VB_GetBuildType : M TValueBuilder bool := top ← VB_PathTop; mret (BuildType top).
Definition VB_SetBuildType (value : bool) : M TValueBuilder unit :=
  VB_set_top (fun p => mkBuildPos (BValue p) value (OptLevel p)).

(** [CheckType()], [CheckType(kind)] and [CheckType(type)]. *)
Definition VB_CheckType : M TValueBuilder bool :=
  t ← VB_GetType 0; mret (match t with TYPE_NOT_SET => false | _ => true end).
Definition VB_CheckTypeKind (kind : ETypeKind) : M TValueBuilder bool :=
  known ← VB_CheckType;
  if known : bool then
    t ← VB_GetType 0;
    expected ← lift (GetKind t);
    if bool_decide (expected = kind) then mret true else throw "Type mismatch"
  else mret false.
Definition VB_CheckTypeIs (type : Ydb_Type) : M TValueBuilder bool :=
  known ← VB_CheckType;
  if known : bool then
    t ← VB_GetType 0;
    equal ← lift (TypesEqual t type);
    if equal : bool then mret true else throw "Type mismatch"
  else mret false.

Definition VB_CheckPrimitiveType (p : EPrimitiveType) : M TValueBuilder bool :=
  known ← VB_CheckTypeKind Primitive;
  if known : bool then
    t ← VB_GetType 0;
    match t with
    | kTypeId expected => if bool_decide (expected = p) then mret true else throw "Primitive type mismatch"
    | _ => throw "Primitive type mismatch"
    end
  else mret false.

(** [if (!CheckX(...)) TypeBuilder_.X(...)]. *)
Definition unless (m : M TValueBuilder bool) (n : M TTypeBuilder unit) : M TValueBuilder unit :=
  known ← m; if known : bool then mret tt else on_tb n.

Definition FillPrimitiveType (p : EPrimitiveType) : M TValueBuilder unit :=
  unless (VB_CheckPrimitiveType p) (TB_Primitive p).
(** The type that is there need only be a decimal type. *)
Definition FillDecimalType (d : TDecimalType) : M TValueBuilder unit :=
  unless (VB_CheckTypeKind Decimal) (TB_Decimal d).
Definition FillPgType (p : TPgType) : M TValueBuilder unit :=
  unless (VB_CheckTypeKind Pg) (TB_Pg p).
Definition FillType (type : Ydb_Type) : M TValueBuilder unit :=
  unless (VB_CheckTypeIs type) (TB_SetType type).

Definition CheckContainerKind (kind : ETypeKind) : M TValueBuilder unit :=
  s ← get_st;
  if (length (VB_Path s) <? 2)%nat then throw "No opened container"
  else
    t ← VB_GetType 1;
    actual ← lift (GetKind t);
    if bool_decide (actual = kind) then mret tt else throw "Container type mismatch".

(** [GetMembersMap]: [emplace] keeps the first index of a name. *)
Definition members_map (l : list (string * Ydb_Type)) : TMembersMap :=
  foldl (fun m im => match m !! im.2 with Some _ => m | None => <[im.2 := im.1]> m end) ∅
    (zip (seq 0 (length l)) (fst <$> l)).
Definition GetMembersMap (node : tpath) (l : list (string * Ydb_Type)) : M TValueBuilder TMembersMap :=
  s ← get_st;
  match find (fun e => bool_decide (e.1 = node)) (StructsMap_ s) with
  | Some e => mret e.2
  | None =>
      modify (fun s => set_StructsMap ((node, members_map l) :: StructsMap_ s) s) ;;
      mret (members_map l)
  end.

Definition StructsPathTop : M TValueBuilder TStructPosition := fun s =>
  match StructsPath_ s with
  | p :: _ => Ok (p, s)
  | [] => Fail (Undefined "StructsPath_.back()")
  end.

(** ** Primitive values *)

Definition primitive_type (x : primitive) : EPrimitiveType :=
  match x with
  | VBool _ => Bool | VInt8 _ => Int8 | VUint8 _ => Uint8 | VInt16 _ => Int16 | VUint16 _ => Uint16
  | VInt32 _ => Int32 | VUint32 _ => Uint32 | VInt64 _ => Int64 | VUint64 _ => Uint64
  | VFloat _ => Float | VDouble _ => Double
  | VDate _ => Date | VDatetime _ => Datetime | VTimestamp _ => Timestamp | VInterval _ => Interval
  | VDate32 _ => Date32 | VDatetime64 _ => Datetime64 | VTimestamp64 _ => Timestamp64
  | VInterval64 _ => Interval64
  | VTzDate _ => TzDate | VTzDatetime _ => TzDatetime | VTzTimestamp _ => TzTimestamp
  | VBytes _ => Bytes | VText _ => Text | VYson _ => Yson | VJson _ => Json
  | VUuid _ _ => Uuid | VJsonDocument _ => JsonDocument | VDyNumber _ => DyNumber
  end.

(** What the setter of a primitive type writes. *)
Definition encode_primitive (x : primitive) (v : Ydb_Value) : Ydb_Value :=
  match x with
  | VBool b => set_value (kBoolValue b) v
  | VInt8 n | VInt16 n | VInt32 n => set_value (kInt32Value n) v
  | VUint8 n | VUint16 n | VUint32 n => set_value (kUint32Value n) v
  | VInt64 n => set_value (kInt64Value n) v
  | VUint64 n => set_value (kUint64Value n) v
  | VFloat f => set_value (kFloatValue f) v
  | VDouble f => set_value (kDoubleValue f) v
  | VDate us => set_value (kUint32Value (u32 (us / 1000000 / 60 / 60 / 24))) v
  | VDatetime us => set_value (kUint32Value (u32 (us / 1000000))) v
  | VTimestamp us => set_value (kUint64Value us) v
  | VInterval n => set_value (kInt64Value n) v
  | VDate32 n => set_value (kInt32Value n) v
  | VDatetime64 n | VTimestamp64 n | VInterval64 n => set_value (kInt64Value n) v
  | VTzDate s | VTzDatetime s | VTzTimestamp s => set_value (kTextValue s) v
  | VBytes s | VYson s => set_value (kBytesValue s) v
  | VText s | VJson s | VJsonDocument s | VDyNumber s => set_value (kTextValue s) v
  | VUuid low high => set_high_128 high (set_value (kLow128 low) v)
  end.

(** [Bool(value)] .. [DyNumber(value)]: the setter of the value's type. *)
Definition VB_Set (x : primitive) : M TValueBuilder unit :=
  FillPrimitiveType (primitive_type x) ;; VB_put (encode_primitive x).

Definition VB_Decimal (x : TDecimalValue) : M TValueBuilder unit :=
  FillDecimalType (DecimalType_ x) ;;
  VB_put (fun v => set_high_128 (u64 (Hi_ x)) (set_value (kLow128 (Low_ x)) v)).

Definition VB_Pg (x : TPgValue) : M TValueBuilder unit :=
  FillPgType (PgType_ x) ;;
  VB_put (fun v => match Kind_ x with
                   | VK_NULL => set_value kNullFlagValue v
                   | VK_TEXT => set_value (kTextValue (Content_ x)) v
                   | VK_BINARY => set_value (kBytesValue (Content_ x)) v
                   end).

(** ** Optional *)

Definition VB_add_OptLevel (d : Z) : M TValueBuilder unit :=
  VB_set_top (fun p => mkBuildPos (BValue p) (BuildType p) (u32 (OptLevel p + d))).

Definition VB_BeginOptional : M TValueBuilder unit :=
  known ← VB_CheckTypeKind Optional;
  VB_SetBuildType (negb known) ;;
  top ← VB_PathTop;
  when (OptLevel top =? 0) VB_PushSelf ;;
  on_tb TB_BeginOptional ;;
  VB_add_OptLevel 1.

Definition VB_EndOptional : M TValueBuilder unit :=
  CheckContainerKind Optional ;;
  on_tb TB_EndOptional ;;
  top ← VB_PathTop;
  (if OptLevel top =? 0 then throw "No opened optional" else mret tt) ;;
  VB_add_OptLevel (-1) ;;
  top ← VB_PathTop;
  when (OptLevel top =? 0) VB_PopPath.

Definition VB_BeginOptional_typed (itemType : Ydb_Type) : M TValueBuilder unit :=
  VB_BeginOptional ;; FillType itemType.

Definition mutable_nested_value (v : Ydb_Value) : Ydb_Value :=
  match value_of v with kNestedValue _ => v | _ => set_value (kNestedValue EmptyValue) v end.

Fixpoint nest (n : nat) : M TValueBuilder unit :=
  match n with
  | O => mret tt
  | S n => VB_put mutable_nested_value ;; VB_PushPath VNested ;; nest n
  end.
Fixpoint pop_times (n : nat) : M TValueBuilder unit :=
  match n with
  | O => mret tt
  | S n => VB_PopPath ;; pop_times n
  end.
Definition NestEmptyOptional : M TValueBuilder unit :=
  top ← VB_PathTop;
  let optLevel := Z.to_nat (u32 (OptLevel top - 1)) in
  nest optLevel ;;
  VB_put (set_value kNullFlagValue) ;;
  pop_times optLevel.

(** [EmptyOptional(itemType)], [EmptyOptional(primitive)] and [EmptyOptional()]. *)
Definition VB_EmptyOptional_typed (itemType : Ydb_Type) : M TValueBuilder unit :=
  VB_BeginOptional_typed itemType ;; NestEmptyOptional ;; VB_EndOptional.
Definition VB_EmptyOptional_primitive (p : EPrimitiveType) : M TValueBuilder unit :=
  VB_BeginOptional ;; FillPrimitiveType p ;; NestEmptyOptional ;; VB_EndOptional.
Definition VB_EmptyOptional : M TValueBuilder unit :=
  VB_BeginOptional ;;
  known ← VB_CheckType;
  if known : bool then NestEmptyOptional ;; VB_EndOptional
  else throw "EmptyOptional: unknown item type".

(** [OptionalBool(value)] .. [OptionalDyNumber(value)]: the method of the type [p]. *)
Definition VB_OptionalPrimitive (p : EPrimitiveType) (x : option primitive) : M TValueBuilder unit :=
  match x with
  | Some x => VB_BeginOptional ;; VB_Set x ;; VB_EndOptional
  | None => VB_EmptyOptional_primitive p
  end.

(** ** List *)

Definition VB_BeginList : M TValueBuilder unit :=
  known ← VB_CheckTypeKind List;
  VB_SetBuildType (negb known) ;;
  on_tb TB_BeginList ;;
  VB_PushSelf.
Definition VB_BeginList_typed (itemType : Ydb_Type) : M TValueBuilder unit :=
  VB_BeginList ;; FillType itemType.
Definition VB_EndList : M TValueBuilder unit :=
  CheckContainerKind List ;; on_tb TB_EndList ;; VB_PopPath.

(** [PushPath( *GetValue().add_items())]. *)
Definition VB_push_item : M TValueBuilder unit :=
  v ← VB_GetValue;
  VB_put (fun v => set_items (items v ++ [EmptyValue]) v) ;;
  VB_PushPath (VItem (length (items v))).

Definition VB_AddListItem : M TValueBuilder unit :=
  CheckContainerKind List ;; VB_PopPath ;; VB_push_item.

(** [SetProtoValue] after the type was checked or filled in. *)
Definition VB_SetTyped (type : Ydb_Type) (value : Ydb_Value) : M TValueBuilder unit :=
  FillType type ;; VB_put (fun _ => value).

Definition VB_AddListItem_value (type : Ydb_Type) (value : Ydb_Value) : M TValueBuilder unit :=
  VB_AddListItem ;; VB_SetTyped type value.
Definition VB_EmptyList_typed (itemType : Ydb_Type) : M TValueBuilder unit :=
  VB_BeginList_typed itemType ;; VB_EndList.
Definition VB_EmptyList : M TValueBuilder unit :=
  VB_BeginList ;;
  known ← VB_CheckType;
  if known : bool then VB_EndList else throw "EmptyList: unknown item type".

(** ** Struct *)

Definition VB_BeginStruct : M TValueBuilder unit :=
  known ← VB_CheckTypeKind Struct;
  VB_SetBuildType (negb known) ;;
  (if known : bool then
     t ← VB_GetType 0;
     s ← get_st;
     match t with
     | kStructType l =>
         membersMap ← GetMembersMap (default [] (head (TB_Path (TypeBuilder_ s)))) l;
         VB_put (fun v => set_items (items v ++ replicate (size membersMap) EmptyValue) v) ;;
         modify (fun s => set_StructsPath (mkStructPos membersMap ∅ :: StructsPath_ s) s)
     | _ => undefined "struct_type()"
     end
   else mret tt) ;;
  on_tb TB_BeginStruct ;;
  VB_PushSelf.

Definition VB_AddMember (memberName : string) : M TValueBuilder unit :=
  CheckContainerKind Struct ;;
  VB_PopPath ;;
  build ← VB_GetBuildType;
  if build : bool then on_tb (TB_AddMember memberName) ;; VB_push_item
  else
    pos ← StructsPathTop;
    match MembersMap pos !! memberName with
    | None => throw "Struct member not found"
    | Some index =>
        on_tb (TB_SelectMember index) ;;
        v ← VB_GetValue;
        (if (index <? length (items v))%nat then VB_PushPath (VItem index) else undefined "items") ;;
        modify (fun s =>
          set_StructsPath (mkStructPos (MembersMap pos) ({[index]} ∪ FilledMembers pos) ::
                           tail (StructsPath_ s)) s)
    end.
Definition VB_AddMember_value (memberName : string) (type : Ydb_Type) (value : Ydb_Value)
    : M TValueBuilder unit :=
  VB_AddMember memberName ;; VB_SetTyped type value.

(** The first member that was not filled in is looked up by its index, for the message;
    a name may be missing when the struct type has two members of one name. *)
Definition first_unfilled (n : nat) (filled : gset nat) : nat :=
  default n (list_find (fun i => i ∉ filled) (seq 0 n) ≫= fun p => Some p.2).

Definition VB_EndStruct : M TValueBuilder unit :=
  CheckContainerKind Struct ;;
  VB_PopPath ;;
  on_tb TB_EndStruct ;;
  build ← VB_GetBuildType;
  if build : bool then mret tt
  else
    pos ← StructsPathTop;
    let n := size (MembersMap pos) in
    (if (size (FilledMembers pos) <? n)%nat then
       if existsb (fun e => Nat.eqb e.2 (first_unfilled n (FilledMembers pos)))
            (map_to_list (MembersMap pos))
       then throw "No value given for struct member"
       else undefined "membersMap.end()"
     else mret tt) ;;
    modify (fun s => set_StructsPath (tail (StructsPath_ s)) s).

(** ** Tuple *)

Definition VB_BeginTuple : M TValueBuilder unit :=
  known ← VB_CheckTypeKind Tuple;
  VB_SetBuildType (negb known) ;;
  on_tb TB_BeginTuple ;;
  VB_PushSelf.

Definition elements_size (t : Ydb_Type) : nat :=
  match t with kTupleType l => length l | _ => 0 end.

Definition VB_AddElement : M TValueBuilder unit :=
  CheckContainerKind Tuple ;;
  VB_PopPath ;;
  build ← VB_GetBuildType;
  (if build : bool then on_tb TB_AddElement
   else
     v ← VB_GetValue;
     t ← VB_GetType 1;
     let index := length (items v) in
     if (elements_size t <=? index)%nat then throw "Tuple elements count mismatch"
     else on_tb (TB_SelectElement index)) ;;
  VB_push_item.
Definition VB_AddElement_value (type : Ydb_Type) (value : Ydb_Value) : M TValueBuilder unit :=
  VB_AddElement ;; VB_SetTyped type value.

Definition VB_EndTuple : M TValueBuilder unit :=
  CheckContainerKind Tuple ;;
  VB_PopPath ;;
  on_tb TB_EndTuple ;;
  build ← VB_GetBuildType;
  if build : bool then mret tt
  else
    t ← VB_GetType 0;
    v ← VB_GetValue;
    if Nat.eqb (elements_size t) (length (items v)) then mret tt
    else throw "Tuple elements count mismatch".

(** ** Dict *)

Definition VB_BeginDict : M TValueBuilder unit :=
  known ← VB_CheckTypeKind Dict;
  VB_SetBuildType (negb known) ;;
  on_tb TB_BeginDict ;;
  VB_PushSelf.
Definition VB_BeginDict_typed (keyType payloadType : Ydb_Type) : M TValueBuilder unit :=
  VB_BeginDict ;;
  on_tb TB_DictKey ;; FillType keyType ;;
  on_tb TB_DictPayload ;; FillType payloadType ;;
  on_tb TB_EndDict ;; on_tb TB_BeginDict.

Definition VB_AddDictItem : M TValueBuilder unit :=
  CheckContainerKind Dict ;;
  VB_PopPath ;;
  VB_put (fun v => set_pairs (pairs v ++ [(EmptyValue, EmptyValue)]) v) ;;
  VB_PushSelf.

(** [GetValue().mutable_pairs()->rbegin()]. *)
Definition VB_last_pair : M TValueBuilder nat :=
  v ← VB_GetValue;
  match length (pairs v) with O => undefined "rbegin()" | S n => mret n end.

Definition VB_DictKey : M TValueBuilder unit :=
  CheckContainerKind Dict ;;
  VB_PopPath ;;
  on_tb TB_DictKey ;;
  i ← VB_last_pair; VB_PushPath (VKey i).
Definition VB_DictKey_value (type : Ydb_Type) (value : Ydb_Value) : M TValueBuilder unit :=
  VB_DictKey ;; VB_SetTyped type value.
Definition VB_DictPayload : M TValueBuilder unit :=
  CheckContainerKind Dict ;;
  VB_PopPath ;;
  on_tb TB_DictPayload ;;
  i ← VB_last_pair; VB_PushPath (VPayload i).
Definition VB_DictPayload_value (type : Ydb_Type) (value : Ydb_Value) : M TValueBuilder unit :=
  VB_DictPayload ;; VB_SetTyped type value.

Definition VB_EndDict : M TValueBuilder unit :=
  CheckContainerKind Dict ;; VB_PopPath ;; on_tb TB_EndDict.

Definition VB_EmptyDict_typed (keyType payloadType : Ydb_Type) : M TValueBuilder unit :=
  VB_BeginDict_typed keyType payloadType ;; VB_EndDict.
Definition VB_EmptyDict : M TValueBuilder unit :=
  VB_BeginDict ;;
  on_tb TB_DictKey ;;
  known ← VB_CheckType;
  if known : bool then
    on_tb TB_DictPayload ;;
    known ← VB_CheckType;
    if known : bool then VB_EndDict else throw "EmptyDict: unknown payload type"
  else throw "EmptyDict: unknown key type".

(** ** Tagged *)

Definition VB_BeginTagged (tag : string) : M TValueBuilder unit :=
  known ← VB_CheckTypeKind Tagged;
  VB_SetBuildType (negb known) ;;
  on_tb (TB_BeginTagged tag) ;;
  VB_PushSelf.
Definition VB_EndTagged : M TValueBuilder unit :=
  CheckContainerKind Tagged ;; VB_PopPath ;; on_tb TB_EndTagged.

(** ** The result *)

Definition VB_CheckValue : M TValueBuilder unit :=
  s ← get_st;
  if (1 <? length (VB_Path s))%nat then throw "Invalid Build() call, value is incomplete."
  else mret tt.

Definition BuildValue : M TValueBuilder (Ydb_Type * Ydb_Value) :=
  VB_CheckValue ;;
  s ← get_st;
  modify (set_ProtoValue EmptyValue) ;;
  type ← on_tb TB_Build;
  mret (type, ProtoValue_ s).
