(* ===== verification/ValueTyped.v ===== *)
(** * A builder with a type keeps it

    [TValueBuilder(type)] and the parameter builders start from a complete type and only
    check it.  The file shows that no sequence of calls changes the type, apart from the
    tags of tagged types, which [BeginTagged] writes without a check; and that a decimal
    value is accepted under a decimal type of another scale. *)

From S2P Require Import Prelude ValueProto MessagePath TypeParser TypeBuilder ValueParser ValueBuilder.

(** The public calls of [TValueBuilderBase]. *)
Inductive vcall :=
  | Set_ (x : primitive) | SetDecimal (x : TDecimalValue) | SetPg (x : TPgValue)
  | BeginOptional | BeginOptional_typed (t : Ydb_Type) | EndOptional
  | EmptyOptional_typed (t : Ydb_Type) | EmptyOptional_primitive (p : EPrimitiveType) | EmptyOptional
  | OptionalPrimitive (p : EPrimitiveType) (x : option primitive)
  | BeginList | BeginList_typed (t : Ydb_Type) | EndList | AddListItem
  | AddListItem_value (t : Ydb_Type) (v : Ydb_Value) | EmptyList_typed (t : Ydb_Type) | EmptyList_
  | BeginStruct | AddMember (name : string)
  | AddMember_value (name : string) (t : Ydb_Type) (v : Ydb_Value) | EndStruct
  | BeginTuple | AddElement | AddElement_value (t : Ydb_Type) (v : Ydb_Value) | EndTuple
  | BeginDict | BeginDict_typed (k p : Ydb_Type) | AddDictItem
  | DictKey | DictKey_value (t : Ydb_Type) (v : Ydb_Value)
  | DictPayload | DictPayload_value (t : Ydb_Type) (v : Ydb_Value)
  | EndDict | EmptyDict_typed (k p : Ydb_Type) | EmptyDict_
  | BeginTagged (tag : string) | EndTagged.

Definition run_vcall (c : vcall) : M TValueBuilder unit :=
  match c with
  | Set_ x => VB_Set x | SetDecimal x => VB_Decimal x | SetPg x => VB_Pg x
  | BeginOptional => VB_BeginOptional | BeginOptional_typed t => VB_BeginOptional_typed t
  | EndOptional => VB_EndOptional | EmptyOptional_typed t => VB_EmptyOptional_typed t
  | EmptyOptional_primitive p => VB_EmptyOptional_primitive p | EmptyOptional => VB_EmptyOptional
  | OptionalPrimitive p x => VB_OptionalPrimitive p x
  | BeginList => VB_BeginList | BeginList_typed t => VB_BeginList_typed t | EndList => VB_EndList
  | AddListItem => VB_AddListItem | AddListItem_value t v => VB_AddListItem_value t v
  | EmptyList_typed t => VB_EmptyList_typed t | EmptyList_ => VB_EmptyList
  | BeginStruct => VB_BeginStruct | AddMember n => VB_AddMember n
  | AddMember_value n t v => VB_AddMember_value n t v | EndStruct => VB_EndStruct
  | BeginTuple => VB_BeginTuple | AddElement => VB_AddElement
  | AddElement_value t v => VB_AddElement_value t v | EndTuple => VB_EndTuple
  | BeginDict => VB_BeginDict | BeginDict_typed k p => VB_BeginDict_typed k p
  | AddDictItem => VB_AddDictItem
  | DictKey => VB_DictKey | DictKey_value t v => VB_DictKey_value t v
  | DictPayload => VB_DictPayload | DictPayload_value t v => VB_DictPayload_value t v
  | EndDict => VB_EndDict | EmptyDict_typed k p => VB_EmptyDict_typed k p | EmptyDict_ => VB_EmptyDict
  | BeginTagged g => VB_BeginTagged g | EndTagged => VB_EndTagged
  end.

(** A type with its tags removed. *)
Fixpoint untag (t : Ydb_Type) : Ydb_Type :=
  match t with
  | kOptionalType i => kOptionalType (untag i)
  | kListType i => kListType (untag i)
  | kTupleType l => kTupleType (untag <$> l)
  | kStructType l => kStructType ((fun m => (m.1, untag m.2)) <$> l)
  | kDictType k p => kDictType (untag k) (untag p)
  | kVariantType_Tuple l => kVariantType_Tuple (untag <$> l)
  | kVariantType_Struct l => kVariantType_Struct ((fun m => (m.1, untag m.2)) <$> l)
  | kTaggedType _ i => kTaggedType "" (untag i)
  | _ => t
  end.

(** ** Types up to their tags *)

Lemma forallb_fmap {A B} (f : A -> B) (g : B -> bool) l : forallb g (f <$> l) = forallb (fun x => g (f x)) l.
Proof. induction l as [|x l IH]; [done|]. cbn. by rewrite IH. Qed.

Lemma forallb_Forall_ext {A} (f g : A -> bool) l : Forall (fun x => f x = g x) l -> forallb f l = forallb g l.
Proof. induction 1 as [|x l Hx Hl IH]; [done|]. cbn. by rewrite Hx, IH. Qed.

Lemma complete_untag t : IsTypeComplete (untag t) = IsTypeComplete t.
Proof.
  induction t as [|p|p sc|n m o1 o2 o3|t IH|t IH|l IH|l IH|k p IHk IHp| |l IH|l IH|g t IH| | | |]
    using Ydb_Type_nested_ind; cbn; try done; try by rewrite forallb_fmap; apply forallb_Forall_ext.
  by rewrite IHk, IHp.
Qed.

Lemma untag_set_child x c c' t : child t x = Some c -> untag c' = untag c ->
  untag (set_child x c' t) = untag t.
Proof.
  destruct t, x; cbn; try done; intros Hc Hu; simplify_eq; rewrite ?Hu; try done.
  - f_equal. rewrite list_fmap_insert, Hu. apply list_insert_id. by rewrite list_lookup_fmap, Hc.
  - f_equal. apply list_eq. intros j. rewrite !list_lookup_fmap. destruct (decide (i = j)) as [->|].
    + rewrite list_lookup_alter_eq. destruct (members !! j) as [[n m]|]; [|done]. cbn in *. congruence.
    + by rewrite list_lookup_alter_ne.
Qed.

Lemma untag_set_at p c c' t : get_at p t = Some c -> untag c' = untag c ->
  untag (set_at p c' t) = untag t.
Proof.
  revert t. induction p as [|x p IH]; intros t Hc Hu; cbn [get_at set_at] in *; [by injection Hc as ->|].
  destruct (child t x) as [d|] eqn:E; [|done]. eapply untag_set_child; [done|]. by apply IH.
Qed.

Lemma complete_child t x c : IsTypeComplete t = true -> child t x = Some c -> IsTypeComplete c = true.
Proof.
  destruct t, x; cbn; try done; intros Ht Hc; simplify_eq; try done.
  - rewrite forallb_forall in Ht. apply Ht. apply list_elem_of_In. by eapply list_elem_of_lookup_2.
  - destruct (members !! i) as [m|] eqn:E; [|done]. injection Hc as <-.
    rewrite forallb_forall in Ht. apply (Ht m). apply list_elem_of_In. by eapply list_elem_of_lookup_2.
  - by apply andb_true_iff in Ht as [? _].
  - by apply andb_true_iff in Ht as [_ ?].
Qed.

Lemma complete_get p t c : IsTypeComplete t = true -> get_at p t = Some c -> IsTypeComplete c = true.
Proof.
  revert t. induction p as [|x p IH]; intros t Ht Hc; cbn [get_at] in *; [by injection Hc as <-|].
  destruct (child t x) as [d|] eqn:E; [|done]. eapply IH; [by eapply complete_child|done].
Qed.

(** ** No call changes the type *)

(** The builder works on the type [R], and no open container is one it builds the type of. *)
Definition typed (R : Ydb_Type) (s : TValueBuilder) : Prop :=
  TB_wf (TypeBuilder_ s) /\ TB_Root (TypeBuilder_ s) = R /\
  Forall (fun p => BuildType p = false) (VB_Path s).

Section Keeps.
Context (R : Ydb_Type) (Complete : IsTypeComplete R = true).

Definition keeps {A} (m : M TValueBuilder A) : Prop :=
  forall s, typed R s -> wpP m (fun _ => typed R) s.

Lemma keeps_bind {A B} (m : M TValueBuilder A) (f : A -> M TValueBuilder B) :
  keeps m -> (forall a, keeps (f a)) -> keeps (m ≫= f).
Proof. intros Hm Hf s K. apply wpE_bind. eapply wpE_mono; [by apply Hm|]. intros a s' K'. by apply Hf. Qed.

Lemma keeps_ret {A} (a : A) : keeps (mret a).
Proof. by intros s K. Qed.

Lemma keeps_throw {A} m : keeps (throw m : M TValueBuilder A).
Proof. done. Qed.

Lemma keeps_undefined {A} m : keeps (undefined m : M TValueBuilder A).
Proof. done. Qed.

Lemma keeps_get_st : keeps get_st.
Proof. by intros s K. Qed.

Lemma keeps_lift {A} (o : outcome A) : keeps (lift o).
Proof. intros s K. unfold wpE, lift. by destruct o. Qed.

(** A read. *)
Lemma keeps_read {A} (m : M TValueBuilder A) :
  (forall s, wpP m (fun _ s' => s' = s) s) -> keeps m.
Proof. intros Hm s K. eapply wpE_mono; [apply Hm|]. by intros a s' ->. Qed.

(** A change of the value or of the struct positions only. *)
Lemma keeps_modify f : (forall s, TypeBuilder_ (f s) = TypeBuilder_ s) ->
  (forall s, VB_Path (f s) = VB_Path s) -> keeps (modify f).
Proof. intros H1 H2 s (W & Hr & Hb). apply wpE_modify. unfold typed. by rewrite H1, H2. Qed.

Lemma keeps_PathTop : keeps VB_PathTop.
Proof. intros s K. unfold wpE, VB_PathTop. by destruct (VB_Path s). Qed.

Lemma keeps_GetValue : keeps VB_GetValue.
Proof. intros s K. unfold wpE, VB_GetValue. destruct (VB_Path s); [done|]. by destruct (get_at _ _). Qed.

Lemma keeps_put f : keeps (VB_put f).
Proof.
  apply keeps_bind; [apply keeps_GetValue|]. intros v. apply keeps_bind; [apply keeps_PathTop|].
  intros top. by apply keeps_modify.
Qed.

Lemma keeps_push p : keeps (modify (fun s => set_VB_Path (mkBuildPos p false 0 :: VB_Path s) s)).
Proof. intros s (W & Hr & Hb). apply wpE_modify. split_and!; [done..|]. by constructor. Qed.

Lemma keeps_PushPath x : keeps (VB_PushPath x).
Proof. apply keeps_bind; [apply keeps_PathTop|]. intros top. apply keeps_push. Qed.

Lemma keeps_PushSelf : keeps VB_PushSelf.
Proof. apply keeps_bind; [apply keeps_PathTop|]. intros top. apply keeps_push. Qed.

Lemma keeps_PopPath : keeps VB_PopPath.
Proof.
  intros s (W & Hr & Hb). apply wpE_modify. split_and!; [done..|]. cbn. by destruct Hb.
Qed.

Lemma keeps_add_OptLevel d : keeps (VB_add_OptLevel d).
Proof.
  intros s (W & Hr & Hb). unfold wpE, VB_add_OptLevel, VB_set_top. destruct (VB_Path s) eqn:E; [done|].
  split_and!; [done..|]. cbn. inversion Hb; subst. by constructor.
Qed.

Lemma keeps_when b m : keeps m -> keeps (when b m).
Proof. intros Hm. destruct b; [done|apply keeps_ret]. Qed.

(** A call of the type builder that keeps the type. *)
Lemma keeps_on_tb {A} (m : M TTypeBuilder A) :
  (forall s, TB_wf s -> wpP m (fun _ s' => TB_wf s' /\ TB_Root s' = TB_Root s) s) -> keeps (on_tb m).
Proof.
  intros Hm s (W & Hr & Hb). specialize (Hm _ W). unfold wpE, on_tb in *.
  destruct (m (TypeBuilder_ s)) as [[a t]|]; [|done]. destruct Hm as [W' Hr'].
  split_and!; [done|by rewrite <- Hr|done].
Qed.

Lemma keeps_GetType n : keeps (VB_GetType n).
Proof.
  apply keeps_on_tb. intros s W. unfold wpE, TB_GetProto. destruct (TB_Path s !! n); [|done].
  by destruct (get_at _ _).
Qed.

Lemma keeps_close kind : keeps (on_tb (TB_CloseContainer kind)).
Proof.
  apply keeps_on_tb. intros s W. eapply wpE_mono; [by apply TB_close_safe|]. by intros ? s' (? & ? & _).
Qed.

(** Every node of the type is set. *)
Lemma typed_top s : typed R s -> exists p rest t, TB_Path (TypeBuilder_ s) = p :: rest /\
  get_at p R = Some t /\ IsTypeComplete t = true /\ t <> TYPE_NOT_SET.
Proof using Complete.
  intros ([_ W] & Hr & _). destruct (TB_Path (TypeBuilder_ s)) as [|p rest]; [done|].
  rewrite Hr in W. destruct W as [t Ht]. exists p, rest, t.
  assert (IsTypeComplete t = true) as Hc by (by eapply complete_get). split_and!; [done..|].
  by intros ->.
Qed.

Lemma CheckType_known s : typed R s -> wpP VB_CheckType (fun known s' => s' = s /\ known = true) s.
Proof using Complete.
  intros K. destruct (typed_top s K) as (p & rest & t & Hp & Ht & _ & Hn). destruct K as (W & Hr & _).
  unfold VB_CheckType, VB_GetType, on_tb, TB_GetProto. run. unfold wpE. rewrite Hp. cbn. rewrite Hr, Ht.
  destruct s; cbn in *. split; [done|]. by destruct t.
Qed.

Lemma GetType_top s : typed R s -> wpP (VB_GetType 0) (fun t s' => s' = s /\
  exists p rest, TB_Path (TypeBuilder_ s) = p :: rest /\ get_at p R = Some t) s.
Proof using Complete.
  intros K. destruct (typed_top s K) as (p & rest & t & Hp & Ht & _). destruct K as (W & Hr & _).
  unfold VB_GetType, on_tb, TB_GetProto, wpE. rewrite Hp. cbn. rewrite Hr, Ht.
  split; [by destruct s|]. by do 2 eexists.
Qed.

Lemma CheckTypeKind_known kind s : typed R s -> wpP (VB_CheckTypeKind kind)
  (fun known s' => s' = s /\ known = true /\ top_kind kind (TypeBuilder_ s)) s.
Proof using Complete.
  intros K. apply wpE_bind. eapply wpE_mono; [by apply CheckType_known|]. cbn beta. intros ? ? [-> ->].
  apply wpE_bind. eapply wpE_mono; [by apply GetType_top|]. cbn beta. intros t ? (-> & p & rest & Hp & Ht).
  apply wpE_bind. unfold wpE at 1, lift. destruct (GetKind t) as [k|] eqn:Ek; [|done].
  case_bool_decide; [|done]. subst. destruct K as (W & Hr & _). split_and!; [done..|].
  exists p, rest, t. by rewrite Hr.
Qed.

Lemma keeps_CheckTypeKind kind : keeps (VB_CheckTypeKind kind).
Proof using Complete. intros s K. eapply wpE_mono; [by apply CheckTypeKind_known|]. by intros ? ? [-> _]. Qed.

Lemma keeps_CheckType : keeps VB_CheckType.
Proof using Complete. intros s K. eapply wpE_mono; [by apply CheckType_known|]. by intros ? ? [-> _]. Qed.

(** The type is never filled in, only checked. *)
Lemma keeps_unless m n : (forall s, typed R s -> wpP m (fun known s' => s' = s /\ known = true) s) ->
  keeps (unless m n).
Proof.
  intros Hm s K. apply wpE_bind. eapply wpE_mono; [by apply Hm|]. cbn beta. by intros ? ? [-> ->].
Qed.

Lemma keeps_FillPrimitiveType p : keeps (FillPrimitiveType p).
Proof using Complete.
  apply keeps_unless. intros s K. apply wpE_bind. eapply wpE_mono; [by apply CheckTypeKind_known|].
  cbn beta. intros ? ? (-> & -> & _). apply wpE_bind. eapply wpE_mono; [by apply GetType_top|]. cbn beta.
  intros t ? (-> & _). destruct t; try done. by case_bool_decide.
Qed.

Lemma keeps_FillDecimalType d : keeps (FillDecimalType d).
Proof using Complete.
  apply keeps_unless. intros s K. eapply wpE_mono; [by apply CheckTypeKind_known|]. by intros ? ? (-> & -> & _).
Qed.

Lemma keeps_FillPgType p : keeps (FillPgType p).
Proof using Complete.
  apply keeps_unless. intros s K. eapply wpE_mono; [by apply CheckTypeKind_known|]. by intros ? ? (-> & -> & _).
Qed.

Lemma keeps_FillType t : keeps (FillType t).
Proof using Complete.
  apply keeps_unless. intros s K. apply wpE_bind. eapply wpE_mono; [by apply CheckType_known|].
  cbn beta. intros ? ? [-> ->]. apply wpE_bind. eapply wpE_mono; [by apply GetType_top|]. cbn beta.
  intros t' ? (-> & _). apply wpE_bind. unfold wpE at 1, lift. destruct (TypesEqual t' t) as [[]|]; done.
Qed.

(** Opening a container writes the case that is there. *)
Lemma keeps_begin kind f x s : (forall t, GetKind t = Ok kind -> f t = t /\ is_Some (child t x)) ->
  typed R s -> top_kind kind (TypeBuilder_ s) ->
  wpP (on_tb (TB_put f ;; TB_AddPosition x)) (fun _ => typed R) s.
Proof.
  intros Hf (W & Hr & Hb) (p & rest & t & Hp & Ht & Hk). destruct (Hf t Hk) as [Ef [c Hc]].
  destruct s as [[R' path] V SM VP SP]. cbn in *. subst path R'. unfold wpE, on_tb. cbn [TypeBuilder_].
  erewrite bind_Ok by (by apply TB_put_spec). rewrite Ef, set_at_same by done. cbn. split_and!; [|done..].
  apply TB_wf_push; [done|by apply prefix_app_r|]. erewrite get_at_snoc by done. by eexists.
Qed.

Lemma keeps_begin_self kind f s : (forall t, GetKind t = Ok kind -> f t = t) ->
  typed R s -> top_kind kind (TypeBuilder_ s) ->
  wpP (on_tb (TB_put f ;; TB_AddSelf)) (fun _ => typed R) s.
Proof.
  intros Hf (W & Hr & Hb) (p & rest & t & Hp & Ht & Hk). pose proof (Hf t Hk) as Ef.
  destruct s as [[R' path] V SM VP SP]. cbn in *. subst path R'. unfold wpE, on_tb. cbn [TypeBuilder_].
  erewrite bind_Ok by (by apply TB_put_spec). rewrite Ef, set_at_same by done. cbn. split_and!; [|done..].
  apply TB_wf_push; [done|done|]. by eexists.
Qed.

(** What happens before the type builder is called leaves it alone. *)
Definition calm {A} (m : M TValueBuilder A) : Prop := forall s, typed R s ->
  wpP m (fun _ s' => typed R s' /\ TypeBuilder_ s' = TypeBuilder_ s) s.

Lemma calm_bind {A B} (m : M TValueBuilder A) (f : A -> M TValueBuilder B) :
  calm m -> (forall a, calm (f a)) -> calm (m ≫= f).
Proof.
  intros Hm Hf s K. apply wpE_bind. eapply wpE_mono; [by apply Hm|]. cbn beta. intros a s' [K' E'].
  eapply wpE_mono; [by apply Hf|]. cbn beta. intros b s'' [K'' E'']. split; [done|congruence].
Qed.

Lemma calm_SetBuildType : calm (VB_SetBuildType false).
Proof.
  intros s (W & Hr & Hb). unfold wpE, VB_SetBuildType, VB_set_top. destruct (VB_Path s) eqn:E; [done|].
  split; [|done]. split_and!; [done..|]. cbn. inversion Hb; subst. by constructor.
Qed.

(** Code that never calls the type builder. *)
Lemma calm_keeps {A} (m : M TValueBuilder A) : keeps m ->
  (forall s, wpP m (fun _ s' => TypeBuilder_ s' = TypeBuilder_ s) s) -> calm m.
Proof.
  intros Hk Hq s K. specialize (Hk s K). specialize (Hq s). unfold wpE in *.
  by destruct (m s) as [[? ?]|].
Qed.

Lemma calm_PathTop : calm VB_PathTop.
Proof.
  apply calm_keeps; [apply keeps_PathTop|]. intros s. unfold wpE, VB_PathTop. by destruct (VB_Path s).
Qed.

Lemma calm_PushSelf : calm VB_PushSelf.
Proof.
  apply calm_keeps; [apply keeps_PushSelf|]. intros s. unfold wpE, VB_PushSelf, VB_PathTop. run.
  by destruct (VB_Path s).
Qed.

Lemma calm_when b m : calm m -> calm (when b m).
Proof. intros Hm. destruct b; [done|]. by intros s K. Qed.

Lemma calm_put f : calm (VB_put f).
Proof.
  apply calm_keeps; [apply keeps_put|]. intros s. unfold wpE, VB_put, VB_GetValue, VB_PathTop. run.
  destruct (VB_Path s) as [|p rest] eqn:E; [done|]. destruct (get_at _ _); [|done]. by rewrite E.
Qed.

Lemma calm_GetMembersMap node l : calm (GetMembersMap node l).
Proof. intros s K. unfold GetMembersMap. wpE_steps. destruct (find _ _); by wpE_steps. Qed.

Lemma calm_modify f : (forall s, TypeBuilder_ (f s) = TypeBuilder_ s) ->
  (forall s, VB_Path (f s) = VB_Path s) -> calm (modify f).
Proof. intros H1 H2. apply calm_keeps; [by apply keeps_modify|]. intros s. apply H1. Qed.

(** After the check of an opening call. *)
Definition opens (kind : ETypeKind) {A} (m : M TValueBuilder A) : Prop :=
  forall s, typed R s -> top_kind kind (TypeBuilder_ s) -> wpP m (fun _ => typed R) s.

Lemma opens_calm kind {A B} (m : M TValueBuilder A) (f : A -> M TValueBuilder B) :
  calm m -> (forall a, opens kind (f a)) -> opens kind (m ≫= f).
Proof.
  intros Hm Hf s K Hk. apply wpE_bind. eapply wpE_mono; [by apply Hm|]. cbn beta. intros a s' [K' E].
  apply Hf; [done|by rewrite E].
Qed.

Lemma opens_then kind {A B} (m : M TValueBuilder A) (f : A -> M TValueBuilder B) :
  opens kind m -> (forall a, keeps (f a)) -> opens kind (m ≫= f).
Proof.
  intros Hm Hf s K Hk. apply wpE_bind. eapply wpE_mono; [by apply Hm|]. intros a s' K'. by apply Hf.
Qed.

Lemma keeps_check kind {A} (f : bool -> M TValueBuilder A) :
  opens kind (f true) -> keeps (known ← VB_CheckTypeKind kind; VB_SetBuildType (negb known) ;; f known).
Proof using Complete.
  intros Hf s K. apply wpE_bind. eapply wpE_mono; [by apply CheckTypeKind_known|]. cbn beta.
  intros ? ? (-> & -> & Hk). by apply (opens_calm kind _ _ calm_SetBuildType (fun _ => Hf)).
Qed.

Lemma keeps_BeginOptional : keeps VB_BeginOptional.
Proof using Complete.
  apply (keeps_check Optional (fun _ => _)), opens_calm; [apply calm_PathTop|]. intros top.
  apply opens_calm; [apply calm_when, calm_PushSelf|]. intros _. apply opens_then; [|intros; apply keeps_add_OptLevel].
  intros s. by apply keeps_begin; intros [].
Qed.

Lemma keeps_BeginList : keeps VB_BeginList.
Proof using Complete.
  apply (keeps_check List (fun _ => _)), opens_then; [|intros; apply keeps_PushSelf].
  intros s. by apply keeps_begin; intros [].
Qed.

Lemma keeps_BeginTuple : keeps VB_BeginTuple.
Proof using Complete.
  apply (keeps_check Tuple (fun _ => _)), opens_then; [|intros; apply keeps_PushSelf].
  intros s. apply keeps_begin_self. by intros [].
Qed.

Lemma keeps_BeginDict : keeps VB_BeginDict.
Proof using Complete.
  apply (keeps_check Dict (fun _ => _)), opens_then; [|intros; apply keeps_PushSelf].
  intros s. apply keeps_begin_self. by intros [].
Qed.

Lemma keeps_BeginStruct : keeps VB_BeginStruct.
Proof using Complete.
  apply (keeps_check Struct (fun known => _)). cbn beta iota.
  intros s. intros K Hk. apply wpE_bind, wpE_bind. eapply wpE_mono; [by apply GetType_top|]. cbn beta.
  intros t ? (-> & _). wpE_steps. destruct t; try done.
  eapply wpE_mono.
  - apply (calm_bind (GetMembersMap _ members)); [apply calm_GetMembersMap| |done]. intros m.
    apply calm_bind; [apply calm_put|]. intros _. by apply calm_modify.
  - cbn beta. intros _ s' [K' E]. apply (opens_then Struct); [|intros; apply keeps_PushSelf|done|by rewrite E].
    intros s''. apply keeps_begin_self. by intros [].
Qed.

Lemma keeps_CheckContainerKind kind : keeps (CheckContainerKind kind).
Proof.
  apply keeps_bind; [apply keeps_get_st|]. intros s. destruct (_ <? _)%nat; [apply keeps_throw|].
  apply keeps_bind; [apply keeps_GetType|]. intros t. apply keeps_bind; [apply keeps_lift|]. intros k.
  case_bool_decide; [apply keeps_ret|apply keeps_throw].
Qed.

Lemma keeps_select kind x : (forall t, GetKind t = Ok kind -> is_Some (child t x)) ->
  keeps (on_tb (TB_CheckPreviousKind kind ;; TB_PopPosition ;; TB_AddPosition x)).
Proof. intros Hx. apply keeps_on_tb. intros s W. by apply TB_select_safe. Qed.

Lemma keeps_SelectMember i : keeps (on_tb (TB_SelectMember i)).
Proof.
  apply keeps_on_tb. intros s W. apply TB_inside_safe; [done..|]. intros R' p rest t W' -> Ht Hk.
  apply wpE_bind. unfold wpE at 1, TB_GetProto. cbn [TB_Path TB_Root lookup list_lookup]. rewrite Ht.
  destruct t; try done.
  destruct (i <? length members)%nat eqn:E; [|done]. apply Nat.ltb_lt in E. split; [|done].
  apply TB_wf_push; [done|by apply prefix_app_r|]. erewrite get_at_snoc by done. cbn.
  by apply fmap_is_Some, lookup_lt_is_Some.
Qed.

Lemma keeps_SelectElement i : keeps (on_tb (TB_SelectElement i)).
Proof.
  apply keeps_on_tb. intros s W. apply TB_inside_safe; [done..|]. intros R' p rest t W' -> Ht Hk.
  apply wpE_bind. unfold wpE at 1, TB_GetProto. cbn [TB_Path TB_Root lookup list_lookup]. rewrite Ht.
  destruct t; try done.
  destruct (i <? length elements)%nat eqn:E; [|done]. apply Nat.ltb_lt in E. split; [|done].
  apply TB_wf_push; [done|by apply prefix_app_r|]. erewrite get_at_snoc by done. cbn.
  by apply lookup_lt_is_Some.
Qed.

(** No container is one the type of which is built. *)
Lemma GetBuildType_false s : typed R s -> wpP VB_GetBuildType (fun b s' => s' = s /\ b = false) s.
Proof.
  intros (W & Hr & Hb). unfold wpE, VB_GetBuildType, VB_PathTop. run. destruct Hb as [|p l Hp]; [done|].
  by split.
Qed.

Lemma keeps_build {A} (f : bool -> M TValueBuilder A) : keeps (f false) -> keeps (VB_GetBuildType ≫= f).
Proof.
  intros Hn s K. apply wpE_bind. eapply wpE_mono; [by apply GetBuildType_false|]. cbn beta.
  intros ? ? [-> ->]. by apply Hn.
Qed.

(** A dict closed and opened again. *)
Lemma keeps_reopen : keeps (on_tb TB_EndDict ;; on_tb TB_BeginDict).
Proof.
  intros s (W & Hr & Hb). apply wpE_bind.
  pose proof (TB_close_safe (fun _ => True) (fun _ => I) Dict _ W) as H. unfold wpE, on_tb, TB_EndDict in *.
  destruct (TB_CloseContainer Dict (TypeBuilder_ s)) as [[u b]|]; [|done]. destruct H as (W' & Hr' & Hk).
  apply (keeps_begin_self Dict); [by intros []| |done]. split_and!; [done|by cbn; rewrite Hr'|done].
Qed.

Lemma keeps_StructsPathTop : keeps StructsPathTop.
Proof. intros s K. unfold wpE, StructsPathTop. by destruct (StructsPath_ s). Qed.

Lemma keeps_nest n : keeps (nest n).
Proof.
  induction n as [|n IH]; [apply keeps_ret|]. apply keeps_bind; [apply keeps_put|]. intros _.
  by apply keeps_bind; [apply keeps_PushPath|].
Qed.

Lemma keeps_pop_times n : keeps (pop_times n).
Proof. induction n as [|n IH]; [apply keeps_ret|]. by apply keeps_bind; [apply keeps_PopPath|]. Qed.

End Keeps.

Create HintDb keeps.
#[export] Hint Resolve keeps_ret keeps_throw keeps_undefined keeps_get_st keeps_lift keeps_PathTop
  keeps_GetValue keeps_put keeps_PushPath keeps_PushSelf keeps_PopPath keeps_add_OptLevel keeps_when
  keeps_GetType keeps_close keeps_CheckTypeKind keeps_CheckType keeps_FillPrimitiveType
  keeps_FillDecimalType keeps_FillPgType keeps_FillType keeps_BeginOptional keeps_BeginList
  keeps_BeginTuple keeps_BeginDict keeps_BeginStruct keeps_CheckContainerKind keeps_SelectMember
  keeps_SelectElement keeps_StructsPathTop keeps_nest keeps_pop_times : keeps.

(** Walks through code that is made of calls that keep the type. *)
Ltac keeps_steps :=
  repeat first
    [ solve [auto 2 with keeps]
    | apply keeps_reopen
    | apply keeps_close
    | solve [apply keeps_select; by intros []]
    | apply keeps_build
    | apply keeps_bind; [|intros ?]
    | match goal with |- keeps _ (if ?b then _ else _) => destruct b end
    | match goal with |- keeps _ (match ?b with _ => _ end) => destruct b end
    | by apply keeps_modify ].

Definition not_tagged (c : vcall) : bool := match c with BeginTagged _ => false | _ => true end.

Lemma run_vcall_keeps R c : IsTypeComplete R = true -> not_tagged c = true -> keeps R (run_vcall c).
Proof.
  intros Hc Ht. destruct c; try done; cbn [run_vcall].
  all: unfold VB_Set, VB_Decimal, VB_Pg, VB_BeginOptional_typed, VB_EndOptional, VB_EmptyOptional_typed,
    VB_EmptyOptional_primitive, VB_EmptyOptional, VB_OptionalPrimitive, VB_BeginOptional_typed,
    VB_EndOptional, NestEmptyOptional, VB_BeginList_typed, VB_EndList, VB_AddListItem, VB_AddListItem_value,
    VB_EmptyList_typed, VB_EmptyList, VB_BeginList_typed, VB_EndList, VB_AddListItem, VB_SetTyped,
    VB_AddMember_value, VB_AddMember, VB_push_item, VB_EndStruct, VB_AddElement_value, VB_AddElement,
    VB_EndTuple, VB_EmptyDict_typed, VB_BeginDict_typed, VB_AddDictItem, VB_DictKey_value, VB_DictKey,
    VB_DictPayload_value, VB_DictPayload, VB_last_pair, VB_EmptyDict, VB_EndDict, VB_EndTagged,
    VB_EmptyOptional_primitive, VB_Set, NestEmptyOptional, VB_EndOptional, VB_push_item.
  all: keeps_steps.
Qed.

(** [BeginTagged] writes the tag it is given. *)
Lemma BeginTagged_retags R g s : IsTypeComplete R = true -> typed R s ->
  wpP (VB_BeginTagged g) (fun _ s' => exists R', typed R' s' /\ untag R' = untag R) s.
Proof.
  intros Hc K. apply wpE_bind. eapply wpE_mono; [by apply (CheckTypeKind_known R)|]. cbn beta.
  intros ? ? (-> & -> & (p & rest & t & Hp & Ht & Hk)). apply wpE_bind.
  eapply wpE_mono; [by apply (calm_SetBuildType R)|]. cbn beta. intros _ s1 [(W & Hr & Hb) E1].
  rewrite <- E1 in Hp, Ht. destruct s1 as [[R1 path] V SM VP SP]. cbn in *. subst path R1. clear E1 s K.
  destruct t as [| | | | | | | | | | | |g0 i| | | |]; try done.
  set (R' := set_at p (kTaggedType g i) R).
  assert (typed R' (mkValueBuilder (mkTypeBuilder R' ((p ++ [SItem]) :: p :: rest)) V SM VP SP)) as K'.
  { split_and!; [|done..]. apply TB_wf_push; [by apply TB_wf_put|by apply prefix_app_r|].
    erewrite get_at_snoc by (apply get_set_at; by eexists). by eexists. }
  apply wpE_bind. unfold wpE at 1, on_tb. cbn [TypeBuilder_]. unfold TB_BeginTagged.
  erewrite bind_Ok by (by apply TB_put_spec). cbn [mutable_tagged_type].
  eapply wpE_mono; [by apply keeps_PushSelf|]. cbn beta. intros _ s' Ks'. exists R'. split; [exact Ks'|].
  by eapply untag_set_at.
Qed.

Lemma run_vcalls_typed R cs s : IsTypeComplete R = true -> typed R s ->
  wpP (for_each run_vcall cs) (fun _ s' => exists R', typed R' s' /\ untag R' = untag R /\
    (forallb not_tagged cs = true -> R' = R)) s.
Proof.
  revert R s. induction cs as [|c cs IH]; intros R s Hc K; [by exists R|].
  cbn [for_each]. apply wpE_bind. destruct (not_tagged c) eqn:Et.
  - eapply wpE_mono; [by apply (run_vcall_keeps R)|]. cbn beta. intros _ s' K'. eapply wpE_mono; [by apply IH|].
    cbn [forallb]. by rewrite Et.
  - destruct c; try done. eapply wpE_mono; [by apply (BeginTagged_retags R)|]. cbn beta.
    intros _ s' (R' & K' & Hu). eapply wpE_mono.
    + apply (IH R'); [by rewrite <- complete_untag, Hu, complete_untag|done].
    + cbn beta. intros _ s'' (R'' & K'' & Hu' & _). exists R''. split_and!; [done|by rewrite Hu'|done].
Qed.

(** C16: a builder that starts from a type keeps it.  For every complete type, whatever
    calls are made on the builder, nested in whatever way, when they return the type is
    the one the builder was given: no member, element, item or primitive of it has
    changed.  Only the tags of tagged types may be different, and only after a call of
    [BeginTagged], which does not compare its tag with the one of the type. *)
Theorem typed_builder_keeps_type ty v cs s : IsTypeComplete ty = true ->
  for_each run_vcall cs (TValueBuilder0 ty v) = Ok (tt, s) ->
  untag (TB_Root (TypeBuilder_ s)) = untag ty /\
  (forallb not_tagged cs = true -> TB_Root (TypeBuilder_ s) = ty).
Proof.
  intros Hc Hr. assert (typed ty (TValueBuilder0 ty v)) as K.
  { split_and!; [|done|by repeat constructor]. split; [by repeat constructor|by eexists]. }
  pose proof (run_vcalls_typed ty cs _ Hc K) as H. unfold wpE in H. rewrite Hr in H.
  destruct H as (R' & (_ & -> & _) & Hu & He). by split.
Qed.

Lemma typed_builder_keeps_type_witness :
  let ty := kListType (kOptionalType (kTypeId Text)) in
  let cs := [BeginList; AddListItem; OptionalPrimitive Text (Some (VText "x")); EndList] in
  exists s, for_each run_vcall cs (TValueBuilder0 ty EmptyValue) = Ok (tt, s) /\
    untag (TB_Root (TypeBuilder_ s)) = untag ty /\
    (forallb not_tagged cs = true -> TB_Root (TypeBuilder_ s) = ty).
Proof.
  eexists. split; [by vm_compute|].
  apply (typed_builder_keeps_type (kListType (kOptionalType (kTypeId Text))) EmptyValue
    [BeginList; AddListItem; OptionalPrimitive Text (Some (VText "x")); EndList]); by vm_compute.
Defined.

(** The scale of a decimal is not checked.  A builder whose type is a decimal type
    takes a decimal value of any precision and scale and keeps its digits: what is read
    back is the same integer at another scale, a different number.  The same value given
    as a typed value is refused. *)
Theorem decimal_scale_unchecked p s p' s' low hi : 0 <= p < 256 -> 0 <= s < 256 ->
  (p, s) <> (p', s') -> - 2 ^ 63 <= hi < 2 ^ 63 ->
  let ty := kDecimalType p s in
  let x := mkDecimalValue (mkDecimalType p' s') low hi in
  exists v b r, (VB_Decimal x ;; BuildValue) (TValueBuilder0 ty EmptyValue) = Ok ((ty, v), b) /\
    VP_GetDecimal (TValueParser0 ty v) = Ok (mkDecimalValue (mkDecimalType p s) low hi, r) /\
    VB_SetTyped (kDecimalType p' s') v (TValueBuilder0 ty EmptyValue) = Fail (Throw "Type mismatch").
Proof.
  intros Hp Hs Hne Hh ty x. exists (mkValue (kLow128 low) [] [] 0 (u64 hi)). do 2 eexists. split_and!.
  - done.
  - assert (wrapS 64 (u64 hi) = hi) as E.
    { unfold u64, wrapU, wrapS. rewrite Z.mod_mod by lia. change (2 ^ (64 - 1)) with (2 ^ 63).
      destruct (decide (0 <= hi)).
      - rewrite Z.mod_small by lia. by rewrite (proj2 (Z.ltb_lt _ _)) by lia.
      - rewrite <- (Z.mod_add hi 1) by lia. rewrite Z.mod_small by lia.
        rewrite (proj2 (Z.ltb_ge _ _)) by lia. lia. }
    transitivity (Ok (mkDecimalValue (mkDecimalType (u8 p) (u8 s)) low (wrapS 64 (u64 hi)),
      TValueParser0 ty (mkValue (kLow128 low) [] [] 0 (u64 hi)))); [done|].
    by rewrite E, (wrapU_small 8 p), (wrapU_small 8 s).
  - assert ((p =? p') && (s =? s') = false)%bool as E.
    { apply not_true_iff_false. intros [E1 E2]%andb_true_iff. bool_to_prop. by subst. }
    unfold VB_SetTyped, FillType, unless, VB_CheckTypeIs, VB_CheckType, VB_GetType, on_tb, TB_GetProto, lift.
    run. by rewrite E.
Qed.

Lemma decimal_scale_unchecked_witness :
  let ty := kDecimalType 22 9 in
  let x := mkDecimalValue (mkDecimalType 35 2) 150 0 in
  exists v b r, (VB_Decimal x ;; BuildValue) (TValueBuilder0 ty EmptyValue) = Ok ((ty, v), b) /\
    VP_GetDecimal (TValueParser0 ty v) = Ok (mkDecimalValue (mkDecimalType 22 9) 150 0, r) /\
    VB_SetTyped (kDecimalType 35 2) v (TValueBuilder0 ty EmptyValue) = Fail (Throw "Type mismatch").
Proof. apply (decimal_scale_unchecked 22 9 35 2 150 0); done. Defined.
