(* ===== verification/ValueReader.v ===== *)
(** * Reading a whole value

    A client that walks a value of any type with [TValueParser], the way the SDK's users
    do: it asks for the kind, opens containers, takes their parts one by one, and closes
    them.  Reading is shown to compute the decoding of the message by recursion on the
    type, for every type and every message, malformed ones included. *)

From S2P Require Import Prelude ValueProto TypeParser ValueParser.

(** What is read. *)
Inductive datum :=
  | DPrimitive (x : primitive)
  | DDecimal (low hi : Z)
  | DPg (kind : EPgValueKind) (content : string)
  | DNothing
  | DJust (d : datum)
  | DList (l : list datum)
  | DTuple (l : list datum)
  | DStruct (l : list (string * datum))
  | DDict (l : list (datum * datum))
  | DVariant (index : Z) (d : datum)
  | DTagged (tag : string) (d : datum)
  | DVoid.

Fixpoint Read (fuel : nat) : M TValueParser datum :=
  match fuel with
  | O => undefined "fuel"
  | S fuel =>
      kind ← on_type (TP_GetKind 0);
      match kind with
      | Primitive => p ← VP_GetPrimitiveType; x ← VP_Get p; mret (DPrimitive x)
      | Decimal => x ← VP_GetDecimal; mret (DDecimal (Low_ x) (Hi_ x))
      | Pg => x ← VP_GetPg; mret (DPg (Kind_ x) (Content_ x))
      | Optional =>
          VP_OpenOptional ;;
          null ← VP_IsNull;
          if null : bool then VP_CloseOptional ;; mret DNothing
          else d ← Read fuel; VP_CloseOptional ;; mret (DJust d)
      | List => VP_OpenList ;; l ← read_items fuel; VP_CloseList ;; mret (DList l)
      | Tuple => VP_OpenTuple ;; l ← read_elements fuel; VP_CloseTuple ;; mret (DTuple l)
      | Struct => VP_OpenStruct ;; l ← read_members fuel; VP_CloseStruct ;; mret (DStruct l)
      | Dict => VP_OpenDict ;; l ← read_pairs fuel; VP_CloseDict ;; mret (DDict l)
      | Variant =>
          i ← VP_GetVariantIndex;
          VP_OpenVariant ;;
          d ← Read fuel;
          VP_CloseVariant ;;
          mret (DVariant i d)
      | Tagged =>
          VP_OpenTagged ;;
          tag ← VP_GetTag;
          d ← Read fuel;
          VP_CloseTagged ;;
          mret (DTagged tag d)
      | Void | Null | EmptyList | EmptyDict => mret DVoid
      end
  end
with read_items (fuel : nat) : M TValueParser (list datum) :=
  match fuel with
  | O => undefined "fuel"
  | S fuel =>
      more ← VP_TryNextListItem;
      if more : bool then d ← Read fuel; l ← read_items fuel; mret (d :: l) else mret []
  end
with read_elements (fuel : nat) : M TValueParser (list datum) :=
  match fuel with
  | O => undefined "fuel"
  | S fuel =>
      more ← VP_TryNextElement;
      if more : bool then d ← Read fuel; l ← read_elements fuel; mret (d :: l) else mret []
  end
with read_members (fuel : nat) : M TValueParser (list (string * datum)) :=
  match fuel with
  | O => undefined "fuel"
  | S fuel =>
      more ← VP_TryNextMember;
      if more : bool then
        name ← VP_GetMemberName;
        d ← Read fuel;
        l ← read_members fuel;
        mret ((name, d) :: l)
      else mret []
  end
with read_pairs (fuel : nat) : M TValueParser (list (datum * datum)) :=
  match fuel with
  | O => undefined "fuel"
  | S fuel =>
      more ← VP_TryNextDictItem;
      if more : bool then
        VP_DictKey ;;
        k ← Read fuel;
        VP_DictPayload ;;
        p ← Read fuel;
        l ← read_pairs fuel;
        mret ((k, p) :: l)
      else mret []
  end.

(** ** Decoding by recursion on the type *)

Definition malformed {A} : outcome A := Fail (Throw "malformed value").

Definition mapO {A B} (f : A -> outcome B) : list A -> outcome (list B) :=
  fix go l := match l with [] => Ok [] | x :: l => y ← f x; ys ← go l; Ok (y :: ys) end.

(** Parts of a tuple or struct; surplus items are ignored. *)
Definition decode_parts {A B} (f : A -> Ydb_Value -> outcome B) : list A -> list Ydb_Value -> outcome (list B) :=
  fix go ts vs :=
    match ts, vs with
    | [], _ => Ok []
    | _ :: _, [] => malformed
    | t :: ts, v :: vs => d ← f t v; ds ← go ts vs; Ok (d :: ds)
    end.

(** The alternative of a variant; a negative index is outside of the message. *)
Definition pick {A B} (f : A -> outcome B) : list A -> nat -> outcome B :=
  fix go l i :=
    match l, i with
    | [], _ => malformed
    | x :: _, O => f x
    | _ :: l, S i => go l i
    end.
Definition pick_variant {A B} (f : A -> outcome B) (l : list A) (v : Ydb_Value) : outcome B :=
  let index := wrapS 32 (variant_index v) in
  if Z.of_nat (length l) <=? index then malformed
  else if index <? 0 then Fail (Undefined "variant index")
  else match value_of v with kNestedValue _ => pick f l (Z.to_nat index) | _ => malformed end.

(** The value an optional or variant holds. *)
Definition inner (v : Ydb_Value) : Ydb_Value :=
  match value_of v with kNestedValue n => n | _ => v end.

Definition primitive_case (p : EPrimitiveType) : option ValueCase :=
  match GetPrimitiveValueCase p (TValueParser0 TYPE_NOT_SET EmptyValue) with
  | Ok (c, _) => Some c
  | Fail _ => None
  end.

Definition decode_scalar (p : EPrimitiveType) (v : Ydb_Value) : outcome datum :=
  if bool_decide (primitive_case p = Some (value_case v)) then
    match decode_primitive p v with Some x => Ok (DPrimitive x) | None => malformed end
  else malformed.

Definition decode_pg (v : Ydb_Value) : datum :=
  match value_of v with
  | kTextValue s => DPg VK_TEXT s
  | kBytesValue s => DPg VK_BINARY s
  | _ => DPg VK_NULL ""
  end.

Fixpoint decode (t : Ydb_Type) (v : Ydb_Value) {struct t} : outcome datum :=
  match t with
  | TYPE_NOT_SET => malformed
  | kTypeId p => decode_scalar p v
  | kDecimalType _ _ =>
      match value_of v with
      | kLow128 low => Ok (DDecimal low (wrapS 64 (high_128 v)))
      | _ => malformed
      end
  | kPgType _ _ _ _ _ => Ok (decode_pg v)
  | kOptionalType i =>
      match value_of v with
      | kNullFlagValue => Ok DNothing
      | _ => d ← decode i (inner v); Ok (DJust d)
      end
  | kListType i => l ← mapO (decode i) (items v); Ok (DList l)
  | kTupleType ts => l ← decode_parts decode ts (items v); Ok (DTuple l)
  | kStructType ms =>
      l ← decode_parts (fun m v => d ← decode m.2 v; Ok (m.1, d)) ms (items v); Ok (DStruct l)
  | kDictType k p =>
      l ← mapO (fun kp => a ← decode k kp.1; b ← decode p kp.2; Ok (a, b)) (pairs v); Ok (DDict l)
  | kVariantType_NOT_SET => malformed
  | kVariantType_Tuple ts =>
      d ← pick_variant (fun t => decode t (inner v)) ts v; Ok (DVariant (variant_index v) d)
  | kVariantType_Struct ms =>
      d ← pick_variant (fun m => decode m.2 (inner v)) ms v; Ok (DVariant (variant_index v) d)
  | kTaggedType g i => d ← decode i v; Ok (DTagged g d)
  | kVoidType | kNullType | kEmptyListType | kEmptyDictType => Ok DVoid
  end.

(** Fuel for [Read]: by the same recursion. *)
Definition sum_parts {A} (f : A -> Ydb_Value -> nat) : list A -> list Ydb_Value -> nat :=
  fix go ts vs := match ts, vs with t :: ts, v :: vs => S (f t v + go ts vs) | _, _ => 1 end%nat.
Definition max_parts {A} (f : A -> nat) : list A -> nat :=
  fix go ts := match ts with [] => O | t :: ts => (f t + go ts)%nat end.

Fixpoint fuel_for (t : Ydb_Type) (v : Ydb_Value) {struct t} : nat :=
  match t with
  | kOptionalType i => S (fuel_for i (inner v))
  | kListType i => S (S (sum_list_with (fun x => S (fuel_for i x)) (items v)))
  | kTupleType ts => S (sum_parts fuel_for ts (items v))
  | kStructType ms => S (sum_parts (fun m => fuel_for m.2) ms (items v))
  | kDictType k p => S (S (sum_list_with (fun x => S (fuel_for k x.1 + fuel_for p x.2)) (pairs v)))
  | kVariantType_Tuple ts => S (max_parts (fun t => fuel_for t (inner v)) ts)
  | kVariantType_Struct ms => S (max_parts (fun m => fuel_for m.2 (inner v)) ms)
  | kTaggedType _ i => S (fuel_for i v)
  | _ => 1
  end.

Definition read_value (t : Ydb_Type) (v : Ydb_Value) : outcome datum :=
  '(d, _) ← Read (fuel_for t v) (TValueParser0 t v); Ok d.

(** ** Reading is decoding *)

(** Two computations end the same way: both return, with related results, both throw, or
    both leave the message. *)
Definition agrees {A B} (o : outcome A) (Q : A -> B -> Prop) (r : outcome B) : Prop :=
  match o, r with
  | Ok a, Ok b => Q a b
  | Fail (Throw _), Fail (Throw _) | Fail (Undefined _), Fail (Undefined _) => True
  | _, _ => False
  end.

Lemma agrees_bind {A A' B B' S} (o : outcome A) (f : A -> outcome A') (m : M S B) (k : B -> M S B')
    (Q : A -> B * S -> Prop) (Q' : A' -> B' * S -> Prop) s :
  agrees o Q (m s) -> (forall a b s', Q a (b, s') -> agrees (f a) Q' (k b s')) ->
  agrees (o ≫= f) Q' ((m ≫= k) s).
Proof.
  unfold agrees at 1, mbind, outcome_bind, M_bind. intros H1 H2.
  destruct o as [a|[]], (m s) as [[b s']|[]]; try done. by apply H2.
Qed.

Lemma outcome_bind_assoc {A B C} (o : outcome A) (f : A -> outcome B) (g : B -> outcome C) :
  (o ≫= f) ≫= g = o ≫= (fun a => f a ≫= g).
Proof. by destruct o. Qed.

(** A call that is known to return. *)
Lemma agrees_step {A B C S} (o : outcome A) (m : M S B) (k : B -> M S C) Q s b s' :
  m s = Ok (b, s') -> agrees o Q (k b s') -> agrees o Q ((m ≫= k) s).
Proof. intros E. by rewrite (bind_Ok _ _ _ _ _ E). Qed.

Lemma agrees_ret {A B S} (a : A) (b : B) (Q : A -> B * S -> Prop) s : Q a (b, s) -> agrees (Ok a) Q ((mret b : M S B) s).
Proof. done. Qed.

(** The parser at a type and a value. *)
Definition vp (T : Ydb_Type) (tps : list TTypePosition) (vps : list TValuePosition) : TValueParser :=
  mkValueParser (mkTypeParser T tps) vps.

Lemma VP_NextItems_spec tp p v i vrest rem : -1 <= VIdx p -> drop (Z.to_nat (VIdx p + 1)) (items v) = rem ->
  VIdx p < Z.of_nat (length (items v)) ->
  let s p := mkValueParser tp (p :: mkValuePos PK_Value (MValue v) i :: vrest) in
  match rem with
  | x :: rem => VP_NextItems (s p) = Ok (true, s (mkValuePos PK_Value (MValue x) (VIdx p + 1))) /\
      drop (Z.to_nat (VIdx p + 1 + 1)) (items v) = rem /\ VIdx p + 1 < Z.of_nat (length (items v))
  | [] => exists p', VP_NextItems (s p) = Ok (false, s p')
  end.
Proof.
  intros Hk Hd Hl s. unfold VP_NextItems. cbn. unfold VP_GetProto, VP_OpenItems. run.
  assert (items v !! Z.to_nat (VIdx p + 1) = head rem) as Hh.
  { rewrite <- (Nat.add_0_r (Z.to_nat _)), <- lookup_drop, Hd. by destruct rem. }
  pose proof (f_equal length Hd) as Hlen. rewrite length_drop in Hlen.
  destruct rem as [|x rem]; cbn in Hh, Hlen.
  - rewrite (proj2 (Z.eqb_eq _ _)) by lia. unfold VP_GetProto. run.
    destruct (VIdx p + 1 - 1 <? 0) eqn:E; [by eexists|]. bool_to_prop.
    destruct (lookup_lt_is_Some_2 (items v) (Z.to_nat (VIdx p + 1 - 1))) as [x Hx]; [lia|].
    rewrite Hx. by eexists.
  - rewrite (proj2 (Z.eqb_neq _ _)) by lia. unfold VP_GetProto. run.
    rewrite (proj2 (Z.ltb_ge _ _)) by lia. rewrite Hh. split_and!; [done| |lia].
    replace (Z.to_nat (VIdx p + 1 + 1)) with (Z.to_nat (VIdx p + 1) + 1)%nat by lia.
    by rewrite <- drop_drop, Hd.
Qed.

Lemma on_type_Ok {A} (m : M TTypeParser A) tp a tp' vps : m tp = Ok (a, tp') ->
  on_type m (mkValueParser tp vps) = Ok (a, mkValueParser tp' vps).
Proof. intros E. unfold on_type. cbn. by rewrite E. Qed.

(** [Read] at a value of the type [t]. *)
Definition reads (t : Ydb_Type) : Prop := forall v fuel T trest i vrest, (fuel_for t v <= fuel)%nat ->
  let s := vp T (mkTypePos (Some t) (-1) :: trest) (mkValuePos PK_Value (MValue v) i :: vrest) in
  agrees (decode t v) (fun d r => r = (d, s)) (Read fuel s).

Lemma read_items_spec it v i T trest vrest rem : reads it -> forall fuel p,
  -1 <= VIdx p -> drop (Z.to_nat (VIdx p + 1)) (items v) = rem -> VIdx p < Z.of_nat (length (items v)) ->
  (sum_list_with (fun x => S (fuel_for it x)) rem < fuel)%nat ->
  let s p := vp T (mkTypePos (Some it) (-1) :: trest) (p :: mkValuePos PK_Value (MValue v) i :: vrest) in
  agrees (mapO (decode it) rem) (fun l r => exists p', r = (l, s p')) (read_items fuel (s p)).
Proof.
  intros Hit. induction rem as [|x rem IH]; intros fuel p Hk Hd Hl Hf s.
  all: destruct fuel as [|fuel]; [cbn in Hf; lia|]; cbn [read_items mapO].
  all: pose proof (VP_NextItems_spec (TypeParser_ (s p)) p v i vrest _ Hk Hd Hl) as Hn; cbv zeta in Hn.
  - destruct Hn as [p' Hn]. eapply agrees_step; [exact Hn|]. by exists p'.
  - destruct Hn as (Hn & Hd' & Hl'). eapply agrees_step; [exact Hn|]. cbv beta iota.
    cbn [sum_list_with] in Hf. eapply agrees_bind; [apply Hit; lia|]. cbn beta. intros d ? ? [= -> ->].
    eapply agrees_bind; [apply IH; [cbn; lia|done|done|lia]|]. cbn beta. intros l ? ? [p' [= -> ->]].
    by exists p'.
Qed.

Lemma VP_TryNext_spec T t kind ts x j k trest p v i vrest tsrem rem : parts t = Some (kind, ts) ->
  -1 <= k -> drop (Z.to_nat (k + 1)) ts = tsrem ->
  -1 <= VIdx p -> drop (Z.to_nat (VIdx p + 1)) (items v) = rem -> VIdx p < Z.of_nat (length (items v)) ->
  let s x j k p := vp T (mkTypePos x j :: mkTypePos (Some t) k :: trest)
    (p :: mkValuePos PK_Value (MValue v) i :: vrest) in
  match tsrem, rem with
  | [], _ => exists x' k', VP_TryNext kind (s x j k p) = Ok (false, s x' (-1) k' p)
  | _ :: _, [] => exists m, VP_TryNext kind (s x j k p) = Fail (Throw m)
  | e :: tsrem, y :: rem =>
      VP_TryNext kind (s x j k p) = Ok (true, s (Some e) (-1) (k + 1) (mkValuePos PK_Value (MValue y) (VIdx p + 1))) /\
      drop (Z.to_nat (k + 1 + 1)) ts = tsrem /\
      drop (Z.to_nat (VIdx p + 1 + 1)) (items v) = rem /\ VIdx p + 1 < Z.of_nat (length (items v))
  end.
Proof.
  intros Hp Hk Hd Hi Hv Hl s. unfold VP_TryNext.
  pose proof (TP_TryNext_drop T t kind ts x j k trest _ Hp Hk Hd) as Ht. cbv zeta in Ht.
  destruct tsrem as [|e tsrem].
  - destruct Ht as (x' & k' & Ht). exists x', k'. by erewrite bind_Ok by (by apply on_type_Ok).
  - destruct Ht as [Ht Hd']. erewrite bind_Ok by (by apply on_type_Ok).
    pose proof (VP_NextItems_spec (TypeParser_ (s (Some e) (-1) (k + 1) p)) p v i vrest _ Hi Hv Hl) as Hn.
    cbv zeta in Hn. destruct rem as [|y rem].
    + destruct Hn as [p' Hn]. eexists. cbv iota. by erewrite bind_Ok by (exact Hn).
    + destruct Hn as (Hn & Hv' & Hl'). split_and!; [|done..]. cbv iota. by erewrite bind_Ok by (exact Hn).
Qed.

Lemma read_elements_spec ts v i T trest vrest tsrem : Forall reads tsrem -> forall fuel x j k p rem,
  -1 <= k -> drop (Z.to_nat (k + 1)) ts = tsrem ->
  -1 <= VIdx p -> drop (Z.to_nat (VIdx p + 1)) (items v) = rem -> VIdx p < Z.of_nat (length (items v)) ->
  (sum_parts fuel_for tsrem rem <= fuel)%nat ->
  let s x j k p := vp T (mkTypePos x j :: mkTypePos (Some (kTupleType ts)) k :: trest)
    (p :: mkValuePos PK_Value (MValue v) i :: vrest) in
  agrees (decode_parts decode tsrem rem) (fun l r => exists x' j' k' p', r = (l, s x' j' k' p'))
    (read_elements fuel (s x j k p)).
Proof.
  induction 1 as [|t tsrem Ht Hts IH]; intros fuel x j k p rem Hk Hd Hi Hv Hl Hf s.
  all: destruct fuel as [|fuel]; [destruct rem; cbn in Hf; lia|]; cbn [read_elements decode_parts].
  all: pose proof (VP_TryNext_spec T (kTupleType ts) Tuple ts x j k trest p v i vrest _ _ eq_refl Hk Hd Hi Hv Hl)
    as Hn; cbv zeta in Hn.
  - destruct Hn as (x' & k' & Hn). eapply agrees_step; [exact Hn|]. by do 4 eexists.
  - destruct rem as [|y rem].
    + destruct Hn as [m Hn]. by rewrite (bind_Fail _ _ _ _ Hn).
    + destruct Hn as (Hn & Hd' & Hv' & Hl'). eapply agrees_step; [exact Hn|]. cbv beta iota.
      cbn [sum_parts] in Hf. eapply agrees_bind; [apply Ht; lia|]. cbn beta. intros d ? ? [= -> ->].
      eapply agrees_bind; [apply IH; [lia|done|cbn; lia|done|done|lia]|]. cbn beta.
      intros l ? ? (x' & j' & k' & p' & [= -> ->]). by do 4 eexists.
Qed.

Definition decode_member (m : string * Ydb_Type) (v : Ydb_Value) : outcome (string * datum) :=
  d ← decode m.2 v; Ok (m.1, d).

Lemma read_members_spec ms v i T trest vrest msrem : Forall (fun m => reads m.2) msrem ->
  forall fuel x j k p rem,
  -1 <= k -> drop (Z.to_nat (k + 1)) ms = msrem ->
  -1 <= VIdx p -> drop (Z.to_nat (VIdx p + 1)) (items v) = rem -> VIdx p < Z.of_nat (length (items v)) ->
  (sum_parts (fun m => fuel_for m.2) msrem rem <= fuel)%nat ->
  let s x j k p := vp T (mkTypePos x j :: mkTypePos (Some (kStructType ms)) k :: trest)
    (p :: mkValuePos PK_Value (MValue v) i :: vrest) in
  agrees (decode_parts decode_member msrem rem) (fun l r => exists x' j' k' p', r = (l, s x' j' k' p'))
    (read_members fuel (s x j k p)).
Proof.
  induction 1 as [|m msrem Ht Hts IH]; intros fuel x j k p rem Hk Hd Hi Hv Hl Hf s.
  all: destruct fuel as [|fuel]; [destruct rem; cbn in Hf; lia|]; cbn [read_members decode_parts].
  all: pose proof (VP_TryNext_spec T (kStructType ms) Struct (snd <$> ms) x j k trest p v i vrest _ _ eq_refl
    Hk eq_refl Hi Hv Hl) as Hn; rewrite <- fmap_drop, Hd in Hn; cbv zeta in Hn; cbn [fmap list_fmap] in Hn.
  - destruct Hn as (x' & k' & Hn). eapply agrees_step; [exact Hn|]. by do 4 eexists.
  - destruct rem as [|y rem].
    + destruct Hn as [e Hn]. by rewrite (bind_Fail _ _ _ _ Hn).
    + destruct Hn as (Hn & _ & Hv' & Hl'). eapply agrees_step; [exact Hn|]. cbv beta iota.
      assert (ms !! Z.to_nat (k + 1) = Some m) as Hm.
      { rewrite <- (Nat.add_0_r (Z.to_nat _)), <- lookup_drop, Hd. done. }
      assert (drop (Z.to_nat (k + 1 + 1)) ms = msrem) as Hd'.
      { replace (Z.to_nat (k + 1 + 1)) with (Z.to_nat (k + 1) + 1)%nat by lia. by rewrite <- drop_drop, Hd. }
      eapply agrees_step; [apply on_type_Ok, (TP_GetMemberName_ok T (Some m.2) (-1) ms (k + 1) trest m); [lia|done]|].
      cbn [sum_parts] in Hf. change (decode_member m y) with (d ← decode m.2 y; Ok (m.1, d)).
      rewrite outcome_bind_assoc.
      eapply agrees_bind; [apply Ht; lia|]. cbn beta. intros d ? ? [= -> ->].
      change (Ok (m.1, d) ≫= ?f) with (f (m.1, d)). cbv beta.
      eapply agrees_bind; [apply IH; [lia|done|cbn; lia|done|done|lia]|]. cbn beta.
      intros l ? ? (x' & j' & k' & p' & [= -> ->]). by do 4 eexists.
Qed.

(** The positions inside of a dict: the dict or a pair of it, or a key or payload on top. *)
Definition in_dict (idx : Z) (l : list TValuePosition) : Prop :=
  exists p, VIdx p = idx /\
    ((l = [p] /\ (VKind p = PK_Pairs \/ VKind p = PK_Pair)) \/
     (exists e, l = [e; p] /\ VKind e = PK_Value)).

Lemma VP_leave_pair_spec tp idx l rest : in_dict idx l -> exists p, VIdx p = idx /\
  VP_leave_pair (mkValueParser tp (l ++ rest)) = Ok (tt, mkValueParser tp (p :: rest)).
Proof.
  intros (p & Hi & [[-> Hk]|(e & -> & Hk)]); exists p; (split; [done|]); unfold VP_leave_pair; run.
  - by destruct Hk as [-> | ->].
  - by rewrite Hk.
Qed.

Lemma VP_NextPairs_spec tp idx l v i vrest rem : in_dict idx l -> -1 <= idx ->
  drop (Z.to_nat (idx + 1)) (pairs v) = rem -> idx < Z.of_nat (length (pairs v)) ->
  let s l := mkValueParser tp (l ++ mkValuePos PK_Value (MValue v) i :: vrest) in
  match rem with
  | (a, b) :: rem => VP_NextPairs (s l) = Ok (true, s [mkValuePos PK_Pair (MPair a b) (idx + 1)]) /\
      drop (Z.to_nat (idx + 1 + 1)) (pairs v) = rem /\ idx + 1 < Z.of_nat (length (pairs v))
  | [] => exists idx' l', VP_NextPairs (s l) = Ok (false, s l') /\ in_dict idx' l'
  end.
Proof.
  intros Hin Hk Hd Hl s. destruct (VP_leave_pair_spec tp idx l (mkValuePos PK_Value (MValue v) i :: vrest) Hin)
    as (p & Hi & Hp). unfold VP_NextPairs. rewrite (bind_Ok _ _ (s l) _ _ Hp). clear Hp Hin.
  cbn. unfold VP_GetProto, VP_OpenPairs. run. rewrite Hi.
  assert (pairs v !! Z.to_nat (idx + 1) = head rem) as Hh.
  { rewrite <- (Nat.add_0_r (Z.to_nat _)), <- lookup_drop, Hd. by destruct rem. }
  pose proof (f_equal length Hd) as Hlen. rewrite length_drop in Hlen.
  destruct rem as [|[a b] rem]; cbn in Hh, Hlen.
  - rewrite (proj2 (Z.eqb_eq _ _)) by lia. unfold VP_GetProto. run.
    destruct (idx + 1 - 1 <? 0) eqn:E; bool_to_prop.
    + exists (-1), [mkValuePos PK_Pairs (MValue v) (idx + 1 - 1)]. split; [done|].
      exists (mkValuePos PK_Pairs (MValue v) (idx + 1 - 1)). split; [cbn; lia|auto].
    + destruct (lookup_lt_is_Some_2 (pairs v) (Z.to_nat (idx + 1 - 1))) as [[a b] Hx]; [lia|].
      rewrite Hx. exists (idx + 1 - 1), [mkValuePos PK_Pair (MPair a b) (idx + 1 - 1)]. split; [done|].
      exists (mkValuePos PK_Pair (MPair a b) (idx + 1 - 1)). auto.
  - rewrite (proj2 (Z.eqb_neq _ _)) by lia. unfold VP_GetProto. run.
    rewrite (proj2 (Z.ltb_ge _ _)) by lia. rewrite Hh. split_and!; [done| |lia].
    replace (Z.to_nat (idx + 1 + 1)) with (Z.to_nat (idx + 1) + 1)%nat by lia.
    by rewrite <- drop_drop, Hd.
Qed.

Definition decode_pair (k p : Ydb_Type) (kp : Ydb_Value * Ydb_Value) : outcome (datum * datum) :=
  a ← decode k kp.1; b ← decode p kp.2; Ok (a, b).

Lemma VP_DictKey_ok T x j k p n trest a b idx rest :
  let pos := mkValuePos PK_Pair (MPair a b) idx in
  VP_DictKey (vp T (mkTypePos x j :: mkTypePos (Some (kDictType k p)) n :: trest) (pos :: rest)) =
  Ok (tt, vp T (mkTypePos (Some k) (-1) :: mkTypePos (Some (kDictType k p)) 0 :: trest)
            (mkValuePos PK_Value (MValue a) (-1) :: pos :: rest)).
Proof. done. Qed.

Lemma VP_DictPayload_ok T x j k p n trest a b idx m i rest :
  let pos := mkValuePos PK_Pair (MPair a b) idx in
  VP_DictPayload (vp T (mkTypePos x j :: mkTypePos (Some (kDictType k p)) n :: trest)
    (mkValuePos PK_Value m i :: pos :: rest)) =
  Ok (tt, vp T (mkTypePos (Some p) (-1) :: mkTypePos (Some (kDictType k p)) 1 :: trest)
            (mkValuePos PK_Value (MValue b) (-1) :: pos :: rest)).
Proof. done. Qed.

Lemma read_pairs_spec k p v i T trest vrest rem : reads k -> reads p -> forall fuel idx l x j n,
  in_dict idx l -> -1 <= idx -> drop (Z.to_nat (idx + 1)) (pairs v) = rem ->
  idx < Z.of_nat (length (pairs v)) ->
  (sum_list_with (fun x => S (fuel_for k x.1 + fuel_for p x.2)) rem < fuel)%nat ->
  let s x j n l := vp T (mkTypePos x j :: mkTypePos (Some (kDictType k p)) n :: trest)
    (l ++ mkValuePos PK_Value (MValue v) i :: vrest) in
  agrees (mapO (decode_pair k p) rem)
    (fun r o => exists x' j' n' l' idx', o = (r, s x' j' n' l') /\ in_dict idx' l')
    (read_pairs fuel (s x j n l)).
Proof.
  intros Hk Hp. induction rem as [|[a b] rem IH]; intros fuel idx l x j n Hin Hi Hd Hl Hf s.
  all: destruct fuel as [|fuel]; [cbn in Hf; lia|]; cbn [read_pairs mapO].
  all: pose proof (VP_NextPairs_spec (TypeParser_ (s x j n l)) idx l v i vrest _ Hin Hi Hd Hl) as Hn;
    cbv zeta in Hn.
  - destruct Hn as (idx' & l' & Hn & Hin'). eapply agrees_step; [exact Hn|]. by do 5 eexists.
  - destruct Hn as (Hn & Hd' & Hl'). eapply agrees_step; [exact Hn|]. cbv beta iota.
    cbn [sum_list_with fst snd] in Hf.
    change (decode_pair k p (a, b)) with (x ← decode k a; y ← decode p b; Ok (x, y)).
    rewrite outcome_bind_assoc.
    set (pos := mkValuePos PK_Pair (MPair a b) (idx + 1)).
    eapply agrees_step; [exact (VP_DictKey_ok T x j k p n trest a b (idx + 1) _)|].
    eapply agrees_bind; [apply Hk; lia|]. cbn beta. intros d ? ? [= -> ->]. rewrite outcome_bind_assoc.
    eapply agrees_step; [exact (VP_DictPayload_ok T _ _ k p 0 trest a b (idx + 1) _ _ _)|].
    eapply agrees_bind; [apply Hp; lia|]. cbn beta. intros d' ? ? [= -> ->].
    change (Ok (d, d') ≫= ?f) with (f (d, d')). cbv beta.
    eapply agrees_bind.
    { apply (IH fuel (idx + 1) [mkValuePos PK_Value (MValue b) (-1); pos]); [|lia|done|done|lia].
      exists pos. split; [done|]. right. by eexists. }
    cbn beta. intros r ? ? (x' & j' & n' & l' & idx' & [= -> ->] & Hin'). by do 5 eexists.
Qed.

Lemma pick_lookup {A B} (f : A -> outcome B) l n x : l !! n = Some x -> pick f l n = f x.
Proof. revert n. induction l as [|y l IH]; intros [|n] H; try done; [by injection H as ->|by apply IH]. Qed.

Lemma max_parts_lookup {A} (f : A -> nat) l n x : l !! n = Some x -> (f x <= max_parts f l)%nat.
Proof.
  revert n. induction l as [|y l IH]; intros [|n] H; try done; cbn; [injection H as ->; lia|].
  apply IH in H. lia.
Qed.

Definition variant_types (t : Ydb_Type) : option (list Ydb_Type) :=
  match t with
  | kVariantType_Tuple l => Some l
  | kVariantType_Struct l => Some (snd <$> l)
  | _ => None
  end.

(** The alternative at an index, as the type parser finds it. *)
Definition at_index {A B} (l : list A) (index : Z) (k : A -> outcome B) : outcome B :=
  if Z.of_nat (length l) <=? index then Fail (Throw "variant index is out of range")
  else if index <? 0 then Fail (Undefined "RepeatedPtrField")
  else match l !! Z.to_nat index with Some a => k a | None => Fail (Undefined "RepeatedPtrField") end.

Lemma OpenVariant_spec {A} (ty : A -> Ydb_Type) t (l : list A) T trest vps index :
  variant_types t = Some (ty <$> l) ->
  on_type (TP_OpenVariant index) (vp T (mkTypePos (Some t) (-1) :: trest) vps) =
    at_index l index (fun a => Ok (tt, vp T (mkTypePos (Some (ty a)) (-1) ::
                                         mkTypePos (Some t) (-1) :: trest) vps)).
Proof.
  intros Hl. assert (forall l' : list Ydb_Type, l' = ty <$> l ->
    ((if Z.of_nat (length l') <=? index then throw "variant index is out of range"
      else if index <? 0 then undefined "RepeatedPtrField"
      else match l' !! Z.to_nat index with Some t => mret t | None => undefined "RepeatedPtrField" end)
     ≫= fun next => TP_push (Some next)) (mkTypeParser T (mkTypePos (Some t) (-1) :: trest)) =
    at_index l index (fun a =>
      Ok (tt, mkTypeParser T (mkTypePos (Some (ty a)) (-1) :: mkTypePos (Some t) (-1) :: trest)))) as H.
  { intros l' ->. unfold at_index. rewrite length_fmap, list_lookup_fmap. destruct (_ <=? _); [done|].
    destruct (_ <? _); [done|]. by destruct (l !! _). }
  unfold on_type, vp. cbn [TypeParser_ VP_Path].
  assert (TP_OpenVariant index (mkTypeParser T (mkTypePos (Some t) (-1) :: trest)) =
    at_index l index (fun a =>
      Ok (tt, mkTypeParser T (mkTypePos (Some (ty a)) (-1) :: mkTypePos (Some t) (-1) :: trest)))) as ->
    by (destruct t; try done; injection Hl as Hl; exact (H _ Hl)).
  unfold at_index. destruct (_ <=? _); [done|]. destruct (_ <? _); [done|]. by destruct (l !! _).
Qed.

(** A variant: its type is one of [types], and what follows reads the alternative. *)
Lemma read_variant_spec {A} (ty : A -> Ydb_Type) t (l : list A) v i T trest vrest fuel :
  variant_types t = Some (ty <$> l) -> Forall (fun a => reads (ty a)) l ->
  (S (max_parts (fun a => fuel_for (ty a) (inner v)) l) <= S fuel)%nat ->
  let s := vp T (mkTypePos (Some t) (-1) :: trest) (mkValuePos PK_Value (MValue v) i :: vrest) in
  agrees (d ← pick_variant (fun a => decode (ty a) (inner v)) l v; Ok (DVariant (variant_index v) d))
    (fun d r => r = (d, s)) (Read (S fuel) s).
Proof.
  intros Ht Hl Hf s. cbn [Read].
  assert (on_type (TP_GetKind 0) s = Ok (Variant, s)) as E1 by (by destruct t).
  assert (VP_GetVariantIndex s = Ok (variant_index v, s)) as E2 by (by destruct t).
  assert (forall n, TP_Close Variant (mkTypeParser T (n :: mkTypePos (Some t) (-1) :: trest)) =
    Ok (tt, mkTypeParser T (mkTypePos (Some t) (-1) :: trest))) as E3
    by (intros n; apply TP_Close_ok; by destruct t).
  eapply agrees_step; [exact E1|]. cbv iota. eapply agrees_step; [exact E2|].
  pose proof (OpenVariant_spec ty t l T trest (VP_Path s) (wrapS 32 (variant_index v)) Ht) as Ho.
  unfold at_index in Ho. unfold pick_variant.
  assert (VP_OpenVariant s = (on_type (TP_OpenVariant (wrapS 32 (variant_index v))) ;;
    v ← VP_GetProto;
    match value_of v with
    | kNestedValue n => VP_AddPath PK_Value (MValue n) (-1)
    | _ => throw "No nested value for variant type."
    end) s) as E4 by done.
  destruct (_ <=? _) eqn:E5; [by erewrite bind_Fail by (rewrite E4; by apply bind_Fail)|].
  destruct (_ <? 0) eqn:E6; [by erewrite bind_Fail by (rewrite E4; by apply bind_Fail)|]. bool_to_prop.
  destruct (lookup_lt_is_Some_2 l (Z.to_nat (wrapS 32 (variant_index v)))) as [a Ha]; [lia|].
  rewrite Ha in Ho. rewrite (bind_Ok _ _ _ _ _ Ho) in E4. clear Ho.
  match type of E4 with _ = (_ ≫= ?f) ?st => change (VP_OpenVariant s = f v st) in E4; cbv beta in E4 end.
  destruct (value_of v) as [| | | | | | | | | | |n|] eqn:Ev; try (by rewrite (bind_Fail _ _ _ _ E4)).
  eapply agrees_step; [exact E4|]. rewrite (pick_lookup _ _ _ _ Ha).
  rewrite Forall_forall in Hl. specialize (Hl a (list_elem_of_lookup_2 _ _ _ Ha)).
  pose proof (max_parts_lookup (fun a => fuel_for (ty a) (inner v)) _ _ _ Ha) as Hm. cbn beta in Hm.
  assert (inner v = n) as En by (unfold inner; by rewrite Ev). rewrite En in *.
  eapply agrees_bind; [apply (Hl n fuel T (mkTypePos (Some t) (-1) :: trest) (-1)); lia|].
  cbn beta. intros d ? ? [= -> ->].
  eapply agrees_step; [unfold VP_CloseVariant; erewrite bind_Ok by reflexivity; apply on_type_Ok, E3|].
  done.
Qed.

Lemma VP_Get_spec p v i T trest vrest :
  let s := vp T (mkTypePos (Some (kTypeId p)) (-1) :: trest) (mkValuePos PK_Value (MValue v) i :: vrest) in
  VP_Get p s =
    match primitive_case p with
    | None => Fail (Throw "Unexpected primitive type")
    | Some c =>
        if bool_decide (c = value_case v) then
          match decode_primitive p v with Some x => Ok (x, s) | None => Fail (Undefined "no such getter") end
        else Fail (Throw "Transport value case mismatch")
    end.
Proof.
  intros s. assert (VP_CheckPrimitive p s =
    (case ← GetPrimitiveValueCase p; VP_CheckTransportKind case) s) as E.
  { unfold VP_CheckPrimitive. etransitivity; [apply (bind_Ok _ _ s tt s eq_refl)|].
    etransitivity; [apply (bind_Ok _ _ s p s eq_refl)|]. by rewrite bool_decide_eq_true_2. }
  assert (forall c, GetPrimitiveValueCase p s = Ok (c, s) -> VP_Get p s =
    if bool_decide (c = value_case v) then
      match decode_primitive p v with Some x => Ok (x, s) | None => Fail (Undefined "no such getter") end
    else Fail (Throw "Transport value case mismatch")) as Hget.
  { intros c Hc. rewrite (bind_Ok _ _ _ _ _ Hc) in E. unfold VP_CheckTransportKind in E.
    change (VP_CheckPrimitive p s = (if bool_decide (c = value_case v) then mret tt
      else throw "Transport value case mismatch") s) in E.
    unfold VP_Get. case_bool_decide; [|by rewrite (bind_Fail _ _ _ _ E)].
    rewrite (bind_Ok _ _ _ _ _ E). etransitivity; [apply (bind_Ok _ _ s v s eq_refl)|].
    by destruct (decode_primitive p v). }
  destruct p; try exact (Hget _ eq_refl). unfold VP_Get. by rewrite (bind_Fail _ _ _ _ E).
Qed.

(** One container around what is read. *)

Ltac read_start :=
  intros v fuel T trest i vrest Hf s; cbn [fuel_for] in Hf; destruct fuel as [|fuel]; [lia|];
  cbn [Read decode]; eapply agrees_step; [reflexivity|]; cbv iota.

Lemma reads_primitive p : reads (kTypeId p).
Proof.
  read_start. eapply agrees_step; [reflexivity|]. pose proof (VP_Get_spec p v i T trest vrest) as E.
  cbv zeta in E. change (vp T _ _) with s in E. unfold decode_scalar. destruct (primitive_case p) as [c|] eqn:Ep.
  - destruct (decide (c = value_case v)) as [->|Hne].
    + rewrite bool_decide_eq_true_2 in E by done. rewrite bool_decide_eq_true_2 by done.
      destruct (decode_primitive p v) as [x|] eqn:Ed.
      * by eapply agrees_step.
      * exfalso. by destruct p.
    + rewrite bool_decide_eq_false_2 in E by done. rewrite bool_decide_eq_false_2 by congruence.
      by rewrite (bind_Fail _ _ _ _ E).
  - rewrite bool_decide_eq_false_2 by done. by rewrite (bind_Fail _ _ _ _ E).
Qed.

Lemma reads_decimal p sc : reads (kDecimalType p sc).
Proof.
  read_start. by destruct v as [[] ? ? ? ?].
Qed.

Lemma reads_pg n m o1 o2 o3 : reads (kPgType n m o1 o2 o3).
Proof. read_start. by destruct v as [[] ? ? ? ?]. Qed.

Lemma reads_optional t : reads t -> reads (kOptionalType t).
Proof.
  intros IH. read_start.
  set (open k x := vp T (mkTypePos (Some t) (-1) :: mkTypePos (Some (kOptionalType t)) (-1) :: trest)
    (mkValuePos k (MValue x) (-1) :: mkValuePos PK_Value (MValue v) i :: vrest)).
  assert (VP_OpenOptional s = Ok (tt, match value_of v with
    | kNullFlagValue => open PK_Null v | _ => open PK_Value (inner v) end)) as E.
  { by destruct v as [[] ? ? ? ?]. }
  eapply agrees_step; [exact E|]. clear E.
  assert (agrees (d ← decode t (inner v); Ok (DJust d)) (fun d r => r = (d, s))
    ((null ← VP_IsNull; if null : bool then VP_CloseOptional ;; mret DNothing
      else d ← Read fuel; VP_CloseOptional ;; mret (DJust d)) (open PK_Value (inner v)))) as E.
  { eapply agrees_step; [reflexivity|]. cbv iota. eapply agrees_bind; [apply IH; lia|]. cbn beta.
    by intros d ? ? [= -> ->]. }
  destruct (value_of v); done.
Qed.

Lemma reads_list t : reads t -> reads (kListType t).
Proof.
  intros IH. read_start. eapply agrees_step.
  { by apply (eq_refl (Ok (tt, vp T (mkTypePos (Some t) (-1) :: mkTypePos (Some (kListType t)) (-1) :: trest)
      (mkValuePos PK_Items (MValue v) (-1) :: mkValuePos PK_Value (MValue v) i :: vrest)))). }
  eapply agrees_bind.
  - apply (read_items_spec t v i T (mkTypePos (Some (kListType t)) (-1) :: trest) vrest (items v) IH fuel
      (mkValuePos PK_Items (MValue v) (-1))); [done|done|cbn; lia|lia].
  - cbn beta. intros l ? ? [p' [= -> ->]]. done.
Qed.

Lemma reads_tuple l : Forall reads l -> reads (kTupleType l).
Proof.
  intros IH. read_start. eapply agrees_step.
  { by apply (eq_refl (Ok (tt, vp T (mkTypePos (Some (kTupleType l)) (-1) :: mkTypePos (Some (kTupleType l)) (-1) :: trest)
      (mkValuePos PK_Items (MValue v) (-1) :: mkValuePos PK_Value (MValue v) i :: vrest)))). }
  eapply agrees_bind.
  - apply (read_elements_spec l v i T trest vrest l IH fuel (Some (kTupleType l)) (-1) (-1)
      (mkValuePos PK_Items (MValue v) (-1)) (items v)); try done; [cbn; lia|lia].
  - cbn beta. intros r ? ? (x' & j' & k' & p' & [= -> ->]).
    eapply agrees_step; [unfold VP_CloseTuple; erewrite bind_Ok by reflexivity;
      by apply on_type_Ok, TP_Close_ok|]. done.
Qed.

Lemma reads_struct l : Forall (fun m => reads m.2) l -> reads (kStructType l).
Proof.
  intros IH. read_start. eapply agrees_step.
  { by apply (eq_refl (Ok (tt, vp T (mkTypePos (Some (kStructType l)) (-1) :: mkTypePos (Some (kStructType l)) (-1) :: trest)
      (mkValuePos PK_Items (MValue v) (-1) :: mkValuePos PK_Value (MValue v) i :: vrest)))). }
  change (decode_parts _ l (items v)) with (decode_parts decode_member l (items v)).
  eapply agrees_bind.
  - apply (read_members_spec l v i T trest vrest l IH fuel (Some (kStructType l)) (-1) (-1)
      (mkValuePos PK_Items (MValue v) (-1)) (items v)); try done; [cbn; lia|lia].
  - cbn beta. intros r ? ? (x' & j' & k' & p' & [= -> ->]).
    eapply agrees_step; [unfold VP_CloseStruct; erewrite bind_Ok by reflexivity;
      by apply on_type_Ok, TP_Close_ok|]. done.
Qed.

Lemma reads_dict k p : reads k -> reads p -> reads (kDictType k p).
Proof.
  intros IHk IHp. read_start. eapply agrees_step.
  { by apply (eq_refl (Ok (tt, vp T (mkTypePos (Some (kDictType k p)) (-1) :: mkTypePos (Some (kDictType k p)) (-1) :: trest)
      (mkValuePos PK_Pairs (MValue v) (-1) :: mkValuePos PK_Value (MValue v) i :: vrest)))). }
  change (mapO _ (pairs v)) with (mapO (decode_pair k p) (pairs v)).
  set (pos := mkValuePos PK_Pairs (MValue v) (-1)).
  eapply agrees_bind.
  - apply (read_pairs_spec k p v i T trest vrest (pairs v) IHk IHp fuel (-1) [pos]
      (Some (kDictType k p)) (-1) (-1)); try done; [|lia..]. exists pos. auto.
  - cbn beta. intros r ? ? (x' & j' & n' & l' & idx' & [= -> ->] & Hin).
    destruct (VP_leave_pair_spec (TypeParser_ (vp T (mkTypePos x' j' :: mkTypePos (Some (kDictType k p)) n' :: trest) []))
      idx' l' (mkValuePos PK_Value (MValue v) i :: vrest) Hin) as (q & _ & Hq).
    eapply agrees_step; [|done]. unfold VP_CloseDict, VP_ClosePairs.
    etransitivity; [apply bind_Ok; etransitivity; [exact (bind_Ok _ _ _ _ _ Hq)|reflexivity]|].
    by apply on_type_Ok, TP_Close_ok.
Qed.

Lemma reads_tagged g t : reads t -> reads (kTaggedType g t).
Proof.
  intros IH. read_start. do 2 (eapply agrees_step; [reflexivity|]).
  eapply agrees_bind; [apply IH; lia|]. cbn beta. by intros d ? ? [= -> ->].
Qed.

Lemma reads_all t : reads t.
Proof.
  induction t as [|p|p sc|n m o1 o2 o3|t IH|t IH|l IH|l IH|k p IHk IHp| |l IH|l IH|g t IH| | | |]
    using Ydb_Type_nested_ind.
  all: auto using reads_primitive, reads_decimal, reads_pg, reads_optional, reads_list, reads_tuple,
    reads_struct, reads_dict, reads_tagged.
  all: intros v fuel T trest i vrest Hf s; cbn [fuel_for] in Hf; (destruct fuel as [|fuel]; [lia|]); try done.
  - apply (read_variant_spec (fun t => t) (kVariantType_Tuple l)); [|done..]. cbn. by rewrite list_fmap_id.
  - by apply (read_variant_spec snd (kVariantType_Struct l)).
Qed.

Lemma read_value_agrees t v : agrees (decode t v) eq (read_value t v).
Proof.
  unfold read_value. pose proof (reads_all t v _ t [] (-1) [] (le_n _)) as H. cbv zeta in H.
  unfold vp in H. change (mkValueParser _ _) with (TValueParser0 t v) in H.
  unfold agrees in *. destruct (decode t v) as [d|[]], (Read (fuel_for t v) (TValueParser0 t v)) as [[d' s']|[]]; try done. by injection H.
Qed.

(** C13: the value parser decodes.  Walking any message under any type with the cursor
    (asking for kinds, opening and closing containers, taking members, elements, items
    and pairs one by one, calling the getters) gives exactly the decoding of the message
    by recursion on the type, and ends where it began.  It terminates within the fuel
    [fuel_for].  A message that does not fit its type is refused with an exception, and
    no read leaves the message, except that the index of a variant, an unsigned number,
    is compared as a signed one: an index of 2^31 or more is not refused, and the
    alternative is read outside of the message. *)
Theorem read_value_decodes t v : agrees (decode t v) eq (read_value t v) /\
  (forall ts, t = kVariantType_Tuple ts -> 2 ^ 31 <= variant_index v < 2 ^ 32 ->
   exists m, read_value t v = Fail (Undefined m)).
Proof.
  pose proof (read_value_agrees t v) as Ha. split; [done|]. intros ts -> Hi.
  revert Ha. generalize (read_value (kVariantType_Tuple ts) v).
  intros r. cbn [decode]. unfold pick_variant.
  assert (wrapS 32 (variant_index v) = variant_index v - 2 ^ 32) as ->.
  { unfold wrapS. rewrite Z.mod_small by lia. by rewrite (proj2 (Z.ltb_ge _ _)) by lia. }
  rewrite (proj2 (Z.leb_gt _ _)), (proj2 (Z.ltb_lt _ 0)) by lia. cbn.
  destruct r as [?|[]]; try done. by eexists.
Qed.

(** The getters of optional values read an optional of their type, and move on. *)
Lemma GetOptional_decodes p v : (forall n, p <> OtherPrimitive n) ->
  let s := TValueParser0 (kOptionalType (kTypeId p)) v in
  agrees (decode (kOptionalType (kTypeId p)) v)
    (fun d r => r = (match d with DJust (DPrimitive x) => Some x | _ => None end, s)) (VP_GetOptional p s).
Proof.
  intros Hp. destruct v as [x l ps i h]. destruct x; try destruct v as [[] ? ? ? ?]; destruct p; try done; by destruct (Hp id).
Qed.
