(* ===== verification/ValueWriter.v ===== *)
(** * Writing a whole value

    A client that builds a value of any type with [TValueBuilder], with and without the
    type given to the builder, and the round trip: the builder makes the type and the
    message the protocol documents for the value, and the value parser reads the value
    back from them. *)

From S2P Require Import Prelude ValueProto MessagePath TypeParser TypeBuilder ValueParser ValueBuilder ValueReader.

(** ** Values of a type *)

(** The values a primitive type can carry: those of its width, whole days and whole
    seconds for the dates. *)
Definition fits (x : primitive) : bool :=
  match x with
  | VInt8 n => (- 2 ^ 7 <=? n) && (n <? 2 ^ 7)
  | VUint8 n => (0 <=? n) && (n <? 2 ^ 8)
  | VInt16 n => (- 2 ^ 15 <=? n) && (n <? 2 ^ 15)
  | VUint16 n => (0 <=? n) && (n <? 2 ^ 16)
  | VDate us => (0 <=? us) && (us <? 2 ^ 64) && (us mod 86400000000 =? 0)
  | VDatetime us => (0 <=? us) && (us <? 2 ^ 32 * 1000000) && (us mod 1000000 =? 0)
  | _ => true
  end%bool.

Definition all2 {A B} (f : A -> B -> bool) : list A -> list B -> bool :=
  fix go l k :=
    match l, k with
    | [], [] => true
    | x :: l, y :: k => f x y && go l k
    | _, _ => false
    end%bool.

Fixpoint has_type (t : Ydb_Type) (d : datum) {struct t} : bool :=
  match t, d with
  | kTypeId p, DPrimitive x => bool_decide (primitive_type x = p) && fits x
  | kDecimalType _ _, DDecimal low hi => (- 2 ^ 63 <=? hi) && (hi <? 2 ^ 63)
  | kPgType _ _ _ _ _, DPg VK_NULL c => bool_decide (c = "")
  | kPgType _ _ _ _ _, DPg _ _ => true
  | kOptionalType i, DNothing => true
  | kOptionalType i, DJust d => has_type i d
  | kListType i, DList l => forallb (has_type i) l
  | kTupleType ts, DTuple l => all2 has_type ts l
  | kStructType ms, DStruct l => all2 (fun m d => bool_decide (m.1 = d.1) && has_type m.2 d.2) ms l
  | kDictType k p, DDict l => forallb (fun kp => has_type k kp.1 && has_type p kp.2) l
  | kTaggedType g i, DTagged g' d => bool_decide (g = g') && has_type i d
  | _, _ => false
  end%bool.

(** ** The message of a value

    As [ydb_value.proto] documents it: an optional is not represented when it holds a
    value, and nested values lead to the null of the innermost of several optionals. *)

Fixpoint null_chain (d : datum) : bool :=
  match d with DNothing => true | DJust d => null_chain d | _ => false end.

Definition message_of (x : value_oneof) : Ydb_Value := mkValue x [] [] 0 0.

Definition encode_pg (kind : EPgValueKind) (content : string) : value_oneof :=
  match kind with
  | VK_NULL => kNullFlagValue
  | VK_TEXT => kTextValue content
  | VK_BINARY => kBytesValue content
  end.

Definition map2 {A B C} (f : A -> B -> C) : list A -> list B -> list C :=
  fix go l k := match l, k with x :: l, y :: k => f x y :: go l k | _, _ => [] end.

Fixpoint encode (t : Ydb_Type) (d : datum) {struct t} : Ydb_Value :=
  match t, d with
  | kTypeId _, DPrimitive x => encode_primitive x EmptyValue
  | kDecimalType _ _, DDecimal low hi => mkValue (kLow128 low) [] [] 0 (u64 hi)
  | kPgType _ _ _ _ _, DPg kind content => message_of (encode_pg kind content)
  | kOptionalType i, DNothing => message_of kNullFlagValue
  | kOptionalType i, DJust d =>
      if null_chain d then message_of (kNestedValue (encode i d)) else encode i d
  | kListType i, DList l => mkValue VALUE_NOT_SET (encode i <$> l) [] 0 0
  | kTupleType ts, DTuple l => mkValue VALUE_NOT_SET (map2 encode ts l) [] 0 0
  | kStructType ms, DStruct l => mkValue VALUE_NOT_SET (map2 (fun m d => encode m.2 d.2) ms l) [] 0 0
  | kDictType k p, DDict l => mkValue VALUE_NOT_SET [] ((fun kp => (encode k kp.1, encode p kp.2)) <$> l) 0 0
  | kTaggedType _ i, DTagged _ d => encode i d
  | _, _ => EmptyValue
  end.

(** A type whose values may be null by themselves. *)
Fixpoint nullable (t : Ydb_Type) : bool :=
  match t with kOptionalType _ | kPgType _ _ _ _ _ => true | kTaggedType _ i => nullable i | _ => false end.

(** No optional of a value that may be null by itself, other than an optional: its
    message would not tell the two nulls apart. *)
Fixpoint unambiguous (t : Ydb_Type) : bool :=
  match t with
  | kOptionalType i =>
      unambiguous i && (match i with kOptionalType _ => true | _ => false end || negb (nullable i))
  | kListType i | kTaggedType _ i => unambiguous i
  | kTupleType l => forallb unambiguous l
  | kStructType l => forallb (fun m => unambiguous m.2) l
  | kDictType k p => unambiguous k && unambiguous p
  | _ => true
  end%bool.

(** ** The client *)

Definition write_parts {A B} (f : A -> B -> M TValueBuilder unit) : list A -> list B -> M TValueBuilder unit :=
  fix go l k := match l, k with x :: l, y :: k => f x y ;; go l k | _, _ => mret tt end.

Fixpoint Write (t : Ydb_Type) (d : datum) {struct t} : M TValueBuilder unit :=
  match t, d with
  | kTypeId _, DPrimitive x => VB_Set x
  | kDecimalType p s, DDecimal low hi => VB_Decimal (mkDecimalValue (mkDecimalType p s) low hi)
  | kPgType n m oid typlen typmod, DPg kind content =>
      VB_Pg (mkPgValue (mkPgType n m oid typlen typmod) kind content)
  | kOptionalType i, DNothing => VB_EmptyOptional_typed i
  | kOptionalType i, DJust d => VB_BeginOptional ;; Write i d ;; VB_EndOptional
  | kListType i, DList l =>
      VB_BeginList_typed i ;; for_each (fun d => VB_AddListItem ;; Write i d) l ;; VB_EndList
  | kTupleType ts, DTuple l =>
      VB_BeginTuple ;; write_parts (fun t d => VB_AddElement ;; Write t d) ts l ;; VB_EndTuple
  | kStructType ms, DStruct l =>
      VB_BeginStruct ;; write_parts (fun m d => VB_AddMember m.1 ;; Write m.2 d.2) ms l ;; VB_EndStruct
  | kDictType k p, DDict l =>
      VB_BeginDict_typed k p ;;
      for_each (fun kp => VB_AddDictItem ;; VB_DictKey ;; Write k kp.1 ;; VB_DictPayload ;; Write p kp.2) l ;;
      VB_EndDict
  | kTaggedType g i, DTagged _ d => VB_BeginTagged g ;; Write i d ;; VB_EndTagged
  | _, _ => throw "no such value"
  end.

Definition write_value (known t : Ydb_Type) (d : datum) : outcome (Ydb_Type * Ydb_Value) :=
  '(r, _) ← (Write t d ;; BuildValue) (TValueBuilder0 known EmptyValue); Ok r.

(** The types the builder can make: complete, without variants and the types that have
    no setter; members have different names, decimal parameters fit their byte, and a Pg
    type has a name and a modifier only. *)
Fixpoint buildable (t : Ydb_Type) : bool :=
  match t with
  | kTypeId _ => true
  | kDecimalType p s => (0 <=? p) && (p <? 256) && (0 <=? s) && (s <? 256)
  | kPgType _ _ oid typlen typmod => (oid =? 0) && (typlen =? 0) && (typmod =? 0)
  | kOptionalType i | kListType i | kTaggedType _ i => buildable i
  | kTupleType l => forallb buildable l
  | kStructType l => forallb (fun m => buildable m.2) l && bool_decide (NoDup (fst <$> l))
  | kDictType k p => buildable k && buildable p
  | _ => false
  end%bool.

(** ** Reading what was encoded *)

Lemma all2_length {A B} (f : A -> B -> bool) l k : all2 f l k = true -> length l = length k.
Proof.
  revert k. induction l as [|x l IH]; intros [|y k] Hf; try done. cbn in *.
  apply andb_true_iff in Hf as [_ Hf]. by rewrite (IH _ Hf).
Qed.

Lemma mul_saturated_exact a b : 0 < a -> 0 <= b -> a * b < 2 ^ 64 -> mul_saturated a b = a * b.
Proof. unfold mul_saturated. lia. Qed.

Lemma instant_of_date us : fits (VDate us) = true -> instant_of_days (u32 (us / 1000000 / 60 / 60 / 24)) = us.
Proof.
  unfold fits, instant_of_days. intros [[H1 H2]%andb_true_iff H3]%andb_true_iff.
  rewrite !Z.div_div by lia. apply Z.leb_le in H1. apply Z.ltb_lt in H2. apply Z.eqb_eq in H3.
  change (1000000 * (60 * (60 * 24))) with 86400000000. pose proof (Z.div_mod us 86400000000).
  assert (us / 86400000000 < 2 ^ 32) by (apply Z.div_lt_upper_bound; lia).
  assert (0 <= us / 86400000000) by (apply Z.div_pos; lia).
  unfold wrapU. rewrite Z.mod_small by lia. rewrite mul_saturated_exact; lia.
Qed.

Lemma instant_of_datetime us : fits (VDatetime us) = true -> instant_of_seconds (u32 (us / 1000000)) = us.
Proof.
  unfold fits, instant_of_seconds. intros [[H1 H2]%andb_true_iff H3]%andb_true_iff.
  apply Z.leb_le in H1. apply Z.ltb_lt in H2. apply Z.eqb_eq in H3.
  pose proof (Z.div_mod us 1000000).
  assert (us / 1000000 < 2 ^ 32) by (apply Z.div_lt_upper_bound; lia).
  assert (0 <= us / 1000000) by (apply Z.div_pos; lia).
  unfold wrapU. rewrite Z.mod_small by lia. rewrite mul_saturated_exact; lia.
Qed.

Lemma decode_encode_primitive x : fits x = true ->
  decode (kTypeId (primitive_type x)) (encode_primitive x EmptyValue) = Ok (DPrimitive x).
Proof.
  intros Hf. cbn [decode]. unfold decode_scalar.
  rewrite bool_decide_true by (by destruct x).
  destruct x; try done; cbn [primitive_type decode_primitive encode_primitive].
  5: cbn [uint32_value value_of set_value]; by rewrite instant_of_date.
  5: cbn [uint32_value value_of set_value]; by rewrite instant_of_datetime.
  all: cbn in Hf; apply andb_true_iff in Hf as [H1%Z.leb_le H2%Z.ltb_lt].
  all: cbn [uint32_value int32_value value_of set_value].
  1,3: rewrite wrapS_small by (unfold inS; lia); done.
  all: unfold wrapU; rewrite Z.mod_small by lia; done.
Qed.

(** Only an optional or a Pg value is null or nested. *)
Definition bare (v : Ydb_Value) : Prop :=
  value_of v <> kNullFlagValue /\ forall n, value_of v <> kNestedValue n.

Lemma encode_bare t d : unambiguous t = true -> has_type t d = true -> null_chain d = false ->
  (match t with kOptionalType _ => true | _ => false end || negb (nullable t))%bool = true ->
  bare (encode t d).
Proof.
  revert t d. fix IH 1. intros t d Hu Ht Hn Hi.
  destruct t; destruct d; try done; cbn in *.
  - by destruct x.
  - rewrite Hn. apply andb_true_iff in Hu as [Hu Hi']. by apply IH.
  - apply andb_true_iff in Ht as [_ Ht]. destruct (null_chain d) eqn:Hc.
    + destruct t, d; try done. 
    + apply IH; try done. destruct t; try done.
Qed.

Lemma decode_optional i d : unambiguous (kOptionalType i) = true -> has_type i d = true ->
  decode i (encode i d) = Ok d ->
  decode (kOptionalType i) (encode (kOptionalType i) (DJust d)) = Ok (DJust d).
Proof.
  intros Hu Ht IH. cbn [encode]. destruct (null_chain d) eqn:Hn.
  - cbn. by rewrite IH.
  - cbn in Hu. apply andb_true_iff in Hu as [Hu Hi].
    destruct (encode_bare i d) as [Hb1 Hb2]; try done.
    cbn [decode]. unfold inner. destruct (value_of (encode i d)) eqn:E; try (by rewrite IH); [done|].
    by destruct (Hb2 v).
Qed.

Lemma decode_parts_map2 {A B C} (f : A -> Ydb_Value -> outcome C) (g : A -> B -> Ydb_Value) (h : A -> B -> bool)
    (r : B -> C) l k :
  (forall x y, x ∈ l -> h x y = true -> f x (g x y) = Ok (r y)) -> all2 h l k = true ->
  decode_parts f l (map2 g l k) = Ok (r <$> k).
Proof.
  revert k. induction l as [|x l IH]; intros [|y k] Hf Hh; try done. cbn in *.
  apply andb_true_iff in Hh as [Hx Hh]. rewrite Hf by (done || apply list_elem_of_here). cbn.
  rewrite IH; [done| |done]. intros ? ? ?. apply Hf. by apply list_elem_of_further.
Qed.

Lemma mapO_map {A B C} (f : A -> outcome B) (g : C -> A) (r : C -> B) (l : list C) :
  Forall (fun x => f (g x) = Ok (r x)) l -> mapO f (g <$> l) = Ok (r <$> l).
Proof. induction 1 as [|x l Hx _ IH]; [done|]. cbn. rewrite Hx. cbn. by setoid_rewrite IH. Qed.

Lemma forallb_Forall_impl {A} (f : A -> bool) (P : A -> Prop) l :
  (forall x, f x = true -> P x) -> forallb f l = true -> Forall P l.
Proof. intros HP Hf. apply Forall_forall. intros x Hx. apply HP. rewrite forallb_forall in Hf. apply Hf. by apply list_elem_of_In. Qed.

Lemma forallb_elem {A} (f : A -> bool) l x : forallb f l = true -> x ∈ l -> f x = true.
Proof. rewrite forallb_forall. intros Hf Hx. apply Hf. by apply list_elem_of_In. Qed.

(** The parser reads back what the builder has to write. *)
Lemma decode_encode t d : unambiguous t = true -> has_type t d = true -> decode t (encode t d) = Ok d.
Proof.
  revert d. induction t using Ydb_Type_nested_ind; intros d Hu Ht; destruct d; try done.
  - cbn in Ht. apply andb_true_iff in Ht as [<-%bool_decide_eq_true Hf]. by apply decode_encode_primitive.
  - cbn in Ht |- *. apply andb_true_iff in Ht as [H1%Z.leb_le H2%Z.ltb_lt]. do 2 f_equal.
    unfold wrapU, wrapS. rewrite Z.mod_mod by lia. apply (wrapS_small 64); unfold inS; lia.
  - cbn in Ht |- *. destruct kind; try done. by apply bool_decide_eq_true in Ht as ->.
  - cbn in Ht. apply decode_optional; try done. cbn in Hu. apply andb_true_iff in Hu as [Hu _]. by apply IHt.
  - cbn in Hu, Ht |- *. erewrite (mapO_map _ _ id); [by rewrite list_fmap_id|].
    eapply forallb_Forall_impl; [|done]. intros x Hx. by apply IHt.
  - cbn in Hu, Ht |- *. erewrite (decode_parts_map2 _ _ _ id); [by rewrite list_fmap_id| |done].
    intros x y Hx Hy. eapply Forall_forall in H; [|done]. apply H; [|done]. by eapply forallb_elem.
  - cbn in Hu, Ht |- *. erewrite (decode_parts_map2 _ _ _ id); [by rewrite list_fmap_id| |done].
    intros x [n y] Hx [Hn%bool_decide_eq_true Hy]%andb_true_iff. cbn in *.
    eapply Forall_forall in H; [|done]. rewrite H; [by subst| |done].
    by eapply (forallb_elem (fun m => unambiguous m.2)).
  - cbn in Hu, Ht |- *. apply andb_true_iff in Hu as [Hu1 Hu2].
    erewrite (mapO_map _ _ id); [by rewrite list_fmap_id|].
    eapply forallb_Forall_impl; [|done]. intros [x y] [Hx Hy]%andb_true_iff. cbn.
    rewrite IHt1 by done. cbn. by rewrite IHt2.
  - cbn in Hu, Ht |- *. apply andb_true_iff in Ht as [->%bool_decide_eq_true Ht]. by rewrite IHt.
Qed.

(** ** The nodes of a value *)

#[export] Instance value_laws : TreeLaws Ydb_Value vsel.
Proof.
  split.
  - intros [x l ps i h] [j|j|j|] c c' Hc; cbn in *.
    + rewrite list_lookup_insert_eq; [done|by eapply lookup_lt_Some].
    + rewrite list_lookup_alter_eq. by destruct (ps !! j).
    + rewrite list_lookup_alter_eq. by destruct (ps !! j).
    + by destruct x.
  - intros [x l ps i h] [j|j|j|] [k|k|k|] c c' Hc Hne; cbn in *; try done;
      try (by destruct x); try (rewrite list_lookup_insert_ne; [done|congruence]);
      destruct (decide (j = k)) as [->|]; try done;
      rewrite ?list_lookup_alter_eq, ?list_lookup_alter_ne by done; by destruct (ps !! k).
  - intros [x l ps i h] [j|j|j|] c c1 c2 Hc; cbn in *.
    + unfold set_items. cbn. by rewrite list_insert_insert_eq.
    + unfold set_pairs. cbn. by rewrite list_alter_alter.
    + unfold set_pairs. cbn. by rewrite list_alter_alter.
    + by destruct x.
  - intros [x l ps i h] [j|j|j|] c Hc; cbn in *.
    + unfold set_items. cbn. by rewrite list_insert_id.
    + unfold set_pairs. cbn. rewrite list_alter_same; [done|]. intros [a b] E. rewrite E in Hc. cbn in *. by simplify_eq.
    + unfold set_pairs. cbn. rewrite list_alter_same; [done|]. intros [a b] E. rewrite E in Hc. cbn in *. by simplify_eq.
    + destruct x; try done. by simplify_eq.
Qed.

#[local] Arguments child : simpl never.
#[local] Arguments set_child : simpl never.
#[local] Arguments wrapU : simpl never.
#[local] Arguments Z.add : simpl never.

(** ** The cached maps of struct members *)

(** Every entry of [StructsMap_] is the map of a struct type of the builder's type. *)
Definition cache_ok (SM : list (tpath * TMembersMap)) (R : Ydb_Type) : Prop :=
  forall e, e ∈ SM -> exists l, get_at e.1 R = Some (kStructType l) /\ e.2 = members_map l.
(** No entry is for a type that contains the node at [p]. *)
Definition apart (SM : list (tpath * TMembersMap)) (p : tpath) : Prop :=
  forall e, e ∈ SM -> ~ e.1 `prefix_of` p.
(** Entries were added for nodes below [p] only. *)
Definition grown (SM SM' : list (tpath * TMembersMap)) (p : tpath) : Prop :=
  forall e, e ∈ SM' -> e ∈ SM \/ p `prefix_of` e.1.

Lemma prefix_snoc_inv {A} (l k : list A) x : l `prefix_of` k ++ [x] -> l `prefix_of` k \/ l = k ++ [x].
Proof.
  intros [r E]. destruct r as [|z r' _] using rev_ind; [right; by rewrite app_nil_r in E|left].
  rewrite app_assoc in E. apply app_inj_tail in E as [-> _]. by eexists.
Qed.

Lemma apart_child SM R p x : cache_ok SM R -> apart SM p -> get_at (p ++ [x]) R = Some TYPE_NOT_SET ->
  apart SM (p ++ [x]).
Proof.
  intros Hc Ha Hx e He [Hp|Hp]%prefix_snoc_inv; [by eapply Ha|].
  destruct (Hc _ He) as (l & Hl & _). rewrite Hp in Hl. congruence.
Qed.

Lemma cache_ok_set SM R p y y' : cache_ok SM R -> apart SM p -> get_at p R = Some y ->
  (forall x c, child y x = Some c -> child y' x = Some c) -> cache_ok SM (set_at p y' R).
Proof.
  intros Hc Ha Hy Hyy e He. destruct (Hc _ He) as (l & Hl & Em). exists l. split; [|done]. clear Em.
  pose proof (Ha _ He) as Hnp. destruct e as [c m]. cbn in *. clear He.
  destruct (decide (p `prefix_of` c)) as [[r ->]|Hpc].
  - destruct r as [|x r]; [by destruct Hnp; rewrite app_nil_r|].
    rewrite get_at_app in Hl |- *. rewrite get_set_at by (by eexists). rewrite Hy in Hl. cbn in *.
    destruct (child y x) as [d|] eqn:E; [|done]. by rewrite (Hyy _ _ E).
  - rewrite get_set_disjoint; [done|by eexists|done|done].
Qed.

Lemma grown_refl SM p : grown SM SM p.
Proof. intros e He. by left. Qed.

Lemma grown_trans SM SM' SM'' p q : grown SM SM' p -> grown SM' SM'' q -> p `prefix_of` q -> grown SM SM'' p.
Proof. intros H1 H2 Hpq e [He|He]%H2; [by apply H1|]. right. by etrans. Qed.

Lemma grown_apart SM SM' p x : apart SM p -> grown SM SM' (p ++ [x]) -> apart SM' p.
Proof.
  intros Ha Hg e [He|He]%Hg Hp; [by eapply Ha|].
  assert (p ++ [x] `prefix_of` p) as [r Hr] by (by etrans).
  apply (f_equal length) in Hr. rewrite !length_app in Hr. cbn in Hr. lia.
Qed.

(** ** The map of struct members *)

Lemma members_map_fold (ns : list string) k (m : TMembersMap) : NoDup ns -> (forall n, n ∈ ns -> m !! n = None) ->
  let r := foldl (fun m im => match m !! im.2 with Some _ => m | None => <[im.2 := im.1]> m end) m
             (zip (seq k (length ns)) ns) in
  size r = (size m + length ns)%nat /\ (forall n, n ∉ ns -> r !! n = m !! n) /\
  (forall i n, ns !! i = Some n -> r !! n = Some (k + i)%nat).
Proof.
  revert k m. induction ns as [|a ns IH]; intros k m Hd Hm; cbn.
  { split_and!; [lia|done|]. intros i n. by rewrite lookup_nil. }
  apply NoDup_cons in Hd as [Ha Hd]. rewrite Hm by apply list_elem_of_here.
  edestruct (IH (S k) (<[a:=k]> m)) as (H1 & H2 & H3); [done| |].
  { intros n Hn. rewrite lookup_insert_ne by (by intros ->). apply Hm. by apply list_elem_of_further. }
  split_and!.
  - rewrite H1, map_size_insert_None by (apply Hm, list_elem_of_here). lia.
  - intros n [Hn1 Hn2]%not_elem_of_cons. rewrite H2 by done. by rewrite lookup_insert_ne.
  - intros [|i] n E; cbn in E.
    + injection E as <-. rewrite H2, lookup_insert_eq by done. f_equal. lia.
    + rewrite (H3 i) by done. f_equal. lia.
Qed.

Lemma members_map_spec l : NoDup (fst <$> l) -> size (members_map l) = length l /\
  forall i m, l !! i = Some m -> members_map l !! m.1 = Some i.
Proof.
  intros Hd. destruct (members_map_fold (fst <$> l) 0 ∅ Hd) as (H1 & _ & H3); [done|].
  rewrite length_fmap in *. split; [by rewrite map_size_empty in H1|].
  intros i m Hi. rewrite (H3 i); [done|]. by rewrite list_lookup_fmap, Hi.
Qed.
