(* ===== verification/ValueRoundTrip.v ===== *)
(** * The round trip of a value

    What every call of the value builder does at a known position, and from it that the
    client of [ValueWriter] builds the encoding of its value, whether the builder starts
    from the type or learns it from the calls. *)

From S2P Require Import Prelude ValueProto MessagePath TypeParser TypeBuilder ValueParser ValueBuilder ValueReader ValueWriter.

#[local] Arguments child : simpl never.
#[local] Arguments set_child : simpl never.
#[local] Arguments wrapU : simpl never.
#[local] Arguments Z.add : simpl never.
#[local] Arguments members_map : simpl never.

(** The builder with the type [R], the positions [tps] in it, the message [V], the
    positions [vps] in it, and the struct members [SM], [SP]. *)
Abbreviation st R tps V SM vps SP := (mkValueBuilder (mkTypeBuilder R tps) V SM vps SP).

Definition known (x : Ydb_Type) : bool := match x with TYPE_NOT_SET => false | _ => true end.

(** A call whose result is known. *)
Lemma wp_call {S A B} (m : M S A) (f : A -> M S B) Q s a s' :
  m s = Ok (a, s') -> wp (f a) Q s' -> wp (m ≫= f) Q s.
Proof. intros E H. unfold wp in *. by rewrite (bind_Ok _ _ _ _ _ E). Qed.

(** The position on top may be on a type that is known or not. *)
Section Calls.
Context (R : Ydb_Type) (V : Ydb_Value) (SM : list (tpath * TMembersMap)) (SP : list TStructPosition).
Context (p : tpath) (tps : list tpath) (vps : list TBuildPosition).
Context (x : Ydb_Type) (Hx : get_at p R = Some x).

Lemma GetType_spec : VB_GetType 0 (st R (p :: tps) V SM vps SP) = Ok (x, st R (p :: tps) V SM vps SP).
Proof. unfold VB_GetType, on_tb, TB_GetProto. cbn. by rewrite Hx. Qed.

Lemma TB_GetProto_spec : TB_GetProto 0 (mkTypeBuilder R (p :: tps)) = Ok (x, mkTypeBuilder R (p :: tps)).
Proof. unfold TB_GetProto. cbn. by rewrite Hx. Qed.

Lemma CheckType_spec : VB_CheckType (st R (p :: tps) V SM vps SP) = Ok (known x, st R (p :: tps) V SM vps SP).
Proof. unfold VB_CheckType. by step GetType_spec. Qed.

Lemma CheckTypeKind_spec kind : x = TYPE_NOT_SET \/ GetKind x = Ok kind ->
  VB_CheckTypeKind kind (st R (p :: tps) V SM vps SP) = Ok (known x, st R (p :: tps) V SM vps SP).
Proof.
  intros Hk. unfold VB_CheckTypeKind. step CheckType_spec. destruct (known x) eqn:E; [|done].
  step GetType_spec. destruct Hk as [->|Hk]; [done|]. unfold lift. rewrite Hk. run. by rewrite bool_decide_true.
Qed.

Lemma TB_spec f : on_tb (TB_put f) (st R (p :: tps) V SM vps SP) =
  Ok (tt, st (set_at p (f x) R) (p :: tps) V SM vps SP).
Proof. unfold on_tb. cbn [TypeBuilder_]. by rewrite (TB_put_spec _ _ _ _ _ Hx). Qed.

Lemma FillType_spec t : x = t \/ x = TYPE_NOT_SET -> TypesEqual t t = Ok true ->
  FillType t (st R (p :: tps) V SM vps SP) = Ok (tt, st (set_at p t R) (p :: tps) V SM vps SP).
Proof.
  intros Hk He. unfold FillType, unless.
  assert (VB_CheckTypeIs t (st R (p :: tps) V SM vps SP) = Ok (known x, st R (p :: tps) V SM vps SP)) as E.
  { unfold VB_CheckTypeIs. step CheckType_spec. destruct (known x) eqn:E; [|done].
    step GetType_spec. destruct Hk as [->| ->]; [|done]. unfold lift. by rewrite He. }
  step E. destruct (known x) eqn:Ek; [|apply TB_spec].
  destruct Hk as [->| ->]; [|done]. by rewrite (set_at_same _ _ _ Hx).
Qed.

(** The open container, below the top. *)
Lemma CheckPreviousKind_spec p' kind : GetKind x = Ok kind ->
  TB_CheckPreviousKind kind (mkTypeBuilder R (p' :: p :: tps)) = Ok (tt, mkTypeBuilder R (p' :: p :: tps)).
Proof.
  intros Hk. unfold TB_CheckPreviousKind, TB_GetKind, TB_GetProto, lift. run. rewrite Hx, Hk.
  unfold CheckKind. by rewrite bool_decide_true.
Qed.

Lemma CloseContainer_spec p' kind : GetKind x = Ok kind ->
  on_tb (TB_CloseContainer kind) (st R (p' :: p :: tps) V SM vps SP) = Ok (tt, st R (p :: tps) V SM vps SP).
Proof.
  intros Hk. unfold on_tb, TB_CloseContainer. cbn [TypeBuilder_].
  erewrite bind_Ok by reflexivity. cbn [TB_Path length Nat.ltb Nat.leb].
  by rewrite (bind_Ok _ _ _ _ _ (CheckPreviousKind_spec p' kind Hk)).
Qed.

Lemma CheckContainerKind_spec p' kind e1 e0 : GetKind x = Ok kind ->
  CheckContainerKind kind (st R (p' :: p :: tps) V SM (e1 :: e0 :: vps) SP) =
  Ok (tt, st R (p' :: p :: tps) V SM (e1 :: e0 :: vps) SP).
Proof.
  intros Hk. unfold CheckContainerKind, VB_GetType, on_tb, TB_GetProto, lift. run. rewrite Hx. run. rewrite Hk.
  run. by rewrite bool_decide_true.
Qed.
End Calls.

Section Positions.
Context (R : Ydb_Type) (V : Ydb_Value) (SM : list (tpath * TMembersMap)) (SP : list TStructPosition).
Context (tps : list tpath) (e : TBuildPosition) (vps : list TBuildPosition).

Lemma put_spec f v : get_at (BValue e) V = Some v ->
  VB_put f (st R tps V SM (e :: vps) SP) = Ok (tt, st R tps (set_at (BValue e) (f v) V) SM (e :: vps) SP).
Proof. intros Hv. unfold VB_put, VB_GetValue. run. by rewrite Hv. Qed.

Lemma push_item_spec v : get_at (BValue e) V = Some v ->
  VB_push_item (st R tps V SM (e :: vps) SP) =
  Ok (tt, st R tps (set_at (BValue e) (set_items (items v ++ [EmptyValue]) v) V) SM
            (mkBuildPos (BValue e ++ [VItem (length (items v))]) false 0 :: e :: vps) SP).
Proof. intros Hv. unfold VB_push_item, VB_put, VB_GetValue. run. by rewrite Hv; run; rewrite Hv. Qed.
End Positions.

Lemma PopPath_spec B V SM e vps SP :
  VB_PopPath (mkValueBuilder B V SM (e :: vps) SP) = Ok (tt, mkValueBuilder B V SM vps SP).
Proof. done. Qed.

(** [BeginX], where [m] begins the type. *)
Section Begin.
Context (R : Ydb_Type) (V : Ydb_Value) (SM : list (tpath * TMembersMap)) (SP : list TStructPosition).
Context (p : tpath) (tps : list tpath) (e : TBuildPosition) (vps : list TBuildPosition).
Context (x : Ydb_Type) (Hx : get_at p R = Some x).

Definition opened (B : TTypeBuilder) : TValueBuilder :=
  mkValueBuilder B V SM
    (mkBuildPos (BValue e) false 0 :: mkBuildPos (BValue e) (negb (known x)) (OptLevel e) :: vps) SP.

Lemma Begin_spec kind (m : M TTypeBuilder unit) B : x = TYPE_NOT_SET \/ GetKind x = Ok kind ->
  m (mkTypeBuilder R (p :: tps)) = Ok (tt, B) ->
  (known ← VB_CheckTypeKind kind; VB_SetBuildType (negb known) ;; on_tb m ;; VB_PushSelf)
    (st R (p :: tps) V SM (e :: vps) SP) = Ok (tt, opened B).
Proof.
  intros Hk Hm. erewrite bind_Ok by (by apply CheckTypeKind_spec). unfold on_tb. run. by rewrite Hm.
Qed.

Lemma BeginList_spec t : x = TYPE_NOT_SET \/ x = kListType t ->
  VB_BeginList (st R (p :: tps) V SM (e :: vps) SP) =
  Ok (tt, opened (mkTypeBuilder (set_at p (mutable_list_type x) R) ((p ++ [SItem]) :: p :: tps))).
Proof.
  intros Hk. apply Begin_spec; [by destruct Hk as [->| ->]; auto|].
  unfold TB_BeginList. by erewrite bind_Ok by (by apply TB_put_spec).
Qed.

Lemma BeginTuple_spec l : x = TYPE_NOT_SET \/ x = kTupleType l ->
  VB_BeginTuple (st R (p :: tps) V SM (e :: vps) SP) =
  Ok (tt, opened (mkTypeBuilder (set_at p (mutable_tuple_type x) R) (p :: p :: tps))).
Proof.
  intros Hk. apply Begin_spec; [by destruct Hk as [->| ->]; auto|].
  unfold TB_BeginTuple. by erewrite bind_Ok by (by apply TB_put_spec).
Qed.

Lemma BeginDict_spec k t : x = TYPE_NOT_SET \/ x = kDictType k t ->
  VB_BeginDict (st R (p :: tps) V SM (e :: vps) SP) =
  Ok (tt, opened (mkTypeBuilder (set_at p (mutable_dict_type x) R) (p :: p :: tps))).
Proof.
  intros Hk. apply Begin_spec; [by destruct Hk as [->| ->]; auto|].
  unfold TB_BeginDict. by erewrite bind_Ok by (by apply TB_put_spec).
Qed.

Lemma BeginTagged_spec g t : x = TYPE_NOT_SET \/ x = kTaggedType g t ->
  VB_BeginTagged g (st R (p :: tps) V SM (e :: vps) SP) =
  Ok (tt, opened (mkTypeBuilder (set_at p (kTaggedType g (if known x then t else TYPE_NOT_SET)) R)
                    ((p ++ [SItem]) :: p :: tps))).
Proof.
  intros Hk. apply Begin_spec; [by destruct Hk as [->| ->]; auto|].
  unfold TB_BeginTagged. erewrite bind_Ok by (by apply TB_put_spec). by destruct Hk as [->| ->].
Qed.
End Begin.

(** ** A type is equal to itself *)

Lemma all_equal_refl {A} (f : A -> A -> outcome bool) l : Forall (fun x => f x x = Ok true) l -> all_equal f l l = Ok true.
Proof. induction 1 as [|x l Hx _ IH]; [done|]. cbn. rewrite Hx. cbn. by setoid_rewrite IH. Qed.

Lemma TypesEqual_refl t : buildable t = true -> TypesEqual t t = Ok true.
Proof.
  induction t using Ydb_Type_nested_ind; intros Hb; try done; cbn in Hb |- *.
  - by rewrite bool_decide_true.
  - by rewrite !Z.eqb_refl.
  - by rewrite !bool_decide_true.
  - by apply IHt.
  - by apply IHt.
  - rewrite bool_decide_true by done. apply all_equal_refl. rewrite Forall_forall in *. intros x Hx.
    apply H; [done|]. by eapply forallb_elem.
  - apply andb_true_iff in Hb as [Hb _]. rewrite bool_decide_true by done. apply all_equal_refl.
    rewrite Forall_forall in *. intros x Hx. rewrite bool_decide_true by done.
    apply H; [done|]. by eapply (forallb_elem (fun m => buildable m.2)).
  - apply andb_true_iff in Hb as [Hb1 Hb2]. rewrite IHt1 by done. by apply IHt2.
  - rewrite bool_decide_true by done. by apply IHt.
Qed.

(** ** What a client writes *)

Fixpoint nested_times (n : nat) (v : Ydb_Value) : Ydb_Value :=
  match n with O => v | S n => message_of (kNestedValue (nested_times n v)) end.

(** The message of a value inside of [o] optionals. *)
Definition encode_in (o : Z) (t : Ydb_Type) (d : datum) : Ydb_Value :=
  nested_times (if null_chain d then Z.to_nat o else 0) (encode t d).

(** The node at [p] is the type [t], or is not known and so not a part of a known one. *)
Definition expects (SM : list (tpath * TMembersMap)) (p : tpath) (t x : Ydb_Type) : Prop :=
  x = t \/ x = TYPE_NOT_SET /\ apart SM p.

(** The builder once [v] was written at the path [q] and [t] is the type at [p]. *)
Definition wrote R p t tps V q v SM o vps SP (_ : unit) (s : TValueBuilder) : Prop :=
  exists b SM', s = st (set_at p t R) (p :: tps) (set_at q v V) SM' (mkBuildPos q b o :: vps) SP /\
    cache_ok SM' (set_at p t R) /\ grown SM SM' p.

Definition writes (t : Ydb_Type) : Prop :=
  forall d R p tps V SM q b o vps SP x,
  has_type t d = true -> get_at p R = Some x -> expects SM p t x -> get_at q V = Some EmptyValue ->
  cache_ok SM R -> 0 <= o -> o + Z.of_nat (type_size t) < 2 ^ 32 -> (0 < o -> vps <> []) ->
  wp (Write t d) (wrote R p t tps V q (encode_in o t d) SM o vps SP)
    (st R (p :: tps) V SM (mkBuildPos q b o :: vps) SP).

Lemma cache_ok_fresh SM p R y : get_at p R = Some TYPE_NOT_SET -> apart SM p -> cache_ok SM R ->
  cache_ok SM (set_at p y R).
Proof. intros Hx Ha Hc. by eapply cache_ok_set. Qed.

Lemma expects_cache SM p t x R : expects SM p t x -> get_at p R = Some x -> cache_ok SM R ->
  cache_ok SM (set_at p t R).
Proof.
  intros [->|[-> Ha]] Hx Hc; [by rewrite (set_at_same _ _ _ Hx)|by apply cache_ok_fresh].
Qed.

(** A part of the node that was just set. *)
Section Part.
Context {N X : Type} `{TreeLaws N X, EqDecision X}.

Lemma get_part (p : list X) x (y R c : N) : is_Some (get_at p R) -> child y x = Some c ->
  get_at (p ++ [x]) (set_at p y R) = Some c.
Proof. intros Hp Hc. erewrite get_at_snoc by (by apply get_set_at). done. Qed.

Lemma set_part (p : list X) x (y R c v : N) : is_Some (get_at p R) -> child y x = Some c ->
  set_at (p ++ [x]) v (set_at p y R) = set_at p (set_child x v y) R.
Proof. intros Hp Hc. erewrite set_at_snoc by (done || by apply get_set_at). apply set_set_at. Qed.
End Part.

(** *** Scalars *)

(** [if (!CheckX) X] *)
Lemma unless_spec (c : M TValueBuilder bool) f R V SM SP p tps vps x t : get_at p R = Some x ->
  c (st R (p :: tps) V SM vps SP) = Ok (known x, st R (p :: tps) V SM vps SP) ->
  (x = t /\ known t = true \/ x = TYPE_NOT_SET /\ f TYPE_NOT_SET = t) ->
  unless c (TB_put f) (st R (p :: tps) V SM vps SP) = Ok (tt, st (set_at p t R) (p :: tps) V SM vps SP).
Proof.
  intros Hx Hc Ht. unfold unless. step Hc. destruct Ht as [[-> Ht]|[-> <-]].
  - rewrite Ht. by rewrite (set_at_same _ _ _ Hx).
  - by apply TB_spec.
Qed.

Lemma leaf_spec fill f t d R p tps V SM q b o vps SP x : get_at p R = Some x -> expects SM p t x ->
  fill (st R (p :: tps) V SM (mkBuildPos q b o :: vps) SP) =
    Ok (tt, st (set_at p t R) (p :: tps) V SM (mkBuildPos q b o :: vps) SP) ->
  get_at q V = Some EmptyValue -> cache_ok SM R -> null_chain d = false -> f EmptyValue = encode t d ->
  wp (fill ;; VB_put f) (wrote R p t tps V q (encode_in o t d) SM o vps SP)
    (st R (p :: tps) V SM (mkBuildPos q b o :: vps) SP).
Proof.
  intros Hx He Hf Hq Hc Hn Ed. eapply wp_call; [exact Hf|]. unfold wp. erewrite (put_spec _ _ _ _ _ (mkBuildPos q b o)) by done.
  exists b, SM. unfold encode_in. rewrite Hn, Ed. split_and!; [done|by eapply expects_cache|apply grown_refl].
Qed.

Lemma writes_primitive pt : writes (kTypeId pt).
Proof.
  intros d R p tps V SM q b o vps SP x Ht Hx He Hq Hc _ _ _. destruct d as [y| | | | | | | | | | |]; try done.
  cbn in Ht. apply andb_true_iff in Ht as [Ht%bool_decide_eq_true _].
  eapply leaf_spec; try done. rewrite Ht. eapply unless_spec; [done| |].
  - unfold VB_CheckPrimitiveType.
    erewrite bind_Ok by (apply CheckTypeKind_spec; [done|]; destruct He as [->|[-> _]]; auto).
    destruct He as [->|[-> _]]; [|done]. cbn [known]. erewrite bind_Ok by (by apply GetType_spec). cbn.
    by rewrite bool_decide_true.
  - destruct He as [->|[-> _]]; auto.
Qed.

Lemma writes_decimal pr sc : writes (kDecimalType pr sc).
Proof.
  intros d R p tps V SM q b o vps SP x Ht Hx He Hq Hc _ _ _. destruct d; try done.
  eapply leaf_spec; try done. eapply unless_spec; [done|apply CheckTypeKind_spec; [done|]|];
    destruct He as [->|[-> _]]; auto.
Qed.

Lemma writes_pg n m oid typlen typmod : buildable (kPgType n m oid typlen typmod) = true ->
  writes (kPgType n m oid typlen typmod).
Proof.
  cbn. intros [[->%Z.eqb_eq ->%Z.eqb_eq]%andb_true_iff ->%Z.eqb_eq]%andb_true_iff.
  intros d R p tps V SM q b o vps SP x Ht Hx He Hq Hc _ _ _. destruct d as [| |kind content| | | | | | | | |]; try done.
  eapply leaf_spec; try done; [|by destruct kind].
  eapply unless_spec; [done|apply CheckTypeKind_spec; [done|]|];
    destruct He as [->|[-> _]]; auto.
Qed.

(** *** Loops *)

Lemma wp_loop {St A} (f : A -> M St unit) (I : nat -> St -> Prop) l s : I 0%nat s ->
  (forall i x s, l !! i = Some x -> I i s -> wp (f x) (fun _ => I (i + 1)%nat) s) ->
  wp (for_each f l) (fun _ => I (length l)) s.
Proof.
  revert I s. induction l as [|x l IH]; intros I s Hs Hf; [done|]. cbn [for_each].
  apply wp_bind. eapply wp_mono; [by apply (Hf 0%nat)|]. intros ? s' Hs'.
  apply (IH (fun n => I (S n)) s' Hs'). intros i y s'' Hy Hi. apply (Hf (S i)); done.
Qed.

Lemma write_parts_zip {A B} (f : A -> B -> M TValueBuilder unit) l k :
  write_parts f l k = for_each (fun xy => f xy.1 xy.2) (zip l k).
Proof. revert k. induction l as [|x l IH]; intros [|y k]; [done..|]. cbn. by rewrite <- IH. Qed.

Lemma take_next {A} (l : list A) i x : l !! i = Some x -> take (i + 1) l = take i l ++ [x].
Proof. rewrite Nat.add_1_r. apply take_S_r. Qed.

(** *** List *)

Definition items_message (l : list Ydb_Value) : Ydb_Value := mkValue VALUE_NOT_SET l [] 0 0.

Section Item.
Context (q : vpath) (V : Ydb_Value) (l : list Ydb_Value) (n : nat) (Hn : length l = n).
Context (Hq : is_Some (get_at q V)).

Lemma item_get r c : get_at (q ++ [VItem n]) (set_at q (items_message (l ++ c :: r)) V) = Some c.
Proof. apply get_part; [done|]. unfold child. cbn. subst n. by rewrite list_lookup_middle. Qed.

Lemma item_set r c c' : set_at (q ++ [VItem n]) c' (set_at q (items_message (l ++ c :: r)) V) =
  set_at q (items_message (l ++ c' :: r)) V.
Proof.
  rewrite (set_part _ _ _ _ c); [|done|unfold child; cbn; subst n; by rewrite list_lookup_middle].
  unfold set_child. cbn. unfold set_items, items_message. cbn. subst n.
  rewrite insert_app_r_alt by lia. by rewrite Nat.sub_diag.
Qed.
End Item.

Lemma AddListItem_spec R p' p tps V SM e1 q b o vps SP t l : get_at p R = Some (kListType t) ->
  get_at q V = Some (items_message l) ->
  VB_AddListItem (st R (p' :: p :: tps) V SM (e1 :: mkBuildPos q b o :: vps) SP) =
  Ok (tt, st R (p' :: p :: tps) (set_at q (items_message (l ++ [EmptyValue])) V) SM
            (mkBuildPos (q ++ [VItem (length l)]) false 0 :: mkBuildPos q b o :: vps) SP).
Proof.
  intros Hp Hq. unfold VB_AddListItem. erewrite bind_Ok by (by apply CheckContainerKind_spec with (kListType t)).
  erewrite bind_Ok by apply PopPath_spec. by erewrite (push_item_spec _ _ _ _ _ (mkBuildPos q b o)) by done.
Qed.

(** The loop over the items of a list, at a type that is known by now. *)
Lemma write_items t l R p tps V SM e1 q b o vps SP : writes t -> forallb (has_type t) l = true ->
  get_at p R = Some (kListType t) -> get_at q V = Some EmptyValue -> cache_ok SM R ->
  Z.of_nat (type_size t) < 2 ^ 32 ->
  wp (for_each (fun d => VB_AddListItem ;; Write t d) l)
    (fun _ s => exists e1 SM', s = st R ((p ++ [SItem]) :: p :: tps) (set_at q (items_message (encode t <$> l)) V)
        SM' (e1 :: mkBuildPos q b o :: vps) SP /\ cache_ok SM' R /\ grown SM SM' p)
    (st R ((p ++ [SItem]) :: p :: tps) V SM (e1 :: mkBuildPos q b o :: vps) SP).
Proof.
  intros W Hl Hp Hq Hc Hz.
  assert (get_at (p ++ [SItem]) R = Some t) as Hi by (by rewrite (get_at_snoc _ _ _ _ Hp)).
  assert (forall v, get_at q (set_at q v V) = Some v) as Hg by (intros; apply get_set_at; by eexists).
  eapply wp_mono; [apply (wp_loop _ (fun i s => exists e1 SM',
    s = st R ((p ++ [SItem]) :: p :: tps) (set_at q (items_message (encode t <$> take i l)) V)
          SM' (e1 :: mkBuildPos q b o :: vps) SP /\ cache_ok SM' R /\ grown SM SM' p))|].
  - exists e1, SM. change (items_message _) with EmptyValue. rewrite (set_at_same _ _ _ Hq). split_and!; [done..|apply grown_refl].
  - intros i d s Hd (e & SM1 & -> & Hc1 & Hg1). eapply wp_call; [by apply (AddListItem_spec _ _ _ _ _ _ _ _ _ _ _ _ t)|].
    rewrite set_set_at.
    eapply wp_mono; [eapply W; [by eapply forallb_elem, list_elem_of_lookup_2|exact Hi|by left| |done..]|].
    + apply item_get; [done|by eexists].
    + intros _ s' (b1 & SM2 & -> & Hc2 & Hg2). rewrite (set_at_same _ _ _ Hi) in *.
      exists (mkBuildPos (q ++ [VItem (length (encode t <$> take i l))]) b1 0), SM2.
      rewrite item_set by (done || by eexists). split_and!; [|done|by eapply grown_trans, prefix_app_r].
      rewrite (take_next _ _ _ Hd), fmap_app. unfold encode_in. by destruct (null_chain d).
  - intros ? s. by rewrite firstn_all.
Qed.

Lemma BeginList_typed_spec t x R p tps V SM e vps SP : get_at p R = Some x -> x = TYPE_NOT_SET \/ x = kListType t ->
  TypesEqual t t = Ok true ->
  VB_BeginList_typed t (st R (p :: tps) V SM (e :: vps) SP) =
  Ok (tt, opened V SM SP e vps x (mkTypeBuilder (set_at p (kListType t) R) ((p ++ [SItem]) :: p :: tps))).
Proof.
  intros Hx Hk He. unfold VB_BeginList_typed. erewrite bind_Ok by (by eapply BeginList_spec).
  assert (exists c, mutable_list_type x = kListType c /\ (c = t \/ c = TYPE_NOT_SET)) as (c & -> & Hc).
  { destruct Hk as [->| ->]; cbn; eauto. }
  unfold opened. erewrite FillType_spec; [|by apply (get_part _ _ _ _ c)|done|done].
  by erewrite set_part.
Qed.

Lemma EndList_spec R p' p tps V SM e1 e0 vps SP t : get_at p R = Some (kListType t) ->
  VB_EndList (st R (p' :: p :: tps) V SM (e1 :: e0 :: vps) SP) = Ok (tt, st R (p :: tps) V SM (e0 :: vps) SP).
Proof.
  intros Hp. unfold VB_EndList. erewrite bind_Ok by (by eapply CheckContainerKind_spec).
  by erewrite bind_Ok by (by eapply CloseContainer_spec).
Qed.

Lemma writes_list t : buildable t = true -> writes t -> writes (kListType t).
Proof.
  intros Hb W d R p tps V SM q b o vps SP x Ht Hx He Hq Hc Ho Hz _. destruct d as [| | | | |l| | | | | |]; try done.
  cbn in Ht, Hz |- *. pose proof (expects_cache _ _ _ _ _ He Hx Hc) as Hc'.
  assert (get_at p (set_at p (kListType t) R) = Some (kListType t)) as Hp by (apply get_set_at; by eexists).
  eapply wp_call; [eapply BeginList_typed_spec; [done|destruct He as [?|[? _]]; auto|by apply TypesEqual_refl]|].
  apply wp_bind. eapply wp_mono; [apply write_items; try done; lia|].
  intros ? s (e1 & SM' & -> & Hc1 & Hg). unfold wp. erewrite EndList_spec by done.
  exists (negb (known x)), SM'. by split_and!.
Qed.

(** *** Dict *)

Definition pairs_message (l : list (Ydb_Value * Ydb_Value)) : Ydb_Value := mkValue VALUE_NOT_SET [] l 0 0.

Lemma alter_last {A} n (f : A -> A) (k : list A) x : length k = n -> alter f n (k ++ [x]) = k ++ [f x].
Proof. intros <-. rewrite <- (Nat.add_0_r (length k)). by rewrite alter_app_r. Qed.

Section Pair.
Context (q : vpath) (V : Ydb_Value) (l : list (Ydb_Value * Ydb_Value)) (n : nat) (Hn : length l = n).
Context (Hq : is_Some (get_at q V)).

Lemma key_get c c' : get_at (q ++ [VKey n]) (set_at q (pairs_message (l ++ [(c, c')])) V) = Some c.
Proof. apply get_part; [done|]. unfold child. cbn. subst n. by rewrite list_lookup_middle. Qed.
Lemma payload_get c c' : get_at (q ++ [VPayload n]) (set_at q (pairs_message (l ++ [(c, c')])) V) = Some c'.
Proof. apply get_part; [done|]. unfold child. cbn. subst n. by rewrite list_lookup_middle. Qed.

Lemma key_set c c' v : set_at (q ++ [VKey n]) v (set_at q (pairs_message (l ++ [(c, c')])) V) =
  set_at q (pairs_message (l ++ [(v, c')])) V.
Proof.
  rewrite (set_part _ _ _ _ c); [|done|unfold child; cbn; subst n; by rewrite list_lookup_middle].
  unfold set_child. cbn. by rewrite alter_last.
Qed.
Lemma payload_set c c' v : set_at (q ++ [VPayload n]) v (set_at q (pairs_message (l ++ [(c, c')])) V) =
  set_at q (pairs_message (l ++ [(c, v)])) V.
Proof.
  rewrite (set_part _ _ _ _ c'); [|done|unfold child; cbn; subst n; by rewrite list_lookup_middle].
  unfold set_child. cbn. by rewrite alter_last.
Qed.
End Pair.

Section DictCalls.
Context (R : Ydb_Type) (p' p : tpath) (tps : list tpath) (V : Ydb_Value) (SM : list (tpath * TMembersMap)).
Context (e1 : TBuildPosition) (q : vpath) (b : bool) (o : Z) (vps : list TBuildPosition) (SP : list TStructPosition).
Context (k t : Ydb_Type) (Hp : get_at p R = Some (kDictType k t)).

Lemma TB_DictKey_spec vps' : on_tb TB_DictKey (st R (p' :: p :: tps) V SM vps' SP) =
  Ok (tt, st R ((p ++ [SKey]) :: p :: tps) V SM vps' SP).
Proof.
  unfold on_tb, TB_DictKey. cbn [TypeBuilder_].
  by erewrite bind_Ok by (by eapply CheckPreviousKind_spec).
Qed.
Lemma TB_DictPayload_spec vps' : on_tb TB_DictPayload (st R (p' :: p :: tps) V SM vps' SP) =
  Ok (tt, st R ((p ++ [SPayload]) :: p :: tps) V SM vps' SP).
Proof.
  unfold on_tb, TB_DictPayload. cbn [TypeBuilder_].
  by erewrite bind_Ok by (by eapply CheckPreviousKind_spec).
Qed.

Lemma AddDictItem_spec l : get_at q V = Some (pairs_message l) ->
  VB_AddDictItem (st R (p' :: p :: tps) V SM (e1 :: mkBuildPos q b o :: vps) SP) =
  Ok (tt, st R (p' :: p :: tps) (set_at q (pairs_message (l ++ [(EmptyValue, EmptyValue)])) V) SM
            (mkBuildPos q false 0 :: mkBuildPos q b o :: vps) SP).
Proof.
  intros Hq. unfold VB_AddDictItem. erewrite bind_Ok by (by eapply CheckContainerKind_spec).
  erewrite bind_Ok by apply PopPath_spec.
  by erewrite bind_Ok by (by apply (put_spec _ _ _ _ _ (mkBuildPos q b o))).
Qed.

Lemma last_pair_spec B l x : get_at q V = Some (pairs_message (l ++ [x])) ->
  VB_last_pair (mkValueBuilder B V SM (mkBuildPos q b o :: vps) SP) =
  Ok (length l, mkValueBuilder B V SM (mkBuildPos q b o :: vps) SP).
Proof. intros Hq. unfold VB_last_pair, VB_GetValue. run. rewrite Hq. cbn. by rewrite length_app, Nat.add_1_r. Qed.

Lemma DictKey_spec l x : get_at q V = Some (pairs_message (l ++ [x])) ->
  VB_DictKey (st R (p' :: p :: tps) V SM (e1 :: mkBuildPos q b o :: vps) SP) =
  Ok (tt, st R ((p ++ [SKey]) :: p :: tps) V SM
            (mkBuildPos (q ++ [VKey (length l)]) false 0 :: mkBuildPos q b o :: vps) SP).
Proof.
  intros Hq. unfold VB_DictKey. erewrite bind_Ok by (by eapply CheckContainerKind_spec).
  erewrite bind_Ok by apply PopPath_spec. erewrite bind_Ok by apply TB_DictKey_spec.
  by erewrite bind_Ok by (by eapply last_pair_spec).
Qed.

Lemma DictPayload_spec l x : get_at q V = Some (pairs_message (l ++ [x])) ->
  VB_DictPayload (st R (p' :: p :: tps) V SM (e1 :: mkBuildPos q b o :: vps) SP) =
  Ok (tt, st R ((p ++ [SPayload]) :: p :: tps) V SM
            (mkBuildPos (q ++ [VPayload (length l)]) false 0 :: mkBuildPos q b o :: vps) SP).
Proof.
  intros Hq. unfold VB_DictPayload. erewrite bind_Ok by (by eapply CheckContainerKind_spec).
  erewrite bind_Ok by apply PopPath_spec. erewrite bind_Ok by apply TB_DictPayload_spec.
  by erewrite bind_Ok by (by eapply last_pair_spec).
Qed.

Lemma EndDict_spec e0 : VB_EndDict (st R (p' :: p :: tps) V SM (e1 :: e0 :: vps) SP) =
  Ok (tt, st R (p :: tps) V SM (e0 :: vps) SP).
Proof.
  unfold VB_EndDict. erewrite bind_Ok by (by eapply CheckContainerKind_spec).
  erewrite bind_Ok by apply PopPath_spec. by eapply CloseContainer_spec.
Qed.
End DictCalls.

Lemma BeginDict_typed_spec k t x R p tps V SM e vps SP : get_at p R = Some x ->
  x = TYPE_NOT_SET \/ x = kDictType k t -> TypesEqual k k = Ok true -> TypesEqual t t = Ok true ->
  VB_BeginDict_typed k t (st R (p :: tps) V SM (e :: vps) SP) =
  Ok (tt, opened V SM SP e vps x (mkTypeBuilder (set_at p (kDictType k t) R) (p :: p :: tps))).
Proof.
  intros Hx Hk Ek Et. unfold VB_BeginDict_typed. erewrite bind_Ok by (by eapply BeginDict_spec).
  assert (is_Some (get_at p R)) as Hp by (by eexists).
  assert (exists c c', mutable_dict_type x = kDictType c c' /\ (c = k \/ c = TYPE_NOT_SET) /\
    (c' = t \/ c' = TYPE_NOT_SET)) as (c & c' & -> & Hc & Hc').
  { destruct Hk as [->| ->]; cbn; eauto 10. }
  unfold opened. erewrite bind_Ok by (eapply TB_DictKey_spec; by apply get_set_at).
  erewrite bind_Ok by (eapply FillType_spec; [by apply (get_part _ _ _ _ c)|done|done]).
  erewrite set_part by done. unfold set_child. cbn [type_tree].
  erewrite bind_Ok by (eapply TB_DictPayload_spec; by apply get_set_at).
  erewrite bind_Ok by (eapply FillType_spec; [by apply (get_part _ _ _ _ c')|done|done]).
  erewrite set_part by done. unfold set_child. cbn [type_tree].
  erewrite bind_Ok by (eapply CloseContainer_spec; [by apply get_set_at|done]).
  unfold TB_BeginDict, on_tb. cbn [TypeBuilder_].
  erewrite bind_Ok by (apply TB_put_spec; by apply get_set_at). cbn. by rewrite set_set_at.
Qed.

Lemma write_pairs k t l R p p' tps V SM e1 q b o vps SP : writes k -> writes t ->
  forallb (fun kp => has_type k kp.1 && has_type t kp.2)%bool l = true ->
  get_at p R = Some (kDictType k t) -> get_at q V = Some EmptyValue -> cache_ok SM R ->
  Z.of_nat (type_size k) < 2 ^ 32 -> Z.of_nat (type_size t) < 2 ^ 32 ->
  wp (for_each (fun kp => VB_AddDictItem ;; VB_DictKey ;; Write k kp.1 ;; VB_DictPayload ;; Write t kp.2) l)
    (fun _ s => exists p' e1 SM', s = st R (p' :: p :: tps)
        (set_at q (pairs_message ((fun kp => (encode k kp.1, encode t kp.2)) <$> l)) V)
        SM' (e1 :: mkBuildPos q b o :: vps) SP /\ cache_ok SM' R /\ grown SM SM' p)
    (st R (p' :: p :: tps) V SM (e1 :: mkBuildPos q b o :: vps) SP).
Proof.
  intros Wk Wt Hl Hp Hq Hc Hzk Hzt.
  assert (get_at (p ++ [SKey]) R = Some k) as Hik by (by rewrite (get_at_snoc _ _ _ _ Hp)).
  assert (get_at (p ++ [SPayload]) R = Some t) as Hit by (by rewrite (get_at_snoc _ _ _ _ Hp)).
  assert (forall v, get_at q (set_at q v V) = Some v) as Hg by (intros; apply get_set_at; by eexists).
  assert (is_Some (get_at q V)) as Hq' by (by eexists).
  eapply wp_mono; [apply (wp_loop _ (fun i s => exists p' e1 SM', s = st R (p' :: p :: tps)
        (set_at q (pairs_message ((fun kp => (encode k kp.1, encode t kp.2)) <$> take i l)) V)
        SM' (e1 :: mkBuildPos q b o :: vps) SP /\ cache_ok SM' R /\ grown SM SM' p))|].
  - exists p', e1, SM. change (pairs_message _) with EmptyValue. rewrite (set_at_same _ _ _ Hq).
    split_and!; [done..|apply grown_refl].
  - intros i [dk dt] s Hd (pe & e & SM1 & -> & Hc1 & Hg1). cbn [fst snd].
    pose proof (forallb_elem _ _ _ Hl (list_elem_of_lookup_2 _ _ _ Hd)) as [Hk Ht]%andb_true_iff.
    eapply wp_call; [by eapply AddDictItem_spec|]. rewrite set_set_at.
    eapply wp_call; [by eapply DictKey_spec|].
    apply wp_bind. eapply wp_mono; [eapply Wk; [done|exact Hik|by left|by apply key_get|done..]|].
    intros ? s' (b1 & SM2 & -> & Hc2 & Hg2). rewrite (set_at_same _ _ _ Hik), key_set in * by done.
    eapply wp_call; [by eapply DictPayload_spec|].
    eapply wp_mono; [eapply Wt; [done|exact Hit|by left|by apply payload_get|done..]|].
    intros ? s' (b2 & SM3 & -> & Hc3 & Hg3). rewrite (set_at_same _ _ _ Hit), payload_set in * by done.
    eexists _, _, SM3. split_and!; [|done|].
    + rewrite (take_next _ _ _ Hd), fmap_app. unfold encode_in. by destruct (null_chain dk), (null_chain dt).
    + eapply grown_trans; [eapply grown_trans; [exact Hg1|exact Hg2|]|exact Hg3|]; apply prefix_app_r; done.
  - intros ? s. by rewrite firstn_all.
Qed.

Lemma writes_dict k t : buildable k = true -> buildable t = true -> writes k -> writes t -> writes (kDictType k t).
Proof.
  intros Hbk Hbt Wk Wt d R p tps V SM q b o vps SP x Ht Hx He Hq Hc Ho Hz _.
  destruct d as [| | | | | | | |l| | |]; try done.
  cbn in Ht, Hz |- *. pose proof (expects_cache _ _ _ _ _ He Hx Hc) as Hc'.
  assert (get_at p (set_at p (kDictType k t) R) = Some (kDictType k t)) as Hp by (apply get_set_at; by eexists).
  eapply wp_call; [eapply BeginDict_typed_spec; [done|destruct He as [?|[? _]]; auto|by apply TypesEqual_refl..]|].
  apply wp_bind. eapply wp_mono; [apply write_pairs; try done; lia|].
  intros ? s (pe & e1 & SM' & -> & Hc1 & Hg). unfold wp. erewrite EndDict_spec by done.
  exists (negb (known x)), SM'. by split_and!.
Qed.

(** *** Tagged *)

Lemma grown_weaken SM SM' p x : grown SM SM' (p ++ [x]) -> grown SM SM' p.
Proof. intros Hg. eapply grown_trans; [apply grown_refl|exact Hg|by apply prefix_app_r]. Qed.

(** The part of a node whose type is known exactly if the node's is. *)
Lemma expects_part SM R p w y x t a : get_at p R = Some x -> expects SM p w x -> cache_ok SM R ->
  child y a = Some (if known x then t else TYPE_NOT_SET) -> (x = w -> y = w) -> known w = true ->
  cache_ok SM (set_at p y R) /\ expects SM (p ++ [a]) t (if known x then t else TYPE_NOT_SET).
Proof.
  intros Hx He Hc Hy Hw Hkw. destruct He as [->|[-> Ha]].
  - rewrite (Hw eq_refl), (set_at_same _ _ _ Hx), Hkw. split; [done|by left].
  - assert (cache_ok SM (set_at p y R)) as Hc' by (by apply cache_ok_fresh). split; [done|]. right. split; [done|].
    eapply apart_child; [done|done|]. apply get_part; [by eexists|done].
Qed.

Lemma EndTagged_spec R p' p tps V SM e1 e0 vps SP g t : get_at p R = Some (kTaggedType g t) ->
  VB_EndTagged (st R (p' :: p :: tps) V SM (e1 :: e0 :: vps) SP) = Ok (tt, st R (p :: tps) V SM (e0 :: vps) SP).
Proof.
  intros Hp. unfold VB_EndTagged. erewrite bind_Ok by (by eapply CheckContainerKind_spec).
  erewrite bind_Ok by apply PopPath_spec. by eapply CloseContainer_spec.
Qed.

Lemma writes_tagged g t : writes t -> writes (kTaggedType g t).
Proof.
  intros W d R p tps V SM q b o vps SP x Ht Hx He Hq Hc Ho Hz _. destruct d as [| | | | | | | | | |g' d|]; try done.
  cbn in Ht, Hz |- *. apply andb_true_iff in Ht as [_ Ht].
  assert (is_Some (get_at p R)) as Hp by (by eexists).
  eapply wp_call; [eapply BeginTagged_spec with (t := t); [done|destruct He as [?|[? _]]; auto]|].
  destruct (expects_part SM R p _ (kTaggedType g (if known x then t else TYPE_NOT_SET)) x t SItem Hx He Hc)
    as [Hc' He']; [done| |done|].
  { intros ->. done. }
  apply wp_bind. eapply wp_mono; [eapply W; [done|by apply get_part|exact He'|exact Hq|done|done|lia|done]|].
  intros ? s (b1 & SM' & -> & Hc1 & Hg). erewrite set_part in * by done. unfold set_child in *. cbn [type_tree] in *.
  unfold wp. erewrite EndTagged_spec by (by apply get_set_at).
  exists (negb (known x)), SM'. split_and!; [|done|by eapply grown_weaken].
  unfold encode_in. by destruct (null_chain d).
Qed.

(** *** Optional *)

(** The positions inside of an optional: the value's position is entered for the
    outermost one only. *)
Definition in_optional (q : vpath) (b : bool) (o : Z) (vps : list TBuildPosition) : list TBuildPosition :=
  if o =? 0 then mkBuildPos q b 0 :: vps else vps.

Lemma BeginOptional_spec x t R p tps V SM q b o vps SP : get_at p R = Some x ->
  x = TYPE_NOT_SET \/ x = kOptionalType t -> 0 <= o -> o + 1 < 2 ^ 32 ->
  exists b', VB_BeginOptional (st R (p :: tps) V SM (mkBuildPos q b o :: vps) SP) =
  Ok (tt, st (set_at p (mutable_optional_type x) R) ((p ++ [SItem]) :: p :: tps) V SM
            (mkBuildPos q b' (o + 1) :: in_optional q (negb (known x)) o vps) SP).
Proof.
  intros Hx Hk Ho Hz. unfold VB_BeginOptional, in_optional.
  assert (x = TYPE_NOT_SET \/ GetKind x = Ok Optional) as Hk' by (destruct Hk as [->| ->]; auto).
  erewrite bind_Ok by (by apply CheckTypeKind_spec).
  assert (forall vps', on_tb TB_BeginOptional (st R (p :: tps) V SM vps' SP) =
    Ok (tt, st (set_at p (mutable_optional_type x) R) ((p ++ [SItem]) :: p :: tps) V SM vps' SP)) as Hb.
  { intros vps'. unfold TB_BeginOptional, on_tb. cbn [TypeBuilder_]. by erewrite bind_Ok by (by apply TB_put_spec). }
  do 2 (erewrite bind_Ok by reflexivity). cbn [OptLevel]. destruct (o =? 0) eqn:E; cbn [when];
    (erewrite bind_Ok by reflexivity); erewrite bind_Ok by apply Hb; cbn.
  - apply Z.eqb_eq in E as ->. by eexists.
  - unfold wrapU. rewrite Z.mod_small by lia. by eexists.
Qed.

Lemma EndOptional_spec t R p p' tps V SM q b b0 o vps SP : get_at p R = Some (kOptionalType t) -> 0 <= o ->
  o + 1 < 2 ^ 32 -> (0 < o -> vps <> []) ->
  exists b', VB_EndOptional (st R (p' :: p :: tps) V SM (mkBuildPos q b (o + 1) :: in_optional q b0 o vps) SP) =
  Ok (tt, st R (p :: tps) V SM (mkBuildPos q b' o :: vps) SP).
Proof.
  intros Hp Ho Hz Hv. unfold VB_EndOptional, in_optional.
  assert (u32 (o + 1 + -1) = o) as Hu by (unfold wrapU; rewrite Z.mod_small; lia).
  destruct (o =? 0) eqn:E.
  - apply Z.eqb_eq in E as ->. exists b0.
    erewrite bind_Ok by (by eapply CheckContainerKind_spec).
    by erewrite bind_Ok by (by eapply CloseContainer_spec).
  - apply Z.eqb_neq in E. destruct vps as [|e vps]; [by destruct Hv; [lia|]|]. exists b.
    erewrite bind_Ok by (by eapply CheckContainerKind_spec).
    erewrite bind_Ok by (by eapply CloseContainer_spec). run.
    rewrite (proj2 (Z.eqb_neq (o + 1) 0)) by lia. cbn. rewrite Hu.
    by rewrite (proj2 (Z.eqb_neq o 0)) by lia.
Qed.

Lemma nested_times_in n v : nested_times n (message_of (kNestedValue v)) = message_of (kNestedValue (nested_times n v)).
Proof. induction n as [|n IH]; [done|]. cbn. by rewrite IH. Qed.

Lemma nest_spec n f R tps V SM e vps SP : get_at (BValue e) V = Some EmptyValue ->
  exists s vps', nest n (st R tps V SM (e :: vps) SP) = Ok (tt, s) /\ length vps' = n /\
    VB_put f s = Ok (tt, st R tps (set_at (BValue e) (nested_times n (f EmptyValue)) V) SM (vps' ++ e :: vps) SP).
Proof.
  revert V e vps. induction n as [|n IH]; intros V e vps Hv.
  { eexists _, []. split_and!; [done..|]. by erewrite put_spec. }
  cbn [nest]. erewrite bind_Ok by (by apply put_spec).
  destruct (IH (set_at (BValue e) (message_of (kNestedValue EmptyValue)) V)
    (mkBuildPos (BValue e ++ [VNested]) false 0) (e :: vps)) as (s & vps' & E1 & E2 & E3).
  { apply get_part; [by eexists|done]. }
  exists s, (vps' ++ [mkBuildPos (BValue e ++ [VNested]) false 0]). split_and!; [done| |].
  - rewrite length_app, E2. apply Nat.add_1_r.
  - rewrite E3. cbn [BValue]. rewrite (set_part _ _ _ _ EmptyValue); [|by eexists|done].
    by rewrite <- app_assoc.
Qed.

Lemma pop_times_spec B V SM vps' vps SP :
  pop_times (length vps') (mkValueBuilder B V SM (vps' ++ vps) SP) = Ok (tt, mkValueBuilder B V SM vps SP).
Proof. induction vps' as [|e vps' IH]; [done|]. cbn [pop_times length app]. by erewrite bind_Ok by apply PopPath_spec. Qed.

Lemma NestEmptyOptional_spec R tps V SM q b o vps SP : get_at q V = Some EmptyValue -> 0 <= o < 2 ^ 32 ->
  NestEmptyOptional (st R tps V SM (mkBuildPos q b (o + 1) :: vps) SP) =
  Ok (tt, st R tps (set_at q (nested_times (Z.to_nat o) (message_of kNullFlagValue)) V) SM
            (mkBuildPos q b (o + 1) :: vps) SP).
Proof.
  intros Hq Ho. unfold NestEmptyOptional. erewrite bind_Ok by reflexivity. cbn [OptLevel]. cbv zeta.
  replace (u32 (o + 1 - 1)) with o by (unfold wrapU; rewrite Z.mod_small; lia).
  destruct (nest_spec (Z.to_nat o) (set_value kNullFlagValue) R tps V SM (mkBuildPos q b (o + 1)) vps SP Hq)
    as (s & vps' & E1 & E2 & E3).
  rewrite (bind_Ok _ _ _ _ _ E1), (bind_Ok _ _ _ _ _ E3), <- E2. apply pop_times_spec.
Qed.

Lemma mutable_optional_known x t : x = kOptionalType t \/ x = TYPE_NOT_SET ->
  mutable_optional_type x = kOptionalType (if known x then t else TYPE_NOT_SET).
Proof. by intros [->| ->]. Qed.

Lemma encode_in_just o t d : 0 <= o -> encode_in (o + 1) t d = encode_in o (kOptionalType t) (DJust d).
Proof.
  intros Ho. unfold encode_in. cbn. destruct (null_chain d); [|done].
  by rewrite nested_times_in, Z.add_1_r, Z2Nat.inj_succ by lia.
Qed.

Lemma writes_optional t : buildable t = true -> writes t -> writes (kOptionalType t).
Proof.
  intros Hb W d R p tps V SM q b o vps SP x Ht Hx He Hq Hc Ho Hz Hv.
  assert (type_size (kOptionalType t) = S (S (type_size t))) as Es by done. rewrite Es in Hz. clear Es.
  assert (is_Some (get_at p R)) as Hp by (by eexists).
  assert (x = kOptionalType t \/ x = TYPE_NOT_SET) as Hk by (destruct He as [?|[? _]]; auto).
  destruct (BeginOptional_spec x t R p tps V SM q b o vps SP) as [b1 E1]; [done|tauto|lia|lia|].
  rewrite (mutable_optional_known x t Hk) in E1.
  destruct (expects_part SM R p _ (kOptionalType (if known x then t else TYPE_NOT_SET)) x t SItem Hx He Hc)
    as [Hc' He']; [done| |done|].
  { intros ->. done. }
  assert (get_at p (set_at p (kOptionalType t) R) = Some (kOptionalType t)) as Hp' by (by apply get_set_at).
  destruct d as [| | | |d| | | | | | |]; try done; cbn [Write].
  - unfold VB_EmptyOptional_typed, VB_BeginOptional_typed. eapply wp_call.
    { erewrite bind_Ok by exact E1. eapply FillType_spec; [by apply get_part| |by apply TypesEqual_refl].
      destruct (known x); auto. }
    erewrite set_part by done. unfold set_child. cbn [type_tree].
    eapply wp_call; [apply NestEmptyOptional_spec; [done|lia]|].
    edestruct (EndOptional_spec t) as [b2 E2]; [exact Hp'|exact Ho|lia|exact Hv|].
    unfold wp. rewrite E2. exists b2, SM. split_and!; [done|by eapply expects_cache|apply grown_refl].
  - eapply wp_call; [exact E1|]. apply wp_bind.
    eapply wp_mono; [eapply W; [done|by apply get_part|exact He'|exact Hq|done|lia|lia|]|].
    { intros _. unfold in_optional. destruct (o =? 0) eqn:E; [done|]. apply Z.eqb_neq in E. apply Hv. lia. }
    intros ? s (b2 & SM' & -> & Hc1 & Hg). erewrite set_part in * by done. unfold set_child in *. cbn [type_tree] in *.
    edestruct (EndOptional_spec t) as [b3 E3]; [exact Hp'|exact Ho|lia|exact Hv|].
    unfold wp. rewrite E3. exists b3, SM'. rewrite encode_in_just by done.
    split_and!; [done|done|by eapply grown_weaken].
Qed.

(** *** Tuple *)

Lemma map2_zip {A B C} (f : A -> B -> C) l k : map2 f l k = (fun xy => f xy.1 xy.2) <$> zip l k.
Proof. revert k. induction l as [|x l IH]; intros [|y k]; [done..|]. cbn. by rewrite <- IH. Qed.

Lemma all2_zip {A B} (f : A -> B -> bool) l k i x y : all2 f l k = true -> zip l k !! i = Some (x, y) ->
  l !! i = Some x /\ k !! i = Some y /\ f x y = true.
Proof.
  revert k i. induction l as [|a l IH]; intros [|c k] [|i] Hf E; try done; cbn in Hf, E;
    apply andb_true_iff in Hf as [Hx Hf]; [by injection E as -> ->|by apply (IH k i)].
Qed.

Lemma insert_last {A} (l : list A) x y : <[length l := y]> (l ++ [x]) = l ++ [y].
Proof. rewrite insert_app_r_alt by lia. by rewrite Nat.sub_diag. Qed.

Lemma AddElement_spec R p' p tps V SM e1 q b o vps SP ts l : get_at p R = Some (kTupleType ts) ->
  get_at q V = Some (items_message l) -> (if b : bool then length l = length ts else length l < length ts)%nat ->
  VB_AddElement (st R (p' :: p :: tps) V SM (e1 :: mkBuildPos q b o :: vps) SP) =
  Ok (tt, st (if b then set_at p (kTupleType (ts ++ [TYPE_NOT_SET])) R else R)
            ((p ++ [SElement (length l)]) :: p :: tps) (set_at q (items_message (l ++ [EmptyValue])) V) SM
            (mkBuildPos (q ++ [VItem (length l)]) false 0 :: mkBuildPos q b o :: vps) SP).
Proof.
  intros Hp Hq Hl. unfold VB_AddElement. erewrite bind_Ok by (by eapply CheckContainerKind_spec).
  erewrite bind_Ok by apply PopPath_spec. erewrite bind_Ok by reflexivity. cbn [BuildType].
  destruct b.
  - rewrite (bind_Ok _ _ _ tt (st (set_at p (kTupleType (ts ++ [TYPE_NOT_SET])) R)
      ((p ++ [SElement (length l)]) :: p :: tps) V SM (mkBuildPos q true o :: vps) SP)).
    + by erewrite (push_item_spec _ _ _ _ _ (mkBuildPos q true o)) by done.
    + rewrite Hl. unfold on_tb, TB_AddElement. cbn [TypeBuilder_]. erewrite bind_Ok by (by eapply CheckPreviousKind_spec).
      unfold TB_GetProto. run. rewrite Hp. cbn. by erewrite TB_put_spec.
  - rewrite (bind_Ok _ _ _ tt (st R
      ((p ++ [SElement (length l)]) :: p :: tps) V SM (mkBuildPos q false o :: vps) SP)).
    + by erewrite (push_item_spec _ _ _ _ _ (mkBuildPos q false o)) by done.
    + unfold VB_GetValue, VB_GetType, on_tb, TB_GetProto. run. rewrite Hq. run. rewrite Hp. cbn [elements_size].
      rewrite (proj2 (Nat.leb_gt _ _)) by done. unfold TB_SelectElement. cbn [TypeBuilder_].
      erewrite bind_Ok by (by eapply CheckPreviousKind_spec). erewrite bind_Ok by reflexivity.
      erewrite bind_Ok by (by apply TB_GetProto_spec). cbv beta iota. by rewrite (proj2 (Nat.ltb_lt _ _)) by done.
Qed.

Lemma EndTuple_spec R p' p tps V SM e1 q b o vps SP ts l : get_at p R = Some (kTupleType ts) ->
  get_at q V = Some (items_message l) -> length l = length ts ->
  VB_EndTuple (st R (p' :: p :: tps) V SM (e1 :: mkBuildPos q b o :: vps) SP) =
  Ok (tt, st R (p :: tps) V SM (mkBuildPos q b o :: vps) SP).
Proof.
  intros Hp Hq Hl. unfold VB_EndTuple. erewrite bind_Ok by (by eapply CheckContainerKind_spec).
  erewrite bind_Ok by apply PopPath_spec. erewrite bind_Ok by (by eapply CloseContainer_spec).
  erewrite bind_Ok by reflexivity. destruct b; [done|]. cbn [BuildType].
  unfold VB_GetValue, VB_GetType, on_tb, TB_GetProto. run. rewrite Hp. run. rewrite Hq. cbn. by rewrite Hl, Nat.eqb_refl.
Qed.

(** The node of a tuple of which [i] elements were written. *)
Definition tuple_upto (x : Ydb_Type) (ts : list Ydb_Type) (i : nat) : Ydb_Type :=
  kTupleType (if known x then ts else take i ts).

Lemma tuple_next SM R p x ts i t : get_at p R = Some x -> expects SM p (kTupleType ts) x -> ts !! i = Some t ->
  let y := if known x then kTupleType ts else kTupleType (take i ts ++ [TYPE_NOT_SET]) in
  cache_ok SM (set_at p (tuple_upto x ts i) R) ->
  cache_ok SM (set_at p y R) /\
  get_at (p ++ [SElement i]) (set_at p y R) = Some (if known x then t else TYPE_NOT_SET) /\
  expects SM (p ++ [SElement i]) t (if known x then t else TYPE_NOT_SET) /\
  set_at (p ++ [SElement i]) t (set_at p y R) = set_at p (tuple_upto x ts (i + 1)) R.
Proof.
  intros Hx He Ht y Hc. assert (is_Some (get_at p R)) as Hp by (by eexists).
  assert (length (take i ts) = i) as Hi.
  { apply lookup_lt_Some in Ht. rewrite length_take. lia. }
  unfold tuple_upto in *. subst y. destruct He as [->|[-> Ha]]; cbn [known] in *.
  - split_and!; [done|by apply get_part|by left|].
    erewrite set_part by done. unfold set_child. cbn. by rewrite list_insert_id.
  - assert (cache_ok SM (set_at p (kTupleType (take i ts ++ [TYPE_NOT_SET])) R)) as Hc'.
    { rewrite <- (set_set_at _ _ (kTupleType (take i ts))).
      eapply cache_ok_set; [done|done|by apply get_set_at|]. intros [] c; try done. apply lookup_app_l_Some. }
    assert (child (kTupleType (take i ts ++ [TYPE_NOT_SET])) (SElement i) = Some TYPE_NOT_SET) as Hy.
    { unfold child. cbn. by apply list_lookup_middle. }
    split_and!; [done|by apply get_part| |].
    + right. split; [done|]. eapply apart_child; [done|done|]. by apply get_part.
    + erewrite set_part by done. unfold set_child. cbn. rewrite (take_next _ _ _ Ht).
      rewrite <- Hi at 1. by rewrite insert_last.
Qed.

Lemma sum_list_elem {A} (f : A -> nat) l x : x ∈ l -> (f x <= sum_list_with f l)%nat.
Proof. induction 1; cbn; lia. Qed.

Lemma write_elements ts l R p tps V SM e1 q o vps SP x : (forall t, t ∈ ts -> writes t) -> all2 has_type ts l = true ->
  get_at p R = Some x -> expects SM p (kTupleType ts) x -> get_at q V = Some EmptyValue ->
  cache_ok SM (set_at p (tuple_upto x ts 0) R) -> Z.of_nat (type_size (kTupleType ts)) < 2 ^ 32 ->
  wp (write_parts (fun t d => VB_AddElement ;; Write t d) ts l)
    (fun _ s => exists p' e1 SM', s = st (set_at p (kTupleType ts) R) (p' :: p :: tps)
        (set_at q (items_message (map2 encode ts l)) V)
        SM' (e1 :: mkBuildPos q (negb (known x)) o :: vps) SP /\
        cache_ok SM' (set_at p (kTupleType ts) R) /\ grown SM SM' p)
    (st (set_at p (tuple_upto x ts 0) R) (p :: p :: tps) V SM (e1 :: mkBuildPos q (negb (known x)) o :: vps) SP).
Proof.
  intros W Hl Hx He Hq Hc Hz. rewrite write_parts_zip.
  assert (length (zip ts l) = length ts) as Hlen by (rewrite length_zip_with, (all2_length _ _ _ Hl); lia).
  eapply wp_mono; [apply (wp_loop _ (fun i s => exists p' e1 SM',
    s = st (set_at p (tuple_upto x ts i) R) (p' :: p :: tps)
          (set_at q (items_message ((fun td => encode td.1 td.2) <$> take i (zip ts l))) V)
          SM' (e1 :: mkBuildPos q (negb (known x)) o :: vps) SP /\
    cache_ok SM' (set_at p (tuple_upto x ts i) R) /\ grown SM SM' p /\ expects SM' p (kTupleType ts) x))|].
  - exists p, e1, SM. change (items_message _) with EmptyValue. rewrite (set_at_same _ _ _ Hq).
    split_and!; [done..|apply grown_refl|done].
  - intros i [t d] s Hd (pe & e & SM1 & -> & Hc1 & Hg1 & He1). cbn [fst snd].
    destruct (all2_zip _ _ _ _ _ _ Hl Hd) as (Ht & _ & Hty). pose proof (list_elem_of_lookup_2 _ _ _ Ht) as Hin.
    pose proof (lookup_lt_Some _ _ _ Ht) as Hlt.
    assert (length ((fun td => encode td.1 td.2) <$> take i (zip ts l)) = i) as Hi.
    { rewrite length_fmap, length_take. lia. }
    eapply wp_call; [eapply AddElement_spec; [apply get_set_at; by eexists|apply get_set_at; by eexists|]|].
    { rewrite Hi. destruct (known x); cbn; [done|]. rewrite length_take. lia. }
    rewrite Hi, (set_set_at q). destruct (tuple_next SM1 R p x ts i t Hx He1 Ht Hc1) as (Hc2 & Hg2 & He2 & Hs).
    match goal with |- context [st ?r _ _ _ _ _] => replace r with (set_at p
      (if known x then kTupleType ts else kTupleType (take i ts ++ [TYPE_NOT_SET])) R)
      by (unfold tuple_upto; destruct (known x); cbn; by rewrite ?set_set_at) end.
    eapply wp_mono; [eapply (W _ Hin); [done|exact Hg2|exact He2| |done|done| |done]|].
    { apply item_get; [done|]. by eexists. }
    { pose proof (sum_list_elem (fun t => S (type_size t)) ts t Hin) as Hsum. cbn [type_size] in Hz. cbv beta in Hsum. lia. }
    intros ? s (b1 & SM2 & -> & Hc3 & Hg3). rewrite Hs, item_set in * by (done || by eexists).
    eexists _, _, SM2. split_and!; [|done|by eapply grown_trans, prefix_app_r|].
    + rewrite (take_next _ _ _ Hd), fmap_app. unfold encode_in. by destruct (null_chain d).
    + destruct He1 as [?|[? Ha]]; [by left|right]. split; [done|]. by eapply grown_apart.
  - intros ? s (p' & e & SM' & -> & Hc' & Hg & _). exists p', e, SM'.
    assert (tuple_upto x ts (length (zip ts l)) = kTupleType ts) as Eu.
    { unfold tuple_upto. rewrite Hlen, firstn_all. by destruct (known x). }
    rewrite Eu in Hc' |- *. by rewrite firstn_all, (map2_zip encode).
Qed.

Lemma writes_tuple ts : (forall t, t ∈ ts -> writes t) -> writes (kTupleType ts).
Proof.
  intros W d R p tps V SM q b o vps SP x Ht Hx He Hq Hc Ho Hz _. destruct d as [| | | | | |l| | | | |]; try done.
  cbn [has_type Write] in *.
  assert (mutable_tuple_type x = tuple_upto x ts 0) as Em by (by destruct He as [->|[-> _]]).
  assert (cache_ok SM (set_at p (tuple_upto x ts 0) R)) as Hc'.
  { destruct He as [->|[-> Ha]]; [|by apply cache_ok_fresh]. unfold tuple_upto. cbn [known].
    by rewrite (set_at_same _ _ _ Hx). }
  eapply wp_call; [eapply BeginTuple_spec with (l := ts); [done|destruct He as [?|[? _]]; auto]|].
  rewrite Em. apply wp_bind. eapply wp_mono; [apply write_elements; try done; lia|].
  intros ? s (pe & e1 & SM' & -> & Hc1 & Hg). unfold wp.
  erewrite EndTuple_spec; [|apply get_set_at; by eexists..|].
  - exists (negb (known x)), SM'. by split_and!.
  - rewrite (map2_zip encode), length_fmap, length_zip_with, (all2_length _ _ _ Ht). lia.
Qed.

(** *** Struct *)

Lemma GetMembersMap_spec R p ms B V SM vps SP : get_at p R = Some (kStructType ms) -> cache_ok SM R ->
  exists SM', GetMembersMap p ms (mkValueBuilder B V SM vps SP) = Ok (members_map ms, mkValueBuilder B V SM' vps SP) /\
    cache_ok SM' R /\ grown SM SM' p.
Proof.
  intros Hp Hc. unfold GetMembersMap. erewrite bind_Ok by reflexivity. cbn [StructsMap_].
  destruct (find _ SM) as [e|] eqn:E.
  - apply find_some in E as [He%list_elem_of_In Ee%bool_decide_eq_true].
    destruct (Hc _ He) as (l & Hl & Em). rewrite Ee, Hp in Hl. injection Hl as <-.
    exists SM. rewrite Em. split_and!; [done|done|apply grown_refl].
  - exists ((p, members_map ms) :: SM). split_and!; [done| |].
    + intros e [->|He]%elem_of_cons; [by exists ms|by apply Hc].
    + intros e [->|He]%elem_of_cons; [by right|by left].
Qed.

(** What is added to the positions of structs, and to the items: for a known type only. *)
Definition struct_pos (x : Ydb_Type) (ms : list (string * Ydb_Type)) (i : nat) (SP : list TStructPosition) :=
  if known x then mkStructPos (members_map ms) (set_seq 0 i) :: SP else SP.
Definition struct_rest (x : Ydb_Type) (ms : list (string * Ydb_Type)) (i : nat) : list Ydb_Value :=
  if known x then replicate (length ms - i) EmptyValue else [].
Definition struct_upto (x : Ydb_Type) (ms : list (string * Ydb_Type)) (i : nat) : Ydb_Type :=
  kStructType (if known x then ms else take i ms).

Lemma open_struct_spec R p tps V SM e vps SP x : get_at p R = Some x ->
  (on_tb TB_BeginStruct ;; VB_PushSelf) (st R (p :: tps) V SM (e :: vps) SP) =
  Ok (tt, st (set_at p (mutable_struct_type x) R) (p :: p :: tps) V SM (mkBuildPos (BValue e) false 0 :: e :: vps) SP).
Proof.
  intros Hx. rewrite (bind_Ok _ _ _ tt (st (set_at p (mutable_struct_type x) R) (p :: p :: tps) V SM (e :: vps) SP));
    [done|]. unfold on_tb, TB_BeginStruct. cbn [TypeBuilder_]. by erewrite bind_Ok by (by apply TB_put_spec).
Qed.

Lemma BeginStruct_spec R p tps V SM q b o vps SP x ms : NoDup (fst <$> ms) -> get_at p R = Some x ->
  x = kStructType ms \/ x = TYPE_NOT_SET -> get_at q V = Some EmptyValue -> cache_ok SM R ->
  exists SM', VB_BeginStruct (st R (p :: tps) V SM (mkBuildPos q b o :: vps) SP) =
    Ok (tt, st (set_at p (struct_upto x ms 0) R) (p :: p :: tps)
              (set_at q (items_message (struct_rest x ms 0)) V) SM'
              (mkBuildPos q false 0 :: mkBuildPos q (negb (known x)) o :: vps) (struct_pos x ms 0 SP)) /\
    cache_ok SM' R /\ grown SM SM' p /\ (known x = false -> SM' = SM).
Proof.
  intros Hd Hx Hk Hq Hc. unfold VB_BeginStruct, struct_upto, struct_rest, struct_pos.
  erewrite bind_Ok by (apply CheckTypeKind_spec; [done|destruct Hk as [->| ->]; auto]).
  erewrite bind_Ok by reflexivity. destruct Hk as [->| ->]; cbn [known].
  - destruct (GetMembersMap_spec R p ms (mkTypeBuilder R (p :: tps)) V SM (mkBuildPos q false o :: vps) SP Hx Hc)
      as (SM' & E & Hc' & Hg). exists SM'. split_and!; [|done|done|done].
    rewrite (bind_Ok _ _ _ tt (st R (p :: tps) (set_at q (items_message (replicate (length ms) EmptyValue)) V) SM'
      (mkBuildPos q false o :: vps) (mkStructPos (members_map ms) ∅ :: SP))).
    + rewrite (open_struct_spec _ _ _ _ _ _ _ _ _ Hx). cbn. by rewrite Nat.sub_0_r.
    + erewrite bind_Ok by (by apply GetType_spec). erewrite bind_Ok by reflexivity. cbn.
      erewrite bind_Ok by exact E. erewrite bind_Ok by (by apply (put_spec _ _ _ _ _ (mkBuildPos q false o))).
      cbn. by rewrite (proj1 (members_map_spec ms Hd)).
  - exists SM. split_and!; [|done|apply grown_refl|done].
    erewrite bind_Ok by reflexivity.
    etransitivity; [exact (open_struct_spec R p tps V SM (mkBuildPos q true o) vps SP _ Hx)|]. cbn.
    change (items_message []) with EmptyValue. by rewrite (set_at_same _ _ _ Hq).
Qed.

Lemma struct_rest_next x ms i m : ms !! i = Some m -> known x = true ->
  struct_rest x ms i = EmptyValue :: struct_rest x ms (i + 1).
Proof.
  intros Hm%lookup_lt_Some Hk. unfold struct_rest. rewrite Hk.
  by replace (length ms - i)%nat with (S (length ms - (i + 1))) by lia.
Qed.

Lemma struct_pos_next ms i :
  mkStructPos (members_map ms) ({[i]} ∪ set_seq 0 i) = mkStructPos (members_map ms) (set_seq 0 (i + 1)).
Proof. rewrite Nat.add_1_r, set_seq_S_end_union_L. done. Qed.

Lemma TB_SelectMember_spec R p' p tps V SM vps SP ms i : get_at p R = Some (kStructType ms) -> (i < length ms)%nat ->
  on_tb (TB_SelectMember i) (st R (p' :: p :: tps) V SM vps SP) =
  Ok (tt, st R ((p ++ [SMember i]) :: p :: tps) V SM vps SP).
Proof.
  intros Hp Hi. unfold on_tb, TB_SelectMember. cbn [TypeBuilder_].
  erewrite bind_Ok by (by eapply CheckPreviousKind_spec). erewrite bind_Ok by reflexivity.
  erewrite bind_Ok by (by apply TB_GetProto_spec). cbv beta iota. by rewrite (proj2 (Nat.ltb_lt _ _)) by done.
Qed.

Lemma TB_AddMember_spec R p' p tps V SM vps SP ms n : get_at p R = Some (kStructType ms) ->
  on_tb (TB_AddMember n) (st R (p' :: p :: tps) V SM vps SP) =
  Ok (tt, st (set_at p (kStructType (ms ++ [(n, TYPE_NOT_SET)])) R) ((p ++ [SMember (length ms)]) :: p :: tps) V SM vps SP).
Proof.
  intros Hp. unfold on_tb, TB_AddMember. cbn [TypeBuilder_].
  erewrite bind_Ok by (by eapply CheckPreviousKind_spec). erewrite bind_Ok by reflexivity.
  erewrite bind_Ok by (by apply TB_GetProto_spec). cbv beta iota.
  by erewrite bind_Ok by (by apply TB_put_spec).
Qed.

Lemma AddMember_spec R p' p tps V SM e1 q o vps SP x ms i m l : NoDup (fst <$> ms) ->
  get_at p R = Some (struct_upto x ms i) -> ms !! i = Some m ->
  get_at q V = Some (items_message (l ++ struct_rest x ms i)) -> length l = i ->
  VB_AddMember m.1 (st R (p' :: p :: tps) V SM (e1 :: mkBuildPos q (negb (known x)) o :: vps) (struct_pos x ms i SP)) =
  Ok (tt, st (if known x then R else set_at p (kStructType (take i ms ++ [(m.1, TYPE_NOT_SET)])) R)
            ((p ++ [SMember i]) :: p :: tps)
            (set_at q (items_message (l ++ EmptyValue :: struct_rest x ms (i + 1))) V) SM
            (mkBuildPos (q ++ [VItem i]) false 0 :: mkBuildPos q (negb (known x)) o :: vps)
            (struct_pos x ms (i + 1) SP)).
Proof.
  intros Hd Hp Hm Hq Hl. unfold VB_AddMember, struct_upto in *. pose proof (lookup_lt_Some _ _ _ Hm) as Hi.
  erewrite bind_Ok by (by eapply CheckContainerKind_spec).
  erewrite bind_Ok by apply PopPath_spec. erewrite bind_Ok by reflexivity. cbn [BuildType].
  unfold struct_pos. destruct (known x) eqn:Ek; cbn [negb].
  - erewrite bind_Ok by reflexivity. cbn [MembersMap].
    rewrite (proj2 (members_map_spec ms Hd) i m Hm).
    erewrite bind_Ok by (by eapply TB_SelectMember_spec).
    rewrite (struct_rest_next x ms i m Hm Ek) in Hq.
    erewrite (bind_Ok VB_GetValue) by (unfold VB_GetValue; cbn; by rewrite Hq). cbv beta iota.
    rewrite (proj2 (Nat.ltb_lt _ _)) by (cbn; rewrite length_app; cbn; lia).
    rewrite (set_at_same _ _ _ Hq). erewrite bind_Ok by reflexivity. cbn. by rewrite <- struct_pos_next.
  - erewrite bind_Ok by (by eapply TB_AddMember_spec).
    unfold struct_rest in *. rewrite Ek in *. rewrite app_nil_r in Hq.
    erewrite (push_item_spec _ _ _ _ _ (mkBuildPos q true o)) by done.
    cbn. rewrite Hl, length_take. by rewrite Nat.min_l by lia.
Qed.

Lemma EndStruct_spec R p' p tps V SM e1 q o vps SP x ms : NoDup (fst <$> ms) -> get_at p R = Some (kStructType ms) ->
  VB_EndStruct (st R (p' :: p :: tps) V SM (e1 :: mkBuildPos q (negb (known x)) o :: vps)
                  (struct_pos x ms (length ms) SP)) =
  Ok (tt, st R (p :: tps) V SM (mkBuildPos q (negb (known x)) o :: vps) SP).
Proof.
  intros Hd Hp. unfold VB_EndStruct. erewrite bind_Ok by (by eapply CheckContainerKind_spec).
  erewrite bind_Ok by apply PopPath_spec. erewrite bind_Ok by (by eapply CloseContainer_spec).
  erewrite bind_Ok by reflexivity. cbn [BuildType]. unfold struct_pos. destruct (known x); cbn [negb]; [|done].
  erewrite bind_Ok by reflexivity. cbn [MembersMap FilledMembers]. cbv zeta.
  rewrite (proj1 (members_map_spec ms Hd)), size_set_seq, Nat.ltb_irrefl. done.
Qed.

Lemma struct_next SM R p x ms i m : get_at p R = Some x -> expects SM p (kStructType ms) x -> ms !! i = Some m ->
  let y := if known x then kStructType ms else kStructType (take i ms ++ [(m.1, TYPE_NOT_SET)]) in
  cache_ok SM (set_at p (struct_upto x ms i) R) ->
  cache_ok SM (set_at p y R) /\
  get_at (p ++ [SMember i]) (set_at p y R) = Some (if known x then m.2 else TYPE_NOT_SET) /\
  expects SM (p ++ [SMember i]) m.2 (if known x then m.2 else TYPE_NOT_SET) /\
  set_at (p ++ [SMember i]) m.2 (set_at p y R) = set_at p (struct_upto x ms (i + 1)) R.
Proof.
  intros Hx He Ht y Hc. assert (is_Some (get_at p R)) as Hp by (by eexists).
  assert (length (take i ms) = i) as Hi.
  { apply lookup_lt_Some in Ht. rewrite length_take. lia. }
  unfold struct_upto in *. subst y. destruct He as [->|[-> Ha]]; cbn [known] in *.
  - assert (child (kStructType ms) (SMember i) = Some m.2) as Hy by (unfold child; cbn; by rewrite Ht).
    split_and!; [done|by apply get_part|by left|].
    erewrite set_part by done. unfold set_child. cbn. rewrite list_alter_same; [done|].
    intros m' Hm'. rewrite Ht in Hm'. injection Hm' as <-. by destruct m.
  - assert (cache_ok SM (set_at p (kStructType (take i ms ++ [(m.1, TYPE_NOT_SET)])) R)) as Hc'.
    { rewrite <- (set_set_at _ _ (kStructType (take i ms))).
      eapply cache_ok_set; [done|done|by apply get_set_at|]. intros [] c; try done. unfold child. cbn.
      destruct (take i ms !! i0) as [m'|] eqn:E; [|done]. by rewrite (lookup_app_l_Some _ _ _ _ E). }
    assert (child (kStructType (take i ms ++ [(m.1, TYPE_NOT_SET)])) (SMember i) = Some TYPE_NOT_SET) as Hy.
    { unfold child. cbn. by rewrite list_lookup_middle. }
    split_and!; [done|by apply get_part| |].
    + right. split; [done|]. eapply apart_child; [done|done|]. by apply get_part.
    + erewrite set_part by done. unfold set_child. cbn. rewrite (take_next _ _ _ Ht).
      rewrite (alter_last i) by done. by destruct m.
Qed.

Lemma write_members ms l R p tps V SM e1 q o vps SP x : NoDup (fst <$> ms) -> (forall m, m ∈ ms -> writes m.2) ->
  all2 (fun m d => bool_decide (m.1 = d.1) && has_type m.2 d.2)%bool ms l = true ->
  get_at p R = Some x -> expects SM p (kStructType ms) x -> get_at q V = Some EmptyValue ->
  cache_ok SM (set_at p (struct_upto x ms 0) R) -> Z.of_nat (type_size (kStructType ms)) < 2 ^ 32 ->
  wp (write_parts (fun m d => VB_AddMember m.1 ;; Write m.2 d.2) ms l)
    (fun _ s => exists p' e1 SM', s = st (set_at p (kStructType ms) R) (p' :: p :: tps)
        (set_at q (items_message (map2 (fun m d => encode m.2 d.2) ms l)) V)
        SM' (e1 :: mkBuildPos q (negb (known x)) o :: vps) (struct_pos x ms (length ms) SP) /\
        cache_ok SM' (set_at p (kStructType ms) R) /\ grown SM SM' p)
    (st (set_at p (struct_upto x ms 0) R) (p :: p :: tps) (set_at q (items_message (struct_rest x ms 0)) V) SM
       (e1 :: mkBuildPos q (negb (known x)) o :: vps) (struct_pos x ms 0 SP)).
Proof.
  intros Hd W Hl Hx He Hq Hc Hz. rewrite write_parts_zip.
  assert (length (zip ms l) = length ms) as Hlen by (rewrite length_zip_with, (all2_length _ _ _ Hl); lia).
  eapply wp_mono; [apply (wp_loop _ (fun i s => exists p' e1 SM',
    s = st (set_at p (struct_upto x ms i) R) (p' :: p :: tps)
          (set_at q (items_message (((fun md => encode md.1.2 md.2.2) <$> take i (zip ms l)) ++ struct_rest x ms i)) V)
          SM' (e1 :: mkBuildPos q (negb (known x)) o :: vps) (struct_pos x ms i SP) /\
    cache_ok SM' (set_at p (struct_upto x ms i) R) /\ grown SM SM' p /\ expects SM' p (kStructType ms) x))|].
  - exists p, e1, SM. split_and!; [done..|apply grown_refl|done].
  - intros i [m d] s Hmd (pe & e & SM1 & -> & Hc1 & Hg1 & He1). cbn [fst snd].
    destruct (all2_zip _ _ _ _ _ _ Hl Hmd) as (Hm & _ & [_ Hty]%andb_true_iff).
    pose proof (list_elem_of_lookup_2 _ _ _ Hm) as Hin. pose proof (lookup_lt_Some _ _ _ Hm) as Hlt.
    assert (length ((fun md => encode md.1.2 md.2.2) <$> take i (zip ms l)) = i) as Hi.
    { rewrite length_fmap, length_take. lia. }
    eapply wp_call; [eapply AddMember_spec; [done|apply get_set_at; by eexists|done|apply get_set_at; by eexists|done]|].
    rewrite (set_set_at q). destruct (struct_next SM1 R p x ms i m Hx He1 Hm Hc1) as (Hc2 & Hg2 & He2 & Hs).
    match goal with |- context [st ?r _ _ _ _ _] => replace r with (set_at p
      (if known x then kStructType ms else kStructType (take i ms ++ [(m.1, TYPE_NOT_SET)])) R)
      by (unfold struct_upto; destruct (known x); cbn; by rewrite ?set_set_at) end.
    eapply wp_mono; [eapply (W _ Hin); [done|exact Hg2|exact He2|apply item_get; [done|by eexists]|done|done| |done]|].
    { pose proof (sum_list_elem (fun m => S (type_size m.2)) ms m Hin) as Hsum. cbn [type_size] in Hz. cbv beta in Hsum. lia. }
    intros ? s (b1 & SM2 & -> & Hc3 & Hg3). rewrite Hs, item_set in * by (done || by eexists).
    eexists _, _, SM2. split_and!; [|done|by eapply grown_trans, prefix_app_r|].
    + rewrite (take_next _ _ _ Hmd), fmap_app, <- app_assoc. unfold encode_in. by destruct (null_chain d.2).
    + destruct He1 as [?|[? Ha]]; [by left|right]. split; [done|]. by eapply grown_apart.
  - intros ? s (p' & e & SM' & -> & Hc' & Hg & _). exists p', e, SM'.
    assert (struct_upto x ms (length (zip ms l)) = kStructType ms) as Eu.
    { unfold struct_upto. rewrite Hlen, firstn_all. by destruct (known x). }
    assert (struct_rest x ms (length (zip ms l)) = []) as Er.
    { unfold struct_rest. rewrite Hlen, Nat.sub_diag. by destruct (known x). }
    rewrite Eu in Hc' |- *. rewrite Er, app_nil_r, firstn_all, (map2_zip (fun m d => encode m.2 d.2)), Hlen. done.
Qed.

Lemma writes_struct ms : NoDup (fst <$> ms) -> (forall m, m ∈ ms -> writes m.2) -> writes (kStructType ms).
Proof.
  intros Hd W d R p tps V SM q b o vps SP x Ht Hx He Hq Hc Ho Hz _. destruct d as [| | | | | | |l| | | |]; try done.
  cbn [has_type Write] in *.
  destruct (BeginStruct_spec R p tps V SM q b o vps SP x ms) as (SM1 & E1 & Hc1 & Hg1 & Hf);
    [done|done|destruct He as [?|[? _]]; auto|done|done|].
  assert (expects SM1 p (kStructType ms) x) as He1.
  { destruct He as [->|[-> Ha]]; [by left|right]. by rewrite Hf. }
  assert (cache_ok SM1 (set_at p (struct_upto x ms 0) R)) as Hc'.
  { destruct He1 as [->|[-> Ha]]; [|by apply cache_ok_fresh]. unfold struct_upto. cbn [known].
    by rewrite (set_at_same _ _ _ Hx). }
  eapply wp_call; [exact E1|]. apply wp_bind. eapply wp_mono; [apply write_members; try done; lia|].
  intros ? s (pe & e1 & SM' & -> & Hc2 & Hg). unfold wp.
  rewrite EndStruct_spec; [|done|apply get_set_at; by eexists].
  exists (negb (known x)), SM'. split_and!; [done|done|]. by eapply grown_trans.
Qed.

Lemma writes_all t : buildable t = true -> writes t.
Proof.
  induction t using Ydb_Type_nested_ind; intros Hb; try done; cbn [buildable] in Hb.
  - apply writes_primitive.
  - apply writes_decimal.
  - by apply writes_pg.
  - by apply writes_optional, IHt.
  - by apply writes_list, IHt.
  - apply writes_tuple. intros t Ht. rewrite Forall_forall in H. apply H; [done|]. by eapply forallb_elem.
  - apply andb_true_iff in Hb as [Hb Hd%bool_decide_eq_true]. apply writes_struct; [done|].
    intros m Hm. rewrite Forall_forall in H. apply H; [done|]. by eapply (forallb_elem (fun m => buildable m.2)).
  - apply andb_true_iff in Hb as [Hb1 Hb2]. apply writes_dict; auto.
  - apply writes_tagged. by apply IHt.
Qed.

(** C5: values survive the round trip.  A client writes a value of any type that can be
    built, to a builder that was given the type or to one that was given none.  The
    builder returns the type and the message the protocol documents for the value: the
    same from both.  Where no optional holds a value that can be null by itself, the
    value parser reads the same value back from the message. *)
Theorem value_round_trip known_type t d : known_type = t \/ known_type = TYPE_NOT_SET ->
  buildable t = true -> has_type t d = true -> Z.of_nat (type_size t) < 2 ^ 32 ->
  write_value known_type t d = Ok (t, encode t d) /\
  (unambiguous t = true -> read_value t (encode t d) = Ok d).
Proof.
  intros Hk Hb Ht Hz. split.
  - opose proof* (writes_all t Hb d known_type [] [] EmptyValue [] [] false 0 [] [] known_type) as W; try done.
    { destruct Hk as [->| ->]; [by left|right]. split; [done|]. intros e He. by apply elem_of_nil in He. }
    { intros e He. by apply elem_of_nil in He. }
    unfold wp in W. unfold write_value, TValueBuilder0, TTypeBuilder0.
    destruct (Write t d _) as [[[] s]|] eqn:E; [|done]. destruct W as (b & SM & -> & _).
    rewrite (bind_Ok _ _ _ _ _ E). unfold encode_in. cbn. by destruct (null_chain d).
  - intros Hu. pose proof (read_value_agrees t (encode t d)) as Ha. rewrite decode_encode in Ha by done.
    destruct (read_value t (encode t d)) as [d'|]; [by cbn in Ha; subst|done].
Qed.

Lemma value_round_trip_witness :
  let t := kStructType [("id", kTypeId Uint64); ("tags", kListType (kOptionalType (kOptionalType (kTypeId Text))))] in
  let d := DStruct [("id", DPrimitive (VUint64 7));
                    ("tags", DList [DNothing; DJust DNothing; DJust (DJust (DPrimitive (VText "a")))])] in
  write_value TYPE_NOT_SET t d = Ok (t, encode t d) /\ (unambiguous t = true -> read_value t (encode t d) = Ok d).
Proof. apply (value_round_trip TYPE_NOT_SET); [by right|by vm_compute..]. Defined.
