(* ===== verification/IntervalTree.v ===== *)
(** * Sets of numbers kept as intervals

    [TDisjointIntervalTree] of
    [library/cpp/containers/disjoint_interval_tree/disjoint_interval_tree.h]: the offsets
    a reader has still to commit.  The map from the begin of an interval to its end is the
    list of its entries in order; an iterator is the position of the entry it refers to,
    [length] being [end()].  Changing the key of an entry in place is changing the entry.

    Shown: the operations are those of a set of numbers, and the intervals stay disjoint,
    sorted and as large as possible, so that there is one representation of each set. *)

From S2P Require Import Prelude.

Record TDisjointIntervalTree := mkTree { Tree : list (Z * Z); NumElements : Z }.

Definition EmptyTree : TDisjointIntervalTree := mkTree [] 0.
Definition Empty (t : TDisjointIntervalTree) : bool := match Tree t with [] => true | _ => false end.

(** [Tree.lower_bound(k)]: the first entry whose key is not less. *)
Fixpoint lower_bound (l : list (Z * Z)) (k : Z) : nat :=
  match l with
  | (b, _) :: l => if b <? k then S (lower_bound l k) else O
  | [] => O
  end.

Definition Intersects (t : TDisjointIntervalTree) (begin end_ : Z) : bool :=
  if Empty t then false
  else
    let l := lower_bound (Tree t) begin in
    match Tree t !! l with
    | Some (first, _) =>
        if first <? end_ then true
        else match l with
             | S l => match Tree t !! l with Some (_, second) => begin <? second | None => false end
             | O => false
             end
    | None => match last (Tree t) with Some (_, second) => begin <? second | None => false end
    end.

Definition InsertIntervalImpl (begin end_ : Z) (t : list (Z * Z)) : list (Z * Z) :=
  let l := lower_bound t begin in
  let extends_right :=
    match t !! l with
    | Some (first, second) =>
        if end_ =? first then Some (<[l := (begin, second)]> t) else None
    | None => None
    end in
  let otherwise :=
    match extends_right with
    | Some t => t
    | None =>
        match t !! l with
        | Some (first, _) => if first =? begin then t else take l t ++ (begin, end_) :: drop l t
        | None => take l t ++ (begin, end_) :: drop l t
        end
    end in
  match l with
  | O => otherwise
  | S p =>
      match t !! p with
      | Some (first, second) =>
          if second =? begin then
            match t !! l with
            | Some (first', second') =>
                if first' =? end_ then delete l (<[p := (first, second')]> t)
                else <[p := (first, end_)]> t
            | None => <[p := (first, end_)]> t
            end
          else otherwise
      | None => otherwise
      end
  end.

Definition InsertInterval (begin end_ : Z) (t : TDisjointIntervalTree) : TDisjointIntervalTree :=
  mkTree (InsertIntervalImpl begin end_ (Tree t)) (NumElements t + (end_ - begin)).

Definition lengths (l : list (Z * Z)) : Z := foldr (fun be n => be.2 - be.1 + n) 0 l.

(** The part of [EraseInterval] after the interval that contains [begin] was cut:
    [from] is [completelyRemoveBegin], [removed] the elements removed so far. *)
Definition erase_rest (from : nat) (end_ : Z) (removed : Z) (t : list (Z * Z)) : list (Z * Z) * Z :=
  let to := if (from <? length t)%nat then lower_bound t end_ else length t in
  let contains :=
    match to, t !! to with
    | O, _ => None
    | S c, Some (first, _) => if first =? end_ then None else Some c
    | S c, None => Some c
    end in
  let '(to, t, removed) :=
    match contains with
    | Some c =>
        match t !! c with
        | Some (border, second) =>
            if end_ <? second then (c, <[c := (end_, second)]> t, removed + (end_ - border))
            else (to, t, removed)
        | None => (to, t, removed)
        end
    | None => (to, t, removed)
    end in
  (take from t ++ drop to t, removed + lengths (take (to - from) (drop from t))).

Definition EraseInterval (begin end_ : Z) (t : TDisjointIntervalTree) : TDisjointIntervalTree * Z :=
  if Empty t then (t, 0)
  else
    let l := Tree t in
    let from := lower_bound l begin in
    let looks := match l !! from with Some (first, _) => (begin <? first) && negb (from =? 0)%nat | None => true end%bool in
    let rest removed l :=
      let '(l, removed) := erase_rest from end_ removed l in (mkTree l (NumElements t - removed), removed) in
    match (if looks then l !! pred from else None) with
    | Some (first, second) =>
        if ((first <? begin) && (begin <? second))%bool then
          if end_ <? second then
            (mkTree (InsertIntervalImpl end_ second (<[pred from := (first, begin)]> l))
               (NumElements t - (end_ - begin)), end_ - begin)
          else rest (second - begin) (<[pred from := (first, begin)]> l)
        else rest 0 l
    | None => rest 0 l
    end.

(** The position of the interval that contains [x]; [None] is [Tree.end()]. *)
Definition FindContaining (t : list (Z * Z)) (x : Z) : option nat :=
  let l := lower_bound t x in
  let inside p :=
    match t !! p with
    | Some (first, second) => if ((first <? x) && (x <? second))%bool then Some p else None
    | None => None
    end in
  match t !! l with
  | Some (first, _) =>
      if first =? x then Some l
      else match l with S p => inside p | O => None end
  | None => match t with [] => None | _ => inside (pred (length t)) end
  end.

Definition Has (t : TDisjointIntervalTree) (x : Z) : bool :=
  match FindContaining (Tree t) x with Some _ => true | None => false end.

Definition Insert (x : Z) (t : TDisjointIntervalTree) : TDisjointIntervalTree := InsertInterval x (x + 1) t.

Definition Erase (x : Z) (t : TDisjointIntervalTree) : TDisjointIntervalTree * bool :=
  match FindContaining (Tree t) x with
  | None => (t, false)
  | Some n =>
      match Tree t !! n with
      | None => (t, false)
      | Some (begin, end_) =>
          let l :=
            if x =? begin then
              if begin + 1 =? end_ then delete n (Tree t) else <[n := (begin + 1, end_)]> (Tree t)
            else if x =? end_ - 1 then <[n := (begin, end_ - 1)]> (Tree t)
            else InsertIntervalImpl (x + 1) end_ (<[n := (begin, x)]> (Tree t)) in
          (mkTree l (NumElements t - 1), true)
      end
  end.

(** ** The set an interval tree stands for *)

Definition within (x : Z) (be : Z * Z) : Prop := be.1 <= x < be.2.
Definition covers (l : list (Z * Z)) (x : Z) : Prop := Exists (within x) l.
Definition contains (t : TDisjointIntervalTree) (x : Z) : Prop := covers (Tree t) x.

(** Intervals above [lo], sorted and with gaps between them. *)
Fixpoint separated (lo : Z) (l : list (Z * Z)) : Prop :=
  match l with
  | (b, e) :: l => lo < b /\ b < e /\ separated e l
  | [] => True
  end.

Definition tree_wf (t : TDisjointIntervalTree) : Prop :=
  separated (-1) (Tree t) /\ NumElements t = lengths (Tree t).

Lemma covers_app l k x : covers (l ++ k) x <-> covers l x \/ covers k x.
Proof. apply Exists_app. Qed.
Lemma covers_cons b e l x : covers ((b, e) :: l) x <-> b <= x < e \/ covers l x.
Proof. apply Exists_cons. Qed.
Lemma covers_nil x : covers [] x <-> False.
Proof. apply Exists_nil. Qed.

Definition end_of (lo : Z) (l : list (Z * Z)) : Z := default lo (snd <$> last l).

Lemma end_of_snoc lo l b e : end_of lo (l ++ [(b, e)]) = e.
Proof. unfold end_of. by rewrite last_snoc. Qed.

Lemma separated_app lo l k : separated lo (l ++ k) <-> separated lo l /\ separated (end_of lo l) k.
Proof.
  revert lo. induction l as [|[b e] l IH]; intros lo; [cbn; tauto|]. cbn. rewrite IH.
  destruct l as [|be l]; [cbn; tauto|]. replace (end_of lo ((b, e) :: be :: l)) with (end_of e (be :: l)); [tauto|].
  unfold end_of. change (last ((b, e) :: be :: l)) with (last (be :: l)).
  destruct (last (be :: l)) eqn:E; [done|by apply last_None in E].
Qed.

Lemma separated_above lo l x : separated lo l -> covers l x -> lo < x.
Proof.
  revert lo. induction l as [|[b e] l IH]; intros lo; [by rewrite covers_nil|].
  cbn. intros (H1 & H2 & H3) [?|Hx]%covers_cons; [lia|]. pose proof (IH _ H3 Hx). lia.
Qed.

Lemma separated_weaken lo lo' l : lo' <= lo -> separated lo l -> separated lo' l.
Proof. destruct l as [|[b e] l]; [done|]. cbn. intros ? (?&?&?). repeat split; [lia|done..]. Qed.

Lemma separated_below lo l x : separated lo l -> covers l x -> x < end_of lo l.
Proof.
  revert lo. induction l as [|[b e] l IH] using rev_ind; intros lo; [by rewrite covers_nil|].
  rewrite separated_app, covers_app, covers_cons, covers_nil, end_of_snoc. cbn. intros (H1 & H2 & H3 & _) [Hx|[?|[]]]; [|lia].
  pose proof (IH _ H1 Hx). lia.
Qed.

Lemma end_of_above lo l : separated lo l -> lo <= end_of lo l.
Proof.
  induction l as [|[b e] l IH] using rev_ind; [by cbn|]. rewrite separated_app, end_of_snoc. cbn.
  intros (H1 & H2 & H3 & _). pose proof (IH H1). lia.
Qed.

Lemma lengths_app l k : lengths (l ++ k) = lengths l + lengths k.
Proof. unfold lengths in *. induction l as [|[b e] l IH]; [done|]. cbn. rewrite IH. lia. Qed.

Lemma lengths_cons b e l : lengths ((b, e) :: l) = e - b + lengths l.
Proof. done. Qed.
Lemma lengths_nil : lengths [] = 0.
Proof. done. Qed.

(** Where [lower_bound] cuts the tree. *)
Lemma lower_bound_split lo l k : separated lo l -> exists A B, l = A ++ B /\ lower_bound l k = length A /\
  Forall (fun be => be.1 < k) A /\ Forall (fun be => k <= be.1) B.
Proof.
  revert lo. induction l as [|[b e] l IH]; intros lo Hl; [by exists [], []|]. cbn [lower_bound].
  destruct Hl as (H1 & H2 & H3). destruct (b <? k) eqn:E.
  - apply Z.ltb_lt in E. destruct (IH _ H3) as (A & B & -> & -> & HA & HB).
    exists ((b, e) :: A), B. split_and!; [done|done|by constructor|done].
  - apply Z.ltb_ge in E. exists [], ((b, e) :: l). split_and!; [done|done|done|]. constructor; [done|].
    clear -H2 H3 E. assert (k <= e) as Hk by lia. clear H2 E. revert e H3 Hk.
    induction l as [|[b' e'] l IH]; intros e; [done|]. cbn. intros (H1 & H2 & H3) Hk.
    constructor; [cbn; lia|]. eapply IH; [done|lia].
Qed.

Lemma covers_from k l x : Forall (fun be => k <= be.1) l -> covers l x -> k <= x.
Proof.
  unfold covers. rewrite Forall_forall, Exists_exists. intros Hl (be & Hin & Hw). specialize (Hl _ Hin).
  unfold within in Hw. lia.
Qed.

(** The two lists around a position, from their ends. *)
Lemma list_ends {A} (l : list A) : l = [] \/ exists k x, l = k ++ [x].
Proof. destruct l as [|x l _] using rev_ind; [by left|right]. by exists l, x. Qed.

(** ** Insertion *)

Lemma lookup_mid {A} (l k : list A) x : (l ++ x :: k) !! length l = Some x.
Proof. by apply list_lookup_middle. Qed.
Lemma lookup_end {A} (l : list A) : (l ++ []) !! length l = None.
Proof. rewrite app_nil_r. apply lookup_ge_None_2. lia. Qed.
Lemma insert_mid {A} (l k : list A) x y : <[length l := y]> (l ++ x :: k) = l ++ y :: k.
Proof. rewrite insert_app_r_alt by lia. by rewrite Nat.sub_diag. Qed.
Lemma delete_mid {A} (l k : list A) x : delete (length l) (l ++ x :: k) = l ++ k.
Proof. by apply delete_middle. Qed.

(** A new interval before the intervals of [B], which it may touch. *)
Definition put_before (b e : Z) (B : list (Z * Z)) : list (Z * Z) :=
  match B with
  | (b', e') :: B' => if e =? b' then (b, e') :: B' else (b, e) :: B
  | [] => [(b, e)]
  end.

(** Insertion at the cut [A], [B] merges the new interval with the neighbours it touches. *)
Lemma InsertIntervalImpl_cut A B b e : lower_bound (A ++ B) b = length A -> b < e ->
  (forall b' e' B', B = (b', e') :: B' -> e <= b') ->
  InsertIntervalImpl b e (A ++ B) =
  match last A with
  | Some (pb, pe) => if pe =? b then removelast A ++ put_before pb e B else A ++ put_before b e B
  | None => put_before b e B
  end.
Proof.
  intros Hl Hbe HB. unfold InsertIntervalImpl. rewrite Hl. destruct (list_ends A) as [->|(A' & [pb pe] & ->)].
  - destruct B as [|[b' e'] B]; [done|]. cbn. destruct (e =? b'); [done|].
    specialize (HB _ _ _ eq_refl). by rewrite (proj2 (Z.eqb_neq b' b)) by lia.
  - rewrite last_snoc, removelast_last, length_app, Nat.add_1_r, <- app_assoc. cbn [app length].
    rewrite lookup_mid. assert (S (length A') = length (A' ++ [(pb, pe)])) as Hn by (rewrite length_app; cbn; lia).
    destruct B as [|[b' e'] B].
    + assert ((A' ++ [(pb, pe)]) !! S (length A') = None) as -> by (apply lookup_ge_None_2; lia).
      rewrite insert_mid. destruct (pe =? b); [done|]. rewrite Hn, firstn_all, drop_all. by rewrite <- ?app_assoc.
    + assert ((A' ++ (pb, pe) :: (b', e') :: B) !! S (length A') = Some (b', e')) as ->.
      { change ((pb, pe) :: (b', e') :: B) with ([(pb, pe)] ++ (b', e') :: B). rewrite app_assoc, Hn. apply lookup_mid. }
      specialize (HB _ _ _ eq_refl). rewrite !insert_mid. cbn [put_before]. rewrite (Z.eqb_sym b' e).
      rewrite (proj2 (Z.eqb_neq b' b)) by lia.
      change ((pb, pe) :: (b', e') :: B) with ([(pb, pe)] ++ (b', e') :: B). rewrite (app_assoc A'), Hn, insert_mid.
      destruct (pe =? b).
      * destruct (e =? b'); [|done]. change ((pb, e') :: (b', e') :: B) with ([(pb, e')] ++ (b', e') :: B).
        rewrite (app_assoc A' [(pb, e')]). replace (length (A' ++ [(pb, pe)])) with (length (A' ++ [(pb, e')])) by (by rewrite !length_app).
        by rewrite delete_mid, <- app_assoc.
      * destruct (e =? b'); [by rewrite <- !app_assoc|]. by rewrite take_app_length, drop_app_length, <- !app_assoc.
Qed.

Lemma put_before_spec lo lo' b e B : lo < b -> b < e -> separated lo' B ->
  (forall b' e' B', B = (b', e') :: B' -> e <= b') ->
  separated lo (put_before b e B) /\ (forall x, covers (put_before b e B) x <-> b <= x < e \/ covers B x) /\
  lengths (put_before b e B) = e - b + lengths B.
Proof.
  intros Hlo Hbe Hs HB. destruct B as [|[b' e'] B].
  - cbn. split_and!; [done..| |lia]. intros x. by rewrite covers_cons.
  - specialize (HB _ _ _ eq_refl). destruct Hs as (H1 & H2 & H3). cbn [put_before].
    destruct (e =? b') eqn:E.
    + apply Z.eqb_eq in E as ->. cbn. split_and!; [done|lia|done| |lia].
      intros x. rewrite !covers_cons. split; intros; destruct_or!; lia || tauto || (destruct (decide (x < b')); [left|right; left]; lia).
    + apply Z.eqb_neq in E. cbn. split_and!; [done|done|lia|done|done| |lia]. intros x. by rewrite !covers_cons.
Qed.

(** The new interval lies between the two parts of the cut. *)
Lemma cut_disjoint lo A B b e : separated lo (A ++ B) -> b < e ->
  Forall (fun be => be.1 < b) A -> Forall (fun be => b <= be.1) B -> (forall x, b <= x < e -> ~ covers (A ++ B) x) ->
  (forall pb pe, last A = Some (pb, pe) -> pb < pe <= b) /\ (forall b' e' B', B = (b', e') :: B' -> e <= b').
Proof.
  intros Hs Hbe HA HB Hd. apply separated_app in Hs as [HsA HsB]. split.
  - intros pb pe Hl. destruct (list_ends A) as [->|(A' & p & ->)]; [done|]. rewrite last_snoc in Hl. injection Hl as ->.
    apply separated_app in HsA as (_ & _ & Hp & _). apply Forall_app in HA as [_ HA]. inversion HA as [|? ? Hpb]; subst. cbn in *.
    split; [done|]. destruct (decide (pe <= b)); [done|]. exfalso. apply (Hd b); [lia|].
    rewrite !covers_app, covers_cons. left. right. left. lia.
  - intros b' e' B' ->. cbn in HsB. inversion HB as [|? ? Hb']; subst. cbn in *.
    destruct (decide (e <= b')); [done|]. exfalso. apply (Hd b'); [lia|].
    rewrite covers_app, covers_cons. right. left. lia.
Qed.

Lemma InsertIntervalImpl_spec l b e : separated (-1) l -> 0 <= b < e -> (forall x, b <= x < e -> ~ covers l x) ->
  separated (-1) (InsertIntervalImpl b e l) /\
  (forall x, covers (InsertIntervalImpl b e l) x <-> b <= x < e \/ covers l x) /\
  lengths (InsertIntervalImpl b e l) = e - b + lengths l.
Proof.
  intros Hs Hbe Hd. destruct (lower_bound_split _ l b Hs) as (A & B & -> & Hl & HA & HB).
  destruct (cut_disjoint _ _ _ _ _ Hs (proj2 Hbe) HA HB Hd) as [Hp HB'].
  rewrite (InsertIntervalImpl_cut _ _ _ _ Hl (proj2 Hbe) HB'). apply separated_app in Hs as [HsA HsB].
  destruct (list_ends A) as [->|(A' & [pb pe] & ->)].
  - cbn [last app]. destruct (put_before_spec (-1) (-1) b e B) as (H1 & H2 & H3); [lia|lia|done|done|]. auto.
  - rewrite last_snoc in *. specialize (Hp _ _ eq_refl). rewrite removelast_last.
    pose proof (proj1 (separated_app _ _ _) HsA) as [HsA' (H4 & H5 & _)]. destruct (pe =? b) eqn:E.
    + apply Z.eqb_eq in E as ->.
      destruct (put_before_spec (end_of (-1) A') (end_of (-1) (A' ++ [(pb, b)])) pb e B) as (H1 & H2 & H3); [done|lia|done|done|].
      split_and!; [by apply separated_app| |].
      * intros x. rewrite !covers_app, covers_cons, covers_nil, H2.
        split; intros; destruct_or!; try tauto; destruct (decide (x < b)); tauto || lia || (left; lia) || (right; left; right; left; lia).
      * rewrite !lengths_app, H3. cbn. lia.
    + apply Z.eqb_neq in E. destruct (put_before_spec (end_of (-1) (A' ++ [(pb, pe)])) (end_of (-1) (A' ++ [(pb, pe)])) b e B)
        as (H1 & H2 & H3); [rewrite end_of_snoc; lia|lia|done|done|].
      split_and!; [by apply separated_app| |].
      * intros x. rewrite !covers_app, H2. tauto.
      * rewrite lengths_app, (lengths_app _ B), H3. lia.
Qed.

(** ** Erasure *)

Lemma lower_bound_app A B k : Forall (fun be => be.1 < k) A ->
  lower_bound (A ++ B) k = (length A + lower_bound B k)%nat.
Proof.
  induction 1 as [|[b e] A Hb _ IH]; [done|]. cbn in *. rewrite (proj2 (Z.ltb_lt _ _)) by done. by rewrite IH.
Qed.

Lemma lower_bound_none B k : Forall (fun be => k <= be.1) B -> lower_bound B k = O.
Proof. destruct 1 as [|[b e] B Hb _]; [done|]. cbn in *. by rewrite (proj2 (Z.ltb_ge _ _)). Qed.

Lemma erase_rest_cut A C D e r : Forall (fun be => be.1 < e) (A ++ C) -> Forall (fun be => e <= be.1) D ->
  (forall pb pe, last A = Some (pb, pe) -> pe <= e) ->
  (forall cb ce d D', last C = Some (cb, ce) -> D = d :: D' -> ce <= d.1) ->
  erase_rest (length A) e r (A ++ C ++ D) =
  match last C with
  | Some (cb, ce) => if e <? ce then (A ++ (e, ce) :: D, r + (e - cb) + lengths (removelast C))
                     else (A ++ D, r + lengths C)
  | None => (A ++ D, r)
  end.
Proof.
  intros HAC HD HA HC. unfold erase_rest. rewrite (app_assoc A C D).
  assert ((if (length A <? length ((A ++ C) ++ D))%nat then lower_bound ((A ++ C) ++ D) e else length ((A ++ C) ++ D))
    = length (A ++ C)) as ->.
  { destruct (length A <? length ((A ++ C) ++ D))%nat eqn:E.
    - rewrite lower_bound_app, lower_bound_none by done. lia.
    - apply Nat.ltb_ge in E. rewrite !length_app in *. destruct D; cbn in *; lia. }
  destruct (list_ends C) as [->|(C' & [cb ce] & ->)].
  - rewrite app_nil_r in *. cbn [last].
    assert (forall c, length A = S c -> match (A ++ D) !! c with Some (_, second) => (e <? second) = false | None => True end) as HcA.
    { intros c Hc. destruct (list_ends A) as [->|(A' & [pb pe] & ->)]; [done|]. rewrite length_app in Hc. cbn in Hc.
      replace c with (length A') by lia. rewrite <- app_assoc. cbn [app]. rewrite lookup_mid.
      rewrite last_snoc in HA. apply Z.ltb_ge. by eapply HA. }
    assert (forall r', (take (length A) (A ++ D) ++ drop (length A) (A ++ D), r' + lengths (take (length A - length A) (drop (length A) (A ++ D)))) = (A ++ D, r')) as Hres.
    { intros r'. rewrite take_app_length, drop_app_length, Nat.sub_diag. change (lengths (take 0 D)) with 0. by rewrite Z.add_0_r. }
    destruct (length A) as [|c] eqn:Hc; [by destruct D as [|[]]|]. specialize (HcA c eq_refl).
    destruct ((A ++ D) !! S c) as [[first second]|]; [destruct (first =? e); [apply Hres|]|];
      (destruct ((A ++ D) !! c) as [[first' second']|]; [rewrite HcA|]); apply Hres.
  - rewrite last_snoc in *. rewrite removelast_last.
    assert (length (A ++ C' ++ [(cb, ce)]) = S (length (A ++ C'))) as Hn by (rewrite !length_app; cbn; lia).
    rewrite Hn. assert ((A ++ C' ++ [(cb, ce)]) ++ D = (A ++ C') ++ (cb, ce) :: D) as El by (by rewrite <- !app_assoc).
    rewrite El.
    assert (forall x r', (take (length A) ((A ++ C') ++ x :: D) ++ drop (length (A ++ C')) ((A ++ C') ++ x :: D),
      r' + lengths (take (length (A ++ C') - length A) (drop (length A) ((A ++ C') ++ x :: D)))) = (A ++ x :: D, r' + lengths C')) as H1.
    { intros x r'. rewrite (drop_app_length (A ++ C')), <- app_assoc, take_app_length, drop_app_length.
      replace (length (A ++ C') - length A)%nat with (length C') by (rewrite length_app; lia). by rewrite take_app_length. }
    assert ((take (length A) ((A ++ C') ++ (cb, ce) :: D) ++ drop (S (length (A ++ C'))) ((A ++ C') ++ (cb, ce) :: D),
      r + lengths (take (S (length (A ++ C')) - length A) (drop (length A) ((A ++ C') ++ (cb, ce) :: D)))) =
      (A ++ D, r + lengths (C' ++ [(cb, ce)]))) as H2.
    { rewrite <- El, <- Hn, (drop_app_length (A ++ C' ++ [(cb, ce)])), <- app_assoc, take_app_length, drop_app_length.
      replace (length (A ++ C' ++ [(cb, ce)]) - length A)%nat with (length (C' ++ [(cb, ce)])) by (rewrite !length_app; cbn; lia).
      by rewrite take_app_length. }
    assert (match ((A ++ C') ++ (cb, ce) :: D) !! S (length (A ++ C')) with
            | Some (first, _) => if first =? e then (e <? ce) = false else True | None => True end) as H3.
    { destruct D as [|[d1 d2] D]; [by rewrite lookup_ge_None_2 by (rewrite length_app; cbn; lia)|].
      rewrite <- El, <- Hn, lookup_mid. destruct (d1 =? e) eqn:E; [|done]. apply Z.eqb_eq in E as <-.
      apply Z.ltb_ge. by apply (HC cb ce (d1, d2) D). }
    destruct (_ !! S (length (A ++ C'))) as [[first second]|]; [destruct (first =? e)|]; cbv iota beta.
    + by rewrite H3, H2.
    + rewrite lookup_mid. destruct (e <? ce); [|by rewrite H2]. by rewrite insert_mid, H1.
    + rewrite lookup_mid. destruct (e <? ce); [|by rewrite H2]. by rewrite insert_mid, H1.
Qed.

(** Removing the numbers of [begin, end_) from a list of intervals. *)
Definition erases (b e : Z) (l l' : list (Z * Z)) (removed : Z) : Prop :=
  separated (-1) l' /\ (forall x, covers l' x <-> covers l x /\ ~ (b <= x < e)) /\ removed = lengths l - lengths l'.

(** Cut at [b], with nothing of the left part reaching beyond it. *)
Lemma erase_rest_spec A B b e r : separated (-1) (A ++ B) -> b < e -> Forall (fun be => be.1 < b) A ->
  Forall (fun be => b <= be.1) B -> (forall pb pe, last A = Some (pb, pe) -> pe <= b) ->
  let '(l', r') := erase_rest (length A) e r (A ++ B) in erases b e (A ++ B) l' (r' - r).
Proof.
  intros Hs Hbe HA HB Hl. pose proof Hs as [HsA HsB]%separated_app.
  destruct (lower_bound_split _ B e HsB) as (C & D & -> & _ & HC & HD).
  pose proof HsB as [HsC HsD]%separated_app. apply Forall_app in HB as [HBC HBD].
  rewrite erase_rest_cut; [|apply Forall_app; split; [eapply Forall_impl; [exact HA|]|done]|done| |].
  2: { cbn. intros. lia. }
  2: { intros pb pe ?. specialize (Hl pb pe). cut (pe <= b); [lia|by apply Hl]. }
  2: { intros cb ce [d1 d2] D' HlC ->. cbn in HsD. unfold end_of in HsD. rewrite HlC in HsD. cbn in *. lia. }
  assert (forall x, covers A x -> x < b) as HxA.
  { intros x Hx. pose proof (separated_below _ _ _ HsA Hx) as Hb. unfold end_of in Hb.
    destruct (last A) as [[pb pe]|] eqn:E; cbn in Hb; [specialize (Hl _ _ eq_refl); lia|].
    apply last_None in E as ->. by apply covers_nil in Hx. }
  pose proof (fun x => covers_from _ _ x HD) as HxD. pose proof (fun x => covers_from _ _ x HBC) as HxC.
  destruct (list_ends C) as [->|(C' & [cb ce] & ->)].
  - cbn [last app]. split_and!; [done| |lia]. intros x. rewrite !covers_app. split; [|tauto].
    intros [Hx|Hx]; [specialize (HxA x Hx)|specialize (HxD x Hx)]; split; tauto || lia.
  - rewrite last_snoc, removelast_last. rewrite end_of_snoc in HsD. pose proof HsC as [_ (_ & Hcc & _)]%separated_app.
    apply Forall_app in HC as [HC' Hcb]. inversion Hcb as [|? ? Hcb']; subst; cbn in Hcb'.
    pose proof HsC as [HsC' (HcC & _)]%separated_app. pose proof (end_of_above _ _ HsC') as Hab.
    destruct (e <? ce) eqn:E; [apply Z.ltb_lt in E|apply Z.ltb_ge in E].
    + split_and!.
      * apply separated_app. split; [done|]. cbn. split_and!; [lia|done|done].
      * intros x. rewrite !covers_app, !covers_cons, covers_nil. specialize (HxA x). specialize (HxD x). specialize (HxC x).
        pose proof (separated_below _ _ x (proj1 (proj1 (separated_app _ _ _) HsC))) as HC'x.
        pose proof (proj2 (proj1 (separated_app _ _ _) HsC)) as Hcl. cbn in Hcl.
        rewrite covers_app, covers_cons, covers_nil in HxC.
        split; [intros [Hx|[Hx|Hx]]|intros [[Hx|[[Hx|[Hx|[]]]|Hx]] Hn]]; try tauto.
        -- split; [tauto|]. specialize (HxA Hx). lia.
        -- split; [right; left; right; left; lia|lia].
        -- split; [tauto|]. specialize (HxD Hx). lia.
        -- exfalso. apply Hn. split; [tauto|]. specialize (HC'x Hx). lia.
        -- destruct (decide (x < e)); [|right; left; lia]. exfalso. apply Hn. split; [|done]. apply HxC. tauto.
      * rewrite !lengths_app, ?lengths_cons, lengths_nil. lia.
    + split_and!.
      * apply separated_app. split; [done|]. eapply separated_weaken; [|exact HsD]. lia.
      * intros x. rewrite !covers_app, !covers_cons, covers_nil. specialize (HxA x). specialize (HxD x). specialize (HxC x).
        rewrite covers_app, covers_cons, covers_nil in HxC.
        pose proof (separated_below _ _ x HsC) as HCx. rewrite end_of_snoc, covers_app, covers_cons, covers_nil in HCx.
        split; [intros [Hx|Hx]|intros [[Hx|[Hx|Hx]] Hn]]; try tauto.
        -- split; [tauto|]. specialize (HxA Hx). lia.
        -- split; [tauto|]. specialize (HxD Hx). lia.
        -- exfalso. apply Hn. split; [by apply HxC|]. specialize (HCx Hx). lia.
      * rewrite !lengths_app, ?lengths_cons, lengths_nil. lia.
Qed.

(** What [EraseInterval] looks at: the last interval that begins before [b]. *)
Lemma EraseInterval_cut A B b e n : A ++ B <> [] -> lower_bound (A ++ B) b = length A -> separated (-1) (A ++ B) ->
  Forall (fun be => be.1 < b) A -> Forall (fun be => b <= be.1) B ->
  EraseInterval b e (mkTree (A ++ B) n) =
  let rest removed l := let '(l, removed) := erase_rest (length A) e removed l in (mkTree l (n - removed), removed) in
  match last A with
  | Some (pb, pe) =>
      if b <? pe then
        if e <? pe then
          (mkTree (InsertIntervalImpl e pe (removelast A ++ (pb, b) :: B)) (n - (e - b)), e - b)
        else rest (pe - b) ((removelast A ++ [(pb, b)]) ++ B)
      else rest 0 (A ++ B)
  | None => rest 0 (A ++ B)
  end.
Proof.
  intros Hne Hl Hs HA HB. unfold EraseInterval.
  replace (Empty (mkTree (A ++ B) n)) with false by (unfold Empty; cbn; by destruct (A ++ B)). cbn [Tree NumElements]. rewrite Hl.
  destruct (list_ends A) as [->|(A' & [pb pe] & ->)].
  - cbn [last length app] in *. destruct B as [|[b' e'] B]; [done|]. cbn [lookup list_lookup Nat.eqb negb].
    by rewrite andb_false_r.
  - rewrite last_snoc, removelast_last. apply Forall_app in HA as [_ HA]. inversion HA as [|? ? Hpb _]; subst. cbn in Hpb.
    apply separated_app in Hs as [_ HsB]. rewrite end_of_snoc in HsB.
    replace (pred (length (A' ++ [(pb, pe)]))) with (length A') by (rewrite length_app; cbn; lia).
    replace (length (A' ++ [(pb, pe)]) =? 0)%nat with false by (symmetry; apply Nat.eqb_neq; rewrite length_app; cbn; lia).
    rewrite <- (app_assoc A'). cbn [app]. rewrite lookup_mid, <- (app_assoc A'). cbn [app].
    pose proof (proj2 (Z.ltb_lt pb b) Hpb) as Epb. cbn [negb].
    assert ((A' ++ (pb, pe) :: B) !! length (A' ++ [(pb, pe)]) = B !! O) as ->.
    { change ((pb, pe) :: B) with ([(pb, pe)] ++ B). rewrite app_assoc, lookup_app_r by lia. by rewrite Nat.sub_diag. }
    destruct B as [|[b' e'] B]; cbn [lookup list_lookup]; [by rewrite Epb, insert_mid|]. inversion HB as [|? ? Hb' _]; subst. cbn in Hb', HsB.
    rewrite andb_true_r. destruct (b <? b') eqn:E; [by rewrite Epb, insert_mid|]. apply Z.ltb_ge in E.
    by rewrite (proj2 (Z.ltb_ge b pe)) by lia.
Qed.

Lemma erase_within A B pb pe b e : separated (-1) (A ++ (pb, pe) :: B) -> 0 <= b < e -> pb < b -> e < pe ->
  erases b e (A ++ (pb, pe) :: B) (InsertIntervalImpl e pe (A ++ (pb, b) :: B)) (e - b).
Proof.
  intros Hs Hbe Hpb Hpe. apply separated_app in Hs as [HsA (H1 & H2 & HsB)].
  assert (forall x, covers A x -> x < pb) as HxA by (intros x Hc; pose proof (separated_below _ _ _ HsA Hc); lia).
  pose proof (fun x => separated_above _ _ x HsB) as HxB.
  destruct (InsertIntervalImpl_spec (A ++ (pb, b) :: B) e pe) as (H3 & H4 & H5); [|lia| |split_and!; [done| |]].
  - apply separated_app. split; [done|]. split_and!; [done..|]. eapply separated_weaken; [|exact HsB]. lia.
  - intros x Hx. rewrite covers_app, covers_cons. intros [Hc%HxA|[?|Hc%HxB]]; lia.
  - intros x. rewrite H4, !covers_app, !covers_cons. split.
    + intros [Hx|[Hx|[Hx|Hx]]]; [|pose proof (HxA _ Hx)| |pose proof (HxB _ Hx)]; (split; [|lia]); tauto || (right; left; lia).
    + intros [[Hx|[Hx|Hx]] Hn]; [tauto| |tauto]. destruct (decide (x < b)); [right; right; left; lia|left; lia].
  - rewrite H5, !lengths_app, !lengths_cons. lia.
Qed.

Lemma EraseInterval_spec t b e : separated (-1) (Tree t) -> 0 <= b < e ->
  let '(t', removed) := EraseInterval b e t in
  erases b e (Tree t) (Tree t') removed /\ NumElements t' = NumElements t - removed.
Proof.
  destruct t as [l n]. cbn [Tree NumElements]. intros Hs Hbe. destruct (decide (l = [])) as [->|Hne].
  { cbn. split; [|lia]. split_and!; [done| |done]. intros x. rewrite covers_nil. tauto. }
  destruct (lower_bound_split _ l b Hs) as (A & B & -> & Hl & HA & HB).
  rewrite (EraseInterval_cut A B b e n Hne Hl Hs HA HB). cbv zeta.
  destruct (list_ends A) as [->|(A' & [pb pe] & ->)].
  { cbn [last]. pose proof (erase_rest_spec [] B b e 0 Hs (proj2 Hbe) HA HB ltac:(done)) as Hr.
    destruct (erase_rest _ _ _ _) as [l' r']. rewrite Z.sub_0_r in Hr. done. }
  rewrite last_snoc, removelast_last. pose proof HA as [HA' Hpb]%Forall_app. rewrite Forall_singleton in Hpb. cbn in Hpb.
  destruct (b <? pe) eqn:E; [apply Z.ltb_lt in E|apply Z.ltb_ge in E].
  - pose proof Hs as [HsA HsB]%separated_app. pose proof HsA as [HsA' (H1 & H2 & _)]%separated_app. rewrite end_of_snoc in HsB.
    assert (separated (-1) ((A' ++ [(pb, b)]) ++ B)) as Hs'.
    { rewrite !separated_app, end_of_snoc. split; [split; [done|split_and!; done]|]. eapply separated_weaken; [|exact HsB]. lia. }
    destruct (e <? pe) eqn:E'; [apply Z.ltb_lt in E'|apply Z.ltb_ge in E'].
    + rewrite <- !app_assoc in *. split; [|done]. by apply erase_within.
    + pose proof (erase_rest_spec (A' ++ [(pb, b)]) B b e (pe - b) Hs' (proj2 Hbe)) as Hr.
      rewrite last_snoc in Hr. replace (length (A' ++ [(pb, pe)])) with (length (A' ++ [(pb, b)])) by (by rewrite !length_app).
      destruct (erase_rest _ _ _ _) as [l' r']. split; [|done]. destruct Hr as (H3 & H4 & H5).
      * apply Forall_app. split; [done|]. by apply Forall_singleton.
      * done.
      * by intros ? ? [= -> ->].
      * split_and!; [done| |].
        -- intros x. rewrite H4, !covers_app, !covers_cons, covers_nil.
           split; intros [Hx Hn]; (split; [|done]); destruct_or!; try tauto; left; right; left; lia.
        -- cbn [Tree]. rewrite !lengths_app, lengths_cons in H5 |- *. lia.
  - pose proof (erase_rest_spec _ B b e 0 Hs (proj2 Hbe) HA HB) as Hr. rewrite last_snoc in Hr.
    destruct (erase_rest _ _ _ _) as [l' r']. rewrite Z.sub_0_r in Hr. split; [|done]. apply Hr. intros ? ? [= -> ->]. lia.
Qed.

(** ** Queries *)

(** The entry at a cut and the one before it. *)
Lemma cut_neighbours {A} (l k : list A) : (l ++ k) !! length l = head k /\
  match length l with S n => (l ++ k) !! n = last l | O => last l = None end.
Proof.
  split; [rewrite lookup_app_r, Nat.sub_diag by lia; by destruct k|].
  destruct (list_ends l) as [->|(l' & x & ->)]; [done|].
  rewrite length_app, Nat.add_1_r, last_snoc, <- app_assoc. apply lookup_mid.
Qed.

Lemma Intersects_cut A B b e n : A ++ B <> [] -> lower_bound (A ++ B) b = length A ->
  Intersects (mkTree (A ++ B) n) b e =
  (match head B with Some (b', _) => b' <? e | None => false end || match last A with Some (_, pe) => b <? pe | None => false end)%bool.
Proof.
  intros Hne Hl. unfold Intersects. replace (Empty (mkTree (A ++ B) n)) with false by (unfold Empty; cbn; by destruct (A ++ B)).
  cbn [Tree]. rewrite Hl. destruct (cut_neighbours A B) as [-> Hp]. destruct B as [|[b' e'] B]; cbn [head].
  - by rewrite app_nil_r.
  - destruct (b' <? e); [done|]. destruct (length A); [by rewrite Hp|]. rewrite Hp. done.
Qed.

Lemma Intersects_spec t b e : separated (-1) (Tree t) -> b < e ->
  Intersects t b e = true <-> exists x, b <= x < e /\ contains t x.
Proof.
  destruct t as [l n]. unfold contains. cbn [Tree]. intros Hs Hbe. destruct (decide (l = [])) as [->|Hne].
  { split; [done|]. by intros (x & _ & Hx%covers_nil). }
  destruct (lower_bound_split _ l b Hs) as (A & B & -> & Hl & HA & HB). apply separated_app in Hs as [HsA HsB].
  rewrite (Intersects_cut _ _ _ _ _ Hne Hl), orb_true_iff. split.
  - intros [Hx|Hx].
    + destruct B as [|[b' e'] B]; [done|]. cbn in Hx. apply Z.ltb_lt in Hx. inversion HB as [|? ? Hb _]; subst. cbn in Hb.
      destruct HsB as (_ & ? & _). exists b'. split; [lia|]. rewrite covers_app, covers_cons. right; left. lia.
    + destruct (list_ends A) as [->|(A' & [pb pe] & ->)]; [done|]. rewrite last_snoc in Hx. apply Z.ltb_lt in Hx.
      apply Forall_app in HA as [_ HA]. rewrite Forall_singleton in HA. cbn in HA. exists b. split; [lia|].
      rewrite !covers_app, covers_cons. left; right; left. lia.
  - intros (x & Hx & [Hc|Hc]%covers_app).
    + right. pose proof (separated_below _ _ _ HsA Hc) as Hb. unfold end_of in Hb.
      destruct (last A) as [[pb pe]|] eqn:E; cbn in Hb; [apply Z.ltb_lt; lia|]. apply last_None in E as ->. by apply covers_nil in Hc.
    + left. destruct B as [|[b' e'] B]; [by apply covers_nil in Hc|]. cbn. apply Z.ltb_lt. destruct HsB as (_ & ? & HsB).
      apply covers_cons in Hc as [?|Hc]; [lia|]. pose proof (separated_above _ _ _ HsB Hc). lia.
Qed.

(** The interval that contains [x], with what is on both sides of it. *)
Lemma FindContaining_spec l x : separated (-1) l ->
  match FindContaining l x with
  | Some n => exists A b e B, l = A ++ (b, e) :: B /\ n = length A /\ b <= x < e
  | None => ~ covers l x
  end.
Proof.
  intros Hs. unfold FindContaining. destruct (lower_bound_split _ l x Hs) as (A & B & -> & -> & HA & HB).
  apply separated_app in Hs as [HsA HsB].
  assert (forall o, (match last A with Some (b, e) => if ((b <? x) && (x <? e))%bool then Some (pred (length A)) else None | None => None end) = o ->
    ~ covers B x -> match o with
    | Some n => exists A' b e B', A ++ B = A' ++ (b, e) :: B' /\ n = length A' /\ b <= x < e
    | None => ~ covers (A ++ B) x end) as Hin.
  { intros o <- HnB. destruct (list_ends A) as [->|(A' & [pb pe] & ->)]; [done|].
    rewrite last_snoc. apply Forall_app in HA as [_ HA]. rewrite Forall_singleton in HA. cbn in HA.
    rewrite (proj2 (Z.ltb_lt pb x)) by done. cbn [andb]. destruct (x <? pe) eqn:E; [apply Z.ltb_lt in E|apply Z.ltb_ge in E].
    - exists A', pb, pe, B. rewrite <- app_assoc, length_app. cbn. split_and!; [done|lia|lia|lia].
    - rewrite covers_app. intros [Hc|Hc]; [|done]. pose proof (separated_below _ _ _ HsA Hc) as Hb. rewrite end_of_snoc in Hb. lia. }
  destruct (cut_neighbours A B) as [-> Hp]. destruct B as [|[b e] B]; cbn [head].
  - rewrite app_nil_r in *. apply Hin; [|by intros ?%covers_nil]. destruct (list_ends A) as [->|(A' & [pb pe] & ->)]; [done|].
    rewrite last_snoc, length_app, Nat.add_1_r. cbn [pred]. destruct A'; [done|].
    by rewrite (lookup_mid (p :: A') [] (pb, pe)).
  - inversion HB as [|? ? Hb _]; subst. cbn in Hb. destruct HsB as (H1 & H2 & HsB). destruct (b =? x) eqn:E.
    + apply Z.eqb_eq in E as ->. exists A, x, e, B. split_and!; [done..|lia|lia].
    + apply Z.eqb_neq in E. apply Hin.
      * destruct (length A); [by rewrite Hp|rewrite Hp; done].
      * rewrite covers_cons. intros [?|Hc]; [lia|]. pose proof (separated_above _ _ _ HsB Hc). lia.
Qed.

Lemma Has_spec t x : separated (-1) (Tree t) -> Has t x = true <-> contains t x.
Proof.
  intros Hs. unfold Has, contains. pose proof (FindContaining_spec _ x Hs) as Hf. destruct (FindContaining _ x); [|intuition congruence].
  destruct Hf as (A & b & e & B & -> & _ & Hx). rewrite covers_app, covers_cons. tauto.
Qed.

Lemma Erase_spec t x : separated (-1) (Tree t) -> 0 <= x ->
  let '(t', found) := Erase x t in
  (found = true <-> contains t x) /\ erases x (x + 1) (Tree t) (Tree t') (if found then 1 else 0) /\
  NumElements t' = NumElements t - (if found then 1 else 0).
Proof.
  destruct t as [l n]. unfold contains, Erase. cbn [Tree NumElements]. intros Hs Hx0.
  pose proof (FindContaining_spec _ x Hs) as Hf. destruct (FindContaining l x) as [m|].
  2: { cbn [Tree NumElements]. split_and!; [intuition congruence|split_and!; [done| |lia]|lia]. intros y. split; [|tauto].
       intros Hy. split; [done|]. intros ?. assert (y = x) as -> by lia. done. }
  destruct Hf as (A & b & e & B & -> & -> & Hx). rewrite lookup_mid, !insert_mid, delete_mid.
  assert (covers (A ++ (b, e) :: B) x) as Hc by (rewrite covers_app, covers_cons; tauto).
  split_and!; [tauto| |done]. cbn [Tree]. pose proof Hs as [HsA (H1 & H2 & HsB)]%separated_app.
  assert (forall y, covers A y -> y < b) as HxA by (intros y Hy; pose proof (separated_below _ _ _ HsA Hy); lia).
  pose proof (fun y => separated_above _ _ y HsB) as HxB.
  assert (forall b' e', b' < e' -> b <= b' -> e' <= e -> e' - b' = e - b - 1 -> (forall y, b' <= y < e' <-> b <= y < e /\ y <> x) ->
    erases x (x + 1) (A ++ (b, e) :: B) (A ++ (b', e') :: B) 1) as Hcut.
  { intros b' e' ? ? ? ? Hy. split_and!.
    - apply separated_app. split; [done|]. split_and!; [lia|done|]. eapply separated_weaken; [|exact HsB]. lia.
    - intros y. specialize (Hy y). specialize (HxA y). specialize (HxB y). rewrite !covers_app, !covers_cons.
      split; [intros [Hp|[Hp|Hp]]|intros [[Hp|[Hp|Hp]] Hn]]; try tauto; try (split; [tauto|]);
        try (specialize (HxA Hp)); try (specialize (HxB Hp)); try lia; right; left; apply Hy; lia.
    - rewrite !lengths_app, !lengths_cons. lia. }
  destruct (x =? b) eqn:E1; [apply Z.eqb_eq in E1 as ->|apply Z.eqb_neq in E1].
  - destruct (b + 1 =? e) eqn:E2; [apply Z.eqb_eq in E2 as <-|apply Z.eqb_neq in E2; apply Hcut; lia].
    split_and!.
    + apply separated_app. split; [done|]. eapply separated_weaken; [|exact HsB]. lia.
    + intros y. specialize (HxA y). specialize (HxB y). rewrite !covers_app, !covers_cons.
      split; [intros [Hp|Hp]|intros [[Hp|[Hp|Hp]] Hn]]; try tauto; split; try tauto;
        try (specialize (HxA Hp)); try (specialize (HxB Hp)); lia.
    + rewrite !lengths_app, !lengths_cons. lia.
  - destruct (x =? e - 1) eqn:E2; [apply Z.eqb_eq in E2; apply Hcut; lia|apply Z.eqb_neq in E2].
    replace 1 with (x + 1 - x) at 3 by lia. apply erase_within; [done|lia|lia|lia].
Qed.

(** There is one list of separated intervals for a set of numbers. *)
Lemma separated_unique lo lo' l k : separated lo l -> separated lo' k -> (forall x, covers l x <-> covers k x) -> l = k.
Proof.
  revert lo lo' k. induction l as [|[b e] l IH]; intros lo lo' [|[b' e'] k] Hl Hk Heq; [done| | |].
  - destruct Hk as (_ & ? & _). exfalso. apply (proj1 (covers_nil b')), Heq, covers_cons. left. lia.
  - destruct Hl as (_ & ? & _). exfalso. apply (proj1 (covers_nil b)), Heq, covers_cons. left. lia.
  - destruct Hl as (_ & Hb & Hl), Hk as (_ & Hb' & Hk).
    assert (forall x, covers l x -> e < x) as Hxl by (intros x; by apply separated_above).
    assert (forall x, covers k x -> e' < x) as Hxk by (intros x; by apply separated_above).
    assert (forall x, b <= x < e \/ covers l x <-> b' <= x < e' \/ covers k x) as Heq' by (intros x; by rewrite <- !covers_cons).
    assert (b = b') as <-.
    { pose proof (proj1 (Heq' b) ltac:(left; lia)) as [?|?%Hxk]; pose proof (proj2 (Heq' b') ltac:(left; lia)) as [?|?%Hxl]; lia. }
    assert (e = e') as <-.
    { destruct (Z.lt_trichotomy e e') as [?|[?|?]]; [exfalso|done|exfalso].
      - pose proof (proj2 (Heq' e) ltac:(left; lia)) as [?|?%Hxl]; lia.
      - pose proof (proj1 (Heq' e') ltac:(left; lia)) as [?|?%Hxk]; lia. }
    f_equal. eapply IH; [exact Hl|exact Hk|]. intros x. specialize (Heq' x).
    split; intros Hc; [pose proof (Hxl x Hc)|pose proof (Hxk x Hc)]; destruct Heq' as [H1 H2];
      [destruct (H1 (or_intror Hc))|destruct (H2 (or_intror Hc))]; done || lia.
Qed.

(** ** The operations on well-formed trees *)

Lemma EmptyTree_wf : tree_wf EmptyTree.
Proof. done. Qed.

Lemma InsertInterval_wf t b e : tree_wf t -> 0 <= b < e -> Intersects t b e = false ->
  tree_wf (InsertInterval b e t) /\ (forall x, contains (InsertInterval b e t) x <-> b <= x < e \/ contains t x).
Proof.
  intros [Hs Hn] Hbe Hi. destruct (InsertIntervalImpl_spec (Tree t) b e) as (H1 & H2 & H3); [done|done| |].
  - intros x Hx Hc. assert (Intersects t b e = true) by (apply Intersects_spec; [done|lia|by exists x]). congruence.
  - split; [split; [done|]|done]. cbn [InsertInterval Tree NumElements]. rewrite H3. lia.
Qed.

Lemma EraseInterval_wf t b e : tree_wf t -> 0 <= b < e -> let '(t', removed) := EraseInterval b e t in
  tree_wf t' /\ (forall x, contains t' x <-> contains t x /\ ~ (b <= x < e)) /\ removed = NumElements t - NumElements t'.
Proof.
  intros [Hs Hn] Hbe. pose proof (EraseInterval_spec t b e Hs Hbe) as H. destruct (EraseInterval b e t) as [t' r].
  destruct H as ((H1 & H2 & H3) & H4). split_and!; [split; [done|lia]|done|lia].
Qed.

Lemma Erase_wf t x : tree_wf t -> 0 <= x -> let '(t', found) := Erase x t in
  tree_wf t' /\ (found = true <-> contains t x) /\ (forall y, contains t' y <-> contains t y /\ y <> x).
Proof.
  intros [Hs Hn] Hx. pose proof (Erase_spec t x Hs Hx) as H. destruct (Erase x t) as [t' found].
  destruct H as (H1 & (H2 & H3 & H4) & H5). split_and!; [split; [done|destruct found; lia]|done|].
  intros y. unfold contains. rewrite H3. split; intros [? ?]; split; (done || lia).
Qed.

(** C17: a well-formed tree is the set of the numbers it contains, each
    operation is the operation on sets, and a set has one tree. *)
Theorem interval_tree_implements_set t b e : tree_wf t -> 0 <= b < e ->
  (Intersects t b e = true <-> exists x, b <= x < e /\ contains t x) /\
  (forall x, Has t x = true <-> contains t x) /\
  (Intersects t b e = false -> tree_wf (InsertInterval b e t) /\
     forall x, contains (InsertInterval b e t) x <-> b <= x < e \/ contains t x) /\
  (let '(t', removed) := EraseInterval b e t in
     tree_wf t' /\ (forall x, contains t' x <-> contains t x /\ ~ (b <= x < e)) /\ removed = NumElements t - NumElements t') /\
  (let '(t', found) := Erase b t in
     tree_wf t' /\ (found = true <-> contains t b) /\ (forall x, contains t' x <-> contains t x /\ x <> b)) /\
  (forall t', tree_wf t' -> (forall x, contains t' x <-> contains t x) -> t' = t).
Proof.
  intros Hw Hbe. pose proof Hw as [Hs Hn]. split_and!.
  - apply Intersects_spec; [done|lia].
  - intros x. by apply Has_spec.
  - by apply InsertInterval_wf.
  - by apply EraseInterval_wf.
  - apply Erase_wf; [done|lia].
  - intros [l' n'] [Hs' Hn'] Heq. destruct t as [l n]. cbn in *. assert (l' = l) as -> by (by eapply separated_unique). by subst.
Qed.

Lemma interval_tree_implements_set_witness :
  Tree (EraseInterval 3 12 (mkTree [(1, 5); (7, 9); (10, 20)] 16)).1 = [(1, 3); (12, 20)] /\
  (forall x, Has (mkTree [(1, 5); (7, 9); (10, 20)] 16) x = true <-> contains (mkTree [(1, 5); (7, 9); (10, 20)] 16) x).
Proof.
  split; [reflexivity|].
  apply (interval_tree_implements_set (mkTree [(1, 5); (7, 9); (10, 20)] 16) 3 12); [|lia].
  split; [cbn; lia|reflexivity].
Defined.
