(* ===== verification/ReadCommit.v ===== *)
(** * Offsets of a partition: what is read and what is committed

    [TPartitionStreamImpl] of [client/topic/impl/read_session_impl.h] with [Commit] and
    the validation of the offsets of a read response from [read_session_impl.ipp], for the
    topic protocol (ranges mode).  [ClientCommits] holds what was committed by the user or
    skipped by the server and not acknowledged yet, [Commits] what of it was not sent yet.

    A [Y_ABORT_UNLESS] is [Abort]; [ThrowFatalError] is [Throw]; an overflow of an [int64_t]
    is [Undefined].  Shown for every sequence of responses, commits and acknowledgements:
    no range is sent twice, what is sent was committed or skipped, and a commit sends all
    that was committed or skipped below its end, so that once all that was read below an
    offset is committed, everything below it has been sent. *)

From S2P Require Import Prelude IntervalTree.

(** ** Messages of a read response *)

Inductive Codec := CODEC_UNSPECIFIED | CODEC_RAW | CODEC_KAFKA_BATCH | CODEC_OTHER (n : Z).

(** What [ReadKafkaBatchHeader] makes of the data of a message: no header, one with a
    [RecordsCount], or undefined behaviour, which a batch of the old format with nothing
    inside causes ([KafkaTheorems.kafka_empty_wrapper_undefined]). *)
Inductive batch_header := NoHeader | WithHeader (RecordsCount : Z) | UndefinedHeader.

Record MessageData := mkMessage {
  offset : Z; metadata_items : list (string * string); data : string; uncompressed_size : Z;
  header : batch_header }.
Record Batch := mkBatch { codec : Codec; message_data : list MessageData }.

Definition undefined_header : failure := Undefined "back of an empty vector".

Definition GetReadMessageCount (m : MessageData) (c : Codec) : outcome Z :=
  match c with
  | CODEC_KAFKA_BATCH =>
      match header m with
      | WithHeader n => Ok (u64 n)
      | NoHeader => Ok 1
      | UndefinedHeader => Fail undefined_header
      end
  | _ => Ok 1
  end.

Definition IsReplicationServiceMessage (off : Z) (metadata : list (string * string)) : bool :=
  if off =? 0 then
    existsb (fun kv => bool_decide (kv = ("_ydb_service_replication_message"%string, "true"%string))) metadata
  else false.

(** ** The offsets of a partition stream *)

Record TPartitionStreamImpl := mkStream {
  AssignId : Z;
  PartitionSessionId : Z;
  PartitionId : Z;
  FirstNotReadOffset : Z;
  MaxReadOffset : Z;
  MaxCommittedOffset : Z;
  Commits : TDisjointIntervalTree;
  ClientCommits : TDisjointIntervalTree }.

(** The constructor: [readOffset] is the committed offset the server reports. *)
Definition TPartitionStreamImpl_new (assignId partitionStreamId partitionId readOffset : Z) : TPartitionStreamImpl :=
  mkStream assignId partitionStreamId partitionId (u64 readOffset) 0 (u64 readOffset) EmptyTree EmptyTree.

Definition SetFirstNotReadOffset (off : Z) (p : TPartitionStreamImpl) : TPartitionStreamImpl :=
  mkStream (AssignId p) (PartitionSessionId p) (PartitionId p) off (MaxReadOffset p) (MaxCommittedOffset p) (Commits p) (ClientCommits p).

Definition UpdateMaxReadOffset (off : Z) (p : TPartitionStreamImpl) : TPartitionStreamImpl :=
  if off >? MaxReadOffset p then
    mkStream (AssignId p) (PartitionSessionId p) (PartitionId p) (FirstNotReadOffset p) off (MaxCommittedOffset p) (Commits p) (ClientCommits p)
  else p.

Definition UpdateMaxCommittedOffset (off : Z) (p : TPartitionStreamImpl) : TPartitionStreamImpl :=
  if off >? MaxCommittedOffset p then
    mkStream (AssignId p) (PartitionSessionId p) (PartitionId p) (FirstNotReadOffset p) (MaxReadOffset p) off (Commits p)
      (EraseInterval (MaxCommittedOffset p) off (ClientCommits p)).1
  else p.

Definition HasCommitsInflight (p : TPartitionStreamImpl) : bool :=
  match Tree (ClientCommits p) with
  | [] => false
  | (first, _) :: _ =>
      if first >? MaxCommittedOffset p then false
      else match Tree (Commits p) with
           | (first', _) :: _ => negb (first' =? first)
           | [] => true
           end
  end.

Definition AddToCommitRanges (startOffset endOffset : Z) (rangesMode : bool) : M TPartitionStreamImpl unit := fun p =>
  if (Intersects (ClientCommits p) startOffset endOffset || (startOffset <? MaxCommittedOffset p))%bool then
    Fail (Throw "Invalid offset range")
  else if (rangesMode && Intersects (Commits p) startOffset endOffset)%bool then
    Fail (Abort "!Commits.Intersects(startOffset, endOffset)")
  else
    Ok (tt, mkStream (AssignId p) (PartitionSessionId p) (PartitionId p) (FirstNotReadOffset p) (MaxReadOffset p) (MaxCommittedOffset p)
              (if rangesMode then InsertInterval startOffset endOffset (Commits p) else Commits p)
              (InsertInterval startOffset endOffset (ClientCommits p))).

(** The ranges of [Commits] that begin before [endOffset]. *)
Fixpoint toCommit (endOffset : Z) (l : list (Z * Z)) : list (Z * Z) :=
  match l with
  | (first, second) :: l => if first >=? endOffset then [] else (first, Z.min second endOffset) :: toCommit endOffset l
  | [] => []
  end.

(** [Commit]: the ranges that are handed to the session to be sent. *)
Definition Commit (startOffset endOffset : Z) : M TPartitionStreamImpl (list (Z * Z)) :=
  abort_unless (endOffset >? startOffset) "endOffset > startOffset" ;;
  AddToCommitRanges startOffset endOffset true ;;
  p ← get_st ;
  abort_unless (negb (Empty (Commits p))) "!Commits.Empty()" ;;
  modify (fun p => mkStream (AssignId p) (PartitionSessionId p) (PartitionId p) (FirstNotReadOffset p) (MaxReadOffset p) (MaxCommittedOffset p)
                     (EraseInterval 0 endOffset (Commits p)).1 (ClientCommits p)) ;;
  mret (toCommit endOffset (Tree (Commits p))).

(** [ConfirmCreate]: the user may tell what it has processed. *)
Definition ConfirmCreate (commitOffset : option Z) (p : TPartitionStreamImpl) : TPartitionStreamImpl :=
  match commitOffset with Some off => SetFirstNotReadOffset off p | None => p end.

Definition i64_add (a b : Z) : option Z :=
  if ((- 2 ^ 63 <=? a + b) && (a + b <? 2 ^ 63))%bool then Some (a + b) else None.

(** One message of the loop of [OnReadDoneImpl(ReadResponse)], with [desiredOffset]. *)
Definition ValidateMessage (c : Codec) (m : MessageData) (desiredOffset : Z) : M TPartitionStreamImpl Z :=
  match GetReadMessageCount m c with
  | Fail f => fun _ => Fail f
  | Ok logicalMessageCount =>
      if IsReplicationServiceMessage (u64 (offset m)) (metadata_items m) then mret desiredOffset
      else
        when (offset m >? desiredOffset) (AddToCommitRanges (u64 desiredOffset) (u64 (offset m)) true) ;;
        match i64_add (offset m) (wrapS 64 logicalMessageCount) with
        | None => undefined "currentOffset + logicalMessageCount"
        | Some next =>
            match i64_add next (-1) with
            | None => undefined "currentOffset + logicalMessageCount"
            | Some last_offset =>
                modify (UpdateMaxReadOffset (u64 last_offset)) ;;
                mret (Z.max desiredOffset next)
            end
        end
  end.

Fixpoint ValidateMessages (l : list (Codec * MessageData)) (desiredOffset : Z) : M TPartitionStreamImpl Z :=
  match l with
  | [] => mret desiredOffset
  | (c, m) :: l => desiredOffset ← ValidateMessage c m desiredOffset ; ValidateMessages l desiredOffset
  end.

(** The messages of [partitionData.batches()], in the order of the loops. *)
Definition messages_of (batches : list Batch) : list (Codec * MessageData) :=
  concat (map (fun b => map (pair (codec b)) (message_data b)) batches).

(** What [OnReadDoneImpl(ReadResponse)] does to the offsets of a partition; the result is
    false for a response without a message ([firstOffset] is still the largest number). *)
Definition ValidateOffsets (batches : list Batch) : M TPartitionStreamImpl bool :=
  p ← get_st ;
  desiredOffset ← ValidateMessages (messages_of batches) (wrapS 64 (FirstNotReadOffset p)) ;
  if existsb (fun cm => negb (offset cm.2 =? 2 ^ 63 - 1)) (messages_of batches) then
    modify (SetFirstNotReadOffset (u64 desiredOffset)) ;; mret true
  else mret false.

(** ** Runs of a partition stream *)

Inductive reader_event :=
  | Received (batches : list Batch)
  | Committed (startOffset endOffset : Z)
  | Acknowledged (committed_offset : Z).

(** One event, with the ranges sent so far. *)
Definition reader_step (ev : reader_event) (st : TPartitionStreamImpl * list (Z * Z)) : outcome (TPartitionStreamImpl * list (Z * Z)) :=
  let '(p, sent) := st in
  match ev with
  | Received batches => match ValidateOffsets batches p with Ok (_, p) => Ok (p, sent) | Fail f => Fail f end
  | Committed s e => match Commit s e p with Ok (ranges, p) => Ok (p, sent ++ ranges) | Fail f => Fail f end
  | Acknowledged off => Ok (UpdateMaxCommittedOffset (u64 off) p, sent)
  end.

Fixpoint reader_run (evs : list reader_event) (st : TPartitionStreamImpl * list (Z * Z)) : outcome (TPartitionStreamImpl * list (Z * Z)) :=
  match evs with
  | [] => Ok st
  | ev :: evs => match reader_step ev st with Ok st => reader_run evs st | Fail f => Fail f end
  end.

(** ** What a run reads and skips *)

Definition service (m : MessageData) : bool := IsReplicationServiceMessage (u64 (offset m)) (metadata_items m).

(** The offset after a message whose header can be read. *)
Definition next_of (cm : Codec * MessageData) : Z :=
  offset cm.2 + wrapS 64 match GetReadMessageCount cm.2 cm.1 with Ok n => n | Fail _ => 1 end.

(** The offset after the messages. *)
Fixpoint position (d : Z) (l : list (Codec * MessageData)) : Z :=
  match l with
  | [] => d
  | cm :: l => if service cm.2 then position d l else position (Z.max d (next_of cm)) l
  end.

(** The offsets the server skipped. *)
Fixpoint gaps (d : Z) (l : list (Codec * MessageData)) : list (Z * Z) :=
  match l with
  | [] => []
  | cm :: l =>
      if service cm.2 then gaps d l
      else (if offset cm.2 >? d then [(d, offset cm.2)] else []) ++ gaps (Z.max d (next_of cm)) l
  end.

Definition reads (l : list (Codec * MessageData)) (x : Z) : Prop :=
  Exists (fun cm => service cm.2 = false /\ offset cm.2 <= x < next_of cm) l.

Definition events_messages (evs : list reader_event) : list (Codec * MessageData) :=
  concat (map (fun ev => match ev with Received batches => messages_of batches | _ => [] end) evs).

(** The offsets the user committed. *)
Definition asked (evs : list reader_event) (x : Z) : Prop :=
  Exists (fun ev => match ev with Committed s e => s <= x < e | _ => False end) evs.

(** Fields of the messages of the wire and arguments of the calls at their width. *)
Definition event_ok (ev : reader_event) : Prop :=
  match ev with
  | Received batches => Forall (fun cm => - 2 ^ 63 <= offset cm.2 < 2 ^ 63 - 1) (messages_of batches)
  | Committed s e => 0 <= s < e /\ e < 2 ^ 64
  | Acknowledged off => inS 64 off
  end.

(** Ranges that are not empty and have no number in common. *)
Fixpoint disjoint_ranges (l : list (Z * Z)) : Prop :=
  match l with
  | (b, e) :: l => b < e /\ (forall x, b <= x < e -> ~ covers l x) /\ disjoint_ranges l
  | [] => True
  end.

Lemma disjoint_ranges_app l k : disjoint_ranges (l ++ k) <->
  disjoint_ranges l /\ disjoint_ranges k /\ (forall x, covers l x -> ~ covers k x).
Proof.
  induction l as [|[b e] l IH]; cbn.
  - split; [|tauto]. intros Hk. split_and!; [done|done|]. by intros x ?%covers_nil.
  - rewrite IH. split.
    + intros (H1 & H2 & H3 & H4 & H5). split_and!; [done| |done|done|].
      * intros x Hx Hc. apply (H2 x Hx). rewrite covers_app. tauto.
      * intros x [Hx|Hx]%covers_cons; [|by apply H5]. intros Hc. apply (H2 x Hx). rewrite covers_app. tauto.
    + intros ((H1 & H2 & H3) & H4 & H5). split_and!; [done| |done|done|].
      * intros x Hx [Hc|Hc]%covers_app; [by apply (H2 x)|]. apply (H5 x); [|done]. rewrite covers_cons. tauto.
      * intros x Hx. apply H5. rewrite covers_cons. tauto.
Qed.

Lemma separated_disjoint lo l : separated lo l -> disjoint_ranges l.
Proof.
  revert lo. induction l as [|[b e] l IH]; intros lo; [done|]. cbn. intros (H1 & H2 & H3). split_and!; [done| |by eapply IH].
  intros x Hx Hc. pose proof (separated_above _ _ _ H3 Hc). lia.
Qed.

(** What is sent of a tree cut at [e]. *)
Lemma toCommit_spec lo l e : separated lo l -> separated lo (toCommit e l) /\ (forall x, covers (toCommit e l) x <-> covers l x /\ x < e).
Proof.
  revert lo. induction l as [|[b e'] l IH]; intros lo; cbn [toCommit].
  { intros _. split; [done|]. intros x. rewrite covers_nil. tauto. }
  intros (H1 & H2 & H3). rewrite Z.geb_leb. destruct (e <=? b) eqn:E; [apply Z.leb_le in E|apply Z.leb_gt in E].
  - split; [done|]. intros x. rewrite covers_nil, covers_cons. split; [done|]. intros [[?|Hc] ?]; [lia|].
    pose proof (separated_above _ _ _ H3 Hc). lia.
  - destruct (IH _ H3) as [H4 H5]. split.
    + cbn. split_and!; [done|lia|]. eapply separated_weaken; [|exact H4]. lia.
    + intros x. rewrite !covers_cons, H5. split; [intros [?|[? ?]]; (split; [|lia]); tauto || (left; lia)|].
      intros [[?|?] ?]; [left; lia|tauto].
Qed.

(** ** The invariant

    [taken] lists what was committed or skipped so far. *)
Record stream_inv (p : TPartitionStreamImpl) (taken sent : list (Z * Z)) : Prop := {
  inv_commits : tree_wf (Commits p);
  inv_client : tree_wf (ClientCommits p);
  inv_max : 0 <= MaxCommittedOffset p;
  inv_read : 0 <= FirstNotReadOffset p < 2 ^ 63;
  inv_client_set : forall x, contains (ClientCommits p) x <-> covers taken x /\ MaxCommittedOffset p <= x;
  inv_taken : forall x, covers taken x <-> covers sent x \/ contains (Commits p) x;
  inv_fresh : forall x, covers sent x -> ~ contains (Commits p) x;
  inv_sent : disjoint_ranges sent }.

Lemma stream_inv_new a i q off : 0 <= off < 2 ^ 63 -> stream_inv (TPartitionStreamImpl_new a i q off) [] [].
Proof.
  intros Hoff. assert (u64 off = off) as E by (apply Z.mod_small; lia).
  split; cbn; rewrite ?E; try done; try lia; try apply EmptyTree_wf; unfold contains; cbn; intros x; rewrite ?covers_nil; tauto.
Qed.

(** When a range is refused. *)
Definition refused (p : TPartitionStreamImpl) (taken : list (Z * Z)) (s e : Z) : Prop :=
  s < MaxCommittedOffset p \/ exists x, s <= x < e /\ covers taken x.

Lemma AddToCommitRanges_spec p taken sent s e : stream_inv p taken sent -> 0 <= s < e ->
  match AddToCommitRanges s e true p with
  | Ok (_, p') => ~ refused p taken s e /\ stream_inv p' (taken ++ [(s, e)]) sent /\
      FirstNotReadOffset p' = FirstNotReadOffset p /\ MaxCommittedOffset p' = MaxCommittedOffset p
  | Fail f => refused p taken s e /\ f = Throw "Invalid offset range"
  end.
Proof.
  intros [Hc Hcl Hm Hr Hcs Ht Hf Hs] Hse. unfold AddToCommitRanges.
  assert ((Intersects (ClientCommits p) s e || (s <? MaxCommittedOffset p))%bool = true <-> refused p taken s e) as Href.
  { rewrite orb_true_iff, Z.ltb_lt, (Intersects_spec _ _ _ (proj1 Hcl)) by lia. unfold refused. split.
    - intros [(x & Hx & Hin)|?]; [right; exists x; by apply Hcs in Hin as [? _]|tauto].
    - intros [?|(x & Hx & Hin)]; [tauto|]. destruct (decide (s < MaxCommittedOffset p)); [tauto|].
      left. exists x. split; [done|]. apply Hcs. split; [done|lia]. }
  destruct (_ || _)%bool eqn:E; [split; [by apply Href|done]|].
  apply orb_false_iff in E as [Ei Em]. apply Z.ltb_ge in Em. cbn [andb].
  assert (~ refused p taken s e) as Hnr by (intros Hx; apply Href in Hx; congruence).
  assert (Intersects (Commits p) s e = false) as Ec.
  { apply not_true_is_false. intros (x & Hx & Hin)%Intersects_spec; [|apply Hc|lia]. apply Hnr. right. exists x.
    split; [done|]. apply Ht. tauto. }
  rewrite Ec. split; [done|]. destruct (InsertInterval_wf _ s e Hc Hse Ec) as [Hc' Hci].
  destruct (InsertInterval_wf _ s e Hcl Hse Ei) as [Hcl' Hcli].
  assert (forall x, s <= x < e -> ~ covers taken x) as Hnew by (intros x ? ?; apply Hnr; right; by exists x).
  split; [|done]. split; cbn; try done.
  - intros x. rewrite Hcli, Hcs, covers_app, covers_cons, covers_nil. split; [intros [?|?]|intros [[?|[?|[]]] ?]]; tauto || (split; [tauto|lia]).
  - intros x. rewrite Hci, covers_app, covers_cons, covers_nil, Ht. tauto.
  - intros x Hx. rewrite Hci. intros [?|?]; [|by apply (Hf x)]. apply (Hnew x); [done|]. apply Ht. tauto.
Qed.

Lemma Commit_spec p taken sent s e : stream_inv p taken sent -> 0 <= s < e ->
  match Commit s e p with
  | Ok (ranges, p') => ~ refused p taken s e /\ stream_inv p' (taken ++ [(s, e)]) (sent ++ ranges) /\
      FirstNotReadOffset p' = FirstNotReadOffset p /\
      (forall x, covers (taken ++ [(s, e)]) x -> x < e -> covers (sent ++ ranges) x)
  | Fail f => refused p taken s e /\ f = Throw "Invalid offset range"
  end.
Proof.
  intros Hinv Hse. unfold Commit, abort_unless, mbind, M_bind, mret, M_ret, get_st, modify.
  rewrite Z.gtb_ltb, (proj2 (Z.ltb_lt s e)) by lia. pose proof (AddToCommitRanges_spec p taken sent s e Hinv Hse) as Ha.
  destruct (AddToCommitRanges s e true p) as [[u p1]|f]; [|done]. destruct Ha as (Hnr & [Hc Hcl Hm Hr Hcs Ht Hf Hs] & Hfr & Hmx).
  assert (contains (Commits p1) s) as Hin.
  { destruct (proj1 (Ht s)) as [Hx|Hx]; [rewrite covers_app, covers_cons; right; left; lia| |done].
    exfalso. apply Hnr. right. exists s. split; [lia|]. apply (inv_taken _ _ _ Hinv). tauto. }
  assert (Empty (Commits p1) = false) as He.
  { unfold Empty. unfold contains in Hin. destruct (Tree (Commits p1)); [by apply covers_nil in Hin|done]. }
  rewrite He. cbn [negb]. split; [done|]. destruct (toCommit_spec _ _ e (proj1 Hc)) as [Ht1 Ht2].
  pose proof (EraseInterval_wf (Commits p1) 0 e Hc ltac:(lia)) as Her. destruct (EraseInterval 0 e (Commits p1)) as [c' r]. cbn [fst].
  destruct Her as (Hc' & Her & _).
  assert (forall x, contains (Commits p1) x -> 0 <= x) as Hpos by (intros x Hx; pose proof (separated_above _ _ _ (proj1 Hc) Hx); lia).
  split_and!; [|done|].
  - split; cbn; try done.
    + intros x. rewrite Ht, covers_app, Ht2, Her. specialize (Hpos x). unfold contains in *. destruct (decide (x < e)); [|tauto].
      split; [intros [?|Hx]|intros [[?|?]|?]]; tauto.
    + intros x. rewrite covers_app, Ht2, Her. intros [Hx|[Hx ?]] [Hx' Hn]; [by apply (Hf x)|]. apply Hn. specialize (Hpos x Hx). lia.
    + apply disjoint_ranges_app. split_and!; [done|by eapply separated_disjoint|]. intros x Hx [Hx' _]%Ht2. by apply (Hf x).
  - intros x Hx He'. rewrite covers_app, Ht2. apply Ht in Hx as [?|?]; [tauto|right; tauto].
Qed.

Lemma UpdateMaxCommittedOffset_spec p taken sent off : stream_inv p taken sent ->
  stream_inv (UpdateMaxCommittedOffset off p) taken sent /\ FirstNotReadOffset (UpdateMaxCommittedOffset off p) = FirstNotReadOffset p.
Proof.
  intros [Hc Hcl Hm Hr Hcs Ht Hf Hs]. unfold UpdateMaxCommittedOffset. rewrite Z.gtb_ltb.
  destruct (MaxCommittedOffset p <? off) eqn:E; [|done]. apply Z.ltb_lt in E.
  pose proof (EraseInterval_wf (ClientCommits p) (MaxCommittedOffset p) off Hcl ltac:(lia)) as Her.
  destruct (EraseInterval _ _ _) as [c' r]. cbn [fst]. destruct Her as (Hc' & Her & _).
  split; [|done]. split; cbn; try done; [lia|]. intros x. rewrite Her, Hcs. split; [intros [[? ?] ?]|intros [? ?]]; split_and!; done || lia.
Qed.

Lemma UpdateMaxReadOffset_inv p taken sent off : stream_inv p taken sent ->
  stream_inv (UpdateMaxReadOffset off p) taken sent /\ FirstNotReadOffset (UpdateMaxReadOffset off p) = FirstNotReadOffset p.
Proof. intros H. unfold UpdateMaxReadOffset. destruct (off >? _); [|done]. by destruct H. Qed.

Definition not_abort (f : failure) : Prop :=
  match f with
  | Abort _ => False
  | Throw m => m = "Invalid offset range"%string
  | Undefined m => m = "currentOffset + logicalMessageCount"%string \/ f = undefined_header
  end.

Lemma GetReadMessageCount_fails m c f : GetReadMessageCount m c = Fail f -> f = undefined_header.
Proof. destruct c, m as [? ? ? ? []]; cbn; congruence. Qed.

Lemma ValidateMessages_spec l : forall d p taken sent, stream_inv p taken sent -> 0 <= d < 2 ^ 63 ->
  Forall (fun cm => - 2 ^ 63 <= offset cm.2 < 2 ^ 63 - 1) l ->
  match ValidateMessages l d p with
  | Ok (d', p') => d' = position d l /\ 0 <= d' < 2 ^ 63 /\ stream_inv p' (taken ++ gaps d l) sent /\
      FirstNotReadOffset p' = FirstNotReadOffset p
  | Fail f => not_abort f
  end.
Proof.
  induction l as [|[c m] l IH]; intros d p taken sent Hinv Hd Hl; cbn [ValidateMessages gaps position].
  { cbn. rewrite app_nil_r. done. }
  inversion Hl as [|? ? Hm Hl']; subst. cbn in Hm. unfold ValidateMessage, mbind, M_bind. cbn [snd].
  destruct (GetReadMessageCount m c) as [n|f] eqn:En; [|apply GetReadMessageCount_fails in En as ->; by right].
  fold (service m).
  destruct (service m); [cbv beta iota; apply (IH d p taken sent); done|]. rewrite !Z.gtb_ltb.
  assert (match (when (d <? offset m) (AddToCommitRanges (u64 d) (u64 (offset m)) true)) p with
    | Ok (_, p') => stream_inv p' (taken ++ if d <? offset m then [(d, offset m)] else []) sent /\ FirstNotReadOffset p' = FirstNotReadOffset p
    | Fail f => not_abort f end) as Ha.
  { destruct (d <? offset m) eqn:E; cbn [when]; [|by rewrite app_nil_r]. apply Z.ltb_lt in E.
    unfold wrapU; rewrite !(Z.mod_small _ (2 ^ 64)) by lia.
    pose proof (AddToCommitRanges_spec p taken sent d (offset m) Hinv ltac:(lia)) as Ha.
    destruct (AddToCommitRanges _ _ _ _) as [[u p1]|f]; [tauto|]. by destruct Ha as [_ ->]. }
  destruct (when _ _ p) as [[u p1]|f]; [|done]. destruct Ha as [Hinv1 Hf1].
  assert (next_of (c, m) = offset m + wrapS 64 n) as Hnext by (unfold next_of; cbn [fst snd]; by rewrite En).
  unfold i64_add. rewrite <- Hnext.
  destruct (_ && _)%bool eqn:E; [|by left]. apply andb_true_iff in E as [E1 E2]. apply Z.leb_le in E1. apply Z.ltb_lt in E2.
  change (next_of (c, m) + -1) with (next_of (c, m) - 1). destruct (_ && _)%bool; [|by left].
  unfold modify, mret, M_ret. cbv beta iota. destruct (UpdateMaxReadOffset_inv p1 _ sent (u64 (next_of (c, m) - 1)) Hinv1) as [Hinv2 Hf2].
  specialize (IH (Z.max d (next_of (c, m))) _ _ _ Hinv2 ltac:(lia) Hl'). destruct (ValidateMessages l _ _) as [[d' p']|]; [|done].
  rewrite app_assoc, <- Hf1, <- Hf2. done.
Qed.

Lemma ValidateOffsets_spec batches p taken sent : stream_inv p taken sent -> event_ok (Received batches) ->
  match ValidateOffsets batches p with
  | Ok (nonempty, p') =>
      let d := FirstNotReadOffset p in
      stream_inv p' (taken ++ gaps d (messages_of batches)) sent /\
      FirstNotReadOffset p' = position d (messages_of batches) /\ (nonempty = false <-> messages_of batches = [])
  | Fail f => not_abort f
  end.
Proof.
  cbn [event_ok]. intros Hinv Hl. unfold ValidateOffsets, mbind, M_bind, get_st. cbv beta iota.
  pose proof (inv_read _ _ _ Hinv) as Hr. replace (wrapS 64 (FirstNotReadOffset p)) with (FirstNotReadOffset p)
    by (unfold wrapS; rewrite Z.mod_small by lia; change (64 - 1) with 63; by rewrite (proj2 (Z.ltb_lt _ _)) by lia).
  pose proof (ValidateMessages_spec (messages_of batches) _ p taken sent Hinv Hr Hl) as Hv.
  destruct (ValidateMessages _ _ p) as [[d' p']|]; [|done]. destruct Hv as (-> & Hd & Hinv' & Hf).
  assert (existsb (fun cm => negb (offset cm.2 =? 2 ^ 63 - 1)) (messages_of batches) = match messages_of batches with [] => false | _ => true end) as ->.
  { destruct (messages_of batches) as [|cm l]; [done|]. cbn [existsb]. inversion Hl as [|? ? Hcm]; subst.
    cbn beta in Hcm. by rewrite (proj2 (Z.eqb_neq (offset cm.2) (2 ^ 63 - 1))) by lia. }
  destruct (messages_of batches) as [|cm l] eqn:E; unfold modify, mret, M_ret; cbv beta iota; [done|].
  assert (u64 (position (FirstNotReadOffset p) (cm :: l)) = position (FirstNotReadOffset p) (cm :: l)) as -> by (apply Z.mod_small; lia).
  split; [|done]. by destruct Hinv'.
Qed.

(** ** Runs *)

Fixpoint run_position (d : Z) (evs : list reader_event) : Z :=
  match evs with
  | Received batches :: evs => run_position (position d (messages_of batches)) evs
  | _ :: evs => run_position d evs
  | [] => d
  end.

(** The offsets skipped, in a run that starts at [d]. *)
Fixpoint skipped (d : Z) (evs : list reader_event) : list (Z * Z) :=
  match evs with
  | Received batches :: evs => gaps d (messages_of batches) ++ skipped (position d (messages_of batches)) evs
  | _ :: evs => skipped d evs
  | [] => []
  end.

Lemma reader_run_app evs evs' st : reader_run (evs ++ evs') st =
  match reader_run evs st with Ok st => reader_run evs' st | Fail f => Fail f end.
Proof. revert st. induction evs as [|ev evs IH]; intros st; [done|]. cbn. destruct (reader_step ev st); [apply IH|done]. Qed.

Lemma reader_run_inv evs : forall p taken sent, stream_inv p taken sent -> Forall event_ok evs ->
  match reader_run evs (p, sent) with
  | Ok (p', sent') => exists taken', stream_inv p' taken' sent' /\ FirstNotReadOffset p' = run_position (FirstNotReadOffset p) evs /\
      (forall x, covers taken' x <-> covers taken x \/ asked evs x \/ covers (skipped (FirstNotReadOffset p) evs) x)
  | Fail f => not_abort f
  end.
Proof.
  induction evs as [|ev evs IH]; intros p taken sent Hinv Hevs; cbn [reader_run].
  { exists taken. split_and!; [done..|]. intros x. unfold asked. rewrite Exists_nil. cbn [skipped]. rewrite covers_nil. tauto. }
  inversion Hevs as [|? ? Hev Hevs']; subst. destruct ev as [batches|s e|off]; cbn [reader_step].
  - pose proof (ValidateOffsets_spec batches p taken sent Hinv Hev) as Hv. destruct (ValidateOffsets batches p) as [[b p1]|]; [|done].
    destruct Hv as (Hinv1 & Hf1 & _). specialize (IH p1 _ sent Hinv1 Hevs'). destruct (reader_run evs (p1, sent)) as [[p' sent']|]; [|done].
    destruct IH as (taken' & H1 & H2 & H3). exists taken'. rewrite Hf1 in *. split_and!; [done..|]. intros x. rewrite H3.
    cbn [skipped]. unfold asked. rewrite !covers_app, Exists_cons. tauto.
  - pose proof (Commit_spec p taken sent s e Hinv (proj1 Hev)) as Hv. destruct (Commit s e p) as [[ranges p1]|f]; [|by destruct Hv as [_ ->]].
    destruct Hv as (_ & Hinv1 & Hf1 & _). specialize (IH p1 _ _ Hinv1 Hevs'). destruct (reader_run evs _) as [[p' sent']|]; [|done].
    destruct IH as (taken' & H1 & H2 & H3). exists taken'. rewrite Hf1 in *. split_and!; [done..|]. intros x. rewrite H3.
    cbn [skipped]. unfold asked. rewrite !covers_app, Exists_cons, covers_cons, covers_nil. tauto.
  - destruct (UpdateMaxCommittedOffset_spec p taken sent (u64 off) Hinv) as [Hinv1 Hf1]. specialize (IH _ _ _ Hinv1 Hevs').
    destruct (reader_run evs _) as [[p' sent']|]; [|done].
    destruct IH as (taken' & H1 & H2 & H3). exists taken'. rewrite Hf1 in *. split_and!; [done..|]. intros x. rewrite H3.
    cbn [skipped]. unfold asked. rewrite Exists_cons. tauto.
Qed.

(** Below the position, what was not skipped was read. *)
Lemma position_covers l : forall d x, d <= x < position d l -> covers (gaps d l) x \/ reads l x.
Proof.
  induction l as [|cm l IH]; intros d x; cbn [position gaps]; [lia|]. unfold reads. rewrite Exists_cons. fold (reads l x).
  destruct (service cm.2); [intros Hx; destruct (IH _ _ Hx); tauto|]. intros Hx. rewrite covers_app.
  destruct (decide (x < Z.max d (next_of cm))) as [Hlt|Hge]; [|destruct (IH (Z.max d (next_of cm)) x ltac:(lia)); tauto].
  rewrite Z.gtb_ltb. destruct (d <? offset cm.2) eqn:E; [apply Z.ltb_lt in E|apply Z.ltb_ge in E].
  - destruct (decide (x < offset cm.2)); [left; left; rewrite covers_cons; lia|right; left; split; [done|lia]].
  - right; left. split; [done|lia].
Qed.

Lemma run_position_covers evs : forall d x, d <= x < run_position d evs ->
  covers (skipped d evs) x \/ reads (events_messages evs) x.
Proof.
  induction evs as [|[batches|s e|off] evs IH]; intros d x; cbn [run_position skipped]; [lia| |apply IH|apply IH].
  intros Hx. unfold events_messages, reads. cbn [map concat]. rewrite covers_app, Exists_app.
  fold (events_messages evs) (reads (messages_of batches) x) (reads (events_messages evs) x).
  destruct (decide (x < position d (messages_of batches))); [destruct (position_covers (messages_of batches) d x ltac:(lia)); tauto|].
  destruct (IH (position d (messages_of batches)) x ltac:(lia)); tauto.
Qed.

Lemma run_position_commit d evs s e : run_position d (evs ++ [Committed s e]) = run_position d evs.
Proof. revert d. induction evs as [|[] evs IH]; intros d; cbn; auto. Qed.

(** C9: whatever the server sends (offsets below the largest [int64_t]) and whatever ranges
    that are not empty the user commits, no assertion fails: a run goes on, or stops with the
    exception of a repeated range, an overflow of an offset or an undefined header of a
    batch.  The ranges sent are not empty and have no offset in common, an offset is sent
    only when the user committed it or the server skipped it, and each of those is sent or
    still kept. *)
Theorem commit_exactly_once a i q start evs : 0 <= start < 2 ^ 63 -> Forall event_ok evs ->
  match reader_run evs (TPartitionStreamImpl_new a i q start, []) with
  | Ok (p, sent) => disjoint_ranges sent /\
      (forall x, asked evs x \/ covers (skipped start evs) x <-> covers sent x \/ contains (Commits p) x) /\
      (forall x, covers sent x -> ~ contains (Commits p) x)
  | Fail f => not_abort f
  end.
Proof.
  intros Hst Hevs. pose proof (reader_run_inv evs _ [] [] (stream_inv_new a i q start Hst) Hevs) as H.
  destruct (reader_run evs _) as [[p sent]|]; [|done]. destruct H as (taken & Hinv & _ & Ht).
  assert (FirstNotReadOffset (TPartitionStreamImpl_new a i q start) = start) as E by (apply Z.mod_small; lia). rewrite E in Ht.
  split_and!; [apply Hinv| |apply Hinv]. intros x. rewrite <- (inv_taken _ _ _ Hinv), Ht, covers_nil. tauto.
Qed.

(** C20: a commit that succeeds sends everything below its end that was committed or
    skipped; once everything read below [e] is committed, the commit that ends at [e] has
    sent every offset from the start to [e], with no hole the server would wait for. *)
Theorem commit_leaves_no_hole a i q start evs s e p sent : 0 <= start < 2 ^ 63 -> Forall event_ok (evs ++ [Committed s e]) ->
  reader_run (evs ++ [Committed s e]) (TPartitionStreamImpl_new a i q start, []) = Ok (p, sent) ->
  e <= FirstNotReadOffset p ->
  (forall x, start <= x < e -> reads (events_messages evs) x -> asked (evs ++ [Committed s e]) x) ->
  forall x, start <= x < e -> covers sent x.
Proof.
  intros Hst Hevs Hrun He Hall x Hx. apply Forall_app in Hevs as [Hevs Hc]. inversion Hc as [|? ? Hse _]; subst.
  rewrite reader_run_app in Hrun. pose proof (reader_run_inv evs _ [] [] (stream_inv_new a i q start Hst) Hevs) as H.
  destruct (reader_run evs _) as [[p1 sent1]|]; [|done]. destruct H as (taken & Hinv & Hf & Ht).
  assert (FirstNotReadOffset (TPartitionStreamImpl_new a i q start) = start) as E by (apply Z.mod_small; lia). rewrite E in *.
  cbn [reader_run reader_step] in Hrun. pose proof (Commit_spec p1 taken sent1 s e Hinv (proj1 Hse)) as Hv.
  destruct (Commit s e p1) as [[ranges p2]|]; [|done]. injection Hrun as -> <-. destruct Hv as (_ & _ & Hf2 & Hv).
  apply Hv; [|lia]. rewrite covers_app, covers_cons, covers_nil, Ht.
  destruct (run_position_covers evs start x) as [?|Hr]; [lia|tauto|]. specialize (Hall x Hx Hr).
  unfold asked in *. rewrite Exists_app, Exists_cons, Exists_nil in Hall. tauto.
Qed.

(** C32: a commit is refused with an exception exactly when it starts below the offset the
    server acknowledged or has an offset that was committed or skipped already. *)
Theorem commit_refuses_repeats a i q start evs p sent s e : 0 <= start < 2 ^ 63 -> Forall event_ok evs ->
  reader_run evs (TPartitionStreamImpl_new a i q start, []) = Ok (p, sent) -> 0 <= s < e ->
  match Commit s e p with
  | Ok _ => MaxCommittedOffset p <= s /\ forall x, s <= x < e -> ~ asked evs x /\ ~ covers (skipped start evs) x
  | Fail f => f = Throw "Invalid offset range" /\
      (s < MaxCommittedOffset p \/ exists x, s <= x < e /\ (asked evs x \/ covers (skipped start evs) x))
  end.
Proof.
  intros Hst Hevs Hrun Hse. pose proof (reader_run_inv evs _ [] [] (stream_inv_new a i q start Hst) Hevs) as H.
  rewrite Hrun in H. destruct H as (taken & Hinv & _ & Ht).
  assert (FirstNotReadOffset (TPartitionStreamImpl_new a i q start) = start) as E by (apply Z.mod_small; lia). rewrite E in Ht.
  pose proof (Commit_spec p taken sent s e Hinv Hse) as Hc. unfold refused in Hc. destruct (Commit s e p) as [[r p']|f].
  - destruct Hc as (Hn & _). split; [lia|]. intros x Hx. split; intros Ha; apply Hn; right; exists x; (split; [done|]); apply Ht; tauto.
  - destruct Hc as [[?|(x & Hx & Hc)] ->]; (split; [done|]); [tauto|]. right. exists x. split; [done|].
    apply Ht in Hc as [?%covers_nil|?]; done.
Qed.

(** ** Inputs on which the theorems apply *)

Definition plain (off : Z) : MessageData := mkMessage off [] "payload" 0 NoHeader.

(** Offsets 2 and 3 are skipped by the server. *)
Definition example_events : list reader_event :=
  [Received [mkBatch CODEC_RAW [plain 0; plain 1; plain 4]]; Committed 1 2; Acknowledged 0; Committed 0 1].

Lemma example_events_ok s e : 0 <= s < e -> e < 2 ^ 64 -> Forall event_ok (example_events ++ [Committed s e]).
Proof. intros. repeat constructor; cbn; unfold inS; lia. Qed.

Lemma commit_exactly_once_witness :
  match reader_run example_events (TPartitionStreamImpl_new 1 1 0 0, []) with
  | Ok (p, sent) => sent = [(1, 2); (0, 1)] /\ disjoint_ranges sent
  | Fail _ => False
  end.
Proof.
  assert (Forall event_ok example_events) as Hevs by (pose proof (example_events_ok 4 5 ltac:(lia) ltac:(lia)) as H; by apply Forall_app in H as [? _]).
  pose proof (commit_exactly_once 1 1 0 0 example_events ltac:(lia) Hevs) as H.
  destruct (reader_run _ _) as [[p sent]|] eqn:E; vm_compute in E; [|discriminate E].
  split; [by injection E|apply H].
Defined.

Lemma commit_leaves_no_hole_witness : exists p sent,
  reader_run (example_events ++ [Committed 4 5]) (TPartitionStreamImpl_new 1 1 0 0, []) = Ok (p, sent) /\
  sent = [(1, 2); (0, 1); (2, 5)] /\ forall x, 0 <= x < 5 -> covers sent x.
Proof.
  eexists _, _. split; [vm_compute; reflexivity|]. split; [reflexivity|].
  refine (commit_leaves_no_hole 1 1 0 0 example_events 4 5 _ _ ltac:(lia) (example_events_ok 4 5 ltac:(lia) ltac:(lia)) _ _ _);
    [vm_compute; reflexivity|cbn; lia|].
  intros x Hx Hr. unfold reads, asked in *. unfold example_events, events_messages in *. cbn [app map concat messages_of codec message_data] in *.
  rewrite !Exists_cons, ?Exists_nil in *. unfold next_of in Hr. cbn in Hr. change (wrapS 64 1) with 1 in Hr. lia.
Defined.

Lemma commit_refuses_repeats_witness : exists p sent,
  reader_run example_events (TPartitionStreamImpl_new 1 1 0 0, []) = Ok (p, sent) /\
  Commit 3 5 p = Fail (Throw "Invalid offset range") /\
  (3 < MaxCommittedOffset p \/ exists x, 3 <= x < 5 /\ (asked example_events x \/ covers (skipped 0 example_events) x)).
Proof.
  assert (Forall event_ok example_events) as Hevs by (pose proof (example_events_ok 4 5 ltac:(lia) ltac:(lia)) as H; by apply Forall_app in H as [? _]).
  eexists _, _. split; [vm_compute; reflexivity|]. split; [vm_compute; reflexivity|].
  pose proof (commit_refuses_repeats 1 1 0 0 example_events _ _ 3 5 ltac:(lia) Hevs ltac:(vm_compute; reflexivity) ltac:(lia)) as H.
  exact (proj2 H).
Defined.
