(* ===== verification/ReadTypes.v ===== *)
(** * Decompression and the events of a partition

    [TDataDecompressionInfo], its tasks, [TDataDecompressionEvent] and
    [TRawPartitionStreamEventQueue] of [client/topic/impl/read_session_impl.h] and
    [read_session_impl.ipp], without the session around them: a piece of a read response is
    cut into decompression tasks, each message of it is an event of its partition's queue,
    and events leave the queue in order as the tasks that prepare them become ready.

    Infos and streams are shared objects: a reference is the position of the object in the
    heap of the session.  [DecompressData], the codec's method, is a parameter: codecs are
    registered by the user. *)

From S2P Require Import Prelude Float32 Float64 IntervalTree ReadCommit.
From Stdlib Require Import SpecFloat.

Inductive EDecompressionTaskState := InProcess | Cleanup | Ready | Abandoned.

#[export] Instance EDecompressionTaskState_eq : EqDecision EDecompressionTaskState.
Proof. solve_decision. Defined.

(** A message of a response: its batch and its position there. *)
Abbreviation msg_id := (nat * nat)%type.

Record TDecompressedMessage := mkDecompressed { Data : string; OffsetDelta : option Z }.
Record TMessage := mkTMessage { msg_Offset : Z; msg_Data : string; msg_Broken : bool }.
Record TDecompressedData := mkData { Messages : list TMessage; DataSize : Z; MessagesTaken : Z }.

Record TDataDecompressionEvent := mkDataEvent { ev_Message : msg_id; ev_Parent : nat; ev_State : nat }.

Inductive closed_reason := StopConfirmedByUser | Lost | ConnectionLost.
Inductive TEvent :=
  | CommitOffsetAcknowledgementEvent (committed : Z)
  | StartPartitionSessionEvent (committed begin end_ : Z) (retained : option Z)
  | StopPartitionSessionEvent (committed : Z)
  | EndPartitionSessionEvent (adjacent child : list Z)
  | PartitionSessionStatusEvent (committed read_ end_ : Z)
  | PartitionSessionClosedEvent (reason : closed_reason).

Definition is_closed_event (e : TEvent) : bool :=
  match e with PartitionSessionClosedEvent _ => true | _ => false end.

Inductive TRawPartitionStreamEvent := DataEvent (d : TDataDecompressionEvent) | OtherEvent (e : TEvent).

Definition IsDataEvent (ev : TRawPartitionStreamEvent) : bool :=
  match ev with DataEvent _ => true | OtherEvent _ => false end.

Record TDecompressionTask := mkTask {
  task_Parent : nat;
  SourceDataSize : Z;
  EstimatedDecompressedSize : Z;
  task_Messages : list (nat * (nat * nat));   (* ranges of messages of a batch *)
  task_Ready : nat }.

Record TDataDecompressionInfo := mkInfo {
  ServerMessage : list Batch;
  PartitionStream : nat;   (* the stream its tasks and its queue item refer to *)
  CommittedOffset : Z;
  ServerBytesSize : Z;
  info_Compressed : Z;   (* CompressedDataSize *)
  info_Decompressed : Z;   (* DecompressedDataSize *)
  ReadyThresholds : list EDecompressionTaskState;
  Tasks : list TDecompressionTask;
  DecompressedData : gmap msg_id TDecompressedData;
  DecompressionErrors : gset msg_id;
  Destroyed : bool }.

Definition size (s : string) : Z := Z.of_nat (String.length s).

Definition message_at (batches : list Batch) (id : msg_id) : option (Codec * MessageData) :=
  match batches !! id.1 with
  | Some b => match message_data b !! id.2 with Some m => Some (codec b, m) | None => None end
  | None => None
  end.

(** The messages of a response in the order of its loops. *)
Definition message_ids (batches : list Batch) : list msg_id :=
  concat (imap (fun b batch => map (pair b) (seq 0 (length (message_data batch)))) batches).

Definition compressed_size (batches : list Batch) : Z :=
  foldr (fun cm n => size (data cm.2) + n) 0 (messages_of batches).

(** ** Counters

    Sizes are [i64].  An overflow is undefined where the counter is a plain integer; an
    atomic one and the estimate of a task, to which a [size_t] is added, wrap around, after
    which they count nothing.  The model stops at both. *)

Definition in_i64 (z : Z) : bool := ((- 2 ^ 63 <=? z) && (z <? 2 ^ 63))%bool.
Definition counter_overflow : failure := Undefined "overflow of a 64-bit counter".
Definition negative_estimate : failure := Abort "estimatedDecompressedSize >= 0".

(** ** Planning the tasks *)

Definition TASK_LIMIT : Z := 524288.

Definition task_Add (id : msg_id) (sourceDataSize estimatedDecompressedSize : Z) (t : TDecompressionTask) : TDecompressionTask :=
  let ranges :=
    match last (task_Messages t) with
    | Some (batch, (first, _)) =>
        if (batch =? id.1)%nat then removelast (task_Messages t) ++ [(batch, (first, S id.2))]
        else task_Messages t ++ [(id.1, (id.2, S id.2))]
    | None => [(id.1, (id.2, S id.2))]
    end in
  mkTask (task_Parent t) (SourceDataSize t + sourceDataSize) (EstimatedDecompressedSize t + estimatedDecompressedSize) ranges (task_Ready t).

(** The messages of a task, as its loops visit them. *)
Definition task_ids (t : TDecompressionTask) : list msg_id :=
  concat (map (fun r => map (pair r.1) (seq r.2.1 (r.2.2 - r.2.1))) (task_Messages t)).

(** [static_cast<i64>(size * averageCompressionRatio)] unless the server says the size. *)
Definition estimate (ratio : f64) (m : MessageData) : outcome Z :=
  if negb (uncompressed_size m =? 0) then Ok (uncompressed_size m)
  else match f64_to_int (f64_mul (f64_of_Z (size (data m))) ratio) with
       | Some z => Ok z
       | None => Fail (Undefined "conversion of a double to an integer")
       end.

(** The loop of [PlanDecompressionTasks]; [k] is the index of [ReadyThresholds.back()]. *)
Fixpoint PlanLoop (ratio : f64) (batches : list Batch) (i : nat) (l : list msg_id) (k : nat) (task : TDecompressionTask)
  : outcome (list TDecompressionTask * nat * list TDataDecompressionEvent) :=
  match l with
  | [] => match task_Messages task with
          | [] => Ok ([], k, [])
          | _ => Ok ([task], S k, [])
          end
  | id :: l =>
      match message_at batches id with
      | None => Fail (Undefined "message_data")
      | Some (_, m) =>
          match estimate ratio m with
          | Fail f => Fail f
          | Ok est =>
              if est <? 0 then Fail negative_estimate
              else
                let task := task_Add id (size (data m)) est task in
                let event := mkDataEvent id i k in
                if negb (in_i64 (SourceDataSize task) && in_i64 (EstimatedDecompressedSize task)) then Fail counter_overflow
                else if SourceDataSize task >=? TASK_LIMIT then
                  match PlanLoop ratio batches i l (S k) (mkTask i 0 0 [] (S k)) with
                  | Ok (tasks, n, events) => Ok (task :: tasks, n, event :: events)
                  | Fail f => Fail f
                  end
                else
                  match PlanLoop ratio batches i l k task with
                  | Ok (tasks, n, events) => Ok (tasks, n, event :: events)
                  | Fail f => Fail f
                  end
          end
      end
  end.

(** Tasks, number of thresholds and events of an info at position [i] of the heap, for the
    messages [l] of its batches. *)
Definition PlanMessages (ratio : f64) (batches : list Batch) (i : nat) (l : list msg_id)
  : outcome (list TDecompressionTask * nat * list TDataDecompressionEvent) :=
  PlanLoop ratio batches i l 0 (mkTask i 0 0 [] 0).

Definition PlanDecompressionTasks (ratio : f64) (batches : list Batch) (i : nat)
  : outcome (list TDecompressionTask * nat * list TDataDecompressionEvent) :=
  PlanMessages ratio batches i (message_ids batches).

(** [StartDecompressionTasks]: estimated memory of the tasks started, these tasks and the
    ones left. *)
Fixpoint StartTasks (availableMemory : Z) (tasks : list TDecompressionTask) : Z * list TDecompressionTask * list TDecompressionTask :=
  match tasks with
  | [] => (0, [], [])
  | t :: tasks' =>
      if availableMemory >? 0 then
        let '(used, started, left_) := StartTasks (availableMemory - EstimatedDecompressedSize t) tasks' in
        (EstimatedDecompressedSize t + used, t :: started, left_)
      else (0, [], tasks)
  end.

(** ** The data of a message *)

(** [BuildDecompressedData] for the messages a codec gave; [broken] is the error recorded. *)
Fixpoint BuildMessages (off committedOffset : Z) (broken : bool) (l : list TDecompressedMessage) : TDecompressedData :=
  match l with
  | [] => mkData [] 0 0
  | m :: l =>
      let rest := BuildMessages off committedOffset broken l in
      let o := match OffsetDelta m with Some delta => u64 (u64 off + u64 delta) | None => u64 off end in
      if (match OffsetDelta m with Some _ => o <? committedOffset | None => false end) then
        mkData (Messages rest) (DataSize rest) (MessagesTaken rest + 1)
      else
        mkData (mkTMessage o (Data m) broken :: Messages rest) (size (Data m) + DataSize rest) (MessagesTaken rest + 1)
  end.

Definition BuildDecompressedData (doDecompress : bool) (info : TDataDecompressionInfo) (id : msg_id)
  (codecResult : list TDecompressedMessage) : TDecompressedData :=
  match message_at (ServerMessage info) id with
  | None => mkData [] 0 0
  | Some (_, m) =>
      if doDecompress then
        BuildMessages (offset m) (CommittedOffset info) (bool_decide (id ∈ DecompressionErrors info)) codecResult
      else mkData [mkTMessage (u64 (offset m)) (data m) false] (size (data m)) 1
  end.

Section Codecs.
Variable DecompressData : Codec -> string -> option (list TDecompressedMessage).

(** What a task gets of the codec, and whether the codec threw. *)
Definition Decompress (doDecompress : bool) (c : Codec) (m : MessageData) : list TDecompressedMessage * bool :=
  if doDecompress then
    match c with
    | CODEC_RAW | CODEC_UNSPECIFIED => ([mkDecompressed (data m) None], false)
    | _ => match DecompressData c (data m) with
           | Some l => (l, false)
           | None => ([mkDecompressed (data m) None], true)
           end
    end
  else ([], false).

(** One message of [TDecompressionTask::operator()]. *)
Definition DecompressMessage (doDecompress : bool) (id : msg_id) (info : TDataDecompressionInfo) : TDataDecompressionInfo :=
  match message_at (ServerMessage info) id with
  | None => info
  | Some (c, m) =>
      let '(codecResult, thrown) := Decompress doDecompress c m in
      let errors := if thrown then {[id]} ∪ DecompressionErrors info else DecompressionErrors info in
      let info := mkInfo (ServerMessage info) (PartitionStream info) (CommittedOffset info) (ServerBytesSize info)
        (info_Compressed info) (info_Decompressed info) (ReadyThresholds info) (Tasks info) (DecompressedData info) errors (Destroyed info) in
      mkInfo (ServerMessage info) (PartitionStream info) (CommittedOffset info) (ServerBytesSize info)
        (info_Compressed info) (info_Decompressed info) (ReadyThresholds info) (Tasks info)
        (<[id := BuildDecompressedData doDecompress info id codecResult]> (DecompressedData info)) errors (Destroyed info)
  end.

Fixpoint DecompressMessages (doDecompress : bool) (ids : list msg_id) (info : TDataDecompressionInfo) : TDataDecompressionInfo :=
  match ids with
  | [] => info
  | id :: ids => DecompressMessages doDecompress ids (DecompressMessage doDecompress id info)
  end.
End Codecs.

(** [GetPreparedDataSize]: the data of a message that was decompressed is cleared. *)
Definition GetPreparedDataSize (info : TDataDecompressionInfo) (id : msg_id) : Z :=
  match DecompressedData info !! id with
  | Some d => if MessagesTaken d >? 0 then DataSize d else 0
  | None => match message_at (ServerMessage info) id with Some (_, m) => size (data m) | None => 0 end
  end.

(** [TakeData]. *)
Definition TakeData (doDecompress : bool) (info : TDataDecompressionInfo) (id : msg_id) : TDecompressedData :=
  let result := default (mkData [] 0 0) (DecompressedData info !! id) in
  if (MessagesTaken result =? 0) && bool_decide (Messages result = []) then BuildDecompressedData doDecompress info id []
  else result.

(** ** The queue of a partition *)

Record TRawPartitionStreamEventQueue := mkQueue {
  ReadyEvents : list TRawPartitionStreamEvent;   (* Ready *)
  NotReady : list TRawPartitionStreamEvent }.

Definition state_of (infos : list TDataDecompressionInfo) (d : TDataDecompressionEvent) : EDecompressionTaskState :=
  match infos !! ev_Parent d with
  | Some info => default InProcess (ReadyThresholds info !! ev_State d)
  | None => InProcess
  end.

Definition set_state (i k : nat) (st : EDecompressionTaskState) (infos : list TDataDecompressionInfo) : list TDataDecompressionInfo :=
  alter (fun info => mkInfo (ServerMessage info) (PartitionStream info) (CommittedOffset info) (ServerBytesSize info)
    (info_Compressed info) (info_Decompressed info) (<[k := st]> (ReadyThresholds info)) (Tasks info)
    (DecompressedData info) (DecompressionErrors info) (Destroyed info)) i infos.

Definition IsReady (infos : list TDataDecompressionInfo) (ev : TRawPartitionStreamEvent) : bool :=
  match ev with
  | OtherEvent _ => true
  | DataEvent d => match state_of infos d with Ready | Abandoned => true | _ => false end
  end.

Definition IsAbandoned (infos : list TDataDecompressionInfo) (ev : TRawPartitionStreamEvent) : bool :=
  match ev with
  | OtherEvent _ => false
  | DataEvent d => match state_of infos d with Cleanup | Abandoned => true | _ => false end
  end.

(** The compare-and-exchange of [SetAbandoned]. *)
Definition SetAbandoned (d : TDataDecompressionEvent) (infos : list TDataDecompressionInfo) : list TDataDecompressionInfo * bool :=
  match state_of infos d with
  | InProcess => (set_state (ev_Parent d) (ev_State d) Cleanup infos, true)
  | Ready => (infos, false)
  | _ => (infos, true)
  end.

(** [TUserRetrievedEventsInfoAccumulator]: bytes by info. *)
Fixpoint acc_Add (i : nat) (decompressedSize : Z) (acc : list (nat * Z)) : list (nat * Z) :=
  match acc with
  | [] => [(i, decompressedSize)]
  | (j, n) :: acc => if (i =? j)%nat then (j, n + decompressedSize) :: acc else (j, n) :: acc_Add i decompressedSize acc
  end.

Definition prepared_size (infos : list TDataDecompressionInfo) (d : TDataDecompressionEvent) : Z :=
  match infos !! ev_Parent d with Some info => GetPreparedDataSize info (ev_Message d) | None => 0 end.

Definition taken_data (doDecompress : bool) (infos : list TDataDecompressionInfo) (d : TDataDecompressionEvent) : TDecompressedData :=
  match infos !! ev_Parent d with Some info => TakeData doDecompress info (ev_Message d) | None => mkData [] 0 0 end.

(** The loop of [GetDataEventImpl]: the events taken, the rest of the queue and what is
    left of the two limits. *)
Fixpoint TakeEvents (doDecompress : bool) (infos : list TDataDecompressionInfo) (maxEventsCount maxByteSize : Z)
  (q : list TRawPartitionStreamEvent) : list TDataDecompressionEvent * list TRawPartitionStreamEvent * Z * Z :=
  match q with
  | DataEvent d :: q' =>
      if (bool_decide (state_of infos d = Ready) && (maxEventsCount >? 0) && (maxByteSize >? 0))%bool then
        let n := DataSize (taken_data doDecompress infos d) in
        let '(taken, rest, count, bytes) := TakeEvents doDecompress infos (maxEventsCount - 1) (maxByteSize - Z.min maxByteSize n) q' in
        (d :: taken, rest, count, bytes)
      else ([], q, maxEventsCount, maxByteSize)
  | _ => ([], q, maxEventsCount, maxByteSize)
  end.

Definition taken_messages (doDecompress : bool) (infos : list TDataDecompressionInfo) (l : list TDataDecompressionEvent) : list TMessage :=
  concat (map (fun d => Messages (taken_data doDecompress infos d)) l).

Definition taken_acc (doDecompress : bool) (infos : list TDataDecompressionInfo) (l : list TDataDecompressionEvent) : list (nat * Z) :=
  foldl (fun acc d => acc_Add (ev_Parent d) (DataSize (taken_data doDecompress infos d)) acc) [] l.

(** The loop of [DeleteNotReadyTail]: infos, the prefix that stays, the parents of the
    abandoned events, and the events that were ready behind one that was not. *)
Fixpoint DeleteTail (infos : list TDataDecompressionInfo) (hasNonReadyEvents : bool) (q : list TRawPartitionStreamEvent)
  : list TDataDecompressionInfo * list TRawPartitionStreamEvent * list nat * list TDataDecompressionEvent :=
  match q with
  | [] => (infos, [], [], [])
  | OtherEvent e :: q =>
      let '(infos, ready, cleanups, released) := DeleteTail infos hasNonReadyEvents q in
      (infos, if hasNonReadyEvents then ready else OtherEvent e :: ready, cleanups, released)
  | DataEvent d :: q =>
      let '(infos, abandoned) := SetAbandoned d infos in
      if abandoned then
        let '(infos, ready, cleanups, released) := DeleteTail infos true q in
        (infos, ready, ev_Parent d :: cleanups, released)
      else
        let '(infos, ready, cleanups, released) := DeleteTail infos hasNonReadyEvents q in
        if hasNonReadyEvents then (infos, ready, cleanups, d :: released)
        else (infos, DataEvent d :: ready, cleanups, released)
  end.

(** The loop of [Cleanup] of a queue. *)
Fixpoint CleanupEvents (infos : list TDataDecompressionInfo) (q : list TRawPartitionStreamEvent)
  : list TDataDecompressionInfo * list nat * list TDataDecompressionEvent :=
  match q with
  | [] => (infos, [], [])
  | OtherEvent _ :: q => CleanupEvents infos q
  | DataEvent d :: q =>
      let '(infos, abandoned) := SetAbandoned d infos in
      let '(infos, cleanups, released) := CleanupEvents infos q in
      if abandoned then (infos, ev_Parent d :: cleanups, released) else (infos, cleanups, d :: released)
  end.

Definition released_acc (infos : list TDataDecompressionInfo) (l : list TDataDecompressionEvent) : list (nat * Z) :=
  foldl (fun acc d => acc_Add (ev_Parent d) (prepared_size infos d) acc) [] l.
