(* ===== verification/ReadSession.v ===== *)
(** * Topic read session

    [TSingleClusterReadSessionImpl] and [TReadSessionEventsQueue] of
    [client/topic/impl/read_session_impl.h] and [read_session_impl.ipp], for the topic
    protocol without direct reads: from the read responses of the server over decompression
    to the events the user takes, with the memory and the read budget that bound the
    data on its way, reconnects, the partitions that wait for their parents, and close.

    [rs] is the session object with what it shares: streams, infos, the events queue, the
    actions that were posted to executors or deferred until a lock is released, and the
    calls that are between two of their critical sections.  Each definition is a function of
    the code under its lock, or a section of one that takes locks in turn.  A section of the
    session includes the calls it makes on the events queue, which has a lock of its own,
    and updates of atomics belong to the section they come before.  Contexts, the retry
    policy and codecs are arguments, being code of others.  Metrics and logs are left out. *)

From S2P Require Import Prelude Float32 Float64 IntervalTree ReadCommit ReadTypes.
From Stdlib Require Import SpecFloat.

Record read_settings := mkReadSettings {
  MaxMemoryUsageBytes_ : Z;
  Decompress_ : bool;
  DecompressEverything : bool;
  HasDataEventCallback : bool;   (* a data or a common handler *)
  HasHandler : TEvent -> bool;   (* a handler of the event's type or a common one *)
  MaxMessagesBytes_ : Z }.

(** A stream object with its queue.  [Queued] and [Taken] record the data events that
    were put into the queue and taken by the user. *)
Record TStream := mkTStream {
  stream : TPartitionStreamImpl;
  queue : TRawPartitionStreamEventQueue;
  HasCbContext : bool;
  Queued : list TDataDecompressionEvent;
  Taken : list TDataDecompressionEvent }.

Record TReadSessionEventInfo := mkEventInfo { ei_Stream : nat; HasDataEvents : bool; EventsCount : Z }.

Inductive client_message :=
  | InitRequest
  | ReadRequest (bytes_size : Z)
  | CommitOffsetRequest (partition_session_id start end_ : Z)
  | StartPartitionSessionResponse (partition_session_id : Z) (read_offset commit_offset max_offset : option Z)
  | StopPartitionSessionResponse (partition_session_id : Z) (graceful : bool)
  | PartitionSessionStatusRequest (partition_session_id : Z).

Inductive action :=
  | RunTask (t : TDecompressionTask)   (* posted to the decompression executor *)
  | TaskDecompressed (t : TDecompressionTask) (decompressedSize : Z)   (* after OnDataDecompressed *)
  | SignalReady (sid : nat)
  | TaskFinished
  | UserRetrieved (i : nat) (decompressedSize : Z)
  | CleanupInfo (i : nat)
  | TaskCanceled (i : nat) (sourceSize : Z)
  | DataHandler (sid : nat) (messages : list TMessage) (acc : list (nat * Z))
  | EventHandler (sid : nat) (e : TEvent)
  | ReconnectSession.

(** What is left of a call when it has released a lock it takes again, or takes another. *)
Inductive continuation :=
  | ToReconnect   (* of [OnConnect], [OnConnectTimeout] and [OnReadDone] after an error *)
  | ToAbortSession   (* of their callers when [Reconnect] gave up *)
  | ToCheckClosed   (* of [GetEvents] and [GetEvent] of the user *)
  | ToAbort (zeroTimeout : bool)   (* of [TReadSession::AbortImpl] after the queue was closed *)
  | ToCloseSession   (* of [TReadSession::Close], section by section *)
  | ToCreateTimer
  | ToCloseEvents
  | ToSetAborting
  | ToClearEvents
  | ToClearStreams
  | ToConfirm (sid : nat) (readOffset commitOffset maxOffset : option Z)   (* of [ConfirmCreate] *)
  | ToCommit (sid : nat) (ranges : list (Z * Z)).   (* of [Commit] of a stream *)

Record rs := mkRs {
  Settings : read_settings;
  NextPartitionStreamId : Z;
  PartitionStreams : gmap Z nat;   (* assign id to stream *)
  Streams : list TStream;   (* the stream objects *)
  Infos : list TDataDecompressionInfo;   (* the info objects *)
  DecompressionQueue : list nat;
  Events : list TReadSessionEventInfo;   (* of the events queue *)
  Closed : bool;   (* of the events queue, with its CloseEvent *)
  Processor : bool;
  ConnectContext : option Z;
  ConnectTimeoutContext : option Z;
  next_context : Z;   (* names of contexts are numbers *)
  ConnectionGeneration : Z;
  CompressedDataSize : Z;
  DecompressedDataSize : Z;
  AverageCompressionRatio : f64;
  WaitingReadResponse : bool;
  DataReadingSuspended : bool;
  Aborting : bool;
  Closing : bool;
  CloseCallback : bool;   (* set and not called *)
  CallbackCalls : nat;   (* calls of close callbacks *)
  ReadSizeBudget : Z;
  ReadSizeServerDelta : Z;
  DecompressionTasksInflight : Z;
  HierarchyData : gmap Z (list (Z * Z));   (* parents of a partition: partition and session *)
  ReadingFinishedData : gset Z;
  Wire : list client_message;   (* messages written to the processor *)
  Pending : list action;   (* posted and deferred actions, still to run *)
  Calls : list continuation;   (* calls between two of their critical sections *)
  TopClosing : bool;   (* Closing of TReadSession *)
  TopAborting : bool;   (* Aborting of TReadSession *)
  Initialized : bool;   (* the server answered to the init request *)
  Reads : list Z;   (* generations of the reads posted *)
  LostBytes : Z   (* bytes of responses no info took *)
}.

Definition set_NextPartitionStreamId (v : Z) (s : rs) : rs :=
  mkRs (Settings s) v (PartitionStreams s) (Streams s) (Infos s) (DecompressionQueue s) (Events s) (Closed s)
    (Processor s) (ConnectContext s) (ConnectTimeoutContext s) (next_context s) (ConnectionGeneration s)
    (CompressedDataSize s) (DecompressedDataSize s) (AverageCompressionRatio s) (WaitingReadResponse s)
    (DataReadingSuspended s) (Aborting s) (Closing s) (CloseCallback s) (CallbackCalls s) (ReadSizeBudget s)
    (ReadSizeServerDelta s) (DecompressionTasksInflight s) (HierarchyData s) (ReadingFinishedData s) (Wire s)
    (Pending s) (Calls s) (TopClosing s) (TopAborting s) (Initialized s) (Reads s) (LostBytes s).
Definition set_PartitionStreams (v : gmap Z nat) (s : rs) : rs :=
  mkRs (Settings s) (NextPartitionStreamId s) v (Streams s) (Infos s) (DecompressionQueue s) (Events s)
    (Closed s) (Processor s) (ConnectContext s) (ConnectTimeoutContext s) (next_context s)
    (ConnectionGeneration s) (CompressedDataSize s) (DecompressedDataSize s) (AverageCompressionRatio s)
    (WaitingReadResponse s) (DataReadingSuspended s) (Aborting s) (Closing s) (CloseCallback s)
    (CallbackCalls s) (ReadSizeBudget s) (ReadSizeServerDelta s) (DecompressionTasksInflight s)
    (HierarchyData s) (ReadingFinishedData s) (Wire s) (Pending s) (Calls s) (TopClosing s) (TopAborting s)
    (Initialized s) (Reads s) (LostBytes s).
Definition set_Streams (v : list TStream) (s : rs) : rs :=
  mkRs (Settings s) (NextPartitionStreamId s) (PartitionStreams s) v (Infos s) (DecompressionQueue s)
    (Events s) (Closed s) (Processor s) (ConnectContext s) (ConnectTimeoutContext s) (next_context s)
    (ConnectionGeneration s) (CompressedDataSize s) (DecompressedDataSize s) (AverageCompressionRatio s)
    (WaitingReadResponse s) (DataReadingSuspended s) (Aborting s) (Closing s) (CloseCallback s)
    (CallbackCalls s) (ReadSizeBudget s) (ReadSizeServerDelta s) (DecompressionTasksInflight s)
    (HierarchyData s) (ReadingFinishedData s) (Wire s) (Pending s) (Calls s) (TopClosing s) (TopAborting s)
    (Initialized s) (Reads s) (LostBytes s).
Definition set_Infos (v : list TDataDecompressionInfo) (s : rs) : rs :=
  mkRs (Settings s) (NextPartitionStreamId s) (PartitionStreams s) (Streams s) v (DecompressionQueue s)
    (Events s) (Closed s) (Processor s) (ConnectContext s) (ConnectTimeoutContext s) (next_context s)
    (ConnectionGeneration s) (CompressedDataSize s) (DecompressedDataSize s) (AverageCompressionRatio s)
    (WaitingReadResponse s) (DataReadingSuspended s) (Aborting s) (Closing s) (CloseCallback s)
    (CallbackCalls s) (ReadSizeBudget s) (ReadSizeServerDelta s) (DecompressionTasksInflight s)
    (HierarchyData s) (ReadingFinishedData s) (Wire s) (Pending s) (Calls s) (TopClosing s) (TopAborting s)
    (Initialized s) (Reads s) (LostBytes s).
Definition set_DecompressionQueue (v : list nat) (s : rs) : rs :=
  mkRs (Settings s) (NextPartitionStreamId s) (PartitionStreams s) (Streams s) (Infos s) v (Events s)
    (Closed s) (Processor s) (ConnectContext s) (ConnectTimeoutContext s) (next_context s)
    (ConnectionGeneration s) (CompressedDataSize s) (DecompressedDataSize s) (AverageCompressionRatio s)
    (WaitingReadResponse s) (DataReadingSuspended s) (Aborting s) (Closing s) (CloseCallback s)
    (CallbackCalls s) (ReadSizeBudget s) (ReadSizeServerDelta s) (DecompressionTasksInflight s)
    (HierarchyData s) (ReadingFinishedData s) (Wire s) (Pending s) (Calls s) (TopClosing s) (TopAborting s)
    (Initialized s) (Reads s) (LostBytes s).
Definition set_Events (v : list TReadSessionEventInfo) (s : rs) : rs :=
  mkRs (Settings s) (NextPartitionStreamId s) (PartitionStreams s) (Streams s) (Infos s)
    (DecompressionQueue s) v (Closed s) (Processor s) (ConnectContext s) (ConnectTimeoutContext s)
    (next_context s) (ConnectionGeneration s) (CompressedDataSize s) (DecompressedDataSize s)
    (AverageCompressionRatio s) (WaitingReadResponse s) (DataReadingSuspended s) (Aborting s) (Closing s)
    (CloseCallback s) (CallbackCalls s) (ReadSizeBudget s) (ReadSizeServerDelta s)
    (DecompressionTasksInflight s) (HierarchyData s) (ReadingFinishedData s) (Wire s) (Pending s) (Calls s)
    (TopClosing s) (TopAborting s) (Initialized s) (Reads s) (LostBytes s).
Definition set_Closed (v : bool) (s : rs) : rs :=
  mkRs (Settings s) (NextPartitionStreamId s) (PartitionStreams s) (Streams s) (Infos s)
    (DecompressionQueue s) (Events s) v (Processor s) (ConnectContext s) (ConnectTimeoutContext s)
    (next_context s) (ConnectionGeneration s) (CompressedDataSize s) (DecompressedDataSize s)
    (AverageCompressionRatio s) (WaitingReadResponse s) (DataReadingSuspended s) (Aborting s) (Closing s)
    (CloseCallback s) (CallbackCalls s) (ReadSizeBudget s) (ReadSizeServerDelta s)
    (DecompressionTasksInflight s) (HierarchyData s) (ReadingFinishedData s) (Wire s) (Pending s) (Calls s)
    (TopClosing s) (TopAborting s) (Initialized s) (Reads s) (LostBytes s).
Definition set_Processor (v : bool) (s : rs) : rs :=
  mkRs (Settings s) (NextPartitionStreamId s) (PartitionStreams s) (Streams s) (Infos s)
    (DecompressionQueue s) (Events s) (Closed s) v (ConnectContext s) (ConnectTimeoutContext s)
    (next_context s) (ConnectionGeneration s) (CompressedDataSize s) (DecompressedDataSize s)
    (AverageCompressionRatio s) (WaitingReadResponse s) (DataReadingSuspended s) (Aborting s) (Closing s)
    (CloseCallback s) (CallbackCalls s) (ReadSizeBudget s) (ReadSizeServerDelta s)
    (DecompressionTasksInflight s) (HierarchyData s) (ReadingFinishedData s) (Wire s) (Pending s) (Calls s)
    (TopClosing s) (TopAborting s) (Initialized s) (Reads s) (LostBytes s).
Definition set_ConnectContext (v : option Z) (s : rs) : rs :=
  mkRs (Settings s) (NextPartitionStreamId s) (PartitionStreams s) (Streams s) (Infos s)
    (DecompressionQueue s) (Events s) (Closed s) (Processor s) v (ConnectTimeoutContext s) (next_context s)
    (ConnectionGeneration s) (CompressedDataSize s) (DecompressedDataSize s) (AverageCompressionRatio s)
    (WaitingReadResponse s) (DataReadingSuspended s) (Aborting s) (Closing s) (CloseCallback s)
    (CallbackCalls s) (ReadSizeBudget s) (ReadSizeServerDelta s) (DecompressionTasksInflight s)
    (HierarchyData s) (ReadingFinishedData s) (Wire s) (Pending s) (Calls s) (TopClosing s) (TopAborting s)
    (Initialized s) (Reads s) (LostBytes s).
Definition set_ConnectTimeoutContext (v : option Z) (s : rs) : rs :=
  mkRs (Settings s) (NextPartitionStreamId s) (PartitionStreams s) (Streams s) (Infos s)
    (DecompressionQueue s) (Events s) (Closed s) (Processor s) (ConnectContext s) v (next_context s)
    (ConnectionGeneration s) (CompressedDataSize s) (DecompressedDataSize s) (AverageCompressionRatio s)
    (WaitingReadResponse s) (DataReadingSuspended s) (Aborting s) (Closing s) (CloseCallback s)
    (CallbackCalls s) (ReadSizeBudget s) (ReadSizeServerDelta s) (DecompressionTasksInflight s)
    (HierarchyData s) (ReadingFinishedData s) (Wire s) (Pending s) (Calls s) (TopClosing s) (TopAborting s)
    (Initialized s) (Reads s) (LostBytes s).
Definition set_next_context (v : Z) (s : rs) : rs :=
  mkRs (Settings s) (NextPartitionStreamId s) (PartitionStreams s) (Streams s) (Infos s)
    (DecompressionQueue s) (Events s) (Closed s) (Processor s) (ConnectContext s) (ConnectTimeoutContext s) v
    (ConnectionGeneration s) (CompressedDataSize s) (DecompressedDataSize s) (AverageCompressionRatio s)
    (WaitingReadResponse s) (DataReadingSuspended s) (Aborting s) (Closing s) (CloseCallback s)
    (CallbackCalls s) (ReadSizeBudget s) (ReadSizeServerDelta s) (DecompressionTasksInflight s)
    (HierarchyData s) (ReadingFinishedData s) (Wire s) (Pending s) (Calls s) (TopClosing s) (TopAborting s)
    (Initialized s) (Reads s) (LostBytes s).
Definition set_ConnectionGeneration (v : Z) (s : rs) : rs :=
  mkRs (Settings s) (NextPartitionStreamId s) (PartitionStreams s) (Streams s) (Infos s)
    (DecompressionQueue s) (Events s) (Closed s) (Processor s) (ConnectContext s) (ConnectTimeoutContext s)
    (next_context s) v (CompressedDataSize s) (DecompressedDataSize s) (AverageCompressionRatio s)
    (WaitingReadResponse s) (DataReadingSuspended s) (Aborting s) (Closing s) (CloseCallback s)
    (CallbackCalls s) (ReadSizeBudget s) (ReadSizeServerDelta s) (DecompressionTasksInflight s)
    (HierarchyData s) (ReadingFinishedData s) (Wire s) (Pending s) (Calls s) (TopClosing s) (TopAborting s)
    (Initialized s) (Reads s) (LostBytes s).
Definition set_CompressedDataSize (v : Z) (s : rs) : rs :=
  mkRs (Settings s) (NextPartitionStreamId s) (PartitionStreams s) (Streams s) (Infos s)
    (DecompressionQueue s) (Events s) (Closed s) (Processor s) (ConnectContext s) (ConnectTimeoutContext s)
    (next_context s) (ConnectionGeneration s) v (DecompressedDataSize s) (AverageCompressionRatio s)
    (WaitingReadResponse s) (DataReadingSuspended s) (Aborting s) (Closing s) (CloseCallback s)
    (CallbackCalls s) (ReadSizeBudget s) (ReadSizeServerDelta s) (DecompressionTasksInflight s)
    (HierarchyData s) (ReadingFinishedData s) (Wire s) (Pending s) (Calls s) (TopClosing s) (TopAborting s)
    (Initialized s) (Reads s) (LostBytes s).
Definition set_DecompressedDataSize (v : Z) (s : rs) : rs :=
  mkRs (Settings s) (NextPartitionStreamId s) (PartitionStreams s) (Streams s) (Infos s)
    (DecompressionQueue s) (Events s) (Closed s) (Processor s) (ConnectContext s) (ConnectTimeoutContext s)
    (next_context s) (ConnectionGeneration s) (CompressedDataSize s) v (AverageCompressionRatio s)
    (WaitingReadResponse s) (DataReadingSuspended s) (Aborting s) (Closing s) (CloseCallback s)
    (CallbackCalls s) (ReadSizeBudget s) (ReadSizeServerDelta s) (DecompressionTasksInflight s)
    (HierarchyData s) (ReadingFinishedData s) (Wire s) (Pending s) (Calls s) (TopClosing s) (TopAborting s)
    (Initialized s) (Reads s) (LostBytes s).
Definition set_AverageCompressionRatio (v : f64) (s : rs) : rs :=
  mkRs (Settings s) (NextPartitionStreamId s) (PartitionStreams s) (Streams s) (Infos s)
    (DecompressionQueue s) (Events s) (Closed s) (Processor s) (ConnectContext s) (ConnectTimeoutContext s)
    (next_context s) (ConnectionGeneration s) (CompressedDataSize s) (DecompressedDataSize s) v
    (WaitingReadResponse s) (DataReadingSuspended s) (Aborting s) (Closing s) (CloseCallback s)
    (CallbackCalls s) (ReadSizeBudget s) (ReadSizeServerDelta s) (DecompressionTasksInflight s)
    (HierarchyData s) (ReadingFinishedData s) (Wire s) (Pending s) (Calls s) (TopClosing s) (TopAborting s)
    (Initialized s) (Reads s) (LostBytes s).
Definition set_WaitingReadResponse (v : bool) (s : rs) : rs :=
  mkRs (Settings s) (NextPartitionStreamId s) (PartitionStreams s) (Streams s) (Infos s)
    (DecompressionQueue s) (Events s) (Closed s) (Processor s) (ConnectContext s) (ConnectTimeoutContext s)
    (next_context s) (ConnectionGeneration s) (CompressedDataSize s) (DecompressedDataSize s)
    (AverageCompressionRatio s) v (DataReadingSuspended s) (Aborting s) (Closing s) (CloseCallback s)
    (CallbackCalls s) (ReadSizeBudget s) (ReadSizeServerDelta s) (DecompressionTasksInflight s)
    (HierarchyData s) (ReadingFinishedData s) (Wire s) (Pending s) (Calls s) (TopClosing s) (TopAborting s)
    (Initialized s) (Reads s) (LostBytes s).
Definition set_DataReadingSuspended (v : bool) (s : rs) : rs :=
  mkRs (Settings s) (NextPartitionStreamId s) (PartitionStreams s) (Streams s) (Infos s)
    (DecompressionQueue s) (Events s) (Closed s) (Processor s) (ConnectContext s) (ConnectTimeoutContext s)
    (next_context s) (ConnectionGeneration s) (CompressedDataSize s) (DecompressedDataSize s)
    (AverageCompressionRatio s) (WaitingReadResponse s) v (Aborting s) (Closing s) (CloseCallback s)
    (CallbackCalls s) (ReadSizeBudget s) (ReadSizeServerDelta s) (DecompressionTasksInflight s)
    (HierarchyData s) (ReadingFinishedData s) (Wire s) (Pending s) (Calls s) (TopClosing s) (TopAborting s)
    (Initialized s) (Reads s) (LostBytes s).
Definition set_Aborting (v : bool) (s : rs) : rs :=
  mkRs (Settings s) (NextPartitionStreamId s) (PartitionStreams s) (Streams s) (Infos s)
    (DecompressionQueue s) (Events s) (Closed s) (Processor s) (ConnectContext s) (ConnectTimeoutContext s)
    (next_context s) (ConnectionGeneration s) (CompressedDataSize s) (DecompressedDataSize s)
    (AverageCompressionRatio s) (WaitingReadResponse s) (DataReadingSuspended s) v (Closing s)
    (CloseCallback s) (CallbackCalls s) (ReadSizeBudget s) (ReadSizeServerDelta s)
    (DecompressionTasksInflight s) (HierarchyData s) (ReadingFinishedData s) (Wire s) (Pending s) (Calls s)
    (TopClosing s) (TopAborting s) (Initialized s) (Reads s) (LostBytes s).
Definition set_Closing (v : bool) (s : rs) : rs :=
  mkRs (Settings s) (NextPartitionStreamId s) (PartitionStreams s) (Streams s) (Infos s)
    (DecompressionQueue s) (Events s) (Closed s) (Processor s) (ConnectContext s) (ConnectTimeoutContext s)
    (next_context s) (ConnectionGeneration s) (CompressedDataSize s) (DecompressedDataSize s)
    (AverageCompressionRatio s) (WaitingReadResponse s) (DataReadingSuspended s) (Aborting s) v
    (CloseCallback s) (CallbackCalls s) (ReadSizeBudget s) (ReadSizeServerDelta s)
    (DecompressionTasksInflight s) (HierarchyData s) (ReadingFinishedData s) (Wire s) (Pending s) (Calls s)
    (TopClosing s) (TopAborting s) (Initialized s) (Reads s) (LostBytes s).
Definition set_CloseCallback (v : bool) (s : rs) : rs :=
  mkRs (Settings s) (NextPartitionStreamId s) (PartitionStreams s) (Streams s) (Infos s)
    (DecompressionQueue s) (Events s) (Closed s) (Processor s) (ConnectContext s) (ConnectTimeoutContext s)
    (next_context s) (ConnectionGeneration s) (CompressedDataSize s) (DecompressedDataSize s)
    (AverageCompressionRatio s) (WaitingReadResponse s) (DataReadingSuspended s) (Aborting s) (Closing s) v
    (CallbackCalls s) (ReadSizeBudget s) (ReadSizeServerDelta s) (DecompressionTasksInflight s)
    (HierarchyData s) (ReadingFinishedData s) (Wire s) (Pending s) (Calls s) (TopClosing s) (TopAborting s)
    (Initialized s) (Reads s) (LostBytes s).
Definition set_CallbackCalls (v : nat) (s : rs) : rs :=
  mkRs (Settings s) (NextPartitionStreamId s) (PartitionStreams s) (Streams s) (Infos s)
    (DecompressionQueue s) (Events s) (Closed s) (Processor s) (ConnectContext s) (ConnectTimeoutContext s)
    (next_context s) (ConnectionGeneration s) (CompressedDataSize s) (DecompressedDataSize s)
    (AverageCompressionRatio s) (WaitingReadResponse s) (DataReadingSuspended s) (Aborting s) (Closing s)
    (CloseCallback s) v (ReadSizeBudget s) (ReadSizeServerDelta s) (DecompressionTasksInflight s)
    (HierarchyData s) (ReadingFinishedData s) (Wire s) (Pending s) (Calls s) (TopClosing s) (TopAborting s)
    (Initialized s) (Reads s) (LostBytes s).
Definition set_ReadSizeBudget (v : Z) (s : rs) : rs :=
  mkRs (Settings s) (NextPartitionStreamId s) (PartitionStreams s) (Streams s) (Infos s)
    (DecompressionQueue s) (Events s) (Closed s) (Processor s) (ConnectContext s) (ConnectTimeoutContext s)
    (next_context s) (ConnectionGeneration s) (CompressedDataSize s) (DecompressedDataSize s)
    (AverageCompressionRatio s) (WaitingReadResponse s) (DataReadingSuspended s) (Aborting s) (Closing s)
    (CloseCallback s) (CallbackCalls s) v (ReadSizeServerDelta s) (DecompressionTasksInflight s)
    (HierarchyData s) (ReadingFinishedData s) (Wire s) (Pending s) (Calls s) (TopClosing s) (TopAborting s)
    (Initialized s) (Reads s) (LostBytes s).
Definition set_ReadSizeServerDelta (v : Z) (s : rs) : rs :=
  mkRs (Settings s) (NextPartitionStreamId s) (PartitionStreams s) (Streams s) (Infos s)
    (DecompressionQueue s) (Events s) (Closed s) (Processor s) (ConnectContext s) (ConnectTimeoutContext s)
    (next_context s) (ConnectionGeneration s) (CompressedDataSize s) (DecompressedDataSize s)
    (AverageCompressionRatio s) (WaitingReadResponse s) (DataReadingSuspended s) (Aborting s) (Closing s)
    (CloseCallback s) (CallbackCalls s) (ReadSizeBudget s) v (DecompressionTasksInflight s) (HierarchyData s)
    (ReadingFinishedData s) (Wire s) (Pending s) (Calls s) (TopClosing s) (TopAborting s) (Initialized s) (Reads s)
    (LostBytes s).
Definition set_DecompressionTasksInflight (v : Z) (s : rs) : rs :=
  mkRs (Settings s) (NextPartitionStreamId s) (PartitionStreams s) (Streams s) (Infos s)
    (DecompressionQueue s) (Events s) (Closed s) (Processor s) (ConnectContext s) (ConnectTimeoutContext s)
    (next_context s) (ConnectionGeneration s) (CompressedDataSize s) (DecompressedDataSize s)
    (AverageCompressionRatio s) (WaitingReadResponse s) (DataReadingSuspended s) (Aborting s) (Closing s)
    (CloseCallback s) (CallbackCalls s) (ReadSizeBudget s) (ReadSizeServerDelta s) v (HierarchyData s)
    (ReadingFinishedData s) (Wire s) (Pending s) (Calls s) (TopClosing s) (TopAborting s) (Initialized s) (Reads s)
    (LostBytes s).
Definition set_HierarchyData (v : gmap Z (list (Z * Z))) (s : rs) : rs :=
  mkRs (Settings s) (NextPartitionStreamId s) (PartitionStreams s) (Streams s) (Infos s)
    (DecompressionQueue s) (Events s) (Closed s) (Processor s) (ConnectContext s) (ConnectTimeoutContext s)
    (next_context s) (ConnectionGeneration s) (CompressedDataSize s) (DecompressedDataSize s)
    (AverageCompressionRatio s) (WaitingReadResponse s) (DataReadingSuspended s) (Aborting s) (Closing s)
    (CloseCallback s) (CallbackCalls s) (ReadSizeBudget s) (ReadSizeServerDelta s)
    (DecompressionTasksInflight s) v (ReadingFinishedData s) (Wire s) (Pending s) (Calls s) (TopClosing s)
    (TopAborting s) (Initialized s) (Reads s) (LostBytes s).
Definition set_ReadingFinishedData (v : gset Z) (s : rs) : rs :=
  mkRs (Settings s) (NextPartitionStreamId s) (PartitionStreams s) (Streams s) (Infos s)
    (DecompressionQueue s) (Events s) (Closed s) (Processor s) (ConnectContext s) (ConnectTimeoutContext s)
    (next_context s) (ConnectionGeneration s) (CompressedDataSize s) (DecompressedDataSize s)
    (AverageCompressionRatio s) (WaitingReadResponse s) (DataReadingSuspended s) (Aborting s) (Closing s)
    (CloseCallback s) (CallbackCalls s) (ReadSizeBudget s) (ReadSizeServerDelta s)
    (DecompressionTasksInflight s) (HierarchyData s) v (Wire s) (Pending s) (Calls s) (TopClosing s) (TopAborting s)
    (Initialized s) (Reads s) (LostBytes s).
Definition set_Wire (v : list client_message) (s : rs) : rs :=
  mkRs (Settings s) (NextPartitionStreamId s) (PartitionStreams s) (Streams s) (Infos s)
    (DecompressionQueue s) (Events s) (Closed s) (Processor s) (ConnectContext s) (ConnectTimeoutContext s)
    (next_context s) (ConnectionGeneration s) (CompressedDataSize s) (DecompressedDataSize s)
    (AverageCompressionRatio s) (WaitingReadResponse s) (DataReadingSuspended s) (Aborting s) (Closing s)
    (CloseCallback s) (CallbackCalls s) (ReadSizeBudget s) (ReadSizeServerDelta s)
    (DecompressionTasksInflight s) (HierarchyData s) (ReadingFinishedData s) v (Pending s) (Calls s) (TopClosing s)
    (TopAborting s) (Initialized s) (Reads s) (LostBytes s).
Definition set_Pending (v : list action) (s : rs) : rs :=
  mkRs (Settings s) (NextPartitionStreamId s) (PartitionStreams s) (Streams s) (Infos s)
    (DecompressionQueue s) (Events s) (Closed s) (Processor s) (ConnectContext s) (ConnectTimeoutContext s)
    (next_context s) (ConnectionGeneration s) (CompressedDataSize s) (DecompressedDataSize s)
    (AverageCompressionRatio s) (WaitingReadResponse s) (DataReadingSuspended s) (Aborting s) (Closing s)
    (CloseCallback s) (CallbackCalls s) (ReadSizeBudget s) (ReadSizeServerDelta s)
    (DecompressionTasksInflight s) (HierarchyData s) (ReadingFinishedData s) (Wire s) v (Calls s) (TopClosing s)
    (TopAborting s) (Initialized s) (Reads s) (LostBytes s).
Definition set_Calls (v : list continuation) (s : rs) : rs :=
  mkRs (Settings s) (NextPartitionStreamId s) (PartitionStreams s) (Streams s) (Infos s)
    (DecompressionQueue s) (Events s) (Closed s) (Processor s) (ConnectContext s) (ConnectTimeoutContext s)
    (next_context s) (ConnectionGeneration s) (CompressedDataSize s) (DecompressedDataSize s)
    (AverageCompressionRatio s) (WaitingReadResponse s) (DataReadingSuspended s) (Aborting s) (Closing s)
    (CloseCallback s) (CallbackCalls s) (ReadSizeBudget s) (ReadSizeServerDelta s)
    (DecompressionTasksInflight s) (HierarchyData s) (ReadingFinishedData s) (Wire s) (Pending s) v (TopClosing s)
    (TopAborting s) (Initialized s) (Reads s) (LostBytes s).
Definition set_TopClosing (v : bool) (s : rs) : rs :=
  mkRs (Settings s) (NextPartitionStreamId s) (PartitionStreams s) (Streams s) (Infos s)
    (DecompressionQueue s) (Events s) (Closed s) (Processor s) (ConnectContext s) (ConnectTimeoutContext s)
    (next_context s) (ConnectionGeneration s) (CompressedDataSize s) (DecompressedDataSize s)
    (AverageCompressionRatio s) (WaitingReadResponse s) (DataReadingSuspended s) (Aborting s) (Closing s)
    (CloseCallback s) (CallbackCalls s) (ReadSizeBudget s) (ReadSizeServerDelta s)
    (DecompressionTasksInflight s) (HierarchyData s) (ReadingFinishedData s) (Wire s) (Pending s) (Calls s) v
    (TopAborting s) (Initialized s) (Reads s) (LostBytes s).
Definition set_TopAborting (v : bool) (s : rs) : rs :=
  mkRs (Settings s) (NextPartitionStreamId s) (PartitionStreams s) (Streams s) (Infos s)
    (DecompressionQueue s) (Events s) (Closed s) (Processor s) (ConnectContext s) (ConnectTimeoutContext s)
    (next_context s) (ConnectionGeneration s) (CompressedDataSize s) (DecompressedDataSize s)
    (AverageCompressionRatio s) (WaitingReadResponse s) (DataReadingSuspended s) (Aborting s) (Closing s)
    (CloseCallback s) (CallbackCalls s) (ReadSizeBudget s) (ReadSizeServerDelta s)
    (DecompressionTasksInflight s) (HierarchyData s) (ReadingFinishedData s) (Wire s) (Pending s) (Calls s)
    (TopClosing s) v (Initialized s) (Reads s) (LostBytes s).
Definition set_Initialized (v : bool) (s : rs) : rs :=
  mkRs (Settings s) (NextPartitionStreamId s) (PartitionStreams s) (Streams s) (Infos s)
    (DecompressionQueue s) (Events s) (Closed s) (Processor s) (ConnectContext s) (ConnectTimeoutContext s)
    (next_context s) (ConnectionGeneration s) (CompressedDataSize s) (DecompressedDataSize s)
    (AverageCompressionRatio s) (WaitingReadResponse s) (DataReadingSuspended s) (Aborting s) (Closing s)
    (CloseCallback s) (CallbackCalls s) (ReadSizeBudget s) (ReadSizeServerDelta s)
    (DecompressionTasksInflight s) (HierarchyData s) (ReadingFinishedData s) (Wire s) (Pending s) (Calls s)
    (TopClosing s) (TopAborting s) v (Reads s) (LostBytes s).
Definition set_Reads (v : list Z) (s : rs) : rs :=
  mkRs (Settings s) (NextPartitionStreamId s) (PartitionStreams s) (Streams s) (Infos s)
    (DecompressionQueue s) (Events s) (Closed s) (Processor s) (ConnectContext s) (ConnectTimeoutContext s)
    (next_context s) (ConnectionGeneration s) (CompressedDataSize s) (DecompressedDataSize s)
    (AverageCompressionRatio s) (WaitingReadResponse s) (DataReadingSuspended s) (Aborting s) (Closing s)
    (CloseCallback s) (CallbackCalls s) (ReadSizeBudget s) (ReadSizeServerDelta s)
    (DecompressionTasksInflight s) (HierarchyData s) (ReadingFinishedData s) (Wire s) (Pending s) (Calls s)
    (TopClosing s) (TopAborting s) (Initialized s) v (LostBytes s).
Definition set_LostBytes (v : Z) (s : rs) : rs :=
  mkRs (Settings s) (NextPartitionStreamId s) (PartitionStreams s) (Streams s) (Infos s)
    (DecompressionQueue s) (Events s) (Closed s) (Processor s) (ConnectContext s) (ConnectTimeoutContext s)
    (next_context s) (ConnectionGeneration s) (CompressedDataSize s) (DecompressedDataSize s)
    (AverageCompressionRatio s) (WaitingReadResponse s) (DataReadingSuspended s) (Aborting s) (Closing s)
    (CloseCallback s) (CallbackCalls s) (ReadSizeBudget s) (ReadSizeServerDelta s)
    (DecompressionTasksInflight s) (HierarchyData s) (ReadingFinishedData s) (Wire s) (Pending s) (Calls s)
    (TopClosing s) (TopAborting s) (Initialized s) (Reads s) v.

(** ** Parts of the state *)

Definition upd {A} (get : rs -> A) (set : A -> rs -> rs) (f : A -> A) : M rs unit := modify (fun s => set (f (get s)) s).

Definition add_pending (l : list action) : M rs unit := upd Pending set_Pending (fun p => p ++ l).
Definition add_calls (l : list continuation) : M rs unit := upd Calls set_Calls (fun c => c ++ l).
Definition upd_info (i : nat) (f : TDataDecompressionInfo -> TDataDecompressionInfo) : M rs unit := upd Infos set_Infos (alter f i).
Definition upd_stream (sid : nat) (f : TStream -> TStream) : M rs unit := upd Streams set_Streams (alter f sid).
Definition set_queue (q : TRawPartitionStreamEventQueue) (st : TStream) : TStream :=
  mkTStream (stream st) q (HasCbContext st) (Queued st) (Taken st).

(** A value computed as an [i64], and a counter of the session changed by one. *)
Definition check_i64 (z : Z) : M rs Z := fun s => if in_i64 z then Ok (z, s) else Fail counter_overflow.
Definition upd_i64 (get : rs -> Z) (set : Z -> rs -> rs) (f : Z -> Z) : M rs unit :=
  v ← gets get ; v ← check_i64 (f v) ; modify (set v).

Definition get_info (i : nat) : M rs TDataDecompressionInfo := fun s =>
  match Infos s !! i with Some info => Ok (info, s) | None => Fail (Undefined "no such info") end.
Definition get_stream (sid : nat) : M rs TStream := fun s =>
  match Streams s !! sid with Some st => Ok (st, s) | None => Fail (Undefined "no such stream") end.

Definition info_upd_sizes (compressed decompressed serverBytes : Z) (info : TDataDecompressionInfo) : TDataDecompressionInfo :=
  mkInfo (ServerMessage info) (PartitionStream info) (CommittedOffset info) serverBytes compressed decompressed
    (ReadyThresholds info) (Tasks info) (DecompressedData info) (DecompressionErrors info) (Destroyed info).
Definition info_set_tasks (tasks : list TDecompressionTask) (info : TDataDecompressionInfo) : TDataDecompressionInfo :=
  mkInfo (ServerMessage info) (PartitionStream info) (CommittedOffset info) (ServerBytesSize info) (info_Compressed info)
    (info_Decompressed info) (ReadyThresholds info) tasks (DecompressedData info) (DecompressionErrors info) (Destroyed info).

Definition WriteToProcessorImpl (req : client_message) : M rs unit :=
  p ← gets Processor ; when p (upd Wire set_Wire (fun w => w ++ [req])).

(** ** Memory and read budget *)

Definition f64_div : f64 -> f64 -> f64 := SFdiv 53 1024.
Definition weight : f64 := S754_finite false 5404319552844595 (-53).   (* 0.6 *)

Definition GetCompressedDataSizeLimit : M rs Z := fun s =>
  match f64_to_int (f64_div (f64_of_Z (MaxMemoryUsageBytes_ (Settings s))) (f64_add f64_1 (AverageCompressionRatio s))) with
  | Some z => Ok (Z.max 1 z, s)
  | None => Fail (Undefined "conversion of a double to an integer")
  end.

Definition GetDecompressedDataSizeLimit : M rs Z :=
  lim ← GetCompressedDataSizeLimit ;
  s ← get_st ;
  d ← check_i64 (wrapS 64 (MaxMemoryUsageBytes_ (Settings s)) - lim) ;
  mret (Z.max 1 d).

Definition ContinueReadingDataImpl : M rs unit :=
  s ← get_st ;
  if (Closing s || Aborting s || WaitingReadResponse s || DataReadingSuspended s || negb (Processor s))%bool then mret tt
  else
    lim ← GetCompressedDataSizeLimit ;
    if CompressedDataSize s <? lim then
      used ← check_i64 (CompressedDataSize s + DecompressedDataSize s) ;
      if u64 used <? MaxMemoryUsageBytes_ (Settings s) then
        if ReadSizeBudget s <=? 0 then mret tt
        else
          delta ← check_i64 (ReadSizeServerDelta s + ReadSizeBudget s) ;
          if delta <=? 0 then mret tt
          else
            modify (set_ReadSizeServerDelta delta) ;;
            modify (set_ReadSizeBudget 0) ;;
            WriteToProcessorImpl (ReadRequest (ReadSizeBudget s)) ;;
            modify (set_WaitingReadResponse true)
      else mret tt
    else mret tt.

(** [StartDecompressionTasks] of the info at the head of the queue. *)
Definition StartDecompressionTasks (i : nat) (availableMemory : Z) : M rs Z :=
  info ← get_info i ;
  let '(used, started, left_) := StartTasks availableMemory (Tasks info) in
  used ← check_i64 used ;
  upd_info i (info_set_tasks left_) ;;
  upd DecompressionTasksInflight set_DecompressionTasksInflight (fun n => n + Z.of_nat (length started)) ;;
  add_pending (map RunTask started) ;;
  mret used.

(** Whether another task may start; the sum is not computed unless it decides. *)
Definition may_start (limit : Z) : M rs bool :=
  s ← get_st ;
  if DecompressEverything (Settings s) then mret true
  else if DecompressedDataSize s <? limit then
    used ← check_i64 (CompressedDataSize s + DecompressedDataSize s) ;
    mret ((u64 used <? MaxMemoryUsageBytes_ (Settings s)) || (DecompressedDataSize s =? 0))%bool
  else mret false.

Fixpoint StartLoop (limit : Z) (q : list nat) : M rs unit :=
  match q with
  | [] => mret tt
  | i :: q' =>
      start ← may_start limit ;
      if (start : bool) then
        s ← get_st ;
        available ← check_i64 (limit - DecompressedDataSize s) ;
        sentToDecompress ← StartDecompressionTasks i (Z.max available 1) ;
        upd_i64 DecompressedDataSize set_DecompressedDataSize (fun d => d + sentToDecompress) ;;
        info ← get_info i ;
        match Tasks info with
        | [] => add_pending [CleanupInfo i] ;; modify (set_DecompressionQueue q') ;; StartLoop limit q'
        | _ => mret tt
        end
      else mret tt
  end.

Definition StartDecompressionTasksImpl : M rs unit :=
  s ← get_st ;
  if Aborting s then mret tt
  else
    limit ← GetDecompressedDataSizeLimit ;
    abort_unless (limit >? 0) "limit > 0" ;;
    StartLoop limit (DecompressionQueue s).

Definition return_budget (serverBytesSize : Z) : M rs unit :=
  upd_i64 ReadSizeBudget set_ReadSizeBudget (fun b => b + serverBytesSize) ;;
  ContinueReadingDataImpl ;;
  StartDecompressionTasksImpl.

(** [OnUserRetrievedEvent] of the info and of the session. *)
Definition OnUserRetrievedEvent (i : nat) (decompressedSize : Z) : M rs unit :=
  info ← get_info i ;
  left_ ← check_i64 (info_Decompressed info - decompressedSize) ;
  upd_info i (info_upd_sizes (info_Compressed info) left_ (ServerBytesSize info)) ;;
  s ← get_st ;
  if Aborting s then mret tt
  else
    abort_unless (decompressedSize <=? DecompressedDataSize s) "decompressedSize <= DecompressedDataSize" ;;
    upd_i64 DecompressedDataSize set_DecompressedDataSize (fun d => d - decompressedSize) ;;
    ContinueReadingDataImpl ;;
    StartDecompressionTasksImpl.

Definition UpdateRatio (sourceSize decompressedSize : Z) (r : f64) : f64 :=
  if ((sourceSize >? 0) && (decompressedSize >? 0))%bool then
    f64_add (f64_div (f64_mul weight (f64_of_Z decompressedSize)) (f64_of_Z sourceSize)) (f64_mul (f64_sub f64_1 weight) r)
  else r.

(** [OnDataDecompressed] of the info and of the session. *)
Definition OnDataDecompressed (i : nat) (sourceSize estimatedDecompressedSize decompressedSize : Z) : M rs unit :=
  info ← get_info i ;
  compressed ← check_i64 (info_Compressed info - sourceSize) ;
  decompressed ← check_i64 (info_Decompressed info + decompressedSize) ;
  upd_info i (info_upd_sizes compressed decompressed 0) ;;
  upd_i64 CompressedDataSize set_CompressedDataSize (fun c => c - sourceSize) ;;
  difference ← check_i64 (decompressedSize - estimatedDecompressedSize) ;
  upd_i64 DecompressedDataSize set_DecompressedDataSize (fun d => d + difference) ;;
  upd AverageCompressionRatio set_AverageCompressionRatio (UpdateRatio sourceSize decompressedSize) ;;
  a ← gets Aborting ;
  if (a : bool) then mret tt else return_budget (ServerBytesSize info).

(** [Cleanup] of an info: tasks not started are dropped. *)
Definition InfoCleanup (i : nat) : M rs unit :=
  info ← get_info i ;
  upd_info i (info_set_tasks []) ;;
  add_pending [TaskCanceled i (foldr (fun t n => SourceDataSize t + n) 0 (Tasks info))].

(** [OnTaskCanceled] of the info and [OnDecompressionTaskCanceled] of the session. *)
Definition OnTaskCanceled (i : nat) (sourceSize : Z) : M rs unit :=
  info ← get_info i ;
  compressed ← check_i64 (info_Compressed info - sourceSize) ;
  upd_info i (info_upd_sizes compressed (info_Decompressed info) 0) ;;
  upd_i64 CompressedDataSize set_CompressedDataSize (fun c => c - sourceSize) ;;
  a ← gets Aborting ;
  if (a : bool) then mret tt else return_budget (ServerBytesSize info).

(** The destructor of an info and [OnDecompressionInfoDestroy]. *)
Definition OnDecompressionInfoDestroy (i : nat) : M rs unit :=
  info ← get_info i ;
  upd_info i (fun info => mkInfo (ServerMessage info) (PartitionStream info) (CommittedOffset info) 0 0 0
    (ReadyThresholds info) (Tasks info) (DecompressedData info) (DecompressionErrors info) true) ;;
  upd_i64 CompressedDataSize set_CompressedDataSize (fun c => c - info_Compressed info) ;;
  upd_i64 DecompressedDataSize set_DecompressedDataSize (fun d => d - info_Decompressed info) ;;
  return_budget (ServerBytesSize info).

(** ** Partitions that wait for their parents *)

Definition RegisterParentPartition (partitionId parentPartitionId parentPartitionSessionId : Z) : M rs unit :=
  upd HierarchyData set_HierarchyData
    (fun h => <[partitionId := default [] (h !! partitionId) ++ [(parentPartitionId, parentPartitionSessionId)]]> h).

Definition UnregisterPartition (partitionId partitionSessionId : Z) : M rs unit :=
  upd HierarchyData set_HierarchyData
    (fun h => omap (fun values =>
       match filter (fun v => ~ (v.1 = partitionId /\ v.2 < partitionSessionId)) values with
       | [] => None
       | values => Some values
       end) h).

(** The last session of each parent, among those that are not newer. *)
Fixpoint parent_index (partitionSessionId : Z) (parents : list (Z * Z)) (index : gmap Z Z) : gmap Z Z :=
  match parents with
  | (p, psid) :: parents => if psid >? partitionSessionId then index else parent_index partitionSessionId parents (<[p := psid]> index)
  | [] => index
  end.

Definition GetParentPartitionSessions (partitionId partitionSessionId : Z) (s : rs) : list Z :=
  match HierarchyData s !! partitionId with
  | None => []
  | Some parents => map snd (map_to_list (parent_index partitionSessionId parents ∅))
  end.

Definition AllParentSessionsHasBeenRead (partitionId partitionSessionId : Z) (s : rs) : bool :=
  forallb (fun id => bool_decide (id ∈ ReadingFinishedData s)) (GetParentPartitionSessions partitionId partitionSessionId s).

(** ** The events queue *)

(** [SignalEventImpl]: the queue of the whole session names the streams with events; data
    events of one stream that follow each other share an entry. *)
Definition SignalEvent (sid : nat) (isDataEvent : bool) (l : list TReadSessionEventInfo) : list TReadSessionEventInfo :=
  match last l with
  | Some e =>
      if (HasDataEvents e && isDataEvent && (ei_Stream e =? sid)%nat)%bool then
        removelast l ++ [mkEventInfo (ei_Stream e) (HasDataEvents e) (EventsCount e + 1)]
      else l ++ [mkEventInfo sid isDataEvent 1]
  | None => [mkEventInfo sid isDataEvent 1]
  end.

Definition SignalEventImpl (sid : nat) (isDataEvent : bool) : M rs unit :=
  c ← gets Closed ;
  if (c : bool) then mret tt else upd Events set_Events (SignalEvent sid isDataEvent).

(** [TryApplyCallbackToEventImpl]. *)
Definition TryApplyCallbackToEventImpl (sid : nat) (e : TEvent) : M rs bool :=
  h ← gets (fun s => HasHandler (Settings s) e) ;
  if (h : bool) then add_pending [EventHandler sid e] ;; mret true else mret false.

(** Events of the head of a queue that the user takes now. *)
Definition take_from (sid : nat) (taken : list TDataDecompressionEvent) (q : TRawPartitionStreamEventQueue) : M rs unit :=
  upd_stream sid (fun st => mkTStream (stream st) q (HasCbContext st) (Queued st) (Taken st ++ taken)).

(** The loop of [SignalReadyEvents]; each round takes at least an event from the queue, so
    that its length is enough fuel when a handler may take a byte. *)
Fixpoint SignalLoop (fuel : nat) (sid : nat) : M rs unit :=
  match fuel with
  | O => undefined "SignalReadyEvents does not return"
  | S fuel =>
      st ← get_stream sid ;
      s ← get_st ;
      match NotReady (queue st) with
      | [] => mret tt
      | front :: rest =>
          if (IsReady (Infos s) front || IsAbandoned (Infos s) front)%bool then
            if IsAbandoned (Infos s) front then
              upd_stream sid (set_queue (mkQueue (ReadyEvents (queue st)) rest)) ;; SignalLoop fuel sid
            else
              match front with
              | DataEvent d =>
                  if HasDataEventCallback (Settings s) then
                    let dd := Decompress_ (Settings s) in
                    let '(taken, left_, _, _) := TakeEvents dd (Infos s) (2 ^ 64 - 1) (MaxMessagesBytes_ (Settings s)) (NotReady (queue st)) in
                    take_from sid taken (mkQueue (ReadyEvents (queue st)) left_) ;;
                    add_pending [DataHandler sid (taken_messages dd (Infos s) taken) (taken_acc dd (Infos s) taken)] ;;
                    SignalLoop fuel sid
                  else
                    SignalEventImpl sid true ;;
                    upd_stream sid (set_queue (mkQueue (ReadyEvents (queue st) ++ [front]) rest)) ;;
                    SignalLoop fuel sid
              | OtherEvent e =>
                  applied ← TryApplyCallbackToEventImpl sid e ;
                  if (applied : bool) then
                    upd_stream sid (set_queue (mkQueue (ReadyEvents (queue st)) rest)) ;; SignalLoop fuel sid
                  else
                    SignalEventImpl sid false ;;
                    upd_stream sid (set_queue (mkQueue (ReadyEvents (queue st) ++ [front]) rest)) ;;
                    SignalLoop fuel sid
              end
          else mret tt
      end
  end.

(** [SignalReadyEvents]: nothing of a partition is given while a parent is not read. *)
Definition SignalReadyEvents (sid : nat) : M rs unit :=
  st ← get_stream sid ;
  s ← get_st ;
  if (HasCbContext st && AllParentSessionsHasBeenRead (PartitionId (stream st)) (PartitionSessionId (stream st)) s)%bool
  then SignalLoop (S (length (NotReady (queue st)))) sid
  else mret tt.

Definition DeleteNotReadyTail (sid : nat) : M rs unit :=
  st ← get_stream sid ;
  s ← get_st ;
  let '(infos, ready, cleanups, released) := DeleteTail (Infos s) false (NotReady (queue st)) in
  modify (set_Infos infos) ;;
  upd_stream sid (set_queue (mkQueue (ReadyEvents (queue st)) ready)) ;;
  add_pending (map (fun '(i, n) => UserRetrieved i n) (released_acc infos released) ++ map CleanupInfo cleanups).

(** [Cleanup] of a queue that was taken from its stream. *)
Definition QueueCleanup (q : TRawPartitionStreamEventQueue) : M rs unit :=
  s ← get_st ;
  let '(infos, cleanups, released) := CleanupEvents (Infos s) (ReadyEvents q ++ NotReady q) in
  modify (set_Infos infos) ;;
  add_pending (map (fun '(i, n) => UserRetrieved i n) (released_acc infos released) ++ map CleanupInfo cleanups).

(** [ExtractQueue] followed by [Cleanup]. *)
Definition ExtractAndCleanup (sid : nat) : M rs unit :=
  st ← get_stream sid ;
  upd_stream sid (set_queue (mkQueue [] [])) ;;
  QueueCleanup (queue st).

(** [PushEvent]: false if the queue is closed. *)
Definition PushEvent (sid : nat) (e : TEvent) : M rs bool :=
  c ← gets Closed ;
  if (c : bool) then mret false
  else
    when (is_closed_event e) (DeleteNotReadyTail sid ;; SignalReadyEvents sid) ;;
    s ← get_st ;
    applied ← (if HasDataEventCallback (Settings s) then mret false else TryApplyCallbackToEventImpl sid e) ;
    if (applied : bool) then mret true
    else
      upd_stream sid (fun st => set_queue (mkQueue (ReadyEvents (queue st)) (NotReady (queue st) ++ [OtherEvent e])) st) ;;
      SignalReadyEvents sid ;;
      mret true.

(** [PushDataEvent] for the events of an info, all of them under the lock of the session. *)
Definition PushDataEvents (sid : nat) (events : list TDataDecompressionEvent) : M rs unit :=
  upd_stream sid (fun st => mkTStream (stream st)
    (mkQueue (ReadyEvents (queue st)) (NotReady (queue st) ++ map DataEvent events)) (HasCbContext st)
    (Queued st ++ events) (Taken st)).

(** What the user gets. *)
Inductive user_event :=
  | DataReceivedEvent (sid : nat) (messages : list TMessage)
  | UserEvent (sid : nat) (e : TEvent)
  | SessionClosedEvent.

(** [GetEventImpl]: the event, what is left of the bytes and the accumulator; the fuel is
    the number of entries of the queue. *)
Fixpoint GetEventImpl (fuel : nat) (maxByteSize : Z) (acc : list (nat * Z)) : M rs (option user_event * Z * list (nat * Z)) :=
  s ← get_st ;
  match Events s with
  | [] => mret (if Closed s then Some SessionClosedEvent else None, maxByteSize, acc)
  | front :: entries =>
      match fuel with
      | O => undefined "GetEventImpl does not return"
      | S fuel =>
          st ← get_stream (ei_Stream front) ;
          match ReadyEvents (queue st) ++ NotReady (queue st) with
          | [] => abort "can't be here - got events in global queue, but nothing in partition queue"
          | OtherEvent e :: _ =>
              upd_stream (ei_Stream front) (fun st =>
                set_queue (match ReadyEvents (queue st) with
                           | [] => mkQueue [] (tail (NotReady (queue st)))
                           | _ :: ready => mkQueue ready (NotReady (queue st))
                           end) st) ;;
              modify (set_Events entries) ;;
              when (is_closed_event e) (UnregisterPartition (PartitionId (stream st)) (PartitionSessionId (stream st))) ;;
              mret (Some (UserEvent (ei_Stream front) e), maxByteSize, acc)
          | DataEvent _ :: _ =>
              abort_unless (EventsCount front >? 0) "event.EventsCount > 0" ;;
              let dd := Decompress_ (Settings s) in
              abort_unless (match ReadyEvents (queue st) with DataEvent d :: _ => bool_decide (state_of (Infos s) d = Ready) | _ => false end)
                "readyDataInTheHead()" ;;
              let '(taken, left_, count, bytes) := TakeEvents dd (Infos s) (EventsCount front) maxByteSize (ReadyEvents (queue st)) in
              take_from (ei_Stream front) taken (mkQueue left_ (NotReady (queue st))) ;;
              modify (set_Events (if count =? 0 then entries else mkEventInfo (ei_Stream front) (HasDataEvents front) count :: entries)) ;;
              let acc := foldl (fun acc d => acc_Add (ev_Parent d) (DataSize (taken_data dd (Infos s) d)) acc) acc taken in
              match taken_messages dd (Infos s) taken with
              | [] => if bytes =? 0 then mret (None, bytes, acc) else GetEventImpl fuel bytes acc
              | messages => mret (Some (DataReceivedEvent (ei_Stream front) messages), bytes, acc)
              end
          end
      end
  end.

(** The loop of [GetEvents] without blocking; [maxCount] bounds the events returned. *)
Fixpoint GetEventsLoop (fuel : nat) (maxCount : Z) (maxByteSize : Z) (acc : list (nat * Z)) (result : list user_event)
  : M rs (list user_event * list (nat * Z)) :=
  s ← get_st ;
  if (negb (bool_decide (Events s = []) && negb (Closed s)) && (Z.of_nat (length result) <? maxCount) && (maxByteSize >? 0))%bool then
    match fuel with
    | O => undefined "GetEvents does not return"
    | S fuel =>
        '(event, bytes, acc) ← GetEventImpl (length (Events s)) maxByteSize acc ;
        match event with
        | None => GetEventsLoop fuel maxCount bytes acc result
        | Some SessionClosedEvent => mret (result ++ [SessionClosedEvent], acc)
        | Some e => GetEventsLoop fuel maxCount bytes acc (result ++ [e])
        end
    end
  else mret (result, acc).

Definition events_total (l : list TReadSessionEventInfo) : Z := foldr (fun e n => EventsCount e + n) 0 l.

Definition release (acc : list (nat * Z)) : M rs unit := add_pending (map (fun '(i, n) => UserRetrieved i n) acc).

(** [GetEvents] and [GetEvent], without blocking. *)
Definition GetEvents (maxEventsCount : option Z) (maxByteSize : Z) : M rs (list user_event) :=
  if maxByteSize =? 0 then throw "the maxByteSize value must be greater than 0"
  else
    s ← get_st ;
    '(result, acc) ← GetEventsLoop (S (S (Z.to_nat (events_total (Events s))))) (default (2 ^ 64 - 1) maxEventsCount) maxByteSize [] [] ;
    release acc ;;
    mret result.

Definition GetEvent (maxByteSize : Z) : M rs (option user_event) :=
  if maxByteSize =? 0 then throw "the maxByteSize value must be greater than 0"
  else
    s ← get_st ;
    '(event, _, acc) ← (if (bool_decide (Events s = []) && negb (Closed s))%bool then mret (None, maxByteSize, [])
                         else GetEventImpl (length (Events s)) maxByteSize []) ;
    release acc ;;
    mret event.

(** The loop over the entries in [Close] and [ClearAllEvents] of the events queue. *)
Fixpoint ExtractLoop (l : list TReadSessionEventInfo) : M rs unit :=
  match l with
  | [] => mret tt
  | e :: l =>
      st ← get_stream (ei_Stream e) ;
      match ReadyEvents (queue st) ++ NotReady (queue st) with
      | [] => mret tt
      | _ => ExtractAndCleanup (ei_Stream e)
      end ;;
      ExtractLoop l
  end.

Definition ClearAllEvents : M rs unit :=
  l ← gets Events ;
  modify (set_Events []) ;;
  ExtractLoop l.

(** [Close] of the events queue: false if it is closed already. *)
Definition QueueClose : M rs bool :=
  c ← gets Closed ;
  if (c : bool) then mret false
  else modify (set_Closed true) ;; ClearAllEvents ;; mret true.

(** ** Stopping *)

Definition CleanupDecompressionQueueImpl : M rs unit :=
  q ← gets DecompressionQueue ;
  modify (set_DecompressionQueue []) ;;
  add_pending (map CleanupInfo q).

Definition CallClosing : M rs unit :=
  c ← gets CloseCallback ;
  when c (upd CallbackCalls set_CallbackCalls S ;; modify (set_CloseCallback false)).

(** [CallCloseCallbackImpl] calls [AbortImpl] unless it is called by it. *)
Definition AbortImpl : M rs unit :=
  a ← gets Aborting ;
  when (negb a) (modify (set_Aborting true) ;; CallClosing ;; CleanupDecompressionQueueImpl) ;;
  CleanupDecompressionQueueImpl.

Definition CallCloseCallbackImpl : M rs unit :=
  CallClosing ;;
  a ← gets Aborting ;
  if (a : bool) then CleanupDecompressionQueueImpl else AbortImpl.

Definition AbortSession : M rs unit := QueueClose ;; mret tt.

Definition HasCommitsInflightImpl (s : rs) : bool :=
  existsb (fun sid => match Streams s !! sid with Some st => HasCommitsInflight (stream st) | None => false end)
    (map snd (map_to_list (PartitionStreams s))).

(** [Close] of the session implementation, with the callback of the caller. *)
Definition Close : M rs unit :=
  s ← get_st ;
  if Aborting s then upd CallbackCalls set_CallbackCalls S
  else
    when (negb (Closing s))
      (modify (set_Closing true) ;;
       modify (set_CloseCallback true) ;;
       if (negb (Processor s) || negb (HasCommitsInflightImpl s))%bool then CallCloseCallbackImpl else mret tt) ;;
    AbortImpl.

Definition StopReadingData : M rs unit := modify (set_DataReadingSuspended true).

Definition ResumeReadingData : M rs unit :=
  d ← gets DataReadingSuspended ;
  when d (modify (set_DataReadingSuspended false) ;; ContinueReadingDataImpl).

(** [ClearAllPartitionStreamEvents]: queues are dropped together with the context. *)
Definition ClearAllPartitionStreamEvents : M rs unit :=
  m ← gets PartitionStreams ;
  for_each (fun sid =>
    st ← get_stream sid ;
    ExtractAndCleanup sid ;;
    upd_stream sid (fun st => mkTStream (stream st) (queue st) false (Queued st) (Taken st)))
    (map snd (map_to_list m)).

(** ** Connections *)

Fixpoint DestroyStreams (l : list nat) : M rs bool :=
  match l with
  | [] => mret true
  | sid :: l =>
      pushRes ← PushEvent sid (PartitionSessionClosedEvent ConnectionLost) ;
      if (pushRes : bool) then DestroyStreams l else AbortImpl ;; mret false
  end.

Definition DestroyAllPartitionStreamsImpl : M rs unit :=
  m ← gets PartitionStreams ;
  done ← DestroyStreams (map snd (map_to_list m)) ;
  when (done : bool) (modify (set_PartitionStreams ∅)).

(** [Reconnect]: [contexts] tells whether contexts are created (the driver is not
    stopping), [ok] whether there is no error, [delay] whether the retry policy gives a
    delay for the error.  False when the session is to be closed. *)
Definition Reconnect (contexts ok delay : bool) : M rs bool :=
  a ← gets Aborting ;
  if (negb contexts || a)%bool then mret false
  else
    modify (set_Processor false) ;;
    modify (set_WaitingReadResponse false) ;;
    upd ConnectionGeneration set_ConnectionGeneration (fun g => g + 1) ;;
    s ← get_st ;
    upd_i64 ReadSizeBudget set_ReadSizeBudget (fun b => b + ReadSizeServerDelta s) ;;
    modify (set_ReadSizeServerDelta 0) ;;
    if (negb ok && negb delay)%bool then mret false
    else
      modify (set_ConnectContext (Some (next_context s))) ;;
      modify (set_ConnectTimeoutContext (Some (next_context s + 1))) ;;
      modify (set_next_context (next_context s + 2)) ;;
      DestroyAllPartitionStreamsImpl ;;
      mret true.

(** A reconnect after which the events queue is closed when it gave up. *)
Definition ReconnectOrAbort (contexts ok delay : bool) : M rs unit :=
  r ← Reconnect contexts ok delay ;
  if (r : bool) then mret tt else add_calls [ToAbortSession].

Definition BreakConnectionAndReconnectImpl : M rs unit :=
  p ← gets Processor ;
  if (p : bool) then modify (set_Processor false) ;; add_pending [ReconnectSession]
  else undefined "Processor->Cancel() without a processor".

Definition ReadFromProcessorImpl : M rs unit :=
  s ← get_st ;
  if Aborting s then mret tt
  else if (Closing s && negb (HasCommitsInflightImpl s))%bool then
    if Processor s then CallCloseCallbackImpl else undefined "Processor->Cancel() without a processor"
  else when (Processor s && negb (Closing s)) (upd Reads set_Reads (fun l => l ++ [ConnectionGeneration s])).

Definition OnConnect (ok : bool) (connectContext : Z) : M rs unit :=
  s ← get_st ;
  if bool_decide (ConnectContext s = Some connectContext) then
    modify (set_ConnectContext None) ;;
    modify (set_ConnectTimeoutContext None) ;;
    if (Closing s || Aborting s)%bool then CallCloseCallbackImpl
    else if ok then
      modify (set_Processor true) ;;
      modify (set_Initialized false) ;;
      WriteToProcessorImpl InitRequest ;;
      ReadFromProcessorImpl
    else add_calls [ToReconnect]
  else mret tt.

Definition OnConnectTimeout (connectTimeoutContext : Z) : M rs unit :=
  s ← get_st ;
  if bool_decide (ConnectTimeoutContext s = Some connectTimeoutContext) then
    modify (set_ConnectContext None) ;;
    modify (set_ConnectTimeoutContext None) ;;
    if (Closing s || Aborting s)%bool then CallCloseCallbackImpl
    else add_calls [ToReconnect]
  else mret tt.

(** ** Messages of the server *)

Record ReadResponse := mkReadResponse { bytes_size : Z; partition_data : list (Z * list Batch) }.

(** An operation of a stream's offsets. *)
Definition on_stream {A} (sid : nat) (m : M TPartitionStreamImpl A) : M rs A := fun s =>
  match Streams s !! sid with
  | None => Fail (Undefined "no such stream")
  | Some st =>
      match m (stream st) with
      | Ok (a, p) => Ok (a, set_Streams (<[sid := mkTStream p (queue st) (HasCbContext st) (Queued st) (Taken st)]> (Streams s)) s)
      | Fail f => Fail f
      end
  end.

(** The planning of an info that was just created: false if the queue is closed, which the
    event of the first message tells. *)
Definition PlanInfo (sid : nat) (batches : list Batch) (i : nat) : M rs bool :=
  s ← get_st ;
  match PlanMessages (AverageCompressionRatio s) batches i
          (if Closed s then take 1 (message_ids batches) else message_ids batches) with
  | Fail f => fun _ => Fail f
  | Ok (tasks, thresholds, events) =>
      if (Closed s && negb (bool_decide (events = [])))%bool then
        add_pending [CleanupInfo i] ;; AbortImpl ;; mret false
      else
        upd_info i (fun info => mkInfo (ServerMessage info) (PartitionStream info) (CommittedOffset info) (ServerBytesSize info)
          (info_Compressed info) (info_Decompressed info) (replicate thresholds InProcess) tasks
          (DecompressedData info) (DecompressionErrors info) (Destroyed info)) ;;
        PushDataEvents sid events ;;
        mret true
  end.

(** The data of one partition; the result is false when the handler returns. *)
Definition OnPartitionData (assignId : Z) (batches : list Batch) (serverBytesSize : Z) : M rs bool :=
  s ← get_st ;
  match PartitionStreams s !! assignId with
  | None =>
      upd LostBytes set_LostBytes (fun n => n + serverBytesSize) ;;
      BreakConnectionAndReconnectImpl ;; mret false
  | Some sid =>
      nonempty ← on_stream sid (ValidateOffsets batches) ;
      upd_i64 CompressedDataSize set_CompressedDataSize (fun c => c + compressed_size batches) ;;
      if negb nonempty then
        upd LostBytes set_LostBytes (fun n => n + serverBytesSize) ;;
        BreakConnectionAndReconnectImpl ;; mret false
      else
        st ← get_stream sid ;
        let i := length (Infos s) in
        upd Infos set_Infos (fun l => l ++ [mkInfo batches sid (MaxCommittedOffset (stream st)) serverBytesSize
          (compressed_size batches) 0 [] [] ∅ ∅ false]) ;;
        planned ← PlanInfo sid batches i ;
        if (planned : bool) then
          upd DecompressionQueue set_DecompressionQueue (fun q => q ++ [i]) ;;
          StartDecompressionTasksImpl ;;
          mret true
        else mret false
  end.

Fixpoint OnPartitionsData (l : list (Z * list Batch)) (serverBytesSize : Z) : M rs bool :=
  match l with
  | [] => upd LostBytes set_LostBytes (fun n => n + serverBytesSize) ;; mret true
  | (assignId, batches) :: l =>
      continue ← OnPartitionData assignId batches serverBytesSize ;
      if (continue : bool) then OnPartitionsData l 0 else mret false
  end.

Definition OnReadResponse (msg : ReadResponse) : M rs unit :=
  s ← get_st ;
  if (Closing s || Aborting s)%bool then mret tt
  else
    upd_i64 ReadSizeServerDelta set_ReadSizeServerDelta (fun d => d - bytes_size msg) ;;
    continue ← OnPartitionsData (partition_data msg) (bytes_size msg) ;
    when (continue : bool) (modify (set_WaitingReadResponse false) ;; ContinueReadingDataImpl).

Definition OnInitResponse : M rs unit := modify (set_Initialized true) ;; ContinueReadingDataImpl.

(** What [StartPartitionSessionRequest] tells. *)
Record start_request := mkStart {
  start_session_id : Z; start_partition_id : Z; start_committed_offset : Z;
  start_begin : Z; start_end : Z; start_retained : option Z }.

Definition OnStartPartitionSessionRequest (msg : start_request) : M rs unit :=
  m ← gets PartitionStreams ;
  pushRes ← match m !! start_session_id msg with
            | Some sid => PushEvent sid (PartitionSessionClosedEvent Lost)
            | None => mret true
            end ;
  if negb pushRes then AbortImpl
  else
    s ← get_st ;
    let sid := length (Streams s) in
    upd Streams set_Streams (fun l => l ++ [mkTStream
      (TPartitionStreamImpl_new (start_session_id msg) (NextPartitionStreamId s) (start_partition_id msg) (start_committed_offset msg))
      (mkQueue [] []) true [] []]) ;;
    modify (set_NextPartitionStreamId (NextPartitionStreamId s + 1)) ;;
    upd PartitionStreams set_PartitionStreams (fun m => <[start_session_id msg := sid]> m) ;;
    pushRes ← PushEvent sid (StartPartitionSessionEvent (start_committed_offset msg) (start_begin msg) (start_end msg) (start_retained msg)) ;
    when (negb pushRes) AbortImpl.

(** [StopPartitionSessionImpl]. *)
Definition StopPartitionSessionImpl (sid : nat) (graceful : bool) : M rs unit :=
  st ← get_stream sid ;
  pushRes ← (if graceful then PushEvent sid (StopPartitionSessionEvent (MaxCommittedOffset (stream st)))
             else
               WriteToProcessorImpl (StopPartitionSessionResponse (AssignId (stream st)) false) ;;
               upd PartitionStreams set_PartitionStreams (fun m => delete (AssignId (stream st)) m) ;;
               PushEvent sid (PartitionSessionClosedEvent Lost)) ;
  when (negb pushRes) AbortImpl.

Definition OnStopPartitionSessionRequest (partition_session_id : Z) (graceful : bool) : M rs unit :=
  m ← gets PartitionStreams ;
  match m !! partition_session_id with
  | None => mret tt
  | Some sid => StopPartitionSessionImpl sid graceful
  end.

Definition OnEndPartitionSession (partition_session_id : Z) (adjacent child : list Z) : M rs unit :=
  m ← gets PartitionStreams ;
  match m !! partition_session_id with
  | None => mret tt
  | Some sid =>
      st ← get_stream sid ;
      for_each (fun c => RegisterParentPartition c (PartitionId (stream st)) (PartitionSessionId (stream st))) child ;;
      pushRes ← PushEvent sid (EndPartitionSessionEvent adjacent child) ;
      when (negb pushRes) AbortImpl
  end.

(** The loop of [CommitOffsetResponse]: partition sessions and their committed offsets. *)
Fixpoint OnCommitOffsetResponse (l : list (Z * Z)) : M rs unit :=
  match l with
  | [] => mret tt
  | (assignId, committed) :: l =>
      m ← gets PartitionStreams ;
      match m !! assignId with
      | None => OnCommitOffsetResponse l
      | Some sid =>
          on_stream sid (modify (UpdateMaxCommittedOffset (u64 committed))) ;;
          pushRes ← PushEvent sid (CommitOffsetAcknowledgementEvent committed) ;
          if (pushRes : bool) then OnCommitOffsetResponse l else AbortImpl
      end
  end.

Definition OnPartitionSessionStatusResponse (partition_session_id committed read_ end_ : Z) : M rs unit :=
  m ← gets PartitionStreams ;
  match m !! partition_session_id with
  | None => mret tt
  | Some sid =>
      pushRes ← PushEvent sid (PartitionSessionStatusEvent committed read_ end_) ;
      when (negb pushRes) AbortImpl
  end.

Inductive server_message :=
  | SInitResponse
  | SReadResponse (msg : ReadResponse)
  | SStartPartitionSessionRequest (msg : start_request)
  | SUpdatePartitionSession
  | SStopPartitionSessionRequest (partition_session_id : Z) (graceful : bool)
  | SEndPartitionSession (partition_session_id : Z) (adjacent child : list Z)
  | SCommitOffsetResponse (l : list (Z * Z))
  | SPartitionSessionStatusResponse (partition_session_id committed read_ end_ : Z)
  | SUpdateTokenResponse
  | SError.   (* a status, or a message that is not expected *)

Definition OnReadDoneImpl (msg : server_message) : M rs unit :=
  match msg with
  | SInitResponse => OnInitResponse
  | SReadResponse msg => OnReadResponse msg
  | SStartPartitionSessionRequest msg => OnStartPartitionSessionRequest msg
  | SStopPartitionSessionRequest id graceful => OnStopPartitionSessionRequest id graceful
  | SEndPartitionSession id adjacent child => OnEndPartitionSession id adjacent child
  | SCommitOffsetResponse l => OnCommitOffsetResponse l
  | SPartitionSessionStatusResponse id committed read_ end_ => OnPartitionSessionStatusResponse id committed read_ end_
  | SUpdatePartitionSession | SUpdateTokenResponse | SError => mret tt
  end.

(** The callback of a read that was posted for the connection [generation]. *)
Definition OnReadDone (generation : Z) (msg : server_message) : M rs unit :=
  upd Reads set_Reads (fun l => filter (fun g => g <> generation) l) ;;
  s ← get_st ;
  if (Aborting s || negb (generation =? ConnectionGeneration s))%bool then mret tt
  else match msg with
       | SError => add_calls [ToReconnect]
       | _ => OnReadDoneImpl msg ;; ReadFromProcessorImpl
       end.

(** ** Calls of the user on a partition session *)

Definition IsActualPartitionStreamImpl (st : TStream) (s : rs) : bool :=
  match PartitionStreams s !! AssignId (stream st) with
  | Some sid => match Streams s !! sid with
                | Some st' => PartitionSessionId (stream st') =? PartitionSessionId (stream st)
                | None => false
                end
  | None => false
  end.

(** The session does not answer calls on streams of earlier incarnations. *)
Definition active (st : TStream) (s : rs) : bool :=
  (negb (Aborting s) && negb (Closing s) && IsActualPartitionStreamImpl st s)%bool.

(** A call of a stream on the session. *)
Definition if_active (sid : nat) (req : Z -> client_message) : M rs unit :=
  s ← get_st ;
  match Streams s !! sid with
  | Some st => when (active st s) (WriteToProcessorImpl (req (AssignId (stream st))))
  | None => mret tt
  end.

(** [ConfirmCreate] of a stream, and what it calls of the session. *)
Definition ConfirmStreamCreate (sid : nat) (readOffset commitOffset maxOffset : option Z) : M rs unit :=
  st ← get_stream sid ;
  if HasCbContext st then
    on_stream sid (modify (ConfirmCreate commitOffset)) ;;
    add_calls [ToConfirm sid readOffset commitOffset maxOffset]
  else mret tt.

Definition ConfirmPartitionStreamCreate (sid : nat) (readOffset commitOffset maxOffset : option Z) : M rs unit :=
  if_active sid (fun id => StartPartitionSessionResponse id readOffset commitOffset maxOffset).

Definition ConfirmPartitionStreamDestroy (sid : nat) : M rs unit :=
  st ← get_stream sid ;
  s ← get_st ;
  if (HasCbContext st && active st s)%bool then
    upd PartitionStreams set_PartitionStreams (fun m => delete (AssignId (stream st)) m) ;;
    pushRes ← PushEvent sid (PartitionSessionClosedEvent StopConfirmedByUser) ;
    if (pushRes : bool) then WriteToProcessorImpl (StopPartitionSessionResponse (AssignId (stream st)) true) else AbortImpl
  else mret tt.

(** [ConfirmPartitionStreamEnd]: children that are read now may be given to the user. *)
Definition ConfirmPartitionStreamEnd (sid : nat) (childIds : list Z) : M rs unit :=
  st ← get_stream sid ;
  if HasCbContext st then
    upd ReadingFinishedData set_ReadingFinishedData (fun r => {[PartitionSessionId (stream st)]} ∪ r) ;;
    s ← get_st ;
    add_pending (map SignalReady (List.filter (fun sid' =>
      match Streams s !! sid' with Some st' => bool_decide (PartitionId (stream st') ∈ childIds) | None => false end)
      (map snd (map_to_list (PartitionStreams s)))))
  else mret tt.

(** [Commit] of a stream, and what it calls of the session for each of its ranges. *)
Definition CommitOffsets (sid : nat) (startOffset endOffset : Z) : M rs unit :=
  st ← get_stream sid ;
  if HasCbContext st then
    ranges ← on_stream sid (Commit startOffset endOffset) ;
    add_calls [ToCommit sid ranges]
  else mret tt.

Definition SessionCommit (sid : nat) (startOffset endOffset : Z) : M rs unit :=
  if_active sid (fun id => CommitOffsetRequest id startOffset endOffset).

Definition RequestPartitionStreamStatus (sid : nat) : M rs unit :=
  st ← get_stream sid ;
  s ← get_st ;
  when (HasCbContext st && active st s) (WriteToProcessorImpl (PartitionSessionStatusRequest (AssignId (stream st)))).

(** ** Actions that were posted or deferred *)

Section Actions.
Variable DecompressData : Codec -> string -> option (list TDecompressedMessage).

(** [TDecompressionTask::operator()] up to [OnDataDecompressed]. *)
Definition RunDecompressionTask (t : TDecompressionTask) : M rs unit :=
  dd ← gets (fun s => Decompress_ (Settings s)) ;
  upd_info (task_Parent t) (DecompressMessages DecompressData dd (task_ids t)) ;;
  info ← get_info (task_Parent t) ;
  let decompressedSize := foldr (fun id n => match DecompressedData info !! id with Some d => DataSize d + n | None => n end) 0 (task_ids t) in
  OnDataDecompressed (task_Parent t) (SourceDataSize t) (EstimatedDecompressedSize t) decompressedSize ;;
  add_pending [TaskDecompressed t decompressedSize].

(** The rest of it: the messages become ready unless they were abandoned. *)
Definition FinishDecompressionTask (t : TDecompressionTask) (decompressedSize : Z) : M rs unit :=
  info ← get_info (task_Parent t) ;
  match ReadyThresholds info !! task_Ready t with
  | Some InProcess =>
      upd Infos set_Infos (set_state (task_Parent t) (task_Ready t) Ready) ;;
      add_pending [SignalReady (PartitionStream info)]
  | Some Cleanup =>
      OnUserRetrievedEvent (task_Parent t) decompressedSize ;;
      upd Infos set_Infos (set_state (task_Parent t) (task_Ready t) Abandoned)
  | _ => abort "expected == EDecompressionTaskState::Cleanup"
  end ;;
  add_pending [TaskFinished].

Definition OnDecompressionTaskFinished : M rs unit :=
  n ← gets DecompressionTasksInflight ;
  abort_unless (n >? 0) "DecompressionTasksInflight > 0" ;;
  modify (set_DecompressionTasksInflight (n - 1)).

Definition RunAction (a : action) (contexts delay : bool) : M rs unit :=
  match a with
  | RunTask t => RunDecompressionTask t
  | TaskDecompressed t n => FinishDecompressionTask t n
  | SignalReady sid => SignalReadyEvents sid
  | TaskFinished => OnDecompressionTaskFinished
  | UserRetrieved i n => OnUserRetrievedEvent i n
  | CleanupInfo i => InfoCleanup i
  | TaskCanceled i n => OnTaskCanceled i n
  | DataHandler _ _ acc => release acc
  | EventHandler sid e =>
      st ← get_stream sid ;
      when (is_closed_event e) (UnregisterPartition (PartitionId (stream st)) (PartitionSessionId (stream st)))
  | ReconnectSession => ReconnectOrAbort contexts false delay
  end.
End Actions.

(** ** The read session of the user: [TReadSession] of [read_session.cpp] *)

(** [AbortImpl] up to the queue; [locked] tells whether the caller holds the lock. *)
Definition TopAbortImpl (locked zeroTimeout : bool) : M rs unit :=
  abort_unless locked "Lock.IsLocked()" ;;
  QueueClose ;;
  add_calls [ToAbort zeroTimeout].

Definition TopGetEvents (maxEventsCount : option Z) (maxByteSize : Z) : M rs (list user_event) :=
  res ← GetEvents maxEventsCount maxByteSize ;
  add_calls [ToCheckClosed] ;;
  mret res.

Definition TopGetEvent (maxByteSize : Z) : M rs (option user_event) :=
  res ← GetEvent maxByteSize ;
  add_calls [ToCheckClosed] ;;
  mret res.

(** [Close], up to the end of its first critical section. *)
Definition TopClose (zeroTimeout : bool) : M rs unit :=
  s ← get_st ;
  if (TopClosing s || TopAborting s)%bool then mret tt
  else if zeroTimeout then TopAbortImpl true true
  else modify (set_TopClosing true) ;; add_calls [ToCloseSession].

(** The next critical section of a call.  In [Close], [contexts] tells whether the driver
    gives a context for the timer; the promise it waits for was set by its own call of the
    callback, so that the wait is over at once. *)
Definition RunCall (c : continuation) (contexts delay : bool) : M rs unit :=
  match c with
  | ToReconnect => ReconnectOrAbort contexts false delay
  | ToAbortSession => AbortSession
  | ToCheckClosed => closed ← gets Closed ; when closed (TopAbortImpl true false)
  | ToAbort zeroTimeout =>
      a ← gets TopAborting ;
      when (negb a) (modify (set_TopAborting true) ;; AbortImpl) ;;
      when zeroTimeout (add_calls [ToClearEvents])
  | ToCloseSession => Close ;; add_calls [ToCreateTimer]
  | ToCreateTimer => if contexts then add_calls [ToCloseEvents] else TopAbortImpl false false
  | ToCloseEvents => QueueClose ;; add_calls [ToSetAborting]
  | ToSetAborting => modify (set_TopAborting true) ;; add_calls [ToClearEvents]
  | ToClearEvents => ClearAllEvents ;; add_calls [ToClearStreams]
  | ToClearStreams => ClearAllPartitionStreamEvents
  | ToConfirm sid readOffset commitOffset maxOffset => ConfirmPartitionStreamCreate sid readOffset commitOffset maxOffset
  | ToCommit _ [] => mret tt
  | ToCommit sid ((first, second) :: ranges) => SessionCommit sid first second ;; add_calls [ToCommit sid ranges]
  end.
