(* ===== verification/ReadSystem.v ===== *)
(** * Runs of a read session

    The events that drive a session of [ReadSession]: callbacks of the connection, actions
    that were posted to executors or deferred, calls of the user, the further sections of
    calls that were begun, and the destruction of an info nobody refers to any more.
    Actions and sections run in any order; [reachable] is what any sequence of them leads
    to. *)

From S2P Require Import Prelude Float32 Float64 IntervalTree ReadCommit ReadTypes ReadSession.
From Stdlib Require Import SpecFloat.

(** The constructor: the budget is the limit for compressed data. *)
Definition new_session (cfg : read_settings) : outcome rs :=
  let s := mkRs cfg 1 ∅ [] [] [] [] false false None None 1 0 0 0 f64_1 false false false false false 0 0 0 0 ∅ ∅ [] [] [] false false false [] 0 in
  match GetCompressedDataSizeLimit s with
  | Ok (limit, s) => Ok (set_ReadSizeBudget limit s)
  | Fail f => Fail f
  end.

(** ** Who refers to an info *)

Definition dataevs (q : list TRawPartitionStreamEvent) : list TDataDecompressionEvent :=
  omap (fun ev => match ev with DataEvent d => Some d | OtherEvent _ => None end) q.

Definition qevents (st : TStream) : list TDataDecompressionEvent :=
  dataevs (ReadyEvents (queue st) ++ NotReady (queue st)).

Definition action_infos (a : action) : list nat :=
  match a with
  | RunTask t | TaskDecompressed t _ => [task_Parent t]
  | UserRetrieved i _ | CleanupInfo i | TaskCanceled i _ => [i]
  | DataHandler _ _ acc => map fst acc
  | _ => []
  end.

(** References of the queue of the session, of actions, of events, and of its own tasks. *)
Definition referenced (s : rs) (i : nat) : bool :=
  (bool_decide (i ∈ DecompressionQueue s)
   || existsb (fun a => bool_decide (i ∈ action_infos a)) (Pending s)
   || existsb (fun st => existsb (fun d => (ev_Parent d =? i)%nat) (qevents st)) (Streams s)
   || match Infos s !! i with Some info => negb (bool_decide (Tasks info = [])) | None => true end)%bool.

(** ** Events *)

Inductive read_event :=
  | EStart (contexts : bool)
  | EConnect (ok : bool) (connectContext : Z)
  | EConnectTimeout (connectTimeoutContext : Z)
  | EReadDone (generation : Z) (msg : server_message)
  | EAction (n : nat) (contexts delay : bool)
  | EResume (n : nat) (contexts delay : bool)   (* the next section of a call *)
  | EDestroy (i : nat)
  | EGetEvents (maxEventsCount : option Z) (maxByteSize : Z)
  | EGetEvent (maxByteSize : Z)
  | ECommit (sid : nat) (startOffset endOffset : Z)
  | EConfirmCreate (sid : nat) (readOffset commitOffset maxOffset : option Z)
  | EConfirmDestroy (sid : nat)
  | EConfirmEnd (sid : nat) (childIds : list Z)
  | ERequestStatus (sid : nat)
  | EStopReading
  | EResumeReading
  | EClose (zeroTimeout : bool)
  | EAbort.

Section Run.
Variable DecompressData : Codec -> string -> option (list TDecompressedMessage).

(** An event that is not enabled changes nothing. *)
Definition read_step (ev : read_event) : M rs unit :=
  s ← get_st ;
  match ev with
  | EStart contexts => ReconnectOrAbort contexts true false
  | EConnect ok ctx => OnConnect ok ctx
  | EConnectTimeout ctx => OnConnectTimeout ctx
  | EReadDone generation msg => when (bool_decide (generation ∈ Reads s)) (OnReadDone generation msg)
  | EAction n contexts delay =>
      match Pending s !! n with
      | Some a => modify (set_Pending (delete n (Pending s))) ;; RunAction DecompressData a contexts delay
      | None => mret tt
      end
  | EResume n contexts delay =>
      match Calls s !! n with
      | Some c => modify (set_Calls (delete n (Calls s))) ;; RunCall c contexts delay
      | None => mret tt
      end
  | EDestroy i =>
      match Infos s !! i with
      | Some info => when (negb (Destroyed info) && negb (referenced s i)) (OnDecompressionInfoDestroy i)
      | None => mret tt
      end
  | EGetEvents maxEventsCount maxByteSize => TopGetEvents maxEventsCount maxByteSize ;; mret tt
  | EGetEvent maxByteSize => TopGetEvent maxByteSize ;; mret tt
  | ECommit sid startOffset endOffset => when (sid <? length (Streams s))%nat (CommitOffsets sid startOffset endOffset)
  | EConfirmCreate sid readOffset commitOffset maxOffset =>
      when (sid <? length (Streams s))%nat (ConfirmStreamCreate sid readOffset commitOffset maxOffset)
  | EConfirmDestroy sid => when (sid <? length (Streams s))%nat (ConfirmPartitionStreamDestroy sid)
  | EConfirmEnd sid childIds => when (sid <? length (Streams s))%nat (ConfirmPartitionStreamEnd sid childIds)
  | ERequestStatus sid => when (sid <? length (Streams s))%nat (RequestPartitionStreamStatus sid)
  | EStopReading => StopReadingData
  | EResumeReading => ResumeReadingData
  | EClose zeroTimeout => TopClose zeroTimeout
  | EAbort => TopAbortImpl true false
  end.

(** Offsets within their range: those of messages below the largest [int64_t], which the
    code uses as a mark, and those a partition session starts from not negative as an
    [int64_t].  Nothing else is asked of messages and arguments. *)
Definition read_event_ok (ev : read_event) : Prop :=
  match ev with
  | EReadDone _ (SReadResponse msg) => Forall (fun pd => event_ok (Received pd.2)) (partition_data msg)
  | EReadDone _ (SStartPartitionSessionRequest msg) => 0 <= start_committed_offset msg < 2 ^ 63
  | ECommit _ s _ => 0 <= s
  | EConfirmCreate _ _ (Some off) _ => 0 <= off < 2 ^ 63
  | EGetEvents _ bytes | EGetEvent bytes => 0 <= bytes
  | _ => True
  end.

Definition settings_ok (cfg : read_settings) : Prop := 0 < MaxMemoryUsageBytes_ cfg < 2 ^ 63 /\ 0 < MaxMessagesBytes_ cfg.

Inductive reachable (cfg : read_settings) : rs -> Prop :=
  | reachable_new s : new_session cfg = Ok s -> reachable cfg s
  | reachable_step s ev s' : reachable cfg s -> read_event_ok ev -> read_step ev s = Ok (tt, s') -> reachable cfg s'.

(** Several events, as long as they succeed. *)
Fixpoint read_steps (evs : list read_event) (s : rs) : outcome rs :=
  match evs with
  | [] => Ok s
  | ev :: evs => match read_step ev s with Ok (_, s) => read_steps evs s | Fail f => Fail f end
  end.

Lemma reachable_steps cfg evs : forall s s', reachable cfg s -> Forall read_event_ok evs -> read_steps evs s = Ok s' -> reachable cfg s'.
Proof.
  induction evs as [|ev evs IH]; intros s s' Hr Hok Hs; cbn in Hs; [by injection Hs as <-|].
  inversion Hok; subst. destruct (read_step ev s) as [[[] s1]|] eqn:E; [|done]. eapply IH; [|done|exact Hs].
  by eapply reachable_step.
Qed.
End Run.

(** ** Running the model *)

Definition example_settings : read_settings := mkReadSettings 104857600 true false false (fun _ => false) (2 ^ 64 - 1).
Definition no_codecs : Codec -> string -> option (list TDecompressedMessage) := fun _ _ => None.
Definition response (assignId bytes : Z) (offs : list Z) : server_message :=
  SReadResponse (mkReadResponse bytes [(assignId, [mkBatch CODEC_RAW (map plain offs)])]).

Definition connected : list read_event :=
  [EStart true; EConnect true 1; EReadDone 1 SInitResponse;
   EReadDone 1 (SStartPartitionSessionRequest (mkStart 7 0 0 0 100 None))].

Definition summary (o : outcome rs) : option (Z * Z * Z * Z * list (list Z) * nat * list client_message) :=
  match o with
  | Ok s => Some (CompressedDataSize s, DecompressedDataSize s, ReadSizeBudget s, ReadSizeServerDelta s,
      map (fun st => map (fun d => Z.of_nat (ev_Message d).2) (Taken st)) (Streams s), length (Pending s), Wire s)
  | Fail _ => None
  end.
