(* ===== verification/ReadInv.v ===== *)
(** * Invariants of the read session

    What holds in every reachable state of [ReadSystem], part by part: the memory an info
    accounts for is what its events and the actions on it hold, tasks in flight have their
    messages in the queue of their partition, the queue of the session agrees with the
    queues of the partitions, and events leave a partition's queue in order. *)

From S2P Require Import Prelude Float32 Float64 IntervalTree ReadCommit ReadTypes ReadSession ReadSystem.
From Stdlib Require Import SpecFloat.

(** ** Sums over lists *)

Definition zsum {A} (f : A -> Z) (l : list A) : Z := foldr (fun x n => f x + n) 0 l.

Lemma zsum_nil {A} (f : A -> Z) : zsum f [] = 0.
Proof. done. Qed.
Lemma zsum_cons {A} (f : A -> Z) x l : zsum f (x :: l) = f x + zsum f l.
Proof. done. Qed.
Lemma zsum_app {A} (f : A -> Z) l k : zsum f (l ++ k) = zsum f l + zsum f k.
Proof. induction l as [|x l IH]; [done|]. cbn [app]. rewrite !zsum_cons, IH. lia. Qed.
Lemma zsum_ext {A} (f g : A -> Z) l : (forall x, x ∈ l -> f x = g x) -> zsum f l = zsum g l.
Proof.
  induction l as [|x l IH]; intros H; [done|]. rewrite !zsum_cons, IH, (H x); [done|left|]. intros y Hy. apply H. by right.
Qed.
Lemma zsum_zero {A} (f : A -> Z) l : (forall x, x ∈ l -> f x = 0) -> zsum f l = 0.
Proof. intros H. rewrite (zsum_ext f (fun _ => 0)) by done. clear H. induction l; [done|]. by rewrite zsum_cons. Qed.
Lemma zsum_nonneg {A} (f : A -> Z) l : (forall x, x ∈ l -> 0 <= f x) -> 0 <= zsum f l.
Proof.
  induction l as [|x l IH]; intros H; [done|]. rewrite zsum_cons. pose proof (H x ltac:(left)).
  assert (0 <= zsum f l); [apply IH; intros y Hy; apply H; by right|lia].
Qed.
Lemma zsum_plus {A} (f g : A -> Z) l : zsum (fun x => f x + g x) l = zsum f l + zsum g l.
Proof. induction l as [|x l IH]; [done|]. rewrite !zsum_cons, IH. lia. Qed.
Lemma zsum_le {A} (f : A -> Z) l x : (forall y, y ∈ l -> 0 <= f y) -> x ∈ l -> f x <= zsum f l.
Proof.
  intros H [i Hi]%list_elem_of_lookup. rewrite <- (take_drop_middle _ _ _ Hi), zsum_app, zsum_cons.
  assert (0 <= zsum f (take i l)) by (apply zsum_nonneg; intros y Hy; apply H; eapply elem_of_take in Hy as (j & Hj & _); by eapply list_elem_of_lookup_2).
  assert (0 <= zsum f (drop (S i) l)) by (apply zsum_nonneg; intros y Hy; apply H; rewrite <- (take_drop (S i) l); apply elem_of_app; by right).
  lia.
Qed.
Lemma zsum_insert {A} (f : A -> Z) l i x y : l !! i = Some x -> zsum f (<[i := y]> l) = zsum f l - f x + f y.
Proof.
  intros Hi. rewrite (insert_take_drop l i y) by (by eapply lookup_lt_Some).
  rewrite <- (take_drop_middle _ _ _ Hi) at 3. rewrite !zsum_app, !zsum_cons. lia.
Qed.
Lemma zsum_delete {A} (f : A -> Z) l i x : l !! i = Some x -> zsum f (delete i l) = zsum f l - f x.
Proof.
  intros Hi. rewrite delete_take_drop. rewrite <- (take_drop_middle _ _ _ Hi) at 3. rewrite !zsum_app, zsum_cons. lia.
Qed.
Lemma zsum_map {A B} (g : B -> A) (f : A -> Z) l : zsum f (map g l) = zsum (fun x => f (g x)) l.
Proof. induction l as [|x l IH]; [done|]. cbn [map]. by rewrite !zsum_cons, IH. Qed.
Lemma zsum_concat {A} (f : A -> Z) ls : zsum f (concat ls) = zsum (zsum f) ls.
Proof. induction ls as [|l ls IH]; [done|]. cbn [concat]. by rewrite zsum_app, zsum_cons, IH. Qed.
Lemma zsum_filter {A} (P : A -> Prop) `{!forall x, Decision (P x)} (f : A -> Z) l :
  zsum f (filter P l) = zsum (fun x => if decide (P x) then f x else 0) l.
Proof. induction l as [|x l IH]; [done|]. rewrite filter_cons. destruct (decide (P x)) eqn:E; rewrite ?zsum_cons, IH, ?E; lia. Qed.

(** [alter] at a position that exists is an insertion. *)
Lemma list_alter_insert {A} (f : A -> A) (l : list A) i x : l !! i = Some x -> alter f i l = <[i := f x]> l.
Proof.
  revert i. induction l as [|y l IH]; intros [|i] Hi; [done|done| |]; cbn in *; [by injection Hi as ->|]. f_equal. by apply IH.
Qed.

(** ** Data events of queues *)

Lemma dataevs_app q q' : dataevs (q ++ q') = dataevs q ++ dataevs q'.
Proof. apply omap_app. Qed.
Lemma dataevs_data l : dataevs (map DataEvent l) = l.
Proof. induction l as [|d l IH]; [done|]. cbn. by f_equal. Qed.
Lemma elem_of_dataevs d q : d ∈ dataevs q <-> DataEvent d ∈ q.
Proof.
  unfold dataevs. rewrite list_elem_of_omap. split.
  - intros ([d'|] & Hin & Heq); [|done]. by injection Heq as ->.
  - intros Hin. by exists (DataEvent d).
Qed.

(** ** What events and sizes depend on *)

(** The parts of an info that its events read. *)
Definition view (info : TDataDecompressionInfo) := (ServerMessage info, ReadyThresholds info, DecompressedData info, DecompressionErrors info).

Lemma view_lookup (infos infos' : list TDataDecompressionInfo) i : view <$> infos = view <$> infos' ->
  view <$> (infos !! i) = view <$> (infos' !! i).
Proof. intros H. rewrite <- !list_lookup_fmap. by rewrite H. Qed.

Lemma state_of_view (infos infos' : list TDataDecompressionInfo) d : view <$> infos = view <$> infos' -> state_of infos d = state_of infos' d.
Proof.
  intros H%(fun H => view_lookup _ _ (ev_Parent d) H). unfold state_of.
  destruct (infos !! ev_Parent d), (infos' !! ev_Parent d); cbn in H; [|done..]. injection H as _ -> _ _. done.
Qed.

Lemma prepared_size_view (infos infos' : list TDataDecompressionInfo) d : view <$> infos = view <$> infos' -> prepared_size infos d = prepared_size infos' d.
Proof.
  intros H%(fun H => view_lookup _ _ (ev_Parent d) H). unfold prepared_size, GetPreparedDataSize.
  destruct (infos !! ev_Parent d), (infos' !! ev_Parent d); cbn in H; [|done..]. injection H as -> _ -> _. done.
Qed.

Lemma view_alter f i (infos : list TDataDecompressionInfo) : (forall info, view (f info) = view info) -> view <$> alter f i infos = view <$> infos.
Proof.
  intros Hf. revert i. induction infos as [|info infos IH]; intros [|i]; [done|done| |]; cbn; [by rewrite Hf|]. f_equal. apply IH.
Qed.

(** The bytes an event holds of the memory its info accounts for. *)
Definition counted (infos : list TDataDecompressionInfo) (i : nat) (d : TDataDecompressionEvent) : Z :=
  if decide (ev_Parent d = i /\ state_of infos d = Ready) then prepared_size infos d else 0.

Lemma counted_view (infos infos' : list TDataDecompressionInfo) i d : view <$> infos = view <$> infos' -> counted infos i d = counted infos' i d.
Proof. intros H. unfold counted. by rewrite (state_of_view _ _ _ H), (prepared_size_view _ _ _ H). Qed.

Definition acc_at (i : nat) (acc : list (nat * Z)) : Z := zsum (fun jn => if decide (jn.1 = i) then jn.2 else 0) acc.

Definition act_held (i : nat) (a : action) : Z :=
  match a with
  | TaskDecompressed t n => if decide (task_Parent t = i) then n else 0
  | UserRetrieved j n => if decide (j = i) then n else 0
  | DataHandler _ _ acc => acc_at i acc
  | _ => 0
  end.

Lemma acc_at_Add i j n acc : acc_at i (acc_Add j n acc) = acc_at i acc + if decide (j = i) then n else 0.
Proof.
  unfold acc_at. induction acc as [|[k m] acc IH]; cbn [acc_Add]; [rewrite zsum_cons, !zsum_nil; cbn; lia|].
  destruct (j =? k)%nat eqn:E.
  - apply Nat.eqb_eq in E as ->. rewrite !zsum_cons. cbn. destruct (decide (k = i)); lia.
  - rewrite !zsum_cons, IH. lia.
Qed.

Lemma acc_at_fold {A} (p : A -> nat) (f : A -> Z) i l acc :
  acc_at i (foldl (fun acc x => acc_Add (p x) (f x) acc) acc l) = acc_at i acc + zsum (fun x => if decide (p x = i) then f x else 0) l.
Proof.
  revert acc. induction l as [|x l IH]; intros acc; cbn [foldl]; [rewrite zsum_nil; lia|].
  rewrite IH, acc_at_Add, zsum_cons. lia.
Qed.

Lemma acc_Add_infos j n acc : forall i, i ∈ map fst (acc_Add j n acc) <-> i = j \/ i ∈ map fst acc.
Proof.
  induction acc as [|[k m] acc IH]; intros i; cbn [acc_Add map fst]; [rewrite !elem_of_cons; done|].
  destruct (j =? k)%nat eqn:E; cbn [map fst]; rewrite !elem_of_cons.
  - apply Nat.eqb_eq in E as ->. tauto.
  - rewrite IH. tauto.
Qed.

Lemma acc_fold_infos {A} (p : A -> nat) (f : A -> Z) l : forall acc i,
  i ∈ map fst (foldl (fun acc x => acc_Add (p x) (f x) acc) acc l) <-> i ∈ map fst acc \/ i ∈ map p l.
Proof.
  induction l as [|x l IH]; intros acc i; cbn [foldl map]; [rewrite elem_of_nil; tauto|].
  rewrite IH, acc_Add_infos, elem_of_cons. tauto.
Qed.

Lemma held_release i acc : zsum (act_held i) (map (fun '(j, n) => UserRetrieved j n) acc) = acc_at i acc.
Proof. rewrite zsum_map. unfold acc_at. apply zsum_ext. by intros [j n] _. Qed.

(** ** Prepared data *)

(** Data that was built: a message at least, or an empty batch. *)
Definition data_ok (dd : bool) (d : TDecompressedData) : Prop :=
  (0 < MessagesTaken d /\ 0 <= DataSize d) \/ (dd = true /\ MessagesTaken d = 0 /\ DataSize d = 0 /\ Messages d = []).

Lemma BuildMessages_ok off c b l : data_ok true (BuildMessages off c b l).
Proof.
  assert (0 <= MessagesTaken (BuildMessages off c b l) /\ 0 <= DataSize (BuildMessages off c b l) /\
    (MessagesTaken (BuildMessages off c b l) = 0 -> l = [])) as (H1 & H2 & H3).
  { induction l as [|m l IH]; cbn [BuildMessages]; [done|]. destruct IH as (H1 & H2 & _).
    destruct (match OffsetDelta m with Some _ => _ | None => _ end); cbn; unfold size; split_and!; lia. }
  destruct (decide (MessagesTaken (BuildMessages off c b l) = 0)) as [E|E].
  - rewrite (H3 E). right. done.
  - left. lia.
Qed.

Lemma BuildDecompressedData_ok dd info id l : is_Some (message_at (ServerMessage info) id) ->
  data_ok dd (BuildDecompressedData dd info id l).
Proof.
  intros [[c m] Hm]. unfold BuildDecompressedData. rewrite Hm. destruct dd; [apply BuildMessages_ok|]. left. cbn. unfold size. lia.
Qed.

Lemma data_ok_prepared dd info id d : DecompressedData info !! id = Some d -> data_ok dd d ->
  GetPreparedDataSize info id = DataSize d /\ 0 <= DataSize d /\ DataSize (TakeData dd info id) = DataSize d.
Proof.
  intros Hd Hok. unfold GetPreparedDataSize, TakeData. rewrite Hd. change (default (mkData [] 0 0) (Some d)) with d. cbv zeta.
  rewrite Z.gtb_ltb. destruct Hok as [[H1 H2]|(-> & H1 & H2 & H3)].
  - rewrite (proj2 (Z.ltb_lt _ _)) by done. rewrite (proj2 (Z.eqb_neq (MessagesTaken d) 0)) by lia. done.
  - rewrite H1, H3. cbn. rewrite H2. unfold BuildDecompressedData. destruct (message_at _ id) as [[c m]|]; done.
Qed.

(** ** Taking events *)

Lemma TakeEvents_spec dd infos q : forall count bytes taken rest count' bytes',
  TakeEvents dd infos count bytes q = (taken, rest, count', bytes') -> 0 <= count -> 0 <= bytes ->
  (forall d, DataSize (taken_data dd infos d) >= 0 \/ DataEvent d ∉ q) ->
  q = map DataEvent taken ++ rest /\ Forall (fun d => state_of infos d = Ready) taken /\
  count' = count - Z.of_nat (length taken) /\ 0 <= count' /\ 0 <= bytes' /\
  (count' = 0 \/ bytes' = 0 \/ match rest with DataEvent d :: _ => state_of infos d <> Ready | _ => True end).
Proof.
  induction q as [|[d|e] q IH]; intros count bytes taken rest count' bytes'; cbn [TakeEvents].
  - intros [= <- <- <- <-] ? ? _. cbn. split_and!; [done|done|lia|done|done|tauto].
  - intros Ht Hc Hb Hd. destruct (bool_decide (state_of infos d = Ready) && (count >? 0) && (bytes >? 0))%bool eqn:E.
    + bool_to_prop. destruct (TakeEvents dd infos (count - 1) _ q) as [[[taken1 rest1] count1] bytes1] eqn:E1. injection Ht as <- <- <- <-.
      destruct (Hd d) as [Hn|Hn]; [|exfalso; apply Hn; left].
      destruct (IH _ _ _ _ _ _ E1) as (-> & H2 & H3 & H4 & H5 & H6); [lia|lia| |].
      { intros d'. destruct (Hd d') as [?|Hd']; [by left|right]. intros ?. apply Hd'. by right. }
      cbn [map app length]. split_and!; [done|by constructor|lia|lia|lia|done].
    + injection Ht as <- <- <- <-. cbn. split_and!; [done|done|lia|done|done|].
      apply andb_false_iff in E as [E|E]; [apply andb_false_iff in E as [E|E]|].
      * right; right. by apply bool_decide_eq_false in E.
      * left. rewrite Z.gtb_ltb in E. apply Z.ltb_ge in E. lia.
      * right; left. rewrite Z.gtb_ltb in E. apply Z.ltb_ge in E. lia.
  - intros [= <- <- <- <-] ? ? _. cbn. split_and!; [done|done|lia|done|done|tauto].
Qed.

(** A ready event at the head is taken. *)
Lemma TakeEvents_progress dd infos d q count bytes taken rest count' bytes' :
  TakeEvents dd infos count bytes (DataEvent d :: q) = (taken, rest, count', bytes') ->
  state_of infos d = Ready -> 0 < count -> 0 < bytes -> taken <> [].
Proof.
  cbn. intros Ht Hs Hc Hb. rewrite bool_decide_true, !Z.gtb_ltb, !(proj2 (Z.ltb_lt _ _)) in Ht by done. cbn in Ht.
  destruct (TakeEvents _ _ _ _ q) as [[[? ?] ?] ?]. by injection Ht as <- _ _ _.
Qed.

(** ** Starting tasks *)

Lemma StartTasks_spec avail tasks : forall used started left_, StartTasks avail tasks = (used, started, left_) ->
  tasks = started ++ left_ /\ used = zsum EstimatedDecompressedSize started.
Proof.
  revert avail. induction tasks as [|t tasks IH]; intros avail used started left_; cbn [StartTasks]; [by intros [= <- <- <-]|].
  destruct (avail >? 0); [|by intros [= <- <- <-]].
  destruct (StartTasks _ tasks) as [[u st] lf] eqn:E. intros [= <- <- <-]. destruct (IH _ _ _ _ E) as [-> ->].
  rewrite zsum_cons. done.
Qed.

(** ** Planning tasks *)

(** A list of messages in which a message is followed by the next of its batch or by
    one of another batch. *)
Fixpoint consecutive (l : list msg_id) : Prop :=
  match l with
  | id :: l => match l with [] => True | id' :: _ => id'.1 = id.1 -> id'.2 = S id.2 end /\ consecutive l
  | [] => True
  end.

Definition follows (t : TDecompressionTask) (l : list msg_id) : Prop :=
  match last (task_Messages t), l with
  | Some (b, (f, e)), id :: _ => (f <= e)%nat /\ (id.1 = b -> id.2 = e)
  | _, _ => True
  end.

Lemma task_Add_ids id n est t l : follows t (id :: l) -> task_ids (task_Add id n est t) = task_ids t ++ [id].
Proof.
  unfold follows, task_Add, task_ids. cbn [task_Messages]. destruct (list_ends (task_Messages t)) as [->|(ranges & [b [f e]] & ->)].
  - intros _. cbn. rewrite Nat.sub_succ_l, Nat.sub_diag by done. cbn. by destruct id.
  - rewrite last_snoc, removelast_last. intros [Hfe He]. destruct (b =? id.1)%nat eqn:E.
    + apply Nat.eqb_eq in E. rewrite (He (eq_sym E)). rewrite !map_app, !concat_app, <- app_assoc. f_equal. cbn.
      rewrite Nat.sub_succ_l by done. rewrite seq_S, map_app, !app_nil_r. f_equal. cbn. destruct id as [b' m]. cbn in *. subst.
      repeat f_equal. lia.
    + rewrite !map_app, !concat_app. cbn. rewrite Nat.sub_succ_l, Nat.sub_diag by done. cbn. rewrite !app_nil_r. by destruct id.
Qed.

Lemma task_Add_follows id n est t l : follows t (id :: l) -> consecutive (id :: l) -> follows (task_Add id n est t) l.
Proof.
  unfold follows, task_Add. cbn [task_Messages]. intros Hf [Hc _]. destruct l as [|id' l]; [by repeat case_match|].
  destruct (list_ends (task_Messages t)) as [E|(ranges & [b [f e]] & E)]; rewrite E in *; [cbn; split; [lia|exact Hc]|].
  rewrite last_snoc in *. rewrite removelast_last. clear E. destruct (b =? id.1)%nat eqn:E; rewrite last_snoc.
  - apply Nat.eqb_eq in E as ->. destruct Hf as [Hf1 Hf2]. specialize (Hf2 eq_refl). split; [lia|exact Hc].
  - split; [lia|exact Hc].
Qed.

Lemma task_Add_nonempty id n est t : task_Messages (task_Add id n est t) <> [].
Proof. unfold task_Add. cbn. destruct (last _) as [[b [f e]]|]; [destruct (b =? _)%nat; intros H; by apply app_eq_nil in H as [_ ?]|done]. Qed.

Lemma filter_none {A} (P : A -> Prop) `{!forall x, Decision (P x)} l : (forall x, x ∈ l -> ~ P x) -> filter P l = [].
Proof.
  induction l as [|x l IH]; intros HP; [done|]. rewrite filter_cons_False by (apply HP; left). apply IH. intros y Hy. apply HP. by right.
Qed.

(** A task with messages is among the tasks. *)
Lemma PlanLoop_nonempty ratio batches i l : forall k task tasks n events,
  PlanLoop ratio batches i l k task = Ok (tasks, n, events) -> task_Messages task <> [] -> tasks <> [].
Proof.
  induction l as [|id l IH]; intros k task tasks n events; cbn [PlanLoop].
  { destruct (task_Messages task); [done|]. by intros [= <- _ _]. }
  destruct (message_at batches id) as [[c m]|]; [|done]. destruct (estimate ratio m) as [est|]; [|done].
  destruct (est <? 0); [done|]. destruct (negb _); [done|]. destruct (_ >=? _).
  { destruct (PlanLoop _ _ _ l _ _) as [[[? ?] ?]|]; [|done]. by intros [= <- _ _]. }
  destruct (PlanLoop _ _ _ l _ _) as [[[? ?] ?]|] eqn:E; [|done]. intros [= <- _ _] _. eapply IH; [exact E|apply task_Add_nonempty].
Qed.

Lemma PlanLoop_spec ratio batches i l : forall k task tasks n events,
  PlanLoop ratio batches i l k task = Ok (tasks, n, events) -> follows task l -> consecutive l ->
  task_Parent task = i -> task_Ready task = k -> 0 <= EstimatedDecompressedSize task ->
  (task_ids task = [] <-> task_Messages task = []) ->
  map ev_Message events = l /\ Forall (fun d => ev_Parent d = i /\ (k <= ev_State d < n)%nat) events /\
  map task_Ready tasks = seq k (length tasks) /\ n = (k + length tasks)%nat /\
  Forall (fun t => task_Parent t = i /\ task_ids t <> [] /\ 0 <= EstimatedDecompressedSize t) tasks /\
  (forall t, t ∈ tasks -> (if decide (task_Ready t = k) then task_ids task else []) ++
    map ev_Message (filter (fun d => ev_State d = task_Ready t) events) = task_ids t).
Proof.
  induction l as [|id l IH]; intros k task tasks n events; cbn [PlanLoop].
  { intros Hp _ _ Hi Hk He Hm. destruct (task_Messages task) as [|r ranges] eqn:E; injection Hp as <- <- <-; cbn.
    - split_and!; [done|done|done|lia|done|]. intros t ?%elem_of_nil. done.
    - split_and!; [done|done|by rewrite Hk|lia| |].
      + constructor; [|done]. split_and!; [done| |done]. rewrite Hm. done.
      + intros t ->%list_elem_of_singleton. rewrite decide_True by done. by rewrite app_nil_r. }
  destruct (message_at batches id) as [[c m]|]; [|done]. destruct (estimate ratio m) as [est|]; [|done].
  destruct (est <? 0) eqn:Eest; [done|]. apply Z.ltb_ge in Eest.
  set (task' := task_Add id (size (data m)) est task). destruct (negb _); [done|]. intros Hp Hf Hc Hi Hk He Hm.
  assert (task_ids task' = task_ids task ++ [id]) as Hids by (by eapply task_Add_ids).
  assert (follows task' l) as Hf' by (by apply task_Add_follows).
  assert (task_ids task' <> []) as Hne by (rewrite Hids; intros H; by apply app_eq_nil in H as [_ ?]).
  destruct (SourceDataSize task' >=? TASK_LIMIT).
  - destruct (PlanLoop _ _ _ l _ _) as [[[tasks1 n1] events1]|] eqn:E1; [|done]. injection Hp as <- <- <-.
    destruct (IH _ _ _ _ _ E1) as (H1 & H2 & H3 & H4 & H5 & H6); [by unfold follows; destruct l|apply Hc|done|done|done|done|].
    cbn [map]. rewrite H1, H3, H4. split_and!; [done| |by cbn; rewrite <- Hk|cbn; lia| |].
    + constructor; [cbn; lia|]. eapply Forall_impl; [exact H2|]. cbn. intros d ?. lia.
    + constructor; [|done]. split_and!; [by rewrite <- Hi|done|unfold task'; cbn; lia].
    + assert (forall d, d ∈ events1 -> (S k <= ev_State d)%nat) as Hst by (rewrite Forall_forall in H2; intros d Hd; specialize (H2 d Hd); lia).
      intros t Ht. apply elem_of_cons in Ht as [->|Ht].
      * change (task_Ready task') with (task_Ready task). rewrite Hk, decide_True by done. rewrite filter_cons_True by done. cbn [map ev_Message].
        rewrite Hids. f_equal. f_equal. rewrite (filter_none _ events1); [done|]. intros d Hd Heq. specialize (Hst d Hd). change (task_Ready task') with (task_Ready task) in Heq. lia.
      * assert (S k <= task_Ready t)%nat as Hr.
        { assert (task_Ready t ∈ seq (S k) (length tasks1)) as Hin by (rewrite <- H3; by apply list_elem_of_fmap_2). apply elem_of_seq in Hin. lia. }
        rewrite decide_False by lia. rewrite filter_cons_False by (cbn; lia). rewrite <- (H6 t Ht).
        by destruct (decide (task_Ready t = S k)).
  - destruct (PlanLoop _ _ _ l _ _) as [[[tasks1 n1] events1]|] eqn:E1; [|done]. injection Hp as <- <- <-.
    destruct (IH _ _ _ _ _ E1) as (H1 & H2 & H3 & H4 & H5 & H6); [done|apply Hc|done|done|unfold task'; cbn; lia| |].
    { split; [done|]. intros H. by apply task_Add_nonempty in H. }
    cbn [map]. rewrite H1. split_and!; [done| |done|done|done|].
    + constructor; [|done]. cbn. split; [done|]. destruct tasks1 as [|t1 tasks1]; [|cbn in H4; lia]. exfalso.
      eapply (PlanLoop_nonempty _ _ _ _ _ _ _ _ _ E1); [apply task_Add_nonempty|done].
    + intros t Ht. specialize (H6 t Ht). destruct (decide (task_Ready t = k)) as [Hr|Hr].
      * rewrite filter_cons_True by done. cbn [map ev_Message]. rewrite <- H6, Hids. by rewrite <- app_assoc.
      * rewrite filter_cons_False by (cbn; lia). done.
Qed.

Lemma message_ids_snoc batches b : message_ids (batches ++ [b]) =
  message_ids batches ++ map (pair (length batches)) (seq 0 (length (message_data b))).
Proof. unfold message_ids. rewrite imap_app, concat_app. cbn. by rewrite Nat.add_0_r, app_nil_r. Qed.

Lemma elem_of_message_ids batches id : id ∈ message_ids batches ->
  (id.1 < length batches)%nat /\ is_Some (message_at batches id).
Proof.
  induction batches as [|b batches IH] using rev_ind; [by intros ?%elem_of_nil|].
  rewrite message_ids_snoc, elem_of_app, length_app. cbn. unfold message_at. intros [H|H].
  - destruct (IH H) as [H1 H2]. split; [lia|]. rewrite lookup_app_l by lia. done.
  - apply list_elem_of_fmap in H as (m & -> & Hm). apply elem_of_seq in Hm. cbn. split; [lia|].
    rewrite lookup_app_r, Nat.sub_diag by lia. cbn. destruct (lookup_lt_is_Some_2 (message_data b) m) as [x ->]; [lia|done].
Qed.

Lemma consecutive_app l k : consecutive l -> consecutive k ->
  (forall id id', last l = Some id -> head k = Some id' -> id'.1 <> id.1) -> consecutive (l ++ k).
Proof.
  induction l as [|id l IH]; [done|]. intros [H1 H2] Hk Hlk. destruct l as [|id' l]; cbn [app].
  - destruct k as [|id' k]; [done|]. split; [|done]. intros E. exfalso. by apply (Hlk id id').
  - split; [done|]. apply IH; [done|done|]. intros x y Hx Hy. by apply (Hlk x y).
Qed.

Lemma consecutive_seq b n m : consecutive (map (pair b) (seq n m)).
Proof. revert n. induction m as [|m IH]; intros n; [done|]. cbn. split; [|apply IH]. by destruct m. Qed.

Lemma message_ids_consecutive batches : consecutive (message_ids batches).
Proof.
  induction batches as [|b batches IH] using rev_ind; [done|]. rewrite message_ids_snoc.
  apply consecutive_app; [done|apply consecutive_seq|]. intros id id' Hl Hh.
  assert (id ∈ message_ids batches) as [Hb _]%elem_of_message_ids by (by apply last_Some_elem_of).
  destruct (seq 0 _); [done|]. injection Hh as <-. cbn. lia.
Qed.

Lemma message_ids_NoDup batches : NoDup (message_ids batches).
Proof.
  induction batches as [|b batches IH] using rev_ind; [constructor|]. rewrite message_ids_snoc. apply NoDup_app. split_and!; [done| |].
  - intros id [Hb _]%elem_of_message_ids (m & -> & _)%list_elem_of_fmap. cbn in Hb. lia.
  - apply NoDup_fmap_2; [by intros ? ? [= ->]|apply NoDup_seq].
Qed.

Lemma NoDup_map_inj {A B} (f : A -> B) l x y : NoDup (map f l) -> x ∈ l -> y ∈ l -> f x = f y -> x = y.
Proof.
  induction l as [|z l IH]; cbn [map]; [by intros _ ?%elem_of_nil|]. intros [Hz Hl]%NoDup_cons Hx Hy E.
  apply elem_of_cons in Hx as [->|Hx]; apply elem_of_cons in Hy as [->|Hy]; [done| | |by apply IH].
  - exfalso. apply Hz. rewrite E. by apply list_elem_of_fmap_2.
  - exfalso. apply Hz. rewrite <- E. by apply list_elem_of_fmap_2.
Qed.

Lemma Plan_spec ratio batches i tasks n events : PlanDecompressionTasks ratio batches i = Ok (tasks, n, events) ->
  map ev_Message events = message_ids batches /\ Forall (fun d => ev_Parent d = i /\ (ev_State d < n)%nat) events /\
  map task_Ready tasks = seq 0 (length tasks) /\ n = length tasks /\
  Forall (fun t => task_Parent t = i /\ task_ids t <> [] /\ 0 <= EstimatedDecompressedSize t) tasks /\
  (forall t, t ∈ tasks -> map ev_Message (filter (fun d => ev_State d = task_Ready t) events) = task_ids t) /\
  (forall t d, t ∈ tasks -> d ∈ events -> ev_Message d ∈ task_ids t -> ev_State d = task_Ready t).
Proof.
  intros Hp. destruct (PlanLoop_spec _ _ _ _ _ _ _ _ _ Hp) as (H1 & H2 & H3 & H4 & H5 & H6); [done|apply message_ids_consecutive|done|done|done|done|].
  assert (forall t, t ∈ tasks -> map ev_Message (filter (fun d => ev_State d = task_Ready t) events) = task_ids t) as H7.
  { intros t Ht. rewrite <- (H6 t Ht). by destruct (decide _). }
  split_and!; [done| |done|done|done|done|].
  - eapply Forall_impl; [exact H2|]. cbn. intros d ?. lia.
  - intros t d Ht Hd Hin. rewrite <- (H7 t Ht) in Hin. apply list_elem_of_fmap in Hin as (d' & Heq & [Hs Hd']%list_elem_of_filter).
    assert (NoDup (map ev_Message events)) as Hnd by (rewrite H1; apply message_ids_NoDup).
    assert (d = d') as -> by (apply (NoDup_map_inj ev_Message events); done). done.
Qed.

(** ** Abandoning events *)

(** Two events of one task. *)
Definition same_task (d d' : TDataDecompressionEvent) : Prop := ev_Parent d = ev_Parent d' /\ ev_State d = ev_State d'.

#[export] Instance same_task_dec d d' : Decision (same_task d d').
Proof. unfold same_task. apply _. Defined.

(** The task of an event exists. *)
Definition valid_event (infos : list TDataDecompressionInfo) (d : TDataDecompressionEvent) : Prop :=
  exists info, infos !! ev_Parent d = Some info /\ is_Some (ReadyThresholds info !! ev_State d).

Lemma lookup_set_state i k st infos j : set_state i k st infos !! j =
  (if decide (i = j) then fun info => mkInfo (ServerMessage info) (PartitionStream info) (CommittedOffset info) (ServerBytesSize info)
    (info_Compressed info) (info_Decompressed info) (<[k := st]> (ReadyThresholds info)) (Tasks info)
    (DecompressedData info) (DecompressionErrors info) (Destroyed info) else id) <$> infos !! j.
Proof.
  unfold set_state. destruct (decide (i = j)) as [->|Hne]; [apply list_lookup_alter_eq|].
  rewrite list_lookup_alter_ne by done. by destruct (infos !! j).
Qed.

Lemma state_of_set d st infos d' : valid_event infos d ->
  state_of (set_state (ev_Parent d) (ev_State d) st infos) d' = if decide (same_task d d') then st else state_of infos d'.
Proof.
  intros (info & Hi & [s0 Hs]). unfold state_of. rewrite lookup_set_state. destruct (decide (same_task d d')) as [[E E']|Hn].
  - rewrite <- E, <- E', Hi, decide_True by done. cbn. by rewrite list_lookup_insert_eq by (by eapply lookup_lt_Some).
  - destruct (decide (ev_Parent d = ev_Parent d')) as [E|E]; [|by destruct (infos !! ev_Parent d')].
    rewrite <- E, Hi. cbn. rewrite list_lookup_insert_ne; [done|]. intros E'. by apply Hn.
Qed.

(** Infos that differ in the states of tasks only. *)
Definition but_states (info : TDataDecompressionInfo) :=
  (ServerMessage info, PartitionStream info, CommittedOffset info, ServerBytesSize info, info_Compressed info,
   info_Decompressed info, length (ReadyThresholds info), Tasks info, DecompressedData info, DecompressionErrors info, Destroyed info).

Lemma but_states_set i k st infos : but_states <$> set_state i k st infos = but_states <$> infos.
Proof.
  apply list_eq. intros j. rewrite !list_lookup_fmap, lookup_set_state. destruct (decide (i = j)); destruct (infos !! j); cbn; [|done..].
  unfold but_states. cbn. by rewrite length_insert.
Qed.

Lemma prepared_size_but infos infos' d : but_states <$> infos = but_states <$> infos' -> prepared_size infos d = prepared_size infos' d.
Proof.
  intros H. unfold prepared_size. assert (but_states <$> (infos !! ev_Parent d) = but_states <$> (infos' !! ev_Parent d)) as H'
    by (rewrite <- !list_lookup_fmap; by rewrite H).
  destruct (infos !! ev_Parent d), (infos' !! ev_Parent d); cbn in H'; [|done..]. unfold GetPreparedDataSize.
  injection H' as -> _ _ _ _ _ _ _ -> _ _. done.
Qed.

Lemma valid_event_but infos infos' d : but_states <$> infos = but_states <$> infos' -> valid_event infos d -> valid_event infos' d.
Proof.
  intros H (info & Hi & Hs). assert (but_states <$> (infos !! ev_Parent d) = but_states <$> (infos' !! ev_Parent d)) as H'
    by (rewrite <- !list_lookup_fmap; by rewrite H).
  rewrite Hi in H'. destruct (infos' !! ev_Parent d) as [info'|] eqn:E; cbn in H'; [|done]. exists info'. split; [done|].
  injection H' as _ _ _ _ _ _ Hl _ _ _ _. apply lookup_lt_is_Some. rewrite <- Hl. by apply lookup_lt_is_Some.
Qed.

(** Abandoning all events of a list. *)
Definition mark (infos : list TDataDecompressionInfo) (l : list TDataDecompressionEvent) : list TDataDecompressionInfo :=
  foldl (fun infos d => (SetAbandoned d infos).1) infos l.

Lemma SetAbandoned_spec d infos infos' b : valid_event infos d -> SetAbandoned d infos = (infos', b) ->
  but_states <$> infos' = but_states <$> infos /\ (b = false <-> state_of infos d = Ready) /\
  (forall d', state_of infos' d' = if decide (same_task d d' /\ state_of infos d' = InProcess) then Cleanup else state_of infos d').
Proof.
  intros Hv. unfold SetAbandoned. assert (forall d', same_task d d' -> state_of infos d' = state_of infos d) as Hst.
  { intros d' [H1 H2]. unfold state_of. by rewrite H1, H2. }
  destruct (state_of infos d) eqn:E; intros [= <- <-].
  - split; [apply but_states_set|split; [done|]]. intros d'. rewrite state_of_set by done.
    destruct (decide (same_task d d')) as [Hs|Hs]; [rewrite decide_True by (split; [done|by apply Hst]); done|by rewrite decide_False by tauto].
  - split; [done|split; [done|]]. intros d'. rewrite decide_False; [done|]. intros [Hs Hp]. rewrite (Hst d' Hs) in Hp. done.
  - split; [done|split; [done|]]. intros d'. rewrite decide_False; [done|]. intros [Hs Hp]. rewrite (Hst d' Hs) in Hp. done.
  - split; [done|split; [done|]]. intros d'. rewrite decide_False; [done|]. intros [Hs Hp]. rewrite (Hst d' Hs) in Hp. done.
Qed.

Lemma mark_spec l : forall infos, Forall (valid_event infos) l ->
  but_states <$> mark infos l = but_states <$> infos /\
  (forall d', state_of (mark infos l) d' =
     if decide (state_of infos d' = InProcess /\ Exists (fun d => same_task d d') l) then Cleanup else state_of infos d').
Proof.
  induction l as [|d l IH]; intros infos Hv; cbn [mark foldl].
  { split; [done|]. intros d'. rewrite decide_False; [done|]. rewrite Exists_nil. tauto. }
  inversion Hv as [|? ? Hd Hl]; subst. destruct (SetAbandoned d infos) as [infos1 b] eqn:E. cbn [fst].
  destruct (SetAbandoned_spec d infos infos1 b Hd E) as (H1 & _ & H3).
  destruct (IH infos1) as [H4 H5]; [eapply Forall_impl; [exact Hl|]; intros x; apply valid_event_but; by rewrite H1|].
  fold (mark infos1 l). split; [by rewrite H4|]. intros d'. rewrite H5, H3. repeat case_decide; rewrite ?Exists_cons in *; intuition congruence.
Qed.

(** The ready events of a list. *)
Definition ready_of (infos : list TDataDecompressionInfo) (l : list TDataDecompressionEvent) : list TDataDecompressionEvent :=
  filter (fun d => state_of infos d = Ready) l.

Lemma ready_of_marked infos infos' l : (forall d, state_of infos' d = Ready <-> state_of infos d = Ready) -> ready_of infos' l = ready_of infos l.
Proof. intros H. unfold ready_of. apply list_filter_iff. exact H. Qed.

Lemma SetAbandoned_ready d infos infos' b : valid_event infos d -> SetAbandoned d infos = (infos', b) ->
  forall d', state_of infos' d' = Ready <-> state_of infos d' = Ready.
Proof.
  intros Hv E d'. destruct (SetAbandoned_spec _ _ _ _ Hv E) as (_ & _ & H). rewrite H.
  destruct (decide (same_task d d' /\ state_of infos d' = InProcess)) as [[_ Hp]|]; [rewrite Hp; split; discriminate|done].
Qed.

Lemma dataevs_cons ev q : dataevs (ev :: q) = match ev with DataEvent d => d :: dataevs q | OtherEvent _ => dataevs q end.
Proof. by destruct ev. Qed.

Lemma DeleteTail_spec q : forall infos has, Forall (valid_event infos) (dataevs q) ->
  let '(infos', ready, cleanups, released) := DeleteTail infos has q in
  infos' = mark infos (dataevs q) /\ (if has then ready = [] else exists rest, q = ready ++ rest) /\
  ready_of infos (dataevs q) = dataevs ready ++ released /\ Forall (fun d => state_of infos d = Ready) (dataevs ready) /\
  (forall i, i ∈ cleanups -> exists d, d ∈ dataevs q /\ ev_Parent d = i).
Proof.
  induction q as [|[d|e] q IH]; intros infos has Hv; cbn [DeleteTail].
  - split_and!; [done|destruct has; [done|by exists []]|done|constructor|by intros i ?%elem_of_nil].
  - rewrite dataevs_cons in *. inversion Hv as [|? ? Hd Hq]; subst. destruct (SetAbandoned d infos) as [infos1 b] eqn:E.
    destruct (SetAbandoned_spec _ _ _ _ Hd E) as (H1 & Hb & _). pose proof (SetAbandoned_ready _ _ _ _ Hd E) as Hr.
    assert (Forall (valid_event infos1) (dataevs q)) as Hv1 by (eapply Forall_impl; [exact Hq|]; intros x; apply valid_event_but; by rewrite H1).
    assert (mark infos (d :: dataevs q) = mark infos1 (dataevs q)) as Hm by (unfold mark; cbn [foldl]; by rewrite E).
    assert (forall c : list nat, (forall i, i ∈ c -> exists d0, d0 ∈ dataevs q /\ ev_Parent d0 = i) ->
      forall i, i ∈ c -> exists d0, d0 ∈ d :: dataevs q /\ ev_Parent d0 = i) as Hc by (intros c Hc i Hi; destruct (Hc i Hi) as (d0 & ? & ?); exists d0; split; [by right|done]).
    destruct b.
    + specialize (IH infos1 true Hv1). destruct (DeleteTail infos1 true q) as [[[infos2 ready] cl] rel]. destruct IH as (-> & -> & H3 & H4 & H5).
      rewrite (ready_of_marked _ _ _ Hr) in H3. assert (state_of infos d <> Ready) as Hn by (intros Hn; apply Hb in Hn; done).
      split_and!; [done|destruct has; [done|by exists (DataEvent d :: q)]|unfold ready_of in *; by rewrite filter_cons_False|constructor|].
      intros i [->|Hi]%elem_of_cons; [exists d; split; [left|done]|by apply (Hc cl)].
    + specialize (IH infos1 has Hv1). destruct (DeleteTail infos1 has q) as [[[infos2 ready] cl] rel]. destruct IH as (-> & H2 & H3 & H4 & H5).
      rewrite (ready_of_marked _ _ _ Hr) in H3. assert (state_of infos d = Ready) as Hn by (by apply Hb). unfold ready_of in *.
      destruct has.
      * subst ready. rewrite filter_cons_True by done. rewrite H3. split_and!; [done|done|done|constructor|by apply Hc].
      * destruct H2 as [rest ->]. rewrite filter_cons_True by done. rewrite H3, dataevs_cons. split_and!; [done|by exists rest|done| |by apply Hc].
        constructor; [done|]. eapply Forall_impl; [exact H4|]. intros x. apply Hr.
  - specialize (IH infos has Hv). destruct (DeleteTail infos has q) as [[[infos2 ready] cl] rel]. destruct IH as (-> & H2 & H3 & H4 & H5).
    destruct has; [by subst ready|]. destruct H2 as [rest ->]. rewrite dataevs_cons. split_and!; [done|by exists rest|done..].
Qed.

Lemma CleanupEvents_spec q : forall infos, Forall (valid_event infos) (dataevs q) ->
  let '(infos', cleanups, released) := CleanupEvents infos q in
  infos' = mark infos (dataevs q) /\ released = ready_of infos (dataevs q) /\
  (forall i, i ∈ cleanups -> exists d, d ∈ dataevs q /\ ev_Parent d = i).
Proof.
  induction q as [|[d|e] q IH]; intros infos Hv; cbn [CleanupEvents].
  - split_and!; [done|done|by intros i ?%elem_of_nil].
  - rewrite dataevs_cons in *. inversion Hv as [|? ? Hd Hq]; subst. destruct (SetAbandoned d infos) as [infos1 b] eqn:E.
    destruct (SetAbandoned_spec _ _ _ _ Hd E) as (H1 & Hb & _). pose proof (SetAbandoned_ready _ _ _ _ Hd E) as Hr.
    assert (Forall (valid_event infos1) (dataevs q)) as Hv1 by (eapply Forall_impl; [exact Hq|]; intros x; apply valid_event_but; by rewrite H1).
    specialize (IH infos1 Hv1). destruct (CleanupEvents infos1 q) as [[infos2 cl] rel]. destruct IH as (-> & -> & H3).
    assert (mark infos (d :: dataevs q) = mark infos1 (dataevs q)) as -> by (unfold mark; cbn [foldl]; by rewrite E).
    rewrite (ready_of_marked _ _ _ Hr). unfold ready_of. destruct b.
    + rewrite filter_cons_False by (intros Hn; apply Hb in Hn; done). split_and!; [done..|].
      intros i [->|Hi]%elem_of_cons; [exists d; split; [left|done]|]. destruct (H3 i Hi) as (d0 & ? & ?). exists d0. split; [by right|done].
    + rewrite filter_cons_True by (by apply Hb). split_and!; [done..|].
      intros i Hi. destruct (H3 i Hi) as (d0 & ? & ?). exists d0. split; [by right|done].
  - apply IH. exact Hv.
Qed.

(** ** Decompressing messages *)

Definition same_but_data (info info' : TDataDecompressionInfo) : Prop :=
  ServerMessage info' = ServerMessage info /\ PartitionStream info' = PartitionStream info /\ ServerBytesSize info' = ServerBytesSize info /\
  info_Compressed info' = info_Compressed info /\ info_Decompressed info' = info_Decompressed info /\
  ReadyThresholds info' = ReadyThresholds info /\ Tasks info' = Tasks info /\ Destroyed info' = Destroyed info.

Lemma DecompressMessage_spec DD dd id info : is_Some (message_at (ServerMessage info) id) ->
  let info' := DecompressMessage DD dd id info in
  same_but_data info info' /\ (forall id', id' <> id -> DecompressedData info' !! id' = DecompressedData info !! id') /\
  (exists d, DecompressedData info' !! id = Some d /\ data_ok dd d).
Proof.
  intros Hm. unfold DecompressMessage. pose proof Hm as [[c m] Hm']. rewrite Hm'. destruct (Decompress DD dd c m) as [res thrown].
  cbn. split_and!; [done| |].
  - intros id' Hne. by rewrite lookup_insert_ne.
  - eexists. rewrite lookup_insert_eq. split; [done|]. by apply BuildDecompressedData_ok.
Qed.

Lemma DecompressMessages_spec DD dd ids : forall info, (forall id, id ∈ ids -> is_Some (message_at (ServerMessage info) id)) ->
  let info' := DecompressMessages DD dd ids info in
  same_but_data info info' /\ (forall id, id ∉ ids -> DecompressedData info' !! id = DecompressedData info !! id) /\
  (forall id, id ∈ ids -> exists d, DecompressedData info' !! id = Some d /\ data_ok dd d).
Proof.
  induction ids as [|id ids IH]; intros info Hm; cbn [DecompressMessages].
  { split_and!; [done|done|by intros id ?%elem_of_nil]. }
  destruct (DecompressMessage_spec DD dd id info) as (H1 & H2 & (d & Hd & Hok)); [apply Hm; left|].
  destruct (IH (DecompressMessage DD dd id info)) as (H4 & H5 & H6).
  { intros id' Hid. destruct H1 as (-> & _). apply Hm. by right. }
  split_and!.
  - unfold same_but_data in *. intuition congruence.
  - intros id' Hid. rewrite not_elem_of_cons in Hid. rewrite H5 by tauto. apply H2. tauto.
  - intros id' [->|Hid]%elem_of_cons; [|by apply H6]. destruct (decide (id ∈ ids)) as [Hin|Hin]; [by apply H6|].
    exists d. by rewrite H5.
Qed.

(** ** The invariant of infos, queues and actions *)

Definition task_key (t : TDecompressionTask) : nat * nat := (task_Parent t, task_Ready t).

Definition action_tasks (a : action) : list TDecompressionTask :=
  match a with RunTask t | TaskDecompressed t _ => [t] | _ => [] end.

(** Tasks that were planned and have not finished. *)
Definition holders (infos : list TDataDecompressionInfo) (pend : list action) : list TDecompressionTask :=
  concat (map Tasks infos) ++ concat (map action_tasks pend).

Definition alive (infos : list TDataDecompressionInfo) (i : nat) : Prop :=
  exists info, infos !! i = Some info /\ Destroyed info = false.

(** The data events of a stream: those given to the user and those that wait. *)
Definition sq (st : TStream) : list TDataDecompressionEvent * list TDataDecompressionEvent :=
  (dataevs (ReadyEvents (queue st)), dataevs (NotReady (queue st))).

Definition of_task (t : TDecompressionTask) (d : TDataDecompressionEvent) : Prop :=
  ev_Parent d = task_Parent t /\ ev_State d = task_Ready t.

#[export] Instance of_task_dec t d : Decision (of_task t d).
Proof. unfold of_task. apply _. Defined.

Definition held (infos : list TDataDecompressionInfo) (evs : list (list TDataDecompressionEvent * list TDataDecompressionEvent))
  (pend : list action) (i : nat) : Z :=
  zsum (fun RN => zsum (counted infos i) (RN.1 ++ RN.2)) evs + zsum (act_held i) pend.

(** An event of a queue: its task exists, and is ready if the event was given. *)
Definition event_in (infos : list TDataDecompressionInfo) (sid : nat) (given : bool) (d : TDataDecompressionEvent) : Prop :=
  exists info st, infos !! ev_Parent d = Some info /\ Destroyed info = false /\ PartitionStream info = sid /\
    ReadyThresholds info !! ev_State d = Some st /\ ((st = InProcess /\ given = false) \/
      (st = Ready /\ is_Some (DecompressedData info !! ev_Message d))).

Record heap_ok (dd : bool) (infos : list TDataDecompressionInfo)
  (evs : list (list TDataDecompressionEvent * list TDataDecompressionEvent)) (pend : list action) : Prop := {
  h_nodup : NoDup (map task_key (holders infos pend));
  h_own : forall i info t, infos !! i = Some info -> t ∈ Tasks info -> task_Parent t = i;
  h_task : forall t, t ∈ holders infos pend -> task_ids t <> [] /\ 0 <= EstimatedDecompressedSize t /\
    exists info st, infos !! task_Parent t = Some info /\ Destroyed info = false /\
      ReadyThresholds info !! task_Ready t = Some st /\ (st = InProcess \/ st = Cleanup) /\
      (forall id, id ∈ task_ids t -> is_Some (message_at (ServerMessage info) id)) /\
      (st = InProcess -> exists RN, evs !! PartitionStream info = Some RN /\ map ev_Message (filter (of_task t) RN.2) = task_ids t);
  h_disjoint : forall t t' id, t ∈ holders infos pend -> t' ∈ holders infos pend -> task_Parent t = task_Parent t' ->
    id ∈ task_ids t -> id ∈ task_ids t' -> task_Ready t = task_Ready t';
  h_done : forall t n, TaskDecompressed t n ∈ pend -> exists info, infos !! task_Parent t = Some info /\
    n = zsum (GetPreparedDataSize info) (task_ids t) /\ (forall id, id ∈ task_ids t -> is_Some (DecompressedData info !! id));
  h_event : forall sid R N, evs !! sid = Some (R, N) -> Forall (event_in infos sid true) R /\ Forall (event_in infos sid false) N;
  h_event_task : forall RN d t, RN ∈ evs -> d ∈ RN.1 ++ RN.2 -> t ∈ holders infos pend -> ev_Parent d = task_Parent t ->
    ev_Message d ∈ task_ids t -> ev_State d = task_Ready t;
  h_data : forall i info id d, infos !! i = Some info -> DecompressedData info !! id = Some d -> data_ok dd d;
  h_held : forall i info, infos !! i = Some info -> info_Decompressed info = held infos evs pend i;
  h_refs : forall a i, a ∈ pend -> i ∈ action_infos a -> alive infos i;
  h_destroyed : forall i info, infos !! i = Some info -> Destroyed info = true ->
    Tasks info = [] /\ info_Compressed info = 0 /\ info_Decompressed info = 0 /\ ServerBytesSize info = 0;
  h_stream : forall i info, infos !! i = Some info -> (PartitionStream info < length evs)%nat }.

(** *** Changes that leave the queues and the states of tasks as they are *)

Definition stat (info : TDataDecompressionInfo) :=
  (ServerMessage info, PartitionStream info, ReadyThresholds info, DecompressedData info, Destroyed info).

Lemma stat_lookup (infos infos' : list TDataDecompressionInfo) i info' : stat <$> infos' = stat <$> infos -> infos' !! i = Some info' ->
  exists info, infos !! i = Some info /\ stat info' = stat info.
Proof.
  intros H Hi. assert (stat <$> (infos' !! i) = stat <$> (infos !! i)) as Hl by (rewrite <- !list_lookup_fmap; by rewrite H).
  rewrite Hi in Hl. destruct (infos !! i) as [info|]; [|done]. exists info. split; [done|]. cbn in Hl. congruence.
Qed.

Lemma counted_stat (infos infos' : list TDataDecompressionInfo) i d : stat <$> infos' = stat <$> infos -> counted infos' i d = counted infos i d.
Proof.
  intros H. assert (stat <$> (infos' !! ev_Parent d) = stat <$> (infos !! ev_Parent d)) as Hl by (rewrite <- !list_lookup_fmap; by rewrite H).
  unfold counted, state_of, prepared_size, GetPreparedDataSize.
  destruct (infos' !! ev_Parent d), (infos !! ev_Parent d); cbn in Hl; [|done..]. injection Hl as -> _ -> -> _. done.
Qed.

Lemma held_stat (infos infos' : list TDataDecompressionInfo) evs pend i : stat <$> infos' = stat <$> infos -> held infos' evs pend i = held infos evs pend i.
Proof.
  intros H. unfold held. f_equal. apply zsum_ext. intros RN _. apply zsum_ext. intros d _. by apply counted_stat.
Qed.

Lemma event_in_stat (infos infos' : list TDataDecompressionInfo) sid given d : stat <$> infos' = stat <$> infos -> event_in infos sid given d -> event_in infos' sid given d.
Proof.
  intros H (info & st & Hi & Hd & Hp & Ht & Hs). symmetry in H. destruct (stat_lookup _ _ _ _ H Hi) as (info' & Hi' & E).
  exists info', st. unfold stat in E. injection E as _ E2 E3 E4 E5. rewrite <- E2, <- E3, <- E4, <- E5. done.
Qed.

Lemma alive_stat (infos infos' : list TDataDecompressionInfo) i : stat <$> infos' = stat <$> infos -> alive infos i -> alive infos' i.
Proof.
  intros H (info & Hi & Hd). symmetry in H. destruct (stat_lookup _ _ _ _ H Hi) as (info' & Hi' & E). exists info'. split; [done|].
  unfold stat in E. injection E as _ _ _ _ E5. by rewrite <- E5.
Qed.

Lemma NoDup_map_submseteq {A B} (f : A -> B) l k : l ⊆+ k -> NoDup (map f k) -> NoDup (map f l).
Proof.
  intros [x Hx]%submseteq_Permutation Hk. rewrite (Permutation_map f Hx), map_app in Hk. by apply NoDup_app in Hk as [? _].
Qed.

Lemma heap_update dd (infos infos' : list TDataDecompressionInfo) evs pend pend' : heap_ok dd infos evs pend ->
  stat <$> infos' = stat <$> infos ->
  holders infos' pend' ⊆+ holders infos pend ->
  (forall i info t, infos' !! i = Some info -> t ∈ Tasks info -> task_Parent t = i) ->
  (forall t n, TaskDecompressed t n ∈ pend' -> TaskDecompressed t n ∈ pend) ->
  (forall i info info', infos !! i = Some info -> infos' !! i = Some info' ->
     info_Decompressed info' = info_Decompressed info + zsum (act_held i) pend' - zsum (act_held i) pend) ->
  (forall a i, a ∈ pend' -> i ∈ action_infos a -> alive infos i) ->
  (forall i info, infos' !! i = Some info -> Destroyed info = true ->
     Tasks info = [] /\ info_Compressed info = 0 /\ info_Decompressed info = 0 /\ ServerBytesSize info = 0) ->
  heap_ok dd infos' evs pend'.
Proof.
  intros [] Hst Hsub Hown Hdone Hheld Hrefs Hdes.
  assert (forall t, t ∈ holders infos' pend' -> t ∈ holders infos pend) as Hin by (intros t Ht; by eapply elem_of_submseteq).
  split.
  - by eapply NoDup_map_submseteq.
  - done.
  - intros t Ht. destruct (h_task0 t (Hin t Ht)) as (H1 & H2 & info & st & Hi & H3). split_and!; [done..|].
    destruct (stat_lookup infos' infos (task_Parent t) info (eq_sym Hst) Hi) as (info' & Hi' & E). exists info', st.
    unfold stat in E. injection E as E1 E2 E3 E4 E5. rewrite <- E1, <- E2, <- E3, <- E5. by split.
  - intros t t' id Ht Ht'. apply h_disjoint0; auto.
  - intros t n Ht. destruct (h_done0 t n (Hdone t n Ht)) as (info & Hi & H1 & H2).
    destruct (stat_lookup infos' infos (task_Parent t) info (eq_sym Hst) Hi) as (info' & Hi' & E). exists info'. split; [done|].
    unfold stat in E. injection E as E1 E2 E3 E4 E5. unfold GetPreparedDataSize in *. rewrite <- E1, <- E4. done.
  - intros sid R N Hs. destruct (h_event0 sid R N Hs) as [H1 H2].
    split; (eapply Forall_impl; [eassumption|]); intros d; by apply event_in_stat.
  - intros RN d t HRN Hd Ht. apply (h_event_task0 RN); auto.
  - intros i info id d Hi Hd. destruct (stat_lookup infos infos' i info Hst Hi) as (info0 & Hi0 & E).
    unfold stat in E. injection E as E1 E2 E3 E4 E5. eapply h_data0; [exact Hi0|]. by rewrite <- E4.
  - intros i info' Hi'. destruct (stat_lookup infos infos' i info' Hst Hi') as (info & Hi & _).
    rewrite (held_stat _ _ _ _ _ Hst), (Hheld i info info' Hi Hi'), (h_held0 i info Hi). unfold held. lia.
  - intros a i Ha Hi. apply (alive_stat infos); [done|]. by eapply Hrefs.
  - done.
  - intros i info' Hi'. destruct (stat_lookup infos infos' i info' Hst Hi') as (info & Hi & E). unfold stat in E. injection E as _ -> _ _ _.
    by eapply h_stream0.
Qed.

Lemma fmap_alter_same {A B} (g : A -> B) (f : A -> A) i (l : list A) : (forall x, l !! i = Some x -> g (f x) = g x) -> g <$> alter f i l = g <$> l.
Proof.
  intros H. apply list_eq. intros j. rewrite !list_lookup_fmap. destruct (decide (i = j)) as [<-|Hne].
  - rewrite list_lookup_alter_eq. destruct (l !! i) as [x|] eqn:E; [|done]. cbn. by rewrite H.
  - by rewrite list_lookup_alter_ne.
Qed.

Lemma lookup_alter_cases {A} (f : A -> A) i (l : list A) j y : alter f i l !! j = Some y ->
  exists x, l !! j = Some x /\ y = if decide (i = j) then f x else x.
Proof.
  destruct (decide (i = j)) as [<-|Hne]; [rewrite list_lookup_alter_eq|rewrite list_lookup_alter_ne by done].
  - destruct (l !! i) as [x|]; [|done]. cbn. intros [= <-]. by exists x.
  - intros ->. by exists y.
Qed.

Lemma holders_tasks infos infos' pend : Tasks <$> infos' = Tasks <$> infos -> holders infos' pend = holders infos pend.
Proof. intros H. unfold holders. change (map Tasks infos') with (Tasks <$> infos'). by rewrite H. Qed.

Lemma holders_cons infos a pend : holders infos (a :: pend) ≡ₚ action_tasks a ++ holders infos pend.
Proof. unfold holders. cbn [map concat]. apply Permutation_app_swap_app. Qed.

Lemma holders_app infos pend l : holders infos (pend ++ l) ≡ₚ concat (map action_tasks l) ++ holders infos pend.
Proof. unfold holders. rewrite map_app, concat_app, app_assoc. apply Permutation_app_comm. Qed.

Lemma holders_perm infos pend pend' : pend ≡ₚ pend' -> holders infos pend ≡ₚ holders infos pend'.
Proof.
  intros H. unfold holders. apply Permutation_app_head. induction H; cbn [map concat]; [done|by rewrite IHPermutation| |by etransitivity].
  rewrite !app_assoc. apply Permutation_app_tail, Permutation_app_comm.
Qed.

Lemma zsum_perm {A} (f : A -> Z) l k : l ≡ₚ k -> zsum f l = zsum f k.
Proof. induction 1; rewrite ?zsum_cons; lia. Qed.

Lemma heap_perm dd infos evs pend pend' : pend ≡ₚ pend' -> heap_ok dd infos evs pend -> heap_ok dd infos evs pend'.
Proof.
  intros Hp H. eapply heap_update; [exact H|done| | | | | |].
  - by rewrite (holders_perm infos pend' pend) by done.
  - apply H.
  - intros t n. by rewrite Hp.
  - intros i info info' Hi Hi'. rewrite Hi in Hi'. injection Hi' as <-. rewrite (zsum_perm _ _ _ Hp). lia.
  - intros a i. rewrite <- Hp. apply H.
  - apply H.
Qed.

(** Actions that hold no memory and no task. *)
Definition idle (infos : list TDataDecompressionInfo) (a : action) : Prop :=
  action_tasks a = [] /\ (forall i, act_held i a = 0) /\ (forall i, i ∈ action_infos a -> alive infos i).

Lemma idle_tasks infos l : Forall (idle infos) l -> concat (map action_tasks l) = [].
Proof. induction 1 as [|a l (Ha & _) _ IH]; [done|]. cbn. by rewrite Ha, IH. Qed.

Lemma idle_held infos l i : Forall (idle infos) l -> zsum (act_held i) l = 0.
Proof. rewrite Forall_forall. intros H. apply zsum_zero. intros a Ha. by apply H. Qed.

Lemma heap_add_idle dd infos evs pend l : Forall (idle infos) l -> heap_ok dd infos evs pend -> heap_ok dd infos evs (pend ++ l).
Proof.
  intros Hl H. pose proof Hl as Hl'. rewrite Forall_forall in Hl'. eapply heap_update; [exact H|done| | | | | |].
  - rewrite holders_app, (idle_tasks _ _ Hl). done.
  - apply H.
  - intros t n [?|Hin]%elem_of_app; [done|]. apply Hl' in Hin as (Ht & _). done.
  - intros i info info' Hi Hi'. rewrite Hi in Hi'. injection Hi' as <-. rewrite zsum_app, (idle_held _ _ _ Hl). lia.
  - intros a i [Ha|Ha]%elem_of_app; [by apply H|]. by apply Hl'.
  - apply H.
Qed.

(** Dropping an action that holds nothing. *)
Lemma heap_drop_action dd infos evs a pend : (forall i, act_held i a = 0) -> heap_ok dd infos evs (a :: pend) -> heap_ok dd infos evs pend.
Proof.
  intros Ha H. eapply heap_update; [exact H|done| | | | | |].
  - rewrite holders_cons. by apply submseteq_inserts_l.
  - apply H.
  - intros t n ?. by right.
  - intros i info info' Hi Hi'. rewrite Hi in Hi'. injection Hi' as <-. rewrite zsum_cons, Ha. lia.
  - intros b i Hb. apply H. by right.
  - apply H.
Qed.

(** Memory is given back: the action that holds it is done. *)
Lemma heap_retrieved dd infos evs a pend i n info : infos !! i = Some info ->
  (forall j, act_held j a = if decide (i = j) then n else 0) -> i ∈ action_infos a -> heap_ok dd infos evs (a :: pend) ->
  heap_ok dd (alter (info_upd_sizes (info_Compressed info) (info_Decompressed info - n) (ServerBytesSize info)) i infos) evs pend.
Proof.
  intros Hi Ha Hai H. eapply heap_update; [exact H| | | | | | |].
  - by apply fmap_alter_same.
  - rewrite (holders_tasks infos) by (by apply fmap_alter_same). rewrite holders_cons. by apply submseteq_inserts_l.
  - intros j info' t Hj Ht. apply lookup_alter_cases in Hj as (x & Hx & ->). eapply H; [exact Hx|]. by destruct (decide (i = j)).
  - intros t m ?. by right.
  - intros j x x' Hx Hx'. apply lookup_alter_cases in Hx' as (y & Hy & ->). rewrite Hx in Hy. injection Hy as <-.
    rewrite zsum_cons, Ha. destruct (decide (i = j)) as [<-|]; [|lia]. rewrite Hi in Hx. injection Hx as <-. cbn. lia.
  - intros b j Hb. apply H. by right.
  - intros j x' Hx' Hd. apply lookup_alter_cases in Hx' as (y & Hy & ->). destruct (decide (i = j)) as [<-|]; [|by eapply H].
    destruct (h_refs _ _ _ _ H a i ltac:(left) Hai) as (z & Hz & Hdz). rewrite Hy in Hz. injection Hz as <-. cbn in Hd. congruence.
Qed.

(** Sizes that are not accounted in events change. *)
Lemma heap_sizes dd infos evs pend i info c sb : infos !! i = Some info -> alive infos i -> heap_ok dd infos evs pend ->
  heap_ok dd (alter (info_upd_sizes c (info_Decompressed info) sb) i infos) evs pend.
Proof.
  intros Hi (info1 & Hi1 & Hal) H. rewrite Hi in Hi1. injection Hi1 as <-. eapply heap_update; [exact H| | | | | | |].
  - by apply fmap_alter_same.
  - by rewrite (holders_tasks infos) by (by apply fmap_alter_same).
  - intros j info' t Hj Ht. apply lookup_alter_cases in Hj as (x & Hx & ->). eapply H; [exact Hx|]. by destruct (decide (i = j)).
  - done.
  - intros j x x' Hx Hx'. apply lookup_alter_cases in Hx' as (y & Hy & ->). rewrite Hx in Hy. injection Hy as <-.
    destruct (decide (i = j)) as [<-|]; [|lia]. rewrite Hi in Hx. injection Hx as <-. cbn. lia.
  - apply H.
  - intros j x' Hx' Hd. apply lookup_alter_cases in Hx' as (y & Hy & ->). destruct (decide (i = j)) as [<-|]; [|by eapply H].
    cbn in Hd. rewrite Hi in Hy. injection Hy as <-. congruence.
Qed.
