(* ===== verification/ReadHeap.v ===== *)
(** * Infos, queues and actions of a read session: what operations do to them

    Each lemma is one change an operation of [ReadSession] makes to the infos, the queues
    and the actions, and shows that it keeps [heap_ok] of [ReadInv]. *)

From S2P Require Import Prelude Float32 Float64 IntervalTree ReadCommit ReadTypes ReadSession ReadSystem ReadInv.
From Stdlib Require Import SpecFloat.

(** ** Starting and dropping tasks *)

Lemma holders_alter f i info infos pend : infos !! i = Some info ->
  Tasks info ++ holders (alter f i infos) pend ≡ₚ Tasks (f info) ++ holders infos pend.
Proof.
  intros Hi. unfold holders. rewrite !app_assoc. apply Permutation_app_tail.
  revert i Hi. induction infos as [|x infos IH]; intros [|i] Hi; [done|done| |].
  - injection Hi as ->. change (alter f 0%nat (info :: infos)) with (f info :: infos). cbn [map concat].
    apply Permutation_app_swap_app.
  - change (alter f (S i) (x :: infos)) with (x :: alter f i infos). cbn [map concat].
    rewrite !(Permutation_app_swap_app _ (Tasks x)). apply Permutation_app_head. by apply IH.
Qed.

(** Some tasks of an info leave it, and those in [acts] are posted. *)
Lemma heap_tasks dd infos evs pend i info left_ started acts : infos !! i = Some info -> alive infos i ->
  heap_ok dd infos evs pend -> started ++ left_ ⊆+ Tasks info -> acts = map RunTask started ->
  heap_ok dd (alter (info_set_tasks left_) i infos) evs (pend ++ acts).
Proof.
  intros Hi Hal H Hsub ->. assert (concat (map action_tasks (map RunTask started)) = started) as Hacts.
  { clear. induction started as [|t l IH]; cbn; [done|by rewrite IH]. }
  assert (forall j, zsum (act_held j) (map RunTask started) = 0) as Hz.
  { intros j. apply zsum_zero. intros a (t & -> & _)%list_elem_of_fmap. done. }
  eapply heap_update; [exact H| | | | | | |].
  - by apply fmap_alter_same.
  - rewrite holders_app, Hacts. pose proof (holders_alter (info_set_tasks left_) i info infos pend Hi) as Hp. cbn in Hp.
    eapply (submseteq_app_inv_l _ _ (Tasks info)). rewrite (Permutation_app_swap_app (Tasks info)), Hp, app_assoc. by apply submseteq_app.
  - intros j info' t Hj Ht. apply lookup_alter_cases in Hj as (x & Hx & ->). destruct (decide (i = j)) as [<-|]; [|by eapply H].
    rewrite Hi in Hx. injection Hx as <-. eapply H; [exact Hi|]. eapply elem_of_submseteq; [|exact Hsub]. cbn in Ht. set_solver.
  - intros t n [?|(x & ? & _)%list_elem_of_fmap]%elem_of_app; done.
  - intros j x x' Hx Hx'. apply lookup_alter_cases in Hx' as (y & Hy & ->). rewrite Hx in Hy. injection Hy as <-.
    rewrite zsum_app, Hz. destruct (decide (i = j)); cbn; lia.
  - intros a j [Ha|(t & -> & Ht)%list_elem_of_fmap]%elem_of_app; [by apply H|]. cbn. intros ->%list_elem_of_singleton.
    rewrite (h_own _ _ _ _ H i info t Hi); [done|]. eapply elem_of_submseteq; [|exact Hsub]. set_solver.
  - intros j x' Hx' Hd. apply lookup_alter_cases in Hx' as (y & Hy & ->). destruct (decide (i = j)) as [<-|]; [|by eapply H].
    destruct Hal as (z & Hz' & Hdz). rewrite Hy in Hz'. injection Hz' as <-. cbn in Hd. congruence.
Qed.

(** ** Queues *)

Lemma of_task_state infos t d info st : infos !! task_Parent t = Some info -> ReadyThresholds info !! task_Ready t = Some st ->
  of_task t d -> state_of infos d = st.
Proof. intros Hi Hs [E1 E2]. unfold state_of. by rewrite E1, E2, Hi, Hs. Qed.

Lemma event_in_state infos sid given d : event_in infos sid given d ->
  state_of infos d = Ready \/ (state_of infos d = InProcess /\ given = false).
Proof.
  intros (info & st & Hi & _ & _ & Hs & H). unfold state_of. rewrite Hi, Hs. cbn. destruct H as [[-> ->]|[-> _]]; [by right|by left].
Qed.

Lemma event_in_given infos sid d : event_in infos sid false d -> state_of infos d = Ready -> event_in infos sid true d.
Proof.
  intros (info & st & Hi & Hd & Hp & Hs & H) Hr. exists info, st. split_and!; [done..|]. unfold state_of in Hr. rewrite Hi, Hs in Hr. cbn in Hr.
  subst st. destruct H as [[? _]|?]; [done|by right].
Qed.

Lemma held_insert infos evs pend pend' i sid (R N R' N' : list TDataDecompressionEvent) : evs !! sid = Some (R, N) ->
  held infos (<[sid := (R', N')]> evs) pend' i =
  held infos evs pend i - zsum (counted infos i) (R ++ N) - zsum (act_held i) pend + zsum (counted infos i) (R' ++ N') + zsum (act_held i) pend'.
Proof. intros Hs. unfold held. rewrite (zsum_insert _ _ _ _ _ Hs). cbn [fst snd]. lia. Qed.

Lemma insert_cases {A} (l : list A) i x j y : <[i := x]> l !! j = Some y -> (i = j /\ y = x) \/ (i <> j /\ l !! j = Some y).
Proof.
  destruct (decide (i = j)) as [<-|Hne]; [|rewrite list_lookup_insert_ne by done; tauto].
  intros H. assert (i < length l)%nat by (rewrite <- (length_insert l i x); by eapply lookup_lt_Some).
  rewrite list_lookup_insert_eq in H by done. injection H as <-. by left.
Qed.

(** Ready events leave the head of the waiting ones, and given events are those given
    before or these; what leaves the queue is held by an action. *)
Lemma heap_queue dd infos evs pend pend' sid R N T R' N' : heap_ok dd infos evs pend -> evs !! sid = Some (R, N) ->
  N = T ++ N' -> Forall (fun d => state_of infos d = Ready) T -> (forall d, d ∈ R' -> d ∈ R ++ T) ->
  holders infos pend' ⊆+ holders infos pend ->
  (forall t n, TaskDecompressed t n ∈ pend' -> TaskDecompressed t n ∈ pend) ->
  (forall i, zsum (counted infos i) (R' ++ N') + zsum (act_held i) pend' = zsum (counted infos i) (R ++ N) + zsum (act_held i) pend) ->
  (forall a i, a ∈ pend' -> i ∈ action_infos a -> alive infos i) ->
  heap_ok dd infos (<[sid := (R', N')]> evs) pend'.
Proof.
  intros H Hs -> HT HR Hsub Hdone Hsum Hrefs.
  assert (forall t, t ∈ holders infos pend' -> t ∈ holders infos pend) as Hin by (intros t Ht; by eapply elem_of_submseteq).
  destruct (h_event _ _ _ _ H sid R (T ++ N') Hs) as [HeR [HeT HeN]%Forall_app].
  rewrite Forall_forall in HT, HeR, HeT, HeN. split; try by apply H.
  - eapply NoDup_map_submseteq; [exact Hsub|apply H].
  - intros t Ht. destruct (h_task _ _ _ _ H t (Hin t Ht)) as (H1 & H2 & info & st & Hi & H3 & Hst & H4 & H5 & H6). split_and!; [done..|].
    exists info, st. split_and!; [done..|]. intros ->. destruct (H6 eq_refl) as (RN & HRN & Hf).
    destruct (decide (sid = PartitionStream info)) as [E|Hne]; [|exists RN; by rewrite list_lookup_insert_ne].
    exists (R', N'). rewrite <- E in *. rewrite list_lookup_insert_eq by (by eapply lookup_lt_Some). split; [done|]. rewrite Hs in HRN. injection HRN as <-.
    cbn in Hf |- *. rewrite filter_app, (filter_none _ T) in Hf; [done|]. intros d Hd Hod.
    specialize (HT d Hd). by rewrite (of_task_state _ _ _ _ _ Hi Hst Hod) in HT.
  - intros t t' id Ht Ht'. apply H; auto.
  - intros t n Ht. apply H. auto.
  - intros sid' R0 N0 [[<- [= -> ->]]|[_ Hl]]%insert_cases; [|by apply H]. rewrite !Forall_forall. split; [|done].
    intros d [Hd|Hd]%HR%elem_of_app; [by apply HeR|]. apply event_in_given; [by apply HeT|by apply HT].
  - intros RN d t [j HRN]%list_elem_of_lookup Hd Ht. apply insert_cases in HRN as [[<- ->]|[_ HRN]].
    + cbn in Hd. eapply (h_event_task _ _ _ _ H (R, T ++ N')); [by eapply list_elem_of_lookup_2| |by apply Hin].
      cbn. rewrite !elem_of_app in *. specialize (HR d). rewrite elem_of_app in HR. tauto.
    + eapply (h_event_task _ _ _ _ H RN); [by eapply list_elem_of_lookup_2|done|by apply Hin].
  - intros i info Hi. rewrite (held_insert _ _ pend _ _ _ _ _ _ _ Hs), (h_held _ _ _ _ H i info Hi). specialize (Hsum i). lia.
  - done.
  - intros i info Hi. rewrite length_insert. by eapply H.
Qed.

(** ** Abandoning the events of a stream *)

Lemma but_lookup (infos infos' : list TDataDecompressionInfo) i info' : but_states <$> infos' = but_states <$> infos -> infos' !! i = Some info' ->
  exists info, infos !! i = Some info /\ but_states info' = but_states info.
Proof.
  intros H Hi. assert (but_states <$> (infos' !! i) = but_states <$> (infos !! i)) as H' by (rewrite <- !list_lookup_fmap; by rewrite H).
  rewrite Hi in H'. destruct (infos !! i) as [info|]; [|done]. exists info. split; [done|]. by apply (inj Some) in H'.
Qed.

Lemma but_tasks (infos infos' : list TDataDecompressionInfo) pend : but_states <$> infos' = but_states <$> infos -> holders infos' pend = holders infos pend.
Proof.
  intros H. apply holders_tasks. transitivity ((fun p => p.1.1.1.2) <$> (but_states <$> infos')); [by rewrite <- list_fmap_compose|].
  rewrite H. by rewrite <- list_fmap_compose.
Qed.

Lemma counted_but (infos infos' : list TDataDecompressionInfo) i d : but_states <$> infos' = but_states <$> infos ->
  (state_of infos' d = Ready <-> state_of infos d = Ready) -> counted infos' i d = counted infos i d.
Proof. intros H Hr. unfold counted. rewrite (prepared_size_but _ _ _ H). repeat case_decide; tauto. Qed.

Lemma event_in_but (infos infos' : list TDataDecompressionInfo) sid given d : but_states <$> infos' = but_states <$> infos ->
  state_of infos' d = state_of infos d -> event_in infos sid given d -> event_in infos' sid given d.
Proof.
  intros H Hst (info & st & Hi & Hd & Hp & Hs & Hev). destruct (but_lookup infos' infos (ev_Parent d) info (eq_sym H) Hi) as (info' & Hi' & E).
  unfold but_states in E. injection E as _ Ep _ _ _ _ El _ Ed _ EE. unfold state_of in Hst. rewrite Hi, Hi', Hs in Hst. cbn in Hst.
  assert (is_Some (ReadyThresholds info' !! ev_State d)) as [st' Hs'] by (apply lookup_lt_is_Some; rewrite <- El; apply lookup_lt_is_Some; by eexists).
  rewrite Hs' in Hst. cbn in Hst. subst st'. exists info', st. rewrite <- Ed, <- Ep, <- EE. done.
Qed.

Lemma event_in_valid infos sid given d : event_in infos sid given d -> valid_event infos d.
Proof. intros (info & st & Hi & _ & _ & Hs & _). exists info. split; [done|by eexists]. Qed.

Lemma mark_ready infos l d : Forall (valid_event infos) l -> state_of (mark infos l) d = Ready <-> state_of infos d = Ready.
Proof. intros Hv. destruct (mark_spec l infos Hv) as [_ H]. rewrite H. destruct (decide _) as [[Hp _]|]; [rewrite Hp; split; discriminate|done]. Qed.

(** Events of another stream keep their state. *)
Lemma mark_other infos l sid sid' given d : Forall (fun x => exists g, event_in infos sid g x) l -> sid <> sid' -> event_in infos sid' given d ->
  state_of (mark infos l) d = state_of infos d.
Proof.
  intros Hl Hne (info & st & Hi & _ & Hp & _). assert (Forall (valid_event infos) l) as Hv.
  { eapply Forall_impl; [exact Hl|]. intros x [g Hx]. by eapply event_in_valid. }
  destruct (mark_spec l infos Hv) as [_ H]. rewrite H, decide_False; [done|]. intros [_ Hex]. apply Exists_exists in Hex as (x & Hx & [E _]).
  rewrite Forall_forall in Hl. destruct (Hl x Hx) as (g & info' & st' & Hi' & _ & Hp' & _). congruence.
Qed.

(** A task that was not given up is one of another stream. *)
Lemma mark_task dd infos evs pend sid R N l t : heap_ok dd infos evs pend -> evs !! sid = Some (R, N) ->
  (forall d, d ∈ N -> d ∈ l) -> Forall (valid_event infos) l -> t ∈ holders infos pend ->
  exists info st, mark infos l !! task_Parent t = Some info /\ Destroyed info = false /\
    ReadyThresholds info !! task_Ready t = Some st /\ (st = InProcess \/ st = Cleanup) /\
    (forall id, id ∈ task_ids t -> is_Some (message_at (ServerMessage info) id)) /\
    (st = InProcess -> exists RN, evs !! PartitionStream info = Some RN /\ sid <> PartitionStream info /\
       map ev_Message (filter (of_task t) RN.2) = task_ids t).
Proof.
  intros H Hs Hl Hv Ht. destruct (mark_spec l infos Hv) as [Hb Hm].
  destruct (h_task _ _ _ _ H t Ht) as (H1 & H2 & info & st & Hi & H3 & Hst & H4 & H5 & H6).
  destruct (but_lookup (mark infos l) infos (task_Parent t) info (eq_sym Hb) Hi) as (info' & Hi' & E).
  unfold but_states in E. injection E as Em Ep _ _ _ _ El _ _ _ EE.
  assert (is_Some (ReadyThresholds info' !! task_Ready t)) as [st' Hs'] by (apply lookup_lt_is_Some; rewrite <- El; apply lookup_lt_is_Some; by eexists).
  specialize (Hm (mkDataEvent (0, 0)%nat (task_Parent t) (task_Ready t))). unfold state_of in Hm. cbn in Hm. rewrite Hi, Hi', Hst, Hs' in Hm. cbn in Hm.
  exists info', st'. rewrite <- EE, <- Em, <- Ep. destruct (decide _) as [_|Hn]; subst st'.
  { split_and!; [done..|by right|done|done]. }
  split_and!; [done..|]. intros ->. destruct (H6 eq_refl) as (RN & HRN & Hf). exists RN. split_and!; [done| |done].
  intros E. rewrite <- E, Hs in HRN. injection HRN as <-. cbn in Hf. apply Hn. split; [done|]. apply Exists_exists.
  destruct (filter (of_task t) N) as [|d l'] eqn:EN; [by destruct H1|]. assert (d ∈ filter (of_task t) N) as [[Hd1 Hd2] Hd]%list_elem_of_filter by (rewrite EN; left).
  exists d. split; [by apply Hl|by split].
Qed.

Lemma held_ext infos infos' evs pend pend' i : (forall d, counted infos' i d = counted infos i d) -> zsum (act_held i) pend' = zsum (act_held i) pend ->
  held infos' evs pend' i = held infos evs pend i.
Proof. intros H H'. unfold held. rewrite H'. f_equal. apply zsum_ext. intros RN _. apply zsum_ext. intros d _. apply H. Qed.

Lemma heap_abandon dd infos evs pend pend' sid R N l R' N' : heap_ok dd infos evs pend -> evs !! sid = Some (R, N) ->
  (forall d, d ∈ N -> d ∈ l) -> (forall d, d ∈ l -> d ∈ R ++ N) -> (forall d, d ∈ R' -> d ∈ R) ->
  (forall d, d ∈ N' -> d ∈ N /\ state_of infos d = Ready) ->
  holders infos pend' ⊆+ holders infos pend ->
  (forall t n, TaskDecompressed t n ∈ pend' -> TaskDecompressed t n ∈ pend) ->
  (forall i, zsum (counted infos i) (R' ++ N') + zsum (act_held i) pend' = zsum (counted infos i) (R ++ N) + zsum (act_held i) pend) ->
  (forall a i, a ∈ pend' -> i ∈ action_infos a -> alive infos i) ->
  heap_ok dd (mark infos l) (<[sid := (R', N')]> evs) pend'.
Proof.
  intros H Hs Hl HlRN HR HN Hsub Hdone Hsum Hrefs.
  assert (forall t, t ∈ holders infos pend' -> t ∈ holders infos pend) as Hin by (intros t Ht; by eapply elem_of_submseteq).
  destruct (h_event _ _ _ _ H sid R N Hs) as [HeR HeN]. rewrite Forall_forall in HeR, HeN.
  assert (Forall (fun x => exists g, event_in infos sid g x) l) as Hle.
  { apply Forall_forall. intros d [Hd|Hd]%HlRN%elem_of_app; [exists true; by apply HeR|exists false; by apply HeN]. }
  assert (Forall (valid_event infos) l) as Hv by (eapply Forall_impl; [exact Hle|]; intros x [g Hx]; by eapply event_in_valid).
  destruct (mark_spec l infos Hv) as [Hb _]. assert (forall i d, counted (mark infos l) i d = counted infos i d) as Hcnt
    by (intros i d; apply counted_but; [done|by apply mark_ready]).
  assert (forall d, state_of infos d = Ready -> state_of (mark infos l) d = state_of infos d) as Hrd
    by (intros d Hd; rewrite Hd; by apply mark_ready).
  split.
  - rewrite (but_tasks _ _ _ Hb). eapply NoDup_map_submseteq; [exact Hsub|apply H].
  - intros i info t Hi Ht. destruct (but_lookup _ _ _ _ Hb Hi) as (info0 & Hi0 & E). unfold but_states in E. injection E as _ _ _ _ _ _ _ Et _ _ _.
    rewrite Et in Ht. by eapply H.
  - rewrite (but_tasks _ _ _ Hb). intros t Ht%Hin. destruct (h_task _ _ _ _ H t Ht) as (H1 & H2 & _). split_and!; [done..|].
    destruct (mark_task _ _ _ _ _ _ _ _ _ H Hs Hl Hv Ht) as (info & st & H3 & H4 & H5 & H6 & H7 & H8). exists info, st. split_and!; [done..|].
    intros Hst. destruct (H8 Hst) as (RN & H9 & H10 & H11). exists RN. by rewrite list_lookup_insert_ne.
  - rewrite (but_tasks _ _ _ Hb). intros t t' id Ht Ht'. apply H; auto.
  - intros t n Ht. destruct (h_done _ _ _ _ H t n (Hdone t n Ht)) as (info & Hi & H1 & H2).
    destruct (but_lookup _ _ _ _ (eq_sym Hb) Hi) as (info' & Hi' & E). unfold but_states in E. injection E as Em _ _ _ _ _ _ _ Ed _ _.
    exists info'. unfold GetPreparedDataSize in *. rewrite <- Em, <- Ed. done.
  - intros sid' R0 N0 [[<- [= -> ->]]|[Hne Hsid']]%insert_cases; rewrite !Forall_forall.
    + split; [intros d Hd%HR|intros d [Hd Hr]%HN]; (eapply event_in_but; [exact Hb|apply Hrd|]); [|by apply HeR|done|by apply HeN].
      destruct (event_in_state _ _ _ _ (HeR d Hd)) as [?|[_ ?]]; done.
    + destruct (h_event _ _ _ _ H sid' R0 N0 Hsid') as [H1 H2]. rewrite !Forall_forall in H1, H2.
      split; intros d Hd; (eapply event_in_but; [exact Hb|by eapply mark_other; eauto|auto]).
  - rewrite (but_tasks _ _ _ Hb). intros RN d t [j HRN]%list_elem_of_lookup Hd Ht%Hin. apply insert_cases in HRN as [[<- ->]|[_ HRN]].
    + eapply (h_event_task _ _ _ _ H (R, N)); [by eapply list_elem_of_lookup_2| |done]. cbn in *. rewrite !elem_of_app in *.
      destruct Hd as [Hd%HR|[Hd _]%HN]; tauto.
    + eapply (h_event_task _ _ _ _ H RN); [by eapply list_elem_of_lookup_2|done..].
  - intros i info id d Hi. destruct (but_lookup _ _ _ _ Hb Hi) as (info0 & Hi0 & E). unfold but_states in E. injection E as _ _ _ _ _ _ _ _ -> _ _. by eapply H.
  - intros i info Hi. destruct (but_lookup _ _ _ _ Hb Hi) as (info0 & Hi0 & E). unfold but_states in E. injection E as _ _ _ _ _ -> _ _ _ _ _.
    rewrite (held_ext infos (mark infos l) _ pend'), (held_insert _ _ pend _ _ _ _ _ _ _ Hs), (h_held _ _ _ _ H i info0 Hi0) by done. specialize (Hsum i). lia.
  - intros a i Ha Hi. destruct (Hrefs a i Ha Hi) as (info & Hx & Hd). destruct (but_lookup _ _ _ _ (eq_sym Hb) Hx) as (info' & Hi' & E).
    unfold but_states in E. injection E as _ _ _ _ _ _ _ _ _ _ E. exists info'. by rewrite <- E.
  - intros i info Hi. destruct (but_lookup _ _ _ _ Hb Hi) as (info0 & Hi0 & E). unfold but_states in E. injection E as _ _ _ E1 E2 E3 _ E4 _ _ ->.
    rewrite E1, E2, E3, E4. by eapply H.
  - intros i info Hi. rewrite length_insert. destruct (but_lookup _ _ _ _ Hb Hi) as (info0 & Hi0 & E). unfold but_states in E. injection E as _ -> _ _ _ _ _ _ _ _ _.
    by eapply H.
Qed.

(** ** A task runs *)

(** Infos that agree on what is planned, with at least the data of before. *)
Definition grows (info info' : TDataDecompressionInfo) : Prop :=
  ServerMessage info' = ServerMessage info /\ PartitionStream info' = PartitionStream info /\ ReadyThresholds info' = ReadyThresholds info /\
  Tasks info' = Tasks info /\ Destroyed info' = Destroyed info /\
  (forall id, is_Some (DecompressedData info !! id) -> is_Some (DecompressedData info' !! id)).

Lemma fmap_insert_same {A B} (f : A -> B) (l : list A) i x y : l !! i = Some x -> f y = f x -> f <$> <[i := y]> l = f <$> l.
Proof. intros Hi E. rewrite list_fmap_insert, E. apply list_insert_id. by rewrite list_lookup_fmap, Hi. Qed.

Lemma insert_lookup_cases {A} (l : list A) i x y j z : l !! i = Some x -> <[i := y]> l !! j = Some z ->
  exists w, l !! j = Some w /\ ((i = j /\ z = y /\ w = x) \/ (i <> j /\ z = w)).
Proof. intros Hi [[<- ->]|[Hne Hj]]%insert_cases; [exists x|exists z]; split; try done; [left|right]; done. Qed.

Lemma lookup_insert_cases {A} (l : list A) i x y j z : l !! i = Some x -> l !! j = Some z ->
  exists w, <[i := y]> l !! j = Some w /\ ((i = j /\ w = y /\ z = x) \/ (i <> j /\ w = z)).
Proof.
  intros Hi Hj. destruct (decide (i = j)) as [<-|Hne].
  - exists y. rewrite list_lookup_insert_eq by (by eapply lookup_lt_Some). split; [done|]. left. split_and!; congruence.
  - exists z. rewrite list_lookup_insert_ne by done. split; [done|]. by right.
Qed.

Lemma grows_refl info : grows info info.
Proof. done. Qed.

(** Lookups before and after an info is replaced by one that grows it. *)
Lemma grows_before (infos : list TDataDecompressionInfo) i info info' j x' : infos !! i = Some info -> grows info info' -> <[i := info']> infos !! j = Some x' ->
  exists x, infos !! j = Some x /\ grows x x'.
Proof. intros Hi Hg Hj. destruct (insert_lookup_cases _ _ _ _ _ _ Hi Hj) as (w & Hw & [(<- & -> & ->)|(_ & ->)]); eexists; done. Qed.

Lemma grows_after (infos : list TDataDecompressionInfo) i info info' j x : infos !! i = Some info -> grows info info' -> infos !! j = Some x ->
  exists x', <[i := info']> infos !! j = Some x' /\ grows x x'.
Proof. intros Hi Hg Hj. destruct (lookup_insert_cases _ _ _ info' _ _ Hi Hj) as (w & Hw & [(<- & -> & ->)|(_ & ->)]); eexists; done. Qed.

Lemma grows_event_in infos i info info' sid given d : infos !! i = Some info -> grows info info' -> event_in infos sid given d ->
  event_in (<[i := info']> infos) sid given d.
Proof.
  intros Hi Hg (x & st & Hx & Hd & Hp & Hs & H). destruct (grows_after _ _ _ _ _ _ Hi Hg Hx) as (x' & Hx' & (_ & E2 & E3 & _ & E5 & E6)).
  exists x', st. rewrite E2, E3, E5. split_and!; [done..|]. destruct H as [?|[? ?]]; [by left|right; auto].
Qed.

Lemma grows_state infos i info info' d : infos !! i = Some info -> grows info info' -> state_of (<[i := info']> infos) d = state_of infos d.
Proof.
  intros Hi Hg. unfold state_of. destruct (infos !! ev_Parent d) as [x|] eqn:E.
  - destruct (grows_after _ _ _ _ _ _ Hi Hg E) as (x' & -> & (_ & _ & -> & _)). done.
  - destruct (<[i := info']> infos !! ev_Parent d) as [x'|] eqn:E'; [|done].
    destruct (grows_before _ _ _ _ _ _ Hi Hg E') as (x & ? & _). congruence.
Qed.

Lemma prepared_insert (infos : list TDataDecompressionInfo) i info info' d : infos !! i = Some info -> (ev_Parent d = i -> GetPreparedDataSize info' (ev_Message d) = GetPreparedDataSize info (ev_Message d)) ->
  prepared_size (<[i := info']> infos) d = prepared_size infos d.
Proof.
  intros Hi H. unfold prepared_size. destruct (decide (i = ev_Parent d)) as [E|Hne]; [|by rewrite list_lookup_insert_ne].
  rewrite <- E, Hi, list_lookup_insert_eq by (by eapply lookup_lt_Some). auto.
Qed.

Lemma prepared_same info info' id : ServerMessage info' = ServerMessage info -> DecompressedData info' !! id = DecompressedData info !! id ->
  GetPreparedDataSize info' id = GetPreparedDataSize info id.
Proof. intros H1 H2. unfold GetPreparedDataSize. by rewrite H1, H2. Qed.

(** The head of the actions holds its task alone. *)
Lemma head_alone infos a pend t t' : NoDup (map task_key (holders infos (a :: pend))) -> action_tasks a = [t] -> t' ∈ holders infos pend -> task_key t' <> task_key t.
Proof.
  intros Hnd Ha Ht' E. assert (NoDup (map task_key ([t] ++ holders infos pend))) as Hnd'.
  { eapply NoDup_map_submseteq; [|exact Hnd]. rewrite holders_cons, Ha. done. }
  cbn in Hnd'. inversion Hnd' as [|? ? Hn _]. apply Hn. rewrite <- E. by apply list_elem_of_fmap_2.
Qed.

Lemma task_held t n i : act_held i (TaskDecompressed t n) = if decide (task_Parent t = i) then n else 0.
Proof. done. Qed.

(** The messages of a running task belong to it alone. *)
Lemma running_alone dd infos evs t pend a : heap_ok dd infos evs (a :: pend) -> action_tasks a = [t] ->
  (forall RN d, RN ∈ evs -> d ∈ RN.1 ++ RN.2 -> state_of infos d = Ready -> ev_Parent d = task_Parent t -> ev_Message d ∉ task_ids t) /\
  (forall t' n, TaskDecompressed t' n ∈ pend -> task_Parent t' = task_Parent t -> forall id, id ∈ task_ids t' -> id ∉ task_ids t).
Proof.
  intros H Ha. assert (t ∈ holders infos (a :: pend)) as Ht by (rewrite holders_cons, Ha; left). split.
  - intros RN d HRN Hd Hr Hp Hin. pose proof (h_event_task _ _ _ _ H RN d t HRN Hd Ht Hp Hin) as E.
    destruct (h_task _ _ _ _ H t Ht) as (_ & _ & info & st & Hi & _ & Hst & Hor & _).
    rewrite (of_task_state _ t d _ _ Hi Hst) in Hr by done. subst st. by destruct Hor.
  - intros t' n Ht' Hp id Hid Hid'. assert (t' ∈ holders infos pend) as Hh.
    { unfold holders. rewrite elem_of_app. right. apply list_elem_of_In, in_concat. exists [t'].
      split; [|by left]. apply in_map_iff. exists (TaskDecompressed t' n). split; [done|by apply list_elem_of_In]. }
    apply (head_alone infos a pend t t'); [apply H|done|done|]. unfold task_key. rewrite Hp. f_equal.
    eapply h_disjoint; [exact H| |exact Ht|done..]. rewrite holders_cons, elem_of_app. by right.
Qed.

Lemma heap_run DD dd (infos : list TDataDecompressionInfo) evs pend t info info1 c n : infos !! task_Parent t = Some info -> heap_ok dd infos evs (RunTask t :: pend) ->
  info1 = DecompressMessages DD dd (task_ids t) info -> n = zsum (GetPreparedDataSize info1) (task_ids t) ->
  heap_ok dd (<[task_Parent t := info_upd_sizes c (info_Decompressed info + n) 0 info1]> infos) evs (TaskDecompressed t n :: pend).
Proof.
  intros Hi H E1 En. set (i := task_Parent t) in *. assert (t ∈ holders infos (RunTask t :: pend)) as Ht by (rewrite holders_cons; left).
  destruct (h_task _ _ _ _ H t Ht) as (_ & _ & info0 & st & Hi0 & Hal & _ & _ & Hmsg & _). fold i in Hi0. rewrite Hi in Hi0. injection Hi0 as <-.
  destruct (DecompressMessages_spec DD dd (task_ids t) info Hmsg) as ((S1 & S2 & S3 & S4 & S5 & S6 & S7 & S8) & Hother & Hmine).
  rewrite <- E1 in *. clear E1. destruct (running_alone _ _ _ _ _ _ H eq_refl) as [Hev Hdn]. fold i in Hev, Hdn.
  assert (grows info info1) as Hg1.
  { unfold grows. split_and!; [done..|]. intros id Hd. destruct (decide (id ∈ task_ids t)) as [Hin|Hin]; [|by rewrite Hother].
    destruct (Hmine id Hin) as (d & -> & _). by eexists. }
  set (info' := info_upd_sizes _ _ _ _). assert (grows info info') as Hg by exact Hg1. pose proof Hi as Hlt. apply lookup_lt_Some in Hlt.
  assert (holders (<[i := info']> infos) (TaskDecompressed t n :: pend) = holders infos (RunTask t :: pend)) as Hh.
  { rewrite (holders_tasks infos); [done|]. eapply fmap_insert_same; [exact Hi|]. by apply Hg. }
  assert (forall id, id ∉ task_ids t -> GetPreparedDataSize info' id = GetPreparedDataSize info id) as Hprep
    by (intros id Hid; apply prepared_same; [apply Hg|by apply Hother]).
  split; rewrite ?Hh.
  - apply H.
  - intros j x' t' Hx' Ht'. destruct (grows_before _ _ _ _ _ _ Hi Hg Hx') as (x & Hx & (_ & _ & _ & E4 & _)). rewrite E4 in Ht'. by eapply H.
  - intros t' Ht'. destruct (h_task _ _ _ _ H t' Ht') as (H1 & H2 & x & st' & Hx & H3). split_and!; [done..|].
    destruct (grows_after _ _ _ _ _ _ Hi Hg Hx) as (x' & Hx' & (E1 & E2 & E3 & E4 & E5 & _)). exists x', st'. rewrite E1, E2, E3, E5. done.
  - apply H.
  - intros t' m [[= -> ->]|Ht']%elem_of_cons.
    + exists info'. rewrite list_lookup_insert_eq by done. split_and!; [done|done|]. intros id Hid. destruct (Hmine id Hid) as (d & Hd & _). by exists d.
    + destruct (h_done _ _ _ _ H t' m ltac:(by right)) as (x & Hx & H1 & H2). destruct (decide (i = task_Parent t')) as [E|Hne].
      * exists info'. rewrite <- E in *. rewrite list_lookup_insert_eq by done. rewrite Hi in Hx. injection Hx as <-. split_and!; [done| |].
        -- rewrite H1. apply zsum_ext. intros id Hid. rewrite Hprep; [done|]. by eapply Hdn.
        -- intros id Hid. by apply Hg, H2.
      * exists x. by rewrite list_lookup_insert_ne.
  - intros sid R N Hs. destruct (h_event _ _ _ _ H sid R N Hs) as [H1 H2].
    split; (eapply Forall_impl; [eassumption|]); intros d; by eapply grows_event_in.
  - apply H.
  - intros j x' id d Hx' Hd. destruct (insert_lookup_cases _ _ _ _ _ _ Hi Hx') as (w & Hw & [(<- & -> & ->)|(_ & ->)]); [|by eapply H].
    destruct (decide (id ∈ task_ids t)) as [Hin|Hin]; [destruct (Hmine id Hin) as (d' & Hd' & ?); cbn in Hd; congruence|].
    cbn in Hd. rewrite Hother in Hd by done. by eapply H.
  - intros j x' Hx'. destruct (insert_lookup_cases _ _ _ _ _ _ Hi Hx') as (w & Hw & Hor).
    assert (info_Decompressed x' = info_Decompressed w + if decide (i = j) then n else 0) as ->
      by (destruct Hor as [(<- & -> & ->)|(Hne & ->)]; [rewrite decide_True by done; done|rewrite decide_False by done; lia]).
    rewrite (h_held _ _ _ _ H j w Hw). unfold held. rewrite !zsum_cons, task_held. cbn [act_held]. fold i.
    replace (zsum (fun RN => zsum (counted (<[i := info']> infos) j) (RN.1 ++ RN.2)) evs) with (zsum (fun RN => zsum (counted infos j) (RN.1 ++ RN.2)) evs); [lia|].
    apply zsum_ext. intros RN HRN. apply zsum_ext. intros d Hd. unfold counted. rewrite (grows_state _ _ _ _ _ Hi Hg).
    destruct (decide _) as [[<- Hr]|]; [|done]. symmetry. eapply prepared_insert; [exact Hi|]. intros Hp. apply Hprep. by eapply Hev.
  - intros a j Ha Hj. assert (alive infos j) as (x & Hx & Hd).
    { apply elem_of_cons in Ha as [->|Ha]; [eapply (h_refs _ _ _ _ H (RunTask t)); [left|done]|eapply (h_refs _ _ _ _ H a); [by right|done]]. }
    destruct (grows_after _ _ _ _ _ _ Hi Hg Hx) as (x' & Hx' & (_ & _ & _ & _ & E5 & _)). exists x'. by rewrite E5.
  - intros j x' Hx' Hd. destruct (insert_lookup_cases _ _ _ _ _ _ Hi Hx') as (w & Hw & [(<- & -> & ->)|(_ & ->)]); [|by eapply H].
    cbn in Hd. rewrite S8 in Hd. congruence.
  - intros j x' Hx'. destruct (grows_before _ _ _ _ _ _ Hi Hg Hx') as (x & Hx & (_ & E2 & _)). rewrite E2. by eapply H.
Qed.

(** ** A task finishes *)

Lemma zsum_single {A} (f : A -> Z) l : forall k x, l !! k = Some x -> (forall j y, l !! j = Some y -> j <> k -> f y = 0) -> zsum f l = f x.
Proof.
  induction l as [|y l IH]; intros [|k] x Hk H; [done|done| |]; rewrite zsum_cons.
  - injection Hk as ->. rewrite zsum_zero; [lia|]. intros z [j Hj]%list_elem_of_lookup. by apply (H (S j) z).
  - rewrite (H 0%nat y) by done. rewrite (IH k x); [lia|done|]. intros j z Hj Hne. apply (H (S j) z); [done|lia].
Qed.

(** The event a task's state belongs to. *)
Definition key_event (t : TDecompressionTask) : TDataDecompressionEvent := mkDataEvent (0, 0)%nat (task_Parent t) (task_Ready t).

Lemma key_of_task t d : same_task (key_event t) d <-> of_task t d.
Proof. unfold same_task, of_task. cbn. split; intros [? ?]; by split. Qed.

Lemma set_other infos p k st (t : TDecompressionTask) info : task_key t <> (p, k) -> infos !! task_Parent t = Some info ->
  exists info', set_state p k st infos !! task_Parent t = Some info' /\ but_states info' = but_states info /\
    ReadyThresholds info' !! task_Ready t = ReadyThresholds info !! task_Ready t.
Proof.
  intros Hne Hi. rewrite lookup_set_state, Hi. destruct (decide (p = task_Parent t)) as [E|]; [|by exists info]. eexists. split; [done|]. cbn.
  unfold but_states. cbn. rewrite length_insert, list_lookup_insert_ne; [done|]. intros ->. by apply Hne; rewrite E.
Qed.

(** A state that is not [Ready] changes: what is left to show are the events of the task. *)
Lemma heap_set_state dd infos evs pend pend' p k st : heap_ok dd infos evs pend ->
  (forall t, t ∈ holders infos pend' -> t ∈ holders infos pend /\ task_key t <> (p, k)) -> holders infos pend' ⊆+ holders infos pend ->
  (forall t n, TaskDecompressed t n ∈ pend' -> TaskDecompressed t n ∈ pend) ->
  (forall sid R N, evs !! sid = Some (R, N) -> Forall (event_in (set_state p k st infos) sid true) R /\ Forall (event_in (set_state p k st infos) sid false) N) ->
  (forall i info, infos !! i = Some info -> info_Decompressed info = held (set_state p k st infos) evs pend' i) ->
  (forall a i, a ∈ pend' -> i ∈ action_infos a -> alive infos i) ->
  heap_ok dd (set_state p k st infos) evs pend'.
Proof.
  intros H Hin Hsub Hdone Hev Hheld Hrefs. pose proof (but_states_set p k st infos) as Hb.
  split; rewrite ?(but_tasks _ _ _ Hb).
  - eapply NoDup_map_submseteq; [exact Hsub|apply H].
  - intros i info t Hi Ht. destruct (but_lookup _ _ _ _ Hb Hi) as (info0 & Hi0 & E). unfold but_states in E. injection E as _ _ _ _ _ _ _ Et _ _ _.
    rewrite Et in Ht. by eapply H.
  - intros t Ht. destruct (Hin t Ht) as [Ht0 Hne]. destruct (h_task _ _ _ _ H t Ht0) as (H1 & H2 & info & st' & Hi & H3). split_and!; [done..|].
    destruct (set_other _ p k st _ _ Hne Hi) as (info' & Hi' & E & E'). exists info', st'. unfold but_states in E. injection E as E1 E2 _ _ _ _ _ _ _ _ E3.
    rewrite E1, E2, E3, E'. done.
  - intros t t' id Ht Ht'. apply H; by apply Hin.
  - intros t n Ht. destruct (h_done _ _ _ _ H t n (Hdone t n Ht)) as (info & Hi & H1 & H2).
    destruct (but_lookup _ _ _ _ (eq_sym Hb) Hi) as (info' & Hi' & E). unfold but_states in E. injection E as Em _ _ _ _ _ _ _ Ed _ _.
    exists info'. unfold GetPreparedDataSize in *. rewrite <- Em, <- Ed. done.
  - done.
  - intros RN d t HRN Hd Ht. apply (h_event_task _ _ _ _ H RN); [done..|by apply Hin].
  - intros i info id d Hi. destruct (but_lookup _ _ _ _ Hb Hi) as (info0 & Hi0 & E). unfold but_states in E. injection E as _ _ _ _ _ _ _ _ -> _ _. by eapply H.
  - intros i info Hi. destruct (but_lookup _ _ _ _ Hb Hi) as (info0 & Hi0 & E). unfold but_states in E. injection E as _ _ _ _ _ -> _ _ _ _ _. auto.
  - intros a i Ha Hi. destruct (Hrefs a i Ha Hi) as (info & Hx & Hd). destruct (but_lookup _ _ _ _ (eq_sym Hb) Hx) as (info' & Hi' & E).
    unfold but_states in E. injection E as _ _ _ _ _ _ _ _ _ _ E. exists info'. by rewrite <- E.
  - intros i info Hi. destruct (but_lookup _ _ _ _ Hb Hi) as (info0 & Hi0 & E). unfold but_states in E. injection E as _ _ _ E1 E2 E3 _ E4 _ _ ->.
    rewrite E1, E2, E3, E4. by eapply H.
  - intros i info Hi. destruct (but_lookup _ _ _ _ Hb Hi) as (info0 & Hi0 & E). unfold but_states in E. injection E as _ -> _ _ _ _ _ _ _ _ _.
    by eapply H.
Qed.

Lemma task_holder infos t n pend : t ∈ holders infos (TaskDecompressed t n :: pend).
Proof. rewrite holders_cons. left. Qed.

(** The events of a task in process wait in the queue of its stream. *)
Lemma task_events dd infos evs t n pend info sid R N d : heap_ok dd infos evs (TaskDecompressed t n :: pend) ->
  infos !! task_Parent t = Some info -> ReadyThresholds info !! task_Ready t = Some InProcess -> evs !! sid = Some (R, N) -> d ∈ R ++ N -> of_task t d ->
  sid = PartitionStream info /\ d ∈ N /\ ev_Message d ∈ task_ids t.
Proof.
  intros H Hi Hst Hs Hd Ho. destruct (h_event _ _ _ _ H sid R N Hs) as [HeR HeN]. rewrite Forall_forall in HeR, HeN.
  pose proof (of_task_state _ _ _ _ _ Hi Hst Ho) as Hsd. apply elem_of_app in Hd as [Hd|Hd].
  { destruct (event_in_state _ _ _ _ (HeR d Hd)) as [?|[_ ?]]; congruence. }
  destruct (HeN d Hd) as (info' & st & Hi' & _ & Hp & _). pose proof Ho as [E _]. rewrite E, Hi in Hi'. injection Hi' as <-.
  split_and!; [done|done|]. destruct (h_task _ _ _ _ H t (task_holder _ _ _ _)) as (_ & _ & x & st' & Hx & _ & Hst' & _ & _ & Hf).
  rewrite Hi in Hx. injection Hx as <-. rewrite Hst in Hst'. injection Hst' as <-. destruct (Hf eq_refl) as (RN & HRN & <-).
  rewrite Hp, Hs in HRN. injection HRN as <-. apply list_elem_of_fmap_2. by apply list_elem_of_filter.
Qed.

Lemma task_valid infos t info st : infos !! task_Parent t = Some info -> ReadyThresholds info !! task_Ready t = Some st -> valid_event infos (key_event t).
Proof. intros Hi Hs. exists info. split; [done|]. by eexists. Qed.

Lemma state_of_task infos t info st0 st d : infos !! task_Parent t = Some info -> ReadyThresholds info !! task_Ready t = Some st0 ->
  state_of (set_state (task_Parent t) (task_Ready t) st infos) d = if decide (of_task t d) then st else state_of infos d.
Proof.
  intros Hi Hst. pose proof (state_of_set (key_event t) st infos d (task_valid _ _ _ _ Hi Hst)) as E. cbn [ev_Parent ev_State key_event] in E. rewrite E.
  repeat case_decide; rewrite key_of_task in *; tauto.
Qed.

(** What becomes ready holds the memory the task used. *)
Lemma held_finish dd infos evs t n pend info i : heap_ok dd infos evs (TaskDecompressed t n :: pend) ->
  infos !! task_Parent t = Some info -> ReadyThresholds info !! task_Ready t = Some InProcess ->
  held (set_state (task_Parent t) (task_Ready t) Ready infos) evs pend i = held infos evs (TaskDecompressed t n :: pend) i.
Proof.
  intros H Hi Hst. set (g := fun d => if decide (of_task t d /\ task_Parent t = i) then prepared_size infos d else 0).
  assert (forall d, counted (set_state (task_Parent t) (task_Ready t) Ready infos) i d = counted infos i d + g d) as Hc.
  { intros d. unfold counted, g. rewrite (prepared_size_but _ infos) by apply but_states_set.
    rewrite (state_of_task _ _ _ _ Ready d Hi Hst). destruct (decide (of_task t d)) as [Hs|Hs].
    - assert (state_of infos d = InProcess) as Hp by (by eapply of_task_state). pose proof Hs as [E _]. rewrite Hp, <- E.
      rewrite (decide_False (P := _ /\ InProcess = Ready)) by (intros [_ ?]; done). repeat case_decide; tauto.
    - rewrite (decide_False (P := of_task t d /\ _)) by tauto. lia. }
  unfold held. rewrite zsum_cons, task_held.
  replace (zsum _ evs) with (zsum (fun RN => zsum (counted infos i) (RN.1 ++ RN.2)) evs + zsum (fun RN => zsum g (RN.1 ++ RN.2)) evs);
    [|rewrite <- zsum_plus; apply zsum_ext; intros RN _; rewrite <- zsum_plus; apply zsum_ext; intros d _; by rewrite Hc].
  enough (zsum (fun RN => zsum g (RN.1 ++ RN.2)) evs = if decide (task_Parent t = i) then n else 0) by lia.
  destruct (h_task _ _ _ _ H t (task_holder _ _ _ _)) as (_ & _ & x & st & Hx & _ & Hst' & _ & _ & Hf).
  rewrite Hi in Hx. injection Hx as <-. rewrite Hst in Hst'. injection Hst' as <-. destruct (Hf eq_refl) as ([R N] & HRN & Hids).
  rewrite (zsum_single _ evs (PartitionStream info) (R, N) HRN).
  - cbn [fst snd] in *. rewrite zsum_app, (zsum_zero g R).
    + unfold g. destruct (decide (task_Parent t = i)) as [->|Hne].
      * destruct (h_done _ _ _ _ H t n ltac:(left)) as (x & Hx & -> & _). rewrite Hi in Hx. injection Hx as <-.
        rewrite <- Hids, zsum_map, zsum_filter. cbn. apply zsum_ext. intros d _. unfold prepared_size.
        destruct (decide (of_task t d)) as [Ho|Ho]; [rewrite decide_True by tauto|by rewrite decide_False by tauto]. pose proof Ho as [-> _]. by rewrite Hi.
      * rewrite zsum_zero; [lia|]. intros d _. by rewrite decide_False by tauto.
    + intros d Hd. unfold g. rewrite decide_False; [done|]. intros [Ho _].
      destruct (h_event _ _ _ _ H _ R N HRN) as [HeR _]. rewrite Forall_forall in HeR.
      destruct (event_in_state _ _ _ _ (HeR d Hd)) as [E|[_ ?]]; [|done]. rewrite (of_task_state _ _ _ _ _ Hi Hst Ho) in E. done.
  - intros j [R' N'] Hj Hne. apply zsum_zero. cbn [fst snd]. intros d Hd. unfold g. rewrite decide_False; [done|]. intros [Ho _].
    destruct (task_events _ _ _ _ _ _ _ _ _ _ _ H Hi Hst Hj Hd Ho) as [-> _]. done.
Qed.

Lemma heap_finish dd infos evs t n pend info : heap_ok dd infos evs (TaskDecompressed t n :: pend) ->
  infos !! task_Parent t = Some info -> ReadyThresholds info !! task_Ready t = Some InProcess ->
  heap_ok dd (set_state (task_Parent t) (task_Ready t) Ready infos) evs pend.
Proof.
  intros H Hi Hst. eapply heap_set_state; [exact H| | | | | |].
  - intros t' Ht'. split; [rewrite holders_cons, elem_of_app; by right|]. change (task_key t' <> task_key t). by eapply head_alone; [apply H|done|].
  - rewrite holders_cons. by apply submseteq_inserts_l.
  - intros t' m ?. by right.
  - intros sid R N Hs. pose proof (h_event _ _ _ _ H sid R N Hs) as [HeR HeN]. rewrite !Forall_forall in *.
    assert (forall d g, d ∈ R ++ N -> event_in infos sid g d -> event_in (set_state (task_Parent t) (task_Ready t) Ready infos) sid g d) as Hall.
    { intros d g Hd He. destruct (decide (of_task t d)) as [Ho|Ho].
      - destruct (task_events _ _ _ _ _ _ _ _ _ _ _ H Hi Hst Hs Hd Ho) as (-> & _ & Hm).
        destruct (h_done _ _ _ _ H t n ltac:(left)) as (x & Hx & _ & Hdata). rewrite Hi in Hx. injection Hx as <-.
        destruct He as (x & ? & Hx & Hdes & _). pose proof Ho as [E1 E2]. rewrite E1, Hi in Hx. injection Hx as <-.
        eexists _, Ready. rewrite E1, E2, lookup_set_state, decide_True, Hi by done. cbn. split_and!; [done..| |right; auto].
        apply list_lookup_insert_eq. by eapply lookup_lt_Some.
      - eapply event_in_but; [apply but_states_set| |exact He]. rewrite (state_of_task _ _ _ _ Ready d Hi Hst). by rewrite decide_False. }
    split; intros d Hd; apply Hall; rewrite ?elem_of_app; auto.
  - intros i x Hx. rewrite (held_finish _ _ _ _ _ _ _ _ H Hi Hst). by eapply H.
  - intros a i Ha. apply H. by right.
Qed.

(** A task whose events were given up is over. *)
Lemma heap_abandoned dd infos evs pend t info : heap_ok dd infos evs pend ->
  (forall t', t' ∈ holders infos pend -> task_key t' <> task_key t) ->
  infos !! task_Parent t = Some info -> ReadyThresholds info !! task_Ready t = Some Cleanup ->
  heap_ok dd (set_state (task_Parent t) (task_Ready t) Abandoned infos) evs pend.
Proof.
  intros H Hno Hi Hst. pose proof (fun d => state_of_task _ _ _ _ Abandoned d Hi Hst) as Hso.
  eapply heap_set_state; [exact H| |done|done| | |apply H].
  - intros t' Ht'. split; [done|by apply Hno].
  - intros sid R N Hs. pose proof (h_event _ _ _ _ H sid R N Hs) as [HeR HeN].
    split; (eapply Forall_impl; [eassumption|]); intros d Hd; (eapply event_in_but; [apply but_states_set| |exact Hd]);
      rewrite Hso, decide_False; try done; intros Ho; pose proof (of_task_state _ _ _ _ _ Hi Hst Ho); destruct (event_in_state _ _ _ _ Hd) as [?|[? _]]; congruence.
  - intros i x Hx. rewrite (h_held _ _ _ _ H i x Hx). symmetry. apply held_ext; [|done]. intros d. apply counted_but; [apply but_states_set|].
    rewrite Hso. case_decide as Ho; [|done]. rewrite (of_task_state _ _ _ _ _ Hi Hst Ho). done.
Qed.

(** ** New infos and streams *)

Lemma acc_at_none i acc : i ∉ map fst acc -> acc_at i acc = 0.
Proof. intros H. apply zsum_zero. intros [j n] Hj. cbn. rewrite decide_False; [done|]. intros <-. apply H. change j with (j, n).1. by apply list_elem_of_fmap_2. Qed.

Lemma act_held_none i a : i ∉ action_infos a -> act_held i a = 0.
Proof.
  destruct a; cbn [act_held action_infos]; intros H; try done; [..|by apply acc_at_none]; rewrite decide_False; try done; intros <-; apply H; left.
Qed.

Lemma state_of_snoc infos info d x : infos !! ev_Parent d = Some x -> state_of (infos ++ [info]) d = state_of infos d.
Proof. intros Hx. unfold state_of. by rewrite (lookup_app_l_Some _ _ _ _ Hx), Hx. Qed.

(** What is held of an info that no event and no action refers to. *)
Lemma held_none infos evs pend i : (forall RN d, RN ∈ evs -> d ∈ RN.1 ++ RN.2 -> ev_Parent d <> i) -> (forall a, a ∈ pend -> i ∉ action_infos a) ->
  held infos evs pend i = 0.
Proof.
  intros He Ha. unfold held. rewrite (zsum_zero (act_held i)) by (intros a Hin; by apply act_held_none, Ha).
  rewrite zsum_zero; [done|]. intros RN HRN. apply zsum_zero. intros d Hd. unfold counted. rewrite decide_False; [done|]. intros [E _]. by eapply He.
Qed.

Lemma event_parent dd infos evs pend RN d : heap_ok dd infos evs pend -> RN ∈ evs -> d ∈ RN.1 ++ RN.2 ->
  exists info, infos !! ev_Parent d = Some info /\ Destroyed info = false /\ is_Some (ReadyThresholds info !! ev_State d).
Proof.
  intros H [sid Hs]%list_elem_of_lookup Hd. destruct RN as [R N]. destruct (h_event _ _ _ _ H sid R N Hs) as [HeR HeN]. rewrite Forall_forall in HeR, HeN.
  apply elem_of_app in Hd as [Hd|Hd]; [apply HeR in Hd|apply HeN in Hd]; destruct Hd as (info & st & Hi & Hdes & _ & Hst & _); exists info; split_and!; [done..|by eexists|done|done|by eexists].
Qed.

Lemma lookup_snoc {A} (l : list A) x i y : (l ++ [x]) !! i = Some y -> l !! i = Some y \/ (i = length l /\ y = x).
Proof. intros [H|[H1 H2]]%lookup_app_Some; [by left|right]. apply list_lookup_singleton_Some in H2 as [? ->]. split; [lia|done]. Qed.

Lemma event_in_snoc infos info sid given d : event_in infos sid given d -> event_in (infos ++ [info]) sid given d.
Proof. intros (x & st & Hx & H). exists x, st. split; [by apply lookup_app_l_Some|done]. Qed.

Lemma counted_snoc infos info i d x : infos !! ev_Parent d = Some x -> counted (infos ++ [info]) i d = counted infos i d.
Proof. intros Hx. unfold counted. rewrite (state_of_snoc _ _ _ _ Hx). unfold prepared_size. by rewrite (lookup_app_l_Some _ _ _ _ Hx), Hx. Qed.

Lemma heap_new_info dd infos evs pend info : heap_ok dd infos evs pend -> Tasks info = [] -> info_Decompressed info = 0 -> DecompressedData info = ∅ ->
  Destroyed info = false -> (PartitionStream info < length evs)%nat -> heap_ok dd (infos ++ [info]) evs pend.
Proof.
  intros H Ht Hd Hdata Hdes Hp. assert (holders (infos ++ [info]) pend = holders infos pend) as Hh.
  { unfold holders. rewrite map_app, concat_app. cbn. by rewrite Ht, !app_nil_r. }
  assert (forall i, held (infos ++ [info]) evs pend i = held infos evs pend i) as Hheld.
  { intros i. unfold held. f_equal. apply zsum_ext. intros RN HRN. apply zsum_ext. intros d Hin.
    destruct (event_parent _ _ _ _ _ _ H HRN Hin) as (x & Hx & _). by eapply counted_snoc. }
  split; rewrite ?Hh; try by apply H.
  - intros i x t [Hx|[-> ->]]%lookup_snoc; [by eapply H|]. by rewrite Ht, elem_of_nil.
  - intros t Hin. destruct (h_task _ _ _ _ H t Hin) as (H1 & H2 & x & st & Hx & H3). split_and!; [done..|]. exists x, st. split; [by apply lookup_app_l_Some|done].
  - intros t n Hin. destruct (h_done _ _ _ _ H t n Hin) as (x & Hx & H3). exists x. split; [by apply lookup_app_l_Some|done].
  - intros sid R N Hs. destruct (h_event _ _ _ _ H sid R N Hs) as [H1 H2]. split; (eapply Forall_impl; [eassumption|]); intros d; apply event_in_snoc.
  - intros i x id d [Hx|[-> ->]]%lookup_snoc; [by eapply H|]. by rewrite Hdata, lookup_empty.
  - intros i x [Hx|[-> ->]]%lookup_snoc; rewrite Hheld; [by eapply H|]. rewrite Hd. symmetry. apply held_none.
    + intros RN d HRN Hin. destruct (event_parent _ _ _ _ _ _ H HRN Hin) as (x & Hx%lookup_lt_Some & _). lia.
    + intros a Ha Hin. destruct (h_refs _ _ _ _ H a _ Ha Hin) as (x & Hx%lookup_lt_Some & _). lia.
  - intros a i Ha Hi. destruct (h_refs _ _ _ _ H a i Ha Hi) as (x & Hx & ?). exists x. split; [by apply lookup_app_l_Some|done].
  - intros i x [Hx|[-> ->]]%lookup_snoc; [by eapply H|]. congruence.
  - intros i x [Hx|[-> ->]]%lookup_snoc; [by eapply H|done].
Qed.

Lemma heap_new_stream dd infos evs pend : heap_ok dd infos evs pend -> heap_ok dd infos (evs ++ [([], [])]) pend.
Proof.
  intros H. split; try by apply H.
  - intros t Ht. destruct (h_task _ _ _ _ H t Ht) as (H1 & H2 & x & st & Hx & H3 & H4 & H5 & H6 & H7). split_and!; [done..|]. exists x, st. split_and!; [done..|].
    intros Hst. destruct (H7 Hst) as (RN & HRN & ?). exists RN. split; [by apply lookup_app_l_Some|done].
  - intros sid R N [Hs|[-> [= -> ->]]]%lookup_snoc; [by apply H|done].
  - intros RN d t [HRN| ->%list_elem_of_singleton]%elem_of_app Hd; [by eapply H|]. by apply elem_of_nil in Hd.
  - intros i x Hx. rewrite (h_held _ _ _ _ H i x Hx). unfold held. rewrite zsum_app, zsum_cons, zsum_nil. cbn [fst snd app]. rewrite zsum_nil. lia.
  - intros i x Hx. rewrite length_app. apply (h_stream _ _ _ _ H) in Hx. lia.
Qed.

(** An info nobody refers to is destroyed. *)
Lemma heap_destroy dd infos evs pend i info : heap_ok dd infos evs pend -> infos !! i = Some info -> Tasks info = [] ->
  (forall RN d, RN ∈ evs -> d ∈ RN.1 ++ RN.2 -> ev_Parent d <> i) -> (forall a, a ∈ pend -> i ∉ action_infos a) ->
  let info' := mkInfo (ServerMessage info) (PartitionStream info) (CommittedOffset info) 0 0 0
    (ReadyThresholds info) (Tasks info) (DecompressedData info) (DecompressionErrors info) true in
  info_Decompressed info = 0 /\ heap_ok dd (<[i := info']> infos) evs pend.
Proof.
  intros H Hi Ht He Ha info'. assert (info_Decompressed info = 0) as HD by (rewrite (h_held _ _ _ _ H i info Hi); by apply held_none).
  split; [done|]. assert (view <$> <[i := info']> infos = view <$> infos) as Hv by (by eapply fmap_insert_same).
  assert (forall j x, j <> i -> infos !! j = Some x -> <[i := info']> infos !! j = Some x) as Hkeep by (intros j x Hne Hj; by rewrite list_lookup_insert_ne).
  assert (holders (<[i := info']> infos) pend = holders infos pend) as Hh by (apply holders_tasks; by eapply fmap_insert_same).
  assert (forall t, t ∈ holders infos pend -> task_Parent t <> i) as Hnt.
  { intros t [Hin|Hin]%elem_of_app E.
    - apply list_elem_of_In, in_concat in Hin as (l & (x & <- & Hx)%in_map_iff & Hl%list_elem_of_In). apply list_elem_of_In, list_elem_of_lookup in Hx as [j Hj].
      rewrite (h_own _ _ _ _ H j x t Hj Hl) in E. subst j. rewrite Hi in Hj. injection Hj as <-. rewrite Ht in Hl. by apply elem_of_nil in Hl.
    - apply list_elem_of_In, in_concat in Hin as (l & (a & <- & Hx%list_elem_of_In)%in_map_iff & Hl%list_elem_of_In). apply (Ha a Hx).
      destruct a; cbn in Hl |- *; try (by apply elem_of_nil in Hl); apply list_elem_of_singleton in Hl as <-; rewrite E; left. }
  split; rewrite ?Hh; try by apply H.
  - intros j x t Hj Hin. destruct (insert_lookup_cases _ _ _ _ _ _ Hi Hj) as (w & Hw & [(<- & -> & ->)|(_ & ->)]); by eapply (h_own _ _ _ _ H).
  - intros t Hin. destruct (h_task _ _ _ _ H t Hin) as (H1 & H2 & x & st & Hx & H3). split_and!; [done..|]. exists x, st. split; [apply Hkeep; [by apply Hnt|done]|done].
  - intros t n Hin. destruct (h_done _ _ _ _ H t n Hin) as (x & Hx & H3). exists x. split; [|done]. apply Hkeep; [|done].
    intros E. apply (Ha _ Hin). rewrite <- E. left.
  - intros sid R N Hs. destruct (h_event _ _ _ _ H sid R N Hs) as [H1 H2]. apply list_elem_of_lookup_2 in Hs.
    split; apply Forall_forall; intros d Hd; [rewrite Forall_forall in H1; destruct (H1 d Hd) as (x & st & Hx & ?)|rewrite Forall_forall in H2; destruct (H2 d Hd) as (x & st & Hx & ?)];
      exists x, st; (split; [apply Hkeep; [apply (He _ _ Hs); cbn; rewrite elem_of_app; auto|done]|done]).
  - intros j x id d Hj Hd. destruct (insert_lookup_cases _ _ _ _ _ _ Hi Hj) as (w & Hw & [(<- & -> & ->)|(_ & ->)]); by eapply (h_data _ _ _ _ H).
  - intros j x Hj. rewrite (held_ext infos _ evs pend pend) by (done || intros d; by apply counted_view).
    destruct (insert_lookup_cases _ _ _ _ _ _ Hi Hj) as (w & Hw & [(<- & -> & ->)|(_ & ->)]); [rewrite <- (h_held _ _ _ _ H i info Hi); done|by apply H].
  - intros a j Hin Hj. destruct (h_refs _ _ _ _ H a j Hin Hj) as (x & Hx & ?). exists x. split; [|done]. apply Hkeep; [|done]. intros ->. by apply (Ha a).
  - intros j x Hj. destruct (insert_lookup_cases _ _ _ _ _ _ Hi Hj) as (w & Hw & [(<- & -> & ->)|(_ & ->)]); [done|by eapply H].
  - intros j x Hj. destruct (insert_lookup_cases _ _ _ _ _ _ Hi Hj) as (w & Hw & [(<- & -> & ->)|(_ & ->)]); exact (h_stream _ _ _ _ H _ _ Hw).
Qed.

(** ** Planning the tasks of a new info *)

Lemma elem_of_message_at batches id : id ∈ message_ids batches -> is_Some (message_at batches id).
Proof.
  intros Hid. unfold message_ids in Hid. apply list_elem_of_In, in_concat in Hid as (l & Hl%list_elem_of_In & Hin%list_elem_of_In).
  apply elem_of_lookup_imap in Hl as (b & batch & -> & Hb). apply list_elem_of_fmap in Hin as (k & -> & [_ Hk]%elem_of_seq).
  unfold message_at. cbn. rewrite Hb. destruct (lookup_lt_is_Some_2 (message_data batch) k ltac:(lia)) as [m ->]. by eexists.
Qed.

Lemma filter_agree {A} (P Q : A -> Prop) `{!forall x, Decision (P x), !forall x, Decision (Q x)} (l : list A) :
  (forall x, x ∈ l -> P x <-> Q x) -> filter P l = filter Q l.
Proof.
  induction l as [|x l IH]; intros Hpq; [done|]. rewrite !filter_cons, IH by (intros y Hy; apply Hpq; by right).
  destruct (decide (P x)) as [HP|HP]; [rewrite decide_True by (apply Hpq; [left|done]); done|rewrite decide_False; [done|]].
  intros HQ. apply HP, Hpq; [left|done].
Qed.

Lemma plan_keys i tasks : map task_Ready tasks = seq 0 (length tasks) -> Forall (fun t => task_Parent t = i) tasks -> NoDup (map task_key tasks).
Proof.
  intros Hr Hp. assert (map task_key tasks = map (pair i) (map task_Ready tasks)) as ->.
  { rewrite map_map. apply map_ext_in. intros t Ht%list_elem_of_In. rewrite Forall_forall in Hp. unfold task_key. by rewrite Hp. }
  rewrite Hr. apply (NoDup_fmap_2 (pair i)). apply NoDup_seq.
Qed.

Definition planned_info (info : TDataDecompressionInfo) (n : nat) (tasks : list TDecompressionTask) : TDataDecompressionInfo :=
  mkInfo (ServerMessage info) (PartitionStream info) (CommittedOffset info) (ServerBytesSize info)
    (info_Compressed info) (info_Decompressed info) (replicate n InProcess) tasks
    (DecompressedData info) (DecompressionErrors info) (Destroyed info).

(** An info without thresholds has no tasks and no events. *)
Lemma unplanned dd infos evs pend i info : heap_ok dd infos evs pend -> infos !! i = Some info -> ReadyThresholds info = [] ->
  (forall t, t ∈ holders infos pend -> task_Parent t <> i) /\ (forall RN d, RN ∈ evs -> d ∈ RN.1 ++ RN.2 -> ev_Parent d <> i) /\ Tasks info = [].
Proof.
  intros H Hi Hn. assert (forall t, t ∈ holders infos pend -> task_Parent t <> i) as Hnt.
  { intros t Ht E. destruct (h_task _ _ _ _ H t Ht) as (_ & _ & x & st & Hx & _ & Hst & _). rewrite E, Hi in Hx. injection Hx as <-. by rewrite Hn in Hst. }
  split_and!; [done| |].
  - intros RN d HRN Hd E. destruct (event_parent _ _ _ _ _ _ H HRN Hd) as (x & Hx & _ & [? Hst]). rewrite E, Hi in Hx. injection Hx as <-. by rewrite Hn in Hst.
  - destruct (Tasks info) as [|t l] eqn:E; [done|]. exfalso. assert (t ∈ Tasks info) as Hin by (rewrite E; left).
    apply (Hnt t); [|by eapply H]. unfold holders. rewrite elem_of_app. left. apply list_elem_of_In, in_concat. exists (Tasks info).
    split; [|by apply list_elem_of_In]. apply in_map, list_elem_of_In. by eapply list_elem_of_lookup_2.
Qed.

Lemma planned_event (infos : list TDataDecompressionInfo) i info n tasks d : infos !! i = Some info -> ev_Parent d = i -> (ev_State d < n)%nat ->
  state_of (<[i := planned_info info n tasks]> infos) d = InProcess /\
  (Destroyed info = false -> event_in (<[i := planned_info info n tasks]> infos) (PartitionStream info) false d).
Proof.
  intros Hi Hp Hlt. unfold state_of, event_in. rewrite Hp, list_lookup_insert_eq by (by eapply lookup_lt_Some). cbn.
  rewrite lookup_replicate_2 by done. split; [done|]. intros Hd. eexists _, InProcess. split_and!; [done..| |by left]. cbn. by rewrite lookup_replicate_2.
Qed.

Lemma heap_plan dd (infos : list TDataDecompressionInfo) evs pend i info ratio tasks n events R N : heap_ok dd infos evs pend -> infos !! i = Some info ->
  Destroyed info = false -> ReadyThresholds info = [] ->
  PlanDecompressionTasks ratio (ServerMessage info) i = Ok (tasks, n, events) -> evs !! PartitionStream info = Some (R, N) ->
  heap_ok dd (<[i := planned_info info n tasks]> infos) (<[PartitionStream info := (R, N ++ events)]> evs) pend.
Proof.
  intros H Hi Hal Hno Hplan Hs. destruct (unplanned _ _ _ _ _ _ H Hi Hno) as (Hnt & Hne & Ht0).
  destruct (Plan_spec _ _ _ _ _ _ Hplan) as (Hids & Hpar & Hready & Hn & Htasks & Htids & Htev). rewrite Forall_forall in Hpar. rewrite Forall_forall in Htasks.
  set (infos' := <[i := _]> infos). assert (forall j x, j <> i -> infos !! j = Some x -> infos' !! j = Some x) as Hkeep by (intros j x Hj Hx; unfold infos'; by rewrite list_lookup_insert_ne).
  assert (infos' !! i = Some (planned_info info n tasks)) as Hi' by (apply list_lookup_insert_eq; by eapply lookup_lt_Some).
  assert (holders infos' pend ≡ₚ tasks ++ holders infos pend) as Hh.
  { pose proof (holders_alter (fun _ => planned_info info n tasks) i info infos pend Hi) as Hp. rewrite (list_alter_insert _ _ _ _ Hi), Ht0 in Hp. exact Hp. }
  assert (forall t, t ∈ holders infos' pend -> (t ∈ tasks /\ task_Parent t = i) \/ (t ∈ holders infos pend /\ task_Parent t <> i)) as Hcase.
  { intros t Ht. rewrite Hh in Ht. apply elem_of_app in Ht as [Ht|Ht]; [left|right]; (split; [done|]); [by apply Htasks|by apply Hnt]. }
  assert (forall d j, ev_Parent d <> i -> counted infos' j d = counted infos j d) as Hcnt
    by (intros d j Hd; unfold counted, state_of, prepared_size, infos'; by rewrite list_lookup_insert_ne).
  assert (forall d sid g, ev_Parent d <> i -> event_in infos sid g d -> event_in infos' sid g d) as Hein
    by (intros d sid g Hd (x & st & Hx & ?); exists x, st; split; [by apply Hkeep|done]).
  assert (PartitionStream info < length evs)%nat as Hlen by (by eapply lookup_lt_Some).
  assert (forall d, d ∈ R ++ N -> ev_Parent d <> i) as HneRN by (intros d Hd; eapply (Hne (R, N)); [by eapply list_elem_of_lookup_2|done]).
  assert (forall sid RN d, evs !! sid = Some RN -> d ∈ RN.1 ++ RN.2 -> ev_Parent d <> i) as Hne' by (intros sid RN d HRN Hd; eapply Hne; [by eapply list_elem_of_lookup_2|done]).
  split.
  - rewrite Hh, map_app. apply NoDup_app. split_and!; [by apply (plan_keys i); [|apply Forall_forall; intros t Ht; by apply Htasks]| |apply H].
    intros k (t & -> & Ht)%list_elem_of_fmap (t' & E & Ht')%list_elem_of_fmap. apply (Hnt t' Ht'). unfold task_key in E. injection E as <- _. by apply Htasks.
  - intros j x t Hx Hin. destruct (insert_lookup_cases _ _ _ _ _ _ Hi Hx) as (w & Hw & [(<- & -> & ->)|(_ & ->)]); [by apply Htasks|by eapply H].
  - intros t [[Ht Hp]|[Ht Hp]]%Hcase.
    + destruct (Htasks t Ht) as (_ & H1 & H2). split_and!; [done..|]. exists (planned_info info n tasks), InProcess. rewrite Hp. cbn. split_and!; [done..| |by left| |].
      * rewrite lookup_replicate_2; [done|]. assert (task_Ready t ∈ seq 0 n) as [_ ?]%elem_of_seq; [|lia]. rewrite Hn, <- Hready. by apply list_elem_of_fmap_2.
      * intros id Hid. rewrite <- (Htids t Ht) in Hid. apply list_elem_of_fmap in Hid as (d & -> & [_ Hd]%list_elem_of_filter).
        apply elem_of_message_at. rewrite <- Hids. by apply list_elem_of_fmap_2.
      * intros _. exists (R, N ++ events). rewrite list_lookup_insert_eq by done. split; [done|]. cbn. rewrite filter_app, (filter_none _ N).
        -- cbn. rewrite <- (Htids t Ht). f_equal. apply filter_agree. intros d Hd. unfold of_task. rewrite Hp. destruct (Hpar d Hd). tauto.
        -- intros d Hd [E _]. apply (HneRN d); [rewrite elem_of_app; by right|]. by rewrite E.
    + destruct (h_task _ _ _ _ H t Ht) as (H1 & H2 & x & st & Hx & H3 & H4 & H5 & H6 & H7). split_and!; [done..|]. exists x, st. split_and!; [by apply Hkeep|done..|].
      intros Hst. destruct (H7 Hst) as (RN & HRN & Hf). destruct (decide (PartitionStream info = PartitionStream x)) as [E|E]; [|exists RN; by rewrite list_lookup_insert_ne].
      rewrite <- E in *. rewrite Hs in HRN. injection HRN as <-. exists (R, N ++ events). rewrite list_lookup_insert_eq by done. split; [done|]. cbn in *.
      rewrite filter_app, (filter_none _ events), app_nil_r; [done|]. intros d Hd [E' _]. apply Hp. rewrite <- E'. by apply Hpar.
  - intros t t' id [[Ht Hp]|[Ht Hp]]%Hcase [[Ht' Hp']|[Ht' Hp']]%Hcase E Hid Hid'; [|congruence..|by eapply H].
    rewrite <- (Htids t Ht) in Hid. apply list_elem_of_fmap in Hid as (d & -> & [Hst Hd]%list_elem_of_filter). rewrite <- Hst. by apply (Htev t' d).
  - intros t m Hin. destruct (h_done _ _ _ _ H t m Hin) as (x & Hx & ?). exists x. split; [|done]. apply Hkeep; [|done]. apply Hnt.
    unfold holders. rewrite elem_of_app. right. apply list_elem_of_In, in_concat. exists [t]. split; [|by left]. apply in_map_iff. exists (TaskDecompressed t m). split; [done|by apply list_elem_of_In].
  - intros sid R0 N0 [[<- [= -> ->]]|[Hsid Hl]]%insert_cases.
    + destruct (h_event _ _ _ _ H _ R N Hs) as [H1 H2]. rewrite !Forall_forall in *. split; [intros d Hd; apply Hein; [apply HneRN; rewrite elem_of_app; by left|auto]|].
      intros d [Hd|Hd]%elem_of_app; [apply Hein; [apply HneRN; rewrite elem_of_app; by right|auto]|]. destruct (Hpar d Hd) as [? ?]. by eapply planned_event.
    + destruct (h_event _ _ _ _ H sid R0 N0 Hl) as [H1 H2]. rewrite !Forall_forall in *.
      split; intros d Hd; (apply Hein; [eapply (Hne' _ _ _ Hl); cbn; rewrite elem_of_app; auto|auto]).
  - intros RN d t [j HRN]%list_elem_of_lookup Hd Ht E Hm. apply Hcase in Ht. apply insert_cases in HRN as [[<- ->]|[_ HRN]].
    + cbn in Hd. rewrite app_assoc in Hd. apply elem_of_app in Hd as [Hd|Hd].
      * destruct Ht as [[Ht Hp]|[Ht Hp]]; [exfalso; apply (HneRN d Hd); congruence|]. eapply (h_event_task _ _ _ _ H (R, N)); [by eapply list_elem_of_lookup_2|done..].
      * destruct Ht as [[Ht Hp]|[Ht Hp]]; [by apply (Htev t d)|exfalso; apply Hp; rewrite <- E; by apply Hpar].
    + destruct Ht as [[Ht Hp]|[Ht Hp]]; [exfalso; apply (Hne' _ _ _ HRN Hd); congruence|]. eapply (h_event_task _ _ _ _ H RN); [by eapply list_elem_of_lookup_2|done..].
  - intros j x id d Hx Hd. destruct (insert_lookup_cases _ _ _ _ _ _ Hi Hx) as (w & Hw & [(<- & -> & ->)|(_ & ->)]); by eapply (h_data _ _ _ _ H).
  - intros j x Hx. assert (info_Decompressed x = held infos evs pend j) as ->.
    { destruct (insert_lookup_cases _ _ _ _ _ _ Hi Hx) as (w & Hw & [(<- & -> & ->)|(_ & ->)]); [exact (h_held _ _ _ _ H _ _ Hi)|by apply H]. }
    rewrite (held_insert infos' evs pend pend j _ R N R (N ++ events) Hs), !zsum_app, (zsum_zero (counted infos' j) events).
    + assert (held infos' evs pend j = held infos evs pend j) as ->; [|lia]. unfold held. f_equal. apply zsum_ext. intros RN HRN. apply zsum_ext. intros d Hd. apply Hcnt. by eapply Hne.
    + intros d Hd. destruct (Hpar d Hd) as [E1 E2]. unfold counted, infos'. rewrite decide_False; [done|]. intros [_ Hr]. destruct (planned_event infos i info n tasks d Hi E1 E2) as [E _]. congruence.
  - intros a j Ha Hj. destruct (h_refs _ _ _ _ H a j Ha Hj) as (x & Hx & Hd). destruct (decide (j = i)) as [->|Hj']; [by exists (planned_info info n tasks)|exists x; split; [by apply Hkeep|done]].
  - intros j x Hx Hd. destruct (insert_lookup_cases _ _ _ _ _ _ Hi Hx) as (w & Hw & [(<- & -> & ->)|(_ & ->)]); [cbn in Hd; congruence|by eapply H].
  - intros j x Hx. rewrite length_insert. destruct (insert_lookup_cases _ _ _ _ _ _ Hi Hx) as (w & Hw & [(<- & -> & ->)|(_ & ->)]); exact (h_stream _ _ _ _ H _ _ Hw).
Qed.
