(* ===== verification/ReadProof.v ===== *)
(** * The invariant of a read session

    [inv] relates all parts of the state of [ReadSession]; this file holds its parts, the
    failures an operation may end with, and what the operations that only move memory and
    budget do.  [ctx] tells what holds in the middle of an operation. *)

From S2P Require Import Prelude Float32 Float64 IntervalTree ReadCommit ReadTypes ReadSession ReadSystem ReadInv ReadHeap.
From Stdlib Require Import SpecFloat.

(** ** The compression ratio is not negative *)

Definition ratio_ok (x : f64) : Prop :=
  match x with
  | S754_nan => True
  | S754_zero s | S754_infinity s | S754_finite s _ _ => s = false
  end.

Lemma round_ok m e l : ratio_ok (binary_round_aux 53 1024 false m e l).
Proof.
  unfold binary_round_aux. destruct (shr_fexp 53 1024 m e l) as [r e']. destruct (shr_fexp 53 1024 _ e' loc_Exact) as [r' e''].
  destruct (shr_m r') as [|p|p]; [done| |done]. by destruct (e'' <=? _).
Qed.

Lemma normalize_ok n e : 0 <= n -> ratio_ok (binary_normalize 53 1024 n e false).
Proof.
  destruct n as [|p|p]; [done| |lia]. intros _. cbn [binary_normalize]. unfold binary_round. destruct (shl_align _ _ _) as [m e']. apply round_ok.
Qed.

Lemma mul_ok x y : ratio_ok x -> ratio_ok y -> ratio_ok (f64_mul x y).
Proof. destruct x, y; cbn -[binary_round_aux]; intros; subst; try done. apply round_ok. Qed.

Lemma div_ok x y : ratio_ok x -> ratio_ok y -> ratio_ok (f64_div x y).
Proof.
  destruct x, y; cbn -[binary_round_aux SFdiv_core_binary]; intros; subst; try done.
  destruct (SFdiv_core_binary _ _ _ _ _ _) as [[? ?] ?]. apply round_ok.
Qed.

Lemma add_ok x y : ratio_ok x -> ratio_ok y -> ratio_ok (f64_add x y).
Proof.
  destruct x as [[]|[]| |[] ? ?], y as [[]|[]| |[] ? ?]; cbn -[binary_normalize]; intros; subst; try done.
  apply normalize_ok. lia.
Qed.

Lemma UpdateRatio_ok src dec r : ratio_ok r -> ratio_ok (UpdateRatio src dec r).
Proof.
  intros Hr. unfold UpdateRatio. destruct (_ && _)%bool eqn:E; [|done]. bool_to_prop.
  apply add_ok; [apply div_ok|apply mul_ok]; [apply mul_ok| | |done]; [done|by apply normalize_ok; lia|by apply normalize_ok; lia|by vm_compute].
Qed.

Lemma to_int_nonneg x z : ratio_ok x -> f64_to_int x = Some z -> 0 <= z.
Proof.
  destruct x as [s|s| |s m e]; cbn; [by intros _ [= <-]|done|done|]. intros ->. destruct (_ && _)%bool; [|done]. intros [= <-].
  destruct (0 <=? e) eqn:E; [apply Z.leb_le in E; lia|]. apply Z.div_pos; lia.
Qed.

Lemma estimate_nonneg ratio m z : ratio_ok ratio -> 0 <= uncompressed_size m -> estimate ratio m = Ok z -> 0 <= z.
Proof.
  intros Hr Hu. unfold estimate. destruct (negb _); [by intros [= <-]|]. destruct (f64_to_int _) as [z'|] eqn:E; [|done]. intros [= <-].
  eapply to_int_nonneg; [|exact E]. apply mul_ok; [|done]. apply normalize_ok. unfold size. lia.
Qed.

(** ** Failures

    Any operation may stop where a double does not fit an integer or a counter overflows;
    [extra] tells what else the one at hand may do. *)
Definition conversion : failure := Undefined "conversion of a double to an integer".
Definition no_bytes : failure := Throw "the maxByteSize value must be greater than 0".

Definition allowed (extra : failure -> Prop) (f : failure) : Prop := f = conversion \/ f = counter_overflow \/ extra f.

Lemma PlanLoop_fail ratio batches i l (extra : failure -> Prop) : ratio_ok ratio -> forall k task f,
  (forall id, id ∈ l -> exists c m, message_at batches id = Some (c, m) /\ (uncompressed_size m < 0 -> extra negative_estimate)) ->
  PlanLoop ratio batches i l k task = Fail f -> allowed extra f.
Proof.
  intros Hr. induction l as [|id l IH]; intros k task f Hl; cbn [PlanLoop]; [by destruct (task_Messages task)|].
  destruct (Hl id ltac:(left)) as (c & m & -> & Hm). destruct (estimate ratio m) as [est|f'] eqn:E.
  - destruct (est <? 0) eqn:Eest.
    { intros [= <-]. right; right. apply Hm. apply Z.ltb_lt in Eest. destruct (decide (0 <= uncompressed_size m)) as [Hu|]; [|lia].
      pose proof (estimate_nonneg _ _ _ Hr Hu E). lia. }
    cbv zeta. destruct (negb _); [intros [= <-]; right; by left|].
    assert (forall k task, match PlanLoop ratio batches i l k task with Ok _ => True | Fail f => allowed extra f end) as IH'.
    { intros k' task'. destruct (PlanLoop _ _ _ _ k' task') eqn:E'; [done|]. eapply IH; [|exact E']. intros id' ?. apply Hl. by right. }
    destruct (_ >=? _).
    + specialize (IH' (S k) (mkTask i 0 0 [] (S k))). destruct (PlanLoop _ _ _ _ _ _) as [[[? ?] ?]|]; [done|congruence].
    + specialize (IH' k (task_Add id (size (data m)) est task)). destruct (PlanLoop _ _ _ _ _ _) as [[[? ?] ?]|]; [done|congruence].
  - intros [= <-]. unfold estimate in E. destruct (negb _); [done|]. destruct (f64_to_int _); [done|]. injection E as <-. by left.
Qed.

(** ** Parts of the invariant *)

(** Memory estimated for a task that runs, and tasks in flight. *)
Definition est_held (a : action) : Z := match a with RunTask t => EstimatedDecompressedSize t | _ => 0 end.
Definition running (a : action) : Z := match a with RunTask _ | TaskDecompressed _ _ | TaskFinished => 1 | _ => 0 end.
Definition action_sids (a : action) : list nat := match a with SignalReady sid | EventHandler sid _ => [sid] | _ => [] end.

(** Sizes an action gives back are not negative. *)
Definition act_pos (a : action) : Prop :=
  match a with
  | TaskDecompressed _ n | UserRetrieved _ n => 0 <= n
  | DataHandler _ _ acc => Forall (fun jn => 0 <= jn.2) acc
  | _ => True
  end.

Lemma act_pos_held a i : act_pos a -> 0 <= act_held i a.
Proof.
  destruct a; cbn [act_pos act_held]; intros H; try done; try by destruct (decide _).
  apply zsum_nonneg. intros jn Hjn. rewrite Forall_forall in H. specialize (H _ Hjn). by destruct (decide _).
Qed.

Record acct_ok (b0 : Z) (aborting : bool) (c d budget delta lost : Z) (infos : list TDataDecompressionInfo) (pend : list action) : Prop := {
  a_compressed : c = zsum info_Compressed infos;
  a_decompressed : aborting = false -> d = zsum info_Decompressed infos + zsum est_held pend;
  a_budget : aborting = false -> budget + delta + zsum ServerBytesSize infos + lost = b0;
  a_held : forall a, a ∈ pend -> act_pos a }.

Lemma a_nonneg b0 ab c d b dl lo infos pend a i : acct_ok b0 ab c d b dl lo infos pend -> a ∈ pend -> 0 <= act_held i a.
Proof. intros H Ha. by apply act_pos_held, (a_held _ _ _ _ _ _ _ _ _ H). Qed.

(** The global queue names each event that was given, per stream in their order. *)
Definition kinds_of (e : TReadSessionEventInfo) : list bool := replicate (Z.to_nat (EventsCount e)) (HasDataEvents e).
Definition kinds (sid : nat) (events : list TReadSessionEventInfo) : list bool :=
  concat (map (fun e => if decide (ei_Stream e = sid) then kinds_of e else []) events).

Definition given (st : TStream) : list bool := map IsDataEvent (ReadyEvents (queue st)).

Definition entry_ok (n : nat) (e : TReadSessionEventInfo) : Prop :=
  0 < EventsCount e /\ (HasDataEvents e = false -> EventsCount e = 1) /\ (ei_Stream e < n)%nat.

Definition agree_ok (closed : bool) (events : list TReadSessionEventInfo) (rdy : list (list bool)) : Prop :=
  if closed then events = []
  else Forall (entry_ok (length rdy)) events /\ forall sid l, rdy !! sid = Some l -> kinds sid events = l.

Record streams_ok (m : gmap Z nat) (streams : list TStream) : Prop := {
  st_map : forall a sid, m !! a = Some sid -> exists st, streams !! sid = Some st /\ AssignId (stream st) = a;
  st_inv : forall sid st, streams !! sid = Some st -> exists taken sent, stream_inv (stream st) taken sent }.

(** Data events leave a stream in the order they came, without a hole. *)
Definition rest_of (st : TStream) : list TDataDecompressionEvent := Taken st ++ dataevs (ReadyEvents (queue st)) ++ dataevs (NotReady (queue st)).

Definition order_ok (callback : bool) (ex : list nat) (closed : bool) (m : gmap Z nat) (streams : list TStream) : Prop :=
  forall sid st, streams !! sid = Some st ->
    (callback = true -> dataevs (ReadyEvents (queue st)) = []) /\
    (exists rest, Queued st = rest_of st ++ rest) /\
    (closed = false -> sid ∉ ex -> (exists a, m !! a = Some sid) -> Queued st = rest_of st).

Record conn_ok (rd : bool) (reads : list Z) (gen : Z) (proc : bool) : Prop := {
  c_reads : forall g, g ∈ reads -> g <= gen;
  c_current : gen ∈ reads -> proc = true;
  c_reading : rd = true -> (gen ∉ reads) /\ proc = true }.

(** Sections of a call that closed the queue before. *)
Definition after_close (c : continuation) : bool :=
  match c with ToAbort _ | ToSetAborting | ToClearEvents | ToClearStreams => true | _ => false end.

(** What holds in the middle of an operation: actions being run, streams whose queue was
    cut, streams in use, and which of the other parts are established. *)
Record ctx := mkCtx {
  k_cur : list action;
  k_run : Z;   (* tasks being run *)
  k_ex : list nat;
  k_sids : list nat;
  k_rd : bool;   (* in the callback of a read *)
  k_cl : bool;   (* a session that closes was aborted *)
  k_closed : bool;   (* the queue is closed *)
  k_wait : bool;   (* a response is awaited only if bytes were asked for *)
  k_flow : bool   (* a session without data asks for more *) }.

Record inv (cfg : read_settings) (b0 : Z) (k : ctx) (s : rs) : Prop := {
  i_cfg : Settings s = cfg;
  i_heap : heap_ok (Decompress_ cfg) (Infos s) (sq <$> Streams s) (k_cur k ++ Pending s);
  i_acct : acct_ok b0 (Aborting s) (CompressedDataSize s) (DecompressedDataSize s) (ReadSizeBudget s) (ReadSizeServerDelta s)
    (LostBytes s) (Infos s) (k_cur k ++ Pending s);
  i_inflight : DecompressionTasksInflight s = k_run k + zsum running (Pending s);
  i_queue : Forall (alive (Infos s)) (DecompressionQueue s);
  i_agree : agree_ok (Closed s) (Events s) (given <$> Streams s);
  i_streams : streams_ok (PartitionStreams s) (Streams s);
  i_sids : forall sid, sid ∈ k_sids k ++ concat (map action_sids (Pending s)) -> (sid < length (Streams s))%nat;
  i_order : order_ok (HasDataEventCallback cfg) (k_ex k) (Closed s) (PartitionStreams s) (Streams s);
  i_ratio : ratio_ok (AverageCompressionRatio s);
  i_conn : conn_ok (k_rd k) (Reads s) (ConnectionGeneration s) (Processor s);
  i_context : ConnectContext s <> None -> Processor s = false /\ WaitingReadResponse s = false;
  i_closing : k_cl k = true -> Closing s = true -> Aborting s = true;
  i_closed : k_closed k = true -> Closed s = true;
  i_wait : k_wait k = true -> WaitingReadResponse s = true -> Processor s = true -> Aborting s = false -> 0 < ReadSizeServerDelta s;
  i_flow : k_flow k = true -> Aborting s = false -> WaitingReadResponse s = false -> DataReadingSuspended s = false -> Processor s = true ->
    Initialized s = true -> CompressedDataSize s = 0 -> DecompressedDataSize s = 0 ->
    ReadSizeBudget s <= 0 \/ ReadSizeServerDelta s + ReadSizeBudget s <= 0;
  i_calls : Closed s = false -> Forall (fun c => after_close c = false) (Calls s) }.

(** Changes of the context. *)
Definition kw_cur (v : list action) (k : ctx) : ctx :=
  mkCtx v (k_run k) (k_ex k) (k_sids k) (k_rd k) (k_cl k) (k_closed k) (k_wait k) (k_flow k).
Definition kw_run (v : Z) (k : ctx) : ctx :=
  mkCtx (k_cur k) v (k_ex k) (k_sids k) (k_rd k) (k_cl k) (k_closed k) (k_wait k) (k_flow k).
Definition kw_ex (v : list nat) (k : ctx) : ctx :=
  mkCtx (k_cur k) (k_run k) v (k_sids k) (k_rd k) (k_cl k) (k_closed k) (k_wait k) (k_flow k).
Definition kw_sids (v : list nat) (k : ctx) : ctx :=
  mkCtx (k_cur k) (k_run k) (k_ex k) v (k_rd k) (k_cl k) (k_closed k) (k_wait k) (k_flow k).
Definition kw_rd (v : bool) (k : ctx) : ctx :=
  mkCtx (k_cur k) (k_run k) (k_ex k) (k_sids k) v (k_cl k) (k_closed k) (k_wait k) (k_flow k).
Definition kw_cl (v : bool) (k : ctx) : ctx :=
  mkCtx (k_cur k) (k_run k) (k_ex k) (k_sids k) (k_rd k) v (k_closed k) (k_wait k) (k_flow k).
Definition kw_closed (v : bool) (k : ctx) : ctx :=
  mkCtx (k_cur k) (k_run k) (k_ex k) (k_sids k) (k_rd k) (k_cl k) v (k_wait k) (k_flow k).
Definition kw_wait (v : bool) (k : ctx) : ctx :=
  mkCtx (k_cur k) (k_run k) (k_ex k) (k_sids k) (k_rd k) (k_cl k) (k_closed k) v (k_flow k).
Definition kw_flow (v : bool) (k : ctx) : ctx :=
  mkCtx (k_cur k) (k_run k) (k_ex k) (k_sids k) (k_rd k) (k_cl k) (k_closed k) (k_wait k) v.

Ltac rs_simpl := cbn [Settings NextPartitionStreamId PartitionStreams Streams Infos DecompressionQueue Events Closed Processor
    ConnectContext ConnectTimeoutContext next_context ConnectionGeneration CompressedDataSize DecompressedDataSize
    AverageCompressionRatio WaitingReadResponse DataReadingSuspended Aborting Closing CloseCallback CallbackCalls
    ReadSizeBudget ReadSizeServerDelta DecompressionTasksInflight HierarchyData ReadingFinishedData Wire Pending Calls
    TopClosing TopAborting Initialized Reads LostBytes set_NextPartitionStreamId set_PartitionStreams set_Streams
    set_Infos set_DecompressionQueue set_Events set_Closed set_Processor set_ConnectContext
    set_ConnectTimeoutContext set_next_context set_ConnectionGeneration set_CompressedDataSize
    set_DecompressedDataSize set_AverageCompressionRatio set_WaitingReadResponse set_DataReadingSuspended
    set_Aborting set_Closing set_CloseCallback set_CallbackCalls set_ReadSizeBudget set_ReadSizeServerDelta
    set_DecompressionTasksInflight set_HierarchyData set_ReadingFinishedData set_Wire set_Pending set_Calls set_TopClosing
    set_TopAborting set_Initialized set_Reads set_LostBytes k_cur k_run k_ex k_sids k_rd k_cl k_closed k_wait k_flow
    kw_cur kw_run kw_ex kw_sids kw_rd kw_cl kw_closed kw_wait kw_flow] in *.

(** The parts of the invariant and of the accounts, under fixed names. *)
Ltac inv_destruct H :=
  destruct H as [i_cfg0 i_heap0 i_acct0 i_inflight0 i_queue0 i_agree0 i_streams0 i_sids0 i_order0 i_ratio0 i_conn0 i_context0 i_closing0 i_closed0 i_wait0 i_flow0 i_calls0].
Ltac acct_destruct H := destruct H as [a_compressed0 a_decompressed0 a_budget0 a_held0].

Lemma allowed_overflow extra : allowed extra counter_overflow.
Proof. right. by left. Qed.

Lemma wpE_check_i64 (E : failure -> Prop) z (Q : Z -> rs -> Prop) s : E counter_overflow -> Q z s -> wpE E (check_i64 z) Q s.
Proof. intros HE HQ. unfold wpE, check_i64. by destruct (in_i64 z). Qed.

Lemma wpE_upd_i64 (E : failure -> Prop) get set f (Q : unit -> rs -> Prop) s : E counter_overflow ->
  Q tt (set (f (get s)) s) -> wpE E (upd_i64 get set f) Q s.
Proof.
  intros HE HQ. unfold upd_i64. apply wpE_bind, wpE_gets, wpE_bind, wpE_check_i64; [done|]. by apply wpE_modify.
Qed.

Ltac rs_step :=
  lazymatch goal with
  | |- wpE _ (upd _ _ _) _ _ => unfold upd
  | |- wpE _ (add_pending _) _ _ => unfold add_pending
  | |- wpE _ (add_calls _) _ _ => unfold add_calls
  | |- wpE _ (upd_info _ _) _ _ => unfold upd_info
  | |- wpE _ (upd_stream _ _) _ _ => unfold upd_stream
  | |- wpE _ (gets _) _ _ => apply wpE_gets
  | |- wpE _ (check_i64 _) _ _ => apply wpE_check_i64; [first [apply allowed_overflow|exact I]|]
  | |- wpE _ (upd_i64 _ _ _) _ _ => apply wpE_upd_i64; [first [apply allowed_overflow|exact I]|]
  | |- _ => wpE_step
  end.
Ltac rs_steps := repeat (rs_step; cbn beta iota).

Lemma wpE_and {S A} E E' (m : M S A) (P Q : A -> S -> Prop) s : wpE E m P s -> wpE E' m Q s -> wpE E m (fun a s' => P a s' /\ Q a s') s.
Proof. unfold wpE. by destruct (m s) as [[? ?]|]. Qed.

Lemma wpE_may_start (E : failure -> Prop) limit (Q : bool -> rs -> Prop) s : E counter_overflow -> (forall b, Q b s) -> wpE E (may_start limit) Q s.
Proof.
  intros HE HQ. unfold may_start. apply wpE_bind, wpE_get_st. destruct (DecompressEverything _); [by rs_steps|].
  destruct (_ <? _); [|by rs_steps]. apply wpE_bind, wpE_check_i64; [done|]. by rs_steps.
Qed.

Section Ops.
Context (cfg : read_settings) (b0 : Z) (Hcfg : settings_ok cfg) {extra : failure -> Prop}.
Local Abbreviation inv' := (inv cfg b0).
Local Abbreviation wpa := (wpE (allowed extra)).

(** ** Calls that go on *)

Lemma inv_add_calls k s l : inv' k s -> (Closed s = false -> Forall (fun c => after_close c = false) l) -> inv' k (set_Calls (Calls s ++ l) s).
Proof. intros H Hl. inv_destruct H. split; rs_simpl; try done. intros Hc. apply Forall_app. auto. Qed.

Lemma inv_open_call k s c : inv' k s -> after_close c = false -> inv' k (set_Calls (Calls s ++ [c]) s).
Proof. intros H Hc. apply inv_add_calls; [done|]. by repeat constructor. Qed.

Lemma inv_closed_call k s c : inv' (kw_closed true k) s -> inv' (kw_closed true k) (set_Calls (Calls s ++ [c]) s).
Proof. intros H. apply inv_add_calls; [done|]. pose proof (i_closed _ _ _ _ H eq_refl). congruence. Qed.

Lemma inv_pop_call k s n c : inv' k s -> Calls s !! n = Some c ->
  inv' k (set_Calls (delete n (Calls s)) s) /\ (Closed s = false -> after_close c = false).
Proof.
  intros H Hn. pose proof (i_calls _ _ _ _ H) as Hc. split; [|intros Hcl; specialize (Hc Hcl); rewrite Forall_lookup in Hc; by eapply Hc].
  inv_destruct H. split; rs_simpl; try done. intros Hcl. specialize (Hc Hcl). rewrite Forall_forall in *. intros x Hx. apply Hc.
  apply list_elem_of_lookup in Hx as [j Hj]. apply list_elem_of_lookup. rewrite list_lookup_delete in Hj. destruct (decide _); eauto.
Qed.

(** ** Asking for data *)

Lemma wpE_limit (Q : Z -> rs -> Prop) s : (forall lim, 1 <= lim -> Q lim s) -> wpa GetCompressedDataSizeLimit Q s.
Proof.
  intros H. unfold wpE, GetCompressedDataSizeLimit. destruct (f64_to_int _) as [z|]; [apply H; lia|]. by left.
Qed.

Lemma wpE_get_info i info (Q : TDataDecompressionInfo -> rs -> Prop) s : Infos s !! i = Some info -> Q info s -> wpa (get_info i) Q s.
Proof. intros Hi HQ. unfold wpE, get_info. by rewrite Hi. Qed.

Lemma wpE_get_stream sid st (Q : TStream -> rs -> Prop) s : Streams s !! sid = Some st -> Q st s -> wpa (get_stream sid) Q s.
Proof. intros Hi HQ. unfold wpE, get_stream. by rewrite Hi. Qed.

Lemma Write_inv k s req (Q : unit -> rs -> Prop) : inv' k s -> (forall s', inv' k s' -> Q tt s') -> wpa (WriteToProcessorImpl req) Q s.
Proof.
  intros H HQ. unfold WriteToProcessorImpl. rs_steps; [|by apply HQ]. apply HQ. destruct H. split; rs_simpl; done.
Qed.

Lemma Continue_inv k s : inv' k s -> k_cl k = true -> k_wait k = true ->
  wpa ContinueReadingDataImpl (fun _ s' => inv' (kw_flow true k) s') s.
Proof.
  intros H Hcl Hw. unfold ContinueReadingDataImpl. rs_steps.
  destruct (Closing s || _ || _ || _ || _)%bool eqn:Eret.
  { rs_steps. destruct H. split; rs_simpl; try done. intros _ Ha Hwt Hs Hp. rewrite Ha, Hwt, Hs, Hp, !orb_false_r in Eret.
    rewrite i_closing0 in Ha; done. }
  apply orb_false_iff in Eret as [Eret Ep%negb_false_iff]. apply orb_false_iff in Eret as [Eret Es].
  apply orb_false_iff in Eret as [Eret Ew]. apply orb_false_iff in Eret as [Ec Ea].
  apply wpE_bind, wpE_limit. intros lim Hlim.
  destruct (CompressedDataSize s <? lim) eqn:Elim; [|apply Z.ltb_ge in Elim; rs_steps; destruct H; split; rs_simpl; try done; intros; lia].
  rs_steps. destruct (u64 _ <? _) eqn:Eu.
  - destruct (ReadSizeBudget s <=? 0) eqn:Eb1; [apply Z.leb_le in Eb1; rs_steps; destruct H; split; rs_simpl; try done; auto|apply Z.leb_gt in Eb1].
    rs_steps. destruct (_ <=? 0) eqn:Eb2; [apply Z.leb_le in Eb2; rs_steps; destruct H; split; rs_simpl; try done; auto|apply Z.leb_gt in Eb2].
    unfold WriteToProcessorImpl.
    rs_steps; (destruct H; split; rs_simpl; try done; try (intros; lia); try (intros Hx; destruct (i_context0 Hx); congruence)); destruct i_acct0; split; try done; intros Hx; specialize (a_budget0 Hx); lia.
  - rs_steps. destruct H. split; rs_simpl; try done. intros _ _ _ _ _ _ HC HD. rewrite HC, HD in Eu.
    change (u64 (0 + 0)) with 0 in Eu. rewrite i_cfg0 in Eu. apply Z.ltb_ge in Eu. destruct Hcfg as [? _]. lia.
Qed.

(** ** Sizes are not negative *)

Lemma event_size_nonneg dd infos evs pend RN d i : heap_ok dd infos evs pend -> RN ∈ evs -> d ∈ RN.1 ++ RN.2 -> 0 <= counted infos i d.
Proof.
  intros H [sid Hs]%list_elem_of_lookup Hd. destruct RN as [R N]. unfold counted. destruct (decide _) as [[_ Hr]|]; [|done].
  destruct (h_event _ _ _ _ H sid R N Hs) as [HR HN]. rewrite Forall_forall in HR, HN.
  assert (exists g, event_in infos sid g d) as (g & info & st & Hi & _ & _ & Hst & Hor)
    by (apply elem_of_app in Hd as [Hd|Hd]; [exists true; auto|exists false; auto]).
  unfold state_of in Hr. rewrite Hi, Hst in Hr. cbn in Hr. subst st. destruct Hor as [[? _]|[_ [x Hx]]]; [done|].
  unfold prepared_size. rewrite Hi. destruct (data_ok_prepared dd info (ev_Message d) x Hx) as (-> & ? & _); [by eapply H|done].
Qed.

Lemma info_nonneg dd infos evs pend i info : heap_ok dd infos evs pend -> (forall a i, a ∈ pend -> 0 <= act_held i a) -> infos !! i = Some info ->
  zsum (act_held i) pend <= info_Decompressed info /\ 0 <= info_Decompressed info.
Proof.
  intros H Ha Hi. rewrite (h_held _ _ _ _ H i info Hi). unfold held.
  assert (0 <= zsum (fun RN => zsum (counted infos i) (RN.1 ++ RN.2)) evs).
  { apply zsum_nonneg. intros RN HRN. apply zsum_nonneg. intros d Hd. by eapply event_size_nonneg. }
  assert (0 <= zsum (act_held i) pend) by (apply zsum_nonneg; intros a Hin; by apply Ha). lia.
Qed.

Lemma in_holders infos pend a t : a ∈ pend -> t ∈ action_tasks a -> t ∈ holders infos pend.
Proof.
  intros Ha Ht. unfold holders. rewrite elem_of_app. right. apply list_elem_of_In, in_concat. exists (action_tasks a).
  split; [by apply in_map, list_elem_of_In|by apply list_elem_of_In].
Qed.

Lemma est_nonneg dd infos evs pend a : heap_ok dd infos evs pend -> a ∈ pend -> 0 <= est_held a.
Proof. intros H Ha. destruct a as [t|t n| | | | | | | |]; try done. apply (h_task _ _ _ _ H t). eapply in_holders; [exact Ha|left]. Qed.

(** What is held is part of what the session counts. *)
Lemma counted_in_session k s i info : inv' k s -> Aborting s = false -> Infos s !! i = Some info ->
  zsum (act_held i) (k_cur k ++ Pending s) <= info_Decompressed info /\ info_Decompressed info + zsum est_held (k_cur k ++ Pending s) <= DecompressedDataSize s /\
  0 <= zsum est_held (k_cur k ++ Pending s).
Proof.
  intros [] Ha Hi. destruct (info_nonneg _ _ _ _ i info i_heap0 (fun a i => a_nonneg _ _ _ _ _ _ _ _ _ a i i_acct0) Hi) as [H1 H2].
  rewrite (a_decompressed _ _ _ _ _ _ _ _ _ i_acct0 Ha). split_and!; [done| |].
  - assert (info_Decompressed info <= zsum info_Decompressed (Infos s)); [|lia]. apply zsum_le; [|by eapply list_elem_of_lookup_2].
    intros x [j Hj]%list_elem_of_lookup. eapply info_nonneg; [done|intros; by eapply a_nonneg|done].
  - apply zsum_nonneg. intros a Hin. by eapply est_nonneg.
Qed.

Lemma D_nonneg k s : inv' k s -> Aborting s = false -> 0 <= DecompressedDataSize s.
Proof.
  intros [] Ha. rewrite (a_decompressed _ _ _ _ _ _ _ _ _ i_acct0 Ha).
  assert (0 <= zsum info_Decompressed (Infos s)).
  { apply zsum_nonneg. intros x [j Hj]%list_elem_of_lookup. eapply info_nonneg; [done|intros; by eapply a_nonneg|done]. }
  assert (0 <= zsum est_held (k_cur k ++ Pending s)) by (apply zsum_nonneg; intros a Hin; by eapply est_nonneg). lia.
Qed.

(** ** Actions that only wait to run *)

Definition quiet (s : rs) (a : action) : Prop :=
  idle (Infos s) a /\ est_held a = 0 /\ running a = 0 /\ act_pos a /\ forall sid, sid ∈ action_sids a -> (sid < length (Streams s))%nat.

Lemma inv_post k s l : inv' k s -> Forall (fun a => quiet s a \/ a = TaskFinished) l ->
  inv' (kw_run (k_run k - zsum running l) k) (set_Pending (Pending s ++ l) s).
Proof.
  intros H Hl. assert (Forall (idle (Infos s)) l) as Hidle.
  { eapply Forall_impl; [exact Hl|]. intros a [[? _]| ->]; [done|]. split_and!; [done|done|]. by intros i ?%elem_of_nil. }
  rewrite Forall_forall in Hl. inv_destruct H. split; rs_simpl; rewrite ?app_assoc; try done.
  - by apply heap_add_idle.
  - acct_destruct i_acct0. split; try done.
    + intros Ha. rewrite zsum_app, (zsum_zero est_held l); [specialize (a_decompressed0 Ha); lia|]. intros a Hin. destruct (Hl a Hin) as [(_ & ? & _)| ->]; done.
    + intros a [Ha|Ha]%elem_of_app; [by apply a_held0|]. destruct (Hl a Ha) as [(_ & _ & _ & ? & _)| ->]; done.
  - rewrite zsum_app. lia.
  - intros sid. rewrite map_app, concat_app, app_assoc. intros [Hs|Hs]%elem_of_app; [by apply i_sids0|].
    apply list_elem_of_In, in_concat in Hs as (x & (a & <- & Ha%list_elem_of_In)%in_map_iff & Hx%list_elem_of_In).
    destruct (Hl a Ha) as [(_ & _ & _ & _ & Hq)| ->]; [by apply Hq|by apply elem_of_nil in Hx].
Qed.

Lemma inv_add k s l : inv' k s -> Forall (quiet s) l -> inv' k (set_Pending (Pending s ++ l) s).
Proof.
  intros H Hl. assert (zsum running l = 0) as E by (rewrite Forall_forall in Hl; apply zsum_zero; intros a Ha; by apply Hl).
  assert (inv' (kw_run (k_run k - zsum running l) k) (set_Pending (Pending s ++ l) s)) as H'
    by (apply inv_post; [done|]; eapply Forall_impl; [exact Hl|]; by left).
  clear H. inv_destruct H'. split; rs_simpl; try done. lia.
Qed.

Lemma alive_sizes (infos : list TDataDecompressionInfo) f i j : (forall x, Destroyed (f x) = Destroyed x) -> alive infos j -> alive (alter f i infos) j.
Proof.
  intros Hf (x & Hx & Hd). destruct (decide (i = j)) as [<-|Hne].
  - exists (f x). rewrite list_lookup_alter_eq, Hx. cbn. by rewrite Hf.
  - exists x. by rewrite list_lookup_alter_ne.
Qed.

Lemma zsum_alter_same (g : TDataDecompressionInfo -> Z) f i infos : (forall x, g (f x) = g x) -> zsum g (alter f i infos) = zsum g infos.
Proof.
  intros H. destruct (infos !! i) as [x|] eqn:E; [rewrite (list_alter_insert _ _ _ _ E), (zsum_insert _ _ _ _ _ E), H; lia|].
  f_equal. apply list_eq. intros j. destruct (decide (i = j)) as [<-|]; [by rewrite list_lookup_alter_eq, E|by rewrite list_lookup_alter_ne].
Qed.

(** ** Starting tasks *)

Definition started_state (i : nat) (used : Z) (started left_ : list TDecompressionTask) (s : rs) : rs :=
  set_DecompressedDataSize (DecompressedDataSize s + used)
    (set_Pending (Pending s ++ map RunTask started)
       (set_DecompressionTasksInflight (DecompressionTasksInflight s + Z.of_nat (length started))
          (set_Infos (alter (info_set_tasks left_) i (Infos s)) s))).

Lemma run_sums started : zsum est_held (map RunTask started) = zsum EstimatedDecompressedSize started /\
  zsum running (map RunTask started) = Z.of_nat (length started) /\ concat (map action_sids (map RunTask started)) = [].
Proof.
  split_and!; [by rewrite zsum_map| |].
  - rewrite zsum_map. induction started as [|t l IH]; [done|]. rewrite zsum_cons, IH. cbn [running length]. lia.
  - induction started as [|t l IH]; [done|exact IH].
Qed.

Lemma start_inv k s i info avail used started left_ : inv' k s -> Aborting s = false -> alive (Infos s) i -> Infos s !! i = Some info ->
  StartTasks avail (Tasks info) = (used, started, left_) -> inv' k (started_state i used started left_ s).
Proof.
  intros H Hab Hal Hi Hst. destruct (StartTasks_spec _ _ _ _ _ Hst) as [Htasks Hused]. destruct (run_sums started) as (R1 & R2 & R3).
  pose proof (D_nonneg _ _ H Hab) as HD. pose proof H as Hinv. destruct H.
  assert (0 <= used) as Hu.
  { rewrite Hused. apply zsum_nonneg. intros t Ht. apply (h_task _ _ _ _ i_heap0 t). unfold holders. rewrite elem_of_app. left.
    apply list_elem_of_In, in_concat. exists (Tasks info). split; [apply in_map, list_elem_of_In; by eapply list_elem_of_lookup_2|].
    apply list_elem_of_In. rewrite Htasks, elem_of_app. by left. }
  split; unfold started_state; rs_simpl; rewrite ?app_assoc; try done.
  - eapply heap_tasks; [exact Hi|done|done|by rewrite Htasks|done].
  - destruct i_acct0. split.
    + by rewrite zsum_alter_same.
    + intros Ha. rewrite zsum_alter_same, zsum_app, R1 by done. specialize (a_decompressed0 Ha). lia.
    + intros Ha. rewrite zsum_alter_same by done. auto.
    + intros a [Ha|(t & -> & _)%list_elem_of_fmap]%elem_of_app; [by apply a_held0|done].
  - rewrite zsum_app, R2. lia.
  - eapply Forall_impl; [exact i_queue0|]. intros j. by apply alive_sizes.
  - intros sid. rewrite map_app, concat_app, R3, app_nil_r. apply i_sids0.
  - intros ? ? ? ? ? ? ? ?. apply i_flow0; try done. lia.
Qed.

Lemma quiet_info s i : alive (Infos s) i -> quiet s (CleanupInfo i) /\ forall n, quiet s (TaskCanceled i n).
Proof.
  intros H. split; [|intros n]; (split_and!; [|done|done|done|intros sid Hs; by apply elem_of_nil in Hs]);
    (split_and!; [done|done|]); intros j ->%list_elem_of_singleton; done.
Qed.

Lemma inv_set_queue k s q : inv' k s -> Forall (alive (Infos s)) q -> inv' k (set_DecompressionQueue q s).
Proof. intros [] Hq. split; rs_simpl; done. Qed.

Lemma StartLoop_inv limit q : forall k s, inv' k s -> Aborting s = false -> DecompressionQueue s = q ->
  wpa (StartLoop limit q) (fun _ s' => inv' k s' /\ Aborting s' = false) s.
Proof.
  induction q as [|i q IH]; intros k s H Ha Hq; cbn [StartLoop]; [rs_steps; done|]. apply wpE_bind, wpE_may_start; [apply allowed_overflow|].
  intros []; [|rs_steps; done]. unfold StartDecompressionTasks. rs_steps.
  pose proof (i_queue _ _ _ _ H) as Hqueue. rewrite Hq in Hqueue. inversion Hqueue as [|? ? Hal Hql]; subst.
  pose proof Hal as (info & Hi & Hd). apply (wpE_get_info _ info); [done|]. destruct (StartTasks _ (Tasks info)) as [[used started] left_] eqn:E. rs_steps.
  pose proof (start_inv _ _ _ _ _ _ _ _ H Ha Hal Hi E) as H'. eapply wpE_get_info; [rs_simpl; by rewrite list_lookup_alter_eq, Hi|]. cbn [info_set_tasks Tasks].
  destruct left_ as [|t l]; [|rs_steps; split; [|done]; unfold started_state in H'; rs_simpl; exact H'].
  rs_steps. apply IH; [|done|done]. apply inv_set_queue; [|rs_simpl; eapply Forall_impl; [exact Hql|]; intros j; by apply alive_sizes].
  apply inv_add; [unfold started_state in H'; rs_simpl; exact H'|]. constructor; [|done]. apply quiet_info. rs_simpl. by apply alive_sizes.
Qed.

Lemma Start_inv k s : inv' k s -> wpa StartDecompressionTasksImpl (fun _ s' => inv' k s') s.
Proof.
  intros H. unfold StartDecompressionTasksImpl. rs_steps. destruct (Aborting s) eqn:Ea; [by rs_steps|].
  unfold GetDecompressedDataSizeLimit. rs_steps. apply wpE_limit. intros lim Hlim. rs_steps; [apply Z.gtb_lt; lia|].
  eapply wpE_mono; [by apply StartLoop_inv|]. by intros ? ? [? _].
Qed.

(** ** Memory and budget that come back *)

Lemma inv_budget k s n : inv cfg (b0 - n) k s -> inv' (kw_flow false k) (set_ReadSizeBudget (ReadSizeBudget s + n) s).
Proof.
  intros []. split; rs_simpl; try done. destruct i_acct0. split; try done. intros Ha. specialize (a_budget0 Ha). lia.
Qed.

Lemma inv_flow k s : inv' k s -> inv' (kw_flow false k) s.
Proof. intros []. split; rs_simpl; done. Qed.

Lemma return_budget_inv k s n : inv cfg (b0 - n) k s -> k_cl k = true -> k_wait k = true ->
  wpa (return_budget n) (fun _ s' => inv' (kw_flow true k) s') s.
Proof.
  intros H Hc Hw. unfold return_budget. rs_steps. eapply wpE_mono; [apply (Continue_inv (kw_flow false k)); [by apply inv_budget|done..]|].
  intros [] s' H'. by apply Start_inv.
Qed.

Definition sizes_state (i : nat) (c d sb : Z) (s : rs) : rs := set_Infos (alter (info_upd_sizes c d sb) i (Infos s)) s.

Lemma zsum_alter (g : TDataDecompressionInfo -> Z) f i infos info : infos !! i = Some info -> zsum g (alter f i infos) = zsum g infos - g info + g (f info).
Proof. intros Hi. by rewrite (list_alter_insert _ _ _ _ Hi), (zsum_insert _ _ _ _ _ Hi). Qed.

(** An action gives back the [n] bytes it holds. *)
Lemma inv_retrieved k s a cur i info n d : inv' (kw_cur (a :: cur) k) s -> Infos s !! i = Some info -> i ∈ action_infos a ->
  (forall j, act_held j a = if decide (i = j) then n else 0) -> est_held a = 0 -> (Aborting s = false -> d = DecompressedDataSize s - n) ->
  inv' (kw_flow false (kw_cur cur k))
    (set_DecompressedDataSize d (sizes_state i (info_Compressed info) (info_Decompressed info - n) (ServerBytesSize info) s)).
Proof.
  intros [] Hi Hai Hah He Hd. unfold sizes_state. split; rs_simpl; try done.
  - by eapply heap_retrieved.
  - destruct i_acct0. split; rewrite ?(zsum_alter _ _ _ _ _ Hi); cbn [info_upd_sizes info_Compressed info_Decompressed ServerBytesSize].
    + lia.
    + intros Ha. specialize (a_decompressed0 Ha). rewrite <- app_comm_cons, zsum_cons, He in a_decompressed0. specialize (Hd Ha). lia.
    + intros Ha. specialize (a_budget0 Ha). lia.
    + intros b Hb. apply a_held0. by right.
  - eapply Forall_impl; [exact i_queue0|]. intros j. by apply alive_sizes.
Qed.

Lemma inv_aborted_D k s d : Aborting s = true -> inv' k (set_DecompressedDataSize d s) -> inv' (kw_flow true k) s.
Proof.
  intros Ha []. split; rs_simpl; try done; [|congruence]. destruct i_acct0. split; try done; congruence.
Qed.

Lemma OnUserRetrievedEvent_inv k s a cur i n : inv' (kw_cur (a :: cur) k) s -> i ∈ action_infos a ->
  (forall j, act_held j a = if decide (i = j) then n else 0) -> est_held a = 0 -> k_cl k = true -> k_wait k = true ->
  wpa (OnUserRetrievedEvent i n) (fun _ s' => inv' (kw_flow true (kw_cur cur k)) s') s.
Proof.
  intros H Hai Hah He Hc Hw. unfold OnUserRetrievedEvent. pose proof (i_heap _ _ _ _ H) as Hh.
  destruct (h_refs _ _ _ _ Hh a i ltac:(left) Hai) as (info & Hi & _). rs_steps. apply (wpE_get_info _ info); [done|]. rs_steps.
  fold (sizes_state i (info_Compressed info) (info_Decompressed info - n) (ServerBytesSize info) s).
  change (Aborting (sizes_state _ _ _ _ _)) with (Aborting s). destruct (Aborting s) eqn:Ea.
  - rs_steps. pose proof (inv_retrieved _ _ _ _ _ _ _ (DecompressedDataSize s) H Hi Hai Hah He ltac:(congruence)) as H'.
    by apply inv_aborted_D in H'.
  - rs_steps.
    + apply Z.leb_le. destruct (counted_in_session _ _ _ _ H Ea Hi) as (H1 & H2 & H3). rs_simpl. rewrite <- app_comm_cons, zsum_cons, Hah, decide_True in H1 by done.
      assert (0 <= zsum (act_held i) (cur ++ Pending s)); [|unfold sizes_state; rs_simpl; lia].
      apply zsum_nonneg. intros b Hb. eapply a_nonneg; [apply H|by right].
    + eapply wpE_mono; [apply (Continue_inv (kw_flow false (kw_cur cur k))); [|done..]|intros [] s' H'; by apply Start_inv].
      by eapply inv_retrieved.
Qed.

(** Once the session is aborted, budget and flow do not matter. *)
Lemma inv_aborting b1 k s : Aborting s = true -> inv cfg b1 (kw_flow false k) s -> inv' (kw_flow true k) s.
Proof. intros Ha []. split; rs_simpl; try done; [|congruence]. destruct i_acct0. split; try done; congruence. Qed.

(** ** Actions start and are posted *)

Lemma acct_perm ab c d b dl lo infos pend pend' : pend ≡ₚ pend' -> acct_ok b0 ab c d b dl lo infos pend -> acct_ok b0 ab c d b dl lo infos pend'.
Proof.
  intros Hp []. split; try done.
  - intros Ha. rewrite <- (zsum_perm _ _ _ Hp). auto.
  - intros a. rewrite <- Hp. auto.
Qed.

(** The action the operation holds is posted. *)
Lemma inv_push k s a cur : inv' (kw_cur (a :: cur) k) s -> action_sids a = [] ->
  inv' (kw_run (k_run k - running a) (kw_cur cur k)) (set_Pending (Pending s ++ [a]) s).
Proof.
  intros [] Hs. assert ((a :: cur) ++ Pending s ≡ₚ cur ++ Pending s ++ [a]) as Hp.
  { rewrite app_assoc. rewrite <- app_comm_cons. by rewrite <- Permutation_cons_append. }
  split; rs_simpl; try done.
  - by eapply heap_perm.
  - by eapply acct_perm.
  - rewrite zsum_app, zsum_cons, zsum_nil. lia.
  - intros sid. rewrite map_app, concat_app. cbn [map concat]. rewrite Hs, !app_nil_r. apply i_sids0.
Qed.

(** An action is taken to be run. *)
Lemma inv_pop k s n a : inv' k s -> Pending s !! n = Some a ->
  inv' (kw_run (k_run k + running a) (kw_sids (action_sids a ++ k_sids k) (kw_cur (a :: k_cur k) k))) (set_Pending (delete n (Pending s)) s).
Proof.
  intros [] Hn. assert (Pending s ≡ₚ a :: delete n (Pending s)) as Hp0 by (by apply delete_Permutation).
  assert (k_cur k ++ Pending s ≡ₚ (a :: k_cur k) ++ delete n (Pending s)) as Hp by (rewrite Hp0 at 1; by rewrite <- Permutation_middle).
  split; rs_simpl; try done.
  - by eapply heap_perm.
  - by eapply acct_perm.
  - rewrite (zsum_delete _ _ _ _ Hn). lia.
  - intros sid Hsid. apply i_sids0. rewrite !elem_of_app in *. destruct Hsid as [[Ha|?]|Hd]; [|by left|]; right;
      apply list_elem_of_In, in_concat; [exists (action_sids a)|apply list_elem_of_In, in_concat in Hd as (x & Hx & Hxs); exists x].
    + split; [|by apply list_elem_of_In]. apply in_map, list_elem_of_In. by eapply list_elem_of_lookup_2.
    + split; [|done]. apply in_map_iff in Hx as (b & <- & Hb%list_elem_of_In). apply in_map, list_elem_of_In. rewrite Hp0. by right.
Qed.

(** An action that holds nothing is over. *)
Lemma inv_drop k s a cur : inv' (kw_cur (a :: cur) k) s -> (forall i, act_held i a = 0) -> est_held a = 0 -> inv' (kw_cur cur k) s.
Proof.
  intros [] Ha He. split; rs_simpl; try done.
  - by eapply heap_drop_action.
  - destruct i_acct0. split; try done.
    + intros Hab. specialize (a_decompressed0 Hab). rewrite <- app_comm_cons, zsum_cons in a_decompressed0. lia.
    + intros b Hb. apply a_held0. by right.
Qed.
End Ops.
