(* ===== verification/ReadActions.v ===== *)
(** * Actions of a read session keep its invariant *)

From S2P Require Import Prelude Float32 Float64 IntervalTree ReadCommit ReadTypes ReadSession ReadSystem ReadInv ReadHeap ReadProof.
From Stdlib Require Import SpecFloat.

Section Actions.
Context (cfg : read_settings) (b0 : Z) (Hcfg : settings_ok cfg) {extra : failure -> Prop}.
Context (DecompressData : Codec -> string -> option (list TDecompressedMessage)).
Local Abbreviation inv' := (inv cfg b0).
Local Abbreviation wpa := (wpE (allowed extra)).

(** ** Decompression tasks *)

(** The size the task counts is the size its messages hold. *)
Lemma decompressed_size dd info ids : (forall id, id ∈ ids -> exists d, DecompressedData info !! id = Some d /\ data_ok dd d) ->
  foldr (fun id n => match DecompressedData info !! id with Some d => DataSize d + n | None => n end) 0 ids = zsum (GetPreparedDataSize info) ids /\
  0 <= zsum (GetPreparedDataSize info) ids.
Proof.
  induction ids as [|id ids IH]; intros H; [done|]. cbn [foldr]. destruct (H id ltac:(left)) as (d & Hd & Hok).
  destruct (data_ok_prepared _ _ _ _ Hd Hok) as (E & Hn & _). destruct IH as [-> ?]; [intros x Hx; apply H; by right|]. rewrite zsum_cons, E, Hd. split; lia.
Qed.

Definition run_state (i : nat) (info' : TDataDecompressionInfo) (c d : Z) (r : f64) (s : rs) : rs :=
  set_AverageCompressionRatio r (set_DecompressedDataSize d (set_CompressedDataSize c (set_Infos (<[i := info']> (Infos s)) s))).

(** The two updates of the info. *)
Lemma run_state_eq t info info1 c d r s : Infos s !! task_Parent t = Some info -> info1 = DecompressMessages DecompressData (Decompress_ cfg) (task_ids t) info ->
  forall a b,
  set_AverageCompressionRatio r (set_DecompressedDataSize d (set_CompressedDataSize c
    (set_Infos (alter (info_upd_sizes a b 0) (task_Parent t)
      (alter (DecompressMessages DecompressData (Decompress_ cfg) (task_ids t)) (task_Parent t) (Infos s)))
      (set_Infos (alter (DecompressMessages DecompressData (Decompress_ cfg) (task_ids t)) (task_Parent t) (Infos s)) s)))) =
  run_state (task_Parent t) (info_upd_sizes a b 0 info1) c d r s.
Proof.
  intros Hi -> a b. unfold run_state. rewrite (list_alter_insert (info_upd_sizes _ _ _) _ _ (DecompressMessages DecompressData (Decompress_ cfg) (task_ids t) info)) by (by rewrite list_lookup_alter_eq, Hi).
  rewrite (list_alter_insert _ _ _ _ Hi), list_insert_insert_eq. reflexivity.
Qed.

Lemma alive_insert (infos : list TDataDecompressionInfo) i info info' j : infos !! i = Some info -> Destroyed info' = Destroyed info ->
  alive infos j -> alive (<[i := info']> infos) j.
Proof.
  intros Hi Hd (x & Hx & Hxd). destruct (lookup_insert_cases _ _ _ info' _ _ Hi Hx) as (w & Hw & [(<- & -> & ->)|(_ & ->)]); eexists; (split; [done|congruence]).
Qed.

Lemma inv_run k s t cur info info1 n : inv' (kw_cur (RunTask t :: cur) k) s -> Infos s !! task_Parent t = Some info ->
  info1 = DecompressMessages DecompressData (Decompress_ cfg) (task_ids t) info -> n = zsum (GetPreparedDataSize info1) (task_ids t) -> 0 <= n ->
  inv cfg (b0 - ServerBytesSize info) (kw_flow false (kw_cur (TaskDecompressed t n :: cur) k))
    (run_state (task_Parent t) (info_upd_sizes (info_Compressed info - SourceDataSize t) (info_Decompressed info + n) 0 info1)
       (CompressedDataSize s - SourceDataSize t) (DecompressedDataSize s + (n - EstimatedDecompressedSize t))
       (UpdateRatio (SourceDataSize t) n (AverageCompressionRatio s)) s).
Proof.
  intros H Hi H1 Hn Hn0. inv_destruct H. assert (forall id, id ∈ task_ids t -> is_Some (message_at (ServerMessage info) id)) as Hmsg.
  { destruct (h_task _ _ _ _ i_heap0 t) as (_ & _ & x & st & Hx & _ & _ & _ & Hmsg & _); [eapply in_holders; left|]. rewrite Hi in Hx. by injection Hx as <-. }
  destruct (DecompressMessages_spec DecompressData (Decompress_ cfg) (task_ids t) info Hmsg) as ((S1 & S2 & S3 & S4 & S5 & S6 & S7 & S8) & _ & _).
  rewrite <- H1 in *. unfold run_state. split; rs_simpl; try done.
  - by eapply heap_run.
  - acct_destruct i_acct0. split; rewrite ?(zsum_insert _ _ _ _ _ Hi); cbn [info_upd_sizes info_Compressed info_Decompressed ServerBytesSize].
    + lia.
    + intros Ha. specialize (a_decompressed0 Ha). rewrite <- app_comm_cons, zsum_cons in *. cbn [est_held] in *. lia.
    + intros Ha. specialize (a_budget0 Ha). lia.
    + intros a [->|Ha]%elem_of_cons; [done|]. apply a_held0. by right.
  - eapply Forall_impl; [exact i_queue0|]. intros j. eapply alive_insert; [exact Hi|done].
  - by apply UpdateRatio_ok.
Qed.

Lemma RunDecompressionTask_inv k s t cur : inv' (kw_cur (RunTask t :: cur) k) s -> k_cl k = true -> k_wait k = true ->
  wpa (RunDecompressionTask DecompressData t) (fun _ s' => inv' (kw_run (k_run k - 1) (kw_flow true (kw_cur cur k))) s') s.
Proof.
  intros H Hc Hw. pose proof (i_heap _ _ _ _ H) as Hh. pose proof (i_cfg _ _ _ _ H) as Hs.
  destruct (h_task _ _ _ _ Hh t) as (_ & _ & info & st & Hi & _ & _ & _ & Hmsg & _); [eapply in_holders; left|].
  unfold RunDecompressionTask. rs_steps. rewrite Hs. set (info1 := DecompressMessages DecompressData (Decompress_ cfg) (task_ids t) info).
  assert (alter (DecompressMessages DecompressData (Decompress_ cfg) (task_ids t)) (task_Parent t) (Infos s) !! task_Parent t = Some info1) as Hi1 by (by rewrite list_lookup_alter_eq, Hi).
  apply (wpE_get_info _ info1); [done|]. destruct (DecompressMessages_spec DecompressData (Decompress_ cfg) (task_ids t) info Hmsg) as ((S1 & S2 & S3 & S4 & S5 & S6 & S7 & S8) & _ & Hmine).
  destruct (decompressed_size (Decompress_ cfg) info1 (task_ids t) Hmine) as [En Hn0]. cbv zeta. rewrite En. clear En.
  unfold OnDataDecompressed. rs_steps. apply (wpE_get_info _ info1); [done|]. rs_steps.
  pose proof (inv_run k s t cur info info1 _ H Hi eq_refl eq_refl Hn0) as H'. set (n := zsum _ (task_ids t)) in *. fold info1 in S3, S4, S5.
  rewrite <- S3, <- S4, <- S5 in H'. rewrite <- (run_state_eq t info info1 _ _ _ s Hi eq_refl) in H'.
  assert (forall s', inv' (kw_flow true (kw_cur (TaskDecompressed t n :: cur) k)) s' ->
    inv' (kw_run (k_run k - 1) (kw_flow true (kw_cur cur k))) (set_Pending (Pending s' ++ [TaskDecompressed t n]) s')) as Hpush.
  { intros s' Hs'. by apply (inv_push cfg b0 (kw_flow true k) s' (TaskDecompressed t n) cur). }
  apply (wpE_mono _ _ (fun _ s' => inv' (kw_flow true (kw_cur (TaskDecompressed t n :: cur) k)) s')); [|intros [] s' Hs'; rs_steps; by apply Hpush].
  match goal with |- wpE _ (if ?b then _ else _) _ _ => destruct b eqn:Ea end.
  - rs_steps. eapply inv_aborting; [exact Ea|exact H'].
  - eapply wpE_mono; [apply (return_budget_inv cfg b0 Hcfg); [exact H'|done|done]|]. intros [] s' Hs'. exact Hs'.
Qed.

Lemma inv_finished k s : inv' k s -> inv' (kw_run (k_run k - 1) k) (set_Pending (Pending s ++ [TaskFinished]) s).
Proof. intros H. apply (inv_post cfg b0 k s [TaskFinished]); [done|]. constructor; [by right|done]. Qed.

(** The messages of the task become ready. *)
Lemma inv_ready k s t n cur info : inv' (kw_cur (TaskDecompressed t n :: cur) k) s -> Infos s !! task_Parent t = Some info ->
  ReadyThresholds info !! task_Ready t = Some InProcess ->
  inv' (kw_cur cur k) (set_Infos (set_state (task_Parent t) (task_Ready t) Ready (Infos s)) s).
Proof.
  intros H Hi Hst. inv_destruct H. split; rs_simpl; try done.
  - by eapply heap_finish.
  - acct_destruct i_acct0. unfold set_state. split; rewrite ?zsum_alter_same by done; try done.
    intros a Ha. apply a_held0. by right.
  - eapply Forall_impl; [exact i_queue0|]. intros j. by apply alive_sizes.
Qed.

(** The task was given up and nobody has it any more. *)
Definition over (t : TDecompressionTask) (s : rs) : Prop :=
  (exists info, Infos s !! task_Parent t = Some info /\ ReadyThresholds info !! task_Ready t = Some Cleanup) /\
  (forall t', t' ∈ holders (Infos s) (Pending s) -> task_key t' <> task_key t).

Lemma Continue_over t s : over t s -> wpP ContinueReadingDataImpl (fun _ s' => over t s') s.
Proof.
  intros H. unfold ContinueReadingDataImpl, GetCompressedDataSizeLimit, WriteToProcessorImpl. rs_steps. destruct (_ || _)%bool; [by rs_steps|]. rs_steps.
  unfold wpE at 1. destruct (f64_to_int _); [|done]. destruct (_ <? _); [|by rs_steps]. rs_steps. destruct (_ <? _); [|by rs_steps].
  destruct (_ <=? _); [by rs_steps|]. rs_steps. destruct (_ <=? _); by rs_steps.
Qed.

Lemma over_tasks t s i info left_ started l : over t s -> Infos s !! i = Some info -> Tasks info = started ++ left_ ->
  concat (map action_tasks l) = started -> over t (set_Pending (Pending s ++ l) (set_Infos (alter (info_set_tasks left_) i (Infos s)) s)).
Proof.
  intros [(x & Hx & Hst) Hno] Hi Ht Hl. split; rs_simpl.
  - destruct (decide (i = task_Parent t)) as [E|Hne]; [|exists x; by rewrite list_lookup_alter_ne].
    rewrite <- E in *. rewrite Hi in Hx. injection Hx as <-. exists (info_set_tasks left_ info). by rewrite list_lookup_alter_eq, Hi.
  - intros t' Ht'. apply Hno. pose proof (holders_alter (info_set_tasks left_) i info (Infos s) (Pending s) Hi) as Hp. cbn [info_set_tasks Tasks] in Hp.
    rewrite holders_app, Hl in Ht'. assert (t' ∈ Tasks info ++ holders (Infos s) (Pending s)) as Hin.
    { rewrite elem_of_app in Ht'. destruct Ht' as [Ht'|Ht']; [rewrite elem_of_app, Ht, elem_of_app; by left; left|].
      assert (t' ∈ Tasks info ++ holders (alter (info_set_tasks left_) i (Infos s)) (Pending s)) as Hin by (rewrite elem_of_app; by right).
      rewrite Hp in Hin. apply elem_of_app in Hin as [?|?]; rewrite elem_of_app; [left; rewrite Ht, elem_of_app; by right|by right]. }
    apply elem_of_app in Hin as [Hin|?]; [|done]. unfold holders. rewrite elem_of_app. left. apply list_elem_of_In, in_concat. exists (Tasks info).
    split; [apply in_map, list_elem_of_In; by eapply list_elem_of_lookup_2|by apply list_elem_of_In].
Qed.

Lemma wpP_get_info i (Q : TDataDecompressionInfo -> rs -> Prop) s : (forall info, Infos s !! i = Some info -> Q info s) -> wpP (get_info i) Q s.
Proof. intros H. unfold wpE, get_info. destruct (Infos s !! i); [by apply H|done]. Qed.

Lemma over_ext t s s' : Infos s' = Infos s -> Pending s' = Pending s -> over t s -> over t s'.
Proof. unfold over. by intros -> ->. Qed.

Lemma over_add t s l : over t s -> concat (map action_tasks l) = [] -> over t (set_Pending (Pending s ++ l) s).
Proof. intros [H1 H2] Hl. split; rs_simpl; [done|]. intros t'. rewrite holders_app, Hl. apply H2. Qed.

Lemma StartLoop_over t limit q : forall s, over t s -> wpP (StartLoop limit q) (fun _ s' => over t s') s.
Proof.
  induction q as [|i q IH]; intros s H; cbn [StartLoop]; [by rs_steps|]. apply wpE_bind, wpE_may_start; [done|].
  intros []; [|by rs_steps].
  unfold StartDecompressionTasks. rs_steps. apply wpP_get_info. intros info Hi. destruct (StartTasks _ (Tasks info)) as [[used started] left_] eqn:E. rs_steps.
  destruct (StartTasks_spec _ _ _ _ _ E) as [Ht _]. assert (concat (map action_tasks (map RunTask started)) = started) as Hl.
  { clear. induction started as [|x l IHl]; cbn; [done|by rewrite IHl]. }
  pose proof (over_tasks t s i info left_ started _ H Hi Ht Hl) as H'.
  match goal with |- wpE _ _ _ ?s1 => assert (over t s1) as H1 by (eapply over_ext; [..|exact H']; reflexivity); clear H'; revert H1; generalize s1 end.
  intros s1 H1. apply wpP_get_info. intros info1 _. destruct (Tasks info1) as [|? ?]; [|by rs_steps]. rs_steps. apply IH.
  eapply over_ext; [..|apply (over_add t s1 [CleanupInfo i] H1 eq_refl)]; reflexivity.
Qed.

Lemma Start_over t s : over t s -> wpP StartDecompressionTasksImpl (fun _ s' => over t s') s.
Proof.
  intros H. unfold StartDecompressionTasksImpl, GetDecompressedDataSizeLimit, GetCompressedDataSizeLimit. rs_steps.
  destruct (Aborting s); [by rs_steps|]. rs_steps. unfold wpE at 1. destruct (f64_to_int _); [|done]. rs_steps; [apply Z.gtb_lt; lia|]. by apply StartLoop_over.
Qed.

Lemma over_sizes t s i c d sb : over t s -> over t (sizes_state i c d sb s).
Proof.
  intros [(x & Hx & Hst) Hno]. split; unfold sizes_state; rs_simpl.
  - destruct (decide (i = task_Parent t)) as [E|Hne]; [|exists x; by rewrite list_lookup_alter_ne].
    rewrite <- E in *. exists (info_upd_sizes c d sb x). by rewrite list_lookup_alter_eq, Hx.
  - by rewrite (holders_tasks (Infos s)) by (by apply fmap_alter_same).
Qed.

Lemma OnUserRetrievedEvent_over t s i n : over t s -> wpP (OnUserRetrievedEvent i n) (fun _ s' => over t s') s.
Proof.
  intros H. unfold OnUserRetrievedEvent. rs_steps. apply wpP_get_info. intros info Hi. rs_steps.
  pose proof (over_sizes t s i (info_Compressed info) (info_Decompressed info - n) (ServerBytesSize info) H) as H'. unfold sizes_state in H'.
  revert H'. generalize (set_Infos (alter (info_upd_sizes (info_Compressed info) (info_Decompressed info - n) (ServerBytesSize info)) i (Infos s)) s). intros s1 H1.
  destruct (Aborting s1); [by rs_steps|]. unfold abort_unless. destruct (_ <=? _); [|done]. rs_steps.
  eapply wpE_mono; [apply Continue_over; by eapply over_ext; [..|exact H1]|]. intros [] s2 H2. by apply Start_over.
Qed.

Lemma inv_abandoned k s t : inv' k s -> k_cur k = [] -> over t s ->
  inv' k (set_Infos (set_state (task_Parent t) (task_Ready t) Abandoned (Infos s)) s).
Proof.
  intros H Hk [(info & Hi & Hst) Hno]. inv_destruct H. rewrite Hk in *. split; rewrite ?Hk; rs_simpl; try done.
  - by eapply heap_abandoned.
  - acct_destruct i_acct0. unfold set_state. split; rewrite ?zsum_alter_same by done; done.
  - eapply Forall_impl; [exact i_queue0|]. intros j. by apply alive_sizes.
Qed.

Lemma FinishDecompressionTask_inv k s t n : inv' (kw_cur [TaskDecompressed t n] k) s -> k_cur k = [] -> k_cl k = true -> k_wait k = true -> k_flow k = true ->
  wpa (FinishDecompressionTask t n) (fun _ s' => inv' (kw_run (k_run k - 1) (kw_flow true (kw_cur [] k))) s') s.
Proof.
  intros H Hk Hc Hw Hf. pose proof (i_heap _ _ _ _ H) as Hh. destruct (h_task _ _ _ _ Hh t) as (_ & _ & info & st & Hi & _ & Hst & Hor & _); [eapply in_holders; left|].
  unfold FinishDecompressionTask. rs_steps. apply (wpE_get_info _ info); [done|]. rewrite Hst.
  assert (forall s1 : rs, inv' (kw_flow true (kw_cur [] k)) s1 ->
    wpa (add_pending [TaskFinished]) (fun _ s' => inv' (kw_run (k_run k - 1) (kw_flow true (kw_cur [] k))) s') s1) as Hend.
  { intros s1 H1. rs_steps. by apply (inv_finished (kw_flow true (kw_cur [] k))). }
  destruct Hor as [-> | ->].
  - rs_steps. pose proof (inv_ready k s t n [] info H Hi Hst) as H1. apply (Hend (set_Pending _ _)).
    assert (inv' (kw_flow true (kw_cur [] k)) (set_Infos (set_state (task_Parent t) (task_Ready t) Ready (Infos s)) s)) as H2
      by (inv_destruct H1; split; rs_simpl; auto).
    apply (inv_add cfg b0 _ _ [SignalReady (PartitionStream info)] H2). constructor; [|done]. split_and!; [|done|done|done|].
    + split_and!; [done|done|]. by intros i ?%elem_of_nil.
    + intros sid ->%list_elem_of_singleton. pose proof (h_stream _ _ _ _ Hh _ _ Hi) as Hl. by rewrite length_fmap in Hl.
  - assert (over t s) as Hover.
    { split; [by exists info|]. intros t' Ht'. eapply head_alone; [apply Hh|done|done]. }
    apply wpE_bind, wpE_bind. eapply wpE_mono; [eapply wpE_and; [apply (OnUserRetrievedEvent_inv cfg b0 Hcfg k s (TaskDecompressed t n) []); [done|left|done|done|done|done]|by apply OnUserRetrievedEvent_over]|].
    intros [] s1 [H1 Ho]. rs_steps. apply (inv_finished (kw_flow true (kw_cur [] k))). by apply inv_abandoned.
Qed.

Lemma OnDecompressionTaskFinished_inv k s : inv' k s -> k_run k = 1 -> wpa OnDecompressionTaskFinished (fun _ s' => inv' (kw_run 0 k) s') s.
Proof.
  intros H Hr. unfold OnDecompressionTaskFinished. pose proof (i_inflight _ _ _ _ H) as Hi.
  assert (0 <= zsum running (Pending s)) by (apply zsum_nonneg; intros [] _; done). rs_steps; [apply Z.gtb_lt; lia|].
  inv_destruct H. split; rs_simpl; try done. lia.
Qed.

(** ** Tasks that are dropped *)

Lemma InfoCleanup_inv k s i : inv' k s -> alive (Infos s) i -> wpa (InfoCleanup i) (fun _ s' => inv' k s') s.
Proof.
  intros H Hal. pose proof Hal as (info & Hi & _). unfold InfoCleanup. rs_steps. apply (wpE_get_info _ info); [done|]. rs_steps.
  apply inv_add; [|constructor; [|done]; apply quiet_info; rs_simpl; by apply alive_sizes].
  inv_destruct H. split; rs_simpl; try done.
  - rewrite <- (app_nil_r (_ ++ _)). eapply heap_tasks; [exact Hi|done|done| |by instantiate (1 := [])]. by apply submseteq_nil_l.
  - acct_destruct i_acct0. split; rewrite ?zsum_alter_same by done; done.
  - eapply Forall_impl; [exact i_queue0|]. intros j. by apply alive_sizes.
Qed.

Lemma OnTaskCanceled_inv k s i n : inv' k s -> alive (Infos s) i -> k_cl k = true -> k_wait k = true -> k_flow k = true ->
  wpa (OnTaskCanceled i n) (fun _ s' => inv' (kw_flow true k) s') s.
Proof.
  intros H Hal Hc Hw Hf. pose proof Hal as (info & Hi & _). unfold OnTaskCanceled. rs_steps. apply (wpE_get_info _ info); [done|]. rs_steps.
  set (s1 := set_CompressedDataSize _ _). assert (inv cfg (b0 - ServerBytesSize info) (kw_flow false k) s1) as H1.
  { unfold s1. clear s1. inv_destruct H. split; rs_simpl; try done.
    - by eapply heap_sizes.
    - acct_destruct i_acct0. split; rewrite ?(zsum_alter _ _ _ _ _ Hi); cbn [info_upd_sizes info_Compressed info_Decompressed ServerBytesSize];
        [lia|intros Ha; specialize (a_decompressed0 Ha); lia|intros Ha; specialize (a_budget0 Ha); lia|done].
    - eapply Forall_impl; [exact i_queue0|]. intros j. by apply alive_sizes. }
  generalize dependent s1. intros s1 H1. destruct (Aborting s1) eqn:Ea; [rs_steps; by eapply inv_aborting|].
  eapply wpE_mono; [by apply (return_budget_inv cfg b0 Hcfg)|]. intros [] s2 H2. exact H2.
Qed.

(** ** Infos nobody refers to *)

Lemma not_referenced s i info : referenced s i = false -> Infos s !! i = Some info ->
  (i ∉ DecompressionQueue s) /\ (forall a, a ∈ Pending s -> i ∉ action_infos a) /\
  (forall RN d, RN ∈ (sq <$> Streams s) -> d ∈ RN.1 ++ RN.2 -> ev_Parent d <> i) /\ Tasks info = [].
Proof.
  unfold referenced. intros H Hi. apply orb_false_iff in H as [H Ht]. apply orb_false_iff in H as [H He]. apply orb_false_iff in H as [Hq%bool_decide_eq_false Ha].
  rewrite Hi in Ht. apply negb_false_iff, bool_decide_eq_true in Ht. split_and!; [done| | |done].
  - intros a Hin Hia. apply not_true_iff_false in Ha. apply Ha, existsb_exists. exists a. split; [by apply list_elem_of_In|by apply bool_decide_eq_true].
  - intros RN d (st & -> & Hst)%list_elem_of_fmap Hd E. apply not_true_iff_false in He. apply He, existsb_exists. exists st. split; [by apply list_elem_of_In|].
    apply existsb_exists. exists d. split; [|by apply Nat.eqb_eq]. apply list_elem_of_In. unfold qevents. by rewrite dataevs_app.
Qed.

Lemma OnDecompressionInfoDestroy_inv k s i info : inv' k s -> k_cur k = [] -> Infos s !! i = Some info -> referenced s i = false ->
  k_cl k = true -> k_wait k = true -> wpa (OnDecompressionInfoDestroy i) (fun _ s' => inv' (kw_flow true k) s') s.
Proof.
  intros H Hk Hi Href Hc Hw. destruct (not_referenced _ _ _ Href Hi) as (Hq & Ha & He & Ht). unfold OnDecompressionInfoDestroy.
  rs_steps. apply (wpE_get_info _ info); [done|]. rs_steps. rewrite (list_alter_insert _ _ _ _ Hi).
  set (s1 := set_DecompressedDataSize _ _). assert (inv cfg (b0 - ServerBytesSize info) (kw_flow false k) s1) as H1.
  { unfold s1. clear s1. inv_destruct H. rewrite Hk in *. destruct (heap_destroy _ _ _ _ _ _ i_heap0 Hi Ht He Ha) as [HD Hheap].
    split; rewrite ?Hk; rs_simpl; rewrite ?Hk; try done.
    - acct_destruct i_acct0. split; rewrite ?(zsum_insert _ _ _ _ _ Hi); cbn [info_Compressed info_Decompressed ServerBytesSize];
        [lia|intros Hx; specialize (a_decompressed0 Hx); lia|intros Hx; specialize (a_budget0 Hx); lia|done].
    - rewrite Forall_forall in *. intros j Hj. destruct (i_queue0 j Hj) as (x & Hx & Hd). exists x. split; [|done].
      rewrite list_lookup_insert_ne; [done|]. intros ->. done. }
  eapply wpE_mono; [by apply (return_budget_inv cfg b0 Hcfg _ s1 _ H1)|]. intros [] s2 H2. exact H2.
Qed.
End Actions.
