(* ===== verification/ReadQueue.v ===== *)
(** * The events queue keeps the invariant of a read session

    Signalling the events that are ready, abandoning the events of a stream that is closed,
    and taking events. *)

From S2P Require Import Prelude Float32 Float64 IntervalTree ReadCommit ReadTypes ReadSession ReadSystem ReadInv ReadHeap ReadProof.
From Stdlib Require Import SpecFloat.

(** ** The global queue *)

Lemma kinds_app sid l k : kinds sid (l ++ k) = kinds sid l ++ kinds sid k.
Proof. unfold kinds. by rewrite map_app, concat_app. Qed.

Lemma kinds_one sid e : kinds sid [e] = if decide (ei_Stream e = sid) then kinds_of e else [].
Proof. unfold kinds. cbn [map concat]. by rewrite app_nil_r. Qed.

Lemma list_last_cases {A} (l : list A) : (l = [] /\ last l = None) \/ exists l' x, l = l' ++ [x] /\ last l = Some x /\ removelast l = l'.
Proof.
  destruct l as [|x l' _] using rev_ind; [by left|right]. exists l', x. split_and!; [done|by rewrite last_snoc|by rewrite removelast_last].
Qed.

Lemma kinds_signal sid b n events sid' : Forall (entry_ok n) events ->
  kinds sid' (SignalEvent sid b events) = kinds sid' events ++ if decide (sid = sid') then [b] else [].
Proof.
  intros Hok. unfold SignalEvent. destruct (list_last_cases events) as [[-> ->]|(l & e & -> & -> & ->)].
  { by rewrite kinds_one. }
  apply Forall_app in Hok as [_ Hok]. inversion Hok as [|? ? (Hpos & _) _]; subst.
  destruct (HasDataEvents e && b && (ei_Stream e =? sid)%nat)%bool eqn:E; rewrite !kinds_app, !kinds_one; cbn [ei_Stream]; [|done].
  apply andb_true_iff in E as [E Es%Nat.eqb_eq]. apply andb_true_iff in E as [Eh ->]. subst sid. rewrite <- app_assoc. f_equal.
  destruct (decide (ei_Stream e = sid')); [|done]. unfold kinds_of. cbn [EventsCount HasDataEvents]. rewrite Eh.
  rewrite Z2Nat.inj_add by lia. by rewrite replicate_add.
Qed.

Lemma entries_signal sid b n events : Forall (entry_ok n) events -> (sid < n)%nat -> Forall (entry_ok n) (SignalEvent sid b events).
Proof.
  intros Hok Hs. unfold SignalEvent. assert (entry_ok n (mkEventInfo sid b 1)) as H1 by done.
  destruct (list_last_cases events) as [[-> ->]|(l & e & -> & -> & ->)]; [by constructor|].
  destruct (HasDataEvents e && b && (ei_Stream e =? sid)%nat)%bool eqn:E; [|apply Forall_app; split; [done|by constructor]].
  apply Forall_app in Hok as [Hl He]. apply Forall_app. split; [done|]. inversion He as [|? ? (H2 & H3 & H4) _]; subst. constructor; [|done].
  apply andb_true_iff in E as [E _]. apply andb_true_iff in E as [E _]. split_and!; cbn; [lia|congruence|done].
Qed.

(** One more event was given to the user. *)
Lemma agree_signal closed events rdy sid l b : agree_ok closed events rdy -> rdy !! sid = Some l ->
  agree_ok closed (if closed then events else SignalEvent sid b events) (<[sid := l ++ [b]]> rdy).
Proof.
  unfold agree_ok. destruct closed; [done|]. intros [Hok Hk] Hs. rewrite length_insert. split; [apply entries_signal; [done|by eapply lookup_lt_Some]|].
  intros sid' l' [[<- ->]|[Hne Hl]]%insert_cases; rewrite (kinds_signal _ _ (length rdy)) by done.
  - rewrite decide_True by done. by rewrite (Hk _ _ Hs).
  - rewrite decide_False, app_nil_r by done. auto.
Qed.

Lemma agree_same closed events rdy sid l : agree_ok closed events rdy -> rdy !! sid = Some l -> agree_ok closed events (<[sid := l]> rdy).
Proof. intros H Hs. by rewrite list_insert_id. Qed.

(** ** What is taken *)

Lemma taken_nonneg dd infos evs pend d : heap_ok dd infos evs pend -> 0 <= DataSize (taken_data dd infos d).
Proof.
  intros H. unfold taken_data. destruct (infos !! ev_Parent d) as [info|] eqn:Hi; [|done]. unfold TakeData.
  destruct (DecompressedData info !! ev_Message d) as [x|] eqn:Hx.
  - change (default (mkData [] 0 0) (Some x)) with x. pose proof (h_data _ _ _ _ H _ _ _ _ Hi Hx) as Hok.
    destruct (data_ok_prepared _ _ _ _ Hx Hok) as (_ & Hn & E). unfold TakeData in E. rewrite Hx in E. change (default (mkData [] 0 0) (Some x)) with x in E. cbv zeta in *. lia.
  - cbn. unfold BuildDecompressedData. destruct (message_at _ _) as [[c m]|]; [|done]. destruct dd; [done|]. cbn. unfold size. lia.
Qed.

Lemma taken_size dd infos evs pend sid R N d : heap_ok dd infos evs pend -> evs !! sid = Some (R, N) -> d ∈ R ++ N -> state_of infos d = Ready ->
  DataSize (taken_data dd infos d) = prepared_size infos d /\ alive infos (ev_Parent d).
Proof.
  intros H Hs Hd Hr. destruct (h_event _ _ _ _ H sid R N Hs) as [HR HN]. rewrite Forall_forall in HR, HN.
  assert (exists g, event_in infos sid g d) as (g & info & st & Hi & Hdes & _ & Hst & Hor)
    by (apply elem_of_app in Hd as [Hd|Hd]; [exists true; auto|exists false; auto]).
  unfold state_of in Hr. rewrite Hi, Hst in Hr. cbn in Hr. subst st. destruct Hor as [[? _]|[_ [x Hx]]]; [done|].
  unfold taken_data, prepared_size. rewrite Hi. destruct (data_ok_prepared _ _ _ _ Hx (h_data _ _ _ _ H _ _ _ _ Hi Hx)) as (-> & _ & ->).
  split; [done|by exists info].
Qed.

Lemma acc_fold_nonneg {A} (p : A -> nat) (f : A -> Z) l : (forall x, x ∈ l -> 0 <= f x) -> forall acc, Forall (fun jn => 0 <= jn.2) acc ->
  Forall (fun jn => 0 <= jn.2) (foldl (fun acc x => acc_Add (p x) (f x) acc) acc l).
Proof.
  induction l as [|x l IH]; intros Hf acc Hacc; [done|]. cbn [foldl]. apply IH; [intros y Hy; apply Hf; by right|].
  assert (0 <= f x) as Hx by (apply Hf; left). clear IH Hf. induction acc as [|[j n] acc IH]; cbn [acc_Add]; [by constructor|]. inversion Hacc; subst.
  destruct (p x =? j)%nat; constructor; cbn in *; try done; [lia|by apply IH].
Qed.

(** The accumulator holds what the events held. *)
Lemma acc_counted dd infos evs pend sid R N taken acc i : heap_ok dd infos evs pend -> evs !! sid = Some (R, N) ->
  Forall (fun d => state_of infos d = Ready) taken -> (forall d, d ∈ taken -> d ∈ R ++ N) ->
  acc_at i (foldl (fun acc d => acc_Add (ev_Parent d) (DataSize (taken_data dd infos d)) acc) acc taken) = acc_at i acc + zsum (counted infos i) taken.
Proof.
  intros H Hs Hr Hin. rewrite (acc_at_fold ev_Parent (fun d => DataSize (taken_data dd infos d))). f_equal. rewrite Forall_forall in Hr. apply zsum_ext.
  intros d Hd. unfold counted. destruct (taken_size _ _ _ _ _ _ _ d H Hs (Hin d Hd) (Hr d Hd)) as [E _]. rewrite <- E. specialize (Hr d Hd). repeat case_decide; tauto.
Qed.

Section Queue.
Context (cfg : read_settings) (b0 : Z) (Hcfg : settings_ok cfg) {extra : failure -> Prop}.
Local Abbreviation inv' := (inv cfg b0).
Local Abbreviation wpa := (wpE (allowed extra)).

(** ** Changes of one stream's queue *)

Definition q_state (sid : nat) (st' : TStream) (infos : list TDataDecompressionInfo) (events : list TReadSessionEventInfo) (pend : list action) (s : rs) : rs :=
  set_Pending pend (set_Events events (set_Infos infos (set_Streams (<[sid := st']> (Streams s)) s))).

Lemma inv_q k s sid st st' infos events pend cur ex : inv' k s -> Streams s !! sid = Some st -> stream st' = stream st ->
  heap_ok (Decompress_ cfg) infos (<[sid := sq st']> (sq <$> Streams s)) (cur ++ pend) ->
  acct_ok b0 (Aborting s) (CompressedDataSize s) (DecompressedDataSize s) (ReadSizeBudget s) (ReadSizeServerDelta s) (LostBytes s) infos (cur ++ pend) ->
  zsum running pend = zsum running (Pending s) -> Forall (alive infos) (DecompressionQueue s) ->
  agree_ok (Closed s) events (<[sid := given st']> (given <$> Streams s)) ->
  (forall sid', sid' ∈ concat (map action_sids pend) -> (sid' < length (Streams s))%nat) ->
  (HasDataEventCallback cfg = true -> dataevs (ReadyEvents (queue st')) = []) -> (exists rest, Queued st' = rest_of st' ++ rest) ->
  (Closed s = false -> sid ∉ ex -> (exists a, PartitionStreams s !! a = Some sid) -> Queued st' = rest_of st') ->
  (forall x, x ∈ k_ex k -> x ∈ ex) ->
  inv' (kw_ex ex (kw_cur cur k)) (q_state sid st' infos events pend s).
Proof.
  intros H Hs Hst Hheap Hacct Hrun Hal Hagree Hsids Ho0 Ho1 Ho2 Hex. inv_destruct H. unfold q_state. split; rs_simpl; try done.
  - by rewrite list_fmap_insert.
  - by rewrite Hrun.
  - by rewrite list_fmap_insert.
  - destruct i_streams0 as [Hm Hi]. split.
    + intros a x Hx. destruct (Hm a x Hx) as (y & Hy & Ha). destruct (lookup_insert_cases _ _ _ st' _ _ Hs Hy) as (w & Hw & [(<- & -> & ->)|(_ & ->)]); eexists; (split; [done|congruence]).
    + intros x y Hy. destruct (insert_lookup_cases _ _ _ _ _ _ Hs Hy) as (w & Hw & [(<- & -> & ->)|(_ & ->)]); [rewrite Hst|]; by eapply Hi.
  - intros x Hx. rewrite length_insert. apply elem_of_app in Hx as [Hx|Hx]; [apply i_sids0; rewrite elem_of_app; by left|by apply Hsids].
  - intros x y Hy. destruct (insert_lookup_cases _ _ _ _ _ _ Hs Hy) as (w & Hw & [(<- & -> & ->)|(_ & ->)]); [done|].
    destruct (i_order0 x w Hw) as (H0 & H1 & H2). split_and!; [done..|]. intros Hc Hx. apply H2; [done|]. intros Hin. by apply Hx, Hex.
Qed.

(** A queue of which nothing but other events changes. *)
Lemma heap_other dd infos streams pend sid st st' : heap_ok dd infos (sq <$> streams) pend -> streams !! sid = Some st -> sq st' = sq st ->
  heap_ok dd infos (<[sid := sq st']> (sq <$> streams)) pend.
Proof. intros H Hs E. rewrite E, list_insert_id; [done|]. by rewrite list_lookup_fmap, Hs. Qed.

(** ** Signalling *)

(** The conditions on actions that are added. *)
Lemma heap_add_actions k s l : inv' k s -> Forall (quiet s) l ->
  heap_ok (Decompress_ cfg) (Infos s) (sq <$> Streams s) (k_cur k ++ Pending s ++ l) /\
  acct_ok b0 (Aborting s) (CompressedDataSize s) (DecompressedDataSize s) (ReadSizeBudget s) (ReadSizeServerDelta s) (LostBytes s) (Infos s) (k_cur k ++ Pending s ++ l) /\
  zsum running (Pending s ++ l) = zsum running (Pending s) /\
  (forall sid, sid ∈ concat (map action_sids (Pending s ++ l)) -> (sid < length (Streams s))%nat).
Proof.
  intros H Hl. pose proof (i_inflight _ _ _ _ H) as Hi. apply (inv_add cfg b0 k s l) in H; [|done]. inv_destruct H. rs_simpl. split_and!; [done|done|lia|].
  intros sid Hs. apply i_sids0. rewrite elem_of_app. by right.
Qed.

Lemma SignalEventImpl_eq sid b s : SignalEventImpl sid b s = Ok (tt, set_Events (if Closed s then Events s else SignalEvent sid b (Events s)) s).
Proof. unfold SignalEventImpl, upd, modify, gets, mbind, M_bind. by destruct s as [? ? ? ? ? ? ? []]. Qed.

Lemma inv_ctx k s : inv' (kw_ex (k_ex k) (kw_cur (k_cur k) k)) s -> inv' k s.
Proof. by destruct k. Qed.

(** The first event that waits is given to the user. *)
Definition given_stream (st : TStream) (front : TRawPartitionStreamEvent) (rest : list TRawPartitionStreamEvent) : TStream :=
  set_queue (mkQueue (ReadyEvents (queue st) ++ [front]) rest) st.

Lemma inv_give k s sid st front rest : inv' k s -> Streams s !! sid = Some st -> NotReady (queue st) = front :: rest ->
  match front with DataEvent d => state_of (Infos s) d = Ready /\ HasDataEventCallback cfg = false | OtherEvent _ => True end ->
  inv' k (q_state sid (given_stream st front rest) (Infos s)
    (if Closed s then Events s else SignalEvent sid (IsDataEvent front) (Events s)) (Pending s) s).
Proof.
  intros H Hs Hq Hf. apply inv_ctx. pose proof (i_order _ _ _ _ H sid st Hs) as (Hcb & Ho1 & Ho2).
  assert (rest_of (given_stream st front rest) = rest_of st) as Hr.
  { unfold rest_of, given_stream. cbn [queue set_queue ReadyEvents NotReady Taken]. rewrite Hq, dataevs_app, !dataevs_cons, <- app_assoc. by destruct front. }
  eapply inv_q; [exact H|exact Hs|done| |apply H|done|apply H| | |intros Hc| | |done]; rewrite ?Hr; try done.
  - pose proof (i_heap _ _ _ _ H) as Hh. destruct front as [d|e].
    + unfold sq, given_stream. cbn [queue set_queue ReadyEvents NotReady]. rewrite dataevs_app.
      eapply (heap_queue _ _ _ _ _ sid _ _ [d]); [exact Hh|by rewrite list_lookup_fmap, Hs|by rewrite Hq|by constructor; [apply Hf|]| |done|done| |apply Hh].
      * intros x Hx. exact Hx.
      * intros i. unfold sq. rewrite Hq, dataevs_cons, <- app_assoc. done.
    + apply (heap_other _ _ _ _ _ st); [done|done|]. unfold sq, given_stream. cbn [queue set_queue ReadyEvents NotReady]. rewrite Hq, dataevs_app, !dataevs_cons. cbn. by rewrite app_nil_r.
  - unfold given at 1, given_stream. cbn [queue set_queue ReadyEvents]. rewrite map_app. apply agree_signal; [apply H|]. by rewrite list_lookup_fmap, Hs.
  - intros sid' Hin. apply (i_sids _ _ _ _ H). rewrite elem_of_app. by right.
  - unfold given_stream. cbn [queue set_queue ReadyEvents]. rewrite dataevs_app, Hcb by done. destruct front; [|done]. destruct Hf. congruence.
Qed.

(** An event other than data goes to its handler. *)
Lemma inv_apply k s sid st e rest : inv' k s -> Streams s !! sid = Some st -> NotReady (queue st) = OtherEvent e :: rest ->
  inv' k (q_state sid (set_queue (mkQueue (ReadyEvents (queue st)) rest) st) (Infos s) (Events s) (Pending s ++ [EventHandler sid e]) s).
Proof.
  intros H Hs Hq. apply inv_ctx. pose proof (i_order _ _ _ _ H sid st Hs) as (Hcb & Ho1 & Ho2).
  set (st' := set_queue _ st). assert (rest_of st' = rest_of st /\ sq st' = sq st) as [Hr Hsq].
  { unfold rest_of, sq, st'. cbn [queue set_queue ReadyEvents NotReady Taken]. by rewrite Hq, dataevs_cons. }
  assert (quiet s (EventHandler sid e)) as Hquiet.
  { split_and!; [|done|done|done|]; [split_and!; [done|done|by intros i ?%elem_of_nil]|]. intros x ->%list_elem_of_singleton. by eapply lookup_lt_Some. }
  destruct (heap_add_actions k s [EventHandler sid e] H ltac:(by constructor)) as (H1 & H2 & H3 & H4).
  eapply inv_q; [exact H|exact Hs|done|by apply (heap_other _ _ _ _ _ st)|exact H2|exact H3|apply H| |exact H4|exact Hcb|by rewrite Hr|by rewrite Hr|done].
  change (given st') with (given st). apply agree_same; [apply H|]. by rewrite list_lookup_fmap, Hs.
Qed.

(** The acts of giving data to the user with an accumulator. *)
Definition taken_stream (st : TStream) (q : TRawPartitionStreamEventQueue) (taken : list TDataDecompressionEvent) : TStream :=
  mkTStream (stream st) q (HasCbContext st) (Queued st) (Taken st ++ taken).

(** Data that waits goes to its handler. *)
Lemma inv_take k s sid st taken left_ msgs : inv' k s -> Streams s !! sid = Some st -> HasDataEventCallback cfg = true ->
  NotReady (queue st) = map DataEvent taken ++ left_ -> Forall (fun d => state_of (Infos s) d = Ready) taken ->
  inv' k (q_state sid (taken_stream st (mkQueue (ReadyEvents (queue st)) left_) taken) (Infos s) (Events s)
    (Pending s ++ [DataHandler sid msgs (taken_acc (Decompress_ cfg) (Infos s) taken)]) s).
Proof.
  intros H Hs Hc Hq Hr. apply inv_ctx. pose proof (i_order _ _ _ _ H sid st Hs) as (Hcb & Ho1 & Ho2). specialize (Hcb Hc).
  set (st' := taken_stream _ _ _). pose proof (i_heap _ _ _ _ H) as Hh. pose proof (i_acct _ _ _ _ H) as Hacct.
  assert ((sq <$> Streams s) !! sid = Some (dataevs (ReadyEvents (queue st)), dataevs (NotReady (queue st)))) as Hevs by (by rewrite list_lookup_fmap, Hs).
  assert (dataevs (NotReady (queue st)) = taken ++ dataevs left_) as HN by (by rewrite Hq, dataevs_app, dataevs_data).
  assert (rest_of st' = rest_of st) as Hrest by (unfold rest_of, st'; cbn [taken_stream queue ReadyEvents NotReady Taken]; by rewrite HN, Hcb, <- app_assoc).
  assert (forall d, d ∈ taken -> d ∈ dataevs (ReadyEvents (queue st)) ++ dataevs (NotReady (queue st))) as Hin by (intros d Hd; rewrite HN, !elem_of_app; auto).
  set (acc := taken_acc _ _ _). assert (forall i, acc_at i acc = zsum (counted (Infos s) i) taken) as Hacc.
  { intros i. unfold acc, taken_acc. rewrite (acc_counted _ _ _ _ _ _ _ _ [] i Hh Hevs Hr Hin). done. }
  assert (Forall (fun jn => 0 <= jn.2) acc) as Hpos.
  { apply (acc_fold_nonneg ev_Parent (fun d => DataSize (taken_data (Decompress_ cfg) (Infos s) d))); [|done]. intros d _. by eapply taken_nonneg. }
  eapply inv_q; [exact H|exact Hs|done| | | |apply H| | |done|by rewrite Hrest|by rewrite Hrest|done].
  - eapply (heap_queue _ _ _ _ _ sid _ _ taken); [exact Hh|exact Hevs|exact HN|exact Hr|intros d Hd; rewrite elem_of_app; by left| | | |].
    + rewrite !app_assoc, holders_app. cbn. done.
    + intros t n. rewrite !app_assoc. intros [?|Hx%list_elem_of_singleton]%elem_of_app; done.
    + intros i. rewrite HN, !app_assoc, !zsum_app, zsum_cons, zsum_nil. cbn [act_held]. rewrite Hacc. unfold st'. cbn [taken_stream queue ReadyEvents NotReady]. lia.
    + intros a i. rewrite !app_assoc. intros [Ha| ->%list_elem_of_singleton]%elem_of_app Hi; [by eapply Hh|]. cbn [action_infos] in Hi. unfold acc, taken_acc in Hi.
      apply acc_fold_infos in Hi as [Hi|(d & -> & Hd)%list_elem_of_fmap]; [by apply elem_of_nil in Hi|]. rewrite Forall_forall in Hr.
      by eapply taken_size; [exact Hh|exact Hevs|apply Hin|apply Hr].
  - acct_destruct Hacct. split; try done.
    + intros Ha. rewrite !app_assoc, zsum_app, zsum_cons, zsum_nil. cbn [est_held]. specialize (a_decompressed0 Ha). lia.
    + intros a. rewrite !app_assoc. intros [Ha| ->%list_elem_of_singleton]%elem_of_app; [by apply a_held0|]. apply Hpos.
  - rewrite zsum_app, zsum_cons, zsum_nil. cbn [running]. lia.
  - change (given st') with (given st). apply agree_same; [apply H|]. by rewrite list_lookup_fmap, Hs.
  - intros sid'. rewrite map_app, concat_app. cbn. rewrite app_nil_r. intros Hx. apply (i_sids _ _ _ _ H). rewrite elem_of_app. by right.
Qed.

Lemma wpE_signal E sid b (Q : unit -> rs -> Prop) s :
  Q tt (set_Events (if Closed s then Events s else SignalEvent sid b (Events s)) s) -> wpE E (SignalEventImpl sid b) Q s.
Proof. unfold wpE. by rewrite SignalEventImpl_eq. Qed.

(** The forms in which the code updates a stream's queue. *)
Lemma q_state_events f sid st ev s : Streams s !! sid = Some st ->
  set_Streams (alter f sid (Streams (set_Events ev s))) (set_Events ev s) = q_state sid (f st) (Infos s) ev (Pending s) s.
Proof. intros Hs. rs_simpl. rewrite (list_alter_insert _ _ _ _ Hs). by destruct s. Qed.

Lemma q_state_before f sid st l s : Streams s !! sid = Some st ->
  set_Streams (alter f sid (Streams (set_Pending (Pending s ++ l) s))) (set_Pending (Pending s ++ l) s) = q_state sid (f st) (Infos s) (Events s) (Pending s ++ l) s.
Proof. intros Hs. rs_simpl. rewrite (list_alter_insert _ _ _ _ Hs). by destruct s. Qed.

Lemma q_state_after f sid st l s : Streams s !! sid = Some st ->
  set_Pending (Pending (set_Streams (alter f sid (Streams s)) s) ++ l) (set_Streams (alter f sid (Streams s)) s) = q_state sid (f st) (Infos s) (Events s) (Pending s ++ l) s.
Proof. intros Hs. rs_simpl. rewrite (list_alter_insert _ _ _ _ Hs). by destruct s. Qed.

Lemma q_state_lookup sid st st' infos ev p s : Streams s !! sid = Some st -> Streams (q_state sid st' infos ev p s) !! sid = Some st'.
Proof. intros Hs. apply list_lookup_insert_eq. by eapply lookup_lt_Some. Qed.

Lemma stream_of k s sid : inv' k s -> sid ∈ k_sids k -> exists st, Streams s !! sid = Some st.
Proof. intros H Hin. apply lookup_lt_is_Some, (i_sids _ _ _ _ H). rewrite elem_of_app. by left. Qed.

Lemma waiting_state k s sid st d rest : inv' k s -> Streams s !! sid = Some st -> NotReady (queue st) = DataEvent d :: rest ->
  (state_of (Infos s) d = Ready /\ IsReady (Infos s) (DataEvent d) = true) \/ (state_of (Infos s) d = InProcess /\ IsReady (Infos s) (DataEvent d) = false).
Proof.
  intros H Hs Hq. destruct (h_event _ _ _ _ (i_heap _ _ _ _ H) sid (dataevs (ReadyEvents (queue st))) (dataevs (NotReady (queue st)))) as [_ HN]; [by rewrite list_lookup_fmap, Hs|].
  rewrite Hq, dataevs_cons in HN. inversion HN as [|? ? Hd _]; subst. unfold IsReady. destruct (event_in_state _ _ _ _ Hd) as [E|[E _]]; rewrite E; auto.
Qed.

Lemma SignalLoop_inv sid fuel : forall k s st, inv' k s -> Streams s !! sid = Some st -> (length (NotReady (queue st)) < fuel)%nat ->
  wpa (SignalLoop fuel sid) (fun _ s' => inv' k s') s.
Proof.
  induction fuel as [|fuel IH]; intros k s st H Hs Hlen; [lia|]. cbn [SignalLoop]. rs_steps. apply (wpE_get_stream _ st); [done|]. rs_steps.
  destruct (NotReady (queue st)) as [|front rest] eqn:Hq; [by rs_steps|]. cbn [length] in Hlen.
  destruct front as [d|e].
  - destruct (waiting_state _ _ _ _ _ _ H Hs Hq) as [[Hr Hir]|[Hr Hir]]; rewrite Hir; unfold IsAbandoned; rewrite Hr; cbn [orb]; [|by rs_steps].
    rewrite (i_cfg _ _ _ _ H). destruct (HasDataEventCallback cfg) eqn:Ecb.
    + destruct (TakeEvents _ _ _ _ _) as [[[taken left_] c'] b'] eqn:Et.
      destruct Hcfg as [_ Hmax]. pose proof (i_heap _ _ _ _ H) as Hh.
      destruct (TakeEvents_spec _ _ _ _ _ _ _ _ _ Et) as (Hsplit & Hready & _); [lia|lia|intros x; left; apply Z.le_ge; by eapply taken_nonneg|].
      assert (taken <> []) as Hne by (eapply TakeEvents_progress; [exact Et|done|lia|lia]).
      unfold take_from. rs_steps. rewrite (q_state_after _ sid st) by done. rewrite <- Hq in Hsplit.
      pose proof (inv_take _ _ _ _ _ _ (taken_messages (Decompress_ cfg) (Infos s) taken) H Hs Ecb Hsplit Hready) as H'.
      eapply IH; [exact H'|by eapply q_state_lookup|]. cbn [taken_stream queue NotReady]. rewrite Hq in Hsplit.
      destruct taken as [|x taken]; [done|]. injection Hsplit as _ Hsplit. rewrite Hsplit, length_app in Hlen. lia.
    + rs_steps. apply wpE_signal. rs_steps. rewrite (q_state_events _ sid st) by done.
      eapply IH; [by apply (inv_give k s sid st (DataEvent d) rest H Hs Hq)|by eapply q_state_lookup|]. cbn. lia.
  - cbn [IsReady IsAbandoned orb]. unfold TryApplyCallbackToEventImpl. rs_steps. destruct (HasHandler (Settings s) e); rs_steps.
    + rewrite (q_state_before _ sid st) by done. eapply IH; [by apply inv_apply|by eapply q_state_lookup|]. cbn. lia.
    + apply wpE_signal. rs_steps. rewrite (q_state_events _ sid st) by done.
      eapply IH; [by apply (inv_give k s sid st (OtherEvent e) rest H Hs Hq)|by eapply q_state_lookup|]. cbn. lia.
Qed.

Lemma SignalReadyEvents_inv k s sid : inv' k s -> sid ∈ k_sids k -> wpa (SignalReadyEvents sid) (fun _ s' => inv' k s') s.
Proof.
  intros H Hin. destruct (stream_of _ _ _ H Hin) as [st Hs]. unfold SignalReadyEvents. rs_steps. apply (wpE_get_stream _ st); [done|]. rs_steps.
  destruct (_ && _)%bool; [|by rs_steps]. apply (SignalLoop_inv _ _ k s st); [done|done|lia].
Qed.

(** ** Abandoning events *)

Definition released_actions (infos : list TDataDecompressionInfo) (released : list TDataDecompressionEvent) (cleanups : list nat) : list action :=
  map (fun '(i, n) => UserRetrieved i n) (released_acc infos released) ++ map CleanupInfo cleanups.

Lemma zsum_ready infos i l : zsum (counted infos i) (ready_of infos l) = zsum (counted infos i) l.
Proof.
  unfold ready_of. rewrite zsum_filter. apply zsum_ext. intros d _. unfold counted. destruct (decide (state_of infos d = Ready)) as [E|E]; [done|].
  by rewrite decide_False by tauto.
Qed.

Lemma released_held infos infos' released cleanups i : (forall d, prepared_size infos' d = prepared_size infos d) ->
  Forall (fun d => state_of infos d = Ready) released ->
  zsum (act_held i) (released_actions infos' released cleanups) = zsum (counted infos i) released.
Proof.
  intros Hp Hr. unfold released_actions. rewrite zsum_app, held_release, (zsum_zero _ (map CleanupInfo cleanups)) by (by intros a (j & -> & _)%list_elem_of_fmap).
  unfold released_acc. rewrite (acc_at_fold ev_Parent (prepared_size infos')). change (acc_at i []) with 0. rewrite Z.add_0_l, Z.add_0_r. rewrite Forall_forall in Hr.
  apply zsum_ext. intros d Hd. unfold counted. rewrite Hp. specialize (Hr d Hd). repeat case_decide; tauto.
Qed.

Lemma released_infos infos released cleanups a i : a ∈ released_actions infos released cleanups -> i ∈ action_infos a -> i ∈ map ev_Parent released \/ i ∈ cleanups.
Proof.
  unfold released_actions. rewrite elem_of_app. intros [([j n] & -> & Hj)%list_elem_of_fmap|(j & -> & Hj)%list_elem_of_fmap] ->%list_elem_of_singleton; [left|by right].
  assert (j ∈ map fst (released_acc infos released)) as Hin by (change j with (j, n).1; by apply list_elem_of_fmap_2).
  unfold released_acc in Hin. apply acc_fold_infos in Hin as [Hx|Hx]; [by apply elem_of_nil in Hx|done].
Qed.

Lemma concat_map_nil {A B} (f : A -> list B) l : (forall a, a ∈ l -> f a = []) -> concat (map f l) = [].
Proof. intros Hl. induction l as [|a l IH]; [done|]. cbn. rewrite Hl by left. apply IH. intros b Hb. apply Hl. by right. Qed.

Lemma released_facts infos released cleanups : (forall d, d ∈ released -> 0 <= prepared_size infos d) ->
  concat (map action_tasks (released_actions infos released cleanups)) = [] /\ zsum est_held (released_actions infos released cleanups) = 0 /\
  zsum running (released_actions infos released cleanups) = 0 /\ concat (map action_sids (released_actions infos released cleanups)) = [] /\
  (forall a, a ∈ released_actions infos released cleanups -> act_pos a) /\
  (forall t n, TaskDecompressed t n ∉ released_actions infos released cleanups).
Proof.
  intros Hpos. assert (Forall (fun jn => 0 <= jn.2) (released_acc infos released)) as Hacc by (by apply (acc_fold_nonneg ev_Parent (prepared_size infos))).
  assert (forall a, a ∈ released_actions infos released cleanups -> action_tasks a = [] /\ est_held a = 0 /\ running a = 0 /\ action_sids a = [] /\ act_pos a /\
    (forall t n, a <> TaskDecompressed t n)) as H.
  { intros a. unfold released_actions. rewrite elem_of_app. intros [([j n] & -> & Hj)%list_elem_of_fmap|(j & -> & Hj)%list_elem_of_fmap]; split_and!; try done.
    rewrite Forall_forall in Hacc. by specialize (Hacc _ Hj). }
  split_and!; [apply concat_map_nil|apply zsum_zero|apply zsum_zero|apply concat_map_nil| |]; try (intros a Ha; by apply H).
  - intros t n Ha. destruct (H _ Ha) as (_ & _ & _ & _ & _ & Hx). by apply (Hx t n).
Qed.

Lemma zsum_but (g : TDataDecompressionInfo -> Z) (infos infos' : list TDataDecompressionInfo) : but_states <$> infos' = but_states <$> infos ->
  (forall x y, but_states x = but_states y -> g x = g y) -> zsum g infos' = zsum g infos.
Proof.
  revert infos'. induction infos as [|x infos IH]; intros [|y infos'] E Hg; cbn in E; try done. apply (f_equal tail) in E as E'. apply (f_equal head) in E as E0. cbn in E', E0.
  rewrite !zsum_cons. f_equal; [apply Hg; by apply (inj Some) in E0|by apply IH].
Qed.

Lemma inv_abandon k s sid st st' l released cleanups ex : inv' k s -> Streams s !! sid = Some st -> stream st' = stream st ->
  let '(R, N) := sq st in let '(R', N') := sq st' in
  (forall d, d ∈ N -> d ∈ l) -> (forall d, d ∈ l -> d ∈ R ++ N) -> (forall d, d ∈ R' -> d ∈ R) ->
  (forall d, d ∈ N' -> d ∈ N /\ state_of (Infos s) d = Ready) ->
  (forall d, d ∈ released -> d ∈ R ++ N /\ state_of (Infos s) d = Ready) ->
  (forall i, zsum (counted (Infos s) i) (R' ++ N') + zsum (counted (Infos s) i) released = zsum (counted (Infos s) i) (R ++ N)) ->
  (forall i, i ∈ cleanups -> exists d, d ∈ R ++ N /\ ev_Parent d = i) ->
  agree_ok (Closed s) (Events s) (<[sid := given st']> (given <$> Streams s)) ->
  (HasDataEventCallback cfg = true -> dataevs (ReadyEvents (queue st')) = []) -> (exists rest, Queued st' = rest_of st' ++ rest) ->
  (Closed s = false -> sid ∉ ex -> (exists a, PartitionStreams s !! a = Some sid) -> Queued st' = rest_of st') -> (forall x, x ∈ k_ex k -> x ∈ ex) ->
  inv' (kw_ex ex (kw_cur (k_cur k) k))
    (q_state sid st' (mark (Infos s) l) (Events s) (Pending s ++ released_actions (mark (Infos s) l) released cleanups) s).
Proof.
  intros H Hs Hst. destruct (sq st) as [R N] eqn:Esq. destruct (sq st') as [R' N'] eqn:Esq'. intros HN HlRN HR HN' Hrel Hsum Hcl Hagree Ho0 Ho1 Ho2 Hex.
  pose proof (i_heap _ _ _ _ H) as Hh. assert ((sq <$> Streams s) !! sid = Some (R, N)) as Hevs by (rewrite list_lookup_fmap, Hs; cbn; by rewrite Esq).
  assert (forall d, d ∈ R ++ N -> alive (Infos s) (ev_Parent d) /\ valid_event (Infos s) d) as Hev.
  { intros d Hd. destruct (event_parent _ _ _ _ _ _ Hh (list_elem_of_lookup_2 _ _ _ Hevs) Hd) as (x & Hx & Hd1 & Hd2). split; exists x; done. }
  assert (Forall (valid_event (Infos s)) l) as Hv by (apply Forall_forall; intros d Hd; by apply Hev, HlRN).
  destruct (mark_spec l (Infos s) Hv) as [Hb _]. pose proof (fun d => prepared_size_but _ _ d Hb) as Hprep.
  assert (Forall (fun d => state_of (Infos s) d = Ready) released) as Hready by (apply Forall_forall; intros d Hd; by apply Hrel).
  destruct (released_facts (mark (Infos s) l) released cleanups) as (F1 & F2 & F3 & F4 & F5 & F6).
  { intros d Hd. rewrite Hprep. destruct (Hrel d Hd) as [Hin Hr]. pose proof (event_size_nonneg _ _ _ _ _ d (ev_Parent d) Hh (list_elem_of_lookup_2 _ _ _ Hevs) Hin) as Hn.
    unfold counted in Hn. by rewrite decide_True in Hn. }
  assert (Forall (alive (mark (Infos s) l)) (DecompressionQueue s)) as Hq.
  { eapply Forall_impl; [apply H|]. intros j (x & Hx & Hd). destruct (but_lookup _ _ _ _ (eq_sym Hb) Hx) as (x' & Hx' & E). unfold but_states in E.
    injection E as _ _ _ _ _ _ _ _ _ _ E. exists x'. by rewrite <- E. }
  eapply inv_q; [exact H|exact Hs|exact Hst| | | |exact Hq|exact Hagree| |exact Ho0|exact Ho1|exact Ho2|exact Hex].
  - rewrite Esq'. eapply heap_abandon; [exact Hh|exact Hevs|exact HN|exact HlRN|exact HR|exact HN'| | | |].
    + by rewrite app_assoc, holders_app, F1.
    + intros t n. rewrite app_assoc. intros [?|Hx]%elem_of_app; [done|]. by apply F6 in Hx.
    + intros i. rewrite app_assoc, (zsum_app (act_held i)), (released_held (Infos s)) by done. specialize (Hsum i). lia.
    + intros a i. rewrite app_assoc. intros [Ha|Ha]%elem_of_app Hi; [by eapply Hh|].
      destruct (released_infos _ _ _ _ _ Ha Hi) as [(d & -> & Hd)%list_elem_of_fmap|Hc]; [by apply Hev, Hrel|]. destruct (Hcl i Hc) as (d & Hd & <-). by apply Hev.
  - pose proof (i_acct _ _ _ _ H) as Hacct. acct_destruct Hacct.
    assert (forall g : TDataDecompressionInfo -> Z, (forall x y, but_states x = but_states y -> g x = g y) -> zsum g (mark (Infos s) l) = zsum g (Infos s)) as Hg.
    { intros g Hg. apply zsum_but; done. }
    split; rewrite ?Hg by (intros x y E; unfold but_states in E; congruence); try done.
    + intros Ha. rewrite app_assoc, zsum_app, F2. specialize (a_decompressed0 Ha). lia.
    + intros a. rewrite app_assoc. intros [Ha|Ha]%elem_of_app; [by apply a_held0|by apply F5].
  - rewrite zsum_app, F3. lia.
  - intros sid'. rewrite map_app, concat_app, F4, app_nil_r. intros Hx. apply (i_sids _ _ _ _ H). rewrite elem_of_app. by right.
Qed.

Lemma q_state_infos f sid st infos l s : Streams s !! sid = Some st ->
  set_Pending (Pending (set_Streams (alter f sid (Streams (set_Infos infos s))) (set_Infos infos s)) ++ l)
    (set_Streams (alter f sid (Streams (set_Infos infos s))) (set_Infos infos s)) = q_state sid (f st) infos (Events s) (Pending s ++ l) s.
Proof. intros Hs. rs_simpl. rewrite (list_alter_insert _ _ _ _ Hs). by destruct s. Qed.

Lemma q_state_extract f sid st infos l s : Streams s !! sid = Some st ->
  set_Pending (Pending (set_Infos infos (set_Streams (alter f sid (Streams s)) s)) ++ l)
    (set_Infos infos (set_Streams (alter f sid (Streams s)) s)) = q_state sid (f st) infos (Events s) (Pending s ++ l) s.
Proof. intros Hs. rs_simpl. rewrite (list_alter_insert _ _ _ _ Hs). by destruct s. Qed.

Lemma events_valid k s sid st : inv' k s -> Streams s !! sid = Some st ->
  Forall (valid_event (Infos s)) (dataevs (ReadyEvents (queue st) ++ NotReady (queue st))) /\
  Forall (fun d => state_of (Infos s) d = Ready) (dataevs (ReadyEvents (queue st))).
Proof.
  intros H Hs. destruct (h_event _ _ _ _ (i_heap _ _ _ _ H) sid (dataevs (ReadyEvents (queue st))) (dataevs (NotReady (queue st)))) as [HR HN]; [by rewrite list_lookup_fmap, Hs|].
  rewrite dataevs_app, Forall_app. split_and!; (eapply Forall_impl; [eassumption|]); intros d Hd; try by eapply event_in_valid.
  destruct (event_in_state _ _ _ _ Hd) as [?|[_ ?]]; done.
Qed.

(** The part of a queue behind the first event that is not ready is given up. *)
Lemma DeleteNotReadyTail_inv k s sid : inv' k s -> sid ∈ k_sids k -> wpa (DeleteNotReadyTail sid) (fun _ s' => inv' (kw_ex (sid :: k_ex k) k) s') s.
Proof.
  intros H Hin. destruct (stream_of _ _ _ H Hin) as [st Hs]. unfold DeleteNotReadyTail. rs_steps. apply (wpE_get_stream _ st); [done|]. rs_steps.
  destruct (events_valid _ _ _ _ H Hs) as [Hv HR]. rewrite dataevs_app in Hv. apply Forall_app in Hv as [_ Hv].
  pose proof (DeleteTail_spec (NotReady (queue st)) (Infos s) false Hv) as Hd. destruct (DeleteTail _ _ _) as [[[infos ready] cleanups] released].
  destruct Hd as (-> & (rest & Hq) & Hready & Hrd & Hcl). rs_steps. rewrite (q_state_infos _ sid st) by done.
  pose proof (i_order _ _ _ _ H sid st Hs) as (Hcb & [r Hr] & _). set (st' := set_queue _ st).
  assert (forall d, d ∈ dataevs ready ++ released -> d ∈ dataevs (NotReady (queue st)) /\ state_of (Infos s) d = Ready) as Hin2.
  { intros d Hd. rewrite <- Hready in Hd. by apply list_elem_of_filter in Hd as [? ?]. }
  assert (inv' (kw_ex (sid :: k_ex k) (kw_cur (k_cur k) k)) (q_state sid st' (mark (Infos s) (dataevs (NotReady (queue st)))) (Events s)
    (Pending s ++ released_actions (mark (Infos s) (dataevs (NotReady (queue st)))) released cleanups) s)) as H'; [|by destruct k].
  refine (inv_abandon k s sid st st' (dataevs (NotReady (queue st))) released cleanups (sid :: k_ex k) H Hs eq_refl _ _ _ _ _ _ _ _ _ _ _ _); cbn [st' set_queue queue ReadyEvents NotReady].
  - done.
  - intros d Hd. rewrite elem_of_app. by right.
  - done.
  - intros d Hd. apply Hin2. rewrite elem_of_app. by left.
  - intros d Hd. rewrite elem_of_app. destruct (Hin2 d); [rewrite elem_of_app; by right|]. split; [by right|done].
  - intros i. rewrite !zsum_app, <- (zsum_ready _ i (dataevs (NotReady (queue st)))), Hready, zsum_app. lia.
  - intros i Hi. destruct (Hcl i Hi) as (d & Hd & Hp). exists d. rewrite elem_of_app. auto.
  - change (given st') with (given st). apply agree_same; [apply H|]. by rewrite list_lookup_fmap, Hs.
  - done.
  - exists (dataevs rest ++ r). unfold rest_of in *. cbn [queue set_queue ReadyEvents NotReady Taken Queued st']. rewrite Hr, Hq, dataevs_app. by rewrite !app_assoc.
  - intros _ Hx. exfalso. apply Hx. left.
  - intros x Hx. by right.
Qed.

(** A queue is taken from its stream and given up. *)
Lemma ExtractAndCleanup_inv k s sid : inv' k s -> sid ∈ k_sids k -> k_closed k = true -> wpa (ExtractAndCleanup sid) (fun _ s' => inv' k s') s.
Proof.
  intros H Hin Hk. destruct (stream_of _ _ _ H Hin) as [st Hs]. unfold ExtractAndCleanup, QueueCleanup. rs_steps. apply (wpE_get_stream _ st); [done|]. rs_steps.
  change (Infos (set_Streams _ s)) with (Infos s). destruct (events_valid _ _ _ _ H Hs) as [Hv HR]. pose proof (i_closed _ _ _ _ H Hk) as Hclosed.
  pose proof (CleanupEvents_spec _ (Infos s) Hv) as Hd. destruct (CleanupEvents _ _) as [[infos cleanups] released]. destruct Hd as (-> & -> & Hcl).
  rs_steps. rewrite (q_state_extract _ sid st) by done. pose proof (i_order _ _ _ _ H sid st Hs) as (Hcb & [r Hr] & _). set (st' := set_queue _ st).
  set (l := dataevs _) in *. assert (l = dataevs (ReadyEvents (queue st)) ++ dataevs (NotReady (queue st))) as El by (apply dataevs_app).
  assert (inv' (kw_ex (k_ex k) (kw_cur (k_cur k) k)) (q_state sid st' (mark (Infos s) l) (Events s)
    (Pending s ++ released_actions (mark (Infos s) l) (ready_of (Infos s) l) cleanups) s)) as H'; [|by apply inv_ctx].
  refine (inv_abandon k s sid st st' l (ready_of (Infos s) l) cleanups (k_ex k) H Hs eq_refl _ _ _ _ _ _ _ _ _ _ _ _); cbn [st' set_queue queue ReadyEvents NotReady]; rewrite <- ?El.
  - intros d Hd. rewrite El, elem_of_app. by right.
  - done.
  - by intros d ?%elem_of_nil.
  - by intros d ?%elem_of_nil.
  - intros d [? ?]%list_elem_of_filter. done.
  - intros i. by rewrite zsum_ready.
  - exact Hcl.
  - pose proof (i_agree _ _ _ _ H) as Ha. unfold agree_ok in *. by rewrite Hclosed in *.
  - done.
  - exists (l ++ r). unfold rest_of in *. cbn [queue set_queue ReadyEvents NotReady Taken Queued st']. rewrite Hr, El. cbn. by rewrite app_nil_r, <- !app_assoc.
  - congruence.
  - done.
Qed.

(** ** Pushing events *)

Lemma inv_ex k s ex : inv' k s -> (forall x, x ∈ k_ex k -> x ∈ ex) -> inv' (kw_ex ex k) s.
Proof.
  intros H Hex. inv_destruct H. split; rs_simpl; try done. intros sid st Hs. destruct (i_order0 sid st Hs) as (H0 & H1 & H2). split_and!; [done..|].
  intros Hc Hx. apply H2; [done|]. intros Hin. by apply Hx, Hex.
Qed.

Lemma inv_push_event k s sid st e : inv' k s -> Streams s !! sid = Some st ->
  inv' k (set_Streams (alter (fun st => set_queue (mkQueue (ReadyEvents (queue st)) (NotReady (queue st) ++ [OtherEvent e])) st) sid (Streams s)) s).
Proof.
  intros H Hs. pose proof (i_order _ _ _ _ H sid st Hs) as (Hcb & Ho1 & Ho2). rewrite (list_alter_insert _ _ _ _ Hs). set (st' := set_queue _ st).
  assert (rest_of st' = rest_of st /\ sq st' = sq st) as [Hr Hsq].
  { unfold rest_of, sq, st'. cbn [queue set_queue ReadyEvents NotReady Taken]. rewrite dataevs_app. cbn. by rewrite app_nil_r. }
  assert (inv' k (q_state sid st' (Infos s) (Events s) (Pending s) s)) as H'; [|by destruct s]. apply inv_ctx.
  eapply inv_q; [exact H|exact Hs|done|by apply (heap_other _ _ _ _ _ st); [apply H|..]|apply H|done|apply H| | |exact Hcb|by rewrite Hr|by rewrite Hr|done].
  - change (given st') with (given st). apply agree_same; [apply H|]. by rewrite list_lookup_fmap, Hs.
  - intros sid' Hin. apply (i_sids _ _ _ _ H). rewrite elem_of_app. by right.
Qed.

Definition after_push (sid : nat) (e : TEvent) (k : ctx) : ctx := if is_closed_event e then kw_ex (sid :: k_ex k) k else k.

Lemma after_push_inv k s sid e : inv' k s -> inv' (after_push sid e k) s.
Proof. intros H. unfold after_push. destruct (is_closed_event e); [|done]. apply inv_ex; [done|]. intros x Hx. by right. Qed.

Lemma TryApply_inv k s sid e : inv' k s -> sid ∈ k_sids k -> wpa (TryApplyCallbackToEventImpl sid e) (fun _ s' => inv' k s') s.
Proof.
  intros H Hin. destruct (stream_of _ _ _ H Hin) as [st Hs]. unfold TryApplyCallbackToEventImpl. rs_steps. destruct (HasHandler _ e); rs_steps; [|done].
  apply inv_add; [done|]. constructor; [|done]. split_and!; [|done|done|done|]; [split_and!; [done|done|by intros i ?%elem_of_nil]|].
  intros x ->%list_elem_of_singleton. by eapply lookup_lt_Some.
Qed.

Lemma PushEvent_inv k s sid e : inv' k s -> sid ∈ k_sids k ->
  wpa (PushEvent sid e) (fun pushed s' => inv' (after_push sid e k) s' /\ (pushed = false -> Closed s' = true)) s.
Proof.
  intros H Hin. unfold PushEvent. rs_steps. destruct (Closed s) eqn:Ec; [rs_steps; split; [by apply after_push_inv|done]|].
  assert (sid ∈ k_sids (after_push sid e k)) as Hin' by (unfold after_push; by destruct (is_closed_event e)).
  apply wpE_bind, (wpE_mono _ _ (fun _ s' => inv' (after_push sid e k) s')).
  { unfold after_push in *. destruct (is_closed_event e); cbn [when]; [|by rs_steps]. rs_steps.
    eapply wpE_mono; [by apply DeleteNotReadyTail_inv|]. intros [] s1 H1. by apply SignalReadyEvents_inv. }
  intros [] s1 H1. rs_steps. apply (wpE_mono _ _ (fun _ s' => inv' (after_push sid e k) s')).
  { destruct (HasDataEventCallback (Settings s1)); [by rs_steps|by apply TryApply_inv]. }
  intros applied s2 H2. destruct applied; [by rs_steps|]. destruct (stream_of _ _ _ H2 Hin') as [st Hs]. rs_steps.
  eapply wpE_mono; [apply SignalReadyEvents_inv; [by eapply inv_push_event|done]|]. intros [] s3 H3. rs_steps. by split.
Qed.

(** ** Taking events *)

Lemma kinds_cons sid e l : kinds sid (e :: l) = (if decide (ei_Stream e = sid) then kinds_of e else []) ++ kinds sid l.
Proof. done. Qed.

(** Some of the data events the first entry names are taken. *)
Lemma agree_take front entries rdy n l : agree_ok false (front :: entries) rdy -> rdy !! ei_Stream front = Some (replicate n true ++ l) ->
  HasDataEvents front = true -> (Z.of_nat n <= EventsCount front) ->
  agree_ok false (if EventsCount front - Z.of_nat n =? 0 then entries else mkEventInfo (ei_Stream front) (HasDataEvents front) (EventsCount front - Z.of_nat n) :: entries)
    (<[ei_Stream front := l]> rdy).
Proof.
  intros [Hok Hk] Hs Hd Hn. inversion Hok as [|? ? (Hp & Hp1 & Hlt) Hok']; subst. set (c := EventsCount front - Z.of_nat n).
  assert (replicate (Z.to_nat c) true ++ kinds (ei_Stream front) entries = l) as Hl.
  { pose proof (Hk _ _ Hs) as E. rewrite kinds_cons, decide_True in E by done. unfold kinds_of in E. rewrite Hd in E.
    replace (Z.to_nat (EventsCount front)) with (n + Z.to_nat c)%nat in E by lia. rewrite replicate_add, <- app_assoc in E. by apply app_inv_head in E. }
  assert (forall sid' l', <[ei_Stream front := l]> rdy !! sid' = Some l' ->
    (if decide (ei_Stream front = sid') then replicate (Z.to_nat c) true else []) ++ kinds sid' entries = l') as Hall.
  { intros sid' l' [[<- ->]|[Hne Hl']]%insert_cases; [by rewrite decide_True|]. rewrite decide_False by done. cbn [app].
    pose proof (Hk _ _ Hl') as E. by rewrite kinds_cons, decide_False in E. }
  unfold agree_ok. rewrite length_insert. destruct (c =? 0) eqn:Ec; [apply Z.eqb_eq in Ec|apply Z.eqb_neq in Ec].
  - split; [done|]. intros sid' l' Hl'. specialize (Hall _ _ Hl'). rewrite Ec in Hall. cbn in Hall. by destruct (decide _).
  - split; [constructor; [|done]; split_and!; cbn; [lia|congruence|done]|]. intros sid' l' Hl'. rewrite <- (Hall _ _ Hl'), kinds_cons. cbn [ei_Stream].
    destruct (decide _); [|done]. unfold kinds_of. cbn [EventsCount HasDataEvents]. by rewrite Hd.
Qed.

Lemma agree_pop front entries rdy l : agree_ok false (front :: entries) rdy -> rdy !! ei_Stream front = Some (false :: l) ->
  agree_ok false entries (<[ei_Stream front := l]> rdy) /\ EventsCount front = 1.
Proof.
  intros [Hok Hk] Hs. inversion Hok as [|? ? (Hp & Hp1 & Hlt) Hok']; subst. pose proof (Hk _ _ Hs) as E. rewrite kinds_cons, decide_True in E by done. unfold kinds_of in E.
  destruct (Z.to_nat (EventsCount front)) as [|m] eqn:Em; [lia|]. cbn in E. injection E as Eh E. specialize (Hp1 Eh). assert (m = 0%nat) as -> by lia. cbn in E.
  split; [|done]. unfold agree_ok. rewrite length_insert. split; [done|]. intros sid' l' [[<- ->]|[Hne Hl']]%insert_cases; [done|].
  pose proof (Hk _ _ Hl') as E'. by rewrite kinds_cons, decide_False in E'.
Qed.

Lemma agree_front front entries rdy l : agree_ok false (front :: entries) rdy -> rdy !! ei_Stream front = Some l ->
  exists l', l = HasDataEvents front :: l' /\ 0 < EventsCount front /\
    (forall n, (Z.of_nat n < EventsCount front) -> exists x, l !! n = Some x /\ x = HasDataEvents front).
Proof.
  intros [Hok Hk] Hs. inversion Hok as [|? ? (Hp & _ & _) _]; subst. pose proof (Hk _ _ Hs) as E. rewrite kinds_cons, decide_True in E by done. unfold kinds_of in E.
  assert (forall n, (Z.of_nat n < EventsCount front) -> exists x, l !! n = Some x /\ x = HasDataEvents front) as Hn.
  { intros n Hn. exists (HasDataEvents front). split; [|done]. rewrite <- E, lookup_app_l by (rewrite length_replicate; lia). apply lookup_replicate_2. lia. }
  destruct (Hn 0%nat ltac:(lia)) as (x & Hx & ->). destruct l as [|y l']; [done|]. injection Hx as ->. exists l'. done.
Qed.

Definition holding (acc : list (nat * Z)) : list action := [DataHandler 0 [] acc].

Lemma inv_taken k s sid st taken left_ acc events : inv' (kw_cur (holding acc) k) s -> Streams s !! sid = Some st ->
  ReadyEvents (queue st) = map DataEvent taken ++ left_ -> Forall (fun d => state_of (Infos s) d = Ready) taken ->
  agree_ok (Closed s) events (<[sid := map IsDataEvent left_]> (given <$> Streams s)) ->
  inv' (kw_cur (holding (foldl (fun acc d => acc_Add (ev_Parent d) (DataSize (taken_data (Decompress_ cfg) (Infos s) d)) acc) acc taken)) k)
    (q_state sid (taken_stream st (mkQueue left_ (NotReady (queue st))) taken) (Infos s) events (Pending s) s).
Proof.
  intros H Hs Hq Hr Hagree. pose proof (i_order _ _ _ _ H sid st Hs) as (Hcb & Ho1 & Ho2).
  set (st' := taken_stream _ _ _). pose proof (i_heap _ _ _ _ H) as Hh. pose proof (i_acct _ _ _ _ H) as Hacct.
  assert ((sq <$> Streams s) !! sid = Some (dataevs (ReadyEvents (queue st)), dataevs (NotReady (queue st)))) as Hevs by (by rewrite list_lookup_fmap, Hs).
  assert (dataevs (ReadyEvents (queue st)) = taken ++ dataevs left_) as HR by (by rewrite Hq, dataevs_app, dataevs_data).
  assert (rest_of st' = rest_of st) as Hrest by (unfold rest_of, st'; cbn [taken_stream queue ReadyEvents NotReady Taken]; by rewrite HR, <- !app_assoc).
  assert (forall d, d ∈ taken -> d ∈ dataevs (ReadyEvents (queue st)) ++ dataevs (NotReady (queue st))) as Hin by (intros d Hd; rewrite HR, !elem_of_app; auto).
  set (acc' := foldl _ _ _). assert (forall i, acc_at i acc' = acc_at i acc + zsum (counted (Infos s) i) taken) as Hacc
    by (intros i; by apply (acc_counted _ _ _ _ _ _ _ _ acc i Hh Hevs Hr Hin)).
  assert (inv' (kw_ex (k_ex k) (kw_cur (holding acc') (kw_cur (holding acc) k))) (q_state sid st' (Infos s) events (Pending s) s)) as H'; [|by destruct k].
  eapply inv_q; [exact H|exact Hs|done| | |done|apply H|exact Hagree| | |by rewrite Hrest|by rewrite Hrest|done].
  - eapply (heap_queue _ _ _ _ _ sid _ _ []); [exact Hh|exact Hevs|done|done|intros d Hd; rewrite app_nil_r, HR, elem_of_app; by right| | | |].
    + done.
    + intros t n [Hx|Hx]%elem_of_cons; [done|by right].
    + intros i. cbn [holding k_cur kw_cur app]. rewrite HR, !zsum_app, !zsum_cons. cbn [act_held]. rewrite Hacc. unfold st'. cbn [taken_stream queue ReadyEvents NotReady]. lia.
    + intros a i [->|Ha]%elem_of_cons Hi; [|eapply (h_refs _ _ _ _ Hh a); [by right|done]]. cbn [action_infos] in Hi. unfold acc' in Hi.
      apply acc_fold_infos in Hi as [Hi|(d & -> & Hd)%list_elem_of_fmap]; [eapply (h_refs _ _ _ _ Hh (DataHandler 0 [] acc)); [left|done]|]. rewrite Forall_forall in Hr.
      by eapply taken_size; [exact Hh|exact Hevs|apply Hin|apply Hr].
  - acct_destruct Hacct. split; try done. intros a [->|Ha]%elem_of_cons; [|apply a_held0; by right].
    apply (acc_fold_nonneg ev_Parent (fun d => DataSize (taken_data (Decompress_ cfg) (Infos s) d))); [intros d _; by eapply taken_nonneg|]. apply (a_held0 (DataHandler 0 [] acc)). left.
  - intros sid' Hx. apply (i_sids _ _ _ _ H). rewrite elem_of_app. by right.
  - intros Hx. specialize (Hcb Hx). rewrite HR in Hcb. by apply app_nil in Hcb as [_ ?].
Qed.

Lemma UnregisterPartition_inv k s p psid : inv' k s -> wpa (UnregisterPartition p psid) (fun _ s' => inv' k s' /\ Events s' = Events s /\ Closed s' = Closed s) s.
Proof. intros H. unfold UnregisterPartition. rs_steps. split; [|done]. inv_destruct H. split; rs_simpl; done. Qed.

Lemma inv_popped k s sid st e ready events : inv' k s -> Streams s !! sid = Some st -> ReadyEvents (queue st) = OtherEvent e :: ready ->
  agree_ok (Closed s) events (<[sid := map IsDataEvent ready]> (given <$> Streams s)) ->
  inv' k (q_state sid (set_queue (mkQueue ready (NotReady (queue st))) st) (Infos s) events (Pending s) s).
Proof.
  intros H Hs Hq Hagree. apply inv_ctx. pose proof (i_order _ _ _ _ H sid st Hs) as (Hcb & Ho1 & Ho2). set (st' := set_queue _ st).
  assert (rest_of st' = rest_of st /\ sq st' = sq st) as [Hr Hsq] by (unfold rest_of, sq, st'; cbn [queue set_queue ReadyEvents NotReady Taken]; by rewrite Hq, dataevs_cons).
  eapply inv_q; [exact H|exact Hs|done|by apply (heap_other _ _ _ _ _ st); [apply H|..]|apply H|done|apply H|exact Hagree| | |by rewrite Hr|by rewrite Hr|done].
  - intros sid' Hin. apply (i_sids _ _ _ _ H). rewrite elem_of_app. by right.
  - intros Hc. specialize (Hcb Hc). by rewrite Hq, dataevs_cons in Hcb.
Qed.

Lemma q_state_then f sid st ev s : Streams s !! sid = Some st ->
  set_Events ev (set_Streams (alter f sid (Streams s)) s) = q_state sid (f st) (Infos s) ev (Pending s) s.
Proof. intros Hs. rewrite (list_alter_insert _ _ _ _ Hs). by destruct s. Qed.

Lemma events_total_cons e l : events_total (e :: l) = EventsCount e + events_total l.
Proof. done. Qed.

Definition got (s : rs) (k : ctx) (r : option user_event * Z * list (nat * Z)) (s' : rs) : Prop :=
  let '(ev, bytes, acc) := r in
  inv' (kw_cur (holding acc) k) s' /\ 0 <= bytes /\
  match ev with
  | None => bytes = 0 \/ (Events s' = [] /\ Closed s' = false)
  | Some SessionClosedEvent => True
  | Some _ => events_total (Events s') < events_total (Events s)
  end.

(** What the data events of the first entry leave. *)
Lemma take_front k s front entries st d ready bytes taken left_ count' bytes' acc : inv' (kw_cur (holding acc) k) s -> Closed s = false -> Events s = front :: entries ->
  Streams s !! ei_Stream front = Some st -> ReadyEvents (queue st) = DataEvent d :: ready -> 0 < bytes ->
  TakeEvents (Decompress_ cfg) (Infos s) (EventsCount front) bytes (ReadyEvents (queue st)) = (taken, left_, count', bytes') ->
  let events := if count' =? 0 then entries else mkEventInfo (ei_Stream front) (HasDataEvents front) count' :: entries in
  inv' (kw_cur (holding (foldl (fun acc d => acc_Add (ev_Parent d) (DataSize (taken_data (Decompress_ cfg) (Infos s) d)) acc) acc taken)) k)
    (q_state (ei_Stream front) (taken_stream st (mkQueue left_ (NotReady (queue st))) taken) (Infos s) events (Pending s) s) /\
  0 <= bytes' /\ 0 <= count' < EventsCount front /\ (count' = 0 \/ bytes' = 0).
Proof.
  intros H Hc He Hs Hq Hb Ht events. pose proof (i_agree _ _ _ _ H) as Hagree. rewrite Hc, He in Hagree. pose proof (i_heap _ _ _ _ H) as Hh.
  assert ((given <$> Streams s) !! ei_Stream front = Some (given st)) as Hg by (by rewrite list_lookup_fmap, Hs).
  destruct (agree_front _ _ _ _ Hagree Hg) as (l' & Hl & Hpos & Hn). unfold given in Hl. rewrite Hq in Hl. cbn in Hl. injection Hl as Hd Hl. symmetry in Hd.
  destruct (TakeEvents_spec _ _ _ _ _ _ _ _ _ Ht) as (Hsplit & Hready & Hcnt & Hc0 & Hb0 & Hor); [lia|lia|intros x; left; apply Z.le_ge; by eapply taken_nonneg|].
  assert (state_of (Infos s) d = Ready) as Hdr by (destruct (events_valid _ _ _ _ H Hs) as [_ HR]; rewrite Hq, dataevs_cons in HR; by inversion HR).
  assert (taken <> []) as Hne by (rewrite Hq in Ht; eapply TakeEvents_progress; [exact Ht|done|lia|lia]).
  assert (map IsDataEvent (map DataEvent taken) = replicate (length taken) true) as Hrep by (clear; induction taken as [|x l IH]; [done|cbn; by rewrite IH]).
  assert (agree_ok (Closed s) events (<[ei_Stream front := map IsDataEvent left_]> (given <$> Streams s))) as Hagree'.
  { rewrite Hc. unfold events. rewrite Hcnt. apply (agree_take _ _ _ (length taken)); [done| |done|lia]. rewrite Hg. unfold given. by rewrite Hsplit, map_app, Hrep. }
  split_and!; [by apply inv_taken|done|done| |].
  - destruct taken; [done|]. cbn in Hcnt. lia.
  - destruct (decide (count' = 0)) as [|Hc']; [by left|]. destruct Hor as [?|[?|Hrest]]; [by left|by right|]. exfalso.
    destruct (Hn (length taken)) as (x & Hx & ->); [lia|]. unfold given in Hx. rewrite Hsplit, map_app, lookup_app_r in Hx by (by rewrite !length_map).
    rewrite !length_map, Nat.sub_diag in Hx. destruct left_ as [|[d'|e] left_]; [done| |cbn in Hx; congruence].
    destruct (events_valid _ _ _ _ H Hs) as [_ HR]. rewrite Hsplit, dataevs_app, dataevs_cons in HR. apply Forall_app in HR as [_ HR]. inversion HR; subst. done.
Qed.

Lemma GetEventImpl_inv fuel : forall k s bytes acc, inv' (kw_cur (holding acc) k) s -> 0 < bytes -> (length (Events s) <= fuel)%nat ->
  wpa (GetEventImpl fuel bytes acc) (got s k) s.
Proof.
  induction fuel as [|fuel IH]; intros k s bytes acc H Hb Hlen; cbn [GetEventImpl]; rs_steps;
    (destruct (Events s) as [|front entries] eqn:He; [rs_steps; unfold got; destruct (Closed s) eqn:Ec; (split_and!; [done|lia|auto])|]); [cbn in Hlen; lia|].
  pose proof (i_agree _ _ _ _ H) as Hagree. assert (Closed s = false) as Hc by (destruct (Closed s); [|done]; unfold agree_ok in Hagree; congruence).
  rewrite Hc, He in Hagree. assert (exists st, Streams s !! ei_Stream front = Some st) as [st Hs].
  { destruct Hagree as [Hok _]. inversion Hok as [|? ? (_ & _ & Hlt) _]; subst. rewrite length_fmap in Hlt. by apply lookup_lt_is_Some. }
  assert ((given <$> Streams s) !! ei_Stream front = Some (given st)) as Hg by (by rewrite list_lookup_fmap, Hs).
  rs_steps. apply (wpE_get_stream _ st); [done|]. destruct (agree_front _ _ _ _ Hagree Hg) as (l' & Hl & Hpos & _).
  destruct (ReadyEvents (queue st)) as [|[d|e] ready] eqn:Hq; [unfold given in Hl; by rewrite Hq in Hl| |]; cbn [app].
  - rewrite (i_cfg _ _ _ _ H). rs_steps; [by apply Z.gtb_lt| |].
    { apply bool_decide_eq_true. destruct (events_valid _ _ _ _ H Hs) as [_ HR]. rewrite Hq, dataevs_cons in HR. by inversion HR. }
    rewrite <- Hq. destruct (TakeEvents _ _ _ _ _) as [[[taken left_] count'] bytes'] eqn:Et.
    destruct (take_front _ _ _ _ _ _ _ _ _ _ _ _ _ H Hc He Hs Hq Hb Et) as (H' & Hb' & Hc' & Hor). unfold take_from. rs_steps.
    rewrite (q_state_then _ (ei_Stream front) st) by done. fold (taken_stream st (mkQueue left_ (NotReady (queue st))) taken).
    set (events := if count' =? 0 then _ else _) in *. set (s1 := q_state _ _ _ _ _ _) in *.
    assert (events_total (Events s1) < events_total (Events s)) as Htot.
    { change (Events s1) with events. rewrite He, events_total_cons. unfold events. destruct (count' =? 0); [lia|]. rewrite events_total_cons. cbn. lia. }
    destruct (taken_messages _ _ taken) as [|m ms] eqn:Em; [|rs_steps; unfold got; split_and!; done].
    destruct (bytes' =? 0) eqn:Eb; [apply Z.eqb_eq in Eb; rs_steps; unfold got; split_and!; auto|]. apply Z.eqb_neq in Eb.
    eapply wpE_mono; [apply (IH k s1 bytes'); [exact H'|lia|]|].
    + change (Events s1) with events. unfold events. destruct Hor as [-> |?]; [|lia]. cbn in Hlen |- *. lia.
    + intros [[ev b] a] s2. unfold got. intros (H1 & H2 & H3). split_and!; [done..|]. destruct ev as [[| |]|]; try done; lia.
  - unfold given in Hg. rewrite Hq in Hg. destruct (agree_pop _ _ _ _ Hagree Hg) as [Hagree' Hone].
    pose proof (inv_popped _ _ _ _ _ _ entries H Hs Hq ltac:(by rewrite Hc)) as H'.
    assert (forall s2, inv' (kw_cur (holding acc) k) s2 -> Events s2 = entries -> got s k (Some (UserEvent (ei_Stream front) e), bytes, acc) s2) as Hgot.
    { intros s2 H2 E2. unfold got. split_and!; [done|lia|]. rewrite E2, He, events_total_cons. lia. }
    rs_steps; rewrite (q_state_then _ (ei_Stream front) st), Hq by done; [|by apply Hgot].
    eapply wpE_mono; [by apply UnregisterPartition_inv|]. intros [] s2 (H2 & E2 & _). rs_steps. by apply Hgot.
Qed.

Lemma GetEventsLoop_inv fuel maxCount : forall k s bytes acc result, inv' (kw_cur (holding acc) k) s -> 0 <= bytes ->
  (bytes = 0 \/ (Events s = [] /\ Closed s = false) \/ events_total (Events s) < Z.of_nat fuel) ->
  wpa (GetEventsLoop fuel maxCount bytes acc result) (fun r s' => inv' (kw_cur (holding r.2) k) s') s.
Proof.
  induction fuel as [|fuel IH]; intros k s bytes acc result H Hb Hf; cbn [GetEventsLoop]; rs_steps;
    (destruct (negb _ && _ && _)%bool eqn:E; [|by rs_steps]); apply andb_true_iff in E as [E Eb%Z.gtb_lt]; apply andb_true_iff in E as [E _]; apply negb_true_iff in E;
    (destruct Hf as [?|[[He Hc]|Hf]]; [lia|rewrite He, Hc, bool_decide_true in E by done; done|]).
  - exfalso. pose proof (i_agree _ _ _ _ H) as Ha. unfold agree_ok in Ha. destruct (Closed s); [rewrite Ha in Hf; cbn in Hf; lia|]. destruct Ha as [Ha _].
    assert (0 <= events_total (Events s)); [|lia]. clear -Ha. induction Ha as [|e l (He & _) _ IH]; [done|]. rewrite events_total_cons. lia.
  - rs_steps. eapply wpE_mono; [by apply (GetEventImpl_inv _ k s bytes acc H)|]. intros [[ev b] a] s1 (H1 & Hb1 & Hev).
    destruct ev as [[sid ms|sid e|]|]; [apply IH; [done|done|lia]|apply IH; [done|done|lia]|by rs_steps|apply IH; [done|done|tauto]].
Qed.

Lemma inv_hold k s : inv' k s -> k_cur k = [] -> inv' (kw_cur (holding []) k) s.
Proof.
  intros H Hk. inv_destruct H. rewrite Hk in *. split; rs_simpl; try done.
  - apply (heap_perm _ _ _ (Pending s ++ holding [])); [apply Permutation_app_comm|]. apply heap_add_idle; [|done]. constructor; [|done]. split_and!; [done|done|by intros i ?%elem_of_nil].
  - acct_destruct i_acct0. split; try done. intros a [->|Ha]%elem_of_cons; [by constructor|by apply a_held0].
Qed.

(** What an accumulator holds is given back. *)
Lemma release_inv k s sid msgs acc : inv' (kw_cur [DataHandler sid msgs acc] k) s -> wpa (release acc) (fun _ s' => inv' (kw_cur [] k) s') s.
Proof.
  intros H. unfold release. rs_steps. inv_destruct H. rs_simpl. cbn [app] in *. set (l := map _ acc).
  assert (Forall (fun a => exists j n, a = UserRetrieved j n /\ (j, n) ∈ acc) l) as Hl.
  { apply Forall_forall. intros a ([j n] & -> & Hj)%list_elem_of_fmap. by exists j, n. }
  rewrite Forall_forall in Hl. assert (concat (map action_tasks l) = [] /\ concat (map action_sids l) = []) as [Ht Hsids].
  { split; apply concat_map_nil; intros a (j & n & -> & _)%Hl; done. }
  split; rs_simpl; try done.
  - cbn [app]. eapply heap_update; [exact i_heap0|done| |apply i_heap0| | | |apply i_heap0].
    + rewrite holders_app, holders_cons, Ht. done.
    + intros t n [?|(? & ? & ? & _)%Hl]%elem_of_app; [by right|done].
    + intros i info info' Hi Hi'. rewrite Hi in Hi'. injection Hi' as <-. rewrite zsum_app, zsum_cons. unfold l. rewrite held_release. cbn [act_held]. lia.
    + intros a i [Ha|(j & n & -> & Hj)%Hl]%elem_of_app Hi; [eapply (h_refs _ _ _ _ i_heap0 a); [by right|done]|].
      apply list_elem_of_singleton in Hi as ->. eapply (h_refs _ _ _ _ i_heap0 (DataHandler sid msgs acc)); [left|]. cbn. change j with (j, n).1. by apply list_elem_of_fmap_2.
  - acct_destruct i_acct0. split; try done.
    + intros Ha. cbn [app]. rewrite zsum_app, (zsum_zero est_held l) by (by intros a (? & ? & -> & _)%Hl). specialize (a_decompressed0 Ha). rewrite zsum_cons in a_decompressed0. cbn [est_held] in a_decompressed0. lia.
    + cbn [app]. intros a [Ha|(j & n & -> & Hj)%Hl]%elem_of_app; [apply a_held0; by right|]. pose proof (a_held0 (DataHandler sid msgs acc) ltac:(left)) as Hp. cbn in Hp.
      rewrite Forall_forall in Hp. by apply (Hp (j, n)).
  - rewrite zsum_app, (zsum_zero running l) by (by intros a (? & ? & -> & _)%Hl). lia.
  - intros x. rewrite map_app, concat_app, Hsids, app_nil_r. apply i_sids0.
Qed.

Lemma inv_cur k s : k_cur k = [] -> inv' (kw_cur [] k) s -> inv' k s.
Proof. destruct k. cbn. by intros ->. Qed.

Lemma GetEvents_inv k s n bytes : inv' k s -> k_cur k = [] -> 0 <= bytes -> (bytes = 0 -> extra no_bytes) -> wpa (GetEvents n bytes) (fun _ s' => inv' k s') s.
Proof.
  intros H Hk Hb Hz. unfold GetEvents. destruct (bytes =? 0) eqn:E; [apply Z.eqb_eq in E; right; right; auto|]. apply Z.eqb_neq in E. rs_steps.
  eapply wpE_mono; [apply (GetEventsLoop_inv _ _ k); [by apply inv_hold|done|right; right; lia]|]. intros [result acc] s1 H1. rs_steps.
  eapply wpE_mono; [by eapply release_inv|]. intros [] s2 H2. rs_steps. by apply inv_cur.
Qed.

Lemma GetEvent_inv k s bytes : inv' k s -> k_cur k = [] -> 0 <= bytes -> (bytes = 0 -> extra no_bytes) -> wpa (GetEvent bytes) (fun _ s' => inv' k s') s.
Proof.
  intros H Hk Hb Hz. unfold GetEvent. destruct (bytes =? 0) eqn:E; [apply Z.eqb_eq in E; right; right; auto|]. apply Z.eqb_neq in E. rs_steps.
  apply (wpE_mono _ _ (fun r s' => inv' (kw_cur (holding r.2) k) s')).
  { destruct (_ && _)%bool; [rs_steps; by apply inv_hold|]. eapply wpE_mono; [apply (GetEventImpl_inv _ k); [by apply inv_hold|lia|done]|].
    intros [[ev b] a] s1 (H1 & _). done. }
  intros [[ev b] acc] s1 H1. rs_steps. eapply wpE_mono; [by eapply release_inv|]. intros [] s2 H2. rs_steps. by apply inv_cur.
Qed.
End Queue.
