(* ===== verification/ReadSteps.v ===== *)
(** * Steps of a read session keep its invariant

    Closing and aborting, connections, messages of the server and calls of the user. *)

From S2P Require Import Prelude Float32 Float64 IntervalTree ReadCommit ReadTypes ReadSession ReadSystem ReadInv ReadHeap ReadProof ReadActions ReadQueue.
From Stdlib Require Import SpecFloat.

Section Steps.
Context (cfg : read_settings) (b0 : Z) (Hcfg : settings_ok cfg) {extra : failure -> Prop}.
Context (DecompressData : Codec -> string -> option (list TDecompressedMessage)).
Local Abbreviation inv' := (inv cfg b0).
Local Abbreviation wpa := (wpE (allowed extra)).

(** ** Contexts *)

Lemma inv_weaken k k' s : inv' k s -> k_cur k' = k_cur k -> k_run k' = k_run k -> (forall x, x ∈ k_ex k -> x ∈ k_ex k') ->
  (forall x, x ∈ k_sids k' -> x ∈ k_sids k) -> (k_rd k' = true -> k_rd k = true) -> (k_cl k' = true -> k_cl k = true) ->
  (k_closed k' = true -> k_closed k = true) -> (k_wait k' = true -> k_wait k = true) -> (k_flow k' = true -> k_flow k = true) -> inv' k' s.
Proof.
  intros H E1 E2 Hex Hsids Hrd Hcl Hclosed Hwait Hflow. inv_destruct H. split; rewrite ?E1, ?E2; try done.
  - intros x Hx. apply i_sids0. rewrite elem_of_app in *. destruct Hx as [Hx|Hx]; auto.
  - intros sid st Hs. destruct (i_order0 sid st Hs) as (H0 & H1 & H2). split_and!; [done..|]. intros Hc Hx. apply H2; [done|]. intros Hin. by apply Hx, Hex.
  - destruct i_conn0 as [H1 H2 H3]. split; auto.
  - auto.
  - auto.
  - auto.
  - auto.
Qed.

(** Once the session was aborted. *)
Lemma inv_abort_ctx b1 k k' s : inv cfg b1 k s -> Aborting s = true -> k_cur k' = k_cur k -> k_run k' = k_run k -> k_ex k' = k_ex k -> k_sids k' = k_sids k ->
  k_closed k' = k_closed k -> (k_rd k' = true -> k_rd k = true) -> inv' k' s.
Proof.
  intros H Ha E1 E2 E3 E4 E5 Erd. inv_destruct H. split; rewrite ?E1, ?E2, ?E3, ?E4, ?E5; try done; try congruence.
  - acct_destruct i_acct0. split; [done|congruence|congruence|done].
  - destruct i_conn0 as [Hr1 Hr2 Hr3]. split; auto.
Qed.

Lemma inv_with_sids k s l : inv' k s -> (forall x, x ∈ l -> (x < length (Streams s))%nat) -> inv' (kw_sids (l ++ k_sids k) k) s.
Proof.
  intros H Hl. inv_destruct H. split; rs_simpl; try done. intros x. rewrite <- app_assoc. intros [Hx|Hx]%elem_of_app; auto.
Qed.

Lemma inv_drop_sids k s l : inv' (kw_sids (l ++ k_sids k) k) s -> inv' k s.
Proof. intros H. eapply inv_weaken; [exact H|..]; try done. intros x Hx. cbn. rewrite elem_of_app. by right. Qed.

(** ** Closing the queue *)

Lemma ExtractLoop_inv l : forall k s, inv' k s -> k_closed k = true -> (forall e, e ∈ l -> ei_Stream e ∈ k_sids k) -> wpa (ExtractLoop l) (fun _ s' => inv' k s') s.
Proof.
  induction l as [|e l IH]; intros k s H Hk Hl; cbn [ExtractLoop]; [by rs_steps|].
  destruct (stream_of _ _ _ _ _ H (Hl e ltac:(left))) as [st Hs]. rs_steps. apply (wpE_get_stream _ st); [done|]. rs_steps.
  apply (wpE_mono _ _ (fun _ s' => inv' k s')); [|intros [] s' H'; apply IH; [done|done|]; intros e' He'; apply Hl; by right].
  destruct (_ ++ _); [by rs_steps|]. apply ExtractAndCleanup_inv; [done|apply Hl; left|done].
Qed.

Lemma ClearAllEvents_inv k s : inv' k s -> k_closed k = true -> wpa ClearAllEvents (fun _ s' => inv' k s') s.
Proof.
  intros H Hk. unfold ClearAllEvents. rs_steps. pose proof (i_agree _ _ _ _ H) as Ha. unfold agree_ok in Ha. rewrite (i_closed _ _ _ _ H Hk) in Ha. rewrite Ha.
  cbn [ExtractLoop]. rs_steps. inv_destruct H. split; rs_simpl; try done. unfold agree_ok. by rewrite i_closed0.
Qed.

Lemma QueueClose_inv k s : inv' k s -> wpa QueueClose (fun _ s' => inv' (kw_closed true k) s') s.
Proof.
  intros H. unfold QueueClose. rs_steps. destruct (Closed s) eqn:Ec.
  { rs_steps. inv_destruct H. split; rs_simpl; done. }
  unfold ClearAllEvents. rs_steps. set (l := map ei_Stream (Events s)).
  assert (inv' (kw_sids (l ++ k_sids k) (kw_closed true k)) (set_Events [] (set_Closed true s))) as H1.
  { apply (inv_with_sids (kw_closed true k)).
    - inv_destruct H. split; rs_simpl; try done. intros sid st Hs. destruct (i_order0 sid st Hs) as (H0 & H1 & _). done.
    - intros x (e & -> & He)%list_elem_of_fmap. pose proof (i_agree _ _ _ _ H) as Ha. unfold agree_ok in Ha. rewrite Ec in Ha. destruct Ha as [Ha _].
      rewrite Forall_forall in Ha. destruct (Ha e He) as (_ & _ & Hlt). by rewrite length_fmap in Hlt. }
  change (Events (set_Closed true s)) with (Events s). eapply wpE_mono; [apply (ExtractLoop_inv _ (kw_sids (l ++ k_sids k) (kw_closed true k))); [exact H1|done|]|].
  - intros e He. cbn. rewrite elem_of_app. left. by apply list_elem_of_fmap_2.
  - intros [] s' H'. rs_steps. by eapply (inv_drop_sids (kw_closed true k)).
Qed.

(** ** Aborting *)

Lemma CleanupDecompressionQueue_inv k s : inv' k s -> wpa CleanupDecompressionQueueImpl (fun _ s' => inv' k s' /\ Aborting s' = Aborting s) s.
Proof.
  intros H. unfold CleanupDecompressionQueueImpl. rs_steps. split; [|done]. apply inv_add; [by apply inv_set_queue|].
  pose proof (i_queue _ _ _ _ H) as Hq. apply Forall_forall. intros a (i & -> & Hi)%list_elem_of_fmap. rewrite Forall_forall in Hq. by apply quiet_info, Hq.
Qed.

Lemma CallClosing_inv k s : inv' k s -> wpa CallClosing (fun _ s' => inv' k s' /\ Aborting s' = Aborting s) s.
Proof. intros H. unfold CallClosing. rs_steps; (split; [|done]); [|done]. inv_destruct H. split; rs_simpl; done. Qed.

(** After an abort every part that speaks of a session that runs is void. *)
Definition aborted (k : ctx) : ctx := kw_cl true (kw_wait true (kw_flow true k)).

Lemma AbortImpl_inv k s : inv' k s -> wpa AbortImpl (fun _ s' => inv' (aborted k) s' /\ Aborting s' = true) s.
Proof.
  intros H. unfold AbortImpl.
  assert (forall s1, inv' k s1 -> Aborting s1 = true -> wpa CleanupDecompressionQueueImpl (fun _ s' => inv' (aborted k) s' /\ Aborting s' = true) s1) as Hend.
  { intros s1 H1 Ha1. eapply wpE_mono; [by apply CleanupDecompressionQueue_inv|]. intros [] s2 [H2 E2]. rewrite E2. split; [|done].
    eapply inv_abort_ctx; [exact H2|congruence|done..]. }
  rs_steps.
  - eapply wpE_mono; [apply (CallClosing_inv k); inv_destruct H; split; rs_simpl; try done|].
    + acct_destruct i_acct0. split; done.
    + intros [] s1 [H1 E1]. eapply wpE_mono; [by apply CleanupDecompressionQueue_inv|]. intros [] s2 [H2 E2]. apply Hend; [done|]. by rewrite E2, E1.
  - apply Hend; [done|]. by apply negb_false_iff.
Qed.

Lemma CallCloseCallback_inv k s : inv' k s -> wpa CallCloseCallbackImpl (fun _ s' => inv' (aborted k) s' /\ Aborting s' = true) s.
Proof.
  intros H. unfold CallCloseCallbackImpl. rs_steps. eapply wpE_mono; [by apply CallClosing_inv|]. intros [] s1 [H1 E1]. rs_steps. destruct (Aborting s1) eqn:Ea; [|by apply AbortImpl_inv].
  eapply wpE_mono; [by apply CleanupDecompressionQueue_inv|]. intros [] s2 [H2 E2]. split; [|congruence]. eapply inv_abort_ctx; [exact H2|congruence|done..].
Qed.

Lemma inv_aborted_any k k' s : inv' (aborted k) s -> k_cur k' = k_cur k -> k_run k' = k_run k -> k_ex k' = k_ex k -> k_sids k' = k_sids k ->
  k_closed k' = k_closed k -> (k_rd k' = true -> k_rd k = true) -> inv' k' s.
Proof. intros H E1 E2 E3 E4 E5 E6. eapply inv_weaken; [exact H|..]; cbn; rewrite ?E1, ?E2, ?E3, ?E4, ?E5; done. Qed.

Lemma Abort_inv k s : inv' k s -> wpa AbortImpl (fun _ s' => inv' k s') s.
Proof. intros H. eapply wpE_mono; [by apply AbortImpl_inv|]. intros [] s' [H' _]. by eapply inv_aborted_any. Qed.

Lemma Close_inv k s : inv' k s -> wpa Close (fun _ s' => inv' k s') s.
Proof.
  intros H. unfold Close. rs_steps. destruct (Aborting s); [rs_steps; inv_destruct H; split; rs_simpl; done|].
  assert (forall s1, inv' (kw_cl false k) s1 -> wpa AbortImpl (fun _ s' => inv' k s') s1) as Hend.
  { intros s1 H1. eapply wpE_mono; [by apply AbortImpl_inv|]. intros [] s' [H' _]. by eapply inv_aborted_any. }
  rs_steps; [|apply Hend; eapply inv_weaken; [exact H|..]; done].
  assert (inv' (kw_cl false k) (set_CloseCallback true (set_Closing true s))) as H1 by (inv_destruct H; split; rs_simpl; done).
  destruct (_ || _)%bool; [|rs_steps; by apply Hend]. eapply wpE_mono; [by apply CallCloseCallback_inv|]. intros [] s' [H' _]. apply Hend. by eapply inv_aborted_any.
Qed.

Lemma TopAbort_inv k s zero : inv' k s -> wpa (TopAbortImpl true zero) (fun _ s' => inv' (kw_closed true k) s') s.
Proof.
  intros H. unfold TopAbortImpl. apply wpE_bind, wpE_abort_unless; [done|]. rs_steps. eapply wpE_mono; [by apply QueueClose_inv|]. intros b s1 H1. rs_steps.
  by apply inv_closed_call.
Qed.

Lemma inv_unclosed k s : inv' (kw_closed true k) s -> inv' k s.
Proof. intros H. by eapply inv_weaken; [exact H|..]. Qed.

Lemma TopGetEvents_inv k s n bytes : inv' k s -> k_cur k = [] -> 0 <= bytes -> (bytes = 0 -> extra no_bytes) -> wpa (TopGetEvents n bytes) (fun _ s' => inv' k s') s.
Proof.
  intros H Hk Hb Hz. unfold TopGetEvents. rs_steps. eapply wpE_mono; [by apply GetEvents_inv|]. intros res s1 H1. rs_steps. by apply inv_open_call.
Qed.

Lemma TopGetEvent_inv k s bytes : inv' k s -> k_cur k = [] -> 0 <= bytes -> (bytes = 0 -> extra no_bytes) -> wpa (TopGetEvent bytes) (fun _ s' => inv' k s') s.
Proof.
  intros H Hk Hb Hz. unfold TopGetEvent. rs_steps. eapply wpE_mono; [by apply GetEvent_inv|]. intros res s1 H1. rs_steps. by apply inv_open_call.
Qed.

(** The context of a stream does not matter. *)
Lemma inv_cb k s sid : inv' k s ->
  inv' k (set_Streams (alter (fun st => mkTStream (stream st) (queue st) false (Queued st) (Taken st)) sid (Streams s)) s).
Proof.
  intros H. set (f := fun st : TStream => _). assert (forall i st', alter f sid (Streams s) !! i = Some st' -> exists st, Streams s !! i = Some st /\
    stream st' = stream st /\ queue st' = queue st /\ Queued st' = Queued st /\ Taken st' = Taken st) as Hl.
  { intros i st' Hi. apply lookup_alter_cases in Hi as (st & Hst & ->). exists st. by destruct (decide _). }
  inv_destruct H. split; rs_simpl; try done.
  - by rewrite (fmap_alter_same sq).
  - by rewrite (fmap_alter_same given).
  - destruct i_streams0 as [Hm Hi]. split.
    + intros a x Hx. destruct (Hm a x Hx) as (st & Hst & Ha). destruct (decide (sid = x)) as [<-|Hne].
      * exists (f st). by rewrite list_lookup_alter_eq, Hst.
      * exists st. by rewrite list_lookup_alter_ne.
    + intros x st' Hst'. destruct (Hl _ _ Hst') as (st & Hst & -> & _). by eapply Hi.
  - intros x. rewrite length_alter. apply i_sids0.
  - intros x st' Hst'. destruct (Hl _ _ Hst') as (st & Hst & E1 & E2 & E3 & E4). unfold rest_of. rewrite E2, E3, E4. by apply (i_order0 x st).
Qed.

(** Streams of the map exist. *)
Definition map_sids (m : gmap Z nat) : list nat := map snd (map_to_list m).

Lemma elem_of_map_sids m sid : sid ∈ map_sids m <-> exists a, m !! a = Some sid.
Proof.
  unfold map_sids. split.
  - intros ([a x] & -> & Hx%elem_of_map_to_list)%list_elem_of_fmap. by exists a.
  - intros [a Ha]. change sid with (a, sid).2. by apply list_elem_of_fmap_2, elem_of_map_to_list.
Qed.

Lemma inv_map_sids k s : inv' k s -> inv' (kw_sids (map_sids (PartitionStreams s) ++ k_sids k) k) s.
Proof.
  intros H. apply inv_with_sids; [done|]. intros x [a Ha]%elem_of_map_sids. destruct (st_map _ _ (i_streams _ _ _ _ H) a x Ha) as (st & Hs & _). by eapply lookup_lt_Some.
Qed.

Lemma ClearAllPartitionStreamEvents_inv k s : inv' k s -> k_closed k = true -> wpa ClearAllPartitionStreamEvents (fun _ s' => inv' k s') s.
Proof.
  intros H Hk. unfold ClearAllPartitionStreamEvents. rs_steps. fold (map_sids (PartitionStreams s)).
  apply (wpE_mono _ _ (fun _ s' => inv' (kw_sids (map_sids (PartitionStreams s) ++ k_sids k) k) s')); [|intros [] s' H'; by eapply inv_drop_sids].
  apply wpE_for_each; [by apply inv_map_sids|]. intros sid s1 Hsid H1.
  assert (sid ∈ k_sids (kw_sids (map_sids (PartitionStreams s) ++ k_sids k) k)) as Hin by (cbn; rewrite elem_of_app; by left).
  destruct (stream_of _ _ _ _ _ H1 Hin) as [st Hs]. rs_steps. apply (wpE_get_stream _ st); [done|]. rs_steps.
  eapply wpE_mono; [by apply ExtractAndCleanup_inv|]. intros [] s2 H2. rs_steps. by apply inv_cb.
Qed.

Lemma TopClose_inv k s zero : inv' k s -> wpa (TopClose zero) (fun _ s' => inv' k s') s.
Proof.
  intros H. unfold TopClose. rs_steps. destruct (_ || _)%bool; [by rs_steps|]. destruct zero.
  - eapply wpE_mono; [by apply (TopAbort_inv k)|]. intros [] s1 H1. by apply inv_unclosed.
  - rs_steps. apply inv_open_call; [|done]. inv_destruct H; split; rs_simpl; done.
Qed.

Lemma StopReadingData_inv k s : inv' k s -> wpa StopReadingData (fun _ s' => inv' k s') s.
Proof. intros H. unfold StopReadingData. rs_steps. inv_destruct H. split; rs_simpl; done. Qed.

Lemma inv_flow_true k s : k_flow k = true -> inv' (kw_flow true k) s -> inv' k s.
Proof. destruct k. cbn. by intros ->. Qed.

Lemma ResumeReadingData_inv k s : inv' k s -> k_cl k = true -> k_wait k = true -> k_flow k = true -> wpa ResumeReadingData (fun _ s' => inv' k s') s.
Proof.
  intros H Hc Hw Hf. unfold ResumeReadingData. rs_steps; [|done].
  eapply wpE_mono; [apply (Continue_inv cfg b0 Hcfg (kw_flow false k)); [inv_destruct H; split; rs_simpl; done|done|done]|].
  intros [] s' H'. by apply inv_flow_true.
Qed.

(** ** Connections *)

Lemma inv_set_closed k s : inv' k s -> Closed s = true -> inv' (kw_closed true k) s.
Proof. intros H Hc. inv_destruct H. split; rs_simpl; done. Qed.

(** Streams whose queue was cut do not matter once the queue is closed, or when they are
    not in the map. *)
Lemma inv_ex_drop k s ex : inv' (kw_ex ex k) s -> (forall sid, sid ∈ ex -> sid ∈ k_ex k \/ Closed s = true \/ forall a, PartitionStreams s !! a <> Some sid) -> inv' k s.
Proof.
  intros H Hex. inv_destruct H. split; rs_simpl; try done. intros sid st Hs. destruct (i_order0 sid st Hs) as (H0 & H1 & H2). split_and!; [done..|].
  intros Hc Hx [a Ha]. apply H2; [done| |by exists a]. intros Hin. destruct (Hex sid Hin) as [?|[?|Hn]]; [done|congruence|by apply (Hn a)].
Qed.

Lemma DestroyStreams_inv l : forall k s, inv' k s -> (forall sid, sid ∈ l -> sid ∈ k_sids k) ->
  wpa (DestroyStreams l) (fun done s' => exists ex, inv' (kw_ex ex k) s' /\ (done = false -> Closed s' = true)) s.
Proof.
  induction l as [|sid l IH]; intros k s H Hl; cbn [DestroyStreams]; [rs_steps; exists (k_ex k); split; [by destruct k|done]|]. rs_steps.
  eapply wpE_mono; [apply (PushEvent_inv cfg b0 Hcfg k); [done|apply Hl; left]|]. intros pushed s1 [H1 Hp]. cbn [after_push is_closed_event] in H1. destruct pushed.
  - eapply wpE_mono; [apply (IH _ s1 H1); intros x Hx; apply Hl; by right|]. intros d s2 (ex & H2 & Hd). by exists ex.
  - rs_steps. pose proof (inv_set_closed _ _ H1 (Hp eq_refl)) as H1'. eapply wpE_mono; [by apply (Abort_inv _ s1 H1')|]. intros [] s2 H2. rs_steps.
    exists (sid :: k_ex k). split; [by apply inv_unclosed|]. intros _. by apply (i_closed _ _ _ _ H2).
Qed.

Lemma DestroyAllPartitionStreams_inv k s : inv' k s -> wpa DestroyAllPartitionStreamsImpl (fun _ s' => inv' k s') s.
Proof.
  intros H. unfold DestroyAllPartitionStreamsImpl. rs_steps. fold (map_sids (PartitionStreams s)).
  eapply wpE_mono; [apply (DestroyStreams_inv _ _ s (inv_map_sids _ _ H)); intros x Hx; cbn; rewrite elem_of_app; by left|].
  intros d s1 (ex & H1 & Hd). apply (inv_weaken _ (kw_ex ex k)) in H1; try done; [|intros x Hx; cbn; rewrite elem_of_app; by right].
  destruct d; cbn [when]; rs_steps; apply (inv_ex_drop _ _ ex).
  - inv_destruct H1. split; rs_simpl; try done.
    + destruct i_streams0 as [_ Hi]. split; [intros a x Hx; by rewrite lookup_empty in Hx|done].
    + intros sid st Hs. destruct (i_order0 sid st Hs) as (H0 & Hrest & _). split_and!; [done..|]. intros _ _ [a Ha]. by rewrite lookup_empty in Ha.
  - intros sid _. right; right. intros a. rs_simpl. by rewrite lookup_empty.
  - done.
  - intros sid _. right; left. by apply Hd.
Qed.

Lemma Reconnect_inv k s contexts ok delay : inv' k s -> k_rd k = false -> wpa (Reconnect contexts ok delay) (fun _ s' => inv' k s') s.
Proof.
  intros H Hr. unfold Reconnect. rs_steps. destruct (_ || _)%bool; [by rs_steps|]. rs_steps.
  set (s1 := set_ReadSizeServerDelta 0 _). assert (inv' k s1 /\ Processor s1 = false /\ WaitingReadResponse s1 = false) as (H1 & Hp1 & Hw1).
  { unfold s1. split; [|done]. inv_destruct H. split; rs_simpl; try done.
    - acct_destruct i_acct0. split; try done. intros Ha. specialize (a_budget0 Ha). lia.
    - destruct i_conn0 as [R1 R2 R3]. split; [intros g Hg; specialize (R1 g Hg); lia| |congruence]. intros Hg. specialize (R1 _ Hg). lia. }
  destruct (_ && _)%bool; [by rs_steps|]. rs_steps.
  eapply wpE_mono; [apply (DestroyAllPartitionStreams_inv k); clear -H1 Hp1 Hw1; generalize dependent s1; intros s1 H1 Hp1 Hw1; inv_destruct H1; split; rs_simpl; done|].
  intros [] s2 H2. by rs_steps.
Qed.

Lemma ReconnectOrAbort_inv k s contexts ok delay : inv' k s -> k_rd k = false -> wpa (ReconnectOrAbort contexts ok delay) (fun _ s' => inv' k s') s.
Proof.
  intros H Hr. unfold ReconnectOrAbort. rs_steps. eapply wpE_mono; [by apply (Reconnect_inv k)|]. intros r s1 H1. destruct r; [by rs_steps|]. rs_steps.
  by apply inv_open_call.
Qed.

(** After a connection was broken or the session aborted no read is awaited. *)
Definition broken (k : ctx) : ctx := kw_rd false (kw_wait true (kw_flow true k)).

Lemma BreakConnection_inv k s : inv' k s -> k_rd k = true ->
  wpa BreakConnectionAndReconnectImpl (fun _ s' => inv' (broken k) s') s.
Proof.
  intros H Hr. pose proof (i_conn _ _ _ _ H) as [_ _ Hrd]. destruct (Hrd Hr) as [Hnot Hp].
  unfold BreakConnectionAndReconnectImpl. rs_steps. rewrite Hp. rs_steps. apply (inv_add cfg b0 (broken k) (set_Processor false s) [ReconnectSession]).
  - inv_destruct H. split; unfold broken; rs_simpl; try done.
    + destruct i_conn0 as [R1 R2 R3]. split; [done| |done]. intros Hg. by apply Hnot in Hg.
    + intros Hx. destruct (i_context0 Hx). split; congruence.
  - constructor; [|done]. split_and!; [|done|done|done|by intros x ?%elem_of_nil]. split_and!; [done|done|by intros i ?%elem_of_nil].
Qed.

Lemma ReadFromProcessor_inv k s : inv' k s -> k_rd k = false -> k_cl k = true -> wpa ReadFromProcessorImpl (fun _ s' => inv' k s') s.
Proof.
  intros H Hr Hc. unfold ReadFromProcessorImpl. rs_steps. destruct (Aborting s) eqn:Ea; [by rs_steps|].
  destruct (Closing s) eqn:Ec; [rewrite (i_closing _ _ _ _ H Hc Ec) in Ea; done|]. cbn [andb negb]. rs_steps; [|done].
  apply andb_true_iff in H0 as [Hp _]. inv_destruct H. split; rs_simpl; try done. destruct i_conn0 as [R1 R2 R3]. split; [|done|congruence].
  intros g [Hg| ->%list_elem_of_singleton]%elem_of_app; [by apply R1|lia].
Qed.

(** ** Connection callbacks *)

Lemma CallCloseCallback_any k s : inv' k s -> wpa CallCloseCallbackImpl (fun _ s' => inv' k s') s.
Proof. intros H. eapply wpE_mono; [by apply CallCloseCallback_inv|]. intros [] s' [H' _]. by eapply inv_aborted_any. Qed.

Lemma inv_no_context k s : inv' k s -> inv' k (set_ConnectTimeoutContext None (set_ConnectContext None s)).
Proof. intros H. inv_destruct H. split; rs_simpl; done. Qed.

Lemma OnConnect_inv k s ok ctx : inv' k s -> k_rd k = false -> k_cl k = true -> wpa (OnConnect ok ctx) (fun _ s' => inv' k s') s.
Proof.
  intros H Hr Hc. unfold OnConnect. rs_steps. destruct (bool_decide _) eqn:E; [|by rs_steps]. apply bool_decide_eq_true in E.
  pose proof (inv_no_context _ _ H) as H1. rs_steps. destruct (_ || _)%bool; [by apply CallCloseCallback_any|]. destruct ok; [|rs_steps; by apply inv_open_call].
  pose proof (i_context _ _ _ _ H) as Hctx. rewrite E in Hctx. destruct (Hctx ltac:(done)) as [Hp Hw]. rs_steps.
  apply (Write_inv cfg b0 k); [|intros s2 H2; by apply ReadFromProcessor_inv]. inv_destruct H1. split; rs_simpl; try done; try congruence.
  destruct i_conn0 as [R1 R2 R3]. split; [done|done|congruence].
Qed.

Lemma OnConnectTimeout_inv k s ctx : inv' k s -> k_rd k = false -> k_cl k = true -> wpa (OnConnectTimeout ctx) (fun _ s' => inv' k s') s.
Proof.
  intros H Hr Hc. unfold OnConnectTimeout. rs_steps. destruct (bool_decide _); [|by rs_steps].
  pose proof (inv_no_context _ _ H) as H1. rs_steps. destruct (_ || _)%bool; [by apply CallCloseCallback_any|rs_steps; by apply inv_open_call].
Qed.
End Steps.
