(* ===== verification/ReadMessages.v ===== *)
(** * Messages of the server and calls of the user keep the invariant of a read session *)

From S2P Require Import Prelude Float32 Float64 IntervalTree ReadCommit ReadTypes ReadSession ReadSystem ReadInv ReadHeap ReadProof ReadActions ReadQueue ReadSteps.
From Stdlib Require Import SpecFloat.

(** ** Offsets of a stream *)

(** An operation on the offsets of a stream that stays within its invariant. *)
Definition offsets_ok {A} (extra : failure -> Prop) (m : M TPartitionStreamImpl A) (R : A -> Prop) : Prop :=
  forall p taken sent, stream_inv p taken sent ->
  match m p with
  | Ok (a, p') => AssignId p' = AssignId p /\ (exists taken' sent', stream_inv p' taken' sent') /\ R a
  | Fail f => allowed extra f
  end.

Lemma AddToCommitRanges_id s e b p u p' : AddToCommitRanges s e b p = Ok (u, p') -> AssignId p' = AssignId p.
Proof. unfold AddToCommitRanges. destruct (_ || _)%bool; [done|]. destruct (_ && _)%bool; [done|]. by intros [= _ <-]. Qed.

Lemma ValidateMessages_id l : forall d p d' p', ValidateMessages l d p = Ok (d', p') -> AssignId p' = AssignId p.
Proof.
  induction l as [|[c m] l IH]; intros d p d' p'; cbn [ValidateMessages]; [by intros [= _ <-]|].
  unfold ValidateMessage, mbind, M_bind. destruct (GetReadMessageCount m c) as [n|]; [|done]. destruct (IsReplicationServiceMessage _ _); [cbv beta iota; apply IH|].
  destruct (when _ _ p) as [[u p1]|] eqn:E; [|done]. assert (AssignId p1 = AssignId p) as E1.
  { destruct (offset m >? d); cbn [when] in E; [by eapply AddToCommitRanges_id|unfold mret, M_ret in E; congruence]. }
  destruct (i64_add (offset m) _) as [next|]; [|done]. destruct (i64_add next _) as [o|]; [|done].
  unfold modify, mret, M_ret. cbv beta iota. intros Hv. rewrite (IH _ _ _ _ Hv).
  unfold UpdateMaxReadOffset. rewrite <- E1. by destruct (_ >? MaxReadOffset p1).
Qed.

Lemma ValidateOffsets_ok batches (extra : failure -> Prop) : event_ok (Received batches) -> (forall f, not_abort f -> extra f) -> offsets_ok extra (ValidateOffsets batches) (fun nonempty => nonempty = false <-> messages_of batches = []).
Proof.
  intros Hok Hx p taken sent H. pose proof (ValidateOffsets_spec batches p taken sent H Hok) as Hs.
  destruct (ValidateOffsets batches p) as [[b p']|] eqn:E; [|right; right; by apply Hx]. destruct Hs as (H1 & _ & H3). split_and!; [|by eexists _, _|done].
  unfold ValidateOffsets, mbind, M_bind, get_st in E. cbv beta iota in E. destruct (ValidateMessages _ _ p) as [[d p1]|] eqn:Ev; [|done].
  apply ValidateMessages_id in Ev. destruct (existsb _ _); cbn in E; injection E as _ <-; done.
Qed.

Lemma Commit_ok s e (extra : failure -> Prop) : 0 <= s < e -> extra (Throw "Invalid offset range") -> offsets_ok extra (Commit s e) (fun _ => True).
Proof.
  intros Hse Hx p taken sent H. pose proof (Commit_spec p taken sent s e H Hse) as Hs. destruct (Commit s e p) as [[r p']|] eqn:E; [|destruct Hs as [_ ->]; right; by right].
  destruct Hs as (_ & H1 & _). split_and!; [|by eexists _, _|done].
  assert (wpP (Commit s e) (fun _ p' => AssignId p' = AssignId p) p) as Hid; [|unfold wpE in Hid; by rewrite E in Hid].
  unfold Commit. wpP_steps. unfold wpE at 1. destruct (AddToCommitRanges s e true p) as [[u p1]|] eqn:Ea; [|done]. apply AddToCommitRanges_id in Ea. wpP_steps. done.
Qed.

Lemma Acknowledged_ok off extra : offsets_ok extra (modify (UpdateMaxCommittedOffset off)) (fun _ => True).
Proof.
  intros p taken sent H. cbn. destruct (UpdateMaxCommittedOffset_spec p taken sent off H) as [H1 _]. split_and!; [|by eexists _, _|done].
  unfold UpdateMaxCommittedOffset. by destruct (_ >? _).
Qed.

Lemma ConfirmCreate_ok off extra : match off with Some off => 0 <= off < 2 ^ 63 | None => True end -> offsets_ok extra (modify (ConfirmCreate off)) (fun _ => True).
Proof.
  intros Hoff p taken sent H. cbn. destruct off as [off|]; cbn; (split_and!; [done| |done]); eexists taken, sent; [|done]. destruct H. split; done.
Qed.

Section Messages.
Context (cfg : read_settings) (b0 : Z) (Hcfg : settings_ok cfg) {extra : failure -> Prop}.
Local Abbreviation inv' := (inv cfg b0).
Local Abbreviation wpa := (wpE (allowed extra)).

Lemma on_stream_inv {A} b1 k s sid (m : M TPartitionStreamImpl A) R : inv cfg b1 k s -> sid ∈ k_sids k -> offsets_ok extra m R ->
  wpa (on_stream sid m) (fun a s' => inv cfg b1 k s' /\ R a /\ exists l, s' = set_Streams l s) s.
Proof.
  intros H Hin Hm. destruct (stream_of _ _ _ _ _ H Hin) as [st Hs]. unfold wpE, on_stream. rewrite Hs.
  destruct (st_inv _ _ (i_streams _ _ _ _ H) sid st Hs) as (taken & sent & Hst). specialize (Hm _ _ _ Hst). destruct (m (stream st)) as [[a p]|]; [|done].
  destruct Hm as (Hid & (taken' & sent' & Hst') & HR). set (st' := mkTStream p _ _ _ _). split_and!; [|done|by eexists]. inv_destruct H. split; rs_simpl; try done.
  - by rewrite (fmap_insert_same sq _ _ _ _ Hs).
  - by rewrite (fmap_insert_same given _ _ _ _ Hs).
  - destruct i_streams0 as [Hmap Hi]. split.
    + intros x y Hx. destruct (Hmap x y Hx) as (w & Hw & Ha). destruct (lookup_insert_cases _ _ _ st' _ _ Hs Hw) as (z & Hz & [(<- & -> & ->)|(_ & ->)]); eexists; (split; [done|]); [by rewrite <- Ha|done].
    + intros x y Hy. destruct (insert_lookup_cases _ _ _ _ _ _ Hs Hy) as (w & Hw & [(<- & -> & ->)|(_ & ->)]); [by eexists _, _|by eapply Hi].
  - intros x. rewrite length_insert. apply i_sids0.
  - intros x y Hy. destruct (insert_lookup_cases _ _ _ _ _ _ Hs Hy) as (w & Hw & [(<- & -> & ->)|(_ & ->)]); [by apply (i_order0 sid st)|by apply (i_order0 x w)].
Qed.

(** ** Data *)

Lemma message_at_In batches id c m : message_at batches id = Some (c, m) -> (c, m) ∈ messages_of batches.
Proof.
  unfold message_at, messages_of. destruct (batches !! id.1) as [b|] eqn:Eb; [|done]. destruct (message_data b !! id.2) as [x|] eqn:Ex; [|done]. intros [= <- <-].
  apply list_elem_of_In, in_concat. exists (map (pair (codec b)) (message_data b)). split.
  - apply in_map_iff. exists b. split; [done|]. apply list_elem_of_In. by eapply list_elem_of_lookup_2.
  - apply in_map, list_elem_of_In. by eapply list_elem_of_lookup_2.
Qed.

(** A message of the batches says that it has a negative size. *)
Definition negative_size (batches : list Batch) : Prop := Exists (fun cm => uncompressed_size cm.2 < 0) (messages_of batches).

Lemma plan_fail ratio batches i l f : ratio_ok ratio -> (negative_size batches -> extra negative_estimate) -> (forall id, id ∈ l -> id ∈ message_ids batches) ->
  PlanMessages ratio batches i l = Fail f -> allowed extra f.
Proof.
  intros Hr Hm Hl Hp. eapply (PlanLoop_fail _ _ _ _ _ Hr); [|exact Hp]. intros id Hid%Hl. destruct (elem_of_message_at _ _ Hid) as [[c m] E].
  exists c, m. split; [done|]. intros Hn. apply Hm, Exists_exists. exists (c, m). split; [by eapply message_at_In|done].
Qed.

(** Every message has an event. *)
Lemma PlanMessages_nil ratio batches i l tasks n : PlanMessages ratio batches i l = Ok (tasks, n, []) -> l = [].
Proof.
  unfold PlanMessages. destruct l as [|id l]; [done|]. cbn [PlanLoop]. destruct (message_at _ _) as [[c m]|]; [|done]. destruct (estimate _ _); [|done].
  destruct (_ <? _); [done|]. cbv zeta. destruct (negb _); [done|]. destruct (_ >=? _); by destruct (PlanLoop _ _ _ _ _ _) as [[[? ?] ?]|].
Qed.

Definition new_info (batches : list Batch) (sid : nat) (committed sb : Z) : TDataDecompressionInfo :=
  mkInfo batches sid committed sb (compressed_size batches) 0 [] [] ∅ ∅ false.

Lemma inv_new_info k s batches sid committed sb : inv cfg (b0 - sb) k s -> (sid < length (Streams s))%nat -> k_flow k = false ->
  inv' k (set_Infos (Infos s ++ [new_info batches sid committed sb]) (set_CompressedDataSize (CompressedDataSize s + compressed_size batches) s)).
Proof.
  intros H Hsid Hf. inv_destruct H. split; rs_simpl; try done; [| | |congruence].
  - apply heap_new_info; try done. cbn. by rewrite length_fmap.
  - acct_destruct i_acct0. split; rewrite ?(zsum_app info_Compressed), ?(zsum_app info_Decompressed), ?(zsum_app ServerBytesSize), ?zsum_cons, ?zsum_nil; cbn [new_info info_Compressed info_Decompressed ServerBytesSize];
      [lia|intros Ha; specialize (a_decompressed0 Ha); lia|intros Ha; specialize (a_budget0 Ha); lia|done].
  - eapply Forall_impl; [exact i_queue0|]. intros j (x & Hx & Hd). exists x. split; [by apply lookup_app_l_Some|done].
Qed.

Definition pushed_stream (events : list TDataDecompressionEvent) (st : TStream) : TStream :=
  mkTStream (stream st) (mkQueue (ReadyEvents (queue st)) (NotReady (queue st) ++ map DataEvent events)) (HasCbContext st) (Queued st ++ events) (Taken st).

Lemma rest_pushed events st : rest_of (pushed_stream events st) = rest_of st ++ events.
Proof. unfold rest_of. cbn. by rewrite dataevs_app, dataevs_data, !app_assoc. Qed.

Lemma inv_planned k s i info st tasks n events ratio : inv' k s -> Infos s !! i = Some info -> Destroyed info = false -> ReadyThresholds info = [] ->
  Streams s !! PartitionStream info = Some st -> PlanDecompressionTasks ratio (ServerMessage info) i = Ok (tasks, n, events) ->
  (Closed s = true -> events = []) -> k_ex k = [] -> (exists a, PartitionStreams s !! a = Some (PartitionStream info)) ->
  inv' k (q_state (PartitionStream info) (pushed_stream events st) (<[i := planned_info info n tasks]> (Infos s)) (Events s) (Pending s) s).
Proof.
  intros H Hi Hal Hno Hs Hp Hc Hex Hmap. pose proof (i_order _ _ _ _ H _ st Hs) as (Hcb & Ho1 & Ho2). rewrite Hex in Ho2.
  assert (Queued st ++ events = rest_of st ++ events \/ (Closed s = true /\ events = [])) as Hq.
  { destruct (Closed s); [right; auto|left]. f_equal. apply Ho2; [done|by intros ?%elem_of_nil|done]. }
  apply inv_ctx. eapply inv_q; [exact H|exact Hs|done| | |done| | | |exact Hcb| | |done]; rewrite ?rest_pushed.
  - unfold sq, pushed_stream. cbn [queue ReadyEvents NotReady]. rewrite dataevs_app, dataevs_data.
    eapply heap_plan; [apply H|exact Hi|done|done|exact Hp|by rewrite list_lookup_fmap, Hs].
  - pose proof (i_acct _ _ _ _ H) as Hacct. acct_destruct Hacct.
    split; rewrite ?(zsum_insert _ _ _ _ _ Hi); cbn [planned_info info_Compressed info_Decompressed ServerBytesSize];
      [lia|intros Ha; specialize (a_decompressed0 Ha); lia|intros Ha; specialize (a_budget0 Ha); lia|done].
  - eapply Forall_impl; [apply H|]. intros j. eapply alive_insert; [exact Hi|done].
  - change (given (pushed_stream events st)) with (given st). apply agree_same; [apply H|]. by rewrite list_lookup_fmap, Hs.
  - intros x Hx. apply (i_sids _ _ _ _ H). rewrite elem_of_app. by right.
  - cbn [pushed_stream Queued]. destruct Hq as [->|[_ ->]]; [exists []; by rewrite app_nil_r|]. rewrite !app_nil_r. exact Ho1.
  - intros Hcl _ _. cbn [pushed_stream Queued]. destruct Hq as [?|[? _]]; [done|congruence].
Qed.

Lemma q_state_plan f sid st i info info' s : Streams s !! sid = Some st -> Infos s !! i = Some info ->
  set_Streams (alter f sid (Streams (set_Infos (alter info' i (Infos s)) s))) (set_Infos (alter info' i (Infos s)) s) =
  q_state sid (f st) (<[i := info' info]> (Infos s)) (Events s) (Pending s) s.
Proof. intros Hs Hi. rs_simpl. rewrite (list_alter_insert _ _ _ _ Hs), (list_alter_insert _ _ _ _ Hi). by destruct s. Qed.

(** A response stops being processed when the session was aborted or the connection broken. *)
Definition stopped (k : ctx) (continue : bool) (s : rs) : Prop := if continue then inv' k s else inv' (broken k) s.

Lemma PlanInfo_inv k s sid batches i info : inv' k s -> Infos s !! i = Some info -> info = new_info batches sid (CommittedOffset info) (ServerBytesSize info) ->
  sid ∈ k_sids k -> k_ex k = [] -> (exists a, PartitionStreams s !! a = Some sid) -> k_cl k = true ->
  (negative_size batches -> extra negative_estimate) ->
  wpa (PlanInfo sid batches i) (fun planned s' => stopped k planned s' /\ (planned = true -> alive (Infos s') i)) s.
Proof.
  intros H Hi Hnew Hin Hex Hmap Hcl Hm. destruct (stream_of _ _ _ _ _ H Hin) as [st Hs]. unfold PlanInfo. rs_steps.
  set (l := if Closed s then _ else _). assert (forall id, id ∈ l -> id ∈ message_ids batches) as Hl.
  { intros id. unfold l. destruct (Closed s); [|done]. destruct (message_ids batches) as [|x t]; [done|]. intros ->%list_elem_of_singleton. left. }
  destruct (PlanMessages _ _ _ l) as [[[tasks n] events]|f] eqn:Hp; [|unfold wpE; eapply plan_fail; [apply H|exact Hm|exact Hl|exact Hp]].
  assert (alive (Infos s) i) as Hal by (exists info; split; [done|by rewrite Hnew]).
  destruct (Closed s && negb (bool_decide (events = [])))%bool eqn:Ec.
  - rs_steps. eapply wpE_mono; [apply (AbortImpl_inv cfg b0 k); apply inv_add; [done|]; constructor; [by apply quiet_info|done]|].
    intros [] s1 [H1 _]. rs_steps. split; [|done]. cbn [stopped]. eapply inv_aborted_any; [exact H1|done..].
  - unfold PushDataEvents. rs_steps. rewrite (q_state_plan _ sid st i info) by done.
    assert (PartitionStream info = sid /\ ServerMessage info = batches /\ ReadyThresholds info = [] /\ Destroyed info = false) as (E1 & E2 & E3 & E4) by (by rewrite Hnew).
    assert (Closed s = true -> events = []) as Hce.
    { intros Hcl'. rewrite Hcl' in Ec. cbn in Ec. apply negb_false_iff, bool_decide_eq_true in Ec. done. }
    assert (PlanDecompressionTasks (AverageCompressionRatio s) batches i = Ok (tasks, n, events)) as Hp'.
    { unfold l in Hp. destruct (Closed s); [|exact Hp]. rewrite (Hce eq_refl) in Hp |- *. unfold PlanDecompressionTasks. pose proof (PlanMessages_nil _ _ _ _ _ _ Hp) as Hnil.
      by destruct (message_ids batches). }
    clear Hp. rename Hp' into Hp. rewrite <- E2 in Hp. rewrite <- E1 in Hs, Hmap. pose proof (inv_planned _ _ _ _ _ _ _ _ _ H Hi E4 E3 Hs Hp Hce Hex Hmap) as H'. rewrite E1 in H'. split; [exact H'|].
    intros _. eapply alive_insert; [exact Hi|done|done].
Qed.

Lemma inv_lost k s n : inv cfg (b0 - n) k s -> inv' k (set_LostBytes (LostBytes s + n) s).
Proof.
  intros H. inv_destruct H. split; rs_simpl; try done. acct_destruct i_acct0. split; try done. intros Ha. specialize (a_budget0 Ha). lia.
Qed.

Lemma no_messages_size batches : messages_of batches = [] -> compressed_size batches = 0.
Proof. intros E. unfold compressed_size. by rewrite E. Qed.

Lemma inv_same_C k s c : inv' k s -> c = CompressedDataSize s -> inv' k (set_CompressedDataSize c s).
Proof. intros H ->. inv_destruct H. split; rs_simpl; done. Qed.

Lemma lookup_last {A} (l : list A) x : (l ++ [x]) !! length l = Some x.
Proof. by rewrite lookup_app_r, Nat.sub_diag. Qed.

Lemma OnPartitionData_inv k s a batches sb : inv cfg (b0 - sb) k s -> k_rd k = true -> k_ex k = [] -> k_cl k = true -> k_flow k = false ->
  event_ok (Received batches) -> (negative_size batches -> extra negative_estimate) -> (forall f, not_abort f -> extra f) ->
  wpa (OnPartitionData a batches sb) (stopped k) s.
Proof.
  intros H Hrd Hex Hcl Hf Hok Hun Hext. unfold OnPartitionData. rs_steps. destruct (PartitionStreams s !! a) as [sid|] eqn:Ha.
  2:{ rs_steps. eapply wpE_mono; [apply (BreakConnection_inv cfg b0 k); [by apply inv_lost|done]|]. intros [] s1 H1. rs_steps. exact H1. }
  assert (inv cfg (b0 - sb) (kw_sids ([sid] ++ k_sids k) k) s) as H0.
  { apply inv_with_sids; [done|]. intros x ->%list_elem_of_singleton. destruct (st_map _ _ (i_streams _ _ _ _ H) a sid Ha) as (st & Hs & _). by eapply lookup_lt_Some. }
  rs_steps. eapply wpE_mono; [apply (on_stream_inv (b0 - sb) _ _ sid _ (fun nonempty => nonempty = false <-> messages_of batches = []) H0); [left|by apply ValidateOffsets_ok]|]. intros nonempty s1 (H1 & Hne & l & E1). rs_steps.
  destruct nonempty; cbn [negb].
  - assert (sid ∈ k_sids (kw_sids ([sid] ++ k_sids k) k)) as Hin by left. destruct (stream_of _ _ _ _ _ H1 Hin) as [st Hs]. rs_steps. apply (wpE_get_stream _ st); [done|]. rs_steps.
    assert (length (Infos s) = length (Infos s1)) as -> by (by rewrite E1).
    fold (new_info batches sid (MaxCommittedOffset (stream st)) sb). set (info := new_info _ _ _ _).
    pose proof (inv_new_info _ s1 batches sid (MaxCommittedOffset (stream st)) sb H1 ltac:(by eapply lookup_lt_Some) Hf) as H2. fold info in H2.
    assert (Infos (set_Infos (Infos s1 ++ [info]) (set_CompressedDataSize (CompressedDataSize s1 + compressed_size batches) s1)) !! length (Infos s1) = Some info) as Hi by apply lookup_last.
    assert (PartitionStreams s1 !! a = Some sid) as Hmap by (by rewrite E1).
    eapply wpE_mono; [apply (PlanInfo_inv _ _ sid batches (length (Infos s1)) info H2 Hi); [done|left|done|by exists a|done|done]|].
    intros planned s2 [H3 Hal]. assert (stopped k planned s2) as H3' by (destruct planned; [exact (inv_drop_sids cfg b0 k _ [sid] H3)|exact (inv_drop_sids cfg b0 (broken k) _ [sid] H3)]).
    destruct planned; [|by rs_steps]. rs_steps. eapply wpE_mono; [apply (Start_inv cfg b0 k)|intros [] s3 H4; by rs_steps].
    apply inv_set_queue; [done|]. apply Forall_app. split; [apply H3'|]. constructor; [by apply Hal|done].
  - apply inv_drop_sids in H1. rs_steps. eapply wpE_mono; [apply (BreakConnection_inv cfg b0 k); [|done]|intros [] s2 H2; rs_steps; exact H2].
    rewrite no_messages_size by (by apply Hne). apply inv_lost. inv_destruct H1. split; rs_simpl; try done; try congruence.
    rewrite Z.add_0_r. done.
Qed.

Lemma OnPartitionsData_inv l : forall k s sb, inv cfg (b0 - sb) k s -> k_rd k = true -> k_ex k = [] -> k_cl k = true -> k_flow k = false ->
  Forall (fun pd => event_ok (Received pd.2)) l -> (Exists (fun pd => negative_size pd.2) l -> extra negative_estimate) -> (forall f, not_abort f -> extra f) ->
  wpa (OnPartitionsData l sb) (stopped k) s.
Proof.
  induction l as [|[a batches] l IH]; intros k s sb H Hrd Hex Hcl Hf Hok Hn Hext; cbn [OnPartitionsData]; [rs_steps; by apply inv_lost|].
  rewrite Exists_cons in Hn. inversion Hok; subst. rs_steps. eapply wpE_mono; [apply (OnPartitionData_inv k); try done; auto|]. intros c s1 H1.
  destruct c; [|by rs_steps]. apply IH; try done; [by rewrite Z.sub_0_r|auto].
Qed.

(** [k] is the context of a step here: everything is established. *)
Lemma OnReadResponse_inv k s msg : inv' k s -> k_rd k = true -> k_ex k = [] -> k_cl k = true -> k_flow k = true -> k_wait k = true ->
  Forall (fun pd => event_ok (Received pd.2)) (partition_data msg) -> (Exists (fun pd => negative_size pd.2) (partition_data msg) -> extra negative_estimate) -> (forall f, not_abort f -> extra f) ->
  wpa (OnReadResponse msg) (fun _ s' => inv' (kw_rd false k) s') s.
Proof.
  intros H Hrd Hex Hcl Hf Hw Hok Hn Hext. unfold OnReadResponse. rs_steps. destruct (_ || _)%bool; [rs_steps; by eapply inv_weaken|]. rs_steps.
  set (k' := kw_wait false (kw_flow false k)). eapply wpE_mono; [apply (OnPartitionsData_inv _ k'); try done|].
  { inv_destruct H. split; unfold k'; rs_simpl; try done. acct_destruct i_acct0. split; try done. intros Ha. specialize (a_budget0 Ha). lia. }
  intros c s1 H1. destruct c; cbn [when]; rs_steps; [|eapply inv_weaken; [exact H1|..]; done].
  eapply wpE_mono; [apply (Continue_inv cfg b0 Hcfg (kw_wait true k')); [|done|done]|intros [] s2 H2; eapply inv_weaken; [exact H2|..]; done].
  unfold stopped in H1. inv_destruct H1. split; unfold k' in *; rs_simpl; try done. intros Hx. by destruct (i_context0 Hx).
Qed.

(** ** Partition sessions *)

Lemma OnInitResponse_inv k s : inv' k s -> k_cl k = true -> k_wait k = true -> k_flow k = true -> wpa OnInitResponse (fun _ s' => inv' k s') s.
Proof.
  intros H Hc Hw Hf. unfold OnInitResponse. rs_steps.
  eapply wpE_mono; [apply (Continue_inv cfg b0 Hcfg (kw_flow false k)); [inv_destruct H; split; rs_simpl; done|done|done]|]. intros [] s' H'. by apply inv_flow_true.
Qed.

(** A push that leaves no stream cut. *)
Lemma push_inv k s sid e : inv' k s -> sid ∈ k_sids k -> is_closed_event e = false ->
  wpa (PushEvent sid e) (fun _ s' => inv' k s') s.
Proof. intros H Hin He. eapply wpE_mono; [by apply (PushEvent_inv cfg b0 Hcfg k)|]. intros b s' [H' _]. unfold after_push in H'. by rewrite He in H'. Qed.

Lemma use_sid k s sid : inv' k s -> (exists a, PartitionStreams s !! a = Some sid) -> inv' (kw_sids ([sid] ++ k_sids k) k) s.
Proof.
  intros H [a Ha]. apply inv_with_sids; [done|]. intros x ->%list_elem_of_singleton. destruct (st_map _ _ (i_streams _ _ _ _ H) a sid Ha) as (st & Hs & _). by eapply lookup_lt_Some.
Qed.

(** Pushing an event to a stream of the map. *)
Lemma push_or_abort_inv k s sid e : inv' k s -> (exists a, PartitionStreams s !! a = Some sid) -> is_closed_event e = false ->
  wpa (pushRes ← PushEvent sid e ; when (negb pushRes) AbortImpl) (fun _ s' => inv' k s') s.
Proof.
  intros H Hmap He. apply wpE_bind. eapply wpE_mono; [apply (push_inv (kw_sids ([sid] ++ k_sids k) k)); [by apply use_sid|left|done]|].
  intros b s1 H1. apply inv_drop_sids in H1. rs_steps; [by apply Abort_inv|done].
Qed.

Definition new_stream (assignId sessionId partitionId off : Z) : TStream :=
  mkTStream (TPartitionStreamImpl_new assignId sessionId partitionId off) (mkQueue [] []) true [] [].

(** A new stream takes the place of the one with its id. *)
Lemma inv_new_stream k s a psid pid off ex next : inv' (kw_ex ex k) s -> 0 <= off < 2 ^ 63 ->
  (forall sid, sid ∈ ex -> sid ∈ k_ex k \/ (forall a', PartitionStreams s !! a' = Some sid -> a' = a)) ->
  inv' k (set_PartitionStreams (<[a := length (Streams s)]> (PartitionStreams s))
    (set_NextPartitionStreamId next (set_Streams (Streams s ++ [new_stream a psid pid off]) s))).
Proof.
  intros H Hoff Hex. assert (forall a' sid, <[a := length (Streams s)]> (PartitionStreams s) !! a' = Some sid ->
    (a' = a /\ sid = length (Streams s)) \/ (a' <> a /\ PartitionStreams s !! a' = Some sid)) as Hins.
  { intros a' sid Hx. destruct (decide (a = a')) as [<-|Hne]; [rewrite lookup_insert_eq in Hx; left; split; congruence|right; by rewrite lookup_insert_ne in Hx]. }
  inv_destruct H. split; rs_simpl; try done.
  - rewrite fmap_app. by apply heap_new_stream.
  - unfold agree_ok in *. destruct (Closed s); [done|]. destruct i_agree0 as [Hok Hk]. rewrite fmap_app, length_app. split.
    + eapply Forall_impl; [exact Hok|]. intros e (H1 & H2 & H3). split_and!; [done|done|]. cbn. lia.
    + intros sid l [Hl|[-> ->]]%lookup_snoc; [auto|]. unfold kinds. apply concat_map_nil. intros e He. rewrite Forall_forall in Hok. destruct (Hok e He) as (_ & _ & Hlt).
      rewrite decide_False; [done|]. lia.
  - destruct i_streams0 as [Hm Hi]. split.
    + intros a' sid [[-> ->]|[_ Hx]]%Hins; [eexists; split; [apply lookup_last|done]|]. destruct (Hm _ _ Hx) as (st & Hs & E). exists st. split; [by apply lookup_app_l_Some|done].
    + intros sid st [Hs|[_ ->]]%lookup_snoc; [by eapply Hi|]. eexists _, _. by apply stream_inv_new.
  - intros x Hx. rewrite length_app. apply i_sids0 in Hx. lia.
  - intros sid st [Hs|[-> ->]]%lookup_snoc; [|split_and!; [done|by exists []|done]]. destruct (i_order0 sid st Hs) as (H0 & H1 & H2). split_and!; [done..|].
    intros Hc Hx [a' [[-> ->]|[Hne Ha']]%Hins]; [apply lookup_lt_Some in Hs; lia|]. apply H2; [done| |by exists a'].
    intros Hin. destruct (Hex sid Hin) as [?|Hy]; [done|]. by apply Hne, Hy.
Qed.

Lemma wpP_get_stream sid (Q : TStream -> rs -> Prop) s : (forall st, Q st s) -> wpP (get_stream sid) Q s.
Proof. intros H. unfold wpE, get_stream. by destruct (Streams s !! sid). Qed.

(** Events of the queue do not touch the map of streams. *)
Lemma SignalLoop_map sid fuel : forall s, wpP (SignalLoop fuel sid) (fun _ s' => PartitionStreams s' = PartitionStreams s) s.
Proof.
  induction fuel as [|fuel IH]; intros s; cbn [SignalLoop]; [exact I|]. rs_steps. apply wpP_get_stream. intros st. rs_steps.
  assert (forall s1, PartitionStreams s1 = PartitionStreams s -> wpP (SignalLoop fuel sid) (fun _ s' => PartitionStreams s' = PartitionStreams s) s1) as Hend.
  { intros s1 E. eapply wpE_mono; [apply IH|]. intros [] s2 E2. by rewrite E2. }
  destruct (NotReady (queue st)) as [|front rest]; [by rs_steps|]. destruct (_ || _)%bool; [|by rs_steps]. destruct (IsAbandoned _ _); [rs_steps; by apply Hend|].
  destruct front as [d|e].
  - destruct (HasDataEventCallback _); [|rs_steps; apply wpE_signal; rs_steps; by apply Hend].
    destruct (TakeEvents _ _ _ _ _) as [[[taken left_] ?] ?]. unfold take_from. rs_steps. by apply Hend.
  - unfold TryApplyCallbackToEventImpl. rs_steps. destruct (HasHandler _ _); rs_steps; [by apply Hend|]. apply wpE_signal. rs_steps. by apply Hend.
Qed.

Lemma SignalReadyEvents_map sid s : wpP (SignalReadyEvents sid) (fun _ s' => PartitionStreams s' = PartitionStreams s) s.
Proof. unfold SignalReadyEvents. rs_steps. apply wpP_get_stream. intros st. rs_steps. destruct (_ && _)%bool; [apply SignalLoop_map|by rs_steps]. Qed.

Lemma PushEvent_map sid e s : wpP (PushEvent sid e) (fun _ s' => PartitionStreams s' = PartitionStreams s) s.
Proof.
  unfold PushEvent. rs_steps. destruct (Closed s); [by rs_steps|]. apply wpE_bind, (wpE_mono _ _ (fun _ s' => PartitionStreams s' = PartitionStreams s)).
  { destruct (is_closed_event e); cbn [when]; [|by rs_steps]. unfold DeleteNotReadyTail. rs_steps. apply wpP_get_stream. intros st. rs_steps.
    destruct (DeleteTail _ _ _) as [[[? ?] ?] ?]. rs_steps. eapply wpE_mono; [apply SignalReadyEvents_map|]. intros [] s1 E. by rewrite E. }
  intros [] s1 E1. rs_steps. apply (wpE_mono _ _ (fun _ s' => PartitionStreams s' = PartitionStreams s)).
  { unfold TryApplyCallbackToEventImpl. destruct (HasDataEventCallback _); [by rs_steps|]. rs_steps. destruct (HasHandler _ _); by rs_steps. }
  intros applied s2 E2. destruct applied; [by rs_steps|]. rs_steps. eapply wpE_mono; [apply SignalReadyEvents_map|]. intros [] s3 E3. rs_steps. by rewrite E3.
Qed.

(** A stream is found under its own id only. *)
Lemma map_unique k s sid a a' : inv' k s -> PartitionStreams s !! a = Some sid -> PartitionStreams s !! a' = Some sid -> a' = a.
Proof.
  intros H Ha Ha'. destruct (st_map _ _ (i_streams _ _ _ _ H) _ _ Ha) as (st & Hs & <-). destruct (st_map _ _ (i_streams _ _ _ _ H) _ _ Ha') as (st' & Hs' & <-). congruence.
Qed.

(** Closing a stream of the map that is about to leave it. *)
Lemma close_inv k s sid reason : inv' (kw_sids ([sid] ++ k_sids k) k) s ->
  wpa (PushEvent sid (PartitionSessionClosedEvent reason)) (fun pushed s' => inv' (kw_ex (sid :: k_ex k) k) s' /\
    (pushed = false -> inv' k s') /\ PartitionStreams s' = PartitionStreams s) s.
Proof.
  intros H. eapply wpE_mono; [eapply wpE_and; [apply (PushEvent_inv cfg b0 Hcfg (kw_sids ([sid] ++ k_sids k) k)); [done|left]|apply PushEvent_map]|].
  intros pushed s1 [[H1 Hp] E]. cbn [after_push is_closed_event] in H1. apply (inv_drop_sids cfg b0 (kw_ex (sid :: k_ex k) k) s1 [sid]) in H1. split_and!; [done| |done].
  intros ->. eapply inv_ex_drop; [exact H1|]. intros x _. right; left. by apply Hp.
Qed.

Lemma OnStartPartitionSessionRequest_inv k s msg : inv' k s -> 0 <= start_committed_offset msg < 2 ^ 63 ->
  wpa (OnStartPartitionSessionRequest msg) (fun _ s' => inv' k s') s.
Proof.
  intros H Hoff. unfold OnStartPartitionSessionRequest. set (a := start_session_id msg).
  apply wpE_bind, wpE_gets, wpE_bind, (wpE_mono _ _ (fun pushed s' => exists ex, inv' (kw_ex ex k) s' /\ (pushed = false -> inv' k s') /\
    (forall sid, sid ∈ ex -> sid ∈ k_ex k \/ (forall a', PartitionStreams s' !! a' = Some sid -> a' = a)))).
  { destruct (PartitionStreams s !! a) as [sid|] eqn:Ea; [|rs_steps; exists (k_ex k); split_and!; [by destruct k|done|by left]].
    eapply wpE_mono; [apply (close_inv k); apply use_sid; [done|by exists a]|]. intros pushed s1 (H1 & Hp & E1). exists (sid :: k_ex k). split_and!; [done|done|].
    intros x [->|Hx]%elem_of_cons; [right|by left]. intros a' Ha'. eapply (map_unique _ s1); [exact H1|by rewrite E1|done]. }
  intros pushed s1 (ex & H1 & Hp & Hex). destruct pushed; cbn [negb]; [|by apply Abort_inv, Hp]. rs_steps.
  fold (new_stream a (NextPartitionStreamId s1) (start_partition_id msg) (start_committed_offset msg)).
  pose proof (inv_new_stream k s1 a (NextPartitionStreamId s1) (start_partition_id msg) (start_committed_offset msg) ex (NextPartitionStreamId s1 + 1) H1 Hoff Hex) as H2.
  apply wpE_unbind. apply push_or_abort_inv; [exact H2| |done]. exists a. rs_simpl. apply lookup_insert_eq.
Qed.
End Messages.
