(* ===== verification/ReadHandlers.v ===== *)
(** * The remaining handlers of a read session, and every event of its life

    Messages that end, stop or acknowledge a partition session, the calls a user makes on
    one, the posted actions, and with them every step of [ReadSystem]: each keeps the
    invariant of [ReadProof]. *)

From S2P Require Import Prelude Float32 Float64 IntervalTree ReadCommit ReadTypes ReadSession ReadSystem ReadInv ReadHeap ReadProof ReadActions ReadQueue ReadSteps ReadMessages.

Section Handlers.
Context (cfg : read_settings) (b0 : Z) (Hcfg : settings_ok cfg) {extra : failure -> Prop}.
Variable DecompressData : Codec -> string -> option (list TDecompressedMessage).
Local Abbreviation inv' := (inv cfg b0).
Local Abbreviation wpa := (wpE (allowed extra)).

(** ** The end of a partition session *)

Lemma inv_unmap k s a : inv' k s -> inv' k (set_PartitionStreams (delete a (PartitionStreams s)) s).
Proof.
  intros H. inv_destruct H. split; rs_simpl; try done.
  - destruct i_streams0 as [Hm Hi]. split; [|done]. intros x y Hx. apply lookup_delete_Some in Hx as [_ Hx]. by apply Hm.
  - intros x y Hy. destruct (i_order0 x y Hy) as (H0 & H1 & H2). split_and!; [done..|]. intros Hc Hx [z Hz]. apply lookup_delete_Some in Hz as [_ Hz]. apply H2; [done|done|by exists z].
Qed.

Lemma Write_streams k s req : inv' k s -> wpa (WriteToProcessorImpl req) (fun _ s' => inv' k s' /\ Streams s' = Streams s) s.
Proof.
  intros H. eapply wpE_and; [by apply (Write_inv cfg b0 k)|]. instantiate (1 := fun _ => True). unfold WriteToProcessorImpl. by rs_steps.
Qed.

(** A stream that left the map is closed. *)
Lemma unmap_close_inv k s sid st reason : inv' k s -> Streams s !! sid = Some st ->
  wpa (PushEvent sid (PartitionSessionClosedEvent reason)) (fun _ s' => inv' k s') (set_PartitionStreams (delete (AssignId (stream st)) (PartitionStreams s)) s).
Proof.
  intros H Hs. pose proof (inv_unmap k s (AssignId (stream st)) H) as H1.
  eapply wpE_mono; [apply (close_inv cfg b0 Hcfg k); apply inv_with_sids; [done|]; intros x ->%list_elem_of_singleton; by eapply lookup_lt_Some|].
  intros pushed s2 (H2 & _ & E). eapply inv_ex_drop; [exact H2|]. intros x [->|Hx]%elem_of_cons; [right; right|by left]. intros a Ha.
  rewrite E in Ha. rs_simpl. apply lookup_delete_Some in Ha as [Hne Ha]. destruct (st_map _ _ (i_streams _ _ _ _ H) _ _ Ha) as (st' & Hs' & Hid). congruence.
Qed.

Lemma mapped_stream k s a sid : inv' k s -> PartitionStreams s !! a = Some sid -> exists st, Streams s !! sid = Some st.
Proof. intros H Ha. destruct (st_map _ _ (i_streams _ _ _ _ H) _ _ Ha) as (st & Hs & _). by exists st. Qed.

Lemma OnStopPartitionSessionRequest_inv k s a graceful : inv' k s -> wpa (OnStopPartitionSessionRequest a graceful) (fun _ s' => inv' k s') s.
Proof.
  intros H. unfold OnStopPartitionSessionRequest. rs_steps. destruct (PartitionStreams s !! a) as [sid|] eqn:Ha; [|by rs_steps].
  destruct (mapped_stream _ _ _ _ H Ha) as [st Hs]. unfold StopPartitionSessionImpl. rs_steps. apply (wpE_get_stream _ st); [done|]. rs_steps.
  destruct graceful; [apply wpE_unbind, push_or_abort_inv; [done..|by exists a|done]|].
  apply wpE_bind. eapply wpE_mono; [by apply Write_streams|]. intros [] s1 [H1 E1]. rs_steps.
  eapply wpE_mono; [apply unmap_close_inv; [done|by rewrite E1]|]. intros pushed s2 H2. rs_steps; [by apply Abort_inv|done].
Qed.

Lemma ConfirmPartitionStreamDestroy_inv k s sid : inv' k s -> (sid < length (Streams s))%nat -> wpa (ConfirmPartitionStreamDestroy sid) (fun _ s' => inv' k s') s.
Proof.
  intros H [st Hs]%lookup_lt_is_Some. unfold ConfirmPartitionStreamDestroy. rs_steps. apply (wpE_get_stream _ st); [done|]. rs_steps.
  destruct (_ && _)%bool; [|by rs_steps]. rs_steps.
  eapply wpE_mono; [by apply unmap_close_inv|]. intros [] s2 H2; [by apply (Write_inv cfg b0 k)|by apply Abort_inv].
Qed.

(** ** Messages about partition sessions *)

Lemma OnEndPartitionSession_inv k s a adjacent child : inv' k s -> wpa (OnEndPartitionSession a adjacent child) (fun _ s' => inv' k s') s.
Proof.
  intros H. unfold OnEndPartitionSession. rs_steps. destruct (PartitionStreams s !! a) as [sid|] eqn:Ha; [|by rs_steps].
  destruct (mapped_stream _ _ _ _ H Ha) as [st Hs]. rs_steps. apply (wpE_get_stream _ st); [done|]. apply wpE_bind.
  eapply wpE_mono; [apply (wpE_for_each _ _ (fun s' => inv' k s' /\ PartitionStreams s' = PartitionStreams s)); [done|]|].
  - intros c s1 _ [H1 E1]. unfold RegisterParentPartition. rs_steps. split; [|done]. clear H. inv_destruct H1. split; rs_simpl; done.
  - intros [] s1 [H1 E1]. apply push_or_abort_inv; [done..|by exists a; rewrite E1|done].
Qed.

Lemma OnCommitOffsetResponse_inv l : forall k s, inv' k s -> wpa (OnCommitOffsetResponse l) (fun _ s' => inv' k s') s.
Proof.
  induction l as [|[a committed] l IH]; intros k s H; cbn [OnCommitOffsetResponse]; [by rs_steps|]. rs_steps.
  destruct (PartitionStreams s !! a) as [sid|] eqn:Ha; [|by apply IH]. assert (inv' (kw_sids ([sid] ++ k_sids k) k) s) as H1 by (apply use_sid; [done|by exists a]).
  rs_steps. eapply wpE_mono; [eapply on_stream_inv; [exact H1|left|apply Acknowledged_ok]|]. intros [] s2 (H2 & _ & _). rs_steps.
  eapply wpE_mono; [apply (push_inv cfg b0 Hcfg _ _ _ _ H2); [left|done]|]. intros pushed s3 H3. apply inv_drop_sids in H3. destruct pushed; [by apply IH|by apply Abort_inv].
Qed.

Lemma OnPartitionSessionStatusResponse_inv k s a x y z : inv' k s -> wpa (OnPartitionSessionStatusResponse a x y z) (fun _ s' => inv' k s') s.
Proof.
  intros H. unfold OnPartitionSessionStatusResponse. rs_steps. destruct (PartitionStreams s !! a) as [sid|] eqn:Ha; [|by rs_steps].
  apply push_or_abort_inv; [done..|by exists a|done].
Qed.

(** ** Callbacks of a read *)

Definition message_ok (msg : server_message) : Prop := forall g, read_event_ok (EReadDone g msg).

(** What a read response may cause besides: what the checks of its offsets do, and the
    assertion on a negative size. *)
Definition message_failure (msg : server_message) (f : failure) : Prop :=
  match msg with
  | SReadResponse msg => not_abort f \/ (Exists (fun pd => negative_size pd.2) (partition_data msg) /\ f = negative_estimate)
  | _ => False
  end.

Lemma OnReadDoneImpl_inv k s msg : inv' k s -> k_rd k = true -> k_ex k = [] -> k_cl k = true -> k_flow k = true -> k_wait k = true -> message_ok msg ->
  (forall f, message_failure msg f -> extra f) -> wpa (OnReadDoneImpl msg) (fun _ s' => inv' (kw_rd false k) s') s.
Proof.
  intros H Hrd Hex Hcl Hf Hw Hok Hext. specialize (Hok 0). assert (forall s', inv' k s' -> inv' (kw_rd false k) s') as Hweak by (intros s' H'; by eapply inv_weaken).
  assert (forall m : M rs unit, wpa m (fun _ s' => inv' k s') s -> wpa m (fun _ s' => inv' (kw_rd false k) s') s) as Hm
    by (intros m Hm; eapply wpE_mono; [exact Hm|]; intros [] s' H'; by apply Hweak).
  destruct msg; cbn [OnReadDoneImpl]; try (rs_steps; by apply Hweak); [|apply OnReadResponse_inv; try done; intros; apply Hext; [by right|by left]|..]; apply Hm.
  - by apply OnInitResponse_inv.
  - by apply OnStartPartitionSessionRequest_inv.
  - by apply OnStopPartitionSessionRequest_inv.
  - by apply OnEndPartitionSession_inv.
  - by apply OnCommitOffsetResponse_inv.
  - by apply OnPartitionSessionStatusResponse_inv.
Qed.

Lemma OnReadDone_inv k s g msg : inv' k s -> k_rd k = false -> k_ex k = [] -> k_cl k = true -> k_flow k = true -> k_wait k = true -> message_ok msg ->
  g ∈ Reads s -> (forall f, message_failure msg f -> extra f) -> wpa (OnReadDone g msg) (fun _ s' => inv' k s') s.
Proof.
  intros H Hrd Hex Hcl Hf Hw Hok Hg Hext. unfold OnReadDone. rs_steps.
  assert (forall rd, (rd = true -> g = ConnectionGeneration s) -> inv' (kw_rd rd k) (set_Reads (filter (fun g0 => g0 <> g) (Reads s)) s)) as H1.
  { intros rd Heq. pose proof (i_conn _ _ _ _ H) as [R1 R2 R3]. inv_destruct H. split; rs_simpl; try done. split.
    - intros x [_ Hx]%list_elem_of_filter. by apply R1.
    - intros [_ Hx]%list_elem_of_filter. by apply R2.
    - intros Hr. specialize (Heq Hr). subst g. split; [|by apply R2]. by intros [? _]%list_elem_of_filter. }
  assert (kw_rd false k = k) as Ek by (destruct k; cbn in *; by subst).
  destruct (_ || _)%bool eqn:E; [rs_steps; rewrite <- Ek; by apply H1|]. apply orb_false_iff in E as [_ E]. apply negb_false_iff, Z.eqb_eq in E. rs_simpl.
  assert (msg <> SError -> wpa (OnReadDoneImpl msg ;; ReadFromProcessorImpl) (fun _ s' => inv' k s') (set_Reads (filter (fun g0 => g0 <> g) (Reads s)) s)) as Hgo.
  { intros _. apply wpE_bind. eapply wpE_mono; [by apply (OnReadDoneImpl_inv (kw_rd true k)); [apply H1|..]|]. intros [] s2 H2.
    apply ReadFromProcessor_inv; [by rewrite <- Ek|done|done]. }
  destruct msg; try by apply Hgo. rs_steps. apply inv_open_call; [|done]. rewrite <- Ek. by apply H1.
Qed.

(** ** Calls of the user *)

Lemma with_sid k s sid : inv' k s -> (sid < length (Streams s))%nat -> inv' (kw_sids ([sid] ++ k_sids k) k) s.
Proof. intros H Hl. apply inv_with_sids; [done|]. by intros x ->%list_elem_of_singleton. Qed.

Lemma if_active_inv k s sid req : inv' k s -> wpa (if_active sid req) (fun _ s' => inv' k s') s.
Proof.
  intros H. unfold if_active. rs_steps. destruct (Streams s !! sid) as [st|]; [|by rs_steps]. rs_steps; [by apply (Write_inv cfg b0 k)|done].
Qed.

Lemma ConfirmStreamCreate_inv k s sid readOffset commitOffset maxOffset : inv' k s -> (sid < length (Streams s))%nat ->
  match commitOffset with Some off => 0 <= off < 2 ^ 63 | None => True end ->
  wpa (ConfirmStreamCreate sid readOffset commitOffset maxOffset) (fun _ s' => inv' k s') s.
Proof.
  intros H Hl Hoff. pose proof (with_sid _ _ _ H Hl) as H0. apply lookup_lt_is_Some in Hl as [st Hs]. unfold ConfirmStreamCreate. rs_steps.
  apply (wpE_get_stream _ st); [done|]. destruct (HasCbContext st); [|by rs_steps]. rs_steps.
  eapply wpE_mono; [eapply on_stream_inv; [exact H0|left|by apply ConfirmCreate_ok]|]. intros [] s1 (H1%inv_drop_sids & _). rs_steps. by apply inv_open_call.
Qed.

(** What a commit may cause. *)
Definition commit_failure (start stop : Z) (f : failure) : Prop :=
  f = Throw "Invalid offset range" \/ (stop <= start /\ f = Abort "endOffset > startOffset").

Lemma CommitOffsets_inv k s sid start stop : inv' k s -> (sid < length (Streams s))%nat -> 0 <= start ->
  (forall f, commit_failure start stop f -> extra f) ->
  wpa (CommitOffsets sid start stop) (fun _ s' => inv' k s') s.
Proof.
  intros H Hl Hoff Hext. pose proof (with_sid _ _ _ H Hl) as H0. apply lookup_lt_is_Some in Hl as [st Hs]. unfold CommitOffsets. rs_steps.
  apply (wpE_get_stream _ st); [done|]. destruct (HasCbContext st); [|by rs_steps]. rs_steps. destruct (decide (start < stop)) as [Hlt|Hge].
  - eapply wpE_mono; [eapply on_stream_inv; [exact H0|left|apply Commit_ok; [lia|apply Hext; by left]]|]. intros ranges s1 (H1%inv_drop_sids & _). rs_steps. by apply inv_open_call.
  - unfold wpE, on_stream. rewrite Hs. unfold Commit, mbind, M_bind, abort_unless. rewrite Z.gtb_ltb, (proj2 (Z.ltb_ge _ _)) by lia. right; right. apply Hext. right. split; [lia|done].
Qed.

Lemma ConfirmPartitionStreamEnd_inv k s sid childIds : inv' k s -> (sid < length (Streams s))%nat -> wpa (ConfirmPartitionStreamEnd sid childIds) (fun _ s' => inv' k s') s.
Proof.
  intros H [st Hs]%lookup_lt_is_Some. unfold ConfirmPartitionStreamEnd. rs_steps. apply (wpE_get_stream _ st); [done|].
  destruct (HasCbContext st); [|by rs_steps]. rs_steps. set (s1 := set_ReadingFinishedData _ s).
  assert (inv' k s1) as H1 by (inv_destruct H; split; rs_simpl; done). eapply (inv_add cfg b0 k s1); [done|]. apply Forall_forall.
  intros a (x & -> & Hx)%list_elem_of_fmap. split_and!; try done. { split_and!; try done. by intros j ?%elem_of_nil. }
  intros y ->%list_elem_of_singleton. apply list_elem_of_In, filter_In in Hx as [_ Hx]. destruct (Streams s1 !! x) eqn:Ex; [by eapply lookup_lt_Some|done].
Qed.

Lemma RequestPartitionStreamStatus_inv k s sid : inv' k s -> (sid < length (Streams s))%nat -> wpa (RequestPartitionStreamStatus sid) (fun _ s' => inv' k s') s.
Proof.
  intros H [st Hs]%lookup_lt_is_Some. unfold RequestPartitionStreamStatus. rs_steps. apply (wpE_get_stream _ st); [done|]. rs_steps; [by apply (Write_inv cfg b0 k)|done].
Qed.

(** ** Actions *)

(** Between two events. *)
Definition k0 : ctx := mkCtx [] 0 [] [] false true false true true.

Lemma inv_k0 s l cur : inv' (kw_sids l (kw_cur cur k0)) s -> inv' (kw_cur cur k0) s.
Proof. intros H. eapply inv_weaken; [exact H|..]; try done. by intros x ?%elem_of_nil. Qed.

Lemma inv_ran s l r a : inv' (kw_run r (kw_sids l (kw_cur [a] k0))) s -> (forall i, act_held i a = 0) -> est_held a = 0 -> inv' (kw_run r (kw_sids l k0)) s.
Proof. exact (inv_drop cfg b0 (kw_run r (kw_sids l k0)) s a []). Qed.

Lemma RunAction_inv s n a contexts delay : inv' k0 s -> Pending s !! n = Some a ->
  wpa (RunAction DecompressData a contexts delay) (fun _ s' => inv' k0 s') (set_Pending (delete n (Pending s)) s).
Proof.
  intros H0 Hn. pose proof (inv_pop cfg b0 k0 s n a H0 Hn) as H. set (s1 := set_Pending _ s) in *. clearbody s1. clear H0 Hn s n. cbn [k0 k_cur k_run k_sids] in H.
  assert (forall i, i ∈ action_infos a -> alive (Infos s1) i) as Hal by (intros i Hi; eapply (h_refs _ _ _ _ (i_heap _ _ _ _ H)); [left|done]).
  destruct a; cbn [RunAction running action_sids app] in *.
  - by apply (RunDecompressionTask_inv cfg b0 Hcfg DecompressData (kw_run 1 k0) s1 _ []).
  - by apply (FinishDecompressionTask_inv cfg b0 Hcfg (kw_run 1 k0)).
  - eapply wpE_mono; [apply (SignalReadyEvents_inv cfg b0 Hcfg (kw_sids [sid] k0)); [exact (inv_ran _ _ _ _ H (fun _ => eq_refl) eq_refl)|left]|]. intros [] s' H'. by apply (inv_k0 s' [sid] []).
  - eapply wpE_mono; [apply (OnDecompressionTaskFinished_inv cfg b0 (kw_run 1 k0)); [exact (inv_ran _ _ _ _ H (fun _ => eq_refl) eq_refl)|done]|]. by intros [] s' H'.
  - by apply (OnUserRetrievedEvent_inv cfg b0 Hcfg k0 s1 (UserRetrieved i decompressedSize) []); [|left|intros j; cbn|..].
  - apply InfoCleanup_inv; [|apply Hal; left]. exact (inv_ran _ _ _ _ H (fun _ => eq_refl) eq_refl).
  - apply (OnTaskCanceled_inv cfg b0 Hcfg k0); [exact (inv_ran _ _ _ _ H (fun _ => eq_refl) eq_refl)|apply Hal; left|done..].
  - exact (release_inv cfg b0 k0 s1 sid messages acc H).
  - assert (inv' (kw_sids [sid] k0) s1) as H1 by (exact (inv_ran _ _ _ _ H (fun _ => eq_refl) eq_refl)).
    destruct (stream_of _ _ _ _ sid H1 ltac:(left)) as [st Hs]. rs_steps. apply (wpE_get_stream _ st); [done|]. apply (inv_k0 s1 [sid] []) in H1. rs_steps; [|done].
    eapply wpE_mono; [by apply UnregisterPartition_inv|]. by intros [] s2 [H2 _].
  - apply (ReconnectOrAbort_inv cfg b0 Hcfg k0); [|done]. exact (inv_ran _ _ _ _ H (fun _ => eq_refl) eq_refl).
Qed.

(** ** Calls that go on *)

Lemma RunCall_inv s c contexts delay : inv' k0 s -> (Closed s = false -> after_close c = false) ->
  (c = ToCreateTimer -> contexts = false -> extra (Abort "Lock.IsLocked()")) ->
  wpa (RunCall c contexts delay) (fun _ s' => inv' k0 s') s.
Proof.
  intros H Hc Hext. assert (after_close c = true -> inv' (kw_closed true k0) s) as Hcl
    by (intros E; apply inv_set_closed; [done|]; destruct (Closed s); [done|rewrite Hc in E; done]).
  destruct c; cbn [RunCall after_close] in *.
  - by apply (ReconnectOrAbort_inv cfg b0 Hcfg k0).
  - unfold AbortSession. rs_steps. eapply wpE_mono; [by apply (QueueClose_inv cfg b0 k0)|]. intros b s1 H1. rs_steps. by apply (inv_unclosed cfg b0 k0).
  - rs_steps; [|done]. eapply wpE_mono; [by apply (TopAbort_inv cfg b0 k0)|]. intros [] s1 H1. by apply (inv_unclosed cfg b0 k0).
  - specialize (Hcl eq_refl). apply wpE_bind, wpE_gets, wpE_bind, (wpE_mono _ _ (fun _ s' => inv' (kw_closed true k0) s')).
    { rs_steps; [|done]. apply Abort_inv. clear -Hcl. inv_destruct Hcl; split; rs_simpl; done. }
    intros [] s1 H1. rs_steps; apply (inv_unclosed cfg b0 k0); [by apply inv_closed_call|done].
  - rs_steps. eapply wpE_mono; [by apply (Close_inv cfg b0 k0)|]. intros [] s1 H1. rs_steps. by apply inv_open_call.
  - destruct contexts; [rs_steps; by apply inv_open_call|]. unfold wpE, TopAbortImpl, abort_unless, mbind, M_bind. right; right. auto.
  - rs_steps. eapply wpE_mono; [by apply (QueueClose_inv cfg b0 k0)|]. intros b s1 H1. rs_steps. apply (inv_unclosed cfg b0 k0). by apply inv_closed_call.
  - specialize (Hcl eq_refl). rs_steps. apply (inv_unclosed cfg b0 k0), inv_closed_call. clear -Hcl. inv_destruct Hcl; split; rs_simpl; done.
  - specialize (Hcl eq_refl). rs_steps. eapply wpE_mono; [by apply (ClearAllEvents_inv cfg b0 (kw_closed true k0))|]. intros [] s1 H1. rs_steps.
    apply (inv_unclosed cfg b0 k0). by apply inv_closed_call.
  - eapply wpE_mono; [apply (ClearAllPartitionStreamEvents_inv cfg b0 (kw_closed true k0)); [by apply Hcl|done]|]. intros [] s1 H1. by apply (inv_unclosed cfg b0 k0).
  - by apply if_active_inv.
  - destruct ranges as [|[first second] ranges]; [by rs_steps|]. unfold SessionCommit. rs_steps. eapply wpE_mono; [by apply (if_active_inv k0)|].
    intros [] s1 H1. rs_steps. by apply inv_open_call.
Qed.
End Handlers.

(** ** Every event *)

(** What an event may cause besides an integer that does not fit and a counter that
    overflows. *)
Definition event_failure (s : rs) (ev : read_event) (f : failure) : Prop :=
  match ev with
  | EReadDone _ msg => message_failure msg f
  | EGetEvents _ bytes | EGetEvent bytes => bytes = 0 /\ f = no_bytes
  | ECommit _ start stop => commit_failure start stop f
  | EResume n contexts _ => Calls s !! n = Some ToCreateTimer /\ contexts = false /\ f = Abort "Lock.IsLocked()"
  | _ => False
  end.

Theorem read_step_inv cfg b0 D ev s : settings_ok cfg -> inv cfg b0 k0 s -> read_event_ok ev ->
  wpE (allowed (event_failure s ev)) (read_step D ev) (fun _ s' => inv cfg b0 k0 s') s.
Proof.
  intros Hcfg H Hok. destruct ev; unfold read_step; apply wpE_bind, wpE_get_st.
  - by apply (ReconnectOrAbort_inv cfg b0 Hcfg k0).
  - by apply (OnConnect_inv cfg b0 k0).
  - by apply (OnConnectTimeout_inv cfg b0 k0).
  - rs_steps; [|done]. apply (OnReadDone_inv cfg b0 Hcfg k0); try done; [|by apply bool_decide_eq_true_1 in H0]. intros ?. by destruct msg.
  - destruct (Pending s !! n) as [a|] eqn:Hn; [|by rs_steps]. rs_steps. by apply RunAction_inv.
  - destruct (Calls s !! n) as [c|] eqn:Hn; [|by rs_steps]. rs_steps. destruct (inv_pop_call _ _ _ _ _ _ H Hn) as [H1 Hc].
    apply (RunCall_inv cfg b0 Hcfg); [done|done|]. by intros -> ->.
  - destruct (Infos s !! i) as [info|] eqn:Hi; [|by rs_steps]. rs_steps; [|done].
    apply andb_true_iff in H0 as [_ H0%negb_true_iff]. by apply (OnDecompressionInfoDestroy_inv cfg b0 Hcfg k0 s i info).
  - rs_steps. eapply wpE_mono; [by apply (TopGetEvents_inv cfg b0 k0)|]. intros r s' H'. by rs_steps.
  - rs_steps. eapply wpE_mono; [by apply (TopGetEvent_inv cfg b0 k0)|]. intros r s' H'. by rs_steps.
  - rs_steps; [|done]. apply Nat.ltb_lt in H0. by apply (CommitOffsets_inv cfg b0 k0).
  - rs_steps; [|done]. apply Nat.ltb_lt in H0. by apply (ConfirmStreamCreate_inv cfg b0 k0).
  - rs_steps; [|done]. apply Nat.ltb_lt in H0. by apply (ConfirmPartitionStreamDestroy_inv cfg b0 Hcfg k0).
  - rs_steps; [|done]. apply Nat.ltb_lt in H0. by apply (ConfirmPartitionStreamEnd_inv cfg b0 k0).
  - rs_steps; [|done]. apply Nat.ltb_lt in H0. by apply (RequestPartitionStreamStatus_inv cfg b0 k0).
  - by apply (StopReadingData_inv cfg b0 k0).
  - by apply (ResumeReadingData_inv cfg b0 Hcfg k0).
  - by apply (TopClose_inv cfg b0 k0).
  - eapply wpE_mono; [by apply (TopAbort_inv cfg b0 k0)|]. intros [] s' H'. by apply (inv_unclosed cfg b0 k0).
Qed.

(** ** Every reachable state *)

Lemma new_session_inv cfg s : new_session cfg = Ok s -> 1 <= ReadSizeBudget s /\ inv cfg (ReadSizeBudget s) k0 s.
Proof.
  unfold new_session, GetCompressedDataSizeLimit. destruct (f64_to_int _) as [z|]; [|done]. intros [= <-]. rs_simpl. split; [lia|].
  split; rs_simpl; try done.
  - cbn. split; [constructor|..]; intros; repeat match goal with H : context [@nil _] |- _ => first [apply elem_of_nil in H|rewrite lookup_nil in H]; done end.
  - split; try done; try (cbn; lia). by intros a ?%elem_of_nil.
  - intros sid ?%elem_of_nil. done.
  - split; try done. all: by intros ?%elem_of_nil || by intros ? ?%elem_of_nil.
Qed.

Theorem read_reachable_inv D cfg s : settings_ok cfg -> reachable D cfg s ->
  exists s0, new_session cfg = Ok s0 /\ 1 <= ReadSizeBudget s0 /\ inv cfg (ReadSizeBudget s0) k0 s.
Proof.
  intros Hcfg. induction 1 as [s Hs|s ev s' Hr IH Hok Hstep]; [exists s; split; [done|by apply new_session_inv]|].
  destruct IH as (s0 & Hs0 & Hb & H). exists s0. split_and!; [done..|]. pose proof (read_step_inv cfg (ReadSizeBudget s0) D ev s Hcfg H Hok) as Hw.
  unfold wpE in Hw. by rewrite Hstep in Hw.
Qed.
