(* ===== verification/ReadTheorems.v ===== *)
(** * What a read session guarantees

    The properties of [TReadSession] in any run of [ReadSystem]: where it can stop, that its
    counters of memory and its read budget are exact, that data reaches the user in order,
    and that a session without data has asked the server for more; with runs in which it
    does not do what its comments say. *)

From S2P Require Import Prelude Float32 Float64 IntervalTree ReadCommit ReadTypes ReadSession ReadSystem ReadInv ReadHeap ReadProof ReadActions ReadQueue ReadSteps ReadMessages ReadHandlers.

(** The session of a run of [example_settings], and one of its streams. *)
Definition run_example (evs : list read_event) : outcome rs :=
  match new_session example_settings with Ok s => read_steps no_codecs evs s | Fail f => Fail f end.

Lemma run_example_reachable evs s : Forall read_event_ok evs -> run_example evs = Ok s -> reachable no_codecs example_settings s.
Proof.
  intros Hok. unfold run_example. destruct (new_session example_settings) as [s0|] eqn:E; [|done]. intros Hs.
  eapply reachable_steps; [by apply reachable_new|exact Hok|exact Hs].
Qed.

Lemma example_settings_ok : settings_ok example_settings.
Proof. split; cbn; lia. Qed.

(** Two messages are received, decompressed and read; then the info is destroyed. *)
Definition received : list read_event := connected ++ [EReadDone 1 (response 7 100 [0; 1])].
Definition decompressed : list read_event := received ++ replicate 6 (EAction 0 true true).
Definition consumed : list read_event := decompressed ++ [EGetEvents None (2 ^ 64 - 1); EResume 0 true true; EAction 0 true true; EDestroy 0].

Lemma received_ok : Forall read_event_ok received.
Proof. repeat constructor; cbn; lia. Qed.

Lemma consumed_ok : Forall read_event_ok consumed.
Proof. unfold consumed, decompressed. rewrite !Forall_app. split_and!; [apply received_ok|by repeat constructor|]. repeat constructor. cbn. lia. Qed.

(** A run and what is computed of its last state. *)
Lemma run_example_check evs (p : rs -> bool) : match run_example evs with Ok s => p s | Fail _ => false end = true ->
  Forall read_event_ok evs -> exists s, run_example evs = Ok s /\ reachable no_codecs example_settings s /\ p s = true.
Proof. intros Hp Hok. destruct (run_example evs) as [s|] eqn:E; [|done]. exists s. split_and!; [done|by eapply run_example_reachable|done]. Qed.

(** ** Where a session can stop *)





(** ** Memory and budget *)

(** Bytes of decompressed messages in the queues, in actions, and estimated for tasks. *)
Definition decompressed_held (s : rs) : Z :=
  zsum (held (Infos s) (sq <$> Streams s) (Pending s)) (seq 0 (length (Infos s))) + zsum est_held (Pending s).

Lemma zsum_seq (infos : list TDataDecompressionInfo) (g : nat -> Z) (f : TDataDecompressionInfo -> Z) : forall n,
  (forall i info, infos !! i = Some info -> f info = g (n + i)%nat) -> zsum f infos = zsum g (seq n (length infos)).
Proof.
  induction infos as [|x l IH]; intros n H; [done|]. cbn [length seq]. rewrite !zsum_cons, (IH (S n)), (H 0%nat x), Nat.add_0_r; [done|done|].
  intros i info Hi. rewrite (H (S i) info Hi). f_equal. lia.
Qed.

(** C4: as long as a read session was not aborted, its counters are exact: the compressed
    bytes it accounts for are those of its infos, the decompressed bytes are those of the
    messages that wait in queues, were taken but not given back, or are estimated for tasks
    that run, and the budget it may ask for, the bytes the server may send, the bytes of
    responses in memory and the bytes of responses that no info took add up to the budget
    the session was created with. *)
Theorem read_session_accounting D cfg s : settings_ok cfg -> reachable D cfg s -> Aborting s = false ->
  CompressedDataSize s = zsum info_Compressed (Infos s) /\ DecompressedDataSize s = decompressed_held s /\
  exists s0, new_session cfg = Ok s0 /\
    ReadSizeBudget s + ReadSizeServerDelta s + zsum ServerBytesSize (Infos s) + LostBytes s = ReadSizeBudget s0.
Proof.
  intros Hcfg Hr Ha. destruct (read_reachable_inv D cfg s Hcfg Hr) as (s0 & Hs0 & _ & H). destruct (i_acct _ _ _ _ H) as [H1 H2 H3 _]. split_and!.
  - exact H1.
  - rewrite (H2 Ha). unfold decompressed_held. f_equal. apply zsum_seq. intros i info Hi. apply (h_held _ _ _ _ (i_heap _ _ _ _ H) i info Hi).
  - exists s0. split; [done|]. by apply H3.
Qed.

Lemma read_session_accounting_witness : exists s, run_example received = Ok s /\ CompressedDataSize s = 14 /\ DecompressedDataSize s = 14 /\
  decompressed_held s = 14 /\ ReadSizeBudget s + ReadSizeServerDelta s + 100 = 52428800.
Proof.
  destruct (run_example_check received (fun s => negb (Aborting s) && (CompressedDataSize s =? 14) && (DecompressedDataSize s =? 14) && (LostBytes s =? 0)
    && (zsum ServerBytesSize (Infos s) =? 100))%bool) as (s & E & Hr & Hp); [by vm_compute|apply received_ok|]. apply andb_prop in Hp as [Hp H5%Z.eqb_eq].
  apply andb_prop in Hp as [Hp H4%Z.eqb_eq]. apply andb_prop in Hp as [Hp H3%Z.eqb_eq]. apply andb_prop in Hp as [H1%negb_true_iff H2%Z.eqb_eq]. exists s.
  destruct (read_session_accounting no_codecs example_settings s example_settings_ok Hr H1) as (_ & Hd & s0 & Hs0 & Hb).
  assert (ReadSizeBudget s0 = 52428800) as Hb0 by (vm_compute in Hs0; injection Hs0 as <-; reflexivity). split_and!; [done..|congruence|lia].
Defined.

(** ** Data in order *)

(** C6: for every partition session, what the user has taken is a prefix of the messages the
    server sent, in their order and without a hole; as long as the partition session is in
    use and the session open, the rest of them waits in its queue. *)
Theorem read_session_in_order D cfg s sid st : settings_ok cfg -> reachable D cfg s -> Streams s !! sid = Some st ->
  Taken st `prefix_of` Queued st /\
  (Closed s = false -> (exists a, PartitionStreams s !! a = Some sid) -> Queued st = Taken st ++ qevents st).
Proof.
  intros Hcfg Hr Hs. destruct (read_reachable_inv D cfg s Hcfg Hr) as (s0 & _ & _ & H). destruct (i_order _ _ _ _ H sid st Hs) as (_ & [rest Hq] & Hall). split.
  - rewrite Hq. unfold rest_of. rewrite <- !app_assoc. by eexists.
  - intros Hc Hm. rewrite (Hall Hc ltac:(apply not_elem_of_nil) Hm). unfold rest_of, qevents. by rewrite dataevs_app.
Qed.

Lemma read_session_in_order_witness : exists s st, run_example consumed = Ok s /\ Streams s !! 0%nat = Some st /\
  length (Taken st) = 2%nat /\ Queued st = Taken st ++ qevents st.
Proof.
  destruct (run_example_check consumed (fun s => negb (Closed s) && bool_decide (PartitionStreams s !! 7 = Some 0%nat) &&
    match Streams s !! 0%nat with Some st => (length (Taken st) =? 2)%nat | None => false end)%bool) as (s & E & Hr & Hp); [by vm_compute|apply consumed_ok|].
  apply andb_prop in Hp as [Hp H3]. apply andb_prop in Hp as [H1%negb_true_iff H2%bool_decide_eq_true]. destruct (Streams s !! 0%nat) as [st|] eqn:Es; [|done].
  exists s, st. split_and!; [done..|by apply Nat.eqb_eq|]. apply (read_session_in_order no_codecs example_settings s 0 st example_settings_ok Hr Es); [exact H1|by exists 7].
Defined.

(** ** Reading goes on *)

(** C11: a session that is connected and not stopped by the user, has given back the memory of
    every response and lost no bytes has asked the server for more: it never waits for
    data it did not ask for. *)
Theorem read_session_asks_for_data D cfg s : settings_ok cfg -> reachable D cfg s ->
  Aborting s = false -> Processor s = true -> Initialized s = true -> DataReadingSuspended s = false ->
  Forall (fun info => Destroyed info = true) (Infos s) -> LostBytes s = 0 -> 0 < ReadSizeServerDelta s.
Proof.
  intros Hcfg Hr Ha Hp Hi Hd Hall Hl. destruct (read_reachable_inv D cfg s Hcfg Hr) as (s0 & _ & Hb & H). pose proof (i_heap _ _ _ _ H) as Hh. rewrite Forall_lookup in Hall.
  assert (forall f : TDataDecompressionInfo -> Z, (forall info, info_Compressed info = 0 -> info_Decompressed info = 0 -> ServerBytesSize info = 0 -> f info = 0) -> zsum f (Infos s) = 0) as Hz.
  { intros f Hf. apply zsum_zero. intros info [i Hx]%list_elem_of_lookup. destruct (h_destroyed _ _ _ _ Hh i info Hx (Hall i info Hx)) as (_ & ? & ? & ?). by apply Hf. }
  assert (zsum est_held (k_cur k0 ++ Pending s) = 0) as He.
  { apply zsum_zero. intros a Hin. destruct a; try done. destruct (h_refs _ _ _ _ Hh _ (task_Parent t) Hin ltac:(left)) as (info & Hx & Hf). by rewrite (Hall _ _ Hx) in Hf. }
  destruct (i_acct _ _ _ _ H) as [H1 H2 H3 _]. specialize (H2 Ha). specialize (H3 Ha). rewrite Hz in H1, H2, H3 by auto. rewrite He in H2.
  destruct (WaitingReadResponse s) eqn:Hw; [by apply (i_wait _ _ _ _ H)|]. destruct (i_flow _ _ _ _ H) as [?|?]; try done; lia.
Qed.

Lemma read_session_asks_for_data_witness : exists s, run_example consumed = Ok s /\ length (Infos s) = 1%nat /\ 0 < ReadSizeServerDelta s.
Proof.
  destruct (run_example_check consumed (fun s => negb (Aborting s) && Processor s && Initialized s && negb (DataReadingSuspended s) && (length (Infos s) =? 1)%nat
    && forallb Destroyed (Infos s) && (LostBytes s =? 0))%bool) as (s & E & Hr & Hp); [by vm_compute|apply consumed_ok|]. exists s.
  repeat match goal with H : (_ && _)%bool = true |- _ => apply andb_prop in H as [? ?] end.
  split; [exact E|clear E]. split; [by apply Nat.eqb_eq|].
  apply (read_session_asks_for_data no_codecs example_settings s example_settings_ok Hr); [by apply negb_true_iff|assumption|assumption|by apply negb_true_iff| |by apply Z.eqb_eq].
  apply Forall_forall. intros info Hi%list_elem_of_In. by eapply forallb_forall.
Defined.

(** ** Where the session does less than it means to *)

(** The bytes of a response for a partition session that is gone, and a new connection. *)
Definition lost_budget : list read_event :=
  connected ++ [EReadDone 1 (response 8 52428800 [0]); EAction 0 true true; EConnect true 3; EReadDone 2 SInitResponse].

(** The bytes of a response whose partition session is not known are not returned to the
    budget: after a response of the whole budget the session reconnects, is initialized
    and holds no data, but asks the server for nothing. *)
Theorem read_session_loses_budget : Forall read_event_ok lost_budget /\ exists s, run_example lost_budget = Ok s /\
  Aborting s = false /\ Processor s = true /\ Initialized s = true /\ DataReadingSuspended s = false /\ WaitingReadResponse s = false /\
  Infos s = [] /\ Pending s = [] /\ ReadSizeBudget s = 0 /\ ReadSizeServerDelta s = 0 /\ LostBytes s = 52428800 /\
  Wire s = [InitRequest; ReadRequest 52428800; InitRequest] /\ ContinueReadingDataImpl s = Ok (tt, s).
Proof.
  split; [repeat constructor; cbn; lia|]. destruct (run_example lost_budget) as [s|] eqn:E; [|by vm_compute in E]. exists s. split; [done|].
  vm_compute in E. injection E as <-. repeat split; vm_compute; reflexivity.
Qed.

(** A commit that the server has not acknowledged. *)
Definition committing : list read_event :=
  received ++ [EGetEvents None 100; EResume 0 true true; EConfirmCreate 0 None None None; EResume 0 true true]
  ++ replicate 6 (EAction 0 true true) ++ [EGetEvents None 100; EResume 0 true true; ECommit 0 0 2; EResume 0 true true; EResume 0 true true].

(** All sections of [Close] with a timeout. *)
Definition close_calls : list read_event := EClose false :: replicate 6 (EResume 0 true true).

(** [Close] with a timeout returns without waiting although the acknowledgement of a commit
    has not arrived, and the session does not read it any more. *)
Theorem close_does_not_wait_for_commits : Forall read_event_ok committing /\ exists s s', run_example committing = Ok s /\
  last (Wire s) = Some (CommitOffsetRequest 7 0 2) /\ HasCommitsInflightImpl s = true /\ Calls s = [] /\
  read_steps no_codecs close_calls s = Ok s' /\ Calls s' = [] /\ Aborting s' = true /\ HasCommitsInflightImpl s' = true /\
  read_step no_codecs (EReadDone 1 (SCommitOffsetResponse [(7, 2)])) s' = Ok (tt, set_Reads [] s').
Proof.
  split; [repeat constructor; cbn; lia|]. destruct (run_example committing) as [s|] eqn:E; [|by vm_compute in E].
  destruct (read_steps no_codecs close_calls s) as [s'|] eqn:E'; [|vm_compute in E; injection E as <-; by vm_compute in E'].
  exists s, s'. vm_compute in E. injection E as <-. vm_compute in E'. injection E' as <-. repeat split; vm_compute; reflexivity.
Qed.

Lemma Close_total s : wpE (fun _ => False) Close (fun _ s' => Calls s' = Calls s) s.
Proof.
  assert (forall c s, Calls s = c -> wpE (fun _ => False) AbortImpl (fun _ s' => Calls s' = c) s) as Ha.
  { intros c s1 <-. unfold AbortImpl, CallClosing, CleanupDecompressionQueueImpl. by rs_steps. }
  unfold Close, CallCloseCallbackImpl, CallClosing. rs_steps. destruct (Aborting s); [by rs_steps|]. rs_steps; [|by apply Ha].
  destruct (negb (Processor s) || _)%bool; [|rs_steps; by apply Ha].
  rs_steps; (apply (wpE_mono _ _ (fun _ s' => Calls s' = Calls s)); [|intros [] s1 E1; by apply Ha]);
    (destruct (Aborting _); [unfold CleanupDecompressionQueueImpl; by rs_steps|by apply Ha]).
Qed.

(** Closing a session while the driver stops, so that there is no context for the timer,
    fails the assertion that the lock is held. *)
Theorem close_aborts_while_stopping D s c d d' : TopClosing s = false -> TopAborting s = false -> Calls s = [] ->
  read_steps D [EClose false; EResume 0 c d; EResume 0 false d'] s = Fail (Abort "Lock.IsLocked()").
Proof.
  intros Hc Ha Hcalls. set (s1 := set_Calls [ToCloseSession] (set_TopClosing true s)).
  assert (read_step D (EClose false) s = Ok (tt, s1)) as E1.
  { unfold read_step, TopClose, add_calls, upd, mbind, M_bind, get_st, modify. rewrite Hc, Ha. cbn [orb]. unfold s1. change (Calls (set_TopClosing true s)) with (Calls s). by rewrite Hcalls. }
  assert (exists s2, read_step D (EResume 0 c d) s1 = Ok (tt, s2) /\ Calls s2 = [ToCreateTimer]) as (s2 & E2 & H2).
  { pose proof (Close_total (set_Calls [] s1)) as Ht. unfold wpE in Ht. destruct (Close (set_Calls [] s1)) as [[[] s2]|] eqn:E; [|done].
    exists (set_Calls [ToCreateTimer] s2). split; [|done]. unfold read_step, RunCall, add_calls, upd, mbind, M_bind, get_st, modify.
    change (Calls s1) with [ToCloseSession]. cbn [lookup list_lookup delete list_delete]. rewrite E, Ht. reflexivity. }
  cbn [read_steps]. rewrite E1, E2. unfold read_step, mbind, M_bind, get_st, modify. rewrite H2. reflexivity.
Qed.

Lemma close_aborts_while_stopping_witness : exists s, run_example received = Ok s /\
  read_steps no_codecs [EClose false; EResume 0 true true; EResume 0 false true] s = Fail (Abort "Lock.IsLocked()").
Proof.
  destruct (run_example_check received (fun s => negb (TopClosing s) && negb (TopAborting s) && match Calls s with [] => true | _ => false end)%bool) as (s & E & _ & Hp); [by vm_compute|apply received_ok|].
  apply andb_prop in Hp as [Hp H3]. apply andb_prop in Hp as [H1%negb_true_iff H2%negb_true_iff]. exists s. split; [exact E|]. apply (close_aborts_while_stopping no_codecs s); [done|done|].
  by destruct (Calls s).
Defined.

(** A child partition is stopped before the end of its parent is confirmed. *)
Definition stopped_child : list read_event :=
  connected ++ [EReadDone 1 (SEndPartitionSession 7 [] [1]);
    EReadDone 1 (SStartPartitionSessionRequest (mkStart 8 1 0 0 100 None)); EReadDone 1 (response 8 100 [0; 1])]
  ++ replicate 6 (EAction 0 true true)
  ++ [EReadDone 1 (SStopPartitionSessionRequest 8 false); EGetEvents None 1000; EResume 0 true true; EConfirmEnd 0 [1]].

(** When the server stops a child partition before the user confirms the end of its
    parent, the events of the child are never signalled: with nothing left to run or to
    read, the decompressed messages still occupy memory. *)
Theorem stopped_child_keeps_memory : Forall read_event_ok stopped_child /\ exists s st, run_example stopped_child = Ok s /\
  Pending s = [] /\ Calls s = [] /\ Events s = [] /\ PartitionStreams s !! 8 = None /\ DecompressedDataSize s = 14 /\
  Streams s !! 1%nat = Some st /\ length (NotReady (queue st)) = 4%nat /\ Taken st = [] /\
  AllParentSessionsHasBeenRead (PartitionId (stream st)) (PartitionSessionId (stream st)) s = true.
Proof.
  split; [repeat constructor; cbn; lia|]. destruct (run_example stopped_child) as [s|] eqn:E; [|by vm_compute in E].
  destruct (Streams s !! 1%nat) as [st|] eqn:E'; [|vm_compute in E; injection E as <-; by vm_compute in E'].
  exists s, st. vm_compute in E. injection E as <-. vm_compute in E'. injection E' as <-. repeat split; vm_compute; reflexivity.
Qed.

(** A response of the server, with the bytes it counts and one message of the given size. *)
Definition sized_response (bytes uncompressed : Z) : read_event :=
  EReadDone 1 (SReadResponse (mkReadResponse bytes [(7, [mkBatch CODEC_RAW [mkMessage 0 [] "payload" uncompressed NoHeader]])])).

(** Numbers of the server that are not checked: a negative size of a message aborts the
    process, and a number of bytes far from what was asked for overflows the budget. *)
Theorem server_numbers_unchecked : Forall read_event_ok (connected ++ [sized_response 100 (-1); sized_response (- 2 ^ 63) 7]) /\
  run_example (connected ++ [sized_response 100 (-1)]) = Fail negative_estimate /\
  run_example (connected ++ [sized_response (- 2 ^ 63) 7]) = Fail counter_overflow.
Proof. split; [repeat constructor; cbn; lia|]. split; vm_compute; reflexivity. Qed.
