(* ===== verification/KafkaWire.v ===== *)
(** * The wire format of Kafka messages

    Models src/src/library/kafka/kafka.h, kafka_messages_int.h/.cpp and
    kafka_write_buffer.cpp: the chunked write buffer, the reader with its bounds checks,
    fixed and variable length integers, and the strategies that write, read and measure a
    field from its meta data (present, tagged, nullable and flexible versions).  The class
    templates become functions of a record [Meta].  A view of bytes is a list of bytes; a
    read outside of the buffer is [Undefined]. *)

From S2P Require Import Prelude.
From Stdlib Require Import Ascii.

Abbreviation bytes := (list ascii).

Definition byte_val (c : ascii) : Z := Z.of_N (N_of_ascii c).

Definition val_byte (v : Z) : ascii := ascii_of_N (Z.to_N (v mod 256)).

(** The object representation of an integer of [w] bytes on a little-endian machine. *)
Fixpoint le_bytes (w : nat) (v : Z) : bytes :=
  match w with
  | O => []
  | S w => val_byte v :: le_bytes w (Z.shiftr v 8)
  end.

Fixpoint le_val (b : bytes) : Z :=
  match b with
  | [] => 0
  | c :: b => byte_val c + 256 * le_val b
  end.

(** [NormalizeNumber] exchanges the outermost bytes until the two ends meet. *)
Fixpoint swap_ends (n : nat) (b e : nat) (v : bytes) : bytes :=
  match n with
  | O => v
  | S n =>
      if (b <? e)%nat then
        match v !! b, v !! e with
        | Some x, Some y => swap_ends n (S b) (e - 1) (<[e := x]> (<[b := y]> v))
        | _, _ => v
        end
      else v
  end.

Definition NormalizeNumber (v : bytes) : bytes := swap_ends (length v) 0 (length v - 1) v.

(** [value << 1] keeps [w] bits; [value >> Shift] is 0 or -1. *)
Definition AsUnsigned (w : Z) (value : Z) : Z :=
  wrapU w (Z.lxor (wrapS w (Z.shiftl value 1)) (Z.shiftr value (w - 1))).

(** ** TKafkaWriteBuffer: chunks, the newest first *)

Record TKafkaWriteBuffer := mkBuffer { ChunkSize_ : Z; Buffers_ : list bytes }.

Definition new_buffer (chunkSize : Z) : TKafkaWriteBuffer := mkBuffer chunkSize [].

Definition GetOrCreateFrontBuffer : M TKafkaWriteBuffer bytes :=
  b ← get_st;
  match Buffers_ b with
  | [] => modify (fun b => mkBuffer (ChunkSize_ b) [[]]) ;; mret []
  | front :: _ => mret front
  end.

(** [buffer.Append] on the front buffer.  The two chunk sizes in use, 2^16 and 8, are
    powers of two, which [TBuffer] allocates exactly. *)
Definition Append (src : bytes) : M TKafkaWriteBuffer unit :=
  b ← get_st;
  match Buffers_ b with
  | [] => undefined "no front buffer"
  | front :: rest => modify (fun b => mkBuffer (ChunkSize_ b) ((front ++ src) :: rest))
  end.

Definition push_front : M TKafkaWriteBuffer unit :=
  modify (fun b => mkBuffer (ChunkSize_ b) ([] :: Buffers_ b)).

Definition Avail (front : bytes) : M TKafkaWriteBuffer Z :=
  gets (fun b => ChunkSize_ b - Z.of_nat (length front)).

Fixpoint write_loop (fuel : nat) (src : bytes) : M TKafkaWriteBuffer unit :=
  match fuel with
  | O => undefined "write does not return"
  | S fuel =>
      front ← GetOrCreateFrontBuffer;
      avail ← Avail front;
      if avail <? Z.of_nat (length src) then
        Append (take (Z.to_nat avail) src) ;;
        push_front ;;
        (if (0 <? length (drop (Z.to_nat avail) src))%nat
         then write_loop fuel (drop (Z.to_nat avail) src)
         else mret tt)
      else Append src
  end.

Definition write (src : bytes) : M TKafkaWriteBuffer unit :=
  write_loop (S (S (length src))) src.

Definition AsString (b : TKafkaWriteBuffer) : bytes := concat (rev (Buffers_ b)).

(** ** TKafkaWritable *)

(** [operator<<] of a number.  Its parameter is [const T val], whose bytes
    [NormalizeNumber] swaps through a cast: C++ leaves the change of a const object
    undefined.  The definition is what the call is meant to do and what compilers make of
    it, the bytes swapped; the theorems on written bytes rest on this reading. *)
Definition write_number (w : nat) (val : Z) : M TKafkaWriteBuffer unit :=
  write (NormalizeNumber (le_bytes w val)).

(** The [Mask] of an unsigned type of [w] bits: everything but the lowest seven. *)
Definition Mask (w : Z) : Z := 2 ^ w - 1 - 127.

Fixpoint writeUnsignedVarint_loop (fuel : nat) (w : Z) (value : Z)
  : M TKafkaWriteBuffer unit :=
  if Z.land value (Mask w) =? 0 then write [val_byte value]
  else
    match fuel with
    | O => undefined "writeUnsignedVarint does not return"
    | S fuel =>
        write [val_byte (Z.lor (Z.land value 127) 128)] ;;
        writeUnsignedVarint_loop fuel w (Z.shiftr value 7)
    end.

(** An unsigned type of [w] bits is 0 after [w / 7 + 1] shifts. *)
Definition varint_fuel (w : Z) : nat := Z.to_nat (w / 7 + 1).

Definition writeUnsignedVarint (w : Z) (v : Z) : M TKafkaWriteBuffer unit :=
  writeUnsignedVarint_loop (varint_fuel w) w (wrapU w v).

Definition writeVarint (w : Z) (value : Z) : M TKafkaWriteBuffer unit :=
  writeUnsignedVarint w (AsUnsigned w value).

(** ** TKafkaReadable *)

Record TKafkaReadable := mkReadable {
  Is : bytes;
  Position : nat;
  AllowCompressed_ : bool;
  MaxArrayBytes_ : Z;
}.

Definition DefaultMaxArrayBytes : Z := 32 * 1024 * 1024.

Definition new_readable (is_ : bytes) : TKafkaReadable :=
  mkReadable is_ 0 false DefaultMaxArrayBytes.

Definition readable_from (is_ : bytes) (limitsFrom : TKafkaReadable) : TKafkaReadable :=
  mkReadable is_ 0 (AllowCompressed_ limitsFrom) (MaxArrayBytes_ limitsFrom).

Definition SetAllowCompressed (allow : bool) (r : TKafkaReadable) : TKafkaReadable :=
  mkReadable (Is r) (Position r) allow (MaxArrayBytes_ r).

Definition SetMaxArrayBytes (n : Z) (r : TKafkaReadable) : TKafkaReadable :=
  mkReadable (Is r) (Position r) (AllowCompressed_ r)
    (if n =? 0 then DefaultMaxArrayBytes else n).

Definition readable_left (r : TKafkaReadable) : nat :=
  if (Position r <? length (Is r))%nat then length (Is r) - Position r else 0.

Definition checkEof (length_ : nat) : M TKafkaReadable unit :=
  l ← gets readable_left;
  if (l <? length_)%nat then throw "unexpected end of stream" else mret tt.

(** The bytes of the buffer from [pos] on, which must be inside of it. *)
Definition slice (pos n : nat) : M TKafkaReadable bytes :=
  r ← get_st;
  if (pos + n <=? length (Is r))%nat then mret (take n (drop pos (Is r)))
  else undefined "read outside of the buffer".

Definition advance (n : nat) (r : TKafkaReadable) : TKafkaReadable :=
  mkReadable (Is r) (Position r + n) (AllowCompressed_ r) (MaxArrayBytes_ r).

Definition read (length_ : nat) : M TKafkaReadable bytes :=
  checkEof length_ ;;
  r ← get_st;
  v ← slice (Position r) length_;
  modify (advance length_) ;;
  mret v.

(** [get] returns a char; both of its uses turn it into a [ui8]. *)
Definition get : M TKafkaReadable Z :=
  v ← read 1;
  mret (match v with c :: _ => byte_val c | [] => 0 end).

Definition Bytes (length_ : nat) : M TKafkaReadable bytes :=
  checkEof length_ ;;
  r ← get_st;
  v ← slice (Position r) length_;
  modify (advance length_) ;;
  mret v.

Definition skip (length_ : nat) : M TKafkaReadable unit :=
  checkEof length_ ;; modify (advance length_).

(** The character is signed. *)
Definition take_ (shift : nat) : M TKafkaReadable Z :=
  r ← get_st;
  if (readable_left r <=? shift)%nat then throw "unexpected end of stream"
  else
    v ← slice (Position r + shift) 1;
    mret (match v with c :: _ => wrapS 8 (byte_val c) | [] => 0 end).

Definition read_number (w : nat) : M TKafkaReadable Z :=
  v ← read w;
  mret (wrapS (8 * Z.of_nat w) (le_val (NormalizeNumber v))).

Definition MaxLength (w : Z) : Z := (w - 1) / 7 * 7.

Fixpoint readUnsignedVarint_loop (fuel : nat) (w value i : Z) : M TKafkaReadable Z :=
  match fuel with
  | O => undefined "readUnsignedVarint does not return"
  | S fuel =>
      b ← get;
      if Z.land b 128 =? 0 then mret (Z.lor value (wrapU w (Z.shiftl b i)))
      else if MaxLength w <=? i then throw "illegal varint length"
      else readUnsignedVarint_loop fuel w
             (Z.lor value (wrapU w (Z.shiftl (Z.land b 127) i))) (i + 7)
  end.

(** The loop reads at most [MaxLength / 7 + 1] bytes. *)
Definition readUnsignedVarint (w : Z) : M TKafkaReadable Z :=
  readUnsignedVarint_loop (varint_fuel w) w 0 0.

Definition readVarint (w : Z) : M TKafkaReadable Z :=
  v ← readUnsignedVarint w;
  mret (wrapS w (Z.lxor (Z.shiftr v 1) (wrapU w (- Z.land v 1)))).

(** ** Sizes *)

Fixpoint SizeOfUnsignedVarint_loop (fuel : nat) (w value bytes_ : Z) : Z :=
  match fuel with
  | O => bytes_
  | S fuel =>
      if Z.land value (Mask w) =? 0 then bytes_
      else SizeOfUnsignedVarint_loop fuel w (Z.shiftr value 7) (bytes_ + 1)
  end.

Definition SizeOfUnsignedVarint (w v : Z) : Z :=
  SizeOfUnsignedVarint_loop (varint_fuel w) w (wrapU w v) 1.

Definition SizeOfVarint (w value : Z) : Z := SizeOfUnsignedVarint w (AsUnsigned w value).

(** ** Versions and meta data *)

Record TKafkaVersions := mkVersions { Min : Z; Max : Z }.

Definition VersionsNever : TKafkaVersions := mkVersions 0 (-1).

Definition VersionsAlways : TKafkaVersions := mkVersions 0 32767.

Definition VersionAll (v : TKafkaVersions) : bool := (0 =? Min v) && (Max v =? 32767).

Definition VersionNone (v : TKafkaVersions) : bool := (0 =? Min v) && (Max v =? -1).

Definition VersionCheck (v : TKafkaVersions) (value : Z) : bool :=
  if VersionNone v then false
  else if VersionAll v then true
  else if Max v =? 32767 then Min v <=? value
  else if Min v =? 0 then value <=? Max v
  else (Min v <=? value) && (value <=? Max v).

Inductive ESizeFormat := SizeDefault | SizeVarint.

Record Meta := mkMeta {
  SizeFormat : ESizeFormat;
  PresentVersions : TKafkaVersions;
  TaggedVersions : TKafkaVersions;
  NullableVersions : TKafkaVersions;
  FlexibleVersions : TKafkaVersions;
}.

Definition WriteArraySize (m : Meta) (version value : Z) : M TKafkaWriteBuffer unit :=
  match SizeFormat m with
  | SizeVarint => writeVarint 32 value
  | SizeDefault =>
      if VersionCheck (FlexibleVersions m) version then writeUnsignedVarint 32 (value + 1)
      else write_number 4 value
  end.

Definition ReadArraySize (m : Meta) (version : Z) : M TKafkaReadable Z :=
  match SizeFormat m with
  | SizeVarint => readVarint 32
  | SizeDefault =>
      if VersionCheck (FlexibleVersions m) version then
        v ← readUnsignedVarint 32; mret (wrapS 32 (v - 1))
      else read_number 4
  end.

Definition ArraySize (m : Meta) (version size : Z) : Z :=
  match SizeFormat m with
  | SizeVarint => SizeOfVarint 32 size
  | SizeDefault =>
      if VersionCheck (FlexibleVersions m) version then SizeOfUnsignedVarint 32 (size + 1)
      else 4
  end.

Definition EnsureLengthFitsRemaining (length_ : Z) (kind : string)
  : M TKafkaReadable unit :=
  l ← gets readable_left;
  if Z.of_nat l <? wrapU 64 length_ then throw kind else mret tt.

Definition EnsureArrayAllocationFits (FixedLength : bool) (length_ elementSize : Z)
  : M TKafkaReadable unit :=
  EnsureLengthFitsRemaining length_ "array" ;;
  r ← get_st;
  let count := wrapU 64 length_ in
  let elem := if elementSize =? 0 then 1 else elementSize in
  if FixedLength && (Z.of_nat (readable_left r) / elem <? count) then throw "array"
  else if MaxArrayBytes_ r / elem <? count then throw "array"
  else mret tt.

(** ** Strategies *)

(** [TKafkaIntDesc]: [w] bytes. *)
Definition Int_DoWrite (w : nat) (value : Z) : M TKafkaWriteBuffer unit :=
  write_number w value.

Definition Int_DoRead (w : nat) : M TKafkaReadable Z := read_number w.

Definition Int_DoSize (w : nat) : Z := Z.of_nat w.

(** [TKafkaVarintDesc]: a signed type of [w] bytes. *)
Definition Varint_DoWrite (m : Meta) (w : nat) (version value : Z)
  : M TKafkaWriteBuffer unit :=
  if VersionCheck (FlexibleVersions m) version then writeVarint (8 * Z.of_nat w) value
  else write_number w value.

Definition Varint_DoRead (m : Meta) (w : nat) (version : Z) : M TKafkaReadable Z :=
  if VersionCheck (FlexibleVersions m) version then readVarint (8 * Z.of_nat w)
  else read_number w.

Definition Varint_DoSize (m : Meta) (w : nat) (version value : Z) : Z :=
  if VersionCheck (FlexibleVersions m) version then SizeOfVarint (8 * Z.of_nat w) value
  else Z.of_nat w.

(** [TKafkaBytesDesc]. *)
Definition Bytes_DoWrite (m : Meta) (version : Z) (value : option bytes)
  : M TKafkaWriteBuffer unit :=
  match value with
  | Some v =>
      WriteArraySize m version (wrapS 32 (Z.of_nat (length v))) ;; write v
  | None =>
      if VersionCheck (NullableVersions m) version then WriteArraySize m version (-1)
      else throw "non-nullable field serializing as null"
  end.

Definition Bytes_DoRead (m : Meta) (version : Z) : M TKafkaReadable (option bytes) :=
  length_ ← ReadArraySize m version;
  if length_ <? 0 then
    if VersionCheck (NullableVersions m) version then mret None
    else throw "non-nullable field was serialized as null"
  else
    EnsureLengthFitsRemaining length_ "bytes" ;;
    v ← Bytes (Z.to_nat length_);
    mret (Some v).

Definition Bytes_DoSize (m : Meta) (version : Z) (value : option bytes) : Z :=
  match value with
  | Some v =>
      Z.of_nat (length v) + ArraySize m version (wrapS 32 (Z.of_nat (length v)))
  | None => if VersionCheck (FlexibleVersions m) version then 1 else 4
  end.

(** [TKafkaArrayDesc] over the strategy of its items.  A null array leaves the vector,
    which is empty in every message that is read, as it is. *)
Definition Array_DoWrite {A} (m : Meta) (item : A -> M TKafkaWriteBuffer unit)
  (version : Z) (value : list A) : M TKafkaWriteBuffer unit :=
  WriteArraySize m version (wrapS 32 (Z.of_nat (length value))) ;; for_each item value.

Fixpoint repeat_read {A} (n : nat) (item : M TKafkaReadable A)
  : M TKafkaReadable (list A) :=
  match n with
  | O => mret []
  | S n => x ← item; l ← repeat_read n item; mret (x :: l)
  end.

Definition Array_DoRead {A} (m : Meta) (sizeof : Z) (item : M TKafkaReadable A)
  (version : Z) : M TKafkaReadable (list A) :=
  length_ ← ReadArraySize m version;
  if length_ <? 0 then
    if VersionCheck (NullableVersions m) version then mret []
    else throw "non-nullable field was serialized as null"
  else
    EnsureArrayAllocationFits false length_ sizeof ;;
    repeat_read (Z.to_nat length_) item.

Definition Array_DoSize {A} (m : Meta) (item : A -> Z) (version : Z) (value : list A) : Z :=
  fold_left (fun size v => wrapS 32 (size + item v)) value 0
  + ArraySize m version (wrapS 32 (Z.of_nat (length value))).

(** ** The functions of a field.  No message of the library has a tagged field: where the
    code counts one, nothing is written.  The text of a rethrown exception is not kept. *)

Definition Write_field (m : Meta) (version : Z) (doWrite : M TKafkaWriteBuffer unit)
  : M TKafkaWriteBuffer unit :=
  if VersionCheck (PresentVersions m) version then
    if VersionCheck (TaggedVersions m) version then mret tt else doWrite
  else mret tt.

Definition Read_field {A} (m : Meta) (version : Z) (default : A)
  (doRead : M TKafkaReadable A) : M TKafkaReadable A :=
  if negb (VersionNone (TaggedVersions m)) && VersionCheck (TaggedVersions m) version
  then mret default
  else if VersionCheck (PresentVersions m) version then doRead
  else mret default.

(** [collector.Size] is a [ui32]. *)
Definition Size_field (m : Meta) (version : Z) (size : Z) (collector : Z) : Z :=
  if VersionCheck (PresentVersions m) version then
    if negb (VersionNone (TaggedVersions m)) && VersionCheck (TaggedVersions m) version
    then collector
    else wrapU 32 (collector + size)
  else collector.
