(* ===== verification/KafkaFormat.v ===== *)
(** * The format that KafkaWire.v writes and reads

    The format itself as plain functions from values to bytes ([enc_...]); the writer
    appends it ([appends]), the size functions measure it and the reader inverts it
    ([reads]); on arbitrary bytes the reader never leaves its buffer ([safe]). *)

From S2P Require Import Prelude KafkaWire.
From Stdlib Require Import Ascii.

(** ** The format *)

(** Big-endian, [w] bytes. *)
Definition enc_number (w : nat) (v : Z) : bytes := rev (le_bytes w v).

(** Groups of seven bits, the lowest first; the eighth bit says that more follow. *)
Fixpoint enc_groups (fuel : nat) (v : Z) : bytes :=
  match fuel with
  | O => []
  | S fuel =>
      if v <? 128 then [val_byte v]
      else val_byte (v mod 128 + 128) :: enc_groups fuel (v / 128)
  end.

(** A 64-bit number has at most ten groups. *)
Definition enc_uvarint (v : Z) : bytes := enc_groups 10 v.

Definition zigzag (v : Z) : Z := if v <? 0 then -2 * v - 1 else 2 * v.

Definition enc_varint (v : Z) : bytes := enc_uvarint (zigzag v).

Definition enc_size (m : Meta) (version v : Z) : bytes :=
  match SizeFormat m with
  | SizeVarint => enc_varint v
  | SizeDefault =>
      if VersionCheck (FlexibleVersions m) version then enc_uvarint (v + 1)
      else enc_number 4 v
  end.

Definition enc_bytes (m : Meta) (version : Z) (v : option bytes) : bytes :=
  match v with
  | Some v => enc_size m version (Z.of_nat (length v)) ++ v
  | None => enc_size m version (-1)
  end.

Definition enc_array {A} (m : Meta) (item : A -> bytes) (version : Z) (l : list A) : bytes :=
  enc_size m version (Z.of_nat (length l)) ++ concat (map item l).

(** ** Bytes and integers *)

Ltac nat_to_prop :=
  repeat match goal with
  | H : (_ <? _)%nat = true |- _ => apply Nat.ltb_lt in H
  | H : (_ <? _)%nat = false |- _ => apply Nat.ltb_ge in H
  | H : (_ <=? _)%nat = true |- _ => apply Nat.leb_le in H
  | H : (_ <=? _)%nat = false |- _ => apply Nat.leb_gt in H
  end.

Lemma byte_val_range c : 0 <= byte_val c < 256.
Proof. unfold byte_val. pose proof (N_ascii_bounded c). lia. Qed.

Lemma byte_val_byte v : byte_val (val_byte v) = v mod 256.
Proof.
  unfold byte_val, val_byte. pose proof (Z.mod_pos_bound v 256 ltac:(lia)).
  rewrite N_ascii_embedding by lia. lia.
Qed.

Lemma val_byte_mod v : val_byte (v mod 256) = val_byte v.
Proof. unfold val_byte. by rewrite Z.mod_mod by lia. Qed.

Lemma le_bytes_length w v : length (le_bytes w v) = w.
Proof. revert v. induction w; intros v; simpl; [done|]. by rewrite IHw. Qed.

Lemma le_val_bytes w v : le_val (le_bytes w v) = v mod 2 ^ (8 * Z.of_nat w).
Proof.
  revert v. induction w as [|w IH]; intros v; cbn [le_bytes le_val].
  { by rewrite Z.mod_1_r. }
  rewrite IH, byte_val_byte, Z.shiftr_div_pow2 by lia.
  replace (8 * Z.of_nat (S w)) with (8 + 8 * Z.of_nat w) by lia.
  rewrite Z.pow_add_r by lia. change (2 ^ 8) with 256.
  rewrite Z.rem_mul_r by lia. lia.
Qed.

Lemma wrapS_mod w z : 1 <= w -> wrapS w (z mod 2 ^ w) = wrapS w z.
Proof. intros. unfold wrapS. by rewrite Z.mod_mod by lia. Qed.

(** [NormalizeNumber] reverses. *)
Lemma swap_ends_lookup n b e v i :
  (e < b + 2 * n)%nat -> (e < length v)%nat ->
  swap_ends n b e v !! i
  = if ((b <=? i) && (i <=? e))%nat then v !! (b + e - i)%nat else v !! i.
Proof.
  revert b e v. induction n as [|n IH]; intros b e v Hn He; cbn [swap_ends].
  { destruct (b <=? i)%nat eqn:?, (i <=? e)%nat eqn:?; simpl; try done; nat_to_prop; lia. }
  destruct (b <? e)%nat eqn:Hb; nat_to_prop.
  - destruct (lookup_lt_is_Some_2 v b) as [x Hx]; [lia|].
    destruct (lookup_lt_is_Some_2 v e) as [y Hy]; [lia|].
    rewrite Hx, Hy, IH by (rewrite ?length_insert; lia).
    destruct (decide (i = b)) as [->|]; [|destruct (decide (i = e)) as [->|]].
    + replace (S b <=? b)%nat with false by (symmetry; apply Nat.leb_gt; lia).
      replace (b <=? b)%nat with true by (symmetry; apply Nat.leb_le; lia).
      replace (b <=? e)%nat with true by (symmetry; apply Nat.leb_le; lia).
      cbn [andb]. rewrite list_lookup_insert_ne, list_lookup_insert_eq by lia.
      rewrite <- Hy. f_equal. lia.
    + replace (e <=? e - 1)%nat with false by (symmetry; apply Nat.leb_gt; lia).
      replace (b <=? e)%nat with true by (symmetry; apply Nat.leb_le; lia).
      replace (e <=? e)%nat with true by (symmetry; apply Nat.leb_le; lia).
      rewrite andb_false_r. cbn [andb].
      rewrite list_lookup_insert_eq by (rewrite length_insert; lia).
      rewrite <- Hx. f_equal. lia.
    + replace (b <=? i)%nat with (S b <=? i)%nat
        by (apply eq_true_iff_eq; rewrite !Nat.leb_le; lia).
      replace (i <=? e)%nat with (i <=? e - 1)%nat
        by (apply eq_true_iff_eq; rewrite !Nat.leb_le; lia).
      destruct ((S b <=? i)%nat && (i <=? e - 1)%nat) eqn:E.
      * apply andb_true_iff in E as [E1%Nat.leb_le E2%Nat.leb_le].
        rewrite !list_lookup_insert_ne by lia. f_equal. lia.
      * by rewrite !list_lookup_insert_ne by lia.
  - destruct (b <=? i)%nat eqn:?, (i <=? e)%nat eqn:?; simpl; try done.
    nat_to_prop. f_equal. lia.
Qed.

Lemma NormalizeNumber_rev v : NormalizeNumber v = rev v.
Proof.
  unfold NormalizeNumber. destruct (decide (v = [])) as [->|Hv]; [done|].
  assert (0 < length v)%nat by (destruct v; simpl; [done|lia]).
  apply list_eq. intros i. rewrite swap_ends_lookup by lia. rewrite rev_alt.
  change (rev_append v []) with (reverse v). simpl.
  destruct (i <=? length v - 1)%nat eqn:E; nat_to_prop.
  - rewrite reverse_lookup by lia. f_equal. lia.
  - rewrite (lookup_ge_None_2 v) by lia. symmetry. apply lookup_ge_None_2.
    rewrite length_reverse. lia.
Qed.

(** ** Variable length integers: masks are comparisons, shifts divisions *)

Lemma land_127 v : Z.land v 127 = v mod 128.
Proof. change 127 with (Z.ones 7). by rewrite Z.land_ones. Qed.

Lemma land_Mask w v : 7 <= w -> inU w v -> (Z.land v (Mask w) =? 0) = (v <? 128).
Proof.
  intros Hw [H0 H1]. assert (Mask w = Z.shiftl (Z.ones (w - 7)) 7) as ->.
  { unfold Mask. rewrite Z.shiftl_mul_pow2, Z.ones_equiv by lia.
    replace w with (w - 7 + 7) at 1 by lia. rewrite Z.pow_add_r by lia.
    change (2 ^ 7) with 128. lia. }
  assert (Z.land v (Z.shiftl (Z.ones (w - 7)) 7) = Z.shiftl (Z.shiftr v 7) 7) as ->.
  { apply Z.bits_inj'. intros i Hi. rewrite Z.land_spec, !Z.shiftl_spec by lia.
    destruct (decide (i < 7)).
    - by rewrite !(Z.testbit_neg_r _ (i - 7)), andb_false_r by lia.
    - rewrite Z.shiftr_spec, Z.testbit_ones_nonneg by lia.
      replace (i - 7 + 7) with i by lia. destruct (i - 7 <? w - 7) eqn:E; bool_to_prop.
      + by rewrite andb_true_r.
      + rewrite andb_false_r. symmetry. destruct (decide (v = 0)) as [->|].
        { apply Z.testbit_0_l. }
        apply Z.bits_above_log2; [done|]. apply Z.log2_lt_pow2; [lia|].
        apply Z.lt_le_trans with (2 ^ w); [done|]. apply Z.pow_le_mono_r; lia. }
  rewrite Z.shiftl_mul_pow2, Z.shiftr_div_pow2 by lia. change (2 ^ 7) with 128.
  pose proof (Z.div_mod v 128). pose proof (Z.mod_pos_bound v 128).
  apply eq_true_iff_eq. rewrite Z.eqb_eq, Z.ltb_lt. split; intros.
  - nia.
  - rewrite Z.div_small by lia. done.
Qed.

Lemma lor_128 v : 0 <= v < 128 -> Z.lor v 128 = v + 128.
Proof.
  intros. rewrite Z.lor_comm. change 128 with (1 * 2 ^ 7) at 1.
  rewrite lor_disjoint by lia. lia.
Qed.

Lemma land_128 v : 0 <= v < 256 -> (Z.land v 128 =? 0) = (v <? 128).
Proof.
  intros. change 128 with (Mask 8) at 1. apply land_Mask; [lia|]. unfold inU. lia.
Qed.

(** ** Writing *)

(** Chunks never exceed their size. *)
Definition buffer_wf (b : TKafkaWriteBuffer) : Prop :=
  0 < ChunkSize_ b
  /\ Forall (fun c => Z.of_nat (length c) <= ChunkSize_ b) (Buffers_ b).

Definition appends (m : M TKafkaWriteBuffer unit) (enc : bytes) : Prop :=
  forall b, buffer_wf b ->
  exists b', m b = Ok (tt, b') /\ buffer_wf b' /\ AsString b' = AsString b ++ enc.

Lemma AsString_cons w c l : AsString (mkBuffer w (c :: l)) = AsString (mkBuffer w l) ++ c.
Proof. unfold AsString. simpl. rewrite concat_app. simpl. by rewrite app_nil_r. Qed.

Lemma write_loop_front fuel src w front rest :
  buffer_wf (mkBuffer w (front :: rest)) ->
  (length src + (if (Z.of_nat (length front) <? w)%Z then 1 else 2) <= fuel)%nat ->
  exists b', write_loop fuel src (mkBuffer w (front :: rest)) = Ok (tt, b')
             /\ buffer_wf b' /\ AsString b' = AsString (mkBuffer w (front :: rest)) ++ src.
Proof.
  revert src front rest. induction fuel as [|fuel IH]; intros src front rest Hwf Hf.
  { destruct (_ <? w)%Z; lia. }
  pose proof Hwf as [Hw Hall]. simpl in Hw, Hall. apply Forall_cons in Hall as [Hfr Hre].
  cbn [write_loop]. unfold GetOrCreateFrontBuffer, Avail, Append, push_front.
  cbv [mbind M_bind mret M_ret get_st gets modify]. cbn [Buffers_ ChunkSize_].
  set (a := w - Z.of_nat (length front)).
  destruct (a <? Z.of_nat (length src)) eqn:E; bool_to_prop.
  - assert (length (drop (Z.to_nat a) src) = length src - Z.to_nat a)%nat as Hd
      by apply length_drop.
    replace (0 <? length (drop (Z.to_nat a) src))%nat with true
      by (symmetry; apply Nat.ltb_lt; lia).
    destruct (IH (drop (Z.to_nat a) src) [] ((front ++ take (Z.to_nat a) src) :: rest))
      as (b' & Eb & Hb & Hs).
    + split; [done|]. repeat (constructor; simpl); try done; [lia|].
      rewrite length_app, length_take. lia.
    + rewrite Hd. rewrite (proj2 (Z.ltb_lt (Z.of_nat (length [])) w)) by (simpl; lia).
      revert Hf. subst a. destruct (Z.of_nat (length front) <? w) eqn:E'; bool_to_prop; lia.
    + exists b'. split_and!; [exact Eb|done|]. rewrite Hs, !AsString_cons, app_nil_r.
      rewrite <- !app_assoc. by rewrite take_drop.
  - eexists. split_and!; [done| |].
    + split; [done|]. constructor; [|done]. simpl. subst a. rewrite length_app. lia.
    + by rewrite !AsString_cons, app_assoc.
Qed.

Lemma write_appends src : appends (write src) src.
Proof.
  intros [w l] Hwf. unfold write. destruct l as [|front rest].
  - destruct (write_loop_front (S (S (length src))) src w [] []) as (b' & E & Hb & Hs).
    + destruct Hwf as [Hw _]. simpl in Hw. split; [done|]. repeat constructor. simpl. lia.
    + destruct (_ <? w)%Z; lia.
    + exists b'. split; [|by split]. revert E. done.
  - apply write_loop_front; [done|]. destruct (_ <? w)%Z; lia.
Qed.

Lemma appends_ret : appends (mret tt) [].
Proof. intros b Hb. exists b. by rewrite app_nil_r. Qed.

Lemma appends_bind m k e1 e2 : appends m e1 -> appends k e2 -> appends (m ;; k) (e1 ++ e2).
Proof.
  intros Hm Hk b Hb. destruct (Hm b Hb) as (b1 & E1 & Hb1 & Hs1).
  destruct (Hk b1 Hb1) as (b2 & E2 & Hb2 & Hs2). exists b2. split_and!; [|done|].
  - cbv [mbind M_bind]. by rewrite E1.
  - by rewrite Hs2, Hs1, app_assoc.
Qed.

Lemma appends_for_each {A} (f : A -> M TKafkaWriteBuffer unit) enc l :
  Forall (fun x => appends (f x) (enc x)) l -> appends (for_each f l) (concat (map enc l)).
Proof.
  induction 1 as [|x l Hx _ IH]; simpl; [apply appends_ret|]. by apply appends_bind.
Qed.

Lemma write_number_appends w v : appends (write_number w v) (enc_number w v).
Proof. unfold write_number. rewrite NormalizeNumber_rev. apply write_appends. Qed.

Lemma shiftr_7 v : Z.shiftr v 7 = v / 128.
Proof. by rewrite Z.shiftr_div_pow2 by lia. Qed.

Lemma inU_div w v : inU w v -> inU w (v / 128).
Proof.
  unfold inU. intros [H0 H1]. split; [apply Z.div_pos; lia|].
  apply Z.le_lt_trans with v; [|done]. apply Z.div_le_upper_bound; lia.
Qed.

Lemma pow_7 n : 2 ^ (7 * Z.of_nat (S n)) = 128 * 2 ^ (7 * Z.of_nat n).
Proof.
  replace (7 * Z.of_nat (S n)) with (7 + 7 * Z.of_nat n) by lia.
  by rewrite Z.pow_add_r by lia.
Qed.

Lemma div_128_lt v p : 0 <= v < 128 * p -> 0 <= v / 128 < p.
Proof.
  intros. split; [apply Z.div_pos; lia|]. apply Z.div_lt_upper_bound; lia.
Qed.

Lemma write_groups f g w v :
  7 <= w -> inU w v -> v < 2 ^ (7 * Z.of_nat (S f)) -> v < 2 ^ (7 * Z.of_nat (S g)) ->
  appends (writeUnsignedVarint_loop f w v) (enc_groups (S g) v).
Proof.
  intros Hw. revert g v. induction f as [|f IH]; intros g v Hv Hf Hg.
  all: cbn [writeUnsignedVarint_loop enc_groups]; rewrite land_Mask by done.
  all: destruct (v <? 128) eqn:E; [apply write_appends|bool_to_prop].
  - change (2 ^ (7 * Z.of_nat 1)) with 128 in Hf. lia.
  - rewrite land_127, lor_128 by (apply Z.mod_pos_bound; lia).
    rewrite pow_7 in Hf, Hg. pose proof Hv as [H0 H1].
    destruct g as [|g]; [change (2 ^ (7 * Z.of_nat 0)) with 1 in Hg; lia|].
    apply (appends_bind _ _ [_]); [apply write_appends|]. rewrite shiftr_7.
    apply IH; [by apply inU_div|..]; apply div_128_lt; lia.
Qed.

Lemma pow_le_fuel w n : 0 <= w <= 7 * Z.of_nat n -> 2 ^ w <= 2 ^ (7 * Z.of_nat n).
Proof. intros. apply Z.pow_le_mono_r; lia. Qed.

Lemma varint_fuel_enough w : 0 <= w -> w <= 7 * Z.of_nat (varint_fuel w).
Proof.
  intros. unfold varint_fuel. pose proof (Z.div_mod w 7). pose proof (Z.mod_pos_bound w 7).
  assert (0 <= w / 7) by (apply Z.div_pos; lia). lia.
Qed.

Lemma writeUnsignedVarint_appends w v :
  7 <= w <= 64 -> appends (writeUnsignedVarint w v) (enc_uvarint (wrapU w v)).
Proof.
  intros Hw. unfold writeUnsignedVarint, enc_uvarint.
  pose proof (wrapU_range w v ltac:(lia)) as [H0 H1].
  pose proof (varint_fuel_enough w ltac:(lia)).
  apply write_groups; [lia|done| |]; (eapply Z.lt_le_trans; [done|]).
  - apply pow_le_fuel. lia.
  - apply pow_le_fuel. lia.
Qed.

Lemma AsUnsigned_zigzag w v : 1 <= w -> inS w v -> AsUnsigned w v = zigzag v.
Proof.
  unfold inS, AsUnsigned, zigzag. intros Hw [H0 H1].
  assert (2 ^ w = 2 * 2 ^ (w - 1)) as E by (rewrite <- Z.pow_succ_r by lia; f_equal; lia).
  rewrite Z.shiftr_div_pow2, Z.shiftl_mul_pow2 by lia. change (2 ^ 1) with 2.
  destruct (wrapS_cong w (v * 2) Hw) as [k Hk].
  destruct (v <? 0) eqn:Ev; bool_to_prop.
  - replace (v / 2 ^ (w - 1)) with (-1) by (apply (Z.div_unique _ _ _ (v + 2 ^ (w - 1))); lia).
    rewrite Z.lxor_m1_r. unfold Z.lnot. rewrite Hk. unfold wrapU.
    symmetry. apply (Z.mod_unique _ _ (- k)); lia.
  - rewrite Z.div_small, Z.lxor_0_r by lia. rewrite Hk. unfold wrapU.
    rewrite Z.mod_add by lia. rewrite Z.mod_small; lia.
Qed.

Lemma zigzag_range w v : 1 <= w -> inS w v -> inU w (zigzag v).
Proof.
  unfold inS, inU, zigzag. intros Hw [H0 H1].
  assert (2 ^ w = 2 * 2 ^ (w - 1)) as E by (rewrite <- Z.pow_succ_r by lia; f_equal; lia).
  destruct (v <? 0) eqn:Ev; bool_to_prop; lia.
Qed.

Lemma writeVarint_appends w v :
  7 <= w <= 64 -> inS w v -> appends (writeVarint w v) (enc_varint v).
Proof.
  intros Hw Hv. unfold writeVarint, enc_varint. rewrite AsUnsigned_zigzag by (lia || done).
  rewrite <- (wrapU_small w (zigzag v)) at 2 by (apply zigzag_range; [lia|done]).
  by apply writeUnsignedVarint_appends.
Qed.

(** ** Measuring *)

Lemma enc_number_length w v : length (enc_number w v) = w.
Proof. unfold enc_number. by rewrite length_rev, le_bytes_length. Qed.

Lemma enc_groups_length g v : (1 <= length (enc_groups (S g) v) <= S g)%nat.
Proof.
  revert v. induction g as [|g IH]; intros v; cbn [enc_groups];
    destruct (v <? 128); try (simpl; lia).
  cbn [length]. specialize (IH (v / 128)). cbn [enc_groups] in IH. lia.
Qed.

Lemma enc_varint_length v : (1 <= length (enc_varint v) <= 10)%nat.
Proof. apply (enc_groups_length 9). Qed.

Lemma size_groups f g w v n :
  7 <= w -> inU w v -> v < 2 ^ (7 * Z.of_nat (S f)) -> v < 2 ^ (7 * Z.of_nat (S g)) ->
  SizeOfUnsignedVarint_loop f w v n = n - 1 + Z.of_nat (length (enc_groups (S g) v)).
Proof.
  intros Hw. revert g v n. induction f as [|f IH]; intros g v n Hv Hf Hg.
  all: cbn [SizeOfUnsignedVarint_loop enc_groups].
  - change (2 ^ (7 * Z.of_nat 1)) with 128 in Hf.
    rewrite (proj2 (Z.ltb_lt v 128)) by lia. simpl. lia.
  - rewrite land_Mask by done. destruct (v <? 128) eqn:E; bool_to_prop; [simpl; lia|].
    rewrite pow_7 in Hf, Hg. pose proof Hv as [H0 H1].
    destruct g as [|g]; [change (2 ^ (7 * Z.of_nat 0)) with 1 in Hg; lia|].
    rewrite shiftr_7, (IH g); [cbn [length]; lia|by apply inU_div|..];
      apply div_128_lt; lia.
Qed.

Lemma SizeOfUnsignedVarint_length w v :
  7 <= w <= 64 -> SizeOfUnsignedVarint w v = Z.of_nat (length (enc_uvarint (wrapU w v))).
Proof.
  intros Hw. unfold SizeOfUnsignedVarint, enc_uvarint.
  pose proof (wrapU_range w v ltac:(lia)) as [H0 H1].
  pose proof (varint_fuel_enough w ltac:(lia)).
  rewrite (size_groups _ 9 w); [lia|lia|done|..]; (eapply Z.lt_le_trans; [done|]).
  - apply pow_le_fuel. lia.
  - apply (pow_le_fuel w 10). lia.
Qed.

Lemma SizeOfVarint_length w v :
  7 <= w <= 64 -> inS w v -> SizeOfVarint w v = Z.of_nat (length (enc_varint v)).
Proof.
  intros Hw Hv. unfold SizeOfVarint, enc_varint. rewrite AsUnsigned_zigzag by (lia || done).
  rewrite SizeOfUnsignedVarint_length by done.
  by rewrite wrapU_small by (apply zigzag_range; [lia|done]).
Qed.

(** ** Reading back *)

Definition reads {A} (ac : bool) (lim : Z) (m : M TKafkaReadable A) (enc : bytes) (a : A)
  : Prop :=
  forall pre post,
    m (mkReadable (pre ++ enc ++ post) (length pre) ac lim)
    = Ok (a, mkReadable (pre ++ enc ++ post) (length pre + length enc) ac lim).

Section Reads.
Context (ac : bool) (lim : Z).

Lemma reads_ret {A} (a : A) : reads ac lim (mret a) [] a.
Proof. intros pre post. cbn [length]. by rewrite Nat.add_0_r. Qed.

Lemma reads_bind {A B} (m : M TKafkaReadable A) (f : A -> M TKafkaReadable B) e1 e2 a b :
  reads ac lim m e1 a -> reads ac lim (f a) e2 b -> reads ac lim (m ≫= f) (e1 ++ e2) b.
Proof.
  intros Hm Hf pre post. unfold mbind, M_bind. rewrite <- app_assoc, Hm.
  specialize (Hf (pre ++ e1) post). rewrite <- app_assoc, length_app in Hf.
  rewrite Hf. by rewrite length_app, Nat.add_assoc.
Qed.

Lemma reads_map {A B} (m : M TKafkaReadable A) (f : A -> B) enc a b :
  reads ac lim m enc a -> b = f a -> reads ac lim (x ← m; mret (f x)) enc b.
Proof.
  intros Hm ->. rewrite <- (app_nil_r enc). eapply reads_bind; [done|]. apply reads_ret.
Qed.

Lemma left_at pre (enc post : bytes) :
  readable_left (mkReadable (pre ++ enc ++ post) (length pre) ac lim)
  = (length enc + length post)%nat.
Proof.
  unfold readable_left. cbn [Is Position]. rewrite !length_app.
  destruct (_ <? _)%nat eqn:E; nat_to_prop; lia.
Qed.

Lemma Bytes_reads v n : n = length v -> reads ac lim (Bytes n) v v.
Proof.
  intros -> pre post. unfold Bytes, checkEof, slice.
  cbv [mbind M_bind mret M_ret get_st gets modify throw undefined].
  rewrite left_at.
  replace (length v + length post <? length v)%nat with false
    by (symmetry; apply Nat.ltb_ge; lia).
  cbn [Is Position]. rewrite !length_app.
  replace (length pre + length v <=? length pre + (length v + length post))%nat with true
    by (symmetry; apply Nat.leb_le; lia).
  rewrite drop_app_length, take_app_length. done.
Qed.

Lemma read_reads v n : n = length v -> reads ac lim (read n) v v.
Proof. apply Bytes_reads. Qed.

Lemma read_number_reads w v :
  (0 < w)%nat -> inS (8 * Z.of_nat w) v ->
  reads ac lim (read_number w) (enc_number w v) v.
Proof.
  intros Hw Hv. eapply reads_map.
  { apply read_reads. by rewrite enc_number_length. }
  rewrite NormalizeNumber_rev. unfold enc_number. rewrite rev_involutive, le_val_bytes.
  rewrite wrapS_mod, wrapS_small by (done || lia). done.
Qed.

Lemma get_reads v : reads ac lim get [val_byte v] (v mod 256).
Proof. eapply reads_map; [by apply (read_reads [val_byte v] 1)|]. cbn. by rewrite byte_val_byte. Qed.

Lemma read_group_acc w acc i x :
  0 <= i -> 0 <= acc < 2 ^ i -> 0 <= x -> x * 2 ^ i < 2 ^ w ->
  Z.lor acc (wrapU w (Z.shiftl x i)) = acc + x * 2 ^ i.
Proof.
  intros Hi Ha Hx Hw. rewrite Z.shiftl_mul_pow2 by done.
  rewrite wrapU_small by (unfold inU; nia). rewrite Z.lor_comm, lor_disjoint by done. lia.
Qed.

Lemma read_groups f g w acc i v :
  0 <= i -> i mod 7 = 0 -> 7 <= w -> 0 <= acc < 2 ^ i -> 0 <= v -> v * 2 ^ i < 2 ^ w ->
  v < 2 ^ (7 * Z.of_nat (S f)) -> v < 2 ^ (7 * Z.of_nat (S g)) ->
  reads ac lim (readUnsignedVarint_loop (S f) w acc i) (enc_groups (S g) v)
    (acc + v * 2 ^ i).
Proof.
  intros Hi H7 Hw. revert g v acc i Hi H7.
  induction f as [|f IH]; intros g v acc i Hi H7 Ha H0 Hv Hf Hg.
  all: cbn [enc_groups]; destruct (v <? 128) eqn:E; bool_to_prop.
  all: try (change (2 ^ (7 * Z.of_nat 1)) with 128 in Hf; lia).
  1, 2: rewrite <- (app_nil_r [_]); eapply reads_bind; [apply get_reads|];
    rewrite Z.mod_small, land_128 by lia; rewrite (proj2 (Z.ltb_lt v 128)) by done;
    rewrite read_group_acc by done; apply reads_ret.
  rewrite pow_7 in Hf, Hg.
  destruct g as [|g]; [change (2 ^ (7 * Z.of_nat 0)) with 1 in Hg; lia|].
  pose proof (Z.mod_pos_bound v 128 ltac:(lia)). pose proof (Z.div_mod v 128 ltac:(lia)).
  assert (0 < 2 ^ i) by lia.
  assert (2 ^ (i + 7) = 128 * 2 ^ i) as E7 by (rewrite Z.pow_add_r by lia; lia).
  assert (i + 7 < w) as Hiw.
  { apply (Z.pow_lt_mono_r_iff 2); [lia|lia|]. rewrite E7. nia. }
  apply (reads_bind _ _ [_]) with (a := (v mod 128 + 128) mod 256); [apply get_reads|].
  rewrite (Z.mod_small (_ + _)), land_128 by lia.
  rewrite (proj2 (Z.ltb_ge (v mod 128 + 128) 128)) by lia.
  unfold MaxLength. pose proof (Z.div_mod (w - 1) 7 ltac:(lia)).
  pose proof (Z.mod_pos_bound (w - 1) 7 ltac:(lia)). pose proof (Z.div_mod i 7 ltac:(lia)).
  rewrite (proj2 (Z.leb_gt _ _)) by lia.
  replace (Z.land (v mod 128 + 128) 127) with (v mod 128)
    by (rewrite land_127; apply (Z.mod_unique _ _ 1); lia).
  rewrite read_group_acc by (done || nia).
  replace (acc + v * 2 ^ i) with (acc + v mod 128 * 2 ^ i + v / 128 * 2 ^ (i + 7)) by nia.
  assert (0 <= v / 128) by (apply Z.div_pos; lia).
  apply IH; try lia; try nia; [|by apply div_128_lt..].
  replace (i + 7) with (i + 1 * 7) by lia. by rewrite Z.mod_add by lia.
Qed.

Lemma readUnsignedVarint_reads w v :
  7 <= w <= 64 -> inU w v -> reads ac lim (readUnsignedVarint w) (enc_uvarint v) v.
Proof.
  intros Hw [H0 H1]. unfold readUnsignedVarint, enc_uvarint.
  pose proof (varint_fuel_enough w ltac:(lia)).
  assert (varint_fuel w = S (pred (varint_fuel w))) as -> by lia.
  replace v with (0 + v * 2 ^ 0) at 2 by lia.
  apply read_groups; try done; try lia; (eapply Z.lt_le_trans; [done|]).
  - apply pow_le_fuel. lia.
  - apply (pow_le_fuel w 10). lia.
Qed.

Lemma lxor_ones w x : 0 <= w -> 0 <= x < 2 ^ w -> Z.lxor x (Z.ones w) = Z.ones w - x.
Proof.
  intros Hw Hx. assert (x <> 0 -> Z.log2 x < w) as Hl by (intros; apply Z.log2_lt_pow2; lia).
  rewrite Z.sub_nocarry_ldiff.
  - apply Z.bits_inj'. intros i Hi. rewrite Z.lxor_spec, Z.ldiff_spec.
    rewrite Z.testbit_ones_nonneg by lia. destruct (i <? w) eqn:E; bool_to_prop.
    { by destruct (Z.testbit x i). }
    rewrite xorb_false_r. simpl. destruct (decide (x = 0)) as [->|].
    { apply Z.testbit_0_l. }
    apply Z.bits_above_log2; lia.
  - destruct (decide (x = 0)) as [->|]; [apply Z.ldiff_0_l|].
    apply Z.ldiff_ones_r_low; lia.
Qed.

Lemma zigzag_inverse w v :
  1 <= w -> inS w v ->
  v = wrapS w (Z.lxor (Z.shiftr (zigzag v) 1) (wrapU w (- Z.land (zigzag v) 1))).
Proof.
  intros Hw Hv. pose proof (wrapS_small w v Hw Hv) as Hs. revert Hv. unfold inS, zigzag.
  assert (2 ^ w = 2 * 2 ^ (w - 1)) as E by (rewrite <- Z.pow_succ_r by lia; f_equal; lia).
  rewrite Z.shiftr_div_pow2 by lia. change (2 ^ 1) with 2.
  rewrite (Z.land_ones _ 1) by lia. change (2 ^ 1) with 2. intros [H0 H1].
  destruct (v <? 0) eqn:Ev; bool_to_prop.
  - replace ((-2 * v - 1) / 2) with (- v - 1) by (apply (Z.div_unique _ _ _ 1); lia).
    replace ((-2 * v - 1) mod 2) with 1 by (apply (Z.mod_unique _ _ (- v - 1)); lia).
    replace (wrapU w (- (1))) with (Z.ones w)
      by (unfold wrapU; rewrite Z.ones_equiv; apply (Z.mod_unique _ _ (-1)); lia).
    rewrite lxor_ones, Z.ones_equiv by lia. rewrite <- Hs at 1.
    rewrite <- (wrapS_mod w v), <- (wrapS_mod w (_ - _)) by lia. f_equal.
    symmetry. replace (Z.pred (2 ^ w) - (- v - 1)) with (v + 1 * 2 ^ w) by lia.
    apply Z.mod_add. lia.
  - replace (2 * v / 2) with v by (apply (Z.div_unique _ _ _ 0); lia).
    replace ((2 * v) mod 2) with 0 by (apply (Z.mod_unique _ _ v); lia).
    change (wrapU w (- 0)) with (0 mod 2 ^ w). rewrite Z.mod_0_l, Z.lxor_0_r by lia. done.
Qed.

Lemma readVarint_reads w v :
  7 <= w <= 64 -> inS w v -> reads ac lim (readVarint w) (enc_varint v) v.
Proof.
  intros Hw Hv. eapply reads_map.
  - apply readUnsignedVarint_reads; [done|]. apply zigzag_range; [lia|done].
  - apply zigzag_inverse; [lia|done].
Qed.

Lemma wrapS_length {A} (l : list A) :
  Z.of_nat (length l) < 2 ^ 31 -> wrapS 32 (Z.of_nat (length l)) = Z.of_nat (length l).
Proof. intros. apply wrapS_small; [lia|]. unfold inS. simpl Z.sub. lia. Qed.

Lemma ReadArraySize_reads m version v :
  -1 <= v < 2 ^ 31 -> reads ac lim (ReadArraySize m version) (enc_size m version v) v.
Proof.
  intros Hv. unfold ReadArraySize, enc_size. destruct (SizeFormat m).
  - destruct (VersionCheck _ _).
    + eapply reads_map; [apply readUnsignedVarint_reads; [lia|]|].
      * unfold inU. lia.
      * rewrite Z.add_simpl_r. symmetry. apply wrapS_small; [lia|].
        unfold inS. simpl Z.sub. lia.
    + apply read_number_reads; [lia|]. unfold inS. simpl. lia.
  - apply readVarint_reads; [lia|]. unfold inS. simpl Z.sub. lia.
Qed.

(** A check that throws nothing here leaves the reader alone. *)
Lemma reads_check {A} (c : M TKafkaReadable unit) (m : M TKafkaReadable A) enc a :
  (forall pre post, let r := mkReadable (pre ++ enc ++ post) (length pre) ac lim in
                    c r = Ok (tt, r)) ->
  reads ac lim m enc a -> reads ac lim (c ;; m) enc a.
Proof. intros Hc Hm pre post. unfold mbind, M_bind. by rewrite Hc, Hm. Qed.

Lemma EnsureLengthFitsRemaining_at n kind pre (enc post : bytes) :
  0 <= n <= Z.of_nat (length enc) -> n < 2 ^ 64 ->
  let r := mkReadable (pre ++ enc ++ post) (length pre) ac lim in
  EnsureLengthFitsRemaining n kind r = Ok (tt, r).
Proof.
  intros Hn Hw r. unfold EnsureLengthFitsRemaining. cbv [mbind M_bind gets].
  unfold r at 1. rewrite left_at, wrapU_small by (unfold inU; lia).
  by rewrite (proj2 (Z.ltb_ge _ _)) by lia.
Qed.

Lemma Bytes_DoRead_reads m version v :
  match v with
  | Some v => Z.of_nat (length v) < 2 ^ 31
  | None => VersionCheck (NullableVersions m) version = true
  end ->
  reads ac lim (Bytes_DoRead m version) (enc_bytes m version v) v.
Proof.
  intros Hv. unfold Bytes_DoRead, enc_bytes. destruct v as [v|].
  - eapply reads_bind; [apply ReadArraySize_reads; lia|].
    rewrite (proj2 (Z.ltb_ge _ _)) by lia. apply reads_check.
    { intros pre post. apply EnsureLengthFitsRemaining_at; lia. }
    eapply reads_map; [|done]. apply Bytes_reads. lia.
  - rewrite <- (app_nil_r (enc_size _ _ _)).
    eapply reads_bind; [apply ReadArraySize_reads; lia|]. simpl. rewrite Hv. apply reads_ret.
Qed.

Lemma repeat_read_reads {A} (item : M TKafkaReadable A) (enc : A -> bytes) l :
  Forall (fun x => reads ac lim item (enc x) x) l ->
  reads ac lim (repeat_read (length l) item) (concat (map enc l)) l.
Proof.
  induction 1 as [|x l Hx _ IH]; simpl; [apply reads_ret|].
  eapply reads_bind; [done|]. by eapply reads_map.
Qed.

Lemma EnsureArrayAllocationFits_at n sizeof pre (enc post : bytes) :
  0 <= n <= Z.of_nat (length enc) -> n < 2 ^ 31 -> 0 < sizeof -> n <= lim / sizeof ->
  let r := mkReadable (pre ++ enc ++ post) (length pre) ac lim in
  EnsureArrayAllocationFits false n sizeof r = Ok (tt, r).
Proof.
  intros Hn Hw Hs Hl r. unfold EnsureArrayAllocationFits. cbv [mbind M_bind].
  unfold r at 1. rewrite EnsureLengthFitsRemaining_at by lia. cbv [get_st].
  rewrite (proj2 (Z.eqb_neq sizeof 0)), wrapU_small by (unfold inU; lia).
  cbn [andb MaxArrayBytes_]. by rewrite (proj2 (Z.ltb_ge _ _)) by lia.
Qed.

(** The allocation of more items than the limit holds is refused. *)
Lemma EnsureArrayAllocationFits_over n sizeof pre (enc post : bytes) :
  0 <= n <= Z.of_nat (length enc) -> n < 2 ^ 31 -> 0 < sizeof -> lim / sizeof < n ->
  EnsureArrayAllocationFits false n sizeof (mkReadable (pre ++ enc ++ post) (length pre) ac lim)
  = Fail (Throw "array").
Proof.
  intros Hn Hw Hs Hl. unfold EnsureArrayAllocationFits. cbv [mbind M_bind].
  rewrite EnsureLengthFitsRemaining_at by lia. cbv [get_st].
  rewrite (proj2 (Z.eqb_neq sizeof 0)), wrapU_small by (unfold inU; lia).
  cbn [andb MaxArrayBytes_]. by rewrite (proj2 (Z.ltb_lt _ _)) by lia.
Qed.

Lemma concat_map_length {A} (enc : A -> bytes) l :
  Forall (fun x => (1 <= length (enc x))%nat) l ->
  (length l <= length (concat (map enc l)))%nat.
Proof. induction 1; simpl; [done|]. rewrite length_app. lia. Qed.

Lemma Array_DoRead_reads {A} m sizeof (item : M TKafkaReadable A) enc version l :
  Forall (fun x => reads ac lim item (enc x) x) l ->
  Forall (fun x => (1 <= length (enc x))%nat) l ->
  Z.of_nat (length l) < 2 ^ 31 -> 0 < sizeof -> Z.of_nat (length l) <= lim / sizeof ->
  reads ac lim (Array_DoRead m sizeof item version) (enc_array m enc version l) l.
Proof.
  intros Hr Hl H31 Hs Hm. unfold Array_DoRead, enc_array.
  eapply reads_bind; [apply ReadArraySize_reads; lia|].
  rewrite (proj2 (Z.ltb_ge _ _)) by lia. pose proof (concat_map_length enc l Hl).
  apply reads_check; [intros pre post; apply EnsureArrayAllocationFits_at; lia|].
  rewrite Nat2Z.id. by apply repeat_read_reads.
Qed.

Lemma Array_DoRead_over {A} m sizeof (item : M TKafkaReadable A) (enc : A -> bytes) version l
    pre post :
  Forall (fun x => (1 <= length (enc x))%nat) l ->
  Z.of_nat (length l) < 2 ^ 31 -> 0 < sizeof -> lim / sizeof < Z.of_nat (length l) ->
  Array_DoRead m sizeof item version
    (mkReadable (pre ++ enc_array m enc version l ++ post) (length pre) ac lim)
  = Fail (Throw "array").
Proof.
  intros Hl H31 Hs Hm. unfold Array_DoRead, enc_array. cbv [mbind M_bind].
  rewrite <- app_assoc, ReadArraySize_reads by lia.
  rewrite (proj2 (Z.ltb_ge _ _)) by lia. pose proof (concat_map_length enc l Hl).
  rewrite app_assoc, <- length_app, EnsureArrayAllocationFits_over by lia. done.
Qed.

End Reads.

(** ** The strategies append and measure *)

Lemma WriteArraySize_appends m version v :
  -1 <= v < 2 ^ 31 -> appends (WriteArraySize m version v) (enc_size m version v).
Proof.
  intros Hv. unfold WriteArraySize, enc_size. destruct (SizeFormat m).
  - destruct (VersionCheck _ _); [|apply write_number_appends].
    rewrite <- (wrapU_small 32 (v + 1)) at 2 by (unfold inU; lia).
    apply writeUnsignedVarint_appends. lia.
  - apply writeVarint_appends; [lia|]. unfold inS. simpl Z.sub. lia.
Qed.

Lemma ArraySize_length m version v :
  -1 <= v < 2 ^ 31 -> ArraySize m version v = Z.of_nat (length (enc_size m version v)).
Proof.
  intros Hv. unfold ArraySize, enc_size. destruct (SizeFormat m).
  - destruct (VersionCheck _ _); [|by rewrite enc_number_length].
    rewrite SizeOfUnsignedVarint_length, wrapU_small by (unfold inU; lia). done.
  - apply SizeOfVarint_length; [lia|]. unfold inS. simpl Z.sub. lia.
Qed.

Lemma Bytes_DoWrite_appends m version v :
  match v with
  | Some v => Z.of_nat (length v) < 2 ^ 31
  | None => VersionCheck (NullableVersions m) version = true
  end ->
  appends (Bytes_DoWrite m version v) (enc_bytes m version v).
Proof.
  intros Hv. unfold Bytes_DoWrite, enc_bytes. destruct v as [v|].
  - rewrite wrapS_length by done.
    apply appends_bind; [apply WriteArraySize_appends; lia|apply write_appends].
  - rewrite Hv. apply WriteArraySize_appends. lia.
Qed.

Lemma Array_DoWrite_appends {A} m (item : A -> M TKafkaWriteBuffer unit) enc version l :
  Forall (fun x => appends (item x) (enc x)) l -> Z.of_nat (length l) < 2 ^ 31 ->
  appends (Array_DoWrite m item version l) (enc_array m enc version l).
Proof.
  intros Hi Hl. unfold Array_DoWrite, enc_array. rewrite wrapS_length by done.
  apply appends_bind; [apply WriteArraySize_appends; lia|by apply appends_for_each].
Qed.

(** ** Arbitrary input

    [safe n m]: from any position inside of the buffer, [m] returns inside of the buffer
    after at least [n] bytes, or throws. *)
Definition safe {A} (n : nat) (m : M TKafkaReadable A) : Prop :=
  forall r, (Position r <= length (Is r))%nat ->
  match m r with
  | Ok (_, r') => exists k, (n <= k)%nat /\ r' = advance k r
                            /\ (Position r' <= length (Is r'))%nat
  | Fail (Throw _) => True
  | Fail _ => False
  end.

Lemma advance_advance j k r : advance k (advance j r) = advance (j + k) r.
Proof. unfold advance. cbn [Is Position AllowCompressed_ MaxArrayBytes_]. f_equal. lia. Qed.

Lemma safe_stay {A} (m : M TKafkaReadable A) :
  (forall r, match m r with Ok (_, r') => r' = r | Fail (Throw _) => True | Fail _ => False end) ->
  safe 0 m.
Proof.
  intros Hm r Hr. specialize (Hm r). destruct (m r) as [[a r']|[]]; try done. subst r'.
  exists 0%nat. split_and!; [done| |done]. destruct r. unfold advance. cbn. f_equal. lia.
Qed.

Lemma safe_ret {A} (a : A) : safe 0 (mret a).
Proof. by apply safe_stay. Qed.

Lemma safe_throw {A} msg n : safe n (throw msg : M TKafkaReadable A).
Proof. done. Qed.

Lemma safe_bind {A B} i j (m : M TKafkaReadable A) (f : A -> M TKafkaReadable B) :
  safe i m -> (forall a, safe j (f a)) -> safe (i + j) (m ≫= f).
Proof.
  intros Hm Hf r Hr. unfold mbind, M_bind. specialize (Hm r Hr).
  destruct (m r) as [[a r1]|[]]; try done. destruct Hm as (k1 & Hk1 & -> & Hr1).
  specialize (Hf a _ Hr1). destruct (f a _) as [[b r2]|[]]; try done.
  destruct Hf as (k2 & Hk2 & -> & Hr2). exists (k1 + k2)%nat.
  split_and!; [lia|by rewrite advance_advance|done].
Qed.

Lemma safe_weaken {A} i j (m : M TKafkaReadable A) : (j <= i)%nat -> safe i m -> safe j m.
Proof.
  intros Hij Hm r Hr. specialize (Hm r Hr). destruct (m r) as [[a r1]|[]]; try done.
  destruct Hm as (k & Hk & ? & ?). exists k. split_and!; [lia|done..].
Qed.

Lemma safe_bind0 {A B} n (m : M TKafkaReadable A) (f : A -> M TKafkaReadable B) :
  safe 0 m -> (forall a, safe n (f a)) -> safe n (m ≫= f).
Proof. apply (safe_bind 0 n). Qed.

Lemma safe_bind1 {A B} n (m : M TKafkaReadable A) (f : A -> M TKafkaReadable B) :
  safe n m -> (forall a, safe 0 (f a)) -> safe n (m ≫= f).
Proof. intros ??. rewrite <- (Nat.add_0_r n). by apply (safe_bind n 0). Qed.

Lemma safe_if {A} n (b : bool) (m1 m2 : M TKafkaReadable A) :
  safe n m1 -> safe n m2 -> safe n (if b then m1 else m2).
Proof. by destruct b. Qed.

Lemma safe_gets {A} (f : TKafkaReadable -> A) : safe 0 (gets f).
Proof. by apply safe_stay. Qed.

Lemma safe_get_st : safe 0 get_st.
Proof. by apply safe_stay. Qed.

Lemma safe_Bytes n : safe n (Bytes n).
Proof.
  intros r Hr. unfold Bytes, checkEof, slice.
  cbv [mbind M_bind mret M_ret get_st gets modify throw undefined].
  destruct (readable_left r <? n)%nat eqn:E; [done|].
  assert (Position r + n <= length (Is r))%nat as Hn.
  { revert E. unfold readable_left. destruct (_ <? length _)%nat eqn:E'; intros; nat_to_prop; lia. }
  rewrite (proj2 (Nat.leb_le _ _)) by done. exists n. by split_and!.
Qed.

Lemma safe_read n : safe n (read n).
Proof. apply safe_Bytes. Qed.

Lemma safe_take shift : safe 0 (take_ shift).
Proof.
  apply safe_stay. intros r. unfold take_, slice.
  cbv [mbind M_bind mret M_ret get_st throw undefined].
  destruct (readable_left r <=? shift)%nat eqn:E; [done|].
  assert (Position r + shift + 1 <= length (Is r))%nat as Hn.
  { revert E. unfold readable_left. destruct (_ <? length _)%nat eqn:E'; intros; nat_to_prop; lia. }
  by rewrite (proj2 (Nat.leb_le _ _)) by done.
Qed.

Lemma safe_read_number w : safe w (read_number w).
Proof. apply safe_bind1; [apply safe_read|intros; apply safe_ret]. Qed.

Create HintDb kafka.

#[export] Hint Resolve safe_ret safe_throw safe_if safe_gets safe_get_st safe_Bytes
  safe_read safe_take safe_read_number : kafka.

Lemma safe_get : safe 1 get.
Proof. apply safe_bind1; auto with kafka. Qed.

#[export] Hint Resolve safe_get : kafka.

(** The loop of a varint ends: its shift passes [MaxLength] before the fuel is used. *)
Lemma safe_varint_loop fuel w value i :
  MaxLength w <= i + 7 * Z.of_nat fuel ->
  safe 1 (readUnsignedVarint_loop (S fuel) w value i).
Proof.
  revert value i. induction fuel as [|fuel IH]; intros value i Hf.
  all: apply (safe_bind 1 0); [apply safe_get|intros b].
  all: apply safe_if; [apply safe_ret|].
  all: destruct (MaxLength w <=? i) eqn:E; [apply safe_throw|bool_to_prop].
  - lia.
  - apply (safe_weaken 1); [lia|]. apply IH. lia.
Qed.

Lemma safe_readUnsignedVarint w : 1 <= w -> safe 1 (readUnsignedVarint w).
Proof.
  intros Hw. pose proof (varint_fuel_enough w ltac:(lia)). unfold readUnsignedVarint.
  assert (varint_fuel w = S (pred (varint_fuel w))) as -> by lia.
  apply safe_varint_loop. unfold MaxLength. pose proof (Z.div_mod (w - 1) 7 ltac:(lia)).
  pose proof (Z.mod_pos_bound (w - 1) 7 ltac:(lia)). lia.
Qed.

Lemma safe_readVarint w : 1 <= w -> safe 1 (readVarint w).
Proof. intros. apply safe_bind1; [by apply safe_readUnsignedVarint|auto with kafka]. Qed.

Lemma safe_ReadArraySize m version : safe 1 (ReadArraySize m version).
Proof.
  unfold ReadArraySize. destruct (SizeFormat m); [|by apply safe_readVarint].
  apply safe_if; [|apply (safe_weaken 4); auto with kafka].
  apply safe_bind1; [by apply safe_readUnsignedVarint|auto with kafka].
Qed.

Lemma safe_EnsureLength n kind : safe 0 (EnsureLengthFitsRemaining n kind).
Proof. apply safe_bind0; auto with kafka. Qed.

#[export] Hint Resolve safe_readVarint safe_ReadArraySize safe_EnsureLength : kafka.

Lemma safe_EnsureArray fixed n sizeof : safe 0 (EnsureArrayAllocationFits fixed n sizeof).
Proof. apply safe_bind0; [auto with kafka|intros _]. apply safe_bind0; auto with kafka. Qed.

Lemma safe_any {A} n (m : M TKafkaReadable A) : safe n m -> safe 0 m.
Proof. apply safe_weaken. lia. Qed.

Lemma safe_Bytes_DoRead m version : safe 1 (Bytes_DoRead m version).
Proof.
  apply safe_bind1; [auto with kafka|intros n]. apply safe_if; [auto with kafka|].
  apply safe_bind0; [auto with kafka|intros _].
  apply safe_bind0; [eapply safe_any|]; auto with kafka.
Qed.

Lemma safe_repeat_read {A} n (item : M TKafkaReadable A) :
  safe 0 item -> safe 0 (repeat_read n item).
Proof.
  intros Hi. induction n; simpl; [apply safe_ret|].
  apply safe_bind0; [done|intros x]. apply safe_bind0; auto with kafka.
Qed.

Lemma safe_Array_DoRead {A} m sizeof (item : M TKafkaReadable A) version :
  safe 0 item -> safe 1 (Array_DoRead m sizeof item version).
Proof.
  intros Hi. apply safe_bind1; [auto with kafka|intros n]. apply safe_if; [auto with kafka|].
  apply safe_bind0; [apply safe_EnsureArray|intros _]. by apply safe_repeat_read.
Qed.

Lemma safe_Read_field {A} m version (d : A) (doRead : M TKafkaReadable A) :
  safe 0 doRead -> safe 0 (Read_field m version d doRead).
Proof. intros. unfold Read_field. auto with kafka. Qed.

#[export] Hint Resolve safe_EnsureArray safe_Bytes_DoRead safe_repeat_read
  safe_Array_DoRead safe_Read_field : kafka.
