(* ===== verification/KafkaRecords.v ===== *)
(** * Kafka record batches and the batch codec of topics

    Models src/src/library/kafka/kafka_records.h/.cpp and the Kafka part of
    src/src/client/topic/codecs/codecs.cpp: records and record batches of format 2, the
    header of a batch, the legacy formats 0 and 1, and [TKafkaBatchCodec], which packs the
    messages of a block into one batch and unpacks it.

    The streams of zlib and zstd are the parameters [compress] and [decompress] ([None]:
    the stream throws), the sizes of two structures are parameters as well.  A view of
    bytes ([TKafkaBytes], and the storage that [OwnPayload] and [SetKey] copy it to) is
    the bytes themselves. *)

From S2P Require Import Prelude KafkaWire.
From Stdlib Require Import Ascii.

(** ** Messages *)

Record TKafkaHeader := mkKHeader { kh_Key : option bytes; kh_Value : option bytes }.

Record TKafkaRecord := mkRecord {
  kr_Length : Z;
  kr_Attributes : Z;
  kr_TimestampDelta : Z;
  kr_OffsetDelta : Z;
  kr_Key : option bytes;
  kr_Value : option bytes;
  kr_Headers : list TKafkaHeader;
}.

(** What a batch and a [TKafkaBatchHeader] share. *)
Record TBatchFields := mkFields {
  BaseOffset : Z;
  BatchLength : Z;
  PartitionLeaderEpoch : Z;
  Magic : Z;
  Crc : Z;
  Attributes : Z;
  LastOffsetDelta : Z;
  BaseTimestamp : Z;
  MaxTimestamp : Z;
  ProducerId : Z;
  ProducerEpoch : Z;
  BaseSequence : Z;
}.

Record TKafkaRecordBatch := mkBatch { batch_fields : TBatchFields; Records : list TKafkaRecord }.

Record TKafkaBatchHeader := mkBatchHeader { header_fields : TBatchFields; RecordsCount : Z }.

(** The constructors. *)
Definition default_record : TKafkaRecord := mkRecord 0 0 0 0 None None [].

Definition default_fields : TBatchFields := mkFields 0 0 (-1) 2 0 0 0 (-1) (-1) (-1) (-1) (-1).

Definition default_batch : TKafkaRecordBatch := mkBatch default_fields [].

Definition default_header : TKafkaBatchHeader := mkBatchHeader default_fields 0.

Record TKafkaRecordV0 := mkRecordV0 {
  v0_MessageSize : Z;
  v0_Crc : Z;
  v0_Magic : Z;
  v0_Attributes : Z;
  v0_Timestamp : Z;
  v0_Key : option bytes;
  v0_Value : option bytes;
}.

Record TKafkaRecordBatchV0 := mkBatchV0 { v0_Offset : Z; v0_Record : TKafkaRecordV0 }.

(** Meta data: fixed integers, varints and byte fields of the messages. *)
Definition IntMeta : Meta :=
  mkMeta SizeDefault VersionsAlways VersionsNever VersionsNever VersionsNever.

Definition VarintMeta : Meta :=
  mkMeta SizeDefault VersionsAlways VersionsNever VersionsNever VersionsAlways.

Definition KeyMeta : Meta :=
  mkMeta SizeVarint VersionsAlways VersionsNever VersionsAlways VersionsAlways.

Definition HeaderValueMeta : Meta :=
  mkMeta SizeVarint VersionsAlways VersionsNever VersionsNever VersionsAlways.

Definition HeadersMeta : Meta :=
  mkMeta SizeVarint VersionsAlways VersionsNever VersionsAlways VersionsAlways.

Definition RecordsMeta : Meta :=
  mkMeta SizeDefault VersionsAlways VersionsNever VersionsNever VersionsNever.

Definition TimestampV0Meta : Meta :=
  mkMeta SizeDefault (mkVersions 1 32767) VersionsNever VersionsNever VersionsAlways.

Definition KeyV0Meta : Meta :=
  mkMeta SizeDefault VersionsAlways VersionsNever VersionsAlways VersionsNever.

Definition ValueV0Meta : Meta :=
  mkMeta SizeDefault VersionsAlways VersionsNever VersionsNever VersionsNever.

(** ** Checks and checksums *)

(** [ECompressionType]: NONE, GZIP and ZSTD are supported, SNAPPY and LZ4 are not. *)
Definition NONE : Z := 0.

Definition GZIP : Z := 1.

Definition ZSTD : Z := 4.

Definition EnsureSupportedCompressionType {S} (t : Z) : M S unit :=
  if (t =? NONE) || (t =? GZIP) || (t =? ZSTD) then mret tt
  else throw "unsupported Kafka record batch compression type".

Definition EnsureValidRecordBatchRecordsCount {S} (recordsCount : Z) : M S unit :=
  if recordsCount <? 0 then throw "non-nullable field records was serialized as null"
  else mret tt.

Definition CompressionType (f : TBatchFields) : Z := Z.land (Attributes f) 7.

Definition polynomial : Z := 2197175160.

Definition crc_shift (crc : Z) : Z :=
  Z.lxor (Z.shiftr crc 1) (Z.land polynomial (wrapU 32 (0 - Z.land crc 1))).

(** The loop over the eight bits of an entry of the table. *)
Definition crc_entry (i : Z) : Z := Nat.iter 8 crc_shift i.

Definition MakeCrc32cTable : list Z := map (fun i => crc_entry (Z.of_nat i)) (seq 0 256).

Definition Crc32c_loop (table : list Z) (data : bytes) (crc : Z) : Z :=
  fold_left (fun crc b =>
    Z.lxor (nth (Z.to_nat (Z.land (Z.lxor crc (byte_val b)) 255)) table 0)
           (Z.shiftr crc 8)) data crc.

Definition Crc32c (data : bytes) : Z :=
  wrapU 32 (Z.lnot (Crc32c_loop MakeCrc32cTable data (2 ^ 32 - 1))).

(** [data[offset + i] = ...] for the four bytes, which must be inside of the string. *)
Definition WriteKafkaInt32 (data : bytes) (offset : nat) (value : Z) : bytes :=
  let v := wrapU 32 value in
  <[(offset + 3)%nat := val_byte v]>
    (<[(offset + 2)%nat := val_byte (Z.shiftr v 8)]>
      (<[(offset + 1)%nat := val_byte (Z.shiftr v 16)]>
        (<[offset := val_byte (Z.shiftr v 24)]> data))).

Definition RecordBatchLengthOffset : nat := 8.

Definition RecordBatchCrcOffset : nat := 8 + 4 + 4 + 1.

Definition RecordBatchCrcBodyOffset : nat := RecordBatchCrcOffset + 4.

Definition WriteBufferChunkSize : Z := 2 ^ 16.

(** A value computed with a state of its own, inside of another computation. *)
Definition on_state {S T A} (s : T) (m : M T A) : M S A := fun r =>
  match m s with Ok (a, _) => Ok (a, r) | Fail f => Fail f end.

(** [if (!VersionCheck<MessageMeta::PresentVersions...>(version)) throw]. *)
Definition ensure_version {S} (v : TKafkaVersions) (version : Z) : M S unit :=
  if VersionCheck v version then mret tt else throw "unsupported version".

(** Signed 64-bit arithmetic, undefined on overflow. *)
Definition i64 {S} (z : Z) : M S Z :=
  if (- 2 ^ 63 <=? z) && (z <? 2 ^ 63) then mret z else undefined "signed overflow".

(** ** TKafkaHeader *)

Definition TKafkaHeader_Read (version : Z) : M TKafkaReadable TKafkaHeader :=
  ensure_version VersionsAlways version ;;
  k ← Read_field KeyMeta version None (Bytes_DoRead KeyMeta version);
  v ← Read_field HeaderValueMeta version None (Bytes_DoRead HeaderValueMeta version);
  mret (mkKHeader k v).

Definition TKafkaHeader_Write (version : Z) (h : TKafkaHeader) : M TKafkaWriteBuffer unit :=
  ensure_version VersionsAlways version ;;
  Write_field KeyMeta version (Bytes_DoWrite KeyMeta version (kh_Key h)) ;;
  Write_field HeaderValueMeta version (Bytes_DoWrite HeaderValueMeta version (kh_Value h)).

(** [Size] returns the [ui32] of the collector as an [i32]. *)
Definition TKafkaHeader_Size (version : Z) (h : TKafkaHeader) : Z :=
  wrapS 32
    (Size_field HeaderValueMeta version (Bytes_DoSize HeaderValueMeta version (kh_Value h))
    (Size_field KeyMeta version (Bytes_DoSize KeyMeta version (kh_Key h)) 0)).

(** ** TKafkaRecord *)

Definition RecordVersions : TKafkaVersions := mkVersions 2 2.

Definition TKafkaRecord_Write (version : Z) (r : TKafkaRecord) : M TKafkaWriteBuffer unit :=
  ensure_version RecordVersions version ;;
  Write_field VarintMeta version (Varint_DoWrite VarintMeta 4 version (kr_Length r)) ;;
  Write_field VarintMeta version (Int_DoWrite 1 (kr_Attributes r)) ;;
  Write_field VarintMeta version (Varint_DoWrite VarintMeta 8 version (kr_TimestampDelta r)) ;;
  Write_field VarintMeta version (Varint_DoWrite VarintMeta 8 version (kr_OffsetDelta r)) ;;
  Write_field KeyMeta version (Bytes_DoWrite KeyMeta version (kr_Key r)) ;;
  Write_field KeyMeta version (Bytes_DoWrite KeyMeta version (kr_Value r)) ;;
  Write_field HeadersMeta version
    (Array_DoWrite HeadersMeta (TKafkaHeader_Write version) version (kr_Headers r)).

Definition TKafkaRecord_Size (version : Z) (r : TKafkaRecord) : Z :=
  wrapS 32
    (Size_field HeadersMeta version
       (Array_DoSize HeadersMeta (TKafkaHeader_Size version) version (kr_Headers r))
    (Size_field KeyMeta version (Bytes_DoSize KeyMeta version (kr_Value r))
    (Size_field KeyMeta version (Bytes_DoSize KeyMeta version (kr_Key r))
    (Size_field VarintMeta version (Varint_DoSize VarintMeta 8 version (kr_OffsetDelta r))
    (Size_field VarintMeta version (Varint_DoSize VarintMeta 8 version (kr_TimestampDelta r))
    (Size_field VarintMeta version (Int_DoSize 1)
    (Size_field VarintMeta version (Varint_DoSize VarintMeta 4 version (kr_Length r)) 0))))))).

Section Batches.
Context (sizeof_TKafkaRecord sizeof_TKafkaHeader : Z).
Context (compress : Z -> bytes -> bytes) (decompress : Z -> bytes -> option bytes).

Definition TKafkaRecord_Read (version : Z) : M TKafkaReadable TKafkaRecord :=
  ensure_version RecordVersions version ;;
  len ← Read_field VarintMeta version 0 (Varint_DoRead VarintMeta 4 version);
  attributes ← Read_field VarintMeta version 0 (Int_DoRead 1);
  timestampDelta ← Read_field VarintMeta version 0 (Varint_DoRead VarintMeta 8 version);
  offsetDelta ← Read_field VarintMeta version 0 (Varint_DoRead VarintMeta 8 version);
  key ← Read_field KeyMeta version None (Bytes_DoRead KeyMeta version);
  value ← Read_field KeyMeta version None (Bytes_DoRead KeyMeta version);
  headers ← Read_field HeadersMeta version []
    (Array_DoRead HeadersMeta sizeof_TKafkaHeader (TKafkaHeader_Read version) version);
  mret (mkRecord len attributes timestampDelta offsetDelta key value headers).

(** ** Compression of the records of a batch *)

Definition DecompressRecordBatchPayload {S} (data : bytes) (t : Z) : M S bytes :=
  EnsureSupportedCompressionType t ;;
  if t =? NONE then mret data
  else if (t =? GZIP) || (t =? ZSTD) then
    match decompress t data with
    | Some v => mret v
    | None => throw "decompression"
    end
  else throw "unsupported Kafka record batch compression type".

Definition CompressRecordBatchPayload {S} (data : bytes) (t : Z) : M S bytes :=
  EnsureSupportedCompressionType t ;;
  if t =? NONE then mret data
  else if (t =? GZIP) || (t =? ZSTD) then mret (compress t data)
  else throw "unsupported Kafka record batch compression type".

Definition SerializeRecordBatchRecords {S} (records : list TKafkaRecord) (version : Z)
  (includeArraySize : bool) : M S bytes :=
  on_state (new_buffer WriteBufferChunkSize)
    ((if includeArraySize then
        Write_field RecordsMeta version
          (Array_DoWrite RecordsMeta (TKafkaRecord_Write version) version records)
      else for_each (TKafkaRecord_Write version) records) ;;
     gets AsString).

(** ** TKafkaRecordBatch *)

Definition TakeRecordBatchBody (batchLength : Z) : M TKafkaReadable bytes :=
  if batchLength <? 0 then throw "invalid Kafka record batch length"
  else
    EnsureLengthFitsRemaining batchLength "records" ;;
    Bytes (Z.to_nat batchLength).

Definition read_int (w : nat) (version default : Z) : M TKafkaReadable Z :=
  Read_field IntMeta version default (Int_DoRead w).

(** The integers of a batch after [BatchLength]; [check] looks at [Magic], [check'] at
    [Attributes] once they are read. *)
Definition read_fields (version baseOffset batchLength : Z)
  (check check' : Z -> M TKafkaReadable unit) : M TKafkaReadable TBatchFields :=
  partitionLeaderEpoch ← read_int 4 version (-1);
  magic ← read_int 1 version 2;
  check magic ;;
  crc ← read_int 4 version 0;
  attributes ← read_int 2 version 0;
  check' attributes ;;
  lastOffsetDelta ← read_int 4 version 0;
  baseTimestamp ← read_int 8 version (-1);
  maxTimestamp ← read_int 8 version (-1);
  producerId ← read_int 8 version (-1);
  producerEpoch ← read_int 2 version (-1);
  baseSequence ← read_int 4 version (-1);
  mret (mkFields baseOffset batchLength partitionLeaderEpoch magic crc attributes
          lastOffsetDelta baseTimestamp maxTimestamp producerId producerEpoch baseSequence).

Definition check_magic (magic : Z) : M TKafkaReadable unit :=
  if magic =? 2 then mret tt else throw "Supported only RecordBatch version 2".

Definition check_compression (attributes : Z) : M TKafkaReadable unit :=
  let t := Z.land attributes 7 in
  body ← get_st;
  if negb (t =? NONE) && negb (AllowCompressed_ body)
  then throw "Supported only CompressionType::NONE"
  else EnsureSupportedCompressionType t.

(** The records of a body: an array, or its size followed by the compressed records. *)
Definition read_records (version : Z) (t : Z) : M TKafkaReadable (list TKafkaRecord) :=
  if t =? NONE then
    Read_field RecordsMeta version []
      (Array_DoRead RecordsMeta sizeof_TKafkaRecord (TKafkaRecord_Read version) version)
  else
    recordsCount ← ReadArraySize RecordsMeta version;
    EnsureValidRecordBatchRecordsCount recordsCount ;;
    left ← gets readable_left;
    compressed ← Bytes left;
    decompressed ← DecompressRecordBatchPayload compressed t;
    body ← get_st;
    on_state (readable_from decompressed body)
      (EnsureArrayAllocationFits false recordsCount sizeof_TKafkaRecord ;;
       repeat_read (Z.to_nat recordsCount) (TKafkaRecord_Read version)).

Definition TKafkaRecordBatch_Read (version : Z) : M TKafkaReadable TKafkaRecordBatch :=
  ensure_version RecordVersions version ;;
  baseOffset ← read_int 8 version 0;
  batchLength ← read_int 4 version 0;
  bodyBuffer ← TakeRecordBatchBody batchLength;
  readable ← get_st;
  on_state (readable_from bodyBuffer readable)
    (fields ← read_fields version baseOffset batchLength check_magic check_compression;
     records ← read_records version (CompressionType fields);
     mret (mkBatch fields records)).

Definition write_int (w : nat) (version value : Z) : M TKafkaWriteBuffer unit :=
  Write_field IntMeta version (Int_DoWrite w value).

Definition write_fields (version : Z) (f : TBatchFields) : M TKafkaWriteBuffer unit :=
  write_int 8 version (BaseOffset f) ;;
  write_int 4 version (BatchLength f) ;;
  write_int 4 version (PartitionLeaderEpoch f) ;;
  write_int 1 version (Magic f) ;;
  write_int 4 version (Crc f) ;;
  write_int 2 version (Attributes f) ;;
  write_int 4 version (LastOffsetDelta f) ;;
  write_int 8 version (BaseTimestamp f) ;;
  write_int 8 version (MaxTimestamp f) ;;
  write_int 8 version (ProducerId f) ;;
  write_int 2 version (ProducerEpoch f) ;;
  write_int 4 version (BaseSequence f).

Definition TKafkaRecordBatch_Write (version : Z) (b : TKafkaRecordBatch)
  : M TKafkaWriteBuffer unit :=
  let t := CompressionType (batch_fields b) in
  ensure_version RecordVersions version ;;
  EnsureSupportedCompressionType t ;;
  write_fields version (batch_fields b) ;;
  if t =? NONE then
    Write_field RecordsMeta version
      (Array_DoWrite RecordsMeta (TKafkaRecord_Write version) version (Records b))
  else
    serialized ← SerializeRecordBatchRecords (Records b) version false;
    packedRecords ← CompressRecordBatchPayload serialized t;
    WriteArraySize RecordsMeta version (wrapS 32 (Z.of_nat (length (Records b)))) ;;
    write packedRecords.

Definition size_int (w : nat) (version collector : Z) : Z :=
  Size_field IntMeta version (Int_DoSize w) collector.

(** The widths of the twelve fields, in their order. *)
Definition size_fields (version : Z) : Z :=
  fold_left (fun c w => size_int w version c) [8; 4; 4; 1; 4; 2; 4; 8; 8; 8; 2; 4]%nat 0.

Definition TKafkaRecordBatch_Size {S} (version : Z) (b : TKafkaRecordBatch) : M S Z :=
  let t := CompressionType (batch_fields b) in
  EnsureSupportedCompressionType t ;;
  let collector := size_fields version in
  if t =? NONE then
    mret (wrapS 32 (Size_field RecordsMeta version
      (Array_DoSize RecordsMeta (TKafkaRecord_Size version) version (Records b)) collector))
  else
    serialized ← SerializeRecordBatchRecords (Records b) version false;
    packedRecords ← CompressRecordBatchPayload serialized t;
    mret (wrapS 32 (wrapU 32 (collector
      + (ArraySize RecordsMeta version (wrapS 32 (Z.of_nat (length (Records b))))
         + Z.of_nat (length packedRecords))))).

(** ** TKafkaBatchHeader *)

Definition no_check (_ : Z) : M TKafkaReadable unit := mret tt.

Definition TKafkaBatchHeader_Read (version : Z) : M TKafkaReadable TKafkaBatchHeader :=
  ensure_version RecordVersions version ;;
  baseOffset ← read_int 8 version 0;
  batchLength ← read_int 4 version 0;
  bodyBuffer ← TakeRecordBatchBody batchLength;
  readable ← get_st;
  on_state (readable_from bodyBuffer readable)
    (fields ← read_fields version baseOffset batchLength no_check no_check;
     recordsCount ← read_int 4 version 0;
     EnsureValidRecordBatchRecordsCount recordsCount ;;
     mret (mkBatchHeader fields recordsCount)).

Definition TKafkaBatchHeader_Write (version : Z) (h : TKafkaBatchHeader)
  : M TKafkaWriteBuffer unit :=
  ensure_version RecordVersions version ;;
  write_fields version (header_fields h) ;;
  write_int 4 version (RecordsCount h).

Definition TKafkaBatchHeader_Size (version : Z) : Z :=
  wrapS 32 (size_int 4 version (size_fields version)).

(** ** The legacy formats 0 and 1 *)

Definition LegacyVersions : TKafkaVersions := mkVersions 0 1.

Definition TKafkaRecordV0_Read (version : Z) : M TKafkaReadable TKafkaRecordV0 :=
  ensure_version LegacyVersions version ;;
  messageSize ← Read_field VarintMeta version 0 (Int_DoRead 4);
  crc ← Read_field VarintMeta version 0 (Int_DoRead 4);
  magic ← Read_field VarintMeta version 0 (Int_DoRead 1);
  attributes ← Read_field VarintMeta version 0 (Int_DoRead 1);
  timestamp ← Read_field TimestampV0Meta version 0 (Int_DoRead 8);
  key ← Read_field KeyV0Meta version None (Bytes_DoRead KeyV0Meta version);
  value ← Read_field ValueV0Meta version None (Bytes_DoRead ValueV0Meta version);
  mret (mkRecordV0 messageSize crc magic attributes timestamp key value).

Definition TKafkaRecordBatchV0_Read (version : Z) : M TKafkaReadable TKafkaRecordBatchV0 :=
  ensure_version LegacyVersions version ;;
  offset ← read_int 8 version 0;
  record ← TKafkaRecordV0_Read version;
  mret (mkBatchV0 offset record).

Definition TKafkaRecordV0_Write (version : Z) (r : TKafkaRecordV0) : M TKafkaWriteBuffer unit :=
  ensure_version LegacyVersions version ;;
  Write_field VarintMeta version (Int_DoWrite 4 (v0_MessageSize r)) ;;
  Write_field VarintMeta version (Int_DoWrite 4 (v0_Crc r)) ;;
  Write_field VarintMeta version (Int_DoWrite 1 (v0_Magic r)) ;;
  Write_field VarintMeta version (Int_DoWrite 1 (v0_Attributes r)) ;;
  Write_field TimestampV0Meta version (Int_DoWrite 8 (v0_Timestamp r)) ;;
  Write_field KeyV0Meta version (Bytes_DoWrite KeyV0Meta version (v0_Key r)) ;;
  Write_field ValueV0Meta version (Bytes_DoWrite ValueV0Meta version (v0_Value r)).

Definition TKafkaRecordV0_Size (version : Z) (r : TKafkaRecordV0) : Z :=
  wrapS 32
    (Size_field ValueV0Meta version (Bytes_DoSize ValueV0Meta version (v0_Value r))
    (Size_field KeyV0Meta version (Bytes_DoSize KeyV0Meta version (v0_Key r))
    (Size_field TimestampV0Meta version (Int_DoSize 8)
    (Size_field VarintMeta version (Int_DoSize 1)
    (Size_field VarintMeta version (Int_DoSize 1)
    (Size_field VarintMeta version (Int_DoSize 4)
    (Size_field VarintMeta version (Int_DoSize 4) 0))))))).

Definition TKafkaRecordBatchV0_Write (version : Z) (e : TKafkaRecordBatchV0)
  : M TKafkaWriteBuffer unit :=
  ensure_version LegacyVersions version ;;
  write_int 8 version (v0_Offset e) ;;
  Write_field IntMeta version (TKafkaRecordV0_Write version (v0_Record e)).

Definition TKafkaRecordBatchV0_Size (version : Z) (e : TKafkaRecordBatchV0) : Z :=
  wrapS 32 (Size_field IntMeta version (TKafkaRecordV0_Size version (v0_Record e))
             (size_int 8 version 0)).

(** The loop reads at least one byte per entry, so the bytes that are left bound it. *)
Fixpoint ReadLegacyRecordEntries_loop (fuel : nat) (magic : Z)
  : M TKafkaReadable (list TKafkaRecordBatchV0) :=
  left ← gets readable_left;
  if (0 <? left)%nat then
    match fuel with
    | O => undefined "ReadLegacyRecordEntries does not return"
    | S fuel =>
        entryMagic ← take_ 16;
        if negb (entryMagic =? magic) then throw "compressed Kafka legacy record magic"
        else
          entry ← TKafkaRecordBatchV0_Read magic;
          entries ← ReadLegacyRecordEntries_loop fuel magic;
          mret (entry :: entries)
    end
  else mret [].

Definition ReadLegacyRecordEntries (buffer : bytes) (magic : Z)
  : M TKafkaReadable (list TKafkaRecordBatchV0) :=
  limitsFrom ← get_st;
  on_state (readable_from buffer limitsFrom)
    (ReadLegacyRecordEntries_loop (length buffer) magic).

(** The two consumers of legacy entries as a record of operations on their state. *)
Record TConsumer (C : Type) := mkConsumer {
  OnUncompressed : C -> TKafkaRecordBatchV0 -> M TKafkaReadable C;
  OnCompressed : C -> TKafkaRecordBatchV0 -> Z -> list TKafkaRecordBatchV0 -> M TKafkaReadable C;
}.

Definition LegacyCompressionType (r : TKafkaRecordV0) : Z := Z.land (v0_Attributes r) 7.

Fixpoint ForEachLegacyRecordBatch {C} (fuel : nat) (magic : Z) (allowCompressed : bool)
  (consumer : TConsumer C) (c : C) : M TKafkaReadable C :=
  left ← gets readable_left;
  if (0 <? left)%nat then
    match fuel with
    | O => undefined "ForEachLegacyRecordBatch does not return"
    | S fuel =>
        entryMagic ← take_ 16;
        if negb (entryMagic =? magic) then throw "Kafka legacy record magic"
        else
          entry ← TKafkaRecordBatchV0_Read magic;
          let t := LegacyCompressionType (v0_Record entry) in
          if t =? NONE then
            c ← OnUncompressed _ consumer c entry;
            ForEachLegacyRecordBatch fuel magic allowCompressed consumer c
          else if negb allowCompressed then throw "Supported only CompressionType::NONE"
          else
            EnsureSupportedCompressionType t ;;
            match v0_Value (v0_Record entry) with
            | None => throw "compressed Kafka legacy record has null value"
            | Some value =>
                decompressed ← DecompressRecordBatchPayload value t;
                innerEntries ← ReadLegacyRecordEntries decompressed magic;
                c ← OnCompressed _ consumer c entry t innerEntries;
                ForEachLegacyRecordBatch fuel magic allowCompressed consumer c
            end
    end
  else mret c.

Definition AppendLegacyRecord (batch : TKafkaRecordBatch) (entry : TKafkaRecordBatchV0)
  (offset : Z) (timestamp : option Z) : TKafkaRecordBatch :=
  let r := v0_Record entry in
  mkBatch (batch_fields batch)
    (Records batch ++
     [mkRecord (v0_MessageSize r) 0 (default (v0_Timestamp r) timestamp) offset
        (v0_Key r) (v0_Value r) []]).

Fixpoint AppendLegacyRecords_loop (batch : TKafkaRecordBatch)
  (entries : list TKafkaRecordBatchV0) (magic absoluteBaseOffset : Z)
  (wrapperTimestamp : option Z) : M TKafkaReadable TKafkaRecordBatch :=
  match entries with
  | [] => mret batch
  | entry :: entries =>
      offset ← (if magic =? 1 then i64 (absoluteBaseOffset + v0_Offset entry)
                else mret (v0_Offset entry));
      AppendLegacyRecords_loop (AppendLegacyRecord batch entry offset wrapperTimestamp)
        entries magic absoluteBaseOffset wrapperTimestamp
  end.

(** [entries.back()] is undefined on an empty vector. *)
Definition back_offset (entries : list TKafkaRecordBatchV0) : M TKafkaReadable Z :=
  match last entries with
  | Some e => mret (v0_Offset e)
  | None => undefined "back of an empty vector"
  end.

Definition absolute_base (magic wrapperOffset : Z) (entries : list TKafkaRecordBatchV0)
  : M TKafkaReadable Z :=
  if magic =? 1 then
    if wrapperOffset =? 0 then mret 0
    else b ← back_offset entries; i64 (wrapperOffset - b)
  else mret 0.

Definition AppendLegacyRecords (batch : TKafkaRecordBatch)
  (entries : list TKafkaRecordBatchV0) (magic wrapperOffset : Z)
  (wrapperTimestamp : option Z) : M TKafkaReadable TKafkaRecordBatch :=
  match entries with
  | [] => mret batch
  | _ =>
      absoluteBaseOffset ← absolute_base magic wrapperOffset entries;
      AppendLegacyRecords_loop batch entries magic absoluteBaseOffset wrapperTimestamp
  end.

Definition set_Attributes (a : Z) (f : TBatchFields) : TBatchFields :=
  mkFields (BaseOffset f) (BatchLength f) (PartitionLeaderEpoch f) (Magic f) (Crc f) a
    (LastOffsetDelta f) (BaseTimestamp f) (MaxTimestamp f) (ProducerId f)
    (ProducerEpoch f) (BaseSequence f).

Definition wrapper_timestamp (magic : Z) (entry : TKafkaRecordBatchV0) : option Z :=
  if magic =? 1 then Some (v0_Timestamp (v0_Record entry)) else None.

Definition TLegacyBatchConsumer (magic : Z) : TConsumer TKafkaRecordBatch :=
  mkConsumer _
    (fun batch entry => mret (AppendLegacyRecord batch entry (v0_Offset entry) None))
    (fun batch entry t innerEntries =>
       AppendLegacyRecords
         (mkBatch (set_Attributes t (batch_fields batch)) (Records batch))
         innerEntries magic (v0_Offset entry) (wrapper_timestamp magic entry)).

(** [++Header.RecordsCount] is undefined when the [i32] overflows. *)
Definition AppendHeaderRecord (magic : Z) (h : TKafkaBatchHeader) (offset timestamp : Z)
  : M TKafkaReadable TKafkaBatchHeader :=
  let f := header_fields h in
  f' ← (if RecordsCount h =? 0 then
          mret (mkFields offset (BatchLength f) (PartitionLeaderEpoch f) (Magic f) (Crc f)
                  (Attributes f) 0
                  (if 1 <=? magic then timestamp else BaseTimestamp f)
                  (if 1 <=? magic then timestamp else MaxTimestamp f)
                  (ProducerId f) (ProducerEpoch f) (BaseSequence f))
        else
          d ← i64 (offset - BaseOffset f);
          mret (mkFields (BaseOffset f) (BatchLength f) (PartitionLeaderEpoch f) (Magic f)
                  (Crc f) (Attributes f) (wrapS 32 d) (BaseTimestamp f)
                  (if 1 <=? magic then Z.max (MaxTimestamp f) timestamp else MaxTimestamp f)
                  (ProducerId f) (ProducerEpoch f) (BaseSequence f)));
  if RecordsCount h =? 2 ^ 31 - 1 then undefined "signed overflow"
  else mret (mkBatchHeader f' (RecordsCount h + 1)).

Fixpoint OnCompressed_loop (magic absoluteBaseOffset : Z) (wrapperTimestamp : option Z)
  (h : TKafkaBatchHeader) (innerEntries : list TKafkaRecordBatchV0)
  : M TKafkaReadable TKafkaBatchHeader :=
  match innerEntries with
  | [] => mret h
  | e :: innerEntries =>
      offset ← (if magic =? 1 then i64 (absoluteBaseOffset + v0_Offset e)
                else mret (v0_Offset e));
      h ← AppendHeaderRecord magic h offset
            (default (if 1 <=? magic then v0_Timestamp (v0_Record e) else 0) wrapperTimestamp);
      OnCompressed_loop magic absoluteBaseOffset wrapperTimestamp h innerEntries
  end.

Definition TLegacyHeaderConsumer (magic : Z) : TConsumer TKafkaBatchHeader :=
  mkConsumer _
    (fun h entry =>
       AppendHeaderRecord magic h (v0_Offset entry)
         (if 1 <=? magic then v0_Timestamp (v0_Record entry) else 0))
    (fun h entry _ innerEntries =>
       absoluteBaseOffset ← absolute_base magic (v0_Offset entry) innerEntries;
       OnCompressed_loop magic absoluteBaseOffset (wrapper_timestamp magic entry)
         (mkBatchHeader
            (set_Attributes (v0_Attributes (v0_Record entry)) (header_fields h))
            (RecordsCount h))
         innerEntries).

Definition set_LastOffsetDelta (d : Z) (f : TBatchFields) : TBatchFields :=
  mkFields (BaseOffset f) (BatchLength f) (PartitionLeaderEpoch f) (Magic f) (Crc f)
    (Attributes f) d (BaseTimestamp f) (MaxTimestamp f) (ProducerId f)
    (ProducerEpoch f) (BaseSequence f).

(** [batch = {}] with [Magic] 2, [BaseOffset] 0 and [BaseTimestamp] 0. *)
Definition legacy_batch : TKafkaRecordBatch :=
  mkBatch (mkFields 0 0 (-1) 2 0 0 0 0 (-1) (-1) (-1) (-1)) [].

Definition ReadLegacyRecordBatch (magic : Z) (length_ : nat)
  : M TKafkaReadable TKafkaRecordBatch :=
  data ← Bytes length_;
  readable ← get_st;
  batch ← on_state (readable_from data readable)
    (ForEachLegacyRecordBatch (length data) magic (AllowCompressed_ readable)
       (TLegacyBatchConsumer magic) legacy_batch);
  let d := match last (Records batch) with
           | Some r => wrapS 32 (kr_OffsetDelta r)
           | None => 0
           end in
  mret (mkBatch (set_LastOffsetDelta d (batch_fields batch)) (Records batch)).

Definition legacy_header (magic : Z) : TKafkaBatchHeader :=
  mkBatchHeader (mkFields 0 0 (-1) magic 0 0 0 (-1) (-1) (-1) (-1) (-1)) 0.

Definition ReadLegacyRecordBatchHeader (magic : Z) (length_ : nat)
  : M TKafkaReadable TKafkaBatchHeader :=
  data ← Bytes length_;
  readable ← get_st;
  on_state (readable_from data readable)
    (ForEachLegacyRecordBatch (length data) magic (AllowCompressed_ readable)
       (TLegacyHeaderConsumer magic) (legacy_header magic)).

(** ** Batches as strings *)

Definition run_on {T A} (s : T) (m : M T A) : outcome A :=
  match m s with Ok (a, _) => Ok a | Fail f => Fail f end.

Definition ReadKafkaRecordBatch (data : bytes) (version : Z) : outcome TKafkaRecordBatch :=
  run_on (SetAllowCompressed true (new_readable data))
    (batch ← TKafkaRecordBatch_Read version;
     left ← gets readable_left;
     if negb (left =? 0)%nat then throw "unexpected extra bytes after Kafka record batch"
     else mret batch).

Definition RecordBatchMagicOffset : nat := 8 + 4 + 4.

Definition ReadRecordBatch (data : bytes) : outcome TKafkaRecordBatch :=
  if (length data <=? RecordBatchMagicOffset)%nat
  then Fail (Throw "Kafka record batch is too small")
  else
    match data !! RecordBatchMagicOffset with
    | None => Fail (Undefined "read outside of the string")
    | Some c =>
        let magic := byte_val c in
        if 2 <=? magic then ReadKafkaRecordBatch data 2
        else run_on (new_readable data) (ReadLegacyRecordBatch magic (length data))
    end.

(** The exceptions are caught. *)
Definition ReadKafkaBatchHeader (data : bytes) (version : Z)
  : outcome (option TKafkaBatchHeader) :=
  if (length data <=? RecordBatchMagicOffset)%nat then Ok None
  else
    match data !! RecordBatchMagicOffset with
    | None => Fail (Undefined "read outside of the string")
    | Some c =>
        let magic := byte_val c in
        match run_on (SetAllowCompressed true (new_readable data))
                (if magic <? 2 then ReadLegacyRecordBatchHeader magic (length data)
                 else TKafkaBatchHeader_Read version) with
        | Ok h => Ok (Some h)
        | Fail (Throw _) => Ok None
        | Fail f => Fail f
        end
    end.

(** The new string and whether it was changed. *)
Definition SetKafkaBatchBaseOffset (data : bytes) (baseOffset : Z)
  : outcome (bool * bytes) :=
  match ReadKafkaBatchHeader data 2 with
  | Fail f => Fail f
  | Ok None => Ok (false, data)
  | Ok (Some h) =>
      if Magic (header_fields h) <? 2 then Ok (false, data)
      else
        match run_on (new_buffer 8) (write_number 8 (wrapS 64 baseOffset) ;; gets AsString) with
        | Ok b => Ok (true, b ++ drop 8 data)
        | Fail f => Fail f
        end
  end.

Definition WriteKafkaRecordBatch (batch : TKafkaRecordBatch) (version : Z) : outcome bytes :=
  match run_on (new_buffer WriteBufferChunkSize)
          (TKafkaRecordBatch_Write version batch ;; gets AsString) with
  | Fail f => Fail f
  | Ok result =>
      let result :=
        if (RecordBatchLengthOffset + 4 <=? length result)%nat then
          WriteKafkaInt32 result RecordBatchLengthOffset
            (wrapS 32 (Z.of_nat (length result) - 8 - 4))
        else result in
      let result :=
        if (RecordBatchCrcBodyOffset <=? length result)%nat then
          WriteKafkaInt32 result RecordBatchCrcOffset
            (wrapS 32 (Crc32c (drop RecordBatchCrcBodyOffset result)))
        else result in
      Ok result
  end.

(** ** Sequence numbers and timestamps *)

Inductive EKafkaErrors := NONE_ERROR | INVALID_RECORD.

Definition GetBatchBaseSeqNo (f : TBatchFields) : EKafkaErrors * Z :=
  if 0 <=? ProducerId f then
    if BaseSequence f <? 0 then (INVALID_RECORD, 0) else (NONE_ERROR, BaseSequence f)
  else if BaseOffset f <? 0 then (INVALID_RECORD, 0)
  else (NONE_ERROR, BaseOffset f).

(** [ui64] arithmetic; [RecordsCount] is converted. *)
Definition GetBatchMaxSeqNo (h : TKafkaBatchHeader) (baseSeqNo : Z) : EKafkaErrors * Z :=
  let f := header_fields h in
  if 0 <=? ProducerId f then
    (NONE_ERROR, wrapU 64 (baseSeqNo + wrapU 64 (RecordsCount h) - 1) mod 2 ^ 31)
  else if LastOffsetDelta f <? 0 then (INVALID_RECORD, 0)
  else (NONE_ERROR, wrapU 64 (baseSeqNo + LastOffsetDelta f)).

Definition GetRecordSeqNo (batch : TKafkaRecordBatch) (recordIndex : Z)
  (record : TKafkaRecord) : Z :=
  let f := batch_fields batch in
  if 0 <=? ProducerId f then wrapU 64 (wrapU 64 (BaseSequence f) + recordIndex) mod 2 ^ 31
  else wrapU 64 (wrapU 64 (BaseOffset f) + wrapU 64 (kr_OffsetDelta record)).

Definition GetRecordTimestamp (baseTimestamp timestampDelta : Z) : Z :=
  wrapS 64 (wrapU 64 (wrapU 64 baseTimestamp + wrapU 64 timestampDelta)).

(** ** TKafkaBatchCodec *)

Record TDecompressedMessageMeta := mkMsgMeta {
  OffsetDelta : Z;
  SequenceDelta : Z;
  TimestampDelta : Z;
}.

Record TDecompressedMessage := mkMsg { Data : bytes; MsgMeta : option TDecompressedMessageMeta }.

Record TDecompressionResult := mkResult {
  Messages : list TDecompressedMessage;
  BatchBaseOffset : option Z;
  BatchBaseSequence : option Z;
  BatchBaseTimestampMs : option Z;
}.

Definition KafkaBytesToString (b : option bytes) : bytes := default [] b.

Definition DecompressData (data : bytes) : outcome TDecompressionResult :=
  match ReadKafkaRecordBatch data 2 with
  | Fail f => Fail f
  | Ok kafkaBatch =>
      let f := batch_fields kafkaBatch in
      Ok (mkResult
        (imap (fun i record =>
           mkMsg (KafkaBytesToString (kr_Value record))
             (Some (mkMsgMeta (wrapS 32 (kr_OffsetDelta record))
                      (wrapS 64 (GetRecordSeqNo kafkaBatch (Z.of_nat i) record))
                      (kr_TimestampDelta record))))
           (Records kafkaBatch))
        (Some (BaseOffset f)) (Some 0) (Some (BaseTimestamp f)))
  end.

Definition TakeFirstDecompressedMessage (r : TDecompressionResult) : outcome bytes :=
  match Messages r with
  | [] => Fail (Throw "empty decompression result")
  | m :: _ => Ok (Data m)
  end.

Definition Decompress (data : bytes) : outcome bytes :=
  r ← DecompressData data; TakeFirstDecompressedMessage r.

(** [CreatedAt] is given in milliseconds; [BatchInnerCodec] is an [ECodec]. *)
Record TWriteBlockCompression := mkCtx {
  Payloads : list bytes;
  CreatedAt : list Z;
  MessageKeys : list (option bytes);
  CtxData : bytes;
  CodecID : Z;
  Compressed : bool;
  CtxBaseSequence : Z;
  BatchInnerCodec : option Z;
}.

Definition ECodec_GZIP : Z := 2.

Definition ECodec_ZSTD : Z := 4.

Definition CODEC_KAFKA_BATCH : Z := 5.

Definition ToKafkaBatchInnerCompression (c : option Z) : outcome Z :=
  match c with
  | None => Ok NONE
  | Some c =>
      if c =? ECodec_GZIP then Ok GZIP
      else if c =? ECodec_ZSTD then Ok ZSTD
      else Fail (Throw "unsupported batch inner codec")
  end.

(** The record of the [i]-th message.  The difference of a [ui64] and an [i64] is a
    [ui64], stored as an [i64]. *)
Definition make_record (baseTimestamp : Z) (i : nat) (payload : bytes) (createdAt : Z)
  (key : option bytes) : TKafkaRecord :=
  let r := mkRecord 0 0 (wrapS 64 (wrapU 64 (createdAt - baseTimestamp))) (Z.of_nat i) key
             (Some payload) [] in
  mkRecord (wrapS 32 (TKafkaRecord_Size 2 r - SizeOfVarint 32 0)) 0
    (kr_TimestampDelta r) (kr_OffsetDelta r) key (Some payload) [].

Fixpoint make_records (baseTimestamp : Z) (i : nat) (payloads : list bytes)
  (createdAt : list Z) (keys : list (option bytes)) : list TKafkaRecord :=
  match payloads, createdAt, keys with
  | p :: payloads, t :: createdAt, k :: keys =>
      make_record baseTimestamp i p t k :: make_records baseTimestamp (S i) payloads createdAt keys
  | _, _, _ => []
  end.

Definition CompressWriteBlock (ctx : TWriteBlockCompression)
  : outcome TWriteBlockCompression :=
  let n := length (Payloads ctx) in
  if (n =? 1)%nat then Ok ctx
  else if negb (n =? length (CreatedAt ctx))%nat then Fail (Abort "CreatedAt")
  else if negb (n =? length (MessageKeys ctx))%nat then Fail (Abort "MessageKeys")
  else
    match CreatedAt ctx with
    | [] => Fail (Abort "Payloads")
    | t0 :: _ =>
        attributes ← ToKafkaBatchInnerCompression (BatchInnerCodec ctx);
        let baseTimestamp := wrapS 64 t0 in
        let maxTimestamp :=
          fold_left (fun m t => Z.max m (wrapS 64 t)) (CreatedAt ctx) baseTimestamp in
        let records :=
          make_records baseTimestamp 0 (Payloads ctx) (CreatedAt ctx) (MessageKeys ctx) in
        let fields batchLength :=
          mkFields 0 batchLength (-1) 2 0 attributes (wrapS 32 (Z.of_nat n - 1))
            baseTimestamp maxTimestamp 0 0 (wrapS 32 (CtxBaseSequence ctx)) in
        size ← run_on tt (TKafkaRecordBatch_Size 2 (mkBatch (fields 0) records));
        serialized ← WriteKafkaRecordBatch
                       (mkBatch (fields (wrapS 32 (size - 8 - 4))) records) 2;
        Ok (mkCtx [serialized] (CreatedAt ctx) (MessageKeys ctx) serialized
              CODEC_KAFKA_BATCH true (CtxBaseSequence ctx) (BatchInnerCodec ctx))
    end.

(** [GetReadMessageCount] of the read session on a batch. *)
Definition kafka_message_count (data : bytes) : outcome Z :=
  match ReadKafkaBatchHeader data 2 with
  | Ok (Some h) => Ok (wrapU 64 (RecordsCount h))
  | Ok None => Ok 1
  | Fail f => Fail f
  end.

End Batches.
