(* ===== verification/KafkaBatches.v ===== *)
(** * The format of Kafka records and batches

    For records and batches of format 2 whose fields are in the range of their types
    ([record_ok], [fields_ok]): what is written is the format ([enc_record], [enc_batch]),
    the size functions return its length, and the readers return the batch. *)

From S2P Require Import Prelude KafkaWire KafkaFormat KafkaRecords.
From Stdlib Require Import Ascii.

(** ** Format and ranges *)

Definition enc_kheader (h : TKafkaHeader) : bytes :=
  enc_bytes KeyMeta 2 (kh_Key h) ++ enc_bytes HeaderValueMeta 2 (kh_Value h).

Definition enc_record (r : TKafkaRecord) : bytes :=
  enc_varint (kr_Length r) ++ enc_number 1 (kr_Attributes r)
  ++ enc_varint (kr_TimestampDelta r) ++ enc_varint (kr_OffsetDelta r)
  ++ enc_bytes KeyMeta 2 (kr_Key r) ++ enc_bytes KeyMeta 2 (kr_Value r)
  ++ enc_array HeadersMeta enc_kheader 2 (kr_Headers r).

(** The twelve fields, up to and after [BatchLength]. *)
Definition enc_tail (f : TBatchFields) : bytes :=
  enc_number 2 (Attributes f) ++ enc_number 4 (LastOffsetDelta f)
  ++ enc_number 8 (BaseTimestamp f) ++ enc_number 8 (MaxTimestamp f)
  ++ enc_number 8 (ProducerId f) ++ enc_number 2 (ProducerEpoch f)
  ++ enc_number 4 (BaseSequence f).

Definition enc_body (f : TBatchFields) : bytes :=
  enc_number 4 (PartitionLeaderEpoch f) ++ enc_number 1 (Magic f)
  ++ enc_number 4 (Crc f) ++ enc_tail f.

Definition small (b : bytes) : Prop := Z.of_nat (length b) < 2 ^ 31.

Definition small_opt (b : option bytes) : Prop := small (default [] b).

Definition header_ok (h : TKafkaHeader) : Prop :=
  small_opt (kh_Key h) /\ exists v, kh_Value h = Some v /\ small v.

Definition record_ok (lim sizeof_header : Z) (r : TKafkaRecord) : Prop :=
  inS 32 (kr_Length r) /\ inS 8 (kr_Attributes r) /\ inS 64 (kr_TimestampDelta r)
  /\ inS 64 (kr_OffsetDelta r) /\ small_opt (kr_Key r) /\ small_opt (kr_Value r)
  /\ Forall header_ok (kr_Headers r) /\ Z.of_nat (length (kr_Headers r)) < 2 ^ 31
  /\ Z.of_nat (length (kr_Headers r)) <= lim / sizeof_header.

Definition fields_ok (f : TBatchFields) : Prop :=
  inS 64 (BaseOffset f) /\ inS 32 (PartitionLeaderEpoch f) /\ Magic f = 2
  /\ inS 16 (Attributes f) /\ inS 32 (LastOffsetDelta f) /\ inS 64 (BaseTimestamp f)
  /\ inS 64 (MaxTimestamp f) /\ inS 64 (ProducerId f) /\ inS 16 (ProducerEpoch f)
  /\ inS 32 (BaseSequence f).

(** ** Records *)

Lemma appends_pre m k enc : appends m [] -> appends k enc -> appends (m ;; k) enc.
Proof. apply (appends_bind m k []). Qed.

Lemma appends_version v version :
  VersionCheck v version = true -> appends (ensure_version v version) [].
Proof. unfold ensure_version. intros ->. apply appends_ret. Qed.

Lemma small_opt_write m v :
  small_opt v -> VersionCheck (NullableVersions m) 2 = true ->
  match v with
  | Some v => Z.of_nat (length v) < 2 ^ 31
  | None => VersionCheck (NullableVersions m) 2 = true
  end.
Proof. by destruct v. Qed.

Lemma header_appends h : header_ok h -> appends (TKafkaHeader_Write 2 h) (enc_kheader h).
Proof.
  intros (Hk & v & Ev & Hv). apply appends_pre; [by apply appends_version|].
  apply appends_bind; apply Bytes_DoWrite_appends.
  - by apply small_opt_write.
  - by rewrite Ev.
Qed.

Lemma record_appends lim sh r :
  record_ok lim sh r -> appends (TKafkaRecord_Write 2 r) (enc_record r).
Proof.
  intros (?&?&?&?&Hk&Hv&Hh&?&?). apply appends_pre; [by apply appends_version|].
  apply appends_bind; [by apply writeVarint_appends|].
  apply appends_bind; [apply write_number_appends|].
  apply appends_bind; [by apply writeVarint_appends|].
  apply appends_bind; [by apply writeVarint_appends|].
  apply appends_bind; [by apply Bytes_DoWrite_appends, small_opt_write|].
  apply appends_bind; [by apply Bytes_DoWrite_appends, small_opt_write|].
  apply Array_DoWrite_appends; [|done].
  eapply Forall_impl; [done|]. intros. by apply header_appends.
Qed.

Section Reading.
Context (ac : bool) (lim sizeof_TKafkaRecord sizeof_TKafkaHeader : Z).
Context (Hsizeof : 0 < sizeof_TKafkaRecord) (Hsizeof' : 0 < sizeof_TKafkaHeader).

Lemma reads_pre {A} (m : M TKafkaReadable unit) (k : M TKafkaReadable A) enc a :
  reads ac lim m [] tt -> reads ac lim k enc a -> reads ac lim (m ;; k) enc a.
Proof. apply (reads_bind ac lim m (fun _ => k) []). Qed.

Lemma reads_version v version :
  VersionCheck v version = true -> reads ac lim (ensure_version v version) [] tt.
Proof. unfold ensure_version. intros ->. apply reads_ret. Qed.

Lemma reads_last {A B} (m : M TKafkaReadable A) (f : A -> M TKafkaReadable B) enc a b :
  reads ac lim m enc a -> reads ac lim (f a) [] b -> reads ac lim (m ≫= f) enc b.
Proof. intros. rewrite <- (app_nil_r enc). by eapply reads_bind. Qed.

Lemma header_reads h : header_ok h -> reads ac lim (TKafkaHeader_Read 2) (enc_kheader h) h.
Proof.
  intros (Hk & v & Ev & Hv). apply reads_pre; [by apply reads_version|].
  eapply reads_bind; [by apply Bytes_DoRead_reads, small_opt_write|].
  eapply reads_last; [apply (Bytes_DoRead_reads ac lim HeaderValueMeta 2 (kh_Value h))|].
  - by rewrite Ev.
  - destruct h. apply reads_ret.
Qed.

Lemma enc_size_length m version v :
  (1 <= length (enc_size m version v) <= 10)%nat.
Proof.
  unfold enc_size. destruct (SizeFormat m); [|apply enc_varint_length].
  destruct (VersionCheck _ _); [apply (enc_groups_length 9)|].
  rewrite enc_number_length. lia.
Qed.

Lemma enc_bytes_length m version v :
  (1 <= length (enc_bytes m version v) <= 10 + length (default [] v))%nat.
Proof.
  destruct v as [v|]; simpl; rewrite ?length_app.
  - pose proof (enc_size_length m version (Z.of_nat (length v))). lia.
  - pose proof (enc_size_length m version (-1)). lia.
Qed.

Lemma enc_kheader_length h : (1 <= length (enc_kheader h))%nat.
Proof.
  unfold enc_kheader. rewrite length_app. pose proof (enc_bytes_length KeyMeta 2 (kh_Key h)).
  lia.
Qed.

Lemma record_reads r :
  record_ok lim sizeof_TKafkaHeader r ->
  reads ac lim (TKafkaRecord_Read sizeof_TKafkaHeader 2) (enc_record r) r.
Proof.
  intros (?&?&?&?&Hk&Hv&Hh&?&?). apply reads_pre; [by apply reads_version|].
  eapply reads_bind; [by apply readVarint_reads|].
  eapply reads_bind; [apply (read_number_reads ac lim 1); [lia|done]|].
  eapply reads_bind; [by apply readVarint_reads|].
  eapply reads_bind; [by apply readVarint_reads|].
  eapply reads_bind; [by apply Bytes_DoRead_reads, small_opt_write|].
  eapply reads_bind; [by apply Bytes_DoRead_reads, small_opt_write|].
  apply reads_last with (a := kr_Headers r); [|destruct r; apply reads_ret].
  apply Array_DoRead_reads; try done; try lia.
  - eapply Forall_impl; [done|]. intros. by apply header_reads.
  - apply Forall_true. intros. apply enc_kheader_length.
Qed.

Lemma enc_record_length r : (1 <= length (enc_record r))%nat.
Proof.
  unfold enc_record. rewrite length_app. pose proof (enc_varint_length (kr_Length r)). lia.
Qed.

(** ** The fields of a batch *)

Lemma fields_read bo bl f (check check' : Z -> M TKafkaReadable unit) :
  fields_ok f -> inS 32 (Crc f) -> BaseOffset f = bo -> BatchLength f = bl ->
  reads ac lim (check (Magic f)) [] tt -> reads ac lim (check' (Attributes f)) [] tt ->
  reads ac lim (read_fields 2 bo bl check check') (enc_body f) f.
Proof.
  intros (?&?&Hm&?&?&?&?&?&?&?) Hc <- <- Hcm Hca. unfold read_fields, enc_body, enc_tail.
  eapply reads_bind; [apply (read_number_reads ac lim 4); [lia|done]|].
  eapply reads_bind; [apply (read_number_reads ac lim 1); [lia|by rewrite Hm]|].
  apply reads_pre; [done|].
  eapply reads_bind; [apply (read_number_reads ac lim 4); [lia|done]|].
  eapply reads_bind; [apply (read_number_reads ac lim 2); [lia|done]|].
  apply reads_pre; [done|].
  eapply reads_bind; [apply (read_number_reads ac lim 4); [lia|done]|].
  eapply reads_bind; [apply (read_number_reads ac lim 8); [lia|done]|].
  eapply reads_bind; [apply (read_number_reads ac lim 8); [lia|done]|].
  eapply reads_bind; [apply (read_number_reads ac lim 8); [lia|done]|].
  eapply reads_bind; [apply (read_number_reads ac lim 2); [lia|done]|].
  eapply reads_last; [apply (read_number_reads ac lim 4); [lia|done]|].
  destruct f. apply reads_ret.
Qed.

End Reading.

(** ** Batches *)

Definition enc_packed (compress : Z -> bytes -> bytes) (t : Z) (records : list TKafkaRecord)
  : bytes :=
  if t =? NONE then enc_array RecordsMeta enc_record 2 records
  else enc_number 4 (Z.of_nat (length records)) ++ compress t (concat (map enc_record records)).

Definition enc_batch (f : TBatchFields) (packed : bytes) : bytes :=
  enc_number 8 (BaseOffset f) ++ enc_number 4 (BatchLength f) ++ enc_body f ++ packed.

Definition supported (t : Z) : Prop := t = NONE \/ t = GZIP \/ t = ZSTD.

Lemma EnsureSupported_ok {S} t (s : S) :
  supported t -> EnsureSupportedCompressionType t s = Ok (tt, s).
Proof. by intros [->|[->| ->]]. Qed.

Lemma appends_run m enc w :
  0 < w -> appends m enc -> run_on (new_buffer w) (m ;; gets AsString) = Ok enc.
Proof.
  intros Hw Hm. destruct (Hm (new_buffer w)) as (b' & E & _ & Hs).
  { split; [done|constructor]. }
  unfold run_on, mbind, M_bind. rewrite E. unfold gets. by rewrite Hs.
Qed.

Lemma on_state_run {S T A} (s : T) (m : M T A) a (r : S) :
  run_on s m = Ok a -> on_state s m r = Ok (a, r).
Proof. unfold run_on, on_state. destruct (m s) as [[? ?]|]; congruence. Qed.

Section Batch.
Context (sizeof_TKafkaRecord sizeof_TKafkaHeader : Z).
Context (Hsizeof : 0 < sizeof_TKafkaRecord) (Hsizeof' : 0 < sizeof_TKafkaHeader).
Context (compress : Z -> bytes -> bytes) (decompress : Z -> bytes -> option bytes).
Context (ac : bool) (lim : Z).

Abbreviation rec_ok := (record_ok lim sizeof_TKafkaHeader).

Lemma records_append records :
  Forall rec_ok records ->
  appends (for_each (TKafkaRecord_Write 2) records) (concat (map enc_record records)).
Proof.
  intros. apply appends_for_each. eapply Forall_impl; [done|]. intros.
  by eapply record_appends.
Qed.

Lemma Serialize_ok {S} records (s : S) :
  Forall rec_ok records ->
  SerializeRecordBatchRecords records 2 false s = Ok (concat (map enc_record records), s).
Proof.
  intros. unfold SerializeRecordBatchRecords. apply on_state_run. apply appends_run; [done|].
  by apply records_append.
Qed.

Lemma Compress_ok {S} data t (s : S) :
  supported t -> t <> NONE ->
  CompressRecordBatchPayload compress data t s = Ok (compress t data, s).
Proof.
  intros Ht Hn. unfold CompressRecordBatchPayload, mbind, M_bind.
  rewrite EnsureSupported_ok by done. by destruct Ht as [->|[->| ->]].
Qed.

Lemma appends_ignore m (k : M TKafkaWriteBuffer unit) enc :
  (forall b, m b = Ok (tt, b)) -> appends k enc -> appends (m ;; k) enc.
Proof. intros Hm Hk b Hb. unfold mbind, M_bind. rewrite Hm. by apply Hk. Qed.

Lemma appends_value {A} (m : M TKafkaWriteBuffer A) (k : A -> M TKafkaWriteBuffer unit) a enc :
  (forall b, m b = Ok (a, b)) -> appends (k a) enc -> appends (m ≫= k) enc.
Proof. intros Hm Hk b Hb. unfold mbind, M_bind. rewrite Hm. by apply Hk. Qed.

Lemma fields_append f :
  appends (write_fields 2 f)
    (enc_number 8 (BaseOffset f) ++ enc_number 4 (BatchLength f) ++ enc_body f).
Proof.
  unfold enc_body, enc_tail, write_fields.
  repeat first [apply appends_bind | apply write_number_appends].
Qed.

Lemma batch_appends b :
  let t := CompressionType (batch_fields b) in
  supported t -> Forall rec_ok (Records b) -> Z.of_nat (length (Records b)) < 2 ^ 31 ->
  appends (TKafkaRecordBatch_Write compress 2 b)
    (enc_batch (batch_fields b) (enc_packed compress t (Records b))).
Proof.
  intros t Ht Hr Hn. unfold TKafkaRecordBatch_Write. fold t.
  apply appends_ignore; [done|]. apply appends_ignore; [intros; by apply EnsureSupported_ok|].
  unfold enc_batch. replace (enc_number 8 _ ++ _) with
    ((enc_number 8 (BaseOffset (batch_fields b)) ++ enc_number 4 (BatchLength (batch_fields b))
      ++ enc_body (batch_fields b)) ++ enc_packed compress t (Records b))
    by by rewrite <- !app_assoc.
  apply appends_bind; [apply fields_append|]. unfold enc_packed.
  destruct (t =? NONE) eqn:E; bool_to_prop.
  - apply Array_DoWrite_appends; [|done]. eapply Forall_impl; [done|]. intros.
    by eapply record_appends.
  - eapply appends_value; [intros; by apply Serialize_ok|].
    eapply appends_value; [intros; by apply Compress_ok|].
    apply appends_bind; [|apply write_appends]. rewrite wrapS_length by done.
    apply (WriteArraySize_appends RecordsMeta 2). lia.
Qed.

(** Reading up to the end of the buffer. *)
Definition reads_end {A} (m : M TKafkaReadable A) (enc : bytes) (a : A) : Prop :=
  forall pre, exists r, m (mkReadable (pre ++ enc) (length pre) ac lim) = Ok (a, r).

Lemma reads_to_end {A} (m : M TKafkaReadable A) enc a :
  reads ac lim m enc a -> reads_end m enc a.
Proof.
  intros Hm pre. specialize (Hm pre []). rewrite app_nil_r in Hm. rewrite Hm. by eexists.
Qed.

Lemma reads_end_bind {A B} (m : M TKafkaReadable A) (f : A -> M TKafkaReadable B) e1 e2 a b :
  reads ac lim m e1 a -> reads_end (f a) e2 b -> reads_end (m ≫= f) (e1 ++ e2) b.
Proof.
  intros Hm Hf pre. destruct (Hf (pre ++ e1)) as [r Hr]. exists r. unfold mbind, M_bind.
  rewrite Hm. by rewrite <- app_assoc, length_app in Hr.
Qed.

(** Failing on the rest of the buffer. *)
Definition fails_end {A} (m : M TKafkaReadable A) (enc : bytes) (e : failure) : Prop :=
  forall pre, m (mkReadable (pre ++ enc) (length pre) ac lim) = Fail e.

Lemma fails_end_bind {A B} (m : M TKafkaReadable A) (f : A -> M TKafkaReadable B) e1 e2 a e :
  reads ac lim m e1 a -> fails_end (f a) e2 e -> fails_end (m ≫= f) (e1 ++ e2) e.
Proof.
  intros Hm Hf pre. specialize (Hf (pre ++ e1)). unfold mbind, M_bind.
  rewrite Hm. by rewrite <- app_assoc, length_app in Hf.
Qed.

Lemma fails_end_pre {A} (m : M TKafkaReadable unit) (k : M TKafkaReadable A) enc e :
  reads ac lim m [] tt -> fails_end k enc e -> fails_end (m ;; k) enc e.
Proof. apply (fails_end_bind m (fun _ => k) []). Qed.

Lemma reads_end_map {A B} (m : M TKafkaReadable A) (f : A -> B) enc a :
  reads_end m enc a -> reads_end (x ← m; mret (f x)) enc (f a).
Proof. intros Hm pre. destruct (Hm pre) as [r Hr]. exists r. unfold mbind, M_bind. by rewrite Hr. Qed.

Lemma reads_end_run {A} (m : M TKafkaReadable A) enc a :
  reads_end m enc a -> run_on (mkReadable enc 0 ac lim) m = Ok a.
Proof. intros Hm. destruct (Hm []) as [r Hr]. unfold run_on. simpl in Hr. by rewrite Hr. Qed.

Lemma repeat_records records :
  Forall rec_ok records ->
  reads ac lim (repeat_read (length records) (TKafkaRecord_Read sizeof_TKafkaHeader 2))
    (concat (map enc_record records)) records.
Proof.
  intros. apply repeat_read_reads. eapply Forall_impl; [done|]. intros. by apply record_reads.
Qed.

Lemma records_length records :
  (length records <= length (concat (map enc_record records)))%nat.
Proof. apply concat_map_length, Forall_true. intros. apply enc_record_length. Qed.

Lemma read_records_end t records :
  supported t -> Forall rec_ok records -> Z.of_nat (length records) < 2 ^ 31 ->
  Z.of_nat (length records) <= lim / sizeof_TKafkaRecord ->
  (t <> NONE -> let d := concat (map enc_record records) in decompress t (compress t d) = Some d) ->
  reads_end (read_records sizeof_TKafkaRecord sizeof_TKafkaHeader decompress 2 t)
    (enc_packed compress t records) records.
Proof.
  intros Ht Hr Hn Hl Hd. unfold read_records, enc_packed.
  destruct (t =? NONE) eqn:E; bool_to_prop.
  - apply reads_to_end. apply Array_DoRead_reads; try done; try lia.
    + eapply Forall_impl; [done|]. intros. by apply record_reads.
    + apply Forall_true. intros. apply enc_record_length.
  - eapply reads_end_bind; [apply (ReadArraySize_reads ac lim RecordsMeta 2); lia|].
    intros pre. eexists. cbv [mbind M_bind gets get_st mret M_ret]. cbv zeta.
    unfold EnsureValidRecordBatchRecordsCount. rewrite (proj2 (Z.ltb_ge _ _)) by lia.
    cbv [mret M_ret].
    pose proof (left_at ac lim pre (compress t (concat (map enc_record records))) []) as El.
    rewrite app_nil_r, Nat.add_0_r in El. rewrite El.
    pose proof (Bytes_reads ac lim (compress t (concat (map enc_record records))) _ eq_refl pre [])
      as Eb. rewrite app_nil_r in Eb. rewrite Eb.
    unfold DecompressRecordBatchPayload. cbv [mbind M_bind].
    rewrite EnsureSupported_ok by done. rewrite (proj2 (Z.eqb_neq t NONE)) by done.
    replace ((t =? GZIP) || (t =? ZSTD))%bool with true by (by destruct Ht as [->|[->| ->]]).
    rewrite Hd by done. cbv [mret M_ret]. apply on_state_run.
    unfold readable_from. cbn [AllowCompressed_ MaxArrayBytes_].
    apply reads_end_run, reads_to_end. rewrite Nat2Z.id. pose proof (records_length records).
    apply reads_check; [|by apply repeat_records].
    intros pre' post. apply EnsureArrayAllocationFits_at; lia.
Qed.

(** More records than the reader makes room for are refused. *)
Lemma read_records_over t records :
  supported t -> Z.of_nat (length records) < 2 ^ 31 ->
  lim / sizeof_TKafkaRecord < Z.of_nat (length records) ->
  (t <> NONE -> let d := concat (map enc_record records) in decompress t (compress t d) = Some d) ->
  fails_end (read_records sizeof_TKafkaRecord sizeof_TKafkaHeader decompress 2 t)
    (enc_packed compress t records) (Throw "array").
Proof.
  intros Ht Hn Hl Hd. unfold read_records, enc_packed.
  destruct (t =? NONE) eqn:E; bool_to_prop.
  - intros pre. rewrite <- (app_nil_r (enc_array _ _ _ _)). apply Array_DoRead_over; try done.
    apply Forall_true. intros. apply enc_record_length.
  - eapply fails_end_bind; [apply (ReadArraySize_reads ac lim RecordsMeta 2); lia|].
    intros pre. set (d := concat (map enc_record records)) in *.
    cbv [mbind M_bind gets get_st mret M_ret]. cbv zeta.
    unfold EnsureValidRecordBatchRecordsCount. rewrite (proj2 (Z.ltb_ge _ _)) by lia.
    cbv [mret M_ret].
    pose proof (left_at ac lim pre (compress t d) []) as El.
    rewrite app_nil_r, Nat.add_0_r in El. rewrite El.
    pose proof (Bytes_reads ac lim (compress t d) _ eq_refl pre []) as Eb.
    rewrite app_nil_r in Eb. rewrite Eb.
    unfold DecompressRecordBatchPayload. cbv [mbind M_bind].
    rewrite EnsureSupported_ok by done. rewrite (proj2 (Z.eqb_neq t NONE)) by done.
    replace ((t =? GZIP) || (t =? ZSTD))%bool with true by (by destruct Ht as [->|[->| ->]]).
    rewrite Hd by done. cbv [mret M_ret]. unfold on_state, readable_from.
    cbn [AllowCompressed_ MaxArrayBytes_]. pose proof (records_length records) as Hd'. fold d in Hd'.
    pose proof (EnsureArrayAllocationFits_over ac lim (Z.of_nat (length records))
      sizeof_TKafkaRecord [] d [] ltac:(lia) Hn Hsizeof Hl) as Eo.
    rewrite app_nil_r in Eo. cbn [app] in Eo. change (length []) with 0%nat in Eo. by rewrite Eo.
Qed.

Lemma TakeBody_reads body n :
  n = Z.of_nat (length body) -> n < 2 ^ 31 ->
  reads ac lim (TakeRecordBatchBody n) body body.
Proof.
  intros -> Hn. unfold TakeRecordBatchBody. rewrite (proj2 (Z.ltb_ge _ _)) by lia.
  apply reads_check; [intros; apply EnsureLengthFitsRemaining_at; lia|].
  apply Bytes_reads. lia.
Qed.

Lemma reads_on_body {A} (m : M TKafkaReadable A) (body : bytes) a :
  run_on (mkReadable body 0 ac lim) m = Ok a ->
  reads ac lim (r ← get_st; on_state (readable_from body r) m) [] a.
Proof.
  intros Hm pre post. cbv [mbind M_bind get_st]. unfold readable_from.
  cbn [AllowCompressed_ MaxArrayBytes_]. rewrite (on_state_run _ _ _ _ Hm). simpl.
  by rewrite Nat.add_0_r.
Qed.

(** The part of the two readers before the records. *)
Lemma batch_prefix_reads {A} f packed (m : Z -> Z -> M TKafkaReadable A) a :
  fields_ok f -> BatchLength f = Z.of_nat (length (enc_body f ++ packed)) ->
  BatchLength f < 2 ^ 31 ->
  reads_end (m (BaseOffset f) (BatchLength f)) (enc_body f ++ packed) a ->
  reads ac lim
    (ensure_version RecordVersions 2 ;;
     baseOffset ← read_int 8 2 0;
     batchLength ← read_int 4 2 0;
     bodyBuffer ← TakeRecordBatchBody batchLength;
     readable ← get_st;
     on_state (readable_from bodyBuffer readable) (m baseOffset batchLength))
    (enc_batch f packed) a.
Proof.
  intros (?&_) Hl Hl31 Hm. apply reads_pre; [by apply reads_version|]. unfold enc_batch.
  eapply reads_bind; [apply (read_number_reads ac lim 8); [lia|done]|].
  eapply reads_bind; [apply (read_number_reads ac lim 4); [lia|]|].
  { unfold inS. simpl. lia. }
  eapply reads_last; [by apply TakeBody_reads|]. apply reads_on_body. by apply reads_end_run.
Qed.

Lemma fields_checked f :
  let t := CompressionType f in
  supported t -> (t = NONE \/ ac = true) -> fields_ok f -> inS 32 (Crc f) ->
  reads ac lim (read_fields 2 (BaseOffset f) (BatchLength f) check_magic check_compression)
    (enc_body f) f.
Proof.
  intros t Ht Hac Hf Hcrc. apply fields_read; try done.
  - destruct Hf as (_&_&->&_). apply reads_ret.
  - intros pre post. unfold check_compression. fold (CompressionType f). fold t.
    cbv [mbind M_bind get_st]. cbn [AllowCompressed_].
    replace (negb (t =? NONE) && negb ac) with false
      by (destruct Hac as [->| ->]; [done|by rewrite andb_false_r]).
    rewrite EnsureSupported_ok by done. simpl. by rewrite Nat.add_0_r.
Qed.

Lemma batch_reads b :
  let f := batch_fields b in let t := CompressionType f in
  let packed := enc_packed compress t (Records b) in
  supported t -> (t = NONE \/ ac = true) -> Forall rec_ok (Records b) ->
  fields_ok f -> inS 32 (Crc f) ->
  BatchLength f = Z.of_nat (length (enc_body f ++ packed)) -> BatchLength f < 2 ^ 31 ->
  Z.of_nat (length (Records b)) < 2 ^ 31 ->
  Z.of_nat (length (Records b)) <= lim / sizeof_TKafkaRecord ->
  (t <> NONE -> let d := concat (map enc_record (Records b)) in
                decompress t (compress t d) = Some d) ->
  reads ac lim (TKafkaRecordBatch_Read sizeof_TKafkaRecord sizeof_TKafkaHeader decompress 2)
    (enc_batch f packed) b.
Proof.
  intros f t packed Ht Hac Hr Hf Hcrc Hl Hl31 Hn Hlim Hd.
  apply (batch_prefix_reads f packed
           (fun bo bl => fields ← read_fields 2 bo bl check_magic check_compression;
                         records ← read_records sizeof_TKafkaRecord sizeof_TKafkaHeader
                                     decompress 2 (CompressionType fields);
                         mret (mkBatch fields records))); [done..|].
  eapply reads_end_bind; [apply fields_checked; done|].
  fold t. destruct b as [f0 records]. simpl in *.
  apply (reads_end_map _ (mkBatch f0)). by apply read_records_end.
Qed.

Lemma batch_prefix_fails {A} f packed (m : Z -> Z -> M TKafkaReadable A) e :
  fields_ok f -> BatchLength f = Z.of_nat (length (enc_body f ++ packed)) ->
  BatchLength f < 2 ^ 31 ->
  fails_end (m (BaseOffset f) (BatchLength f)) (enc_body f ++ packed) e ->
  fails_end
    (ensure_version RecordVersions 2 ;;
     baseOffset ← read_int 8 2 0;
     batchLength ← read_int 4 2 0;
     bodyBuffer ← TakeRecordBatchBody batchLength;
     readable ← get_st;
     on_state (readable_from bodyBuffer readable) (m baseOffset batchLength))
    (enc_batch f packed) e.
Proof.
  intros (?&_) Hl Hl31 Hm. unfold enc_batch.
  apply fails_end_pre; [by apply reads_version|].
  eapply fails_end_bind; [apply (read_number_reads ac lim 8); [lia|done]|].
  eapply fails_end_bind; [apply (read_number_reads ac lim 4); [lia|]|].
  { unfold inS. simpl. lia. }
  rewrite <- (app_nil_r (enc_body f ++ packed)).
  eapply fails_end_bind; [by apply TakeBody_reads|]. intros pre.
  cbv [mbind M_bind get_st]. unfold readable_from, on_state. cbn [AllowCompressed_ MaxArrayBytes_].
  specialize (Hm []). cbn [app] in Hm. change (length []) with 0%nat in Hm. by rewrite Hm.
Qed.

Lemma batch_over b :
  let f := batch_fields b in let t := CompressionType f in
  let packed := enc_packed compress t (Records b) in
  supported t -> (t = NONE \/ ac = true) -> fields_ok f -> inS 32 (Crc f) ->
  BatchLength f = Z.of_nat (length (enc_body f ++ packed)) -> BatchLength f < 2 ^ 31 ->
  Z.of_nat (length (Records b)) < 2 ^ 31 ->
  lim / sizeof_TKafkaRecord < Z.of_nat (length (Records b)) ->
  (t <> NONE -> let d := concat (map enc_record (Records b)) in
                decompress t (compress t d) = Some d) ->
  fails_end (TKafkaRecordBatch_Read sizeof_TKafkaRecord sizeof_TKafkaHeader decompress 2)
    (enc_batch f packed) (Throw "array").
Proof.
  intros f t packed Ht Hac Hf Hcrc Hl Hl31 Hn Hlim Hd.
  apply (batch_prefix_fails f packed
           (fun bo bl => fields ← read_fields 2 bo bl check_magic check_compression;
                         records ← read_records sizeof_TKafkaRecord sizeof_TKafkaHeader
                                     decompress 2 (CompressionType fields);
                         mret (mkBatch fields records))); [done..|].
  eapply fails_end_bind; [apply fields_checked; done|].
  intros pre. unfold mbind, M_bind.
  pose proof (read_records_over t (Records b) Ht Hn Hlim Hd pre) as E.
  fold packed in E. fold t. by rewrite E.
Qed.

Lemma header_of_batch_reads f t records :
  let packed := enc_packed compress t records in
  fields_ok f -> inS 32 (Crc f) -> BatchLength f = Z.of_nat (length (enc_body f ++ packed)) ->
  BatchLength f < 2 ^ 31 -> Z.of_nat (length records) < 2 ^ 31 ->
  reads ac lim (TKafkaBatchHeader_Read 2) (enc_batch f packed)
    (mkBatchHeader f (Z.of_nat (length records))).
Proof.
  intros packed Hf Hcrc Hl Hl31 Hn.
  apply (batch_prefix_reads f packed
           (fun bo bl => fields ← read_fields 2 bo bl no_check no_check;
                         recordsCount ← read_int 4 2 0;
                         EnsureValidRecordBatchRecordsCount recordsCount ;;
                         mret (mkBatchHeader fields recordsCount))); [done..|].
  eapply reads_end_bind; [apply fields_read; try done; apply reads_ret|].
  assert (exists rest, packed = enc_number 4 (Z.of_nat (length records)) ++ rest) as [rest ->].
  { unfold packed, enc_packed. destruct (t =? NONE); by eexists. }
  eapply reads_end_bind; [apply (read_number_reads ac lim 4); [lia|unfold inS; simpl; lia]|].
  intros pre. unfold EnsureValidRecordBatchRecordsCount. rewrite (proj2 (Z.ltb_ge _ _)) by lia.
  by eexists.
Qed.

End Batch.

(** ** The corrections of [WriteKafkaRecordBatch] *)

Lemma val_byte_wrapU v k : 0 <= k <= 24 -> val_byte (Z.shiftr (wrapU 32 v) k) = val_byte (Z.shiftr v k).
Proof.
  intros Hk. unfold val_byte. do 2 f_equal. unfold wrapU.
  rewrite <- !(Z.land_ones _ 32), <- (Z.land_ones _ 8), <- (Z.land_ones _ 8) by lia.
  apply Z.bits_inj'. intros i Hi. rewrite !Z.land_spec, !Z.shiftr_spec, Z.land_spec by lia.
  rewrite !Z.testbit_ones_nonneg by lia. destruct (i <? 8) eqn:E; bool_to_prop.
  - rewrite (proj2 (Z.ltb_lt (i + k) 32)) by lia. by rewrite !andb_true_r.
  - by rewrite !andb_false_r.
Qed.

Lemma enc_number_4 v :
  enc_number 4 v = [val_byte (Z.shiftr v 24); val_byte (Z.shiftr v 16);
                    val_byte (Z.shiftr v 8); val_byte v].
Proof. unfold enc_number. simpl. by rewrite !Z.shiftr_shiftr by lia. Qed.

Lemma WriteKafkaInt32_patch pre old v post offset :
  offset = length pre ->
  WriteKafkaInt32 (pre ++ enc_number 4 old ++ post) offset v = pre ++ enc_number 4 v ++ post.
Proof.
  intros ->. unfold WriteKafkaInt32. rewrite !enc_number_4.
  rewrite <- (Z.shiftr_0_r (wrapU 32 v)) at 1. rewrite !val_byte_wrapU, Z.shiftr_0_r by lia.
  replace (length pre) with (length pre + 0)%nat at 4 by lia.
  rewrite !insert_app_r. done.
Qed.

(** A header is written as the prefix of its batch; its size is fixed. *)
Lemma batch_header_appends h :
  appends (TKafkaBatchHeader_Write 2 h)
    (enc_batch (header_fields h) (enc_number 4 (RecordsCount h)))
  /\ TKafkaBatchHeader_Size 2
     = Z.of_nat (length (enc_batch (header_fields h) (enc_number 4 (RecordsCount h)))).
Proof.
  split.
  - apply appends_ignore; [done|]. unfold enc_batch. rewrite (app_assoc (enc_number 4 _)), app_assoc.
    apply appends_bind; [apply fields_append|apply write_number_appends].
  - unfold enc_batch, enc_body, enc_tail. rewrite !length_app, !enc_number_length. reflexivity.
Qed.

(** ** Legacy entries *)

Definition enc_v0 (version : Z) (e : TKafkaRecordBatchV0) : bytes :=
  let r := v0_Record e in
  enc_number 8 (v0_Offset e) ++ enc_number 4 (v0_MessageSize r) ++ enc_number 4 (v0_Crc r)
  ++ enc_number 1 (v0_Magic r) ++ enc_number 1 (v0_Attributes r)
  ++ (if version =? 1 then enc_number 8 (v0_Timestamp r) else [])
  ++ enc_bytes KeyV0Meta version (v0_Key r) ++ enc_bytes ValueV0Meta version (v0_Value r).

(** An entry of format [version] in the range of its types, not compressed. *)
Definition entry_ok (version : Z) (e : TKafkaRecordBatchV0) : Prop :=
  let r := v0_Record e in
  0 <= v0_Offset e < 2 ^ 63 /\ inS 32 (v0_MessageSize r) /\ inS 32 (v0_Crc r)
  /\ v0_Magic r = version /\ inS 8 (v0_Attributes r) /\ LegacyCompressionType r = NONE
  /\ (if version =? 1 then inS 64 (v0_Timestamp r) else v0_Timestamp r = 0)
  /\ small_opt (v0_Key r) /\ exists v, v0_Value r = Some v /\ small v.

Definition legacy_version (version : Z) : Prop := version = 0 \/ version = 1.

Lemma enc_bytes_KeyV0 version v :
  legacy_version version -> small_opt v ->
  match v with
  | Some v => Z.of_nat (length v) < 2 ^ 31
  | None => VersionCheck (NullableVersions KeyV0Meta) version = true
  end.
Proof. by destruct v. Qed.

Lemma entry_appends version e :
  legacy_version version -> entry_ok version e ->
  appends (TKafkaRecordBatchV0_Write version e) (enc_v0 version e).
Proof.
  intros Hv (?&?&?&?&?&?&?&Hk&v&Ev&Hs).
  apply appends_pre; [apply appends_version; by destruct Hv as [->| ->]|].
  apply appends_bind; [apply write_number_appends|].
  apply appends_pre; [apply appends_version; by destruct Hv as [->| ->]|].
  do 4 (apply appends_bind; [apply write_number_appends|]).
  apply appends_bind.
  { destruct Hv as [->| ->]; [apply appends_ret|apply write_number_appends]. }
  apply appends_bind; apply Bytes_DoWrite_appends; [by apply enc_bytes_KeyV0|by rewrite Ev].
Qed.

Lemma entry_reads ac lim version e :
  legacy_version version -> entry_ok version e ->
  reads ac lim (TKafkaRecordBatchV0_Read version) (enc_v0 version e) e.
Proof.
  intros Hv (Ho&?&?&Hm&?&_&Ht&Hk&v&Ev&Hs). unfold enc_v0.
  apply reads_pre; [apply reads_version; by destruct Hv as [->| ->]|].
  eapply reads_bind; [apply (read_number_reads ac lim 8); [lia|]|].
  { unfold inS. simpl. lia. }
  apply reads_last with (a := v0_Record e); [|destruct e; apply reads_ret].
  apply reads_pre; [apply reads_version; by destruct Hv as [->| ->]|].
  do 2 (eapply reads_bind; [apply (read_number_reads ac lim 4); [lia|done]|]).
  eapply reads_bind; [apply (read_number_reads ac lim 1); [lia|]|].
  { rewrite Hm. by destruct Hv as [->| ->]. }
  eapply reads_bind; [apply (read_number_reads ac lim 1); [lia|done]|].
  apply reads_bind with (a := v0_Timestamp (v0_Record e)).
  { destruct Hv as [->| ->]; simpl in Ht; [rewrite Ht; apply reads_ret|].
    apply (read_number_reads ac lim 8); [lia|done]. }
  eapply reads_bind; [by apply Bytes_DoRead_reads, enc_bytes_KeyV0|].
  eapply reads_last; [apply (Bytes_DoRead_reads ac lim ValueV0Meta version (v0_Value (v0_Record e)))|].
  - by rewrite Ev.
  - destruct (v0_Record e). apply reads_ret.
Qed.
