(* ===== verification/KafkaTheorems.v ===== *)
(** * What the Kafka batch codec promises

    A batch survives the round trip through bytes and so do the messages of a block; the
    header tells how many messages a batch has, for any bytes that can be read; the
    readers never leave their buffers, whatever the bytes are; the sizes are the lengths
    of what is written; the checksum by table is the bitwise one. *)

From S2P Require Import Prelude KafkaWire KafkaFormat KafkaRecords KafkaBatches.
From Stdlib Require Import Ascii.

(** ** Writing a batch *)

#[local] Opaque Crc32c.

(** The fields as they are sent: with the length and the checksum of the bytes. *)
Definition with_length_crc (f : TBatchFields) (len crc : Z) : TBatchFields :=
  mkFields (BaseOffset f) len (PartitionLeaderEpoch f) (Magic f) crc (Attributes f)
    (LastOffsetDelta f) (BaseTimestamp f) (MaxTimestamp f) (ProducerId f)
    (ProducerEpoch f) (BaseSequence f).

Definition sealed (f : TBatchFields) (data : bytes) : TBatchFields :=
  with_length_crc f (Z.of_nat (length data) - 12)
    (wrapS 32 (Crc32c (drop RecordBatchCrcBodyOffset data))).

Definition sealed_bytes (f : TBatchFields) (packed : bytes) : bytes :=
  enc_batch (with_length_crc f (Z.of_nat (length (enc_body f ++ packed)))
               (wrapS 32 (Crc32c (enc_tail f ++ packed)))) packed.

Lemma enc_tail_length f : length (enc_tail f) = 36%nat.
Proof. unfold enc_tail. rewrite !length_app, !enc_number_length. done. Qed.

Lemma enc_body_length f : length (enc_body f) = 45%nat.
Proof.
  unfold enc_body. rewrite !length_app, !enc_number_length, enc_tail_length. done.
Qed.

Lemma enc_batch_length f packed : length (enc_batch f packed) = (57 + length packed)%nat.
Proof.
  unfold enc_batch. rewrite !length_app, !enc_number_length, enc_body_length. lia.
Qed.

Lemma enc_batch_split f packed :
  enc_batch f packed
  = (enc_number 8 (BaseOffset f) ++ enc_number 4 (BatchLength f)
     ++ enc_number 4 (PartitionLeaderEpoch f) ++ enc_number 1 (Magic f))
    ++ enc_number 4 (Crc f) ++ enc_tail f ++ packed.
Proof. unfold enc_batch, enc_body. by rewrite <- !app_assoc. Qed.

Lemma drop_crc_body f packed :
  drop RecordBatchCrcBodyOffset (enc_batch f packed) = enc_tail f ++ packed.
Proof.
  rewrite enc_batch_split, app_assoc. apply drop_app_length'.
  rewrite !length_app, !enc_number_length. done.
Qed.

Lemma sealed_of_bytes f packed :
  sealed f (sealed_bytes f packed)
  = with_length_crc f (Z.of_nat (length (enc_body f ++ packed)))
      (wrapS 32 (Crc32c (enc_tail f ++ packed))).
Proof.
  unfold sealed, sealed_bytes. rewrite drop_crc_body. f_equal.
  rewrite enc_batch_length, length_app, enc_body_length. lia.
Qed.

Lemma patch_length f packed v :
  WriteKafkaInt32 (enc_batch f packed) RecordBatchLengthOffset v
  = enc_batch (with_length_crc f v (Crc f)) packed.
Proof. unfold enc_batch. by apply WriteKafkaInt32_patch. Qed.

Lemma patch_crc f packed v :
  WriteKafkaInt32 (enc_batch f packed) RecordBatchCrcOffset v
  = enc_batch (with_length_crc f (BatchLength f) v) packed.
Proof.
  rewrite !enc_batch_split. apply WriteKafkaInt32_patch.
  by rewrite !length_app, !enc_number_length.
Qed.

Lemma WriteKafkaRecordBatch_bytes compress lim sh b :
  let f := batch_fields b in let t := CompressionType f in
  let packed := enc_packed compress t (Records b) in
  supported t -> Forall (record_ok lim sh) (Records b) ->
  Z.of_nat (length (Records b)) < 2 ^ 31 ->
  Z.of_nat (length (enc_body f ++ packed)) < 2 ^ 31 ->
  WriteKafkaRecordBatch compress b 2 = Ok (sealed_bytes f packed).
Proof.
  intros f t packed Ht Hr Hn Hl. unfold WriteKafkaRecordBatch.
  rewrite (appends_run _ (enc_batch f packed)); [|done|by apply (batch_appends sh compress lim)].
  assert (forall n g, (n <= 57)%nat -> (n <=? length (enc_batch g packed))%nat = true) as Hc.
  { intros. apply Nat.leb_le. rewrite enc_batch_length. lia. }
  rewrite Hc, patch_length, Hc, patch_crc, drop_crc_body
    by (unfold RecordBatchLengthOffset, RecordBatchCrcBodyOffset, RecordBatchCrcOffset; lia).
  unfold sealed_bytes. rewrite length_app, enc_body_length in Hl |- *.
  rewrite enc_batch_length, wrapS_small by (unfold inS; simpl Z.sub; lia).
  replace (Z.of_nat (57 + length packed) - 8 - 4) with (Z.of_nat (45 + length packed)) by lia.
  reflexivity.
Qed.

(** ** Round trips *)

Lemma fields_ok_sealed f len crc : fields_ok f -> fields_ok (with_length_crc f len crc).
Proof. done. Qed.

Lemma Crc_range f data : inS 32 (Crc (sealed f data)).
Proof. apply wrapS_range. lia. Qed.

Lemma read_whole sr sh decompress data b :
  reads true DefaultMaxArrayBytes (TKafkaRecordBatch_Read sr sh decompress 2) data b ->
  ReadKafkaRecordBatch sr sh decompress data 2 = Ok b.
Proof.
  intros Hr. specialize (Hr [] []). rewrite app_nil_r in Hr. cbn [app] in Hr.
  unfold ReadKafkaRecordBatch, run_on, mbind, M_bind, SetAllowCompressed, new_readable.
  cbn [Is Position MaxArrayBytes_]. change (length []) with 0%nat in Hr. rewrite Hr.
  cbv [gets]. unfold readable_left. cbn [Is Position]. rewrite Nat.add_0_l.
  rewrite (proj2 (Nat.ltb_ge _ _)) by lia. done.
Qed.

Lemma read_whole_fails sr sh decompress data e :
  fails_end true DefaultMaxArrayBytes (TKafkaRecordBatch_Read sr sh decompress 2) data e ->
  ReadKafkaRecordBatch sr sh decompress data 2 = Fail e.
Proof.
  intros Hr. specialize (Hr []). unfold ReadKafkaRecordBatch, run_on, mbind, M_bind.
  unfold SetAllowCompressed, new_readable. cbn [Is Position MaxArrayBytes_ app] in *.
  change (length []) with 0%nat in Hr. by rewrite Hr.
Qed.

Lemma batch_magic f packed :
  Magic f = 2 -> enc_batch f packed !! RecordBatchMagicOffset = Some (val_byte 2).
Proof.
  intros Hm. rewrite enc_batch_split, Hm, <- !app_assoc. unfold RecordBatchMagicOffset.
  do 3 (rewrite lookup_app_r, enc_number_length by (rewrite enc_number_length; lia)).
  done.
Qed.

Lemma read_header_whole decompress f packed h :
  Magic f = 2 ->
  reads true DefaultMaxArrayBytes (TKafkaBatchHeader_Read 2) (enc_batch f packed) h ->
  ReadKafkaBatchHeader decompress (enc_batch f packed) 2 = Ok (Some h).
Proof.
  intros Hm Hr. unfold ReadKafkaBatchHeader. rewrite batch_magic by done.
  rewrite (proj2 (Nat.leb_gt _ _)) by (rewrite enc_batch_length; unfold RecordBatchMagicOffset; lia).
  specialize (Hr [] []). rewrite app_nil_r in Hr. cbn [app] in Hr.
  change (byte_val (val_byte 2) <? 2) with false. cbn iota.
  unfold run_on, SetAllowCompressed, new_readable. cbn [Is Position MaxArrayBytes_].
  change (length []) with 0%nat in Hr. by rewrite Hr.
Qed.

Section RoundTrip.
Context (sizeof_TKafkaRecord sizeof_TKafkaHeader : Z).
Context (compress : Z -> bytes -> bytes) (decompress : Z -> bytes -> option bytes).

(** A batch that the format can hold: the fields and records are in range, the number of
    records fits its field, the headers of a record the limit of the reader, and the
    batch its length field; what is compressed can be decompressed. *)
Record batch_ok (b : TKafkaRecordBatch) : Prop := {
  ok_sizeof : 0 < sizeof_TKafkaRecord /\ 0 < sizeof_TKafkaHeader;
  ok_type : supported (CompressionType (batch_fields b));
  ok_fields : fields_ok (batch_fields b);
  ok_records : Forall (record_ok DefaultMaxArrayBytes sizeof_TKafkaHeader) (Records b);
  ok_count : Z.of_nat (length (Records b)) < 2 ^ 31;
  ok_length :
    45 + Z.of_nat (length (enc_packed compress (CompressionType (batch_fields b)) (Records b)))
    < 2 ^ 31;
  ok_inverse :
    CompressionType (batch_fields b) <> NONE ->
    let d := concat (map enc_record (Records b)) in
    decompress (CompressionType (batch_fields b))
      (compress (CompressionType (batch_fields b)) d) = Some d;
}.

Lemma batch_written b :
  batch_ok b ->
  WriteKafkaRecordBatch compress b 2
  = Ok (sealed_bytes (batch_fields b)
          (enc_packed compress (CompressionType (batch_fields b)) (Records b))).
Proof.
  intros [[Hs _] Ht Hf Hr Hc Hl _].
  eapply WriteKafkaRecordBatch_bytes; [done..|].
  rewrite length_app, enc_body_length. lia.
Qed.

(** The number of records the reader makes room for. *)
Definition records_limit : Z := DefaultMaxArrayBytes / sizeof_TKafkaRecord.

Lemma batch_round_trip b :
  batch_ok b ->
  exists data, WriteKafkaRecordBatch compress b 2 = Ok data
    /\ ReadKafkaRecordBatch sizeof_TKafkaRecord sizeof_TKafkaHeader decompress data 2
       = (if Z.of_nat (length (Records b)) <=? records_limit
          then Ok (mkBatch (sealed (batch_fields b) data) (Records b))
          else Fail (Throw "array"))
    /\ ReadKafkaBatchHeader decompress data 2
       = Ok (Some (mkBatchHeader (sealed (batch_fields b) data) (Z.of_nat (length (Records b))))).
Proof.
  intros Hb. eexists. split; [by apply batch_written|].
  destruct Hb as [[Hs Hs'] Ht Hf Hr Hc Hl Hd]. destruct b as [f records]; cbn [batch_fields Records] in *.
  set (packed := enc_packed compress (CompressionType f) records) in *.
  pose proof (Crc_range f (sealed_bytes f packed)) as Hcrc.
  rewrite sealed_of_bytes in Hcrc |- *. unfold sealed_bytes.
  set (g := with_length_crc _ _ _) in *.
  assert (Z.of_nat (length (enc_body f ++ packed)) < 2 ^ 31).
  { rewrite length_app, enc_body_length. lia. }
  assert (BatchLength g = Z.of_nat (length (enc_body g ++ packed))).
  { change (BatchLength g) with (Z.of_nat (length (enc_body f ++ packed))).
    by rewrite !length_app, !enc_body_length. }
  assert (fields_ok g) by done. split.
  - destruct (Z.leb_spec (Z.of_nat (length records)) records_limit).
    + apply read_whole. by apply (batch_reads _ _ Hs Hs' _ _ _ _ (mkBatch g records)); auto.
    + apply read_whole_fails. by apply (batch_over _ _ Hs _ _ _ _ (mkBatch g records)); auto.
  - apply read_header_whole; [by destruct Hf as (_&_&Hm&_)|].
    by apply header_of_batch_reads.
Qed.

End RoundTrip.

(** ** Moving a batch to an offset *)

Definition set_BaseOffset (o : Z) (f : TBatchFields) : TBatchFields :=
  mkFields o (BatchLength f) (PartitionLeaderEpoch f) (Magic f) (Crc f) (Attributes f)
    (LastOffsetDelta f) (BaseTimestamp f) (MaxTimestamp f) (ProducerId f) (ProducerEpoch f)
    (BaseSequence f).

Definition move_batch (o : Z) (b : TKafkaRecordBatch) : TKafkaRecordBatch :=
  mkBatch (set_BaseOffset (wrapS 64 o) (batch_fields b)) (Records b).

Lemma move_batch_ok sr sh compress decompress o b :
  batch_ok sr sh compress decompress b -> batch_ok sr sh compress decompress (move_batch o b).
Proof.
  intros [Hs Ht Hf Hr Hc Hl Hd]. constructor; try done. destruct Hf as [_ Hf]. split; [|done].
  apply wrapS_range. lia.
Qed.

(** [SetKafkaBatchBaseOffset] changes the base offset of a batch and nothing else: the
    length and the checksum stay right, since neither covers the offset. *)
Lemma kafka_base_offset_set sr sh compress decompress b o :
  batch_ok sr sh compress decompress b ->
  exists data data', WriteKafkaRecordBatch compress b 2 = Ok data
    /\ SetKafkaBatchBaseOffset decompress data o = Ok (true, data')
    /\ WriteKafkaRecordBatch compress (move_batch o b) 2 = Ok data'.
Proof.
  intros Hb. pose proof (batch_written _ _ _ _ _ Hb) as Hw.
  destruct (batch_round_trip _ _ _ _ _ Hb) as (data & Hw' & _ & Hh).
  pose proof (batch_written _ _ _ _ _ (move_batch_ok _ _ _ _ o _ Hb)) as Hm.
  do 2 eexists. split_and!; [exact Hw'| |exact Hm]. rewrite Hw in Hw'. injection Hw' as <-.
  unfold SetKafkaBatchBaseOffset. rewrite Hh. cbn [header_fields].
  destruct (ok_fields _ _ _ _ _ Hb) as (_ & _ & Em & _).
  change (Magic (sealed _ _)) with (Magic (batch_fields b)). rewrite Em.
  change (2 <? 2) with false. cbv iota.
  rewrite (appends_run _ (enc_number 8 (wrapS 64 o))); [|done|apply write_number_appends].
  reflexivity.
Qed.

(** ** The codec *)

#[local] Arguments make_record : simpl never.
#[local] Arguments enc_record : simpl never.

Definition message_bytes (p : bytes) (k : option bytes) : Z :=
  64 + Z.of_nat (length p) + Z.of_nat (length (default [] k)).

Definition block_bytes (ctx : TWriteBlockCompression) : Z :=
  64 + fold_right Z.add 0 (zip_with message_bytes (Payloads ctx) (MessageKeys ctx)).

Definition time_ok (t : Z) : Prop := 0 <= t < 2 ^ 63.

(** The messages a reader is to get from a block. *)
Definition block_messages (ctx : TWriteBlockCompression) (t0 : Z) : list TDecompressedMessage :=
  imap (fun i pt =>
    mkMsg pt.1 (Some (mkMsgMeta (Z.of_nat i) ((CtxBaseSequence ctx + Z.of_nat i) mod 2 ^ 31)
                       (pt.2 - t0))))
    (zip (Payloads ctx) (CreatedAt ctx)).

Lemma make_record_delta t0 i p t k :
  time_ok t0 -> time_ok t -> kr_TimestampDelta (make_record t0 i p t k) = t - t0.
Proof.
  unfold time_ok. intros. unfold make_record. cbn [kr_TimestampDelta]. unfold wrapU.
  rewrite wrapS_mod by lia. apply wrapS_small; [lia|]. unfold inS. simpl Z.sub. lia.
Qed.

Lemma make_record_ok lim sh t0 i p t k :
  0 < sh -> 0 <= lim -> time_ok t0 -> time_ok t -> Z.of_nat i < 2 ^ 31 ->
  message_bytes p k < 2 ^ 31 -> record_ok lim sh (make_record t0 i p t k).
Proof.
  intros Hs Hl Ht0 Ht Hi Hb. unfold message_bytes in Hb. unfold record_ok.
  rewrite make_record_delta by done. unfold make_record. cbn [kr_Length kr_Attributes kr_OffsetDelta
    kr_Key kr_Value kr_Headers]. unfold time_ok in *.
  split_and!; try done; try (by apply wrapS_range); try (unfold inS; simpl Z.sub; lia).
  - unfold small_opt, small. lia.
  - unfold small_opt, small. simpl. lia.
  - simpl. by apply Z.div_pos.
Qed.

Lemma enc_record_bound r :
  kr_Headers r = [] ->
  Z.of_nat (length (enc_record r)) <= message_bytes (default [] (kr_Value r)) (kr_Key r).
Proof.
  intros Hh. unfold enc_record, message_bytes. rewrite Hh, !length_app, enc_number_length.
  pose proof (enc_varint_length (kr_Length r)).
  pose proof (enc_varint_length (kr_TimestampDelta r)).
  pose proof (enc_varint_length (kr_OffsetDelta r)).
  pose proof (enc_bytes_length KeyMeta 2 (kr_Key r)).
  pose proof (enc_bytes_length KeyMeta 2 (kr_Value r)).
  change (length (enc_array HeadersMeta enc_kheader 2 [])) with 1%nat. lia.
Qed.

Lemma make_record_length t0 i p t k :
  Z.of_nat (length (enc_record (make_record t0 i p t k))) <= message_bytes p k.
Proof. by apply (enc_record_bound (make_record t0 i p t k)). Qed.

Lemma message_bytes_nonneg ps ks : 0 <= fold_right Z.add 0 (zip_with message_bytes ps ks).
Proof.
  revert ks. induction ps as [|p ps IH]; intros [|k ks]; simpl; try lia.
  specialize (IH ks). unfold message_bytes at 1. lia.
Qed.

Lemma make_records_ok lim sh t0 i ps ts ks :
  0 < sh -> 0 <= lim -> time_ok t0 -> Forall time_ok ts ->
  Z.of_nat (i + length ps) <= 2 ^ 31 ->
  fold_right Z.add 0 (zip_with message_bytes ps ks) < 2 ^ 31 ->
  Forall (record_ok lim sh) (make_records t0 i ps ts ks).
Proof.
  intros Hs Hl Ht0. revert i ts ks.
  induction ps as [|p ps IH]; intros i ts ks Hts Hi Hb; simpl; [constructor|].
  destruct ts as [|t ts]; [constructor|]. destruct ks as [|k ks]; [constructor|].
  apply Forall_cons in Hts as [Ht Hts]. simpl in Hb, Hi.
  pose proof (message_bytes_nonneg ps ks).
  assert (0 <= message_bytes p k) by (unfold message_bytes; lia).
  constructor; [apply make_record_ok; try done; lia|]. apply IH; [done|lia|lia].
Qed.

Lemma make_records_length t0 i ps ts ks :
  length ts = length ps -> length ks = length ps ->
  length (make_records t0 i ps ts ks) = length ps.
Proof.
  revert i ts ks. induction ps as [|p ps IH]; intros i [|t ts] [|k ks] Ht Hk; simpl in *; try lia.
  rewrite IH; lia.
Qed.

Lemma make_records_bytes t0 i ps ts ks :
  Z.of_nat (length (concat (map enc_record (make_records t0 i ps ts ks))))
  <= fold_right Z.add 0 (zip_with message_bytes ps ks).
Proof.
  revert i ts ks. induction ps as [|p ps IH]; intros i ts ks; simpl; [done|].
  destruct ts as [|t ts]; [apply message_bytes_nonneg with (ps := p :: ps)|].
  destruct ks as [|k ks]; [done|]. cbn [map concat zip_with fold_right].
  rewrite length_app, Nat2Z.inj_add. apply Z.add_le_mono; [apply make_record_length|apply IH].
Qed.

Lemma mod_64_31 x : wrapU 64 x mod 2 ^ 31 = x mod 2 ^ 31.
Proof.
  unfold wrapU. apply Z.mod_mod_divide. by exists (2 ^ 33).
Qed.

Lemma seq_no_mod s i :
  wrapU 64 (wrapU 64 (wrapS 32 s) + i) mod 2 ^ 31 = (s + i) mod 2 ^ 31.
Proof.
  rewrite mod_64_31, <- Zplus_mod_idemp_l, mod_64_31.
  destruct (wrapS_cong 32 s ltac:(lia)) as [k ->].
  replace (s + k * 2 ^ 32) with (s + (2 * k) * 2 ^ 31) by lia.
  by rewrite Z.mod_add, Zplus_mod_idemp_l by lia.
Qed.

Lemma imap_make_records {A} (g : nat -> TKafkaRecord -> A) (h : nat -> bytes * Z -> A) t0 :
  (forall j p t k, time_ok t -> Z.of_nat j < 2 ^ 31 -> g j (make_record t0 j p t k) = h j (p, t)) ->
  forall ps i ts ks,
  length ts = length ps -> length ks = length ps -> Forall time_ok ts ->
  Z.of_nat (i + length ps) <= 2 ^ 31 ->
  imap (fun j => g (i + j)%nat) (make_records t0 i ps ts ks)
  = imap (fun j => h (i + j)%nat) (zip ps ts).
Proof.
  intros Hg ps. induction ps as [|p ps IH]; intros i [|t ts] [|k ks] Ht Hk Hts Hi;
    try done. apply Forall_cons in Hts as [Ht' Hts].
  cbn [make_records zip_with]. rewrite !imap_cons, Nat.add_0_r. cbn [length] in *.
  rewrite Hg by (done || lia). f_equal.
  specialize (IH (S i) ts ks ltac:(lia) ltac:(lia) Hts ltac:(lia)).
  etransitivity; [|etransitivity; [exact IH|]].
  all: apply imap_ext; intros j x _; cbn; f_equal; lia.
Qed.

Section Codec.
Context (sizeof_TKafkaRecord sizeof_TKafkaHeader : Z).
Context (compress : Z -> bytes -> bytes) (decompress : Z -> bytes -> option bytes).

(** A block of messages, the first of them created at [t0]; [t] is the compression of its
    batch.  There is at least one message, each with its time and its key; with 64 bytes
    more for each message the block is under 2^31 bytes, compressed or not; the codec is
    one the batch can use, and its decompressor undoes its compressor. *)
Record block_ok (ctx : TWriteBlockCompression) (t0 t : Z) : Prop := {
  blk_sizeof : 0 < sizeof_TKafkaRecord /\ 0 < sizeof_TKafkaHeader;
  blk_count : (1 <= length (Payloads ctx))%nat;
  blk_created : length (CreatedAt ctx) = length (Payloads ctx) /\ head (CreatedAt ctx) = Some t0
    /\ Forall time_ok (CreatedAt ctx);
  blk_keys : length (MessageKeys ctx) = length (Payloads ctx);
  blk_bytes : block_bytes ctx < 2 ^ 31;
  blk_codec : ToKafkaBatchInnerCompression (BatchInnerCodec ctx) = Ok t;
  blk_stream : t <> NONE -> forall d,
    decompress t (compress t d) = Some d
    /\ (Z.of_nat (length d) <= block_bytes ctx ->
        64 + Z.of_nat (length (compress t d)) < 2 ^ 31);
}.

Lemma inner_supported c t : ToKafkaBatchInnerCompression c = Ok t -> supported t.
Proof.
  unfold ToKafkaBatchInnerCompression, supported.
  destruct c as [c|]; [|intros [= <-]; by left].
  destruct (c =? ECodec_GZIP); [intros [= <-]; auto|].
  destruct (c =? ECodec_ZSTD); [intros [= <-]; auto|done].
Qed.

Definition block_records (ctx : TWriteBlockCompression) (t0 : Z) : list TKafkaRecord :=
  make_records t0 0 (Payloads ctx) (CreatedAt ctx) (MessageKeys ctx).

Definition block_fields (ctx : TWriteBlockCompression) (t0 t len : Z) : TBatchFields :=
  mkFields 0 len (-1) 2 0 t (wrapS 32 (Z.of_nat (length (Payloads ctx)) - 1)) (wrapS 64 t0)
    (fold_left (fun m t => Z.max m (wrapS 64 t)) (CreatedAt ctx) (wrapS 64 t0)) 0 0
    (wrapS 32 (CtxBaseSequence ctx)).

Lemma max_range ts m : inS 64 m -> inS 64 (fold_left (fun m t => Z.max m (wrapS 64 t)) ts m).
Proof.
  revert m. induction ts as [|t ts IH]; intros m Hm; simpl; [done|]. apply IH.
  pose proof (wrapS_range 64 t ltac:(lia)). unfold inS in *. lia.
Qed.

Lemma supported_type t : supported t -> Z.land t 7 = t.
Proof. by intros [->|[->| ->]]. Qed.

Lemma block_count_small ctx t0 t :
  block_ok ctx t0 t -> Z.of_nat (length (Payloads ctx)) < 2 ^ 31.
Proof.
  intros [_ _ _ Hk Hb _ _]. unfold block_bytes in Hb. revert Hb Hk.
  generalize (MessageKeys ctx). generalize (Payloads ctx). intros ps ks Hb Hk.
  enough (Z.of_nat (length ps) <= fold_right Z.add 0 (zip_with message_bytes ps ks)) by lia.
  clear Hb. revert ks Hk. induction ps as [|p ps IH]; intros [|k ks] Hk; simplify_eq/=; [lia|].
  specialize (IH ks Hk). unfold message_bytes at 1. lia.
Qed.

Lemma block_batch_ok ctx t0 t len :
  block_ok ctx t0 t ->
  batch_ok sizeof_TKafkaRecord sizeof_TKafkaHeader compress decompress
    (mkBatch (block_fields ctx t0 t len) (block_records ctx t0)).
Proof.
  intros Hblk. pose proof (block_count_small _ _ _ Hblk) as Hn31.
  destruct Hblk as [[Hs Hs'] Hn (Hc & Hh & Ht) Hk Hb Hi Hd].
  pose proof (inner_supported _ _ Hi) as Hsup. pose proof (supported_type t Hsup) as Et.
  assert (length (block_records ctx t0) = length (Payloads ctx)) as Hlen
    by (by apply make_records_length).
  pose proof (make_records_bytes t0 0 (Payloads ctx) (CreatedAt ctx) (MessageKeys ctx)) as Hby.
  fold (block_records ctx t0) in Hby. unfold block_bytes in Hb, Hd.
  assert (time_ok t0) as Ht0.
  { destruct (CreatedAt ctx); simplify_eq/=. by apply Forall_cons in Ht as [??]. }
  constructor; cbn [batch_fields Records]; unfold CompressionType; cbn [Attributes block_fields];
    rewrite ?Et; try done.
  - unfold fields_ok. cbn [block_fields BaseOffset PartitionLeaderEpoch Magic Attributes
      LastOffsetDelta BaseTimestamp MaxTimestamp ProducerId ProducerEpoch BaseSequence].
    split_and!; try done; try (by apply wrapS_range); try (by apply max_range, wrapS_range).
    by destruct Hsup as [->|[->| ->]].
  - apply make_records_ok; try done; [simpl; lia|lia].
  - by rewrite Hlen.
  - unfold enc_packed. destruct (t =? NONE) eqn:E; bool_to_prop.
    + unfold enc_array. rewrite length_app.
      pose proof (enc_size_length RecordsMeta 2 (Z.of_nat (length (block_records ctx t0)))). lia.
    + rewrite length_app, enc_number_length.
      destruct (Hd E (concat (map enc_record (block_records ctx t0)))) as [_ Hl]. lia.
  - intros. by apply Hd.
Qed.

Lemma batch_size_returns b :
  batch_ok sizeof_TKafkaRecord sizeof_TKafkaHeader compress decompress b ->
  exists size, run_on tt (TKafkaRecordBatch_Size compress 2 b) = Ok size.
Proof.
  intros [_ Hsup _ Hrec _ _ _]. unfold TKafkaRecordBatch_Size, run_on, mbind, M_bind.
  rewrite EnsureSupported_ok by done. cbv zeta.
  destruct (CompressionType _ =? NONE) eqn:E; [by eexists|bool_to_prop].
  rewrite (Serialize_ok sizeof_TKafkaHeader DefaultMaxArrayBytes) by done.
  rewrite Compress_ok by done. by eexists.
Qed.

Lemma block_time ctx t0 t : block_ok ctx t0 t -> time_ok t0 /\ wrapS 64 t0 = t0.
Proof.
  intros Hb. destruct (blk_created _ _ _ Hb) as (_ & Hh & Ht).
  assert (time_ok t0) as Ht0.
  { destruct (CreatedAt ctx); simplify_eq/=. by apply Forall_cons in Ht as [??]. }
  split; [done|]. apply wrapS_small; [lia|]. unfold time_ok in Ht0. unfold inS. simpl Z.sub. lia.
Qed.

Lemma block_written ctx t0 t :
  block_ok ctx t0 t -> (2 <= length (Payloads ctx))%nat ->
  exists data,
    CompressWriteBlock compress ctx
    = Ok (mkCtx [data] (CreatedAt ctx) (MessageKeys ctx) data CODEC_KAFKA_BATCH true
            (CtxBaseSequence ctx) (BatchInnerCodec ctx))
    /\ ReadKafkaRecordBatch sizeof_TKafkaRecord sizeof_TKafkaHeader decompress data 2
       = (if Z.of_nat (length (Payloads ctx)) <=? records_limit sizeof_TKafkaRecord
          then Ok (mkBatch (sealed (block_fields ctx t0 t 0) data) (block_records ctx t0))
          else Fail (Throw "array"))
    /\ ReadKafkaBatchHeader decompress data 2
       = Ok (Some (mkBatchHeader (sealed (block_fields ctx t0 t 0) data)
                     (Z.of_nat (length (Payloads ctx))))).
Proof.
  intros Hb Hn. destruct (block_time _ _ _ Hb) as [_ E0].
  destruct (batch_size_returns _ (block_batch_ok ctx t0 t 0 Hb)) as [size Hsize].
  destruct (batch_round_trip _ _ _ _ _ (block_batch_ok ctx t0 t (wrapS 32 (size - 8 - 4)) Hb))
    as (data & Hw & Hr & Hh). exists data.
  destruct (blk_created _ _ _ Hb) as (Hc & Hhd & _).
  assert (length (block_records ctx t0) = length (Payloads ctx)) as Hlen.
  { apply make_records_length; [done|]. apply (blk_keys _ _ _ Hb). }
  cbn [batch_fields Records] in Hr, Hh. rewrite Hlen in Hr, Hh. split_and!; [|exact Hr|exact Hh].
  unfold CompressWriteBlock. rewrite (proj2 (Nat.eqb_neq _ 1)) by lia.
  rewrite Hc, (blk_keys _ _ _ Hb), Nat.eqb_refl. cbn [negb].
  destruct (CreatedAt ctx) as [|t1 ts] eqn:Ec; [done|]. simpl in Hhd. simplify_eq.
  rewrite <- Ec. rewrite (blk_codec _ _ _ Hb). cbv [mbind outcome_bind]. cbv zeta.
  unfold block_fields, block_records in Hsize, Hw. rewrite !E0 in *. rewrite Hsize, Hw. done.
Qed.

End Codec.

Lemma decoded_messages batch ctx t0 :
  ProducerId (batch_fields batch) = 0 ->
  BaseSequence (batch_fields batch) = wrapS 32 (CtxBaseSequence ctx) ->
  length (CreatedAt ctx) = length (Payloads ctx) ->
  length (MessageKeys ctx) = length (Payloads ctx) ->
  Forall time_ok (CreatedAt ctx) -> time_ok t0 -> Z.of_nat (length (Payloads ctx)) <= 2 ^ 31 ->
  imap (fun i record =>
    mkMsg (KafkaBytesToString (kr_Value record))
      (Some (mkMsgMeta (wrapS 32 (kr_OffsetDelta record))
               (wrapS 64 (GetRecordSeqNo batch (Z.of_nat i) record))
               (kr_TimestampDelta record)))) (block_records ctx t0)
  = block_messages ctx t0.
Proof.
  intros Hp Hs Hc Hk Ht Ht0 Hn. unfold block_records, block_messages.
  set (g := fun (i : nat) (record : TKafkaRecord) => _). set (h := fun (i : nat) pt => _).
  apply (imap_make_records g h t0) with (i := 0%nat); [|done..].
  intros j p t k Htk Hj. unfold g, h. rewrite make_record_delta by done.
  unfold make_record. cbn [kr_Value kr_OffsetDelta KafkaBytesToString default fst snd].
  unfold GetRecordSeqNo. rewrite Hp, Hs. change (0 <=? 0) with true. cbn iota zeta.
  rewrite seq_no_mod.
  pose proof (Z.mod_pos_bound (CtxBaseSequence ctx + Z.of_nat j) (2 ^ 31) ltac:(lia)).
  rewrite !wrapS_small by (lia || (unfold inS; simpl Z.sub; lia)). done.
Qed.

Lemma timestamp_inverse t0 t : time_ok t -> GetRecordTimestamp t0 (t - t0) = t.
Proof.
  unfold time_ok, GetRecordTimestamp, wrapU. intros. rewrite wrapS_mod by lia.
  rewrite <- wrapS_mod, <- Zplus_mod, wrapS_mod by lia.
  replace (t0 + (t - t0)) with t by lia. apply wrapS_small; [lia|].
  unfold inS. simpl Z.sub. lia.
Qed.

(** C12: what the Kafka batch codec does to a block of messages ([block_ok]: at least one
    message, with a time and a key slot each, under 2^31 bytes when 64 more are counted for
    each message, and a compressor that is undone by its decompressor).
    A block of one message is left as it is.  For a block of two or more,
    [CompressWriteBlock] replaces the payloads by one batch, and the number of messages
    that the read session takes from the header of that batch is their number.  When there
    are at most [records_limit] messages (32 MiB over the size of a record),
    [DecompressData] gives back every message with its data, its place in the batch, the
    time it was created at (as a difference that [GetRecordTimestamp] undoes) and its
    sequence number modulo 2^31.  A batch of more messages is written all the same, and
    [DecompressData] throws on it. *)
Theorem kafka_codec_round_trip sizeof_TKafkaRecord sizeof_TKafkaHeader compress decompress
  ctx t0 t :
  block_ok sizeof_TKafkaRecord sizeof_TKafkaHeader compress decompress ctx t0 t ->
  exists ctx', CompressWriteBlock compress ctx = Ok ctx'
    /\ if (length (Payloads ctx) =? 1)%nat then ctx' = ctx else
       Payloads ctx' = [CtxData ctx'] /\ CodecID ctx' = CODEC_KAFKA_BATCH
    /\ Compressed ctx' = true
    /\ DecompressData sizeof_TKafkaRecord sizeof_TKafkaHeader decompress (CtxData ctx')
       = (if Z.of_nat (length (Payloads ctx)) <=? records_limit sizeof_TKafkaRecord
          then Ok (mkResult (block_messages ctx t0) (Some 0) (Some 0) (Some t0))
          else Fail (Throw "array"))
    /\ kafka_message_count decompress (CtxData ctx') = Ok (Z.of_nat (length (Payloads ctx)))
    /\ Forall (fun t => GetRecordTimestamp t0 (t - t0) = t) (CreatedAt ctx).
Proof.
  intros Hb. destruct (Nat.eqb_spec (length (Payloads ctx)) 1) as [E1|E1].
  { exists ctx. split; [|done]. unfold CompressWriteBlock. by rewrite E1. }
  pose proof (blk_count _ _ _ _ _ _ _ Hb) as Hn1.
  destruct (block_written _ _ _ _ _ _ _ Hb ltac:(lia)) as (data & Hw & Hr & Hh).
  destruct (block_time _ _ _ _ _ _ _ Hb) as [Ht0 E0].
  pose proof (block_count_small _ _ _ _ _ _ _ Hb) as Hn31.
  destruct Hb as [[Hs Hs'] _ (Hc & Hhd & Ht) Hk Hb Hi Hd].
  eexists. split; [exact Hw|]. cbn [Payloads CtxData CodecID Compressed]. split_and!; try done.
  - unfold DecompressData. rewrite Hr. destruct (_ <=? _); [|done].
    cbn [batch_fields Records]. do 2 f_equal.
    + apply decoded_messages; try done. lia.
    + cbn [sealed with_length_crc block_fields BaseTimestamp]. by rewrite E0.
  - unfold kafka_message_count. rewrite Hh. cbn [RecordsCount].
    by rewrite wrapU_small by (unfold inU; lia).
  - eapply Forall_impl; [exact Ht|]. intros. by apply timestamp_inverse.
Qed.

(** ** The header of any batch that can be read *)

Lemma bind_ok {S A B} (m : M S A) (f : A -> M S B) s b s2 :
  (m ≫= f) s = Ok (b, s2) -> exists a s1, m s = Ok (a, s1) /\ f a s1 = Ok (b, s2).
Proof. unfold mbind, M_bind. destruct (m s) as [[a s1]|]; [|done]. eauto. Qed.

Lemma bind_intro {S A B} (m : M S A) (f : A -> M S B) s a s1 r :
  m s = Ok (a, s1) -> f a s1 = r -> (m ≫= f) s = r.
Proof. intros E <-. unfold mbind, M_bind. by rewrite E. Qed.

Lemma Bytes_ok n r v r' :
  Bytes n r = Ok (v, r') ->
  r' = advance n r /\ v = take n (drop (Position r) (Is r))
  /\ (Position r + n <= length (Is r))%nat.
Proof.
  unfold Bytes, checkEof, slice.
  cbv [mbind M_bind mret M_ret get_st gets modify throw undefined].
  destruct (readable_left r <? n)%nat; [done|].
  destruct (_ <=? _)%nat eqn:E; [|done]. nat_to_prop. intros [= <- <-]. done.
Qed.

Lemma on_state_ok {S T A} (s : T) (m : M T A) (r : S) a r' :
  on_state s m r = Ok (a, r') -> r' = r /\ exists s', m s = Ok (a, s').
Proof.
  unfold on_state. destruct (m s) as [[a' s']|]; [|done]. intros [= <- <-]. eauto.
Qed.

Lemma run_on_ok {T A} (s : T) (m : M T A) a :
  run_on s m = Ok a -> exists s', m s = Ok (a, s').
Proof. unfold run_on. destruct (m s) as [[a' s']|]; [|done]. intros [= <-]. eauto. Qed.

Ltac inv_bind H :=
  let a := fresh "a" in let s := fresh "s" in let E := fresh "E" in
  apply bind_ok in H as (a & s & E & H).

Lemma check_magic_ok z s x s' : check_magic z s = Ok (x, s') -> s' = s /\ z = 2.
Proof.
  unfold check_magic. destruct (z =? 2) eqn:E; [|done]. bool_to_prop. by intros [= _ ->].
Qed.

Lemma check_compression_ok z s x s' : check_compression z s = Ok (x, s') -> s' = s.
Proof.
  unfold check_compression, EnsureSupportedCompressionType. intros H. inv_bind H.
  destruct (_ && _); [done|]. destruct (_ || _); [|done].
  injection E as <- <-. by injection H.
Qed.

(** Without its checks, [read_fields] reads the same. *)
Lemma read_fields_ok bo bl r f r' :
  read_fields 2 bo bl check_magic check_compression r = Ok (f, r') ->
  read_fields 2 bo bl no_check no_check r = Ok (f, r')
  /\ exists r1, read_int 4 2 (-1) r = Ok (PartitionLeaderEpoch f, r1)
                /\ exists r2, read_int 1 2 2 r1 = Ok (2, r2).
Proof.
  unfold read_fields. intros H. inv_bind H. inv_bind H. inv_bind H. inv_bind H. inv_bind H.
  inv_bind H. apply check_magic_ok in E1 as [-> ->]. apply check_compression_ok in E4 as ->.
  split.
  - do 2 (eapply bind_intro; [eassumption|]). eapply bind_intro; [done|].
    do 2 (eapply bind_intro; [eassumption|]). eapply bind_intro; [done|]. exact H.
  - do 6 inv_bind H. injection H as <- <-. eauto.
Qed.

Lemma repeat_read_length {A} n (item : M TKafkaReadable A) r l r' :
  repeat_read n item r = Ok (l, r') -> length l = n.
Proof.
  revert r l. induction n as [|n IH]; intros r l H; cbn [repeat_read] in H.
  - by injection H as <- <-.
  - do 2 inv_bind H. injection H as <- <-. cbn [length]. f_equal. by eapply IH.
Qed.

Lemma read_records_count sr sh decompress t r records r' :
  read_records sr sh decompress 2 t r = Ok (records, r') ->
  exists r1, read_int 4 2 0 r = Ok (Z.of_nat (length records), r1).
Proof.
  unfold read_records. destruct (t =? NONE); intros H.
  - change (Array_DoRead RecordsMeta sr (TKafkaRecord_Read sh 2) 2 r = Ok (records, r')) in H.
    unfold Array_DoRead in H. inv_bind H. destruct (a <? 0) eqn:En; [done|]. bool_to_prop.
    inv_bind H. apply repeat_read_length in H. exists s. change (read_number 4 r = Ok (Z.of_nat (length records), s)).
    change (read_number 4 r = Ok (a, s)) in E. rewrite E, H. do 2 f_equal. lia.
  - inv_bind H. inv_bind H. unfold EnsureValidRecordBatchRecordsCount in E0.
    destruct (a <? 0) eqn:En; [done|]. bool_to_prop. do 4 inv_bind H.
    apply on_state_ok in H as [_ [s' H]]. inv_bind H. apply repeat_read_length in H.
    exists s. change (read_number 4 r = Ok (Z.of_nat (length records), s)).
    change (read_number 4 r = Ok (a, s)) in E. rewrite E, H. do 2 f_equal. lia.
Qed.

Lemma read_number_ok w r v r' :
  read_number w r = Ok (v, r') ->
  r' = advance w r /\ (Position r + w <= length (Is r))%nat
  /\ v = wrapS (8 * Z.of_nat w) (le_val (rev (take w (drop (Position r) (Is r))))).
Proof.
  unfold read_number. intros H. inv_bind H. apply Bytes_ok in E as (-> & -> & ?).
  injection H as <- <-. by rewrite NormalizeNumber_rev.
Qed.

Lemma magic_byte r v r' :
  read_int 1 2 2 r = Ok (v, r') ->
  exists c, Is r !! Position r = Some c /\ v = wrapS 8 (byte_val c).
Proof.
  intros H. apply (read_number_ok 1) in H as (_ & Hl & ->).
  destruct (lookup_lt_is_Some_2 (Is r) (Position r)) as [c Hc]; [lia|]. exists c.
  split; [done|]. rewrite (drop_S _ _ _ Hc). cbn [take]. unfold le_val. simpl rev.
  change (8 * Z.of_nat 1) with 8. cbn [le_val]. f_equal. lia.
Qed.

Lemma TakeBody_ok n r body r' :
  TakeRecordBatchBody n r = Ok (body, r') -> body = take (Z.to_nat n) (drop (Position r) (Is r)).
Proof.
  unfold TakeRecordBatchBody. destruct (n <? 0); [done|]. intros H. inv_bind H.
  unfold EnsureLengthFitsRemaining in E. inv_bind E. destruct (_ <? _); [done|].
  injection E0 as <- <-. injection E as <- <-. by apply Bytes_ok in H as (_ & -> & _).
Qed.

Lemma on_state_intro {S T A} (s : T) (m : M T A) a s' (r : S) :
  m s = Ok (a, s') -> on_state s m r = Ok (a, r).
Proof. unfold on_state. by intros ->. Qed.

(** Byte 16 of the bytes is the fifth of the body, which starts at byte 12. *)
Lemma body_magic (data : bytes) n c :
  take n (drop 12 data) !! 4%nat = Some c -> data !! RecordBatchMagicOffset = Some c.
Proof.
  intros H. destruct (decide (4 < n)%nat); [|by rewrite lookup_take_ge in H by lia].
  by rewrite lookup_take_lt, lookup_drop in H.
Qed.

Lemma batch_read_ok sr sh decompress r0 b r' :
  Position r0 = 0%nat -> TKafkaRecordBatch_Read sr sh decompress 2 r0 = Ok (b, r') ->
  (exists r, TKafkaBatchHeader_Read 2 r0
             = Ok (mkBatchHeader (batch_fields b) (Z.of_nat (length (Records b))), r))
  /\ exists c, Is r0 !! RecordBatchMagicOffset = Some c /\ wrapS 8 (byte_val c) = 2.
Proof.
  intros Hp E. unfold TKafkaRecordBatch_Read in E. inv_bind E. injection E0 as _ <-.
  apply bind_ok in E as (bo & r1 & E1 & E). apply bind_ok in E as (bl & r2 & E2 & E).
  apply bind_ok in E as (body & r3 & E3 & E). inv_bind E. injection E0 as <- <-.
  apply on_state_ok in E as [-> [s' E]]. apply bind_ok in E as (f & r4 & E4 & E).
  apply bind_ok in E as (records & r5 & E5 & E). injection E as <- _.
  cbn [batch_fields Records].
  apply read_fields_ok in E4 as (Hf & r6 & Hr6 & r7 & Hr7).
  apply read_records_count in E5 as [r8 Hr8]. split.
  - eexists. unfold TKafkaBatchHeader_Read. eapply bind_intro; [done|].
    eapply bind_intro; [exact E1|]. eapply bind_intro; [exact E2|].
    eapply bind_intro; [exact E3|]. eapply bind_intro; [done|].
    eapply on_state_intro. eapply bind_intro; [exact Hf|].
    eapply bind_intro; [exact Hr8|]. unfold EnsureValidRecordBatchRecordsCount.
    rewrite (proj2 (Z.ltb_ge _ _)) by lia. done.
  - apply magic_byte in Hr7 as (c & Hc & Hv). exists c. split; [|done].
    apply (read_number_ok 4) in Hr6 as (-> & _ & _). apply TakeBody_ok in E3.
    apply (read_number_ok 8) in E1 as (-> & _ & _). apply (read_number_ok 4) in E2 as (-> & _ & _).
    cbn [advance readable_from Is Position] in *. rewrite Hp in E3. subst body.
    by eapply body_magic.
Qed.

(** C19: for any bytes, whatever their origin: if they can be read as a batch, then the
    header that is read without the records has the fields of that batch and the number
    of its records, so that the read session counts the messages it will get. *)
Theorem kafka_header_agrees sizeof_TKafkaRecord sizeof_TKafkaHeader decompress data b :
  ReadKafkaRecordBatch sizeof_TKafkaRecord sizeof_TKafkaHeader decompress data 2 = Ok b ->
  ReadKafkaBatchHeader decompress data 2
  = Ok (Some (mkBatchHeader (batch_fields b) (Z.of_nat (length (Records b))))).
Proof.
  unfold ReadKafkaRecordBatch. set (r0 := SetAllowCompressed true (new_readable data)).
  intros [r' H]%run_on_ok. apply bind_ok in H as (b' & r1 & E & H). inv_bind H.
  destruct (negb _); [done|]. injection H as -> _.
  apply batch_read_ok in E as [[r2 Eh] (c & Hc & Hv)]; [|done].
  unfold ReadKafkaBatchHeader. change (Is r0) with data in Hc. rewrite Hc.
  pose proof (lookup_lt_Some _ _ _ Hc). rewrite (proj2 (Nat.leb_gt _ _)) by done.
  replace (byte_val c <? 2) with false.
  - fold r0. unfold run_on. by rewrite Eh.
  - symmetry. apply Z.ltb_ge. pose proof (byte_val_range c).
    destruct (decide (byte_val c < 128)); [|lia].
    rewrite wrapS_small in Hv by (lia || (unfold inS; simpl Z.sub; lia)). lia.
Qed.

(** The largest sequence number that the header promises is that of the last record. *)
Lemma kafka_max_seq_no h b r :
  header_fields h = batch_fields b -> RecordsCount h = Z.of_nat (length (Records b)) ->
  0 <= ProducerId (batch_fields b) -> 0 <= BaseSequence (batch_fields b) < 2 ^ 31 ->
  0 < RecordsCount h < 2 ^ 31 ->
  GetBatchBaseSeqNo (header_fields h) = (NONE_ERROR, BaseSequence (batch_fields b))
  /\ GetBatchMaxSeqNo h (BaseSequence (batch_fields b))
     = (NONE_ERROR, GetRecordSeqNo b (RecordsCount h - 1) r).
Proof.
  intros Hf Hc Hp Hs Hn. unfold GetBatchBaseSeqNo, GetBatchMaxSeqNo, GetRecordSeqNo.
  rewrite Hf, !(proj2 (Z.leb_le 0 (ProducerId _))) by done.
  rewrite (proj2 (Z.ltb_ge _ _)) by lia. split; [done|]. do 2 f_equal.
  rewrite !(wrapU_small 64 (RecordsCount h)), (wrapU_small 64 (BaseSequence _))
    by (unfold inU; lia). f_equal. lia.
Qed.

(** ** Arbitrary bytes *)

Definition no_crash {A} (o : outcome A) : Prop :=
  match o with Ok _ => True | Fail (Throw _) => True | Fail _ => False end.

Lemma safe_run {A} n (m : M TKafkaReadable A) r :
  safe n m -> (Position r <= length (Is r))%nat -> no_crash (run_on r m).
Proof.
  intros Hm Hr. specialize (Hm r Hr). unfold run_on. by destruct (m r) as [[? ?]|[]].
Qed.

Lemma safe_on_state {A} r0 (m : M TKafkaReadable A) :
  (Position r0 <= length (Is r0))%nat -> no_crash (run_on r0 m) -> safe 0 (on_state r0 m).
Proof.
  intros Hr Hm. apply safe_stay. intros r. unfold on_state, run_on in *.
  by destruct (m r0) as [[? ?]|[]].
Qed.

Lemma safe_on_safe {A} data r (m : M TKafkaReadable A) :
  safe 0 m -> safe 0 (on_state (readable_from data r) m).
Proof. intros Hm. apply safe_on_state; [simpl; lia|]. eapply safe_run; [done|]. simpl. lia. Qed.

Lemma safe_version v version : safe 0 (ensure_version v version).
Proof. apply safe_if; auto with kafka. Qed.

Lemma safe_supported t : safe 0 (EnsureSupportedCompressionType t).
Proof. apply safe_if; auto with kafka. Qed.

Lemma safe_count n : safe 0 (EnsureValidRecordBatchRecordsCount n).
Proof. apply safe_if; auto with kafka. Qed.

Lemma safe_read_int w version d : safe w (read_int w version d).
Proof. apply safe_read_number. Qed.

#[local] Hint Resolve safe_version safe_supported safe_count safe_read_int : kafka.

Ltac safe_steps :=
  repeat match goal with
  | |- safe 0 (mbind _ _) => apply safe_bind0; [try (eapply safe_any; by eauto with kafka)|intros ?]
  end; auto with kafka.

Lemma safe_header_read version : safe 0 (TKafkaHeader_Read version).
Proof.
  unfold TKafkaHeader_Read. safe_steps; apply safe_Read_field; eapply safe_any; auto with kafka.
Qed.

Lemma safe_Varint_DoRead m w version : (0 < w)%nat -> safe 0 (Varint_DoRead m w version).
Proof.
  intros. apply safe_if; [apply (safe_any 1), safe_readVarint; lia|].
  eapply safe_any, safe_read_number.
Qed.

Lemma safe_record_read sh version : safe 0 (TKafkaRecord_Read sh version).
Proof.
  unfold TKafkaRecord_Read. safe_steps; apply safe_Read_field;
    first [apply safe_Varint_DoRead; lia | eapply safe_any, safe_Bytes_DoRead
          | eapply safe_any, safe_Array_DoRead, safe_header_read].
Qed.

Lemma safe_decompress decompress data t : safe 0 (DecompressRecordBatchPayload decompress data t).
Proof.
  unfold DecompressRecordBatchPayload. safe_steps. apply safe_if; [auto with kafka|].
  apply safe_if; [|auto with kafka]. destruct (decompress t data); auto with kafka.
Qed.

Lemma safe_read_fields bo bl check check' :
  (forall z, safe 0 (check z)) -> (forall z, safe 0 (check' z)) ->
  safe 0 (read_fields 2 bo bl check check').
Proof. intros H1 H2. unfold read_fields. safe_steps. Qed.

Lemma safe_read_records sr sh decompress t : safe 0 (read_records sr sh decompress 2 t).
Proof.
  unfold read_records. apply safe_if.
  - apply safe_Read_field. eapply safe_any, safe_Array_DoRead, safe_record_read.
  - safe_steps; [apply safe_decompress|]. apply safe_on_safe. safe_steps.
    apply safe_repeat_read, safe_record_read.
Qed.

Lemma safe_TakeBody n : safe 0 (TakeRecordBatchBody n).
Proof. apply safe_if; [auto with kafka|]. safe_steps. eapply safe_any, safe_Bytes. Qed.

Lemma safe_check_compression z : safe 0 (check_compression z).
Proof. unfold check_compression. safe_steps. Qed.

Lemma safe_check_magic z : safe 0 (check_magic z).
Proof. apply safe_if; auto with kafka. Qed.

Lemma safe_batch_read sr sh decompress : safe 0 (TKafkaRecordBatch_Read sr sh decompress 2).
Proof.
  unfold TKafkaRecordBatch_Read. safe_steps; [apply safe_TakeBody|]. apply safe_on_safe.
  apply safe_bind0; [apply safe_read_fields|intros f].
  - apply safe_check_magic.
  - apply safe_check_compression.
  - apply safe_bind0; [apply safe_read_records|auto with kafka].
Qed.

Lemma safe_batch_header_read : safe 0 (TKafkaBatchHeader_Read 2).
Proof.
  unfold TKafkaBatchHeader_Read. safe_steps; [apply safe_TakeBody|]. apply safe_on_safe.
  apply safe_bind0; [apply safe_read_fields; intros; apply safe_ret|intros f]. safe_steps.
Qed.

Lemma safe_entry version : safe 1 (TKafkaRecordBatchV0_Read version).
Proof.
  unfold TKafkaRecordBatchV0_Read. apply safe_bind0; [auto with kafka|intros _].
  apply safe_bind1; [apply (safe_weaken 8); [lia|apply safe_read_int]|intros o].
  apply safe_bind0; [|auto with kafka]. unfold TKafkaRecordV0_Read.
  safe_steps; apply safe_Read_field; eapply safe_any;
    solve [apply safe_read_number | apply safe_Bytes_DoRead].
Qed.

Lemma bind_no_crash {A B} n (m : M TKafkaReadable A) (f : A -> M TKafkaReadable B) r :
  safe n m -> (Position r <= length (Is r))%nat ->
  (forall a k, (n <= k)%nat -> (Position r + k <= length (Is r))%nat ->
               no_crash (run_on (advance k r) (f a))) ->
  no_crash (run_on r (m ≫= f)).
Proof.
  intros Hm Hr Hf. specialize (Hm r Hr). unfold run_on, mbind, M_bind in *.
  destruct (m r) as [[a r1]|[]]; try done. destruct Hm as (k & Hk & -> & Hr1). by apply Hf.
Qed.

Lemma left_advance k r : (readable_left (advance k r) <= readable_left r - k)%nat.
Proof.
  unfold readable_left. cbn [advance Is Position].
  destruct (Position r + k <? _)%nat eqn:E1, (Position r <? _)%nat eqn:E2; nat_to_prop; lia.
Qed.

(** The loop over uncompressed legacy entries ends within the bytes that are left. *)
Lemma legacy_no_crash {C} decompress fuel magic (consumer : TConsumer C) c r :
  (forall c e, safe 0 (OnUncompressed C consumer c e)) ->
  (Position r <= length (Is r))%nat -> (readable_left r <= fuel)%nat ->
  no_crash (run_on r (ForEachLegacyRecordBatch decompress fuel magic false consumer c)).
Proof.
  intros Hc. revert c r. induction fuel as [|fuel IH]; intros c r Hr Hl.
  all: cbn [ForEachLegacyRecordBatch]; unfold run_on at 1, mbind at 1, M_bind at 1, gets.
  - by rewrite (proj2 (Nat.ltb_ge 0 _)) by lia.
  - destruct (0 <? readable_left r)%nat eqn:E; [|done]. nat_to_prop.
    fold (run_on r (entryMagic ← take_ 16;
      if negb (entryMagic =? magic) then throw "Kafka legacy record magic"
      else entry ← TKafkaRecordBatchV0_Read magic;
           if LegacyCompressionType (v0_Record entry) =? NONE then
             c ← OnUncompressed C consumer c entry;
             ForEachLegacyRecordBatch decompress fuel magic false consumer c
           else throw "Supported only CompressionType::NONE" : M TKafkaReadable C)).
    apply (bind_no_crash 0); [apply safe_take|done|]. intros a k1 _ Hk1.
    destruct (negb _); [done|]. apply (bind_no_crash 1); [apply safe_entry|done|].
    intros e k2 Hk2 Hp2. destruct (_ =? NONE); [|done].
    apply (bind_no_crash 0); [apply Hc|done|]. intros c' k3 _ Hp3. apply IH; [done|].
    pose proof (left_advance k1 r). pose proof (left_advance k2 (advance k1 r)).
    pose proof (left_advance k3 (advance k2 (advance k1 r))). lia.
Qed.

(** C18: whatever the bytes are, reading them as a batch returns or throws: no read leaves
    a buffer, no loop runs on.  This holds for the codec, for [ReadRecordBatch], which also
    reads the legacy formats (without compression, which it does not allow), and for the
    header of a batch of format 2, which never throws.  The header of a compressed legacy
    batch is not among them: see [kafka_empty_wrapper_undefined]. *)
Theorem kafka_readers_safe sizeof_TKafkaRecord sizeof_TKafkaHeader decompress data :
  no_crash (ReadKafkaRecordBatch sizeof_TKafkaRecord sizeof_TKafkaHeader decompress data 2)
  /\ no_crash (ReadRecordBatch sizeof_TKafkaRecord sizeof_TKafkaHeader decompress data)
  /\ no_crash (Decompress sizeof_TKafkaRecord sizeof_TKafkaHeader decompress data)
  /\ match data !! RecordBatchMagicOffset with
     | Some c => 2 <= byte_val c -> exists h, ReadKafkaBatchHeader decompress data 2 = Ok h
     | None => ReadKafkaBatchHeader decompress data 2 = Ok None
     end.
Proof.
  assert (no_crash (ReadKafkaRecordBatch sizeof_TKafkaRecord sizeof_TKafkaHeader decompress
                      data 2)) as H2.
  { apply (safe_run 0); [|simpl; lia]. apply safe_bind0; [apply safe_batch_read|intros b].
    safe_steps. }
  split_and!; [done| | |].
  - unfold ReadRecordBatch. destruct (_ <=? _)%nat eqn:E; [done|nat_to_prop].
    destruct (lookup_lt_is_Some_2 data RecordBatchMagicOffset E) as [c ->].
    destruct (2 <=? _); [done|]. unfold ReadLegacyRecordBatch.
    apply (bind_no_crash (length data)); [apply safe_Bytes|simpl; lia|]. intros d k _ Hk.
    set (r := advance k (new_readable data)) in *.
    match goal with |- no_crash (run_on r (get_st ≫= ?f)) =>
      change (no_crash (run_on r (f r))) end.
    eapply safe_run; [|exact Hk]. apply safe_bind0; [|intros; apply safe_ret].
    apply safe_on_state; [simpl; lia|]. apply legacy_no_crash; [|simpl; lia|].
    + intros. apply safe_ret.
    + unfold readable_left. simpl. destruct (_ <? _)%nat; lia.
  - unfold Decompress, DecompressData, TakeFirstDecompressedMessage.
    destruct (ReadKafkaRecordBatch _ _ _ _ _) as [b|[]]; try done.
    cbv [mbind outcome_bind]. cbn [Messages]. by destruct (imap _ _).
  - unfold ReadKafkaBatchHeader. destruct (data !! RecordBatchMagicOffset) as [c|] eqn:Hc.
    + intros Hm. pose proof (lookup_lt_Some _ _ _ Hc).
      rewrite (proj2 (Nat.leb_gt _ _)) by done. rewrite (proj2 (Z.ltb_ge _ _)) by done.
      pose proof (safe_run 0 (TKafkaBatchHeader_Read 2)
        (SetAllowCompressed true (new_readable data)) safe_batch_header_read ltac:(simpl; lia)).
      destruct (run_on _ _) as [h|[]]; try done; by eexists.
    + apply lookup_ge_None in Hc. by rewrite (proj2 (Nat.leb_le _ _)) by done.
Qed.

(** ** Sizes *)

Lemma Size_field_add m version size c :
  VersionCheck (PresentVersions m) version = true -> TaggedVersions m = VersionsNever ->
  0 <= c + size < 2 ^ 32 -> Size_field m version size c = c + size.
Proof.
  intros Hp Ht Hr. unfold Size_field. rewrite Hp, Ht. simpl negb. cbn [andb].
  by apply wrapU_small.
Qed.

(** The fields are added up from the first, which is the innermost. *)
Ltac add_sizes :=
  repeat match goal with
  | |- context [Size_field ?m ?v ?s ?c] =>
      lazymatch c with
      | context [Size_field] => fail
      | _ => rewrite (Size_field_add m v s c) by (done || lia)
      end
  end.

Lemma Bytes_DoSize_length v :
  small_opt v -> Bytes_DoSize KeyMeta 2 v = Z.of_nat (length (enc_bytes KeyMeta 2 v)).
Proof.
  intros Hv. destruct v as [v|]; [|done]. unfold Bytes_DoSize, enc_bytes.
  unfold small_opt, small in Hv. simpl in Hv.
  rewrite wrapS_length, ArraySize_length, length_app by (done || lia). lia.
Qed.

Lemma Array_DoSize_length {A} m (item : A -> Z) (enc : A -> bytes) l :
  Forall (fun x => item x = Z.of_nat (length (enc x))) l ->
  Z.of_nat (length l) < 2 ^ 31 -> Z.of_nat (length (enc_array m enc 2 l)) < 2 ^ 31 ->
  Array_DoSize m item 2 l = Z.of_nat (length (enc_array m enc 2 l)).
Proof.
  intros Hi Hl Hb. unfold Array_DoSize, enc_array in *. rewrite length_app in *.
  rewrite wrapS_length, ArraySize_length by (done || lia).
  enough (forall c, 0 <= c -> c + Z.of_nat (length (concat (map enc l))) < 2 ^ 31 ->
    fold_left (fun size v => wrapS 32 (size + item v)) l c
    = c + Z.of_nat (length (concat (map enc l)))) as -> by lia.
  clear Hl Hb. induction Hi as [|x l Hx _ IH]; intros c Hc Hb; cbn [fold_left map concat length] in *.
  - lia.
  - rewrite length_app in *. rewrite Hx.
    rewrite wrapS_small by (lia || (unfold inS; simpl Z.sub; lia)). rewrite IH; lia.
Qed.

Lemma header_size h :
  header_ok h -> Z.of_nat (length (enc_kheader h)) < 2 ^ 31 ->
  TKafkaHeader_Size 2 h = Z.of_nat (length (enc_kheader h)).
Proof.
  intros (Hk & v & Ev & Hv) Hb. unfold TKafkaHeader_Size, enc_kheader in *.
  rewrite length_app in *. rewrite Ev in *.
  change (Bytes_DoSize HeaderValueMeta 2 (Some v)) with (Bytes_DoSize KeyMeta 2 (Some v)).
  change (enc_bytes HeaderValueMeta 2 (Some v)) with (enc_bytes KeyMeta 2 (Some v)) in *.
  rewrite !Bytes_DoSize_length by done. add_sizes.
  rewrite wrapS_small by (lia || (unfold inS; simpl Z.sub; lia)). lia.
Qed.

Lemma concat_item_le {A} (enc : A -> bytes) l x :
  x ∈ l -> (length (enc x) <= length (concat (map enc l)))%nat.
Proof. induction 1; cbn [map concat]; rewrite length_app; lia. Qed.

Lemma record_size lim sh r :
  record_ok lim sh r -> Z.of_nat (length (enc_record r)) < 2 ^ 31 ->
  TKafkaRecord_Size 2 r = Z.of_nat (length (enc_record r)).
Proof.
  intros (?&?&?&?&Hk&Hv&Hh&?&?) Hb. unfold TKafkaRecord_Size.
  unfold enc_record in *. rewrite !length_app, enc_number_length in *.
  rewrite (Array_DoSize_length HeadersMeta _ enc_kheader); [|..|done|lia].
  2:{ apply Forall_forall. intros h Hin. rewrite Forall_forall in Hh.
      apply header_size; [by apply Hh|]. pose proof (concat_item_le enc_kheader _ _ Hin).
      unfold enc_array in Hb. rewrite length_app in Hb. lia. }
  rewrite !Bytes_DoSize_length by done.
  change (Varint_DoSize VarintMeta 8 2) with (SizeOfVarint 64).
  change (Varint_DoSize VarintMeta 4 2) with (SizeOfVarint 32).
  rewrite !SizeOfVarint_length by (done || lia). unfold Int_DoSize.
  add_sizes.
  rewrite wrapS_small by (lia || (unfold inS; simpl Z.sub; lia)). lia.
Qed.

(** What follows the [Length] of a record. *)
Definition enc_rest (r : TKafkaRecord) : bytes :=
  enc_number 1 (kr_Attributes r) ++ enc_varint (kr_TimestampDelta r)
  ++ enc_varint (kr_OffsetDelta r) ++ enc_bytes KeyMeta 2 (kr_Key r)
  ++ enc_bytes KeyMeta 2 (kr_Value r) ++ enc_array HeadersMeta enc_kheader 2 (kr_Headers r).

Lemma make_record_Length t0 i p t k :
  time_ok t0 -> time_ok t -> Z.of_nat i < 2 ^ 31 -> message_bytes p k < 2 ^ 31 ->
  let r := make_record t0 i p t k in kr_Length r = Z.of_nat (length (enc_rest r)).
Proof.
  intros Ht0 Ht Hi Hm r.
  pose proof (make_record_ok 1 1 t0 i p t k ltac:(lia) ltac:(lia) Ht0 Ht Hi Hm) as Hok.
  pose (r0 := mkRecord 0 0 (kr_TimestampDelta r) (kr_OffsetDelta r) k (Some p) []).
  assert (kr_Length r = wrapS 32 (TKafkaRecord_Size 2 r0 - 1)) as -> by reflexivity.
  assert (Z.of_nat (length (enc_record r0)) <= message_bytes p k) as Hb
    by exact (enc_record_bound r0 eq_refl).
  rewrite (record_size 1 1 r0); [| |lia].
  - change (enc_record r0) with (enc_varint 0 ++ enc_rest r) in *.
    rewrite length_app in *. change (length (enc_varint 0)) with 1%nat in *.
    rewrite wrapS_small by (lia || (unfold inS; change (32 - 1) with 31; lia)). lia.
  - destruct Hok as (_ & H). by split.
Qed.

(** [Size] returns the number of bytes that [WriteKafkaRecordBatch] produces, with and
    without compression, for every batch of less than 2^31 bytes; the [Length] that the
    codec gives to the record of a message is the number of bytes that follow it. *)
Theorem kafka_sizes_exact sizeof_TKafkaRecord sizeof_TKafkaHeader compress decompress b :
  batch_ok sizeof_TKafkaRecord sizeof_TKafkaHeader compress decompress b ->
  57 + Z.of_nat (length (enc_packed compress (CompressionType (batch_fields b)) (Records b)))
  < 2 ^ 31 ->
  (exists data, WriteKafkaRecordBatch compress b 2 = Ok data
     /\ run_on tt (TKafkaRecordBatch_Size compress 2 b) = Ok (Z.of_nat (length data)))
  /\ forall t0 i p t k, time_ok t0 -> time_ok t -> Z.of_nat i < 2 ^ 31 ->
     message_bytes p k < 2 ^ 31 ->
     let r := make_record t0 i p t k in
     enc_record r = enc_varint (kr_Length r) ++ enc_rest r
     /\ kr_Length r = Z.of_nat (length (enc_rest r)).
Proof.
  intros Hb Hl. split.
  - eexists. split; [by eapply batch_written|]. unfold sealed_bytes. rewrite enc_batch_length.
    pose proof (ok_count _ _ _ _ _ Hb) as Hn.
    destruct Hb as [_ Hsup _ Hrec _ _ _].
    unfold TKafkaRecordBatch_Size, run_on, mbind, M_bind.
    rewrite EnsureSupported_ok by done. cbv zeta. unfold enc_packed in *.
    change (size_fields 2) with 57.
    destruct (CompressionType _ =? NONE) eqn:E; bool_to_prop.
    + rewrite (Array_DoSize_length RecordsMeta _ enc_record); [|..|done|lia].
      * add_sizes. cbv [mret M_ret]. f_equal.
        rewrite wrapS_small by (lia || (unfold inS; simpl Z.sub; lia)). lia.
      * apply Forall_forall. intros r Hin. pose proof (concat_item_le enc_record _ _ Hin).
        unfold enc_array in Hl. rewrite length_app in Hl. rewrite Forall_forall in Hrec.
        eapply record_size; [by apply Hrec|lia].
    + rewrite (Serialize_ok sizeof_TKafkaHeader DefaultMaxArrayBytes) by done.
      rewrite Compress_ok by done. cbv [mret M_ret]. f_equal. rewrite length_app in *.
      rewrite wrapS_length, (ArraySize_length RecordsMeta 2) by (done || lia).
      change (enc_size RecordsMeta 2) with (enc_number 4). rewrite enc_number_length in *.
      rewrite wrapU_small by (unfold inU; lia).
      rewrite wrapS_small by (lia || (unfold inS; simpl Z.sub; lia)). lia.
  - intros. split; [done|]. by apply make_record_Length.
Qed.

(** ** The checksum *)

#[local] Transparent Crc32c.

(** CRC-32C as it is specified, a division of polynomials over the bits, which shares
    nothing with the code.  The generator of Castagnoli is
    x^32 + x^28 + x^27 + x^26 + x^25 + x^23 + x^22 + x^20 + x^19 + x^18 + x^14 + x^13 +
    x^11 + x^10 + x^9 + x^8 + x^6 + 1; the remainder is the list of its coefficients from
    x^31 down to x^0. *)
Definition castagnoli : list nat :=
  [28; 27; 26; 25; 23; 22; 20; 19; 18; 14; 13; 11; 10; 9; 8; 6; 0]%nat.

Definition generator : list bool := map (fun k => bool_decide (31 - k ∈ castagnoli)%nat) (seq 0 32).

(** One more bit of the message: times x, and the generator is subtracted if the degree
    reaches 32. *)
Definition divide_bit (reg : list bool) (bit : bool) : list bool :=
  match reg with
  | [] => []
  | top :: reg => zip_with (fun r g => xorb r (xorb top bit && g)) (reg ++ [false]) generator
  end.

(** The bits of a byte are taken from the lowest one. *)
Definition byte_bits (c : ascii) : list bool :=
  match c with Ascii b0 b1 b2 b3 b4 b5 b6 b7 => [b0; b1; b2; b3; b4; b5; b6; b7] end.

Definition bits_val (bits : list bool) : Z := foldr (fun b v => Z.b2z b + 2 * v) 0 bits.

(** The remainder starts with ones, is complemented, and its first coefficient is the
    lowest bit of the result. *)
Definition crc32c_spec (data : bytes) : Z :=
  bits_val (map negb (fold_left divide_bit (concat (map byte_bits data)) (replicate 32 true))).

(** In between: each byte is added to the register, which is then shifted eight times. *)
Definition crc_bitwise (data : bytes) (crc : Z) : Z :=
  fold_left (fun crc b => Nat.iter 8 crc_shift (Z.lxor crc (byte_val b))) data crc.

Lemma crc_shift_odd c :
  crc_shift c = Z.lxor (Z.shiftr c 1) (if Z.odd c then polynomial else 0).
Proof.
  unfold crc_shift. assert (Z.land c 1 = c mod 2) as -> by exact (Z.land_ones c 1 ltac:(lia)).
  rewrite Zmod_odd. by destruct (Z.odd c).
Qed.

Lemma crc_shift_lxor a b : crc_shift (Z.lxor a b) = Z.lxor (crc_shift a) (crc_shift b).
Proof.
  rewrite !crc_shift_odd, Z.shiftr_lxor. rewrite <- !Z.bit0_odd, Z.lxor_spec.
  destruct (Z.testbit a 0), (Z.testbit b 0); cbn [xorb];
    rewrite ?Z.lxor_0_r; apply Z.bits_inj'; intros i _; rewrite !Z.lxor_spec;
    by destruct (Z.testbit (Z.shiftr a 1) i), (Z.testbit (Z.shiftr b 1) i),
      (Z.testbit polynomial i).
Qed.

Lemma crc_iter_lxor n a b :
  Nat.iter n crc_shift (Z.lxor a b) = Z.lxor (Nat.iter n crc_shift a) (Nat.iter n crc_shift b).
Proof. induction n as [|n IH]; simpl; [done|]. by rewrite IH, crc_shift_lxor. Qed.

Lemma crc_shift_double z : crc_shift (2 * z) = z.
Proof.
  rewrite crc_shift_odd, Z.odd_mul. simpl (Z.odd 2). cbn [andb]. rewrite Z.lxor_0_r.
  rewrite Z.shiftr_div_pow2 by lia. change (2 ^ 1) with 2. rewrite Z.mul_comm.
  by apply Z.div_mul.
Qed.

Lemma crc_iter_high n z : Nat.iter n crc_shift (z * 2 ^ Z.of_nat n) = z.
Proof.
  induction n as [|n IH] in z |- *; [simpl; lia|]. rewrite Nat.iter_succ_r.
  replace (z * 2 ^ Z.of_nat (S n)) with (2 * (z * 2 ^ Z.of_nat n)).
  - rewrite crc_shift_double. apply IH.
  - replace (Z.of_nat (S n)) with (Z.succ (Z.of_nat n)) by lia.
    rewrite Z.pow_succ_r by lia. lia.
Qed.

Lemma split_low x : x = Z.lxor (Z.land x 255) (Z.shiftr x 8 * 2 ^ 8).
Proof.
  rewrite <- Z.shiftl_mul_pow2 by lia. change 255 with (Z.ones 8).
  apply Z.bits_inj'. intros i Hi. rewrite Z.lxor_spec, Z.land_spec, Z.shiftl_spec by lia.
  rewrite Z.testbit_ones_nonneg by lia. destruct (i <? 8) eqn:E; bool_to_prop.
  - rewrite (Z.testbit_neg_r _ (i - 8)) by lia. by rewrite andb_true_r, xorb_false_r.
  - rewrite Z.shiftr_spec by lia. rewrite andb_false_r. cbn [xorb]. f_equal. lia.
Qed.

Lemma table_entry x :
  nth (Z.to_nat (Z.land x 255)) MakeCrc32cTable 0 = crc_entry (Z.land x 255).
Proof.
  assert (0 <= Z.land x 255 < 256) as Hx.
  { change 255 with (Z.ones 8). rewrite Z.land_ones by lia. by apply Z.mod_pos_bound. }
  unfold MakeCrc32cTable.
  rewrite nth_indep with (d' := crc_entry (Z.of_nat 0)) by (rewrite length_map, length_seq; lia).
  rewrite (map_nth (fun i => crc_entry (Z.of_nat i))). rewrite seq_nth by lia.
  f_equal. lia.
Qed.

Lemma crc_step crc b :
  Z.lxor (nth (Z.to_nat (Z.land (Z.lxor crc (byte_val b)) 255)) MakeCrc32cTable 0)
    (Z.shiftr crc 8)
  = Nat.iter 8 crc_shift (Z.lxor crc (byte_val b)).
Proof.
  rewrite table_entry. set (x := Z.lxor crc (byte_val b)).
  assert (Z.shiftr x 8 = Z.shiftr crc 8) as <-.
  { unfold x. rewrite Z.shiftr_lxor, (Z.shiftr_div_pow2 (byte_val b)) by lia.
    rewrite Z.div_small by (apply byte_val_range). apply Z.lxor_0_r. }
  rewrite (split_low x) at 3. rewrite crc_iter_lxor. f_equal.
  symmetry. apply (crc_iter_high 8).
Qed.

Lemma fold_left_pointwise {A B} (f g : A -> B -> A) l a :
  (forall a b, f a b = g a b) -> fold_left f l a = fold_left g l a.
Proof.
  intros Hfg. revert a. induction l as [|b l IH]; intros a; simpl; [done|]. by rewrite Hfg, IH.
Qed.

Lemma bits_val_cons b bits : bits_val (b :: bits) = Z.lxor (Z.b2z b) (2 * bits_val bits).
Proof.
  change (bits_val (b :: bits)) with (Z.b2z b + 2 * bits_val bits).
  apply Z.add_nocarry_lxor. apply Z.bits_inj'. intros i Hi.
  rewrite Z.land_spec, Z.bits_0. destruct (Z.eq_dec i 0) as [->|].
  - rewrite Z.testbit_even_0. apply andb_false_r.
  - destruct b; [|by rewrite Z.bits_0]. change (Z.b2z true) with (Z.ones 1).
    rewrite Z.testbit_ones_nonneg by lia. by destruct (Z.ltb_spec i 1); [lia|].
Qed.

Lemma bits_val_testbit bits i : Z.testbit (bits_val bits) (Z.of_nat i) = default false (bits !! i).
Proof.
  revert i. induction bits as [|b bits IH]; intros [|i]; cbn [lookup list_lookup default].
  1,2: apply Z.testbit_0_l.
  all: change (bits_val (b :: bits)) with (Z.b2z b + 2 * bits_val bits).
  - apply Z.add_b2z_double_bit0.
  - rewrite Z.add_comm, Nat2Z.inj_succ, Z.testbit_succ_r by lia. apply IH.
Qed.

Lemma bits_val_range bits : 0 <= bits_val bits < 2 ^ Z.of_nat (length bits).
Proof.
  induction bits as [|b bits IH]; [done|].
  change (bits_val (b :: bits)) with (Z.b2z b + 2 * bits_val bits).
  cbn [length]. rewrite Nat2Z.inj_succ, Z.pow_succ_r by lia. destruct b; simpl Z.b2z; lia.
Qed.

Lemma bits_val_negb bits : bits_val (map negb bits) = 2 ^ Z.of_nat (length bits) - 1 - bits_val bits.
Proof.
  induction bits as [|b bits IH]; [done|].
  change (bits_val (map negb (b :: bits))) with (Z.b2z (negb b) + 2 * bits_val (map negb bits)).
  change (bits_val (b :: bits)) with (Z.b2z b + 2 * bits_val bits).
  cbn [length]. rewrite Nat2Z.inj_succ, Z.pow_succ_r, IH by lia. destruct b; simpl Z.b2z; lia.
Qed.

(** The constant of the code is the generator. *)
Lemma polynomial_generator : bits_val generator = polynomial.
Proof. vm_compute. reflexivity. Qed.

Lemma divide_bit_length reg bit : length reg = 32%nat -> length (divide_bit reg bit) = 32%nat.
Proof.
  intros Hl. destruct reg as [|top reg]; [done|]. cbn [divide_bit]. rewrite length_zip_with, length_app.
  simpl in *. change (length generator) with 32%nat. lia.
Qed.

Lemma divide_bit_shift reg bit : length reg = 32%nat ->
  bits_val (divide_bit reg bit) = crc_shift (Z.lxor (bits_val reg) (Z.b2z bit)).
Proof.
  intros Hl. destruct reg as [|top reg]; [done|]. simpl in Hl.
  rewrite bits_val_cons, Z.lxor_comm, <- Z.lxor_assoc, crc_shift_lxor, crc_shift_double.
  assert (Z.lxor (Z.b2z bit) (Z.b2z top) = Z.b2z (xorb top bit)) as -> by (by destruct bit, top).
  assert (crc_shift (Z.b2z (xorb top bit)) = if xorb top bit then polynomial else 0) as ->
    by (by destruct (xorb top bit)).
  apply Z.bits_inj'. intros i Hi. rewrite <- (Z2Nat.id i) by done. set (n := Z.to_nat i).
  rewrite Z.lxor_spec, !bits_val_testbit. cbn [divide_bit]. rewrite lookup_zip_with.
  assert ((if xorb top bit then polynomial else 0) = if xorb top bit then bits_val generator else 0)
    as -> by (by rewrite polynomial_generator).
  assert (Z.testbit (if xorb top bit then bits_val generator else 0) (Z.of_nat n)
    = xorb top bit && default false (generator !! n)) as ->.
  { destruct (xorb top bit); [apply bits_val_testbit|apply Z.testbit_0_l]. }
  destruct (decide (n < 32)%nat) as [Hn|Hn].
  - destruct (generator !! n) as [g|] eqn:Eg;
      [|apply lookup_ge_None in Eg; change (length generator) with 32%nat in Eg; lia].
    destruct (decide (n < 31)%nat).
    + rewrite lookup_app_l by lia. destruct (reg !! n) as [b|] eqn:Eb;
        [|apply lookup_ge_None in Eb; lia]. cbn. apply xorb_comm.
    + assert (n = length reg) as -> by lia. rewrite lookup_app_r, Nat.sub_diag by lia.
      rewrite (lookup_ge_None_2 reg) by lia. cbn. by destruct (_ && _)%bool.
  - rewrite (lookup_ge_None_2 generator) by (change (length generator) with 32%nat; lia).
    rewrite (lookup_ge_None_2 reg) by lia. rewrite andb_false_r.
    by destruct ((reg ++ [false]) !! n).
Qed.

(** Adding the bits of a byte one by one is adding the byte. *)
Lemma divide_bits bits reg : length reg = 32%nat ->
  length (fold_left divide_bit bits reg) = 32%nat /\
  bits_val (fold_left divide_bit bits reg)
  = Nat.iter (length bits) crc_shift (Z.lxor (bits_val reg) (bits_val bits)).
Proof.
  revert reg. induction bits as [|b bits IH]; intros reg Hl.
  { split; [done|]. simpl. by rewrite Z.lxor_0_r. }
  cbn [fold_left length]. destruct (IH _ (divide_bit_length reg b Hl)) as [Hl' ->]. split; [done|].
  rewrite divide_bit_shift, Nat.iter_succ_r, bits_val_cons by done. f_equal.
  by rewrite <- Z.lxor_assoc, (crc_shift_lxor (Z.lxor _ _)), crc_shift_double.
Qed.

Lemma byte_bits_val c : bits_val (byte_bits c) = byte_val c.
Proof. by destruct c as [[] [] [] [] [] [] [] []]. Qed.

Lemma fold_left_cons {A B} (f : A -> B -> A) x l a : fold_left f (x :: l) a = fold_left f l (f a x).
Proof. done. Qed.

Lemma crc_bitwise_cons c data crc :
  crc_bitwise (c :: data) crc = crc_bitwise data (Nat.iter 8 crc_shift (Z.lxor crc (byte_val c))).
Proof. unfold crc_bitwise. by rewrite fold_left_cons. Qed.

Lemma byte_bits_length c : length (byte_bits c) = 8%nat.
Proof. by destruct c. Qed.

Lemma crc_bitwise_spec data reg : length reg = 32%nat ->
  length (fold_left divide_bit (concat (map byte_bits data)) reg) = 32%nat /\
  bits_val (fold_left divide_bit (concat (map byte_bits data)) reg)
  = crc_bitwise data (bits_val reg).
Proof.
  revert reg. induction data as [|c data IH]; intros reg Hl; [done|].
  rewrite map_cons, concat_cons, fold_left_app.
  destruct (divide_bits (byte_bits c) reg Hl) as [Hl' E]. destruct (IH _ Hl') as [Hl2 ->].
  split; [done|]. rewrite E, byte_bits_val.
  rewrite byte_bits_length.
  by rewrite crc_bitwise_cons.
Qed.

(** C33: the checksum that is computed a byte at a time from the table of 256 entries is
    the CRC-32C of the bytes: the remainder of their bits, divided by the generator of
    Castagnoli. *)
Theorem crc32c_table_correct data : Crc32c data = crc32c_spec data.
Proof.
  destruct (crc_bitwise_spec data (replicate 32 true) eq_refl) as [Hl E].
  unfold crc32c_spec. rewrite bits_val_negb, Hl.
  pose proof (bits_val_range (fold_left divide_bit (concat (map byte_bits data)) (replicate 32 true)))
    as R. rewrite Hl in R. rewrite E in *.
  change (bits_val (replicate 32 true)) with (2 ^ 32 - 1) in *.
  assert (Crc32c data = wrapU 32 (Z.lnot (crc_bitwise data (2 ^ 32 - 1)))) as ->.
  { unfold Crc32c, Crc32c_loop, crc_bitwise.
    erewrite fold_left_pointwise; [reflexivity|exact crc_step]. }
  change (2 ^ Z.of_nat 32) with (2 ^ 32) in *. unfold Z.lnot, wrapU.
  symmetry. apply Z.mod_unique with (-1); lia.
Qed.

(** ** Witnesses *)

Definition toy_compress (t : Z) (d : bytes) : bytes := val_byte t :: d.

Definition toy_decompress (t : Z) (d : bytes) : option bytes :=
  match d with
  | c :: d => if byte_val c =? t then Some d else None
  | [] => None
  end.

Definition letters (l : list Z) : bytes := map val_byte l.

(** Two messages, the second with a key and older than the first. *)
Definition example_block : TWriteBlockCompression :=
  mkCtx [letters [104; 105]; letters []] [1700000000000; 1699999999999]
    [None; Some (letters [107])] [] 0 false (2 ^ 31 + 4) (Some ECodec_GZIP).

Lemma example_block_ok :
  block_ok 240 48 toy_compress toy_decompress example_block 1700000000000 GZIP.
Proof.
  constructor; try done.
  - by vm_compute; lia.
  - split_and!; [done|done|]. repeat constructor; unfold time_ok; lia.
  - intros _ d. split; [done|]. change (block_bytes example_block) with 195. simpl length. lia.
Qed.

Lemma kafka_codec_round_trip_witness :
  exists ctx', CompressWriteBlock toy_compress example_block = Ok ctx'
    /\ DecompressData 240 48 toy_decompress (CtxData ctx')
       = Ok (mkResult (block_messages example_block 1700000000000)
               (Some 0) (Some 0) (Some 1700000000000)).
Proof.
  destruct (kafka_codec_round_trip _ _ _ _ _ _ _ example_block_ok)
    as (ctx' & Hw & _ & _ & _ & Hd & _).
  exists ctx'. split; [exact Hw|exact Hd].
Defined.

(** The batch of that block, without compression and as it is written. *)
Definition example_batch : TKafkaRecordBatch :=
  mkBatch (block_fields example_block 1700000000000 NONE 0)
    (block_records example_block 1700000000000).

Definition example_bytes : bytes :=
  match WriteKafkaRecordBatch toy_compress example_batch 2 with Ok d => d | Fail _ => [] end.

Lemma kafka_header_agrees_witness :
  exists b, length (Records b) = 2%nat
    /\ ReadKafkaRecordBatch 240 48 toy_decompress example_bytes 2 = Ok b
    /\ ReadKafkaBatchHeader toy_decompress example_bytes 2
       = Ok (Some (mkBatchHeader (batch_fields b) 2)).
Proof.
  eexists. split; [|split; [vm_compute; reflexivity|]]; [reflexivity|].
  refine (kafka_header_agrees 240 48 toy_decompress example_bytes _ _).
  vm_compute. reflexivity.
Defined.

Lemma kafka_readers_safe_witness :
  exists h, ReadKafkaBatchHeader toy_decompress example_bytes 2 = Ok h.
Proof.
  destruct (kafka_readers_safe 240 48 toy_decompress example_bytes) as (_ & _ & _ & H).
  assert (example_bytes !! RecordBatchMagicOffset = Some (val_byte 2)) as E
    by (vm_compute; reflexivity).
  rewrite E in H. apply H. vm_compute. discriminate.
Defined.

Lemma example_batch_ok : batch_ok 240 48 toy_compress toy_decompress example_batch.
Proof.
  apply (block_batch_ok 240 48 toy_compress toy_decompress
           (mkCtx (Payloads example_block) (CreatedAt example_block) (MessageKeys example_block)
              [] 0 false (2 ^ 31 + 4) None)).
  destruct example_block_ok as [Hs Hn Hc Hk Hb _ _]. by constructor.
Qed.

Lemma kafka_sizes_exact_witness :
  exists data, WriteKafkaRecordBatch toy_compress example_batch 2 = Ok data
    /\ run_on tt (TKafkaRecordBatch_Size toy_compress 2 example_batch)
       = Ok (Z.of_nat (length data)).
Proof.
  apply (kafka_sizes_exact 240 48 toy_compress toy_decompress example_batch example_batch_ok).
  vm_compute. reflexivity.
Defined.

(** ** Two inputs that are not handled *)

(** A message written with a sequence number of 2^31 or more is read with another one:
    the batch holds 31 bits of it.  The first message of this block has the number
    2^31 + 4; the read session adds the two values below. *)
Theorem kafka_sequence_numbers_wrap compress decompress :
  let ctx := mkCtx (Payloads example_block) (CreatedAt example_block) (MessageKeys example_block)
               [] 0 false (2 ^ 31 + 4) None in
  exists ctx' m ms,
    CompressWriteBlock compress ctx = Ok ctx'
    /\ DecompressData 240 48 decompress (CtxData ctx')
       = Ok (mkResult (m :: ms) (Some 0) (Some 0) (Some 1700000000000))
    /\ (SequenceDelta <$> MsgMeta m) = Some 4.
Proof.
  intros ctx. do 3 eexists. split; [vm_compute; reflexivity|].
  split; [vm_compute; reflexivity|reflexivity].
Qed.

(** The gzip stream of nothing. *)
Definition gzip_of_nothing : bytes :=
  letters [31; 139; 8; 0; 0; 0; 0; 0; 0; 3; 3; 0; 0; 0; 0; 0; 0; 0; 0; 0].

(** An entry of format 1 at offset 1 whose compressed value holds no entries. *)
Definition empty_wrapper : bytes :=
  enc_number 8 1 ++ enc_number 4 42 ++ enc_number 4 0 ++ enc_number 1 1 ++ enc_number 1 GZIP
  ++ enc_number 8 0 ++ enc_number 4 (-1) ++ enc_number 4 20 ++ gzip_of_nothing.

Lemma bind_fail {S A B} (m : M S A) (f : A -> M S B) s e :
  m s = Fail e -> (m ≫= f) s = Fail e.
Proof. intros E. unfold mbind, M_bind. by rewrite E. Qed.

Lemma on_state_fail {S T A} (s : T) (m : M T A) e (r : S) :
  m s = Fail e -> on_state s m r = Fail e.
Proof. unfold on_state. by intros ->. Qed.

Lemma empty_wrapper_step decompress n h r :
  decompress GZIP gzip_of_nothing = Some [] ->
  Is r = empty_wrapper -> Position r = 0%nat ->
  ForEachLegacyRecordBatch decompress (S n) 1 true (TLegacyHeaderConsumer 1) h r
  = Fail (Undefined "back of an empty vector").
Proof.
  intros H Hi Hp. destruct r as [is_ pos ac lim]; cbn [Is Position] in *; subst is_ pos.
  cbn [ForEachLegacyRecordBatch]. eapply bind_intro; [reflexivity|].
  change (0 <? readable_left (mkReadable empty_wrapper 0 ac lim))%nat with true. cbv iota.
  eapply bind_intro; [vm_compute; reflexivity|]. cbn [negb Z.eqb Pos.eqb].
  eapply bind_intro; [vm_compute; reflexivity|]. cbv zeta.
  eapply bind_intro; [vm_compute; reflexivity|]. cbn [v0_Record v0_Value].
  eapply bind_intro; [|].
  - unfold DecompressRecordBatchPayload. eapply bind_intro; [reflexivity|].
    change (LegacyCompressionType _) with GZIP. cbn [Z.eqb orb Pos.eqb].
    change (decompress GZIP _) with (decompress GZIP gzip_of_nothing). rewrite H. reflexivity.
  - eapply bind_intro; [reflexivity|]. apply bind_fail. reflexivity.
Qed.

(** Reading the header of such bytes takes the last of no entries; the batch itself is
    read by code that looks whether there are any. *)
Theorem kafka_empty_wrapper_undefined decompress :
  decompress GZIP gzip_of_nothing = Some [] ->
  ReadKafkaBatchHeader decompress empty_wrapper 2 = Fail (Undefined "back of an empty vector").
Proof.
  intros H. unfold ReadKafkaBatchHeader.
  change (length empty_wrapper <=? RecordBatchMagicOffset)%nat with false.
  change (empty_wrapper !! RecordBatchMagicOffset) with (Some (val_byte 1)). cbv iota zeta.
  change (byte_val (val_byte 1)) with 1. cbn [Z.ltb Z.compare Pos.compare Pos.compare_cont].
  set (r0 := SetAllowCompressed true (new_readable empty_wrapper)).
  assert (ReadLegacyRecordBatchHeader decompress 1 (length empty_wrapper) r0
          = Fail (Undefined "back of an empty vector")) as E.
  { unfold ReadLegacyRecordBatchHeader. eapply bind_intro; [vm_compute; reflexivity|].
    eapply bind_intro; [reflexivity|]. apply on_state_fail.
    apply (empty_wrapper_step decompress); [exact H|reflexivity|reflexivity]. }
  unfold run_on. by rewrite E.
Qed.
