(* ===== verification/KafkaLegacy.v ===== *)
(** * Legacy Kafka batches

    Entries of the formats 0 and 1 that are written one after the other are read back as
    the records of one batch; the header that is read without the records counts them and
    has the offsets and times of the batch. *)

From S2P Require Import Prelude KafkaWire KafkaFormat KafkaRecords KafkaBatches KafkaTheorems.
From Stdlib Require Import Ascii.

(** ** The loop over entries *)

Definition enc_entries (version : Z) (l : list TKafkaRecordBatchV0) : bytes :=
  concat (map (enc_v0 version) l).

Lemma enc_v0_length version e : (26 <= length (enc_v0 version e))%nat.
Proof.
  unfold enc_v0. rewrite !length_app, !enc_number_length.
  pose proof (enc_size_length KeyV0Meta version (-1)).
  assert (forall m v, m = KeyV0Meta \/ m = ValueV0Meta -> (4 <= length (enc_bytes m version v))%nat) as H4.
  { intros m v Hm. destruct v as [v|]; simpl; rewrite ?length_app.
    all: by destruct Hm as [->| ->]; unfold enc_size; simpl SizeFormat; cbv iota;
      change (VersionCheck (FlexibleVersions _) version) with false; cbv iota;
      rewrite enc_number_length; lia. }
  pose proof (H4 KeyV0Meta (v0_Key (v0_Record e)) ltac:(by left)).
  pose proof (H4 ValueV0Meta (v0_Value (v0_Record e)) ltac:(by right)). lia.
Qed.

Lemma enc_v0_magic version e rest :
  legacy_version version -> entry_ok version e ->
  (enc_v0 version e ++ rest) !! 16%nat = Some (val_byte version).
Proof.
  intros Hv (_&_&_&Hm&_). unfold enc_v0. rewrite Hm, <- !app_assoc.
  do 3 (rewrite lookup_app_r, enc_number_length by (rewrite enc_number_length; lia)).
  done.
Qed.

Lemma take_entry version ac lim pre e rest :
  legacy_version version -> entry_ok version e ->
  let r := mkReadable (pre ++ enc_v0 version e ++ rest) (length pre) ac lim in
  take_ 16 r = Ok (version, r).
Proof.
  intros Hv He r. unfold take_, slice. cbv [mbind M_bind get_st mret M_ret].
  unfold r at 1. rewrite left_at. pose proof (enc_v0_length version e).
  rewrite (proj2 (Nat.leb_gt _ _)) by lia. unfold r at 1 2 3. cbn [Is Position].
  rewrite !length_app, (proj2 (Nat.leb_le _ _)) by lia.
  pose proof (enc_v0_magic version e rest Hv He) as Hm.
  change (Is r) with (pre ++ enc_v0 version e ++ rest).
  rewrite drop_app_add, (drop_S _ _ _ Hm). cbn [take].
  rewrite byte_val_byte. by destruct Hv as [->| ->].
Qed.

(** Both consumers take an entry that is not compressed by a function of their state. *)
Lemma legacy_fold {C} decompress version allow (consumer : TConsumer C)
  (step : C -> TKafkaRecordBatchV0 -> C) (I : nat -> C -> Prop) ac lim l :
  legacy_version version -> Forall (entry_ok version) l ->
  (forall n c e r, I (S n) c -> entry_ok version e ->
     OnUncompressed C consumer c e r = Ok (step c e, r) /\ I n (step c e)) ->
  forall pre c fuel, I (length l) c -> (length (enc_entries version l) <= fuel)%nat ->
  exists r, ForEachLegacyRecordBatch decompress fuel version allow consumer c
              (mkReadable (pre ++ enc_entries version l) (length pre) ac lim)
            = Ok (fold_left step l c, r).
Proof.
  intros Hv Hl Hstep. induction Hl as [|e l He _ IH]; intros pre c fuel HI Hf.
  - eexists. destruct fuel; cbn [ForEachLegacyRecordBatch]; (eapply bind_intro; [reflexivity|]).
    all: pose proof (left_at ac lim pre [] []) as E; cbn [app length Nat.add] in E.
    all: unfold enc_entries; cbn [map concat]; rewrite E; reflexivity.
  - unfold enc_entries in *. cbn [map concat length] in *.
    rewrite length_app in Hf. pose proof (enc_v0_length version e).
    destruct fuel as [|fuel]; [lia|]. cbn [ForEachLegacyRecordBatch].
    set (rest := concat (map (enc_v0 version) l)) in *.
    destruct (Hstep _ c e (mkReadable (pre ++ enc_v0 version e ++ rest)
      (length pre + length (enc_v0 version e)) ac lim) HI He) as [Hs HI'].
    destruct (IH (pre ++ enc_v0 version e) (step c e) fuel HI' ltac:(lia)) as [r Hr].
    exists r. rewrite <- app_assoc, length_app in Hr.
    eapply bind_intro; [reflexivity|]. rewrite left_at, (proj2 (Nat.ltb_lt _ _)) by lia.
    eapply bind_intro; [by apply take_entry|]. rewrite Z.eqb_refl. cbn [negb].
    eapply bind_intro; [by apply entry_reads|]. cbv zeta.
    destruct He as (_&_&_&_&_&-> &_). change (NONE =? NONE) with true. cbv iota.
    eapply bind_intro; [exact Hs|]. exact Hr.
Qed.

(** [Size] of an entry is the number of its bytes. *)
Lemma Bytes_DoSize_v0 m v version :
  m = KeyV0Meta \/ m = ValueV0Meta -> small_opt v ->
  Bytes_DoSize m version v = Z.of_nat (length (enc_bytes m version v)).
Proof.
  intros Hm Hv. unfold small_opt, small in Hv.
  destruct v as [v|]; [|by destruct Hm as [->| ->]].
  unfold Bytes_DoSize, enc_bytes. simpl in Hv.
  rewrite wrapS_length, ArraySize_length, length_app by (done || lia). lia.
Qed.

Lemma recordV0_size version e :
  legacy_version version -> entry_ok version e ->
  Z.of_nat (length (enc_v0 version e)) < 2 ^ 31 ->
  TKafkaRecordV0_Size version (v0_Record e) = Z.of_nat (length (enc_v0 version e)) - 8.
Proof.
  intros Hv (_&_&_&_&_&_&_&Hk&v&Ev&Hs) Hb. unfold TKafkaRecordV0_Size.
  rewrite (Bytes_DoSize_v0 KeyV0Meta), (Bytes_DoSize_v0 ValueV0Meta) by (auto; by rewrite Ev).
  unfold enc_v0 in *. rewrite !length_app, !enc_number_length in *. unfold Int_DoSize.
  destruct Hv as [->| ->].
  - change (Size_field TimestampV0Meta 0 (Z.of_nat 8)) with (fun c : Z => c). cbv beta.
    change (length (if 0 =? 1 then _ else [])) with 0%nat in *. add_sizes.
    rewrite wrapS_small by (lia || (unfold inS; change (32 - 1) with 31; lia)). lia.
  - change (if 1 =? 1 then enc_number 8 (v0_Timestamp (v0_Record e)) else [])
      with (enc_number 8 (v0_Timestamp (v0_Record e))) in *.
    rewrite enc_number_length in *. add_sizes.
    rewrite wrapS_small by (lia || (unfold inS; change (32 - 1) with 31; lia)). lia.
Qed.

Lemma entry_size version e :
  legacy_version version -> entry_ok version e ->
  Z.of_nat (length (enc_v0 version e)) < 2 ^ 31 ->
  TKafkaRecordBatchV0_Size version e = Z.of_nat (length (enc_v0 version e)).
Proof.
  intros Hv He Hb. unfold TKafkaRecordBatchV0_Size, size_int, Int_DoSize.
  rewrite recordV0_size by done. pose proof (enc_v0_length version e). add_sizes.
  rewrite wrapS_small by (lia || (unfold inS; change (32 - 1) with 31; lia)). lia.
Qed.

(** ** The records of a legacy batch *)

Definition legacy_record (e : TKafkaRecordBatchV0) : TKafkaRecord :=
  let r := v0_Record e in
  mkRecord (v0_MessageSize r) 0 (v0_Timestamp r) (v0_Offset e) (v0_Key r) (v0_Value r) [].

Lemma append_fold l b :
  fold_left (fun b e => AppendLegacyRecord b e (v0_Offset e) None) l b
  = mkBatch (batch_fields b) (Records b ++ map legacy_record l).
Proof.
  revert b. induction l as [|e l IH]; intros b; cbn [fold_left map].
  - rewrite app_nil_r. by destruct b.
  - rewrite IH. cbn [AppendLegacyRecord batch_fields Records]. by rewrite <- app_assoc.
Qed.

(** ** The header of a legacy batch *)

Definition header_step (version : Z) (h : TKafkaBatchHeader) (e : TKafkaRecordBatchV0)
  : TKafkaBatchHeader :=
  let f := header_fields h in
  let t := if 1 <=? version then v0_Timestamp (v0_Record e) else 0 in
  mkBatchHeader
    (if RecordsCount h =? 0 then
       mkFields (v0_Offset e) (BatchLength f) (PartitionLeaderEpoch f) (Magic f) (Crc f)
         (Attributes f) 0 (if 1 <=? version then t else BaseTimestamp f)
         (if 1 <=? version then t else MaxTimestamp f)
         (ProducerId f) (ProducerEpoch f) (BaseSequence f)
     else
       mkFields (BaseOffset f) (BatchLength f) (PartitionLeaderEpoch f) (Magic f) (Crc f)
         (Attributes f) (wrapS 32 (v0_Offset e - BaseOffset f)) (BaseTimestamp f)
         (if 1 <=? version then Z.max (MaxTimestamp f) t else MaxTimestamp f)
         (ProducerId f) (ProducerEpoch f) (BaseSequence f))
    (RecordsCount h + 1).

Definition header_inv (n : nat) (h : TKafkaBatchHeader) : Prop :=
  0 <= RecordsCount h /\ RecordsCount h + Z.of_nat n < 2 ^ 31
  /\ 0 <= BaseOffset (header_fields h) < 2 ^ 63.

Lemma header_step_ok version n h e r :
  header_inv (S n) h -> entry_ok version e ->
  OnUncompressed _ (TLegacyHeaderConsumer version) h e r = Ok (header_step version h e, r)
  /\ header_inv n (header_step version h e).
Proof.
  intros (H0 & Hn & Hb) (Ho & _). unfold header_inv, header_step.
  cbn [TLegacyHeaderConsumer OnUncompressed RecordsCount header_fields].
  unfold AppendHeaderRecord, i64. rewrite (proj2 (Z.eqb_neq (RecordsCount h) (2 ^ 31 - 1))) by lia.
  destruct (RecordsCount h =? 0) eqn:E; bool_to_prop; cbn [BaseOffset header_fields].
  - split; [reflexivity|]. lia.
  - set (d := v0_Offset e - BaseOffset (header_fields h)).
    rewrite (proj2 (Z.leb_le (- 2 ^ 63) d)), (proj2 (Z.ltb_lt d (2 ^ 63))) by lia.
    split; [reflexivity|]. lia.
Qed.

Lemma header_fold version l h o :
  0 < RecordsCount h ->
  LastOffsetDelta (header_fields h) = wrapS 32 (o - BaseOffset (header_fields h)) ->
  let h' := fold_left (header_step version) l h in
  RecordsCount h' = RecordsCount h + Z.of_nat (length l)
  /\ BaseOffset (header_fields h') = BaseOffset (header_fields h)
  /\ LastOffsetDelta (header_fields h')
     = wrapS 32 (default o (v0_Offset <$> last l) - BaseOffset (header_fields h)).
Proof.
  revert h o. induction l as [|e l IH]; intros h o Hc Hd; cbn [fold_left length].
  - split_and!; [lia|done|done].
  - destruct (IH (header_step version h e) (v0_Offset e)) as (H1 & H2 & H3).
    + cbn [header_step RecordsCount]. lia.
    + cbn [header_step header_fields]. by rewrite (proj2 (Z.eqb_neq _ 0)) by lia.
    + assert (BaseOffset (header_fields (header_step version h e)) = BaseOffset (header_fields h)) as Eb.
      { cbn [header_step header_fields]. by rewrite (proj2 (Z.eqb_neq _ 0)) by lia. }
      rewrite Eb in H2, H3. split_and!; [|done|].
      * rewrite H1. cbn [header_step RecordsCount]. lia.
      * rewrite H3. do 2 f_equal. rewrite last_cons. by destruct (last l).
Qed.

Lemma header_fold_legacy version e l :
  let h := fold_left (header_step version) (e :: l) (legacy_header version) in
  RecordsCount h = Z.of_nat (length (e :: l)) /\ BaseOffset (header_fields h) = v0_Offset e
  /\ LastOffsetDelta (header_fields h)
     = wrapS 32 (default (v0_Offset e) (v0_Offset <$> last l) - v0_Offset e).
Proof.
  cbn [fold_left].
  destruct (header_fold version l (header_step version (legacy_header version) e) (v0_Offset e))
    as (H1 & H2 & H3); [done| |].
  { cbn. by rewrite Z.sub_diag. }
  split_and!; [|done|done]. rewrite H1. cbn [length]. cbn [header_step legacy_header RecordsCount]. lia.
Qed.

(** ** Reading what was written *)

Lemma run_bytes {A} data ac lim (m : bytes -> TKafkaReadable -> M TKafkaReadable A) :
  run_on (mkReadable data 0 ac lim) (d ← Bytes (length data); r ← get_st; m d r)
  = run_on (mkReadable data (length data) ac lim) (m data (mkReadable data (length data) ac lim)).
Proof.
  pose proof (Bytes_reads ac lim data _ eq_refl [] []) as Hb. cbn [app length Nat.add] in Hb.
  rewrite app_nil_r in Hb. unfold run_on, mbind at 1, M_bind at 1. by rewrite Hb.
Qed.

Lemma run_intro {T A} (s : T) (m : M T A) a s' : m s = Ok (a, s') -> run_on s m = Ok a.
Proof. unfold run_on. by intros ->. Qed.

Lemma entries_length version e l : (16 < length (enc_entries version (e :: l)))%nat.
Proof.
  unfold enc_entries. cbn [map concat]. rewrite length_app.
  pose proof (enc_v0_length version e). lia.
Qed.

Section Legacy.
Context (sizeof_TKafkaRecord sizeof_TKafkaHeader : Z) (decompress : Z -> bytes -> option bytes).
Context (version : Z) (Hversion : legacy_version version).

Lemma entries_magic e l :
  entry_ok version e ->
  enc_entries version (e :: l) !! RecordBatchMagicOffset = Some (val_byte version)
  /\ byte_val (val_byte version) = version.
Proof.
  intros He. split; [by apply enc_v0_magic|]. by destruct Hversion as [->| ->].
Qed.

Lemma legacy_batch_read e l :
  Forall (entry_ok version) (e :: l) ->
  ReadRecordBatch sizeof_TKafkaRecord sizeof_TKafkaHeader decompress (enc_entries version (e :: l))
  = Ok (mkBatch (set_LastOffsetDelta
                   (wrapS 32 (default (v0_Offset e) (v0_Offset <$> last l)))
                   (batch_fields legacy_batch))
          (map legacy_record (e :: l))).
Proof.
  intros Hl. pose proof (entries_length version e l).
  destruct (entries_magic e l) as [Hm Hv]; [by apply Forall_cons in Hl as [??]|].
  set (data := enc_entries version (e :: l)) in *.
  unfold ReadRecordBatch. rewrite (proj2 (Nat.leb_gt _ _)) by (unfold RecordBatchMagicOffset; lia).
  rewrite Hm, Hv. rewrite (proj2 (Z.leb_gt 2 version)) by (destruct Hversion as [->| ->]; lia).
  unfold ReadLegacyRecordBatch, new_readable. rewrite run_bytes.
  destruct (legacy_fold decompress version false (TLegacyBatchConsumer version)
              (fun b e => AppendLegacyRecord b e (v0_Offset e) None) (fun _ _ => True)
              false DefaultMaxArrayBytes (e :: l) Hversion Hl ltac:(done) [] legacy_batch
              (length data) I ltac:(done)) as [r Hr].
  eapply run_intro, bind_intro; [eapply on_state_intro; exact Hr|].
  rewrite append_fold. cbn [Records batch_fields legacy_batch app].
  change (map legacy_record (e :: l)) with (legacy_record e :: map legacy_record l).
  rewrite last_cons, (fmap_last legacy_record l : last (map legacy_record l) = _).
  by destruct (last l).
Qed.

Lemma legacy_header_read e l :
  Forall (entry_ok version) (e :: l) -> Z.of_nat (length (e :: l)) < 2 ^ 31 ->
  ReadKafkaBatchHeader decompress (enc_entries version (e :: l)) 2
  = Ok (Some (fold_left (header_step version) (e :: l) (legacy_header version))).
Proof.
  intros Hl Hn. pose proof (entries_length version e l).
  destruct (entries_magic e l) as [Hm Hv]; [by apply Forall_cons in Hl as [??]|].
  set (data := enc_entries version (e :: l)) in *.
  unfold ReadKafkaBatchHeader. rewrite (proj2 (Nat.leb_gt _ _)) by (unfold RecordBatchMagicOffset; lia).
  rewrite Hm, Hv. rewrite (proj2 (Z.ltb_lt version 2)) by (destruct Hversion as [->| ->]; lia).
  unfold ReadLegacyRecordBatchHeader, SetAllowCompressed, new_readable.
  cbn [Is Position MaxArrayBytes_]. rewrite run_bytes.
  destruct (legacy_fold decompress version true (TLegacyHeaderConsumer version)
              (header_step version) header_inv
              true DefaultMaxArrayBytes (e :: l) Hversion Hl (header_step_ok version) []
              (legacy_header version) (length data)) as [r Hr]; [|done|].
  { unfold header_inv. cbn [legacy_header RecordsCount header_fields BaseOffset]. lia. }
  by erewrite run_intro; [|eapply on_state_intro; exact Hr].
Qed.

End Legacy.

(** C27: entries of a legacy format, written one after the other, are read back as one
    batch with a record for each of them, in order, with its offset, time, key and value;
    the header that is read without the records counts them and spans their offsets, the
    difference being taken modulo 2^32. *)
Theorem kafka_legacy_round_trip sizeof_TKafkaRecord sizeof_TKafkaHeader decompress version e l :
  legacy_version version -> Forall (entry_ok version) (e :: l) ->
  Z.of_nat (length (e :: l)) < 2 ^ 31 ->
  exists data h,
    run_on (new_buffer WriteBufferChunkSize)
      (for_each (TKafkaRecordBatchV0_Write version) (e :: l) ;; gets AsString) = Ok data
    /\ ReadRecordBatch sizeof_TKafkaRecord sizeof_TKafkaHeader decompress data
       = Ok (mkBatch (set_LastOffsetDelta
                        (wrapS 32 (default (v0_Offset e) (v0_Offset <$> last l)))
                        (batch_fields legacy_batch))
               (map legacy_record (e :: l)))
    /\ ReadKafkaBatchHeader decompress data 2 = Ok (Some h)
    /\ RecordsCount h = Z.of_nat (length (e :: l))
    /\ BaseOffset (header_fields h) = v0_Offset e
    /\ LastOffsetDelta (header_fields h)
       = wrapS 32 (default (v0_Offset e) (v0_Offset <$> last l) - v0_Offset e).
Proof.
  intros Hv Hl Hn. exists (enc_entries version (e :: l)). eexists. split_and!.
  - apply appends_run; [done|]. apply appends_for_each. eapply Forall_impl; [exact Hl|].
    intros. by apply entry_appends.
  - by apply legacy_batch_read.
  - by apply legacy_header_read.
  - apply header_fold_legacy.
  - apply header_fold_legacy.
  - apply header_fold_legacy.
Qed.

Definition example_entry (o : Z) : TKafkaRecordBatchV0 :=
  mkBatchV0 o (mkRecordV0 20 0 1 0 1700000000000 None (Some (letters [118]))).

Lemma kafka_legacy_round_trip_witness :
  exists data h,
    run_on (new_buffer WriteBufferChunkSize)
      (for_each (TKafkaRecordBatchV0_Write 1) [example_entry 5; example_entry 7] ;; gets AsString)
    = Ok data
    /\ ReadKafkaBatchHeader toy_decompress data 2 = Ok (Some h) /\ RecordsCount h = 2
    /\ BaseOffset (header_fields h) = 5 /\ LastOffsetDelta (header_fields h) = 2.
Proof.
  destruct (kafka_legacy_round_trip 240 48 toy_decompress 1 (example_entry 5) [example_entry 7])
    as (data & h & Hw & _ & Hh & Hc & Hb & Hd).
  - by right.
  - repeat constructor; try done; try (by eexists).
  - reflexivity.
  - exists data, h. split_and!; [exact Hw|exact Hh|exact Hc|exact Hb|exact Hd].
Defined.
